(* ===== verification/_CoqProject ===== *)
-Q . S2P
Prelude.v
ByteOrder.v
Buffer.v
ByteBuffer.v
Crc.v
SUtil.v
BufferQueue.v
ThreadQueue.v
RtpRtcp.v
PortMgr.v
StringEncode.v
MessageDigest.v
SslFingerprint.v
SdpTypes.v
Uvnet.v
Stun.v
CryptoSuites.v
Dtls.v
CopyOnWriteBuffer.v
Srtp.v
RtcStreamMgr.v
Base64.v
TimeUtils.v
SslIdentity.v
Certificates.v
Numerics.v
FieldTrial.v
Metrics.v
Percentile.v
Event.v
Sigslot.v
Thread.v
ThreadManager.v
Units.v
StringBuilder.v
Tasks.v
OpenSslStream.v
SslAdapter.v
SslCiphers.v
DtlsKeys.v
IpAddress.v
SocketAddress.v
SocketServer.v
Helpers.v
Sdp.v
SdpRoundtrip.v
IceConnection.v
RoomMember.v
Json.v
Signaling.v
