(* ===== verification/Prelude.v ===== *)
(** * juanSFU: a verification library

    juanSFU (src/server/juansfu) is a selective forwarding unit: browsers join
    a room over a web socket, one publishes its microphone and camera over
    WebRTC, others pull that stream, and the server forwards the publisher's
    packets to them.  The library models the server's own C++ code and the
    parts of the vendored WebRTC base code it runs on.

    ** How the program works, and where each part is

    - A request arrives on the web socket (signaling/wss_server.cpp) as JSON and
      is handled by SignalingHandle (signaling/signaling_handle.cpp): [join]
      files a member in a room; [publish] and [pullstream] parse the offer
      (sdp/session_description.cpp), take a UDP port (signaling/port_mgr.cpp),
      answer and bind a receiver.  Files: [Json], [Signaling], [SdpTypes],
      [Sdp], [SdpRoundtrip], [PortMgr].
    - A datagram arrives at a member (signaling/room_member.cpp), which tells
      STUN, DTLS and media apart by their first bytes.  STUN goes to
      udp/stun.cpp and udp/ice_connection.cpp, DTLS to udp/rtc_dtls.cpp, media
      to udp/srtp_transport.cpp and udp/srtp_session.cpp.  Files: [RoomMember],
      [IceConnection], [Stun], [Dtls], [CryptoSuites], [Srtp], [RtpRtcp].
    - udp/rtc_dtls.cpp runs the handshake with the SSL stream adapter of
      rtc_base (openssl_stream_adapter.cc), which checks the peer's certificate
      against the fingerprint of the offer.  Files: [OpenSslStream],
      [SslCiphers]; [DtlsKeys] puts [Dtls] on top of [OpenSslStream].
    - At start-up utils/global.cpp makes the server's key and certificate
      (rtc_base/openssl_key_pair.cc, openssl_certificate.cc, openssl_identity.cc,
      rtc_certificate.cc).  Files: [Base64], [TimeUtils], [SslIdentity],
      [Certificates].
    - The adapter signals its events through sigslot and posts its timers to
      the queue of the current thread (rtc_base/sigslot, thread.cc,
      task_utils).  Files: [Sigslot], [Thread], [ThreadManager], [Units],
      [Tasks].
    - For TCP the same base code has a TLS adapter over sockets
      (openssl_adapter.cc, openssl_session_cache.cc) and the sockets of the
      system with the server that waits for them (physical_socket_server.cc,
      async_resolver.cc).  Files: [SslAdapter], [SocketServer].
    - udp/rtc_stream_mgr.cpp links the transports of a publisher and its
      subscribers.  File: [RtcStreamMgr].
    - Under these: byte order, buffers, checksums, digests, certificate
      fingerprints, addresses, random strings, text helpers, conversions
      between integer types, field trials, metrics, percentiles, events.  Files:
      [ByteOrder], [Buffer], [ByteBuffer], [CopyOnWriteBuffer], [BufferQueue],
      [ThreadQueue], [Crc], [MessageDigest], [SslFingerprint], [StringEncode],
      [SUtil], [Helpers], [IpAddress], [SocketAddress], [StringBuilder], [Numerics],
      [FieldTrial], [Metrics], [Percentile], [Event].

    ** How the code is translated

    A C++ call that can leave the defined part of the language returns [res],
    this file's error monad; [fault] names the ways (a read outside an object,
    a null or dangling pointer, an exception nothing catches, an assertion, an
    uninitialised value).  A byte is a [Z] in 0..255, a block of memory or a
    string a list of bytes; an access goes through [mem_read], [mem_get] or
    [mem_write], which check the bounds.  A fixed-width integer is a [Z] and
    its conversions are [u8] ... [i64], written where C++ converts.  A struct
    or class is a Record with its members' names, a method a function that
    takes and returns the record.  Objects reached through several pointers
    live in a store: the shared buffers of [CopyOnWriteBuffer], the transports
    of [Srtp.world].  Where objects are deleted while pointers to them remain,
    the store knows which still exist, and a call through a pointer to one that
    does not is the fault [Dangling]: the UDP sockets ([Uvnet.udps]), which
    receivers make and members delete while transports keep using them, the
    signals and slots, the dispatchers of the socket server.  A [Buffer] keeps
    the blocks it has freed, as they were when it freed them.  An [unordered_map] is a [gmap]; where the code iterates
    over one the order is a parameter, constrained at most to be a permutation.
    What the server sends is collected in lists.  Names are the source's,
    misspellings included ([destory]).

    Libraries the sources only call are type classes or section variables with
    the behaviour the code relies on as laws, and each has an instance for the
    concrete runs: OpenSSL's hashes ([MessageDigest.Evp]), its connections
    ([OpenSslStream.OpenSSL]: calls that may come back into the adapter are
    programs over these callbacks), its random generator ([Helpers.RandomGenerator]) and
    certificates ([SslFingerprint.SSLCertificate]), libsrtp ([Srtp.SrtpLib]),
    its objects, counted by reference ([Certificates.SslLib]), the binary heap
    of std::priority_queue ([Thread.HeapOps]), OpenSSL and the socket of the
    TLS adapter ([SslAdapter.TlsLib], [SslAdapter.Socket]), the system calls
    about sockets ([SocketServer.Kernel]),
    the system's address conversions ([IpAddress.NetOps]), uvnet's addresses
    ([Uvnet.IpAddressOps], [Signaling.IpAddressMake]), jsoncpp
    ([Json.JsonOps]).  The SSL adapter is used through an interface
    ([Dtls.SslAdapter]) and implemented ([DtlsKeys.OpenSSL_SslAdapter]).

    ** The state of the server

    [Signaling.server] holds the rooms with their members, the maps from
    connections to rooms, the random generator and [core], the state all
    members share: port manager, stream manager, transports and the UDP
    sockets that exist ([RoomMember.sfu]).  [Signaling.step] is one event of
    the loop: a new connection, a message, a disconnect, or a datagram that
    comes to a socket, whoever has bound it.  The
    program is single threaded, so an execution is a sequence of events.

    ** What is shown

    - The whole server.  [Signaling.server_safe]: in every state reachable by
      any interleaving of events each member is filed under its name, no two
      members of any rooms hold the same port or socket, every transport has
      its sessions and only existing subscribers, and disconnects and benign
      datagrams do not fault; [replaced_receiver_dangling] and
      [publisher_left_dangling] are datagrams that do.  [join_adds_member],
      [close_takes_member_out] and [bad_request_throws] say what requests and
      disconnects do.  The examples
      at the end of [Signaling] run two browsers from their join to the packet
      forwarded.
    - One member.  [RoomMember]: the classification is unambiguous
      ([demux_disjoint]), an address is admitted only by a packet that passes
      [validate] ([admission_authenticated]), media goes only along links
      ([media_only_to_links]), and no benign datagram faults
      ([on_udp_receive_safe]).
    - The handshake.  [DtlsKeys.keys_authenticated]: keys are extracted only
      after a handshake with the peer whose certificate has the fingerprint
      that was set.  [OpenSslStream]: the stream opens only to such a peer
      ([open_means_verified]), sends only records OpenSSL made and delivers
      only what it deciphered ([no_clear_text]), and a call whose preconditions
      hold does not fault ([adapter_calls_safe]).  Both this adapter and the
      next have a BIO that dereferences a null pointer when OpenSSL asks it for
      the end of file, as OpenSSL 3 does and 1.1 does not: [asks_eof] says
      whether the library does, and the theorems state that fault.
    - TLS over sockets.  [SslAdapter.tls_stream_intact]: in runs of calls,
      events and reentrant slots what was accepted is what OpenSSL took and
      the write it has to repeat; [opened_means_checked] says what was checked
      of the connection a handshake opens, whenever the verifier consented
      ([consents]).
    - Sockets.  [SocketServer.socket_runs_safe]: whatever is created, used,
      closed, deleted, resolved and waited for, by the thread or by slots that
      do not delete the socket that calls them, no deleted dispatcher is
      reached and the registry names exactly the open sockets; [events_to_registered] says whom a select's events reach, also
      when slots replace sockets; [wakeup_not_lost]: a wait that is woken up
      returns after a select no signal handler interrupts.
    - The certificate.  [Certificates.generated_certificate]: key pair,
      certificate and identity are made without a leak or a double free on
      every path, and the certificate expires when it says.  [SslIdentity]:
      PEM and certificate times read back what was written.
    - Events and threads.  [Sigslot.runs_keep_links]: whatever is connected
      and copied, and whichever slots are destroyed, while signals fire, no
      deleted object is reached; [emission_calls] says whom an emission calls.  [Thread]: messages come
      out in order ([get_in_order]), none is lost or deleted twice
      ([get_conserves_data]), none is slept through ([get_wakes_in_time]).
      [ThreadManager.sends_never_deadlock]: the graph of all sends ever made,
      and with it that of the threads waiting, stays without a cycle.  [Tasks]: a stopped task does not run, a repeating one
      keeps its schedule.  [Event.calls_linearize]: the calls of threads on an
      event behave as a sequential event's, whatever the interleaving, and
      [set_event_ends_wait]: no thread sleeps through a set event.
    - Protocols.  [Stun]: the response is accepted by the parser, acceptance
      implies the HMAC.  [Dtls]: the record check, the state machine, the cut
      of the key block.  [Srtp]: a packet is forwarded, re-encrypted, to the
      subscribers only, and buffers are large enough.  [RtcStreamMgr]: every
      link was asked for.  [RtpRtcp]: classification stays in bounds and
      sequence numbers are unwrapped.  [SdpRoundtrip]: a printed description
      parses back.
    - Data structures.  [CopyOnWriteBuffer] refines independent values,
      [BufferQueue] a bounded FIFO; [ThreadQueue] keeps its order and loses no
      wakeup in any interleaving, the notifications after unlocking included; [PortMgr] hands out no port twice; [Buffer]
      zeroes what it frees; [ByteBuffer] reads back what it wrote;
      [Numerics] compares, converts and clamps integers of any two types
      exactly; [Percentile] refines a bag of observations, and gives the
      median of the last samples; [Metrics] loses no sample and counts none twice, in any order
      of the steps of threads that count and take reports.
    - Text.  [StringBuilder.builder_text]: streaming never leaves the array;
      [StringToNumber_spec]: exactly the numbers a type has are read;
      [times_print_exactly] and [SocketAddress.hostname_text_roundtrip]: times
      and named addresses are printed in full and read back.
    - Computations against references: [Crc] and the shift register,
      [MessageDigest] and RFC 2104, [StringEncode] and [SUtil].
    - Defects found are theorems or examples where they can be: among them
      [Stun.parse_reads_past_end], [RoomMember.malformed_stun_crashes],
      [Signaling.second_member_stays], [Signaling.republish_leaks_port],
      [PortMgr.zero_port_displaces], [ThreadQueue.clear_loses_wakeup],
      [OpenSslStream.timer_hides_failure], [SslCiphers.cipher_table],
      [Thread.timers_pile_up], [Percentile.maximum_past_end], [Sigslot.nested_emission_ends_outer].

    ** Fuel and bounds

    Loops whose recursion is not structural take a number of rounds that the
    lemmas show to be enough: [Dtls.records_ok] the length of the packet (each
    record is at least 13 bytes), [SUtil.split_loop] the length of the text (it
    reports [OutOfFuel] only for an empty separator, for which the code does
    not return), [dec_digits] 20 digits (a 64-bit number), the variable-length
    integers of [ByteBuffer] the ten rounds of a 64-bit value.  The attribute
    loop of STUN has the code's own bound of 20 rounds.  The flush of a
    truncated datagram ([OpenSslStream.flush_loop]) takes at least a byte of
    what is left in each round.  A client of the SSL adapter is given a number
    of reads for each signal ([DtlsKeys.drain_log]): the code's loop has no
    bound of its own.
    [SocketServer.select_loop] counts selects, of which a wait may need any
    number; [wakeup_not_lost] shows that one is enough after a wake-up.
    [SocketServer.peek] repeats an interrupted call as often as the system
    interrupts it in a row ([patience]).
    [Base64.decode_loop] reads a character or more in each round,
    [Certificates.chain_loop] a certificate of the chain.
    [Sigslot.exec] spends a unit on every operation and every call of a
    method; how many a program needs depends on its methods, so
    [emission_calls] states that some number is enough.  A thread's wait for
    messages takes one event of its environment ([Thread.get_loop]), whose
    list therefore bounds the rounds.  [ThreadManager.collect_targets] needs
    the number of threads reachable by sends, which an acyclic graph bounds.
    [Helpers.CreateRandomNonZeroId] repeats until the generator gives a
    non-zero value, for which there is no bound: its fuel is an argument.

    ** What a datagram and a request are assumed to be

    [RoomMember.benign]: STUN that [parse] accepts and whose HMAC attributes
    are long enough to be compared, media only once keys can be exported and
    while the transports it is linked to have their sockets.
    [Signaling.benign_for]: and a socket whose receiver was not replaced.
    [Signaling.has_port]: a port is left when a message arrives, because the
    port 0 given otherwise displaces a real one.  What happens outside these
    assumptions is stated by the theorems on faults and by the findings.

    ** Not modelled

    The event loop, its sockets and the web socket (uvnet and libuv), OpenSSL,
    libsrtp and jsoncpp: libraries.  Logging, clocks, file access, and the
    message printing of the handlers: I/O.  The sends between threads that
    block their caller, the start and the joining of system threads, and
    mutexes; logging and tracing (rtc_base): glue around the operating
    system which the server does not use.  The branches of the socket server
    for epoll and Windows, which the build leaves out.  The table of root
    certificates (ssl_roots.h) is a parameter.  Floating-point operations of
    times, durations and text builders.  The BoringSSL branches of the SSL stream adapter:
    the build uses OpenSSL.  The browser client (src/webrtc-client) is another
    program. *)
From Stdlib Require Export ZArith Lia String Ascii.
From stdpp Require Export base list gmap strings numbers.

Local Open Scope Z_scope.

(** ** Faults and the error monad

    A C++ call either returns a value or leaves the defined part of the
    language.  [fault] names the ways the modelled code can do so. *)
Inductive fault :=
  | OutOfBounds      (* a read or write outside the object *)
  | NullDeref        (* a member call through a null (shared) pointer *)
  | Dangling         (* an access through a pointer whose block was freed *)
  | OutOfRange       (* std::out_of_range: substr, at, stoll *)
  | InvalidArgument  (* std::invalid_argument: stoll *)
  | LogicError       (* std::logic_error: Singleton, jsoncpp *)
  | AssertFailed     (* assert / RTC_CHECK *)
  | DivByZero        (* integer division by zero *)
  | Uninitialized    (* the value of an uninitialised object is used *)
  | OutOfFuel.       (* a loop of the model ran out of its round budget *)

#[export] Instance fault_eq_dec : EqDecision fault.
Proof. solve_decision. Defined.

Inductive res (A : Type) : Type :=
  | Ok (a : A)
  | Fail (f : fault).
Arguments Ok {A} a.
Arguments Fail {A} f.

#[export] Instance res_eq_dec {A} `{EqDecision A} : EqDecision (res A).
Proof. solve_decision. Defined.

#[export] Instance res_ret : MRet res := fun A a => Ok a.
#[export] Instance res_bind : MBind res := fun A B f m =>
  match m with Ok a => f a | Fail e => Fail e end.
#[export] Instance res_fmap : FMap res := fun A B f m =>
  match m with Ok a => Ok (f a) | Fail e => Fail e end.

Definition is_ok {A} (m : res A) : bool :=
  match m with Ok _ => true | Fail _ => false end.

(** [require b e] continues when [b] holds and faults with [e] otherwise. *)
Definition require (b : bool) (e : fault) : res unit := if b then Ok tt else Fail e.

Definition from_opt {A} (e : fault) (o : option A) : res A :=
  match o with Some a => Ok a | None => Fail e end.

Lemma res_bind_ok {A B} (m : res A) (f : A -> res B) b :
  m ≫= f = Ok b <-> exists a, m = Ok a /\ f a = Ok b.
Proof.
  destruct m as [a|e]; cbn; split.
  - eauto.
  - intros (? & [= <-] & ?); done.
  - done.
  - intros (? & ? & ?); done.
Qed.

(** Rewriting a bind instead of reducing it keeps its parts folded. *)
Lemma bind_ok {A B} (a : A) (f : A -> res B) : Ok a ≫= f = f a.
Proof. reflexivity. Qed.

Lemma from_opt_Some {A} e (a : A) : from_opt e (Some a) = Ok a.
Proof. reflexivity. Qed.

Lemma from_opt_ok {A} e (o : option A) a : from_opt e o = Ok a -> o = Some a.
Proof. destruct o; [by intros [= ->]|done]. Qed.

Lemma res_fmap_ok {A B} (m : res A) (f : A -> B) b :
  f <$> m = Ok b <-> exists a, m = Ok a /\ b = f a.
Proof.
  destruct m as [a|e]; cbn; split.
  - intros [= <-]; eauto.
  - intros (? & [= <-] & ->); done.
  - done.
  - intros (? & ? & ?); done.
Qed.

Lemma ok_inj {A} (a b : A) : Ok a = Ok b -> a = b.
Proof. congruence. Qed.

Lemma require_ok b e u : require b e = Ok u <-> b = true.
Proof. destruct b, u; cbn; split; congruence. Qed.

(** [returns m Q]: [m] does not fault, and [Q] holds of its value. *)
Definition returns {A} (m : res A) (Q : A -> Prop) : Prop := exists a, m = Ok a /\ Q a.

Lemma returns_ok {A} (a : A) (Q : A -> Prop) : Q a -> returns (Ok a) Q.
Proof. by exists a. Qed.

Lemma returns_bind {A B} (m : res A) (f : A -> res B) (P : A -> Prop) (Q : B -> Prop) :
  returns m P -> (forall a, P a -> returns (f a) Q) -> returns (m ≫= f) Q.
Proof. intros (a & -> & Ha) Hf. by apply Hf. Qed.

Lemma returns_require (b : bool) e {A} (f : unit -> res A) (Q : A -> Prop) :
  b = true -> returns (f tt) Q -> returns (require b e ≫= f) Q.
Proof. by intros ->. Qed.

Lemma returns_weaken {A} (m : res A) (P Q : A -> Prop) :
  returns m P -> (forall a, P a -> Q a) -> returns m Q.
Proof. intros (a & -> & Ha) Hw. exists a. auto. Qed.

Lemma returns_fmap {A B} (m : res A) (f : A -> B) (Q : B -> Prop) :
  returns m (fun a => Q (f a)) -> returns (f <$> m) Q.
Proof. intros (a & -> & Ha). by exists (f a). Qed.

(** [safely P m Q]: [Q] holds of the value [m] returns, and if [m] faults it is
    with a fault that satisfies [P]. *)
Definition safely (P : fault -> Prop) {A} (m : res A) (Q : A -> Prop) : Prop :=
  match m with Ok a => Q a | Fail e => P e end.

Section Safely.
Context {P : fault -> Prop}.

Lemma safely_ok {A} (a : A) (Q : A -> Prop) : Q a -> safely P (Ok a) Q.
Proof. done. Qed.

Lemma safely_bind {A B} (m : res A) (f : A -> res B) (R : A -> Prop) (Q : B -> Prop) :
  safely P m R -> (forall a, R a -> safely P (f a) Q) -> safely P (m ≫= f) Q.
Proof. destruct m; cbn; auto. Qed.

Lemma safely_require (b : bool) e {A} (f : unit -> res A) (Q : A -> Prop) :
  b = true -> safely P (f tt) Q -> safely P (require b e ≫= f) Q.
Proof. by intros ->. Qed.

Lemma safely_weaken {A} (m : res A) (R Q : A -> Prop) :
  safely P m R -> (forall a, R a -> Q a) -> safely P m Q.
Proof. destruct m; cbn; auto. Qed.

Lemma safely_fmap {A B} (m : res A) (f : A -> B) (Q : B -> Prop) :
  safely P m (fun a => Q (f a)) -> safely P (f <$> m) Q.
Proof. by destruct m. Qed.

Lemma safely_value {A} (m : res A) (a : A) (Q : A -> Prop) : safely P m Q -> m = Ok a -> Q a.
Proof. by intros Hm ->. Qed.
End Safely.

(** [res_inv] opens a chain of monadic binds that returned a value. *)
Ltac res_inv :=
  repeat match goal with
  | H : mbind _ _ = Ok _ |- _ =>
      apply res_bind_ok in H; destruct H as (? & ? & H)
  | H : fmap _ _ = Ok _ |- _ =>
      apply res_fmap_ok in H; destruct H as (? & ? & ?); subst
  | H : require _ _ = Ok _ |- _ => apply require_ok in H
  | H : Ok _ = Ok _ |- _ => injection H as H; subst
  | H : Fail _ = Ok _ |- _ => discriminate H
  | H : Ok _ = Fail _ |- _ => discriminate H
  end.

(** [bool_inv] turns the boolean tests of the code into propositions. *)
Ltac bool_inv :=
  repeat match goal with
  | H : andb _ _ = true |- _ => apply andb_prop in H; destruct H
  | H : orb _ _ = false |- _ => apply Bool.orb_false_elim in H; destruct H
  | H : negb _ = true |- _ => apply Bool.negb_true_iff in H
  | H : negb _ = false |- _ => apply Bool.negb_false_iff in H
  | H : bool_decide _ = true |- _ => apply bool_decide_eq_true in H
  | H : bool_decide _ = false |- _ => apply bool_decide_eq_false in H
  | H : (_ =? _)%Z = true |- _ => apply Z.eqb_eq in H
  | H : (_ =? _)%Z = false |- _ => apply Z.eqb_neq in H
  | H : (_ <? _)%Z = true |- _ => apply Z.ltb_lt in H
  | H : (_ <? _)%Z = false |- _ => apply Z.ltb_ge in H
  | H : (_ <=? _)%Z = true |- _ => apply Z.leb_le in H
  | H : (_ <=? _)%Z = false |- _ => apply Z.leb_gt in H
  | H : (_ >? _)%Z = true |- _ => rewrite Z.gtb_ltb in H
  | H : (_ >? _)%Z = false |- _ => rewrite Z.gtb_ltb in H
  | H : (_ >=? _)%Z = true |- _ => rewrite Z.geb_leb in H
  | H : (_ >=? _)%Z = false |- _ => rewrite Z.geb_leb in H
  | H : (_ =? _)%nat = true |- _ => apply Nat.eqb_eq in H
  | H : (_ =? _)%nat = false |- _ => apply Nat.eqb_neq in H
  | H : (_ <? _)%nat = true |- _ => apply Nat.ltb_lt in H
  | H : (_ <? _)%nat = false |- _ => apply Nat.ltb_ge in H
  | H : (_ <=? _)%nat = true |- _ => apply Nat.leb_le in H
  | H : (_ <=? _)%nat = false |- _ => apply Nat.leb_gt in H
  end.

(** ** Machine integers

    Integers are [Z]; the conversions of the C++ integer types are written
    out as the reductions below. *)
Definition u8 (z : Z) : Z := z mod 256.
Definition u16 (z : Z) : Z := z mod 65536.
Definition u32 (z : Z) : Z := z mod 4294967296.
Definition u64 (z : Z) : Z := z mod 18446744073709551616.
Definition i8 (z : Z) : Z := (z + 128) mod 256 - 128.
Definition i32 (z : Z) : Z := (z + 2147483648) mod 4294967296 - 2147483648.
Definition i64 (z : Z) : Z :=
  (z + 9223372036854775808) mod 18446744073709551616 - 9223372036854775808.

Create HintDb word.

Lemma u8_range z : 0 <= u8 z < 256.
Proof. apply Z.mod_pos_bound; lia. Qed.
Lemma u16_range z : 0 <= u16 z < 65536.
Proof. apply Z.mod_pos_bound; lia. Qed.
Lemma u32_range z : 0 <= u32 z < 4294967296.
Proof. apply Z.mod_pos_bound; lia. Qed.
Lemma u64_range z : 0 <= u64 z < 18446744073709551616.
Proof. apply Z.mod_pos_bound; lia. Qed.
Lemma i32_range z : -2147483648 <= i32 z < 2147483648.
Proof.
  unfold i32. pose proof (Z.mod_pos_bound (z + 2147483648) 4294967296). lia.
Qed.
Lemma u8_small z : 0 <= z < 256 -> u8 z = z.
Proof. apply Z.mod_small. Qed.
Lemma u16_small z : 0 <= z < 65536 -> u16 z = z.
Proof. apply Z.mod_small. Qed.
Lemma u32_small z : 0 <= z < 4294967296 -> u32 z = z.
Proof. apply Z.mod_small. Qed.
Lemma u64_small z : 0 <= z < 18446744073709551616 -> u64 z = z.
Proof. apply Z.mod_small. Qed.
Lemma i32_small z : -2147483648 <= z < 2147483648 -> i32 z = z.
Proof. intros ?. unfold i32. rewrite Z.mod_small; lia. Qed.

#[export] Hint Resolve u8_range u16_range u32_range u64_range i32_range : word.

(** ** Bytes, memory and std::string

    A block of memory, a [std::string] and a [rtc::Buffer]'s contents are all
    lists of byte values 0..255.  A pointer and a length passed together
    ([const uint8_t* data, size_t len]) are the list of the [len] bytes. *)
Abbreviation bytes := (list Z).

Definition is_byte (b : Z) : Prop := 0 <= b < 256.
Abbreviation wf_bytes := (Forall is_byte).

#[export] Instance is_byte_dec b : Decision (is_byte b).
Proof. unfold is_byte. apply _. Defined.

(** The length of a block as the [size_t] the code computes with. *)
Definition zlen {A} (l : list A) : Z := Z.of_nat (length l).

(** String literals of the source. *)
Fixpoint lit (s : string) : bytes :=
  match s with
  | EmptyString => []
  | String c s' => Z.of_N (N_of_ascii c) :: lit s'
  end.

Arguments lit s%_string_scope.

(** The value of the character constant ['c']. *)
Definition chr (c : ascii) : Z := Z.of_N (N_of_ascii c).

(** Reads of [n] bytes at [off]; a read that leaves the block faults. *)
Definition mem_read (m : bytes) (off n : Z) : res bytes :=
  if (0 <=? off) && (0 <=? n) && (off + n <=? zlen m)
  then Ok (take (Z.to_nat n) (drop (Z.to_nat off) m))
  else Fail OutOfBounds.

Definition mem_get (m : bytes) (i : Z) : res Z :=
  if 0 <=? i then from_opt OutOfBounds (m !! Z.to_nat i) else Fail OutOfBounds.

(** Writes of the bytes [v] at [off]. *)
Definition mem_write (m : bytes) (off : Z) (v : bytes) : res bytes :=
  if (0 <=? off) && (off + zlen v <=? zlen m)
  then Ok (take (Z.to_nat off) m ++ v ++ drop (Z.to_nat off + length v) m)
  else Fail OutOfBounds.

Lemma zlen_nonneg {A} (l : list A) : 0 <= zlen l.
Proof. unfold zlen. lia. Qed.
Lemma zlen_nil {A} : zlen ([] : list A) = 0.
Proof. done. Qed.
Lemma zlen_cons {A} (x : A) l : zlen (x :: l) = 1 + zlen l.
Proof. unfold zlen. cbn [length]. lia. Qed.
Lemma nonempty_zlen {A} (l : list A) : l <> [] -> (zlen l <? 1) = false.
Proof. destruct l as [|x l]; [done|]. intros _. rewrite zlen_cons. apply Z.ltb_ge. pose proof (zlen_nonneg l). lia. Qed.
Lemma zlen_app {A} (l k : list A) : zlen (l ++ k) = zlen l + zlen k.
Proof. unfold zlen. rewrite length_app. lia. Qed.
Lemma zlen_take {A} (l : list A) n : 0 <= n <= zlen l -> zlen (take (Z.to_nat n) l) = n.
Proof. unfold zlen. rewrite length_take. lia. Qed.
Lemma zlen_drop {A} (l : list A) n :
  0 <= n <= zlen l -> zlen (drop (Z.to_nat n) l) = zlen l - n.
Proof. unfold zlen. rewrite length_drop. lia. Qed.

Lemma mem_read_ok m off n :
  0 <= off -> 0 <= n -> off + n <= zlen m ->
  mem_read m off n = Ok (take (Z.to_nat n) (drop (Z.to_nat off) m)).
Proof.
  intros. unfold mem_read.
  by rewrite (proj2 (Z.leb_le 0 off)), (proj2 (Z.leb_le 0 n)),
    (proj2 (Z.leb_le (off + n) (zlen m))) by lia.
Qed.

Lemma mem_read_inv m off n v :
  mem_read m off n = Ok v ->
  0 <= off /\ 0 <= n /\ off + n <= zlen m /\
  v = take (Z.to_nat n) (drop (Z.to_nat off) m).
Proof. unfold mem_read. intros H. case_match; [|done]. bool_inv. res_inv. done. Qed.

Lemma mem_read_length m off n v : mem_read m off n = Ok v -> zlen v = n.
Proof.
  intros (? & ? & ? & ->)%mem_read_inv.
  rewrite zlen_take; [done|]. rewrite zlen_drop by lia. lia.
Qed.

Lemma mem_read_fail m off n : zlen m < off + n -> mem_read m off n = Fail OutOfBounds.
Proof.
  intros. unfold mem_read. rewrite (proj2 (Z.leb_gt (off + n) (zlen m))) by lia.
  by rewrite andb_false_r.
Qed.

(** A read that falls in the middle of a block laid out as [a ++ b ++ c]. *)
Lemma mem_read_mid (a b c : bytes) off n :
  off = zlen a -> n = zlen b -> mem_read (a ++ b ++ c) off n = Ok b.
Proof.
  intros -> ->. rewrite mem_read_ok.
  - f_equal. unfold zlen. rewrite !Nat2Z.id, drop_app_length.
    by rewrite take_app_length.
  - apply zlen_nonneg.
  - apply zlen_nonneg.
  - rewrite !zlen_app. pose proof (zlen_nonneg c). lia.
Qed.

(** Reads that fall in one part of a concatenation. *)
Lemma mem_read_app_r (a b : bytes) off n :
  zlen a <= off -> mem_read (a ++ b) off n = mem_read b (off - zlen a) n.
Proof.
  intros Ho. pose proof (zlen_nonneg a). unfold mem_read. rewrite zlen_app.
  replace (0 <=? off) with true by (symmetry; apply Z.leb_le; lia).
  replace (0 <=? off - zlen a) with true by (symmetry; apply Z.leb_le; lia).
  replace (off - zlen a + n <=? zlen b) with (off + n <=? zlen a + zlen b)
    by (apply Bool.eq_iff_eq_true; rewrite !Z.leb_le; lia).
  case_match; [|done]. do 2 f_equal. rewrite drop_app_ge by (unfold zlen in *; lia).
  f_equal. unfold zlen. lia.
Qed.

Lemma mem_read_app_l (a b : bytes) off n :
  0 <= n -> off + n <= zlen a -> mem_read (a ++ b) off n = mem_read a off n.
Proof.
  intros Hn Ho. pose proof (zlen_nonneg b). unfold mem_read. rewrite zlen_app.
  rewrite (proj2 (Z.leb_le (off + n) (zlen a + zlen b))), (proj2 (Z.leb_le (off + n) (zlen a))) by lia.
  destruct (Z.leb_spec 0 off); [|done]. cbn. destruct (0 <=? n); [|done]. cbn. f_equal.
  rewrite drop_app_le by (unfold zlen in *; lia).
  rewrite take_app_le; [done|]. rewrite length_drop. unfold zlen in *. lia.
Qed.

Lemma mem_read_all (a : bytes) n : n = zlen a -> mem_read a 0 n = Ok a.
Proof.
  intros ->. pose proof (zlen_nonneg a). rewrite mem_read_ok, drop_0 by lia. f_equal.
  apply take_ge. unfold zlen. lia.
Qed.

Lemma mem_get_inv m i b :
  mem_get m i = Ok b <-> 0 <= i /\ m !! Z.to_nat i = Some b.
Proof.
  unfold mem_get, from_opt. destruct (Z.leb_spec 0 i).
  - case_match; split; intros; destruct_and?; simplify_eq; eauto.
  - split; intros; [done | lia].
Qed.

Lemma mem_get_ok m i : 0 <= i < zlen m -> exists b, mem_get m i = Ok b.
Proof.
  intros ?. destruct (lookup_lt_is_Some_2 m (Z.to_nat i)) as [b Hb].
  - unfold zlen in *. lia.
  - exists b. apply mem_get_inv. split; [lia | done].
Qed.

Lemma mem_write_ok m off v :
  0 <= off -> off + zlen v <= zlen m ->
  mem_write m off v = Ok (take (Z.to_nat off) m ++ v ++ drop (Z.to_nat off + length v) m).
Proof.
  intros. unfold mem_write.
  by rewrite (proj2 (Z.leb_le 0 off)), (proj2 (Z.leb_le (off + zlen v) (zlen m))) by lia.
Qed.

Lemma mem_write_mid (a b c v : bytes) off :
  off = zlen a -> length v = length b -> mem_write (a ++ b ++ c) off v = Ok (a ++ v ++ c).
Proof.
  intros -> Hv. rewrite mem_write_ok.
  - unfold zlen. rewrite Nat2Z.id, take_app_length. do 3 f_equal.
    rewrite app_assoc, Hv, <- length_app. by rewrite drop_app_length.
  - apply zlen_nonneg.
  - rewrite !zlen_app. unfold zlen. lia.
Qed.

Lemma mem_write_length m off v m' : mem_write m off v = Ok m' -> zlen m' = zlen m.
Proof.
  unfold mem_write. intros H. case_match; [|done]. bool_inv. res_inv.
  unfold zlen in *. rewrite !length_app, length_take, length_drop. lia.
Qed.

(** *** Searching and slicing strings *)

Fixpoint is_prefix (p s : bytes) : bool :=
  match p, s with
  | [], _ => true
  | _ :: _, [] => false
  | x :: p', y :: s' => (x =? y) && is_prefix p' s'
  end.

Fixpoint find_at (sub s : bytes) : option nat :=
  if is_prefix sub s then Some 0%nat
  else match s with
       | [] => None
       | _ :: s' => S <$> find_at sub s'
       end.

(** [s.find(sub, off)]; [None] is [npos]. *)
Definition find_from (sub s : bytes) (off : Z) : option Z :=
  if off <=? zlen s
  then (fun i : nat => off + Z.of_nat i) <$> find_at sub (drop (Z.to_nat off) s)
  else None.

Definition contains (sub s : bytes) : bool := bool_decide (is_Some (find_from sub s 0)).

(** [s.substr(pos, n)] with unsigned [pos] and [n]: throws past the end and
    truncates the count. *)
Definition substr (s : bytes) (pos n : Z) : res bytes :=
  if zlen s <? pos then Fail OutOfRange
  else Ok (take (Z.to_nat (Z.min n (zlen s - pos))) (drop (Z.to_nat pos) s)).

(** [s.substr(pos)]. *)
Definition substr_from (s : bytes) (pos : Z) : res bytes := substr s pos (zlen s).

(** What [c_str()] shows to C: the string up to its first NUL. *)
Fixpoint c_str (s : bytes) : bytes :=
  match s with [] => [] | c :: s => if c =? 0 then [] else c :: c_str s end.

Lemma is_prefix_spec p s : is_prefix p s = true <-> exists t, s = p ++ t.
Proof.
  revert s. induction p as [|x p IH]; intros [|y s]; cbn.
  - split; [eauto | done].
  - split; [eauto | done].
  - split; [done | intros [t [=]]].
  - rewrite andb_true_iff, Z.eqb_eq, IH. split.
    + intros [-> [t ->]]. by exists t.
    + intros [t [= -> ->]]. eauto.
Qed.

Lemma is_prefix_app p t : is_prefix p (p ++ t) = true.
Proof. apply is_prefix_spec. eauto. Qed.

Lemma find_at_Some sub s i :
  find_at sub s = Some i ->
  exists a t, s = a ++ sub ++ t /\ length a = i /\
    forall j, (j < i)%nat -> is_prefix sub (drop j s) = false.
Proof.
  revert i. induction s as [|x s IH]; intros i H; cbn [find_at] in H;
    destruct (is_prefix sub _) eqn:Hp.
  - injection H as <-. apply is_prefix_spec in Hp as [t ->].
    exists [], t. split_and!; [done | done | lia].
  - done.
  - injection H as <-. apply is_prefix_spec in Hp as [t Ht].
    exists [], t. split_and!; [done | done | lia].
  - apply fmap_Some in H as (k & Hk & ->).
    destruct (IH _ Hk) as (a & t & Hs & Hl & Hmin). exists (x :: a), t. split_and!.
    + cbn. by rewrite <- Hs.
    + cbn. lia.
    + intros [|j] Hj; [done|]. cbn. apply Hmin. lia.
Qed.

Lemma find_at_None sub s :
  find_at sub s = None -> forall j, (j <= length s)%nat -> is_prefix sub (drop j s) = false.
Proof.
  induction s as [|x s IH]; intros H j Hj; cbn [find_at] in H;
    destruct (is_prefix sub _) eqn:Hp; try done.
  - cbn in Hj. by replace j with 0%nat by lia.
  - apply fmap_None in H. destruct j as [|j]; [done|]. cbn. apply IH; [done|]. cbn in Hj. lia.
Qed.

Lemma find_at_app sub a t :
  (forall j, (j < length a)%nat -> is_prefix sub (drop j (a ++ sub ++ t)) = false) ->
  find_at sub (a ++ sub ++ t) = Some (length a).
Proof.
  induction a as [|x a IH]; intros Hmin.
  - cbn [app length]. destruct (sub ++ t) as [|y s] eqn:E; cbn [find_at]; rewrite <- E;
      by rewrite is_prefix_app.
  - pose proof (Hmin 0%nat ltac:(cbn; lia)) as H0.
    cbn [app find_at length drop] in *. rewrite H0.
    rewrite IH; [done|]. intros j Hj. apply (Hmin (S j)). cbn. lia.
Qed.

Lemma find_at_char_None c s : c ∉ s -> find_at [c] s = None.
Proof.
  induction s as [|x s IH]; [done|]. intros [Hx Hs]%not_elem_of_cons. cbn.
  rewrite (proj2 (Z.eqb_neq c x)) by done. cbn. by rewrite (IH Hs).
Qed.

Lemma find_at_char_app c a t : c ∉ a -> find_at [c] (a ++ c :: t) = Some (length a).
Proof.
  intros Ha. apply (find_at_app [c] a t). intros j Hj. apply not_true_iff_false.
  intros [k Hk]%is_prefix_spec. apply Ha.
  assert (Hc : (a ++ [c] ++ t) !! j = Some c).
  { rewrite <- (Nat.add_0_r j), <- lookup_drop, Hk. done. }
  rewrite lookup_app_l in Hc by done. by eapply list_elem_of_lookup_2.
Qed.

Lemma substr_ok s pos n :
  0 <= pos <= zlen s -> 0 <= n ->
  substr s pos n = Ok (take (Z.to_nat (Z.min n (zlen s - pos))) (drop (Z.to_nat pos) s)).
Proof. intros. unfold substr. by rewrite (proj2 (Z.ltb_ge (zlen s) pos)) by lia. Qed.

Lemma substr_mid (a b c : bytes) pos n :
  pos = zlen a -> n = zlen b -> substr (a ++ b ++ c) pos n = Ok b.
Proof.
  intros -> ->. pose proof (zlen_nonneg a). pose proof (zlen_nonneg b).
  pose proof (zlen_nonneg c). rewrite substr_ok by (rewrite ?zlen_app; lia). f_equal.
  rewrite Z.min_l by (rewrite !zlen_app; lia).
  unfold zlen. by rewrite !Nat2Z.id, drop_app_length, take_app_length.
Qed.

Lemma substr_from_app (a b : bytes) pos :
  pos = zlen a -> substr_from (a ++ b) pos = Ok b.
Proof.
  intros ->. unfold substr_from. pose proof (zlen_nonneg a). pose proof (zlen_nonneg b).
  rewrite substr_ok by (rewrite ?zlen_app; lia). f_equal.
  rewrite Z.min_r by (rewrite ?zlen_app; lia).
  unfold zlen. rewrite Nat2Z.id, drop_app_length, length_app.
  apply take_ge. lia.
Qed.

(** *** Decimal numbers

    [dec] is [std::to_string] and [ostream <<] of an integer; twenty digits
    hold every 64-bit value.  [scan_int] is the part [strtoll], [atoi] and
    [std::stoll] share: white space, a sign, digits. *)
Fixpoint dec_digits (fuel : nat) (n : Z) (acc : bytes) : bytes :=
  match fuel with
  | O => acc
  | S f =>
      let acc' := (48 + n mod 10) :: acc in
      if n / 10 =? 0 then acc' else dec_digits f (n / 10) acc'
  end.

Definition dec (n : Z) : bytes :=
  if n <? 0 then 45 :: dec_digits 20 (- n) [] else dec_digits 20 n [].

Definition is_digit (c : Z) : bool := (48 <=? c) && (c <=? 57).

(** [isspace] in the "C" locale. *)
Definition isspace (c : Z) : bool := ((9 <=? c) && (c <=? 13)) || (c =? 32).

Fixpoint scan_digits (s : bytes) (acc : Z) : Z :=
  match s with
  | c :: s' => if is_digit c then scan_digits s' (10 * acc + (c - 48)) else acc
  | [] => acc
  end.

Fixpoint skip_space (s : bytes) : bytes :=
  match s with
  | c :: s' => if isspace c then skip_space s' else s
  | [] => []
  end.

(** The exact value of the number at the head of [s]; [None] without digits. *)
Definition scan_int (s : bytes) : option Z :=
  let s1 := skip_space s in
  let '(neg, s2) :=
    match s1 with
    | c :: r => if c =? 45 then (true, r) else if c =? 43 then (false, r) else (false, s1)
    | [] => (false, [])
    end in
  match s2 with
  | c :: _ => if is_digit c
              then Some (let v := scan_digits s2 0 in if neg then - v else v)
              else None
  | [] => None
  end.

(** glibc's [atoll] saturates at the bounds of [long long]; [atoi] then
    converts to [int]. *)
Definition atoll (s : bytes) : Z :=
  match scan_int s with
  | Some v => Z.max (-9223372036854775808) (Z.min 9223372036854775807 v)
  | None => 0
  end.

Definition atoi (s : bytes) : Z := i32 (atoll s).

(** [std::stoll] throws without digits and outside [long long]. *)
Definition stoll (s : bytes) : res Z :=
  match scan_int s with
  | None => Fail InvalidArgument
  | Some v => if (-9223372036854775808 <=? v) && (v <=? 9223372036854775807)
              then Ok v else Fail OutOfRange
  end.

Lemma dec_digits_app f n acc : dec_digits f n acc = dec_digits f n [] ++ acc.
Proof.
  revert n acc. induction f as [|f IH]; intros n acc; [done|]. cbn [dec_digits].
  destruct (n / 10 =? 0); [done|].
  rewrite (IH _ (_ :: acc)), (IH _ [_]), <- app_assoc. done.
Qed.

Lemma dec_digits_value f n acc :
  0 <= n < 10 ^ Z.of_nat f -> scan_digits (dec_digits f n acc) 0 = scan_digits acc n.
Proof.
  revert n acc. induction f as [|f IH]; intros n acc Hn.
  - cbn in *. by replace n with 0 by lia.
  - rewrite Nat2Z.inj_succ, Z.pow_succ_r in Hn by lia. cbn [dec_digits].
    pose proof (Z.div_mod n 10). pose proof (Z.mod_pos_bound n 10).
    assert (Hd : is_digit (48 + n mod 10) = true).
    { unfold is_digit. apply andb_true_intro. split; apply Z.leb_le; lia. }
    destruct (Z.eqb_spec (n / 10) 0).
    + cbn [scan_digits]. rewrite Hd. f_equal. lia.
    + rewrite IH by lia. cbn [scan_digits]. rewrite Hd. f_equal. lia.
Qed.

Lemma dec_digits_digits f n acc :
  0 <= n -> Forall (fun c => is_digit c = true) acc ->
  Forall (fun c => is_digit c = true) (dec_digits f n acc).
Proof.
  revert n acc. induction f as [|f IH]; intros n acc Hn Hacc; [done|]. cbn [dec_digits].
  pose proof (Z.mod_pos_bound n 10).
  assert (is_digit (48 + n mod 10) = true).
  { unfold is_digit. apply andb_true_intro. split; apply Z.leb_le; lia. }
  case_match; [by constructor|]. apply IH; [apply Z.div_pos; lia|]. by constructor.
Qed.

Lemma dec_digits_nonempty f n acc : (0 < f)%nat \/ acc <> [] -> dec_digits f n acc <> [].
Proof.
  revert n acc. induction f as [|f IH]; intros n acc Hf.
  - destruct Hf; [lia | done].
  - cbn [dec_digits]. case_match; [done|]. apply IH. by right.
Qed.

Lemma dec_nonneg n : 0 <= n -> dec n = dec_digits 20 n [].
Proof. intros. unfold dec. by rewrite (proj2 (Z.ltb_ge n 0)) by lia. Qed.

(** The printed number has at least one digit and only digits. *)
Lemma dec_digits_of n : 0 <= n -> Forall (fun c => is_digit c = true) (dec n).
Proof. intros. rewrite dec_nonneg by done. by apply dec_digits_digits. Qed.

Lemma dec_nonempty n : dec n <> [].
Proof. unfold dec. case_match; [done|]. apply dec_digits_nonempty. lia. Qed.

Lemma digit_not_in_dec c n : 0 <= n -> is_digit c = false -> c ∉ dec n.
Proof.
  intros Hn Hc Hin. pose proof (dec_digits_of n Hn) as Hd.
  apply list_elem_of_lookup in Hin as [i Hi].
  pose proof (Forall_lookup_1 _ _ _ _ Hd Hi). cbn in *. congruence.
Qed.

Lemma scan_digits_stop s c t a :
  is_digit c = false -> scan_digits (s ++ c :: t) a = scan_digits s a.
Proof.
  intros Hc. revert a. induction s as [|x s IH]; intros a; cbn.
  - by rewrite Hc.
  - by case_match.
Qed.

(** Reading back a printed number, at the end of a string or before a byte
    that is not a digit. *)
Lemma scan_int_dec n t :
  0 <= n < 10 ^ 20 -> match t with [] => True | c :: _ => is_digit c = false end ->
  scan_int (dec n ++ t) = Some n.
Proof.
  intros Hn Ht.
  assert (Hv : scan_digits (dec n ++ t) 0 = n).
  { destruct t as [|c t].
    - rewrite app_nil_r, dec_nonneg by lia. by rewrite dec_digits_value.
    - rewrite scan_digits_stop by done. rewrite dec_nonneg by lia.
      by rewrite dec_digits_value. }
  pose proof (dec_digits_of n ltac:(lia)) as Hd. pose proof (dec_nonempty n).
  destruct (dec n) as [|c l]; [done|].
  apply Forall_cons_1 in Hd as [Hc _].
  unfold scan_int. cbn [app skip_space].
  assert (isspace c = false) as ->.
  { unfold is_digit, isspace in *. bool_inv.
    apply orb_false_intro; [apply andb_false_intro2; apply Z.leb_gt; lia|].
    apply Z.eqb_neq. lia. }
  rewrite (proj2 (Z.eqb_neq c 45)), (proj2 (Z.eqb_neq c 43))
    by (unfold is_digit in Hc; bool_inv; lia).
  rewrite Hc. cbn [app] in Hv. by rewrite Hv.
Qed.

Lemma atoll_dec n t :
  0 <= n <= 9223372036854775807 ->
  match t with [] => True | c :: _ => is_digit c = false end -> atoll (dec n ++ t) = n.
Proof. intros. unfold atoll. rewrite scan_int_dec by (done || lia). lia. Qed.

(** *** Generic list facts *)

Lemma wf_bytes_take m n : wf_bytes m -> wf_bytes (take n m).
Proof. apply Forall_take. Qed.
Lemma wf_bytes_drop m n : wf_bytes m -> wf_bytes (drop n m).
Proof. apply Forall_drop. Qed.

Lemma mem_read_wf m off n v : wf_bytes m -> mem_read m off n = Ok v -> wf_bytes v.
Proof. intros Hm (_ & _ & _ & ->)%mem_read_inv. apply wf_bytes_take, wf_bytes_drop, Hm. Qed.

Lemma mem_get_wf m i b : wf_bytes m -> mem_get m i = Ok b -> is_byte b.
Proof. intros Hm [_ Hi]%mem_get_inv. by eapply Forall_lookup_1. Qed.

#[export] Hint Resolve wf_bytes_take wf_bytes_drop mem_read_wf mem_get_wf : word.
#[export] Hint Resolve zlen_nonneg : word.

Create Rewrite HintDb zlen.
#[export] Hint Rewrite @zlen_nil @zlen_cons @zlen_app : zlen.

(** *** Bits *)

(** A boolean fact about bytes is decided by its 256 instances. *)
Lemma byte_forall (P : Z -> bool) :
  forallb P (seqZ 0 256) = true -> forall b, is_byte b -> P b = true.
Proof.
  intros H b Hb. rewrite forallb_forall in H. apply H.
  apply list_elem_of_In, elem_of_seqZ. unfold is_byte in Hb. lia.
Qed.

(** Closes [forall b, is_byte b -> f b = true] by computing the 256 cases. *)
Ltac by_bytes := refine (byte_forall (fun b => _) _); vm_compute; reflexivity.

Lemma testbit_small v i j : 0 <= v < 2 ^ i -> 0 <= i <= j -> Z.testbit v j = false.
Proof. intros. rewrite <- (Z.mod_small v (2 ^ i)) by done. apply Z.mod_pow2_bits_high. lia. Qed.

(** An [|] of a low part and a shifted high part is their sum. *)
Lemma lor_shiftl_add v m i :
  0 <= i -> 0 <= v < 2 ^ i -> Z.lor v (Z.shiftl m i) = v + m * 2 ^ i.
Proof.
  intros Hi Hv. rewrite <- Z.shiftl_mul_pow2 by done. symmetry. apply Z.add_nocarry_lor.
  apply Z.bits_inj'. intros j Hj. rewrite Z.land_spec, Z.bits_0, Z.shiftl_spec by done.
  destruct (Z.ltb_spec j i).
  - rewrite (Z.testbit_neg_r m) by lia. apply andb_false_r.
  - by rewrite (testbit_small v i) by lia.
Qed.
