(* ===== verification/ByteOrder.v ===== *)
(** * rtc_base/byte_order.h

    Unaligned loads and stores of 8, 16, 32 and 64 bit numbers and the
    host/network conversions.  The target is a little-endian host
    ([WEBRTC_ARCH_LITTLE_ENDIAN], the only architecture [is_stun]'s bit-field
    test and the Windows build support): [*(uintN_t* )p] is [le_load] of the
    bytes, and [htobeN]/[beNtoh] reverse the bytes of the value. *)
From S2P Require Import Prelude.
Local Open Scope Z_scope.

(** The value of a little-endian object, and the bytes of a value. *)
Fixpoint le_load (bs : bytes) : Z :=
  match bs with [] => 0 | b :: t => b + 256 * le_load t end.

Fixpoint le_store (n : nat) (z : Z) : bytes :=
  match n with O => [] | S n => z mod 256 :: le_store n (z / 256) end.

Definition be_load (bs : bytes) : Z := le_load (rev bs).
Definition be_store (n : nat) (z : Z) : bytes := rev (le_store n z).

(** [htons], [htonl], [htobe64] and their inverses on a little-endian host:
    reverse the [n] bytes of the value. *)
Definition bswap (n : nat) (v : Z) : Z := le_load (rev (le_store n v)).

Definition HostToNetwork16 (n : Z) : Z := bswap 2 n.
Definition HostToNetwork32 (n : Z) : Z := bswap 4 n.
Definition HostToNetwork64 (n : Z) : Z := bswap 8 n.
Definition NetworkToHost16 (n : Z) : Z := bswap 2 n.
Definition NetworkToHost32 (n : Z) : Z := bswap 4 n.
Definition NetworkToHost64 (n : Z) : Z := bswap 8 n.
Definition IsHostBigEndian : bool := false.

(** [*static_cast<uintN_t*>(memory)] at byte [off] of a block. *)
Definition load (n : nat) (m : bytes) (off : Z) : res Z :=
  le_load <$> mem_read m off (Z.of_nat n).
Definition store (n : nat) (m : bytes) (off v : Z) : res bytes :=
  mem_write m off (le_store n v).

Definition Set8 (m : bytes) (offset v : Z) : res bytes := store 1 m offset v.
Definition Get8 (m : bytes) (offset : Z) : res Z := mem_get m offset.
Definition SetBE16 (m : bytes) (off v : Z) : res bytes := store 2 m off (HostToNetwork16 v).
Definition SetBE32 (m : bytes) (off v : Z) : res bytes := store 4 m off (HostToNetwork32 v).
Definition SetBE64 (m : bytes) (off v : Z) : res bytes := store 8 m off (HostToNetwork64 v).
Definition GetBE16 (m : bytes) (off : Z) : res Z := NetworkToHost16 <$> load 2 m off.
Definition GetBE32 (m : bytes) (off : Z) : res Z := NetworkToHost32 <$> load 4 m off.
Definition GetBE64 (m : bytes) (off : Z) : res Z := NetworkToHost64 <$> load 8 m off.
Definition SetLE16 (m : bytes) (off v : Z) : res bytes := store 2 m off v.
Definition SetLE32 (m : bytes) (off v : Z) : res bytes := store 4 m off v.
Definition SetLE64 (m : bytes) (off v : Z) : res bytes := store 8 m off v.
Definition GetLE16 (m : bytes) (off : Z) : res Z := load 2 m off.
Definition GetLE32 (m : bytes) (off : Z) : res Z := load 4 m off.
Definition GetLE64 (m : bytes) (off : Z) : res Z := load 8 m off.

(** ** Lemmas *)

Create Rewrite HintDb endian.

Lemma length_le_store n z : length (le_store n z) = n.
Proof. revert z. induction n as [|n IH]; intros z; cbn; [done|]. by rewrite IH. Qed.

Lemma le_store_wf n z : wf_bytes (le_store n z).
Proof.
  revert z. induction n as [|n IH]; intros z; cbn; [done|]. constructor; [|apply IH].
  apply Z.mod_pos_bound. lia.
Qed.

Lemma le_load_store n z : le_load (le_store n z) = z mod 256 ^ Z.of_nat n.
Proof.
  revert z. induction n as [|n IH]; intros z; cbn [le_store le_load].
  - by rewrite Z.mod_1_r.
  - rewrite IH, Nat2Z.inj_succ, Z.pow_succ_r by lia.
    rewrite Z.rem_mul_r by lia. lia.
Qed.

Lemma le_store_load bs : wf_bytes bs -> le_store (length bs) (le_load bs) = bs.
Proof.
  induction bs as [|b bs IH]; cbn [length le_store le_load]; [done|].
  intros [Hb Hbs]%Forall_cons_1. unfold is_byte in Hb. f_equal.
  - rewrite Z.mul_comm, Z_mod_plus_full. by apply Z.mod_small.
  - rewrite Z.mul_comm, Z.div_add, Z.div_small by lia. by apply IH.
Qed.

Lemma le_load_bound bs : wf_bytes bs -> 0 <= le_load bs < 256 ^ zlen bs.
Proof.
  induction bs as [|b bs IH]; cbn [le_load]; [done|].
  intros [Hb Hbs]%Forall_cons_1. unfold is_byte in Hb. specialize (IH Hbs).
  rewrite zlen_cons, Z.pow_add_r by (unfold zlen; lia). lia.
Qed.

Lemma wf_bytes_rev bs : wf_bytes bs -> wf_bytes (rev bs).
Proof.
  intros H. induction H as [|b bs Hb Hbs IH]; [done|]. cbn. apply Forall_app. auto.
Qed.

Lemma le_store_mod n z : le_store n (z mod 256 ^ Z.of_nat n) = le_store n z.
Proof.
  rewrite <- le_load_store.
  rewrite <- (length_le_store n z) at 1. apply le_store_load, le_store_wf.
Qed.

(** Storing the swapped value lays the bytes out most significant first. *)
Lemma le_store_bswap n v : le_store n (bswap n v) = be_store n v.
Proof.
  unfold bswap, be_store.
  rewrite <- (length_le_store n v) at 1. rewrite <- length_rev.
  apply le_store_load, wf_bytes_rev, le_store_wf.
Qed.

(** Loading and swapping reads the bytes most significant first. *)
Lemma bswap_le_load bs : wf_bytes bs -> bswap (length bs) (le_load bs) = be_load bs.
Proof. intros. unfold bswap, be_load. by rewrite le_store_load. Qed.

Lemma bswap_bound n v : 0 <= bswap n v < 256 ^ Z.of_nat n.
Proof.
  unfold bswap. replace (Z.of_nat n) with (zlen (rev (le_store n v))).
  - apply le_load_bound, wf_bytes_rev, le_store_wf.
  - unfold zlen. by rewrite length_rev, length_le_store.
Qed.

Lemma bswap_bswap n v : bswap n (bswap n v) = v mod 256 ^ Z.of_nat n.
Proof.
  unfold bswap at 1. rewrite le_store_bswap. unfold be_store.
  by rewrite rev_involutive, le_load_store.
Qed.

Lemma be_load_store n z : be_load (be_store n z) = z mod 256 ^ Z.of_nat n.
Proof. unfold be_load, be_store. by rewrite rev_involutive, le_load_store. Qed.

Lemma length_be_store n z : length (be_store n z) = n.
Proof. unfold be_store. by rewrite length_rev, length_le_store. Qed.

Lemma zlen_be_store n z : zlen (be_store n z) = Z.of_nat n.
Proof. unfold zlen. by rewrite length_be_store. Qed.

Lemma zlen_le_store n z : zlen (le_store n z) = Z.of_nat n.
Proof. unfold zlen. by rewrite length_le_store. Qed.

Lemma be_store_wf n z : wf_bytes (be_store n z).
Proof. apply wf_bytes_rev, le_store_wf. Qed.

Lemma be_store_load bs : wf_bytes bs -> be_store (length bs) (be_load bs) = bs.
Proof.
  intros. unfold be_store, be_load. rewrite <- length_rev, le_store_load.
  - apply rev_involutive.
  - by apply wf_bytes_rev.
Qed.

Lemma be_load_bound bs : wf_bytes bs -> 0 <= be_load bs < 256 ^ zlen bs.
Proof.
  intros. unfold be_load. replace (zlen bs) with (zlen (rev bs)).
  - apply le_load_bound. by apply wf_bytes_rev.
  - unfold zlen. by rewrite length_rev.
Qed.

Lemma be_load_2 a b : be_load [a; b] = 256 * a + b.
Proof. cbn. lia. Qed.

#[export] Hint Rewrite length_le_store length_be_store zlen_be_store zlen_le_store le_store_bswap : endian.
#[export] Hint Resolve le_store_wf be_store_wf : word.

(** [GetBE] reads the big-endian number at [off]. *)
Lemma GetBE_spec n m off :
  wf_bytes m -> bswap n <$> load n m off = be_load <$> mem_read m off (Z.of_nat n).
Proof.
  intros Hm. unfold load. destruct (mem_read m off (Z.of_nat n)) as [v|e] eqn:E; [|done].
  cbn. f_equal. pose proof (mem_read_length _ _ _ _ E) as Hl.
  replace n with (length v) by (unfold zlen in Hl; lia).
  apply bswap_le_load. by eapply mem_read_wf.
Qed.

Lemma GetBE16_spec m off :
  wf_bytes m -> GetBE16 m off = be_load <$> mem_read m off 2.
Proof. intros. by apply (GetBE_spec 2). Qed.
Lemma GetBE32_spec m off :
  wf_bytes m -> GetBE32 m off = be_load <$> mem_read m off 4.
Proof. intros. by apply (GetBE_spec 4). Qed.

Lemma GetBE16_ok m off :
  wf_bytes m -> 0 <= off -> off + 2 <= zlen m ->
  exists v, GetBE16 m off = Ok v /\ 0 <= v < 65536.
Proof.
  intros. rewrite GetBE16_spec, mem_read_ok by (done || lia).
  eexists. split; [done|]. set (v := take _ _).
  assert (zlen v = 2) as Hl.
  { eapply mem_read_length. by apply mem_read_ok; lia. }
  pose proof (be_load_bound v). rewrite Hl in *. apply H2. unfold v. auto with word.
Qed.

(** A number stored with [SetBE] is read back by [GetBE], and the other bytes
    of the block keep their values. *)
Lemma SetBE16_mid (a b c : bytes) v :
  length b = 2%nat -> SetBE16 (a ++ b ++ c) (zlen a) v = Ok (a ++ be_store 2 v ++ c).
Proof.
  intros Hb. unfold SetBE16, store, HostToNetwork16. rewrite le_store_bswap.
  apply mem_write_mid; [done|]. by rewrite length_be_store.
Qed.

(** Reading a number where one was laid out. *)
Lemma bswap_be_store n v : bswap n (le_load (be_store n v)) = v mod 256 ^ Z.of_nat n.
Proof.
  rewrite <- (length_be_store n v) at 1. rewrite bswap_le_load by apply be_store_wf.
  apply be_load_store.
Qed.

Lemma GetBE16_store m off v :
  mem_read m off 2 = Ok (be_store 2 v) -> GetBE16 m off = Ok (u16 v).
Proof.
  intros Hm. unfold GetBE16, load. change (Z.of_nat 2) with 2. rewrite Hm. cbn [fmap res_fmap].
  f_equal. apply bswap_be_store.
Qed.

Lemma GetBE32_store m off v :
  mem_read m off 4 = Ok (be_store 4 v) -> GetBE32 m off = Ok (u32 v).
Proof.
  intros Hm. unfold GetBE32, load. change (Z.of_nat 4) with 4. rewrite Hm. cbn [fmap res_fmap].
  f_equal. apply bswap_be_store.
Qed.
