(* ===== verification/Buffer.v ===== *)
(** * rtc_base/buffer.h: [rtc::BufferT<uint8_t, ZeroOnFree>]

    A growable block of bytes.  [data_] is the heap block itself, [capacity_]
    cells long; a cell is [None] until it is written, because [new T[n]] and
    [SetSize] leave memory uninitialised.  [block] numbers the heap blocks the
    buffer has owned, so that a pointer taken with [data()] before a
    reallocation can be told from one taken after it; [freed] holds the blocks it
    has given back to the heap, as they were when they were freed, which is what
    [ZeroOnFree] is about. *)
From S2P Require Import Prelude.
Local Open Scope Z_scope.

Record Buffer := mkBuffer {
  size_ : Z;
  capacity_ : Z;
  data_ : list (option Z);
  block : nat;
  freed : list (list (option Z));
}.

#[export] Instance Buffer_eq_dec : EqDecision Buffer.
Proof. solve_decision. Defined.

(** [BufferT()], [BufferT(size, capacity)], [BufferT(data, size, capacity)]. *)
Definition empty : Buffer := mkBuffer 0 0 [] 0 [].

Definition create (size capacity : Z) : Buffer :=
  let cap := Z.max size capacity in
  mkBuffer size cap (replicate (Z.to_nat cap) None) 0 [].

Definition cells (bs : bytes) : list (option Z) := Some <$> bs.

Definition create_from (bs : bytes) (capacity : Z) : Buffer :=
  let b := create (zlen bs) capacity in
  mkBuffer (size_ b) (capacity_ b) (cells bs ++ drop (length bs) (data_ b)) (block b) [].

(** The [size()] readable cells, and their value when all are initialised. *)
Definition contents (b : Buffer) : list (option Z) := take (Z.to_nat (size_ b)) (data_ b).
Definition data (b : Buffer) : res bytes := from_opt Uninitialized (mapM id (contents b)).

Definition IsConsistent (b : Buffer) : bool :=
  bool_decide (zlen (data_ b) = capacity_ b) && (0 <=? size_ b) && (size_ b <=? capacity_ b).

Definition is_empty (b : Buffer) : bool := size_ b =? 0.

(** [operator==]: equal sizes and [memcmp] of the contents. *)
Definition equals (a b : Buffer) : res bool :=
  if negb (size_ a =? size_ b) then Ok false
  else x ← data a; y ← data b; Ok (bool_decide (x = y)).

(** [operator[]] with its [RTC_DCHECK_LT(index, size_)]. *)
Definition get (b : Buffer) (index : Z) : res Z :=
  require (index <? size_ b) AssertFailed ≫= fun _ =>
  c ← from_opt OutOfBounds (data_ b !! Z.to_nat index);
  from_opt Uninitialized c.

(** [operator[]] as the left side of an assignment. *)
Definition set_at (b : Buffer) (index v : Z) : res Buffer :=
  _ ← require ((0 <=? index) && (index <? size_ b)) AssertFailed;
  Ok (mkBuffer (size_ b) (capacity_ b) (<[Z.to_nat index := Some v]> (data_ b)) (block b)
        (freed b)).

(** Overwrite the cells from [off] with [v]. *)
Definition put_cells (d : list (option Z)) (off : Z) (v : list (option Z)) :=
  take (Z.to_nat off) d ++ v ++ drop (Z.to_nat off + length v) d.

Definition zeros (n : Z) : list (option Z) := replicate (Z.to_nat n) (Some 0).

(** What the [unique_ptr] frees: [data_], null exactly when there is no capacity. *)
Definition heap_block (b : Buffer) : list (list (option Z)) :=
  if 0 <? capacity_ b then [data_ b] else [].

(** A function that writes into the view it is given: the cells of the view
    afterwards, and the number of elements it says it wrote. *)
Definition setter := list (option Z) -> list (option Z) * Z.

Section ZeroOnFree.
Context (ZeroOnFree : bool).

Definition MaybeZeroCompleteBuffer (b : Buffer) : Buffer :=
  if ZeroOnFree && (0 <? capacity_ b)
  then mkBuffer (size_ b) (capacity_ b) (zeros (capacity_ b)) (block b) (freed b) else b.

Definition ZeroTrailingData (b : Buffer) (count : Z) : Buffer :=
  mkBuffer (size_ b) (capacity_ b) (put_cells (data_ b) (size_ b) (zeros count)) (block b)
    (freed b).

Definition EnsureCapacityWithHeadroom (b : Buffer) (capacity : Z) (extra_headroom : bool)
    : Buffer :=
  if capacity <=? capacity_ b then b
  else
    let new_capacity :=
      if extra_headroom then Z.max capacity (capacity_ b + capacity_ b / 2) else capacity in
    let new_data := contents b ++ replicate (Z.to_nat (new_capacity - size_ b)) None in
    let b := MaybeZeroCompleteBuffer b in
    mkBuffer (size_ b) new_capacity new_data (S (block b)) (freed b ++ heap_block b).

Definition EnsureCapacity (b : Buffer) (capacity : Z) : Buffer :=
  EnsureCapacityWithHeadroom b capacity false.

Definition AppendData (b : Buffer) (bs : bytes) : Buffer :=
  let new_size := size_ b + zlen bs in
  let b1 := EnsureCapacityWithHeadroom b new_size true in
  mkBuffer new_size (capacity_ b1) (put_cells (data_ b1) (size_ b) (cells bs)) (block b1)
    (freed b1).

Definition set_size_ (b : Buffer) (size : Z) : Buffer :=
  mkBuffer size (capacity_ b) (data_ b) (block b) (freed b).

(** The end of [SetData] and [SetSize]. *)
Definition zero_shrunk (b : Buffer) (old_size : Z) : Buffer :=
  if ZeroOnFree && (size_ b <? old_size) then ZeroTrailingData b (old_size - size_ b) else b.

Definition SetData (b : Buffer) (bs : bytes) : Buffer :=
  let old_size := size_ b in
  zero_shrunk (AppendData (set_size_ b 0) bs) old_size.

Definition SetSize (b : Buffer) (size : Z) : Buffer :=
  let old_size := size_ b in
  zero_shrunk (set_size_ (EnsureCapacityWithHeadroom b size true) size) old_size.

(** [AppendData(max_elements, setter)] and [SetData(max_elements, setter)]:
    the buffer and the value returned. *)
Definition AppendData_with (b : Buffer) (max_elements : Z) (f : setter) : res (Buffer * Z) :=
  let old_size := size_ b in
  let b1 := SetSize b (old_size + max_elements) in
  let '(view, written_elements) :=
    f (take (Z.to_nat max_elements) (drop (Z.to_nat old_size) (data_ b1))) in
  _ ← require (written_elements <=? max_elements) AssertFailed;
  Ok (mkBuffer (old_size + written_elements) (capacity_ b1) (put_cells (data_ b1) old_size view)
        (block b1) (freed b1), written_elements).

Definition SetData_with (b : Buffer) (max_elements : Z) (f : setter) : res (Buffer * Z) :=
  let old_size := size_ b in
  '(b, written) ← AppendData_with (set_size_ b 0) max_elements f;
  Ok (zero_shrunk b old_size, written).

Definition Clear (b : Buffer) : Buffer := set_size_ (MaybeZeroCompleteBuffer b) 0.

(** [operator=(BufferT&&)]; [buf] is then moved from, and has no block left to
    free. *)
Definition move_assign (b buf : Buffer) : Buffer :=
  let b := MaybeZeroCompleteBuffer b in
  mkBuffer (size_ buf) (capacity_ buf) (data_ buf) (S (block b)) (freed b ++ heap_block b).

(** [~BufferT]: every block the buffer has ever given back. *)
Definition destroy (b : Buffer) : list (list (option Z)) :=
  let b := MaybeZeroCompleteBuffer b in freed b ++ heap_block b.
End ZeroOnFree.

(** ** Lemmas *)

(** The representation invariant as a proposition. *)
Definition consistent (b : Buffer) : Prop :=
  zlen (data_ b) = capacity_ b /\ 0 <= size_ b <= capacity_ b.

Lemma IsConsistent_spec b : IsConsistent b = true <-> consistent b.
Proof.
  unfold IsConsistent, consistent.
  rewrite !andb_true_iff, bool_decide_eq_true, !Z.leb_le. tauto.
Qed.

Lemma length_cells bs : length (cells bs) = length bs.
Proof. apply length_fmap. Qed.
Lemma zlen_cells bs : zlen (cells bs) = zlen bs.
Proof. unfold zlen. by rewrite length_cells. Qed.

Lemma create_consistent size capacity :
  0 <= size -> consistent (create size capacity).
Proof.
  intros. unfold create, consistent, zlen. cbn. rewrite length_replicate. lia.
Qed.

Lemma zlen_contents b : consistent b -> zlen (contents b) = size_ b.
Proof. intros [Hl Hs]. unfold contents. apply zlen_take. lia. Qed.

(** Zeroing a block changes what is in it, and nothing else. *)
Lemma ensure_eq z b c x :
  EnsureCapacityWithHeadroom z b c x =
  if c <=? capacity_ b then b
  else
    let new_capacity := if x then Z.max c (capacity_ b + capacity_ b / 2) else c in
    mkBuffer (size_ b) new_capacity
      (contents b ++ replicate (Z.to_nat (new_capacity - size_ b)) None) (S (block b))
      (freed b ++ heap_block (MaybeZeroCompleteBuffer z b)).
Proof.
  unfold EnsureCapacityWithHeadroom. case_match; [done|]. unfold MaybeZeroCompleteBuffer.
  by case_match.
Qed.

Lemma ensure_size z b c x : size_ (EnsureCapacityWithHeadroom z b c x) = size_ b.
Proof. rewrite ensure_eq. by case_match. Qed.

Lemma ensure_capacity z b c x : c <= capacity_ (EnsureCapacityWithHeadroom z b c x).
Proof.
  rewrite ensure_eq. destruct (Z.leb_spec c (capacity_ b)); [done|]. cbn. destruct x; lia.
Qed.

Lemma ensure_capacity_mono z b c x :
  consistent b -> capacity_ b <= capacity_ (EnsureCapacityWithHeadroom z b c x).
Proof.
  intros [Hl Hs]. rewrite ensure_eq. case_match; bool_inv; [lia|]. cbn. destruct x; lia.
Qed.

Lemma ensure_consistent z b c x : consistent b -> consistent (EnsureCapacityWithHeadroom z b c x).
Proof.
  intros Hb. pose proof (zlen_contents b Hb) as Hc. pose proof (ensure_capacity z b c x) as Hn.
  pose proof (ensure_capacity_mono z b c x Hb) as Hm. destruct Hb as [Hl Hs].
  rewrite ensure_eq in *. destruct (Z.leb_spec c (capacity_ b)); [done|].
  cbn [capacity_] in *. split; cbn [data_ size_ capacity_]; [|lia].
  rewrite zlen_app, Hc. unfold zlen. rewrite length_replicate. lia.
Qed.

Lemma ensure_contents z b c x :
  consistent b -> contents (EnsureCapacityWithHeadroom z b c x) = contents b.
Proof.
  intros Hb. rewrite ensure_eq. case_match; [done|].
  unfold contents at 1. cbn. rewrite take_app_le.
  - unfold contents. rewrite take_take. f_equal. lia.
  - pose proof (zlen_contents b Hb). unfold zlen in *. lia.
Qed.

Lemma zlen_put_cells d off v :
  0 <= off -> off + zlen v <= zlen d -> zlen (put_cells d off v) = zlen d.
Proof.
  intros. unfold put_cells, zlen in *.
  rewrite !length_app, length_take, length_drop. lia.
Qed.

Lemma AppendData_consistent z b bs : consistent b -> consistent (AppendData z b bs).
Proof.
  intros Hb. pose proof (ensure_consistent z b (size_ b + zlen bs) true Hb) as [Hl Hs].
  pose proof (ensure_capacity z b (size_ b + zlen bs) true) as Hcap.
  unfold consistent, AppendData. cbn. destruct Hb. pose proof (zlen_nonneg bs).
  rewrite zlen_put_cells; rewrite ?zlen_cells; lia.
Qed.

(** Appending extends the contents, whatever reallocation happened. *)
Lemma AppendData_contents z b bs :
  consistent b -> contents (AppendData z b bs) = contents b ++ cells bs.
Proof.
  intros Hb. rewrite <- (ensure_contents z b (size_ b + zlen bs) true Hb).
  pose proof (ensure_consistent z b (size_ b + zlen bs) true Hb) as [Hl Hs].
  pose proof (ensure_capacity z b (size_ b + zlen bs) true) as Hcap.
  rewrite ensure_size in Hs. unfold contents, AppendData. cbn. rewrite ensure_size.
  set (d := data_ _) in *. unfold put_cells.
  rewrite app_assoc. apply take_app_length'.
  rewrite length_app, length_take, length_cells. destruct Hb. unfold zlen in *. lia.
Qed.

Lemma mapM_id_cells bs : mapM id (cells bs) = Some bs.
Proof. apply mapM_Some. induction bs; constructor; done. Qed.

Lemma data_ok b bs : contents b = cells bs -> data b = Ok bs.
Proof. intros H. unfold data. by rewrite H, mapM_id_cells. Qed.

Lemma data_inv b bs : data b = Ok bs -> contents b = cells bs.
Proof.
  unfold data, from_opt. destruct (mapM id (contents b)) as [l|] eqn:E; [|done].
  intros [= <-]. apply mapM_Some in E. unfold cells.
  induction E as [|x y xs ys Hx _ IH]; [done|]. cbn in *. by rewrite IH, Hx.
Qed.

Lemma create_from_data bs : data (create_from bs 0) = Ok bs.
Proof.
  apply data_ok. unfold contents, create_from. cbn. rewrite take_app_length'; [done|].
  rewrite length_cells. unfold zlen. lia.
Qed.

Lemma AppendData_data z b bs v :
  consistent b -> data b = Ok v -> data (AppendData z b bs) = Ok (v ++ bs).
Proof.
  intros Hb Hv%data_inv. apply data_ok. rewrite AppendData_contents, Hv by done.
  unfold cells. by rewrite fmap_app.
Qed.

(** An append that fits the capacity keeps the heap block. *)
Lemma AppendData_block z b bs :
  size_ b + zlen bs <= capacity_ b ->
  block (AppendData z b bs) = block b /\ capacity_ (AppendData z b bs) = capacity_ b.
Proof.
  intros. unfold AppendData. rewrite ensure_eq. cbn.
  by rewrite (proj2 (Z.leb_le _ (capacity_ b))) by lia.
Qed.

Lemma contents_ZeroTrailingData b count :
  consistent b -> contents (ZeroTrailingData b count) = contents b.
Proof.
  intros Hb. pose proof (zlen_contents b Hb) as Hl.
  unfold ZeroTrailingData, contents, put_cells, zlen in *. cbn [size_ data_].
  rewrite take_app_le by lia. rewrite take_take. f_equal. lia.
Qed.

Lemma ZeroTrailingData_consistent b count :
  consistent b -> 0 <= count -> size_ b + count <= capacity_ b ->
  consistent (ZeroTrailingData b count).
Proof.
  intros [Hl Hs] ? ?. split; cbn; [|lia].
  assert (zlen (zeros count) = count) as Hz.
  { unfold zeros, zlen. rewrite length_replicate. lia. }
  rewrite zlen_put_cells; lia.
Qed.

Lemma set_size_consistent b n :
  consistent b -> 0 <= n <= capacity_ b -> consistent (set_size_ b n).
Proof. intros [? ?] ?. split; cbn; lia. Qed.

Lemma reset_consistent b : consistent b -> consistent (set_size_ b 0).
Proof. intros Hb. apply set_size_consistent; [done|]. destruct Hb. lia. Qed.

Lemma zero_shrunk_size z b n : size_ (zero_shrunk z b n) = size_ b.
Proof. unfold zero_shrunk. by case_match. Qed.

Lemma zero_shrunk_contents z b n : consistent b -> contents (zero_shrunk z b n) = contents b.
Proof. intros. unfold zero_shrunk. case_match; [by apply contents_ZeroTrailingData | done]. Qed.

Lemma zero_shrunk_consistent z b n :
  consistent b -> n <= capacity_ b -> consistent (zero_shrunk z b n).
Proof.
  intros. unfold zero_shrunk. case_match; [|done]. bool_inv.
  apply ZeroTrailingData_consistent; (done || lia).
Qed.

Lemma zero_shrunk_grown z b n : n <= size_ b -> zero_shrunk z b n = b.
Proof. intros. unfold zero_shrunk. by rewrite (proj2 (Z.ltb_ge _ _)), andb_false_r. Qed.

Lemma AppendData_capacity z b bs : consistent b -> capacity_ b <= capacity_ (AppendData z b bs).
Proof. intros Hb. apply (ensure_capacity_mono z b (size_ b + zlen bs) true Hb). Qed.

Lemma SetData_consistent z b bs : consistent b -> consistent (SetData z b bs).
Proof.
  intros Hb. apply zero_shrunk_consistent.
  - by apply AppendData_consistent, reset_consistent.
  - pose proof (AppendData_capacity z _ bs (reset_consistent b Hb)). destruct Hb. cbn in *. lia.
Qed.

Lemma SetData_data z b bs : consistent b -> data (SetData z b bs) = Ok bs.
Proof.
  intros Hb%reset_consistent. apply data_ok. unfold SetData.
  rewrite zero_shrunk_contents by (by apply AppendData_consistent).
  by rewrite AppendData_contents.
Qed.

Lemma SetSize_size z b n : size_ (SetSize z b n) = n.
Proof. unfold SetSize. by rewrite zero_shrunk_size. Qed.

Lemma SetSize_capacity z b n : consistent b -> capacity_ b <= capacity_ (SetSize z b n).
Proof.
  intros Hb. unfold SetSize, zero_shrunk.
  case_match; by apply (ensure_capacity_mono z b n true Hb).
Qed.

Lemma SetSize_consistent z b n : 0 <= n -> consistent b -> consistent (SetSize z b n).
Proof.
  intros Hn Hb. pose proof (ensure_capacity z b n true). apply zero_shrunk_consistent.
  - by apply set_size_consistent; [apply ensure_consistent|].
  - pose proof (ensure_capacity_mono z b n true Hb). destruct Hb. cbn. lia.
Qed.

Lemma MaybeZero_consistent z b : consistent b -> consistent (MaybeZeroCompleteBuffer z b).
Proof.
  intros [Hl Hs]. unfold MaybeZeroCompleteBuffer.
  case_match; split; cbn; unfold zlen, zeros in *; rewrite ?length_replicate; lia.
Qed.

Lemma Clear_consistent z b : consistent b -> consistent (Clear z b).
Proof. intros. by apply reset_consistent, MaybeZero_consistent. Qed.

(** ** What a setter may do

    It writes in the view it is given, says how much of it, and leaves the
    rest of the view alone, as the header asks. *)
Definition setter_ok (f : setter) : Prop := forall view,
  let '(view', written) := f view in
  length view' = length view /\ 0 <= written <= zlen view /\
  drop (Z.to_nat written) view' = drop (Z.to_nat written) view.

(** A setter that stores as much of [bs] as there is room for. *)
Definition store (bs : bytes) : setter := fun view =>
  let n := Nat.min (length bs) (length view) in
  (cells (take n bs) ++ drop n view, Z.of_nat n).

Lemma store_ok bs : setter_ok (store bs).
Proof.
  intros view. unfold store, cells. set (n := Nat.min _ _).
  assert (length (Some <$> take n bs) = n) as Hn.
  { rewrite length_fmap, length_take. lia. }
  rewrite Nat2Z.id, length_app, Hn, length_drop, drop_app_length' by done.
  unfold zlen. repeat split; lia.
Qed.

Lemma AppendData_with_spec z b max f :
  consistent b -> 0 <= max -> setter_ok f ->
  let b1 := SetSize z b (size_ b + max) in
  exists view written,
    f (take (Z.to_nat max) (drop (Z.to_nat (size_ b)) (data_ b1))) = (view, written) /\
    zlen view = max /\ 0 <= written <= max /\
    drop (Z.to_nat written) view =
      drop (Z.to_nat written) (take (Z.to_nat max) (drop (Z.to_nat (size_ b)) (data_ b1))) /\
    AppendData_with z b max f =
      Ok (mkBuffer (size_ b + written) (capacity_ b1) (put_cells (data_ b1) (size_ b) view)
            (block b1) (freed b1), written).
Proof.
  intros Hb Hmax Hf b1. unfold AppendData_with.
  pose proof (SetSize_consistent z b (size_ b + max)) as Hb1.
  pose proof (SetSize_size z b (size_ b + max)) as Hsz. subst b1.
  set (b1 := SetSize z b (size_ b + max)) in *. destruct Hb as [Hl Hs].
  destruct Hb1 as [Hl1 Hs1]; [lia | by split |]. rewrite Hsz in Hs1.
  set (v := take _ _). assert (Hv : zlen v = max).
  { subst v. unfold zlen in *. rewrite length_take, length_drop. lia. }
  specialize (Hf v). destruct (f v) as [view written] eqn:E. destruct Hf as (Hlen & Hw & Hd).
  exists view, written. rewrite Hv in Hw. rewrite (proj2 (Z.leb_le written max)) by lia.
  split_and!; [done | unfold zlen in *; lia | lia | lia | done | done].
Qed.

Lemma AppendData_with_consistent z b max f :
  consistent b -> 0 <= max -> setter_ok f ->
  exists b' written, AppendData_with z b max f = Ok (b', written) /\
    consistent b' /\ capacity_ b <= capacity_ b'.
Proof.
  intros Hb Hmax Hf.
  destruct (AppendData_with_spec z b max f Hb Hmax Hf) as (view & n & _ & Hv & Hn & _ & ->).
  pose proof (SetSize_capacity z b (size_ b + max) Hb).
  pose proof (SetSize_consistent z b (size_ b + max)) as [Hl1 Hs1]; [destruct Hb; lia | done |].
  rewrite SetSize_size in Hs1. destruct Hb.
  eexists _, n. split; [done|]. split; [|done].
  split; cbn; [rewrite zlen_put_cells; lia | lia].
Qed.

(** ** The calls of a client *)

(** [OpAssign bs capacity] moves a [Buffer(data, size, capacity)] into the buffer. *)
Inductive op :=
  | OpAppendData (bs : bytes)
  | OpAppendDataWith (max_elements : nat) (f : setter)
  | OpSetData (bs : bytes)
  | OpSetDataWith (max_elements : nat) (f : setter)
  | OpSetSize (n : nat)
  | OpEnsureCapacity (n : Z)
  | OpSetAt (index v : Z)
  | OpClear
  | OpAssign (bs : bytes) (capacity : Z).

Definition apply_op (z : bool) (b : Buffer) (o : op) : res Buffer :=
  match o with
  | OpAppendData bs => Ok (AppendData z b bs)
  | OpAppendDataWith n f => '(b, _) ← AppendData_with z b (Z.of_nat n) f; Ok b
  | OpSetData bs => Ok (SetData z b bs)
  | OpSetDataWith n f => '(b, _) ← SetData_with z b (Z.of_nat n) f; Ok b
  | OpSetSize n => Ok (SetSize z b (Z.of_nat n))
  | OpEnsureCapacity n => Ok (EnsureCapacity z b n)
  | OpSetAt i v => set_at b i v
  | OpClear => Ok (Clear z b)
  | OpAssign bs capacity => Ok (move_assign z b (create_from bs capacity))
  end.

Fixpoint apply_ops (z : bool) (b : Buffer) (ops : list op) : res Buffer :=
  match ops with
  | [] => Ok b
  | o :: ops => b ← apply_op z b o; apply_ops z b ops
  end.

Definition op_ok (o : op) : Prop :=
  match o with OpAppendDataWith _ f | OpSetDataWith _ f => setter_ok f | _ => True end.

(** A store past the size, which [RTC_DCHECK_LT] refuses. *)
Definition out_of_size (b : Buffer) (o : op) : Prop :=
  match o with OpSetAt i _ => ~ (0 <= i < size_ b) | _ => False end.

(** ** What is left behind *)

(** A cell that never held data, or was zeroed. *)
Definition clean (c : option Z) : Prop := c = None \/ c = Some 0.

(** Every cell from [k] on is clean. *)
Definition clean_from (k : Z) (b : Buffer) : Prop := Forall clean (drop (Z.to_nat k) (data_ b)).

(** A block all of whose cells were zeroed. *)
Definition scrubbed (block : list (option Z)) : Prop := Forall (eq (Some 0)) block.

(** The buffer is consistent, and in a [ZeroOnFree] buffer the cells from [k]
    on are clean and every block given back was zeroed.  [k] is the size,
    except inside a call. *)
Definition inv (z : bool) (k : Z) (b : Buffer) : Prop :=
  consistent b /\ size_ b <= k /\
  (z = true -> clean_from k b /\ Forall scrubbed (freed b)).

Lemma clean_drop_le (l : list (option Z)) i j :
  (i <= j)%nat -> Forall clean (drop i l) -> Forall clean (drop j l).
Proof.
  intros Hij H. replace j with (i + (j - i))%nat by lia. rewrite <- drop_drop.
  by apply Forall_drop.
Qed.

Lemma clean_replicate n c : clean c -> Forall clean (replicate n c).
Proof. intros. by apply Forall_replicate. Qed.

Lemma drop_put_cells d off v k :
  (Z.to_nat off <= length d)%nat -> (Z.to_nat off + length v <= k)%nat ->
  drop k (put_cells d off v) = drop k d.
Proof.
  intros Hd Hk. unfold put_cells. rewrite app_assoc, drop_app_ge;
    rewrite length_app, length_take, Nat.min_l by lia; [|lia].
  rewrite drop_drop. f_equal. lia.
Qed.

(** Writing a view back whose cells from [n] on were not touched changes
    nothing from there on. *)
Lemma drop_put_view (d view : list (option Z)) off n max :
  0 <= off -> 0 <= n <= max -> off + max <= zlen d -> zlen view = max ->
  drop (Z.to_nat n) view = drop (Z.to_nat n) (take (Z.to_nat max) (drop (Z.to_nat off) d)) ->
  drop (Z.to_nat (off + n)) (put_cells d off view) = drop (Z.to_nat (off + n)) d.
Proof.
  intros Ho Hn Hd Hv E. unfold put_cells, zlen in *.
  replace (Z.to_nat (off + n)) with (Z.to_nat off + Z.to_nat n)%nat by lia.
  rewrite <- !drop_drop. rewrite drop_app_length' by (rewrite length_take; lia).
  rewrite drop_app_le by lia. rewrite E.
  replace (length view) with (Z.to_nat max) by lia.
  set (x := drop (Z.to_nat off) d).
  rewrite <- drop_app_le by (subst x; rewrite length_take, length_drop; lia).
  by rewrite take_drop.
Qed.

Lemma scrubbed_zeros n : scrubbed (zeros n).
Proof. by apply Forall_replicate. Qed.

(** What [MaybeZeroCompleteBuffer] leaves for [free] holds nothing. *)
Lemma heap_block_scrubbed b : Forall scrubbed (heap_block (MaybeZeroCompleteBuffer true b)).
Proof.
  unfold heap_block, MaybeZeroCompleteBuffer. cbn [andb].
  destruct (0 <? capacity_ b) eqn:E; cbn [capacity_]; rewrite E; [|constructor].
  repeat constructor. apply scrubbed_zeros.
Qed.

Lemma MaybeZero_freed z b : freed (MaybeZeroCompleteBuffer z b) = freed b.
Proof. unfold MaybeZeroCompleteBuffer. by case_match. Qed.

(** Giving a block back keeps the list of freed blocks scrubbed. *)
Lemma release_scrubbed b :
  Forall scrubbed (freed b) ->
  Forall scrubbed (freed b ++ heap_block (MaybeZeroCompleteBuffer true b)).
Proof. intros. apply Forall_app. split; [done | apply heap_block_scrubbed]. Qed.

Lemma inv_consistent z k b : inv z k b -> consistent b.
Proof. by intros [? _]. Qed.

Lemma ensure_inv z b c x k : inv z k b -> inv z k (EnsureCapacityWithHeadroom z b c x).
Proof.
  intros (Hb & Hk & Hz). split; [by apply ensure_consistent|].
  split; [by rewrite ensure_size|]. intros ->. destruct (Hz eq_refl) as [Hc Hf].
  rewrite ensure_eq. case_match; [done|]. split; cbn [freed]; [|by apply release_scrubbed].
  unfold clean_from. cbn [data_]. pose proof (zlen_contents b Hb). destruct Hb.
  rewrite drop_app_ge by (unfold zlen in *; lia).
  apply Forall_drop, clean_replicate. by left.
Qed.

Lemma set_size_inv z b n k :
  inv z k b -> 0 <= n <= capacity_ b -> inv z (Z.max k n) (set_size_ b n).
Proof.
  intros (Hb & Hk & Hz) Hn. split; [by apply set_size_consistent|].
  split; [cbn; lia|]. intros E. destruct (Hz E) as [Hc Hf]. split; [|done].
  eapply clean_drop_le; [|exact Hc]. lia.
Qed.

(** Shrinking, inside a call: the cells that were in use still count. *)
Lemma reset_inv z b : inv z (size_ b) b -> inv z (size_ b) (set_size_ b 0).
Proof.
  intros Hb. pose proof (inv_consistent _ _ _ Hb) as [_ Hs].
  pose proof (set_size_inv z b 0 _ Hb) as H. rewrite Z.max_l in H by lia. apply H. lia.
Qed.

Lemma AppendData_inv z b bs k :
  inv z k b -> inv z (Z.max k (size_ b + zlen bs)) (AppendData z b bs).
Proof.
  intros Hi. pose proof (ensure_inv z b (size_ b + zlen bs) true k Hi) as ([Hl _] & _ & Hz1).
  pose proof (ensure_capacity z b (size_ b + zlen bs) true). destruct Hi as (Hb & Hk & _).
  split; [by apply AppendData_consistent|]. split; [cbn; lia|].
  intros E. destruct (Hz1 E) as [Hc Hf]. split; [|done].
  unfold clean_from, AppendData. cbn [data_]. destruct Hb. pose proof (zlen_nonneg bs).
  rewrite drop_put_cells; [|unfold zlen in *; lia | rewrite length_cells; unfold zlen in *; lia].
  eapply clean_drop_le; [|exact Hc]. lia.
Qed.

Lemma AppendData_with_inv z b max f k :
  inv z k b -> 0 <= max -> setter_ok f ->
  exists b' n, AppendData_with z b max f = Ok (b', n) /\
    inv z (Z.max k (size_ b')) b' /\ size_ b <= size_ b' /\ capacity_ b <= capacity_ b'.
Proof.
  intros Hi Hmax Hf. destruct Hi as (Hb & Hk & Hz).
  destruct (AppendData_with_consistent z b max f Hb Hmax Hf) as (b' & n & E & Hb' & Hcap).
  exists b', n. split; [done|].
  destruct (AppendData_with_spec z b max f Hb Hmax Hf) as (view & n' & _ & Hv & Hn & Hd & E').
  rewrite E in E'. injection E' as -> ->. clear E.
  split; [|split; [cbn; lia | done]]. split; [done|]. split; [lia|].
  intros Ez. destruct (Hz Ez) as [Hc Hr].
  unfold SetSize in *. rewrite zero_shrunk_grown in * by (cbn; lia).
  destruct (ensure_inv z b (size_ b + max) true k) as ([Hl _] & _ & Hz1); [done|].
  destruct (Hz1 Ez) as [Hc1 Hr1]. split; [|done].
  pose proof (ensure_capacity z b (size_ b + max) true). destruct Hb.
  unfold clean_from. cbn [data_ set_size_ size_ freed] in *.
  replace (Z.to_nat (Z.max k (size_ b + n')))
    with (Z.to_nat (size_ b + n') + Z.to_nat (Z.max k (size_ b + n') - (size_ b + n')))%nat by lia.
  rewrite <- drop_drop, (drop_put_view _ view (size_ b) n' max); [|lia..|exact Hv|exact Hd].
  rewrite drop_drop. eapply clean_drop_le; [|exact Hc1]. lia.
Qed.

Lemma zero_shrunk_inv z b old :
  inv z (Z.max (size_ b) old) b -> old <= capacity_ b -> inv z (size_ b) (zero_shrunk z b old).
Proof.
  intros (Hb & Hk & Hz) Hold. split; [by apply zero_shrunk_consistent|].
  rewrite zero_shrunk_size. split; [lia|]. intros E. destruct (Hz E) as [Hc Hf].
  unfold zero_shrunk. rewrite E. cbn [andb]. case_match; bool_inv.
  - split; [|done]. rewrite Z.max_r in Hc by lia. destruct Hb.
    unfold clean_from, ZeroTrailingData, put_cells in *. cbn [size_ data_].
    rewrite drop_app_length' by (rewrite length_take; unfold zlen in *; lia).
    apply Forall_app. split; [apply clean_replicate; by right|].
    unfold zeros. rewrite length_replicate.
    by replace (_ + _)%nat with (Z.to_nat old) by lia.
  - rewrite Z.max_l in Hc by lia. done.
Qed.

Lemma fresh_inv z b : consistent b -> Forall clean (drop (Z.to_nat (size_ b)) (data_ b)) ->
  freed b = [] -> inv z (size_ b) b.
Proof. intros ? ? E. split; [done|]. split; [lia|]. intros _. by rewrite E. Qed.

Lemma create_inv z size capacity : 0 <= size -> inv z size (create size capacity).
Proof.
  intros. apply (fresh_inv z (create size capacity)); [by apply create_consistent | | done].
  cbn. apply Forall_drop, clean_replicate. by left.
Qed.

Lemma create_from_inv z bs capacity : inv z (zlen bs) (create_from bs capacity).
Proof.
  pose proof (zlen_nonneg bs).
  apply (fresh_inv z (create_from bs capacity)); [| |done]; unfold create_from, create; cbn.
  - split; cbn; [|lia]. unfold zlen in *.
    rewrite length_app, length_cells, length_drop, length_replicate. lia.
  - rewrite drop_app_length' by (rewrite length_cells; unfold zlen; lia).
    apply Forall_drop, clean_replicate. by left.
Qed.

Lemma SetData_inv z b bs : inv z (size_ b) b -> inv z (zlen bs) (SetData z b bs).
Proof.
  intros Hi. pose proof (AppendData_inv z _ bs _ (reset_inv z b Hi)) as H.
  pose proof (AppendData_capacity z _ bs (reset_consistent b (inv_consistent _ _ _ Hi))).
  apply inv_consistent in Hi. destruct Hi as [_ Hs].
  apply (zero_shrunk_inv z (AppendData z (set_size_ b 0) bs)); [|cbn in *; lia].
  by rewrite Z.max_comm.
Qed.

Lemma SetData_with_inv z b max f :
  inv z (size_ b) b -> 0 <= max -> setter_ok f ->
  exists b' n, SetData_with z b max f = Ok (b', n) /\ inv z (size_ b') b'.
Proof.
  intros Hi Hmax Hf.
  destruct (AppendData_with_inv z _ max f _ (reset_inv z b Hi) Hmax Hf) as (b' & n & E & Hb' & _ & Hc).
  exists (zero_shrunk z b' (size_ b)), n. unfold SetData_with. rewrite E. split; [done|].
  rewrite zero_shrunk_size. apply zero_shrunk_inv; [by rewrite Z.max_comm|].
  apply inv_consistent in Hi. destruct Hi. cbn in Hc. lia.
Qed.

Lemma SetSize_inv z b n : inv z (size_ b) b -> 0 <= n -> inv z n (SetSize z b n).
Proof.
  intros Hi Hn. pose proof (ensure_capacity z b n true).
  pose proof (ensure_capacity_mono z b n true (inv_consistent _ _ _ Hi)).
  pose proof (inv_consistent _ _ _ Hi) as [_ Hs].
  apply (zero_shrunk_inv z (set_size_ (EnsureCapacityWithHeadroom z b n true) n)); [|cbn; lia].
  cbn [size_ set_size_]. rewrite Z.max_comm. apply set_size_inv; [by apply ensure_inv | lia].
Qed.

Lemma Clear_inv z b : inv z (size_ b) b -> inv z 0 (Clear z b).
Proof.
  intros (Hb & _ & Hz). split; [by apply Clear_consistent|]. split; [done|].
  intros E. destruct (Hz E) as [Hc Hf]. unfold clean_from, Clear, MaybeZeroCompleteBuffer.
  rewrite E. cbn [andb]. case_match; (split; [|done]); cbn.
  - apply clean_replicate. by right.
  - bool_inv. destruct Hb as [Hl Hs]. assert (data_ b = []) as ->; [|constructor].
    apply nil_length_inv. unfold zlen in *. lia.
Qed.

Lemma set_at_inv z b i v b' : inv z (size_ b) b -> set_at b i v = Ok b' -> inv z (size_ b') b'.
Proof.
  intros ([Hl Hs] & _ & Hz) E. unfold set_at in E. res_inv. bool_inv.
  cbn [size_].
  split; [split; cbn; [|lia]; unfold zlen in *; by rewrite length_insert|]. split; [reflexivity|].
  intros Ez. destruct (Hz Ez) as [Hc Hf]. split; [|done].
  unfold clean_from. cbn [size_ data_]. rewrite drop_insert_lt by lia. done.
Qed.

Lemma move_assign_inv z b buf :
  inv z (size_ b) b -> inv z (size_ buf) buf -> inv z (size_ buf) (move_assign z b buf).
Proof.
  intros (Hb & _ & Hz) (Hc & _ & Hz'). split; [exact Hc|]. split; [cbn; lia|].
  intros E. destruct (Hz E) as [_ Hf], (Hz' E) as [Hc' _]. split; [exact Hc'|].
  unfold move_assign. cbn [freed]. rewrite MaybeZero_freed, E. by apply release_scrubbed.
Qed.

(** Every call a client may make succeeds, a store past the size aside, and
    leaves the buffer whole. *)
Lemma apply_op_inv z b o :
  inv z (size_ b) b -> op_ok o ->
  match apply_op z b o with
  | Ok b' => inv z (size_ b') b'
  | Fail e => e = AssertFailed /\ out_of_size b o
  end.
Proof.
  intros Hi Ho. destruct o; cbn [apply_op op_ok out_of_size] in *.
  - pose proof (AppendData_inv z b bs _ Hi) as H. cbn [AppendData size_].
    pose proof (zlen_nonneg bs). by rewrite Z.max_r in H by lia.
  - destruct (AppendData_with_inv z b (Z.of_nat max_elements) f _ Hi (Nat2Z.is_nonneg _) Ho)
      as (b' & n & -> & H & Hs & _). cbn. by rewrite Z.max_r in H by lia.
  - pose proof (SetData_inv z b bs Hi) as H. unfold SetData. rewrite zero_shrunk_size. exact H.
  - destruct (SetData_with_inv z b (Z.of_nat max_elements) f Hi (Nat2Z.is_nonneg _) Ho) as (b' & n & -> & H).
    exact H.
  - rewrite SetSize_size. apply SetSize_inv; [done | lia].
  - unfold EnsureCapacity. rewrite ensure_size. by apply ensure_inv.
  - destruct (set_at b index v) as [b'|e] eqn:E; [by eapply set_at_inv|].
    unfold set_at, require in E. case_match; [done|]. injection E as <-. bool_inv. split; [done|lia].
  - cbn. by apply Clear_inv.
  - cbn. apply move_assign_inv; [done | apply create_from_inv].
Qed.

Lemma destroy_scrubbed b k : inv true k b -> Forall scrubbed (destroy true b).
Proof.
  intros (_ & _ & Hz). destruct (Hz eq_refl) as [_ Hf].
  unfold destroy. rewrite MaybeZero_freed. by apply release_scrubbed.
Qed.

(** C40. Over any sequence of AppendData, SetData, SetSize, EnsureCapacity,
    Clear, move assignments from a new buffer, stores with [operator[]] and the
    setter overloads (with setters that keep to the view they are given and
    leave what they do not count alone, as the header asks), for both values of
    ZeroOnFree: every call succeeds, a store past the size aside; IsConsistent
    holds after it; and when ZeroOnFree is true, every cell past the size is
    zero or was never written, and every block the buffer gives back to the
    heap, when it grows, is assigned to or is destroyed, is all zeros. *)
Theorem zero_on_free_invariant z size capacity ops :
  0 <= size -> Forall op_ok ops ->
  match apply_ops z (create size capacity) ops with
  | Ok b =>
      IsConsistent b = true /\
      (z = true -> Forall clean (drop (Z.to_nat (size_ b)) (data_ b)) /\
                   Forall scrubbed (destroy z b))
  | Fail e => e = AssertFailed /\
      exists ops1 o ops2 b, ops = ops1 ++ o :: ops2 /\
        apply_ops z (create size capacity) ops1 = Ok b /\ out_of_size b o
  end.
Proof.
  intros Hs Hops. pose proof (create_inv z size capacity Hs) as Hi.
  change size with (size_ (create size capacity)) in Hi at 1.
  revert Hi. generalize (create size capacity) as b. clear size capacity Hs.
  induction Hops as [|o ops Ho _ IH]; intros b Hi; cbn [apply_ops].
  { pose proof Hi as (Hb & _ & Hz). rewrite IsConsistent_spec. split; [done|].
    intros ->. destruct (Hz eq_refl). split; [done | by eapply destroy_scrubbed]. }
  pose proof (apply_op_inv z b o Hi Ho) as H. destruct (apply_op z b o) as [b'|e] eqn:E; cbn.
  - specialize (IH b' H). destruct (apply_ops z b' ops); [done|].
    destruct IH as (-> & ops1 & o' & ops2 & b2 & -> & E2 & Hout). split; [done|].
    exists (o :: ops1), o', ops2, b2. split; [done|]. split; [|done]. cbn. by rewrite E.
  - destruct H as [-> Hout]. split; [done|]. by exists [], o, ops, b.
Qed.

Definition secret_calls : list op :=
  [OpSetData (lit "master secret"); OpSetSize 2; OpSetAt 1 7;
   OpAppendDataWith 60 (store (lit "a key")); OpSetDataWith 4 (store [1; 2]);
   OpAssign (lit "iv") 16; OpEnsureCapacity 40; OpClear].

Lemma zero_on_free_invariant_witness :
  match apply_ops true (create 0 4) secret_calls with
  | Ok b => IsConsistent b = true /\
      (true = true -> Forall clean (drop (Z.to_nat (size_ b)) (data_ b)) /\
                      Forall scrubbed (destroy true b))
  | Fail _ => False
  end.
Proof.
  assert (Hops : Forall op_ok secret_calls) by (repeat constructor; apply store_ok).
  exact (zero_on_free_invariant true 0 4 secret_calls (Z.le_refl 0) Hops).
Defined.

(** The run of the witness gives five blocks back, the last one of 40 cells. *)
Example secret_blocks :
  match apply_ops true (create 0 4) secret_calls with
  | Ok b => length <$> destroy true b = [4; 13; 62; 16; 40]%nat
  | Fail _ => False
  end.
Proof. vm_compute. reflexivity. Qed.

(** Without [ZeroOnFree] the secret stays in the block that is freed. *)
Example plain_buffer_leaks :
  destroy false (SetSize false (SetData false empty (lit "ab")) 0) = [cells (lit "ab")].
Proof. vm_compute. reflexivity. Qed.
