(* ===== verification/ByteBuffer.v ===== *)
(** * rtc_base/byte_buffer.h, byte_buffer.cc

    [ByteBufferWriter] appends numbers to a [BufferT<char>] in network byte
    order; [ByteBufferReader] reads them back from a block it does not own.
    The out-parameters of the reader's methods are never null (every call
    passes the address of a variable), so a read returns the value or
    [None], and the reader, whose position moves also on some failures. *)
From S2P Require Import Prelude ByteOrder Buffer.
Local Open Scope Z_scope.

(** ** Writer *)
Module Writer.
Definition kDefaultCapacity : Z := 4096.

(** [ByteBufferWriter()] and [ByteBufferWriter(bytes, len)]. *)
Definition create_default : Buffer := Buffer.EnsureCapacity false Buffer.empty kDefaultCapacity.
Definition create_with (bs : bytes) : Buffer := Buffer.AppendData false Buffer.empty bs.

Definition Data (w : Buffer) : res bytes := Buffer.data w.
Definition Length (w : Buffer) : Z := Buffer.size_ w.
Definition Capacity (w : Buffer) : Z := Buffer.capacity_ w.

Definition WriteBytes (w : Buffer) (val : bytes) : Buffer := Buffer.AppendData false w val.
Definition WriteUInt8 (w : Buffer) (val : Z) : Buffer := WriteBytes w (le_store 1 val).
Definition WriteUInt16 (w : Buffer) (val : Z) : Buffer :=
  WriteBytes w (le_store 2 (HostToNetwork16 val)).
(** The three bytes after the first of the swapped 32-bit value. *)
Definition WriteUInt24 (w : Buffer) (val : Z) : Buffer :=
  WriteBytes w (take 3 (drop 1 (le_store 4 (HostToNetwork32 val)))).
Definition WriteUInt32 (w : Buffer) (val : Z) : Buffer :=
  WriteBytes w (le_store 4 (HostToNetwork32 val)).
Definition WriteUInt64 (w : Buffer) (val : Z) : Buffer :=
  WriteBytes w (le_store 8 (HostToNetwork64 val)).
Definition WriteString (w : Buffer) (val : bytes) : Buffer := WriteBytes w val.

(** [while (val >= 0x80)]: ten rounds exhaust a 64-bit value. *)
Fixpoint uvarint_loop (fuel : nat) (w : Buffer) (val : Z) : option Buffer :=
  if 128 <=? val then
    match fuel with
    | O => None
    | S f => uvarint_loop f (WriteBytes w [u8 (Z.lor (u8 val) 128)]) (Z.shiftr val 7)
    end
  else Some (WriteBytes w [u8 val]).

Definition WriteUVarint (w : Buffer) (val : Z) : option Buffer := uvarint_loop 10 w val.

Definition ReserveWriteBuffer (w : Buffer) (len : Z) : Buffer :=
  Buffer.SetSize false w (Buffer.size_ w + len).
Definition Resize (w : Buffer) (size : Z) : Buffer := Buffer.SetSize false w size.
Definition Clear (w : Buffer) : Buffer := Buffer.Clear false w.
End Writer.

(** ** Reader *)
Module Reader.
Record Reader := mkReader { bytes_ : bytes; size_ : Z; start_ : Z; end_ : Z }.

Definition Construct (bs : bytes) : Reader := mkReader bs (zlen bs) 0 (zlen bs).

Definition Length (r : Reader) : Z := end_ r - start_ r.
(** The unprocessed bytes, [Length()] of them from [Data()]. *)
Definition Data (r : Reader) : bytes :=
  take (Z.to_nat (Length r)) (drop (Z.to_nat (start_ r)) (bytes_ r)).

Definition advance (r : Reader) (n : Z) : Reader :=
  mkReader (bytes_ r) (size_ r) (start_ r + n) (end_ r).

(** [memcpy(val, bytes_ + start_, len)], guarded by [len > Length()]. *)
Definition ReadBytes (r : Reader) (len : Z) : option bytes * Reader :=
  if Length r <? len then (None, r)
  else (Some (take (Z.to_nat len) (drop (Z.to_nat (start_ r)) (bytes_ r))), advance r len).

Definition ReadString (r : Reader) (val : bytes) (len : Z) : option bytes * Reader :=
  if Length r <? len then (None, r)
  else (Some (val ++ take (Z.to_nat len) (drop (Z.to_nat (start_ r)) (bytes_ r))),
        advance r len).

Definition Consume (r : Reader) (size : Z) : bool * Reader :=
  if Length r <? size then (false, r) else (true, advance r size).

Definition ReadUInt8 (r : Reader) : option Z * Reader :=
  let '(o, r) := ReadBytes r 1 in (le_load <$> o, r).
Definition ReadUInt16 (r : Reader) : option Z * Reader :=
  let '(o, r) := ReadBytes r 2 in ((fun b => NetworkToHost16 (le_load b)) <$> o, r).
(** Three bytes read behind a zero byte of a [uint32_t]. *)
Definition ReadUInt24 (r : Reader) : option Z * Reader :=
  let '(o, r) := ReadBytes r 3 in ((fun b => NetworkToHost32 (le_load (0 :: b))) <$> o, r).
Definition ReadUInt32 (r : Reader) : option Z * Reader :=
  let '(o, r) := ReadBytes r 4 in ((fun b => NetworkToHost32 (le_load b)) <$> o, r).
Definition ReadUInt64 (r : Reader) : option Z * Reader :=
  let '(o, r) := ReadBytes r 8 in ((fun b => NetworkToHost64 (le_load b)) <$> o, r).

(** [for (int i = 0; i < 64; i += 7)]: [fuel] counts the rounds left.  The
    [char] is signed, so [static_cast<uint64_t>(byte)] extends its sign. *)
Fixpoint uvarint_loop (fuel : nat) (r : Reader) (v i : Z) : option Z * Reader :=
  match fuel with
  | O => (None, r)
  | S f =>
      match ReadBytes r 1 with
      | (Some bs, r1) =>
          let byte := u64 (i8 (le_load bs)) in
          let v1 := Z.lor v (u64 (Z.shiftl (Z.land byte 127) i)) in
          if byte <? 128 then (Some v1, r1) else uvarint_loop f r1 v1 (i + 7)
      | (None, r1) => (None, r1)
      end
  end.

Definition ReadUVarint (r : Reader) : option Z * Reader := uvarint_loop 10 r 0 0.
End Reader.

(** ** Lemmas *)

(** What a writer holds: a consistent buffer with the bytes written so far. *)
Definition holds (w : Buffer) (v : bytes) : Prop :=
  Buffer.consistent w /\ Buffer.data w = Ok v.

Create HintDb writer.

Lemma create_default_holds : holds Writer.create_default [].
Proof. split; [by apply Buffer.IsConsistent_spec | done]. Qed.

Lemma WriteBytes_holds w v bs : holds w v -> holds (Writer.WriteBytes w bs) (v ++ bs).
Proof.
  intros [Hc Hd]. split; [by apply Buffer.AppendData_consistent|].
  by apply Buffer.AppendData_data.
Qed.

Lemma WriteUInt8_holds w v x : holds w v -> holds (Writer.WriteUInt8 w x) (v ++ [u8 x]).
Proof. apply WriteBytes_holds. Qed.

Lemma WriteUInt16_holds w v x : holds w v -> holds (Writer.WriteUInt16 w x) (v ++ be_store 2 x).
Proof.
  intros. unfold Writer.WriteUInt16, HostToNetwork16. rewrite le_store_bswap.
  by apply WriteBytes_holds.
Qed.

Lemma WriteUInt32_holds w v x : holds w v -> holds (Writer.WriteUInt32 w x) (v ++ be_store 4 x).
Proof.
  intros. unfold Writer.WriteUInt32, HostToNetwork32. rewrite le_store_bswap.
  by apply WriteBytes_holds.
Qed.

Lemma WriteUInt64_holds w v x : holds w v -> holds (Writer.WriteUInt64 w x) (v ++ be_store 8 x).
Proof.
  intros. unfold Writer.WriteUInt64, HostToNetwork64. rewrite le_store_bswap.
  by apply WriteBytes_holds.
Qed.

Lemma WriteUInt24_holds w v x : holds w v -> holds (Writer.WriteUInt24 w x) (v ++ be_store 3 x).
Proof.
  intros. unfold Writer.WriteUInt24, HostToNetwork32. rewrite le_store_bswap.
  by apply WriteBytes_holds.
Qed.

Lemma WriteString_holds w v s : holds w v -> holds (Writer.WriteString w s) (v ++ s).
Proof. apply WriteBytes_holds. Qed.

#[export] Hint Resolve create_default_holds WriteBytes_holds WriteUInt8_holds
  WriteUInt16_holds WriteUInt24_holds WriteUInt32_holds WriteUInt64_holds
  WriteString_holds : writer.

(** A writer with its default capacity that still owns the block [k]. *)
Definition fits (k : nat) (w : Buffer) (v : bytes) : Prop :=
  holds w v /\ Buffer.capacity_ w = Writer.kDefaultCapacity /\ Buffer.block w = k.

Lemma holds_size w v : holds w v -> Buffer.size_ w = zlen v.
Proof.
  intros [Hc Hd]. rewrite <- (Buffer.zlen_contents w Hc), (Buffer.data_inv _ _ Hd).
  apply Buffer.zlen_cells.
Qed.

Lemma create_default_fits : fits 1 Writer.create_default [].
Proof. split; [apply create_default_holds | done]. Qed.

(** As long as the bytes fit the capacity, the block is kept. *)
Lemma WriteBytes_fits k w v bs :
  fits k w v -> zlen v + zlen bs <= Writer.kDefaultCapacity ->
  fits k (Writer.WriteBytes w bs) (v ++ bs).
Proof.
  intros (Hh & Hc & Hb) Hl. split; [by apply WriteBytes_holds|].
  destruct (Buffer.AppendData_block false w bs) as [E1 E2].
  - rewrite (holds_size _ _ Hh). lia.
  - unfold Writer.WriteBytes. by rewrite E1, E2.
Qed.

Lemma WriteUInt8_fits k w v x :
  fits k w v -> zlen v + 1 <= Writer.kDefaultCapacity ->
  fits k (Writer.WriteUInt8 w x) (v ++ [u8 x]).
Proof. intros. by apply (WriteBytes_fits k w v [u8 x]). Qed.

Lemma WriteUInt16_fits k w v x :
  fits k w v -> zlen v + 2 <= Writer.kDefaultCapacity ->
  fits k (Writer.WriteUInt16 w x) (v ++ be_store 2 x).
Proof.
  intros. unfold Writer.WriteUInt16, HostToNetwork16. rewrite le_store_bswap.
  apply WriteBytes_fits; [done|]. by rewrite zlen_be_store.
Qed.

Lemma WriteUInt32_fits k w v x :
  fits k w v -> zlen v + 4 <= Writer.kDefaultCapacity ->
  fits k (Writer.WriteUInt32 w x) (v ++ be_store 4 x).
Proof.
  intros. unfold Writer.WriteUInt32, HostToNetwork32. rewrite le_store_bswap.
  apply WriteBytes_fits; [done|]. by rewrite zlen_be_store.
Qed.

(** The bytes [WriteUVarint] emits. *)
Fixpoint uvarint_bytes (fuel : nat) (val : Z) : option bytes :=
  if 128 <=? val then
    match fuel with
    | O => None
    | S f => cons (u8 (Z.lor (u8 val) 128)) <$> uvarint_bytes f (Z.shiftr val 7)
    end
  else Some [u8 val].

Lemma uvarint_loop_holds fuel w v val :
  holds w v ->
  match Writer.uvarint_loop fuel w val, uvarint_bytes fuel val with
  | Some w', Some e => holds w' (v ++ e)
  | None, None => True
  | _, _ => False
  end.
Proof.
  revert w v val. induction fuel as [|f IH]; intros w v val Hw;
    cbn [Writer.uvarint_loop uvarint_bytes]; destruct (128 <=? val); auto with writer.
  set (byte := u8 (Z.lor _ _)). specialize (IH _ _ (Z.shiftr val 7) (WriteBytes_holds w v [byte] Hw)).
  destruct (Writer.uvarint_loop f _ _), (uvarint_bytes f _); cbn; try done.
  by rewrite <- app_assoc in IH.
Qed.

Lemma uvarint_bytes_total fuel val :
  0 <= val < 128 * 128 ^ Z.of_nat fuel -> is_Some (uvarint_bytes fuel val).
Proof.
  revert val. induction fuel as [|f IH]; intros val Hv; cbn [uvarint_bytes];
    destruct (Z.leb_spec 128 val); eauto; [cbn in Hv; lia|].
  apply fmap_is_Some, IH. rewrite Nat2Z.inj_succ, Z.pow_succ_r in Hv by lia.
  rewrite Z.shiftr_div_pow2 by lia. split; [apply Z.div_pos; lia|].
  apply Z.div_lt_upper_bound; lia.
Qed.

Module ReaderFacts.
Import Reader.

Definition wf (r : Reader) : Prop :=
  0 <= start_ r <= end_ r /\ end_ r = zlen (bytes_ r) /\ size_ r = zlen (bytes_ r).

Lemma Construct_wf bs : wf (Construct bs).
Proof. unfold wf, Construct. cbn. pose proof (zlen_nonneg bs). lia. Qed.

Lemma Construct_Data bs : Data (Construct bs) = bs.
Proof.
  unfold Data, Construct, Length. cbn. rewrite Z.sub_0_r, drop_0. apply take_ge.
  unfold zlen. lia.
Qed.

Lemma wf_Data r : wf r -> Data r = drop (Z.to_nat (start_ r)) (bytes_ r).
Proof.
  intros (H1 & H2 & _). unfold Data, Length. apply take_ge. rewrite length_drop.
  unfold zlen in *. lia.
Qed.

Lemma zlen_Data r : wf r -> zlen (Data r) = Length r.
Proof.
  intros Hw. rewrite wf_Data by done. destruct Hw as (H1 & H2 & _).
  rewrite zlen_drop by lia. unfold Length. lia.
Qed.

Lemma advance_wf r n : wf r -> 0 <= n <= Length r -> wf (advance r n).
Proof. unfold wf, advance, Length. cbn. lia. Qed.

(** Reading the next bytes of the unprocessed data. *)
Lemma ReadBytes_app r b t n :
  wf r -> Data r = b ++ t -> n = zlen b ->
  exists r', ReadBytes r n = (Some b, r') /\ wf r' /\ Data r' = t.
Proof.
  intros Hw Hd ->. pose proof (zlen_Data r Hw) as Hl.
  rewrite Hd, zlen_app in Hl. pose proof (zlen_nonneg b). pose proof (zlen_nonneg t).
  exists (advance r (zlen b)). unfold ReadBytes. rewrite (proj2 (Z.ltb_ge _ _)) by lia.
  rewrite wf_Data in Hd by done. rewrite Hd. split_and!.
  - unfold zlen. by rewrite Nat2Z.id, take_app_length.
  - apply advance_wf; [done | lia].
  - rewrite wf_Data by (apply advance_wf; [done | lia]). cbn.
    destruct Hw as (? & ? & ?). rewrite Z2Nat.inj_add, <- drop_drop, Hd by lia.
    unfold zlen. by rewrite Nat2Z.id, drop_app_length.
Qed.

Lemma ReadBytes_short r n :
  Length r < n -> ReadBytes r n = (None, r).
Proof. intros. unfold ReadBytes. by rewrite (proj2 (Z.ltb_lt _ _)) by lia. Qed.
End ReaderFacts.

(** The byte [WriteUVarint] emits and what [ReadUVarint] makes of it. *)
Lemma uvarint_continuation_bytes :
  forall m, is_byte m ->
    (Z.land (u64 (i8 (u8 (Z.lor m 128)))) 127 =? m mod 128) &&
    (128 <=? u64 (i8 (u8 (Z.lor m 128)))) = true.
Proof. by_bytes. Qed.

Lemma uvarint_last_bytes :
  forall m, is_byte m ->
    (128 <=? m) || ((Z.land (u64 (i8 (u8 m))) 127 =? m) && (u64 (i8 (u8 m)) <? 128)) = true.
Proof. by_bytes. Qed.

Lemma uvarint_continuation m :
  is_byte m ->
  let b := u8 (Z.lor m 128) in
  Z.land (u64 (i8 b)) 127 = m mod 128 /\ 128 <= u64 (i8 b).
Proof. intros Hm%uvarint_continuation_bytes b. by bool_inv. Qed.

Lemma uvarint_last m :
  0 <= m < 128 -> Z.land (u64 (i8 (u8 m))) 127 = m /\ u64 (i8 (u8 m)) < 128.
Proof.
  intros Hm. pose proof (uvarint_last_bytes m ltac:(unfold is_byte; lia)) as H.
  rewrite (proj2 (Z.leb_gt 128 m)) in H by lia. cbn [orb] in H. by bool_inv.
Qed.

(** The round that reads the last byte of a varint. *)
Lemma uvarint_read_last fr r v i val t :
  ReaderFacts.wf r -> Reader.Data r = [u8 val] ++ t -> 0 <= i ->
  0 <= v < 2 ^ i -> 0 <= val < 128 -> val * 2 ^ i < 18446744073709551616 ->
  exists r', Reader.uvarint_loop (S fr) r v i = (Some (v + val * 2 ^ i), r') /\
    ReaderFacts.wf r' /\ Reader.Data r' = t.
Proof.
  intros Hw Hd Hi Hv Hval Hmax. cbn [Reader.uvarint_loop].
  destruct (ReaderFacts.ReadBytes_app r _ t 1 Hw Hd eq_refl) as (r1 & -> & Hw1 & Hd1).
  cbn [le_load]. rewrite Z.mul_0_r, Z.add_0_r.
  destruct (uvarint_last val Hval) as [-> Hlt2].
  rewrite (proj2 (Z.ltb_lt _ 128)) by done. exists r1. split_and!; [|done..].
  rewrite u64_small.
  - by rewrite lor_shiftl_add.
  - rewrite Z.shiftl_mul_pow2 by lia. split; [|done].
    apply Z.mul_nonneg_nonneg; [lia|]. apply Z.pow_nonneg. lia.
Qed.

Lemma uvarint_read fw val e :
  uvarint_bytes fw val = Some e ->
  forall fr r v i t,
    ReaderFacts.wf r -> Reader.Data r = e ++ t ->
    i = 7 * (10 - Z.of_nat fr) -> 0 <= i < 64 -> 0 <= v < 2 ^ i ->
    0 <= val -> val * 2 ^ i < 18446744073709551616 ->
    exists r', Reader.uvarint_loop fr r v i = (Some (v + val * 2 ^ i), r') /\
      ReaderFacts.wf r' /\ Reader.Data r' = t.
Proof.
  revert val e. induction fw as [|fw IH]; intros val e He fr r v i t Hw Hd Hi Hi64 Hv Hval Hmax;
    (destruct fr as [|fr]; [lia|]); cbn [uvarint_bytes] in He;
    destruct (Z.leb_spec 128 val) as [Hge|Hlt];
    try (injection He as <-; apply uvarint_read_last; (done || lia)); [done|].
  apply fmap_Some in He as (e' & He & ->). cbn [app] in Hd. cbn [Reader.uvarint_loop].
  destruct (ReaderFacts.ReadBytes_app r [_] (e' ++ t) 1 Hw Hd eq_refl) as (r1 & -> & Hw1 & Hd1).
  cbn [le_load]. rewrite Z.mul_0_r, Z.add_0_r.
  destruct (uvarint_continuation (u8 val) ltac:(unfold is_byte; auto with word))
    as [-> Hge2].
  rewrite (proj2 (Z.ltb_ge _ 128)) by done.
  assert (Hm : u8 val mod 128 = val mod 128).
  { unfold u8. change 256 with (128 * 2). rewrite Z.rem_mul_r by lia.
    rewrite Z.mul_comm, Z_mod_plus_full. apply Z.mod_mod. lia. }
  rewrite Hm. pose proof (Z.mod_pos_bound val 128).
  assert (Hsh : Z.shiftr val 7 = val / 128) by (by rewrite Z.shiftr_div_pow2).
  assert (Hp : 2 ^ (i + 7) = 2 ^ i * 128) by (rewrite Z.pow_add_r by lia; done).
  assert (0 < 2 ^ i) by (apply Z.pow_pos_nonneg; lia).
  pose proof (Z.div_mod val 128).
  assert (val / 128 * 2 ^ (i + 7) + val mod 128 * 2 ^ i = val * 2 ^ i) as Hsum by nia.
  assert (1 <= val / 128) by (apply Z.div_le_lower_bound; lia).
  assert (i + 7 < 64).
  { apply (Z.pow_lt_mono_r_iff 2); [lia..|]. change (2 ^ 64) with 18446744073709551616. nia. }
  rewrite u64_small by (rewrite Z.shiftl_mul_pow2 by lia; nia).
  rewrite lor_shiftl_add by lia. rewrite Hsh in He.
  destruct (IH _ _ He fr r1 (v + val mod 128 * 2 ^ i) (i + 7) t) as (r' & Hr' & ?);
    [done..|lia|lia|nia|lia|nia|].
  exists r'. split; [|done]. rewrite Hr'. do 2 f_equal. lia.
Qed.

(** ** The round trip of a sequence of writes and reads *)
Module Fields.
Inductive field :=
  | F8 (v : Z) | F16 (v : Z) | F24 (v : Z) | F32 (v : Z) | F64 (v : Z)
  | FVarint (v : Z) | FString (s : bytes).

(** What the reader has to know to call the right method. *)
Inductive kind := K8 | K16 | K24 | K32 | K64 | KVarint | KString (len : Z).

Definition kind_of (f : field) : kind :=
  match f with
  | F8 _ => K8 | F16 _ => K16 | F24 _ => K24 | F32 _ => K32 | F64 _ => K64
  | FVarint _ => KVarint | FString s => KString (zlen s)
  end.

(** The values the parameter types of the methods can hold. *)
Definition in_range (f : field) : Prop :=
  match f with
  | F8 v => 0 <= v < 2 ^ 8 | F16 v => 0 <= v < 2 ^ 16 | F24 v => 0 <= v < 2 ^ 24
  | F32 v => 0 <= v < 2 ^ 32 | F64 v | FVarint v => 0 <= v < 2 ^ 64
  | FString _ => True
  end.

Definition write_field (w : Buffer) (f : field) : option Buffer :=
  match f with
  | F8 v => Some (Writer.WriteUInt8 w v)
  | F16 v => Some (Writer.WriteUInt16 w v)
  | F24 v => Some (Writer.WriteUInt24 w v)
  | F32 v => Some (Writer.WriteUInt32 w v)
  | F64 v => Some (Writer.WriteUInt64 w v)
  | FVarint v => Writer.WriteUVarint w v
  | FString s => Some (Writer.WriteString w s)
  end.

Definition read_field (r : Reader.Reader) (k : kind) : option field * Reader.Reader :=
  match k with
  | K8 => let '(o, r) := Reader.ReadUInt8 r in (F8 <$> o, r)
  | K16 => let '(o, r) := Reader.ReadUInt16 r in (F16 <$> o, r)
  | K24 => let '(o, r) := Reader.ReadUInt24 r in (F24 <$> o, r)
  | K32 => let '(o, r) := Reader.ReadUInt32 r in (F32 <$> o, r)
  | K64 => let '(o, r) := Reader.ReadUInt64 r in (F64 <$> o, r)
  | KVarint => let '(o, r) := Reader.ReadUVarint r in (FVarint <$> o, r)
  | KString n => let '(o, r) := Reader.ReadString r [] n in (FString <$> o, r)
  end.

Fixpoint write_all (w : Buffer) (fs : list field) : option Buffer :=
  match fs with
  | [] => Some w
  | f :: fs' => w' ← write_field w f; write_all w' fs'
  end.

Fixpoint read_all (r : Reader.Reader) (ks : list kind) : option (list field) * Reader.Reader :=
  match ks with
  | [] => (Some [], r)
  | k :: ks' =>
      match read_field r k with
      | (None, r1) => (None, r1)
      | (Some f, r1) => let '(o, r2) := read_all r1 ks' in (cons f <$> o, r2)
      end
  end.

(** [e] is what writing [f] appends, and reading it back gives [f]. *)
Definition encodes (f : field) (e : bytes) : Prop :=
  (forall w v, holds w v -> exists w', write_field w f = Some w' /\ holds w' (v ++ e)) /\
  (forall r t, ReaderFacts.wf r -> Reader.Data r = e ++ t ->
     exists r', read_field r (kind_of f) = (Some f, r') /\
       ReaderFacts.wf r' /\ Reader.Data r' = t).

Lemma be_value n v :
  0 <= v < 256 ^ Z.of_nat n -> bswap n (le_load (be_store n v)) = v.
Proof.
  intros. rewrite <- (length_be_store n v) at 1.
  rewrite bswap_le_load by apply be_store_wf.
  rewrite be_load_store. by apply Z.mod_small.
Qed.

Ltac read_be n k v :=
  intros r t Hw Hd;
  destruct (ReaderFacts.ReadBytes_app r (be_store n v) t k Hw Hd)
    as (r' & Hr & ? & ?); [by rewrite zlen_be_store|];
  exists r'; split; [|done]; cbn [kind_of read_field].

Lemma encodes_be16 v : 0 <= v < 2 ^ 16 -> encodes (F16 v) (be_store 2 v).
Proof.
  intros Hv. split; [cbn; eauto with writer|]. read_be 2%nat 2 v.
  unfold Reader.ReadUInt16. rewrite Hr. cbn [fmap option_fmap option_map].
  unfold NetworkToHost16. by rewrite be_value.
Qed.

Lemma encodes_be32 v : 0 <= v < 2 ^ 32 -> encodes (F32 v) (be_store 4 v).
Proof.
  intros Hv. split; [cbn; eauto with writer|]. read_be 4%nat 4 v.
  unfold Reader.ReadUInt32. rewrite Hr. cbn [fmap option_fmap option_map].
  unfold NetworkToHost32. by rewrite be_value.
Qed.

Lemma encodes_be64 v : 0 <= v < 2 ^ 64 -> encodes (F64 v) (be_store 8 v).
Proof.
  intros Hv. split; [cbn; eauto with writer|]. read_be 8%nat 8 v.
  unfold Reader.ReadUInt64. rewrite Hr. cbn [fmap option_fmap option_map].
  unfold NetworkToHost64. by rewrite be_value.
Qed.

Lemma encodes_be24 v : 0 <= v < 2 ^ 24 -> encodes (F24 v) (be_store 3 v).
Proof.
  intros Hv. split; [cbn; eauto with writer|]. read_be 3%nat 3 v.
  unfold Reader.ReadUInt24. rewrite Hr.
  assert (be_store 4 v = 0 :: be_store 3 v) as He.
  { unfold be_store. cbn [le_store rev app]. do 2 f_equal.
    rewrite !Z.div_div, Z.div_small by lia. done. }
  cbn [fmap option_fmap option_map]. rewrite <- He.
  unfold NetworkToHost32. rewrite be_value; [done|]. lia.
Qed.

Lemma encodes_u8 v : 0 <= v < 2 ^ 8 -> encodes (F8 v) [u8 v].
Proof.
  intros Hv. split; [cbn; eauto with writer|].
  intros r t Hw Hd. destruct (ReaderFacts.ReadBytes_app r [u8 v] t 1 Hw Hd eq_refl)
    as (r' & Hr & ? & ?).
  exists r'. split; [|done]. cbn. unfold Reader.ReadUInt8. rewrite Hr. cbn.
  rewrite u8_small by done. by rewrite Z.add_0_r.
Qed.

Lemma encodes_string s : encodes (FString s) s.
Proof.
  split; [cbn; eauto with writer|].
  intros r t Hw Hd. destruct (ReaderFacts.ReadBytes_app r s t _ Hw Hd eq_refl)
    as (r' & Hr & ? & ?).
  exists r'. split; [|done]. cbn. unfold Reader.ReadString.
  unfold Reader.ReadBytes in Hr. case_match; [done|]. injection Hr as -> ->. done.
Qed.

Lemma encodes_varint v : 0 <= v < 2 ^ 64 -> exists e, encodes (FVarint v) e.
Proof.
  intros Hv. destruct (uvarint_bytes_total 10 v) as [e He]; [cbn; lia|].
  exists e. split.
  - intros w d Hw. pose proof (uvarint_loop_holds 10 w d v Hw) as H. rewrite He in H.
    cbn [write_field]. unfold Writer.WriteUVarint.
    destruct (Writer.uvarint_loop 10 w v); [eauto | done].
  - intros r t Hw Hd. destruct (uvarint_read _ _ _ He 10 r 0 0 t) as (r' & Hr & ?);
      [done|done|done|lia|cbn; lia|lia|cbn; lia|].
    exists r'. split; [|done]. cbn [kind_of read_field]. unfold Reader.ReadUVarint.
    rewrite Hr. cbn [fmap option_fmap option_map]. do 3 f_equal. lia.
Qed.

Lemma encodes_total f : in_range f -> exists e, encodes f e.
Proof.
  destruct f; cbn [in_range]; intros H;
    eauto using encodes_u8, encodes_be16, encodes_be24, encodes_be32, encodes_be64,
      encodes_varint, encodes_string.
Qed.

Lemma all_roundtrip fs :
  Forall in_range fs ->
  exists e,
    (forall w v, holds w v -> exists w', write_all w fs = Some w' /\ holds w' (v ++ e)) /\
    (forall r t, ReaderFacts.wf r -> Reader.Data r = e ++ t ->
       exists r', read_all r (kind_of <$> fs) = (Some fs, r') /\
         ReaderFacts.wf r' /\ Reader.Data r' = t).
Proof.
  induction 1 as [|f fs Hf _ (e & Hw & Hr)].
  - exists []. split; [|eauto].
    intros w v Hw. exists w. by rewrite app_nil_r.
  - destruct (encodes_total f Hf) as (e1 & Hw1 & Hr1). exists (e1 ++ e). split.
    + intros w v H. destruct (Hw1 w v H) as (w1 & E1 & H1).
      destruct (Hw w1 _ H1) as (w2 & E2 & H2). exists w2. cbn. rewrite E1. cbn.
      by rewrite app_assoc.
    + intros r t H Hd. rewrite <- app_assoc in Hd.
      destruct (Hr1 r _ H Hd) as (r1 & E1 & H1 & Hd1).
      destruct (Hr r1 t H1 Hd1) as (r2 & E2 & H2). exists r2.
      cbn [fmap list_fmap read_all]. rewrite E1. cbn in E2. by rewrite E2.
Qed.
End Fields.

(** C37.  Whatever sequence of values is written with a fresh
    [ByteBufferWriter] (8, 16, 24, 32 and 64 bit numbers, varints, strings),
    the writer produces bytes, and a [ByteBufferReader] over them reads the
    same sequence back with the matching calls and is left empty. *)
Theorem writer_reader_roundtrip (fs : list Fields.field) :
  Forall Fields.in_range fs ->
  exists w d r, Fields.write_all Writer.create_default fs = Some w /\
    Writer.Data w = Ok d /\
    Fields.read_all (Reader.Construct d) (Fields.kind_of <$> fs) = (Some fs, r) /\
    Reader.Length r = 0.
Proof.
  intros Hfs. destruct (Fields.all_roundtrip fs Hfs) as (e & Hw & Hr).
  destruct (Hw _ _ create_default_holds) as (w & Ew & [_ Hd]). cbn in Hd.
  destruct (Hr (Reader.Construct e) []) as (r & Er & Hwf & HD).
  - apply ReaderFacts.Construct_wf.
  - by rewrite ReaderFacts.Construct_Data, app_nil_r.
  - exists w, e, r. split_and!; try done.
    rewrite <- ReaderFacts.zlen_Data by done. by rewrite HD.
Qed.

Lemma writer_reader_roundtrip_witness :
  exists w d r,
    Fields.write_all Writer.create_default
      [Fields.F16 257; Fields.FVarint (2 ^ 64 - 1); Fields.FString (lit "stun"); Fields.F24 7]
      = Some w /\ Writer.Data w = Ok d /\
    Fields.read_all (Reader.Construct d)
      [Fields.K16; Fields.KVarint; Fields.KString 4; Fields.K24]
      = (Some [Fields.F16 257; Fields.FVarint (2 ^ 64 - 1);
               Fields.FString (lit "stun"); Fields.F24 7], r) /\
    Reader.Length r = 0.
Proof.
  apply (writer_reader_roundtrip
    [Fields.F16 257; Fields.FVarint (2 ^ 64 - 1); Fields.FString (lit "stun"); Fields.F24 7]).
  repeat constructor; cbn; lia.
Defined.
