(* ===== verification/Crc.v ===== *)
(** * rtc_base/crc32.cc and [SUtil::crc16]

    Both table-driven checksums, with the bit-by-bit reference definitions
    they are shown to compute. *)
From S2P Require Import Prelude.
Local Open Scope Z_scope.

(** ** CRC-32 *)

Definition kCrc32Polynomial : Z := 3988292384. (* 0xEDB88320 *)

(** One round of the inner loop of [LoadCrc32Table]. *)
Definition crc32_bit (c : Z) : Z :=
  if negb (Z.land c 1 =? 0) then Z.lxor kCrc32Polynomial (Z.shiftr c 1) else Z.shiftr c 1.

Definition crc32_entry (i : Z) : Z := Nat.iter 8 crc32_bit i.

Definition LoadCrc32Table : list Z := crc32_entry <$> seqZ 0 256.

(** [kCrc32Table[i]]; the index is masked to a byte, so it is in range. *)
Definition kCrc32Table (i : Z) : Z := default 0 (LoadCrc32Table !! Z.to_nat i).

Fixpoint crc32_loop (c : Z) (u : bytes) : Z :=
  match u with
  | [] => c
  | b :: u' =>
      crc32_loop (Z.lxor (kCrc32Table (Z.land (Z.lxor c b) 255)) (Z.shiftr c 8)) u'
  end.

Definition UpdateCrc32 (start : Z) (buf : bytes) : Z :=
  Z.lxor (crc32_loop (Z.lxor start 4294967295) buf) 4294967295.

Definition ComputeCrc32 (buf : bytes) : Z := UpdateCrc32 0 buf.

(** Reference: shift the message through the register bit by bit. *)
Definition crc32_ref_byte (c b : Z) : Z := Nat.iter 8 crc32_bit (Z.lxor c b).
Definition crc32_ref (buf : bytes) : Z :=
  Z.lxor (foldl crc32_ref_byte 4294967295 buf) 4294967295.

(** ** CRC-16 *)

Definition crc16tab : list Z :=
  [0x0000;0x1021;0x2042;0x3063;0x4084;0x50a5;0x60c6;0x70e7;
   0x8108;0x9129;0xa14a;0xb16b;0xc18c;0xd1ad;0xe1ce;0xf1ef;
   0x1231;0x0210;0x3273;0x2252;0x52b5;0x4294;0x72f7;0x62d6;
   0x9339;0x8318;0xb37b;0xa35a;0xd3bd;0xc39c;0xf3ff;0xe3de;
   0x2462;0x3443;0x0420;0x1401;0x64e6;0x74c7;0x44a4;0x5485;
   0xa56a;0xb54b;0x8528;0x9509;0xe5ee;0xf5cf;0xc5ac;0xd58d;
   0x3653;0x2672;0x1611;0x0630;0x76d7;0x66f6;0x5695;0x46b4;
   0xb75b;0xa77a;0x9719;0x8738;0xf7df;0xe7fe;0xd79d;0xc7bc;
   0x48c4;0x58e5;0x6886;0x78a7;0x0840;0x1861;0x2802;0x3823;
   0xc9cc;0xd9ed;0xe98e;0xf9af;0x8948;0x9969;0xa90a;0xb92b;
   0x5af5;0x4ad4;0x7ab7;0x6a96;0x1a71;0x0a50;0x3a33;0x2a12;
   0xdbfd;0xcbdc;0xfbbf;0xeb9e;0x9b79;0x8b58;0xbb3b;0xab1a;
   0x6ca6;0x7c87;0x4ce4;0x5cc5;0x2c22;0x3c03;0x0c60;0x1c41;
   0xedae;0xfd8f;0xcdec;0xddcd;0xad2a;0xbd0b;0x8d68;0x9d49;
   0x7e97;0x6eb6;0x5ed5;0x4ef4;0x3e13;0x2e32;0x1e51;0x0e70;
   0xff9f;0xefbe;0xdfdd;0xcffc;0xbf1b;0xaf3a;0x9f59;0x8f78;
   0x9188;0x81a9;0xb1ca;0xa1eb;0xd10c;0xc12d;0xf14e;0xe16f;
   0x1080;0x00a1;0x30c2;0x20e3;0x5004;0x4025;0x7046;0x6067;
   0x83b9;0x9398;0xa3fb;0xb3da;0xc33d;0xd31c;0xe37f;0xf35e;
   0x02b1;0x1290;0x22f3;0x32d2;0x4235;0x5214;0x6277;0x7256;
   0xb5ea;0xa5cb;0x95a8;0x8589;0xf56e;0xe54f;0xd52c;0xc50d;
   0x34e2;0x24c3;0x14a0;0x0481;0x7466;0x6447;0x5424;0x4405;
   0xa7db;0xb7fa;0x8799;0x97b8;0xe75f;0xf77e;0xc71d;0xd73c;
   0x26d3;0x36f2;0x0691;0x16b0;0x6657;0x7676;0x4615;0x5634;
   0xd94c;0xc96d;0xf90e;0xe92f;0x99c8;0x89e9;0xb98a;0xa9ab;
   0x5844;0x4865;0x7806;0x6827;0x18c0;0x08e1;0x3882;0x28a3;
   0xcb7d;0xdb5c;0xeb3f;0xfb1e;0x8bf9;0x9bd8;0xabbb;0xbb9a;
   0x4a75;0x5a54;0x6a37;0x7a16;0x0af1;0x1ad0;0x2ab3;0x3a92;
   0xfd2e;0xed0f;0xdd6c;0xcd4d;0xbdaa;0xad8b;0x9de8;0x8dc9;
   0x7c26;0x6c07;0x5c64;0x4c45;0x3ca2;0x2c83;0x1ce0;0x0cc1;
   0xef1f;0xff3e;0xcf5d;0xdf7c;0xaf9b;0xbfba;0x8fd9;0x9ff8;
   0x6e17;0x7e36;0x4e55;0x5e74;0x2e93;0x3eb2;0x0ed1;0x1ef0].

(** [(crc << 8) ^ crc16tab[((crc >> 8) ^ *buf++) & 0x00FF]], assigned to a
    [uint16_t]. *)
Definition crc16_step (crc b : Z) : Z :=
  u16 (Z.lxor (Z.shiftl crc 8)
         (default 0 (crc16tab !! Z.to_nat (Z.land (Z.lxor (Z.shiftr crc 8) b) 255)))).

Definition crc16 (buf : bytes) : Z := foldl crc16_step 0 buf.

(** Reference: the register of the CCITT polynomial 0x1021, most significant
    bit first, zero start value. *)
Definition crc16_bit (c : Z) : Z :=
  if Z.testbit c 15 then Z.lxor (u16 (Z.shiftl c 1)) 4129 else u16 (Z.shiftl c 1).
Definition crc16_ref_byte (c b : Z) : Z := Nat.iter 8 crc16_bit (Z.lxor c (Z.shiftl b 8)).
Definition crc16_ref (buf : bytes) : Z := foldl crc16_ref_byte 0 buf.

(** ** Lemmas *)

Lemma land_1_testbit c : negb (Z.land c 1 =? 0) = Z.testbit c 0.
Proof.
  rewrite Z.bit0_odd. change 1 with (Z.ones 1). rewrite Z.land_ones by lia.
  rewrite Zmod_odd. by destruct (Z.odd c).
Qed.

(** A register step is linear over exclusive or. *)
Lemma crc32_bit_lxor a b : crc32_bit (Z.lxor a b) = Z.lxor (crc32_bit a) (crc32_bit b).
Proof.
  unfold crc32_bit. rewrite !land_1_testbit, Z.lxor_spec, Z.shiftr_lxor.
  destruct (Z.testbit a 0), (Z.testbit b 0); cbn [xorb];
    apply Z.bits_inj'; intros; rewrite !Z.lxor_spec; by destruct (Z.testbit kCrc32Polynomial n),
      (Z.testbit (Z.shiftr a 1) n), (Z.testbit (Z.shiftr b 1) n).
Qed.

Lemma iter_crc32_lxor n a b :
  Nat.iter n crc32_bit (Z.lxor a b) = Z.lxor (Nat.iter n crc32_bit a) (Nat.iter n crc32_bit b).
Proof.
  induction n as [|n IH]; [done|]. by rewrite !Nat.iter_succ, IH, crc32_bit_lxor.
Qed.

Lemma crc32_bit_even x : crc32_bit (2 * x) = x.
Proof.
  unfold crc32_bit. rewrite land_1_testbit, Z.testbit_even_0. cbn [negb].
  rewrite Z.shiftr_div_pow2 by lia. rewrite Z.mul_comm. by apply Z.div_mul.
Qed.

Lemma iter_crc32_shiftl n x : Nat.iter n crc32_bit (Z.shiftl x (Z.of_nat n)) = x.
Proof.
  revert x. induction n as [|n IH]; intros x; [apply Z.shiftl_0_r|].
  rewrite Nat.iter_succ_r, Z.shiftl_mul_pow2, Nat2Z.inj_succ, Z.pow_succ_r by lia.
  replace (x * (2 * 2 ^ Z.of_nat n)) with (2 * (x * 2 ^ Z.of_nat n)) by lia.
  rewrite crc32_bit_even, <- Z.shiftl_mul_pow2 by lia. apply IH.
Qed.

Lemma split_low8 c : c = Z.lxor (Z.land c 255) (Z.shiftl (Z.shiftr c 8) 8).
Proof.
  change 255 with (Z.ones 8). apply Z.bits_inj'. intros i Hi.
  rewrite Z.lxor_spec, Z.land_spec, Z.testbit_ones_nonneg, Z.shiftl_spec by lia.
  destruct (Z.ltb_spec i 8).
  - rewrite (Z.testbit_neg_r (Z.shiftr c 8)) by lia. by rewrite andb_true_r, xorb_false_r.
  - rewrite Z.shiftr_spec by lia. rewrite andb_false_r. cbn [xorb]. f_equal. lia.
Qed.

Lemma land_255_byte c : is_byte (Z.land c 255).
Proof. change 255 with (Z.ones 8). rewrite Z.land_ones by lia. apply Z.mod_pos_bound. lia. Qed.

Lemma kCrc32Table_spec i : is_byte i -> kCrc32Table i = crc32_entry i.
Proof.
  intros Hi. unfold kCrc32Table, LoadCrc32Table. rewrite list_lookup_fmap.
  rewrite (proj2 (lookup_seqZ 0 256 (Z.to_nat i) i)); [done|]. unfold is_byte in Hi. lia.
Qed.

Lemma shiftr_byte b : is_byte b -> Z.shiftr b 8 = 0.
Proof. intros. rewrite Z.shiftr_div_pow2 by lia. by apply Z.div_small. Qed.

(** One table step is eight register steps. *)
Lemma crc32_table_step c b :
  is_byte b ->
  Z.lxor (kCrc32Table (Z.land (Z.lxor c b) 255)) (Z.shiftr c 8) = crc32_ref_byte c b.
Proof.
  intros Hb. rewrite kCrc32Table_spec by apply land_255_byte.
  unfold crc32_ref_byte, crc32_entry. rewrite (split_low8 (Z.lxor c b)) at 2.
  rewrite iter_crc32_lxor. f_equal. rewrite (iter_crc32_shiftl 8).
  by rewrite Z.shiftr_lxor, (shiftr_byte b), Z.lxor_0_r.
Qed.

Lemma crc32_loop_ref c u : wf_bytes u -> crc32_loop c u = foldl crc32_ref_byte c u.
Proof.
  intros Hu. revert c. induction Hu as [|b u Hb _ IH]; intros c; [done|].
  cbn [crc32_loop foldl]. by rewrite crc32_table_step, IH.
Qed.

Lemma crc32_loop_app c u v : crc32_loop c (u ++ v) = crc32_loop (crc32_loop c u) v.
Proof. revert c. induction u as [|b u IH]; intros c; [done|]. cbn [app crc32_loop]. apply IH. Qed.

Lemma lxor_bound a b n :
  0 <= n -> 0 <= a < 2 ^ n -> 0 <= b < 2 ^ n -> 0 <= Z.lxor a b < 2 ^ n.
Proof.
  intros Hn Ha Hb. assert (0 <= Z.lxor a b) by (apply Z.lxor_nonneg; lia).
  split; [done|]. destruct (Z.eq_dec (Z.lxor a b) 0) as [->|]; [lia|].
  destruct (Z.eq_dec n 0) as [->|].
  { replace a with 0 in * by lia. replace b with 0 in * by lia. done. }
  assert (forall x, 0 <= x < 2 ^ n -> Z.log2 x < n) as Hlog.
  { intros x Hx. destruct (Z.eq_dec x 0) as [->|]; [cbn; lia|]. apply Z.log2_lt_pow2; lia. }
  apply Z.log2_lt_pow2; [lia|]. pose proof (Z.log2_lxor a b ltac:(lia) ltac:(lia)).
  pose proof (Hlog a Ha). pose proof (Hlog b Hb). lia.
Qed.

Lemma crc32_bit_bound c : 0 <= c < 2 ^ 32 -> 0 <= crc32_bit c < 2 ^ 32.
Proof.
  intros Hc. unfold crc32_bit.
  assert (0 <= Z.shiftr c 1 < 2 ^ 32).
  { rewrite Z.shiftr_div_pow2 by lia. change (2 ^ 1) with 2. split.
    - apply Z.div_pos; lia.
    - apply Z.div_lt_upper_bound; lia. }
  case_match; [|done]. apply lxor_bound; [lia | unfold kCrc32Polynomial; lia | done].
Qed.

Lemma crc32_ref_byte_bound c b : 0 <= c < 2 ^ 32 -> is_byte b -> 0 <= crc32_ref_byte c b < 2 ^ 32.
Proof.
  intros Hc Hb. unfold crc32_ref_byte. apply Nat.iter_invariant.
  - apply crc32_bit_bound.
  - apply lxor_bound; [lia | done | unfold is_byte in Hb; lia].
Qed.

Lemma UpdateCrc32_bound start buf :
  0 <= start < 2 ^ 32 -> wf_bytes buf -> 0 <= UpdateCrc32 start buf < 2 ^ 32.
Proof.
  intros Hs Hb. unfold UpdateCrc32. rewrite crc32_loop_ref by done.
  apply lxor_bound; [lia | | lia].
  assert (H : 0 <= Z.lxor start 4294967295 < 2 ^ 32) by (apply lxor_bound; lia).
  revert H. generalize (Z.lxor start 4294967295).
  induction Hb as [|b u Hb _ IH]; intros c Hc; [done|]. cbn [foldl].
  by apply IH, crc32_ref_byte_bound.
Qed.

Lemma ComputeCrc32_bound buf : wf_bytes buf -> 0 <= ComputeCrc32 buf < 4294967296.
Proof. intros. by apply UpdateCrc32_bound. Qed.

Lemma u16_land z : u16 z = Z.land z 65535.
Proof. change 65535 with (Z.ones 16). by rewrite Z.land_ones. Qed.

Lemma land_lxor_distr a b c : Z.land (Z.lxor a b) c = Z.lxor (Z.land a c) (Z.land b c).
Proof.
  apply Z.bits_inj'. intros i Hi. rewrite !Z.land_spec, !Z.lxor_spec, !Z.land_spec.
  by destruct (Z.testbit a i), (Z.testbit b i), (Z.testbit c i).
Qed.

Lemma crc16_bit_lxor a b : crc16_bit (Z.lxor a b) = Z.lxor (crc16_bit a) (crc16_bit b).
Proof.
  unfold crc16_bit. rewrite Z.lxor_spec, Z.shiftl_lxor, !u16_land, land_lxor_distr.
  set (p := Z.land (Z.shiftl a 1) 65535). set (q := Z.land (Z.shiftl b 1) 65535).
  destruct (Z.testbit a 15), (Z.testbit b 15); cbn [xorb];
    apply Z.bits_inj'; intros; rewrite !Z.lxor_spec;
    by destruct (Z.testbit 4129 n), (Z.testbit p n), (Z.testbit q n).
Qed.

Lemma iter_crc16_lxor n a b :
  Nat.iter n crc16_bit (Z.lxor a b) = Z.lxor (Nat.iter n crc16_bit a) (Nat.iter n crc16_bit b).
Proof.
  induction n as [|n IH]; [done|]. by rewrite !Nat.iter_succ, IH, crc16_bit_lxor.
Qed.

(** The table holds the register after eight steps, for every index. *)
Lemma crc16tab_entries :
  forall x, is_byte x ->
    (default 0 (crc16tab !! Z.to_nat x) =? Nat.iter 8 crc16_bit (Z.shiftl x 8)) = true.
Proof. by_bytes. Qed.

Lemma crc16tab_range :
  forall x, is_byte x ->
    (0 <=? default 0 (crc16tab !! Z.to_nat x)) &&
    (default 0 (crc16tab !! Z.to_nat x) <? 65536) = true.
Proof. by_bytes. Qed.

Lemma crc16_low_byte :
  forall y, is_byte y -> (Nat.iter 8 crc16_bit y =? u16 (Z.shiftl y 8)) = true.
Proof. by_bytes. Qed.

Lemma lxor_byte a b : is_byte a -> is_byte b -> is_byte (Z.lxor a b).
Proof. unfold is_byte. change 256 with (2 ^ 8). intros. by apply lxor_bound. Qed.

Lemma land_255_small x : is_byte x -> Z.land x 255 = x.
Proof.
  intros. change 255 with (Z.ones 8). rewrite Z.land_ones by lia. by apply Z.mod_small.
Qed.

Lemma crc16_step_ref c b : 0 <= c < 65536 -> is_byte b -> crc16_step c b = crc16_ref_byte c b.
Proof.
  intros Hc Hb. unfold crc16_step, crc16_ref_byte.
  assert (Hh : is_byte (Z.shiftr c 8)).
  { unfold is_byte. rewrite Z.shiftr_div_pow2 by lia. change (2 ^ 8) with 256.
    split; [apply Z.div_pos; lia | apply Z.div_lt_upper_bound; lia]. }
  pose proof (lxor_byte _ _ Hh Hb) as Hx. rewrite land_255_small by done.
  pose proof (crc16tab_entries _ Hx) as Ht. apply Z.eqb_eq in Ht. rewrite Ht.
  pose proof (land_255_byte c) as Hy. pose proof (crc16_low_byte _ Hy) as Hl.
  apply Z.eqb_eq in Hl.
  rewrite (split_low8 c) at 3. rewrite Z.lxor_assoc, <- Z.shiftl_lxor, iter_crc16_lxor, Hl.
  rewrite !u16_land, land_lxor_distr. f_equal.
  - apply Z.bits_inj'. intros i Hi. change 65535 with (Z.ones 16). change 255 with (Z.ones 8).
    rewrite !Z.land_spec, !Z.testbit_ones_nonneg, !Z.shiftl_spec by lia.
    destruct (Z.ltb_spec i 16); [|by rewrite !andb_false_r]. rewrite !andb_true_r.
    destruct (Z.ltb_spec i 8); [by rewrite !Z.testbit_neg_r by lia|].
    rewrite Z.land_spec, Z.testbit_ones_nonneg by lia.
    by rewrite (proj2 (Z.ltb_lt (i - 8) 8)), andb_true_r by lia.
  - rewrite <- Ht, <- u16_land. apply u16_small.
    pose proof (crc16tab_range _ Hx) as Hr. by bool_inv.
Qed.

Lemma crc16_fold_ref buf c :
  wf_bytes buf -> 0 <= c < 65536 -> foldl crc16_step c buf = foldl crc16_ref_byte c buf.
Proof.
  intros Hb. revert c. induction Hb as [|b u Hb _ IH]; intros c Hc; [done|]. cbn [foldl].
  rewrite <- crc16_step_ref by done. apply IH. apply u16_range.
Qed.

(** C38.  [UpdateCrc32] computes the CRC-32 of RFC 1952: eight shift-register
    steps of the reversed polynomial per byte, with complemented start and
    result. *)
Theorem ComputeCrc32_reference (buf : bytes) :
  wf_bytes buf -> ComputeCrc32 buf = crc32_ref buf.
Proof.
  intros Hb. unfold ComputeCrc32, UpdateCrc32, crc32_ref.
  by rewrite Z.lxor_0_l, crc32_loop_ref.
Qed.

Lemma ComputeCrc32_reference_witness :
  ComputeCrc32 (lit "123456789") = crc32_ref (lit "123456789") /\
  crc32_ref (lit "123456789") = 3421780262.
Proof.
  split; [|vm_compute; reflexivity].
  apply (ComputeCrc32_reference (lit "123456789")). repeat constructor; cbn; lia.
Defined.

(**  The checksum of a message can be computed piece by piece: passing
    the result of one [UpdateCrc32] call as the start value of the next gives
    the checksum of the concatenation. *)
Theorem UpdateCrc32_incremental (a b : bytes) (start : Z) :
  UpdateCrc32 (UpdateCrc32 start a) b = UpdateCrc32 start (a ++ b).
Proof.
  unfold UpdateCrc32.
  by rewrite Z.lxor_assoc, Z.lxor_nilpotent, Z.lxor_0_r, crc32_loop_app.
Qed.

(**  [SUtil::crc16] is the CRC of the CCITT polynomial 0x1021, most
    significant bit first with start value zero: its table and its step agree
    with the bit-by-bit register on every input. *)
Theorem crc16_reference (buf : bytes) : wf_bytes buf -> crc16 buf = crc16_ref buf.
Proof.
  intros Hb. unfold crc16, crc16_ref. apply crc16_fold_ref; [done | lia].
Qed.

Lemma crc16_reference_witness :
  crc16 (lit "123456789") = crc16_ref (lit "123456789") /\ crc16_ref (lit "123456789") = 12739.
Proof.
  split; [|vm_compute; reflexivity].
  apply (crc16_reference (lit "123456789")). repeat constructor; cbn; lia.
Defined.
