(* ===== verification/SUtil.v ===== *)
(** * utils/sutil.cpp: the string helpers the servers use

    [split] is the tokenizer of the STUN and SDP parsers.  File access, the
    clock and jsoncpp are outside the model; the byte-order-mark rule of
    [parseJson] takes the JSON reader as an argument. *)
From S2P Require Import Prelude.
Local Open Scope Z_scope.

(** ** split *)

(** The [while (pos != npos)] loop; [fuel] bounds its rounds. *)
Fixpoint split_loop (fuel : nat) (text splitter : bytes) (offset : Z) (vecs : list bytes)
    : res (list bytes) :=
  match find_from splitter text offset with
  | Some pos =>
      match fuel with
      | O => Fail OutOfFuel
      | S f =>
          vecs ← (if 0 <? u64 (pos - offset)
                  then (fun t => vecs ++ [t]) <$> substr text offset (u64 (pos - offset))
                  else Ok vecs);
          split_loop f text splitter (pos + zlen splitter) vecs
      end
  | None =>
      if offset <? zlen text then (fun t => vecs ++ [t]) <$> substr_from text offset
      else Ok vecs
  end.

(** Each round of a non-empty splitter consumes a byte of [text]. *)
Definition split (text splitter : bytes) : res (list bytes) :=
  split_loop (length text) text splitter 0 [].

(** ** trim, toCompactString, toWinStylePath *)

(** First index from [i] that is not a space, or the size. *)
Fixpoint skip_spaces (s : bytes) : nat :=
  match s with
  | c :: s' => if c =? 32 then S (skip_spaces s') else O
  | [] => O
  end.

(** [for (i = 0; ...)] and [for (j = size - 1; j >= 0; --j)], then
    [str.substr(i, j + 1)]. *)
Definition trim (str : bytes) : res bytes :=
  let i := Z.of_nat (skip_spaces str) in
  let j := zlen str - 1 - Z.of_nat (skip_spaces (rev str)) in
  substr str i (j + 1).

Fixpoint compact_loop (s : bytes) (in_string : bool) : bytes :=
  match s with
  | [] => []
  | ch :: s' =>
      let a := i8 ch + 1 in
      if (0 <=? a) && (a <=? 256) && isspace ch && negb in_string
      then compact_loop s' in_string
      else ch :: compact_loop s' (if ch =? 34 then negb in_string else in_string)
  end.

Definition toCompactString (str : bytes) : bytes := compact_loop str false.

Fixpoint compact_with_loop (s : bytes) (in_string : bool) (out : bytes) : bytes :=
  match s with
  | [] => out
  | c :: s' =>
      if isspace c && negb in_string then compact_with_loop s' in_string out
      else if ((c =? 10) || (c =? 9)) && negb in_string
      then compact_with_loop s' in_string out
      else compact_with_loop s' (if c =? 34 then negb in_string else in_string) (out ++ [c])
  end.

Definition toCompactStringWith (in_str out_str : bytes) (header_len : nat) : bytes :=
  compact_with_loop in_str false (out_str ++ replicate header_len 0).

(** [while ((pos = temp.find('/', off)) != npos)], with [off = pos + 2]. *)
Fixpoint win_path_loop (fuel : nat) (temp : bytes) (off : Z) : res bytes :=
  match find_from [47] temp off with
  | None => Ok temp
  | Some pos =>
      match fuel with
      | O => Fail OutOfFuel
      | S f => temp ← mem_write temp pos [92]; win_path_loop f temp (pos + 2)
      end
  end.

Definition toWinStylePath (path : bytes) : res bytes := win_path_loop (length path) path 0.

(** ** Hexadecimal *)

Definition kHexStr : bytes := lit "0123456789abcdef".
Definition hex_char (n : Z) : Z := default 0 (kHexStr !! Z.to_nat n).

(** [snprintf("%02x")] of each byte. *)
Definition str2Hex (str : bytes) : bytes :=
  str ≫= fun b => [hex_char (b / 16); hex_char (b mod 16)].

(** [char c1 = _buffer[i]] is signed; [c1 & 0xf0] and [c1 & 0x0f] are not. *)
Definition buffer2Hex (buf : bytes) : bytes :=
  buf ≫= fun b =>
    let c1 := i8 b in
    [hex_char (Z.shiftr (Z.land c1 240) 4); hex_char (Z.land c1 15)].

Definition hex_value (c : Z) : option Z :=
  if is_digit c then Some (c - 48)
  else if (97 <=? c) && (c <=? 102) then Some (c - 87)
  else if (65 <=? c) && (c <=? 70) then Some (c - 55)
  else None.

Fixpoint scan_hex (s : bytes) (acc : Z) : Z :=
  match s with
  | c :: s' => match hex_value c with Some v => scan_hex s' (16 * acc + v) | None => acc end
  | [] => acc
  end.

(** [strtol(s, &p, 16)]: white space, a sign, an optional [0x], hex digits. *)
Definition strtol16 (s : bytes) : Z :=
  let s1 := skip_space s in
  let '(neg, s2) :=
    match s1 with
    | c :: r => if c =? 45 then (true, r) else if c =? 43 then (false, r) else (false, s1)
    | [] => (false, [])
    end in
  let s3 :=
    match s2 with
    | z :: x :: d :: _ =>
        if (z =? 48) && ((x =? 120) || (x =? 88)) && bool_decide (is_Some (hex_value d))
        then drop 2 s2 else s2
    | _ => s2
    end in
  let v := scan_hex s3 0 in if neg then - v else v.

(** [for (i = 0; i < len / 2; i++)] over the pairs of characters. *)
Fixpoint hex2Str (str : bytes) : bytes :=
  match str with
  | a :: b :: t => u8 (strtol16 [a; b]) :: hex2Str t
  | _ => []
  end.

(** ** parseJson *)

(** [(temp, strlen(temp) > 0)] of the text after a UTF-8 byte order mark. *)
Definition skip_bom (text : bytes) : bytes :=
  match text with
  | 239 :: 187 :: 191 :: t => t
  | _ => text
  end.

Section ParseJson.
Context {Json : Type} (reader_parse : bytes -> option Json).

(** [text] is the C string, without its NUL.  The out-parameter [json] is only written by a successful parse here. *)
Definition parseJson (text : bytes) : option Json :=
  let temp := skip_bom text in
  if zlen temp <=? 0 then None else reader_parse temp.

(** [readJson] on the contents [readBinaryFile] returned. *)
Definition readJson (buf : bytes) : option Json :=
  if zlen buf <=? 0 then None else parseJson (c_str buf).
End ParseJson.

(** ** Specification of split *)

(** The text whose pieces are [ps], separated by [sep]. *)
Fixpoint join (sep : bytes) (ps : list bytes) : bytes :=
  match ps with
  | [] => []
  | [p] => p
  | p :: ps' => p ++ sep ++ join sep ps'
  end.

(** [sep] does not occur in [p]. *)
Definition free (sep p : bytes) : Prop := find_at sep p = None.

Definition nonempty (ps : list bytes) : list bytes := filter (fun p => p <> []) ps.

(** A text that fits the address space. *)
Definition addressable (s : bytes) : Prop := zlen s < 18446744073709551616.

Lemma is_prefix_take p s i : is_prefix p (take i s) = true -> is_prefix p s = true.
Proof.
  intros [t Ht]%is_prefix_spec. apply is_prefix_spec. exists (t ++ drop i s).
  by rewrite app_assoc, <- Ht, take_drop.
Qed.

(** The piece before the first occurrence is free of the separator. *)
Lemma find_at_free sep s i : sep <> [] -> find_at sep s = Some i -> free sep (take i s).
Proof.
  intros Hne Hf. destruct (find_at_Some _ _ _ Hf) as (a & t & -> & <- & Hmin).
  rewrite take_app_length. unfold free. destruct (find_at sep a) as [j|] eqn:E; [|done].
  destruct (find_at_Some _ _ _ E) as (b & u & -> & <- & _).
  assert (Hlt : (length b < length (b ++ sep ++ u))%nat).
  { rewrite !length_app. destruct sep; [done|]. cbn. lia. }
  specialize (Hmin _ Hlt). rewrite <- !app_assoc, drop_app_length, is_prefix_app in Hmin. done.
Qed.

Lemma join_cons sep p ps : ps <> [] -> join sep (p :: ps) = p ++ sep ++ join sep ps.
Proof. by destruct ps. Qed.

Lemma find_from_drop sub s off :
  0 <= off <= zlen s -> find_from sub s off =
    (fun i : nat => off + Z.of_nat i) <$> find_at sub (drop (Z.to_nat off) s).
Proof. intros. unfold find_from. by rewrite (proj2 (Z.leb_le _ _)) by lia. Qed.

Lemma substr_from_drop s off :
  0 <= off <= zlen s -> substr_from s off = Ok (drop (Z.to_nat off) s).
Proof.
  intros. unfold substr_from. rewrite substr_ok by lia. f_equal. apply take_ge.
  rewrite length_drop. unfold zlen in *. lia.
Qed.

(** What the loop appends to [vecs]: the non-empty pieces of the rest. *)
Lemma split_loop_spec fuel text sep off vecs :
  sep <> [] -> addressable text -> 0 <= off <= zlen text ->
  zlen text - off <= Z.of_nat fuel ->
  exists ps, drop (Z.to_nat off) text = join sep ps /\ ps <> [] /\ Forall (free sep) ps /\
    split_loop fuel text sep off vecs = Ok (vecs ++ nonempty ps).
Proof.
  intros Hne Hadr. revert off vecs.
  induction fuel as [|f IH]; intros off vecs Hoff Hfuel; cbn [split_loop];
    rewrite find_from_drop by done; set (s := drop (Z.to_nat off) text);
    (destruct (find_at sep s) as [i|] eqn:E; cbn [fmap option_fmap option_map]).
  - exfalso. destruct (find_at_Some _ _ _ E) as (a & t & Hs & _ & _).
    assert (length s = 0%nat) by (unfold s; rewrite length_drop; unfold zlen in *; lia).
    rewrite Hs, !length_app in *. destruct sep; [done|]. cbn in *. lia.
  - assert (s = []) as Hs.
    { apply nil_length_inv. unfold s. rewrite length_drop. unfold zlen in *. lia. }
    exists [s]. split_and!; [done | done | by repeat constructor |].
    rewrite (proj2 (Z.ltb_ge _ _)) by lia. rewrite Hs. unfold nonempty. cbn.
    by rewrite app_nil_r.
  - pose proof (find_at_free _ _ _ Hne E) as Hfree.
    destruct (find_at_Some _ _ _ E) as (a & t & Hs & Hl & _).
    assert (Hlen : zlen s = zlen text - off) by (unfold s; by rewrite zlen_drop).
    rewrite Hs, !zlen_app in Hlen. pose proof (zlen_nonneg t).
    assert (1 <= zlen sep) by (destruct sep; [done|]; rewrite zlen_cons; pose proof (zlen_nonneg sep); lia).
    assert (Ha : zlen a = Z.of_nat i) by (unfold zlen; lia).
    replace (off + Z.of_nat i - off) with (Z.of_nat i) by lia.
    rewrite u64_small by (unfold addressable in Hadr; lia).
    assert (Hd : drop (Z.to_nat (off + Z.of_nat i + zlen sep)) text = t).
    { replace (Z.to_nat (off + Z.of_nat i + zlen sep))
        with (Z.to_nat off + (length a + length sep))%nat by (unfold zlen; lia).
      rewrite <- drop_drop. fold s. rewrite Hs, app_assoc, <- length_app.
      apply drop_app_length. }
    set (vecs' := if 0 <? Z.of_nat i then vecs ++ [a] else vecs).
    assert (Hv : (if 0 <? Z.of_nat i
        then (fun t => vecs ++ [t]) <$> substr text off (Z.of_nat i) else Ok vecs) = Ok vecs').
    { subst vecs'. case_match; [|done]. rewrite substr_ok by lia. fold s. cbn.
      rewrite Z.min_l, Hs, Nat2Z.id, <- Hl, take_app_length by lia. done. }
    rewrite Hv. cbn [mbind res_bind].
    destruct (IH (off + Z.of_nat i + zlen sep) vecs') as (ps & Hps & Hne' & Hfr & Hr); [lia..|].
    rewrite Hr. exists (a :: ps). split_and!.
    + rewrite Hs, join_cons by done. by rewrite <- Hps, Hd.
    + done.
    + constructor; [|done]. by rewrite Hs, <- Hl, take_app_length in Hfree.
    + f_equal. subst vecs'. unfold nonempty. destruct a as [|x a].
      * cbn in Hl. subst i. cbn. done.
      * cbn in Hl. rewrite (proj2 (Z.ltb_lt _ _)) by lia. cbn. by rewrite <- app_assoc.
  - exists [s]. split_and!; [done | done | by repeat constructor |].
    destruct (Z.ltb_spec off (zlen text)).
    + rewrite substr_from_drop by done. fold s. unfold nonempty.
      assert (s <> []).
      { intros Hs. assert (zlen s = 0) by by rewrite Hs. unfold s in *.
        rewrite zlen_drop in * by done. lia. }
      rewrite filter_cons_True by done. done.
    + assert (s = []) as ->.
      { apply nil_length_inv. unfold s. rewrite length_drop. unfold zlen in *. lia. }
      cbn. by rewrite app_nil_r.
Qed.

Lemma split_spec text sep :
  sep <> [] -> addressable text ->
  exists ps, text = join sep ps /\ ps <> [] /\ Forall (free sep) ps /\
    split text sep = Ok (nonempty ps).
Proof.
  intros Hne Hadr.
  destruct (split_loop_spec (length text) text sep 0 [] Hne Hadr) as (ps & Hps & ?).
  - pose proof (zlen_nonneg text). lia.
  - unfold zlen. lia.
  - exists ps. rewrite drop_0 in Hps. done.
Qed.

(** *** Separators that split a joined text back into its pieces *)

(** No occurrence of [sep] straddles the end of a free piece. *)
Definition clean (sep : bytes) : Prop :=
  sep <> [] /\ forall p t, free sep p -> find_at sep (p ++ sep ++ t) = Some (length p).

Lemma free_char c p : free [c] p <-> c ∉ p.
Proof.
  split; [|apply find_at_char_None]. intros Hf Hin.
  destruct (list_elem_of_split _ _ Hin) as (a & t & ->).
  pose proof (find_at_None _ _ Hf (length a) ltac:(rewrite length_app; lia)) as Hp.
  rewrite drop_app_length in Hp. change (c :: t) with ([c] ++ t) in Hp.
  by rewrite is_prefix_app in Hp.
Qed.

Lemma clean_char c : clean [c].
Proof. split; [done|]. intros p t Hp%free_char. by apply find_at_char_app. Qed.

Lemma clean_pair c d : c <> d -> clean [c; d].
Proof.
  intros Hcd. split; [done|]. intros p t Hp. apply find_at_app. intros j Hj.
  pose proof (find_at_None _ _ Hp j ltac:(lia)) as Hn.
  rewrite drop_app_le by lia. destruct (drop j p) as [|x [|y u]] eqn:E.
  - apply (f_equal length) in E. rewrite length_drop in E. cbn in E. lia.
  - cbn. apply andb_false_iff. right. rewrite andb_true_r. apply Z.eqb_neq. done.
  - cbn in Hn |- *. done.
Qed.

Lemma join_inj sep ps qs :
  clean sep -> ps <> [] -> qs <> [] -> Forall (free sep) ps -> Forall (free sep) qs ->
  join sep ps = join sep qs -> ps = qs.
Proof.
  intros [Hne Hc]. revert qs. induction ps as [|p ps IH]; [done|].
  intros [|q qs] _ Hqs Hfp Hfq Hj; [done|].
  apply Forall_cons_1 in Hfp as [Hp Hfp]. apply Forall_cons_1 in Hfq as [Hq Hfq].
  destruct ps as [|p' ps], qs as [|q' qs].
  - cbn in Hj. by subst.
  - exfalso. rewrite (join_cons _ q) in Hj by done. change (join sep [p]) with p in Hj.
    pose proof (Hc q (join sep (q' :: qs)) Hq) as Hs. rewrite <- Hj in Hs.
    unfold free in Hp. congruence.
  - exfalso. rewrite (join_cons _ p) in Hj by done. change (join sep [q]) with q in Hj.
    pose proof (Hc p (join sep (p' :: ps)) Hp) as Hs. rewrite Hj in Hs.
    unfold free in Hq. congruence.
  - rewrite !(join_cons sep _ (_ :: _)) in Hj by done.
    pose proof (Hc p (join sep (p' :: ps)) Hp) as H1. rewrite Hj, Hc in H1 by done.
    injection H1 as H1. apply app_inj_1 in Hj as [-> Hj]; [|done].
    apply app_inv_head in Hj. f_equal. by apply IH.
Qed.

(** Joined free pieces come back, the empty ones dropped. *)
Lemma split_join sep ps :
  clean sep -> ps <> [] -> Forall (free sep) ps -> addressable (join sep ps) ->
  split (join sep ps) sep = Ok (nonempty ps).
Proof.
  intros Hc Hne Hf Hadr. destruct (split_spec (join sep ps) sep (proj1 Hc) Hadr)
    as (qs & Hq & Hqne & Hqf & ->).
  by rewrite (join_inj sep ps qs Hc Hne Hqne Hf Hqf Hq).
Qed.

Lemma nonempty_all ps : Forall (fun p => p <> []) ps -> nonempty ps = ps.
Proof.
  intros H. induction H as [|p ps Hp H IH]; [done|].
  unfold nonempty in *. rewrite filter_cons_True by done. by rewrite IH.
Qed.

(** ** Properties of split *)

(** [split] cuts the text at the occurrences of the separator found from
    left to right: the pieces joined by the separator are the text, no piece
    contains the separator, and exactly the empty pieces are left out of the
    result.  It never throws on a text that fits the address space. *)
Theorem split_pieces text sep :
  sep <> [] -> addressable text ->
  exists ps, text = join sep ps /\ ps <> [] /\ Forall (free sep) ps /\
    split text sep = Ok (filter (fun p => p <> []) ps).
Proof. apply split_spec. Qed.

Lemma split_pieces_witness :
  split (lit "a:b") (lit "::") = Ok [lit "a:b"] /\
  exists ps, lit "UDP/TLS//SAVPF" = join (lit "/") ps /\ ps <> [] /\ Forall (free (lit "/")) ps /\
    split (lit "UDP/TLS//SAVPF") (lit "/") = Ok (filter (fun p => p <> []) ps).
Proof. split; [reflexivity|]. apply split_pieces; [discriminate | reflexivity]. Defined.

(** With an empty separator the loop of [split] never ends: whatever number
    of rounds is allowed, it has not returned. *)
Theorem split_empty_diverges fuel text vecs off :
  0 <= off <= zlen text ->
  split_loop fuel text [] off vecs = Fail OutOfFuel.
Proof.
  intros Hoff. revert vecs. induction fuel as [|f IH]; intros vecs; cbn [split_loop];
    rewrite find_from_drop by done;
    (assert (find_at [] (drop (Z.to_nat off) text) = Some 0%nat) as -> by (by destruct drop));
    cbn [fmap option_fmap option_map]; [done|].
  replace (off + Z.of_nat 0 - off) with 0 by lia.
  replace (off + Z.of_nat 0 + zlen []) with off by (unfold zlen; cbn; lia). apply IH.
Qed.

Lemma split_empty_diverges_witness :
  split_loop 1000 (lit "abc") [] 0 [] = Fail OutOfFuel.
Proof. apply split_empty_diverges. vm_compute. split; discriminate. Defined.

(** ** trim *)

Lemma skip_spaces_app n s :
  match s with c :: _ => c <> 32 | [] => True end ->
  skip_spaces (replicate n 32 ++ s) = n.
Proof.
  intros Hs. induction n as [|n IH]; cbn; [|by rewrite IH].
  destruct s as [|c s]; [done|]. cbn. by rewrite (proj2 (Z.eqb_neq c 32)).
Qed.

Lemma rev_replicate {A} n (x : A) : rev (replicate n x) = replicate n x.
Proof. rewrite rev_alt. apply reverse_replicate. Qed.

(** [trim] removes every leading space but keeps [min n m] of the [m]
    trailing ones when the text starts with [n]: the count it gives to
    [substr] is an end position. *)
Theorem trim_spaces n m body :
  match body with c :: _ => c <> 32 | [] => False end ->
  match rev body with c :: _ => c <> 32 | [] => False end ->
  trim (replicate n 32 ++ body ++ replicate m 32) = Ok (body ++ replicate (n `min` m) 32).
Proof.
  intros Hb Hr. unfold trim. rewrite !rev_app_distr, !rev_replicate, <- app_assoc.
  rewrite skip_spaces_app by (destruct body; [done | by cbn]).
  rewrite skip_spaces_app by (destruct (rev body); [done | by cbn]).
  rewrite !zlen_app. unfold zlen. rewrite !length_replicate.
  assert (Hl : zlen (replicate n 32 ++ body ++ replicate m 32)
               = Z.of_nat n + (Z.of_nat (length body) + Z.of_nat m)).
  { unfold zlen. rewrite !length_app, !length_replicate. lia. }
  rewrite substr_ok, Hl by lia. f_equal.
  rewrite Nat2Z.id, drop_app_length' by (by rewrite length_replicate).
  replace (Z.to_nat _) with (length body + (n `min` m))%nat by lia.
  rewrite take_app_add, take_replicate. do 2 f_equal. lia.
Qed.

Lemma trim_spaces_witness :
  trim (lit "  udp  ") = Ok (lit "udp  ") /\ trim (lit "udp  ") = Ok (lit "udp").
Proof.
  split; [apply (trim_spaces 2 2 (lit "udp")) | apply (trim_spaces 0 2 (lit "udp"))];
    cbn; lia.
Defined.

(** ** Hexadecimal *)

Lemma hex_pair_ok :
  forall b, is_byte b ->
    (u8 (strtol16 [hex_char (b / 16); hex_char (b mod 16)]) =? b) = true.
Proof. by_bytes. Qed.

Lemma buffer_hex_pair_ok :
  forall b, is_byte b ->
    bool_decide ([hex_char (Z.shiftr (Z.land (i8 b) 240) 4); hex_char (Z.land (i8 b) 15)]
                 = [hex_char (b / 16); hex_char (b mod 16)]) = true.
Proof. by_bytes. Qed.

(** [hex2Str] decodes what [str2Hex] encodes, and [buffer2Hex], which
    works on signed characters, encodes the same digits. *)
Theorem hex_roundtrip s :
  wf_bytes s -> hex2Str (str2Hex s) = s /\ buffer2Hex s = str2Hex s.
Proof.
  induction 1 as [|b s Hb Hs [IH1 IH2]]; [done|].
  unfold str2Hex, buffer2Hex in *. cbn [mbind list_bind app hex2Str]. split.
  - rewrite IH1. f_equal. apply Z.eqb_eq, hex_pair_ok, Hb.
  - change [?a; ?b] with (a :: [b]). pose proof (buffer_hex_pair_ok b Hb) as E.
    apply bool_decide_eq_true in E. injection E as -> ->. by rewrite IH2.
Qed.

Lemma hex_roundtrip_witness :
  hex2Str (str2Hex [0; 255; 16; 171]) = [0; 255; 16; 171] /\
  buffer2Hex [0; 255; 16; 171] = str2Hex [0; 255; 16; 171].
Proof. apply hex_roundtrip. repeat (constructor; [unfold is_byte; lia|]). constructor. Defined.
