(* ===== verification/BufferQueue.v ===== *)
(** * rtc_base/buffer_queue.{h,cc}: [rtc::BufferQueue]

    A bounded queue of packets.  [queue_] and [free_list_] own disjoint sets of
    heap buffers, so each buffer is a value of exactly one of the two lists; a
    packet that was read keeps its buffer for the next write.  The class
    [PacketFifo] states what the queue promises to its clients. *)
From S2P Require Import Prelude.
From S2P Require Buffer.
Local Open Scope Z_scope.

Record BufferQueue := mkBufferQueue {
  capacity_ : Z;
  default_size_ : Z;
  queue_ : list Buffer.Buffer;
  free_list_ : list Buffer.Buffer;
}.

Definition create (capacity default_size : Z) : BufferQueue :=
  mkBufferQueue capacity default_size [] [].

Definition size (q : BufferQueue) : Z := zlen (queue_ q).

(** The [while] loop moves the packets front to back. *)
Definition Clear (q : BufferQueue) : BufferQueue :=
  mkBufferQueue (capacity_ q) (default_size_ q) [] (free_list_ q ++ queue_ q).

(** [None] is [return false]; otherwise the bytes stored through [buffer],
    whose number is [*bytes_read]. *)
Definition ReadFront (q : BufferQueue) (n : Z) : res (option bytes * BufferQueue) :=
  match queue_ q with
  | [] => Ok (None, q)
  | packet :: rest =>
      d ← Buffer.data packet;
      out ← mem_read d 0 (Z.min n (Buffer.size_ packet));
      Ok (Some out, mkBufferQueue (capacity_ q) (default_size_ q) rest (free_list_ q ++ [packet]))
  end.

(** [None] is [return false]; otherwise [*bytes_written]. *)
Definition WriteBack (q : BufferQueue) (buffer : bytes) : option Z * BufferQueue :=
  if zlen (queue_ q) =? capacity_ q then (None, q)
  else
    let '(packet, free) :=
      match rev (free_list_ q) with
      | p :: r => (p, rev r)
      | [] => (Buffer.create (zlen buffer) (default_size_ q), [])
      end in
    (Some (zlen buffer),
     mkBufferQueue (capacity_ q) (default_size_ q)
       (queue_ q ++ [Buffer.SetData false packet buffer]) free).

Definition is_writable (q : BufferQueue) : bool := zlen (queue_ q) <? capacity_ q.
Definition is_readable (q : BufferQueue) : bool := negb (bool_decide (queue_ q = [])).

(** ** What the queue promises: a bounded FIFO of packets *)
Class PacketFifo (Q : Type) := {
  fifo_cap : Q -> Z;
  fifo_view : Q -> list bytes -> Prop;
  fifo_write : Q -> bytes -> option Z * Q;
  fifo_read : Q -> Z -> res (option bytes * Q);
  fifo_clear : Q -> Q;
  fifo_writable : Q -> bool;
  fifo_readable : Q -> bool;
  fifo_write_full : forall q l p,
    fifo_view q l -> zlen l = fifo_cap q -> fifo_write q p = (None, q);
  fifo_write_room : forall q l p, fifo_view q l -> zlen l < fifo_cap q ->
    exists q', fifo_write q p = (Some (zlen p), q') /\ fifo_view q' (l ++ [p]) /\
      fifo_cap q' = fifo_cap q;
  fifo_read_empty : forall q n, fifo_view q [] -> fifo_read q n = Ok (None, q);
  fifo_read_front : forall q p l n, fifo_view q (p :: l) -> 0 <= n ->
    exists q', fifo_read q n = Ok (Some (take (Z.to_nat n) p), q') /\ fifo_view q' l /\
      fifo_cap q' = fifo_cap q;
  fifo_clear_view : forall q l, fifo_view q l ->
    fifo_view (fifo_clear q) [] /\ fifo_cap (fifo_clear q) = fifo_cap q;
  fifo_writable_view : forall q l, fifo_view q l -> fifo_writable q = (zlen l <? fifo_cap q);
  fifo_readable_view : forall q l, fifo_view q l ->
    fifo_readable q = negb (bool_decide (l = []));
  fifo_bounded : forall q l, fifo_view q l -> zlen l <= fifo_cap q;
}.

(** ** The implementation keeps the promise *)

Definition holds_packet (b : Buffer.Buffer) (p : bytes) : Prop :=
  Buffer.consistent b /\ Buffer.data b = Ok p.

(** The packets of the queue, and at most [capacity_] buffers in all. *)
Definition view (q : BufferQueue) (l : list bytes) : Prop :=
  Forall2 holds_packet (queue_ q) l /\ Forall Buffer.consistent (free_list_ q) /\
  zlen (queue_ q) + zlen (free_list_ q) <= capacity_ q.

Lemma view_length q l : view q l -> zlen (queue_ q) = zlen l.
Proof. intros [H _]. unfold zlen. f_equal. by eapply Forall2_length. Qed.

Lemma view_create capacity default_size :
  0 <= capacity -> view (create capacity default_size) [].
Proof. intros. repeat split; cbn; [constructor.. | done]. Qed.

Lemma SetData_holds b p : Buffer.consistent b -> holds_packet (Buffer.SetData false b p) p.
Proof. split; [by apply Buffer.SetData_consistent | by apply Buffer.SetData_data]. Qed.

Lemma WriteBack_room q l p :
  view q l -> zlen l < capacity_ q ->
  exists q', WriteBack q p = (Some (zlen p), q') /\ view q' (l ++ [p]) /\
    capacity_ q' = capacity_ q.
Proof.
  intros Hv Hlt. pose proof (view_length _ _ Hv) as Hl. destruct Hv as (Hq & Hf & Hc).
  unfold WriteBack. rewrite (proj2 (Z.eqb_neq _ _)) by lia.
  destruct (rev (free_list_ q)) as [|b r] eqn:E.
  - apply (f_equal (@rev _)) in E. rewrite rev_involutive in E. cbn in E. rewrite E in *.
    eexists. split_and!; [done | | done]. repeat split; cbn [queue_ free_list_ capacity_]; autorewrite with zlen in *.
    + apply Forall2_app; [done|]. constructor; [|constructor].
      apply SetData_holds, Buffer.create_consistent, zlen_nonneg.
    + constructor.
    + lia.
  - apply (f_equal (@rev _)) in E. rewrite rev_involutive in E. cbn in E. rewrite E in *.
    apply Forall_app in Hf as [Hr Hb]. apply Forall_cons_1 in Hb as [Hb _].
    eexists. split_and!; [done | | done]. repeat split; cbn [queue_ free_list_ capacity_]; autorewrite with zlen in *.
    + apply Forall2_app; [done|]. constructor; [by apply SetData_holds | constructor].
    + done.
    + lia.
Qed.

Lemma ReadFront_front q p l n :
  view q (p :: l) -> 0 <= n ->
  exists q', ReadFront q n = Ok (Some (take (Z.to_nat n) p), q') /\ view q' l /\
    capacity_ q' = capacity_ q.
Proof.
  intros (Hq & Hf & Hc) Hn. unfold ReadFront.
  apply Forall2_cons_inv_r in Hq as (b & rest & [Hb Hd] & Hq' & E). rewrite E in *.
  cbn [mbind res_bind]. rewrite Hd. cbn.
  pose proof (Buffer.zlen_contents b Hb) as Hs. rewrite (Buffer.data_inv _ _ Hd) in Hs.
  rewrite Buffer.zlen_cells in Hs.
  assert (mem_read p 0 (n `min` Buffer.size_ b) = Ok (take (Z.to_nat n) p)) as ->.
  { rewrite mem_read_ok, drop_0, <- Hs by (pose proof (zlen_nonneg p); lia). f_equal.
    destruct (Z.le_gt_cases n (zlen p)).
    - by rewrite Z.min_l by lia.
    - rewrite Z.min_r by lia. rewrite !take_ge; [done | unfold zlen in *; lia..]. }
  eexists. split; [done|]. split; [|done].
  repeat split; cbn [queue_ free_list_ capacity_]; [done | | autorewrite with zlen in *; lia].
  apply Forall_app. split; [done | by constructor].
Qed.

#[export] Program Instance BufferQueue_fifo : PacketFifo BufferQueue := {
  fifo_cap := capacity_; fifo_view := view; fifo_write := WriteBack; fifo_read := ReadFront;
  fifo_clear := Clear; fifo_writable := is_writable; fifo_readable := is_readable;
}.
Next Obligation.
  intros q l p Hv Hl. unfold WriteBack. rewrite (view_length _ _ Hv).
  by rewrite (proj2 (Z.eqb_eq _ _)).
Qed.
Next Obligation. apply WriteBack_room. Qed.
Next Obligation.
  intros q n (Hq & _). unfold ReadFront. by rewrite (Forall2_nil_inv_r _ _ Hq).
Qed.
Next Obligation. apply ReadFront_front. Qed.
Next Obligation.
  intros q l (Hq & Hf & Hc). split; [|done]. repeat split; cbn.
  - constructor.
  - apply Forall_app. split; [done|]. eapply Forall2_Forall_l in Hq; [exact Hq|].
    apply Forall_true. by intros ? ? [? _].
  - autorewrite with zlen in *. lia.
Qed.
Next Obligation. intros q l Hv. unfold is_writable. by rewrite (view_length _ _ Hv). Qed.
Next Obligation.
  intros q l (Hq & _). unfold is_readable. f_equal. apply bool_decide_ext.
  destruct Hq; done.
Qed.
Next Obligation.
  intros q l Hv. pose proof (view_length _ _ Hv). destruct Hv as (_ & _ & Hc).
  pose proof (zlen_nonneg (free_list_ q)). lia.
Qed.

(** ** Runs of the queue against the list of packets *)

Inductive op := Write (p : bytes) | Read (n : Z) | Clr.
Inductive out := Wrote (n : option Z) | Got (p : option bytes) | Cleared.

Section Run.
Context {Q : Type} `{PacketFifo Q}.

Definition step (q : Q) (o : op) : res (out * Q) :=
  match o with
  | Write p => let '(n, q') := fifo_write q p in Ok (Wrote n, q')
  | Read n => '(p, q') ← fifo_read q n; Ok (Got p, q')
  | Clr => Ok (Cleared, fifo_clear q)
  end.

Fixpoint run (q : Q) (ops : list op) : res (list out * Q) :=
  match ops with
  | [] => Ok ([], q)
  | o :: ops' =>
      '(x, q1) ← step q o; '(xs, q2) ← run q1 ops'; Ok (x :: xs, q2)
  end.
End Run.

(** The specification: a list of packets, at most [cap] of them. *)
Definition spec_step (cap : Z) (l : list bytes) (o : op) : out * list bytes :=
  match o with
  | Write p => if zlen l =? cap then (Wrote None, l) else (Wrote (Some (zlen p)), l ++ [p])
  | Read n => match l with
              | [] => (Got None, [])
              | p :: l' => (Got (Some (take (Z.to_nat n) p)), l')
              end
  | Clr => (Cleared, [])
  end.

Fixpoint spec_run (cap : Z) (l : list bytes) (ops : list op) : list out * list bytes :=
  match ops with
  | [] => ([], l)
  | o :: ops' =>
      let '(x, l1) := spec_step cap l o in
      let '(xs, l2) := spec_run cap l1 ops' in (x :: xs, l2)
  end.

Definition op_ok (o : op) : Prop := match o with Read n => 0 <= n | _ => True end.

Section Refinement.
Context {Q : Type} `{PacketFifo Q}.

Lemma step_refines q l o :
  fifo_view q l -> op_ok o ->
  exists q', step q o = Ok (fst (spec_step (fifo_cap q) l o), q') /\
    fifo_view q' (snd (spec_step (fifo_cap q) l o)) /\ fifo_cap q' = fifo_cap q.
Proof.
  intros Hv Ho. destruct o as [p|n|]; cbn.
  - pose proof (fifo_bounded _ _ Hv). destruct (Z.eqb_spec (zlen l) (fifo_cap q)).
    + rewrite (fifo_write_full _ _ _ Hv) by done. eauto.
    + destruct (fifo_write_room q l p Hv) as (q' & -> & ? & ?); [lia|]. eauto.
  - destruct l as [|p l].
    + rewrite fifo_read_empty by done. cbn. eauto.
    + destruct (fifo_read_front q p l n Hv Ho) as (q' & -> & ? & ?). cbn. eauto.
  - destruct (fifo_clear_view _ _ Hv). eauto.
Qed.

Lemma run_refines ops q l :
  fifo_view q l -> Forall op_ok ops ->
  exists q', run q ops = Ok (fst (spec_run (fifo_cap q) l ops), q') /\
    fifo_view q' (snd (spec_run (fifo_cap q) l ops)) /\ fifo_cap q' = fifo_cap q.
Proof.
  revert q l. induction ops as [|o ops IH]; intros q l Hv Ho; cbn; [eauto|].
  apply Forall_cons_1 in Ho as [Ho Hos].
  destruct (step_refines q l o Hv Ho) as (q1 & -> & Hv1 & Hc1). cbn.
  destruct (spec_step (fifo_cap q) l o) as [x l1]. cbn in *.
  destruct (IH q1 l1 Hv1 Hos) as (q2 & -> & Hv2 & Hc2). rewrite Hc1 in *. cbn.
  destruct (spec_run (fifo_cap q) l1 ops) as [xs l2]. cbn in *. eauto.
Qed.
End Refinement.

(** Every sequence of writes, reads and clears gives exactly the results
    of a bounded FIFO list of packets: a write is refused only when the queue
    is full, a read returns the oldest packet truncated to the caller's size,
    and recycled buffers never leak bytes of an earlier packet into a later
    one.  The queue and its free list never own more than [capacity_] buffers. *)
Theorem queue_refines_fifo capacity default_size ops :
  0 <= capacity -> Forall op_ok ops ->
  exists q, run (create capacity default_size) ops = Ok (fst (spec_run capacity [] ops), q) /\
    Forall2 (fun b p => Buffer.data b = Ok p) (queue_ q) (snd (spec_run capacity [] ops)) /\
    zlen (queue_ q) + zlen (free_list_ q) <= capacity.
Proof.
  intros Hc Ho. destruct (@run_refines _ BufferQueue_fifo ops (create capacity default_size) []
    (view_create capacity default_size Hc) Ho) as (q & Hr & Hv & Hcap).
  change (fifo_cap (create capacity default_size)) with capacity in *.
  exists q. split; [done|]. destruct Hv as (Hq & _ & Hb). cbn in Hcap. split; [|lia].
  eapply Forall2_impl; [|exact Hq]. by intros ? ? [_ ?].
Qed.

Lemma queue_refines_fifo_witness :
  run (create 1 4) [Write (lit "long packet"); Read 4; Write (lit "ab"); Write (lit "c"); Read 9] =
    Ok ([Wrote (Some 11); Got (Some (lit "long")); Wrote (Some 2); Wrote None;
         Got (Some (lit "ab"))],
        mkBufferQueue 1 4 []
          [Buffer.mkBuffer 2 11 (Some <$> lit "abng packet") 0 []]) /\
  exists q, run (create 2 4) [Write [1; 2; 3]; Clr; Write [4]; Read 3] =
      Ok (fst (spec_run 2 [] [Write [1; 2; 3]; Clr; Write [4]; Read 3]), q) /\
    Forall2 (fun b p => Buffer.data b = Ok p) (queue_ q)
      (snd (spec_run 2 [] [Write [1; 2; 3]; Clr; Write [4]; Read 3])) /\
    zlen (queue_ q) + zlen (free_list_ q) <= 2.
Proof.
  split; [vm_compute; reflexivity|]. apply queue_refines_fifo; [lia|].
  repeat (constructor; [cbn; lia || exact I|]). constructor.
Defined.
