(* ===== verification/ThreadQueue.v ===== *)
(** * utils/threadqueue.hpp: [ThreadQueue<T>]

    A bounded blocking queue.  Every method holds [_mutex] except while it
    sleeps in [_cv.wait] and from its [unlock] to its [notify_all], so what it
    does under the lock is one step and its notification another, with any
    steps of others between.  The system has the producers blocked in
    [push_back], those asleep on the condition variable and those that were
    woken and have not yet re-tested the predicate, and the number of threads
    that have still to notify.  Timed waits end by themselves and are one step. *)
From S2P Require Import Prelude.
Local Open Scope Z_scope.

Section Queue.
Context {T : Type}.

Record ThreadQueue := mkThreadQueue {
  _queue : list T;
  _isNotEmpty : bool;
  _isFull : bool;
  _max : Z;
}.

(** [ThreadQueue(int max)]. *)
Definition create (max : Z) : ThreadQueue :=
  mkThreadQueue [] false false (if max <? 0 then 1 else max).

(** The body of [push_back] and [push_back_t] once the predicate holds. *)
Definition push (q : ThreadQueue) (val : T) : ThreadQueue :=
  let queue := _queue q ++ [val] in
  mkThreadQueue queue true (if _max q <=? zlen queue then true else _isFull q) (_max q).

(** [push_back] under the lock: [None] when the predicate of the wait fails. *)
Definition push_back (q : ThreadQueue) (val : T) : option ThreadQueue :=
  if _isFull q then None else Some (push q val).

(** [push_back_t] after its timed wait. *)
Definition push_back_t (q : ThreadQueue) (val : T) : bool * ThreadQueue :=
  if _isFull q || (_max q <=? zlen (_queue q)) then (false, q) else (true, push q val).

(** [pop] after its timed wait: the value ([None] is [flag = false] and the
    default value), the queue, and whether [notify_all] was called. *)
Definition pop (q : ThreadQueue) : option T * ThreadQueue * bool :=
  match _isNotEmpty q, _queue q with
  | true, val :: rest =>
      let not_full := zlen rest <? _max q in
      (Some val,
       mkThreadQueue rest (if zlen rest =? 0 then false else true)
         (if not_full then false else _isFull q) (_max q),
       not_full)
  | _, _ => (None, q, false)
  end.

(** [clear] sends no notification. *)
Definition clear (q : ThreadQueue) : ThreadQueue := mkThreadQueue [] false false (_max q).

(** ** Invariant of the queue *)

Definition wf (q : ThreadQueue) : Prop :=
  1 <= _max q /\ zlen (_queue q) <= _max q /\
  _isNotEmpty q = negb (zlen (_queue q) =? 0) /\
  _isFull q = (_max q <=? zlen (_queue q)).

Lemma wf_create max : max <> 0 -> wf (create max).
Proof.
  intros Hm. unfold create, wf. cbn [_queue _max _isFull _isNotEmpty].
  rewrite (@zlen_nil T). destruct (Z.ltb_spec max 0); (split; [lia|split; [lia|split; [done|]]]);
    symmetry; apply Z.leb_gt; lia.
Qed.

Lemma wf_clear q : wf q -> wf (clear q).
Proof.
  intros (Hm & _). unfold clear, wf. cbn [_queue _max _isFull _isNotEmpty]. rewrite (@zlen_nil T).
  split_and!; [done | lia | done | symmetry; apply Z.leb_gt; lia].
Qed.

Lemma wf_push q v : wf q -> _isFull q = false -> wf (push q v).
Proof.
  intros (Hm & Hs & He & Hf) H. rewrite Hf in H. bool_inv. unfold push, wf.
  cbn [_queue _max _isFull _isNotEmpty]. autorewrite with zlen. split_and!; [done | lia | |].
  - symmetry. apply negb_true_iff, Z.eqb_neq. pose proof (zlen_nonneg (_queue q)). lia.
  - rewrite Hf, (proj2 (Z.leb_gt (_max q) (zlen (_queue q)))) by lia. by case_match.
Qed.

Lemma pop_spec q v rest :
  wf q -> _queue q = v :: rest ->
  exists q', pop q = (Some v, q', true) /\ _queue q' = rest /\ wf q' /\ _isFull q' = false.
Proof.
  intros (Hm & Hs & He & Hf) Hq. unfold pop. rewrite He, Hq in *. autorewrite with zlen in *.
  pose proof (zlen_nonneg rest).
  rewrite (proj2 (Z.eqb_neq (1 + zlen rest) 0)) by lia. cbn [negb].
  rewrite (proj2 (Z.ltb_lt (zlen rest) (_max q))) by lia. eexists. split; [done|].
  split; [done|]. split; [|done]. unfold wf. cbn [_queue _max _isFull _isNotEmpty].
  split_and!; [done | lia | by case_match | symmetry; apply Z.leb_gt; lia].
Qed.

Lemma pop_empty q : wf q -> _queue q = [] -> pop q = (None, q, false).
Proof. intros (_ & _ & He & _) Hq. unfold pop. by rewrite He, Hq. Qed.

(** ** The system of threads *)

(** The values that producers blocked in [push_back] want to push; the threads
    that have unlocked the mutex and not yet called [notify_all]. *)
Record system := mkSystem { tq : ThreadQueue; asleep : list T; awake : list T; notifying : nat }.

Inductive event :=
  | Pushed (v : T)      (* a push that went into the queue *)
  | Popped (v : T)      (* a pop with [flag = true] *)
  | Cleared
  | Silent.

(** [lock.unlock()], with [notify_all] still to come. *)
Definition unlocked (q : ThreadQueue) (s : system) : system :=
  mkSystem q (asleep s) (awake s) (S (notifying s)).

(** [notify_all] makes every sleeper re-test its predicate. *)
Definition notify_all (s : system) : system :=
  mkSystem (tq s) [] (asleep s ++ awake s) (pred (notifying s)).

Inductive step : system -> event -> system -> Prop :=
  | step_push s v q : push_back (tq s) v = Some q -> step s (Pushed v) (unlocked q s)
  | step_block s v : push_back (tq s) v = None ->
      step s Silent (mkSystem (tq s) (v :: asleep s) (awake s) (notifying s))
  | step_push_t s v q : push_back_t (tq s) v = (true, q) ->
      step s (Pushed v) (unlocked q s)
  | step_push_t_fail s v q : push_back_t (tq s) v = (false, q) ->
      step s Silent (mkSystem q (asleep s) (awake s) (notifying s))
  | step_pop s v q n : pop (tq s) = (Some v, q, n) ->
      step s (Popped v) (if n then unlocked q s else mkSystem q (asleep s) (awake s) (notifying s))
  | step_pop_fail s q n : pop (tq s) = (None, q, n) ->
      step s Silent (mkSystem q (asleep s) (awake s) (notifying s))
  | step_clear s : step s Cleared (mkSystem (clear (tq s)) (asleep s) (awake s) (notifying s))
  (* a thread that has unlocked goes on *)
  | step_notify s : (0 < notifying s)%nat -> step s Silent (notify_all s)
  (* a woken producer re-tests the predicate *)
  | step_retry s v a b q : awake s = a ++ v :: b -> push_back (tq s) v = Some q ->
      step s (Pushed v) (mkSystem q (asleep s) (a ++ b) (S (notifying s)))
  | step_resleep s v a b : awake s = a ++ v :: b -> push_back (tq s) v = None ->
      step s Silent (mkSystem (tq s) (v :: asleep s) (a ++ b) (notifying s))
  (* condition variables may wake a sleeper for no reason *)
  | step_spurious s v a b : asleep s = a ++ v :: b ->
      step s Silent (mkSystem (tq s) (a ++ b) (v :: awake s) (notifying s)).

Inductive run : system -> list event -> system -> Prop :=
  | run_nil s : run s [] s
  | run_snoc s es s1 e s2 : run s es s1 -> step s1 e s2 -> run s (es ++ [e]) s2.

(** What a FIFO queue holds after a history. *)
Fixpoint replay (es : list event) (l : list T) : option (list T) :=
  match es with
  | [] => Some l
  | Pushed v :: es' => replay es' (l ++ [v])
  | Popped v :: es' => match l with [] => None | _ :: l' => replay es' l' end
  | Cleared :: es' => replay es' []
  | Silent :: es' => replay es' l
  end.

(** The values popped, in order, if the queue is FIFO. *)
Fixpoint expected (es : list event) (l : list T) : list T :=
  match es with
  | [] => []
  | Pushed v :: es' => expected es' (l ++ [v])
  | Popped _ :: es' => match l with [] => [] | v :: l' => v :: expected es' l' end
  | Cleared :: es' => expected es' []
  | Silent :: es' => expected es' l
  end.

Definition popped (es : list event) : list T :=
  es ≫= fun e => match e with Popped v => [v] | _ => [] end.

Definition no_clear (es : list event) : Prop := Cleared ∉ es.

Lemma replay_app es es' l :
  replay (es ++ es') l = replay es l ≫= replay es'.
Proof. revert l. induction es as [|[] es IH]; intros l; cbn; try done. by destruct l. Qed.

Lemma expected_app es es' l l' :
  replay es l = Some l' -> expected (es ++ es') l = expected es l ++ expected es' l'.
Proof.
  revert l. induction es as [|[] es IH]; intros l H; cbn in *; simplify_eq; try by apply IH.
  - done.
  - destruct l; [done|]. cbn. f_equal. by apply IH.
Qed.

Lemma popped_app es es' : popped (es ++ es') = popped es ++ popped es'.
Proof. apply bind_app. Qed.

(** One step keeps the queue well formed and acts on its contents as the
    event says. *)
Lemma step_inv s e s' :
  wf (tq s) -> step s e s' ->
  wf (tq s') /\
  replay [e] (_queue (tq s)) = Some (_queue (tq s')) /\
  expected [e] (_queue (tq s)) = popped [e].
Proof.
  intros Hw. destruct 1 as
    [s v q H|s v H|s v q H|s v q H|s v q n H|s q n H|s|s Hn|s v a b q Ha H|s v a b Ha H|s v a b Ha];
    cbn [tq unlocked notify_all replay expected popped mbind list_bind app]; try done.
  - unfold push_back in H. case_match; [done|]. injection H as <-. by split; [apply wf_push|].
  - unfold push_back_t in H. case_match; [done|]. injection H as <-. bool_inv.
    by split; [apply wf_push|].
  - unfold push_back_t in H. case_match; by simplify_eq.
  - destruct (_queue (tq s)) as [|x rest] eqn:Eq; [by rewrite pop_empty in H|].
    destruct (pop_spec _ _ _ Hw Eq) as (q' & Hp & Hr & Hw' & _). rewrite Hp in H.
    injection H as -> -> <-. cbn [tq unlocked notify_all]. by rewrite Hr.
  - destruct (_queue (tq s)) as [|x rest] eqn:Eq.
    + rewrite pop_empty in H by done. injection H as <- <-. by rewrite Eq.
    + destruct (pop_spec _ _ _ Hw Eq) as (q' & Hp & _). by rewrite Hp in H.
  - by split; [apply wf_clear|].
  - unfold push_back in H. case_match; [done|]. injection H as <-. by split; [apply wf_push|].
Qed.

Lemma run_inv s es s' :
  run s es s' -> wf (tq s) ->
  wf (tq s') /\ replay es (_queue (tq s)) = Some (_queue (tq s')) /\
  popped es = expected es (_queue (tq s)).
Proof.
  intros Hr Hw. induction Hr as [s|s es s1 e s2 Hr IH Hs]; [done|].
  destruct (IH Hw) as (Hw1 & Hl1 & Hp1). destruct (step_inv _ _ _ Hw1 Hs) as (Hw2 & Hl2 & Hp2).
  split; [done|]. split.
  - by rewrite replay_app, Hl1.
  - by rewrite popped_app, (expected_app _ _ _ _ Hl1), <- Hp1, Hp2.
Qed.

(** No producer sleeps while there is room, as long as nobody calls [clear],
    but until a thread that has made room notifies. *)
Definition will_wake (s : system) : Prop :=
  asleep s <> [] -> _isFull (tq s) = true \/ (0 < notifying s)%nat.

Lemma step_no_lost_wakeup s e s' :
  wf (tq s) -> will_wake s -> e <> Cleared -> step s e s' -> will_wake s'.
Proof.
  intros Hw Hs He. destruct 1 as
    [s v q H|s v H|s v q H|s v q H|s v q n H|s q n H|s|s Hn|s v a b q Ha H|s v a b Ha H|s v a b Ha];
    unfold will_wake in *; cbn [tq unlocked notify_all asleep notifying] in *; try done; try (intros; right; lia).
  - intros _. left. unfold push_back in H. by case_match.
  - unfold push_back_t in H. case_match; by simplify_eq.
  - destruct (_queue (tq s)) as [|x rest] eqn:Eq; [by rewrite pop_empty in H|].
    destruct (pop_spec _ _ _ Hw Eq) as (q' & Hp & _). rewrite Hp in H.
    injection H as -> -> <-. intros _. right. cbn. lia.
  - destruct (_queue (tq s)) as [|x rest] eqn:Eq.
    + rewrite pop_empty in H by done. by simplify_eq.
    + destruct (pop_spec _ _ _ Hw Eq) as (q' & Hp & _). by rewrite Hp in H.
  - intros _. left. unfold push_back in H. by case_match.
  - intros _. apply Hs. rewrite Ha. by destruct a.
Qed.
End Queue.
Arguments ThreadQueue T : clear implicits.
Arguments system T : clear implicits.
Arguments event T : clear implicits.

(** The state in which the threads start. *)
Definition initial {T} (max : Z) : system T := mkSystem (create max) [] [] 0.

(** In every interleaving of producers, consumers, [clear] and wake-ups,
    the flags of the queue agree with its size, the size never exceeds the
    bound, and the values popped are the values pushed since the last [clear]
    in the order of their pushes. *)
Theorem thread_queue_fifo {T} (max : Z) es (s : system T) :
  max <> 0 -> run (initial max) es s ->
  let q := tq s in
  zlen (_queue q) <= (if max <? 0 then 1 else max) /\
  _isNotEmpty q = negb (zlen (_queue q) =? 0) /\
  _isFull q = (_max q <=? zlen (_queue q)) /\
  replay es [] = Some (_queue q) /\ popped es = expected es [].
Proof.
  intros Hm Hr. assert (_max (tq s) = if max <? 0 then 1 else max) as Hmax.
  { remember (initial max) as s0 eqn:E. revert E.
    induction Hr as [|s0 es s1 e s2 Hr IH Hs]; intros ->; [done|].
    specialize (IH eq_refl). rewrite <- IH. destruct Hs; cbn [tq unlocked notify_all]; try done;
      unfold push_back, push_back_t, pop in *; repeat case_match; by simplify_eq. }
  destruct (run_inv _ _ _ Hr (wf_create max Hm)) as ((_ & Hs & He & Hf) & Hl & Hp).
  cbn zeta. rewrite <- Hmax. done.
Qed.

(** C36. A producer only sleeps while the queue is full, or while a thread that
    has unlocked the mutex has still to notify, and then it will: without
    [clear], no interleaving of the locked sections, the notifications after
    them and the wake-ups loses one. *)
Theorem no_lost_wakeup {T} (max : Z) es (s : system T) :
  max <> 0 -> run (initial max) es s -> Cleared ∉ es -> asleep s <> [] ->
  _isFull (tq s) = true \/
  (0 < notifying s)%nat /\ step s Silent (notify_all s) /\ asleep (notify_all s) = [] /\
    awake (notify_all s) = asleep s ++ awake s.
Proof.
  intros Hm Hr Hc. assert (Hww : will_wake s).
  { remember (initial max) as s0 eqn:E. revert E Hc.
    induction Hr as [|s0 es s1 e s2 Hr IH Hs]; intros -> Hc; [by intros []|].
    apply not_elem_of_app in Hc as [Hc He].
    destruct (run_inv _ _ _ Hr (wf_create max Hm)) as (Hw & _).
    eapply step_no_lost_wakeup; [exact Hw | exact (IH eq_refl Hc) | | exact Hs].
    intros ->. apply He. by constructor. }
  intros Ha. destruct (Hww Ha) as [?|Hn]; [by left|right]. split; [done|]. split; [by constructor|done].
Qed.

Lemma thread_queue_fifo_witness :
  exists s : system Z, run (initial 1) [Pushed 7; Popped 7] s /\
    popped [Pushed 7; Popped 7] = expected [Pushed 7; Popped 7] [].
Proof.
  set (s1 := unlocked (push (create 1) 7) (initial 1)).
  set (s2 := unlocked (mkThreadQueue [] false false 1) s1).
  assert (H : run (initial 1) [Pushed 7; Popped 7] s2).
  { apply (run_snoc _ [Pushed 7] s1); [apply (run_snoc _ [] (initial 1)); [constructor|]|].
    - by apply step_push.
    - by apply (step_pop s1 7 _ true). }
  exists s2. split; [exact H|].
  apply (thread_queue_fifo 1 _ s2 ltac:(lia) H).
Defined.

(** The producer of 8 sleeps while the consumer of 7 has not unlocked yet. *)
Definition between : system Z := mkSystem (mkThreadQueue [] false false 1) [8] [] 1.

Lemma between_run : run (initial 1) [Pushed 7; Silent; Silent; Popped 7] between.
Proof.
  set (s1 := unlocked (push (create 1) 7) (initial 1)).
  apply (run_snoc _ [Pushed 7; Silent; Silent] (mkSystem (tq s1) [8] [] 0));
    [|by apply (step_pop (mkSystem (tq s1) [8] [] 0) 7 (mkThreadQueue [] false false 1) true)].
  apply (run_snoc _ [Pushed 7; Silent] (notify_all s1)); [|by apply (step_block (notify_all s1) 8)].
  apply (run_snoc _ [Pushed 7] s1); [|apply step_notify; cbn; lia].
  apply (run_snoc _ [] (initial 1)); [constructor|by apply step_push].
Qed.

Lemma no_lost_wakeup_witness :
  asleep between = [8] /\ (_isFull (tq between) = true \/
  (0 < notifying between)%nat /\ step between Silent (notify_all between) /\ asleep (notify_all between) = [] /\
    awake (notify_all between) = asleep between ++ awake between).
Proof.
  split; [reflexivity|]. apply (no_lost_wakeup 1 [Pushed 7; Silent; Silent; Popped 7] between ltac:(lia) between_run).
  - intros Hin. repeat (apply elem_of_cons in Hin as [?|Hin]; [done|]). by apply elem_of_nil in Hin.
  - discriminate.
Defined.

(** [clear] sends no notification, so it loses wake-ups: a run leaves the
    queue empty and writable while a producer that was waiting for room is
    still asleep, with nobody left to wake it. *)
Theorem clear_loses_wakeup :
  exists es (s : system Z), run (initial 1) es s /\
    _queue (tq s) = [] /\ _isFull (tq s) = false /\ asleep s = [8] /\ awake s = [] /\ notifying s = 0%nat.
Proof.
  set (s1 := unlocked (push (create 1) 7) (initial 1)).
  set (s2 := mkSystem (tq s1) [8] [] 0).
  exists ([Pushed 7; Silent; Silent] ++ [Cleared]), (mkSystem (clear (tq s2)) [8] [] 0).
  split; [|by vm_compute].
  eapply run_snoc; [|apply (step_clear s2)].
  apply (run_snoc _ [Pushed 7; Silent] (notify_all s1)); [|by apply (step_block (notify_all s1) 8)].
  apply (run_snoc _ [Pushed 7] s1); [|apply step_notify; cbn; lia].
  apply (run_snoc _ [] (initial 1)); [constructor|by apply step_push].
Qed.

(** What holds of a [max = 0] queue before and after its only push. *)
Definition stuck {T} (q : ThreadQueue T) (pushed : nat) : Prop :=
  _max q = 0 /\
  ((pushed = 0%nat /\ _isFull q = false /\ _queue q = [] /\ _isNotEmpty q = false) \/
   (pushed = 1%nat /\ _isFull q = true)).

Definition pushes {T} (es : list (event T)) : nat :=
  length (es ≫= fun e => match e with Pushed v => [v] | _ => [] end).

Lemma stuck_push_back {T} (q q' : ThreadQueue T) v n :
  stuck q n -> push_back q v = Some q' -> stuck q' (n + 1).
Proof.
  unfold push_back. intros [Hm [(-> & Hf & Hq & He)|[-> Hf]]]; rewrite Hf; intros [= <-].
  split; [done|]. right. split; [done|]. cbn. rewrite Hm, Hq. done.
Qed.

Lemma stuck_push_back_t {T} (q q' : ThreadQueue T) v b n :
  stuck q n -> push_back_t q v = (b, q') -> b = false /\ q' = q.
Proof.
  unfold push_back_t. intros [Hm _]. rewrite Hm, (proj2 (Z.leb_le _ _)) by apply zlen_nonneg.
  rewrite orb_true_r. by intros [= <- <-].
Qed.

Lemma stuck_pop {T} (q q' : ThreadQueue T) v b n :
  stuck q n -> pop q = (v, q', b) -> stuck q' n.
Proof.
  unfold pop. intros Hs H. pose proof Hs as [Hm [(Hn & Hf & Hq & He)|[Hn Hf]]].
  - rewrite He in H. by injection H as <- <- <-.
  - destruct (_isNotEmpty q), (_queue q) as [|x rest]; simplify_eq; try done.
    split; [done|]. right. split; [done|]. cbn.
    by rewrite Hm, Hf, (proj2 (Z.ltb_ge _ _)) by apply zlen_nonneg.
Qed.

Lemma stuck_step {T} (s : system T) e s' n :
  stuck (tq s) n -> e <> Cleared -> step s e s' -> stuck (tq s') (n + pushes [e]).
Proof.
  intros Hn He Hs. destruct Hs; cbn [tq unlocked notify_all]; try done;
    rewrite ?Nat.add_0_r; try done; try by eapply stuck_push_back.
  - match goal with H : push_back_t _ _ = _ |- _ =>
      destruct (stuck_push_back_t _ _ _ _ _ Hn H) end. done.
  - match goal with H : push_back_t _ _ = _ |- _ =>
      by destruct (stuck_push_back_t _ _ _ _ _ Hn H) as [_ ->] end.
  - match goal with H : pop _ = _ |- _ => pose proof (stuck_pop _ _ _ _ _ Hn H) end.
    by destruct n0.
  - by eapply stuck_pop.
Qed.

(** A queue built with [max = 0], which the constructor accepts, takes one
    element in its whole life: after it every producer blocks, however often
    the consumers empty the queue. *)
Theorem zero_capacity_stuck {T} es (s : system T) :
  run (initial 0) es s -> Cleared ∉ es ->
  (pushes es <= 1)%nat /\ (pushes es = 1%nat -> forall v, push_back (tq s) v = None).
Proof.
  intros Hr Hc. assert (Hs : stuck (tq s) (pushes es)).
  { remember (initial 0) as s0 eqn:E. revert E Hc.
    induction Hr as [|s0 es s1 e s2 Hr IH Hs]; intros -> Hc; [split; [done|by left]|].
    apply not_elem_of_app in Hc as [Hc He]. unfold pushes in *. rewrite bind_app, length_app.
    apply (stuck_step s1 e s2); [by apply IH| |done]. intros ->. apply He. by constructor. }
  destruct Hs as [_ [(-> & _)|[-> Hf]]]; (split; [lia|]); [done|].
  intros _ v. unfold push_back. by rewrite Hf.
Qed.

Lemma zero_capacity_stuck_witness :
  exists s : system Z, run (initial 0) [Pushed 7; Popped 7] s /\ _queue (tq s) = [] /\
    push_back (tq s) 8 = None.
Proof.
  set (s1 := unlocked (push (create 0) 7) (initial 0)).
  set (s2 := mkSystem (mkThreadQueue (@nil Z) false true 0) [] [] 1).
  assert (H : run (initial 0) [Pushed 7; Popped 7] s2).
  { apply (run_snoc _ [Pushed 7] s1); [apply (run_snoc _ [] (initial 0)); [constructor|]|].
    - by apply step_push.
    - by apply (step_pop s1 7 _ false). }
  exists s2. split; [exact H|]. split; [reflexivity|].
  apply (zero_capacity_stuck [Pushed 7; Popped 7] s2 H); [|reflexivity].
  intros Hin. repeat (apply elem_of_cons in Hin as [?|Hin]; [done|]). by apply elem_of_nil in Hin.
Defined.
