(* ===== verification/RtpRtcp.v ===== *)
(** * rtprtcp/rtprtcp_pub.hpp and modules/include/module_common_types_public.h

    Classification of RTP and RTCP packets, and arithmetic on wrapping
    sequence numbers.  Headers are the C++ bit-field structs laid over the
    packet on a little-endian machine. *)
From S2P Require Import Prelude.
From S2P Require ByteOrder.
Local Open Scope Z_scope.

(** ** Packet types *)

Inductive RTCP_TYPE :=
  | RTCP_SR | RTCP_RR | RTCP_SDES | RTCP_BYE | RTCP_APP | RTCP_RTPFB | RTCP_PSFB | RTCP_XR.

Definition rtcp_type_code (t : RTCP_TYPE) : Z :=
  match t with
  | RTCP_SR => 200 | RTCP_RR => 201 | RTCP_SDES => 202 | RTCP_BYE => 203
  | RTCP_APP => 204 | RTCP_RTPFB => 205 | RTCP_PSFB => 206 | RTCP_XR => 207
  end.

(** ** Headers *)

Record rtcp_common_header := mkRtcpHeader {
  count : Z; rtcp_padding : Z; rtcp_version : Z; packet_type : Z; length_ : Z;
}.

(** [(rtcp_common_header* )data]: bit-fields from the low bits, [length] in
    host order. *)
Definition rtcp_header (data : bytes) : res rtcp_common_header :=
  b0 ← mem_get data 0; b1 ← mem_get data 1; l ← mem_read data 2 2;
  Ok (mkRtcpHeader (b0 mod 32) (b0 / 32 mod 2) (b0 / 64) b1 (ByteOrder.le_load l)).

Record rtp_common_header := mkRtpHeader {
  csrc_count : Z; extension : Z; rtp_padding : Z; rtp_version : Z;
  payload_type : Z; marker : Z; sequence : Z; timestamp : Z; ssrc : Z;
}.

Definition rtp_header (data : bytes) : res rtp_common_header :=
  b0 ← mem_get data 0; b1 ← mem_get data 1; s ← mem_read data 2 2;
  t ← mem_read data 4 4; r ← mem_read data 8 4;
  Ok (mkRtpHeader (b0 mod 16) (b0 / 16 mod 2) (b0 / 32 mod 2) (b0 / 64)
    (b1 mod 128) (b1 / 128) (ByteOrder.le_load s) (ByteOrder.le_load t) (ByteOrder.le_load r)).

Definition sizeof_rtcp_common_header : Z := 4.
Definition sizeof_rtp_common_header : Z := 12.

(** The [&&] chains stop at the first false conjunct. *)
Definition is_rtcp (data : bytes) : res bool :=
  if negb (sizeof_rtcp_common_header <=? zlen data) then Ok false
  else
    b0 ← mem_get data 0;
    if negb ((127 <? b0) && (b0 <? 192)) then Ok false
    else
      h ← rtcp_header data;
      Ok ((rtcp_version h =? 2) && ((192 <=? packet_type h) && (packet_type h <=? 223))).

Definition is_rtp (data : bytes) : res bool :=
  if negb (sizeof_rtp_common_header <=? zlen data) then Ok false
  else
    b0 ← mem_get data 0;
    if negb ((127 <? b0) && (b0 <? 192)) then Ok false
    else h ← rtp_header data; Ok (rtp_version h =? 2).

(** [ntohs(header->length) * 4] returned as [uint16_t]. *)
Definition get_rtcp_length (header : rtcp_common_header) : Z :=
  u16 (ByteOrder.NetworkToHost16 (length_ header) * 4).

Definition rtcp_header_dump (header : rtcp_common_header) : bytes :=
  lit "rtcp common header, version:" ++ dec (rtcp_version header)
  ++ lit ", padding:" ++ dec (rtcp_padding header)
  ++ lit ", count:" ++ dec (count header)
  ++ lit ", payloadtype:" ++ dec (packet_type header)
  ++ lit ", length:" ++ dec (get_rtcp_length header) ++ [13; 10].

(** ** Sequence numbers *)

Definition SEQUENCE_MAX : Z := 65535.

(** The differences are computed in [int]. *)
Definition seq_lower_than (seq1 seq2 : Z) : bool :=
  if (seq2 <? seq1) && (SEQUENCE_MAX / 2 <? seq1 - seq2) then true
  else if (seq1 <? seq2) && (seq2 - seq1 <=? SEQUENCE_MAX / 2) then true
  else false.

Definition seq_higher_than (seq1 seq2 : Z) : bool :=
  if seq1 =? seq2 then false
  else
    let ret := seq_lower_than seq1 seq2 in
    negb ret.

(** *** modules/include/module_common_types_public.h

    [w] is the width of [U]; a [U] narrower than [int] is promoted, so only
    the 32-bit difference wraps. *)
Definition sub_U (w a b : Z) : Z := if w <? 32 then a - b else (a - b) mod 2 ^ w.

Definition IsNewer (w value prev_value : Z) : bool :=
  let kBreakpoint := Z.shiftr (2 ^ w - 1) 1 + 1 in
  if sub_U w value prev_value =? kBreakpoint then prev_value <? value
  else negb (value =? prev_value) && (sub_U w value prev_value mod 2 ^ w <? kBreakpoint).

Definition UnwrapWithoutUpdate (w : Z) (last_value_ : option Z) (value : Z) : Z :=
  match last_value_ with
  | None => value
  | Some last =>
      let kMaxPlusOne := 2 ^ w in
      let cropped_last := last mod 2 ^ w in
      let delta := sub_U w value cropped_last in
      let delta :=
        if IsNewer w value cropped_last then
          if delta <? 0 then delta + kMaxPlusOne else delta
        else if (0 <? delta) && (0 <=? last + delta - kMaxPlusOne) then delta - kMaxPlusOne
        else delta in
      last + delta
  end.

Definition UpdateLast (last_value : Z) : option Z := Some last_value.

(** [Unwrap]: the result and the new [last_value_]. *)
Definition Unwrap (w : Z) (last_value_ : option Z) (value : Z) : Z * option Z :=
  let unwrapped := UnwrapWithoutUpdate w last_value_ value in
  (unwrapped, UpdateLast unwrapped).

Definition IsNewerSequenceNumber : Z -> Z -> bool := IsNewer 16.
Definition IsNewerTimestamp : Z -> Z -> bool := IsNewer 32.
Definition LatestSequenceNumber (a b : Z) : Z := if IsNewerSequenceNumber a b then a else b.
Definition LatestTimestamp (a b : Z) : Z := if IsNewerTimestamp a b then a else b.

(** ** Classification *)

Lemma rtcp_version_bits : forall b, is_byte b ->
  implb ((127 <? b) && (b <? 192)) (b / 64 =? 2) = true.
Proof. by_bytes. Qed.

Lemma version_bits b : is_byte b -> 127 < b < 192 -> (b / 64 =? 2) = true.
Proof.
  intros Hb Hr. pose proof (rtcp_version_bits b Hb) as H.
  rewrite (proj2 (Z.ltb_lt 127 b)), (proj2 (Z.ltb_lt b 192)) in H by lia. done.
Qed.

Lemma first_byte_test b : (127 <? b) && (b <? 192) = (128 <=? b) && (b <=? 191).
Proof. apply Bool.eq_iff_eq_true. rewrite !andb_true_iff, !Z.ltb_lt, !Z.leb_le. lia. Qed.

Lemma rtcp_header_ok b0 b1 b2 b3 r :
  rtcp_header (b0 :: b1 :: b2 :: b3 :: r) =
    Ok (mkRtcpHeader (b0 mod 32) (b0 / 32 mod 2) (b0 / 64) b1 (ByteOrder.le_load [b2; b3])).
Proof.
  unfold rtcp_header. rewrite mem_read_ok
    by (rewrite ?zlen_cons; pose proof (zlen_nonneg r); lia). done.
Qed.

(** On every packet [is_rtcp] and [is_rtp] return without reading past the
    end, and accept exactly what RFC 7983 and the IANA registry say: first
    byte 128..191, at least a header, and for RTCP a second byte 192..223. *)
Theorem classify_total data :
  wf_bytes data ->
  is_rtcp data = Ok (match data with
                     | b0 :: b1 :: _ :: _ :: _ =>
                         (128 <=? b0) && (b0 <=? 191) && (192 <=? b1) && (b1 <=? 223)
                     | _ => false
                     end) /\
  is_rtp data = Ok ((12 <=? zlen data) &&
                    match data with b0 :: _ => (128 <=? b0) && (b0 <=? 191) | _ => false end).
Proof.
  intros Hwf. split.
  - destruct data as [|b0 [|b1 [|b2 [|b3 r]]]]; try done.
    apply Forall_cons_1 in Hwf as [Hb0 _]. unfold is_rtcp, sizeof_rtcp_common_header.
    rewrite (proj2 (Z.leb_le 4 _)) by (rewrite !zlen_cons; pose proof (zlen_nonneg r); lia).
    rewrite rtcp_header_ok. change (mem_get (b0 :: _) 0) with (Ok b0).
    cbn [negb mbind res_bind rtcp_version packet_type].
    rewrite first_byte_test. destruct (_ && (b0 <=? 191)) eqn:E; [|done].
    bool_inv. by rewrite version_bits by (done || lia).
  - unfold is_rtp, sizeof_rtp_common_header. destruct (Z.leb_spec 12 (zlen data)); [|done].
    destruct data as [|b0 [|b1 r]]; [done|done|].
    apply Forall_cons_1 in Hwf as [Hb0 _]. change (mem_get (b0 :: _) 0) with (Ok b0).
    cbn [negb mbind res_bind]. rewrite first_byte_test.
    destruct (_ && (b0 <=? 191)) eqn:E; [|done]. bool_inv.
    unfold rtp_header. rewrite !mem_read_ok by lia.
    change (mem_get (b0 :: _) 0) with (Ok b0). change (mem_get (b0 :: b1 :: _) 1) with (Ok b1).
    cbn [negb mbind res_bind rtp_version]. by rewrite version_bits by (done || lia).
Qed.

Lemma classify_total_witness :
  is_rtcp [128; 200; 0; 6] = Ok true /\ is_rtp [128; 200; 0; 6] = Ok false /\
  is_rtp [128; 96; 0; 1; 0; 0; 0; 0; 0; 0; 0; 9] = Ok true.
Proof.
  assert (H : wf_bytes [128; 200; 0; 6]) by (repeat constructor; unfold is_byte; lia).
  split; [|split].
  - exact (proj1 (classify_total [128; 200; 0; 6] H)).
  - exact (proj2 (classify_total [128; 200; 0; 6] H)).
  - reflexivity.
Defined.

(** ** Sequence numbers *)

(** The distance from [a] forward to [b]. *)
Definition seq_distance (w a b : Z) : Z := (b - a) mod 2 ^ w.

Lemma seq_lower_spec a b :
  0 <= a < 65536 -> 0 <= b < 65536 ->
  seq_lower_than a b = true <->
  0 < seq_distance 16 a b < 32768 \/ (seq_distance 16 a b = 32768 /\ b < a).
Proof.
  intros Ha Hb. unfold seq_distance, seq_lower_than, SEQUENCE_MAX.
  change (65535 / 2) with 32767. change (2 ^ 16) with 65536.
  destruct (Z.le_gt_cases a b).
  - rewrite Z.mod_small by lia. rewrite (proj2 (Z.ltb_ge b a)) by lia. cbn.
    destruct (Z.ltb_spec a b), (Z.leb_spec (b - a) 32767); cbn; split; try done; lia.
  - replace ((b - a) mod 65536) with (b - a + 65536).
    2: { symmetry. rewrite <- (Z.mod_add (b - a) 1) by lia. apply Z.mod_small. lia. }
    rewrite (proj2 (Z.ltb_lt b a)), (proj2 (Z.ltb_ge a b)) by lia. cbn.
    destruct (Z.ltb_spec 32767 (a - b)); split; try done; lia.
Qed.

Lemma seq_distance_flip a b :
  0 <= a < 65536 -> 0 <= b < 65536 -> a <> b ->
  seq_distance 16 b a = 65536 - seq_distance 16 a b.
Proof.
  intros Ha Hb Hab. unfold seq_distance. change (2 ^ 16) with 65536.
  destruct (Z.lt_trichotomy a b) as [|[|]]; [|done|].
  - rewrite (Z.mod_small (b - a)) by lia. rewrite <- (Z.mod_add (a - b) 1) by lia.
    rewrite Z.mod_small; lia.
  - rewrite (Z.mod_small (a - b)) by lia. rewrite <- (Z.mod_add (b - a) 1) by lia.
    rewrite Z.mod_small; lia.
Qed.

Lemma seq_lower_total a b :
  0 <= a < 65536 -> 0 <= b < 65536 -> a <> b ->
  seq_lower_than b a = negb (seq_lower_than a b).
Proof.
  intros Ha Hb Hab. apply Bool.eq_iff_eq_true. rewrite negb_true_iff, <- not_true_iff_false.
  rewrite !seq_lower_spec, (seq_distance_flip a b) by done.
  assert (0 <= seq_distance 16 a b < 65536) by (apply Z.mod_pos_bound; lia).
  assert (seq_distance 16 a b <> 0); [|lia].
  pose proof (seq_distance_flip a b Ha Hb Hab).
  assert (0 <= seq_distance 16 b a < 65536) by (apply Z.mod_pos_bound; lia). lia.
Qed.

(** [seq_lower_than] orders 16-bit sequence numbers by the shorter way
    round the circle: a number is lower than each of its next 32767
    successors; of two distinct numbers exactly one is lower, and
    [seq_higher_than] is its mirror image. *)
Theorem seq_order a b :
  0 <= a < 65536 -> 0 <= b < 65536 ->
  (forall k, 0 < k < 32768 -> seq_lower_than a (u16 (a + k)) = true) /\
  (a <> b -> seq_lower_than b a = negb (seq_lower_than a b)) /\
  seq_lower_than a a = false /\
  seq_higher_than a b = seq_lower_than b a.
Proof.
  intros Ha Hb.
  assert (Hself : forall x, 0 <= x < 65536 -> seq_lower_than x x = false).
  { intros x Hx. apply not_true_iff_false. rewrite seq_lower_spec by done.
    unfold seq_distance. rewrite Z.sub_diag, Zmod_0_l. lia. }
  split_and!; [| by apply seq_lower_total | by apply Hself |].
  - intros k Hk. apply seq_lower_spec; [done | apply u16_range |]. left.
    unfold seq_distance, u16. change (2 ^ 16) with 65536. rewrite Zminus_mod_idemp_l.
    rewrite Z.mod_small; lia.
  - unfold seq_higher_than. destruct (Z.eqb_spec a b) as [->|]; [by rewrite Hself|].
    by rewrite (seq_lower_total a b).
Qed.

Lemma seq_order_witness :
  seq_lower_than 65535 0 = true /\ seq_lower_than 0 65535 = false /\
  seq_higher_than 3 65530 = seq_lower_than 65530 3.
Proof.
  split; [|split].
  - apply (proj1 (seq_order 65535 0 ltac:(lia) ltac:(lia)) 1). lia.
  - reflexivity.
  - apply (seq_order 3 65530); lia.
Defined.

Lemma shiftr_half w : 0 < w -> Z.shiftr (2 ^ w - 1) 1 + 1 = 2 ^ (w - 1).
Proof.
  intros. rewrite Z.shiftr_div_pow2 by lia. change (2 ^ 1) with 2.
  replace (2 ^ w) with (2 * 2 ^ (w - 1)); [|rewrite <- Z.pow_succ_r by lia; f_equal; lia].
  assert (0 < 2 ^ (w - 1)) by (apply Z.pow_pos_nonneg; lia).
  pose proof (Z.div_mod (2 * 2 ^ (w - 1) - 1) 2). pose proof (Z.mod_pos_bound (2 * 2 ^ (w - 1) - 1) 2). lia.
Qed.

Lemma sub_U_mod w a b : 0 < w -> sub_U w a b mod 2 ^ w = (a - b) mod 2 ^ w.
Proof.
  intros. unfold sub_U. case_match; [done|]. apply Z.mod_mod.
  assert (0 < 2 ^ w) by (apply Z.pow_pos_nonneg; lia). lia.
Qed.

(** [IsNewer value prev]: less than half the circle ahead, or exactly half and
    numerically larger. *)
Lemma IsNewer_spec w value prev :
  0 < w -> 0 <= value < 2 ^ w -> 0 <= prev < 2 ^ w ->
  IsNewer w value prev = true <->
  0 < seq_distance w prev value < 2 ^ (w - 1) \/
  (seq_distance w prev value = 2 ^ (w - 1) /\ prev < value).
Proof.
  intros Hw Hv Hp. unfold IsNewer. rewrite shiftr_half, sub_U_mod by done.
  fold (seq_distance w prev value). set (h := 2 ^ (w - 1)).
  assert (Hh : 2 ^ w = 2 * h).
  { subst h. rewrite <- Z.pow_succ_r by lia. f_equal. lia. }
  assert (Hpos : 0 < h) by (apply Z.pow_pos_nonneg; lia).
  assert (Hd : seq_distance w prev value = if prev <=? value then value - prev else value - prev + 2 ^ w).
  { unfold seq_distance. destruct (Z.leb_spec prev value); [apply Z.mod_small; lia|].
    rewrite <- (Z.mod_add (value - prev) 1) by lia. rewrite Z.mul_1_l. apply Z.mod_small. lia. }
  assert (Hs : sub_U w value prev = value - prev \/ sub_U w value prev = seq_distance w prev value).
  { unfold sub_U, seq_distance. destruct (w <? 32); [by left | by right]. }
  destruct (Z.leb_spec prev value);
    destruct (Z.eqb_spec (sub_U w value prev) h); destruct (Z.eqb_spec value prev);
    cbn [negb andb]; rewrite ?Z.ltb_lt; lia.
Qed.

(** The two notions of "later sequence number" agree everywhere except
    for numbers exactly half the circle apart, where they disagree. *)
Theorem IsNewer_seq_lower value prev :
  0 <= value < 65536 -> 0 <= prev < 65536 ->
  (seq_distance 16 prev value <> 32768 ->
     IsNewerSequenceNumber value prev = seq_lower_than prev value) /\
  (seq_distance 16 prev value = 32768 ->
     IsNewerSequenceNumber value prev = negb (seq_lower_than prev value)).
Proof.
  intros Hv Hp.
  pose proof (IsNewer_spec 16 value prev ltac:(lia) Hv Hp) as Hn.
  pose proof (seq_lower_spec prev value Hp Hv) as Hl.
  change (2 ^ (16 - 1)) with 32768 in Hn. unfold IsNewerSequenceNumber.
  split; intros Hd; rewrite Bool.eq_iff_eq_true, ?negb_true_iff, <- ?not_true_iff_false, Hn, Hl;
    [lia|].
  assert (prev <> value); [|lia]. intros ->. unfold seq_distance in Hd.
  by rewrite Z.sub_diag, Zmod_0_l in Hd.
Qed.

Lemma IsNewer_seq_lower_witness :
  IsNewerSequenceNumber 2 65534 = seq_lower_than 65534 2 /\
  IsNewerSequenceNumber 32768 0 = true /\ seq_lower_than 0 32768 = false.
Proof.
  split; [|split; reflexivity]. apply (IsNewer_seq_lower 2 65534); [lia | lia |].
  vm_compute. discriminate.
Defined.

(** ** Unwrapping *)

(** A counter that moves by less than half the range per step is recovered
    exactly from its low 16 (or 32) bits: unwrapping [x mod 2^w] after [last]
    gives [x]. *)
Theorem Unwrap_recovers w last x :
  w = 16 \/ w = 32 -> 0 <= last -> 0 <= x -> - 2 ^ (w - 1) < x - last < 2 ^ (w - 1) ->
  Unwrap w (Some last) (x mod 2 ^ w) = (x, Some x).
Proof.
  intros Hw Hl Hx Hd. unfold Unwrap, UpdateLast.
  assert (Hmain : UnwrapWithoutUpdate w (Some last) (x mod 2 ^ w) = x); [|by rewrite Hmain].
  cbn [UnwrapWithoutUpdate].
  assert (0 < w) by lia. assert (Hpos : 0 < 2 ^ w) by (apply Z.pow_pos_nonneg; lia).
  set (v := x mod 2 ^ w). set (c := last mod 2 ^ w).
  assert (Hv : 0 <= v < 2 ^ w) by by apply Z.mod_pos_bound.
  assert (Hc : 0 <= c < 2 ^ w) by by apply Z.mod_pos_bound.
  pose proof (Z.div_mod x (2 ^ w) ltac:(lia)) as Ex. fold v in Ex.
  pose proof (Z.div_mod last (2 ^ w) ltac:(lia)) as El. fold c in El.
  pose proof (IsNewer_spec w v c ltac:(lia) Hv Hc) as Hn.
  assert (Hdist : seq_distance w c v = (x - last) mod 2 ^ w).
  { unfold seq_distance, v, c. by rewrite <- Zminus_mod. }
  set (h := 2 ^ (w - 1)) in *.
  assert (Hh : 2 ^ w = 2 * h).
  { subst h. rewrite <- Z.pow_succ_r by lia. f_equal. lia. }
  assert (Hq : x / 2 ^ w = last / 2 ^ w - 1 \/ x / 2 ^ w = last / 2 ^ w \/
               x / 2 ^ w = last / 2 ^ w + 1) by nia.
  assert (Hlq : 0 <= last / 2 ^ w) by (apply Z.div_pos; lia).
  assert (Hxq : 0 <= x / 2 ^ w) by (apply Z.div_pos; lia).
  assert (Hm : (x - last) mod 2 ^ w = if last <=? x then x - last else x - last + 2 ^ w).
  { destruct (Z.leb_spec last x); [apply Z.mod_small; lia|].
    rewrite <- (Z.mod_add (x - last) 1) by lia. rewrite Z.mul_1_l. apply Z.mod_small. lia. }
  rewrite Hdist, Hm in Hn.
  assert (Hk : x - last = v - c - 2 ^ w \/ x - last = v - c \/ x - last = v - c + 2 ^ w) by nia.
  assert (Hs : sub_U w v c = v - c \/
               sub_U w v c = if c <=? v then v - c else v - c + 2 ^ w).
  { unfold sub_U. destruct (w <? 32); [by left | right].
    destruct (Z.leb_spec c v); [apply Z.mod_small; lia|].
    rewrite <- (Z.mod_add (v - c) 1) by lia. rewrite Z.mul_1_l. apply Z.mod_small. lia. }
  clear Hq Hlq Hxq Ex El Hdist Hm. clearbody v c h. rewrite Hh in *.
  destruct (IsNewer w v c) eqn:En.
  - assert (last < x) by (destruct (Z.leb_spec last x); lia).
    destruct (Z.ltb_spec (sub_U w v c) 0); destruct (Z.leb_spec c v); lia.
  - assert (x <= last).
    { destruct (Z.leb_spec last x); [|lia].
      destruct (Z.eq_dec x last); [lia|]. discriminate (proj2 Hn). lia. }
    destruct (Z.ltb_spec 0 (sub_U w v c));
      destruct (Z.leb_spec 0 (last + sub_U w v c - 2 * h));
      destruct (Z.leb_spec c v); cbn [andb]; lia.
Qed.

Lemma Unwrap_recovers_witness :
  Unwrap 16 (Some 65530) 3 = (65539, Some 65539) /\
  Unwrap 32 (Some 4294967300) 4294967290 = (4294967290, Some 4294967290).
Proof.
  split.
  - apply (Unwrap_recovers 16 65530 65539); (by left) || lia.
  - apply (Unwrap_recovers 32 4294967300 4294967290); (by right) || lia.
Defined.

(** ** get_rtcp_length *)

(** [get_rtcp_length] is four times the big-endian length field modulo
    2^16: it is the number of bytes after the first word only for packets
    below 64 KiB, and it never counts the word of the header itself. *)
Lemma get_rtcp_length_spec b0 b1 b2 b3 r h :
  is_byte b2 -> is_byte b3 -> rtcp_header (b0 :: b1 :: b2 :: b3 :: r) = Ok h ->
  get_rtcp_length h = (4 * (256 * b2 + b3)) mod 65536.
Proof.
  intros H2 H3. rewrite rtcp_header_ok. intros [= <-]. unfold get_rtcp_length, u16. cbn [length_].
  unfold ByteOrder.NetworkToHost16. change 2%nat with (length [b2; b3]).
  rewrite ByteOrder.bswap_le_load by (constructor; [done | by constructor]).
  unfold ByteOrder.be_load. cbn. f_equal. lia.
Qed.
