(* ===== verification/PortMgr.v ===== *)
(** * signaling/port_mgr.{h,cpp}: [UdpPortManager]

    Hands out the UDP ports of the room members.  [_port_array] is consumed
    from the front; recycled ports collect in [_port_array_rec] and refill the
    array when it is used up. *)
From S2P Require Import Prelude.
Local Open Scope Z_scope.

Record UdpPortManager := mkPortManager {
  _port_array : option (list Z);
  _port_array_rec : option (list Z);
  _max : Z;
  _curr : Z;
  _recycle : Z;
}.

(** The default member initialisers. *)
Definition create : UdpPortManager := mkPortManager None None 0 0 0.

(** The ports [start + i * step], as [unsigned]. *)
Definition port_range (start step len : Z) : list Z :=
  (fun i : nat => u32 (start + Z.of_nat i * step)) <$> seq 0 (Z.to_nat len).

(** [init]; C++ division truncates and faults on zero.  Neither the message
    on [cerr] nor [_recycle] depends on the result. *)
Definition init (m : UdpPortManager) (start end_ step : Z) : res UdpPortManager :=
  _ ← require (negb (step =? 0)) DivByZero;
  let len := Z.quot (end_ - start) step in
  if 0 <? len
  then Ok (mkPortManager (Some (port_range start step len))
             (Some (replicate (Z.to_nat len) 0)) len 0 (_recycle m))
  else Ok (mkPortManager (_port_array m) (_port_array_rec m) len 0 (_recycle m)).

Definition array_get (a : option (list Z)) (i : Z) : res Z :=
  a ← from_opt NullDeref a; mem_get a i.

Definition array_set (a : option (list Z)) (i v : Z) : res (option (list Z)) :=
  a ← from_opt NullDeref a; Some <$> mem_write a i [v].

(** [for (i = 0; i < _recycle; ++i) _port_array[--_curr] = _port_array_rec[i];] *)
Fixpoint refill (n : nat) (i : Z) (rec : option (list Z)) (arr : option (list Z)) (curr : Z)
    : res (option (list Z) * Z) :=
  match n with
  | O => Ok (arr, curr)
  | S n' =>
      v ← array_get rec i;
      arr ← array_set arr (curr - 1) v;
      refill n' (i + 1) rec arr (curr - 1)
  end.

Definition allocate_port (m : UdpPortManager) : res (Z * UdpPortManager) :=
  if (_max m <=? _curr m) && negb (0 <? _recycle m) then Ok (0, m)
  else
    m ← (if _max m <=? _curr m then
           '(arr, curr) ←
             refill (Z.to_nat (_recycle m)) 0 (_port_array_rec m) (_port_array m) (_curr m);
           Ok (mkPortManager arr (_port_array_rec m) (_max m) curr 0)
         else Ok m);
    port ← array_get (_port_array m) (_curr m);
    Ok (port, mkPortManager (_port_array m) (_port_array_rec m) (_max m) (_curr m + 1) (_recycle m)).

Definition recycle_port (m : UdpPortManager) (port : Z) : res UdpPortManager :=
  if _max m <=? _recycle m then Ok m
  else
    rec ← array_set (_port_array_rec m) (_recycle m) port;
    Ok (mkPortManager (_port_array m) rec (_max m) (_curr m) (_recycle m + 1)).

(** ** The ports are neither lost nor duplicated *)

(** [out] is the list of the ports handed out and not yet recycled. *)
Definition inv (ports : list Z) (m : UdpPortManager) (out : list Z) : Prop :=
  exists arr rec,
    _port_array m = Some arr /\ _port_array_rec m = Some rec /\
    zlen arr = _max m /\ zlen rec = _max m /\ zlen ports = _max m /\
    0 <= _curr m <= _max m /\ 0 <= _recycle m <= _max m /\
    drop (Z.to_nat (_curr m)) arr ++ take (Z.to_nat (_recycle m)) rec ++ out ≡ₚ ports.

Lemma inv_length ports m out :
  inv ports m out -> (_max m - _curr m) + _recycle m + zlen out = _max m.
Proof.
  intros (arr & rec & _ & _ & Ha & Hr & Hp & Hc & Hre & H).
  apply Permutation_length in H. rewrite !length_app, length_drop, length_take in H.
  unfold zlen in *. lia.
Qed.

(** Refilling from the end: the array's tail becomes the recycled ports,
    last one first. *)
Lemma refill_ok n i rec arr curr :
  0 <= i -> i + Z.of_nat n <= zlen rec -> Z.of_nat n <= curr <= zlen arr ->
  exists arr', refill n i (Some rec) (Some arr) curr = Ok (Some arr', curr - Z.of_nat n) /\
    zlen arr' = zlen arr /\
    drop (Z.to_nat (curr - Z.of_nat n)) arr' =
      rev (take n (drop (Z.to_nat i) rec)) ++ drop (Z.to_nat curr) arr.
Proof.
  revert i arr curr. induction n as [|n IH]; intros i arr curr Hi Hr Hc; cbn [refill].
  - exists arr. rewrite Z.sub_0_r. done.
  - destruct (mem_get_ok rec i ltac:(lia)) as [v Hv].
    cbn [array_get array_set from_opt mbind res_bind]. rewrite Hv. cbn [mbind res_bind].
    rewrite mem_write_ok by (unfold zlen; cbn; unfold zlen in *; lia). cbn [fmap res_fmap mbind res_bind].
    set (arr1 := take _ arr ++ _).
    assert (Hl1 : zlen arr1 = zlen arr).
    { subst arr1. unfold zlen in *. rewrite !length_app, length_take, length_drop. cbn. lia. }
    destruct (IH (i + 1) arr1 (curr - 1)) as (arr' & -> & Hl & Hd); [lia..|].
    exists arr'. split; [do 2 f_equal; lia|]. split; [lia|].
    replace (curr - Z.of_nat (S n)) with (curr - 1 - Z.of_nat n) by lia. rewrite Hd.
    apply mem_get_inv in Hv as [_ Hv].
    rewrite (drop_S _ _ _ Hv). cbn [take rev]. rewrite <- app_assoc.
    replace (Z.to_nat (i + 1)) with (S (Z.to_nat i)) by lia. f_equal. subst arr1.
    rewrite drop_app_length' by (rewrite length_take; unfold zlen in *; lia).
    cbn [length app]. do 2 f_equal. lia.
Qed.

(** Taking the next port of the array. *)
Lemma take_port_inv ports m out :
  inv ports m out -> _curr m < _max m ->
  exists p, array_get (_port_array m) (_curr m) = Ok p /\
    inv ports (mkPortManager (_port_array m) (_port_array_rec m) (_max m) (_curr m + 1)
      (_recycle m)) (p :: out).
Proof.
  intros (arr & rec & Ea & Er & Ha & Hr & Hp & Hc & Hre & H) Hlt.
  destruct (mem_get_ok arr (_curr m) ltac:(lia)) as [p Hg].
  exists p. rewrite Ea. cbn [array_get from_opt mbind res_bind]. split; [done|].
  exists arr, rec. cbn. split_and!; try done; [lia..|].
  rewrite <- H. apply mem_get_inv in Hg as [_ Hg].
  rewrite (drop_S _ _ _ Hg). replace (Z.to_nat (_curr m + 1)) with (S (Z.to_nat (_curr m))) by lia.
  cbn [app]. by rewrite !Permutation_middle.
Qed.

(** Refilling an exhausted array moves the recycled ports into it. *)
Lemma refill_inv ports m out :
  inv ports m out -> _max m <= _curr m ->
  exists arr curr,
    refill (Z.to_nat (_recycle m)) 0 (_port_array_rec m) (_port_array m) (_curr m) = Ok (arr, curr) /\
    curr = _max m - _recycle m /\
    inv ports (mkPortManager arr (_port_array_rec m) (_max m) curr 0) out.
Proof.
  intros (arr & rec & Ea & Er & Ha & Hr & Hp & Hc & Hre & H) Hge. rewrite Ea, Er.
  destruct (refill_ok (Z.to_nat (_recycle m)) 0 rec arr (_curr m)) as (arr' & -> & Hl & Hd);
    [lia..|].
  exists (Some arr'), (_curr m - Z.of_nat (Z.to_nat (_recycle m))).
  split; [done|]. split; [lia|]. exists arr', rec. cbn [_port_array _port_array_rec _max _curr _recycle].
  split_and!; try done; [lia..|].
  rewrite Hd, <- H, (drop_ge arr) by (unfold zlen in *; lia).
  change (take (Z.to_nat 0) rec) with (@nil Z). change (drop (Z.to_nat 0) rec) with rec.
  cbn [app]. by rewrite app_nil_r, <- Permutation_rev.
Qed.

(** Allocation fails, with 0, only when every port is handed out. *)
Lemma allocate_inv ports m out :
  inv ports m out ->
  exists p m', allocate_port m = Ok (p, m') /\
    ((zlen out = zlen ports /\ p = 0 /\ m' = m) \/
     (zlen out < zlen ports /\ inv ports m' (p :: out))).
Proof.
  intros Hi. pose proof (inv_length _ _ _ Hi) as Hlen.
  assert (Hb : 0 <= _curr m <= _max m /\ 0 <= _recycle m /\ zlen ports = _max m)
    by (destruct Hi as (? & ? & ? & ? & ? & ? & ? & ? & ? & ?); lia).
  unfold allocate_port. destruct (Z.leb_spec (_max m) (_curr m)) as [Hge|Hlt]; cbn [andb].
  - destruct (Z.ltb_spec 0 (_recycle m)); cbn [negb].
    + destruct (refill_inv _ _ _ Hi Hge) as (arr & curr & -> & -> & Hi1).
      cbn [mbind res_bind]. destruct (take_port_inv _ _ _ Hi1) as (p & Hg & Hi2); [cbn; lia|].
      cbn [_port_array _port_array_rec _max _curr _recycle] in *. rewrite Hg.
      cbn [mbind res_bind]. eexists _, _. split; [done|]. right. split; [lia | done].
    + eexists _, _. split; [done|]. left. split_and!; [lia | done | done].
  - destruct (take_port_inv _ _ _ Hi Hlt) as (p & Hg & Hi2). cbn [mbind res_bind].
    rewrite Hg. cbn [mbind res_bind]. eexists _, _. split; [done|]. right. split; [lia | done].
Qed.

Lemma recycle_inv ports m out p out' :
  inv ports m out -> out ≡ₚ p :: out' ->
  exists m', recycle_port m p = Ok m' /\ inv ports m' out'.
Proof.
  intros Hi Hout. pose proof (inv_length _ _ _ Hi) as Hlen.
  pose proof (Permutation_length Hout) as Hl. cbn in Hl.
  destruct Hi as (arr & rec & Ea & Er & Ha & Hr & Hp & Hc & Hre & H).
  unfold recycle_port. rewrite (proj2 (Z.leb_gt (_max m) (_recycle m))) by (unfold zlen in *; lia).
  rewrite Er. cbn [array_set from_opt mbind res_bind].
  assert (_recycle m < _max m) by (unfold zlen in *; lia).
  rewrite mem_write_ok by (unfold zlen; cbn; unfold zlen in *; lia). cbn [fmap res_fmap mbind res_bind].
  eexists. split; [done|]. eexists arr, _.
  cbn [_port_array _port_array_rec _max _curr _recycle]. split_and!; try done; [| lia..|].
  - unfold zlen in *. rewrite !length_app, length_take, length_drop. cbn. lia.
  - rewrite <- H, Hout. replace (Z.to_nat (_recycle m + 1)) with (S (Z.to_nat (_recycle m))) by lia.
    rewrite (app_assoc _ [p]), (take_app_length' (_ ++ [p]))
      by (rewrite length_app, length_take; unfold zlen in *; cbn; lia).
    by rewrite <- !app_assoc.
Qed.

(** ** Histories *)

(** A client allocates, or gives back the [k]-th of the ports it holds. *)
Inductive op := Allocate | Recycle (k : nat).

(** The ports held after each operation, the results of the allocations. *)
Fixpoint run (m : UdpPortManager) (out : list Z) (ops : list op)
    : res (list Z * list Z * UdpPortManager) :=
  match ops with
  | [] => Ok ([], out, m)
  | Allocate :: ops' =>
      '(p, m') ← allocate_port m;
      '(ps, out', m'') ← run m' (if p =? 0 then out else p :: out) ops';
      Ok (p :: ps, out', m'')
  | Recycle k :: ops' =>
      match out !! k with
      | Some p => m' ← recycle_port m p; run m' (delete k out) ops'
      | None => run m out ops'
      end
  end.

Lemma port_run_inv ports ops m out :
  Forall (fun p => p <> 0) ports -> inv ports m out ->
  exists ps out' m', run m out ops = Ok (ps, out', m') /\ inv ports m' out'.
Proof.
  intros Hz. revert m out. induction ops as [|[|k] ops IH]; intros m out Hi; cbn [run]; [eauto|..].
  - destruct (allocate_inv _ _ _ Hi) as (p & m' & -> & Hp). cbn [mbind res_bind].
    destruct Hp as [(_ & -> & ->)|[_ Hp]].
    + destruct (IH _ _ Hi) as (ps & out' & m' & Hr & ?). cbn. rewrite Hr. cbn. eauto.
    + assert (p <> 0).
      { destruct Hp as (? & ? & _ & _ & _ & _ & _ & _ & _ & H).
        rewrite list.Forall_forall in Hz. apply Hz. rewrite <- H, !elem_of_app, elem_of_cons. auto. }
      rewrite (proj2 (Z.eqb_neq p 0)) by done.
      destruct (IH _ _ Hp) as (ps & out' & m'' & -> & ?). cbn. eauto.
  - destruct (out !! k) as [p|] eqn:E; [|by apply IH].
    destruct (recycle_inv ports m out p (delete k out) Hi) as (m' & -> & Hi').
    { by apply delete_Permutation. }
    cbn [mbind res_bind]. by apply IH.
Qed.

Lemma port_range_nodup start step len :
  0 < step -> 0 <= start -> start + len * step <= 4294967296 -> NoDup (port_range start step len).
Proof.
  intros Hs Hst Hm. unfold port_range. apply NoDup_fmap_2_strong; [|apply NoDup_seq].
  intros i j [_ Hi]%elem_of_seq [_ Hj]%elem_of_seq. rewrite !u32_small by nia. nia.
Qed.

Lemma init_inv start end_ step m :
  0 < step -> start + step <= end_ -> init create start end_ step = Ok m ->
  inv (port_range start step ((end_ - start) / step)) m [].
Proof.
  intros Hs He. unfold init. rewrite (proj2 (Z.eqb_neq step 0)) by lia. cbn [negb require mbind res_bind].
  rewrite Z.quot_div_nonneg by lia.
  assert (1 <= (end_ - start) / step).
  { apply Z.div_le_lower_bound; lia. }
  rewrite (proj2 (Z.ltb_lt 0 _)) by lia. intros [= <-].
  eexists _, _. cbn. split_and!; try done; try lia;
    unfold zlen, port_range; rewrite ?length_fmap, ?length_seq, ?length_replicate; try lia.
  by rewrite app_nil_r, drop_0.
Qed.

(** C39. For every history of a client that gives back only ports it holds, no
    port is handed out twice at a time, every port handed out is one of
    [start], [start + step], ... below [end], and [allocate_port] answers 0
    exactly when all of them are out; no array access leaves its bounds. *)
Theorem ports_unique start end_ step ops m :
  0 < start -> 0 < step -> start + step <= end_ < 65536 ->
  init create start end_ step = Ok m ->
  exists ps out m', run m [] ops = Ok (ps, out, m') /\
    NoDup out /\
    Forall (fun p => exists i, 0 <= i < (end_ - start) / step /\ p = start + i * step) out /\
    exists p m'', allocate_port m' = Ok (p, m'') /\
      (p = 0 <-> zlen out = (end_ - start) / step).
Proof.
  intros Hst Hs He Hinit. set (len := (end_ - start) / step).
  assert (Hlen : len * step <= end_ - start).
  { subst len. rewrite Z.mul_comm. apply Z.mul_div_le. lia. }
  assert (Hl0 : 0 <= len) by (apply Z.div_pos; lia).
  assert (Hel : forall p, p ∈ port_range start step len ->
            exists i, 0 <= i < len /\ p = start + i * step).
  { intros p (i & -> & [_ Hi]%elem_of_seq)%list_elem_of_fmap. exists (Z.of_nat i).
    split; [lia|]. rewrite u32_small; nia. }
  assert (Hz : Forall (fun p => p <> 0) (port_range start step len)).
  { apply list.Forall_forall. intros p (i & ? & ->)%Hel. nia. }
  destruct (port_run_inv _ ops m [] Hz (init_inv start end_ step m Hs ltac:(lia) Hinit)) as (ps & out & m' & Hr & Hi).
  exists ps, out, m'. split; [done|].
  assert (Hout : exists fr, fr ++ out ≡ₚ port_range start step len).
  { destruct Hi as (arr & rec & _ & _ & _ & _ & _ & _ & _ & H).
    eexists (_ ++ _). rewrite <- app_assoc. exact H. }
  destruct Hout as [fr Hout].
  pose proof (port_range_nodup start step len Hs ltac:(lia) ltac:(lia)) as Hnd.
  rewrite <- Hout in Hnd. apply list.NoDup_app in Hnd as (_ & _ & Hnd).
  split; [done|]. split.
  { apply list.Forall_forall. intros p Hp. apply Hel. rewrite <- Hout. apply elem_of_app. auto. }
  assert (Hzl : zlen (port_range start step len) = len).
  { unfold zlen, port_range. rewrite length_fmap, length_seq. lia. }
  destruct (allocate_inv _ _ _ Hi) as (p & m'' & Ha & Hp). rewrite Hzl in Hp.
  exists p, m''. split; [done|]. destruct Hp as [(? & -> & _)|[Hlt Hp]]; [done|].
  split; [|lia]. intros ->. exfalso.
  destruct Hp as (? & ? & _ & _ & _ & _ & _ & _ & _ & H).
  rewrite list.Forall_forall in Hz. apply (Hz 0); [|done].
  rewrite <- H, !elem_of_app, elem_of_cons. auto.
Qed.

Lemma ports_unique_witness :
  exists m, init create 10000 10003 1 = Ok m /\
    exists ps out m', run m [] [Allocate; Allocate; Recycle 1; Allocate; Allocate] = Ok (ps, out, m') /\
      NoDup out /\
      Forall (fun p => exists i, 0 <= i < (10003 - 10000) / 1 /\ p = 10000 + i * 1) out /\
      exists p m'', allocate_port m' = Ok (p, m'') /\ (p = 0 <-> zlen out = (10003 - 10000) / 1).
Proof.
  eexists. split; [reflexivity|].
  apply (ports_unique 10000 10003 1); [lia | lia | lia | reflexivity].
Defined.

(** When the ports run out the answer is 0, and a caller that gives this 0
    back, as [RoomMember] does, fills the place of a real port: the port 10000
    returned next is rejected and lost, and 0 is handed out as if it were a
    port. *)
Theorem zero_port_displaces :
  exists m m1 m2 m3,
    init create 10000 10001 1 = Ok m /\
    allocate_port m = Ok (10000, m1) /\ allocate_port m1 = Ok (0, m1) /\
    recycle_port m1 0 = Ok m2 /\ recycle_port m2 10000 = Ok m2 /\
    allocate_port m2 = Ok (0, m3) /\ _port_array m3 = Some [0].
Proof. do 4 eexists. repeat (split; [reflexivity|]). reflexivity. Qed.
