(* ===== verification/StringEncode.v ===== *)
(** * rtc_base/string_encode.cc: hexadecimal, tokenizing, joining

    The encoder writes through an index into a preallocated buffer and the
    decoder into a buffer of the caller's size; both are modelled with their
    writes checked against the bounds. *)
From S2P Require Import Prelude.
From S2P Require SUtil.
Local Open Scope Z_scope.

(** ** Hexadecimal *)

Definition HEX : bytes := lit "0123456789abcdef".

(** [hex_encode(unsigned char)]. *)
Definition hex_char (val : Z) : Z := if val <? 16 then default 0 (HEX !! Z.to_nat val) else 33.

(** [hex_decode(char, unsigned char* )]. *)
Definition hex_digit (ch : Z) : option Z :=
  if (48 <=? ch) && (ch <=? 57) then Some (ch - 48)
  else if (65 <=? ch) && (ch <=? 70) then Some (ch - 65 + 10)
  else if (97 <=? ch) && (ch <=? 102) then Some (ch - 97 + 10)
  else None.

Definition hex_encode_output_length (srclen delimiter : Z) : Z :=
  if negb (delimiter =? 0) && (0 <? srclen) then srclen * 3 - 1 else srclen * 2.

(** The loop of [hex_encode_with_delimiter]; [src] is the source from
    [srcpos] on. *)
Fixpoint hex_encode_loop (buffer : bytes) (bufpos : Z) (src : bytes) (delimiter : Z) : res bytes :=
  match src with
  | [] => Ok buffer
  | ch :: rest =>
      buffer ← mem_write buffer bufpos [hex_char (Z.land (Z.shiftr ch 4) 15)];
      buffer ← mem_write buffer (bufpos + 1) [hex_char (Z.land ch 15)];
      if negb (delimiter =? 0) && (0 <? zlen rest)
      then buffer ← mem_write buffer (bufpos + 2) [delimiter];
           hex_encode_loop buffer (bufpos + 3) rest delimiter
      else hex_encode_loop buffer (bufpos + 2) rest delimiter
  end.

Definition hex_encode_with_delimiter (source : bytes) (delimiter : Z) : res bytes :=
  hex_encode_loop
    (replicate (Z.to_nat (hex_encode_output_length (zlen source) delimiter)) 0) 0 source delimiter.

Definition hex_encode (str : bytes) : res bytes := hex_encode_with_delimiter str 0.

(** The loop of [hex_decode_with_delimiter]: [None] is [return 0]; a write at
    or past [buflen] faults. *)
Fixpoint hex_decode_loop (buflen : Z) (src : bytes) (delimiter : Z) (out : bytes)
    : res (option bytes) :=
  match src with
  | [] => Ok (Some out)
  | [_] => Ok None
  | a :: b :: rest =>
      match hex_digit a, hex_digit b with
      | Some h1, Some h2 =>
          _ ← require (zlen out <? buflen) OutOfBounds;
          let out := out ++ [Z.lor (Z.shiftl h1 4) h2] in
          match rest with
          | c :: ((_ :: _) as rest') =>
              if negb (delimiter =? 0)
              then if c =? delimiter then hex_decode_loop buflen rest' delimiter out
                   else Ok None
              else hex_decode_loop buflen rest delimiter out
          | _ => hex_decode_loop buflen rest delimiter out
          end
      | _, _ => Ok None
      end
  end.

(** The bytes decoded, [[]] for a result of 0. *)
Definition hex_decode_with_delimiter (buflen : Z) (source : bytes) (delimiter : Z) : res bytes :=
  if buflen =? 0 then Ok []
  else
    let srclen := zlen source in
    let needed := if negb (delimiter =? 0) then (srclen + 1) / 3 else srclen / 2 in
    if buflen <? needed then Ok []
    else default [] <$> hex_decode_loop buflen source delimiter [].

Definition hex_decode (buflen : Z) (source : bytes) : res bytes :=
  hex_decode_with_delimiter buflen source 0.

(** ** Fields *)

(** The loops of [tokenize] and [split]; [keep_empty] tells them apart. *)
Fixpoint fields_loop (n : nat) (keep_empty : bool) (source : bytes) (delimiter i last : Z)
    (fields : list bytes) : res (Z * list bytes) :=
  match n with
  | O => Ok (last, fields)
  | S n' =>
      c ← mem_get source i;
      if c =? delimiter then
        fields ← (if keep_empty || negb (i =? last)
                  then (fun f => fields ++ [f]) <$> substr source last (i - last)
                  else Ok fields);
        fields_loop n' keep_empty source delimiter (i + 1) (i + 1) fields
      else fields_loop n' keep_empty source delimiter (i + 1) last fields
  end.

Definition tokenize (source : bytes) (delimiter : Z) : res (list bytes) :=
  '(last, fields) ← fields_loop (length source) false source delimiter 0 0 [];
  if negb (last =? zlen source)
  then (fun f => fields ++ [f]) <$> substr source last (zlen source - last)
  else Ok fields.

Definition split (source : bytes) (delimiter : Z) : res (list bytes) :=
  '(last, fields) ← fields_loop (length source) true source delimiter 0 0 [];
  (fun f => fields ++ [f]) <$> substr_from source last.

(** [while (right_pos < size && source[right_pos] == delimiter) right_pos++]. *)
Fixpoint skip_run (n : nat) (source : bytes) (delimiter right_pos : Z) : res Z :=
  match n with
  | O => Ok right_pos
  | S n' =>
      if right_pos <? zlen source then
        c ← mem_get source right_pos;
        if c =? delimiter then skip_run n' source delimiter (right_pos + 1) else Ok right_pos
      else Ok right_pos
  end.

Definition tokenize_first (source : bytes) (delimiter : Z) : res (option (bytes * bytes)) :=
  match find_from [delimiter] source 0 with
  | None => Ok None
  | Some left_pos =>
      right_pos ← skip_run (length source) source delimiter (left_pos + 1);
      token ← substr source 0 left_pos;
      rest ← substr_from source right_pos;
      Ok (Some (token, rest))
  end.

(** [for (i = 0; i < size; ++i)] with the delimiter before all but the first. *)
Fixpoint join_loop (i : nat) (source : list bytes) (delimiter : Z) (joined : bytes) : bytes :=
  match source with
  | [] => joined
  | s :: rest =>
      let joined := match i with O => joined | _ => joined ++ [delimiter] end in
      join_loop (S i) rest delimiter (joined ++ s)
  end.

Definition join (source : list bytes) (delimiter : Z) : bytes :=
  match source with [] => [] | _ => join_loop 0 source delimiter [] end.

(** [snprintf] of the integer types, and of [bool]. *)
Definition ToString (z : Z) : bytes := dec z.
Definition ToString_bool (b : bool) : bytes := if b then lit "true" else lit "false".
Definition FromString_bool (s : bytes) : option bool :=
  if bool_decide (s = lit "false") then Some false
  else if bool_decide (s = lit "true") then Some true
  else None.

(** ** Hexadecimal round trip *)

Definition hex_pair (b : Z) : bytes := [hex_char (Z.land (Z.shiftr b 4) 15); hex_char (Z.land b 15)].

(** What the encoder writes. *)
Definition hex_text (source : bytes) (delimiter : Z) : bytes :=
  if delimiter =? 0 then source ≫= hex_pair
  else SUtil.join [delimiter] (hex_pair <$> source).

Lemma hex_text_cons b r d :
  hex_text (b :: r) d =
    hex_pair b ++ (if negb (d =? 0) && (0 <? zlen r) then [d] else []) ++ hex_text r d.
Proof.
  unfold hex_text. destruct (d =? 0); [done|]. cbn [negb andb].
  destruct r as [|c r]; [done|].
  rewrite (proj2 (Z.ltb_lt _ _)) by (rewrite zlen_cons; pose proof (zlen_nonneg r); lia).
  rewrite fmap_cons, SUtil.join_cons by done. done.
Qed.

Lemma zlen_hex_text src d : zlen (hex_text src d) = hex_encode_output_length (zlen src) d.
Proof.
  induction src as [|b r IH].
  - unfold hex_text, hex_encode_output_length. by destruct (d =? 0).
  - rewrite hex_text_cons, !zlen_app, IH, zlen_cons. unfold hex_encode_output_length.
    pose proof (zlen_nonneg r). change (zlen (hex_pair b)) with 2.
    rewrite (proj2 (Z.ltb_lt 0 (1 + zlen r))) by lia.
    destruct (negb (d =? 0)); cbn [andb]; [|rewrite zlen_nil; lia].
    destruct (Z.ltb_spec 0 (zlen r)); [change (zlen [d]) with 1|rewrite zlen_nil]; lia.
Qed.

(** Writing a byte at the end of a prefix replaces the head of the rest. *)
Lemma mem_write_next (pre rest : bytes) x v off :
  off = zlen pre -> mem_write (pre ++ x :: rest) off [v] = Ok ((pre ++ [v]) ++ rest).
Proof.
  intros ->. change (x :: rest) with ([x] ++ rest). rewrite mem_write_mid by done.
  by rewrite <- app_assoc.
Qed.

Lemma zlen_cons_inv {A} (l : list A) : 0 < zlen l -> exists x l', l = x :: l' /\ zlen l' = zlen l - 1.
Proof.
  destruct l as [|x l]; [done|]. intros _. exists x, l. rewrite zlen_cons. split; [done | lia].
Qed.

Lemma hex_encode_loop_ok src d pre rest off :
  zlen rest = zlen (hex_text src d) -> off = zlen pre ->
  hex_encode_loop (pre ++ rest) off src d = Ok (pre ++ hex_text src d).
Proof.
  revert pre rest off. induction src as [|b r IH]; intros pre rest off Hl ->.
  - assert (rest = []) as ->; [|cbn; unfold hex_text; by destruct (d =? 0)].
    apply nil_length_inv. unfold hex_text, zlen in *. destruct (d =? 0); cbn in Hl; lia.
  - rewrite hex_text_cons in *. cbn [hex_encode_loop].
    rewrite !zlen_app in Hl. change (zlen (hex_pair b)) with 2 in Hl.
    pose proof (zlen_nonneg (hex_text r d)).
    set (sep := negb (d =? 0) && (0 <? zlen r)) in *.
    assert (0 <= zlen (if sep then [d] else [])) by apply zlen_nonneg.
    destruct (zlen_cons_inv rest) as (x & rest1 & -> & H1); [lia|].
    destruct (zlen_cons_inv rest1) as (y & rest2 & -> & H2); [lia|].
    rewrite mem_write_next by done. cbn [mbind res_bind].
    rewrite mem_write_next by (autorewrite with zlen; lia). cbn [mbind res_bind].
    destruct sep.
    + change (zlen [d]) with 1 in *. destruct (zlen_cons_inv rest2) as (z & rest3 & -> & H3); [lia|].
      rewrite mem_write_next by (autorewrite with zlen; lia). cbn [mbind res_bind].
      rewrite IH; [|lia | autorewrite with zlen; lia]. by rewrite <- !app_assoc.
    + rewrite (@zlen_nil Z) in *. rewrite IH; [|lia | autorewrite with zlen; lia].
      by rewrite <- !app_assoc.
Qed.

Lemma hex_encode_ok src d : hex_encode_with_delimiter src d = Ok (hex_text src d).
Proof.
  unfold hex_encode_with_delimiter. rewrite <- zlen_hex_text.
  apply (hex_encode_loop_ok src d []); [|done].
  unfold zlen at 1. rewrite length_replicate. pose proof (zlen_nonneg (hex_text src d)). lia.
Qed.

Definition decode_pair (p : bytes) : option Z :=
  match p with
  | [a; b] => match hex_digit a, hex_digit b with
              | Some h1, Some h2 => Some (Z.lor (Z.shiftl h1 4) h2)
              | _, _ => None
              end
  | _ => None
  end.

Lemma decode_hex_pair : forall b, is_byte b ->
  bool_decide (decode_pair (hex_pair b) = Some b) = true.
Proof. by_bytes. Qed.

Lemma hex_decode_loop_ok buflen src d out :
  wf_bytes src -> zlen out + zlen src <= buflen ->
  hex_decode_loop buflen (hex_text src d) d out = Ok (Some (out ++ src)).
Proof.
  intros Hwf. revert out. induction Hwf as [|b r Hb Hwf IH]; intros out Hl.
  - unfold hex_text. destruct (d =? 0); cbn; by rewrite app_nil_r.
  - rewrite zlen_cons in Hl. rewrite hex_text_cons.
    pose proof (decode_hex_pair b Hb) as Hp. apply bool_decide_eq_true in Hp.
    unfold decode_pair, hex_pair in Hp.
    unfold hex_pair. cbn [app hex_decode_loop].
    destruct (hex_digit (hex_char (Z.land (Z.shiftr b 4) 15))) as [h1|]; [|done].
    destruct (hex_digit (hex_char (Z.land b 15))) as [h2|]; [|done]. injection Hp as ->.
    pose proof (zlen_nonneg r). rewrite (proj2 (Z.ltb_lt (zlen out) buflen)) by lia.
    cbn [require mbind res_bind].
    specialize (IH (out ++ [b])). rewrite <- app_assoc in IH. cbn [app] in IH.
    rewrite zlen_app in IH. change (zlen [b]) with 1 in IH. specialize (IH ltac:(lia)).
    destruct r as [|b2 r]; [cbn; rewrite andb_false_r; cbn; unfold hex_text in *; by destruct (d =? 0)|].
    rewrite (proj2 (Z.ltb_lt 0 (zlen (b2 :: r)))) by (rewrite zlen_cons; pose proof (zlen_nonneg r); lia).
    rewrite andb_true_r. rewrite hex_text_cons in *. unfold hex_pair in *. cbn [app] in *.
    destruct (d =? 0) eqn:Ed; cbn [negb app andb] in *; rewrite ?Z.eqb_refl; exact IH.
Qed.

(** Hexadecimal text decodes to the bytes it was made of, for every
    delimiter (none, or any character between the bytes), whenever the
    caller's buffer has room for them; the encoder never writes outside the
    buffer it sized. *)
Theorem hex_delimited_roundtrip src d buflen :
  wf_bytes src -> zlen src <= buflen ->
  exists text, hex_encode_with_delimiter src d = Ok text /\
    zlen text = hex_encode_output_length (zlen src) d /\
    hex_decode_with_delimiter buflen text d = Ok src.
Proof.
  intros Hwf Hl. exists (hex_text src d). split; [apply hex_encode_ok|].
  split; [apply zlen_hex_text|]. unfold hex_decode_with_delimiter.
  pose proof (zlen_nonneg src). destruct (Z.eqb_spec buflen 0) as [->|].
  { f_equal. symmetry. apply nil_length_inv. unfold zlen in *. lia. }
  rewrite zlen_hex_text.
  match goal with |- context [buflen <? ?n] => assert (n <= buflen) as Hn end.
  { unfold hex_encode_output_length. destruct (negb (d =? 0)); cbn [andb];
      [destruct (0 <? zlen src)|]; apply Z.div_le_upper_bound; lia. }
  rewrite (proj2 (Z.ltb_ge _ _)) by exact Hn.
  by rewrite hex_decode_loop_ok by (done || (rewrite zlen_nil; lia)).
Qed.

Lemma hex_delimited_roundtrip_witness :
  exists text, hex_encode_with_delimiter [10; 255; 0] (chr ":") = Ok text /\
    zlen text = hex_encode_output_length 3 (chr ":") /\
    hex_decode_with_delimiter 64 text (chr ":") = Ok [10; 255; 0].
Proof.
  apply (hex_delimited_roundtrip [10; 255; 0] (chr ":") 64); [|vm_compute; discriminate].
  repeat (constructor; [unfold is_byte; lia|]). constructor.
Defined.

(** Room the decoder needs for a text of [n] characters. *)
Definition needed (d n : Z) : Z := if negb (d =? 0) then (n + 1) / 3 else n / 2.

Lemma needed_nonneg d n : 0 <= n -> 0 <= needed d n.
Proof. intros. unfold needed. case_match; apply Z.div_pos; lia. Qed.

Lemma needed_step d n k :
  2 <= n -> (if negb (d =? 0) then 3 <= k \/ n - k <= 1 /\ 2 <= k else 2 <= k) -> 0 <= n - k ->
  1 + needed d (n - k) <= needed d n.
Proof.
  intros Hn Hk Hnk. unfold needed. destruct (negb (d =? 0)).
  - pose proof (Z.div_mod (n + 1) 3). pose proof (Z.mod_pos_bound (n + 1) 3).
    pose proof (Z.div_mod (n - k + 1) 3). pose proof (Z.mod_pos_bound (n - k + 1) 3). lia.
  - pose proof (Z.div_mod n 2). pose proof (Z.mod_pos_bound n 2).
    pose proof (Z.div_mod (n - k) 2). pose proof (Z.mod_pos_bound (n - k) 2). lia.
Qed.

(** Whatever the text, the decoder stays inside the caller's buffer. *)
Lemma hex_decode_loop_bounded buflen d n : forall src out,
  (length src <= n)%nat -> zlen out + needed d (zlen src) <= buflen ->
  exists r, hex_decode_loop buflen src d out = Ok r /\
    match r with Some o => zlen o <= buflen | None => True end.
Proof.
  induction n as [|n IH]; intros src out Hn Hb.
  - destruct src; [|cbn in Hn; lia]. eexists. split; [done|].
    pose proof (needed_nonneg d 0 ltac:(lia)). change (zlen (@nil Z)) with 0 in Hb. cbn. lia.
  - destruct src as [|a [|b rest]]; [|by eexists|].
    + eexists. split; [done|]. pose proof (needed_nonneg d 0 ltac:(lia)). change (zlen (@nil Z)) with 0 in Hb. cbn. lia.
    + cbn [hex_decode_loop]. destruct (hex_digit a) as [h1|]; [|by eexists].
      destruct (hex_digit b) as [h2|]; [|by eexists].
      rewrite !zlen_cons in Hb. pose proof (zlen_nonneg rest). cbn in Hn.
      pose proof (needed_nonneg d (zlen rest)).
      assert (zlen out < buflen).
      { enough (1 <= needed d (1 + (1 + zlen rest))) by lia. unfold needed.
        case_match; apply Z.div_le_lower_bound; lia. }
      rewrite (proj2 (Z.ltb_lt _ _)) by done. cbn [require mbind res_bind].
      assert (Hrec : forall k s, zlen s = 1 + (1 + zlen rest) - k -> (length s <= n)%nat ->
                (if negb (d =? 0) then 3 <= k \/ zlen s <= 1 /\ 2 <= k else 2 <= k) ->
                exists r, hex_decode_loop buflen s d (out ++ [Z.lor (Z.shiftl h1 4) h2]) = Ok r /\
                  match r with Some o => zlen o <= buflen | None => True end).
      { intros k s Hs Hls Hk. apply IH; [done|]. rewrite zlen_app. change (zlen [_]) with 1.
        pose proof (zlen_nonneg s).
        pose proof (needed_step d (1 + (1 + zlen rest)) k) as Hst. rewrite <- Hs in Hst.
        specialize (Hst ltac:(lia) Hk ltac:(lia)). lia. }
      destruct rest as [|c [|c2 rest]].
      * apply (Hrec 2); [done | cbn; lia |]. case_match; [right|]; done.
      * apply (Hrec 2); [done | cbn in *; lia |]. case_match; [right|]; done.
      * destruct (negb (d =? 0)) eqn:Ed.
        -- case_match; [|by eexists]. apply (Hrec 3); [rewrite !zlen_cons; lia | cbn in *; lia |]. lia.
        -- apply (Hrec 2); [lia | cbn in *; lia |]. lia.
Qed.

(** The decoder never writes past the caller's buffer, on any input text,
    malformed or truncated, for any delimiter and any buffer size. *)
Theorem hex_decode_in_bounds buflen source d :
  0 <= buflen ->
  exists out, hex_decode_with_delimiter buflen source d = Ok out /\ zlen out <= buflen.
Proof.
  intros Hb. unfold hex_decode_with_delimiter. destruct (Z.eqb_spec buflen 0).
  { eexists. split; [done|]. unfold zlen. cbn. lia. }
  fold (needed d (zlen source)). destruct (Z.ltb_spec buflen (needed d (zlen source))).
  { eexists. split; [done|]. unfold zlen. cbn. lia. }
  destruct (hex_decode_loop_bounded buflen d (length source) source []) as (r & -> & Hr);
    [done | change (zlen (@nil Z)) with 0; lia |].
  eexists. split; [done|]. destruct r; cbn; [done | unfold zlen; cbn; lia].
Qed.

Lemma hex_decode_in_bounds_witness :
  exists out, hex_decode_with_delimiter 2 (lit "AB:C") (chr ":") = Ok out /\ zlen out <= 2.
Proof. apply hex_decode_in_bounds. lia. Defined.

(** ** Fields *)

(** The maximal runs free of the delimiter; [cur] is the run being read. *)
Fixpoint pieces_from (cur : bytes) (d : Z) (s : bytes) : list bytes :=
  match s with
  | [] => [cur]
  | c :: s' => if c =? d then cur :: pieces_from [] d s' else pieces_from (cur ++ [c]) d s'
  end.

Lemma pieces_from_ne cur d s : pieces_from cur d s <> [].
Proof. revert cur. induction s as [|c s IH]; intros cur; cbn; [done|]. case_match; [done | apply IH]. Qed.

Lemma pieces_from_join cur d s : SUtil.join [d] (pieces_from cur d s) = cur ++ s.
Proof.
  revert cur. induction s as [|c s IH]; intros cur; cbn [pieces_from]; [by rewrite app_nil_r|].
  destruct (Z.eqb_spec c d) as [->|].
  - by rewrite SUtil.join_cons, IH by apply pieces_from_ne.
  - by rewrite IH, <- app_assoc.
Qed.

Lemma not_in_nil (d : Z) : d ∉ ([] : bytes).
Proof. intros H. by apply elem_of_nil in H. Qed.

Lemma pieces_from_free cur d s :
  d ∉ cur -> Forall (SUtil.free [d]) (pieces_from cur d s).
Proof.
  revert cur. induction s as [|c s IH]; intros cur Hc; cbn [pieces_from].
  - constructor; [by apply SUtil.free_char | constructor].
  - destruct (Z.eqb_spec c d).
    + constructor; [by apply SUtil.free_char|]. apply IH, not_in_nil.
    + apply IH. intros [?|Hin]%elem_of_app; [done|]. apply elem_of_cons in Hin as [->|Hin]; [done|]. by apply elem_of_nil in Hin.
Qed.

(** The empty pieces that are kept. *)
Definition kept (keep_empty : bool) (ps : list bytes) : list bytes :=
  if keep_empty then ps else SUtil.nonempty ps.

Lemma kept_cons k p ps :
  kept k (p :: ps) = (if k || negb (zlen p =? 0) then [p] else []) ++ kept k ps.
Proof.
  destruct k; [done|]. cbn [kept orb]. unfold SUtil.nonempty. destruct p as [|x p].
  - by rewrite filter_cons_False by naive_solver.
  - rewrite filter_cons_True by done. rewrite zlen_cons.
    rewrite (proj2 (Z.eqb_neq _ _)) by (pose proof (zlen_nonneg p); lia). done.
Qed.

(** The loop keeps every piece but the last, and leaves [last] at its start. *)
Lemma fields_loop_spec k d rest : forall a cur fields,
  exists b c ps, a ++ cur ++ rest = b ++ c /\ pieces_from cur d rest = ps ++ [c] /\
    fields_loop (length rest) k (a ++ cur ++ rest) d (zlen (a ++ cur)) (zlen a) fields =
      Ok (zlen b, fields ++ kept k ps).
Proof.
  induction rest as [|x rest IH]; intros a cur fields; cbn [length fields_loop pieces_from].
  - exists a, cur, []. rewrite app_nil_r. split; [done|]. split; [done|].
    destruct k; cbn; by rewrite app_nil_r.
  - assert (mem_get (a ++ cur ++ x :: rest) (zlen (a ++ cur)) = Ok x) as ->.
    { apply mem_get_inv. split; [apply zlen_nonneg|]. unfold zlen. rewrite Nat2Z.id, app_assoc.
      by apply list_lookup_middle. }
    cbn [mbind res_bind]. destruct (Z.eqb_spec x d) as [->|].
    + set (fields' := fields ++ (if k || negb (zlen cur =? 0) then [cur] else [])).
      destruct (IH (a ++ cur ++ [d]) [] fields') as (b & c & ps & Hbc & Hp & Hl).
      rewrite app_nil_r, <- !app_assoc in Hl. rewrite <- !app_assoc in Hbc. cbn [app] in Hbc, Hl.
      exists b, c, (cur :: ps). split; [done|]. split; [by rewrite Hp|].
      replace (zlen (a ++ cur) - zlen a) with (zlen cur) by (rewrite zlen_app; lia).
      replace (zlen (a ++ cur) =? zlen a) with (zlen cur =? 0)
        by (rewrite zlen_app; apply Bool.eq_iff_eq_true; rewrite !Z.eqb_eq; lia).
      rewrite (substr_mid a cur (d :: rest)) by done.
      replace (zlen (a ++ cur) + 1) with (zlen (a ++ cur ++ [d]))
        by (autorewrite with zlen; lia).
      rewrite kept_cons, (app_assoc fields). fold fields'. rewrite <- Hl.
      unfold fields'. destruct (k || negb (zlen cur =? 0)); cbn; [done|]. by rewrite app_nil_r.
    + destruct (IH a (cur ++ [x]) fields) as (b & c & ps & Hbc & Hp & Hl).
      rewrite <- !app_assoc in Hbc, Hl. cbn [app] in Hbc, Hl.
      exists b, c, ps. split; [done|]. split; [done|]. rewrite <- Hl. f_equal.
      autorewrite with zlen. lia.
Qed.

Definition pieces (d : Z) (s : bytes) : list bytes := pieces_from [] d s.

Lemma fields_loop_all k d s : exists b c ps, s = b ++ c /\ pieces d s = ps ++ [c] /\
  fields_loop (length s) k s d 0 0 [] = Ok (zlen b, kept k ps).
Proof. apply (fields_loop_spec k d s [] []). Qed.

Lemma split_ok s d : split s d = Ok (pieces d s).
Proof.
  destruct (fields_loop_all true d s) as (b & c & ps & Hs & Hp & Hl).
  unfold split. rewrite Hl. cbn [mbind res_bind]. rewrite Hs at 1.
  rewrite substr_from_app by done. cbn. by rewrite Hp.
Qed.

Lemma tokenize_ok s d : tokenize s d = Ok (SUtil.nonempty (pieces d s)).
Proof.
  destruct (fields_loop_all false d s) as (b & c & ps & Hs & Hp & Hl).
  unfold tokenize. rewrite Hl. cbn [mbind res_bind kept]. rewrite Hp.
  assert (Hc : zlen s - zlen b = zlen c) by (rewrite Hs, zlen_app; lia).
  unfold SUtil.nonempty. rewrite list.filter_app. destruct (Z.eqb_spec (zlen b) (zlen s)) as [E|E]; cbn [negb].
  - assert (c = []) as -> by (apply nil_length_inv; unfold zlen in *; lia).
    rewrite filter_cons_False by naive_solver. by rewrite app_nil_r.
  - rewrite Hc, Hs. rewrite <- (app_nil_r c) at 1. rewrite substr_mid by done. cbn [fmap res_fmap].
    rewrite filter_cons_True; [done|]. intros ->. change (zlen (@nil Z)) with 0 in Hc. lia.
Qed.

Lemma join_loop_spec i fs d acc :
  join_loop i fs d acc =
    acc ++ match i, fs with
           | _, [] => []
           | O, _ => SUtil.join [d] fs
           | S _, _ => d :: SUtil.join [d] fs
           end.
Proof.
  revert i acc. induction fs as [|f fs IH]; intros i acc; cbn [join_loop].
  - destruct i; by rewrite app_nil_r.
  - rewrite IH. destruct i, fs as [|g fs]; rewrite ?app_nil_r, <- ?app_assoc; done.
Qed.

Lemma join_ok fs d : join fs d = SUtil.join [d] fs.
Proof. unfold join. destruct fs; [done|]. by rewrite join_loop_spec. Qed.

(** [split] and [join] are inverse: the fields joined by the delimiter are
    the text, none of them contains it, and splitting a joined list of such
    fields gives the list back. *)
Theorem split_join_inverse s d fs :
  (exists ps, split s d = Ok ps /\ join ps d = s /\ Forall (fun p => d ∉ p) ps) /\
  (fs <> [] -> Forall (fun p => d ∉ p) fs -> split (join fs d) d = Ok fs).
Proof.
  split.
  - exists (pieces d s). split; [apply split_ok|]. split.
    + rewrite join_ok. apply (pieces_from_join []).
    + eapply Forall_impl; [|apply (pieces_from_free [] d s (not_in_nil d))].
      intros p. apply SUtil.free_char.
  - intros Hne Hf. rewrite split_ok, join_ok. f_equal.
    apply (SUtil.join_inj [d]); [apply SUtil.clean_char | apply pieces_from_ne | done | | |].
    + apply (pieces_from_free [] d _ (not_in_nil d)).
    + eapply Forall_impl; [|exact Hf]. intros p. apply SUtil.free_char.
    + apply (pieces_from_join []).
Qed.

Lemma split_join_inverse_witness :
  split (join [lit "a"; []; lit "bc"] 58) 58 = Ok [lit "a"; []; lit "bc"].
Proof.
  apply (split_join_inverse [] 58 [lit "a"; []; lit "bc"]); [discriminate|].
  repeat constructor; intros H; vm_compute in H;
    repeat (apply elem_of_cons in H as [H|H]; [discriminate|]); by apply elem_of_nil in H.
Defined.

(** The two tokenizers of the program agree: [SUtil::split] with a
    one-character splitter is [rtc::tokenize]. *)
Theorem tokenize_is_split s d :
  SUtil.addressable s -> SUtil.split s [d] = tokenize s d.
Proof.
  intros Ha. rewrite tokenize_ok.
  pose proof (SUtil.split_join [d] (pieces d s)) as Hs.
  unfold pieces in *. rewrite pieces_from_join in Hs.
  apply Hs; [apply SUtil.clean_char | apply pieces_from_ne | | exact Ha].
  apply pieces_from_free, not_in_nil.
Qed.

Lemma tokenize_is_split_witness :
  SUtil.split (lit "a::b") [58] = tokenize (lit "a::b") 58.
Proof. apply tokenize_is_split. reflexivity. Defined.
