(* ===== verification/MessageDigest.v ===== *)
(** * rtc_base/message_digest.cc and rtc_base/openssl_digest.cc

    Digests and HMACs by name.  OpenSSL's hash functions are the class [Evp];
    [OpenSSLDigest] is the incremental object, whose context is the bytes
    absorbed since it was last reset. *)
From S2P Require Import Prelude.
From S2P Require StringEncode.
Local Open Scope Z_scope.

Definition DIGEST_MD5 : bytes := lit "md5".
Definition DIGEST_SHA_1 : bytes := lit "sha-1".
Definition DIGEST_SHA_224 : bytes := lit "sha-224".
Definition DIGEST_SHA_256 : bytes := lit "sha-256".
Definition DIGEST_SHA_384 : bytes := lit "sha-384".
Definition DIGEST_SHA_512 : bytes := lit "sha-512".

Definition kBlockSize : Z := 64.
Definition kMaxSize : Z := 64.

(** The [EVP_MD] objects the code asks OpenSSL for. *)
Inductive EVP_MD := EVP_md5 | EVP_sha1 | EVP_sha224 | EVP_sha256 | EVP_sha384 | EVP_sha512.

#[export] Instance EVP_MD_eq_dec : EqDecision EVP_MD.
Proof. solve_decision. Defined.

(** The documented output sizes. *)
Definition EVP_MD_size (md : EVP_MD) : Z :=
  match md with
  | EVP_md5 => 16 | EVP_sha1 => 20 | EVP_sha224 => 28
  | EVP_sha256 => 32 | EVP_sha384 => 48 | EVP_sha512 => 64
  end.

(** What the code relies on: a hash function per algorithm, of that size. *)
Class Evp := {
  evp_hash : EVP_MD -> bytes -> bytes;
  evp_size : forall md s, zlen (evp_hash md s) = EVP_MD_size md;
  evp_wf : forall md s, wf_bytes (evp_hash md s);
}.

Definition GetDigestEVP (algorithm : bytes) : option EVP_MD :=
  if bool_decide (algorithm = DIGEST_MD5) then Some EVP_md5
  else if bool_decide (algorithm = DIGEST_SHA_1) then Some EVP_sha1
  else if bool_decide (algorithm = DIGEST_SHA_224) then Some EVP_sha224
  else if bool_decide (algorithm = DIGEST_SHA_256) then Some EVP_sha256
  else if bool_decide (algorithm = DIGEST_SHA_384) then Some EVP_sha384
  else if bool_decide (algorithm = DIGEST_SHA_512) then Some EVP_sha512
  else None.

Definition GetDigestName (md : EVP_MD) : bytes :=
  match md with
  | EVP_md5 => DIGEST_MD5 | EVP_sha1 => DIGEST_SHA_1 | EVP_sha224 => DIGEST_SHA_224
  | EVP_sha256 => DIGEST_SHA_256 | EVP_sha384 => DIGEST_SHA_384 | EVP_sha512 => DIGEST_SHA_512
  end.

Definition GetDigestSize (algorithm : bytes) : option Z := EVP_MD_size <$> GetDigestEVP algorithm.

Definition IsFips180DigestAlgorithm (alg : bytes) : bool :=
  bool_decide (alg = DIGEST_SHA_1) || bool_decide (alg = DIGEST_SHA_224)
  || bool_decide (alg = DIGEST_SHA_256) || bool_decide (alg = DIGEST_SHA_384)
  || bool_decide (alg = DIGEST_SHA_512).

Section Digest.
Context `{Evp}.

(** ** OpenSSLDigest *)

Record OpenSSLDigest := mkDigest { md_ : option EVP_MD; ctx_ : bytes }.

Definition new_digest (algorithm : bytes) : OpenSSLDigest := mkDigest (GetDigestEVP algorithm) [].

Definition Size (d : OpenSSLDigest) : Z := match md_ d with Some md => EVP_MD_size md | None => 0 end.

Definition Update (d : OpenSSLDigest) (buf : bytes) : OpenSSLDigest :=
  match md_ d with None => d | Some md => mkDigest (Some md) (ctx_ d ++ buf) end.

(** The bytes written ([[]] is a return value of 0) and the object. *)
Definition Finish (d : OpenSSLDigest) (len : Z) : bytes * OpenSSLDigest :=
  match md_ d with
  | None => ([], d)
  | Some md =>
      if len <? Size d then ([], d)
      else (evp_hash md (ctx_ d), mkDigest (Some md) [])
  end.

(** [MessageDigestFactory::Create]. *)
Definition Create (alg : bytes) : option OpenSSLDigest :=
  let digest := new_digest alg in
  if Size digest =? 0 then None else Some digest.

(** ** ComputeDigest *)

Definition ComputeDigest_with (d : OpenSSLDigest) (input : bytes) (out_len : Z)
    : bytes * OpenSSLDigest :=
  Finish (Update d input) out_len.

Definition ComputeDigest (alg input : bytes) (out_len : Z) : bytes :=
  match Create alg with
  | Some d => fst (ComputeDigest_with d input out_len)
  | None => []
  end.

(** The overloads that return hexadecimal text; the output buffer has
    [Size()] bytes. *)
Definition ComputeDigest_hex (alg input : bytes) : res (option bytes) :=
  match Create alg with
  | None => Ok None
  | Some d =>
      let '(output, _) := ComputeDigest_with d input (Size d) in
      s ← StringEncode.hex_encode output; Ok (Some s)
  end.

Definition MD5 (input : bytes) : res bytes := default [] <$> ComputeDigest_hex DIGEST_MD5 input.

(** ** ComputeHmac *)

(** [new_key], zero-padded to a block. *)
Definition block_key (d : OpenSSLDigest) (key : bytes) : bytes * OpenSSLDigest :=
  if kBlockSize <? zlen key
  then let '(k, d) := ComputeDigest_with d key kBlockSize in
       (k ++ replicate (Z.to_nat (kBlockSize - Size d)) 0, d)
  else (key ++ replicate (Z.to_nat (kBlockSize - zlen key)) 0, d).

Definition ComputeHmac_with (d : OpenSSLDigest) (key input : bytes) (out_len : Z)
    : bytes * OpenSSLDigest :=
  if 32 <? Size d then ([], d)
  else
    let '(new_key, d) := block_key d key in
    let o_pad := Z.lxor 92 <$> new_key in
    let i_pad := Z.lxor 54 <$> new_key in
    let '(inner, d) := Finish (Update (Update d i_pad) input) (Size d) in
    Finish (Update (Update d o_pad) inner) out_len.

Definition ComputeHmac (alg key input : bytes) (out_len : Z) : bytes :=
  match Create alg with
  | Some d => fst (ComputeHmac_with d key input out_len)
  | None => []
  end.

Definition ComputeHmac_hex (alg key input : bytes) : res (option bytes) :=
  match Create alg with
  | None => Ok None
  | Some d =>
      let '(output, _) := ComputeHmac_with d key input (Size d) in
      s ← StringEncode.hex_encode output; Ok (Some s)
  end.

(** ** RFC 2104 *)

(** HMAC over 64-byte blocks: [H(K xor opad, H(K xor ipad, text))]. *)
Definition hmac_ref (md : EVP_MD) (key text : bytes) : bytes :=
  let h := evp_hash md in
  let k := if kBlockSize <? zlen key then h key else key in
  let k0 := k ++ replicate (Z.to_nat (kBlockSize - zlen k)) 0 in
  h ((Z.lxor 92 <$> k0) ++ h ((Z.lxor 54 <$> k0) ++ text)).

Lemma Size_some md ctx : Size (mkDigest (Some md) ctx) = EVP_MD_size md.
Proof. done. Qed.

Lemma Finish_ok md ctx len :
  EVP_MD_size md <= len ->
  Finish (mkDigest (Some md) ctx) len = (evp_hash md ctx, mkDigest (Some md) []).
Proof. intros. unfold Finish. cbn. by rewrite (proj2 (Z.ltb_ge _ _)) by (cbn; lia). Qed.

(** A digest object that nothing was fed to yet. *)
Lemma ComputeHmac_with_ok md key input out_len :
  EVP_MD_size md <= 32 -> EVP_MD_size md <= out_len ->
  ComputeHmac_with (mkDigest (Some md) []) key input out_len =
    (hmac_ref md key input, mkDigest (Some md) []).
Proof.
  intros Hs Ho. unfold ComputeHmac_with. rewrite Size_some.
  rewrite (proj2 (Z.ltb_ge 32 _)) by lia. unfold block_key, hmac_ref, ComputeDigest_with.
  destruct (Z.ltb_spec kBlockSize (zlen key)).
  - cbn [Update md_ ctx_ app]. rewrite Finish_ok by (unfold kBlockSize; lia).
    cbn [Update md_ ctx_ app]. rewrite Size_some, Finish_ok by lia.
    cbn [Update md_ ctx_ app]. rewrite Finish_ok by lia. by rewrite evp_size.
  - cbn [Update md_ ctx_ app]. rewrite Size_some, Finish_ok by lia.
    cbn [Update md_ ctx_ app]. by rewrite Finish_ok by lia.
Qed.

Lemma GetDigestEVP_name md : GetDigestEVP (GetDigestName md) = Some md.
Proof. by destruct md. Qed.

Lemma Create_name md : Create (GetDigestName md) = Some (mkDigest (Some md) []).
Proof. unfold Create, new_digest. rewrite GetDigestEVP_name. by destruct md. Qed.

(** [ComputeHmac] by name is RFC 2104's HMAC with 64-byte blocks for
    every algorithm whose digest has at most 32 bytes, MD5 to SHA-256; for
    SHA-384 and SHA-512, for an unknown name and for a buffer smaller than the
    digest it returns 0. *)
Theorem ComputeHmac_rfc2104 md key text out_len :
  (EVP_MD_size md <= 32 -> EVP_MD_size md <= out_len ->
   ComputeHmac (GetDigestName md) key text out_len = hmac_ref md key text /\
   zlen (hmac_ref md key text) = EVP_MD_size md) /\
  (32 < EVP_MD_size md -> ComputeHmac (GetDigestName md) key text out_len = []) /\
  (out_len < EVP_MD_size md -> ComputeHmac (GetDigestName md) key text out_len = []) /\
  (forall alg, GetDigestEVP alg = None -> ComputeHmac alg key text out_len = []).
Proof.
  unfold ComputeHmac. rewrite Create_name. split_and!.
  - intros Hs Ho. rewrite ComputeHmac_with_ok by done. split; [done | apply evp_size].
  - intros Hs. unfold ComputeHmac_with. rewrite Size_some.
    by rewrite (proj2 (Z.ltb_lt 32 _)) by lia.
  - intros Ho. unfold ComputeHmac_with. case_match; [done|].
    unfold block_key, ComputeDigest_with.
    destruct (Z.ltb_spec kBlockSize (zlen key)); cbn [Update md_ ctx_ app];
      rewrite ?(Finish_ok md _ kBlockSize) by (by destruct md);
      cbn [Update md_ ctx_ app]; rewrite Size_some, Finish_ok by lia;
      cbn [Update md_ ctx_ app]; unfold Finish; cbn [md_];
      by rewrite Size_some, (proj2 (Z.ltb_lt _ _)) by lia.
  - intros alg Ha. unfold Create, new_digest. rewrite Ha. done.
Qed.
End Digest.

(** A toy hash of the right sizes: the length and a checksum of the input. *)
Definition toy_hash (md : EVP_MD) (s : bytes) : bytes :=
  take (Z.to_nat (EVP_MD_size md))
    ((u8 <$> [zlen s; fold_right Z.add 0 s]) ++ replicate 64 7).

#[export] Program Instance toy_evp : Evp := { evp_hash := toy_hash }.
Next Obligation.
  intros md s. unfold toy_hash, zlen. rewrite length_take, length_app, length_replicate.
  by destruct md.
Qed.
Next Obligation.
  intros md s. unfold toy_hash. apply Forall_take, Forall_app. split.
  - repeat constructor; apply u8_range.
  - apply Forall_replicate. unfold is_byte. lia.
Qed.

Lemma ComputeHmac_rfc2104_witness :
  ComputeHmac DIGEST_SHA_1 (lit "key") (lit "text") 20 = hmac_ref EVP_sha1 (lit "key") (lit "text").
Proof. apply (ComputeHmac_rfc2104 EVP_sha1 (lit "key") (lit "text") 20); cbn; lia. Defined.
