(* ===== verification/SslFingerprint.v ===== *)
(** * rtc_base/ssl_fingerprint.cc: certificate fingerprints

    The [a=fingerprint] value of an SDP description.  The certificate is a
    parameter: its digests and the name of its signature's hash. *)
From S2P Require Import Prelude.
From S2P Require StringEncode MessageDigest.
Local Open Scope Z_scope.

Record SSLFingerprint := mkFingerprint { algorithm : bytes; digest : bytes }.

#[export] Instance SSLFingerprint_eq_dec : EqDecision SSLFingerprint.
Proof. solve_decision. Defined.

(** [SSLCertificate]: [ComputeDigest] into a buffer of the given size, and
    [GetSignatureDigestAlgorithm]. *)
Class SSLCertificate (C : Type) := {
  cert_ComputeDigest : C -> bytes -> Z -> option bytes;
  cert_GetSignatureDigestAlgorithm : C -> option bytes;
}.

Definition Create {C} `{SSLCertificate C} (alg : bytes) (cert : C) : option SSLFingerprint :=
  digest_val ← cert_ComputeDigest cert alg 64;
  Some (mkFingerprint alg digest_val).

Definition CreateFromCertificate {C} `{SSLCertificate C} (cert : C) : option SSLFingerprint :=
  digest_alg ← cert_GetSignatureDigestAlgorithm cert; Create digest_alg cert.

Definition CreateUniqueFromRfc4572 (alg fingerprint : bytes) : res (option SSLFingerprint) :=
  if bool_decide (alg = []) || negb (MessageDigest.IsFips180DigestAlgorithm alg) then Ok None
  else if bool_decide (fingerprint = []) then Ok None
  else
    value ← StringEncode.hex_decode_with_delimiter MessageDigest.kMaxSize fingerprint (chr ":");
    if zlen value =? 0 then Ok None else Ok (Some (mkFingerprint alg value)).

Definition equals (a b : SSLFingerprint) : bool :=
  bool_decide (algorithm a = algorithm b) && bool_decide (digest a = digest b).

(** [::toupper] in the "C" locale. *)
Definition toupper (c : Z) : Z := if (97 <=? c) && (c <=? 122) then c - 32 else c.

Definition GetRfc4572Fingerprint (f : SSLFingerprint) : res bytes :=
  (fun s : bytes => toupper <$> s) <$> StringEncode.hex_encode_with_delimiter (digest f) (chr ":").

Definition ToString (f : SSLFingerprint) : res bytes :=
  fp ← GetRfc4572Fingerprint f; Ok (algorithm f ++ lit " " ++ fp).

(** ** Upper case does not change the decoded bytes *)

Lemma hex_digit_toupper : forall c, is_byte c ->
  bool_decide (StringEncode.hex_digit (toupper c) = StringEncode.hex_digit c) = true.
Proof. by_bytes. Qed.

Lemma colon_toupper : forall c, is_byte c -> Bool.eqb (toupper c =? 58) (c =? 58) = true.
Proof. by_bytes. Qed.

Lemma decode_toupper buflen n : forall src out,
  (length src <= n)%nat -> wf_bytes src ->
  StringEncode.hex_decode_loop buflen (toupper <$> src) 58 out =
  StringEncode.hex_decode_loop buflen src 58 out.
Proof.
  induction n as [|n IH]; intros src out Hn Hwf; [by destruct src; [|cbn in Hn; lia]|].
  destruct src as [|a [|b rest]]; [done | done |].
  apply Forall_cons_1 in Hwf as [Ha Hwf]. apply Forall_cons_1 in Hwf as [Hb Hwf].
  pose proof (hex_digit_toupper a Ha) as Ea. apply bool_decide_eq_true in Ea.
  pose proof (hex_digit_toupper b Hb) as Eb. apply bool_decide_eq_true in Eb.
  rewrite !fmap_cons. cbn [StringEncode.hex_decode_loop]. rewrite Ea, Eb. cbn in Hn.
  destruct (StringEncode.hex_digit a); [|done]. destruct (StringEncode.hex_digit b); [|done].
  destruct (zlen out <? buflen); [|done]. cbn [require mbind res_bind].
  destruct rest as [|c [|c2 rest]]; [done | |].
  - apply (IH [c]); [cbn in *; lia | done].
  - apply Forall_cons_1 in Hwf as [Hc Hwf]. rewrite !fmap_cons.
    pose proof (colon_toupper c Hc) as Ec. apply Bool.eqb_prop in Ec. rewrite Ec.
    change (58 =? 0) with false. cbn [negb]. destruct (c =? 58); [|done].
    apply (IH (c2 :: rest)); [cbn in *; lia | done].
Qed.

Lemma hex_char_byte : forall b, is_byte b ->
  forallb (fun c => bool_decide (is_byte c)) (StringEncode.hex_pair b) = true.
Proof. by_bytes. Qed.

Lemma hex_text_wf src : wf_bytes src -> wf_bytes (StringEncode.hex_text src 58).
Proof.
  induction 1 as [|b r Hb Hr IH]; [constructor|].
  rewrite StringEncode.hex_text_cons. apply Forall_app. split.
  - pose proof (hex_char_byte b Hb) as Hp. unfold StringEncode.hex_pair in *. cbn in Hp.
    rewrite !andb_true_iff, !bool_decide_eq_true in Hp.
    constructor; [tauto|]. constructor; [tauto|]. constructor.
  - apply Forall_app. split; [|done]. case_match; [|constructor]. constructor; [unfold is_byte; lia | constructor].
Qed.

(** The text of a fingerprint: upper-case hexadecimal digits and colons. *)
Definition rfc4572_char (c : Z) : bool := is_digit c || (c =? 58) || ((65 <=? c) && (c <=? 70)).

Lemma hex_pair_upper : forall b, is_byte b ->
  forallb (fun c => rfc4572_char (toupper c)) (StringEncode.hex_pair b) = true.
Proof. by_bytes. Qed.

Lemma upper_text_chars src :
  wf_bytes src -> Forall (fun c => rfc4572_char c = true) (toupper <$> StringEncode.hex_text src 58).
Proof.
  induction 1 as [|b r Hb Hr IH]; [constructor|].
  rewrite StringEncode.hex_text_cons, !fmap_app. apply Forall_app. split.
  - pose proof (hex_pair_upper b Hb) as Hp. rewrite forallb_forall in Hp.
    apply Forall_fmap, list.Forall_forall. intros c Hc. apply Hp. by apply list_elem_of_In.
  - apply Forall_app. split; [|done]. case_match; [|constructor]. by repeat constructor.
Qed.

Lemma rfc4572_text f :
  MessageDigest.IsFips180DigestAlgorithm (algorithm f) = true ->
  wf_bytes (digest f) -> 0 < zlen (digest f) <= 64 ->
  exists text, GetRfc4572Fingerprint f = Ok text /\
    CreateUniqueFromRfc4572 (algorithm f) text = Ok (Some f) /\
    text <> [] /\ Forall (fun c => rfc4572_char c = true) text.
Proof.
  intros Ha Hwf Hl. destruct f as [alg d]. cbn [algorithm digest] in *.
  unfold GetRfc4572Fingerprint, CreateUniqueFromRfc4572. cbn [digest].
  rewrite StringEncode.hex_encode_ok. cbn [fmap res_fmap]. eexists. split; [done|].
  apply and_assoc. split; [|by apply upper_text_chars].
  rewrite Ha. change (chr ":") with 58.
  assert (Hne : alg <> []) by (intros ->; by vm_compute in Ha).
  rewrite bool_decide_false by done. cbn [orb negb].
  pose proof (StringEncode.zlen_hex_text d 58) as Hz.
  unfold StringEncode.hex_encode_output_length in Hz. cbn [negb Z.eqb andb] in Hz.
  rewrite (proj2 (Z.ltb_lt 0 (zlen d))) in Hz by lia.
  assert (Hz' : zlen (toupper <$> StringEncode.hex_text d 58) = zlen d * 3 - 1).
  { rewrite <- Hz. unfold zlen. by rewrite length_fmap. }
  assert (Ht : toupper <$> StringEncode.hex_text d 58 <> []).
  { intros E. rewrite E in Hz'. change (zlen (@nil Z)) with 0 in Hz'. lia. }
  split; [|exact Ht]. rewrite bool_decide_false by exact Ht.
  unfold StringEncode.hex_decode_with_delimiter, MessageDigest.kMaxSize. rewrite Hz'.
  cbn [negb Z.eqb]. replace (zlen d * 3 - 1 + 1) with (zlen d * 3) by lia.
  rewrite Z.div_mul by lia. rewrite (proj2 (Z.ltb_ge 64 (zlen d))) by lia.
  rewrite (decode_toupper 64 _ _ [] (le_n _)) by by apply hex_text_wf.
  rewrite StringEncode.hex_decode_loop_ok by (done || (change (zlen (@nil Z)) with 0; lia)).
  cbn [fmap res_fmap mbind res_bind default app].
  unfold id. by rewrite (proj2 (Z.eqb_neq (zlen d) 0)) by lia.
Qed.

(** The RFC 4572 text of a fingerprint, upper-case pairs separated by
    colons, parses back to the fingerprint, for the five FIPS 180 algorithms
    and digests of 1 to 64 bytes. *)
Theorem fingerprint_roundtrip f :
  MessageDigest.IsFips180DigestAlgorithm (algorithm f) = true ->
  wf_bytes (digest f) -> 0 < zlen (digest f) <= 64 ->
  exists text, GetRfc4572Fingerprint f = Ok text /\
    CreateUniqueFromRfc4572 (algorithm f) text = Ok (Some f).
Proof. intros ? ? ?. destruct (rfc4572_text f) as (text & ? & ? & _); [done..|]. by exists text. Qed.

Lemma fingerprint_roundtrip_witness :
  exists text, GetRfc4572Fingerprint (mkFingerprint (lit "sha-256") [171; 0; 255]) = Ok text /\
    CreateUniqueFromRfc4572 (lit "sha-256") text =
      Ok (Some (mkFingerprint (lit "sha-256") [171; 0; 255])).
Proof.
  apply (fingerprint_roundtrip (mkFingerprint (lit "sha-256") [171; 0; 255])).
  - reflexivity.
  - repeat (constructor; [unfold is_byte; lia|]). constructor.
  - vm_compute. split; [reflexivity | discriminate].
Defined.
