(* ===== verification/SdpTypes.v ===== *)
(** * sdp/session_description.h: the data of a session description

    [std::unordered_map] is a [gmap]; where the code iterates over one, the
    order is a parameter of the function that does. *)
From S2P Require Import Prelude.
From S2P Require SslFingerprint.
Local Open Scope Z_scope.

Record SessionSdp := mkSessionSdp {
  version : bytes;
  username : bytes;
  session_id : bytes;
  session_version : bytes;
  nett_type : bytes;
  addr_type : bytes;
  uni_addr : bytes;
  session_name : bytes;
  ts : bytes;
  attr : bytes;
}.

(** The default member initialisers. *)
Definition new_SessionSdp : SessionSdp :=
  mkSessionSdp [] [] [] (lit "2") (lit "IN") (lit "IP4") [] (lit "-") (lit "0 0")
    (lit "a=msid-semantic: WMS").

Inductive MediaType := MEDIA_TYPE_AUDIO | MEDIA_TYPE_VIDEO.

#[export] Instance MediaType_eq_dec : EqDecision MediaType.
Proof. solve_decision. Defined.

Record FeedbackParameter := mkFeedback { id : bytes; param : bytes }.

Record CodecInfo := mkCodec { payload_type : Z; desc : bytes; fbs : list FeedbackParameter }.

Record MediaCodecSupport := mkSupport {
  name : bytes; port : Z; dtls_ : bool; codec_ids : gmap Z CodecInfo;
}.

Record RTCOfferAnswerOptions := mkOptions {
  send_audio : bool; send_video : bool; recv_audio : bool; recv_video : bool; use_rtcp_mux : bool;
}.

Definition default_options : RTCOfferAnswerOptions := mkOptions true true true true true.

Record FormatParameter := mkFormat { codec_id : Z; params : gmap bytes bytes }.

Inductive RtcDirection := SendRecv | SendOnly | RecvOnly | Inactive.

#[export] Instance RtcDirection_eq_dec : EqDecision RtcDirection.
Proof. solve_decision. Defined.

Record IceParameter := mkIce { mode : bytes; ufrag : bytes; passwd : bytes }.

#[export] Instance IceParameter_eq_dec : EqDecision IceParameter.
Proof. solve_decision. Defined.

Record DtlsParameter := mkDtls {
  alg : bytes; finger_print : bytes; identity_fp : option SslFingerprint.SSLFingerprint;
}.

Record SsrcParameter := mkSsrc { ssrc : Z; attri : bytes; value : bytes }.
Record SsrcGroup := mkSsrcGroup { semantic : bytes; ssrcs : list Z }.

#[export] Instance SsrcParameter_eq_dec : EqDecision SsrcParameter.
Proof. solve_decision. Defined.
#[export] Instance SsrcGroup_eq_dec : EqDecision SsrcGroup.
Proof. solve_decision. Defined.
