(* ===== verification/Uvnet.v ===== *)
(** * What the program uses of the uvnet library

    uvnet (the libuv wrapper) is not part of the sources.  The class below is
    what the code relies on of [uvcore::IpAddress]: an IPv4 endpoint with a
    16-bit port in host order, the four raw bytes of [sin_addr], the dotted
    address and the ["ip:port"] text used as a map key. *)
From S2P Require Import Prelude.
Local Open Scope Z_scope.

Class IpAddressOps (IpAddress : Type) := {
  getPort : IpAddress -> Z;
  getIp : IpAddress -> bytes;
  toString : IpAddress -> bytes;
  s_addr : IpAddress -> bytes;
  getPort_range : forall a, 0 <= getPort a < 65536;
  s_addr_length : forall a, length (s_addr a) = 4%nat;
  s_addr_wf : forall a, wf_bytes (s_addr a);
}.

(** ** The life of the sockets

    The code keeps plain pointers to the [Udp] objects of the server, so a
    model of it has to know which of them still exist: [UdpServer::addBind]
    makes one, [UdpReceiver::deleter] deletes it.  A deleted name is not used
    again. *)
Record udps := mkUdps { alive : gset nat; next_udp : nat }.

Definition no_udps : udps := mkUdps ∅ 0.

Definition addBind (us : udps) : nat * udps :=
  (next_udp us, mkUdps ({[next_udp us]} ∪ alive us) (S (next_udp us))).

Definition delete_udp (us : udps) (u : nat) : udps := mkUdps (alive us ∖ {[u]}) (next_udp us).

(** A concrete endpoint, for the witnesses. *)
Record addr4 := mkAddr4 { octets : Z * Z * Z * Z; port4 : Z }.

#[export] Instance addr4_eq_dec : EqDecision addr4.
Proof. solve_decision. Defined.

Definition addr4_ip (a : addr4) : bytes :=
  let '(p, q, r, s) := octets a in
  dec (u8 p) ++ [46] ++ dec (u8 q) ++ [46] ++ dec (u8 r) ++ [46] ++ dec (u8 s).

#[export] Program Instance addr4_ops : IpAddressOps addr4 := {
  getPort a := u16 (port4 a);
  getIp := addr4_ip;
  toString a := addr4_ip a ++ [58] ++ dec (u16 (port4 a));
  s_addr a := let '(p, q, r, s) := octets a in [u8 p; u8 q; u8 r; u8 s];
}.
Next Obligation. intros a. apply u16_range. Qed.
Next Obligation. intros [[[[p q] r] s] ?]. done. Qed.
Next Obligation. intros [[[[p q] r] s] ?]. repeat constructor; apply u8_range. Qed.
