(* ===== verification/Stun.v ===== *)
(** * udp/stun.h, udp/stun.cpp: STUN messages

    Parsing, authentication and the binding response.  A packet is the list of
    its [len] bytes; reads outside of it fault.  The header struct is laid
    over the bytes on a little-endian machine, so the 14-bit [msg_type] and
    the 2-bit [prefix] are fields of the little-endian value of the first two
    bytes.  A writer is a [Buffer] of rtc_base; the header pointer the
    serializer keeps is valid as long as the writer owns the same block. *)
From S2P Require Import Prelude ByteOrder.
From S2P Require Buffer ByteBuffer Crc SUtil MessageDigest SdpTypes Uvnet.
Local Open Scope Z_scope.

Definition STUN_HEADER_SIZE : Z := 20.
Definition k_stun_magic_cookie : Z := 554869826. (* 0x2112A442 *)
Definition magic_cookie : bytes := [33; 18; 164; 66].
Definition FINGER_PRINT_ATTRI_SIZE : Z := 8.
Definition STUN_FINGERPRINT_XOR_VALUE : Z := 1398035790. (* 0x5354554e *)
Definition k_stun_message_integrity_size : Z := 20.

(** Classes, methods and attribute types. *)
Definition STUN_REQUEST : Z := 0.
Definition STUN_INDICATION : Z := 1.
Definition STUN_SUCCESS_RESPONSE : Z := 2.
Definition STUN_ERROR_RESPONSE : Z := 3.
Definition BINDING : Z := 1.
Definition STUN_BINDING_RESPONSE : Z := 257.
Definition STUN_USERNAME : Z := 6.
Definition STUN_MESSAGE_INTEGRITY : Z := 8.
Definition STUN_XOR_MAPPED_ADDRESS : Z := 32.
Definition STUN_PRIORITY : Z := 36.
Definition STUN_USE_CANDIDATE : Z := 37.
Definition STUN_FINGERPRINT : Z := 32808. (* 0x8028 *)
Definition STUN_ICE_CONTROLLING : Z := 32810. (* 0x802A *)

Record stun_header := mkHeader {
  msg_type : Z; prefix : Z; msg_len : Z; msg_cookie : Z; trans_id : bytes;
}.

(** [(stun_header* )data]; the integers in host order. *)
Definition header_of (data : bytes) : res stun_header :=
  t ← load 2 data 0; l ← load 2 data 2; c ← load 4 data 4; id ← mem_read data 8 12;
  Ok (mkHeader (t mod 16384) (t / 16384) l c id).

Definition is_stun (data : bytes) : res bool :=
  if STUN_HEADER_SIZE <=? zlen data then
    b0 ← mem_get data 0;
    cookie ← mem_read data 4 4;
    if (b0 <? 3) && bool_decide (cookie = magic_cookie) then
      hdr ← header_of data;
      Ok (prefix hdr =? 0)
    else Ok false
  else Ok false.

(** [output[1] = *data++; output[0] = *data++]. *)
Definition read_2bytes (data : bytes) : res Z :=
  b0 ← mem_get data 0; b1 ← mem_get data 1; Ok (le_load [b1; b0]).

Definition get_real_len (len : Z) : Z :=
  if negb (Z.rem len 4 =? 0)
  then let ret := u16 (Z.quot len 4) in u16 ((ret + 1) * 4)
  else u16 len.

Definition validate_fingerprint (data : bytes) : res bool :=
  let finger_print := zlen data - FINGER_PRINT_ATTRI_SIZE in
  type ← GetBE16 data finger_print;
  flen ← GetBE16 data (finger_print + 2);
  fp ← GetBE32 data (finger_print + 4);
  if negb (type =? STUN_FINGERPRINT) then Ok true
  else if negb (flen =? 4) then Ok false
  else
    body ← mem_read data 0 (zlen data - FINGER_PRINT_ATTRI_SIZE);
    let crc2 := Z.lxor (Crc.ComputeCrc32 body) STUN_FINGERPRINT_XOR_VALUE in
    Ok (fp =? crc2).

Section Stun.
Context {IpAddress : Type} `{Uvnet.IpAddressOps IpAddress}.

(** The subclasses of [StunAttribute]; [dynamic_pointer_cast] is a match on
    the body.  [StunAttributePriority] leaves [priority] uninitialised until
    it is assigned. *)
Inductive StunBody :=
  | StunAttributeUsername (remote_ufrag local_ufrag : bytes)
  | StunAttributeIntegrity (endpos : Z) (hmac_sha1 : bytes)
  | StunAttributeIceControlling (text : bytes)
  | StunAttributePriority (priority : option Z)
  | StunAttributeFingerPrint (fp : Z)
  | StunAttributeXorAddress (addr : IpAddress) (family : Z).

Record StunAttribute := mkAttribute { type : Z; len : Z; body : StunBody }.

(** [virtual int write(rtc::ByteBufferWriter* writer)]. *)
Definition write (a : StunAttribute) (wr : Buffer.Buffer) : Z * Buffer.Buffer :=
  match body a with
  | StunAttributeXorAddress addr family =>
      let wr := ByteBuffer.Writer.WriteUInt16 wr (type a) in
      let wr := ByteBuffer.Writer.WriteUInt16 wr (len a) in
      let wr := ByteBuffer.Writer.WriteUInt8 wr 0 in
      let wr := ByteBuffer.Writer.WriteUInt8 wr family in
      let port := Uvnet.getPort addr in
      let wr := ByteBuffer.Writer.WriteUInt16 wr
                  (Z.lxor port (Z.shiftr k_stun_magic_cookie 16)) in
      let xorip := Z.lxor (le_load (Uvnet.s_addr addr)) (HostToNetwork32 k_stun_magic_cookie) in
      (4 + 8, ByteBuffer.Writer.WriteBytes wr (le_store 4 xorip))
  | StunAttributeIntegrity _ hmac_sha1 =>
      let wr := ByteBuffer.Writer.WriteUInt16 wr (type a) in
      let wr := ByteBuffer.Writer.WriteUInt16 wr (len a) in
      (4 + zlen hmac_sha1, ByteBuffer.Writer.WriteBytes wr hmac_sha1)
  | StunAttributeFingerPrint fp =>
      let wr := ByteBuffer.Writer.WriteUInt16 wr (type a) in
      let wr := ByteBuffer.Writer.WriteUInt16 wr (len a) in
      (8, ByteBuffer.Writer.WriteUInt32 wr fp)
  | _ => (0, wr)
  end.

Record StunPacket := mkPacket {
  hdr : stun_header; cls : Z; method : Z; _attris : list StunAttribute;
}.

Definition add_attribute (p : StunPacket) (a : StunAttribute) : StunPacket :=
  mkPacket (hdr p) (cls p) (method p) (_attris p ++ [a]).

Definition get_attribute (p : StunPacket) (t : Z) : option StunAttribute :=
  snd <$> list_find (fun a => type a = t) (_attris p).

(** ** Parsing *)

(** One round of [parse_attri] at [pos]: the attribute to keep and the new
    position. *)
Definition parse_one (data : bytes) (pos : Z) : res (option StunAttribute * Z) :=
  let attri_start := STUN_HEADER_SIZE in
  type ← GetBE16 data (attri_start + pos);
  flen ← GetBE16 data (attri_start + pos + 2);
  if type =? STUN_USERNAME then
    str ← mem_read data (attri_start + pos + 4) flen;
    let real_len := get_real_len flen in
    vecs ← SUtil.split str (lit ":");
    let body :=
      match vecs with
      | [v0; v1] => StunAttributeUsername v0 v1
      | _ => StunAttributeUsername [] []
      end in
    Ok (Some (mkAttribute type flen body), pos + (real_len + 4))
  else if type =? STUN_MESSAGE_INTEGRITY then
    hmac_sha1 ← mem_read data (attri_start + pos + 4) flen;
    Ok (Some (mkAttribute type flen (StunAttributeIntegrity (pos + STUN_HEADER_SIZE) hmac_sha1)),
        pos + (flen + 4))
  else if type =? STUN_ICE_CONTROLLING then
    text ← mem_read data (attri_start + pos + 4) flen;
    Ok (Some (mkAttribute type flen (StunAttributeIceControlling text)),
        pos + (get_real_len flen + 4))
  else if type =? STUN_USE_CANDIDATE then
    Ok (Some (mkAttribute type flen (StunAttributePriority None)),
        pos + (get_real_len flen + 4))
  else if type =? STUN_PRIORITY then
    priority ← GetBE32 data (attri_start + pos + 4);
    Ok (Some (mkAttribute type flen (StunAttributePriority (Some priority))),
        pos + (get_real_len flen + 4))
  else Ok (None, pos + (get_real_len flen + 4)).

(** [while (pos + 4 + STUN_HEADER_SIZE < len && counter < 20)]: [n] is
    [20 - counter]. *)
Fixpoint parse_attri_loop (n : nat) (data : bytes) (pos : Z) (attris : list StunAttribute)
    : res (list StunAttribute) :=
  match n with
  | O => Ok attris
  | S n' =>
      if pos + 4 + STUN_HEADER_SIZE <? zlen data then
        '(a, pos') ← parse_one data pos;
        parse_attri_loop n' data pos'
          (match a with Some a => attris ++ [a] | None => attris end)
      else Ok attris
  end.

Definition parse_attri (data : bytes) : res (list StunAttribute) :=
  parse_attri_loop 20 data 0 [].

(** [None] is [nullptr]. *)
Definition parse (data : bytes) : res (option StunPacket) :=
  stun ← is_stun data;
  if negb stun then Ok None
  else
    h ← header_of data;
    let msg_len' := NetworkToHost16 (msg_len h) in
    if negb (msg_len' + STUN_HEADER_SIZE =? zlen data) || negb (Z.land msg_len' 3 =? 0)
    then Ok None
    else
      flag ← validate_fingerprint data;
      if negb flag then Ok None
      else
        d0 ← mem_get data 0;
        d1 ← mem_get data 1;
        let msg_class :=
          Z.lor (Z.shiftl (Z.land d0 1) 1) (Z.shiftr (Z.land d1 16) 4) in
        t ← read_2bytes data;
        let msg_method :=
          Z.lor (Z.lor (Z.land t 15) (Z.shiftr (Z.land t 224) 1)) (Z.shiftr (Z.land t 15872) 2) in
        attris ← parse_attri data;
        Ok (Some (mkPacket
          (mkHeader (msg_type h) (prefix h) (HostToNetwork16 (msg_len h)) (msg_cookie h) (trans_id h))
          msg_class msg_method attris)).

(** ** Authentication *)

Section Auth.
Context `{MessageDigest.Evp}.

Definition sha1_hmac (key input : bytes) : bytes :=
  MessageDigest.ComputeHmac MessageDigest.DIGEST_SHA_1 key input k_stun_message_integrity_size.

(** The loop over [_attris].  The message length in [data] is overwritten
    while the HMAC is computed and written back only on success; [memcmp] looks at
    twenty bytes of a string that may be shorter. *)
Fixpoint validate_loop (attris : list StunAttribute) (param : SdpTypes.IceParameter)
    (data : bytes) : res (bool * bytes) :=
  match attris with
  | [] => Ok (true, data)
  | a :: rest =>
      if type a =? STUN_USERNAME then
        match body a with
        | StunAttributeUsername remote_ufrag _ =>
            if negb (bool_decide (remote_ufrag = SdpTypes.ufrag param)) then Ok (false, data)
            else validate_loop rest param data
        | _ => validate_loop rest param data
        end
      else if type a =? STUN_MESSAGE_INTEGRITY then
        match body a with
        | StunAttributeIntegrity endpos hmac_sha1 =>
            ori_msg_len ← load 2 data 2;
            data ← store 2 data 2 (HostToNetwork16 (u16 (endpos + 24 - STUN_HEADER_SIZE)));
            input ← mem_read data 0 endpos;
            let hmac := sha1_hmac (SdpTypes.passwd param) input in
            if negb (zlen hmac =? k_stun_message_integrity_size) then Ok (false, data)
            else
              given ← mem_read (hmac_sha1 ++ [0]) 0 k_stun_message_integrity_size;
              if negb (bool_decide (hmac = given)) then Ok (false, data)
              else
                data ← store 2 data 2 ori_msg_len;
                validate_loop rest param data
        | _ => Ok (false, data)
        end
      else validate_loop rest param data
  end.

Definition validate (p : StunPacket) (param : SdpTypes.IceParameter) (data : bytes)
    : res (bool * bytes) :=
  validate_loop (_attris p) param data.

(** ** The binding response *)

(** [hdr->msg_len = v] through a pointer to the block numbered [blk]. *)
Definition set_msg_len (wr : Buffer.Buffer) (blk : nat) (v : Z) : res Buffer.Buffer :=
  _ ← require (Nat.eqb (Buffer.block wr) blk) Dangling;
  _ ← require (4 <=? Buffer.capacity_ wr) OutOfBounds;
  Ok (Buffer.mkBuffer (Buffer.size_ wr) (Buffer.capacity_ wr)
        (Buffer.put_cells (Buffer.data_ wr) 2 (Buffer.cells (le_store 2 (HostToNetwork16 v))))
        (Buffer.block wr) (Buffer.freed wr)).

Definition serialize_bind_response (p : StunPacket) (wr : Buffer.Buffer) (passwd : bytes)
    : res Buffer.Buffer :=
  let len := 0 in
  let wr := ByteBuffer.Writer.WriteUInt16 wr STUN_BINDING_RESPONSE in
  let wr := ByteBuffer.Writer.WriteUInt16 wr len in
  let wr := ByteBuffer.Writer.WriteUInt32 wr (msg_cookie (hdr p)) in
  let wr := ByteBuffer.Writer.WriteBytes wr (trans_id (hdr p)) in
  let '(len, wr) :=
    match get_attribute p STUN_XOR_MAPPED_ADDRESS with
    | Some a =>
        match body a with
        | StunAttributeXorAddress _ _ => let '(n, wr) := write a wr in (len + n, wr)
        | _ => (len, wr)
        end
    | None => (len, wr)
    end in
  let blk := Buffer.block wr in
  wr ← set_msg_len wr blk (u16 (len + 24));
  d ← ByteBuffer.Writer.Data wr;
  input ← mem_read d 0 (len + STUN_HEADER_SIZE);
  let hmac := sha1_hmac passwd input in
  let '(len, wr) :=
    if zlen hmac =? k_stun_message_integrity_size then
      let '(n, wr) := write (mkAttribute STUN_MESSAGE_INTEGRITY k_stun_message_integrity_size
                               (StunAttributeIntegrity 0 hmac)) wr in
      (len + n, wr)
    else (len, wr) in
  wr ← set_msg_len wr blk (u16 (len + 8));
  d ← ByteBuffer.Writer.Data wr;
  let crc2 := Z.lxor (Crc.ComputeCrc32 d) STUN_FINGERPRINT_XOR_VALUE in
  Ok (snd (write (mkAttribute STUN_FINGERPRINT 4 (StunAttributeFingerPrint crc2)) wr)).
End Auth.
End Stun.
Arguments StunBody IpAddress : clear implicits.
Arguments StunAttribute IpAddress : clear implicits.
Arguments StunPacket IpAddress : clear implicits.

(** ** get_real_len *)

(** [get_real_len] rounds an attribute length up to a multiple of four,
    except for the last three 16-bit lengths, which wrap around to 0. *)
Theorem get_real_len_spec len :
  0 <= len < 65536 ->
  get_real_len len = (if len <=? 65532 then (len + 3) / 4 * 4 else 0) /\
  (len <= 65532 -> Z.rem (get_real_len len) 4 = 0 /\ len <= get_real_len len < len + 4).
Proof.
  intros Hl. unfold get_real_len. rewrite Z.rem_mod_nonneg, Z.quot_div_nonneg by lia.
  pose proof (Z.div_mod len 4). pose proof (Z.mod_pos_bound len 4).
  pose proof (Z.div_mod (len + 3) 4). pose proof (Z.mod_pos_bound (len + 3) 4).
  assert (0 <= len / 4) by (apply Z.div_pos; lia).
  rewrite (u16_small (len / 4)) by lia.
  assert (Hv : (if negb (len mod 4 =? 0) then u16 ((len / 4 + 1) * 4) else u16 len) =
               if len <=? 65532 then (len + 3) / 4 * 4 else 0).
  { destruct (Z.eqb_spec (len mod 4) 0); cbn [negb]; destruct (Z.leb_spec len 65532).
    - rewrite u16_small by lia. lia.
    - lia.
    - rewrite u16_small by lia. lia.
    - replace (len / 4 + 1) with 16384 by lia. done. }
  rewrite Hv. split; [done|]. intros Hle. rewrite (proj2 (Z.leb_le len 65532)) by lia.
  rewrite Z.rem_mul by lia. lia.
Qed.

Lemma get_real_len_spec_witness :
  get_real_len 65534 = 0 /\ (9 <= get_real_len 9 < 13).
Proof.
  split.
  - exact (proj1 (get_real_len_spec 65534 ltac:(lia))).
  - apply (get_real_len_spec 9); lia.
Defined.

(** ** The bytes of the binding response *)

Lemma overwrite_cells {A} (a b c d x : list A) n :
  length a = 2%nat -> length b = 2%nat -> length x = 2%nat -> n = (4 + length c)%nat ->
  take n (take (Z.to_nat 2) ((a ++ b ++ c) ++ d) ++ x ++ drop (Z.to_nat 2 + 2) ((a ++ b ++ c) ++ d)) =
  a ++ x ++ c.
Proof.
  destruct a as [|a1 [|a2 [|]]], b as [|b1 [|b2 [|]]], x as [|x1 [|x2 [|]]]; try done.
  intros _ _ _ ->. change (Z.to_nat 2) with 2%nat. cbn. do 4 f_equal. apply take_app_length.
Qed.

Lemma set_msg_len_fits k w a b c v :
  ByteBuffer.fits k w (a ++ b ++ c) -> length a = 2%nat -> length b = 2%nat ->
  exists w', set_msg_len w k v = Ok w' /\ ByteBuffer.fits k w' (a ++ be_store 2 v ++ c).
Proof.
  intros (Hh & Hc & Hb) Ha Hl. pose proof (ByteBuffer.holds_size _ _ Hh) as Hs.
  destruct Hh as [Hcons Hd]. pose proof (Buffer.data_inv _ _ Hd) as Hcont.
  unfold set_msg_len. rewrite Hb, Nat.eqb_refl, Hc. cbn [require mbind res_bind].
  change (4 <=? ByteBuffer.Writer.kDefaultCapacity) with true. cbn [require mbind res_bind].
  eexists. split; [done|]. unfold HostToNetwork16. rewrite le_store_bswap.
  rewrite !zlen_app in Hs. destruct Hcons as [Hz Hsz].
  assert (Hlen : length (be_store 2 v) = 2%nat) by apply length_be_store.
  split; [|done]. split.
  - split; cbn [Buffer.size_ Buffer.capacity_ Buffer.data_]; [|lia].
    rewrite Buffer.zlen_put_cells; rewrite ?Buffer.zlen_cells, ?zlen_be_store;
      unfold zlen in *; rewrite Hc in *; unfold ByteBuffer.Writer.kDefaultCapacity in *; lia.
  - apply Buffer.data_ok. unfold Buffer.contents in *.
    cbn [Buffer.size_ Buffer.capacity_ Buffer.data_].
    rewrite <- (take_drop (Z.to_nat (Buffer.size_ w)) (Buffer.data_ w)), Hcont.
    unfold Buffer.put_cells, Buffer.cells. rewrite !fmap_app, length_fmap, Hlen.
    apply overwrite_cells; rewrite ?length_fmap; try done. unfold zlen in *. lia.
Qed.

Section Response.
Context {IpAddress : Type} `{Uvnet.IpAddressOps IpAddress} `{MessageDigest.Evp}.

(** The header with its length field, and the three attributes. *)
Definition response_header (len : Z) (tid : bytes) : bytes :=
  be_store 2 STUN_BINDING_RESPONSE ++ be_store 2 len ++ magic_cookie ++ tid.

Definition xor_attribute (family : Z) (addr : IpAddress) : bytes :=
  be_store 2 STUN_XOR_MAPPED_ADDRESS ++ be_store 2 8 ++ [0] ++ [u8 family]
  ++ be_store 2 (Z.lxor (Uvnet.getPort addr) 8466)
  ++ le_store 4 (Z.lxor (le_load (Uvnet.s_addr addr)) (HostToNetwork32 k_stun_magic_cookie)).

Definition integrity_attribute (hmac : bytes) : bytes :=
  be_store 2 STUN_MESSAGE_INTEGRITY ++ be_store 2 20 ++ hmac.

Definition fingerprint_attribute (fp : Z) : bytes :=
  be_store 2 STUN_FINGERPRINT ++ be_store 2 4 ++ be_store 4 fp.

(** RFC 5389: the HMAC covers the message up to the integrity attribute, with a
    length that includes it; the checksum covers everything before the
    fingerprint, with the final length. *)
Definition response_hmac (passwd tid : bytes) (family : Z) (addr : IpAddress) : bytes :=
  MessageDigest.hmac_ref MessageDigest.EVP_sha1 passwd
    (response_header 36 tid ++ xor_attribute family addr).

Definition response_body (passwd tid : bytes) (family : Z) (addr : IpAddress) : bytes :=
  response_header 44 tid ++ xor_attribute family addr
  ++ integrity_attribute (response_hmac passwd tid family addr).

Definition response (passwd tid : bytes) (family : Z) (addr : IpAddress) : bytes :=
  let m := response_body passwd tid family addr in
  m ++ fingerprint_attribute (Z.lxor (Crc.ComputeCrc32 m) STUN_FINGERPRINT_XOR_VALUE).

(** The packet [IceConnection] builds. *)
Definition response_packet (tid : bytes) (family : Z) (addr : IpAddress) : StunPacket IpAddress :=
  mkPacket (mkHeader STUN_BINDING_RESPONSE 0 0 k_stun_magic_cookie tid) 0 0
    [mkAttribute STUN_XOR_MAPPED_ADDRESS 8 (StunAttributeXorAddress addr family)].

Lemma zlen_response_header n tid : zlen tid = 12 -> zlen (response_header n tid) = 20.
Proof.
  intros Ht. unfold response_header. rewrite !zlen_app, !zlen_be_store, Ht. done.
Qed.

Lemma zlen_xor_attribute f a : zlen (xor_attribute f a) = 12.
Proof.
  unfold xor_attribute. rewrite !zlen_app, !zlen_be_store, zlen_le_store. done.
Qed.

Lemma sha1_hmac_ref key input :
  sha1_hmac key input = MessageDigest.hmac_ref MessageDigest.EVP_sha1 key input /\
  zlen (MessageDigest.hmac_ref MessageDigest.EVP_sha1 key input) = 20.
Proof.
  apply (proj1 (MessageDigest.ComputeHmac_rfc2104 MessageDigest.EVP_sha1 key input 20)); cbn; lia.
Qed.

Lemma zlen_response_hmac passwd tid f a : zlen (response_hmac passwd tid f a) = 20.
Proof. unfold response_hmac. apply (proj2 (sha1_hmac_ref _ _)). Qed.

Lemma zlen_response_body passwd tid f a : zlen tid = 12 -> zlen (response_body passwd tid f a) = 56.
Proof.
  intros Ht. unfold response_body, integrity_attribute.
  rewrite !zlen_app, zlen_response_header, zlen_xor_attribute, zlen_response_hmac, !zlen_be_store by done.
  done.
Qed.

(** [xor_attribute] is what [StunAttributeXorAddress::write] appends. *)
Lemma write_xor_fits k w v f a :
  ByteBuffer.fits k w v -> zlen v + 12 <= ByteBuffer.Writer.kDefaultCapacity ->
  exists w', write (mkAttribute STUN_XOR_MAPPED_ADDRESS 8 (StunAttributeXorAddress a f)) w = (12, w') /\
    ByteBuffer.fits k w' (v ++ xor_attribute f a).
Proof.
  intros Hw Hl. eexists. split; [reflexivity|]. unfold xor_attribute.
  rewrite !app_assoc. change (Z.shiftr k_stun_magic_cookie 16) with 8466. cbn [type len].
  apply ByteBuffer.WriteBytes_fits;
    [|autorewrite with zlen endian; lia].
  apply ByteBuffer.WriteUInt16_fits; [|autorewrite with zlen endian; lia].
  apply ByteBuffer.WriteUInt8_fits; [|autorewrite with zlen endian; lia].
  apply (ByteBuffer.WriteUInt8_fits _ _ _ 0); [|autorewrite with zlen endian; lia].
  apply ByteBuffer.WriteUInt16_fits; [|autorewrite with zlen endian; lia].
  apply ByteBuffer.WriteUInt16_fits; [exact Hw | lia].
Qed.

Lemma fits_data k w v : ByteBuffer.fits k w v -> ByteBuffer.Writer.Data w = Ok v.
Proof. by intros [[_ Hd] _]. Qed.

Lemma fits_block k w v : ByteBuffer.fits k w v -> Buffer.block w = k.
Proof. by intros (_ & _ & ?). Qed.

Lemma set_header_len k w n n' tid rest :
  ByteBuffer.fits k w (response_header n tid ++ rest) ->
  exists w', set_msg_len w k n' = Ok w' /\ ByteBuffer.fits k w' (response_header n' tid ++ rest).
Proof.
  unfold response_header. rewrite <- !app_assoc. intros Hw.
  apply (set_msg_len_fits k w _ _ _ n' Hw); apply length_be_store.
Qed.

(** The attribute writers, as the serializer calls them. *)
Lemma write_integrity_fits k w v hmac :
  zlen hmac = 20 -> ByteBuffer.fits k w v -> zlen v + 24 <= ByteBuffer.Writer.kDefaultCapacity ->
  exists w', write (mkAttribute (IpAddress := IpAddress) STUN_MESSAGE_INTEGRITY
                      k_stun_message_integrity_size (StunAttributeIntegrity 0 hmac)) w = (24, w') /\
    ByteBuffer.fits k w' (v ++ integrity_attribute hmac).
Proof.
  intros Hh Hw Hl. eexists. split; [cbn [write body]; by rewrite Hh|].
  unfold integrity_attribute. rewrite !app_assoc.
  apply ByteBuffer.WriteBytes_fits; [|autorewrite with zlen endian; lia].
  apply ByteBuffer.WriteUInt16_fits; [|autorewrite with zlen endian; lia].
  by apply ByteBuffer.WriteUInt16_fits; [|lia].
Qed.

Lemma write_fingerprint_fits k w v fp :
  ByteBuffer.fits k w v -> zlen v + 8 <= ByteBuffer.Writer.kDefaultCapacity ->
  exists w', write (mkAttribute (IpAddress := IpAddress) STUN_FINGERPRINT 4
                      (StunAttributeFingerPrint fp)) w = (8, w') /\
    ByteBuffer.fits k w' (v ++ fingerprint_attribute fp).
Proof.
  intros Hw Hl. eexists. split; [reflexivity|].
  unfold fingerprint_attribute. rewrite !app_assoc.
  apply ByteBuffer.WriteUInt32_fits; [|autorewrite with zlen endian; lia].
  apply ByteBuffer.WriteUInt16_fits; [|autorewrite with zlen endian; lia].
  by apply ByteBuffer.WriteUInt16_fits; [|lia].
Qed.

Lemma write_header_fits tid :
  zlen tid = 12 ->
  ByteBuffer.fits 1
    (ByteBuffer.Writer.WriteBytes
       (ByteBuffer.Writer.WriteUInt32
          (ByteBuffer.Writer.WriteUInt16
             (ByteBuffer.Writer.WriteUInt16 ByteBuffer.Writer.create_default STUN_BINDING_RESPONSE) 0)
          k_stun_magic_cookie) tid)
    (response_header 0 tid).
Proof.
  intros Ht. unfold response_header, ByteBuffer.Writer.kDefaultCapacity.
  change magic_cookie with (be_store 4 k_stun_magic_cookie). rewrite !app_assoc.
  change (be_store 2 STUN_BINDING_RESPONSE) with ([] ++ be_store 2 STUN_BINDING_RESPONSE).
  apply ByteBuffer.WriteBytes_fits;
    [|autorewrite with zlen endian; unfold ByteBuffer.Writer.kDefaultCapacity; lia].
  apply ByteBuffer.WriteUInt32_fits;
    [|autorewrite with zlen endian; unfold ByteBuffer.Writer.kDefaultCapacity; lia].
  apply ByteBuffer.WriteUInt16_fits;
    [|autorewrite with zlen endian; unfold ByteBuffer.Writer.kDefaultCapacity; lia].
  apply ByteBuffer.WriteUInt16_fits; [apply ByteBuffer.create_default_fits | done].
Qed.

Lemma get_xor_attribute tid f a :
  get_attribute (response_packet tid f a) STUN_XOR_MAPPED_ADDRESS =
    Some (mkAttribute STUN_XOR_MAPPED_ADDRESS 8 (StunAttributeXorAddress a f)).
Proof. reflexivity. Qed.

(** The serializer computes exactly these bytes, never through a stale header
    pointer. *)
Lemma serialize_response passwd tid f a :
  zlen tid = 12 ->
  exists w, serialize_bind_response (response_packet tid f a) ByteBuffer.Writer.create_default passwd
              = Ok w /\
    ByteBuffer.Writer.Data w = Ok (response passwd tid f a).
Proof.
  intros Ht. unfold serialize_bind_response. cbn [hdr msg_cookie trans_id response_packet].
  pose proof (write_header_fits tid Ht) as W0.
  pose proof (zlen_response_header 0 tid Ht) as Hh. pose proof (zlen_xor_attribute f a) as Hx.
  assert (Hcap : ByteBuffer.Writer.kDefaultCapacity = 4096) by done.
  set (w0 := ByteBuffer.Writer.WriteBytes _ tid) in *. clearbody w0.
  rewrite get_xor_attribute. cbn [body].
  destruct (write_xor_fits 1 w0 _ f a W0) as (w1 & -> & W1); [lia|].
  rewrite (fits_block _ _ _ W1). change (u16 (0 + 12 + 24)) with 36.
  destruct (set_header_len _ _ _ 36 _ _ W1) as (w2 & -> & W2). cbn [mbind res_bind].
  rewrite (fits_data _ _ _ W2). cbn [mbind res_bind].
  rewrite mem_read_all by (rewrite zlen_app, Hx, zlen_response_header by done; done).
  cbn [mbind res_bind]. destruct (sha1_hmac_ref passwd (response_header 36 tid ++ xor_attribute f a))
    as [-> Hm]. fold (response_hmac passwd tid f a) in *. rewrite Hm.
  change (20 =? k_stun_message_integrity_size) with true. cbn [andb].
  destruct (write_integrity_fits 1 w2 _ _ Hm W2) as (w3 & -> & W3).
  { rewrite zlen_app, Hx, zlen_response_header by done. lia. }
  change (u16 (0 + 12 + 24 + 8)) with 44. rewrite <- app_assoc in W3.
  destruct (set_header_len _ _ _ 44 _ _ W3) as (w4 & -> & W4). cbn [mbind res_bind].
  fold (response_body passwd tid f a) in W4. rewrite (fits_data _ _ _ W4). cbn [mbind res_bind].
  eexists. split; [reflexivity|].
  destruct (write_fingerprint_fits 1 w4 _
    (Z.lxor (Crc.ComputeCrc32 (response_body passwd tid f a)) STUN_FINGERPRINT_XOR_VALUE) W4)
    as (w5 & -> & W5).
  { rewrite zlen_response_body by done. lia. }
  apply (fits_data _ _ _ W5).
Qed.

(** *** The response is accepted by the parser *)

Lemma read_part (m a b c : bytes) off n :
  m = a ++ b ++ c -> off = zlen a -> n = zlen b -> mem_read m off n = Ok b.
Proof. intros ->. apply mem_read_mid. Qed.

(** The layout of a message with a binding-response type. *)
Definition message (l : Z) (tid rest : bytes) : bytes := response_header l tid ++ rest.

Lemma message_eq l tid rest :
  message l tid rest = be_store 2 STUN_BINDING_RESPONSE ++ be_store 2 l ++ magic_cookie ++ tid ++ rest.
Proof. unfold message, response_header. by rewrite <- !app_assoc. Qed.

Lemma zlen_message l tid rest : zlen tid = 12 -> zlen (message l tid rest) = 20 + zlen rest.
Proof. intros. unfold message. by rewrite zlen_app, zlen_response_header. Qed.

Lemma message_header l tid rest :
  zlen tid = 12 ->
  header_of (message l tid rest) =
    Ok (mkHeader 257 0 (HostToNetwork16 l) (HostToNetwork32 k_stun_magic_cookie) tid).
Proof.
  intros Ht. rewrite message_eq. unfold header_of, load. change (Z.of_nat 2) with 2. change (Z.of_nat 4) with 4.
  rewrite (read_part _ [] (be_store 2 STUN_BINDING_RESPONSE) (be_store 2 l ++ magic_cookie ++ tid ++ rest) 0 2) by done.
  rewrite (read_part _ (be_store 2 STUN_BINDING_RESPONSE) (be_store 2 l) (magic_cookie ++ tid ++ rest) 2 2) by done.
  rewrite (read_part _ (be_store 2 STUN_BINDING_RESPONSE ++ be_store 2 l) magic_cookie (tid ++ rest) 4 4)
    by (done || by rewrite <- !app_assoc).
  rewrite (read_part _ (be_store 2 STUN_BINDING_RESPONSE ++ be_store 2 l ++ magic_cookie) tid rest 8 12)
    by (done || by rewrite <- !app_assoc). reflexivity.
Qed.

Lemma message_is_stun l tid rest : zlen tid = 12 -> is_stun (message l tid rest) = Ok true.
Proof.
  intros Ht. unfold is_stun. pose proof (zlen_nonneg rest).
  rewrite zlen_message by done. rewrite (proj2 (Z.leb_le STUN_HEADER_SIZE _)) by (unfold STUN_HEADER_SIZE; lia).
  change (mem_get (message l tid rest) 0) with (Ok 1). cbn [mbind res_bind].
  rewrite (read_part _ (be_store 2 STUN_BINDING_RESPONSE ++ be_store 2 l) magic_cookie (tid ++ rest) 4 4)
    by (done || by rewrite message_eq, <- !app_assoc).
  cbn [mbind res_bind]. rewrite bool_decide_true by done. cbn [andb Z.ltb].
  change (1 <? 3) with true. cbn [andb].
  by rewrite message_header.
Qed.

Lemma message_GetBE16 l tid a v b off :
  zlen tid = 12 -> off = 20 + zlen a ->
  GetBE16 (message l tid (a ++ be_store 2 v ++ b)) off = Ok (u16 v).
Proof.
  intros Ht ->. apply GetBE16_store.
  apply (read_part _ (response_header l tid ++ a) (be_store 2 v) b).
  - unfold message. by rewrite <- !app_assoc.
  - by rewrite zlen_app, zlen_response_header.
  - by rewrite zlen_be_store.
Qed.

Lemma message_GetBE32 l tid a v b off :
  zlen tid = 12 -> off = 20 + zlen a ->
  GetBE32 (message l tid (a ++ be_store 4 v ++ b)) off = Ok (u32 v).
Proof.
  intros Ht ->. apply GetBE32_store.
  apply (read_part _ (response_header l tid ++ a) (be_store 4 v) b).
  - unfold message. by rewrite <- !app_assoc.
  - by rewrite zlen_app, zlen_response_header.
  - by rewrite zlen_be_store.
Qed.

Lemma message_read l tid a b c off n :
  zlen tid = 12 -> off = 20 + zlen a -> n = zlen b ->
  mem_read (message l tid (a ++ b ++ c)) off n = Ok b.
Proof.
  intros Ht -> ->. apply (read_part _ (response_header l tid ++ a) b c).
  - unfold message. by rewrite <- !app_assoc.
  - by rewrite zlen_app, zlen_response_header.
  - done.
Qed.

(** The three attributes of the response, one round of the parser each. *)
Lemma parse_one_xor l tid f a rest :
  zlen tid = 12 -> parse_one (IpAddress := IpAddress) (message l tid (xor_attribute f a ++ rest)) 0 = Ok (None, 12).
Proof.
  intros Ht. unfold parse_one, STUN_HEADER_SIZE, xor_attribute. rewrite <- !app_assoc.
  match goal with |- context [message l tid (be_store 2 _ ++ ?t)] =>
    pose proof (message_GetBE16 l tid [] STUN_XOR_MAPPED_ADDRESS t (20 + 0) Ht eq_refl) as E1 end.
  rewrite app_nil_l in E1. rewrite E1. cbn [mbind res_bind].
  rewrite (message_GetBE16 l tid (be_store 2 STUN_XOR_MAPPED_ADDRESS) 8) by done. reflexivity.
Qed.

Lemma parse_one_integrity l tid pre hmac rest :
  zlen tid = 12 -> zlen hmac = 20 ->
  parse_one (IpAddress := IpAddress) (message l tid (pre ++ integrity_attribute hmac ++ rest)) (zlen pre) =
    Ok (Some (mkAttribute STUN_MESSAGE_INTEGRITY 20 (StunAttributeIntegrity (zlen pre + 20) hmac)),
        zlen pre + 24).
Proof.
  intros Ht Hh. unfold parse_one, STUN_HEADER_SIZE, integrity_attribute. rewrite <- !app_assoc.
  rewrite (message_GetBE16 l tid pre STUN_MESSAGE_INTEGRITY _ (20 + zlen pre)) by done. cbn [mbind res_bind].
  rewrite (app_assoc pre).
  rewrite (message_GetBE16 l tid (pre ++ be_store 2 STUN_MESSAGE_INTEGRITY) 20 _ (20 + zlen pre + 2))
    by (done || (autorewrite with zlen endian; lia)). cbn [mbind res_bind].
  change (u16 STUN_MESSAGE_INTEGRITY) with STUN_MESSAGE_INTEGRITY. change (u16 20) with 20.
  change (STUN_MESSAGE_INTEGRITY =? STUN_USERNAME) with false.
  change (STUN_MESSAGE_INTEGRITY =? STUN_MESSAGE_INTEGRITY) with true. cbv iota.
  rewrite <- !app_assoc.
  replace (pre ++ be_store 2 STUN_MESSAGE_INTEGRITY ++ be_store 2 20 ++ hmac ++ rest)
    with ((pre ++ be_store 2 STUN_MESSAGE_INTEGRITY ++ be_store 2 20) ++ hmac ++ rest)
    by (by rewrite <- !app_assoc).
  rewrite message_read by (done || (autorewrite with zlen endian; lia)). cbn [mbind res_bind].
  reflexivity.
Qed.

Lemma parse_one_fingerprint l tid pre fp :
  zlen tid = 12 ->
  parse_one (IpAddress := IpAddress) (message l tid (pre ++ fingerprint_attribute fp)) (zlen pre) =
    Ok (None, zlen pre + 8).
Proof.
  intros Ht. unfold parse_one, STUN_HEADER_SIZE, fingerprint_attribute.
  rewrite (message_GetBE16 l tid pre STUN_FINGERPRINT _ (20 + zlen pre)) by done. cbn [mbind res_bind].
  rewrite (app_assoc pre).
  rewrite (message_GetBE16 l tid (pre ++ be_store 2 STUN_FINGERPRINT) 4 _ (20 + zlen pre + 2))
    by (done || (autorewrite with zlen endian; lia)). reflexivity.
Qed.

Lemma response_body_wf passwd tid f a :
  wf_bytes tid -> wf_bytes (response_body passwd tid f a).
Proof.
  intros Ht. unfold response_body, response_header, xor_attribute, integrity_attribute, response_hmac.
  unfold MessageDigest.hmac_ref.
  rewrite !Forall_app. split_and!; auto using MessageDigest.evp_wf with word;
    repeat (constructor; [unfold is_byte; auto with word; lia|]); constructor.
Qed.

Lemma response_message passwd tid f a :
  response passwd tid f a =
    message 44 tid (xor_attribute f a ++ integrity_attribute (response_hmac passwd tid f a)
      ++ fingerprint_attribute
           (Z.lxor (Crc.ComputeCrc32 (response_body passwd tid f a)) STUN_FINGERPRINT_XOR_VALUE)).
Proof. unfold response, message, response_body at 1. by rewrite <- !app_assoc. Qed.

Lemma zlen_fingerprint_attribute fp : zlen (fingerprint_attribute fp) = 8.
Proof. unfold fingerprint_attribute. autorewrite with zlen endian. done. Qed.

Lemma zlen_response passwd tid f a : zlen tid = 12 -> zlen (response passwd tid f a) = 64.
Proof.
  intros Ht. unfold response. rewrite zlen_app, zlen_fingerprint_attribute, zlen_response_body; done.
Qed.

(** A message that ends in the attribute the serializer appends. *)
Lemma validate_fingerprint_ok m :
  wf_bytes m ->
  validate_fingerprint
    (m ++ fingerprint_attribute (Z.lxor (Crc.ComputeCrc32 m) STUN_FINGERPRINT_XOR_VALUE)) = Ok true.
Proof.
  intros Hm. unfold validate_fingerprint, FINGER_PRINT_ATTRI_SIZE.
  rewrite zlen_app, zlen_fingerprint_attribute. replace (zlen m + 8 - 8) with (zlen m) by lia.
  set (fp := Z.lxor _ _).
  assert (Hfp : u32 fp = fp).
  { apply u32_small. apply (Crc.lxor_bound _ _ 32); [lia| |unfold STUN_FINGERPRINT_XOR_VALUE; lia].
    by apply Crc.ComputeCrc32_bound. }
  unfold fingerprint_attribute.
  rewrite (GetBE16_store _ (zlen m) STUN_FINGERPRINT)
    by (by apply (read_part _ m _ (be_store 2 4 ++ be_store 4 fp))).
  cbn [mbind res_bind].
  rewrite (GetBE16_store _ (zlen m + 2) 4)
    by (apply (read_part _ (m ++ be_store 2 STUN_FINGERPRINT) _ (be_store 4 fp));
        [by rewrite <- !app_assoc | autorewrite with zlen endian; lia | done]).
  cbn [mbind res_bind].
  rewrite (GetBE32_store _ (zlen m + 4) fp)
    by (apply (read_part _ (m ++ be_store 2 STUN_FINGERPRINT ++ be_store 2 4) _ []);
        [by rewrite app_nil_r, <- !app_assoc | autorewrite with zlen endian; lia | done]).
  cbn [mbind res_bind].
  change (u16 STUN_FINGERPRINT =? STUN_FINGERPRINT) with true. change (u16 4 =? 4) with true.
  cbn [negb]. rewrite (read_part _ [] m _ 0 (zlen m)) by done. cbn [mbind res_bind].
  fold fp. by rewrite Hfp, Z.eqb_refl.
Qed.

Lemma parse_loop_step n data pos pos' a attris :
  pos + 24 < zlen data -> parse_one (IpAddress := IpAddress) data pos = Ok (a, pos') ->
  parse_attri_loop (S n) data pos attris =
    parse_attri_loop n data pos' (match a with Some a => attris ++ [a] | None => attris end).
Proof.
  intros Hp E. cbn [parse_attri_loop]. unfold STUN_HEADER_SIZE.
  by rewrite (proj2 (Z.ltb_lt _ _)), E by lia.
Qed.

Lemma parse_loop_stop n data pos (attris : list (StunAttribute IpAddress)) :
  zlen data <= pos + 24 -> parse_attri_loop n data pos attris = Ok attris.
Proof.
  intros Hp. destruct n; [done|]. cbn [parse_attri_loop]. unfold STUN_HEADER_SIZE.
  by rewrite (proj2 (Z.ltb_ge _ _)) by lia.
Qed.

Lemma parse_attri_response passwd tid f a :
  zlen tid = 12 ->
  parse_attri (IpAddress := IpAddress) (response passwd tid f a) =
    Ok [mkAttribute STUN_MESSAGE_INTEGRITY 20
          (StunAttributeIntegrity 32 (response_hmac passwd tid f a))].
Proof.
  intros Ht. unfold parse_attri.
  pose proof (zlen_response passwd tid f a Ht) as Hl. rewrite response_message in *.
  set (fp := Z.lxor _ _) in *. set (hmac := response_hmac passwd tid f a) in *.
  assert (Hh : zlen hmac = 20) by apply zlen_response_hmac.
  pose proof (parse_one_integrity 44 tid (xor_attribute f a) hmac (fingerprint_attribute fp) Ht Hh) as E.
  rewrite zlen_xor_attribute in E. change (12 + 20) with 32 in E. change (12 + 24) with 36 in E.
  pose proof (parse_one_fingerprint 44 tid (xor_attribute f a ++ integrity_attribute hmac) fp Ht) as E2.
  rewrite <- app_assoc in E2. rewrite zlen_app, zlen_xor_attribute in E2.
  assert (Hi : zlen (integrity_attribute hmac) = 24).
  { unfold integrity_attribute. autorewrite with zlen endian. lia. }
  rewrite Hi in E2. change (12 + 24) with 36 in E2.
  rewrite (parse_loop_step 19 _ 0 12 None) by (lia || by apply parse_one_xor).
  erewrite (parse_loop_step 18 _ 12); [|lia|exact E].
  erewrite (parse_loop_step 17 _ 36); [|lia|exact E2].
  by rewrite parse_loop_stop by lia.
Qed.

Lemma parse_response passwd tid f a :
  zlen tid = 12 -> wf_bytes tid ->
  parse (IpAddress := IpAddress) (response passwd tid f a) =
    Ok (Some (mkPacket
      (mkHeader 257 0 44 (HostToNetwork32 k_stun_magic_cookie) tid)
      STUN_SUCCESS_RESPONSE BINDING
      [mkAttribute STUN_MESSAGE_INTEGRITY 20
         (StunAttributeIntegrity 32 (response_hmac passwd tid f a))])).
Proof.
  intros Ht Hw. unfold parse.
  pose proof (zlen_response passwd tid f a Ht) as Hl.
  pose proof (parse_attri_response passwd tid f a Ht) as Hp.
  pose proof (validate_fingerprint_ok _ (response_body_wf passwd tid f a Hw)) as Hv.
  fold (response passwd tid f a) in Hv. rewrite Hl, Hp, Hv. clear Hl Hp Hv.
  rewrite response_message, message_is_stun by done. cbn [mbind res_bind negb].
  rewrite message_header by done. cbn [mbind res_bind msg_len msg_type prefix msg_cookie trans_id].
  reflexivity.
Qed.

(** *** The response authenticates *)

Lemma load_header_len l tid rest : load 2 (message l tid rest) 2 = Ok (HostToNetwork16 l).
Proof.
  unfold load. change (Z.of_nat 2) with 2. rewrite message_eq.
  by rewrite (read_part _ (be_store 2 STUN_BINDING_RESPONSE) (be_store 2 l) (magic_cookie ++ tid ++ rest) 2 2).
Qed.

Lemma store_header_len l l' tid rest :
  store 2 (message l tid rest) 2 (HostToNetwork16 l') = Ok (message l' tid rest).
Proof.
  rewrite !message_eq. unfold store, HostToNetwork16. rewrite le_store_bswap.
  by apply (mem_write_mid (be_store 2 STUN_BINDING_RESPONSE) (be_store 2 l)).
Qed.

Lemma validate_integrity l tid bd rest hmac param attris n :
  zlen tid = 12 -> zlen bd = n - 20 -> zlen hmac = 20 ->
  validate_loop (mkAttribute (IpAddress := IpAddress) STUN_MESSAGE_INTEGRITY 20
                   (StunAttributeIntegrity n hmac) :: attris) param (message l tid (bd ++ rest)) =
    if bool_decide (MessageDigest.hmac_ref MessageDigest.EVP_sha1 (SdpTypes.passwd param)
                      (message (u16 (n + 4)) tid bd) = hmac)
    then validate_loop attris param (message l tid (bd ++ rest))
    else Ok (false, message (u16 (n + 4)) tid (bd ++ rest)).
Proof.
  intros Ht Hb Hh. cbn [validate_loop type body].
  change (STUN_MESSAGE_INTEGRITY =? STUN_USERNAME) with false.
  change (STUN_MESSAGE_INTEGRITY =? STUN_MESSAGE_INTEGRITY) with true. cbv iota.
  rewrite load_header_len. cbn [mbind res_bind].
  replace (n + 24 - STUN_HEADER_SIZE) with (n + 4) by (unfold STUN_HEADER_SIZE; lia).
  rewrite store_header_len. cbn [mbind res_bind].
  rewrite (read_part _ [] (message (u16 (n + 4)) tid bd) rest 0 n);
    [|unfold message; by rewrite <- !app_assoc | done | rewrite zlen_message by done; lia].
  cbn [mbind res_bind].
  destruct (sha1_hmac_ref (SdpTypes.passwd param) (message (u16 (n + 4)) tid bd)) as [-> ->].
  change (20 =? k_stun_message_integrity_size) with true. cbn [negb].
  rewrite (read_part _ [] hmac [0] 0 k_stun_message_integrity_size) by done. cbn [mbind res_bind].
  case_bool_decide; cbn [negb]; [|done]. by rewrite store_header_len.
Qed.

End Response.

(** ** Properties *)

(** The concrete endpoints and hashes of the witnesses. *)
#[local] Existing Instance Uvnet.addr4_ops.
#[local] Existing Instance MessageDigest.toy_evp.

(** C9. A binding response is readable by the program itself: the bytes
    [serialize_bind_response] writes for a remote address and a transaction
    are a 64-byte STUN message whose fingerprint and length are accepted by
    [parse]; parsing gives a success response to a binding with the same
    transaction id, and [validate] with the same password accepts it and
    leaves the packet as it was.  No write goes through a stale header
    pointer, and nothing is read outside the packet. *)
Theorem binding_response_accepted {IpAddress} `{Uvnet.IpAddressOps IpAddress} `{MessageDigest.Evp}
    (tid : bytes) (family : Z) (addr : IpAddress) (passwd ufrag mode : bytes) :
  zlen tid = 12 -> wf_bytes tid ->
  exists wr d p,
    serialize_bind_response (response_packet tid family addr) ByteBuffer.Writer.create_default passwd
      = Ok wr /\
    ByteBuffer.Writer.Data wr = Ok d /\ zlen d = 64 /\ is_stun d = Ok true /\
    parse (IpAddress := IpAddress) d = Ok (Some p) /\
    cls p = STUN_SUCCESS_RESPONSE /\ method p = BINDING /\ trans_id (hdr p) = tid /\
    validate p (SdpTypes.mkIce mode ufrag passwd) d = Ok (true, d).
Proof.
  intros Ht Hw. destruct (serialize_response passwd tid family addr Ht) as (wr & Es & Ed).
  exists wr, (response passwd tid family addr). eexists.
  split; [exact Es|]. split; [exact Ed|]. split; [by apply zlen_response|].
  split; [rewrite response_message; by apply message_is_stun|].
  split; [by apply parse_response|]. do 3 (split; [done|]).
  unfold validate. cbn [_attris]. rewrite response_message.
  pose proof (zlen_xor_attribute family addr) as Hx.
  rewrite validate_integrity by (done || apply zlen_response_hmac || (rewrite Hx; lia)).
  rewrite bool_decide_true by done. done.
Qed.

Lemma binding_response_accepted_witness :
  exists wr d p,
    serialize_bind_response
      (response_packet (lit "transaction!") 1 (Uvnet.mkAddr4 (192, 168, 1, 7) 40000))
      ByteBuffer.Writer.create_default (lit "password") = Ok wr /\
    ByteBuffer.Writer.Data wr = Ok d /\ zlen d = 64 /\ is_stun d = Ok true /\
    parse (IpAddress := Uvnet.addr4) d = Ok (Some p) /\
    cls p = STUN_SUCCESS_RESPONSE /\ method p = BINDING /\ trans_id (hdr p) = lit "transaction!" /\
    validate p (SdpTypes.mkIce [] (lit "frag") (lit "password")) d = Ok (true, d).
Proof.
  apply binding_response_accepted; [reflexivity|].
  vm_compute. repeat (constructor; [split; [discriminate | reflexivity]|]). constructor.
Defined.

(** [is_stun] reads nothing outside the packet and accepts exactly the
    packets of at least 20 bytes whose first byte is below 3, whose second
    byte is below 64 and that carry the magic cookie.  The two bits it takes
    for the zero prefix of RFC 5389 are those of the second byte, so message
    types with these method bits set are refused. *)
Theorem is_stun_spec data :
  wf_bytes data ->
  is_stun data = Ok (match data with
                     | b0 :: b1 :: _ :: _ :: c0 :: c1 :: c2 :: c3 :: _ =>
                         (20 <=? zlen data) && (b0 <? 3) && (b1 <? 64) &&
                         bool_decide ([c0; c1; c2; c3] = magic_cookie)
                     | _ => false
                     end).
Proof.
  intros Hwf. unfold is_stun, STUN_HEADER_SIZE.
  destruct (Z.leb_spec 20 (zlen data)) as [Hl|Hl].
  2: { destruct data as [|b0 [|b1 [|b2 [|b3 [|c0 [|c1 [|c2 [|c3 r]]]]]]]]; try done. }
  destruct data as [|b0 [|b1 [|b2 [|b3 [|c0 [|c1 [|c2 [|c3 r]]]]]]]]; try (by vm_compute in Hl).
  change (mem_get (b0 :: _) 0) with (Ok b0). cbn [mbind res_bind].
  rewrite (read_part _ [b0; b1; b2; b3] [c0; c1; c2; c3] r 4 4) by done. cbn [mbind res_bind andb].
  apply Forall_cons_1 in Hwf as [H0 Hwf]. apply Forall_cons_1 in Hwf as [H1 _].
  destruct (b0 <? 3); [|done]. cbn [andb].
  case_bool_decide as Hc; [|by rewrite andb_false_r]. rewrite andb_true_r.
  unfold header_of, load. change (Z.of_nat 2) with 2. change (Z.of_nat 4) with 4.
  rewrite (read_part _ [] [b0; b1] (b2 :: b3 :: c0 :: c1 :: c2 :: c3 :: r) 0 2) by done.
  rewrite !mem_read_ok by lia. cbn [mbind res_bind fmap res_fmap prefix]. f_equal.
  apply Bool.eq_iff_eq_true. rewrite Z.eqb_eq, Z.ltb_lt. cbn [le_load]. unfold is_byte in *.
  pose proof (Z.div_mod (b0 + 256 * (b1 + 256 * 0)) 16384).
  pose proof (Z.mod_pos_bound (b0 + 256 * (b1 + 256 * 0)) 16384). lia.
Qed.

Lemma is_stun_spec_witness :
  is_stun ([0; 1; 0; 0; 33; 18; 164; 66] ++ replicate 12 7) = Ok true /\
  is_stun ([0; 65; 0; 0; 33; 18; 164; 66] ++ replicate 12 7) = Ok false.
Proof.
  assert (H : forall b, is_byte b -> wf_bytes ([0; b; 0; 0; 33; 18; 164; 66] ++ replicate 12 7)).
  { intros b Hb. unfold is_byte in *. cbn. repeat (constructor; [unfold is_byte; lia|]). constructor. }
  split.
  - exact (is_stun_spec _ (H 1 ltac:(unfold is_byte; lia))).
  - exact (is_stun_spec _ (H 65 ltac:(unfold is_byte; lia))).
Defined.

(** *** What an accepted packet proves *)

Lemma mem_read_split m off n b :
  mem_read m off n = Ok b -> exists a c, m = a ++ b ++ c /\ zlen a = off /\ zlen b = n.
Proof.
  intros Hr. pose proof (mem_read_length _ _ _ _ Hr) as Hl.
  apply mem_read_inv in Hr as (? & ? & ? & ->).
  exists (take (Z.to_nat off) m), (drop (Z.to_nat n) (drop (Z.to_nat off) m)).
  split; [by rewrite !take_drop|]. split; [apply zlen_take; lia | done].
Qed.

(** Overwriting the length field and putting the old value back. *)
Lemma store_restore n data off v x m :
  wf_bytes data -> load n data off = Ok v -> store n data off x = Ok m -> store n m off v = Ok data.
Proof.
  unfold load, store. intros Hw Hl Hs. apply res_fmap_ok in Hl as (b & Hb & ->).
  destruct (mem_read_split _ _ _ _ Hb) as (a & c & -> & Ha & Hn).
  apply Forall_app in Hw as [_ Hw]. apply Forall_app in Hw as [Hwb _].
  assert (Hlen : length b = n) by (unfold zlen in Hn; lia).
  rewrite mem_write_mid in Hs by (rewrite ?length_le_store; done). injection Hs as <-.
  rewrite mem_write_mid by (rewrite ?length_le_store; done).
  by rewrite <- Hlen, le_store_load.
Qed.

Lemma store_wf n data off x m : wf_bytes data -> store n data off x = Ok m -> wf_bytes m.
Proof.
  unfold store, mem_write. intros Hw Hs. case_match; [|done]. injection Hs as <-.
  apply Forall_app. split; [by apply Forall_take|]. apply Forall_app.
  split; [apply le_store_wf | by apply Forall_drop].
Qed.

Section Sound.
Context {IpAddress : Type} `{Uvnet.IpAddressOps IpAddress} `{MessageDigest.Evp}.

(** The HMAC is that of the packet up to the attribute, with the length field
    of a message that ends after it. *)
Definition authentic (param : SdpTypes.IceParameter) (data : bytes) (endpos : Z) (hmac : bytes) : Prop :=
  exists m input,
    store 2 data 2 (HostToNetwork16 (u16 (endpos + 24 - STUN_HEADER_SIZE))) = Ok m /\
    mem_read m 0 endpos = Ok input /\
    take 20 (hmac ++ [0]) =
      MessageDigest.hmac_ref MessageDigest.EVP_sha1 (SdpTypes.passwd param) input.

Definition attribute_ok (param : SdpTypes.IceParameter) (data : bytes)
    (a : StunAttribute IpAddress) : Prop :=
  (type a = STUN_USERNAME ->
     match body a with
     | StunAttributeUsername remote_ufrag _ => remote_ufrag = SdpTypes.ufrag param
     | _ => True
     end) /\
  (type a = STUN_MESSAGE_INTEGRITY ->
     exists endpos hmac, body a = StunAttributeIntegrity endpos hmac /\
       authentic param data endpos hmac).

Lemma validate_loop_sound param data attris d :
  wf_bytes data -> validate_loop attris param data = Ok (true, d) ->
  d = data /\ Forall (attribute_ok param data) attris.
Proof.
  intros Hw. induction attris as [|a attris IH]; cbn [validate_loop]; intros Hv.
  - injection Hv as <-. done.
  - destruct (Z.eqb_spec (type a) STUN_USERNAME) as [Eu|Eu].
    { assert (Hi : type a <> STUN_MESSAGE_INTEGRITY) by (rewrite Eu; done).
      unfold attribute_ok. destruct (body a) eqn:Eb; try (destruct (IH Hv) as [-> ?]; split; [done|];
        constructor; [|done]; rewrite Eb; done).
      case_bool_decide as Er; cbn [negb] in Hv; [|done]. destruct (IH Hv) as [-> ?].
      split; [done|]. constructor; [|done]. by rewrite Eb. }
    destruct (Z.eqb_spec (type a) STUN_MESSAGE_INTEGRITY) as [Ei|Ei].
    + destruct (body a) as [| endpos hmac | | | |] eqn:Eb; try done.
      apply res_bind_ok in Hv as (ori & Hl & Hv). apply res_bind_ok in Hv as (m & Hs & Hv).
      apply res_bind_ok in Hv as (input & Hin & Hv).
      destruct (sha1_hmac_ref (SdpTypes.passwd param) input) as [E1 E2]. rewrite E1, E2 in Hv.
      change (20 =? k_stun_message_integrity_size) with true in Hv. cbn [negb] in Hv.
      apply res_bind_ok in Hv as (given & Hg & Hv).
      case_bool_decide as Eh; cbn [negb] in Hv; [|done].
      rewrite (store_restore 2 data 2 ori _ m Hw Hl Hs) in Hv. cbn [mbind res_bind] in Hv.
      destruct (IH Hv) as [-> ?]. split; [done|]. constructor; [|done]. split; [done|].
      intros _. exists endpos, hmac. split; [done|]. exists m, input. split; [done|]. split; [done|].
      apply mem_read_inv in Hg as (_ & _ & _ & ->). rewrite Eh. by rewrite drop_0.
    + destruct (IH Hv) as [-> ?]. split; [done|]. by constructor.
Qed.
End Sound.

(** C10. A packet [validate] accepts left unchanged, and every USERNAME it
    carries names our ufrag and every MESSAGE-INTEGRITY it carries is the
    HMAC-SHA1, under our password, of the packet up to that attribute with the
    length field of a message that ends after it. *)
Theorem validate_sound {IpAddress} `{Uvnet.IpAddressOps IpAddress} `{MessageDigest.Evp}
    (p : StunPacket IpAddress) param data d :
  wf_bytes data -> validate p param data = Ok (true, d) ->
  d = data /\ Forall (attribute_ok param data) (_attris p).
Proof. apply validate_loop_sound. Qed.

(** A request with a correct user name and HMAC. *)
Definition sample_hmac : bytes :=
  MessageDigest.hmac_ref MessageDigest.EVP_sha1 (lit "pw")
    ([0; 1; 0; 36; 33; 18; 164; 66] ++ replicate 12 7 ++ [0; 6; 0; 6] ++ lit "fr:rem" ++ [0; 0]).
Definition sample_request : bytes :=
  [0; 1; 0; 36; 33; 18; 164; 66] ++ replicate 12 7 ++ [0; 6; 0; 6] ++ lit "fr:rem" ++ [0; 0]
  ++ [0; 8; 0; 20] ++ sample_hmac.

Lemma validate_sound_witness :
  exists p, parse (IpAddress := Uvnet.addr4) sample_request = Ok (Some p) /\
    length (_attris p) = 2%nat /\
    Forall (attribute_ok (SdpTypes.mkIce [] (lit "fr") (lit "pw")) sample_request) (_attris p).
Proof.
  eexists. split; [vm_compute; reflexivity|]. split; [reflexivity|].
  eapply (validate_sound _ (SdpTypes.mkIce [] (lit "fr") (lit "pw")) sample_request sample_request).
  - vm_compute. repeat (constructor; [split; [discriminate | reflexivity]|]). constructor.
  - vm_compute. reflexivity.
Defined.

(** Authentication is optional: a bare 20-byte binding request, with
    neither USERNAME nor MESSAGE-INTEGRITY, is parsed and accepted whatever
    the ufrag and the password are. *)
Theorem unauthenticated_request_accepted {IpAddress} `{Uvnet.IpAddressOps IpAddress}
    `{MessageDigest.Evp} param :
  exists data p, zlen data = 20 /\ parse (IpAddress := IpAddress) data = Ok (Some p) /\
    cls p = STUN_REQUEST /\ method p = BINDING /\ validate p param data = Ok (true, data).
Proof.
  exists ([0; 1; 0; 0; 33; 18; 164; 66] ++ replicate 12 7). eexists.
  split; [reflexivity|]. split; [vm_compute; reflexivity|]. done.
Qed.

(** The length of an attribute is not compared with the length of the
    packet: a 28-byte request whose USERNAME claims 200 bytes makes [parse]
    read past the end. *)
Theorem parse_reads_past_end {IpAddress} `{Uvnet.IpAddressOps IpAddress} :
  exists data, zlen data = 28 /\ is_stun data = Ok true /\
    parse (IpAddress := IpAddress) data = Fail OutOfBounds.
Proof.
  exists ([0; 1; 0; 8; 33; 18; 164; 66] ++ replicate 12 7 ++ [0; 6; 0; 200; 97; 98; 99; 100]).
  split_and!; vm_compute; reflexivity.
Qed.

(** A failed authentication leaves the packet changed: the length field
    keeps the value it had for the HMAC. *)
Theorem validate_failure_clobbers :
  exists data p param d,
    parse (IpAddress := Uvnet.addr4) data = Ok (Some p) /\
    validate p param data = Ok (false, d) /\ d <> data.
Proof.
  exists ([0; 1; 0; 28; 33; 18; 164; 66] ++ replicate 12 7 ++ [0; 8; 0; 20] ++ replicate 20 1 ++ [0; 0; 0; 0]).
  eexists. exists (SdpTypes.mkIce [] (lit "fr") (lit "pw")). eexists.
  split; [vm_compute; reflexivity|]. split; [vm_compute; reflexivity|]. vm_compute. discriminate.
Qed.
