(* ===== verification/CryptoSuites.v ===== *)
(** * rtc_base/ssl_stream_adapter.{h,cc} and api/crypto/crypto_options.cc

    The SRTP protection profiles: names, key and salt lengths, and the list a
    set of options offers in the DTLS handshake. *)
From S2P Require Import Prelude.
Local Open Scope Z_scope.

Definition kSrtpInvalidCryptoSuite : Z := 0.
Definition kSrtpAes128CmSha1_80 : Z := 1.
Definition kSrtpAes128CmSha1_32 : Z := 2.
Definition kSrtpAeadAes128Gcm : Z := 7.
Definition kSrtpAeadAes256Gcm : Z := 8.

Definition kCsAesCm128HmacSha1_80 : bytes := lit "AES_CM_128_HMAC_SHA1_80".
Definition kCsAesCm128HmacSha1_32 : bytes := lit "AES_CM_128_HMAC_SHA1_32".
Definition kCsAeadAes128Gcm : bytes := lit "AEAD_AES_128_GCM".
Definition kCsAeadAes256Gcm : bytes := lit "AEAD_AES_256_GCM".

Definition SrtpCryptoSuiteToName (crypto_suite : Z) : bytes :=
  if crypto_suite =? kSrtpAes128CmSha1_32 then kCsAesCm128HmacSha1_32
  else if crypto_suite =? kSrtpAes128CmSha1_80 then kCsAesCm128HmacSha1_80
  else if crypto_suite =? kSrtpAeadAes128Gcm then kCsAeadAes128Gcm
  else if crypto_suite =? kSrtpAeadAes256Gcm then kCsAeadAes256Gcm
  else [].

Definition SrtpCryptoSuiteFromName (crypto_suite : bytes) : Z :=
  if bool_decide (crypto_suite = kCsAesCm128HmacSha1_32) then kSrtpAes128CmSha1_32
  else if bool_decide (crypto_suite = kCsAesCm128HmacSha1_80) then kSrtpAes128CmSha1_80
  else if bool_decide (crypto_suite = kCsAeadAes128Gcm) then kSrtpAeadAes128Gcm
  else if bool_decide (crypto_suite = kCsAeadAes256Gcm) then kSrtpAeadAes256Gcm
  else kSrtpInvalidCryptoSuite.

(** The two lengths, or [None] for [return false]. *)
Definition GetSrtpKeyAndSaltLengths (crypto_suite : Z) : option (Z * Z) :=
  if (crypto_suite =? kSrtpAes128CmSha1_32) || (crypto_suite =? kSrtpAes128CmSha1_80)
  then Some (16, 14)
  else if crypto_suite =? kSrtpAeadAes128Gcm then Some (16, 12)
  else if crypto_suite =? kSrtpAeadAes256Gcm then Some (32, 12)
  else None.

Definition IsGcmCryptoSuite (crypto_suite : Z) : bool :=
  (crypto_suite =? kSrtpAeadAes256Gcm) || (crypto_suite =? kSrtpAeadAes128Gcm).

Definition IsGcmCryptoSuiteName (crypto_suite : bytes) : bool :=
  bool_decide (crypto_suite = kCsAeadAes256Gcm) || bool_decide (crypto_suite = kCsAeadAes128Gcm).

Record CryptoOptions := mkCryptoOptions {
  enable_gcm_crypto_suites : bool;
  enable_aes128_sha1_32_crypto_cipher : bool;
  enable_aes128_sha1_80_crypto_cipher : bool;
  enable_encrypted_rtp_header_extensions : bool;
  require_frame_encryption : bool;
}.

Definition default_CryptoOptions : CryptoOptions := mkCryptoOptions false false true false false.

Definition NoGcm : CryptoOptions :=
  let o := default_CryptoOptions in
  mkCryptoOptions false (enable_aes128_sha1_32_crypto_cipher o)
    (enable_aes128_sha1_80_crypto_cipher o) (enable_encrypted_rtp_header_extensions o)
    (require_frame_encryption o).

Definition GetSupportedDtlsSrtpCryptoSuites (o : CryptoOptions) : res (list Z) :=
  let crypto_suites :=
    (if enable_aes128_sha1_32_crypto_cipher o then [kSrtpAes128CmSha1_32] else [])
    ++ (if enable_aes128_sha1_80_crypto_cipher o then [kSrtpAes128CmSha1_80] else [])
    ++ (if enable_gcm_crypto_suites o then [kSrtpAeadAes256Gcm; kSrtpAeadAes128Gcm] else []) in
  _ ← require (negb (bool_decide (crypto_suites = []))) AssertFailed;
  Ok crypto_suites.

Definition equals (a b : CryptoOptions) : bool :=
  Bool.eqb (enable_gcm_crypto_suites a) (enable_gcm_crypto_suites b)
  && Bool.eqb (enable_aes128_sha1_32_crypto_cipher a) (enable_aes128_sha1_32_crypto_cipher b)
  && Bool.eqb (enable_aes128_sha1_80_crypto_cipher a) (enable_aes128_sha1_80_crypto_cipher b)
  && Bool.eqb (enable_encrypted_rtp_header_extensions a) (enable_encrypted_rtp_header_extensions b)
  && Bool.eqb (require_frame_encryption a) (require_frame_encryption b).

(** ** Lemmas *)

Lemma options_equals_spec a b : equals a b = true <-> a = b.
Proof.
  unfold equals. rewrite !andb_true_iff, !Bool.eqb_true_iff. destruct a, b; cbn.
  split; [intros [[[[-> ->] ->] ->] ->]; done | intros [= -> -> -> -> ->]; done].
Qed.

Lemma GetSrtpKeyAndSaltLengths_cases cs k s :
  GetSrtpKeyAndSaltLengths cs = Some (k, s) ->
  (cs = 1 /\ k = 16 /\ s = 14) \/ (cs = 2 /\ k = 16 /\ s = 14) \/
  (cs = 7 /\ k = 16 /\ s = 12) \/ (cs = 8 /\ k = 32 /\ s = 12).
Proof.
  unfold GetSrtpKeyAndSaltLengths, kSrtpAes128CmSha1_32, kSrtpAes128CmSha1_80,
    kSrtpAeadAes128Gcm, kSrtpAeadAes256Gcm.
  destruct (Z.eqb_spec cs 2), (Z.eqb_spec cs 1), (Z.eqb_spec cs 7), (Z.eqb_spec cs 8);
    cbn; intros; simplify_eq; lia || tauto.
Qed.

Definition known_suite (cs : Z) : Prop :=
  SrtpCryptoSuiteFromName (SrtpCryptoSuiteToName cs) = cs /\
  is_Some (GetSrtpKeyAndSaltLengths cs).

Lemma known_suites :
  Forall known_suite
    [kSrtpAes128CmSha1_32; kSrtpAes128CmSha1_80; kSrtpAeadAes256Gcm; kSrtpAeadAes128Gcm].
Proof. repeat (constructor; [split; [reflexivity | by eexists]|]). constructor. Qed.

(** Every offered suite has a name that denotes it and known key lengths. *)
Lemma offered_suites_known o l :
  GetSupportedDtlsSrtpCryptoSuites o = Ok l -> l <> [] /\ Forall known_suite l.
Proof.
  unfold GetSupportedDtlsSrtpCryptoSuites. intros H.
  apply res_bind_ok in H as (u & Hr & H). apply require_ok, negb_true_iff in Hr.
  apply bool_decide_eq_false in Hr. injection H as <-. split; [done|].
  clear Hr. pose proof known_suites as Hk. rewrite !list.Forall_cons in Hk.
  rewrite !Forall_app. split_and!; case_match; rewrite ?list.Forall_cons, ?list.Forall_nil; tauto.
Qed.
