(* ===== verification/Dtls.v ===== *)
(** * udp/rtc_dtls.{h,cpp}: the DTLS transport

    [RtcDtls] owns an SSL stream adapter (OpenSSL behind it) that reads the
    peer's records from a [DtlsStreamInterface], a packet queue, and writes
    its own to the UDP socket.  The adapter is the class [SslAdapter]: what it
    answers to the calls [RtcDtls] makes.  Delivering a packet raises
    [SignalEvent], during which the adapter may call back
    [RtcDtls::slot_dtls_event]; the class gives the events of each delivery.
    The stream's [_udp] is the socket its datagrams come to.  When the member
    leaves, [destory] stops the stream ([stop_udp]) in the handler that closes
    the socket, before the callback that deletes it runs. *)
From S2P Require Import Prelude.
From S2P Require Buffer BufferQueue CryptoSuites.
Local Open Scope Z_scope.

Definition k_dtls_record_header_len : Z := 13.
Definition k_max_dtls_packet_len : Z := 2048.

(** ** Classification *)

Definition is_dtls (data : bytes) : res bool :=
  if 13 <=? zlen data then d0 ← mem_get data 0; Ok ((19 <? d0) && (d0 <? 64)) else Ok false.

Definition is_dtls_client_hello_packet (data : bytes) : res bool :=
  dtls ← is_dtls data;
  if negb dtls then Ok false
  else if 17 <? zlen data then
    d0 ← mem_get data 0;
    if d0 =? 22 then d13 ← mem_get data 13; Ok (d13 =? 1) else Ok false
  else Ok false.

(** The loop of [do_handle_dtls_packet]: [pos] is [data - temp]. *)
Fixpoint records_ok (fuel : nat) (data : bytes) (pos tmp_size : Z) : res bool :=
  if 0 <? tmp_size then
    match fuel with
    | O => Fail OutOfFuel
    | S f =>
        if tmp_size <? k_dtls_record_header_len then Ok false
        else
          hi ← mem_get data (pos + 11); lo ← mem_get data (pos + 12);
          let record_len := Z.lor (Z.shiftl hi 8) lo in
          if tmp_size <? record_len + k_dtls_record_header_len then Ok false
          else records_ok f data (pos + (k_dtls_record_header_len + record_len))
                 (tmp_size - (k_dtls_record_header_len + record_len))
    end
  else Ok true.

Definition check_records (data : bytes) : res bool :=
  records_ok (length data) data 0 (zlen data).

(** ** DtlsStreamInterface *)

Inductive StreamState := SS_CLOSED | SS_OPENING | SS_OPEN.
Inductive StreamResult := SR_ERROR | SR_SUCCESS | SR_BLOCK | SR_EOS.

#[export] Instance StreamState_eq_dec : EqDecision StreamState.
Proof. solve_decision. Defined.

Record DtlsStreamInterface := mkStream {
  _que : BufferQueue.BufferQueue;
  stream_state : StreamState;
  _is_stop : bool;
  sent : list bytes;   (* the datagrams given to [_udp->send2] *)
}.

Definition new_stream : DtlsStreamInterface :=
  mkStream (BufferQueue.create 2048 2) SS_OPEN false [].

Definition GetState (s : DtlsStreamInterface) : StreamState := stream_state s.

(** The result and the bytes read. *)
Definition Read (s : DtlsStreamInterface) (buffer_len : Z)
    : res (StreamResult * bytes * DtlsStreamInterface) :=
  match stream_state s with
  | SS_CLOSED => Ok (SR_EOS, [], s)
  | SS_OPENING => Ok (SR_BLOCK, [], s)
  | SS_OPEN =>
      '(r, q) ← BufferQueue.ReadFront (_que s) buffer_len;
      let s' := mkStream q (stream_state s) (_is_stop s) (sent s) in
      Ok (match r with
          | None => (SR_BLOCK, [], s')
          | Some bs => (SR_SUCCESS, bs, s')
          end)
  end.

(** The result and [*written]. *)
Definition Write (s : DtlsStreamInterface) (data : bytes) : StreamResult * Z * DtlsStreamInterface :=
  let s' := if negb (_is_stop s)
            then mkStream (_que s) (stream_state s) (_is_stop s) (sent s ++ [data]) else s in
  (SR_SUCCESS, zlen data, s').

Definition stop_udp (s : DtlsStreamInterface) : DtlsStreamInterface :=
  mkStream (_que s) (stream_state s) true (sent s).

Definition Close (s : DtlsStreamInterface) : DtlsStreamInterface :=
  mkStream (BufferQueue.Clear (_que s)) SS_CLOSED (_is_stop s) (sent s).

(** Up to the [SignalEvent] at its end, which is sent unless the first
    component is [None]. *)
Definition on_packet_receive (s : DtlsStreamInterface) (data : bytes)
    : option bool * DtlsStreamInterface :=
  if _is_stop s then (None, s)
  else
    let '(w, q) := BufferQueue.WriteBack (_que s) data in
    (Some (match w with Some _ => true | None => false end),
     mkStream q (stream_state s) (_is_stop s) (sent s)).

(** ** RtcDtls *)

Inductive DtlsTransportState := k_new | k_connecting | k_connected | k_closed | k_failed.

#[export] Instance DtlsTransportState_eq_dec : EqDecision DtlsTransportState.
Proof. solve_decision. Defined.

(** A signal of the adapter: the event mask, the error code, and the results
    of the [Read] calls made while the slot drains it (the first that is not
    [SR_SUCCESS] ends the loop). *)
Record dtls_signal := mkSignal { sig : Z; error : Z; reads : list StreamResult }.

Class SslAdapter (A : Type) := {
  (* SetIdentity, SetMode, SetMaxProtocolVersion, SetServerRole and the
     connection of the two slots *)
  configure : A -> A;
  (* runs the handshake as far as the stream below allows *)
  StartSSL : A -> DtlsStreamInterface -> Z * A * DtlsStreamInterface;
  (* processing after [SE_READ] on the stream below *)
  on_readable : A -> DtlsStreamInterface -> A * DtlsStreamInterface * list dtls_signal;
  SetPeerCertificateDigest : A -> bytes -> bytes -> bool * A;
  SetDtlsSrtpCryptoSuites : A -> list Z -> bool * A;
  GetDtlsSrtpCryptoSuite : A -> option Z;
  ExportKeyingMaterial : A -> bytes -> Z -> option bytes;
  (* exactly [result_len] bytes are exported *)
  export_length : forall a label n r, ExportKeyingMaterial a label n = Some r -> zlen r = n;
}.

Section RtcDtls.
Context {A : Type} `{SslAdapter A}.

Record RtcDtls := mkRtcDtls {
  _remote_alg : bytes;
  _state : DtlsTransportState;
  _dtls_adapter : option A;
  _downward : DtlsStreamInterface;
  _srtp_ciphers : list Z;
  _remote_fingerprint_value : Buffer.Buffer;
}.

Definition set_state (d : RtcDtls) (s : DtlsTransportState) : RtcDtls :=
  mkRtcDtls (_remote_alg d) s (_dtls_adapter d) (_downward d) (_srtp_ciphers d)
    (_remote_fingerprint_value d).

(** The constructor, given the adapter [SSLStreamAdapter::Create] returns. *)
Definition new_RtcDtls (a : A) : res RtcDtls :=
  ciphers ← CryptoSuites.GetSupportedDtlsSrtpCryptoSuites CryptoSuites.default_CryptoOptions;
  Ok (mkRtcDtls [] k_new (Some a) new_stream ciphers Buffer.empty).

Definition destory (d : RtcDtls) : RtcDtls :=
  mkRtcDtls (_remote_alg d) (_state d) (_dtls_adapter d) (stop_udp (_downward d))
    (_srtp_ciphers d) (_remote_fingerprint_value d).

Definition set_remote_dtls (d : RtcDtls) (alg digest : bytes) : res RtcDtls :=
  let remote_fingerprint_value := Buffer.create_from digest 0 in
  same ← Buffer.equals (_remote_fingerprint_value d) remote_fingerprint_value;
  if same && negb (bool_decide (alg = [])) then Ok d
  else Ok (mkRtcDtls alg (_state d) (_dtls_adapter d) (_downward d) (_srtp_ciphers d)
             remote_fingerprint_value).

(** The suite, the send key and the receive key; the adapter's answer
    initialises [*selected_crypto_suite]. *)
Definition extract_srtp_keys (d : RtcDtls) : res (option (Z * bytes * bytes)) :=
  match _dtls_adapter d with
  | None => Ok None
  | Some a =>
      cs ← from_opt Uninitialized (GetDtlsSrtpCryptoSuite a);
      match CryptoSuites.GetSrtpKeyAndSaltLengths cs with
      | None => Ok None
      | Some (key_len, salt_len) =>
          match ExportKeyingMaterial a (lit "EXTRACTOR-dtls_srtp") (key_len * 2 + salt_len * 2) with
          | None => Ok None
          | Some results =>
              key1 ← substr results 0 key_len;
              key2 ← substr results key_len key_len;
              salt1 ← substr results (key_len + key_len) salt_len;
              salt2 ← substr_from results (key_len + key_len + salt_len);
              Ok (Some (cs, key2 ++ salt2, key1 ++ salt1))
          end
      end
  end.

Definition setup_dtls (d : RtcDtls) : res (bool * RtcDtls) :=
  match _dtls_adapter d with
  | None => Ok (false, d)
  | Some a =>
      let with_adapter a :=
        mkRtcDtls (_remote_alg d) (_state d) (Some a) (_downward d) (_srtp_ciphers d)
          (_remote_fingerprint_value d) in
      let a := configure a in
      if Buffer.size_ (_remote_fingerprint_value d) <? 1 then Ok (false, with_adapter a)
      else
        fp ← Buffer.data (_remote_fingerprint_value d);
        let '(ok, a) := SetPeerCertificateDigest a (_remote_alg d) fp in
        if negb ok then Ok (false, with_adapter a)
        else if negb (bool_decide (_srtp_ciphers d = [])) then
          let '(ok, a) := SetDtlsSrtpCryptoSuites a (_srtp_ciphers d) in
          Ok (ok, with_adapter a)
        else Ok (false, with_adapter a)
  end.

(** [sig & rtc::SE_OPEN] and so on. *)
Definition SE_OPEN : Z := 1.
Definition SE_READ : Z := 2.
Definition SE_CLOSE : Z := 8.

Fixpoint drain (s : DtlsTransportState) (reads : list StreamResult) : DtlsTransportState :=
  match reads with
  | SR_SUCCESS :: rest => drain s rest
  | SR_EOS :: _ => k_closed
  | SR_ERROR :: _ => k_failed
  | SR_BLOCK :: _ | [] => s
  end.

Definition slot_dtls_event (s : DtlsTransportState) (e : dtls_signal) : DtlsTransportState :=
  let s := if negb (Z.land (sig e) SE_OPEN =? 0) then k_connected else s in
  let s := if negb (Z.land (sig e) SE_CLOSE =? 0)
           then if error e =? 0 then k_closed else k_failed else s in
  if negb (Z.land (sig e) SE_READ =? 0) then drain s (reads e) else s.

(** [_downward] lives inside the adapter, so without one the call on it is on
    a freed object. *)
Definition do_handle_dtls_packet (d : RtcDtls) (data : bytes) : res (bool * RtcDtls) :=
  ok ← check_records data;
  if negb ok then Ok (false, d)
  else
    match on_packet_receive (_downward d) data with
    | (None, s) => Ok (false, d)
    | (Some flag, s) =>
        a ← from_opt NullDeref (_dtls_adapter d);
        let '(a, s, events) := on_readable a s in
        Ok (flag, mkRtcDtls (_remote_alg d) (foldl slot_dtls_event (_state d) events) (Some a) s
                    (_srtp_ciphers d) (_remote_fingerprint_value d))
    end.

(** The [k_new] branch of [handle_dtls]. *)
Definition start_dtls (d : RtcDtls) : res RtcDtls :=
  if bool_decide (_state d = k_new) then
    a ← from_opt NullDeref (_dtls_adapter d);
    let '(ret, a, s) := StartSSL a (_downward d) in
    Ok (mkRtcDtls (_remote_alg d) (if ret =? 0 then k_connecting else k_new) (Some a)
          s (_srtp_ciphers d) (_remote_fingerprint_value d))
  else Ok d.

Definition handle_dtls (d : RtcDtls) (data : bytes) : res RtcDtls :=
  d ← start_dtls d;
  match _state d with
  | k_connecting =>
      hello ← is_dtls_client_hello_packet data;
      if negb hello then Ok d
      else
        '(flag, d) ← do_handle_dtls_packet d data;
        Ok (if (flag : bool) then set_state d k_connected else d)
  | k_connected => '(_, d) ← do_handle_dtls_packet d data; Ok d
  | _ => Ok d
  end.

(** The calls a client makes on the object. *)
Inductive dtls_call :=
  | call_set_remote_dtls (alg digest : bytes)
  | call_setup_dtls
  | call_handle_dtls (data : bytes)
  | call_destory.

Definition do_call (d : RtcDtls) (c : dtls_call) : res RtcDtls :=
  match c with
  | call_set_remote_dtls alg digest => set_remote_dtls d alg digest
  | call_setup_dtls => '(_, d) ← setup_dtls d; Ok d
  | call_handle_dtls data => handle_dtls d data
  | call_destory => Ok (destory d)
  end.

Fixpoint do_calls (d : RtcDtls) (cs : list dtls_call) : res RtcDtls :=
  match cs with
  | [] => Ok d
  | c :: cs => d ← do_call d c; do_calls d cs
  end.
End RtcDtls.
Arguments RtcDtls A : clear implicits.

(** ** Records *)

(** A DTLS record: thirteen header bytes, the last two the payload's length. *)
Definition record (r : bytes) : Prop :=
  exists h hi lo payload, r = h ++ [hi; lo] ++ payload /\ length h = 11%nat /\
    zlen payload = Z.lor (Z.shiftl hi 8) lo.

Lemma mem_get_app (a b : bytes) i :
  zlen a <= i -> mem_get (a ++ b) i = mem_get b (i - zlen a).
Proof.
  intros Hi. pose proof (zlen_nonneg a). unfold mem_get.
  rewrite (proj2 (Z.leb_le 0 i)), (proj2 (Z.leb_le 0 (i - zlen a))) by lia. f_equal.
  rewrite lookup_app_r by (unfold zlen in *; lia). f_equal. unfold zlen. lia.
Qed.

Lemma record_len_nonneg hi lo : 0 <= hi -> 0 <= lo -> 0 <= Z.lor (Z.shiftl hi 8) lo.
Proof. intros. apply Z.lor_nonneg. split; [apply Z.shiftl_nonneg|]; lia. Qed.

(** The loop at [pos] looks only at the rest of the packet. *)
Lemma records_ok_spec n : forall pre rest,
  wf_bytes rest -> (length rest <= n)%nat ->
  exists b, records_ok n (pre ++ rest) (zlen pre) (zlen rest) = Ok b /\
    (b = true <-> exists rs, rest = concat rs /\ Forall record rs).
Proof.
  induction n as [|n IH]; intros pre rest Hw Hn.
  - destruct rest; [|cbn in Hn; lia]. exists true. split; [done|]. split; [|done].
    intros _. exists []. done.
  - cbn [records_ok]. destruct (Z.ltb_spec 0 (zlen rest)) as [Hp|Hp].
    2: { assert (rest = []) as -> by (apply nil_length_inv; unfold zlen in *; lia).
         exists true. split; [done|]. split; [|done]. intros _. by exists []. }
    unfold k_dtls_record_header_len.
    assert (Hfirst : forall rs, rest = concat rs -> Forall record rs ->
              exists r rs', rs = r :: rs' /\ record r /\ Forall record rs' /\ rest = r ++ concat rs').
    { intros [|r rs'] -> Hf; [unfold zlen in Hp; cbn in Hp; lia|].
      apply Forall_cons_1 in Hf as [? ?]. exists r, rs'. done. }
    destruct (Z.ltb_spec (zlen rest) 13) as [Hs|Hs].
    { exists false. split; [done|]. split; [done|]. intros (rs & Hc & Hf).
      destruct (Hfirst rs Hc Hf) as (r & rs' & -> & (h & hi & lo & payload & -> & Hh & Hl) & _ & E).
      rewrite E in Hs. pose proof (zlen_nonneg (concat rs')). pose proof (zlen_nonneg payload).
      rewrite !zlen_app in Hs. unfold zlen at 1 2 in Hs. rewrite Hh in Hs. cbn in Hs. lia. }
    (* the header *)
    destruct (mem_get_ok rest 11 ltac:(lia)) as [hi Hhi].
    destruct (mem_get_ok rest 12 ltac:(lia)) as [lo Hlo].
    rewrite !mem_get_app by lia.
    replace (zlen pre + 11 - zlen pre) with 11 by lia.
    replace (zlen pre + 12 - zlen pre) with 12 by lia.
    rewrite Hhi, Hlo. cbn [mbind res_bind].
    pose proof (mem_get_wf _ _ _ Hw Hhi) as Bhi. pose proof (mem_get_wf _ _ _ Hw Hlo) as Blo.
    unfold is_byte in Bhi, Blo. set (L := Z.lor (Z.shiftl hi 8) lo).
    assert (HL : 0 <= L) by (apply record_len_nonneg; lia).
    apply mem_get_inv in Hhi as [_ Hhi]. apply mem_get_inv in Hlo as [_ Hlo].
    change (Z.to_nat 11) with 11%nat in Hhi. change (Z.to_nat 12) with 12%nat in Hlo.
    assert (Hrec : forall r rs', record r -> rest = r ++ concat rs' -> zlen r = L + 13).
    { intros r rs' (h & hi' & lo' & payload & -> & Hh & Hl) E.
      rewrite E, <- !app_assoc in Hhi, Hlo.
      rewrite lookup_app_r in Hhi, Hlo by lia. rewrite Hh in Hhi, Hlo. cbn in Hhi, Hlo.
      simplify_eq. rewrite !zlen_app, Hl. unfold zlen. rewrite Hh. cbn. unfold L. lia. }
    destruct (Z.ltb_spec (zlen rest) (L + 13)) as [Ht|Ht].
    { exists false. split; [done|]. split; [done|]. intros (rs & Hc & Hf).
      destruct (Hfirst rs Hc Hf) as (r & rs' & -> & Hr & _ & E).
      pose proof (Hrec r rs' Hr E) as Hz. rewrite E, zlen_app, Hz in Ht.
      pose proof (zlen_nonneg (concat rs')). lia. }
    set (r := take (Z.to_nat (L + 13)) rest). set (rest' := drop (Z.to_nat (L + 13)) rest).
    assert (Er : rest = r ++ rest') by (symmetry; apply take_drop).
    assert (Hzr : zlen r = L + 13) by (apply zlen_take; lia).
    destruct (IH (pre ++ r) rest') as (b & Hb & Hiff).
    { unfold rest'. by apply Forall_drop. }
    { unfold rest'. rewrite length_drop. unfold zlen in *. lia. }
    rewrite <- app_assoc, <- Er in Hb.
    replace (zlen pre + (13 + L)) with (zlen (pre ++ r)) by (rewrite zlen_app; lia).
    replace (zlen rest - (13 + L)) with (zlen rest')
      by (pose proof (f_equal zlen Er) as E; rewrite zlen_app in E; lia).
    exists b. split; [exact Hb|]. rewrite Hiff. split.
    + intros (rs & Hc & Hf). exists (r :: rs). cbn. split; [by rewrite <- Hc|].
      constructor; [|done]. exists (take 11 r), hi, lo, (drop 13 r).
      assert (Hr11 : r !! 11%nat = Some hi).
      { rewrite Er, lookup_app_l in Hhi by (unfold zlen in Hzr; lia). done. }
      assert (Hr12 : r !! 12%nat = Some lo).
      { rewrite Er, lookup_app_l in Hlo by (unfold zlen in Hzr; lia). done. }
      split; [|split].
      * rewrite <- (take_drop 11 r) at 1. f_equal. rewrite (drop_S _ _ _ Hr11).
        by rewrite (drop_S _ _ _ Hr12).
      * rewrite length_take. unfold zlen in Hzr. lia.
      * fold L. replace 13%nat with (Z.to_nat 13) by done. rewrite zlen_drop; lia.
    + intros (rs & Hc & Hf). destruct (Hfirst rs Hc Hf) as (r' & rs' & -> & Hr & Hf' & E).
      exists rs'. split; [|done]. pose proof (Hrec r' rs' Hr E) as Hz.
      rewrite E in Er. apply app_inj_1 in Er as [_ Er]; [by symmetry|].
      unfold zlen in *. lia.
Qed.


(** C33. The record check of [do_handle_dtls_packet] never reads outside the
    packet, terminates, and accepts exactly the packets that are a sequence of
    whole DTLS records. *)
Theorem check_records_spec (data : bytes) :
  wf_bytes data ->
  exists b, check_records data = Ok b /\
    (b = true <-> exists rs, data = concat rs /\ Forall record rs).
Proof. intros Hw. apply (records_ok_spec (length data) [] data Hw). done. Qed.

Lemma check_records_spec_witness :
  wf_bytes (repeat 0 12 ++ [1; 7]) /\
  exists b, check_records (repeat 0 12 ++ [1; 7]) = Ok b /\
    (b = true <-> exists rs, repeat 0 12 ++ [1; 7] = concat rs /\ Forall record rs).
Proof.
  assert (Hw : wf_bytes (repeat 0 12 ++ [1; 7])).
  { repeat constructor; unfold is_byte; lia. }
  split; [exact Hw|]. apply (check_records_spec _ Hw).
Defined.

Lemma is_dtls_total data : exists b, is_dtls data = Ok b.
Proof.
  unfold is_dtls. destruct (Z.leb_spec 13 (zlen data)); [|by eexists].
  destruct (mem_get_ok data 0 ltac:(lia)) as [x ->]. by eexists.
Qed.

Lemma is_dtls_client_hello_total data : exists b, is_dtls_client_hello_packet data = Ok b.
Proof.
  unfold is_dtls_client_hello_packet. destruct (is_dtls_total data) as [b ->].
  cbn [mbind res_bind]. destruct b; cbn [negb]; [|by eexists].
  destruct (Z.ltb_spec 17 (zlen data)); [|by eexists].
  destruct (mem_get_ok data 0 ltac:(lia)) as [x ->]. cbn [mbind res_bind].
  destruct (x =? 22); [|by eexists].
  destruct (mem_get_ok data 13 ltac:(lia)) as [y ->]. by eexists.
Qed.

(** ** The keys *)

Lemma srtp_lengths cs k s :
  CryptoSuites.GetSrtpKeyAndSaltLengths cs = Some (k, s) -> 0 < k /\ 0 < s.
Proof.
  intros H. destruct (CryptoSuites.GetSrtpKeyAndSaltLengths_cases _ _ _ H); intuition lia.
Qed.

(** The exported block is the client's key, the server's, the client's salt
    and the server's (RFC 5764, 4.2): the server sends with the second of each
    and receives with the first. *)
Definition key_block (n_key n_salt : Z) (r ck sk cs ss : bytes) : Prop :=
  r = ck ++ sk ++ cs ++ ss /\
  zlen ck = n_key /\ zlen sk = n_key /\ zlen cs = n_salt /\ zlen ss = n_salt.

Lemma key_block_exists k s r :
  0 <= k -> 0 <= s -> zlen r = k * 2 + s * 2 -> exists ck sk cs ss, key_block k s r ck sk cs ss.
Proof.
  intros Hk Hs Hr.
  exists (take (Z.to_nat k) r), (take (Z.to_nat k) (drop (Z.to_nat k) r)),
    (take (Z.to_nat s) (drop (Z.to_nat k) (drop (Z.to_nat k) r))),
    (drop (Z.to_nat s) (drop (Z.to_nat k) (drop (Z.to_nat k) r))).
  split; [by rewrite !take_drop|].
  assert (E1 : zlen (drop (Z.to_nat k) r) = k + s * 2) by (rewrite zlen_drop; lia).
  assert (E2 : zlen (drop (Z.to_nat k) (drop (Z.to_nat k) r)) = s * 2) by (rewrite zlen_drop; lia).
  rewrite zlen_drop, !zlen_take by lia. lia.
Qed.

Section Keys.
Context {A : Type} `{SslAdapter A}.

(** Once the handshake has agreed on a suite that has key lengths and the
    export succeeds, the send key is the server's key followed by the server's
    salt, the receive key is the client's, and both have the length of the
    suite. *)
Theorem extract_srtp_keys_spec (d : RtcDtls A) (a : A) (cs k s : Z) (r : bytes) :
  _dtls_adapter d = Some a ->
  GetDtlsSrtpCryptoSuite a = Some cs ->
  CryptoSuites.GetSrtpKeyAndSaltLengths cs = Some (k, s) ->
  ExportKeyingMaterial a (lit "EXTRACTOR-dtls_srtp") (k * 2 + s * 2) = Some r ->
  exists ck sk csalt ssalt, key_block k s r ck sk csalt ssalt /\
    extract_srtp_keys d = Ok (Some (cs, sk ++ ssalt, ck ++ csalt)) /\
    zlen (sk ++ ssalt) = k + s /\ zlen (ck ++ csalt) = k + s.
Proof.
  intros Ha Hc Hl He. pose proof (srtp_lengths _ _ _ Hl) as [Hk Hs].
  destruct (key_block_exists k s r ltac:(lia) ltac:(lia) (export_length _ _ _ _ He))
    as (ck & sk & c1 & c2 & Hb).
  exists ck, sk, c1, c2. split; [exact Hb|]. destruct Hb as (-> & E1 & E2 & E3 & E4).
  split; [|rewrite !zlen_app; lia].
  unfold extract_srtp_keys. rewrite Ha, Hc. cbn [from_opt mbind res_bind]. rewrite Hl, He.
  pose proof (substr_mid [] ck (sk ++ c1 ++ c2) 0 k eq_refl (eq_sym E1)) as Hck.
  cbn [app] in Hck. rewrite Hck. cbn [mbind res_bind].
  rewrite (substr_mid ck sk _ k k) by lia. cbn [mbind res_bind].
  rewrite (app_assoc ck sk), (substr_mid (ck ++ sk) c1) by (rewrite ?zlen_app; lia).
  cbn [mbind res_bind].
  rewrite (app_assoc (ck ++ sk) c1), substr_from_app by (rewrite !zlen_app; lia). done.
Qed.

(** Before the adapter has agreed on a suite the answer is computed from an
    uninitialised variable. *)
Lemma extract_srtp_keys_early (d : RtcDtls A) (a : A) :
  _dtls_adapter d = Some a -> GetDtlsSrtpCryptoSuite a = None ->
  extract_srtp_keys d = Fail Uninitialized.
Proof. intros Ha Hc. unfold extract_srtp_keys. by rewrite Ha, Hc. Qed.
End Keys.

(** ** The state machine *)

Section States.
Context {A : Type} `{SslAdapter A}.

Lemma do_handle_total (d : RtcDtls A) data :
  wf_bytes data -> is_Some (_dtls_adapter d) ->
  exists flag d', do_handle_dtls_packet d data = Ok (flag, d') /\ is_Some (_dtls_adapter d').
Proof.
  intros Hw [a Ha]. unfold do_handle_dtls_packet.
  destruct (records_ok_spec (length data) [] data Hw ltac:(lia)) as (b & Hb & _).
  unfold check_records. cbn [app] in Hb. rewrite (@zlen_nil Z) in Hb. rewrite Hb.
  cbn [mbind res_bind]. destruct b; cbn [negb]; [|by eauto].
  destruct (on_packet_receive _ _) as [[flag|] s]; [|by eauto].
  rewrite Ha. cbn [from_opt mbind res_bind].
  destruct (on_readable a s) as [[a' s'] evs]. eexists _, _. split; [done|]. by eexists.
Qed.

Lemma start_total (d : RtcDtls A) :
  is_Some (_dtls_adapter d) ->
  exists d', start_dtls d = Ok d' /\ is_Some (_dtls_adapter d') /\
    (_state d = k_new -> _state d' = k_new \/ _state d' = k_connecting) /\
    (_state d <> k_new -> d' = d).
Proof.
  intros [a Ha]. unfold start_dtls. case_bool_decide as E.
  - rewrite Ha. cbn [from_opt mbind res_bind]. destruct (StartSSL a _) as [[ret a'] s].
    eexists. split; [done|]. cbn. split; [by eexists|]. split; [|done].
    destruct (ret =? 0); auto.
  - exists d. split; [done|]. split; [by eexists|]. done.
Qed.

(** Whatever the state, a packet never makes the transport fault. *)
Lemma handle_dtls_total (d : RtcDtls A) data :
  wf_bytes data -> is_Some (_dtls_adapter d) ->
  exists d', handle_dtls d data = Ok d' /\ is_Some (_dtls_adapter d').
Proof.
  intros Hw Ha. unfold handle_dtls.
  destruct (start_total d Ha) as (d0 & -> & Ha0 & _ & _). cbn [mbind res_bind].
  destruct (is_dtls_client_hello_total data) as [hello ->].
  destruct (do_handle_total d0 data Hw Ha0) as (flag & d2 & -> & Ha2). cbn [mbind res_bind].
  destruct (_state d0); eauto. destruct hello; cbn [negb]; eauto. destruct flag; eauto.
Qed.

(** A packet that is not a ClientHello does not get past the hello gate. *)
(** Making a connection for a peer never faults, and keeps the adapter. *)
Lemma set_up_total (a : A) alg digest :
  exists d0 d1 flag d2, new_RtcDtls a = Ok d0 /\ set_remote_dtls d0 alg digest = Ok d1 /\
    setup_dtls d1 = Ok (flag, d2) /\ is_Some (_dtls_adapter d2).
Proof.
  assert (Hn : exists l, new_RtcDtls a = Ok (mkRtcDtls [] k_new (Some a) new_stream l Buffer.empty))
    by (eexists; reflexivity).
  destruct Hn as [l Hn]. eexists _. set (d1 := mkRtcDtls alg k_new (Some a) new_stream l
    (Buffer.create_from digest 0)).
  assert (Hdata : Buffer.data (Buffer.create_from digest 0) = Ok digest) by apply Buffer.create_from_data.
  assert (Hset : exists d1', set_remote_dtls (mkRtcDtls [] k_new (Some a) new_stream l Buffer.empty)
      alg digest = Ok d1' /\ (d1' = d1 \/ d1' = mkRtcDtls [] k_new (Some a) new_stream l Buffer.empty)).
  { unfold set_remote_dtls, Buffer.equals. cbn [_remote_fingerprint_value].
    destruct (negb (_ =? _)); rewrite ?bind_ok; [by eauto|].
    change (Buffer.data Buffer.empty) with (Ok (@nil Z)). rewrite bind_ok, Hdata, !bind_ok.
    destruct (_ && _); eauto. }
  destruct Hset as (d1' & Hset & Hd1'). exists d1'.
  assert (Hup : exists flag d2, setup_dtls d1' = Ok (flag, d2) /\ is_Some (_dtls_adapter d2)).
  { unfold setup_dtls. destruct Hd1' as [->| ->]; cbn [_dtls_adapter _remote_fingerprint_value d1];
      destruct (Buffer.size_ _ <? 1) eqn:E; try (by eauto); try done.
    rewrite Hdata, bind_ok. repeat case_match; eauto. }
  destruct Hup as (flag & d2 & E & Hd2). by exists flag, d2.
Qed.

Lemma handle_not_hello (d d' : RtcDtls A) data :
  is_dtls_client_hello_packet data = Ok false ->
  _state d = k_new \/ _state d = k_connecting ->
  handle_dtls d data = Ok d' -> _state d' = k_new \/ _state d' = k_connecting.
Proof.
  intros Hh Hs Hd. unfold handle_dtls in Hd. apply res_bind_ok in Hd as (d1 & H1 & Hd).
  assert (Hs1 : _state d1 = k_new \/ _state d1 = k_connecting).
  { unfold start_dtls in H1. case_bool_decide; [|by injection H1 as <-].
    apply res_bind_ok in H1 as (a & _ & H1). destruct (StartSSL a _) as [[ret a'] s].
    injection H1 as <-. cbn. destruct (ret =? 0); auto. }
  destruct Hs1 as [E|E]; rewrite E in Hd.
  - injection Hd as <-. auto.
  - rewrite Hh in Hd. injection Hd as <-. auto.
Qed.

Definition not_hello (c : dtls_call) : Prop :=
  match c with
  | call_handle_dtls data => is_dtls_client_hello_packet data = Ok false
  | _ => True
  end.

Lemma do_call_not_hello (d d' : RtcDtls A) c :
  not_hello c -> _state d = k_new \/ _state d = k_connecting ->
  do_call d c = Ok d' -> _state d' = k_new \/ _state d' = k_connecting.
Proof.
  intros Hn Hs Hd. destruct c as [alg digest| |data|]; cbn [do_call] in Hd.
  - unfold set_remote_dtls in Hd. apply res_bind_ok in Hd as (b & _ & Hd).
    destruct (b && _); injection Hd as <-; done.
  - apply res_bind_ok in Hd as ([b d1] & H1 & Hd). injection Hd as <-.
    unfold setup_dtls in H1. destruct (_dtls_adapter d); [|by injection H1 as <- <-].
    destruct (_ <? 1); [by injection H1 as <- <-|].
    apply res_bind_ok in H1 as (fp & _ & H1).
    destruct (SetPeerCertificateDigest _ _ _) as [ok a'].
    destruct (negb ok); [by injection H1 as <- <-|].
    destruct (negb _); [|by injection H1 as <- <-].
    destruct (SetDtlsSrtpCryptoSuites _ _) as [ok' a'']. by injection H1 as <- <-.
  - by apply (handle_not_hello d d' data).
  - by injection Hd as <-.
Qed.

Lemma do_calls_not_hello cs : forall (d d' : RtcDtls A),
  Forall not_hello cs -> _state d = k_new \/ _state d = k_connecting ->
  do_calls d cs = Ok d' -> _state d' = k_new \/ _state d' = k_connecting.
Proof.
  induction cs as [|c cs IH]; intros d d' Hf Hs Hd; cbn [do_calls] in Hd.
  - by injection Hd as <-.
  - apply Forall_cons_1 in Hf as [Hc Hf]. apply res_bind_ok in Hd as (d1 & H1 & Hd).
    apply (IH d1 d' Hf); [|done]. by apply (do_call_not_hello d d1 c).
Qed.

(** Whatever sequence of calls and packets a fresh transport gets, it leaves
    the states [k_new] and [k_connecting] only through a packet with the shape
    of a DTLS ClientHello. *)
Theorem connected_needs_hello (a : A) (d d' : RtcDtls A) (cs : list dtls_call) :
  new_RtcDtls a = Ok d -> do_calls d cs = Ok d' ->
  _state d' <> k_new -> _state d' <> k_connecting ->
  exists data, call_handle_dtls data ∈ cs /\ is_dtls_client_hello_packet data = Ok true.
Proof.
  intros Hn Hd H1 H2.
  assert (Hs : _state d = k_new \/ _state d = k_connecting).
  { unfold new_RtcDtls in Hn. apply res_bind_ok in Hn as (l & _ & Hn).
    injection Hn as <-. by left. }
  assert (Hdec : (exists data, call_handle_dtls data ∈ cs /\
             is_dtls_client_hello_packet data = Ok true) \/ Forall not_hello cs).
  { clear. induction cs as [|c cs IH]; [by right|]. destruct IH as [(x & Hx & E)|IH].
    - left. exists x. split; [by right|done].
    - destruct c as [| |data|]; try (right; by constructor).
      destruct (is_dtls_client_hello_total data) as [[] E].
      + left. exists data. split; [by left|done].
      + right. by constructor. }
  destruct Hdec as [?|Hf]; [done|].
  destruct (do_calls_not_hello cs d d' Hf Hs Hd); contradiction.
Qed.

(** A packet never makes the transport fault; once closed or failed it ignores
    every packet; and a ClientHello the stream accepts leaves it [k_connected]
    whatever the adapter signalled meanwhile, a failure included. *)
Theorem handle_dtls_transitions (d : RtcDtls A) (data : bytes) :
  wf_bytes data -> is_Some (_dtls_adapter d) ->
  exists d', handle_dtls d data = Ok d' /\ is_Some (_dtls_adapter d') /\
    (_state d = k_closed \/ _state d = k_failed -> d' = d) /\
    (forall d1, _state d = k_connecting -> is_dtls_client_hello_packet data = Ok true ->
       do_handle_dtls_packet d data = Ok (true, d1) -> _state d' = k_connected).
Proof.
  intros Hw Ha. unfold handle_dtls.
  destruct (start_total d Ha) as (d0 & -> & Ha0 & Hs0 & Hid). cbn [mbind res_bind].
  destruct (is_dtls_client_hello_total data) as [hello Eh].
  destruct (do_handle_total d0 data Hw Ha0) as (flag & d2 & E2 & Ha2).
  destruct (decide (_state d = k_new)) as [En|En].
  - assert (Hex : exists d', (match _state d0 with
        | k_connecting =>
            hello ← is_dtls_client_hello_packet data;
            if negb hello then Ok d0
            else '(flag, d) ← do_handle_dtls_packet d0 data;
                 Ok (if (flag : bool) then set_state d k_connected else d)
        | k_connected => '(_, d) ← do_handle_dtls_packet d0 data; Ok d
        | _ => Ok d0 end) = Ok d' /\ is_Some (_dtls_adapter d')).
    { destruct (Hs0 En) as [E|E]; rewrite E; [by eauto|]. rewrite Eh. cbn [mbind res_bind].
      destruct hello; cbn [negb]; [|by eauto]. rewrite E2. cbn [mbind res_bind].
      eexists. split; [done|]. by destruct flag. }
    destruct Hex as (d' & -> & Ha'). exists d'. rewrite En.
    split; [done|]. split; [done|]. split; [by intros [?|?] | by intros].
  - rewrite (Hid En) in *. destruct (_state d) eqn:Es; try done.
    + rewrite Eh. cbn [mbind res_bind]. destruct hello; cbn [negb].
      * rewrite E2. cbn [mbind res_bind]. eexists. split; [done|].
        split; [by destruct flag|]. split; [by intros [?|?]|].
        intros d1 _ _ [= -> ->]. done.
      * exists d. split_and!; try done; by intros [?|?].
    + rewrite E2. cbn [mbind res_bind]. exists d2. split_and!; try done; by intros [?|?].
    + exists d. split_and!; done.
    + exists d. split_and!; done.
Qed.
End States.

(** ** An adapter for concrete runs

    It agrees on its first suite when a first record arrives, signalling an
    open stream when the record's payload starts with byte 1 followed by a
    zero, and a close with an error otherwise; its keying material counts up
    from zero. *)
Record toy_ssl := mkToy { toy_suites : list Z; toy_done : bool }.

Definition toy_readable (a : toy_ssl) (s : DtlsStreamInterface)
    : toy_ssl * DtlsStreamInterface * list dtls_signal :=
  match Read s 2048 with
  | Ok (SR_SUCCESS, bs, s') =>
      if toy_done a then (a, s', [mkSignal SE_READ 0 [SR_BLOCK]])
      else if bool_decide (bs !! 14%nat = Some 0)
      then (mkToy (toy_suites a) true, snd (Write s' [22]), [mkSignal SE_OPEN 0 []])
      else (a, s', [mkSignal SE_CLOSE 1 []])
  | _ => (a, s, [])
  end.

Definition toy_export (n : Z) : option bytes := if 0 <=? n then Some (seqZ 0 n) else None.

Lemma toy_export_length n r : toy_export n = Some r -> zlen r = n.
Proof.
  unfold toy_export. destruct (Z.leb_spec 0 n); intros; simplify_eq.
  unfold zlen. rewrite length_seqZ. lia.
Qed.

Definition toy_adapter : SslAdapter toy_ssl := {|
  configure a := a;
  StartSSL a s := (0, a, s);
  on_readable := toy_readable;
  SetPeerCertificateDigest a _ _ := (true, a);
  SetDtlsSrtpCryptoSuites a l := (true, mkToy l (toy_done a));
  GetDtlsSrtpCryptoSuite a := if toy_done a then head (toy_suites a) else None;
  ExportKeyingMaterial _ _ n := toy_export n;
  export_length _ _ n r := toy_export_length n r;
|}.

Section Witnesses.
#[local] Existing Instance toy_adapter.

(** A ClientHello record: the payload is 1 and four more bytes. *)
Definition hello_packet (b : Z) : bytes := [22; 254; 253] ++ repeat 0 9 ++ [5; 1; b; 0; 0; 9].

Definition hello_calls (b : Z) : list dtls_call :=
  [call_set_remote_dtls (lit "sha-256") [1; 2; 3]; call_setup_dtls;
   call_handle_dtls (hello_packet b)].

Definition fresh_adapter : toy_ssl := mkToy [] false.

Definition fresh_dtls : res (RtcDtls toy_ssl) := new_RtcDtls fresh_adapter.

(** The states a run of calls ends in. *)
Definition final_state (cs : list dtls_call) : res DtlsTransportState :=
  d ← fresh_dtls; d ← do_calls d cs; Ok (_state d).

Example final_states :
  final_state [] = Ok k_new /\
  final_state [call_handle_dtls [20]] = Ok k_connecting /\
  final_state (hello_calls 0) = Ok k_connected.
Proof. split_and!; vm_compute; reflexivity. Qed.

(** The handshake failed, and the transport says [k_connected]. *)
Example failure_overridden : final_state (hello_calls 7) = Ok k_connected.
Proof. vm_compute. reflexivity. Qed.

Lemma connected_needs_hello_witness :
  exists d d' : RtcDtls toy_ssl, new_RtcDtls fresh_adapter = Ok d /\
    do_calls d (hello_calls 0) = Ok d' /\ _state d' = k_connected /\
    exists data, call_handle_dtls data ∈ hello_calls 0 /\
      is_dtls_client_hello_packet data = Ok true.
Proof.
  eexists _, _.
  assert (E1 : new_RtcDtls fresh_adapter = Ok ltac:(let r := eval vm_compute in fresh_dtls in
            match r with Ok ?d => exact d end)) by (vm_compute; reflexivity).
  split; [exact E1|].
  match type of E1 with _ = Ok ?d =>
    let r := eval vm_compute in (do_calls d (hello_calls 0)) in
    match r with Ok ?d' => assert (E2 : do_calls d (hello_calls 0) = Ok d')
      by (vm_compute; reflexivity) end end.
  split; [exact E2|]. split; [reflexivity|].
  apply (connected_needs_hello _ _ _ _ E1 E2); discriminate.
Defined.

(** A transport whose handshake is over. *)
Definition connected_dtls (st : DtlsTransportState) : RtcDtls toy_ssl :=
  mkRtcDtls (lit "sha-256") st (Some (mkToy [CryptoSuites.kSrtpAes128CmSha1_80] true))
    new_stream [CryptoSuites.kSrtpAes128CmSha1_80] (Buffer.create_from [1; 2] 0).

Lemma extract_srtp_keys_spec_witness :
  exists ck sk csalt ssalt,
    key_block 16 14 (seqZ 0 60) ck sk csalt ssalt /\
    extract_srtp_keys (connected_dtls k_connected) = Ok (Some (1, sk ++ ssalt, ck ++ csalt)) /\
    zlen (sk ++ ssalt) = 16 + 14 /\ zlen (ck ++ csalt) = 16 + 14.
Proof.
  apply (extract_srtp_keys_spec (connected_dtls k_connected)
           (mkToy [CryptoSuites.kSrtpAes128CmSha1_80] true) 1 16 14 (seqZ 0 60));
    vm_compute; reflexivity.
Defined.

Lemma handle_dtls_transitions_witness :
  exists d' : RtcDtls toy_ssl,
    handle_dtls (connected_dtls k_failed) (hello_packet 0) = Ok d' /\
    is_Some (_dtls_adapter d') /\
    (_state (connected_dtls k_failed) = k_closed \/ _state (connected_dtls k_failed) = k_failed ->
     d' = connected_dtls k_failed) /\
    (forall d1, _state (connected_dtls k_failed) = k_connecting ->
       is_dtls_client_hello_packet (hello_packet 0) = Ok true ->
       do_handle_dtls_packet (connected_dtls k_failed) (hello_packet 0) = Ok (true, d1) ->
       _state d' = k_connected).
Proof.
  apply (handle_dtls_transitions (connected_dtls k_failed) (hello_packet 0)).
  - repeat constructor; unfold is_byte; lia.
  - by eexists.
Defined.
End Witnesses.
