(* ===== verification/CopyOnWriteBuffer.v ===== *)
(** * rtc_base/copy_on_write_buffer.{h,cc}: shared byte buffers

    A [CopyOnWriteBuffer] holds a counted reference to a heap-allocated
    [rtc::Buffer].  [heap] is the store of those objects with their reference
    counts, and of the [buffer_] members of the live handles; every method is
    a function on it.  The refinement at the end of the file shows that the
    sharing cannot be observed: each handle behaves as a value of its own. *)
From S2P Require Import Prelude.
From S2P Require Buffer.
Local Open Scope Z_scope.

(** [RefCountedObject<Buffer>]. *)
Record object := mkObject { buf : Buffer.Buffer; ref_count : Z }.

Record heap := mkHeap {
  objects : gmap nat object;
  handles : gmap nat (option nat);   (* [buffer_] of each live handle *)
}.

Definition empty_heap : heap := mkHeap ∅ ∅.

(** ** Counted references: [RefCounter], [RefCountedObject], [scoped_refptr] *)

Definition get_object (h : heap) (o : nat) : res object := from_opt Dangling (objects h !! o).

Definition set_object (h : heap) (o : nat) (ob : object) : heap :=
  mkHeap (<[o := ob]> (objects h)) (handles h).

Definition AddRef (h : heap) (p : option nat) : res heap :=
  match p with
  | None => Ok h
  | Some o => ob ← get_object h o; Ok (set_object h o (mkObject (buf ob) (ref_count ob + 1)))
  end.

Definition Release (h : heap) (p : option nat) : res heap :=
  match p with
  | None => Ok h
  | Some o =>
      ob ← get_object h o;
      let n := ref_count ob - 1 in
      if n =? 0 then Ok (mkHeap (delete o (objects h)) (handles h))
      else Ok (set_object h o (mkObject (buf ob) n))
  end.

Definition HasOneRef (ob : object) : bool := ref_count ob =? 1.

(** [new RefCountedObject<Buffer>]: the count starts at zero. *)
Definition alloc (h : heap) (b : Buffer.Buffer) : nat * heap :=
  let o := fresh (dom (objects h)) in (o, set_object h o (mkObject b 0)).

Definition get_handle (h : heap) (x : nat) : res (option nat) :=
  from_opt Dangling (handles h !! x).

Definition set_handle (h : heap) (x : nat) (p : option nat) : heap :=
  mkHeap (objects h) (<[x := p]> (handles h)).

(** [scoped_refptr(T* p)] and [operator=(T* p)]. *)
Definition construct (h : heap) (x : nat) (p : option nat) : res heap :=
  h ← AddRef h p; Ok (set_handle h x p).

Definition assign (h : heap) (x : nat) (p : option nat) : res heap :=
  old ← get_handle h x;
  h ← AddRef h p;
  h ← Release h old;
  Ok (set_handle h x p).

(** [buffer_ = new RefCountedObject<Buffer>(...)]. *)
Definition assign_new (h : heap) (x : nat) (b : Buffer.Buffer) : res heap :=
  let '(o, h) := alloc h b in assign h x (Some o).

(** ** The methods *)

(** The object behind a handle. *)
Definition deref (h : heap) (x : nat) : res (option (nat * object)) :=
  p ← get_handle h x;
  match p with
  | None => Ok None
  | Some o => ob ← get_object h o; Ok (Some (o, ob))
  end.

Definition IsConsistent (h : heap) (x : nat) : res bool :=
  p ← deref h x;
  Ok (match p with None => true | Some (_, ob) => 0 <? Buffer.capacity_ (buf ob) end).

Definition dcheck (h : heap) (x : nat) : res heap :=
  c ← IsConsistent h x; _ ← require c AssertFailed; Ok h.

Definition default_ctor (h : heap) (x : nat) : res heap :=
  h ← construct h x None; dcheck h x.

Definition copy_ctor (h : heap) (x y : nat) : res heap :=
  p ← get_handle h y; construct h x p.

Definition move_ctor (h : heap) (x y : nat) : res heap :=
  p ← get_handle h y; Ok (set_handle (set_handle h y None) x p).

Definition size_ctor (h : heap) (x : nat) (size capacity : Z) : res heap :=
  h ← (if (0 <? size) || (0 <? capacity)
       then let '(o, h) := alloc h (Buffer.create size capacity) in construct h x (Some o)
       else construct h x None);
  dcheck h x.

Definition update (h : heap) (o : nat) (f : Buffer.Buffer -> Buffer.Buffer) : res heap :=
  ob ← get_object h o; Ok (set_object h o (mkObject (f (buf ob)) (ref_count ob))).

(** [memcpy] into the block. *)
Definition poke (off : Z) (bs : bytes) (b : Buffer.Buffer) : Buffer.Buffer :=
  Buffer.mkBuffer (Buffer.size_ b) (Buffer.capacity_ b)
    (Buffer.put_cells (Buffer.data_ b) off (Buffer.cells bs)) (Buffer.block b) (Buffer.freed b).

Definition data_ctor (h : heap) (x : nat) (bs : bytes) (capacity : Z) : res heap :=
  h ← size_ctor h x (zlen bs) capacity;
  p ← get_handle h x;
  match p with None => Ok h | Some o => update h o (poke 0 bs) end.

Definition dtor (h : heap) (x : nat) : res heap :=
  p ← get_handle h x;
  h ← Release h p;
  Ok (mkHeap (objects h) (delete x (handles h))).

(** [Buffer(b.data(), n, capacity)]. *)
Definition clone (b : Buffer.Buffer) (n capacity : Z) : Buffer.Buffer :=
  let b' := Buffer.create n capacity in
  Buffer.mkBuffer (Buffer.size_ b') (Buffer.capacity_ b')
    (Buffer.put_cells (Buffer.data_ b') 0 (take (Z.to_nat n) (Buffer.data_ b))) 0 [].

Definition CloneDataIfReferenced (h : heap) (x : nat) (new_capacity : Z) : res heap :=
  p ← deref h x;
  '(o, ob) ← from_opt NullDeref p;
  if HasOneRef ob then Ok h
  else h ← assign_new h x (clone (buf ob) (Buffer.size_ (buf ob)) new_capacity); dcheck h x.

(** [data()]: the object the pointer points into. *)
Definition data (h : heap) (x : nat) : res (option nat * heap) :=
  h ← dcheck h x;
  p ← deref h x;
  match p with
  | None => Ok (None, h)
  | Some (_, ob) =>
      h ← CloneDataIfReferenced h x (Buffer.capacity_ (buf ob));
      p ← get_handle h x; Ok (p, h)
  end.

Definition size (h : heap) (x : nat) : res Z :=
  p ← deref h x;
  Ok (match p with None => 0 | Some (_, ob) => Buffer.size_ (buf ob) end).

Definition capacity (h : heap) (x : nat) : res Z :=
  p ← deref h x;
  Ok (match p with None => 0 | Some (_, ob) => Buffer.capacity_ (buf ob) end).

Definition copy_assign (h : heap) (x y : nat) : res heap :=
  if bool_decide (x = y) then Ok h else p ← get_handle h y; assign h x p.

(** [buffer_ = std::move(buf.buffer_)]: a temporary takes the reference of
    [y], is swapped with [x], and releases what it got. *)
Definition move_assign (h : heap) (x y : nat) : res heap :=
  p ← get_handle h y;
  let h := set_handle h y None in
  old ← get_handle h x;
  let h := set_handle h x p in
  Release h old.

Definition swap (h : heap) (x y : nat) : res heap :=
  p ← get_handle h x; q ← get_handle h y;
  Ok (set_handle (set_handle h x q) y p).

Definition equals (h : heap) (x y : nat) : res bool :=
  p ← deref h x; q ← deref h y;
  match p, q with
  | None, None => Ok true
  | Some (o, a), Some (o', b) =>
      if bool_decide (o = o') then Ok true else Buffer.equals (buf a) (buf b)
  | _, _ => Ok false
  end.

(** [x[index] = v]. *)
Definition set_byte (h : heap) (x : nat) (index v : Z) : res heap :=
  n ← size h x;
  _ ← require (index <? n) AssertFailed;
  '(p, h) ← data h x;
  o ← from_opt NullDeref p;
  update h o (poke index [v]).

Definition SetData (h : heap) (x : nat) (bs : bytes) : res heap :=
  p ← deref h x;
  h ← match p with
      | None => if 0 <? zlen bs then assign_new h x (Buffer.create_from bs (zlen bs))
                else assign h x None
      | Some (o, ob) =>
          if negb (HasOneRef ob)
          then assign_new h x (Buffer.create_from bs (Buffer.capacity_ (buf ob)))
          else update h o (fun b => Buffer.SetData false b bs)
      end;
  dcheck h x.

Definition AppendData (h : heap) (x : nat) (bs : bytes) : res heap :=
  p ← deref h x;
  match p with
  | None => h ← assign_new h x (Buffer.create_from bs (zlen bs)); dcheck h x
  | Some (_, ob) =>
      h ← CloneDataIfReferenced h x
            (Z.max (Buffer.capacity_ (buf ob)) (Buffer.size_ (buf ob) + zlen bs));
      p ← get_handle h x;
      o ← from_opt NullDeref p;
      h ← update h o (fun b => Buffer.AppendData false b bs);
      dcheck h x
  end.

(** [AppendData(const CopyOnWriteBuffer& buf)]: the source is read through a
    pointer taken before [x] may be reallocated. *)
Definition AppendBuffer (h : heap) (x y : nat) : res heap :=
  src ← deref h y;
  match src with
  | None => AppendData h x []
  | Some (o, ob) =>
      bs ← Buffer.data (buf ob);
      h' ← AppendData h x bs;
      _ ← match objects h' !! o with
          | None => Fail Dangling
          | Some ob' => require (bool_decide (Buffer.block (buf ob') = Buffer.block (buf ob))) Dangling
          end;
      Ok h'
  end.

Definition SetSize (h : heap) (x : nat) (size : Z) : res heap :=
  p ← deref h x;
  match p with
  | None => h ← (if 0 <? size then assign_new h x (Buffer.create size size) else Ok h); dcheck h x
  | Some (o, ob) =>
      h ← (if negb (HasOneRef ob)
           then assign_new h x (clone (buf ob) (Z.min (Buffer.size_ (buf ob)) size)
                                  (Z.max (Buffer.capacity_ (buf ob)) size))
           else Ok h);
      p ← get_handle h x;
      o ← from_opt NullDeref p;
      h ← update h o (fun b => Buffer.SetSize false b size);
      dcheck h x
  end.

Definition EnsureCapacity (h : heap) (x : nat) (capacity : Z) : res heap :=
  p ← deref h x;
  match p with
  | None =>
      h ← (if 0 <? capacity then assign_new h x (Buffer.create 0 capacity) else Ok h); dcheck h x
  | Some (_, ob) =>
      if capacity <=? Buffer.capacity_ (buf ob) then Ok h
      else
        h ← CloneDataIfReferenced h x (Z.max (Buffer.capacity_ (buf ob)) capacity);
        p ← get_handle h x;
        o ← from_opt NullDeref p;
        h ← update h o (fun b => Buffer.EnsureCapacity false b capacity);
        dcheck h x
  end.

Definition Clear (h : heap) (x : nat) : res heap :=
  p ← deref h x;
  match p with
  | None => Ok h
  | Some (o, ob) =>
      h ← (if HasOneRef ob then update h o (Buffer.Clear false)
           else assign_new h x (Buffer.create 0 (Buffer.capacity_ (buf ob))));
      dcheck h x
  end.

(** ** Counting the references *)

Definition nrefs (hs : gmap nat (option nat)) (o : nat) : nat :=
  base.size (filter (fun kv : nat * option nat => kv.2 = Some o) hs).

Definition refers (p : option (option nat)) (o : nat) : nat :=
  if decide (p = Some (Some o)) then 1%nat else 0%nat.

Lemma nrefs_delete hs x o : (nrefs (delete x hs) o + refers (hs !! x) o = nrefs hs o)%nat.
Proof.
  unfold nrefs, refers. rewrite map_filter_delete, map_size_delete.
  destruct (filter _ hs !! x) as [p|] eqn:E.
  - apply map_lookup_filter_Some in E as [E1 E2]. cbn in E2. subst p. rewrite E1.
    rewrite decide_True by done.
    assert (base.size (filter (fun kv : nat * option nat => kv.2 = Some o) hs) <> 0)%nat; [|lia].
    apply map_size_non_empty_iff. intros Hem.
    assert (H : filter (fun kv : nat * option nat => kv.2 = Some o) hs !! x = Some (Some o))
      by by apply map_lookup_filter_Some.
    rewrite Hem in H. done.
  - rewrite decide_False; [cbn; lia|]. intros E1.
    assert (H : filter (fun kv : nat * option nat => kv.2 = Some o) hs !! x = Some (Some o))
      by by apply map_lookup_filter_Some.
    congruence.
Qed.

Lemma nrefs_insert hs x p o :
  (nrefs (<[x:=p]> hs) o + refers (hs !! x) o = nrefs hs o + refers (Some p) o)%nat.
Proof.
  rewrite <- (nrefs_delete hs x o), <- (nrefs_delete (<[x:=p]> hs) x o).
  rewrite lookup_insert_eq, delete_insert_eq. lia.
Qed.

Lemma nrefs_positive hs x o : hs !! x = Some (Some o) -> (0 < nrefs hs o)%nat.
Proof.
  intros H. rewrite <- (nrefs_delete hs x o), H. unfold refers. rewrite decide_True by done. lia.
Qed.

Lemma nrefs_zero_no_handle hs x o : nrefs hs o = 0%nat -> hs !! x <> Some (Some o).
Proof. intros H Hx%nrefs_positive. lia. Qed.

(** A second handle on the same object makes the count at least two. *)
Lemma nrefs_two hs x y o :
  x <> y -> hs !! x = Some (Some o) -> hs !! y = Some (Some o) -> (2 <= nrefs hs o)%nat.
Proof.
  intros Hne Hx Hy. rewrite <- (nrefs_delete hs x o), Hx. unfold refers.
  rewrite decide_True by done.
  assert (0 < nrefs (delete x hs) o)%nat; [|lia].
  apply (nrefs_positive _ y). by rewrite lookup_delete_ne.
Qed.

(** ** The invariant *)

(** Every reference points to a live object; the count of an object is the
    number of handles on it; no object but [pending], the one an assignment is
    about to take, is unreferenced. *)
Record counted (pending : option nat) (h : heap) : Prop := {
  ct_live : forall x o, handles h !! x = Some (Some o) -> is_Some (objects h !! o);
  ct_count : forall o ob, objects h !! o = Some ob -> ref_count ob = Z.of_nat (nrefs (handles h) o);
  ct_used : forall o ob, objects h !! o = Some ob -> pending <> Some o ->
    (0 < nrefs (handles h) o)%nat;
  ct_buf : forall o ob, objects h !! o = Some ob ->
    Buffer.consistent (buf ob) /\ 0 < Buffer.capacity_ (buf ob);
}.

Abbreviation ok := (counted None).

(** What a handle shows: the cells of its buffer. *)
Definition value (h : heap) (x : nat) : option (list (option Z)) :=
  match handles h !! x with
  | None => None
  | Some None => Some []
  | Some (Some o) => match objects h !! o with Some ob => Some (Buffer.contents (buf ob)) | None => None end
  end.

Lemma counted_weaken p h : ok h -> counted p h.
Proof. intros [? ? H ?]. split; try done. intros o ob Ho _. by apply (H o ob). Qed.

(** The state of a handle, as a view on an [ok] heap. *)
Lemma ok_handle h x p :
  ok h -> handles h !! x = Some p ->
  deref h x = match p with
              | None => Ok None
              | Some o => match objects h !! o with Some ob => Ok (Some (o, ob)) | None => Fail Dangling end
              end /\ (forall o, p = Some o -> is_Some (objects h !! o)).
Proof.
  intros Hok Hx. unfold deref, get_handle. rewrite Hx. cbn [from_opt mbind res_bind]. split.
  - destruct p as [o|]; [|done]. unfold get_object. by destruct (objects h !! o).
  - intros o ->. by apply (ct_live _ _ Hok x).
Qed.

(** ** The effect of the counting primitives *)

Definition cnt (p : option nat) (o : nat) : Z := Z.of_nat (refers (Some p) o).

Lemma cnt_eq p o : cnt p o = if decide (p = Some o) then 1 else 0.
Proof. unfold cnt, refers. repeat case_decide; simplify_eq; done. Qed.

Lemma AddRef_spec h p :
  (forall o, p = Some o -> is_Some (objects h !! o)) ->
  exists h', AddRef h p = Ok h' /\ handles h' = handles h /\
    forall o, objects h' !! o =
      (fun ob => mkObject (buf ob) (ref_count ob + cnt p o)) <$> objects h !! o.
Proof.
  intros Hp. destruct p as [q|]; cbn [AddRef].
  - destruct (Hp q eq_refl) as [ob Hq]. unfold get_object. rewrite Hq.
    eexists. split; [done|]. split; [done|]. intros o. rewrite cnt_eq. cbn.
    destruct (decide (o = q)) as [->|Hne].
    + by rewrite lookup_insert_eq, Hq, decide_True by done.
    + rewrite lookup_insert_ne, decide_False by congruence.
      destruct (objects h !! o) as [[b n]|]; [|done]. cbn. do 2 f_equal. lia.
  - exists h. split; [done|]. split; [done|]. intros o. rewrite cnt_eq, decide_False by done.
    destruct (objects h !! o) as [[b n]|]; [|done]. cbn. do 2 f_equal. lia.
Qed.

Lemma Release_spec h p :
  (forall o, p = Some o -> is_Some (objects h !! o)) ->
  exists h', Release h p = Ok h' /\ handles h' = handles h /\
    forall o, objects h' !! o =
      match objects h !! o with
      | None => None
      | Some ob => if decide (p = Some o /\ ref_count ob = 1) then None
                   else Some (mkObject (buf ob) (ref_count ob - cnt p o))
      end.
Proof.
  intros Hp. destruct p as [q|]; cbn [Release].
  - destruct (Hp q eq_refl) as [ob Hq]. unfold get_object. rewrite Hq. cbn [from_opt mbind res_bind].
    assert (Hoth : forall o, o <> q -> match objects h !! o with
      | None => None
      | Some ob => if decide (Some q = Some o /\ ref_count ob = 1) then None
                   else Some (mkObject (buf ob) (ref_count ob - cnt (Some q) o))
      end = objects h !! o).
    { intros o Hne. destruct (objects h !! o) as [[b n]|]; [|done].
      rewrite cnt_eq, !decide_False by (intros ?; intuition congruence). cbn. do 2 f_equal. lia. }
    destruct (Z.eqb_spec (ref_count ob - 1) 0) as [E|E]; eexists; (split; [done|]);
      (split; [done|]); intros o; cbn; (destruct (decide (o = q)) as [->|Hne];
        [rewrite Hq | rewrite Hoth by done]).
    + rewrite decide_True by (split; [done|lia]). apply lookup_delete_eq.
    + by apply lookup_delete_ne.
    + rewrite decide_False by (intros [? ?]; lia). rewrite lookup_insert_eq, cnt_eq, decide_True by done.
      done.
    + by rewrite lookup_insert_ne by done.
  - exists h. split; [done|]. split; [done|]. intros o.
    destruct (objects h !! o) as [[b n]|]; [|done].
    rewrite cnt_eq, !decide_False by (intros ?; intuition congruence). cbn. do 2 f_equal. lia.
Qed.

(** Moving one reference from [a] to [b] (either may be absent), with the
    counts following, keeps the invariant. *)
Lemma counted_relink pending h h' (a b : option (option nat)) :
  counted pending h ->
  (forall o, nrefs (handles h') o + refers a o = nrefs (handles h) o + refers b o)%nat ->
  (forall o, objects h' !! o =
     match objects h !! o with
     | None => None
     | Some ob =>
         let n := ref_count ob + Z.of_nat (refers b o) - Z.of_nat (refers a o) in
         if decide (n = 0) then None else Some (mkObject (buf ob) n)
     end) ->
  (forall x o, handles h' !! x = Some (Some o) -> is_Some (objects h !! o)) ->
  ok h'.
Proof.
  intros Hc Hn Ho Hl.
  assert (Hk : forall o ob, objects h' !! o = Some ob -> exists ob0, objects h !! o = Some ob0 /\
            buf ob = buf ob0 /\ ref_count ob = Z.of_nat (nrefs (handles h') o) /\ ref_count ob <> 0).
  { intros o ob H. rewrite Ho in H. destruct (objects h !! o) as [ob0|] eqn:E; [|done].
    cbv zeta in H. case_decide as Hz; [done|]. injection H as <-. exists ob0. cbn.
    pose proof (ct_count _ _ Hc o ob0 E). pose proof (Hn o). split_and!; try done; lia. }
  split.
  - intros x o Hx. destruct (Hl x o Hx) as [ob E]. rewrite Ho, E. cbv zeta.
    pose proof (ct_count _ _ Hc o ob E). pose proof (Hn o). apply nrefs_positive in Hx.
    rewrite decide_False by lia. by eexists.
  - intros o ob H. by apply Hk in H as (? & ? & ? & ? & ?).
  - intros o ob H _. apply Hk in H as (? & ? & ? & ? & ?). lia.
  - intros o ob H. apply Hk in H as (ob0 & E & -> & _). by apply (ct_buf _ _ Hc o).
Qed.

(** Every object of [h'] holds the buffer it holds in [h]. *)
Definition same_bufs (h h' : heap) : Prop :=
  forall o ob', objects h' !! o = Some ob' -> exists ob, objects h !! o = Some ob /\ buf ob' = buf ob.

(** [buffer_ = p] keeps the invariant and moves [x] to [p]. *)
Lemma assign_spec h x old p :
  counted p h -> handles h !! x = Some old -> (forall o, p = Some o -> is_Some (objects h !! o)) ->
  exists h', assign h x p = Ok h' /\ ok h' /\ handles h' = <[x:=p]> (handles h) /\ same_bufs h h'.
Proof.
  intros Hc Hx Hp. unfold assign, get_handle. rewrite Hx. cbn [from_opt mbind res_bind].
  destruct (AddRef_spec h p Hp) as (h1 & -> & Hh1 & Ho1). cbn [mbind res_bind].
  destruct (Release_spec h1 old) as (h2 & -> & Hh2 & Ho2).
  { intros o ->. rewrite Ho1. destruct (ct_live _ _ Hc x o Hx) as [ob ->]. by eexists. }
  cbn [mbind res_bind]. eexists. split; [done|].
  assert (Ho : forall o, objects h2 !! o =
     match objects h !! o with
     | None => None
     | Some ob =>
         let n := ref_count ob + Z.of_nat (refers (Some p) o) - Z.of_nat (refers (Some old) o) in
         if decide (n = 0) then None else Some (mkObject (buf ob) n)
     end).
  { intros o. rewrite Ho2, Ho1. destruct (objects h !! o) as [ob|] eqn:E; [|done].
    cbn [fmap option_fmap option_map ref_count buf]. cbv zeta. fold (cnt p o) (cnt old o).
    pose proof (ct_count _ _ Hc o ob E) as Hcnt.
    pose proof (nrefs_positive (handles h) x o) as Hpos.
    destruct (decide (old = Some o)) as [->|Hold].
    - rewrite (cnt_eq (Some o)), (decide_True (P := Some o = Some o)) by done.
      specialize (Hpos Hx).
      destruct (decide (ref_count ob + cnt p o - 1 = 0)).
      + rewrite decide_True; [done|]. split; [done|lia].
      + rewrite decide_False by (intros [_ ?]; lia). done.
    - rewrite (decide_False (P := old = Some o /\ _)) by (intros [? _]; done).
      rewrite (cnt_eq old), (decide_False (P := old = Some o)) by done.
      destruct (decide (p = Some o)) as [->|Hpo].
      + rewrite cnt_eq, decide_True by done. rewrite decide_False by lia. done.
      + pose proof (ct_used _ _ Hc o ob E Hpo). rewrite cnt_eq, (decide_False (P := p = Some o)) by done.
        rewrite decide_False by lia. done. }
  split.
  - eapply (counted_relink p h _ (Some old) (Some p)); [exact Hc | | exact Ho |].
    + intros o. cbn. rewrite Hh2, Hh1, <- Hx. apply nrefs_insert.
    + intros y o. cbn. rewrite Hh2, Hh1. destruct (decide (y = x)) as [->|Hne].
      * rewrite lookup_insert_eq. intros [= ->]. by apply Hp.
      * rewrite lookup_insert_ne by done. apply (ct_live _ _ Hc).
  - split; [cbn; by rewrite Hh2, Hh1|]. intros o ob' H. cbn in H. rewrite Ho in H.
    destruct (objects h !! o) as [ob|]; [|done]. cbv zeta in H. case_decide; [done|].
    injection H as <-. by exists ob.
Qed.

Definition good_buf (b : Buffer.Buffer) : Prop := Buffer.consistent b /\ 0 < Buffer.capacity_ b.

(** A fresh object, on no handle yet. *)
Lemma alloc_spec h b o h' :
  ok h -> good_buf b -> alloc h b = (o, h') ->
  counted (Some o) h' /\ handles h' = handles h /\ objects h !! o = None /\
  objects h' !! o = Some (mkObject b 0) /\ (forall o', o' <> o -> objects h' !! o' = objects h !! o').
Proof.
  intros Hok [Hb Hcap] [= <- <-]. set (o := fresh _).
  assert (Ho : objects h !! o = None) by apply not_elem_of_dom, is_fresh.
  assert (Hz : nrefs (handles h) o = 0%nat).
  { destruct (nrefs (handles h) o) eqn:E; [done|]. exfalso.
    assert (Hne : filter (fun kv : nat * option nat => kv.2 = Some o) (handles h) <> ∅).
    { intros Hem. unfold nrefs in E. rewrite Hem in E. done. }
    apply map_choose in Hne as (x & p & Hx). apply map_lookup_filter_Some in Hx as [Hx Hp].
    cbn in Hp. subst p. destruct (ct_live _ _ Hok x o Hx). congruence. }
  split; [|split_and!; cbn].
  - split; cbn.
    + intros x q Hx. destruct (ct_live _ _ Hok x q Hx) as [ob Hq].
      assert (q <> o) by congruence. rewrite lookup_insert_ne by done. by eexists.
    + intros q ob H. apply lookup_insert_Some in H as [[<- <-]|[Hne H]]; [by rewrite Hz|].
      by apply (ct_count _ _ Hok).
    + intros q ob H Hq. apply lookup_insert_Some in H as [[<- <-]|[Hne H]]; [done|].
      by apply (ct_used _ _ Hok q ob).
    + intros q ob H. apply lookup_insert_Some in H as [[<- <-]|[Hne H]]; [done|].
      by apply (ct_buf _ _ Hok q).
  - done.
  - done.
  - apply lookup_insert_eq.
  - intros q Hq. by rewrite lookup_insert_ne.
Qed.

(** The other handles keep their objects, and these their buffers. *)
Definition keeps (h : heap) (x : nat) (h' : heap) : Prop :=
  forall y, y <> x -> handles h' !! y = handles h !! y /\
    forall o ob', handles h !! y = Some (Some o) -> objects h' !! o = Some ob' ->
      exists ob, objects h !! o = Some ob /\ buf ob' = buf ob.

Lemma keeps_refl h x : keeps h x h.
Proof. intros y _. split; [done|]. eauto. Qed.

Lemma keeps_trans h x h1 h2 : keeps h x h1 -> keeps h1 x h2 -> keeps h x h2.
Proof.
  intros H1 H2 y Hy. destruct (H1 y Hy) as [E1 O1], (H2 y Hy) as [E2 O2].
  split; [congruence|]. intros o ob2 Ho E.
  destruct (O2 o ob2) as (ob1 & Eo1 & ->); [congruence|done|].
  by apply (O1 o ob1).
Qed.

Lemma keeps_value h x h' y : ok h' -> keeps h x h' -> y <> x -> value h' y = value h y.
Proof.
  intros Hok Hk Hy. destruct (Hk y Hy) as [E O]. unfold value. rewrite E.
  destruct (handles h !! y) as [[o|]|] eqn:Ey; [|done|done].
  destruct (ct_live _ _ Hok y o) as [ob' E']; [congruence|].
  destruct (O o ob' eq_refl E') as (ob & -> & E2). by rewrite E', E2.
Qed.

(** What an operation on [x] must do: keep the invariant, leave the other
    handles' objects alone, and give [x] a value satisfying [P]. *)
Definition updates (h : heap) (x : nat) (P : list (option Z) -> Prop) (h' : heap) : Prop :=
  ok h' /\ keeps h x h' /\
  exists v, value h' x = Some v /\ P v.

(** ... and this is the object [x] ends on, held by [x] alone. *)
Definition owns (h : heap) (x : nat) (b : Buffer.Buffer) : Prop :=
  exists o, handles h !! x = Some (Some o) /\ objects h !! o = Some (mkObject b 1).

Lemma owns_value h x b : owns h x b -> value h x = Some (Buffer.contents b).
Proof. intros (o & Hx & Ho). unfold value. by rewrite Hx, Ho. Qed.

Lemma assign_new_spec h x old b :
  ok h -> handles h !! x = Some old -> good_buf b ->
  exists h', assign_new h x b = Ok h' /\ ok h' /\ owns h' x b /\ keeps h x h'.
Proof.
  intros Hok Hx Hb. unfold assign_new. destruct (alloc h b) as [o h1] eqn:Ea.
  destruct (alloc_spec h b o h1 Hok Hb Ea) as (Hc & Hh & Hnone & Ho & Hoth).
  destruct (assign_spec h1 x old (Some o) Hc) as (h' & -> & Hok' & Hh' & Hsame).
  { by rewrite Hh. }
  { intros ? [= <-]. by rewrite Ho. }
  assert (Hl : forall y, y <> x -> handles h' !! y = handles h !! y).
  { intros y Hy. by rewrite Hh', lookup_insert_ne, Hh. }
  exists h'. split; [done|]. split; [done|]. split.
  - assert (Hxo : handles h' !! x = Some (Some o)) by (by rewrite Hh', lookup_insert_eq).
    exists o. split; [done|].
    destruct (ct_live _ _ Hok' x o Hxo) as [[b' n] E]. destruct (Hsame o _ E) as (ob & E1 & E2).
    rewrite Ho in E1. injection E1 as <-. cbn in E2. subst b'.
    pose proof (ct_count _ _ Hok' o _ E) as Hn. cbn in Hn. rewrite E. do 2 f_equal. rewrite Hn.
    pose proof (nrefs_insert (handles h) x (Some o) o) as Hi. rewrite Hh', Hh.
    assert (Hz : nrefs (handles h) o = 0%nat).
    { rewrite <- Hh. pose proof (ct_count _ _ Hc o _ Ho) as H0. cbn in H0. lia. }
    assert (Hne : refers (handles h !! x) o = 0%nat).
    { unfold refers. rewrite decide_False; [done|]. intros Hxo'.
      destruct (ct_live _ _ Hok x o Hxo'). congruence. }
    rewrite Hz, Hne in Hi. unfold refers in Hi. rewrite decide_True in Hi by done. lia.
  - intros y Hy. split; [by apply Hl|]. intros q ob' E Eq'.
    destruct (ct_live _ _ Hok y q E) as [ob Eq]. assert (Hq : q <> o) by congruence.
    destruct (Hsame q _ Eq') as (ob1 & E1 & E2). rewrite Hoth in E1 by done. eauto.
Qed.

Lemma HasOneRef_spec h x o ob :
  ok h -> handles h !! x = Some (Some o) -> objects h !! o = Some ob ->
  HasOneRef ob = true -> owns h x (buf ob) /\ forall y, y <> x -> handles h !! y <> Some (Some o).
Proof.
  intros Hok Hx Ho H1. unfold HasOneRef in H1. apply Z.eqb_eq in H1. split.
  - exists o. split; [done|]. rewrite Ho, <- H1. by destruct ob.
  - intros y Hy Hyo. pose proof (nrefs_two _ _ _ _ Hy Hyo Hx).
    pose proof (ct_count _ _ Hok o ob Ho). lia.
Qed.

Lemma owns_unique h x b o :
  ok h -> owns h x b -> handles h !! x = Some (Some o) ->
  objects h !! o = Some (mkObject b 1) /\ forall y, y <> x -> handles h !! y <> Some (Some o).
Proof.
  intros Hok (o' & Hx & Ho) Hx'. rewrite Hx in Hx'. injection Hx' as <-. split; [done|].
  by apply (HasOneRef_spec h x o' _ Hok Hx Ho).
Qed.

(** Changing an object that one handle owns changes that handle's value. *)
Lemma update_owned h x b o f :
  ok h -> owns h x b -> handles h !! x = Some (Some o) -> good_buf (f b) ->
  exists h', update h o f = Ok h' /\ ok h' /\ owns h' x (f b) /\ keeps h x h'.
Proof.
  intros Hok Hown Hx [Hb Hcap]. destruct (owns_unique h x b o Hok Hown Hx) as [Ho Hu].
  unfold update, get_object. rewrite Ho. cbn [from_opt mbind res_bind buf ref_count].
  eexists. split; [done|]. split; [|split].
  - split; cbn.
    + intros y q Hy. destruct (ct_live _ _ Hok y q Hy) as [ob Hq].
      destruct (decide (q = o)) as [->|]; [rewrite lookup_insert_eq | rewrite lookup_insert_ne by done];
        by eexists.
    + intros q ob H. apply lookup_insert_Some in H as [[<- <-]|[Hne H]].
      * apply (ct_count _ _ Hok _ _ Ho).
      * by apply (ct_count _ _ Hok).
    + intros q ob H _. apply lookup_insert_Some in H as [[<- <-]|[Hne H]].
      * by apply (ct_used _ _ Hok _ _ Ho).
      * by apply (ct_used _ _ Hok _ _ H).
    + intros q ob H. apply lookup_insert_Some in H as [[<- <-]|[Hne H]]; [done|].
      by apply (ct_buf _ _ Hok q).
  - exists o. split; [done|]. apply lookup_insert_eq.
  - intros y Hy. split; [done|]. intros q ob' E. cbn.
    rewrite lookup_insert_ne; [eauto|]. intros ->. by apply (Hu y Hy).
Qed.

(** ** One lemma per method *)

Lemma good_AppendData b bs : good_buf b -> good_buf (Buffer.AppendData false b bs).
Proof.
  intros [Hb Hc]. split; [by apply Buffer.AppendData_consistent|].
  pose proof (Buffer.ensure_capacity_mono false b (Buffer.size_ b + zlen bs) true Hb).
  unfold Buffer.AppendData. cbn. lia.
Qed.

Lemma good_create n cap : 0 <= n -> 0 < Z.max n cap -> good_buf (Buffer.create n cap).
Proof. intros. split; [by apply Buffer.create_consistent|]. done. Qed.

Lemma put_cells_0 (d v : list (option Z)) : Buffer.put_cells d 0 v = v ++ drop (length v) d.
Proof. done. Qed.

Lemma clone_good b n cap :
  Buffer.consistent b -> 0 <= n <= Buffer.size_ b -> 0 < Z.max n cap -> good_buf (clone b n cap).
Proof.
  intros [Hl Hs] Hn Hcap. destruct (good_create n cap) as [[Hl' Hs'] Hc]; [lia|lia|].
  split; [|done]. split; [|done]. unfold clone. cbn [Buffer.data_ Buffer.capacity_].
  rewrite Buffer.zlen_put_cells; rewrite ?zlen_take; cbn in *; lia.
Qed.

Lemma clone_contents b n cap :
  Buffer.consistent b -> 0 <= n <= Buffer.size_ b ->
  Buffer.contents (clone b n cap) = take (Z.to_nat n) (Buffer.contents b).
Proof.
  intros [Hl Hs] Hn. unfold Buffer.contents, clone. cbn [Buffer.size_ Buffer.data_ Buffer.create].
  rewrite put_cells_0, take_take, Nat.min_l by lia. apply take_app_length'.
  rewrite length_take. unfold zlen in *. lia.
Qed.

Lemma create_from_good bs cap :
  0 < Z.max (zlen bs) cap -> good_buf (Buffer.create_from bs cap).
Proof.
  intros Hc. split; [|done]. pose proof (zlen_nonneg bs).
  split; [|cbn; lia]. unfold Buffer.create_from. cbn.
  rewrite zlen_app, Buffer.zlen_cells. unfold zlen in *. rewrite length_drop, length_replicate. lia.
Qed.

Lemma create_from_contents bs cap : Buffer.contents (Buffer.create_from bs cap) = Buffer.cells bs.
Proof.
  unfold Buffer.contents, Buffer.create_from. cbn [Buffer.size_ Buffer.data_ Buffer.create].
  apply take_app_length'. rewrite Buffer.length_cells. unfold zlen. lia.
Qed.

Lemma get_handle_ok h x p : handles h !! x = Some p -> get_handle h x = Ok p.
Proof. intros H. unfold get_handle. by rewrite H. Qed.

Lemma deref_null h x : handles h !! x = Some None -> deref h x = Ok None.
Proof. intros H. unfold deref. by rewrite (get_handle_ok _ _ _ H). Qed.

Lemma deref_some h x o ob :
  handles h !! x = Some (Some o) -> objects h !! o = Some ob -> deref h x = Ok (Some (o, ob)).
Proof.
  intros H Ho. unfold deref. rewrite (get_handle_ok _ _ _ H). cbn [mbind res_bind].
  unfold get_object. by rewrite Ho.
Qed.

Lemma dcheck_null h x : handles h !! x = Some None -> dcheck h x = Ok h.
Proof. intros H. unfold dcheck, IsConsistent. by rewrite deref_null. Qed.

Lemma dcheck_ok h x o ob :
  handles h !! x = Some (Some o) -> objects h !! o = Some ob -> 0 < Buffer.capacity_ (buf ob) ->
  dcheck h x = Ok h.
Proof.
  intros H Ho Hc. unfold dcheck, IsConsistent. rewrite (deref_some _ _ _ _ H Ho). cbn [mbind res_bind].
  by rewrite (proj2 (Z.ltb_lt _ _) Hc).
Qed.

Lemma dcheck_owned h x b : owns h x b -> good_buf b -> dcheck h x = Ok h.
Proof. intros (o & Hx & Ho) [_ Hc]. by apply (dcheck_ok h x o _ Hx Ho). Qed.

(** The two cases a live handle can be in. *)
Lemma handle_cases h x v :
  ok h -> value h x = Some v ->
  (handles h !! x = Some None /\ v = []) \/
  exists o ob, handles h !! x = Some (Some o) /\ objects h !! o = Some ob /\
    good_buf (buf ob) /\ v = Buffer.contents (buf ob).
Proof.
  intros Hok H. unfold value in H. destruct (handles h !! x) as [[o|]|] eqn:E; simplify_eq.
  - destruct (objects h !! o) as [ob|] eqn:Eo; simplify_eq. right. exists o, ob.
    split_and!; try done; by apply (ct_buf _ _ Hok o ob Eo).
  - by left.
Qed.

Lemma assign_new_updates h x old b (P : list (option Z) -> Prop) :
  ok h -> handles h !! x = Some old -> good_buf b -> P (Buffer.contents b) ->
  exists h', (h' ← assign_new h x b; dcheck h' x) = Ok h' /\ updates h x P h'.
Proof.
  intros Hok Hx Hb HP. destruct (assign_new_spec h x old b Hok Hx Hb) as (h' & -> & Hok' & Ho & Hv).
  exists h'. cbn [mbind res_bind]. split; [by apply (dcheck_owned _ _ b)|].
  split; [done|]. split; [done|]. exists (Buffer.contents b). split; [by apply owns_value|done].
Qed.

Lemma CloneData_spec h x o ob cap :
  ok h -> handles h !! x = Some (Some o) -> objects h !! o = Some ob ->
  Buffer.capacity_ (buf ob) <= cap ->
  exists h' b, CloneDataIfReferenced h x cap = Ok h' /\ ok h' /\ owns h' x b /\ good_buf b /\
    Buffer.contents b = Buffer.contents (buf ob) /\ Buffer.size_ b = Buffer.size_ (buf ob) /\
    keeps h x h'.
Proof.
  intros Hok Hx Ho Hcap. pose proof (ct_buf _ _ Hok o ob Ho) as [Hb Hc].
  unfold CloneDataIfReferenced. rewrite (deref_some _ _ _ _ Hx Ho). cbn [mbind res_bind from_opt].
  destruct (HasOneRef ob) eqn:E1.
  - destruct (HasOneRef_spec h x o ob Hok Hx Ho E1) as [Hown _].
    exists h, (buf ob). split_and!; try done. apply keeps_refl.
  - pose proof (proj2 Hb) as Hs. set (b := clone (buf ob) (Buffer.size_ (buf ob)) cap).
    assert (Hg : good_buf b) by (apply clone_good; [done|lia|lia]).
    destruct (assign_new_spec h x _ b Hok Hx Hg) as (h' & -> & Hok' & Hown & Hv).
    exists h', b. cbn [mbind res_bind]. split; [by apply (dcheck_owned _ _ b)|].
    split_and!; try done. unfold b. rewrite clone_contents by (done || lia).
    apply take_ge. pose proof (Buffer.zlen_contents _ Hb). unfold zlen in *. lia.
Qed.

(** The tail shared by the methods that clone and then change the buffer. *)
Lemma update_tail h0 h x b f (P : list (option Z) -> Prop) :
  ok h -> owns h x b -> keeps h0 x h ->
  good_buf (f b) -> P (Buffer.contents (f b)) ->
  exists h', (p ← get_handle h x; o ← from_opt NullDeref p; h ← update h o f; dcheck h x) = Ok h' /\
    updates h0 x P h'.
Proof.
  intros Hok Hown Hv Hg HP. pose proof Hown as (o & Hx & Ho).
  rewrite (get_handle_ok _ _ _ Hx). cbn [mbind res_bind from_opt].
  destruct (update_owned h x b o f Hok Hown Hx Hg) as (h' & -> & Hok' & Hown' & Hv').
  cbn [mbind res_bind]. exists h'. split; [by apply (dcheck_owned _ _ (f b))|].
  split; [done|]. split; [by eapply keeps_trans|].
  exists (Buffer.contents (f b)). split; [by apply owns_value|done].
Qed.

Lemma SetData_spec h x v bs :
  ok h -> value h x = Some v ->
  exists h', SetData h x bs = Ok h' /\ updates h x (fun w => w = Buffer.cells bs) h'.
Proof.
  intros Hok Hv. pose proof (zlen_nonneg bs).
  destruct (handle_cases h x v Hok Hv) as [[Hx ->]|(o & ob & Hx & Ho & [Hb Hc] & ->)]; unfold SetData.
  - rewrite deref_null by done. cbn [mbind res_bind]. destruct (Z.ltb_spec 0 (zlen bs)).
    + apply (assign_new_updates h x None); [done|done| |apply create_from_contents].
      apply create_from_good. lia.
    + destruct (assign_spec h x None None) as (h' & -> & Hok' & Hh & Hs); try done.
      cbn [mbind res_bind]. exists h'.
      assert (Hx' : handles h' !! x = Some None) by (by rewrite Hh, lookup_insert_eq).
      split; [by apply dcheck_null|]. split; [done|]. split.
      * intros y Hy. rewrite Hh, lookup_insert_ne by done. split; [done|].
        intros o ob' _ E. by apply Hs.
      * exists []. split; [unfold value; by rewrite Hx'|].
        assert (bs = []) as -> by (apply nil_length_inv; unfold zlen in *; lia). done.
  - rewrite (deref_some _ _ _ _ Hx Ho). cbn [mbind res_bind]. destruct (HasOneRef ob) eqn:E; cbn [negb].
    + destruct (HasOneRef_spec h x o ob Hok Hx Ho E) as [Hown _].
      assert (Hg : good_buf (Buffer.SetData false (buf ob) bs)).
      { split; [by apply Buffer.SetData_consistent|].
        assert (Buffer.capacity_ (buf ob) <= Buffer.capacity_ (Buffer.SetData false (buf ob) bs)); [|lia].
        unfold Buffer.SetData, Buffer.zero_shrunk. cbn [andb].
        apply (Buffer.AppendData_capacity false _ bs (Buffer.reset_consistent _ Hb)). }
      destruct (update_owned h x _ o (fun b => Buffer.SetData false b bs) Hok Hown Hx Hg) as (h' & -> & Hok' & Hown' & Hv').
      cbn [mbind res_bind]. exists h'. split; [by apply (dcheck_owned _ _ _ Hown')|].
      split; [done|]. split; [done|]. eexists. split; [by apply owns_value|].
      pose proof (Buffer.SetData_data false (buf ob) bs Hb) as Hd.
      by apply Buffer.data_inv in Hd.
    + apply (assign_new_updates h x (Some o)); [done|done| |apply create_from_contents].
      apply create_from_good. lia.
Qed.

Lemma AppendData_spec h x v bs :
  ok h -> value h x = Some v -> v <> [] \/ bs <> [] \/ handles h !! x <> Some None ->
  exists h', AppendData h x bs = Ok h' /\ updates h x (fun w => w = v ++ Buffer.cells bs) h'.
Proof.
  intros Hok Hv Hne.
  destruct (handle_cases h x v Hok Hv) as [[Hx ->]|(o & ob & Hx & Ho & [Hb Hc] & ->)]; unfold AppendData.
  - rewrite deref_null by done. cbn [mbind res_bind].
    apply (assign_new_updates h x None); [done|done| |apply create_from_contents].
    apply create_from_good. assert (bs <> []) by (by destruct Hne as [?|[?|?]]).
    assert (0 < zlen bs); [|lia]. destruct bs; [done|]. unfold zlen. cbn. lia.
  - rewrite (deref_some _ _ _ _ Hx Ho). cbn [mbind res_bind].
    destruct (CloneData_spec h x o ob (Z.max (Buffer.capacity_ (buf ob)) (Buffer.size_ (buf ob) + zlen bs))
      Hok Hx Ho ltac:(lia)) as (h1 & b & -> & Hok1 & Hown & Hg & Hcont & _ & Hv1).
    cbn [mbind res_bind].
    apply (update_tail h h1 x b); [done|done|done|by apply good_AppendData|].
    rewrite Buffer.AppendData_contents by apply Hg. by rewrite Hcont.
Qed.

(** Another buffer's bytes are read through a pointer that growing [x] leaves
    alone, because the other handle holds its object. *)
Lemma AppendBuffer_spec h x y v bs :
  ok h -> x <> y -> value h x = Some v -> value h y = Some (Buffer.cells bs) ->
  v <> [] \/ bs <> [] ->
  exists h', AppendBuffer h x y = Ok h' /\ updates h x (fun w => w = v ++ Buffer.cells bs) h'.
Proof.
  intros Hok Hne Hx Hy Hn. unfold AppendBuffer.
  destruct (AppendData_spec h x v bs Hok Hx ltac:(tauto)) as (h' & E & Hu).
  destruct (handle_cases h y _ Hok Hy) as [[Hy0 Hbs]|(o & ob & Hyo & Ho & [Hb _] & Hc)].
  - rewrite deref_null by done. cbn [mbind res_bind].
    assert (bs = []) as -> by (by destruct bs). by exists h'.
  - rewrite (deref_some _ _ _ _ Hyo Ho). cbn [mbind res_bind].
    rewrite (Buffer.data_ok _ bs) by done. cbn [mbind res_bind]. rewrite E. cbn [mbind res_bind].
    destruct Hu as (Hok' & Hk & Hv). destruct (Hk y) as [Eh Eo]; [done|].
    destruct (ct_live _ _ Hok' y o) as [ob' Ho']; [congruence|].
    destruct (Eo o ob' Hyo Ho') as (ob1 & E1 & E2). rewrite Ho'.
    assert (ob1 = ob) as -> by congruence. rewrite E2, bool_decide_eq_true_2 by done.
    by exists h'.
Qed.

(** Resizing keeps a prefix; cells past the old size hold anything. *)
Definition resized (n : Z) (v w : list (option Z)) : Prop :=
  zlen w = n /\ take (Z.to_nat (Z.min (zlen v) n)) w = take (Z.to_nat n) v.

Lemma SetSize_good b n : 0 <= n -> good_buf b -> good_buf (Buffer.SetSize false b n).
Proof.
  intros Hn [Hb Hc]. split; [by apply Buffer.SetSize_consistent|].
  pose proof (Buffer.SetSize_capacity false b n Hb). lia.
Qed.

Lemma SetSize_resized b n :
  0 <= n -> Buffer.consistent b ->
  resized n (Buffer.contents b) (Buffer.contents (Buffer.SetSize false b n)).
Proof.
  intros Hn Hb. pose proof (Buffer.SetSize_consistent false b n Hn Hb) as Hb'.
  split; [by rewrite Buffer.zlen_contents|].
  rewrite Buffer.zlen_contents by done.
  pose proof (Buffer.ensure_contents false b n true Hb) as He.
  unfold Buffer.SetSize, Buffer.zero_shrunk. cbn [andb]. unfold Buffer.contents in *.
  cbn [Buffer.size_ Buffer.data_ Buffer.set_size_].
  rewrite Buffer.ensure_size in He. rewrite take_take.
  rewrite <- He, take_take. f_equal. destruct Hb as [_ Hs]. lia.
Qed.

Lemma resized_clip n v w :
  0 <= n -> resized n (take (Z.to_nat (Z.min (zlen v) n)) v) w -> resized n v w.
Proof.
  intros Hn [Hl Ht]. pose proof (zlen_nonneg v). split; [done|].
  rewrite zlen_take in Ht by lia. rewrite take_take in Ht.
  replace (Z.min (Z.min (zlen v) n) n) with (Z.min (zlen v) n) in Ht by lia. rewrite Ht.
  destruct (Z.le_ge_cases (zlen v) n).
  - rewrite !take_ge; [done| |]; unfold zlen in *; lia.
  - f_equal. lia.
Qed.

Lemma SetSize_spec h x v n :
  ok h -> value h x = Some v -> 0 <= n ->
  exists h', SetSize h x n = Ok h' /\ updates h x (resized n v) h'.
Proof.
  intros Hok Hv Hn.
  destruct (handle_cases h x v Hok Hv) as [[Hx ->]|(o & ob & Hx & Ho & Hg & ->)]; unfold SetSize.
  - rewrite deref_null by done. cbn [mbind res_bind]. destruct (Z.ltb_spec 0 n).
    + apply (assign_new_updates h x None); [done|done|by apply good_create; lia|].
      assert (Hb : Buffer.consistent (Buffer.create n n)) by by apply Buffer.create_consistent.
      split; [by rewrite Buffer.zlen_contents|]. rewrite (@zlen_nil (option Z)).
      rewrite Z.min_l by lia. by rewrite take_nil.
    + exists h. cbn [mbind res_bind]. split; [by apply dcheck_null|]. split; [done|]. split; [apply keeps_refl|].
      exists []. split; [done|]. split; [|by rewrite !take_nil].
      rewrite (@zlen_nil (option Z)). lia.
  - rewrite (deref_some _ _ _ _ Hx Ho). cbn [mbind res_bind]. pose proof Hg as [Hb Hc].
    destruct (HasOneRef ob) eqn:E; cbn [negb].
    + destruct (HasOneRef_spec h x o ob Hok Hx Ho E) as [Hown _]. cbn [mbind res_bind].
      apply (update_tail h h x (buf ob)); [done|done|apply keeps_refl|by apply SetSize_good|by apply SetSize_resized].
    + pose proof (proj2 Hb) as Hs.
      set (b := clone (buf ob) (Z.min (Buffer.size_ (buf ob)) n) (Z.max (Buffer.capacity_ (buf ob)) n)).
      assert (Hg' : good_buf b) by (apply clone_good; [done|lia|lia]).
      destruct (assign_new_spec h x _ b Hok Hx Hg') as (h1 & -> & Hok1 & Hown & Hv1).
      cbn [mbind res_bind].
      apply (update_tail h h1 x b); [done|done|done|by apply SetSize_good|].
      apply resized_clip; [done|]. rewrite Buffer.zlen_contents by done.
      rewrite <- clone_contents with (cap := Z.max (Buffer.capacity_ (buf ob)) n) by (done || lia).
      apply SetSize_resized; [done|apply Hg'].
Qed.

Lemma EnsureCapacity_spec h x v n :
  ok h -> value h x = Some v ->
  exists h', EnsureCapacity h x n = Ok h' /\ updates h x (fun w => w = v) h'.
Proof.
  intros Hok Hv.
  destruct (handle_cases h x v Hok Hv) as [[Hx ->]|(o & ob & Hx & Ho & [Hb Hc] & ->)];
    unfold EnsureCapacity.
  - rewrite deref_null by done. cbn [mbind res_bind]. destruct (Z.ltb_spec 0 n).
    + apply (assign_new_updates h x None); [done|done|by apply good_create; lia|done].
    + exists h. cbn [mbind res_bind]. split; [by apply dcheck_null|]. split; [done|]. split; [apply keeps_refl|].
      by exists [].
  - rewrite (deref_some _ _ _ _ Hx Ho). cbn [mbind res_bind].
    destruct (Z.leb_spec n (Buffer.capacity_ (buf ob))).
    + exists h. split; [done|]. split; [done|]. split; [apply keeps_refl|]. eauto.
    + destruct (CloneData_spec h x o ob (Z.max (Buffer.capacity_ (buf ob)) n) Hok Hx Ho ltac:(lia))
        as (h1 & b & -> & Hok1 & Hown & [Hb1 Hc1] & Hcont & _ & Hv1).
      cbn [mbind res_bind]. unfold Buffer.EnsureCapacity.
      apply (update_tail h h1 x b); [done|done|done| |].
      * split; [by apply Buffer.ensure_consistent|].
        pose proof (Buffer.ensure_capacity_mono false b n false Hb1). lia.
      * by rewrite Buffer.ensure_contents.
Qed.

Lemma Clear_spec h x v :
  ok h -> value h x = Some v ->
  exists h', Clear h x = Ok h' /\ updates h x (fun w => w = []) h'.
Proof.
  intros Hok Hv.
  destruct (handle_cases h x v Hok Hv) as [[Hx ->]|(o & ob & Hx & Ho & [Hb Hc] & ->)]; unfold Clear.
  - rewrite deref_null by done. exists h. split; [done|]. split; [done|]. split; [apply keeps_refl|]. eauto.
  - rewrite (deref_some _ _ _ _ Hx Ho). cbn [mbind res_bind]. destruct (HasOneRef ob) eqn:E.
    + destruct (HasOneRef_spec h x o ob Hok Hx Ho E) as [Hown _].
      assert (Hg : good_buf (Buffer.Clear false (buf ob))).
      { split; [by apply Buffer.Clear_consistent|done]. }
      destruct (update_owned h x _ o (Buffer.Clear false) Hok Hown Hx Hg)
        as (h' & -> & Hok' & Hown' & Hv').
      cbn [mbind res_bind]. exists h'. split; [by apply (dcheck_owned _ _ _ Hown')|].
      split; [done|]. split; [done|]. exists []. split; [|done]. by rewrite (owns_value _ _ _ Hown').
    + apply (assign_new_updates h x (Some o)); [done|done|by apply good_create; lia|done].
Qed.

Lemma poke_good off bs b :
  good_buf b -> 0 <= off -> off + zlen bs <= Buffer.capacity_ b -> good_buf (poke off bs b).
Proof.
  intros [[Hl Hs] Hc] Ho Hn. split; [|done]. split; [|done]. cbn.
  rewrite Buffer.zlen_put_cells; rewrite ?Buffer.zlen_cells; lia.
Qed.

Lemma poke_1_contents i v b :
  Buffer.consistent b -> 0 <= i < Buffer.size_ b ->
  Buffer.contents (poke i [v] b) = <[Z.to_nat i := Some v]> (Buffer.contents b).
Proof.
  intros [Hl Hs] Hi. unfold Buffer.contents, poke, Buffer.put_cells. cbn [Buffer.size_ Buffer.data_].
  rewrite (insert_take_drop (take _ _)).
  2: { rewrite length_take. unfold zlen in *. lia. }
  rewrite take_take, Nat.min_l by lia. rewrite take_app, take_take, Nat.min_r.
  2: { lia. }
  rewrite length_take, Nat.min_l by (unfold zlen in *; lia). f_equal.
  cbn [Buffer.cells fmap list_fmap app length].
  replace (Z.to_nat (Buffer.size_ b) - Z.to_nat i)%nat
    with (S (Z.to_nat (Buffer.size_ b) - S (Z.to_nat i)))%nat by lia.
  cbn [take]. f_equal. rewrite skipn_firstn_comm. do 2 f_equal; lia.
Qed.

Lemma set_byte_spec h x v i c :
  ok h -> value h x = Some v -> 0 <= i < zlen v ->
  exists h', set_byte h x i c = Ok h' /\ updates h x (fun w => w = <[Z.to_nat i := Some c]> v) h'.
Proof.
  intros Hok Hv Hi.
  destruct (handle_cases h x v Hok Hv) as [[Hx ->]|(o & ob & Hx & Ho & [Hb Hc] & ->)]; unfold set_byte.
  { rewrite (@zlen_nil (option Z)) in Hi. lia. }
  rewrite Buffer.zlen_contents in Hi by done.
  unfold size. rewrite (deref_some _ _ _ _ Hx Ho). cbn [mbind res_bind].
  rewrite (proj2 (Z.ltb_lt i _)) by lia. cbn [require mbind res_bind]. unfold data.
  rewrite (dcheck_ok _ _ _ _ Hx Ho Hc). cbn [mbind res_bind].
  rewrite (deref_some _ _ _ _ Hx Ho). cbn [mbind res_bind].
  destruct (CloneData_spec h x o ob (Buffer.capacity_ (buf ob)) Hok Hx Ho ltac:(lia))
    as (h1 & b & -> & Hok1 & Hown & Hg & Hcont & Hsz & Hv1). cbn [mbind res_bind].
  pose proof Hown as (o1 & Hx1 & _). rewrite (get_handle_ok _ _ _ Hx1). cbn [mbind res_bind from_opt].
  pose proof Hg as [[Hl1 Hs1] _].
  assert (Hp : good_buf (poke i [c] b)).
  { apply poke_good; [done|lia|]. change (zlen [c]) with 1. lia. }
  destruct (update_owned h1 x b o1 (poke i [c]) Hok1 Hown Hx1 Hp) as (h2 & E & Hok2 & Hown2 & Hv2).
  exists h2. split; [done|]. split; [done|]. split; [by eapply keeps_trans|].
  eexists. split; [by apply owns_value|]. rewrite poke_1_contents, Hcont; [done|apply Hg|lia].
Qed.

(** ** Constructors, destructor, assignments *)

(** What a [buffer_] member shows in a store of objects. *)
Definition view (objs : gmap nat object) (p : option (option nat)) : option (list (option Z)) :=
  match p with
  | None => None
  | Some None => Some []
  | Some (Some o) => match objs !! o with Some ob => Some (Buffer.contents (buf ob)) | None => None end
  end.

Lemma value_view h x : value h x = view (objects h) (handles h !! x).
Proof. done. Qed.

Lemma value_after h h' z :
  ok h' -> same_bufs h h' -> value h' z = view (objects h) (handles h' !! z).
Proof.
  intros Hok Hs. unfold value, view. destruct (handles h' !! z) as [[o|]|] eqn:E; [|done|done].
  destruct (ct_live _ _ Hok z o E) as [ob' E']. destruct (Hs o ob' E') as (ob & -> & <-).
  by rewrite E'.
Qed.

Lemma construct_spec h x p :
  counted p h -> handles h !! x = None -> (forall o, p = Some o -> is_Some (objects h !! o)) ->
  exists h', construct h x p = Ok h' /\ ok h' /\ handles h' = <[x:=p]> (handles h) /\ same_bufs h h'.
Proof.
  intros Hc Hx Hp. unfold construct. destruct (AddRef_spec h p Hp) as (h1 & -> & Hh & Ho).
  cbn [mbind res_bind]. eexists. split; [done|].
  assert (Hs : same_bufs h h1).
  { intros o ob' H. rewrite Ho in H. destruct (objects h !! o) as [ob|]; [|done].
    injection H as <-. by exists ob. }
  split; [|cbn; by rewrite Hh].
  eapply (counted_relink p h _ None (Some p)); [exact Hc| | |].
  - intros o. cbn. rewrite Hh. pose proof (nrefs_insert (handles h) x p o) as H. rewrite Hx in H.
    unfold refers in *. rewrite !(decide_False (P := None = Some _)) in * by done. lia.
  - intros o. cbn [objects set_handle]. rewrite Ho. destruct (objects h !! o) as [ob|] eqn:E; [|done].
    cbn [fmap option_fmap option_map]. cbv zeta. fold (cnt p o).
    replace (Z.of_nat (refers None o)) with 0 by done. rewrite Z.sub_0_r.
    rewrite decide_False; [done|]. pose proof (ct_count _ _ Hc o ob E).
    rewrite cnt_eq. case_decide as Hd; [lia|]. pose proof (ct_used _ _ Hc o ob E Hd). lia.
  - intros y o. cbn. rewrite Hh. destruct (decide (y = x)) as [->|Hne].
    + rewrite lookup_insert_eq. intros [= ->]. by apply Hp.
    + rewrite lookup_insert_ne by done. apply (ct_live _ _ Hc).
Qed.

(** Dropping the reference [old] while the handles become [hs']. *)
Lemma release_relink h h1 old :
  ok h -> objects h1 = objects h ->
  (forall o, nrefs (handles h1) o + refers (Some old) o = nrefs (handles h) o)%nat ->
  (forall o, old = Some o -> is_Some (objects h !! o)) ->
  (forall x o, handles h1 !! x = Some (Some o) -> is_Some (objects h !! o)) ->
  exists h', Release h1 old = Ok h' /\ ok h' /\ handles h' = handles h1 /\ same_bufs h h'.
Proof.
  intros Hok Hobj Hn Hold Hl. destruct (Release_spec h1 old) as (h' & -> & Hh & Ho).
  { by rewrite Hobj. }
  exists h'. split; [done|].
  assert (Ho' : forall o, objects h' !! o = match objects h !! o with
     | None => None
     | Some ob =>
         let n := ref_count ob + Z.of_nat (refers None o) - Z.of_nat (refers (Some old) o) in
         if decide (n = 0) then None else Some (mkObject (buf ob) n)
     end).
  { intros o. rewrite Ho, Hobj. destruct (objects h !! o) as [ob|] eqn:E; [|done]. cbv zeta.
    fold (cnt old o). replace (Z.of_nat (refers None o)) with 0 by done. rewrite Z.add_0_r.
    pose proof (ct_used _ _ Hok o ob E ltac:(done)). pose proof (ct_count _ _ Hok o ob E).
    rewrite cnt_eq. destruct (decide (old = Some o)) as [->|Hne].
    - destruct (decide (ref_count ob - 1 = 0)).
      + rewrite decide_True by (split; [done|lia]). done.
      + rewrite decide_False by (intros [_ ?]; lia). done.
    - rewrite !decide_False by (lia || intros [? _]; done). done. }
  split; [|split; [done|]].
  - eapply (counted_relink None h _ (Some old) None); [exact Hok| |exact Ho'|].
    + intros o. rewrite Hh, Hn. change (refers None o) with 0%nat. lia.
    + intros y o. rewrite Hh. apply Hl.
  - intros o ob' H. rewrite Ho' in H. destruct (objects h !! o) as [ob|]; [|done]. cbv zeta in H.
    case_decide; [done|]. injection H as <-. by exists ob.
Qed.

(** Permuting references needs no counting. *)
Lemma permute_ok h hs' :
  ok h -> (forall o, nrefs hs' o = nrefs (handles h) o) ->
  (forall x o, hs' !! x = Some (Some o) -> is_Some (objects h !! o)) ->
  ok (mkHeap (objects h) hs').
Proof.
  intros Hok Hn Hl. eapply (counted_relink None h _ None None); [exact Hok| | |exact Hl].
  - intros o. cbn. by rewrite Hn.
  - intros o. cbn [objects]. destruct (objects h !! o) as [ob|] eqn:E; [|done]. cbv zeta.
    replace (Z.of_nat (refers None o)) with 0 by done.
    pose proof (ct_used _ _ Hok o ob E ltac:(done)). pose proof (ct_count _ _ Hok o ob E).
    rewrite decide_False by lia. rewrite Z.add_0_r, Z.sub_0_r. by destruct ob.
Qed.

Lemma value_live h x v : value h x = Some v -> exists p, handles h !! x = Some p.
Proof. unfold value. destruct (handles h !! x); eauto. done. Qed.

Lemma value_dead h x : ok h -> value h x = None -> handles h !! x = None.
Proof.
  intros Hok. unfold value. destruct (handles h !! x) as [[o|]|] eqn:E; try done.
  destruct (ct_live _ _ Hok x o E) as [ob ->]. done.
Qed.

Lemma live_or (h : heap) x p : ok h -> handles h !! x = Some p ->
  forall o, p = Some o -> is_Some (objects h !! o).
Proof. intros Hok Hx o ->. by apply (ct_live _ _ Hok x). Qed.

(** ** The specification: every handle a value of its own *)

Inductive op :=
  | ODefault (x : nat)
  | OSized (x : nat) (n capacity : Z)
  | OFrom (x : nat) (bs : bytes) (capacity : Z)
  | OCopy (x y : nat)
  | OMove (x y : nat)
  | ODestroy (x : nat)
  | OSetData (x : nat) (bs : bytes)
  | OAppendData (x : nat) (bs : bytes)
  | OAppendBuffer (x y : nat)
  | OSetSize (x : nat) (n : Z)
  | OEnsureCapacity (x : nat) (n : Z)
  | OClear (x : nat)
  | OSetByte (x : nat) (i c : Z)
  | OCopyAssign (x y : nat)
  | OMoveAssign (x y : nat)
  | OSwap (x y : nat).

Definition run_op (h : heap) (o : op) : res heap :=
  match o with
  | ODefault x => default_ctor h x
  | OSized x n c => size_ctor h x n c
  | OFrom x bs c => data_ctor h x bs c
  | OCopy x y => copy_ctor h x y
  | OMove x y => move_ctor h x y
  | ODestroy x => dtor h x
  | OSetData x bs => SetData h x bs
  | OAppendData x bs => AppendData h x bs
  | OAppendBuffer x y => AppendBuffer h x y
  | OSetSize x n => SetSize h x n
  | OEnsureCapacity x n => EnsureCapacity h x n
  | OClear x => Clear h x
  | OSetByte x i c => set_byte h x i c
  | OCopyAssign x y => copy_assign h x y
  | OMoveAssign x y => move_assign h x y
  | OSwap x y => swap h x y
  end.

Abbreviation values := (gmap nat (list (option Z))).

(** The handles an operation uses exist, the one it creates does not, and its
    sizes and indices are in range.  Two calls are excluded because they are
    faulty: [AppendData] of no bytes to an empty buffer asserts
    ([append_nothing_asserts]), and a buffer appended to itself may be read
    after it was freed ([self_append_dangling]).  A buffer that is appended to
    another has all its bytes initialised. *)
Definition enabled (m : values) (o : op) : Prop :=
  match o with
  | ODefault x => m !! x = None
  | OSized x n c => m !! x = None /\ 0 <= n
  | OFrom x bs c => m !! x = None
  | OCopy x y | OMove x y => m !! x = None /\ is_Some (m !! y)
  | ODestroy x | OSetData x _ | OEnsureCapacity x _ | OClear x => is_Some (m !! x)
  | OAppendData x bs => exists v, m !! x = Some v /\ (v <> [] \/ bs <> [])
  | OAppendBuffer x y => x <> y /\ exists v bs, m !! x = Some v /\
      m !! y = Some (Buffer.cells bs) /\ (v <> [] \/ bs <> [])
  | OSetSize x n => is_Some (m !! x) /\ 0 <= n
  | OSetByte x i c => exists v, m !! x = Some v /\ 0 <= i < zlen v
  | OCopyAssign x y | OMoveAssign x y | OSwap x y => is_Some (m !! x) /\ is_Some (m !! y)
  end.

Definition spec_op (m : values) (o : op) (m' : values) : Prop :=
  match o with
  | ODefault x | OClear x => m' = <[x := []]> m
  | OSized x n _ => exists w, zlen w = n /\ m' = <[x := w]> m
  | OFrom x bs _ | OSetData x bs => m' = <[x := Buffer.cells bs]> m
  | OCopy x y | OCopyAssign x y => exists v, m !! y = Some v /\ m' = <[x := v]> m
  | OMove x y | OMoveAssign x y => exists v, m !! y = Some v /\ m' = <[x := v]> (<[y := []]> m)
  | ODestroy x => m' = delete x m
  | OAppendData x bs => exists v, m !! x = Some v /\ m' = <[x := v ++ Buffer.cells bs]> m
  | OAppendBuffer x y =>
      exists v w, m !! x = Some v /\ m !! y = Some w /\ m' = <[x := v ++ w]> m
  | OSetSize x n => exists v w, m !! x = Some v /\ resized n v w /\ m' = <[x := w]> m
  | OEnsureCapacity x n => m' = m
  | OSetByte x i c => exists v, m !! x = Some v /\ m' = <[x := <[Z.to_nat i := Some c]> v]> m
  | OSwap x y => exists v w, m !! x = Some v /\ m !! y = Some w /\ m' = <[y := v]> (<[x := w]> m)
  end.

Definition represents (h : heap) (m : values) : Prop := ok h /\ forall x, value h x = m !! x.

Lemma updates_represents h m x P h' :
  represents h m -> updates h x P h' -> exists w, P w /\ represents h' (<[x := w]> m).
Proof.
  intros [Hok Hm] (Hok' & Hoth & w & Hw & HP). exists w. split; [done|]. split; [done|].
  intros y. destruct (decide (y = x)) as [->|Hne].
  - by rewrite lookup_insert_eq.
  - rewrite lookup_insert_ne, <- Hm by done. by eapply keeps_value.
Qed.

Lemma relink_represents h h' (m' : values) :
  ok h' -> same_bufs h h' -> (forall z, view (objects h) (handles h' !! z) = m' !! z) ->
  represents h' m'.
Proof. intros Hok Hs Hv. split; [done|]. intros z. by rewrite (value_after h h' z Hok Hs). Qed.

Section Simulation.
Context (h : heap) (m : values) (Hr : represents h m).

Lemma rep_value x v : m !! x = Some v -> value h x = Some v.
Proof. intros H. by rewrite (proj2 Hr). Qed.

Lemma rep_none x : m !! x = None -> handles h !! x = None.
Proof. intros H. apply value_dead; [apply Hr|]. by rewrite (proj2 Hr). Qed.

Lemma rep_live x v :
  m !! x = Some v -> exists p, handles h !! x = Some p /\ view (objects h) (Some p) = Some v.
Proof.
  intros H%rep_value. destruct (value_live _ _ _ H) as [p Hp]. exists p. split; [done|].
  by rewrite <- Hp, <- value_view.
Qed.

Lemma rep_view z : view (objects h) (handles h !! z) = m !! z.
Proof. rewrite <- value_view. apply Hr. Qed.

Lemma same_refl hs : same_bufs h (mkHeap (objects h) hs).
Proof. intros o ob' H. by exists ob'. Qed.

(** A view after one or two handles were redirected. *)
Lemma view_insert x p v z :
  view (objects h) (Some p) = Some v ->
  view (objects h) (<[x := p]> (handles h) !! z) = <[x := v]> m !! z.
Proof.
  intros Hp. destruct (decide (z = x)) as [->|Hne].
  - by rewrite !lookup_insert_eq.
  - rewrite !lookup_insert_ne by done. apply rep_view.
Qed.

Lemma sim_construct x p v :
  m !! x = None -> (forall o, p = Some o -> is_Some (objects h !! o)) ->
  view (objects h) (Some p) = Some v ->
  exists h', construct h x p = Ok h' /\ represents h' (<[x := v]> m) /\ handles h' !! x = Some p.
Proof.
  intros Hx Hp Hv.
  destruct (construct_spec h x p (counted_weaken p h (proj1 Hr)) (rep_none x Hx) Hp)
    as (h' & -> & Hok' & Hh & Hs).
  exists h'. split; [done|]. split; [|by rewrite Hh, lookup_insert_eq].
  apply (relink_represents h); [done|done|]. intros z. rewrite Hh. by apply view_insert.
Qed.

Lemma sim_construct_new x b :
  m !! x = None -> good_buf b ->
  exists h' , (let '(o, h1) := alloc h b in construct h1 x (Some o)) = Ok h' /\
    represents h' (<[x := Buffer.contents b]> m) /\ owns h' x b.
Proof.
  intros Hx Hb. destruct (alloc h b) as [o h1] eqn:Ea.
  destruct (alloc_spec h b o h1 (proj1 Hr) Hb Ea) as (Hc & Hh & Hnone & Ho & Hoth).
  destruct (construct_spec h1 x (Some o) Hc) as (h' & -> & Hok' & Hh' & Hs).
  { rewrite Hh. by apply rep_none. }
  { intros ? [= <-]. by rewrite Ho. }
  exists h'. split; [done|].
  assert (Hxo : handles h' !! x = Some (Some o)) by (by rewrite Hh', lookup_insert_eq).
  split.
  - apply (relink_represents h1); [done|done|]. intros z. rewrite Hh', Hh.
    destruct (decide (z = x)) as [->|Hne].
    + rewrite !lookup_insert_eq. cbn. by rewrite Ho.
    + rewrite !lookup_insert_ne by done. rewrite <- rep_view.
      destruct (handles h !! z) as [[q|]|] eqn:E; [|done|done]. cbn.
      destruct (ct_live _ _ (proj1 Hr) z q E) as [ob Eq]. rewrite Hoth; [done|congruence].
  - exists o. split; [done|]. destruct (ct_live _ _ Hok' x o Hxo) as [[b' n] E].
    destruct (Hs o _ E) as (ob & E1 & E2). rewrite Ho in E1. injection E1 as <-. cbn in E2. subst b'.
    pose proof (ct_count _ _ Hok' o _ E) as Hn. cbn in Hn. rewrite E. do 2 f_equal. rewrite Hn, Hh', Hh.
    pose proof (nrefs_insert (handles h) x (Some o) o) as Hi. rewrite (rep_none x Hx) in Hi.
    pose proof (ct_count _ _ Hc o _ Ho) as H0. cbn in H0. rewrite Hh in H0.
    change (refers None o) with 0%nat in Hi. unfold refers in Hi. rewrite decide_True in Hi by done. lia.
Qed.

Lemma sim_size_ctor x n c :
  m !! x = None -> 0 <= n ->
  exists h' w, size_ctor h x n c = Ok h' /\ represents h' (<[x := w]> m) /\ zlen w = n /\
    ((handles h' !! x = Some None /\ n = 0 /\ c <= 0) \/ owns h' x (Buffer.create n c)).
Proof.
  intros Hx Hn. unfold size_ctor. destruct ((0 <? n) || (0 <? c)) eqn:E.
  - assert (Hg : good_buf (Buffer.create n c)).
    { apply orb_true_iff in E. apply good_create; [done|]. bool_inv. lia. }
    destruct (sim_construct_new x _ Hx Hg) as (h' & -> & Hr' & Ho). cbn [mbind res_bind].
    exists h', (Buffer.contents (Buffer.create n c)).
    split; [by apply (dcheck_owned _ _ _ Ho)|]. split; [done|]. split; [|by right].
    by rewrite Buffer.zlen_contents by apply Hg.
  - apply orb_false_iff in E as [E Ec]. apply Z.ltb_ge in E, Ec.
    destruct (sim_construct x None [] Hx) as (h' & -> & Hr' & Hx'); [done|done|]. cbn [mbind res_bind].
    exists h', []. split; [by apply dcheck_null|]. split; [done|].
    rewrite (@zlen_nil (option Z)). split; [lia|]. left. split; [done|]. split; lia.
Qed.

Lemma poke_0_contents bs b :
  Buffer.consistent b -> zlen bs = Buffer.size_ b -> Buffer.contents (poke 0 bs b) = Buffer.cells bs.
Proof.
  intros [Hl Hs] Hz. unfold Buffer.contents, poke. cbn [Buffer.size_ Buffer.data_].
  rewrite put_cells_0. apply take_app_length'. rewrite Buffer.length_cells. unfold zlen in *. lia.
Qed.

Lemma sim_data_ctor x bs c :
  m !! x = None ->
  exists h', data_ctor h x bs c = Ok h' /\ represents h' (<[x := Buffer.cells bs]> m).
Proof.
  intros Hx. pose proof (zlen_nonneg bs) as Hn. unfold data_ctor.
  destruct (sim_size_ctor x (zlen bs) c Hx Hn) as (h1 & w & -> & Hr1 & Hw & Hcase).
  cbn [mbind res_bind]. destruct Hcase as [(Hx1 & Hz & _)|Hown].
  - rewrite (get_handle_ok _ _ _ Hx1). cbn [mbind res_bind]. exists h1. split; [done|].
    assert (bs = []) as -> by (apply nil_length_inv; unfold zlen in *; lia).
    assert (w = []) as -> by (apply nil_length_inv; unfold zlen in *; lia). done.
  - pose proof Hown as (o & Hx1 & Ho1). rewrite (get_handle_ok _ _ _ Hx1). cbn [mbind res_bind].
    pose proof (ct_buf _ _ (proj1 Hr1) o _ Ho1) as Hg. cbn [buf] in Hg.
    assert (Hp : good_buf (poke 0 bs (Buffer.create (zlen bs) c))).
    { apply poke_good; [done|lia|]. cbn. lia. }
    destruct (update_owned h1 x _ o (poke 0 bs) (proj1 Hr1) Hown Hx1 Hp)
      as (h2 & E & Hok2 & Hown2 & Hv2).
    exists h2. split; [done|]. split; [done|]. intros y. destruct (decide (y = x)) as [->|Hne].
    + rewrite lookup_insert_eq, (owns_value _ _ _ Hown2). f_equal.
      apply poke_0_contents; [apply Hg|done].
    + rewrite (keeps_value h1 x h2 y Hok2 Hv2 Hne), (proj2 Hr1). by rewrite !lookup_insert_ne.
Qed.

Lemma sim_dtor x :
  is_Some (m !! x) -> exists h', dtor h x = Ok h' /\ represents h' (delete x m).
Proof.
  intros [v Hx]. destruct (rep_live x v Hx) as (p & Hp & _). unfold dtor.
  rewrite (get_handle_ok _ _ _ Hp). cbn [mbind res_bind].
  destruct (release_relink h (mkHeap (objects h) (delete x (handles h))) p) as (h' & E & Hok' & Hh & Hs).
  - apply Hr.
  - done.
  - intros o. cbn. rewrite <- Hp. apply nrefs_delete.
  - by apply (live_or h x); [apply Hr|].
  - intros y o H. cbn in H. apply lookup_delete_Some in H as [_ H]. by apply (ct_live _ _ (proj1 Hr) y).
  - (* the release happens before the handle disappears *)
    assert (Hre : exists h2, Release h p = Ok h2 /\
              mkHeap (objects h2) (delete x (handles h2)) = h').
    { destruct p as [o|]; cbn [Release] in *.
      - unfold get_object in *. cbn [objects] in E. destruct (objects h !! o) as [ob|]; [|done].
        cbn [from_opt mbind res_bind] in *.
        destruct (ref_count ob - 1 =? 0); injection E as <-; eexists; split; done.
      - injection E as <-. exists h. done. }
    destruct Hre as (h2 & -> & Heq). cbn [mbind res_bind]. rewrite Heq. exists h'. split; [done|].
    apply (relink_represents h); [done|done|]. intros z. rewrite Hh. cbn.
    destruct (decide (z = x)) as [->|Hne].
    + by rewrite !lookup_delete_eq.
    + rewrite !lookup_delete_ne by done. apply rep_view.
Qed.

Lemma sim_copy_assign x y v :
  is_Some (m !! x) -> m !! y = Some v ->
  exists h', copy_assign h x y = Ok h' /\ represents h' (<[x := v]> m).
Proof.
  intros [w Hx] Hy. unfold copy_assign. case_bool_decide as Exy.
  - subst y. exists h. split; [done|]. by rewrite insert_id.
  - destruct (rep_live x w Hx) as (q & Hq & _). destruct (rep_live y v Hy) as (p & Hp & Hpv).
    rewrite (get_handle_ok _ _ _ Hp). cbn [mbind res_bind].
    destruct (assign_spec h x q p (counted_weaken p h (proj1 Hr)) Hq) as (h' & -> & Hok' & Hh & Hs).
    { by apply (live_or h y); [apply Hr|]. }
    exists h'. split; [done|]. apply (relink_represents h); [done|done|].
    intros z. rewrite Hh. by apply view_insert.
Qed.

(** Two redirections in a row. *)
Lemma view_insert2 x y p q v w z :
  view (objects h) (Some p) = Some v -> view (objects h) (Some q) = Some w ->
  view (objects h) (<[x := p]> (<[y := q]> (handles h)) !! z) = <[x := v]> (<[y := w]> m) !! z.
Proof.
  intros Hp Hq. destruct (decide (z = x)) as [->|Hne].
  - by rewrite !lookup_insert_eq.
  - rewrite !(lookup_insert_ne _ x z) by done. by apply view_insert.
Qed.

Lemma live_insert2 x y p q z o :
  (forall o, p = Some o -> is_Some (objects h !! o)) ->
  (forall o, q = Some o -> is_Some (objects h !! o)) ->
  <[x := p]> (<[y := q]> (handles h)) !! z = Some (Some o) -> is_Some (objects h !! o).
Proof.
  intros Hp Hq H. apply lookup_insert_Some in H as [[_ H]|[_ H]]; [by apply Hp|].
  apply lookup_insert_Some in H as [[_ H]|[_ H]]; [by apply Hq|].
  by apply (ct_live _ _ (proj1 Hr) z).
Qed.

Lemma sim_move_assign x y v :
  is_Some (m !! x) -> m !! y = Some v ->
  exists h', move_assign h x y = Ok h' /\ represents h' (<[x := v]> (<[y := []]> m)).
Proof.
  intros [w Hx] Hy. destruct (rep_live y v Hy) as (p & Hp & Hpv). destruct (rep_live x w Hx) as (q & Hq & _).
  unfold move_assign. rewrite (get_handle_ok _ _ _ Hp). cbn [mbind res_bind].
  set (q' := if decide (x = y) then None else q).
  assert (Hq' : handles (set_handle h y None) !! x = Some q').
  { cbn. unfold q'. case_decide as E; [subst; apply lookup_insert_eq|].
    by rewrite lookup_insert_ne by done. }
  rewrite (get_handle_ok _ _ _ Hq'). cbn [mbind res_bind].
  destruct (release_relink h (set_handle (set_handle h y None) x p) q') as (h' & -> & Hok' & Hh & Hs).
  - apply Hr.
  - done.
  - intros o. cbn in *. pose proof (nrefs_insert (handles h) y None o) as H1.
    pose proof (nrefs_insert (<[y := None]> (handles h)) x p o) as H2.
    rewrite Hq' in H2. rewrite Hp in H1. change (refers (Some None) o) with 0%nat in H1. lia.
  - unfold q'. case_decide; [done|]. by apply (live_or h x); [apply Hr|].
  - intros z o. cbn. apply live_insert2; [by apply (live_or h y); [apply Hr|]|done].
  - exists h'. split; [done|]. apply (relink_represents h); [done|done|].
    intros z. rewrite Hh. cbn. by apply view_insert2.
Qed.

Lemma sim_move_ctor x y v :
  m !! x = None -> m !! y = Some v ->
  exists h', move_ctor h x y = Ok h' /\ represents h' (<[x := v]> (<[y := []]> m)).
Proof.
  intros Hx Hy. destruct (rep_live y v Hy) as (p & Hp & Hpv). pose proof (rep_none x Hx) as Hx'.
  assert (Hxy : x <> y) by congruence.
  unfold move_ctor. rewrite (get_handle_ok _ _ _ Hp). cbn [mbind res_bind]. eexists. split; [done|].
  apply (relink_represents h); [|apply same_refl|].
  - apply (permute_ok h); [apply Hr| |].
    + intros o. cbn. pose proof (nrefs_insert (handles h) y None o) as H1.
      pose proof (nrefs_insert (<[y := None]> (handles h)) x p o) as H2.
      rewrite lookup_insert_ne, Hx' in H2 by done. rewrite Hp in H1.
      change (refers (Some None) o) with 0%nat in H1. change (refers None o) with 0%nat in H2. lia.
    + intros z o. cbn. apply live_insert2; [by apply (live_or h y); [apply Hr|]|done].
  - intros z. cbn. by apply view_insert2.
Qed.

Lemma sim_swap x y v w :
  m !! x = Some v -> m !! y = Some w ->
  exists h', swap h x y = Ok h' /\ represents h' (<[y := v]> (<[x := w]> m)).
Proof.
  intros Hx Hy. destruct (rep_live x v Hx) as (p & Hp & Hpv). destruct (rep_live y w Hy) as (q & Hq & Hqw).
  unfold swap. rewrite (get_handle_ok _ _ _ Hp), (get_handle_ok _ _ _ Hq). cbn [mbind res_bind].
  eexists. split; [done|]. apply (relink_represents h); [|apply same_refl|].
  - apply (permute_ok h); [apply Hr| |].
    + intros o. cbn. pose proof (nrefs_insert (handles h) x q o) as H1.
      pose proof (nrefs_insert (<[x := q]> (handles h)) y p o) as H2. rewrite Hp in H1.
      destruct (decide (x = y)) as [->|Hne].
      * rewrite lookup_insert_eq in H2. lia.
      * rewrite lookup_insert_ne, Hq in H2 by done. lia.
    + intros z o. cbn. apply live_insert2; by eapply live_or; [apply Hr|].
  - intros z. cbn. by apply view_insert2.
Qed.
End Simulation.

Lemma sim_updates h m x P r :
  represents h m -> (exists h', r = Ok h' /\ updates h x P h') ->
  exists h' w, r = Ok h' /\ P w /\ represents h' (<[x := w]> m).
Proof.
  intros Hr (h' & -> & Hu). destruct (updates_represents h m x P h' Hr Hu) as (w & HP & Hr').
  by exists h', w.
Qed.

(** One operation: the heap does what the specification says, and never
    touches a freed object or fails an assertion. *)
Lemma simulation h m o :
  represents h m -> enabled m o ->
  exists h' m', run_op h o = Ok h' /\ spec_op m o m' /\ represents h' m'.
Proof.
  intros Hr He. pose proof (proj1 Hr) as Hok.
  destruct o as [x|x n c|x bs c|x y|x y|x|x bs|x bs|x y|x n|x n|x|x i c|x y|x y|x y];
    cbn [run_op enabled spec_op] in *.
  - destruct (sim_construct h m Hr x None []) as (h' & E & Hr' & Hx'); try done.
    unfold default_ctor. rewrite E. cbn [mbind res_bind]. rewrite dcheck_null by done. eauto.
  - destruct He as [Hx Hn]. destruct (sim_size_ctor h m Hr x n c Hx Hn) as (h' & w & E & Hr' & Hw & _).
    eauto 10.
  - destruct (sim_data_ctor h m Hr x bs c He) as (h' & E & Hr'). eauto.
  - destruct He as [Hx [v Hy]]. destruct (rep_live h m Hr y v Hy) as (p & Hp & Hpv).
    destruct (sim_construct h m Hr x p v Hx) as (h' & E & Hr' & _); [|done|].
    { by apply (live_or h y). }
    unfold copy_ctor. rewrite (get_handle_ok _ _ _ Hp). cbn [mbind res_bind]. eauto 10.
  - destruct He as [Hx [v Hy]]. destruct (sim_move_ctor h m Hr x y v Hx Hy) as (h' & E & Hr'). eauto 10.
  - destruct (sim_dtor h m Hr x He) as (h' & E & Hr'). eauto.
  - destruct He as [v Hx%(rep_value h m Hr)].
    edestruct (sim_updates h m x _ _ Hr (SetData_spec h x v bs Hok Hx)) as (h' & w & E & -> & Hr'). eauto.
  - destruct He as (v & Hx & Hne). pose proof (rep_value h m Hr x v Hx) as Hv.
    edestruct (sim_updates h m x _ _ Hr (AppendData_spec h x v bs Hok Hv ltac:(tauto)))
      as (h' & w & E & -> & Hr'). eauto 10.
  - destruct He as (Hxy & v & bs & Hx & Hy & Hne).
    pose proof (rep_value h m Hr x v Hx) as Hv. pose proof (rep_value h m Hr y _ Hy) as Hw.
    edestruct (sim_updates h m x _ _ Hr (AppendBuffer_spec h x y v bs Hok Hxy Hv Hw Hne))
      as (h' & w & E & -> & Hr'). eauto 10.
  - destruct He as [[v Hx] Hn]. pose proof (rep_value h m Hr x v Hx) as Hv.
    edestruct (sim_updates h m x _ _ Hr (SetSize_spec h x v n Hok Hv Hn)) as (h' & w & E & Hw & Hr').
    eauto 10.
  - destruct He as [v Hx]. pose proof (rep_value h m Hr x v Hx) as Hv.
    edestruct (sim_updates h m x _ _ Hr (EnsureCapacity_spec h x v n Hok Hv)) as (h' & w & E & -> & Hr').
    rewrite insert_id in Hr' by done. eauto.
  - destruct He as [v Hx]. pose proof (rep_value h m Hr x v Hx) as Hv.
    edestruct (sim_updates h m x _ _ Hr (Clear_spec h x v Hok Hv)) as (h' & w & E & -> & Hr'). eauto.
  - destruct He as (v & Hx & Hi). pose proof (rep_value h m Hr x v Hx) as Hv.
    edestruct (sim_updates h m x _ _ Hr (set_byte_spec h x v i c Hok Hv Hi)) as (h' & w & E & -> & Hr').
    eauto 10.
  - destruct He as [Hx [v Hy]]. destruct (sim_copy_assign h m Hr x y v Hx Hy) as (h' & E & Hr'). eauto 10.
  - destruct He as [Hx [v Hy]]. destruct (sim_move_assign h m Hr x y v Hx Hy) as (h' & E & Hr'). eauto 10.
  - destruct He as [[v Hx] [w Hy]]. destruct (sim_swap h m Hr x y v w Hx Hy) as (h' & E & Hr'). eauto 10.
Qed.

Fixpoint run_ops (h : heap) (os : list op) : res heap :=
  match os with
  | [] => Ok h
  | o :: os => h ← run_op h o; run_ops h os
  end.

Fixpoint spec_ops (m : values) (os : list op) (m' : values) : Prop :=
  match os with
  | [] => m' = m
  | o :: os => exists m1, spec_op m o m1 /\ spec_ops m1 os m'
  end.

(** The program is legal whatever the specification leaves open. *)
Fixpoint legal (m : values) (os : list op) : Prop :=
  match os with
  | [] => True
  | o :: os => enabled m o /\ forall m', spec_op m o m' -> legal m' os
  end.

Lemma run_ops_simulation os : forall h m,
  represents h m -> legal m os ->
  exists h' m', run_ops h os = Ok h' /\ spec_ops m os m' /\ represents h' m'.
Proof.
  induction os as [|o os IH]; intros h m Hr Hl; cbn [run_ops spec_ops legal] in *.
  - eauto.
  - destruct Hl as [He Hl]. destruct (simulation h m o Hr He) as (h1 & m1 & -> & Hs & Hr1).
    cbn [mbind res_bind]. destruct (IH h1 m1 Hr1 (Hl m1 Hs)) as (h' & m' & E & Hs' & Hr'). eauto 10.
Qed.

Lemma empty_represents : represents empty_heap ∅.
Proof.
  split; [|done]. split; intros ? ? Hl; cbn in Hl; simplify_map_eq.
Qed.


Definition demo_ops : list op :=
  [OFrom 0%nat [1; 2; 3] 8; OCopy 1%nat 0%nat; OSetByte 1%nat 0 9; OAppendBuffer 0%nat 1%nat;
   OMoveAssign 0%nat 1%nat; ODestroy 1%nat; OAppendData 0%nat [7]].


(** ** A buffer of one's own *)

Lemma data_ctor_owns x bs c :
  0 < Z.max (zlen bs) c ->
  exists h, data_ctor empty_heap x bs c = Ok h /\ ok h /\
    owns h x (poke 0 bs (Buffer.create (zlen bs) c)).
Proof.
  intros Hc. pose proof (zlen_nonneg bs) as Hn. unfold data_ctor.
  destruct (sim_size_ctor empty_heap ∅ empty_represents x (zlen bs) c eq_refl Hn)
    as (h1 & w & E & Hr1 & Hw & Hcase).
  rewrite E. cbn [mbind res_bind]. destruct Hcase as [(_ & Hz & Hc0)|Hown].
  - lia.
  - pose proof Hown as (o & Hx1 & Ho1). rewrite (get_handle_ok _ _ _ Hx1). cbn [mbind res_bind].
    assert (Hp : good_buf (poke 0 bs (Buffer.create (zlen bs) c))).
    { apply poke_good; [by apply good_create|lia|]. cbn. lia. }
    destruct (update_owned h1 x _ o (poke 0 bs) (proj1 Hr1) Hown Hx1 Hp)
      as (h2 & E2 & Hok2 & Hown2 & _). by exists h2.
Qed.

(** An owner's [data()] copies nothing. *)
Lemma data_owned h x b :
  owns h x b -> 0 < Buffer.capacity_ b ->
  exists o, data h x = Ok (Some o, h) /\ get_object h o = Ok (mkObject b 1) /\
    size h x = Ok (Buffer.size_ b) /\ capacity h x = Ok (Buffer.capacity_ b).
Proof.
  intros (o & Hx & Ho) Hc. exists o. unfold data, size, capacity, CloneDataIfReferenced.
  rewrite (dcheck_ok h x o _ Hx Ho Hc). cbn [mbind res_bind].
  rewrite (deref_some _ _ _ _ Hx Ho). cbn [mbind res_bind from_opt HasOneRef ref_count Z.eqb Pos.eqb].
  rewrite (get_handle_ok _ _ _ Hx). unfold get_object. by rewrite Ho.
Qed.

(** ** Where the value semantics ends *)

(** Appending a buffer to itself, when the bytes do not fit the capacity,
    copies from the block the append has just freed. *)
Theorem self_append_dangling h x b bs :
  ok h -> owns h x b -> Buffer.consistent b -> Buffer.data b = Ok bs ->
  Buffer.capacity_ b < Buffer.size_ b + Buffer.size_ b ->
  AppendBuffer h x x = Fail Dangling.
Proof.
  intros Hok (o & Hx & Ho) Hb Hd Hfit.
  assert (Hz : zlen bs = Buffer.size_ b).
  { rewrite <- (Buffer.zlen_contents b Hb), (Buffer.data_inv _ _ Hd), Buffer.zlen_cells. done. }
  unfold AppendBuffer. rewrite (deref_some _ _ _ _ Hx Ho). cbn [mbind res_bind buf]. rewrite Hd.
  cbn [mbind res_bind]. unfold AppendData, CloneDataIfReferenced.
  rewrite (deref_some _ _ _ _ Hx Ho). cbn [mbind res_bind from_opt buf HasOneRef ref_count Z.eqb Pos.eqb].
  rewrite (get_handle_ok _ _ _ Hx). cbn [mbind res_bind from_opt]. unfold update, get_object. rewrite Ho.
  cbn [mbind res_bind from_opt buf ref_count].
  assert (Hg : 0 < Buffer.capacity_ (Buffer.AppendData false b bs)).
  { pose proof (Buffer.ensure_capacity false b (Buffer.size_ b + zlen bs) true).
    unfold Buffer.AppendData. cbn [Buffer.capacity_]. destruct Hb as [_ ?]. lia. }
  erewrite dcheck_ok; [|exact Hx|apply lookup_insert_eq|exact Hg].
  cbn [mbind res_bind objects set_object]. rewrite lookup_insert_eq. cbn [buf].
  rewrite bool_decide_eq_false_2; [done|].
  unfold Buffer.AppendData. rewrite Buffer.ensure_eq. cbn [Buffer.block].
  rewrite (proj2 (Z.leb_gt _ (Buffer.capacity_ b))) by lia. cbn [Buffer.block]. lia.
Qed.

Lemma self_append_dangling_witness :
  exists h b, data_ctor empty_heap 0 [1; 2] 0 = Ok h /\ owns h 0 b /\ AppendBuffer h 0 0 = Fail Dangling.
Proof.
  eexists _, (Buffer.create_from [1; 2] 0). split; [reflexivity|].
  assert (Ho : owns (mkHeap {[0%nat := mkObject (Buffer.create_from [1; 2] 0) 1]}
                            {[0%nat := Some 0%nat]}) 0 (Buffer.create_from [1; 2] 0)).
  { by exists 0%nat. }
  split; [exact Ho|].
  apply (self_append_dangling _ _ (Buffer.create_from [1; 2] 0) [1; 2]).
  - destruct (sim_data_ctor empty_heap ∅ empty_represents 0 [1; 2] 0 eq_refl) as (h & E & Hr).
    injection E as <-. apply Hr.
  - exact Ho.
  - by split.
  - reflexivity.
  - reflexivity.
Defined.

(** Appending nothing to an empty buffer allocates an object without capacity
    and fails the class's own consistency check. *)
Example append_nothing_asserts :
  (h ← default_ctor empty_heap 0; AppendData h 0 []) = Fail AssertFailed.
Proof. reflexivity. Qed.
