(* ===== verification/Srtp.v ===== *)
(** * udp/srtp_session.{h,cpp}, udp/srtp_transport.{h,cpp}: media encryption

    [SrtpSession] wraps one libsrtp context; [SrtpTransport] decrypts what a
    member sends with its receive session and hands the plain packet to its
    subscribers, each of which encrypts it with its own send session and sends
    it to its own peer.  libsrtp is the class [SrtpLib].  Transports are shared
    by several maps, so they live in a store and the maps hold their names. *)
From S2P Require Import Prelude.
From S2P Require Buffer CopyOnWriteBuffer Uvnet.
Local Open Scope Z_scope.

(** ** libsrtp *)

Record srtp_policy_t := mkPolicy {
  rtp_key_len : Z; rtp_auth_tag_len : Z; rtcp_auth_tag_len : Z;
  ssrc_type : Z; key : bytes; window_size : Z; allow_repeat_tx : Z;
}.

Definition ssrc_any_inbound : Z := 2.
Definition ssrc_any_outbound : Z := 3.

(** A status is 0 for [srtp_err_status_ok]. *)
Class SrtpLib (ctx : Type) := {
  srtp_init : Z;
  srtp_install_event_handler : Z;
  (* status, cipher_key_len, auth_tag_len of a profile *)
  crypto_policy_rtp : Z -> Z * Z * Z;
  crypto_policy_rtcp : Z -> Z * Z * Z;
  srtp_create : srtp_policy_t -> Z * ctx;
  srtp_update : ctx -> srtp_policy_t -> Z * ctx;
  (* the packet in, the status and the packet out *)
  srtp_protect : ctx -> bytes -> Z * bytes * ctx;
  srtp_unprotect : ctx -> bytes -> Z * bytes * ctx;
  srtp_protect_rtcp : ctx -> bytes -> Z * bytes * ctx;
  srtp_unprotect_rtcp : ctx -> bytes -> Z * bytes * ctx;
  (* tags are not negative, and a context keeps the lengths it was made with *)
  rtp_tag : ctx -> Z;
  rtcp_tag : ctx -> Z;
  policy_tags : forall cs, 0 <= snd (crypto_policy_rtp cs) /\ 0 <= snd (crypto_policy_rtcp cs);
  create_tags : forall p c, srtp_create p = (0, c) ->
    rtp_tag c = rtp_auth_tag_len p /\ rtcp_tag c = rtcp_auth_tag_len p;
  update_tags : forall c p c', srtp_update c p = (0, c') ->
    rtp_tag c' = rtp_auth_tag_len p /\ rtcp_tag c' = rtcp_auth_tag_len p;
  protect_tags : forall c b e out c', srtp_protect c b = (e, out, c') ->
    rtp_tag c' = rtp_tag c /\ rtcp_tag c' = rtcp_tag c;
  protect_rtcp_tags : forall c b e out c', srtp_protect_rtcp c b = (e, out, c') ->
    rtp_tag c' = rtp_tag c /\ rtcp_tag c' = rtcp_tag c;
  unprotect_tags : forall c b e out c', srtp_unprotect c b = (e, out, c') ->
    rtp_tag c' = rtp_tag c /\ rtcp_tag c' = rtcp_tag c;
  unprotect_rtcp_tags : forall c b e out c', srtp_unprotect_rtcp c b = (e, out, c') ->
    rtp_tag c' = rtp_tag c /\ rtcp_tag c' = rtcp_tag c;
  (* srtp.h: protecting adds at most the tag, and for RTCP an index word *)
  protect_length : forall c b out c', srtp_protect c b = (0, out, c') ->
    zlen out <= zlen b + rtp_tag c;
  protect_rtcp_length : forall c b out c', srtp_protect_rtcp c b = (0, out, c') ->
    zlen out <= zlen b + rtcp_tag c + 4;
  (* a packet never grows when it is unprotected *)
  unprotect_length : forall c b e out c', srtp_unprotect c b = (e, out, c') -> zlen out <= zlen b;
  unprotect_rtcp_length : forall c b e out c',
    srtp_unprotect_rtcp c b = (e, out, c') -> zlen out <= zlen b;
}.

Section Srtp.
Context {ctx : Type} `{SrtpLib ctx}.
Context {IpAddress : Type}.

(** ** SrtpSession *)

Record SrtpSession := mkSession {
  _srtp_session : option ctx;
  _rtp_auth_tag_len : Z;
  _rtcp_auth_tag_len : Z;
}.

Definition new_session : SrtpSession := mkSession None 0 0.

(** A null key is the empty string here: [c_str()] is never null. *)
Definition set_key (s : SrtpSession) (type cs : Z) (k : bytes) : bool * SrtpSession :=
  let '(rtp_ret, key_len, rtp_tag_len) := crypto_policy_rtp cs in
  let '(rtcp_ret, _, rtcp_tag_len) := crypto_policy_rtcp cs in
  if negb (rtp_ret =? 0) || negb (rtcp_ret =? 0) then (false, s)
  else if negb (zlen k =? key_len) then (false, s)
  else
    let policy := mkPolicy key_len rtp_tag_len rtcp_tag_len type k 1024 1 in
    match _srtp_session s with
    | None =>
        let '(err, c) := srtp_create policy in
        if negb (err =? 0) then (false, mkSession None (_rtp_auth_tag_len s) (_rtcp_auth_tag_len s))
        else (true, mkSession (Some c) rtp_tag_len rtcp_tag_len)
    | Some c =>
        let '(err, c') := srtp_update c policy in
        if negb (err =? 0) then (false, s)
        else (true, mkSession (Some c') rtp_tag_len rtcp_tag_len)
    end.

Definition set_send (s : SrtpSession) (cs : Z) (k : bytes) := set_key s ssrc_any_outbound cs k.
Definition set_recv (s : SrtpSession) (cs : Z) (k : bytes) := set_key s ssrc_any_inbound cs k.
Definition update_send (s : SrtpSession) (cs : Z) (k : bytes) : bool * SrtpSession := (false, s).
Definition update_recv (s : SrtpSession) (cs : Z) (k : bytes) : bool * SrtpSession := (false, s).

(** The two lengths written, if any. *)
Definition get_auth_tag_len (s : SrtpSession) : option (Z * Z) :=
  match _srtp_session s with
  | None => None
  | Some _ => Some (_rtp_auth_tag_len s, _rtcp_auth_tag_len s)
  end.

(** [*out_len] and the bytes at [p], when the session exists; the flag. *)
Definition with_ctx (s : SrtpSession) (c : ctx) : SrtpSession :=
  mkSession (Some c) (_rtp_auth_tag_len s) (_rtcp_auth_tag_len s).

Definition unprotect_rtp (s : SrtpSession) (p : bytes) : option bytes * bool * SrtpSession :=
  match _srtp_session s with
  | None => (None, false, s)
  | Some c => let '(err, out, c) := srtp_unprotect c p in (Some out, err =? 0, with_ctx s c)
  end.

Definition unprotect_rtcp (s : SrtpSession) (p : bytes) : option bytes * bool * SrtpSession :=
  match _srtp_session s with
  | None => (None, false, s)
  | Some c => let '(err, out, c) := srtp_unprotect_rtcp c p in (Some out, err =? 0, with_ctx s c)
  end.

(** libsrtp writes the protected packet over the plain one: [cap] bytes are
    there to be written. *)
Definition protect_rtp (s : SrtpSession) (p : bytes) (in_len max_len cap : Z)
    : res (option bytes * SrtpSession) :=
  match _srtp_session s with
  | None => Ok (None, s)
  | Some c =>
      let need_len := in_len + _rtp_auth_tag_len s in
      if max_len <? need_len then Ok (None, s)
      else
        let '(err, out, c) := srtp_protect c p in
        if negb (err =? 0) then Ok (None, with_ctx s c)
        else _ ← require (zlen out <=? cap) OutOfBounds; Ok (Some out, with_ctx s c)
  end.

Definition protect_rtcp (s : SrtpSession) (p : bytes) (in_len max_len cap : Z)
    : res (option bytes * SrtpSession) :=
  match _srtp_session s with
  | None => Ok (None, s)
  | Some c =>
      let need_len := in_len + _rtcp_auth_tag_len s + 4 in
      if max_len <? need_len then Ok (None, s)
      else
        let '(err, out, c) := srtp_protect_rtcp c p in
        if negb (err =? 0) then Ok (None, with_ctx s c)
        else _ ← require (zlen out <=? cap) OutOfBounds; Ok (Some out, with_ctx s c)
  end.

(** ** SrtpTransport *)

Record SrtpTransport := mkTransport {
  _subs_map : gmap bytes nat;
  _send_session : option SrtpSession;
  _recv_session : option SrtpSession;
  _udp : nat;                    (* a plain pointer: the name of a socket *)
  _addr : IpAddress;
}.

(** All transports, the static [_srtp_init], the datagrams sent, and which
    sockets exist. *)
Record world := mkWorld {
  _srtp_init : bool;
  transports : gmap nat SrtpTransport;
  net : list (IpAddress * bytes);
  udps : Uvnet.udps;
}.

Definition new_transport (udp : nat) (addr : IpAddress) : SrtpTransport :=
  mkTransport ∅ None None udp addr.

Definition get_transport (w : world) (t : nat) : res SrtpTransport :=
  from_opt NullDeref (transports w !! t).

Definition set_transport (w : world) (t : nat) (st : SrtpTransport) : world :=
  mkWorld (_srtp_init w) (<[t := st]> (transports w)) (net w) (udps w).

Definition add_subscriber (st : SrtpTransport) (uid : bytes) (sber : nat) : SrtpTransport :=
  mkTransport (<[uid := sber]> (_subs_map st)) (_send_session st) (_recv_session st) (_udp st) (_addr st).

Definition remove_subscriber (st : SrtpTransport) (uid : bytes) : SrtpTransport :=
  mkTransport (delete uid (_subs_map st)) (_send_session st) (_recv_session st) (_udp st) (_addr st).

Definition set_srtp_param (w : world) (t : nat) (send_cs : Z) (send_key : bytes)
    (recv_cs : Z) (recv_key : bytes) : res (bool * world) :=
  st ← get_transport w t;
  let go w :=
    let send := default new_session (_send_session st) in
    let recv := default new_session (_recv_session st) in
    let '(_, send) := set_send send send_cs send_key in
    let '(_, recv) := set_recv recv recv_cs recv_key in
    Ok (true, set_transport w t (mkTransport (_subs_map st) (Some send) (Some recv) (_udp st) (_addr st))) in
  if negb (_srtp_init w) then
    if negb (srtp_init =? 0) then Ok (false, w)
    else
      let w := mkWorld true (transports w) (net w) (udps w) in
      if negb (srtp_install_event_handler =? 0) then Ok (false, w) else go w
  else go w.

Definition reset (st : SrtpTransport) : SrtpTransport :=
  mkTransport (_subs_map st) None None (_udp st) (_addr st).

Definition get_send_auth_tag_len (st : SrtpTransport) : option (Z * Z) :=
  match _send_session st with None => None | Some s => get_auth_tag_len s end.

(** The packet as a [CopyOnWriteBuffer] of its own: [data()], [size()] and
    [capacity()]. *)
Definition packet_buffer (data : bytes) (capacity : Z) : res (bytes * Z * Z) :=
  h ← CopyOnWriteBuffer.data_ctor CopyOnWriteBuffer.empty_heap 0 data capacity;
  '(p, h) ← CopyOnWriteBuffer.data h 0;
  size ← CopyOnWriteBuffer.size h 0;
  cap ← CopyOnWriteBuffer.capacity h 0;
  match p with
  | None => Ok ([], size, cap)
  | Some o =>
      ob ← CopyOnWriteBuffer.get_object h o;
      bs ← Buffer.data (CopyOnWriteBuffer.buf ob);
      Ok (bs, size, cap)
  end.

Definition sent (w : world) (addr : IpAddress) (p : bytes) : world :=
  mkWorld (_srtp_init w) (transports w) (net w ++ [(addr, p)]) (udps w).

(** [udp->send2(...)]: a member call on the socket. *)
Definition send2 (w : world) (udp : nat) (addr : IpAddress) (p : bytes) : res world :=
  _ ← require (bool_decide (udp ∈ Uvnet.alive (udps w))) Dangling; Ok (sent w addr p).

Definition with_send (st : SrtpTransport) (s : SrtpSession) : SrtpTransport :=
  mkTransport (_subs_map st) (Some s) (_recv_session st) (_udp st) (_addr st).

Definition with_recv (st : SrtpTransport) (s : SrtpSession) : SrtpTransport :=
  mkTransport (_subs_map st) (_send_session st) (Some s) (_udp st) (_addr st).

Definition on_rtp_packet (w : world) (t : nat) (data : bytes) : res world :=
  st ← get_transport w t;
  if negb (_srtp_init w) then Ok w
  else
    let rtp_auth_tag_len := match get_send_auth_tag_len st with Some (n, _) => n | None => 0 end in
    '(buf, size, cap) ← packet_buffer data (zlen data + rtp_auth_tag_len);
    send ← from_opt NullDeref (_send_session st);
    '(out, send) ← protect_rtp send buf size cap cap;
    let w := set_transport w t (with_send st send) in
    match out with Some out => send2 w (_udp st) (_addr st) out | None => Ok w end.

Definition on_rtcp_packet (w : world) (t : nat) (data : bytes) : res world :=
  st ← get_transport w t;
  if negb (_srtp_init w) then Ok w
  else
    let rtcp_auth_tag_len := match get_send_auth_tag_len st with Some (_, n) => n | None => 0 end in
    '(buf, size, cap) ← packet_buffer data (zlen data + rtcp_auth_tag_len + 4);
    send ← from_opt NullDeref (_send_session st);
    '(out, send) ← protect_rtcp send buf size cap cap;
    let w := set_transport w t (with_send st send) in
    match out with Some out => send2 w (_udp st) (_addr st) out | None => Ok w end.

(** The order in which an [unordered_map] is iterated is unspecified. *)
Context (order : gmap bytes nat -> list (bytes * nat)).

Fixpoint forward (send : world -> nat -> bytes -> res world) (w : world)
    (subs : list (bytes * nat)) (data : bytes) : res world :=
  match subs with
  | [] => Ok w
  | (_, s) :: subs => w ← send w s data; forward send w subs data
  end.

Definition handle_rtp_data (w : world) (t : nat) (data : bytes) : res world :=
  if negb (_srtp_init w) then Ok w
  else
    st ← get_transport w t;
    recv ← from_opt NullDeref (_recv_session st);
    let '(out, flag, recv) := unprotect_rtp recv data in
    let w := set_transport w t (with_recv st recv) in
    match out with
    | Some out =>
        if (0 <? zlen out) && flag then forward on_rtp_packet w (order (_subs_map st)) out else Ok w
    | None => Ok w
    end.

Definition handle_rtcp_data (w : world) (t : nat) (data : bytes) : res world :=
  if negb (_srtp_init w) then Ok w
  else
    st ← get_transport w t;
    recv ← from_opt NullDeref (_recv_session st);
    let '(out, flag, recv) := unprotect_rtcp recv data in
    let w := set_transport w t (with_recv st recv) in
    match out with
    | Some out =>
        if (0 <? zlen out) && flag then forward on_rtcp_packet w (order (_subs_map st)) out else Ok w
    | None => Ok w
    end.
(** ** Sessions *)

(** The lengths a session remembers are those of its context. *)
Definition session_ok (s : SrtpSession) : Prop :=
  match _srtp_session s with
  | None => True
  | Some c =>
      rtp_tag c = _rtp_auth_tag_len s /\ rtcp_tag c = _rtcp_auth_tag_len s /\
      0 <= _rtp_auth_tag_len s /\ 0 <= _rtcp_auth_tag_len s
  end.

Lemma set_key_ok s type cs k b s' :
  session_ok s -> set_key s type cs k = (b, s') -> session_ok s'.
Proof.
  intros Hs. unfold set_key. pose proof (policy_tags cs) as [H1 H2].
  destruct (crypto_policy_rtp cs) as [[r kl] t1]. destruct (crypto_policy_rtcp cs) as [[r' kl'] t2].
  cbn [snd] in H1, H2. case_match; [intros [= <- <-]; done|].
  case_match; [intros [= <- <-]; done|].
  destruct (_srtp_session s) as [c|] eqn:E.
  - destruct (srtp_update c _) as [e c'] eqn:Eu. destruct (Z.eqb_spec e 0); cbn [negb].
    + intros [= <- <-]. subst e. apply update_tags in Eu. cbn in Eu. unfold session_ok. cbn. lia.
    + intros [= <- <-]. unfold session_ok in *. by rewrite E in *.
  - destruct (srtp_create _) as [e c'] eqn:Eu. destruct (Z.eqb_spec e 0); cbn [negb].
    + intros [= <- <-]. subst e. apply create_tags in Eu. cbn in Eu. unfold session_ok. cbn. lia.
    + intros [= <- <-]. done.
Qed.

Lemma with_ctx_ok s c c' :
  session_ok s -> _srtp_session s = Some c -> rtp_tag c' = rtp_tag c /\ rtcp_tag c' = rtcp_tag c ->
  session_ok (with_ctx s c').
Proof.
  unfold session_ok. intros Hs E [E1 E2]. rewrite E in Hs. cbn. rewrite E1, E2. exact Hs.
Qed.

(** With the capacity the callers reserve, protecting a packet never writes
    past the buffer and never reports that the buffer is too small. *)
Lemma protect_rtp_fits s c p :
  session_ok s -> _srtp_session s = Some c ->
  let cap := zlen p + _rtp_auth_tag_len s in
  exists s', protect_rtp s p (zlen p) cap cap =
    Ok (let '(err, out, _) := srtp_protect c p in if err =? 0 then Some out else None, s') /\
    session_ok s'.
Proof.
  intros Hs E. cbv zeta. unfold protect_rtp. rewrite E, (proj2 (Z.ltb_ge _ _)) by lia.
  destruct (srtp_protect c p) as [[err out] c'] eqn:Ep.
  pose proof (protect_tags _ _ _ _ _ Ep) as Ht. pose proof (with_ctx_ok s c c' Hs E Ht) as Hs'.
  destruct (Z.eqb_spec err 0) as [->|]; cbn [negb]; [|by eauto].
  apply protect_length in Ep. unfold session_ok in Hs. rewrite E in Hs.
  rewrite (proj2 (Z.leb_le _ _)) by lia. cbn. by eauto.
Qed.

Lemma protect_rtcp_fits s c p :
  session_ok s -> _srtp_session s = Some c ->
  let cap := zlen p + _rtcp_auth_tag_len s + 4 in
  exists s', protect_rtcp s p (zlen p) cap cap =
    Ok (let '(err, out, _) := srtp_protect_rtcp c p in if err =? 0 then Some out else None, s') /\
    session_ok s'.
Proof.
  intros Hs E. cbv zeta. unfold protect_rtcp. rewrite E, (proj2 (Z.ltb_ge _ _)) by lia.
  destruct (srtp_protect_rtcp c p) as [[err out] c'] eqn:Ep.
  pose proof (protect_rtcp_tags _ _ _ _ _ Ep) as Ht. pose proof (with_ctx_ok s c c' Hs E Ht) as Hs'.
  destruct (Z.eqb_spec err 0) as [->|]; cbn [negb]; [|by eauto].
  apply protect_rtcp_length in Ep. unfold session_ok in Hs. rewrite E in Hs.
  rewrite (proj2 (Z.leb_le _ _)) by lia. cbn. by eauto.
Qed.

Lemma packet_buffer_ok data cap :
  0 < zlen data -> zlen data <= cap -> packet_buffer data cap = Ok (data, zlen data, cap).
Proof.
  intros Hd Hc. unfold packet_buffer.
  destruct (CopyOnWriteBuffer.data_ctor_owns 0 data cap ltac:(lia)) as (h & -> & Hok & Hown).
  cbn [mbind res_bind].
  destruct (CopyOnWriteBuffer.data_owned h 0 _ Hown) as (o & -> & E1 & E2 & E3); [cbn; lia|].
  cbn [mbind res_bind]. rewrite E2. cbn [mbind res_bind]. rewrite E3. cbn [mbind res_bind].
  rewrite E1. cbn [mbind res_bind CopyOnWriteBuffer.buf].
  rewrite (Buffer.data_ok _ data).
  - cbn [mbind res_bind]. cbn. by rewrite Z.max_r by lia.
  - apply CopyOnWriteBuffer.poke_0_contents; [|done]. apply Buffer.create_consistent. lia.
Qed.

(** ** The world *)

Definition opt_ok (o : option SrtpSession) : Prop :=
  match o with None => True | Some s => session_ok s end.

Definition transport_ok (w : world) (st : SrtpTransport) : Prop :=
  opt_ok (_send_session st) /\ opt_ok (_recv_session st) /\
  map_Forall (fun _ s => is_Some (transports w !! s)) (_subs_map st).

Definition world_ok (w : world) : Prop := map_Forall (fun _ st => transport_ok w st) (transports w).

(** What forwarding leaves alone: the addresses, the subscriptions, which
    sessions exist. *)
Definition same_shape (a b : SrtpTransport) : Prop :=
  _subs_map a = _subs_map b /\ (_udp a = _udp b /\ _addr a = _addr b) /\
  (is_Some (_send_session a) <-> is_Some (_send_session b)) /\
  (is_Some (_recv_session a) <-> is_Some (_recv_session b)) /\
  (is_Some (_send_session a ≫= _srtp_session) -> is_Some (_send_session b ≫= _srtp_session)).

Definition same_world (w w' : world) : Prop :=
  (_srtp_init w' = _srtp_init w /\ udps w' = udps w) /\
  forall t, option_relation same_shape (fun _ => False) (fun _ => False)
              (transports w !! t) (transports w' !! t).

Lemma same_shape_refl a : same_shape a a.
Proof. by split_and!. Qed.

Lemma same_world_refl w : same_world w w.
Proof. split; [done|]. intros t. destruct (transports w !! t); [apply same_shape_refl|done]. Qed.

Lemma same_shape_trans a b c : same_shape a b -> same_shape b c -> same_shape a c.
Proof.
  intros (E1 & [E0 E2] & E3 & E4 & E5) (F1 & [F0 F2] & F3 & F4 & F5).
  split_and!; try congruence; try tauto.
Qed.

Lemma same_world_trans w1 w2 w3 : same_world w1 w2 -> same_world w2 w3 -> same_world w1 w3.
Proof.
  intros [[E1 E1'] H1] [[E2 E2'] H2]. split; [split; congruence|]. intros t. specialize (H1 t). specialize (H2 t).
  destruct (transports w1 !! t), (transports w2 !! t), (transports w3 !! t); try done.
  by eapply same_shape_trans.
Qed.

Lemma same_world_live w w' t : same_world w w' -> is_Some (transports w !! t) -> is_Some (transports w' !! t).
Proof.
  intros [_ Hs] [st E]. specialize (Hs t). rewrite E in Hs.
  destruct (transports w' !! t); [by eexists|done].
Qed.

(** Replacing one transport by another of its shape. *)
Lemma set_transport_ok w t st st' :
  world_ok w -> transports w !! t = Some st -> same_shape st st' ->
  opt_ok (_send_session st') -> opt_ok (_recv_session st') ->
  world_ok (set_transport w t st') /\ same_world w (set_transport w t st').
Proof.
  intros Hw Ht Hs H1 H2.
  assert (Hsame : same_world w (set_transport w t st')).
  { split; [done|]. intros q. cbn. destruct (decide (q = t)) as [->|Hne].
    - rewrite lookup_insert_eq, Ht. exact Hs.
    - rewrite lookup_insert_ne by done. apply same_world_refl. }
  split; [|done]. intros q sq Hq. cbn in Hq.
  apply lookup_insert_Some in Hq as [[<- <-]|[Hne Hq]].
  - split; [done|]. split; [done|]. destruct Hs as (E & _). rewrite <- E.
    destruct (Hw t st Ht) as (_ & _ & Hf). intros u s Hu. apply (same_world_live w); [done|].
    by apply (Hf u).
  - destruct (Hw q sq Hq) as (A & B & Hf). split; [done|]. split; [done|].
    intros u s Hu. apply (same_world_live w); [done|]. by apply (Hf u).
Qed.

Lemma world_ok_net w n : world_ok w -> world_ok (mkWorld (_srtp_init w) (transports w) n (udps w)).
Proof. done. Qed.
(** ** Forwarding *)

(** What a transport sends for one plain packet. *)
Definition emit (protect : ctx -> bytes -> Z * bytes * ctx) (st : SrtpTransport) (data : bytes)
    : list (IpAddress * bytes) :=
  match _send_session st ≫= _srtp_session with
  | None => []
  | Some c => let '(err, out, _) := protect c data in if err =? 0 then [(_addr st, out)] else []
  end.

(** Its socket has not been deleted. *)
Definition socket_open (w : world) (st : SrtpTransport) : Prop := _udp st ∈ Uvnet.alive (udps w).

(** A transport that can be forwarded to: with its send session, and the
    socket it sends on still there. *)
Definition can_send (w : world) (t : nat) : Prop :=
  exists st, transports w !! t = Some st /\ is_Some (_send_session st) /\ socket_open w st.

Definition send_spec (send : world -> nat -> bytes -> res world)
    (protect : ctx -> bytes -> Z * bytes * ctx) : Prop :=
  forall w t st data, world_ok w -> _srtp_init w = true -> transports w !! t = Some st ->
  is_Some (_send_session st) -> socket_open w st -> 0 < zlen data ->
  exists w', send w t data = Ok w' /\ world_ok w' /\ same_world w w' /\
    net w' = net w ++ emit protect st data.

Lemma finish_send w t st s s' data out protect c :
  world_ok w -> transports w !! t = Some st -> _send_session st = Some s ->
  _srtp_session s = Some c -> session_ok s' -> is_Some (_srtp_session s') -> socket_open w st ->
  out = (let '(err, out, _) := protect c data in if err =? 0 then Some out else None) ->
  exists w', (match out with
              | Some out => send2 (set_transport w t (with_send st s')) (_udp st) (_addr st) out
              | None => Ok (set_transport w t (with_send st s'))
              end) = Ok w' /\ world_ok w' /\ same_world w w' /\ net w' = net w ++ emit protect st data.
Proof.
  intros Hw Ht Hs Hc Hs' Hi Ho ->. pose proof (Hw t st Ht) as (_ & Hrecv & _).
  destruct (set_transport_ok w t st (with_send st s') Hw Ht) as [Hok Hsame]; [|done|done|].
  { by split_and!. }
  unfold emit. rewrite Hs. cbn [mbind option_bind]. rewrite Hc.
  destruct (protect c data) as [[err o] c']. destruct (err =? 0).
  - unfold send2. rewrite bool_decide_eq_true_2 by exact Ho. cbn [require mbind res_bind].
    eexists. by split_and!.
  - eexists. split_and!; try done. by rewrite app_nil_r.
Qed.

Lemma protect_rtp_keeps s p a b k o s' c :
  protect_rtp s p a b k = Ok (o, s') -> _srtp_session s = Some c -> is_Some (_srtp_session s').
Proof.
  unfold protect_rtp. intros Hp E. rewrite E in Hp. case_match; [injection Hp as <- <-; by eexists|].
  destruct (srtp_protect c p) as [[e out] c']. case_match; [injection Hp as <- <-; by eexists|].
  apply res_bind_ok in Hp as (? & _ & Hp). injection Hp as <- <-. by eexists.
Qed.

Lemma protect_rtcp_keeps s p a b k o s' c :
  protect_rtcp s p a b k = Ok (o, s') -> _srtp_session s = Some c -> is_Some (_srtp_session s').
Proof.
  unfold protect_rtcp. intros Hp E. rewrite E in Hp. case_match; [injection Hp as <- <-; by eexists|].
  destruct (srtp_protect_rtcp c p) as [[e out] c']. case_match; [injection Hp as <- <-; by eexists|].
  apply res_bind_ok in Hp as (? & _ & Hp). injection Hp as <- <-. by eexists.
Qed.

(** A send session that never got a key drops the packet. *)
Lemma keyless_send w t st s protect data :
  world_ok w -> transports w !! t = Some st -> _send_session st = Some s ->
  _srtp_session s = None ->
  world_ok (set_transport w t (with_send st s)) /\ same_world w (set_transport w t (with_send st s)) /\
  net (set_transport w t (with_send st s)) = net w ++ emit protect st data.
Proof.
  intros Hw Ht Hs Hc. pose proof (Hw t st Ht) as (Hsend & Hrecv & _). rewrite Hs in Hsend.
  destruct (set_transport_ok w t st (with_send st s) Hw Ht) as [Hok Hsame]; [|done|done|].
  { split_and!; try done; cbn; rewrite Hs; done. }
  split; [done|]. split; [done|]. unfold emit. rewrite Hs. cbn [mbind option_bind]. rewrite Hc.
  by rewrite app_nil_r.
Qed.

Lemma on_rtp_packet_spec : send_spec on_rtp_packet srtp_protect.
Proof.
  intros w t st data Hw Hi Ht [s Hs] Ho Hd. unfold on_rtp_packet, get_transport. rewrite Ht, Hi.
  cbn [from_opt mbind res_bind negb]. unfold get_send_auth_tag_len, get_auth_tag_len. rewrite Hs.
  pose proof (Hw t st Ht) as (Hsend & _ & _). rewrite Hs in Hsend. cbn [opt_ok] in Hsend.
  destruct (_srtp_session s) as [c|] eqn:Hc.
  - pose proof Hsend as Hsz. unfold session_ok in Hsz. rewrite Hc in Hsz.
    rewrite packet_buffer_ok by lia. cbn [from_opt mbind res_bind].
    destruct (protect_rtp_fits s c data Hsend Hc) as (s' & E & Hs'). rewrite E. cbn [mbind res_bind].
    destruct (finish_send w t st s s' data _ srtp_protect c Hw Ht Hs Hc Hs'
      (protect_rtp_keeps _ _ _ _ _ _ _ _ E Hc) Ho eq_refl) as (w' & E' & ?).
    exists w'. by rewrite E'.
  - rewrite Z.add_0_r, packet_buffer_ok by lia. cbn [from_opt mbind res_bind].
    unfold protect_rtp. rewrite Hc. cbn [mbind res_bind]. eexists. split; [done|].
    by apply keyless_send.
Qed.

Lemma on_rtcp_packet_spec : send_spec on_rtcp_packet srtp_protect_rtcp.
Proof.
  intros w t st data Hw Hi Ht [s Hs] Ho Hd. unfold on_rtcp_packet, get_transport. rewrite Ht, Hi.
  cbn [from_opt mbind res_bind negb]. unfold get_send_auth_tag_len, get_auth_tag_len. rewrite Hs.
  pose proof (Hw t st Ht) as (Hsend & _ & _). rewrite Hs in Hsend. cbn [opt_ok] in Hsend.
  destruct (_srtp_session s) as [c|] eqn:Hc.
  - pose proof Hsend as Hsz. unfold session_ok in Hsz. rewrite Hc in Hsz.
    rewrite packet_buffer_ok by lia. cbn [from_opt mbind res_bind].
    destruct (protect_rtcp_fits s c data Hsend Hc) as (s' & E & Hs'). rewrite E. cbn [mbind res_bind].
    destruct (finish_send w t st s s' data _ srtp_protect_rtcp c Hw Ht Hs Hc Hs'
      (protect_rtcp_keeps _ _ _ _ _ _ _ _ E Hc) Ho eq_refl) as (w' & E' & ?).
    exists w'. by rewrite E'.
  - rewrite packet_buffer_ok by lia. cbn [from_opt mbind res_bind].
    unfold protect_rtcp. rewrite Hc. cbn [mbind res_bind]. eexists. split; [done|].
    by apply keyless_send.
Qed.

(** The peers behind a list of subscribers. *)
Definition addresses (w : world) (subs : list (bytes * nat)) : list IpAddress :=
  omap (fun kv => _addr <$> transports w !! snd kv) subs.

Lemma addresses_same w w' subs : same_world w w' -> addresses w' subs = addresses w subs.
Proof.
  intros [_ Hs]. unfold addresses. induction subs as [|[u t] subs IH]; [done|]. cbn.
  specialize (Hs t). rewrite IH.
  destruct (transports w !! t) as [a|], (transports w' !! t) as [b|]; try done.
  cbn in *. destruct Hs as (_ & [_ E] & _). by rewrite E.
Qed.

Lemma can_send_same w w' t : same_world w w' -> can_send w t -> can_send w' t.
Proof.
  intros [[_ Eu] Hs] (st & Ht & Hsend & Ho). specialize (Hs t). rewrite Ht in Hs. unfold can_send.
  destruct (transports w' !! t) as [b|]; [|done]. exists b. split; [done|].
  destruct Hs as (_ & [Es _] & E & _). split; [by apply E|]. unfold socket_open in *.
  by rewrite Eu, <- Es.
Qed.

Definition has_ctx (w : world) (t : nat) : Prop :=
  exists st, transports w !! t = Some st /\ is_Some (_send_session st ≫= _srtp_session).

Lemma has_ctx_same w w' t : same_world w w' -> has_ctx w t -> has_ctx w' t.
Proof.
  intros [_ Hs] (st & Ht & Hsend). specialize (Hs t). rewrite Ht in Hs. unfold has_ctx.
  destruct (transports w' !! t) as [b|]; [|done]. exists b. split; [done|].
  destruct Hs as (_ & _ & _ & _ & E). by apply E.
Qed.

(** One packet per subscriber at most, in the order of the map, each an
    encryption of [plain] sent to that subscriber's own peer; exactly one per
    subscriber when libsrtp encrypts them all. *)
Definition delivered (protect : ctx -> bytes -> Z * bytes * ctx) (w : world)
    (subs : list (bytes * nat)) (plain : bytes) (pkts : list (IpAddress * bytes)) : Prop :=
  (fst <$> pkts) `sublist_of` addresses w subs /\
  Forall (fun p => exists c c', protect c plain = (0, snd p, c')) pkts /\
  ((forall c b, fst (fst (protect c b)) = 0) -> Forall (fun kv => has_ctx w (snd kv)) subs ->
   fst <$> pkts = addresses w subs).

Lemma emit_cases protect st data :
  emit protect st data = [] \/
  exists out c c', emit protect st data = [(_addr st, out)] /\ protect c data = (0, out, c').
Proof.
  unfold emit. destruct (_send_session st ≫= _srtp_session) as [c|]; [|by left].
  destruct (protect c data) as [[err out] c'] eqn:E. destruct (Z.eqb_spec err 0) as [->|]; [|by left].
  right. by exists out, c, c'.
Qed.

Lemma emit_succeeds (protect : ctx -> bytes -> Z * bytes * ctx) st data :
  (forall c b, fst (fst (protect c b)) = 0) -> is_Some (_send_session st ≫= _srtp_session) ->
  exists out, emit protect st data = [(_addr st, out)].
Proof.
  intros Hp [c Hc]. unfold emit. rewrite Hc. specialize (Hp c data).
  destruct (protect c data) as [[err out] c']. cbn in Hp. subst err. by exists out.
Qed.

Lemma forward_spec send protect data : send_spec send protect -> 0 < zlen data ->
  forall subs w, world_ok w -> _srtp_init w = true -> Forall (fun kv => can_send w (snd kv)) subs ->
  exists w' pkts, forward send w subs data = Ok w' /\ world_ok w' /\ same_world w w' /\
    net w' = net w ++ pkts /\ delivered protect w subs data pkts.
Proof.
  intros Hsend Hd. induction subs as [|[u t] subs IH]; intros w Hw Hi Hc; cbn [forward].
  - exists w, []. split; [done|]. split; [done|]. split; [apply same_world_refl|].
    split; [by rewrite app_nil_r|]. split; [constructor|]. split; [constructor|done].
  - apply Forall_cons_1 in Hc as [(st & Ht & Hs & Ho) Hc]. cbn [snd] in Ht.
    destruct (Hsend w t st data Hw Hi Ht Hs Ho Hd) as (w1 & -> & Hw1 & Hs1 & Hn1). cbn [mbind res_bind].
    destruct (IH w1 Hw1) as (w' & pkts & -> & Hw' & Hs' & Hn' & Hsub & Henc & Hall).
    { by rewrite (proj1 (proj1 Hs1)). }
    { eapply Forall_impl; [|exact Hc]. intros kv. by apply can_send_same. }
    exists w', (emit protect st data ++ pkts). split; [done|]. split; [done|].
    split; [by eapply same_world_trans|]. split; [by rewrite Hn', Hn1, app_assoc|].
    rewrite (addresses_same w w1) in Hsub, Hall by done.
    assert (Ha : addresses w ((u, t) :: subs) = _addr st :: addresses w subs)
      by (unfold addresses; cbn; by rewrite Ht).
    unfold delivered. rewrite fmap_app, Ha. split; [|split].
    + destruct (emit_cases protect st data) as [->|(out & c & c' & -> & _)]; cbn; by constructor.
    + destruct (emit_cases protect st data) as [->|(out & c & c' & -> & E)]; cbn; [done|].
      constructor; [by exists c, c'|done].
    + intros Hp Hctx. apply Forall_cons_1 in Hctx as [(st' & Ht' & Hc') Hctx]. cbn [snd] in Ht'.
      rewrite Ht in Ht'. injection Ht' as <-.
      destruct (emit_succeeds protect st data Hp Hc') as [out ->]. cbn. f_equal. apply Hall; [done|].
      eapply Forall_impl; [|exact Hctx]. intros kv. by apply has_ctx_same.
Qed.

Context (order_perm : forall m, order m ≡ₚ map_to_list m).

(** The subscribers of a transport, once all of them have their sessions. *)
Definition subscribers_ready (w : world) (st : SrtpTransport) : Prop :=
  map_Forall (fun _ s => can_send w s) (_subs_map st).

Lemma ready_order w st :
  subscribers_ready w st -> Forall (fun kv => can_send w (snd kv)) (order (_subs_map st)).
Proof.
  intros Hsr. rewrite order_perm. apply list.Forall_forall. intros [u s] Hin.
  apply elem_of_map_to_list in Hin. by apply (Hsr u).
Qed.

Lemma unprotect_ok s p out flag s' :
  session_ok s -> unprotect_rtp s p = (out, flag, s') ->
  session_ok s' /\ forall o, out = Some o -> zlen o <= zlen p.
Proof.
  intros Hs. unfold unprotect_rtp. destruct (_srtp_session s) as [c|] eqn:E.
  - destruct (srtp_unprotect c p) as [[e o] c'] eqn:Eu. intros [= <- <- <-]. split.
    + apply (with_ctx_ok s c); [done|done|]. by eapply unprotect_tags.
    + intros ? [= <-]. by eapply unprotect_length.
  - intros [= <- <- <-]. by split.
Qed.

Lemma unprotect_rtcp_ok s p out flag s' :
  session_ok s -> unprotect_rtcp s p = (out, flag, s') ->
  session_ok s' /\ forall o, out = Some o -> zlen o <= zlen p.
Proof.
  intros Hs. unfold unprotect_rtcp. destruct (_srtp_session s) as [c|] eqn:E.
  - destruct (srtp_unprotect_rtcp c p) as [[e o] c'] eqn:Eu. intros [= <- <- <-]. split.
    + apply (with_ctx_ok s c); [done|done|]. by eapply unprotect_rtcp_tags.
    + intros ? [= <-]. by eapply unprotect_rtcp_length.
  - intros [= <- <- <-]. by split.
Qed.

(** The packet that [unprotect] authenticated and decrypted, if it did. *)
Definition accepted (r : option bytes * bool * SrtpSession) : option bytes :=
  match r with
  | (Some out, true, _) => if 0 <? zlen out then Some out else None
  | _ => None
  end.

(** What a received packet leads to: the world stays well formed; when the
    packet is accepted it goes to the transport's subscribers, otherwise
    nothing is sent. *)
Definition forwarded (protect : ctx -> bytes -> Z * bytes * ctx) (w : world) (st : SrtpTransport)
    (plain : option bytes) (r : res world) : Prop :=
  exists w' pkts, r = Ok w' /\ world_ok w' /\ same_world w w' /\ net w' = net w ++ pkts /\
    match plain with
    | Some plain => delivered protect w (order (_subs_map st)) plain pkts
    | None => pkts = []
    end.

Lemma after_unprotect send protect w t st recv recv' (out : option bytes) (flag : bool) :
  send_spec send protect -> world_ok w -> _srtp_init w = true -> transports w !! t = Some st ->
  _recv_session st = Some recv -> session_ok recv' -> subscribers_ready w st ->
  forwarded protect w st (accepted (out, flag, recv'))
    (let w := set_transport w t (with_recv st recv') in
     match out with
     | Some out => if (0 <? zlen out) && flag then forward send w (order (_subs_map st)) out else Ok w
     | None => Ok w
     end).
Proof.
  intros Hsp Hw Hi Ht Hr Hs' Hready. pose proof (Hw t st Ht) as (Hsend & _ & _).
  destruct (set_transport_ok w t st (with_recv st recv') Hw Ht) as [Hok Hsame]; [|done|done|].
  { by split_and!. }
  assert (Hidle : forwarded protect w st None (Ok (set_transport w t (with_recv st recv')))).
  { eexists _, []. split; [done|]. split; [done|]. split; [done|]. split; [by rewrite app_nil_r|done]. }
  cbv zeta. destruct out as [out|]; [|done]. cbn [accepted]. destruct flag.
  2: { by rewrite andb_false_r. }
  rewrite andb_true_r. destruct (Z.ltb_spec 0 (zlen out)) as [E|E]; [|done].
  destruct (forward_spec send protect out Hsp E (order (_subs_map st))
    (set_transport w t (with_recv st recv')) Hok Hi)
    as (w' & pkts & -> & Hw' & Hs1 & Hn & Hsub & Henc & Hall).
  { eapply Forall_impl; [|by apply ready_order]. intros kv. by apply can_send_same. }
  exists w', pkts. split; [done|]. split; [done|]. split; [by eapply same_world_trans|].
  split; [done|]. rewrite (addresses_same w) in Hsub, Hall by done. split; [done|].
  split; [done|]. intros Hp Hc. apply Hall; [done|].
  eapply Forall_impl; [|exact Hc]. intros kv. by apply has_ctx_same.
Qed.

Lemma handle_rtp_forwarded (w : world) (t : nat) (st : SrtpTransport) (recv : SrtpSession)
    (data : bytes) :
  world_ok w -> _srtp_init w = true -> transports w !! t = Some st ->
  _recv_session st = Some recv -> subscribers_ready w st ->
  forwarded srtp_protect w st (accepted (unprotect_rtp recv data)) (handle_rtp_data w t data).
Proof.
  intros Hw Hi Ht Hr Hready. unfold handle_rtp_data, get_transport. rewrite Hi, Ht.
  cbn [negb from_opt mbind res_bind]. rewrite Hr. cbn [from_opt mbind res_bind].
  destruct (unprotect_rtp recv data) as [[out flag] recv'] eqn:E.
  pose proof (Hw t st Ht) as (_ & Hrecv & _). rewrite Hr in Hrecv.
  destruct (unprotect_ok _ _ _ _ _ Hrecv E) as [Hs' _].
  by apply (after_unprotect on_rtp_packet srtp_protect w t st recv); [apply on_rtp_packet_spec|..].
Qed.

Lemma handle_rtcp_forwarded (w : world) (t : nat) (st : SrtpTransport) (recv : SrtpSession)
    (data : bytes) :
  world_ok w -> _srtp_init w = true -> transports w !! t = Some st ->
  _recv_session st = Some recv -> subscribers_ready w st ->
  forwarded srtp_protect_rtcp w st (accepted (unprotect_rtcp recv data)) (handle_rtcp_data w t data).
Proof.
  intros Hw Hi Ht Hr Hready. unfold handle_rtcp_data, get_transport. rewrite Hi, Ht.
  cbn [negb from_opt mbind res_bind]. rewrite Hr. cbn [from_opt mbind res_bind].
  destruct (unprotect_rtcp recv data) as [[out flag] recv'] eqn:E.
  pose proof (Hw t st Ht) as (_ & Hrecv & _). rewrite Hr in Hrecv.
  destruct (unprotect_rtcp_ok _ _ _ _ _ Hrecv E) as [Hs' _].
  by apply (after_unprotect on_rtcp_packet srtp_protect_rtcp w t st recv); [apply on_rtcp_packet_spec|..].
Qed.

(** C13. A received RTP packet never makes the server fault or overrun a buffer
    once the transport has its receive session and its subscribers their send
    sessions; a packet that does not authenticate goes nowhere, and one that
    does is sent, re-encrypted, to the transport's subscribers only: to each at
    most once, and to each exactly once when libsrtp encrypts. *)
Theorem handle_rtp_data_forwards (w : world) (t : nat) (st : SrtpTransport) (recv : SrtpSession)
    (data : bytes) :
  world_ok w -> _srtp_init w = true -> transports w !! t = Some st ->
  _recv_session st = Some recv -> subscribers_ready w st ->
  forwarded srtp_protect w st (accepted (unprotect_rtp recv data)) (handle_rtp_data w t data).
Proof. apply handle_rtp_forwarded. Qed.

(** The same for RTCP. *)
Theorem handle_rtcp_data_forwards (w : world) (t : nat) (st : SrtpTransport) (recv : SrtpSession)
    (data : bytes) :
  world_ok w -> _srtp_init w = true -> transports w !! t = Some st ->
  _recv_session st = Some recv -> subscribers_ready w st ->
  forwarded srtp_protect_rtcp w st (accepted (unprotect_rtcp recv data)) (handle_rtcp_data w t data).
Proof. apply handle_rtcp_forwarded. Qed.

(** A transport without its receive session makes the server dereference a
    null pointer as soon as any other transport has initialised libsrtp. *)
Theorem no_session_null_deref (w : world) (t : nat) (st : SrtpTransport) (data : bytes) :
  _srtp_init w = true -> transports w !! t = Some st -> _recv_session st = None ->
  handle_rtp_data w t data = Fail NullDeref /\ handle_rtcp_data w t data = Fail NullDeref.
Proof.
  intros Hi Ht Hr. unfold handle_rtp_data, handle_rtcp_data, get_transport.
  rewrite Hi, Ht. cbn [negb from_opt mbind res_bind]. by rewrite Hr.
Qed.

(** The socket of a transport is a plain pointer: forwarding to one whose
    socket was deleted goes through freed memory as soon as the packet
    encrypts. *)
Theorem deleted_socket_dangling (w : world) (t : nat) (st : SrtpTransport) (s : SrtpSession)
    (c c' : ctx) (data out : bytes) :
  world_ok w -> _srtp_init w = true -> transports w !! t = Some st -> ~ socket_open w st ->
  _send_session st = Some s -> _srtp_session s = Some c -> 0 < zlen data ->
  srtp_protect c data = (0, out, c') -> on_rtp_packet w t data = Fail Dangling.
Proof.
  intros Hw Hi Ht Ho Hs Hc Hd Hp. unfold on_rtp_packet, get_transport. rewrite Ht, Hi.
  cbn [from_opt mbind res_bind negb]. unfold get_send_auth_tag_len, get_auth_tag_len. rewrite Hs, Hc.
  pose proof (Hw t st Ht) as (Hsend & _ & _). rewrite Hs in Hsend. cbn [opt_ok] in Hsend.
  pose proof Hsend as Hsz. unfold session_ok in Hsz. rewrite Hc in Hsz.
  rewrite packet_buffer_ok by lia. cbn [from_opt mbind res_bind].
  destruct (protect_rtp_fits s c data Hsend Hc) as (s' & E & _). rewrite E, Hp. cbn [mbind res_bind].
  change (0 =? 0) with true. cbv iota. unfold send2.
  rewrite bool_decide_eq_false_2 by exact Ho. reflexivity.
Qed.

(** Setting the parameters gives the transport both sessions, whether or not
    the keys were accepted: the results of [set_send] and [set_recv] are
    ignored. *)
Lemma set_srtp_param_sessions w t st cs k cs' k' w' :
  world_ok w -> transports w !! t = Some st -> set_srtp_param w t cs k cs' k' = Ok (true, w') ->
  world_ok w' /\ _srtp_init w' = true /\ net w' = net w /\ udps w' = udps w /\
  exists st', transports w' !! t = Some st' /\ _subs_map st' = _subs_map st /\
    (_udp st' = _udp st /\ _addr st' = _addr st) /\
    is_Some (_send_session st') /\ is_Some (_recv_session st').
Proof.
  intros Hw Ht Hset. unfold set_srtp_param, get_transport in Hset. rewrite Ht in Hset.
  cbn [from_opt mbind res_bind] in Hset. pose proof (Hw t st Ht) as (Hs & Hr & Hf).
  destruct (set_send _ cs k) as [b1 s1] eqn:E1. destruct (set_recv _ cs' k') as [b2 s2] eqn:E2.
  assert (Hs1 : session_ok s1).
  { eapply set_key_ok; [|exact E1]. by destruct (_send_session st). }
  assert (Hs2 : session_ok s2).
  { eapply set_key_ok; [|exact E2]. by destruct (_recv_session st). }
  set (st' := mkTransport (_subs_map st) (Some s1) (Some s2) (_udp st) (_addr st)) in *.
  assert (Hgo : forall w0, transports w0 = transports w -> world_ok (set_transport w0 t st')).
  { intros w0 Hw0 q sq Hq. cbn in Hq. rewrite Hw0 in Hq.
    assert (Hl : forall u, is_Some (transports w !! u) ->
              is_Some (transports (set_transport w0 t st') !! u)).
    { intros u Hu. cbn. rewrite Hw0. destruct (decide (u = t)) as [->|].
      - rewrite lookup_insert_eq. by eexists.
      - by rewrite lookup_insert_ne. }
    apply lookup_insert_Some in Hq as [[<- <-]|[_ Hq]].
    - split; [done|]. split; [done|]. intros u s Hu. apply Hl. by apply (Hf u).
    - destruct (Hw q sq Hq) as (A & B & C). split; [done|]. split; [done|].
      intros u s Hu. apply Hl. by apply (C u). }
  assert (Hfin : exists w0, w' = set_transport w0 t st' /\ transports w0 = transports w /\
            net w0 = net w /\ _srtp_init w0 = true /\ udps w0 = udps w).
  { destruct (_srtp_init w) eqn:Ei; cbn [negb] in Hset.
    - injection Hset as <-. by exists w.
    - destruct (negb (srtp_init =? 0)); [done|]. destruct (negb _); [done|].
      injection Hset as <-. by eexists. }
  destruct Hfin as (w0 & -> & H1 & H2 & H3 & H4). split; [by apply Hgo|]. split; [done|].
  split; [done|]. split; [done|]. exists st'. split; [apply lookup_insert_eq|].
  by split_and!; [..|eexists|eexists].
Qed.

(** Every outcome keeps the world well formed. *)
Lemma set_srtp_param_ok w t cs k cs' k' b w' :
  world_ok w -> set_srtp_param w t cs k cs' k' = Ok (b, w') -> world_ok w'.
Proof.
  intros Hw Hset. destruct (transports w !! t) as [st|] eqn:Ht.
  2: { unfold set_srtp_param, get_transport in Hset. by rewrite Ht in Hset. }
  destruct b; [by eapply set_srtp_param_sessions|].
  unfold set_srtp_param, get_transport in Hset. rewrite Ht in Hset. cbn [from_opt mbind res_bind] in Hset.
  destruct (set_send _ cs k) as [b1 s1]. destruct (set_recv _ cs' k') as [b2 s2].
  destruct (negb (_srtp_init w)); [|done]. destruct (negb (srtp_init =? 0)); [by injection Hset as <-|].
  destruct (negb _); [|done]. by injection Hset as <-.
Qed.
End Srtp.
Arguments SrtpTransport : clear implicits.
Arguments world : clear implicits.
Arguments SrtpSession : clear implicits.

(** ** A library for concrete runs

    Its "encryption" appends a tag made of the key's first byte. *)
Record toy_ctx := mkToyCtx { toy_key : Z; toy_rtp : nat; toy_rtcp : nat }.

Definition toy_policy (n1 n2 : Z) (cs : Z) : Z * Z * Z :=
  if cs =? 1 then (0, 30, n1) else if cs =? 2 then (0, 30, n2) else (1, 0, 0).

Definition toy_create (p : srtp_policy_t) : Z * toy_ctx :=
  (if (0 <=? rtp_auth_tag_len p) && (0 <=? rtcp_auth_tag_len p) then 0 else 1,
   mkToyCtx (default 0 (head (key p))) (Z.to_nat (rtp_auth_tag_len p)) (Z.to_nat (rtcp_auth_tag_len p))).

Definition toy_seal (n : nat) (c : toy_ctx) (b : bytes) : Z * bytes * toy_ctx :=
  (0, b ++ replicate n (toy_key c), c).

Definition toy_open (n : nat) (c : toy_ctx) (b : bytes) : Z * bytes * toy_ctx :=
  let k := (length b - n)%nat in
  if bool_decide (drop k b = replicate n (toy_key c)) then (0, take k b, c) else (7, b, c).

Lemma toy_create_tags p c : toy_create p = (0, c) ->
  Z.of_nat (toy_rtp c) = rtp_auth_tag_len p /\ Z.of_nat (toy_rtcp c) = rtcp_auth_tag_len p.
Proof.
  unfold toy_create. intros [= E <-]. case_match; bool_inv; cbn; [lia|done].
Qed.

Lemma toy_open_length n c b e out c' : toy_open n c b = (e, out, c') -> zlen out <= zlen b /\ c' = c.
Proof.
  unfold toy_open. case_bool_decide; intros [= <- <- <-]; (split; [|done]); [|done].
  unfold zlen. rewrite length_take. lia.
Qed.

Lemma toy_seal_length n c b e out c' :
  toy_seal n c b = (e, out, c') -> zlen out = zlen b + Z.of_nat n /\ c' = c.
Proof.
  intros [= _ <- <-]. split; [|done]. rewrite zlen_app. unfold zlen. rewrite length_replicate. lia.
Qed.

#[program] Definition toy_srtp : SrtpLib toy_ctx := {|
  srtp_init := 0;
  srtp_install_event_handler := 0;
  crypto_policy_rtp := toy_policy 10 4;
  crypto_policy_rtcp := toy_policy 10 10;
  srtp_create := toy_create;
  srtp_update _ p := toy_create p;
  srtp_protect c := toy_seal (toy_rtp c) c;
  srtp_unprotect c := toy_open (toy_rtp c) c;
  srtp_protect_rtcp c := toy_seal (toy_rtcp c) c;
  srtp_unprotect_rtcp c := toy_open (toy_rtcp c) c;
  rtp_tag c := Z.of_nat (toy_rtp c);
  rtcp_tag c := Z.of_nat (toy_rtcp c);
|}.
Next Obligation. intros cs. unfold toy_policy. repeat case_match; cbn; lia. Qed.
Next Obligation. apply toy_create_tags. Qed.
Next Obligation. intros c p c' E. by apply toy_create_tags. Qed.
Next Obligation. intros c b e out c' E. apply toy_seal_length in E as [_ ->]. done. Qed.
Next Obligation. intros c b e out c' E. apply toy_seal_length in E as [_ ->]. done. Qed.
Next Obligation. intros c b e out c' E. apply toy_open_length in E as [_ ->]. done. Qed.
Next Obligation. intros c b e out c' E. apply toy_open_length in E as [_ ->]. done. Qed.
Next Obligation. intros c b out c' [-> _]%toy_seal_length. lia. Qed.
Next Obligation. intros c b out c' [-> _]%toy_seal_length. lia. Qed.
Next Obligation. intros c b e out c' [? _]%toy_open_length. done. Qed.
Next Obligation. intros c b e out c' [? _]%toy_open_length. done. Qed.

Section Witnesses.
#[local] Existing Instance toy_srtp.

Definition toy_key_bytes (k : Z) : bytes := replicate 30 k.

(** A publisher (0) with two subscribers (1 and 2), addressed by numbers. *)
Definition toy_members : world toy_ctx Z :=
  mkWorld false
    {[ 0%nat := mkTransport {[ lit "a" := 1%nat; lit "b" := 2%nat ]} None None 0 100;
       1%nat := new_transport 1 101; 2%nat := new_transport 2 102 ]} [] (Uvnet.mkUdps {[ 0%nat; 1%nat; 2%nat ]} 3).

Definition toy_world : res (world toy_ctx Z) :=
  '(_, w) ← set_srtp_param toy_members 0 1 (toy_key_bytes 1) 1 (toy_key_bytes 11);
  '(_, w) ← set_srtp_param w 1 1 (toy_key_bytes 2) 1 (toy_key_bytes 12);
  '(_, w) ← set_srtp_param w 2 2 (toy_key_bytes 3) 2 (toy_key_bytes 13);
  Ok w.

Definition toy_ready : world toy_ctx Z := match toy_world with Ok w => w | Fail _ => toy_members end.

(** A packet [5; 6] with the publisher's tag reaches both subscribers. *)
Example toy_forward :
  net <$> handle_rtp_data map_to_list toy_ready 0 ([5; 6] ++ replicate 10 11) =
  Ok [(102, [5; 6] ++ replicate 4 3); (101, [5; 6] ++ replicate 10 2)].
Proof. vm_compute. reflexivity. Qed.

Lemma toy_members_ok : world_ok toy_members.
Proof.
  apply map_Forall_insert_2; [|apply map_Forall_insert_2; [|apply map_Forall_singleton]];
    (split; [done|]; split; [done|]).
  - apply map_Forall_insert_2; [by eexists|]. apply map_Forall_singleton. by eexists.
  - apply map_Forall_empty.
  - apply map_Forall_empty.
Qed.

Lemma toy_ready_ok : world_ok toy_ready.
Proof.
  unfold toy_ready. destruct toy_world as [w|] eqn:E; [|apply toy_members_ok]. unfold toy_world in E.
  apply res_bind_ok in E as ([b1 w1] & E1 & E). apply res_bind_ok in E as ([b2 w2] & E2 & E).
  apply res_bind_ok in E as ([b3 w3] & E3 & E). injection E as <-.
  eapply set_srtp_param_ok; [|exact E3]. eapply set_srtp_param_ok; [|exact E2].
  eapply set_srtp_param_ok; [apply toy_members_ok|exact E1].
Qed.

Definition toy_st0 : SrtpTransport toy_ctx Z :=
  default (new_transport 0 0) (transports toy_ready !! 0%nat).

Definition toy_recv : SrtpSession toy_ctx := default new_session (_recv_session toy_st0).

Lemma toy_st0_ready : subscribers_ready toy_ready toy_st0.
Proof.
  apply map_Forall_insert_2; [|apply map_Forall_singleton];
    (eexists; split; [vm_compute; reflexivity|split; [by eexists|];
       unfold socket_open; apply (bool_decide_unpack _); vm_compute; exact I]).
Qed.

Lemma handle_rtp_data_forwards_witness :
  forwarded map_to_list srtp_protect toy_ready toy_st0
    (accepted (unprotect_rtp toy_recv ([5; 6] ++ replicate 10 11)))
    (handle_rtp_data map_to_list toy_ready 0 ([5; 6] ++ replicate 10 11)) /\
  accepted (unprotect_rtp toy_recv ([5; 6] ++ replicate 10 11)) = Some [5; 6].
Proof.
  split; [|vm_compute; reflexivity].
  apply (handle_rtp_data_forwards map_to_list (fun m => Permutation_refl _)).
  - apply toy_ready_ok.
  - vm_compute. reflexivity.
  - vm_compute. reflexivity.
  - vm_compute. reflexivity.
  - apply toy_st0_ready.
Defined.

Lemma handle_rtcp_data_forwards_witness :
  forwarded map_to_list srtp_protect_rtcp toy_ready toy_st0
    (accepted (unprotect_rtcp toy_recv ([5; 6] ++ replicate 10 11)))
    (handle_rtcp_data map_to_list toy_ready 0 ([5; 6] ++ replicate 10 11)) /\
  accepted (unprotect_rtcp toy_recv ([5; 6] ++ replicate 10 11)) = Some [5; 6].
Proof.
  split; [|vm_compute; reflexivity].
  apply (handle_rtcp_data_forwards map_to_list (fun m => Permutation_refl _)).
  - apply toy_ready_ok.
  - vm_compute. reflexivity.
  - vm_compute. reflexivity.
  - vm_compute. reflexivity.
  - apply toy_st0_ready.
Defined.

(** The second subscriber's socket is gone. *)
Definition toy_gone : world toy_ctx Z :=
  mkWorld (_srtp_init toy_ready) (transports toy_ready) (net toy_ready) (Uvnet.delete_udp (udps toy_ready) 2).

Lemma deleted_socket_dangling_witness :
  on_rtp_packet toy_gone 2 [5; 6] = Fail Dangling.
Proof.
  eapply (deleted_socket_dangling toy_gone 2).
  - exact toy_ready_ok.
  - vm_compute. reflexivity.
  - vm_compute. reflexivity.
  - unfold socket_open. apply (bool_decide_unpack _). vm_compute. exact I.
  - vm_compute. reflexivity.
  - vm_compute. reflexivity.
  - reflexivity.
  - vm_compute. reflexivity.
Defined.

Lemma no_session_null_deref_witness :
  let w := mkWorld true (transports toy_members) [] Uvnet.no_udps : world toy_ctx Z in
  handle_rtp_data map_to_list w 1 [1; 2] = Fail NullDeref /\
  handle_rtcp_data map_to_list w 1 [1; 2] = Fail NullDeref.
Proof. apply (no_session_null_deref _ _ _ (new_transport 1 101)); reflexivity. Defined.
End Witnesses.
