(* ===== verification/RtcStreamMgr.v ===== *)
(** * udp/rtc_stream_mgr.{h,cpp}: who gets whose media

    The singleton [RtcStreamMgr] records which member subscribes to which, and
    the transport each member's media arrives on.  When a stream of a
    subscriber shows up it links the two transports both ways: media forwarded
    by [Srtp.handle_rtp_data] follows those links. *)
From S2P Require Import Prelude.
From S2P Require Srtp Uvnet.
Local Open Scope Z_scope.

Record RtcStreamMgr := mkMgr {
  _subs_map : gmap bytes (bytes * bytes);
  _streams : gmap bytes nat;
}.

Definition empty_mgr : RtcStreamMgr := mkMgr ∅ ∅.

Definition add_subscriber (m : RtcStreamMgr) (uid target_uid : bytes) : RtcStreamMgr :=
  mkMgr (<[uid := (target_uid, [])]> (_subs_map m)) (_streams m).

Section RtcStreamMgr.
Context {ctx IpAddress : Type}.
Abbreviation world := (Srtp.world ctx IpAddress).
Abbreviation transport := (Srtp.SrtpTransport ctx IpAddress).

(** A member call on the transport [t]. *)
Definition on_transport (w : world) (t : nat) (f : transport -> transport) : res world :=
  st ← Srtp.get_transport w t; Ok (Srtp.set_transport w t (f st)).

Definition add_stream (m : RtcStreamMgr) (w : world) (uid addr : bytes) (st : nat)
    : res (RtcStreamMgr * world) :=
  let m := mkMgr (_subs_map m) (<[uid := st]> (_streams m)) in
  match _subs_map m !! uid with
  | None => Ok (m, w)
  | Some (target, _) =>
      match _streams m !! target with
      | None => Ok (m, w)
      | Some sit =>
          w ← on_transport w sit (fun x => Srtp.add_subscriber x uid st);
          w ← on_transport w st (fun x => Srtp.add_subscriber x target sit);
          Ok (m, w)
      end
  end.

Definition remove_subscriber (m : RtcStreamMgr) (w : world) (uid : bytes) : res world :=
  match _subs_map m !! uid with
  | None => Ok w
  | Some (target, _) =>
      w ← match _streams m !! uid with
          | None => Ok w
          | Some sit => on_transport w sit (fun x => Srtp.remove_subscriber x target)
          end;
      match _streams m !! target with
      | None => Ok w
      | Some sit => on_transport w sit (fun x => Srtp.remove_subscriber x uid)
      end
  end.

(** The calls made on the manager. *)
Inductive mgr_call :=
  | call_add_subscriber (uid target : bytes)
  | call_add_stream (uid addr : bytes) (st : nat)
  | call_remove_subscriber (uid : bytes).

Definition do_call (mw : RtcStreamMgr * world) (c : mgr_call) : res (RtcStreamMgr * world) :=
  let '(m, w) := mw in
  match c with
  | call_add_subscriber uid target => Ok (add_subscriber m uid target, w)
  | call_add_stream uid addr st => add_stream m w uid addr st
  | call_remove_subscriber uid => w ← remove_subscriber m w uid; Ok (m, w)
  end.

Fixpoint do_calls (mw : RtcStreamMgr * world) (cs : list mgr_call) : res (RtcStreamMgr * world) :=
  match cs with
  | [] => Ok mw
  | c :: cs => mw ← do_call mw c; do_calls mw cs
  end.

(** ** Links *)

(** [T] forwards to [S] under the name [k]. *)
Definition link (w : world) (T : nat) (k : bytes) (S : nat) : Prop :=
  exists st, Srtp.transports w !! T = Some st /\ Srtp._subs_map st !! k = Some S.

Definition live (w : world) (t : nat) : Prop := is_Some (Srtp.transports w !! t).

Lemma on_transport_ok w t f :
  live w t -> exists st, Srtp.transports w !! t = Some st /\
    on_transport w t f = Ok (Srtp.set_transport w t (f st)).
Proof.
  intros [st Ht]. exists st. split; [done|]. unfold on_transport, Srtp.get_transport. by rewrite Ht.
Qed.

Lemma live_set w t st u : live w t -> live (Srtp.set_transport w t st) u <-> live w u.
Proof.
  intros [x Hx]. unfold live. cbn. destruct (decide (u = t)) as [->|Hne].
  - rewrite lookup_insert_eq. split; intros _; by eexists.
  - by rewrite lookup_insert_ne.
Qed.

(** The links after an insertion in, or a removal from, one transport. *)
Lemma link_add w t st k s T k' S :
  Srtp.transports w !! t = Some st ->
  link (Srtp.set_transport w t (Srtp.add_subscriber st k s)) T k' S <->
    (T = t /\ k' = k /\ S = s) \/ (~ (T = t /\ k' = k) /\ link w T k' S).
Proof.
  intros Ht. unfold link. cbn. destruct (decide (T = t)) as [->|Hne].
  - rewrite lookup_insert_eq. destruct (decide (k' = k)) as [->|Hk].
    + split; [|intros [(_ & _ & ->)|[Hn _]]; [|by destruct Hn]].
      * intros (x & [= <-] & Hx). cbn in Hx. rewrite lookup_insert_eq in Hx.
        injection Hx as <-. by left.
      * eexists. split; [done|]. cbn. apply lookup_insert_eq.
    + split.
      * intros (x & [= <-] & Hx). cbn in Hx. rewrite lookup_insert_ne in Hx by done.
        right. split; [by intros [_ ?]|]. by exists st.
      * intros [(_ & ? & _)|[_ (x & Hx & Hl)]]; [done|]. simplify_eq.
        eexists. split; [done|]. cbn. by rewrite lookup_insert_ne.
  - rewrite lookup_insert_ne by done. split.
    + intros Hl. right. split; [by intros [? _]|done].
    + intros [(? & _)|[_ ?]]; done.
Qed.

Lemma link_remove w t st k T k' S :
  Srtp.transports w !! t = Some st ->
  link (Srtp.set_transport w t (Srtp.remove_subscriber st k)) T k' S <->
    ~ (T = t /\ k' = k) /\ link w T k' S.
Proof.
  intros Ht. unfold link. cbn. destruct (decide (T = t)) as [->|Hne].
  - rewrite lookup_insert_eq. split.
    + intros (x & [= <-] & Hx). cbn in Hx. apply lookup_delete_Some in Hx as [Hk Hx].
      split; [|by exists st]. intros [_ ->]. done.
    + intros [Hn (x & Hx & Hl)]. simplify_eq. eexists. split; [done|]. cbn.
      rewrite lookup_delete_ne; [done|]. intros ->. by apply Hn.
  - rewrite lookup_insert_ne by done. split; [|by intros [_ ?]].
    intros Hl. split; [by intros [? _]|done].
Qed.

(** The only links a call of [add_stream] gives the new stream are to the
    stream of the member it subscribed to. *)
Lemma add_stream_new_links m w uid addr st m' w' k S :
  add_stream m w uid addr st = Ok (m', w') -> link w' st k S ->
  link w st k S \/ exists target x, _subs_map m !! uid = Some (target, x) /\
    <[uid := st]> (_streams m) !! target = Some S.
Proof.
  unfold add_stream. cbn [_subs_map _streams]. intros E Hl.
  destruct (_subs_map m !! uid) as [[target x]|] eqn:Eu; [|injection E as _ <-; by left].
  destruct (<[uid := st]> (_streams m) !! target) as [sit|] eqn:Et; [|injection E as _ <-; by left].
  apply res_bind_ok in E as (w1 & E1 & E). apply res_bind_ok in E as (w2 & E2 & E). injection E as _ <-.
  apply res_bind_ok in E1 as (a & Ha & E1). apply ok_inj in E1 as <-.
  apply res_bind_ok in E2 as (b & Hb & E2). apply ok_inj in E2 as <-.
  unfold Srtp.get_transport in Ha, Hb.
  destruct (Srtp.transports w !! sit) as [a'|] eqn:Ea; [|done]. apply ok_inj in Ha as ->.
  destruct (Srtp.transports (Srtp.set_transport w sit (Srtp.add_subscriber a uid st)) !! st)
    as [b'|] eqn:Eb; [|done]. apply ok_inj in Hb as ->.
  apply (link_add _ _ _ _ _ _ _ _ Eb) in Hl as [(_ & -> & ->)|[_ Hl]]; [right; by exists target, x|].
  apply (link_add _ _ _ _ _ _ _ _ Ea) in Hl as [(<- & -> & ->)|[_ Hl]]; [|by left].
  right. by exists target, x.
Qed.

(** When a stream of a subscriber arrives and the member it subscribed to has
    a stream, the two transports forward to each other, and no other link
    changes. *)
Theorem add_stream_links (m m' : RtcStreamMgr) (w w' : world) (uid addr target x : bytes) (st sit : nat) :
  _subs_map m !! uid = Some (target, x) -> _streams m !! target = Some sit -> target <> uid ->
  live w st -> live w sit -> add_stream m w uid addr st = Ok (m', w') ->
  _streams m' = <[uid := st]> (_streams m) /\
  forall T k S, link w' T k S <->
    (T = st /\ k = target /\ S = sit) \/ (T = sit /\ k = uid /\ S = st) \/
    (~ (T = sit /\ k = uid) /\ ~ (T = st /\ k = target) /\ link w T k S).
Proof.
  intros Hu Ht Hne Hst Hsit Hadd. unfold add_stream in Hadd. cbn [_subs_map _streams] in Hadd.
  rewrite Hu, lookup_insert_ne, Ht in Hadd by done.
  destruct (on_transport_ok w sit (fun x => Srtp.add_subscriber x uid st) Hsit) as (a & Ha & E1).
  rewrite E1 in Hadd. cbn [mbind res_bind] in Hadd.
  destruct (on_transport_ok (Srtp.set_transport w sit (Srtp.add_subscriber a uid st)) st
    (fun x => Srtp.add_subscriber x target sit)) as (b & Hb & E2); [by apply live_set|].
  rewrite E2 in Hadd. injection Hadd as <- <-. split; [done|]. intros T k S.
  rewrite (link_add _ _ _ _ _ _ _ _ Hb), (link_add _ _ _ _ _ _ _ _ Ha).
  split; [|intuition congruence].
  intros [?|[Hn [?|[Hn2 ?]]]]; tauto.
Qed.

Lemma remove_links (m : RtcStreamMgr) (w : world) (uid target x : bytes) (st sit : nat) :
  _subs_map m !! uid = Some (target, x) -> _streams m !! uid = Some st ->
  _streams m !! target = Some sit -> live w st -> live w sit ->
  exists w', remove_subscriber m w uid = Ok w' /\
    forall T k S, link w' T k S <->
      ~ (T = st /\ k = target) /\ ~ (T = sit /\ k = uid) /\ link w T k S.
Proof.
  intros Hu Hs Ht Hst Hsit. unfold remove_subscriber. rewrite Hu, Hs, Ht.
  destruct (on_transport_ok w st (fun x => Srtp.remove_subscriber x target) Hst) as (a & Ha & ->).
  cbn [mbind res_bind].
  destruct (on_transport_ok (Srtp.set_transport w st (Srtp.remove_subscriber a target)) sit
    (fun x => Srtp.remove_subscriber x uid)) as (b & Hb & ->); [by apply live_set|].
  eexists. split; [done|]. intros T k S.
  rewrite (link_remove _ _ _ _ _ _ _ Hb), (link_remove _ _ _ _ _ _ _ Ha). tauto.
Qed.

(** Removing a member takes it out of the transport it received from and takes
    that member out of its own transport; the manager itself forgets nothing. *)
Theorem remove_subscriber_unlinks (m : RtcStreamMgr) (w : world) (uid target x : bytes) (st sit : nat) :
  _subs_map m !! uid = Some (target, x) -> _streams m !! uid = Some st ->
  _streams m !! target = Some sit -> live w st -> live w sit ->
  exists w', do_call (m, w) (call_remove_subscriber uid) = Ok (m, w') /\
    forall T k S, link w' T k S <->
      ~ (T = st /\ k = target) /\ ~ (T = sit /\ k = uid) /\ link w T k S.
Proof.
  intros Hu Hs Ht Hst Hsit.
  destruct (remove_links m w uid target x st sit Hu Hs Ht Hst Hsit) as (w' & E & Hl).
  exists w'. cbn [do_call]. by rewrite E.
Qed.

(** ** Every link was asked for *)

(** Justified by the calls made so far. *)
Definition asked (cs : list mgr_call) (T : nat) (k : bytes) (S : nat) : Prop :=
  exists u t a b, call_add_subscriber u t ∈ cs /\
    ((k = u /\ call_add_stream u a S ∈ cs /\ call_add_stream t b T ∈ cs) \/
     (k = t /\ call_add_stream t a S ∈ cs /\ call_add_stream u b T ∈ cs)).

Record justified (cs : list mgr_call) (m : RtcStreamMgr) (w : world) : Prop := {
  j_subs : forall u t x, _subs_map m !! u = Some (t, x) -> call_add_subscriber u t ∈ cs;
  j_streams : forall u s, _streams m !! u = Some s -> live w s /\ exists a, call_add_stream u a s ∈ cs;
  j_links : forall T k S, link w T k S -> asked cs T k S;
}.

Lemma asked_mono cs c T k S : asked cs T k S -> asked (cs ++ [c]) T k S.
Proof.
  intros (u & t & a & b & H1 & H2). exists u, t, a, b. split; [set_solver|].
  destruct H2 as [(? & ? & ?)|(? & ? & ?)]; [left|right]; set_solver.
Qed.

Lemma justified_streams_mono cs c m w :
  justified cs m w -> forall u s, _streams m !! u = Some s ->
  live w s /\ exists a, call_add_stream u a s ∈ cs ++ [c].
Proof.
  intros Hj u s Hs. destruct (j_streams _ _ _ Hj u s Hs) as [Hl [a Ha]].
  split; [done|]. exists a. set_solver.
Qed.

Definition call_live (w : world) (c : mgr_call) : Prop :=
  match c with call_add_stream _ _ st => live w st | _ => True end.

Lemma live_sub w t f w' u : on_transport w t f = Ok w' -> live w' u <-> live w u.
Proof.
  unfold on_transport, Srtp.get_transport. destruct (Srtp.transports w !! t) as [st|] eqn:E; [|done].
  intros [= <-]. apply live_set. by eexists.
Qed.

Lemma add_stream_justified cs m w uid addr st :
  justified cs m w -> live w st ->
  exists m' w', add_stream m w uid addr st = Ok (m', w') /\
    justified (cs ++ [call_add_stream uid addr st]) m' w' /\ (forall u, live w' u <-> live w u).
Proof.
  intros Hj Hst. unfold add_stream. set (m' := mkMgr _ _).
  assert (Hstreams : forall u s, _streams m' !! u = Some s ->
            live w s /\ exists a, call_add_stream u a s ∈ cs ++ [call_add_stream uid addr st]).
  { intros u s Hs. unfold m' in Hs. cbn in Hs. apply lookup_insert_Some in Hs as [[<- <-]|[_ Hs]].
    - split; [done|]. exists addr. set_solver.
    - by apply (justified_streams_mono cs _ m). }
  assert (Hsubs : forall u t x, _subs_map m' !! u = Some (t, x) ->
            call_add_subscriber u t ∈ cs ++ [call_add_stream uid addr st]).
  { intros u t x Hs. apply (j_subs _ _ _ Hj) in Hs. set_solver. }
  assert (Hkeep : justified (cs ++ [call_add_stream uid addr st]) m' w).
  { split; [done|done|]. intros T k S Hl. by apply asked_mono, (j_links _ _ _ Hj). }
  destruct (_subs_map m' !! uid) as [[target x]|] eqn:Eu; [|by exists m', w].
  destruct (_streams m' !! target) as [sit|] eqn:Et; [|by exists m', w].
  destruct (Hstreams _ _ Et) as [Hsit [b Hb]].
  destruct (on_transport_ok w sit (fun x => Srtp.add_subscriber x uid st) Hsit) as (p & Hp & ->).
  cbn [mbind res_bind].
  destruct (on_transport_ok (Srtp.set_transport w sit (Srtp.add_subscriber p uid st)) st
    (fun x => Srtp.add_subscriber x target sit)) as (q & Hq & ->); [by apply live_set|].
  eexists m', _. split; [done|].
  assert (Hlive : forall u, live (Srtp.set_transport (Srtp.set_transport w sit
      (Srtp.add_subscriber p uid st)) st (Srtp.add_subscriber q target sit)) u <-> live w u).
  { intros u. rewrite !live_set; [done|done|by apply live_set]. }
  split; [|done]. split; [done| |].
  - intros u s Hs. destruct (Hstreams u s Hs). split; [by apply Hlive|done].
  - intros T k S. rewrite (link_add _ _ _ _ _ _ _ _ Hq), (link_add _ _ _ _ _ _ _ _ Hp).
    assert (Hin : call_add_stream uid addr st ∈ cs ++ [call_add_stream uid addr st]) by set_solver.
    pose proof (Hsubs _ _ _ Eu) as Hsub.
    intros [(-> & -> & ->)|[_ [(-> & -> & ->)|[_ Hl]]]].
    + exists uid, target, b, addr. split; [done|]. by right.
    + exists uid, target, addr, b. split; [done|]. by left.
    + by apply asked_mono, (j_links _ _ _ Hj).
Qed.

(** Dropping links keeps the rest justified. *)
Lemma on_remove_justified cs m w t k :
  justified cs m w -> live w t ->
  exists w', on_transport w t (fun x => Srtp.remove_subscriber x k) = Ok w' /\ justified cs m w' /\
    (forall u, live w' u <-> live w u).
Proof.
  intros Hj Ht. destruct (on_transport_ok w t (fun x => Srtp.remove_subscriber x k) Ht) as (p & Hp & ->).
  eexists. split; [done|].
  assert (Hl : forall u, live (Srtp.set_transport w t (Srtp.remove_subscriber p k)) u <-> live w u)
    by (intros u; by apply live_set).
  split; [|done]. split; [apply Hj| |].
  - intros u s Hs. destruct (j_streams _ _ _ Hj u s Hs). split; [by apply Hl|done].
  - intros T k' S Hlk. apply (link_remove _ _ _ _ _ _ _ Hp) in Hlk as [_ Hlk].
    by apply (j_links _ _ _ Hj).
Qed.

Lemma remove_subscriber_justified cs m w uid :
  justified cs m w ->
  exists w', remove_subscriber m w uid = Ok w' /\ justified cs m w' /\ (forall u, live w' u <-> live w u).
Proof.
  intros Hj. unfold remove_subscriber. destruct (_subs_map m !! uid) as [[target x]|]; [|by exists w].
  assert (H1 : exists w1, (match _streams m !! uid with
      | None => Ok w
      | Some sit => on_transport w sit (fun x => Srtp.remove_subscriber x target)
      end) = Ok w1 /\ justified cs m w1 /\ (forall u, live w1 u <-> live w u)).
  { destruct (_streams m !! uid) as [s|] eqn:E; [|by exists w].
    apply on_remove_justified; [done|]. by apply (j_streams _ _ _ Hj uid). }
  destruct H1 as (w1 & -> & Hj1 & Hl1). cbn [mbind res_bind].
  destruct (_streams m !! target) as [s|] eqn:E; [|by exists w1].
  destruct (on_remove_justified cs m w1 s uid Hj1) as (w2 & E2 & Hj2 & Hl2).
  { by apply (j_streams _ _ _ Hj1 target). }
  exists w2. split; [done|]. split; [done|]. intros u. by rewrite Hl2, Hl1.
Qed.

Lemma justified_mono cs c m w : justified cs m w -> justified (cs ++ [c]) m w.
Proof.
  intros Hj. split.
  - intros u t x Hs. apply (j_subs _ _ _ Hj) in Hs. set_solver.
  - by apply justified_streams_mono.
  - intros T k S Hl. by apply asked_mono, (j_links _ _ _ Hj).
Qed.

Lemma do_call_justified cs m w c :
  justified cs m w -> call_live w c ->
  exists m' w', do_call (m, w) c = Ok (m', w') /\ justified (cs ++ [c]) m' w' /\
    (forall u, live w' u <-> live w u).
Proof.
  intros Hj Hc. destruct c as [uid target|uid addr st|uid]; cbn [do_call call_live] in *.
  - eexists _, w. split; [done|]. split; [|done]. pose proof (justified_mono cs (call_add_subscriber uid target) m w Hj) as Hm. split.
    + intros u t x Hs. cbn in Hs. apply lookup_insert_Some in Hs as [[<- [= <- <-]]|[_ Hs]].
      * set_solver.
      * by apply (j_subs _ _ _ Hm) in Hs.
    + intros u s Hs. by apply (justified_streams_mono cs _ m).
    + intros T k S Hl. by apply asked_mono, (j_links _ _ _ Hj).
  - by apply add_stream_justified.
  - destruct (remove_subscriber_justified cs m w uid Hj) as (w' & -> & Hj' & Hl).
    exists m, w'. split; [done|]. split; [by apply justified_mono|done].
Qed.

Lemma do_calls_justified cs2 : forall cs1 m w,
  justified cs1 m w -> Forall (call_live w) cs2 ->
  exists m' w', do_calls (m, w) cs2 = Ok (m', w') /\ justified (cs1 ++ cs2) m' w'.
Proof.
  induction cs2 as [|c cs2 IH]; intros cs1 m w Hj Hl; cbn [do_calls].
  - exists m, w. by rewrite app_nil_r.
  - apply Forall_cons_1 in Hl as [Hc Hl].
    destruct (do_call_justified cs1 m w c Hj Hc) as (m1 & w1 & -> & Hj1 & Hlive). cbn [mbind res_bind].
    rewrite cons_middle, app_assoc. apply IH; [done|].
    eapply Forall_impl; [|exact Hl]. intros [| |]; cbn; try done. by rewrite Hlive.
Qed.

(** C32. Media privacy: from transports without subscribers, no sequence of calls
    on the manager faults, and afterwards a transport forwards to another only
    if one of the two members subscribed to the other and both transports were
    announced as streams of those members. *)
Theorem links_were_asked (w : world) (cs : list mgr_call) :
  map_Forall (fun _ st => Srtp._subs_map st = ∅) (Srtp.transports w) ->
  Forall (call_live w) cs ->
  exists m' w', do_calls (empty_mgr, w) cs = Ok (m', w') /\
    forall T k S, link w' T k S -> asked cs T k S.
Proof.
  intros Hw Hl. destruct (do_calls_justified cs [] empty_mgr w) as (m' & w' & E & Hj).
  - split.
    + intros u t x Hs. cbn in Hs. by rewrite lookup_empty in Hs.
    + intros u s Hs. cbn in Hs. by rewrite lookup_empty in Hs.
    + intros T k S (st & Ht & Hk). rewrite (Hw T st Ht) in Hk. by rewrite lookup_empty in Hk.
  - done.
  - exists m', w'. split; [done|]. apply (j_links _ _ _ Hj).
Qed.
End RtcStreamMgr.

(** ** Concrete runs *)

Definition two_members : Srtp.world Srtp.toy_ctx Z :=
  Srtp.mkWorld false {[ 0%nat := Srtp.new_transport 0 100; 1%nat := Srtp.new_transport 1 101 ]} [] Uvnet.no_udps.

Definition play_calls : list mgr_call :=
  [call_add_subscriber (lit "player") (lit "pub"); call_add_stream (lit "pub") [] 0;
   call_add_stream (lit "player") [] 1].

Lemma links_were_asked_witness :
  exists m' w', do_calls (empty_mgr, two_members) play_calls = Ok (m', w') /\
    forall T k S, link w' T k S -> asked play_calls T k S.
Proof.
  apply links_were_asked.
  - apply map_Forall_insert_2; [done|]. by apply map_Forall_singleton.
  - repeat constructor; by eexists.
Defined.

Definition paired_mgr : RtcStreamMgr :=
  mkMgr {[ lit "player" := (lit "pub", []) ]} {[ lit "pub" := 0%nat; lit "player" := 1%nat ]}.

Lemma remove_subscriber_unlinks_witness :
  exists w', do_call (paired_mgr, two_members) (call_remove_subscriber (lit "player")) =
      Ok (paired_mgr, w') /\
    forall T k S, link w' T k S <->
      ~ (T = 1%nat /\ k = lit "pub") /\ ~ (T = 0%nat /\ k = lit "player") /\ link two_members T k S.
Proof.
  apply (remove_subscriber_unlinks paired_mgr two_members (lit "player") (lit "pub") [] 1 0);
    try reflexivity; by eexists.
Defined.

Lemma add_stream_links_witness :
  exists m' w', add_stream paired_mgr two_members (lit "player") [] 1 = Ok (m', w') /\
  _streams m' = <[lit "player" := 1%nat]> (_streams paired_mgr) /\
  forall T k S, link w' T k S <->
    (T = 1%nat /\ k = lit "pub" /\ S = 0%nat) \/ (T = 0%nat /\ k = lit "player" /\ S = 1%nat) \/
    (~ (T = 0%nat /\ k = lit "player") /\ ~ (T = 1%nat /\ k = lit "pub") /\ link two_members T k S).
Proof.
  eexists _, _. split; [reflexivity|].
  apply (add_stream_links paired_mgr _ two_members _ (lit "player") [] (lit "pub") [] 1 0);
    try reflexivity; try discriminate; by eexists.
Defined.
