(* ===== verification/Base64.v ===== *)
(** * rtc_base/base64/base64.cc: the Base64 encoder and decoder

    A quantum is up to four characters of the text, three bytes of the data.
    [GetNextQuantum] reads one under the rules the flags choose;
    [DecodeFromArray] assembles the bytes. *)
From S2P Require Import Prelude.
Local Open Scope Z_scope.

Definition kPad : Z := chr "=".
Definition pd : Z := 253.
Definition sp : Z := 254.
Definition il : Z := 255.

Definition Base64Table : bytes :=
  lit "ABCDEFGHIJKLMNOPQRSTUVWXYZabcdefghijklmnopqrstuvwxyz0123456789+/".

Definition DecodeTable : list Z := [
  il; il; il; il; il; il; il; il; il; sp;
  sp; sp; sp; sp; il; il; il; il; il; il;
  il; il; il; il; il; il; il; il; il; il;
  il; il; sp; il; il; il; il; il; il; il;
  il; il; il; 62; il; il; il; 63; 52; 53;
  54; 55; 56; 57; 58; 59; 60; 61; il; il;
  il; pd; il; il; il; 0; 1; 2; 3; 4;
  5; 6; 7; 8; 9; 10; 11; 12; 13; 14;
  15; 16; 17; 18; 19; 20; 21; 22; 23; 24;
  25; il; il; il; il; il; il; 26; 27; 28;
  29; 30; 31; 32; 33; 34; 35; 36; 37; 38;
  39; 40; 41; 42; 43; 44; 45; 46; 47; 48;
  49; 50; 51; il; il; il; il; il; il; il;
  il; il; il; il; il; il; il; il; il; il;
  il; il; il; il; il; il; il; il; il; il;
  il; il; il; il; il; il; il; il; il; il;
  il; il; il; il; il; il; il; il; il; il;
  il; il; il; il; il; il; il; il; il; il;
  il; il; il; il; il; il; il; il; il; il;
  il; il; il; il; il; il; il; il; il; il;
  il; il; il; il; il; il; il; il; il; il;
  il; il; il; il; il; il; il; il; il; il;
  il; il; il; il; il; il; il; il; il; il;
  il; il; il; il; il; il; il; il; il; il;
  il; il; il; il; il; il; il; il; il; il;
  il; il; il; il; il; il].

(** [Base64Table[c]] for an index of six bits, [DecodeTable[ch]] for a byte:
    both always in range. *)
Definition encode_char (c : Z) : Z := default 0 (Base64Table !! Z.to_nat c).
Definition decode_char (ch : Z) : Z := default il (DecodeTable !! Z.to_nat ch).

(** [DecodeOption]. *)
Definition DO_PARSE_STRICT : Z := 1.
Definition DO_PARSE_WHITE : Z := 2.
Definition DO_PARSE_ANY : Z := 3.
Definition DO_PARSE_MASK : Z := 3.
Definition DO_PAD_YES : Z := 4.
Definition DO_PAD_ANY : Z := 8.
Definition DO_PAD_NO : Z := 12.
Definition DO_PAD_MASK : Z := 12.
Definition DO_TERM_BUFFER : Z := 16.
Definition DO_TERM_CHAR : Z := 32.
Definition DO_TERM_ANY : Z := 48.
Definition DO_TERM_MASK : Z := 48.
Definition DO_STRICT : Z := Z.lor DO_PARSE_STRICT (Z.lor DO_PAD_YES DO_TERM_BUFFER).
Definition DO_LAX : Z := Z.lor DO_PARSE_ANY (Z.lor DO_PAD_ANY DO_TERM_CHAR).

(** [char] is signed where the code compares it: bytes from 128 are negative
    there, and in none of the ranges. *)
Definition IsBase64Char (ch : Z) : bool :=
  ((chr "A" <=? ch) && (ch <=? chr "Z")) || ((chr "a" <=? ch) && (ch <=? chr "z"))
  || ((chr "0" <=? ch) && (ch <=? chr "9")) || (ch =? chr "+") || (ch =? chr "/").

(** [strchr] also finds the terminating NUL of the table; the character after
    it is outside. *)
Definition GetNextBase64Char (ch : Z) : res (option Z) :=
  if ch =? 0 then Fail OutOfBounds
  else match list_find (fun c => c = ch) Base64Table with
       | None => Ok None
       | Some (i, _) => Ok (Some (default (encode_char 0) (Base64Table !! S i)))
       end.

Definition IsBase64Encoded (str : bytes) : bool := forallb IsBase64Char str.

(** One round of the loop takes up to three bytes; [result] has room for
    exactly what is written ([zlen_EncodeFromArray]). *)
Fixpoint EncodeFromArray (data : bytes) : bytes :=
  match data with
  | [] => []
  | x :: data =>
      encode_char (Z.land (Z.shiftr x 2) 63) ::
      match data with
      | [] => [encode_char (Z.land (Z.shiftl x 4) 63); kPad; kPad]
      | y :: data =>
          encode_char (Z.lor (Z.land (Z.shiftl x 4) 63) (Z.land (Z.shiftr y 4) 15)) ::
          match data with
          | [] => [encode_char (Z.land (Z.shiftl y 2) 63); kPad]
          | z :: data =>
              encode_char (Z.lor (Z.land (Z.shiftl y 2) 63) (Z.land (Z.shiftr z 6) 3)) ::
              encode_char (Z.land z 63) :: EncodeFromArray data
          end
      end
  end.

(** The state of the loop of [GetNextQuantum]. *)
Record quantum := mkQuantum {
  dpos : Z; byte_len : Z; pad_len : Z; pad_start : Z;
  qbuf : list Z;   (* four cells *)
}.

(** [++*dpos] after a round that changed the lengths. *)
Definition advance (q : quantum) (bytes pads start : Z) : quantum :=
  mkQuantum (dpos q + 1) bytes pads start (qbuf q).

(** The body of the loop; the flag says that it ran to [++*dpos], not to a
    [break]. *)
Definition quantum_step (parse_flags : Z) (illegal_pads : bool) (ch : Z) (q : quantum) : quantum * bool :=
  let v := decode_char ch in
  let q := mkQuantum (dpos q) (byte_len q) (pad_len q) (pad_start q)
             (<[Z.to_nat (byte_len q) := v]> (qbuf q)) in
  let ignore := (advance q (byte_len q) (pad_len q) (pad_start q), true) in
  let or_break := if negb (parse_flags =? DO_PARSE_ANY) then (q, false) else ignore in
  if (il =? v) || (illegal_pads && (pd =? v)) then or_break
  else if sp =? v then (if parse_flags =? DO_PARSE_STRICT then (q, false) else ignore)
  else if pd =? v then
    if byte_len q <? 2 then or_break
    else if byte_len q + pad_len q >=? 4 then or_break
    else (advance q (byte_len q) (pad_len q + 1)
            (if 1 =? pad_len q + 1 then dpos q else pad_start q), true)
  else if pad_len q >? 0 then
    if negb (parse_flags =? DO_PARSE_ANY) then (q, false)
    else (advance q (byte_len q + 1) 0 (pad_start q), true)
  else (advance q (byte_len q + 1) (pad_len q) (pad_start q), true).

(** The loop, over the characters from [*dpos] on. *)
Fixpoint quantum_loop (parse_flags : Z) (illegal_pads : bool) (data : bytes) (q : quantum) : quantum :=
  match data with
  | [] => q
  | ch :: data =>
      if negb (byte_len q <? 4) then q
      else match quantum_step parse_flags illegal_pads ch q with
           | (q, true) => quantum_loop parse_flags illegal_pads data q
           | (q, false) => q
           end
  end.

(** The cells from [byte_len] on are cleared. *)
Definition clear_from (n : Z) (q : list Z) : list Z :=
  take (Z.to_nat n) q ++ replicate (4 - Z.to_nat n) 0.

(** The number of characters, [*dpos], [qbuf] and [*padded]. *)
Definition GetNextQuantum (parse_flags : Z) (illegal_pads : bool) (data : bytes) (pos : Z)
    (buf : list Z) : Z * Z * list Z * bool :=
  let q := quantum_loop parse_flags illegal_pads (drop (Z.to_nat pos) data) (mkQuantum pos 0 0 0 buf) in
  let padded := byte_len q + pad_len q =? 4 in
  (byte_len q,
   if padded then dpos q else if negb (pad_len q =? 0) then pad_start q else dpos q,
   clear_from (byte_len q) (qbuf q), padded).

(** The bytes of a quantum and what is left in [c]. *)
Definition quantum_bytes (qlen q0 q1 q2 q3 : Z) : bytes * Z :=
  let c := u8 (Z.lor (Z.shiftl q0 2) (Z.land (Z.shiftr q1 4) 3)) in
  if 2 <=? qlen then
    let c2 := u8 (Z.lor (Z.land (Z.shiftl q1 4) 240) (Z.land (Z.shiftr q2 2) 15)) in
    if 3 <=? qlen then
      let c3 := u8 (Z.lor (Z.land (Z.shiftl q2 6) 192) q3) in
      if 4 <=? qlen then ([c; c2; c3], 0) else ([c; c2], c3)
    else ([c], c2)
  else ([], c).

(** The [while] loop: the rest of the bytes, [success], and [dpos]. *)
Fixpoint decode_loop (fuel : nat) (parse_flags pad_flags term_flags : Z) (data : bytes) (pos : Z)
    (buf : list Z) : res (bytes * bool * Z) :=
  if negb (pos <? zlen data) then Ok ([], true, pos)
  else match fuel with
       | O => Fail OutOfFuel
       | S fuel =>
           let '(qlen, pos, buf, padded) :=
             GetNextQuantum parse_flags (pad_flags =? DO_PAD_NO) data pos buf in
           q0 ← mem_get buf 0; q1 ← mem_get buf 1; q2 ← mem_get buf 2; q3 ← mem_get buf 3;
           let '(out, c) := quantum_bytes qlen q0 q1 q2 q3 in
           if qlen <? 4 then
             Ok (out,
                 negb (negb (term_flags =? DO_TERM_ANY) && negb (c =? 0))
                 && negb ((pad_flags =? DO_PAD_YES) && negb padded), pos)
           else
             '(rest, success, pos) ← decode_loop fuel parse_flags pad_flags term_flags data pos buf;
             Ok (out ++ rest, success, pos)
       end.

(** The value returned, the bytes, and [*data_used]; [qbuf] starts
    uninitialised and is written before it is read, whatever [buf] it is. *)
Definition DecodeFromArray (data : bytes) (flags : Z) (buf : list Z) : res (bool * bytes * Z) :=
  _ ← require (flags <=? Z.lor DO_PARSE_MASK (Z.lor DO_PAD_MASK DO_TERM_MASK)) AssertFailed;
  let parse_flags := Z.land flags DO_PARSE_MASK in
  let pad_flags := Z.land flags DO_PAD_MASK in
  let term_flags := Z.land flags DO_TERM_MASK in
  _ ← require (negb (parse_flags =? 0)) AssertFailed;
  _ ← require (negb (pad_flags =? 0)) AssertFailed;
  _ ← require (negb (term_flags =? 0)) AssertFailed;
  '(result, success, pos) ← decode_loop (length data) parse_flags pad_flags term_flags data 0 buf;
  Ok (success && negb ((term_flags =? DO_TERM_BUFFER) && negb (pos =? zlen data)), result, pos).

Definition Encode (data : bytes) : bytes := EncodeFromArray data.

Definition Decode (data : bytes) (flags : Z) : res bytes :=
  '(_, result, _) ← DecodeFromArray data flags [0; 0; 0; 0]; Ok result.

Example encode_examples :
  Encode (lit "f") = lit "Zg==" /\ Encode (lit "fo") = lit "Zm8=" /\
  Encode (lit "foobar") = lit "Zm9vYmFy".
Proof. split_and!; reflexivity. Qed.

Example decode_examples :
  Decode (lit "Zm9vYmFy") DO_STRICT = Ok (lit "foobar") /\
  DecodeFromArray (lit "Zg=") DO_STRICT [0;0;0;0] = Ok (false, lit "f", 2) /\
  DecodeFromArray (lit "Zh==") DO_STRICT [0;0;0;0] = Ok (false, lit "f", 4) /\
  Decode (lit "Z m9v*Ym Fy") DO_LAX = Ok (lit "foobar").
Proof. split_and!; vm_compute; reflexivity. Qed.

(** ** Reference: sextets

    Four sextets are three bytes.  [sextets] are the values of the characters
    of a text that belong to the alphabet; [pack] drops the bits that do not
    fill a byte, [unpack] fills the last sextet with zeros. *)
Abbreviation wf_sextets := (Forall (fun v => 0 <= v < 64)).

Definition sextets (text : bytes) : list Z :=
  filter (fun v => v < 64) (decode_char <$> text).

Fixpoint pack (l : list Z) : bytes :=
  match l with
  | a :: b :: l =>
      (a * 4 + b / 16) ::
      match l with
      | [] => []
      | c :: l =>
          (b mod 16 * 16 + c / 4) ::
          match l with
          | [] => []
          | d :: l => (c mod 4 * 64 + d) :: pack l
          end
      end
  | _ => []
  end.

Fixpoint unpack (l : bytes) : list Z :=
  match l with
  | [] => []
  | x :: l =>
      (x / 4) ::
      match l with
      | [] => [x mod 4 * 16]
      | y :: l =>
          (x mod 4 * 16 + y / 16) ::
          match l with
          | [] => [y mod 16 * 4]
          | z :: l => (y mod 16 * 4 + z / 64) :: z mod 64 :: unpack l
          end
      end
  end.

(** The pads that complete the last quantum. *)
Fixpoint pads (l : bytes) : bytes :=
  match l with
  | [] => []
  | [_] => [kPad; kPad]
  | [_; _] => [kPad]
  | _ :: _ :: _ :: l => pads l
  end.

(** What is left in [c] after a quantum. *)
Definition left_over (ss : list Z) : Z :=
  match ss with
  | [a] => a * 4
  | [_; b] => b mod 16 * 16
  | [_; _; c] => c mod 4 * 64
  | _ => 0
  end.

(** Induction by blocks of three bytes. *)
Lemma block_ind (P : bytes -> Prop) :
  P [] -> (forall x, P [x]) -> (forall x y, P [x; y]) ->
  (forall x y z l, P l -> P (x :: y :: z :: l)) -> forall l, P l.
Proof.
  intros H0' H1' H2' H3'. fix IH 1. intros [|x [|y [|z l]]]; [done|done|done|].
  apply H3', IH.
Qed.

(** ** The tables *)

Lemma decode_char_cases ch :
  0 <= decode_char ch < 64 /\ encode_char (decode_char ch) = ch \/
  decode_char ch = pd /\ ch = kPad \/ decode_char ch = sp \/ decode_char ch = il.
Proof.
  destruct (decide (is_byte ch)) as [Hb|Hb].
  - assert (Hall : forall b, is_byte b ->
      ((0 <=? decode_char b) && (decode_char b <? 64) && (encode_char (decode_char b) =? b))
      || ((decode_char b =? pd) && (b =? kPad)) || (decode_char b =? sp) || (decode_char b =? il) = true)
      by by_bytes.
    specialize (Hall ch Hb). lia.
  - right; right; right. unfold decode_char, is_byte in *.
    destruct (Z.ltb_spec ch 0).
    + by replace (Z.to_nat ch) with 0%nat by lia.
    + rewrite lookup_ge_None_2; [done|]. change (length DecodeTable) with 256%nat. lia.
Qed.

Lemma encode_char_spec v : 0 <= v < 64 -> decode_char (encode_char v) = v.
Proof.
  intros Hv.
  assert (Hall : forall b, is_byte b -> (64 <=? b) || (decode_char (encode_char b) =? b) = true) by by_bytes.
  specialize (Hall v). unfold is_byte in Hall. lia.
Qed.

Lemma sextets_app t1 t2 : sextets (t1 ++ t2) = sextets t1 ++ sextets t2.
Proof. unfold sextets. by rewrite fmap_app, list.filter_app. Qed.

Lemma sextets_wf t : wf_sextets (sextets t).
Proof.
  induction t as [|ch t IH]; [constructor|]. unfold sextets. rewrite fmap_cons, list.filter_cons.
  destruct (decode_char_cases ch) as [[? _]|[[-> _]|[-> | ->]]]; try exact IH.
  case_decide; [by constructor|exact IH].
Qed.

Lemma sextets_encode ss : wf_sextets ss -> sextets (encode_char <$> ss) = ss.
Proof.
  induction 1 as [|v ss Hv _ IH]; [done|]. unfold sextets in *. rewrite !fmap_cons, list.filter_cons.
  rewrite (encode_char_spec v Hv). rewrite decide_True by lia. by rewrite IH.
Qed.

(** ** Bits of a quantum *)

Lemma quantum_bytes_spec ss :
  wf_sextets ss -> (length ss <= 4)%nat ->
  exists q0 q1 q2 q3, ss ++ replicate (4 - length ss) 0 = [q0; q1; q2; q3] /\
    quantum_bytes (zlen ss) q0 q1 q2 q3 = (pack ss, left_over ss).
Proof.
  assert (Hb : forall a b, 0 <= a < 64 -> 0 <= b < 64 ->
    u8 (Z.lor (Z.shiftl a 2) (Z.land (Z.shiftr b 4) 3)) = a * 4 + b / 16 /\
    u8 (Z.lor (Z.land (Z.shiftl a 4) 240) (Z.land (Z.shiftr b 2) 15)) = a mod 16 * 16 + b / 4 /\
    u8 (Z.lor (Z.land (Z.shiftl a 6) 192) b) = a mod 4 * 64 + b).
  { intros a b Ha Hb.
    assert (Hall : forallb (fun a => forallb (fun b =>
      (u8 (Z.lor (Z.shiftl a 2) (Z.land (Z.shiftr b 4) 3)) =? a * 4 + b / 16) &&
      (u8 (Z.lor (Z.land (Z.shiftl a 4) 240) (Z.land (Z.shiftr b 2) 15)) =? a mod 16 * 16 + b / 4) &&
      (u8 (Z.lor (Z.land (Z.shiftl a 6) 192) b) =? a mod 4 * 64 + b)) (seqZ 0 64)) (seqZ 0 64) = true)
      by (vm_compute; reflexivity).
    rewrite forallb_forall in Hall. specialize (Hall a). rewrite forallb_forall in Hall.
    assert (Hin : forall v, 0 <= v < 64 -> List.In v (seqZ 0 64))
      by (intros; apply list_elem_of_In, elem_of_seqZ; lia).
    specialize (Hall (Hin a Ha) b (Hin b Hb)). bool_inv. by repeat split. }
  assert (H0 : 0 <= 0 < 64) by lia. intros Hw Hl. unfold quantum_bytes.
  destruct ss as [|a [|b [|c [|d [|]]]]]; [..|cbn in Hl; lia];
    repeat match goal with Hf : Forall _ (_ :: _) |- _ => inversion_clear Hf end;
    do 4 eexists; (split; [reflexivity|]);
    repeat match goal with
    | Ha : 0 <= ?a < 64, Hc : 0 <= ?b < 64 |- context [u8 (Z.lor (Z.shiftl ?a 2) (Z.land (Z.shiftr ?b 4) 3))] =>
        rewrite (proj1 (Hb a b Ha Hc))
    | Ha : 0 <= ?a < 64, Hc : 0 <= ?b < 64 |- context [u8 (Z.lor (Z.land (Z.shiftl ?a 4) 240) (Z.land (Z.shiftr ?b 2) 15))] =>
        rewrite (proj1 (proj2 (Hb a b Ha Hc)))
    | Ha : 0 <= ?a < 64, Hc : 0 <= ?b < 64 |- context [u8 (Z.lor (Z.land (Z.shiftl ?a 6) 192) ?b)] =>
        rewrite (proj2 (proj2 (Hb a b Ha Hc)))
    end; cbn -[Z.mul Z.div Z.modulo]; rewrite ?Z.add_0_r; try reflexivity.
Qed.

(** ** One quantum *)

Definition cells (q : quantum) : list Z := take (Z.to_nat (byte_len q)) (qbuf q).

(** The state of the loop that began at [s]. *)
Record wf_quantum (s : Z) (q : quantum) : Prop := {
  wfq_bytes : 0 <= byte_len q;
  wfq_pads : 0 <= pad_len q;
  wfq_sum : byte_len q + pad_len q <= 4;
  wfq_buf : length (qbuf q) = 4%nat;
  wfq_pos : s <= dpos q;
  wfq_start : 0 < pad_len q -> 2 <= byte_len q /\ s <= pad_start q <= dpos q
}.

Lemma zlen_quantum_cells s q : wf_quantum s q -> zlen (cells q) = byte_len q.
Proof. intros []. unfold cells, zlen. rewrite length_take. lia. Qed.

(** The character [ch] has been taken: [q'] is the state after it. *)
Record took (ch : Z) (q q' : quantum) : Prop := {
  took_pos : dpos q' = dpos q + 1;
  took_cells : cells q' = cells q ++ sextets [ch];
  took_pad : 0 < pad_len q' -> 0 < pad_len q \/ ch = kPad
}.

(** The characters at which the flags let the decoder stop: none when others are
    ignored, white space in strict mode only, one of the alphabet only after a
    pad. *)
Definition refused (parse : Z) (after_pad : Prop) (ch : Z) : Prop :=
  parse <> DO_PARSE_ANY /\ (decode_char ch = sp -> parse = DO_PARSE_STRICT) /\
  (decode_char ch < 64 -> after_pad).

(** [post] is empty or begins with such a character. *)
Definition stopped (parse : Z) (after_pad : Prop) (post : bytes) : Prop :=
  post = [] \/ exists ch rest, post = ch :: rest /\ refused parse after_pad ch.

Lemma stopped_weaken parse (P Q : Prop) post : (P -> Q) -> stopped parse P post -> stopped parse Q post.
Proof. intros Hpq [->|(ch & rest & -> & Ha & Hs & Hv)]; [by left|]. right. exists ch, rest. split; [done|]. split; [done|]. by split; auto. Qed.

Lemma stopped_any P post : stopped DO_PARSE_ANY P post -> post = [].
Proof. by intros [->|(ch & rest & -> & [Ha _])]. Qed.

Lemma sextets_sing ch : sextets [ch] = if decide (decode_char ch < 64) then [decode_char ch] else [].
Proof. unfold sextets. cbn. by case_decide. Qed.

Lemma cells_put q v p l st :
  0 <= byte_len q -> byte_len q < 4 -> length (qbuf q) = 4%nat ->
  cells (mkQuantum p (byte_len q) l st (<[Z.to_nat (byte_len q):=v]> (qbuf q))) = cells q /\
  cells (mkQuantum p (byte_len q + 1) l st (<[Z.to_nat (byte_len q):=v]> (qbuf q))) = cells q ++ [v].
Proof.
  intros ? ? ?. unfold cells. cbn. split; [by rewrite take_insert_ge by lia|].
  rewrite Z2Nat.inj_add by lia. change (Z.to_nat 1) with 1%nat. rewrite Nat.add_1_r.
  erewrite take_S_r; [|apply list_lookup_insert_eq; lia]. by rewrite take_insert_ge by lia.
Qed.

(** One round: it takes the character or stops, the latter only where a
    character may be refused. *)
Lemma quantum_step_spec s parse illegal ch q q' go :
  wf_quantum s q -> byte_len q < 4 -> quantum_step parse illegal ch q = (q', go) ->
  wf_quantum s q' /\
  (if go then took ch q q'
   else refused parse (0 < pad_len q) ch /\ dpos q' = dpos q /\ cells q' = cells q /\ pad_len q' = pad_len q).
Proof.
  intros Hw Hlt Hstep. unfold quantum_step, advance in Hstep. cbn [dpos byte_len pad_len pad_start qbuf] in Hstep.
  pose proof Hw as [].
  repeat match type of Hstep with context [if ?b then _ else _] => destruct b eqn:? end;
    injection Hstep as <- <-; bool_inv;
    (split; [constructor; cbn; rewrite ?length_insert; lia|]);
    try (split; [unfold refused, DO_PARSE_ANY, DO_PARSE_STRICT, il, pd, sp in *; split_and!; intros; lia|];
      split_and!; [done| |done]; by apply cells_put);
    (constructor; [done| |try (cbn; lia)]); try rewrite sextets_sing.
  all: first
    [ rewrite decide_False by (unfold il, pd, sp in *; lia); rewrite app_nil_r; by apply cells_put
    | destruct (decode_char_cases ch) as [[? _]|[[? _]|[?|?]]]; [|by exfalso; unfold il, pd, sp in *; lia..];
      rewrite decide_True by lia; by apply cells_put
    | destruct (decode_char_cases ch) as [[? _]|[[_ ->]|[?|?]]]; [by exfalso; unfold il, pd, sp in *; lia| |
        by exfalso; unfold il, pd, sp in *; lia..]; cbn; auto ].
Qed.

(** In strict mode a character taken is one of the alphabet before the pads or a
    pad. *)
Lemma quantum_step_strict illegal ch q q' :
  0 <= pad_len q -> quantum_step DO_PARSE_STRICT illegal ch q = (q', true) ->
  (pad_len q = 0 /\ pad_len q' = 0 /\ ch = encode_char (decode_char ch) /\ 0 <= decode_char ch < 64) \/
  (ch = kPad /\ pad_len q' = pad_len q + 1).
Proof.
  intros Hp Hstep. unfold quantum_step, advance in Hstep. cbn [dpos byte_len pad_len pad_start qbuf] in Hstep.
  change (DO_PARSE_STRICT =? DO_PARSE_ANY) with false in Hstep.
  change (DO_PARSE_STRICT =? DO_PARSE_STRICT) with true in Hstep. cbn [negb] in Hstep.
  repeat match type of Hstep with context [if ?b then _ else _] => destruct b eqn:? end;
    injection Hstep as <-; try done; bool_inv; cbn.
  all: destruct (decode_char_cases ch) as [[? ?]|[[? ?]|[?|?]]];
    try (exfalso; unfold il, pd, sp in *; lia).
  1,2: by right.
  left. split_and!; [lia|lia|done|lia|lia].
Qed.

(** The loop has gone from [q] to [q'] over [pre] and left [post]: it stops at
    four bytes, at the end, or where a character may be refused. *)
Record took_all (parse : Z) (q : quantum) (pre post : bytes) (q' : quantum) : Prop := {
  ta_pos : dpos q' = dpos q + zlen pre;
  ta_cells : cells q' = cells q ++ sextets pre;
  ta_end : byte_len q' = 4 \/ stopped parse (0 < pad_len q \/ kPad ∈ pre) post;
  ta_pads : parse = DO_PARSE_STRICT -> pad_len q <= pad_len q' /\ (0 < pad_len q -> sextets pre = []);
  ta_strict : parse = DO_PARSE_STRICT ->
    pre = (encode_char <$> sextets pre) ++ replicate (Z.to_nat (pad_len q' - pad_len q)) kPad
}.

Lemma took_none parse q q' post :
  dpos q' = dpos q -> cells q' = cells q -> pad_len q' = pad_len q ->
  byte_len q' = 4 \/ stopped parse (0 < pad_len q) post -> took_all parse q [] post q'.
Proof.
  intros Hd Hc Hp Hs. constructor; [by rewrite zlen_nil, Z.add_0_r|by rewrite app_nil_r| | |].
  - destruct Hs as [|Hs]; [by left|]. right. eapply stopped_weaken, Hs. auto.
  - intros _. by rewrite Hp.
  - intros _. by rewrite Hp, Z.sub_diag.
Qed.

Lemma took_cons s parse illegal ch q q1 pre post q' :
  wf_quantum s q -> quantum_step parse illegal ch q = (q1, true) -> took ch q q1 ->
  took_all parse q1 pre post q' -> took_all parse q (ch :: pre) post q'.
Proof.
  intros Hw Hstep [Hd Hc Hpd] [Hd' Hc' He Hp Hs].
  assert (Hx : sextets (ch :: pre) = sextets [ch] ++ sextets pre) by apply (sextets_app [ch]).
  constructor; [rewrite zlen_cons; lia|by rewrite Hx, Hc', Hc, app_assoc| | |].
  { destruct He as [|He]; [by left|]. right. eapply stopped_weaken, He.
    rewrite list.elem_of_cons. intros [[| ->]%Hpd|]; auto. }
  all: intros ->; destruct (Hp eq_refl) as [Hp1 Hp2]; specialize (Hs eq_refl);
    destruct (quantum_step_strict _ _ _ _ (wfq_pads _ _ Hw) Hstep) as [(Hq & Hq1 & Hch & Hv)|[-> Hq1]];
    rewrite Hx.
  - split; lia.
  - split; [lia|]. intros _. rewrite Hp2; [done|]. pose proof (wfq_pads _ _ Hw). lia.
  - rewrite sextets_sing, decide_True by lia. cbn. rewrite Hq, <- Hq1, <- Hs. by f_equal.
  - rewrite sextets_sing. rewrite (decide_False (P := decode_char kPad < 64)) by done.
    pose proof (wfq_pads _ _ Hw). rewrite Hp2 in Hs |- * by lia. cbn in Hs |- *. rewrite Hs.
    replace (Z.to_nat (pad_len q' - pad_len q)) with (S (Z.to_nat (pad_len q' - pad_len q1))) by lia. done.
Qed.

Lemma quantum_loop_spec s parse illegal data q :
  wf_quantum s q ->
  let q' := quantum_loop parse illegal data q in
  wf_quantum s q' /\ exists pre post, data = pre ++ post /\ took_all parse q pre post q'.
Proof.
  revert q. induction data as [|ch data IH]; intros q Hw; cbn -[Z.ltb].
  - split; [done|]. exists [], []. split; [done|]. apply took_none; auto. right. by left.
  - destruct (Z.ltb_spec (byte_len q) 4) as [Hlt|Hge]; cbn [negb].
    2: { split; [done|]. exists [], (ch :: data). split; [done|]. apply took_none; auto.
         left. destruct Hw. lia. }
    destruct (quantum_step parse illegal ch q) as [q1 go] eqn:Hstep.
    pose proof (quantum_step_spec _ _ _ _ _ _ _ Hw Hlt Hstep) as [Hw1 Ht]. destruct go.
    + destruct (IH q1 Hw1) as (Hw2 & pre & post & -> & Hall). split; [done|].
      exists (ch :: pre), post. split; [done|]. by eapply took_cons.
    + destruct Ht as (Hr & ? & ? & ?). split; [done|]. exists [], (ch :: data). split; [done|].
      apply took_none; auto. right; right. by exists ch, data.
Qed.

(** A call of [GetNextQuantum] from [pos] takes the characters [pre]. *)
Lemma GetNextQuantum_spec parse illegal data pos buf :
  0 <= pos -> length buf = 4%nat ->
  exists pre post (npads : nat) pos' padded,
    let ss := sextets pre in
    drop (Z.to_nat pos) data = pre ++ post /\ (length ss + npads <= 4)%nat /\
    GetNextQuantum parse illegal data pos buf = (zlen ss, pos', ss ++ replicate (4 - length ss) 0, padded) /\
    pos <= pos' <= pos + zlen pre /\
    (padded = true <-> length ss + npads = 4)%nat /\ (padded = true -> pos' = pos + zlen pre) /\
    (npads <> 0 -> 2 <= length ss)%nat /\
    (length ss = 4%nat \/ stopped parse (kPad ∈ pre) post) /\
    (parse = DO_PARSE_STRICT -> pre = (encode_char <$> ss) ++ replicate npads kPad).
Proof.
  intros Hpos Hbuf. unfold GetNextQuantum.
  assert (Hw : wf_quantum pos (mkQuantum pos 0 0 0 buf)) by (constructor; cbn; lia).
  destruct (quantum_loop_spec pos parse illegal (drop (Z.to_nat pos) data) _ Hw)
    as (Hw' & pre & post & Hdata & [Hd Hc He _ Hs]).
  set (q := quantum_loop _ _ _ _) in *. cbn in Hd.
  change (cells q = sextets pre) in Hc.
  pose proof (zlen_quantum_cells _ _ Hw') as Hlen. rewrite Hc in Hlen.
  pose proof Hw' as []. unfold zlen in Hlen.
  exists pre, post, (Z.to_nat (pad_len q)). do 2 eexists. cbn zeta.
  split; [done|]. split; [lia|]. split.
  { unfold clear_from. fold (cells q). rewrite Hc. repeat f_equal; unfold zlen; lia. }
  cbn in Hs. rewrite Z.sub_0_r in Hs.
  split_and!.
  - repeat case_match; bool_inv; lia.
  - repeat case_match; bool_inv; lia.
  - rewrite Z.eqb_eq. lia.
  - intros ->. lia.
  - intros. lia.
  - destruct He as [|He]; [left; lia|]. right. eapply stopped_weaken, He. cbn. intros [|]; [lia|done].
  - done.
Qed.

(** A reference for what the decoder returns: the bytes of the characters
    [pre] it consumed. *)
Lemma pack_app4 ss rest : length ss = 4%nat -> pack (ss ++ rest) = pack ss ++ pack rest.
Proof. by destruct ss as [|a [|b [|c [|d [|]]]]]. Qed.

Lemma pack_length ss : (4 * length (pack ss) <= 3 * length ss)%nat.
Proof.
  assert (Hn : forall n ss, (length ss <= n)%nat -> (4 * length (pack ss) <= 3 * length ss)%nat).
  { induction n as [|n IH]; intros [|a [|b [|c [|d l]]]] Hl; cbn in *; try lia.
    specialize (IH l). lia. }
  by apply (Hn (length ss)).
Qed.

Lemma sextets_length t : (length (sextets t) <= length t)%nat.
Proof. unfold sextets. etrans; [apply length_filter|]. by rewrite length_fmap. Qed.

(** A round of the loop. *)
Lemma decode_loop_step fuel parse pad term data pos buf :
  0 <= pos < zlen data -> length buf = 4%nat ->
  exists pre post (npads : nat),
    drop (Z.to_nat pos) data = pre ++ post /\
    (length (sextets pre) = 4%nat \/ stopped parse (kPad ∈ pre) post) /\
    (parse = DO_PARSE_STRICT -> pre = (encode_char <$> sextets pre) ++ replicate npads kPad) /\
    ((exists buf', length (sextets pre) = 4%nat /\ npads = 0%nat /\ length buf' = 4%nat /\
        pos + 4 <= pos + zlen pre <= zlen data /\
        decode_loop (S fuel) parse pad term data pos buf =
          ('(rest, success, pos') ← decode_loop fuel parse pad term data (pos + zlen pre) buf';
           Ok (pack (sextets pre) ++ rest, success, pos'))) \/
     (exists pos' padded, (length (sextets pre) < 4)%nat /\ pos <= pos' <= pos + zlen pre /\
        (padded = true -> (2 <= length (sextets pre))%nat /\ npads = 4 - length (sextets pre))%nat /\
        decode_loop (S fuel) parse pad term data pos buf =
          Ok (pack (sextets pre),
              negb (negb (term =? DO_TERM_ANY) && negb (left_over (sextets pre) =? 0))
              && negb ((pad =? DO_PAD_YES) && negb padded), pos'))).
Proof.
  intros Hpos Hbuf. cbn [decode_loop]. rewrite (proj2 (Z.ltb_lt pos (zlen data))) by lia. cbn [negb].
  destruct (GetNextQuantum_spec parse (pad =? DO_PAD_NO) data pos buf) as
    (pre & post & npads & pos' & padded & Hd & Hl & -> & Hp & Hpad & Hpp & Hmin & Hany & Hstrict); [lia|done|].
  exists pre, post, npads. split_and!; [done..|].
  assert (Hpre : zlen pre + zlen post = zlen data - pos).
  { rewrite <- zlen_app, <- Hd, zlen_drop; lia. }
  pose proof (sextets_length pre) as Hsl. pose proof (zlen_nonneg post).
  destruct (quantum_bytes_spec _ (sextets_wf pre) ltac:(lia)) as (q0 & q1 & q2 & q3 & -> & Hq).
  change (mem_get [q0; q1; q2; q3] 0) with (Ok q0). change (mem_get [q0; q1; q2; q3] 1) with (Ok q1).
  change (mem_get [q0; q1; q2; q3] 2) with (Ok q2). change (mem_get [q0; q1; q2; q3] 3) with (Ok q3).
  rewrite !bind_ok, Hq. destruct (Z.ltb_spec (zlen (sextets pre)) 4); unfold zlen in *.
  - right. exists pos', padded. split_and!; [lia..| |done]. intros Ht%Hpad. lia.
  - left. exists [q0; q1; q2; q3]. assert (Hp4 : padded = true) by (apply Hpad; lia).
    rewrite (Hpp Hp4). split_and!; [lia..|done|lia|lia|done].
Qed.

(** The loop terminates within a round for every character left, consumes a
    prefix of them and returns its bytes. *)
Lemma decode_loop_spec fuel parse pad term data pos buf :
  0 <= pos <= zlen data -> length buf = 4%nat -> zlen data - pos <= Z.of_nat fuel ->
  exists success pos' pre post,
    decode_loop fuel parse pad term data pos buf = Ok (pack (sextets pre), success, pos') /\
    drop (Z.to_nat pos) data = pre ++ post /\ pos <= pos' <= pos + zlen pre /\
    stopped parse (kPad ∈ pre) post.
Proof.
  revert pos buf. induction fuel as [|fuel IH]; intros pos buf Hpos Hbuf Hfuel.
  all: destruct (Z.ltb_spec pos (zlen data)) as [Hlt|Hge]; [|
    exists true, pos, [], []; cbn [decode_loop]; rewrite (proj2 (Z.ltb_ge _ _) Hge), drop_ge by (unfold zlen in *; lia);
    split_and!; rewrite ?zlen_nil; try done; [lia..|by left]].
  { lia. }
  destruct (decode_loop_step fuel parse pad term data pos buf) as
    (pre & post & npads & Hd & Hany & _ & [(buf' & H4 & _ & Hb & Hp & ->)|(pos' & padded & H4 & Hp & _ & ->)]); [lia|done| |].
  - destruct (IH (pos + zlen pre) buf') as (success & pos' & pre' & post' & -> & Hd' & Hp' & Hany'); [lia|done|lia|].
    assert (Hpost : post = pre' ++ post').
    { rewrite <- Hd', Z2Nat.inj_add, <- drop_drop, Hd by (try apply zlen_nonneg; lia).
      unfold zlen. by rewrite Nat2Z.id, drop_app_length. }
    exists success, pos', (pre ++ pre'), post'. rewrite bind_ok, sextets_app, (pack_app4 _ _ H4).
    split_and!; [done| |lia|rewrite zlen_app; lia|].
    + by rewrite Hd, Hpost, app_assoc.
    + eapply stopped_weaken, Hany'. rewrite list.elem_of_app. auto.
  - eexists _, pos', pre, post. split_and!; [done|done|lia|lia|]. destruct Hany; [lia|done].
Qed.

(** ** Decoding what the encoder wrote *)

Lemma quantum_step_valid parse illegal v p n st b :
  0 <= v < 64 ->
  quantum_step parse illegal (encode_char v) (mkQuantum p n 0 st b) =
    (mkQuantum (p + 1) (n + 1) 0 st (<[Z.to_nat n := v]> b), true).
Proof.
  intros Hv. unfold quantum_step. rewrite (encode_char_spec v Hv). cbn [dpos byte_len pad_len pad_start qbuf].
  replace (il =? v) with false by (unfold il; lia). replace (sp =? v) with false by (unfold sp; lia).
  replace (pd =? v) with false by (unfold pd; lia). by rewrite andb_false_r.
Qed.

Lemma quantum_step_pad parse p n l st b :
  2 <= n -> n + l < 4 ->
  quantum_step parse false kPad (mkQuantum p n l st b) =
    (mkQuantum (p + 1) n (l + 1) (if 1 =? l + 1 then p else st) (<[Z.to_nat n := pd]> b), true).
Proof.
  intros Hn Hl. unfold quantum_step. change (decode_char kPad) with pd. cbn -[Z.add Z.ltb Z.geb Z.to_nat Z.eqb insert].
  change (il =? pd) with false. change (sp =? pd) with false. change (pd =? pd) with true. cbn -[Z.add Z.ltb Z.geb Z.to_nat Z.eqb insert].
  replace (n <? 2) with false by lia. replace (n + l >=? 4) with false by lia. done.
Qed.

Lemma quantum_loop_full parse illegal data q :
  4 <= byte_len q -> quantum_loop parse illegal data q = q.
Proof. intros Hq. destruct data; [done|]. cbn [quantum_loop]. by rewrite (proj2 (Z.ltb_ge _ _) Hq). Qed.

Lemma quantum_loop_valid parse illegal ss rest p n st b :
  wf_sextets ss -> (n + length ss <= 4)%nat ->
  quantum_loop parse illegal ((encode_char <$> ss) ++ rest) (mkQuantum p (Z.of_nat n) 0 st b) =
    quantum_loop parse illegal rest
      (mkQuantum (p + zlen ss) (Z.of_nat (n + length ss)) 0 st (list_inserts n ss b)).
Proof.
  intros Hw. revert p n b. induction Hw as [|v ss Hv _ IH]; intros p n b Hn.
  - cbn. by rewrite Z.add_0_r, Nat.add_0_r.
  - cbn [fmap list_fmap app quantum_loop byte_len]. cbn in Hn.
    rewrite (proj2 (Z.ltb_lt (Z.of_nat n) 4)) by lia. cbn [negb].
    rewrite quantum_step_valid, Nat2Z.id by done.
    replace (Z.of_nat n + 1) with (Z.of_nat (S n)) by lia. rewrite IH by lia.
    rewrite zlen_cons. cbn [length]. rewrite Nat.add_succ_comm.
    replace (p + 1 + zlen ss) with (p + (1 + zlen ss)) by lia. f_equal. f_equal.
    cbn. symmetry. apply list_insert_inserts_lt. lia.
Qed.

(** A quantum of two to four valid characters with its pads. *)
Lemma GetNextQuantum_full parse illegal data pos buf ss k rest :
  wf_sextets ss -> (2 <= length ss)%nat -> (length ss + k = 4)%nat -> length buf = 4%nat ->
  (k <> 0%nat -> illegal = false /\ rest = []) ->
  drop (Z.to_nat pos) data = (encode_char <$> ss) ++ replicate k kPad ++ rest ->
  GetNextQuantum parse illegal data pos buf = (zlen ss, pos + 4, ss ++ replicate k 0, true).
Proof.
  intros Hw Hl Hk Hb Hill Hd. unfold GetNextQuantum. rewrite Hd.
  rewrite (quantum_loop_valid parse illegal ss _ pos 0 0 buf Hw) by lia.
  destruct buf as [|b0 [|b1 [|b2 [|b3 [|]]]]]; try done.
  destruct ss as [|a [|b [|c [|d [|]]]]]; cbn in Hl, Hk; try lia.
  - assert (k = 2%nat) as -> by lia. destruct Hill as [-> ->]; [done|]. unfold zlen.
    cbn [replicate app quantum_loop byte_len length Nat.add Z.of_nat Pos.of_succ_nat Pos.succ].
    rewrite quantum_step_pad by lia. cbn [negb byte_len]. rewrite quantum_step_pad by lia.
    replace (pos + 4) with (pos + 2 + 1 + 1) by lia. reflexivity.
  - assert (k = 1%nat) as -> by lia. destruct Hill as [-> ->]; [done|]. unfold zlen.
    cbn [replicate app quantum_loop byte_len length Nat.add Z.of_nat Pos.of_succ_nat Pos.succ].
    rewrite quantum_step_pad by lia. replace (pos + 4) with (pos + 3 + 1) by lia. reflexivity.
  - assert (k = 0%nat) as -> by lia. cbn [replicate app]. rewrite quantum_loop_full by (cbn; lia).
    reflexivity.
Qed.

#[local] Ltac Zify.zify_post_hook ::= Z.to_euclidean_division_equations.

Lemma encode_bits x y :
  is_byte x -> is_byte y ->
  Z.land (Z.shiftr x 2) 63 = x / 4 /\ Z.land (Z.shiftl x 4) 63 = x mod 4 * 16 /\
  Z.land (Z.shiftl x 2) 63 = x mod 16 * 4 /\ Z.land x 63 = x mod 64 /\
  Z.lor (Z.land (Z.shiftl x 4) 63) (Z.land (Z.shiftr y 4) 15) = x mod 4 * 16 + y / 16 /\
  Z.lor (Z.land (Z.shiftl x 2) 63) (Z.land (Z.shiftr y 6) 3) = x mod 16 * 4 + y / 64.
Proof.
  intros Hx Hy.
  assert (H1' : forall b, is_byte b -> (Z.land (Z.shiftr b 2) 63 =? b / 4) && (Z.land (Z.shiftl b 4) 63 =? b mod 4 * 16)
    && (Z.land (Z.shiftl b 2) 63 =? b mod 16 * 4) && (Z.land b 63 =? b mod 64) &&
    (Z.land (Z.shiftr b 4) 15 =? b / 16) && (Z.land (Z.shiftr b 6) 3 =? b / 64) = true) by by_bytes.
  pose proof (H1' y Hy) as Hy'. specialize (H1' x Hx). bool_inv.
  split_and!; [done..| |].
  - replace (Z.land (Z.shiftl x 4) 63) with (Z.shiftl (x mod 4) 4) by (rewrite (Z.shiftl_mul_pow2 (_ mod _)) by lia; lia).
    replace (Z.land (Z.shiftr y 4) 15) with (y / 16) by lia.
    rewrite Z.lor_comm, lor_shiftl_add; unfold is_byte in *; clear -Hx Hy; change (2 ^ 4) with 16; lia.
  - replace (Z.land (Z.shiftl x 2) 63) with (Z.shiftl (x mod 16) 2) by (rewrite (Z.shiftl_mul_pow2 (_ mod _)) by lia; lia).
    replace (Z.land (Z.shiftr y 6) 3) with (y / 64) by lia.
    rewrite Z.lor_comm, lor_shiftl_add; unfold is_byte in *; clear -Hx Hy; change (2 ^ 2) with 4; lia.
Qed.

(** The encoder writes the characters of the sextets and the pads. *)
Lemma EncodeFromArray_spec r :
  wf_bytes r -> EncodeFromArray r = (encode_char <$> unpack r) ++ pads r.
Proof.
  revert r. apply (block_ind (fun r => wf_bytes r -> EncodeFromArray r = _ ++ _)); [done|..]; intros *.
  - intros (Hx & _)%list.Forall_cons. cbn [EncodeFromArray unpack].
    destruct (encode_bits x x Hx Hx) as (-> & -> & _). done.
  - intros (Hx & (Hy & _)%list.Forall_cons)%list.Forall_cons. cbn [EncodeFromArray unpack].
    destruct (encode_bits x y Hx Hy) as (-> & _ & _ & _ & -> & _).
    destruct (encode_bits y y Hy Hy) as (_ & _ & -> & _). done.
  - intros IH (Hx & (Hy & (Hz & Hl)%list.Forall_cons)%list.Forall_cons)%list.Forall_cons. cbn [EncodeFromArray unpack].
    destruct (encode_bits x y Hx Hy) as (-> & _ & _ & _ & -> & _).
    destruct (encode_bits y z Hy Hz) as (_ & _ & _ & _ & _ & ->).
    destruct (encode_bits z z Hz Hz) as (_ & _ & _ & -> & _). rewrite (IH Hl). done.
Qed.

Lemma pack_unpack r : wf_bytes r -> pack (unpack r) = r.
Proof.
  revert r. apply (block_ind (fun r => wf_bytes r -> _)); [done|..]; intros *.
  - intros (Hx & _)%list.Forall_cons. unfold is_byte in *. cbn [unpack pack]. f_equal. lia.
  - intros (Hx & (Hy & _)%list.Forall_cons)%list.Forall_cons. unfold is_byte in *. cbn [unpack pack].
    f_equal; [lia|]. f_equal. lia.
  - intros IH (Hx & (Hy & (Hz & Hl)%list.Forall_cons)%list.Forall_cons)%list.Forall_cons.
    unfold is_byte in *. cbn [unpack pack]. rewrite (IH Hl). repeat f_equal; lia.
Qed.

Lemma unpack_wf r : wf_bytes r -> wf_sextets (unpack r).
Proof.
  revert r. apply (block_ind (fun r => wf_bytes r -> _)); [constructor|..]; intros *.
  - intros (Hx & _)%list.Forall_cons. unfold is_byte in *. cbn [unpack]. repeat constructor; lia.
  - intros (Hx & (Hy & _)%list.Forall_cons)%list.Forall_cons. unfold is_byte in *. cbn [unpack].
    repeat constructor; lia.
  - intros IH (Hx & (Hy & (Hz & Hl)%list.Forall_cons)%list.Forall_cons)%list.Forall_cons.
    unfold is_byte in *. cbn [unpack]. repeat (constructor; [lia|]). by apply IH.
Qed.

(** The flags [DecodeFromArray] accepts. *)
Definition valid_flags (flags : Z) : bool :=
  (flags <=? 63) && negb (Z.land flags 3 =? 0) && negb (Z.land flags 12 =? 0) && negb (Z.land flags 48 =? 0).

Lemma DecodeFromArray_unfold data flags buf :
  valid_flags flags = true ->
  DecodeFromArray data flags buf =
    ('(result, success, pos) ← decode_loop (length data) (Z.land flags 3) (Z.land flags 12) (Z.land flags 48) data 0 buf;
     Ok (success && negb ((Z.land flags 48 =? DO_TERM_BUFFER) && negb (pos =? zlen data)), result, pos)).
Proof.
  unfold valid_flags. intros Hv. bool_inv. unfold DecodeFromArray, DO_PARSE_MASK, DO_PAD_MASK, DO_TERM_MASK.
  change (Z.lor 3 (Z.lor 12 48)) with 63. rewrite (proj2 (Z.leb_le flags 63)) by done.
  rewrite (proj2 (Z.eqb_neq (Z.land flags 3) 0)), (proj2 (Z.eqb_neq (Z.land flags 12) 0)),
    (proj2 (Z.eqb_neq (Z.land flags 48) 0)) by done. reflexivity.
Qed.

(** A round on a quantum of two to four characters and its pads. *)
Lemma decode_loop_quantum fuel parse pad term data pos buf ss k rest :
  pad <> DO_PAD_NO -> wf_sextets ss -> (2 <= length ss)%nat -> (length ss + k = 4)%nat ->
  length buf = 4%nat -> 0 <= pos -> (k <> 0%nat -> rest = []) -> left_over ss = 0 ->
  drop (Z.to_nat pos) data = (encode_char <$> ss) ++ replicate k kPad ++ rest ->
  decode_loop (S fuel) parse pad term data pos buf =
    if zlen ss <? 4 then Ok (pack ss, true, pos + 4)
    else '(rest, success, pos) ← decode_loop fuel parse pad term data (pos + 4) ss; Ok (pack ss ++ rest, success, pos).
Proof.
  intros Hpad Hw Hl Hk Hb Hpos Hr Hleft Hd. cbn [decode_loop].
  assert (Hz : zlen data - pos >= 4).
  { assert (Hlen : length (drop (Z.to_nat pos) data) = (length ss + k + length rest)%nat)
      by (rewrite Hd, !length_app, length_fmap, length_replicate; lia).
    rewrite length_drop in Hlen. unfold zlen. lia. }
  rewrite (proj2 (Z.ltb_lt pos (zlen data))) by lia. cbn [negb].
  rewrite (GetNextQuantum_full _ _ _ _ _ ss k rest)
    by first [done | intros; split; [by apply Z.eqb_neq|by apply Hr]].
  destruct (quantum_bytes_spec ss Hw ltac:(lia)) as (q0 & q1 & q2 & q3 & Hq & Hb4).
  replace (4 - length ss)%nat with k in Hq by lia. rewrite Hq.
  change (mem_get [q0; q1; q2; q3] 0) with (Ok q0). change (mem_get [q0; q1; q2; q3] 1) with (Ok q1).
  change (mem_get [q0; q1; q2; q3] 2) with (Ok q2). change (mem_get [q0; q1; q2; q3] 3) with (Ok q3).
  rewrite !bind_ok, Hb4, Hleft. destruct (Z.ltb_spec (zlen ss) 4).
  - by rewrite !andb_false_r.
  - replace k with 0%nat in Hq by (unfold zlen in *; lia). rewrite app_nil_r in Hq. by rewrite Hq.
Qed.

Lemma left_over_unpack r : (length r <= 3)%nat -> left_over (unpack r) = 0.
Proof.
  destruct r as [|x [|y [|z [|]]]]; cbn [length]; intros; try lia; cbn [unpack left_over]; lia.
Qed.

(** The last quantum of [r] and the quanta before it. *)
Lemma decode_loop_encoded parse pad term r data :
  pad <> DO_PAD_NO -> wf_bytes r ->
  forall fuel pos buf, 0 <= pos -> length buf = 4%nat -> (length r <= fuel)%nat ->
  drop (Z.to_nat pos) data = (encode_char <$> unpack r) ++ pads r ->
  decode_loop fuel parse pad term data pos buf = Ok (r, true, pos + zlen (unpack r) + zlen (pads r)).
Proof.
  intros Hpad. revert r. apply (block_ind (fun r => wf_bytes r -> forall fuel pos buf, _ -> _ -> _ -> _ -> _ = Ok (r, true, _ + zlen (unpack r) + _))).
  - intros _ fuel pos buf Hpos _ _ Hd.
    assert (Hl : zlen data <= pos) by (apply (f_equal length) in Hd; rewrite length_drop in Hd; cbn in Hd; unfold zlen; lia).
    destruct fuel; cbn [decode_loop]; rewrite (proj2 (Z.ltb_ge _ _) Hl); cbn; by rewrite !Z.add_0_r.
  - intros x Hw [|fuel] pos buf Hpos Hb Hf Hd; [cbn in Hf; lia|].
    rewrite (decode_loop_quantum _ _ _ _ _ _ _ (unpack [x]) 2 []) by
      first [done | by apply unpack_wf | by apply left_over_unpack; cbn; lia | by cbn; lia | by rewrite Hd].
    rewrite pack_unpack by done. cbn [unpack pads]. rewrite !zlen_cons, zlen_nil. cbn -[Z.add]. f_equal. f_equal. lia.
  - intros x y Hw [|fuel] pos buf Hpos Hb Hf Hd; [cbn in Hf; lia|].
    rewrite (decode_loop_quantum _ _ _ _ _ _ _ (unpack [x; y]) 1 []) by
      first [done | by apply unpack_wf | by apply left_over_unpack; cbn; lia | by cbn; lia | by rewrite Hd].
    rewrite pack_unpack by done. cbn [unpack pads]. rewrite !zlen_cons, zlen_nil. cbn -[Z.add]. f_equal. f_equal. lia.
  - intros x y z l IH Hw [|fuel] pos buf Hpos Hb Hf Hd; [cbn in Hf; lia|].
    assert (Hw3 : wf_bytes [x; y; z]) by (apply (Forall_take _ 3 _ Hw)).
    rewrite (decode_loop_quantum _ _ _ _ _ _ _ (unpack [x; y; z]) 0 ((encode_char <$> unpack l) ++ pads l)) by
      first [done | by apply unpack_wf | by apply left_over_unpack; cbn; lia | by cbn; lia | by rewrite Hd].
    rewrite pack_unpack by done. change (zlen (unpack [x; y; z]) <? 4) with false. cbn iota.
    rewrite IH; [..|cbn in Hf; lia|]; try done; [|by apply (Forall_drop _ 3 _ Hw)|lia|].
    + rewrite bind_ok. cbn [app unpack pads]. rewrite !zlen_cons. f_equal. f_equal. lia.
    + rewrite Z2Nat.inj_add, <- drop_drop, Hd by lia. done.
Qed.

(** ** What a strict decoder accepts *)

(** A quantum without bits left over is the encoding of its bytes. *)
Lemma unpack_pack ss r :
  wf_sextets ss -> (2 <= length ss <= 4)%nat -> left_over ss = 0 -> (r <> [] -> length ss = 4%nat) ->
  (encode_char <$> unpack (pack ss ++ r)) ++ pads (pack ss ++ r) =
    (encode_char <$> ss) ++ replicate (4 - length ss) kPad ++ (encode_char <$> unpack r) ++ pads r /\
  wf_bytes (pack ss).
Proof.
  intros Hw Hl H0' Hr.
  assert (Hshort : length ss <> 4%nat -> r = []) by (destruct r; [done|]; intros []; by apply Hr).
  destruct ss as [|a [|b [|c [|d [|]]]]]; cbn [length] in *; try lia;
    repeat match goal with Hf : Forall _ (_ :: _) |- _ => inversion_clear Hf end;
    rewrite ?Hshort by lia; cbn [pack left_over app unpack pads fmap list_fmap replicate Nat.sub] in *.
  all: split; [repeat f_equal; lia|]; repeat constructor; lia.
Qed.

Lemma decode_loop_strict fuel data pos buf r :
  0 <= pos <= zlen data -> length buf = 4%nat -> zlen data - pos <= Z.of_nat fuel ->
  decode_loop fuel DO_PARSE_STRICT DO_PAD_YES DO_TERM_BUFFER data pos buf = Ok (r, true, zlen data) ->
  wf_bytes r /\ drop (Z.to_nat pos) data = (encode_char <$> unpack r) ++ pads r.
Proof.
  revert pos buf r. induction fuel as [|fuel IH]; intros pos buf r Hpos Hbuf Hfuel.
  all: destruct (Z.ltb_spec pos (zlen data)) as [Hlt|Hge]; [|
    cbn [decode_loop]; rewrite (proj2 (Z.ltb_ge _ _) Hge), drop_ge by (unfold zlen in *; lia);
    by intros [= <-]].
  { lia. }
  destruct (decode_loop_step fuel DO_PARSE_STRICT DO_PAD_YES DO_TERM_BUFFER data pos buf) as
    (pre & post & npads & Hd & _ & Hpre & [(buf' & H4 & Hn & Hb & Hp & ->)|(pos' & padded & H4 & Hp & Hpad & ->)]); [lia|done| |].
  - intros ([[rest ok] pos'] & Hrest & [= <- -> ->])%res_bind_ok.
    apply IH in Hrest as [Hwr Hdr]; [|lia|done|lia].
    destruct (unpack_pack (sextets pre) rest (sextets_wf pre)) as [He Hwp]; [lia| |auto|].
    + by destruct (sextets pre) as [|? [|? [|? [|? [|]]]]].
    + split; [by apply Forall_app_2|]. rewrite He, H4, Hd. cbn [Nat.sub replicate app].
      rewrite <- Hdr, Z2Nat.inj_add, <- drop_drop, Hd by (try apply zlen_nonneg; lia).
      unfold zlen. rewrite Nat2Z.id, drop_app_length. rewrite (Hpre eq_refl) at 1. by rewrite Hn, app_nil_r.
  - intros [= <- [Hlo Hyes]%andb_prop Hend]. destruct padded; [|done]. destruct (Hpad eq_refl) as [H2 Hn].
    assert (Hpost : post = []).
    { apply (f_equal length) in Hd. rewrite length_drop, length_app in Hd. unfold zlen in *. destruct post; [done|].
      cbn in Hd. lia. }
    destruct (unpack_pack (sextets pre) [] (sextets_wf pre)) as [He Hwp]; [lia| |done|].
    + cbn [negb andb Z.eqb Pos.eqb DO_TERM_BUFFER DO_TERM_ANY] in Hlo. by bool_inv.
    + split; [done|]. rewrite app_nil_r in He. rewrite He, Hd, Hpost, app_nil_r.
      cbn [unpack pads fmap list_fmap app]. rewrite app_nil_r, <- Hn. apply Hpre, eq_refl.
Qed.

Lemma unpack_length r : (length r <= length (unpack r))%nat.
Proof. revert r. apply block_ind; cbn; lia. Qed.

Lemma DecodeFromArray_strict data buf :
  DecodeFromArray data DO_STRICT buf =
    ('(result, success, pos) ← decode_loop (length data) DO_PARSE_STRICT DO_PAD_YES DO_TERM_BUFFER data 0 buf;
     Ok (success && negb (negb (pos =? zlen data)), result, pos)).
Proof. by rewrite DecodeFromArray_unfold. Qed.

(** The room [EncodeFromArray] makes in [result] is what it writes. *)
Lemma zlen_EncodeFromArray r : zlen (EncodeFromArray r) = (zlen r + 2) / 3 * 4.
Proof.
  revert r. apply block_ind; [done|done|done|]. intros x y z l IH.
  cbn [EncodeFromArray]. rewrite !zlen_cons, IH. lia.
Qed.

(** A text of alphabet and white space, then [tail] with pads: all its sextets
    are read when white space is allowed. *)
Lemma Decode_text flags body tail :
  valid_flags flags = true -> Z.land flags DO_PARSE_MASK = DO_PARSE_WHITE ->
  Forall (fun ch => decode_char ch < 64 \/ decode_char ch = sp) body -> sextets tail = [] ->
  Decode (body ++ tail) flags = Ok (pack (sextets body)).
Proof.
  intros Hv Hwhite Hbody Htail. unfold Decode. rewrite (DecodeFromArray_unfold _ _ _ Hv).
  set (data := body ++ tail).
  destruct (decode_loop_spec (length data) (Z.land flags 3) (Z.land flags 12) (Z.land flags 48) data 0 [0; 0; 0; 0])
    as (success & n & pre & post & -> & Hd & _ & Hst); [pose proof (zlen_nonneg data); lia|done|unfold zlen; lia|].
  rewrite !bind_ok. do 2 f_equal. change (body ++ tail = pre ++ post) in Hd.
  assert (Hall : sextets pre = sextets (body ++ tail)); [|by rewrite Hall, sextets_app, Htail, app_nil_r].
  rewrite Hd, sextets_app. destruct Hst as [->|(ch & rest & -> & _ & Hsp & Hpad)]; [by rewrite app_nil_r|].
  apply app_eq_inv in Hd as [(k & Hb & Ht)|(k & -> & Ht)].
  - destruct k as [|ch' k]; cbn in Ht; [by rewrite Ht, Htail, app_nil_r|]. injection Ht as <- _.
    rewrite Hb in Hbody. apply Forall_app in Hbody as [Hpre Hch].
    assert (Hin : kPad ∈ pre).
    { inversion_clear Hch as [|? ? [Hl|Hl] _]; [auto|]. specialize (Hsp Hl).
      exfalso. change DO_PARSE_MASK with 3 in Hwhite. rewrite Hwhite in Hsp. done. }
    eapply list.Forall_forall in Hin; [|exact Hpre]. exfalso. by destruct Hin.
  - rewrite Ht, sextets_app in Htail. apply app_eq_nil in Htail as [_ ->]. by rewrite app_nil_r.
Qed.

(** ** Properties *)

(** What the encoder wrote, any decoder that allows pads reads back: with
    whichever rules for other characters and for the end. *)
Theorem encoding_decodes r flags buf :
  wf_bytes r -> valid_flags flags = true -> Z.land flags DO_PAD_MASK <> DO_PAD_NO -> length buf = 4%nat ->
  DecodeFromArray (EncodeFromArray r) flags buf = Ok (true, r, zlen (EncodeFromArray r)).
Proof.
  intros Hw Hv Hpad Hb. rewrite (DecodeFromArray_unfold _ _ _ Hv), (EncodeFromArray_spec r Hw).
  rewrite (decode_loop_encoded _ _ _ r) by (rewrite ?length_app, ?length_fmap;
    first [done | pose proof (unpack_length r); lia]).
  rewrite bind_ok. unfold zlen. rewrite length_app, length_fmap, Z.add_0_l, Nat2Z.inj_add, Z.eqb_refl, andb_false_r. done.
Qed.

(** The strict decoder accepts exactly what the encoder writes: there is one
    text for each string of bytes. *)
Theorem strict_is_canonical data buf r n :
  length buf = 4%nat ->
  DecodeFromArray data DO_STRICT buf = Ok (true, r, n) <->
    wf_bytes r /\ data = EncodeFromArray r /\ n = zlen data.
Proof.
  intros Hb. rewrite DecodeFromArray_strict. split.
  - intros ([[result ok] pos] & Hloop & [= [-> Hend]%andb_prop -> ->])%res_bind_ok. bool_inv. subst n.
    apply decode_loop_strict in Hloop as [Hw Hd]; [|pose proof (zlen_nonneg data); lia|done|unfold zlen; lia].
    by rewrite EncodeFromArray_spec.
  - intros (Hw & -> & ->). rewrite (EncodeFromArray_spec r Hw).
    rewrite (decode_loop_encoded _ _ _ r) by (rewrite ?length_app, ?length_fmap;
      first [done | pose proof (unpack_length r); lia]).
    rewrite bind_ok. unfold zlen. rewrite length_app, length_fmap, Z.add_0_l, Nat2Z.inj_add, Z.eqb_refl. done.
Qed.

Lemma strict_is_canonical_witness :
  length [0; 0; 0; 0] = 4%nat /\ DecodeFromArray (lit "Zg==") DO_STRICT [0; 0; 0; 0] = Ok (true, lit "f", 4).
Proof.
  split; [reflexivity|]. apply (strict_is_canonical (lit "Zg==") [0; 0; 0; 0] (lit "f") 4 eq_refl).
  split; [|split; reflexivity]. repeat constructor; unfold is_byte; vm_compute; intuition discriminate.
Defined.

(** The decoder terminates on any text within the rounds given, reports a
    position inside it, writes no more bytes than the text has room for, and
    what it writes are the bits of the alphabet's characters it consumed; it
    stops before the end only at a character the flags let it refuse. *)
Theorem decoder_total data flags buf :
  valid_flags flags = true -> length buf = 4%nat ->
  exists success n pre post,
    DecodeFromArray data flags buf = Ok (success, pack (sextets pre), n) /\ data = pre ++ post /\
    0 <= n <= zlen data /\ 4 * zlen (pack (sextets pre)) <= 3 * zlen data /\
    stopped (Z.land flags DO_PARSE_MASK) (kPad ∈ pre) post.
Proof.
  intros Hv Hb. rewrite (DecodeFromArray_unfold _ _ _ Hv).
  destruct (decode_loop_spec (length data) (Z.land flags 3) (Z.land flags 12) (Z.land flags 48) data 0 buf)
    as (success & n & pre & post & -> & Hd & Hn & Hany); [pose proof (zlen_nonneg data); lia|done|unfold zlen; lia|].
  change (drop (Z.to_nat 0) data) with data in Hd.
  rewrite bind_ok. do 2 eexists. exists pre, post. split_and!; [done|done|lia| | |].
  - rewrite Hd, zlen_app. pose proof (zlen_nonneg post). lia.
  - pose proof (pack_length (sextets pre)). pose proof (sextets_length pre).
    rewrite Hd, zlen_app. unfold zlen in *. lia.
  - done.
Qed.

Lemma decoder_total_witness :
  valid_flags DO_LAX = true /\
  exists success n pre post,
    DecodeFromArray (lit "Z m9*v") DO_LAX [0; 0; 0; 0] = Ok (success, pack (sextets pre), n) /\
    lit "Z m9*v" = pre ++ post /\ 0 <= n <= 6 /\ 4 * zlen (pack (sextets pre)) <= 18 /\
    stopped (Z.land DO_LAX DO_PARSE_MASK) (kPad ∈ pre) post.
Proof. split; [reflexivity|]. by apply (decoder_total (lit "Z m9*v") DO_LAX). Defined.
