(* ===== verification/TimeUtils.v ===== *)
(** * rtc_base/time_utils.cc: calendar times, clock units and wrapping timestamps

    The clock itself is an argument: [nanos] is what [TimeNanos] reads.  A
    [tm] is relative to 1900 and its months count from 0, as in C. *)
From S2P Require Import Prelude.
Local Open Scope Z_scope.

#[local] Ltac Zify.zify_post_hook ::= Z.to_euclidean_division_equations.

Definition kNumMillisecsPerSec : Z := 1000.
Definition kNumMicrosecsPerSec : Z := 1000000.
Definition kNumNanosecsPerSec : Z := 1000000000.
Definition kNumMicrosecsPerMillisec : Z := 1000.
Definition kNumNanosecsPerMillisec : Z := 1000000.
Definition kNumNanosecsPerMicrosec : Z := 1000.

Definition Time32 (nanos : Z) : Z := u32 (Z.quot nanos kNumNanosecsPerMillisec).
Definition TimeMillis (nanos : Z) : Z := Z.quot nanos kNumNanosecsPerMillisec.
Definition TimeMicros (nanos : Z) : Z := Z.quot nanos kNumNanosecsPerMicrosec.

Definition TimeAfter (nanos elapsed : Z) : res Z :=
  _ ← require (0 <=? elapsed) AssertFailed; Ok (TimeMillis nanos + elapsed).

(** The difference of two unsigned numbers, converted to a signed one. *)
Definition TimeDiff32 (later earlier : Z) : Z := i32 (u32 (later - earlier)).
Definition TimeDiff (later earlier : Z) : Z := later - earlier.

(** ** TimestampWrapAroundHandler *)
Record TimestampWrapAroundHandler := mkHandler { last_ts_ : Z; num_wrap_ : Z }.

Definition new_handler : TimestampWrapAroundHandler := mkHandler 0 (-1).

Definition Unwrap (h : TimestampWrapAroundHandler) (ts : Z) : Z * TimestampWrapAroundHandler :=
  if num_wrap_ h =? -1 then (ts, mkHandler ts 0)
  else
    let update wraps := (ts + wraps * 4294967296, mkHandler ts wraps) in
    if ts <? last_ts_ h then
      update (if (4026531840 <=? last_ts_ h) && (ts <? 268435455) then num_wrap_ h + 1 else num_wrap_ h)
    else if u32 (ts - last_ts_ h) >? 4026531840 then (ts + (num_wrap_ h - 1) * 4294967296, h)
    else update (num_wrap_ h).

(** ** Calendar time *)
Record tm := mkTm { tm_year : Z; tm_mon : Z; tm_mday : Z; tm_hour : Z; tm_min : Z; tm_sec : Z }.

Definition mdays : list Z := [31; 28; 31; 30; 31; 30; 31; 31; 30; 31; 30; 31].
Definition cumul_mdays : list Z := [0; 31; 59; 90; 120; 151; 181; 212; 243; 273; 304; 334].

Definition leap_year (year : Z) : bool :=
  (Z.rem year 4 =? 0) && (negb (Z.rem year 100 =? 0) || (Z.rem year 400 =? 0)).

(** [mdays[month]], [cumul_mdays[month]]: after the test of the month. *)
Definition table (t : list Z) (month : Z) : Z := default 0 (t !! Z.to_nat month).

Definition TmToSeconds (t : tm) : Z :=
  let year := tm_year t + 1900 in
  let month := tm_mon t in
  let day := tm_mday t - 1 in
  let hour := tm_hour t in
  let min := tm_min t in
  let sec := tm_sec t in
  let expiry_in_leap_year := leap_year year in
  if year <? 1970 then -1
  else if (month <? 0) || (month >? 11) then -1
  else if (day <? 0) || (day >=? table mdays month + (if expiry_in_leap_year && (month =? 2 - 1) then 1 else 0)) then -1
  else if (hour <? 0) || (hour >? 23) then -1
  else if (min <? 0) || (min >? 59) then -1
  else if (sec <? 0) || (sec >? 59) then -1
  else
    let day := day + table cumul_mdays month in
    let day := day + ((Z.quot year 4 - Z.quot 1970 4) - (Z.quot year 100 - Z.quot 1970 100)
                      + (Z.quot year 400 - Z.quot 1970 400)) in
    let day := if expiry_in_leap_year && (month <=? 2 - 1) then day - 1 else day in
    ((((year - 1970) * 365 + day) * 24 + hour) * 60 + min) * 60 + sec.

(** ** Reference: counting days

    [days_before y m] counts the days of the years from 1970 and of the months
    of the year one by one. *)
Definition is_leap (y : Z) : Prop := y mod 4 = 0 /\ (y mod 100 <> 0 \/ y mod 400 = 0).

#[export] Instance is_leap_dec y : Decision (is_leap y).
Proof. unfold is_leap. apply _. Defined.

Definition days_of_year (y : Z) : Z := if decide (is_leap y) then 366 else 365.
Definition days_of_month (y m : Z) : Z :=
  if decide (m = 1 /\ is_leap y) then 29 else default 0 (mdays !! Z.to_nat m).

Definition sum (l : list Z) : Z := foldr Z.add 0 l.

Definition days_before (y m : Z) : Z :=
  sum (days_of_year <$> seqZ 1970 (y - 1970)) + sum (days_of_month y <$> seqZ 0 m).

(** A date of the calendar, and a time of the day. *)
Definition valid_tm (t : tm) : Prop :=
  1970 <= tm_year t + 1900 /\ 0 <= tm_mon t <= 11 /\
  1 <= tm_mday t <= days_of_month (tm_year t + 1900) (tm_mon t) /\
  0 <= tm_hour t <= 23 /\ 0 <= tm_min t <= 59 /\ 0 <= tm_sec t <= 59.

#[export] Instance valid_tm_dec t : Decision (valid_tm t).
Proof. unfold valid_tm. apply _. Defined.

Definition seconds_since_epoch (t : tm) : Z :=
  (days_before (tm_year t + 1900) (tm_mon t) + (tm_mday t - 1)) * 86400
  + tm_hour t * 3600 + tm_min t * 60 + tm_sec t.

Example one_day : TmToSeconds (mkTm 70 0 2 0 0 0) = 86400.
Proof. reflexivity. Qed.
Example leap_day : TmToSeconds (mkTm 100 1 29 23 59 59) = 951868799.
Proof. reflexivity. Qed.

Lemma sum_app l k : sum (l ++ k) = sum l + sum k.
Proof. unfold sum. induction l as [|x l IH]; [done|]. cbn. lia. Qed.

Lemma leap_year_spec y : 0 <= y -> leap_year y = bool_decide (is_leap y).
Proof.
  intros Hy. unfold leap_year. rewrite !Z.rem_mod_nonneg by lia.
  apply eq_true_iff_eq. rewrite bool_decide_eq_true. unfold is_leap.
  by rewrite andb_true_iff, orb_true_iff, negb_true_iff, !Z.eqb_eq, Z.eqb_neq.
Qed.

Lemma days_of_years y :
  1970 <= y ->
  sum (days_of_year <$> seqZ 1970 (y - 1970)) =
    (y - 1970) * 365 + (((y - 1) / 4 - 492) - ((y - 1) / 100 - 19) + ((y - 1) / 400 - 4)).
Proof.
  intros Hy. rewrite <- (Z2Nat.id (y - 1970)) by lia.
  assert (Hn : forall n, sum (days_of_year <$> seqZ 1970 (Z.of_nat n)) =
    Z.of_nat n * 365 + (((Z.of_nat n + 1969) / 4 - 492) - ((Z.of_nat n + 1969) / 100 - 19) + ((Z.of_nat n + 1969) / 400 - 4))).
  { induction n as [|n IH]; [reflexivity|].
    rewrite seqZ_S, fmap_app, sum_app, IH. cbn [fmap list_fmap sum foldr].
    unfold days_of_year, is_leap. case_decide; lia. }
  rewrite Hn, Z2Nat.id by lia. do 2 f_equal; lia.
Qed.

Lemma days_of_months y m :
  0 <= m <= 11 ->
  sum (days_of_month y <$> seqZ 0 m) = table cumul_mdays m + (if bool_decide (is_leap y) && (2 <=? m) then 1 else 0).
Proof.
  intros Hm. unfold days_of_month, table.
  assert (Hc : m ∈ seqZ 0 12) by (apply elem_of_seqZ; lia).
  destruct (decide (is_leap y)) as [Hl|Hl]; [rewrite bool_decide_true by done|rewrite bool_decide_false by done].
  - rewrite (list_fmap_ext _ (fun m => if decide (m = 1) then 29 else default 0 (mdays !! Z.to_nat m))).
    + repeat (apply list.elem_of_cons in Hc as [->|Hc]; [reflexivity|]). by apply not_elem_of_nil in Hc.
    + intros i x _. by repeat case_decide; try tauto.
  - rewrite (list_fmap_ext _ (fun m => default 0 (mdays !! Z.to_nat m))).
    + repeat (apply list.elem_of_cons in Hc as [->|Hc]; [reflexivity|]). by apply not_elem_of_nil in Hc.
    + intros i x _. by repeat case_decide; try tauto.
Qed.

Lemma leap_days y :
  y / 4 - y / 100 + y / 400 =
    (y - 1) / 4 - (y - 1) / 100 + (y - 1) / 400 + (if bool_decide (is_leap y) then 1 else 0).
Proof. unfold is_leap. case_bool_decide; lia. Qed.

Lemma TmToSeconds_spec t :
  TmToSeconds t = if decide (valid_tm t) then seconds_since_epoch t else -1.
Proof.
  assert (Hv : valid_tm t <-> 1970 <= tm_year t + 1900 /\ 0 <= tm_mon t <= 11 /\
    1 <= tm_mday t <= days_of_month (tm_year t + 1900) (tm_mon t) /\
    0 <= tm_hour t <= 23 /\ 0 <= tm_min t <= 59 /\ 0 <= tm_sec t <= 59) by done.
  unfold TmToSeconds, seconds_since_epoch, days_before. cbv zeta.
  set (y := tm_year t + 1900) in *. destruct (Z.ltb_spec y 1970).
  { rewrite decide_False; [done|rewrite Hv; lia]. }
  rewrite leap_year_spec by lia.
  destruct ((tm_mon t <? 0) || (tm_mon t >? 11)) eqn:Hm.
  { rewrite decide_False; [done|rewrite Hv; lia]. }
  assert (Hd : table mdays (tm_mon t) + (if bool_decide (is_leap y) && (tm_mon t =? 2 - 1) then 1 else 0) =
    days_of_month y (tm_mon t)).
  { unfold table, days_of_month. destruct (Z.eqb_spec (tm_mon t) (2 - 1)) as [->|Hne].
    - destruct (decide (is_leap y)).
      + by rewrite bool_decide_true, decide_True by done.
      + rewrite bool_decide_false, decide_False by tauto. done.
    - rewrite andb_false_r, Z.add_0_r, decide_False by tauto. done. }
  rewrite Hd. rewrite days_of_years, days_of_months by lia.
  rewrite !Z.quot_div_nonneg by lia. change (1970 / 4) with 492. change (1970 / 100) with 19. change (1970 / 400) with 4.
  set (dm := days_of_month y (tm_mon t)) in *. clearbody dm. clear Hd.
  destruct ((tm_mday t - 1 <? 0) || (tm_mday t - 1 >=? dm)) eqn:Hday; [rewrite decide_False; [done|rewrite Hv; lia]|].
  destruct ((tm_hour t <? 0) || (tm_hour t >? 23)) eqn:Hhour; [rewrite decide_False; [done|rewrite Hv; lia]|].
  destruct ((tm_min t <? 0) || (tm_min t >? 59)) eqn:Hmin; [rewrite decide_False; [done|rewrite Hv; lia]|].
  destruct ((tm_sec t <? 0) || (tm_sec t >? 59)) eqn:Hsec; [rewrite decide_False; [done|rewrite Hv; lia]|].
  rewrite decide_True by (apply Hv; lia). pose proof (leap_days y) as Hl.
  destruct (bool_decide (is_leap y)), (Z.leb_spec (tm_mon t) (2 - 1)), (Z.leb_spec 2 (tm_mon t)); cbn [andb]; lia.
Qed.

(** ** The wrap-around handler

    The handler has seen [x]: its state is [x] split at 32 bits. *)
Definition tracks (h : TimestampWrapAroundHandler) (x : Z) : Prop :=
  h = mkHandler (x mod 4294967296) (x / 4294967296) /\ 0 <= x.

(** A counter that moves by less than 2^28 either way is recovered from its
    low 32 bits; after a step back across a multiple of 2^32 the handler still
    refers to the value before. *)
Lemma handler_recovers h x y :
  tracks h x -> 0 <= y -> -268435456 < y - x < 268435456 ->
  fst (Unwrap h (u32 y)) = y /\ (tracks (snd (Unwrap h (u32 y))) y \/ tracks (snd (Unwrap h (u32 y))) x).
Proof.
  intros [-> Hx] Hy Hd. unfold Unwrap, tracks, u32. cbn [num_wrap_ last_ts_].
  replace (x / 4294967296 =? -1) with false by lia.
  destruct (Z.ltb_spec (y mod 4294967296) (x mod 4294967296)).
  - destruct ((4026531840 <=? x mod 4294967296) && (y mod 4294967296 <? 268435455)) eqn:Hw; cbn [fst snd].
    + split; [lia|]. left. split; [f_equal; lia|done].
    + split; [lia|]. left. split; [f_equal; lia|done].
  - destruct ((y mod 4294967296 - x mod 4294967296) mod 4294967296 >? 4026531840) eqn:Hw; cbn [fst snd].
    + split; [lia|]. right. done.
    + split; [lia|]. left. split; [f_equal; lia|done].
Qed.

(** ** From seconds to the calendar

    The inverse of the count: days are taken off year by year and month by
    month. *)
Fixpoint take_years (fuel : nat) (y d : Z) : Z * Z :=
  match fuel with
  | O => (y, d)
  | S fuel => if d <? days_of_year y then (y, d) else take_years fuel (y + 1) (d - days_of_year y)
  end.

Fixpoint take_months (fuel : nat) (y m d : Z) : Z * Z :=
  match fuel with
  | O => (m, d)
  | S fuel => if d <? days_of_month y m then (m, d) else take_months fuel y (m + 1) (d - days_of_month y m)
  end.

Definition tm_of_seconds (t : Z) : tm :=
  let '(y, d) := take_years (Z.to_nat (t / 86400)) 1970 (t / 86400) in
  let '(m, d) := take_months 11 y 0 d in
  mkTm (y - 1900) m (d + 1) (t mod 86400 / 3600) (t mod 3600 / 60) (t mod 60).

Lemma days_of_year_pos y : 365 <= days_of_year y <= 366.
Proof. unfold days_of_year. case_decide; lia. Qed.

Lemma take_years_spec fuel y d y' d' :
  1970 <= y -> 0 <= d <= Z.of_nat fuel -> take_years fuel y d = (y', d') ->
  y <= y' /\ 0 <= d' < days_of_year y' /\
  sum (days_of_year <$> seqZ 1970 (y' - 1970)) + d' = sum (days_of_year <$> seqZ 1970 (y - 1970)) + d.
Proof.
  revert y d. induction fuel as [|fuel IH]; intros y d Hy Hd Ht; cbn [take_years] in Ht;
    pose proof (days_of_year_pos y).
  - injection Ht as <- <-. lia.
  - destruct (Z.ltb_spec d (days_of_year y)); [injection Ht as <- <-; lia|].
    apply IH in Ht as (Hy' & Hd' & Hs); [|lia|lia]. split; [lia|]. split; [done|]. rewrite Hs.
    replace (y + 1 - 1970) with (Z.of_nat (S (Z.to_nat (y - 1970)))) by lia.
    rewrite seqZ_S, fmap_app, sum_app, Z2Nat.id by lia. cbn [fmap list_fmap]. unfold sum at 2. cbn [foldr].
    replace (1970 + (y - 1970)) with y by lia. lia.
Qed.

Lemma days_of_month_pos y m : 0 <= m <= 11 -> 28 <= days_of_month y m <= 31.
Proof.
  intros Hm. unfold days_of_month. case_decide; [lia|].
  assert (Hc : m ∈ seqZ 0 12) by (apply elem_of_seqZ; lia).
  repeat (apply list.elem_of_cons in Hc as [->|Hc]; [by vm_compute; split|]). by apply not_elem_of_nil in Hc.
Qed.

Lemma sum_months_S y m : 0 <= m ->
  sum (days_of_month y <$> seqZ 0 (m + 1)) = sum (days_of_month y <$> seqZ 0 m) + days_of_month y m.
Proof.
  intros Hm. replace (m + 1) with (Z.of_nat (S (Z.to_nat m))) by lia.
  rewrite seqZ_S, fmap_app, sum_app, Z2Nat.id by lia. cbn [fmap list_fmap]. unfold sum at 2. cbn [foldr].
  replace (0 + m) with m by lia. lia.
Qed.

Lemma take_months_spec fuel y m d m' d' :
  0 <= m -> m + Z.of_nat fuel = 11 -> 0 <= d ->
  sum (days_of_month y <$> seqZ 0 m) + d < days_of_year y ->
  take_months fuel y m d = (m', d') ->
  m <= m' <= 11 /\ 0 <= d' < days_of_month y m' /\
  sum (days_of_month y <$> seqZ 0 m') + d' = sum (days_of_month y <$> seqZ 0 m) + d.
Proof.
  revert m d. induction fuel as [|fuel IH]; intros m d Hm Hf Hd Hsum Ht; cbn [take_months] in Ht.
  - injection Ht as <- <-. replace m with 11 in * by lia.
    assert (Hy : sum (days_of_month y <$> seqZ 0 (11 + 1)) = days_of_year y).
    { rewrite sum_months_S by lia. rewrite days_of_months by lia. unfold days_of_year, days_of_month, table.
      rewrite (decide_False (P := 11 = 1 /\ is_leap y)) by lia. cbn.
      case_bool_decide; case_decide; cbn; tauto || lia. }
    rewrite sum_months_S in Hy by lia. lia.
  - destruct (Z.ltb_spec d (days_of_month y m)); [injection Ht as <- <-; lia|].
    apply IH in Ht as (Hm' & Hd' & Hs); [|lia|lia|lia|rewrite sum_months_S by lia; lia].
    rewrite sum_months_S in Hs by lia. lia.
Qed.

Lemma tm_of_seconds_spec t :
  0 <= t -> valid_tm (tm_of_seconds t) /\ seconds_since_epoch (tm_of_seconds t) = t.
Proof.
  intros Ht. unfold tm_of_seconds.
  destruct (take_years _ _ _) as [y d] eqn:Hy. apply take_years_spec in Hy as (Hy & Hd & Hs); [|lia|lia].
  destruct (take_months _ _ _ _) as [m d2] eqn:Hm.
  apply take_months_spec in Hm as (Hm & Hd2 & Hs2); [|lia|lia|lia|change (sum _) with 0; lia].
  change (sum (days_of_year <$> seqZ 1970 (1970 - 1970))) with 0 in Hs.
  change (sum (days_of_month y <$> seqZ 0 0)) with 0 in Hs2.
  unfold valid_tm, seconds_since_epoch, days_before. cbn [tm_year tm_mon tm_mday tm_hour tm_min tm_sec].
  replace (y - 1900 + 1900) with y by lia. split; [lia|].
  replace (d2 + 1 - 1) with d2 by lia. lia.
Qed.

(** The end of the year 9999. *)
Lemma tm_of_seconds_year t : 0 <= t < 253402300800 -> 1970 <= tm_year (tm_of_seconds t) + 1900 <= 9999.
Proof.
  intros Ht. destruct (tm_of_seconds_spec t) as [(Hy & Hm & Hd & Hh & Hmi & Hs) Hsec]; [lia|].
  split; [done|]. destruct (Z.le_gt_cases (tm_year (tm_of_seconds t) + 1900) 9999); [done|].
  unfold seconds_since_epoch, days_before in Hsec. rewrite days_of_years, days_of_months in Hsec by lia.
  assert (Hc : 0 <= table cumul_mdays (tm_mon (tm_of_seconds t))).
  { unfold table. destruct (cumul_mdays !! _) as [v|] eqn:Hv; [|done]. apply list_elem_of_lookup_2 in Hv.
    repeat (apply list.elem_of_cons in Hv as [->|Hv]; [done|]). by apply not_elem_of_nil in Hv. }
  set (y := tm_year (tm_of_seconds t) + 1900) in *.
  assert (2932897 <= (y - 1970) * 365 + ((y - 1) / 4 - 492 - ((y - 1) / 100 - 19) + ((y - 1) / 400 - 4))) by lia.
  case_match; lia.
Qed.

(** [TmToSeconds] counts the seconds since 1970 of every calendar time from
    then on, leap days included, and refuses everything else; every second is
    the count of one calendar time. *)
Theorem TmToSeconds_counts t n :
  TmToSeconds t = (if decide (valid_tm t) then seconds_since_epoch t else -1) /\
  (0 <= n -> TmToSeconds (tm_of_seconds n) = n).
Proof.
  split; [apply TmToSeconds_spec|]. intros [Hv Hs]%tm_of_seconds_spec.
  by rewrite TmToSeconds_spec, decide_True.
Qed.
