(* ===== verification/SslIdentity.v ===== *)
(** * rtc_base/ssl_identity.cc: ASN.1 times, key parameters and PEM

    A PEM text is a header line, the Base64 of the data in lines of 64
    characters, and a trailer line. *)
From S2P Require Import Prelude.
From S2P Require Import Base64.
From S2P Require Import TimeUtils.
Local Open Scope Z_scope.

#[local] Ltac Zify.zify_post_hook ::= Z.to_euclidean_division_equations.

(** ** ASN.1 times *)

(** The value read, and the rest of the memory at [*pp]: what follows the
    string is not readable. *)
Fixpoint ASN1ReadInt_loop (n : nat) (p : bytes) (x : Z) : res (Z * bytes) :=
  match n with
  | O => Ok (x, p)
  | S n =>
      match p with
      | [] => Fail OutOfBounds
      | c :: p => ASN1ReadInt_loop n p (10 * x + c - chr "0")
      end
  end.

(** [*np] is unsigned. *)
Definition ASN1ReadInt (p : bytes) (np n : Z) : res (Z * bytes * Z) :=
  '(x, p) ← ASN1ReadInt_loop (Z.to_nat n) p 0; Ok (x, p, u64 (np - n)).

(** [strspn(s, "0123456789")]. *)
Fixpoint digit_span (s : bytes) : Z :=
  match s with [] => 0 | c :: s => if is_digit c then 1 + digit_span s else 0 end.

Definition ASN1TimeToSec (s : bytes) (long_format : bool) : res Z :=
  let length := zlen s in
  if (length =? 0) || negb (default 0 (s !! Z.to_nat (length - 1)) =? chr "Z") then Ok (-1)
  else if negb (digit_span s + 1 =? length) then Ok (-1)
  else if long_format && (length <? 11) then Ok (-1)
  else if negb long_format && (length <? 9) then Ok (-1)
  else
    '(year, s, bytes_left) ←
      (if long_format
       then '(year, s, np) ← ASN1ReadInt s length 4; Ok (year - 1900, s, np)
       else '(year, s, np) ← ASN1ReadInt s length 2;
            Ok (if year <? 50 then year + 100 else year, s, np));
    '(mon, s, bytes_left) ← ASN1ReadInt s bytes_left 2;
    '(mday, s, bytes_left) ← ASN1ReadInt s bytes_left 2;
    '(hour, s, bytes_left) ← ASN1ReadInt s bytes_left 2;
    '(min, s, bytes_left) ← ASN1ReadInt s bytes_left 2;
    '(sec, s, bytes_left) ← ASN1ReadInt s bytes_left 2;
    if negb (bytes_left =? 1) then Ok (-1)
    else Ok (TmToSeconds (mkTm year (mon - 1) mday hour min sec)).

(** ** KeyParams *)
Inductive KeyType := KT_RSA | KT_ECDSA | KT_LAST.
Definition KT_DEFAULT : KeyType := KT_ECDSA.
Inductive ECCurve := EC_NIST_P256 | EC_LAST.

#[export] Instance KeyType_eq_dec : EqDecision KeyType.
Proof. solve_decision. Defined.
#[export] Instance ECCurve_eq_dec : EqDecision ECCurve.
Proof. solve_decision. Defined.

Definition kRsaDefaultModSize : Z := 1024.
Definition kRsaDefaultExponent : Z := 65537.
Definition kRsaMinModSize : Z := 1024.
Definition kRsaMaxModSize : Z := 8192.
Definition kDefaultCertificateLifetimeInSeconds : Z := 60 * 60 * 24 * 30.
Definition kCertificateWindowInSeconds : Z := - (60 * 60 * 24).

Record RSAParams := mkRSAParams { mod_size : Z; pub_exp : Z }.

(** The union [params_]: the member last written. *)
Inductive key_union := rsa (p : RSAParams) | curve (c : ECCurve).
Record KeyParams := mkKeyParams { type_ : KeyType; params_ : key_union }.

(** The constructor; any other type is not reached. *)
Definition new_KeyParams (key_type : KeyType) : res KeyParams :=
  match key_type with
  | KT_ECDSA => Ok (mkKeyParams KT_ECDSA (curve EC_NIST_P256))
  | KT_RSA => Ok (mkKeyParams KT_RSA (rsa (mkRSAParams kRsaDefaultModSize kRsaDefaultExponent)))
  | KT_LAST => Fail AssertFailed
  end.

(** The fields are unsigned. *)
Definition RSA (mod_size pub_exp : Z) : res KeyParams :=
  kt ← new_KeyParams KT_RSA; Ok (mkKeyParams (type_ kt) (rsa (mkRSAParams (u32 mod_size) (u32 pub_exp)))).

Definition ECDSA (c : ECCurve) : res KeyParams :=
  kt ← new_KeyParams KT_ECDSA; Ok (mkKeyParams (type_ kt) (curve c)).

(** A member of the union read under the other type would be uninitialised. *)
Definition union_rsa (k : KeyParams) : res RSAParams :=
  match params_ k with rsa p => Ok p | curve _ => Fail Uninitialized end.
Definition union_curve (k : KeyParams) : res ECCurve :=
  match params_ k with curve c => Ok c | rsa _ => Fail Uninitialized end.

Definition IsValid (k : KeyParams) : res bool :=
  if decide (type_ k = KT_RSA) then
    p ← union_rsa k;
    Ok ((mod_size p >=? kRsaMinModSize) && (mod_size p <=? kRsaMaxModSize) && (pub_exp p >? mod_size p))
  else if decide (type_ k = KT_ECDSA) then
    c ← union_curve k; Ok (bool_decide (c = EC_NIST_P256))
  else Ok false.

Definition rsa_params (k : KeyParams) : res RSAParams :=
  _ ← require (bool_decide (type_ k = KT_RSA)) AssertFailed; union_rsa k.
Definition ec_curve (k : KeyParams) : res ECCurve :=
  _ ← require (bool_decide (type_ k = KT_ECDSA)) AssertFailed; union_curve k.

(** ** PEM *)
Definition kPemTypeCertificate : bytes := lit "CERTIFICATE".
Definition kPemTypeRsaPrivateKey : bytes := lit "RSA PRIVATE KEY".
Definition kPemTypeEcPrivateKey : bytes := lit "EC PRIVATE KEY".

Definition begin_line (pem_type : bytes) : bytes := lit "-----BEGIN " ++ pem_type ++ lit "-----".
Definition end_line (pem_type : bytes) : bytes := lit "-----END " ++ pem_type ++ lit "-----".

(** The value returned and [*der].  The count given to [substr] is unsigned. *)
Definition PemToDer (pem_type pem_string : bytes) : res (option bytes) :=
  match find_from (begin_line pem_type) pem_string 0 with
  | None => Ok None
  | Some header =>
      match find_from [10] pem_string header with
      | None => Ok None
      | Some body =>
          match find_from (end_line pem_type) pem_string 0 with
          | None => Ok None
          | Some trailer =>
              inner ← substr pem_string (body + 1) (u64 (trailer - (body + 1)));
              der ← Decode inner (Z.lor DO_PARSE_WHITE (Z.lor DO_PAD_ANY DO_TERM_BUFFER));
              Ok (Some der)
          end
      end
  end.

Definition kChunkSize : Z := 64.

(** The loop over the chunks: [n] of them from [chunk_offset] on. *)
Fixpoint chunk_loop (n : nat) (b64_encoded : bytes) (chunk_offset : Z) : res bytes :=
  match n with
  | O => Ok []
  | S n =>
      line ← substr b64_encoded chunk_offset kChunkSize;
      rest ← chunk_loop n b64_encoded (chunk_offset + kChunkSize);
      Ok (line ++ [10] ++ rest)
  end.

Definition DerToPem (pem_type data : bytes) : res bytes :=
  let b64_encoded := EncodeFromArray data in
  let chunks := Z.quot (zlen b64_encoded + (kChunkSize - 1)) kChunkSize in
  body ← chunk_loop (Z.to_nat chunks) b64_encoded 0;
  Ok (begin_line pem_type ++ [10] ++ body ++ end_line pem_type ++ [10]).

Example utc_time :
  ASN1TimeToSec (lit "700101000001Z") false = Ok 1 /\ ASN1TimeToSec (lit "20000229235959Z") true = Ok 951868799 /\
  ASN1TimeToSec (lit "20010229235959Z") true = Ok (-1).
Proof. by vm_compute. Qed.

(** A time of ten digits, without the seconds: the tests of [bytes_left] let it
    through and the last number is read past its end. *)
Example short_time_read_past_end : ASN1TimeToSec (lit "7001010000Z") false = Fail OutOfBounds.
Proof. reflexivity. Qed.

(** Text that is not Base64 is cut short and reported as a success. *)
Example corrupt_pem_accepted :
  PemToDer kPemTypeCertificate (begin_line kPemTypeCertificate ++ [10] ++ lit "Zm9v*Zm9v" ++ [10]
    ++ end_line kPemTypeCertificate ++ [10]) = Ok (Some (lit "foo")).
Proof. vm_compute. reflexivity. Qed.

(** ** Reference for ASN.1 times: RFC 5280 *)

(** The value of a run of digits. *)
Definition value (ds : bytes) : Z := foldl (fun x c => 10 * x + c - chr "0") 0 ds.

Definition field (s : bytes) (off n : nat) : Z := value (take n (drop off s)).

(** The calendar time written in [s]. *)
Definition asn1_tm (s : bytes) (long_format : bool) : tm :=
  let w := if long_format then 4%nat else 2%nat in
  let yy := field s 0 w in
  mkTm (if long_format then yy - 1900 else if yy <? 50 then yy + 100 else yy)
    (field s w 2 - 1) (field s (w + 2) 2) (field s (w + 4) 2) (field s (w + 6) 2) (field s (w + 8) 2).

(** Digits, then Z. *)
Definition digits_Z (s : bytes) : bool :=
  match s !! pred (length s) with Some z => (z =? chr "Z") && (digit_span s + 1 =? zlen s) | None => false end.

Lemma ASN1ReadInt_loop_spec n p x :
  ASN1ReadInt_loop n p x =
    if (n <=? length p)%nat then Ok (foldl (fun x c => 10 * x + c - chr "0") x (take n p), drop n p)
    else Fail OutOfBounds.
Proof.
  revert p x. induction n as [|n IH]; intros [|c p] x; cbn [ASN1ReadInt_loop]; try done.
Qed.

Lemma ASN1ReadInt_spec s (off n : nat) np :
  (off <= length s)%nat ->
  ASN1ReadInt (drop off s) np (Z.of_nat n) =
    if (off + n <=? length s)%nat then Ok (field s off n, drop (off + n) s, u64 (np - Z.of_nat n))
    else Fail OutOfBounds.
Proof.
  intros Hoff. unfold ASN1ReadInt. rewrite Nat2Z.id, ASN1ReadInt_loop_spec, length_drop.
  destruct (Nat.leb_spec n (length s - off)), (Nat.leb_spec (off + n) (length s)); try lia; [|done].
  rewrite bind_ok, drop_drop. done.
Qed.

Lemma read_ok s (off n : nat) np :
  (off + n <= length s)%nat ->
  ASN1ReadInt (drop off s) np (Z.of_nat n) = Ok (field s off n, drop (off + n) s, u64 (np - Z.of_nat n)).
Proof. intros H. rewrite ASN1ReadInt_spec by lia. by rewrite (proj2 (Nat.leb_le _ _) H). Qed.

Lemma read_fails s (off n : nat) np :
  (off <= length s < off + n)%nat -> ASN1ReadInt (drop off s) np (Z.of_nat n) = Fail OutOfBounds.
Proof. intros H. rewrite ASN1ReadInt_spec by lia. by rewrite (proj2 (Nat.leb_gt _ _)) by lia. Qed.

Ltac read2 off :=
  first [rewrite (read_ok _ off 2) by lia | rewrite (read_fails _ off 2) by lia];
  rewrite ?bind_ok; cbn [Nat.add].

Lemma digits_Z_spec s :
  (zlen s =? 0) || negb (default 0 (s !! Z.to_nat (zlen s - 1)) =? chr "Z") || negb (digit_span s + 1 =? zlen s)
    = negb (digits_Z s).
Proof.
  unfold digits_Z, zlen. destruct s as [|c s]; [done|].
  replace (Z.to_nat (Z.of_nat (length (c :: s)) - 1)) with (pred (length (c :: s))) by (cbn [length]; lia).
  destruct (lookup_lt_is_Some_2 (c :: s) (pred (length (c :: s)))) as [z ->]; [cbn; lia|]. cbn [default].
  replace (Z.of_nat (length (c :: s)) =? 0) with false by (symmetry; apply Z.eqb_neq; cbn [length]; lia).
  by rewrite negb_andb.
Qed.

Lemma ASN1TimeToSec_cases s (long_format : bool) :
  let w := if long_format then 14 else 12 in
  zlen s < 18446744073709551616 ->
  ASN1TimeToSec s long_format =
    if negb (digits_Z s) || (zlen s <? w - 3) then Ok (-1)
    else if zlen s <? w then Fail OutOfBounds
    else Ok (if zlen s =? w + 1 then TmToSeconds (asn1_tm s long_format) else -1).
Proof.
  intros w Hlen. unfold ASN1TimeToSec. rewrite <- digits_Z_spec. cbv zeta.
  destruct ((zlen s =? 0) || _) eqn:H1; [by rewrite orb_true_l|]. rewrite !orb_false_l.
  destruct (negb (digit_span s + 1 =? zlen s)) eqn:H2; [done|]. cbn [orb].
  change (ASN1ReadInt s) with (ASN1ReadInt (drop 0 s)). change 2 with (Z.of_nat 2). unfold zlen in *.
  destruct long_format; cbn [andb negb]; subst w.
  - change (14 - 3) with 11. destruct (Z.ltb_spec (Z.of_nat (length s)) 11); [done|].
    change 4 with (Z.of_nat 4). rewrite (read_ok s 0 4) by lia. rewrite !bind_ok. cbn [Nat.add].
    read2 4%nat. read2 6%nat. read2 8%nat.
    destruct (Z.ltb_spec (Z.of_nat (length s)) 14).
    + destruct (decide (length s = 11%nat)); read2 10%nat; [done|]. by read2 12%nat.
    + read2 10%nat. read2 12%nat. unfold u64. change (Z.of_nat 4) with 4. change (Z.of_nat 2) with 2.
      destruct (Z.eqb_spec (Z.of_nat (length s)) (14 + 1)) as [->|Hne]; [done|].
      case_match eqn:Hb; [done|]. bool_inv. lia.
  - change (12 - 3) with 9. destruct (Z.ltb_spec (Z.of_nat (length s)) 9); [done|].
    read2 0%nat. read2 2%nat. read2 4%nat. read2 6%nat.
    destruct (Z.ltb_spec (Z.of_nat (length s)) 12).
    + destruct (decide (length s = 9%nat)); read2 8%nat; [done|]. by read2 10%nat.
    + read2 8%nat. read2 10%nat. unfold u64. change (Z.of_nat 2) with 2.
      destruct (Z.eqb_spec (Z.of_nat (length s)) (12 + 1)) as [->|Hne]; [done|].
      case_match eqn:Hb; [done|]. bool_inv. lia.
Qed.

(** A calendar time as RFC 5280 writes it, the year with two digits or four. *)
Definition two (n : Z) : bytes := [chr "0" + n / 10; chr "0" + n mod 10].

Definition asn1_text (long_format : bool) (t : tm) : bytes :=
  (if long_format then two ((tm_year t + 1900) / 100) ++ two ((tm_year t + 1900) mod 100) else two (tm_year t mod 100))
  ++ two (tm_mon t + 1) ++ two (tm_mday t) ++ two (tm_hour t) ++ two (tm_min t) ++ two (tm_sec t) ++ [chr "Z"].

Lemma two_digits n : 0 <= n <= 99 -> forallb is_digit (two n) = true.
Proof.
  intros Hn. change (chr "0") with 48. unfold two. change (chr "0") with 48.
  cbn [forallb]. unfold is_digit. rewrite !andb_true_iff, !Z.leb_le. lia.
Qed.

Lemma digit_span_app a b : forallb is_digit a = true -> digit_span (a ++ b) = zlen a + digit_span b.
Proof.
  induction a as [|c a IH]; [done|]. cbn [forallb app digit_span]. intros [-> Ha]%andb_prop.
  rewrite (IH Ha), zlen_cons. lia.
Qed.

Lemma value_two n : 0 <= n <= 99 -> value (two n) = n.
Proof. intros Hn. unfold value, two. change (chr "0") with 48. cbn [foldl]. lia. Qed.

Lemma value_four a b : 0 <= a <= 99 -> 0 <= b <= 99 -> value (two a ++ two b) = 100 * a + b.
Proof. intros Ha Hb. unfold value, two. change (chr "0") with 48. cbn [foldl app]. lia. Qed.

(** The text of a calendar time is read back. *)
Lemma asn1_text_reads (long_format : bool) t :
  valid_tm t -> tm_year t + 1900 <= (if long_format then 9999 else 2049) ->
  ASN1TimeToSec (asn1_text long_format t) long_format = Ok (seconds_since_epoch t).
Proof.
  intros Hv Hy. pose proof (days_of_month_pos (tm_year t + 1900) (tm_mon t)).
  pose proof Hv as (H1' & H2' & H3' & H4' & H5' & H6').
  assert (Hlen : zlen (asn1_text long_format t) = if long_format then 15 else 13)
    by (by destruct long_format).
  rewrite ASN1TimeToSec_cases by (rewrite Hlen; by destruct long_format).
  assert (Hd : digits_Z (asn1_text long_format t) = true).
  { assert (Hs : digit_span (asn1_text long_format t) + 1 = zlen (asn1_text long_format t)).
    { unfold asn1_text. rewrite !zlen_app. change (zlen [chr "Z"]) with 1.
      destruct long_format; rewrite <- ?app_assoc, !digit_span_app by (apply two_digits; lia);
        change (digit_span [chr "Z"]) with 0; rewrite ?zlen_app; lia. }
    unfold digits_Z. rewrite Hs, Z.eqb_refl. by destruct long_format. }
  rewrite Hd, Hlen. cbn [negb orb].
  assert (Ht : asn1_tm (asn1_text long_format t) long_format = t).
  { destruct t as [y mo d h mi s]. cbn [tm_year tm_mon tm_mday tm_hour tm_min tm_sec] in *.
    assert (Hm : mo + 1 - 1 = mo) by lia.
    unfold asn1_tm, field. destruct long_format; f_equal.
    - transitivity (value (two ((y + 1900) / 100) ++ two ((y + 1900) mod 100)) - 1900); [reflexivity|].
      rewrite value_four by lia. lia.
    - transitivity (value (two (mo + 1)) - 1); [reflexivity|]. by rewrite value_two by lia.
    - by apply (value_two d); lia.
    - by apply (value_two h); lia.
    - by apply (value_two mi); lia.
    - by apply (value_two s); lia.
    - transitivity (let v := value (two (y mod 100)) in if v <? 50 then v + 100 else v); [reflexivity|].
      rewrite value_two by lia. cbv zeta. destruct (Z.ltb_spec (y mod 100) 50); lia.
    - transitivity (value (two (mo + 1)) - 1); [reflexivity|]. by rewrite value_two by lia.
    - by apply (value_two d); lia.
    - by apply (value_two h); lia.
    - by apply (value_two mi); lia.
    - by apply (value_two s); lia. }
  rewrite Ht, TmToSeconds_spec, decide_True by done. by destruct long_format.
Qed.

(** What [ASN1TimeToSec] does with every string: the time in the form of
    RFC 5280 is converted, other texts are refused, and a text short of that
    form but past the tests of its length is read past its end; a calendar time
    written in that form is read back. *)
Theorem asn1_time_spec s (long_format : bool) t :
  let w := if long_format then 14 else 12 in
  zlen s < 18446744073709551616 ->
  ASN1TimeToSec s long_format =
    (if negb (digits_Z s) || (zlen s <? w - 3) then Ok (-1)
     else if zlen s <? w then Fail OutOfBounds
     else Ok (if zlen s =? w + 1 then TmToSeconds (asn1_tm s long_format) else -1)) /\
  (valid_tm t -> tm_year t + 1900 <= (if long_format then 9999 else 2049) ->
   ASN1TimeToSec (asn1_text long_format t) long_format = Ok (seconds_since_epoch t)).
Proof. intros w Hs. split; [by apply ASN1TimeToSec_cases|apply asn1_text_reads]. Qed.

Lemma asn1_time_spec_witness :
  zlen (lit "491231235959Z") < 18446744073709551616 /\ ASN1TimeToSec (lit "491231235959Z") false = Ok 2524607999.
Proof.
  assert (H : zlen (lit "491231235959Z") < 18446744073709551616) by reflexivity.
  split; [exact H|]. rewrite (proj1 (asn1_time_spec (lit "491231235959Z") false (mkTm 70 0 1 0 0 0) H)).
  vm_compute. reflexivity.
Defined.

(** ** Key parameters *)

Lemma IsValid_total k kt : new_KeyParams kt = Ok k -> IsValid k = Ok true.
Proof. by destruct kt; intros [= <-]. Qed.

Lemma RSA_valid m e :
  (RSA m e ≫= IsValid) = Ok ((1024 <=? u32 m) && (u32 m <=? 8192) && (u32 m <? u32 e)).
Proof. unfold IsValid. cbn -[Z.geb Z.leb Z.gtb Z.ltb u32]. by rewrite Z.geb_leb, Z.gtb_ltb. Qed.

(** ** PEM texts *)

Lemma sextets_part (y : bytes) n m : sextets y = [] -> sextets (take n (drop m y)) = [].
Proof.
  rewrite <- (take_drop m y) at 1. rewrite sextets_app. intros [_ H]%app_eq_nil.
  rewrite <- (take_drop n (drop m y)), sextets_app in H. by apply app_eq_nil in H as [H _].
Qed.

(** The lines of a text [x] of the alphabet and its pads [y]: the alphabet, with
    line ends, and then no more sextets. *)
Lemma chunk_loop_spec n x y off :
  Forall (fun c => decode_char c < 64) x -> sextets y = [] ->
  0 <= off -> (n <> 0%nat -> off + 64 * (Z.of_nat n - 1) <= zlen (x ++ y)) -> zlen (x ++ y) <= off + 64 * Z.of_nat n ->
  exists b1 b2, chunk_loop n (x ++ y) off = Ok (b1 ++ b2) /\
    Forall (fun c => decode_char c < 64 \/ decode_char c = sp) b1 /\
    sextets b1 = sextets (drop (Z.to_nat off) x) /\ sextets b2 = [] /\
    Forall (fun c => c = 10 \/ c ∈ x ++ y) (b1 ++ b2) /\ zlen (b1 ++ b2) <= 65 * Z.of_nat n.
Proof.
  intros Hx Hy. revert off. induction n as [|n IH]; intros off Hoff Hle Hge; cbn [chunk_loop].
  - exists [], []. rewrite drop_ge by (rewrite zlen_app in *; unfold zlen in *; lia). by repeat split.
  - unfold kChunkSize. rewrite substr_ok by lia. rewrite bind_ok.
    destruct (IH (off + 64)) as (b1 & b2 & -> & Hb1 & Hs1 & Hs2 & Hall & Hsize); [lia|lia|lia|].
    set (line := take _ _). rewrite bind_ok.
    assert (Hline : Forall (fun c => c = 10 \/ c ∈ x ++ y) line).
    { apply Forall_take, Forall_drop, list.Forall_forall. auto. }
    rewrite Z2Nat.inj_add in Hs1 by lia. change (Z.to_nat 64) with 64%nat in Hs1.
    assert (Hfull : Forall (fun c => c = 10 \/ c ∈ x ++ y) (line ++ [10] ++ b1 ++ b2)).
    { apply Forall_app. split; [done|]. constructor; [by left|done]. }
    assert (Hlong : zlen (line ++ [10] ++ b1 ++ b2) <= 65 * Z.of_nat (S n)).
    { rewrite zlen_app, zlen_app. change (zlen [10]) with 1.
      assert (zlen line <= 64) by (unfold line, zlen; rewrite length_take; lia). lia. }
    destruct (decide (off + 64 <= zlen x)) as [Hin|Hout].
    + exists (line ++ [10] ++ b1), b2. rewrite <- !app_assoc. split; [done|].
      assert (Hl : line = take 64 (drop (Z.to_nat off) x)).
      { unfold line. rewrite Z.min_l by (rewrite zlen_app; pose proof (zlen_nonneg y); lia).
        change (Z.to_nat 64) with 64%nat. unfold zlen in *. rewrite drop_app_le, take_app_le by (rewrite ?length_drop; lia). done. }
      split_and!; [|rewrite !sextets_app, Hs1, Hl, <- drop_drop|done|done|done].
      * apply Forall_app. split; [rewrite Hl; apply Forall_take, Forall_drop|constructor; [by right|done]].
        eapply list.Forall_impl; [exact Hx|]. auto.
      * change (sextets [10]) with (@nil Z). cbn [app]. by rewrite <- sextets_app, take_drop.
    + rewrite drop_ge in Hs1 by (unfold zlen in *; lia).
      assert (Hl : exists y', line = drop (Z.to_nat off) x ++ y' /\ sextets y' = []).
      { unfold line. rewrite zlen_app in *. unfold zlen in *.
        exists (take (Z.to_nat (64 `min` (Z.of_nat (length x) + Z.of_nat (length y) - off)) - length (drop (Z.to_nat off) x))
                 (drop (Z.to_nat off - length x) y)).
        split; [|by apply sextets_part].
        rewrite drop_app, take_app_ge; [done|rewrite length_drop; lia]. }
      destruct Hl as (y' & -> & Hy'). exists (drop (Z.to_nat off) x), (y' ++ [10] ++ b1 ++ b2).
      rewrite <- !app_assoc in *. split_and!; [done| |done| |done|done].
      * eapply Forall_drop, list.Forall_impl; [exact Hx|]. auto.
      * by rewrite !sextets_app, Hy', Hs1, Hs2.
Qed.

Lemma find_at_prefix p t : find_at p (p ++ t) = Some 0%nat.
Proof. apply (find_at_app p [] t). cbn. lia. Qed.

Lemma lookup_prefix p (s : bytes) j i c : is_prefix p (drop j s) = true -> p !! i = Some c -> s !! (j + i)%nat = Some c.
Proof.
  intros [t Ht]%is_prefix_spec Hi. rewrite <- lookup_drop, Ht. by apply lookup_app_l_Some.
Qed.

(** The trailer is not found before its place: a line break or a character
    other than the dash is in the way. *)
Lemma find_trailer pem_type body t :
  10 ∉ pem_type -> chr "-" ∉ body ->
  find_at (end_line pem_type) ((begin_line pem_type ++ [10] ++ body) ++ end_line pem_type ++ t) =
    Some (length (begin_line pem_type ++ [10] ++ body)).
Proof.
  intros Hnl Hdash. apply find_at_app. intros j Hj. apply not_true_iff_false. intros Hp.
  set (s := _ ++ _ ++ _) in Hp.
  assert (Hlt : length (begin_line pem_type) = (length pem_type + 16)%nat)
    by (unfold begin_line; rewrite !length_app; cbn; lia).
  assert (Hle : length (end_line pem_type) = (length pem_type + 14)%nat)
    by (unfold end_line; rewrite !length_app; cbn; lia).
  destruct (decide (j <= 5)%nat).
  - (* the B of BEGIN *)
    assert (Hb : s !! 5%nat = Some (chr "B")) by reflexivity.
    assert (Hi : exists c, end_line pem_type !! (5 - j)%nat = Some c /\ c <> chr "B").
    { unfold end_line. do 6 (destruct j as [|j]; [eexists; split; [reflexivity|done]|]). lia. }
    destruct Hi as (c & Hc & Hne). pose proof (lookup_prefix _ _ _ _ _ Hp Hc) as Hs.
    replace (j + (5 - j))%nat with 5%nat in Hs by lia. congruence.
  - destruct (decide (j <= length (begin_line pem_type))%nat) as [Hin|Hout].
    + (* the end of the first line *)
      assert (Hn : s !! length (begin_line pem_type) = Some 10).
      { unfold s. rewrite <- !app_assoc, lookup_app_r by lia. by rewrite Nat.sub_diag. }
      destruct (lookup_lt_is_Some_2 (end_line pem_type) (length (begin_line pem_type) - j)) as [c Hc]; [lia|].
      pose proof (lookup_prefix _ _ _ _ _ Hp Hc) as Hs.
      replace (j + (length (begin_line pem_type) - j))%nat with (length (begin_line pem_type)) in Hs by lia.
      rewrite Hn in Hs. injection Hs as <-. apply list_elem_of_lookup_2 in Hc.
      unfold end_line in Hc. rewrite !list.elem_of_app in Hc. destruct Hc as [Hc|[Hc|Hc]]; [|done|];
        by repeat (apply list.elem_of_cons in Hc as [Hc|Hc]; [discriminate Hc|]); apply not_elem_of_nil in Hc.
    + (* the lines of the body *)
      assert (Hc : end_line pem_type !! 0%nat = Some (chr "-")) by reflexivity.
      pose proof (lookup_prefix _ _ _ _ _ Hp Hc) as Hs. apply Hdash.
      unfold s in Hs. rewrite Nat.add_0_r, lookup_app_l in Hs by lia.
      rewrite app_assoc, lookup_app_r in Hs by (rewrite length_app; cbn [length]; lia).
      by apply list_elem_of_lookup_2 in Hs.
Qed.

(** The parser finds the lines between the header and the trailer. *)
Lemma PemToDer_body pem_type body :
  10 ∉ pem_type -> chr "-" ∉ body -> zlen body < 18446744073709551616 ->
  PemToDer pem_type (begin_line pem_type ++ [10] ++ body ++ end_line pem_type ++ [10]) =
    (der ← Decode body (Z.lor DO_PARSE_WHITE (Z.lor DO_PAD_ANY DO_TERM_BUFFER)); Ok (Some der)).
Proof.
  intros Hnl Hdash Hsize. unfold PemToDer, find_from. set (pem := _ ++ _ ++ _).
  rewrite !(proj2 (Z.leb_le _ (zlen pem))) by apply zlen_nonneg. change (drop (Z.to_nat 0) ?l) with l.
  assert (Hh : find_at (begin_line pem_type) pem = Some 0%nat) by apply find_at_prefix.
  assert (Hb : find_at [10] pem = Some (length (begin_line pem_type))).
  { apply find_at_char_app. unfold begin_line. rewrite !list.elem_of_app.
    intros [Hc|[Hc|Hc]]; [|done|];
      by repeat (apply list.elem_of_cons in Hc as [Hc|Hc]; [discriminate Hc|]); apply not_elem_of_nil in Hc. }
  assert (Ht : find_at (end_line pem_type) pem = Some (length (begin_line pem_type ++ [10] ++ body))).
  { rewrite <- (find_trailer pem_type body [10] Hnl Hdash). f_equal. unfold pem. by rewrite <- !app_assoc. }
  rewrite Hh. cbn [fmap option_fmap option_map]. change (0 + Z.of_nat 0) with 0.
  rewrite (proj2 (Z.leb_le _ (zlen pem))) by apply zlen_nonneg. change (drop (Z.to_nat 0) ?l) with l.
  rewrite Hb, Ht. cbn [fmap option_fmap option_map]. rewrite !Z.add_0_l.
  fold (zlen (begin_line pem_type)). fold (zlen (begin_line pem_type ++ [10] ++ body)).
  rewrite !zlen_app. change (zlen [10]) with 1.
  replace (zlen (begin_line pem_type) + (1 + zlen body) - (zlen (begin_line pem_type) + 1)) with (zlen body) by lia.
  rewrite u64_small by (pose proof (zlen_nonneg body); lia).
  unfold pem. rewrite (app_assoc (begin_line pem_type) [10]).
  by rewrite (substr_mid (begin_line pem_type ++ [10]) body) by (rewrite ?zlen_app; done).
Qed.

(** A PEM text written from any data parses back to it, whatever the type
    that heads it. *)
Theorem pem_roundtrip pem_type data :
  wf_bytes data -> 10 ∉ pem_type -> zlen data < 2 ^ 60 ->
  (DerToPem pem_type data ≫= PemToDer pem_type) = Ok (Some data).
Proof.
  intros Hw Hnl Hsize. unfold DerToPem. cbv zeta.
  set (n := Z.to_nat (Z.quot (zlen (EncodeFromArray data) + (kChunkSize - 1)) kChunkSize)).
  assert (Hn : 64 * (Z.of_nat n - 1) <= zlen (EncodeFromArray data) <= 64 * Z.of_nat n /\
    (n <> 0%nat -> 64 * (Z.of_nat n - 1) < zlen (EncodeFromArray data))).
  { unfold n, kChunkSize. pose proof (zlen_nonneg (EncodeFromArray data)).
    rewrite Z.quot_div_nonneg by lia. lia. }
  pose proof (zlen_EncodeFromArray data) as Hlen.
  pose proof (EncodeFromArray_spec data Hw) as Henc. pose proof (unpack_wf data Hw) as Hun.
  assert (Hx : Forall (fun c => decode_char c < 64) (encode_char <$> unpack data)).
  { apply Forall_fmap. eapply list.Forall_impl; [exact Hun|]. intros v Hv. change (decode_char (encode_char v) < 64). rewrite encode_char_spec by done. apply Hv. }
  assert (Hpads : Forall (fun c => c = kPad) (pads data)).
  { clear. revert data. apply block_ind; cbn; repeat constructor. auto. }
  assert (Hy : sextets (pads data) = []).
  { clear -Hpads. induction Hpads as [|c l -> _ IH]; [done|]. change (kPad :: l) with ([kPad] ++ l). by rewrite sextets_app, IH. }
  rewrite Henc in *.
  destruct (chunk_loop_spec n _ _ 0 Hx Hy) as (b1 & b2 & -> & Hb1 & Hs1 & Hs2 & Hall & Hlong); [lia|lia|lia|].
  rewrite !bind_ok. change (drop (Z.to_nat 0) ?l) with l in Hs1. rewrite (sextets_encode _ Hun) in Hs1.
  assert (Hdash : chr "-" ∉ b1 ++ b2).
  { intros Hin. rewrite list.Forall_forall in Hall. destruct (Hall _ Hin) as [?|[Hi|Hi]%list.elem_of_app]; [done| |].
    - rewrite list.Forall_forall in Hx. by specialize (Hx _ Hi).
    - rewrite list.Forall_forall in Hpads. by specialize (Hpads _ Hi). }
  assert (Hn64 : 65 * Z.of_nat n < 18446744073709551616) by (change (2 ^ 60) with 1152921504606846976 in Hsize; lia).
  rewrite PemToDer_body by (done || lia). by rewrite Decode_text, Hs1, pack_unpack.
Qed.

Lemma pem_roundtrip_witness :
  (wf_bytes (lit "any data") /\ 10 ∉ kPemTypeCertificate /\ zlen (lit "any data") < 2 ^ 60) /\
  (DerToPem kPemTypeCertificate (lit "any data") ≫= PemToDer kPemTypeCertificate) = Ok (Some (lit "any data")).
Proof.
  assert (H1 : wf_bytes (lit "any data")) by (apply (bool_decide_unpack _); vm_compute; exact I).
  assert (H2 : 10 ∉ kPemTypeCertificate) by (apply (bool_decide_unpack _); vm_compute; exact I).
  assert (H3 : zlen (lit "any data") < 2 ^ 60) by reflexivity.
  split; [done|]. by apply (pem_roundtrip kPemTypeCertificate (lit "any data")).
Defined.
