(* ===== verification/Certificates.v ===== *)
(** * rtc_base/openssl_key_pair.cc, openssl_certificate.cc, openssl_identity.cc,
    rtc_certificate.cc, rtc_certificate_generator.cc, utils/global.cpp

    The server's certificate: a key pair, a self-signed certificate and the
    identity that owns both.  OpenSSL's objects are counted references in a
    heap; every call that allocates or signs may fail, as the [oracle] says.  A
    free of an object without references faults.  Formats and the random
    generator are OpenSSL's. *)
From S2P Require Import Prelude.
From S2P Require Import TimeUtils.
From S2P Require Import SslIdentity.
Local Open Scope Z_scope.

#[local] Ltac Zify.zify_post_hook ::= Z.to_euclidean_division_equations.

(** ** OpenSSL's objects *)

(** A key: what it was generated for, and its value. *)
Record key := mkKey { key_type : KeyType; key_bits : Z; key_exponent : Z; key_value : Z }.

#[export] Instance key_eq_dec : EqDecision key.
Proof. solve_decision. Defined.

(** An ASN1_TIME: its tag and text. *)
Inductive asn1_tag := V_ASN1_UTCTIME | V_ASN1_GENERALIZEDTIME | V_ASN1_OTHER.
Record asn1_time := mkAsn1Time { time_tag : asn1_tag; time_data : bytes }.

#[export] Instance asn1_tag_eq_dec : EqDecision asn1_tag.
Proof. solve_decision. Defined.
#[export] Instance asn1_time_eq_dec : EqDecision asn1_time.
Proof. solve_decision. Defined.

Record x509 := mkX509 {
  x_pubkey : option key;
  x_serial : Z;
  x_version : Z;
  x_subject : bytes;
  x_issuer : bytes;
  x_not_before : asn1_time;
  x_not_after : asn1_time;
  x_signed_by : option key;
}.

#[export] Instance x509_eq_dec : EqDecision x509.
Proof. solve_decision. Defined.

Inductive obj :=
  | Pkey (k : option key)     (* EVP_PKEY *)
  | Bignum (n : Z)
  | RsaKey (k : option key)
  | EcKey (k : option key)
  | Cert (c : x509)
  | Name (cn : bytes)         (* X509_NAME *)
  | Bio (data : bytes).

(** The library: its formats, and the values its generators give. *)
Class SslLib := {
  X509_empty : x509;
  (* X509_time_adj with an offset from the epoch *)
  time_of_seconds : Z -> option asn1_time;
  rand_bits : Z -> Z -> Z;          (* the state of the generator, the bits *)
  PEM_write_X509 : x509 -> bytes;
  PEM_write_PrivateKey : option key -> bytes;
  PEM_write_PUBKEY : option key -> bytes;
  PEM_read_PrivateKey : bytes -> option key;
  missing_parameters : key -> bool;
  (* the next certificate of a text and the text after it, or the error *)
  PEM_read_X509 : bytes -> (x509 * bytes) + Z;
  read_shrinks : forall s c rest, PEM_read_X509 s = inl (c, rest) -> (length rest < length s)%nat;
  (* times from 1970 on are written as RFC 5280 says: with two digits for the
     year before 2050, with four until 9999 *)
  time_law : forall n, 0 <= n < 253402300800 ->
    time_of_seconds n = Some (
      if decide (tm_year (tm_of_seconds n) + 1900 < 2050)
      then mkAsn1Time V_ASN1_UTCTIME (asn1_text false (tm_of_seconds n))
      else mkAsn1Time V_ASN1_GENERALIZEDTIME (asn1_text true (tm_of_seconds n)))
}.

(** The error [PEM_read_bio_X509] ends a text without certificates with. *)
Definition PEM_R_NO_START_LINE : Z := 108.

Record ossl := mkOssl {
  refs : gmap positive (nat * obj);   (* references and contents *)
  oracle : list bool;                 (* which of the next calls fail *)
  rng : Z;                            (* the state of the random generator *)
  errs : list Z;                      (* ERR_get_error's queue *)
}.

Definition M (A : Type) : Type := ossl -> res (A * ossl).

#[export] Instance M_ret : MRet M := fun A a s => Ok (a, s).
#[export] Instance M_bind : MBind M := fun A B f m s =>
  match m s with Ok (a, s) => f a s | Fail e => Fail e end.

Definition ptr : Type := option positive.

Definition fault_with {A} (e : fault) : M A := fun _ => Fail e.

(** A call that may fail. *)
Definition call : M bool := fun s =>
  match oracle s with
  | [] => Ok (true, s)
  | b :: o => Ok (negb b, mkOssl (refs s) o (rng s) (errs s))
  end.

Definition set_refs (h : gmap positive (nat * obj)) (s : ossl) : ossl := mkOssl h (oracle s) (rng s) (errs s).

Definition new (o : obj) : M ptr :=
  ok ← call;
  if negb ok then mret None
  else fun s => let p := fresh (dom (refs s)) in Ok (Some p, set_refs (<[p := (1%nat, o)]> (refs s)) s).

(** Reading and writing an object through a pointer. *)
Definition load (p : positive) : M obj := fun s =>
  match refs s !! p with Some (_, o) => Ok (o, s) | None => Fail Dangling end.
Definition store (p : positive) (o : obj) : M unit := fun s =>
  match refs s !! p with Some (n, _) => Ok (tt, set_refs (<[p := (n, o)]> (refs s)) s) | None => Fail Dangling end.

(** [*_free], which accepts a null pointer. *)
Definition free (p : ptr) : M unit := fun s =>
  match p with
  | None => Ok (tt, s)
  | Some p =>
      match refs s !! p with
      | Some (S (S n), o) => Ok (tt, set_refs (<[p := (S n, o)]> (refs s)) s)
      | Some _ => Ok (tt, set_refs (delete p (refs s)) s)
      | None => Fail Dangling
      end
  end.

Definition up_ref (p : positive) : M unit := fun s =>
  match refs s !! p with
  | Some (n, o) => Ok (tt, set_refs (<[p := (S n, o)]> (refs s)) s)
  | None => Fail Dangling
  end.

Definition random : M Z := fun s => Ok (rng s, mkOssl (refs s) (oracle s) (rng s + 1) (errs s)).

(** [a && b] on calls. *)
Definition and_then (a b : M bool) : M bool := x ← a; if x : bool then b else mret false.

Declare Scope ossl_scope.
Notation "a &&& b" := (and_then a b) (at level 40, left associativity) : ossl_scope.
Local Open Scope ossl_scope.

Definition not_null (p : ptr) : M bool := mret (match p with Some _ => true | None => false end).

(** A call on a pointer that is not null, with the change it makes. *)
Definition call_on (p : ptr) (f : positive -> obj -> M unit) : M bool :=
  match p with
  | None => fault_with NullDeref
  | Some p => ok ← call; if ok : bool then (o ← load p; f p o ≫= fun _ => mret true) else mret false
  end.

Definition lift {A} (r : res A) : M A := fun s => match r with Ok a => Ok (a, s) | Fail e => Fail e end.

(** The functions of the library the code calls. *)
Definition BN_set_word (p : ptr) (w : Z) : M bool := call_on p (fun p _ => store p (Bignum w)).

Definition generate (p : ptr) (make : Z -> obj) : M bool :=
  call_on p (fun p _ => v ← random; store p (make v)).

Definition RSA_generate_key_ex (p : ptr) (bits exponent : Z) : M bool :=
  generate p (fun v => RsaKey (Some (mkKey KT_RSA bits exponent v))).
Definition EC_KEY_generate_key (p : ptr) : M bool :=
  generate p (fun v => EcKey (Some (mkKey KT_ECDSA 256 0 v))).

(** The key pair takes the reference of the key given. *)
Definition EVP_PKEY_assign (pkey k : ptr) : M bool :=
  call_on pkey (fun p _ =>
    match k with
    | None => fault_with NullDeref
    | Some k =>
        o ← load k; _ ← free (Some k);
        store p (match o with RsaKey v | EcKey v => Pkey v | o => o end)
    end).

(** ** openssl_key_pair.cc *)
Definition MakeKey (key_params : KeyParams) : M ptr :=
  pkey ← new (Pkey None);
  if decide (type_ key_params = KT_RSA) then
    p ← lift (rsa_params key_params);
    exponent ← new (Bignum 0);
    rsa ← new (RsaKey None);
    ok ← not_null pkey &&& not_null exponent &&& not_null rsa
         &&& BN_set_word exponent (pub_exp p)
         &&& RSA_generate_key_ex rsa (mod_size p) (pub_exp p)
         &&& EVP_PKEY_assign pkey rsa;
    if negb ok then _ ← free pkey; _ ← free exponent; _ ← free rsa; mret None
    else _ ← free exponent; mret pkey
  else if decide (type_ key_params = KT_ECDSA) then
    c ← lift (ec_curve key_params);
    if decide (c = EC_NIST_P256) then
      ec_key ← new (EcKey None);
      match ec_key with
      | None => _ ← free pkey; mret None
      | Some _ =>
          ok ← not_null pkey &&& not_null ec_key &&& EC_KEY_generate_key ec_key &&& EVP_PKEY_assign pkey ec_key;
          if negb ok then _ ← free pkey; _ ← free ec_key; mret None
          else mret pkey
      end
    else _ ← free pkey; mret None
  else _ ← free pkey; mret None.

(** LogSSLErrors empties the queue. *)
Definition LogSSLErrors : M unit := fun s => Ok (tt, mkOssl (refs s) (oracle s) (rng s) []).

(** An OpenSSLKeyPair is the pointer it owns. *)
Definition OpenSSLKeyPair : Type := positive.

Definition KeyPair_Generate (key_params : KeyParams) : M (option OpenSSLKeyPair) :=
  pkey ← MakeKey key_params;
  match pkey with
  | None => _ ← LogSSLErrors; mret None
  | Some pkey => mret (Some pkey)
  end.

Definition KeyPair_Clone (k : OpenSSLKeyPair) : M OpenSSLKeyPair := _ ← up_ref k; mret k.
Definition KeyPair_delete (k : OpenSSLKeyPair) : M unit := free (Some k).

Definition pkey_of (o : obj) : option key := match o with Pkey k => k | _ => None end.
Definition x509_of `{SslLib} (o : obj) : x509 := match o with Cert c => c | _ => X509_empty end.

(** EVP_PKEY_cmp compares the public halves. *)
Definition KeyPair_eq (a b : OpenSSLKeyPair) : M bool :=
  ka ← load a; kb ← load b; mret (bool_decide (pkey_of ka = pkey_of kb)).

Section Code.
Context `{SslLib}.

(** The null BIO is answered with null; BIO_free is called before the tests. *)
Definition KeyPair_FromPrivateKeyPEMString (pem_string : bytes) : M (option OpenSSLKeyPair) :=
  bio ← new (Bio pem_string);
  match bio with
  | None => mret None
  | Some _ =>
      pkey ← match PEM_read_PrivateKey pem_string with
             | None => mret None
             | Some k => new (Pkey (Some k))
             end;
      _ ← free bio;
      match pkey with
      | None => mret None
      | Some p =>
          o ← load p;
          if match pkey_of o with Some k => missing_parameters k | None => true end
          then _ ← free pkey; mret None
          else mret (Some p)
      end
  end.

(** RTC_NOTREACHED ends a debug build. *)
Definition PrivateKeyToPEMString (k : OpenSSLKeyPair) : M bytes :=
  temp_memory_bio ← new (Bio []);
  match temp_memory_bio with
  | None => fault_with AssertFailed
  | Some _ =>
      ok ← call;
      if negb ok then fault_with AssertFailed
      else o ← load k; _ ← free temp_memory_bio; mret (PEM_write_PrivateKey (pkey_of o))
  end.

(** The text ends at the NUL written after it. *)
Definition PublicKeyToPEMString (k : OpenSSLKeyPair) : M bytes :=
  temp_memory_bio ← new (Bio []);
  match temp_memory_bio with
  | None => fault_with AssertFailed
  | Some _ =>
      ok ← call;
      if negb ok then fault_with AssertFailed
      else o ← load k; _ ← free temp_memory_bio; mret (c_str (PEM_write_PUBKEY (pkey_of o)))
  end.

(** ** openssl_certificate.cc *)
Record SSLIdentityParams := mkParams {
  common_name : bytes; not_before : Z; not_after : Z; key_params : KeyParams
}.

Definition SERIAL_RAND_BITS : Z := 64.

(** The setters of an X509. *)
Definition on_x509 (p : ptr) (f : x509 -> x509) : M bool :=
  call_on p (fun p o => store p (Cert (f (x509_of o)))).

Definition X509_set_pubkey (p : ptr) (k : option key) : M bool :=
  on_x509 p (fun c => mkX509 k (x_serial c) (x_version c) (x_subject c) (x_issuer c) (x_not_before c) (x_not_after c) (x_signed_by c)).
Definition BN_to_ASN1_INTEGER (p : ptr) (n : Z) : M bool :=
  on_x509 p (fun c => mkX509 (x_pubkey c) n (x_version c) (x_subject c) (x_issuer c) (x_not_before c) (x_not_after c) (x_signed_by c)).
Definition X509_set_version (p : ptr) (v : Z) : M bool :=
  on_x509 p (fun c => mkX509 (x_pubkey c) (x_serial c) v (x_subject c) (x_issuer c) (x_not_before c) (x_not_after c) (x_signed_by c)).
Definition X509_set_subject_name (p : ptr) (n : bytes) : M bool :=
  on_x509 p (fun c => mkX509 (x_pubkey c) (x_serial c) (x_version c) n (x_issuer c) (x_not_before c) (x_not_after c) (x_signed_by c)).
Definition X509_set_issuer_name (p : ptr) (n : bytes) : M bool :=
  on_x509 p (fun c => mkX509 (x_pubkey c) (x_serial c) (x_version c) (x_subject c) n (x_not_before c) (x_not_after c) (x_signed_by c)).
Definition X509_sign (p : ptr) (k : option key) : M bool :=
  on_x509 p (fun c => mkX509 (x_pubkey c) (x_serial c) (x_version c) (x_subject c) (x_issuer c) (x_not_before c) (x_not_after c) k).

(** X509_time_adj of the certificate's field; null when the time cannot be
    written. *)
Definition set_time (p : ptr) (seconds : Z) (f : asn1_time -> x509 -> x509) : M bool :=
  match time_of_seconds seconds with
  | None => mret false
  | Some t => on_x509 p (f t)
  end.
Definition adj_not_before (p : ptr) (seconds : Z) : M bool :=
  set_time p seconds (fun t c => mkX509 (x_pubkey c) (x_serial c) (x_version c) (x_subject c) (x_issuer c) t (x_not_after c) (x_signed_by c)).
Definition adj_not_after (p : ptr) (seconds : Z) : M bool :=
  set_time p seconds (fun t c => mkX509 (x_pubkey c) (x_serial c) (x_version c) (x_subject c) (x_issuer c) (x_not_before c) t (x_signed_by c)).

Definition BN_pseudo_rand (p : ptr) (bits : Z) : M bool :=
  call_on p (fun p _ => v ← random; store p (Bignum (rand_bits v bits))).

Definition bignum_of (o : obj) : Z := match o with Bignum n => n | _ => 0 end.

(** The [std::unique_ptr]s are destroyed in the reverse order. *)
Definition fail_with (name x509 serial_number : ptr) : M ptr :=
  _ ← free name; _ ← free x509; _ ← free serial_number; mret None.

Definition MakeCertificate (pkey : positive) (params : SSLIdentityParams) : M ptr :=
  x509 ← new (Cert X509_empty);
  match x509 with
  | None => mret None
  | Some _ =>
      k ← load pkey;
      ok ← X509_set_pubkey x509 (pkey_of k);
      if negb ok then fail_with None x509 None
      else
        serial_number ← new (Bignum 0);
        ok ← not_null serial_number &&& BN_pseudo_rand serial_number SERIAL_RAND_BITS &&& call
             &&& match serial_number with
                 | Some p => o ← load p; BN_to_ASN1_INTEGER x509 (bignum_of o)
                 | None => fault_with NullDeref
                 end;
        if negb ok then fail_with None x509 serial_number
        else
          ok ← X509_set_version x509 2;
          if negb ok then fail_with None x509 serial_number
          else
            name ← new (Name []);
            ok ← not_null name
                 &&& call_on name (fun p _ => store p (Name (c_str (common_name params))))
                 &&& X509_set_subject_name x509 (c_str (common_name params))
                 &&& X509_set_issuer_name x509 (c_str (common_name params));
            if negb ok then fail_with name x509 serial_number
            else
              ok ← adj_not_before x509 (not_before params) &&& adj_not_after x509 (not_after params);
              if negb ok then fail_with name x509 serial_number
              else
                ok ← X509_sign x509 (pkey_of k);
                if negb ok then fail_with name x509 serial_number
                else _ ← free name; _ ← free serial_number; mret x509
  end.

(** An OpenSSLCertificate is the pointer it has a reference to. *)
Definition OpenSSLCertificate : Type := positive.

Definition new_OpenSSLCertificate (x : positive) : M OpenSSLCertificate := _ ← up_ref x; mret x.
Definition Certificate_delete (c : OpenSSLCertificate) : M unit := free (Some c).
Definition Certificate_Clone (c : OpenSSLCertificate) : M OpenSSLCertificate := new_OpenSSLCertificate c.

(** [random_name] is what [CreateRandomString(8)] answers; printing the
    certificate to the log is left out. *)
Definition Certificate_Generate (key_pair : OpenSSLKeyPair) (params : SSLIdentityParams) (random_name : bytes) :
    M (option OpenSSLCertificate) :=
  let actual := if decide (common_name params = [])
                then mkParams random_name (not_before params) (not_after params) (key_params params) else params in
  x509 ← MakeCertificate key_pair actual;
  match x509 with
  | None => _ ← LogSSLErrors; mret None
  | Some x => ret ← new_OpenSSLCertificate x; _ ← free x509; mret (Some ret)
  end.

(** PEM_read_bio_X509: an error goes to the end of the queue. *)
Definition PEM_read_bio_X509 (text : bytes) : M (option (positive * bytes)) :=
  match PEM_read_X509 text with
  | inl (c, rest) =>
      p ← new (Cert c); mret (match p with Some p => Some (p, rest) | None => None end)
  | inr e => fun s => Ok (None, mkOssl (refs s) (oracle s) (rng s) (errs s ++ [e]))
  end.

Definition Certificate_FromPEMString (pem_string : bytes) : M (option OpenSSLCertificate) :=
  bio ← new (Bio (c_str pem_string));
  match bio with
  | None => mret None
  | Some _ =>
      x509 ← PEM_read_bio_X509 (c_str pem_string);
      _ ← free bio;
      match x509 with
      | None => mret None
      | Some (x, _) => ret ← new_OpenSSLCertificate x; _ ← free (Some x); mret (Some ret)
      end
  end.

Definition Certificate_eq (a b : OpenSSLCertificate) : M bool :=
  ca ← load a; cb ← load b; mret (bool_decide (x509_of ca = x509_of cb)).

Definition ToPEMString (c : OpenSSLCertificate) : M bytes :=
  bio ← new (Bio []);
  match bio with
  | None => fault_with AssertFailed
  | Some _ =>
      ok ← call;
      if negb ok then fault_with AssertFailed
      else o ← load c; _ ← free bio; mret (c_str (PEM_write_X509 (x509_of o)))
  end.

Definition CertificateExpirationTime (c : OpenSSLCertificate) : M Z :=
  o ← load c;
  let expire_time := x_not_after (x509_of o) in
  match time_tag expire_time with
  | V_ASN1_UTCTIME => lift (ASN1TimeToSec (time_data expire_time) false)
  | V_ASN1_GENERALIZEDTIME => lift (ASN1TimeToSec (time_data expire_time) true)
  | V_ASN1_OTHER => mret (-1)
  end.

(** ** openssl_identity.cc *)
Record OpenSSLIdentity := mkIdentity { key_pair_ : OpenSSLKeyPair; cert_chain_ : list OpenSSLCertificate }.

(** The members are destroyed in the reverse order. *)
Fixpoint chain_delete (l : list OpenSSLCertificate) : M unit :=
  match l with [] => mret tt | c :: l => _ ← Certificate_delete c; chain_delete l end.
Definition Identity_delete (i : OpenSSLIdentity) : M unit :=
  _ ← chain_delete (cert_chain_ i); KeyPair_delete (key_pair_ i).

Definition CreateInternal (params : SSLIdentityParams) (random_name : bytes) : M (option OpenSSLIdentity) :=
  key_pair ← KeyPair_Generate (key_params params);
  match key_pair with
  | None => mret None
  | Some k =>
      certificate ← Certificate_Generate k params random_name;
      match certificate with
      | None => _ ← KeyPair_delete k; mret None
      | Some c => mret (Some (mkIdentity k [c]))
      end
  end.

(** [now] is [time(nullptr)]. *)
Definition CreateWithExpiration (name : bytes) (kp : KeyParams) (lifetime now : Z) (random_name : bytes) :
    M (option OpenSSLIdentity) :=
  let params := mkParams name (now + kCertificateWindowInSeconds) (now + lifetime) kp in
  if not_before params >? not_after params then mret None else CreateInternal params random_name.

Definition CreateFromPEMStrings (private_key certificate : bytes) : M (option OpenSSLIdentity) :=
  cert ← Certificate_FromPEMString certificate;
  match cert with
  | None => mret None
  | Some c =>
      key_pair ← KeyPair_FromPrivateKeyPEMString private_key;
      match key_pair with
      | None => _ ← Certificate_delete c; mret None
      | Some k => mret (Some (mkIdentity k [c]))
      end
  end.

(** The loop over the certificates of a chain: what it has read, or the failure
    it returns with.  The error looked at is the oldest of the queue. *)
Fixpoint chain_loop (fuel : nat) (bio : ptr) (text : bytes) (certs : list OpenSSLCertificate) :
    M (option (list OpenSSLCertificate)) :=
  match fuel with
  | O => fault_with OutOfFuel
  | S fuel =>
      x509 ← PEM_read_bio_X509 text;
      match x509 with
      | None =>
          fun s =>
            if decide (hd 0 (errs s) = PEM_R_NO_START_LINE) then Ok (Some certs, s)
            else (_ ← free bio; _ ← chain_delete certs; mret None) s
      | Some (x, rest) =>
          c ← new_OpenSSLCertificate x; _ ← free (Some x);
          chain_loop fuel bio rest (certs ++ [c])
      end
  end.

Definition CreateFromPEMChainStrings (private_key certificate_chain : bytes) : M (option OpenSSLIdentity) :=
  bio ← new (Bio certificate_chain);
  match bio with
  | None => mret None
  | Some _ =>
      certs ← chain_loop (S (length certificate_chain)) bio certificate_chain [];
      match certs with
      | None => mret None
      | Some certs =>
          _ ← free bio;
          if decide (certs = []) then mret None
          else
            key_pair ← KeyPair_FromPrivateKeyPEMString private_key;
            match key_pair with
            | None => _ ← chain_delete certs; mret None
            | Some k => mret (Some (mkIdentity k certs))
            end
      end
  end.

(** [certificate()]: the first of the chain. *)
Definition identity_certificate (i : OpenSSLIdentity) : M OpenSSLCertificate :=
  match cert_chain_ i with [] => fault_with OutOfBounds | c :: _ => mret c end.

Fixpoint chain_clone (l : list OpenSSLCertificate) : M (list OpenSSLCertificate) :=
  match l with [] => mret [] | c :: l => c' ← Certificate_Clone c; l' ← chain_clone l; mret (c' :: l') end.

Definition CloneInternal (i : OpenSSLIdentity) : M OpenSSLIdentity :=
  k ← KeyPair_Clone (key_pair_ i); chain ← chain_clone (cert_chain_ i); mret (mkIdentity k chain).

Definition Identity_eq (a b : OpenSSLIdentity) : M bool :=
  k ← KeyPair_eq (key_pair_ a) (key_pair_ b);
  if negb k then mret false
  else ca ← identity_certificate a; cb ← identity_certificate b; Certificate_eq ca cb.

(** ** rtc_certificate.cc: an RTCCertificate is the identity it owns *)
Definition Expires (i : OpenSSLIdentity) : M Z :=
  c ← identity_certificate i;
  expires ← CertificateExpirationTime c;
  mret (if negb (expires =? -1) then u64 (u64 expires * kNumMillisecsPerSec) else 0).

Definition HasExpired (i : OpenSSLIdentity) (now : Z) : M bool := e ← Expires i; mret (e <=? now).

Definition ToPEM (i : OpenSSLIdentity) : M (bytes * bytes) :=
  private_key ← PrivateKeyToPEMString (key_pair_ i);
  c ← identity_certificate i; certificate ← ToPEMString c; mret (private_key, certificate).

Definition FromPEM (pem : bytes * bytes) : M (option OpenSSLIdentity) := CreateFromPEMStrings pem.1 pem.2.

(** ** rtc_certificate_generator.cc *)
Definition kIdentityName : bytes := lit "WebRTC".
Definition kYearInSeconds : Z := 365 * 24 * 60 * 60.

Definition GenerateCertificate (kp : KeyParams) (expires_ms : option Z) (now : Z) : M (option OpenSSLIdentity) :=
  valid ← lift (IsValid kp);
  if negb valid then mret None
  else match expires_ms with
       | None => CreateWithExpiration kIdentityName kp kDefaultCertificateLifetimeInSeconds now []
       | Some ms =>
           let expires_s := Z.min (ms / 1000) kYearInSeconds in
           CreateWithExpiration kIdentityName kp expires_s now []
       end.

(** ** utils/global.cpp *)
Definition k_year_in_ms : Z := 365 * 24 * 3600 * 1000.

Definition Global : Type := option OpenSSLIdentity.   (* _certificate *)

Definition get_dtls_certificate (g : Global) : option OpenSSLIdentity := g.

(** [now_ms] is the clock in milliseconds, as [getTimeStampMilli] reads it;
    [time(nullptr)] reads the seconds.  The certificate replaced is released.
    Its text is only logged, but a failure to write it ends the program. *)
Definition generate_and_check_certificate (g : Global) (now_ms : Z) : M (Z * Global) :=
  stale ← match g with None => mret true | Some c => HasExpired c now_ms end;
  g ← (if stale : bool then
         kp ← lift (new_KeyParams KT_DEFAULT);
         c ← GenerateCertificate kp (Some k_year_in_ms) (now_ms / 1000);
         _ ← match g with Some old => Identity_delete old | None => mret tt end;
         _ ← match c with Some i => _ ← ToPEM i; mret tt | None => mret tt end;
         mret c
       else mret g);
  mret (match g with None => (-1, g) | Some _ => (0, g) end).

End Code.

(** ** Reasoning about the heap

    [runs m h Q]: from a state with heap [h], whatever the library answers,
    [m] returns, and [Q] holds of its value and the heap it leaves. *)
Abbreviation heap := (gmap positive (nat * obj)).

Definition runs {A} (m : M A) (h : heap) (Q : A -> heap -> Prop) : Prop :=
  forall s, refs s = h -> exists a s', m s = Ok (a, s') /\ Q a (refs s').

Lemma runs_ret {A} (a : A) h (Q : A -> heap -> Prop) : Q a h -> runs (mret a) h Q.
Proof. intros HQ s <-. by exists a, s. Qed.

Lemma runs_bind {A B} (m : M A) (f : A -> M B) h Q :
  runs m h (fun a h' => runs (f a) h' Q) -> runs (m ≫= f) h Q.
Proof.
  intros Hm s Hs. destruct (Hm s Hs) as (a & s1 & Ha & Hf). destruct (Hf s1 eq_refl) as (b & s2 & Hb & HQ).
  exists b, s2. split; [|done]. unfold mbind, M_bind. by rewrite Ha.
Qed.

Lemma runs_call h (Q : bool -> heap -> Prop) : Q true h -> Q false h -> runs call h Q.
Proof.
  intros Ht Hf s <-. unfold call. destruct (oracle s) as [|[|] o].
  - by exists true, s.
  - eexists false, _. by split.
  - eexists true, _. by split.
Qed.

Lemma runs_random h (Q : Z -> heap -> Prop) : (forall v, Q v h) -> runs random h Q.
Proof. intros HQ s <-. eexists _, _. split; [done|]. apply HQ. Qed.

Lemma runs_lift {A} (r : res A) a h (Q : A -> heap -> Prop) : r = Ok a -> Q a h -> runs (lift r) h Q.
Proof. intros -> HQ s <-. by exists a, s. Qed.

Lemma runs_log h (Q : unit -> heap -> Prop) : Q tt h -> runs LogSSLErrors h Q.
Proof. intros HQ s <-. eexists _, _. by split. Qed.

Lemma runs_load p n o h (Q : obj -> heap -> Prop) : h !! p = Some (n, o) -> Q o h -> runs (load p) h Q.
Proof. intros Hp HQ s <-. unfold load. rewrite Hp. by exists o, s. Qed.

Lemma runs_store p n o o' h (Q : unit -> heap -> Prop) :
  h !! p = Some (n, o) -> Q tt (<[p := (n, o')]> h) -> runs (store p o') h Q.
Proof. intros Hp HQ s <-. unfold store. rewrite Hp. eexists _, _. by split. Qed.

Lemma runs_up_ref p n o h (Q : unit -> heap -> Prop) :
  h !! p = Some (n, o) -> Q tt (<[p := (S n, o)]> h) -> runs (up_ref p) h Q.
Proof. intros Hp HQ s <-. unfold up_ref. rewrite Hp. eexists _, _. by split. Qed.

Lemma runs_free_null h (Q : unit -> heap -> Prop) : Q tt h -> runs (free None) h Q.
Proof. intros HQ s <-. by exists tt, s. Qed.

Lemma runs_free_last p o h (Q : unit -> heap -> Prop) :
  h !! p = Some (1%nat, o) -> Q tt (delete p h) -> runs (free (Some p)) h Q.
Proof. intros Hp HQ s <-. unfold free. rewrite Hp. eexists _, _. by split. Qed.

Lemma runs_free_shared p n o h (Q : unit -> heap -> Prop) :
  h !! p = Some (S (S n), o) -> Q tt (<[p := (S n, o)]> h) -> runs (free (Some p)) h Q.
Proof. intros Hp HQ s <-. unfold free. rewrite Hp. eexists _, _. by split. Qed.

Lemma runs_new o h (Q : ptr -> heap -> Prop) :
  Q None h -> (forall p, h !! p = None -> Q (Some p) (<[p := (1%nat, o)]> h)) -> runs (new o) h Q.
Proof.
  intros Hn Hp. apply runs_bind, runs_call; cbn [negb].
  - intros s <-. eexists _, _. split; [done|]. apply Hp. apply not_elem_of_dom, is_fresh.
  - by apply runs_ret.
Qed.

Lemma runs_and_then (a b : M bool) h (Q : bool -> heap -> Prop) :
  runs a h (fun (x : bool) h' => if x then runs b h' Q else Q false h') -> runs (and_then a b) h Q.
Proof.
  intros Ha. apply runs_bind. intros s Hs. destruct (Ha s Hs) as (x & s' & Hx & HQ).
  exists x, s'. split; [done|]. destruct x; [done|by apply runs_ret].
Qed.

Lemma runs_call_on p f n o h (Q : bool -> heap -> Prop) :
  h !! p = Some (n, o) -> Q false h -> runs (f p o) h (fun _ h' => Q true h') ->
  runs (call_on (Some p) f) h Q.
Proof.
  intros Hp Hf Hr. apply runs_bind, runs_call; [|by apply runs_ret].
  apply runs_bind. eapply runs_load; [exact Hp|]. apply runs_bind.
  intros s Hs. destruct (Hr s Hs) as (x & s' & Hx & HQ). exists x, s'. split; [done|]. by apply runs_ret.
Qed.

Lemma runs_weaken {A} (m : M A) h (P Q : A -> heap -> Prop) :
  runs m h P -> (forall a h', P a h' -> Q a h') -> runs m h Q.
Proof. intros Hm Hw s Hs. destruct (Hm s Hs) as (a & s' & Ha & HP). exists a, s'. auto. Qed.

(** Fresh pointers differ from the others. *)
Ltac fresh_inv :=
  repeat match goal with
  | H : <[_ := _]> _ !! _ = None |- _ => apply lookup_insert_None in H as [H ?]
  end.

Ltac lookup := first [eassumption | by simplify_map_eq].

Ltac step :=
  match goal with
  | |- runs (mret _) _ _ => apply runs_ret
  | |- runs (_ ≫= _) _ _ => apply runs_bind
  | |- runs (if decide ?P then _ else _) _ _ => first [rewrite (decide_True (P := P)) by done | rewrite (decide_False (P := P)) by done]
  | |- runs (if ?b then _ else _) _ _ => destruct b eqn:?
  | |- runs (lift _) _ _ => eapply runs_lift; [reflexivity|]
  | |- runs (new _) _ _ => apply runs_new; [|intros ? ?; fresh_inv]
  | |- runs (and_then _ _) _ _ => apply runs_and_then
  | |- runs (not_null _) _ _ => apply runs_ret
  | |- runs call _ _ => apply runs_call
  | |- runs random _ _ => apply runs_random; intros ?
  | |- runs LogSSLErrors _ _ => apply runs_log
  | |- runs (free None) _ _ => apply runs_free_null
  | |- runs (free (Some _)) _ _ => first [eapply runs_free_last; [lookup|] | eapply runs_free_shared; [lookup|]]
  | |- runs (load _) _ _ => eapply runs_load; [lookup|]
  | |- runs (store _ _) _ _ => eapply runs_store; [lookup|]
  | |- runs (up_ref _) _ _ => eapply runs_up_ref; [lookup|]
  | |- runs (call_on (Some _) _) _ _ => eapply runs_call_on; [lookup| |]
  | |- runs (BN_set_word _ _) _ _ => unfold BN_set_word
  | |- runs (RSA_generate_key_ex _ _ _) _ _ => unfold RSA_generate_key_ex, generate
  | |- runs (EC_KEY_generate_key _) _ _ => unfold EC_KEY_generate_key, generate
  | |- runs (EVP_PKEY_assign _ _) _ _ => unfold EVP_PKEY_assign
  | |- runs (on_x509 _ _) _ _ => unfold on_x509
  | |- runs (X509_set_pubkey _ _) _ _ => unfold X509_set_pubkey
  | |- runs (BN_to_ASN1_INTEGER _ _) _ _ => unfold BN_to_ASN1_INTEGER
  | |- runs (BN_pseudo_rand _ _) _ _ => unfold BN_pseudo_rand
  | |- runs (X509_set_version _ _) _ _ => unfold X509_set_version
  | |- runs (X509_set_subject_name _ _) _ _ => unfold X509_set_subject_name
  | |- runs (X509_set_issuer_name _ _) _ _ => unfold X509_set_issuer_name
  | |- runs (X509_sign _ _) _ _ => unfold X509_sign
  | |- runs (adj_not_before _ _) _ _ => unfold adj_not_before, set_time
  | |- runs (adj_not_after _ _) _ _ => unfold adj_not_after, set_time
  | |- runs (match time_of_seconds ?t with _ => _ end) _ _ => destruct (time_of_seconds t) eqn:?
  | |- runs (fail_with _ _ _) _ _ => unfold fail_with
  | |- runs (KeyPair_delete _) _ _ => unfold KeyPair_delete
  | |- runs (Certificate_delete _) _ _ => unfold Certificate_delete
  | |- runs (new_OpenSSLCertificate _) _ _ => unfold new_OpenSSLCertificate
  end; cbn [negb x509_of bignum_of pkey_of x_pubkey x_serial x_version x_subject x_issuer x_not_before x_not_after x_signed_by];
  rewrite ?insert_insert_eq.

(** Two heaps are the same, entry by entry. *)
Ltac same_heap :=
  apply map_eq; intros ?i; repeat first [rewrite lookup_delete | rewrite lookup_insert]; repeat case_decide; subst; congruence.

(** The heap [h] with the object a call made, or [h] as it was. *)
Definition made (P : obj -> Prop) (h : heap) (p : ptr) (h' : heap) : Prop :=
  match p with
  | None => h' = h
  | Some p => h !! p = None /\ exists o, h' = <[p := (1%nat, o)]> h /\ P o
  end.

Lemma MakeKey_spec kp h :
  IsValid kp = Ok true ->
  runs (MakeKey kp) h (made (fun o => exists k, o = Pkey (Some k) /\ key_type k = type_ kp) h).
Proof.
  intros Hv. unfold MakeKey. destruct kp as [[] [p|[]]]; try done.
  all: repeat step; cbn [made]; try same_heap.
  all: split; [done|]; match goal with |- context [Pkey (Some ?k)] => exists (Pkey (Some k)) end;
    split; [same_heap|by eexists].
Qed.

Section Specs.
Context `{SslLib}.

(** A certificate for the key [k] signed with it, with the name and the times
    asked for. *)
Definition self_signed (k : key) (params : SSLIdentityParams) (c : x509) : Prop :=
  x_pubkey c = Some k /\ x_signed_by c = Some k /\ x_version c = 2 /\
  x_subject c = c_str (common_name params) /\ x_issuer c = c_str (common_name params) /\
  time_of_seconds (not_before params) = Some (x_not_before c) /\
  time_of_seconds (not_after params) = Some (x_not_after c).

Lemma MakeCertificate_spec pkey k params n h :
  h !! pkey = Some (n, Pkey (Some k)) ->
  runs (MakeCertificate pkey params) h (made (fun o => exists c, o = Cert c /\ self_signed k params c) h).
Proof.
  intros Hk. unfold MakeCertificate. step. step; [by step|].
  assert (pkey <> p) by congruence.
  repeat step; cbn [made]; try same_heap.
  split; [done|].
  match goal with |- context [delete _ (delete _ (<[_ := (_, Cert ?c)]> _))] => exists (Cert c) end.
  split; [same_heap|].
  eexists. split; [done|]. by repeat split.
Qed.

(** An identity owns a key pair and a certificate, with one reference each. *)
Definition owns (i : OpenSSLIdentity) (k : key) (c : x509) (h h' : heap) : Prop :=
  exists x, cert_chain_ i = [x] /\ h !! key_pair_ i = None /\ h !! x = None /\ key_pair_ i <> x /\
    h' = <[x := (1%nat, Cert c)]> (<[key_pair_ i := (1%nat, Pkey (Some k))]> h).

Lemma CreateInternal_owns params name h :
  IsValid (key_params params) = Ok true -> common_name params <> [] ->
  runs (CreateInternal params name) h (fun r h' =>
    match r with
    | None => h' = h
    | Some i => exists k c, owns i k c h h' /\ key_type k = type_ (key_params params) /\ self_signed k params c
    end).
Proof.
  intros Hv Hname. unfold CreateInternal, KeyPair_Generate. step. step.
  eapply runs_weaken; [by apply MakeKey_spec|]. intros [pk|] h1; cbn [made].
  2: { intros ->. by repeat step. }
  intros (Hpk & o & -> & k & -> & Hk). repeat step. unfold Certificate_Generate.
  rewrite decide_False by done. step.
  eapply runs_weaken; [eapply MakeCertificate_spec; lookup|]. intros [x|] h2; cbn [made].
  2: { intros ->. repeat step. same_heap. }
  intros (Hx & o & -> & c & -> & Hc). fresh_inv. unfold new_OpenSSLCertificate. repeat step.
  exists k, c. split; [|done]. exists x. cbn. split_and!; [done..|]. same_heap.
Qed.

(** The certificate's expiry is the time given. *)
Lemma CertificateExpirationTime_spec c n o h :
  h !! c = Some (n, Cert o) -> forall t, 0 <= t < 253402300800 ->
  time_of_seconds t = Some (x_not_after o) ->
  runs (CertificateExpirationTime c) h (fun r h' => r = t /\ h' = h).
Proof.
  intros Hc t Ht Htime. unfold CertificateExpirationTime. repeat step. rewrite time_law in Htime by done.
  destruct (tm_of_seconds_spec t) as [Hv Hs]; [lia|]. pose proof (tm_of_seconds_year t Ht).
  case_decide; injection Htime as <-; cbn [time_tag time_data];
    (eapply runs_lift; [rewrite asn1_text_reads; [by rewrite Hs|done|lia]|done]).
Qed.

(** *** Identities from PEM texts *)

Lemma PEM_read_bio_X509_spec text h (Q : option (positive * bytes) -> heap -> Prop) :
  Q None h ->
  (forall p c rest, h !! p = None -> (length rest < length text)%nat -> Q (Some (p, rest)) (<[p := (1%nat, Cert c)]> h)) ->
  runs (PEM_read_bio_X509 text) h Q.
Proof.
  intros Hn Hs. unfold PEM_read_bio_X509. destruct (PEM_read_X509 text) as [[c rest]|e] eqn:Hr.
  - apply read_shrinks in Hr. repeat step; [done|]. by apply Hs.
  - intros s <-. eexists _, _. by split.
Qed.

Lemma Certificate_FromPEMString_spec text h :
  runs (Certificate_FromPEMString text) h (made (fun o => exists c, o = Cert c) h).
Proof.
  unfold Certificate_FromPEMString. repeat step; [done|].
  apply PEM_read_bio_X509_spec; [|intros x c rest Hx _]; fresh_inv; repeat step; cbn [made]; [same_heap|].
  split; [done|]. exists (Cert c). split; [same_heap|by eexists].
Qed.

Lemma KeyPair_FromPEM_spec text h :
  runs (KeyPair_FromPrivateKeyPEMString text) h (made (fun o => exists k, o = Pkey (Some k)) h).
Proof.
  unfold KeyPair_FromPrivateKeyPEMString. step. step; [by step|]. step.
  destruct (PEM_read_PrivateKey text) as [k|]; repeat step; cbn [made]; try same_heap.
  split; [done|]. exists (Pkey (Some k)). split; [same_heap|by eexists].
Qed.

(** [plus l h]: the certificates [l], with a reference each, beside [h]. *)
Fixpoint plus (l : list (positive * x509)) (h : heap) : heap :=
  match l with [] => h | (p, c) :: l => <[p := (1%nat, Cert c)]> (plus l h) end.

Definition apart (l : list (positive * x509)) (h : heap) : Prop :=
  NoDup l.*1 /\ forall p, p ∈ l.*1 -> h !! p = None.

Lemma plus_other l h p : p ∉ l.*1 -> plus l h !! p = h !! p.
Proof.
  induction l as [|[q c] l IH]; [done|]. cbn. intros [Hne Hl]%not_elem_of_cons.
  rewrite lookup_insert_ne by done. by apply IH.
Qed.

Lemma plus_fresh l h p : plus l h !! p = None -> p ∉ l.*1 /\ h !! p = None.
Proof.
  induction l as [|[q c] l IH]; cbn; [by split; [apply not_elem_of_nil|]|].
  intros [Hp Hne]%lookup_insert_None. apply IH in Hp as [Hl Hh]. by split; [apply not_elem_of_cons|].
Qed.

Lemma plus_snoc l h p c : p ∉ l.*1 -> plus (l ++ [(p, c)]) h = <[p := (1%nat, Cert c)]> (plus l h).
Proof.
  induction l as [|[q d] l IH]; [done|]. cbn. intros [Hne Hl]%not_elem_of_cons.
  by rewrite IH, insert_insert_ne by done.
Qed.

Lemma plus_delete l h p : p ∉ l.*1 -> delete p (plus l h) = plus l (delete p h).
Proof.
  induction l as [|[q d] l IH]; [done|]. cbn. intros [Hne Hl]%not_elem_of_cons.
  by rewrite delete_insert_ne, IH by done.
Qed.

Lemma chain_delete_spec l h : apart l h -> runs (chain_delete l.*1) (plus l h) (fun _ h' => h' = h).
Proof.
  revert h. induction l as [|[p c] l IH]; intros h [Hnd Hh]; cbn [fmap list_fmap fst chain_delete plus].
  - by apply runs_ret.
  - cbn in Hnd; apply list.NoDup_cons in Hnd as [Hp Hnd]. step. step. step.
    rewrite delete_insert_id by (rewrite plus_other by done; apply Hh, list.elem_of_cons; by left).
    apply IH. split; [done|]. intros q Hq. apply Hh, list.elem_of_cons. by right.
Qed.

(** The loop over a chain ends within a round for each byte of the text; it
    leaves the certificates it answers, or nothing. *)
Lemma chain_loop_spec fuel b o text l h :
  (length text < fuel)%nat -> h !! b = None -> apart l (<[b := (1%nat, o)]> h) ->
  runs (chain_loop fuel (Some b) text l.*1) (plus l (<[b := (1%nat, o)]> h)) (fun r h' =>
    match r with
    | None => h' = h
    | Some certs => exists l', certs = l'.*1 /\ apart l' (<[b := (1%nat, o)]> h) /\ h' = plus l' (<[b := (1%nat, o)]> h)
    end).
Proof.
  revert text l. induction fuel as [|fuel IH]; intros text l Hf Hb Hl; [lia|]. cbn [chain_loop].
  assert (Hbl : b ∉ l.*1).
  { intros Hin. apply Hl in Hin. by rewrite lookup_insert_eq in Hin. }
  step. apply PEM_read_bio_X509_spec.
  - intros s Hs. destruct (decide (hd 0 (errs s) = PEM_R_NO_START_LINE)).
    + eexists _, _. split; [done|]. by exists l.
    + revert s Hs n. cut (runs (_ ← free (Some b); _ ← chain_delete l.*1; mret (@None (list OpenSSLCertificate)))
        (plus l (<[b := (1%nat, o)]> h)) (fun r h' => r = None /\ h' = h)).
      { intros Hr s Hs _. destruct (Hr s Hs) as (r & s' & Hrun & -> & Hh). by exists None, s'. }
      step. eapply runs_free_last; [by rewrite plus_other, lookup_insert_eq|].
      rewrite plus_delete, delete_insert_id by done. step.
      eapply runs_weaken; [apply chain_delete_spec|intros [] h' ->; by step].
      destruct Hl as [Hnd Hl]. split; [done|]. intros p Hp. specialize (Hl p Hp).
      by apply lookup_insert_None in Hl as [? _].
  - intros x c rest [Hx Hh]%plus_fresh Hlen. repeat step.
    rewrite <- (plus_snoc l _ x c Hx).
    specialize (IH rest (l ++ [(x, c)])). rewrite fmap_app in IH. apply IH; [lia|done|].
    destruct Hl as [Hnd Hl]. split.
    + rewrite fmap_app. apply list.NoDup_app. split_and!; [done| |apply list.NoDup_singleton].
      intros p Hp ->%list_elem_of_singleton. done.
    + intros p. rewrite fmap_app, list.elem_of_app. intros [Hp| ->%list_elem_of_singleton]; [by apply Hl|done].
Qed.

(** ** Properties *)

(** C8. Whatever calls of OpenSSL fail, generating a certificate leaves either
    nothing behind or an identity with one reference to its key pair and one to
    its certificate, which deleting it releases; the certificate is signed with
    its own key and expires when it was asked to, after a year at the latest. *)
Theorem generated_certificate kp ms now h :
  IsValid kp = Ok true -> 0 <= ms -> 0 <= now -> now + kYearInSeconds < 253402300800 ->
  runs (GenerateCertificate kp (Some ms) now) h (fun r h' =>
    match r with
    | None => h' = h
    | Some i =>
        (exists k c, owns i k c h h' /\ key_type k = type_ kp /\ x_pubkey c = Some k /\ x_signed_by c = Some k) /\
        runs (Expires i) h' (fun e h'' => e = 1000 * (now + Z.min (ms / 1000) kYearInSeconds) /\ h'' = h') /\
        runs (Identity_delete i) h' (fun _ h'' => h'' = h)
    end).
Proof.
  intros Hv Hms Hnow Hend. unfold GenerateCertificate. step. eapply runs_lift; [exact Hv|]. cbn [negb].
  set (life := Z.min (ms / 1000) kYearInSeconds).
  assert (Hlife : 0 <= life <= kYearInSeconds) by (unfold life, kYearInSeconds; lia).
  unfold CreateWithExpiration. step; [by step|].
  eapply runs_weaken; [by apply CreateInternal_owns|]. intros [i|] h'; [|done].
  intros (k & c & Ho & Hk & Hp & Hs & _ & _ & _ & _ & Hafter). cbn [not_after] in Hafter.
  destruct i as [pk chain], Ho as (x & Hchain & Hpk & Hx & Hne & ->). cbn [key_pair_ cert_chain_] in *. subst chain.
  split; [|split].
  - exists k, c. split; [by exists x|done].
  - unfold Expires, identity_certificate. cbn [cert_chain_]. step. step. step.
    eapply runs_weaken; [eapply CertificateExpirationTime_spec; [lookup| |exact Hafter]; lia|].
    intros e h' [-> ->]. repeat step. split; [|done].
    replace (now + life =? -1) with false by lia. cbn [negb].
    clearbody life. unfold kNumMillisecsPerSec, kYearInSeconds in *.
    rewrite (u64_small (now + life)), u64_small by lia. lia.
  - unfold Identity_delete. cbn [cert_chain_ chain_delete key_pair_]. repeat step. unfold OpenSSLKeyPair, OpenSSLCertificate in *. same_heap.
Qed.

End Specs.

(** *** An instance of the library *)
Definition toy_time (n : Z) : option asn1_time :=
  if decide (0 <= n < 253402300800)
  then Some (if decide (tm_year (tm_of_seconds n) + 1900 < 2050)
             then mkAsn1Time V_ASN1_UTCTIME (asn1_text false (tm_of_seconds n))
             else mkAsn1Time V_ASN1_GENERALIZEDTIME (asn1_text true (tm_of_seconds n)))
  else None.

#[export] Program Instance toy_ssl : SslLib := {
  X509_empty := mkX509 None 0 0 [] [] (mkAsn1Time V_ASN1_OTHER []) (mkAsn1Time V_ASN1_OTHER []) None;
  time_of_seconds := toy_time;
  rand_bits := fun s n => s mod 2 ^ n;
  PEM_write_X509 := fun c => x_subject c;
  PEM_write_PrivateKey := fun _ => [];
  PEM_write_PUBKEY := fun _ => [];
  PEM_read_PrivateKey := fun _ => None;
  missing_parameters := fun _ => false;
  PEM_read_X509 := fun _ => inr PEM_R_NO_START_LINE;
}.
Next Obligation. done. Qed.
Next Obligation. intros n Hn. unfold toy_time. by rewrite decide_True. Qed.

Definition start_state : ossl := mkOssl ∅ [] 7 [].

Lemma generated_certificate_witness :
  IsValid (mkKeyParams KT_ECDSA (curve EC_NIST_P256)) = Ok true /\
  exists i s,
    GenerateCertificate (mkKeyParams KT_ECDSA (curve EC_NIST_P256)) (Some k_year_in_ms) 1700000000 start_state
      = Ok (Some i, s) /\
    runs (Expires i) (refs s) (fun e h => e = 1731536000000 /\ h = refs s).
Proof.
  split; [reflexivity|].
  pose proof (generated_certificate (mkKeyParams KT_ECDSA (curve EC_NIST_P256)) k_year_in_ms 1700000000 ∅
    eq_refl ltac:(done) ltac:(done) ltac:(reflexivity) start_state eq_refl) as (r & s & Hr & HQ).
  destruct r as [i|]; [|vm_compute in Hr; discriminate Hr].
  exists i, s. split; [exact Hr|]. exact (proj1 (proj2 HQ)).
Defined.

(** The server makes its certificate when it starts and looks at its expiry only
    then: [get_dtls_certificate] hands it out after it has expired. *)
Example certificate_not_renewed :
  exists i s, generate_and_check_certificate None 1700000000000 start_state = Ok ((0, Some i), s) /\
    get_dtls_certificate (Some i) = Some i /\
    exists s', HasExpired i (1700000000000 + k_year_in_ms) s = Ok (true, s').
Proof. eexists _, _. split; [vm_compute; reflexivity|]. split; [reflexivity|]. eexists. vm_compute. reflexivity. Qed.

(** A second check within the year keeps the certificate; a later one replaces
    it and frees the old one. *)
Example certificate_checked_again :
  exists i j s s' s'',
    generate_and_check_certificate None 1700000000000 start_state = Ok ((0, Some i), s) /\
    generate_and_check_certificate (Some i) 1700000001000 s = Ok ((0, Some i), s') /\
    generate_and_check_certificate (Some i) (1700000000000 + k_year_in_ms) s' = Ok ((0, Some j), s'') /\
    size (refs s'') = 2%nat.
Proof.
  do 5 eexists. split; [vm_compute; reflexivity|]. split; [vm_compute; reflexivity|].
  split; [vm_compute; reflexivity|]. vm_compute. reflexivity.
Qed.

(** The loop over a chain looks at the oldest error of the queue: one that an
    earlier call left there turns the end of the chain into a failure. *)
Example stale_error_fails_chain :
  (exists s, chain_loop 1 None [] [] (mkOssl ∅ [] 0 []) = Ok (Some [], s)) /\
  (exists s, chain_loop 1 None [] [] (mkOssl ∅ [] 0 [42]) = Ok (None, s)).
Proof. split; eexists; reflexivity. Qed.
