(* ===== verification/Numerics.v ===== *)
(** * Integers of mixed types (rtc_base/numerics/safe_compare.h,
    safe_conversions.h, safe_conversions_impl.h, safe_minmax.h)

    The templates choose, from the types of their arguments, how two integers
    are compared, whether a value fits another type, and which type holds a
    minimum, a maximum or a clamped value.  A type is a value of [int_type]
    here; C++'s own conversions are written out, so that the theorems compare
    what the compiler does with the integers meant.  The branches for
    floating-point types are not modelled. *)
From S2P Require Import Prelude.

Local Open Scope Z_scope.

(** ** The integer types and C++'s conversions *)
Inductive int_type :=
  | int8_t | int16_t | int32_t | int64_t | uint8_t | uint16_t | uint32_t | uint64_t.

#[export] Instance int_type_eq_dec : EqDecision int_type.
Proof. solve_decision. Defined.

Definition is_signed (T : int_type) : bool :=
  match T with int8_t | int16_t | int32_t | int64_t => true | _ => false end.

Definition sizeof (T : int_type) : Z :=
  match T with
  | int8_t | uint8_t => 1 | int16_t | uint16_t => 2 | int32_t | uint32_t => 4 | int64_t | uint64_t => 8
  end.

Definition with_sign (s : bool) (size : Z) : int_type :=
  if size =? 1 then (if s then int8_t else uint8_t)
  else if size =? 2 then (if s then int16_t else uint16_t)
  else if size =? 4 then (if s then int32_t else uint32_t)
  else (if s then int64_t else uint64_t).

(** std::numeric_limits *)
Definition lowest (T : int_type) : Z := if is_signed T then - 2 ^ (8 * sizeof T - 1) else 0.
Definition max (T : int_type) : Z :=
  if is_signed T then 2 ^ (8 * sizeof T - 1) - 1 else 2 ^ (8 * sizeof T) - 1.

Definition holds (T : int_type) (v : Z) : Prop := lowest T <= v <= max T.

(** [static_cast<T>] *)
Definition convert (T : int_type) (v : Z) : Z :=
  let m := 2 ^ (8 * sizeof T) in
  if is_signed T then (v + m / 2) mod m - m / 2 else v mod m.

(** Unary plus, and the usual arithmetic conversions of two promoted types. *)
Definition promote (T : int_type) : int_type := if sizeof T <? 4 then int32_t else T.
Definition common (T1 T2 : int_type) : int_type :=
  let T1 := promote T1 in
  let T2 := promote T2 in
  if Bool.eqb (is_signed T1) (is_signed T2) then (if sizeof T1 <? sizeof T2 then T2 else T1)
  else
    let '(unsigned, signed) := if is_signed T1 then (T2, T1) else (T1, T2) in
    if sizeof signed <=? sizeof unsigned then unsigned else signed.

(** ** Comparison *)
Inductive cmp_op := EqOp | NeOp | LtOp | LeOp | GtOp | GeOp.

Definition cmp (o : cmp_op) (x y : Z) : bool :=
  match o with
  | EqOp => x =? y | NeOp => negb (x =? y) | LtOp => x <? y
  | LeOp => x <=? y | GtOp => y <? x | GeOp => y <=? x
  end.

(** [a op b] as C++ evaluates it. *)
Definition Op (o : cmp_op) (T1 : int_type) (a : Z) (T2 : int_type) (b : Z) : bool :=
  cmp o (convert (common T1 T2) a) (convert (common T1 T2) b).

(** [int_size] is the size of a pointer. *)
Section compare.
Context (int_size : Z).

Definition LargerIntImpl (N : Z) : option int_type :=
  if N =? 1 then Some int16_t else if N =? 2 then Some int32_t else if N =? 4 then Some int64_t else None.

Definition LargerInt (T1 T2 : int_type) : option int_type :=
  LargerIntImpl (if (sizeof T1 <? sizeof T2) || (sizeof T1 <? int_size) then sizeof T1 else 0).

Definition make_unsigned (T : int_type) : int_type := with_sign false (sizeof T).
Definition MakeUnsigned (T : int_type) (a : Z) : Z := convert (make_unsigned T) a.

(** The five overloads; the constants of the last two are [int]s. *)
Definition Cmp (o : cmp_op) (T1 : int_type) (a : Z) (T2 : int_type) (b : Z) : bool :=
  if Bool.eqb (is_signed T1) (is_signed T2) then Op o T1 a T2 b
  else if is_signed T1 then
    match LargerInt T2 T1 with
    | Some L => Op o T1 a L (convert L b)
    | None =>
        if Op LtOp T1 a int32_t 0 then Op o int32_t (-1) int32_t 0
        else Op o (make_unsigned T1) (MakeUnsigned T1 a) T2 b
    end
  else
    match LargerInt T1 T2 with
    | Some L => Op o L (convert L a) T2 b
    | None =>
        if Op LtOp T2 b int32_t 0 then Op o int32_t 0 int32_t (-1)
        else Op o T1 a (make_unsigned T2) (MakeUnsigned T2 b)
    end.

(** SafeEq, SafeNe, SafeLt, SafeLe, SafeGt and SafeGe *)
Definition Safe (o : cmp_op) (T1 : int_type) (a : Z) (T2 : int_type) (b : Z) : bool :=
  Cmp o (promote T1) (convert (promote T1) a) (promote T2) (convert (promote T2) b).

(** ** Range checks *)
Inductive DstRange := OVERLAPS_RANGE | CONTAINS_RANGE.
Inductive RangeCheckResult := TYPE_VALID | TYPE_UNDERFLOW | TYPE_OVERFLOW | TYPE_INVALID.

(** [RangeCheckResult(int)] of the macro's disjunction. *)
Definition range_check_result (is_in_upper_bound is_in_lower_bound : bool) : RangeCheckResult :=
  match Z.lor (if is_in_upper_bound then 0 else 2) (if is_in_lower_bound then 0 else 1) with
  | 0 => TYPE_VALID | 1 => TYPE_UNDERFLOW | 2 => TYPE_OVERFLOW | _ => TYPE_INVALID
  end.

Definition StaticRangeCheck (Dst Src : int_type) : DstRange :=
  match is_signed Dst, is_signed Src with
  | true, true => if sizeof Src * 8 - 1 <=? sizeof Dst * 8 - 1 then CONTAINS_RANGE else OVERLAPS_RANGE
  | false, false => if sizeof Src <=? sizeof Dst then CONTAINS_RANGE else OVERLAPS_RANGE
  | true, false => if sizeof Src * 8 <=? sizeof Dst * 8 - 1 then CONTAINS_RANGE else OVERLAPS_RANGE
  | false, true => OVERLAPS_RANGE
  end.

(** RangeCheckImpl::Check of the five specializations. *)
Definition RangeCheck (Dst Src : int_type) (value : Z) : RangeCheckResult :=
  let le x y := Op LeOp Src x Src y in
  match StaticRangeCheck Dst Src with
  | CONTAINS_RANGE => TYPE_VALID
  | OVERLAPS_RANGE =>
      match is_signed Dst, is_signed Src with
      | true, true =>
          range_check_result (le value (convert Src (max Dst))) (le (convert Src (lowest Dst)) value)
      | false, false => range_check_result (le value (convert Src (max Dst))) true
      | true, false =>
          if sizeof Src <? sizeof Dst then TYPE_VALID
          else range_check_result (le value (convert Src (max Dst))) true
      | false, true =>
          if sizeof Src * 8 - 1 <=? sizeof Dst * 8 then range_check_result true (le (convert Src 0) value)
          else range_check_result (le value (convert Src (max Dst))) (le (convert Src 0) value)
      end
  end.

Definition IsValueInRangeForNumericType (Dst Src : int_type) (value : Z) : bool :=
  match RangeCheck Dst Src value with TYPE_VALID => true | _ => false end.

(** [checked_cast], and [dchecked_cast] of a build with RTC_DCHECK_IS_ON. *)
Definition checked_cast (Dst Src : int_type) (value : Z) : res Z :=
  _ ← require (IsValueInRangeForNumericType Dst Src value) AssertFailed; Ok (convert Dst value).

Definition saturated_cast (Dst Src : int_type) (value : Z) : res Z :=
  match RangeCheck Dst Src value with
  | TYPE_VALID => Ok (convert Dst value)
  | TYPE_UNDERFLOW => Ok (lowest Dst)
  | TYPE_OVERFLOW => Ok (max Dst)
  | TYPE_INVALID => Fail AssertFailed
  end.

(** ** Minimum, maximum, clamping

    A template whose static_assert fails does not compile: [None]. *)
Definition static_assert (b : bool) : option unit := if b then Some tt else None.

Definition min_t (T1 T2 : int_type) : int_type :=
  if Safe LtOp T1 (lowest T1) T2 (lowest T2) then T1
  else if Safe GtOp T1 (lowest T1) T2 (lowest T2) then T2
  else if Safe LeOp T1 (max T1) T2 (max T2) then T1 else T2.

Definition max_t (T1 T2 : int_type) : option int_type :=
  _ ← static_assert (Safe NeOp T1 (max T1) T2 (max T2) || Safe EqOp T1 (lowest T1) T2 (lowest T2));
  Some (if Safe GeOp T1 (max T1) T2 (max T2) then T1 else T2).

(** [None] is DefaultType. *)
Definition TypeOr (A : option int_type) (B : int_type) : option int_type :=
  let type := default B A in
  _ ← static_assert (Safe LeOp type (lowest type) B (lowest B) && Safe GeOp type (max type) B (max B));
  Some type.

(** The results carry their type. *)
Definition SafeMin (R : option int_type) (T1 : int_type) (a : Z) (T2 : int_type) (b : Z) : option (int_type * Z) :=
  R2 ← TypeOr R (min_t T1 T2);
  Some (R2, if Safe LtOp T1 a T2 b then convert R2 a else convert R2 b).

Definition SafeMax (R : option int_type) (T1 : int_type) (a : Z) (T2 : int_type) (b : Z) : option (int_type * Z) :=
  M ← max_t T1 T2;
  R2 ← TypeOr R M;
  Some (R2, if Safe GtOp T1 a T2 b then convert R2 a else convert R2 b).

(** ClampType: the range of the result, and a type that holds it. *)
Section ClampType.
Context (T L H : int_type).

Definition r_min : option (int_type * Z) :=
  '(M, m) ← SafeMin None H (lowest H) T (lowest T); SafeMax None L (lowest L) M m.
Definition r_max : option (int_type * Z) :=
  '(M, m) ← SafeMax None L (max L) T (max T); SafeMin None H (max H) M m.

Definition AcceptableType (A : int_type) : option bool :=
  '(Tmin, vmin) ← r_min;
  '(Tmax, vmax) ← r_max;
  let not_too_large :=
    (sizeof A <=? sizeof L) || (sizeof A <=? sizeof H) || (sizeof A <=? sizeof T) in
  let range_contained := Safe LeOp A (lowest A) Tmin vmin && Safe LeOp Tmax vmax A (max A) in
  Some (not_too_large && range_contained).

Definition best_of (signed : bool) : option int_type :=
  a8 ← AcceptableType (with_sign signed 1);
  a16 ← AcceptableType (with_sign signed 2);
  a32 ← AcceptableType (with_sign signed 4);
  Some (with_sign signed (if (a8 : bool) then 1 else if (a16 : bool) then 2 else if (a32 : bool) then 4 else 8)).

Definition ClampType : option int_type :=
  best ← best_of (is_signed T);
  other ← best_of (negb (is_signed T));
  ok ← AcceptableType best;
  let type := if (ok : bool) then best else other in
  ok ← AcceptableType type;
  _ ← static_assert ok;
  Some type.
End ClampType.

(** [None]: does not compile; the inner result fails when [min > max]. *)
Definition SafeClamp (R : option int_type) (T : int_type) (x : Z) (L : int_type) (min : Z)
    (H : int_type) (max : Z) : option (res (int_type * Z)) :=
  C ← ClampType T L H;
  R2 ← TypeOr R C;
  Some (_ ← require (Safe LeOp L min H max) AssertFailed;
        Ok (R2, if Safe LeOp T x L min then convert R2 min
                else if Safe GeOp T x H max then convert R2 max else convert R2 x)).
End compare.

(** ** Conversions within range *)
Lemma holds_bounds T v :
  holds T v <->
  match T with
  | int8_t => -128 <= v <= 127
  | int16_t => -32768 <= v <= 32767
  | int32_t => -2147483648 <= v <= 2147483647
  | int64_t => -9223372036854775808 <= v <= 9223372036854775807
  | uint8_t => 0 <= v <= 255
  | uint16_t => 0 <= v <= 65535
  | uint32_t => 0 <= v <= 4294967295
  | uint64_t => 0 <= v <= 18446744073709551615
  end.
Proof. by destruct T. Qed.

Ltac ranges :=
  rewrite ?holds_bounds in *;
  cbn [common promote is_signed sizeof Bool.eqb Z.ltb Z.leb Z.compare Pos.compare Pos.compare_cont
       with_sign make_unsigned Z.eqb Pos.eqb] in *;
  lia.

Lemma convert_eq T v :
  convert T v =
  match T with
  | int8_t => (v + 128) mod 256 - 128
  | int16_t => (v + 32768) mod 65536 - 32768
  | int32_t => i32 v
  | int64_t => i64 v
  | uint8_t => u8 v
  | uint16_t => u16 v
  | uint32_t => u32 v
  | uint64_t => u64 v
  end.
Proof. by destruct T. Qed.

Lemma convert_id T v : holds T v -> convert T v = v.
Proof.
  rewrite convert_eq. intros Hv. unfold u8, u16, u32, u64, i32, i64.
  destruct T; rewrite holds_bounds in Hv; rewrite Z.mod_small; lia.
Qed.

Lemma convert_holds T v : holds T (convert T v).
Proof.
  apply holds_bounds. rewrite convert_eq. unfold u8, u16, u32, u64, i32, i64.
  destruct T; match goal with |- context [?x mod ?m] => pose proof (Z.mod_pos_bound x m) end; lia.
Qed.

Lemma holds_promote T v : holds T v -> holds (promote T) v.
Proof. destruct T; ranges. Qed.

(** C++'s own comparison is right when the common type holds both sides. *)
Lemma Op_exact o T1 a T2 b :
  holds (common T1 T2) a -> holds (common T1 T2) b -> Op o T1 a T2 b = cmp o a b.
Proof. intros Ha Hb. unfold Op. by rewrite !convert_id. Qed.

(** Otherwise it need not be. *)
Example naive_comparison : Op LtOp int32_t (-1) uint32_t 1 = false.
Proof. reflexivity. Qed.

Lemma cmp_sign_lt o a b : a < 0 -> 0 <= b -> cmp o (-1) 0 = cmp o a b.
Proof. intros. destruct o; cbn; lia. Qed.
Lemma cmp_sign_gt o a b : 0 <= a -> b < 0 -> cmp o 0 (-1) = cmp o a b.
Proof. intros. destruct o; cbn; lia. Qed.

Lemma larger_of int_size T1 T2 L :
  LargerInt int_size T1 T2 = Some L ->
  is_signed L = true /\ 2 * sizeof T1 = sizeof L.
Proof.
  unfold LargerInt, LargerIntImpl. destruct ((_ <? _) || _); [|done].
  destruct T1; cbn; intros [= <-]; done.
Qed.

(** Each overload of [Cmp] compares in a type that holds both sides, or has
    decided by the sign. *)
Lemma Cmp_exact int_size o T1 a T2 b :
  holds T1 a -> holds T2 b -> Cmp int_size o T1 a T2 b = cmp o a b.
Proof.
  intros Ha Hb. unfold Cmp, MakeUnsigned.
  destruct (Bool.eqb (is_signed T1) (is_signed T2)) eqn:Es.
  { apply Op_exact; destruct T1, T2; try discriminate Es; ranges. }
  destruct (is_signed T1) eqn:E1.
  - destruct (LargerInt int_size T2 T1) as [Lt|] eqn:El.
    + apply larger_of in El as [Hs Hl]. rewrite convert_id; [apply Op_exact|];
        destruct T1; try discriminate E1; destruct T2; try discriminate Es;
          destruct Lt; try discriminate Hl; try discriminate Hs; ranges.
    + rewrite Op_exact by (destruct T1; ranges). cbn [cmp]. destruct (Z.ltb_spec a 0).
      * rewrite Op_exact by ranges. apply cmp_sign_lt; [done|]. destruct T2; ranges.
      * rewrite convert_id; [apply Op_exact|]; destruct T1; try discriminate E1; destruct T2; try discriminate Es; ranges.
  - destruct (LargerInt int_size T1 T2) as [Lt|] eqn:El.
    + apply larger_of in El as [Hs Hl]. rewrite convert_id; [apply Op_exact|];
        destruct T1; try discriminate E1; destruct T2; try discriminate Es;
          destruct Lt; try discriminate Hl; try discriminate Hs; ranges.
    + rewrite Op_exact by (destruct T2; ranges). cbn [cmp]. destruct (Z.ltb_spec b 0).
      * rewrite Op_exact by ranges. apply cmp_sign_gt; [|done]. destruct T1; ranges.
      * rewrite convert_id; [apply Op_exact|]; destruct T1; try discriminate E1; destruct T2; try discriminate Es; ranges.
Qed.

(** The comparisons of integers of any two types are those of the integers
    themselves, whichever overload the types select and whatever the size of
    a pointer is. *)
Theorem safe_compare_exact int_size o T1 a T2 b :
  holds T1 a -> holds T2 b -> Safe int_size o T1 a T2 b = cmp o a b.
Proof.
  intros Ha%holds_promote Hb%holds_promote. unfold Safe.
  rewrite !convert_id by done. by apply Cmp_exact.
Qed.

(** ** Range checks *)
Definition range_of (Dst : int_type) (value : Z) : RangeCheckResult :=
  if value <? lowest Dst then TYPE_UNDERFLOW else if max Dst <? value then TYPE_OVERFLOW else TYPE_VALID.

Lemma Op_le_exact T a b : holds T a -> holds T b -> Op LeOp T a T b = (a <=? b).
Proof. intros Ha Hb. apply (Op_exact LeOp); destruct T; ranges. Qed.

Lemma holds_0 T : holds T 0.
Proof. destruct T; ranges. Qed.

(** What the static part of the check has found out. *)
Lemma static_contains Dst Src :
  StaticRangeCheck Dst Src = CONTAINS_RANGE -> lowest Dst <= lowest Src /\ max Src <= max Dst.
Proof. by destruct Dst, Src. Qed.

Lemma static_overlaps Dst Src :
  StaticRangeCheck Dst Src = OVERLAPS_RANGE ->
  match is_signed Dst, is_signed Src with
  | true, true => holds Src (max Dst) /\ holds Src (lowest Dst)
  | false, false => holds Src (max Dst) /\ lowest Dst = lowest Src
  | true, false => (sizeof Src <? sizeof Dst) = false /\ holds Src (max Dst) /\ lowest Dst <= lowest Src
  | false, true =>
      lowest Dst = 0 /\
      if sizeof Src * 8 - 1 <=? sizeof Dst * 8 then max Src <= max Dst else holds Src (max Dst)
  end.
Proof. by destruct Dst, Src. Qed.

Lemma lowest_max T : lowest T <= max T.
Proof. by destruct T. Qed.

Lemma range_result Dst v up low :
  up = (v <=? max Dst) -> low = (lowest Dst <=? v) -> range_check_result up low = range_of Dst v.
Proof.
  intros -> ->. pose proof (lowest_max Dst). unfold range_of.
  destruct (Z.leb_spec v (max Dst)), (Z.leb_spec (lowest Dst) v),
    (Z.ltb_spec v (lowest Dst)), (Z.ltb_spec (max Dst) v); try done; lia.
Qed.

(** [RangeCheck] finds on which side of the destination's range a value of
    any source type is. *)
Lemma RangeCheck_exact Dst Src v : holds Src v -> RangeCheck Dst Src v = range_of Dst v.
Proof.
  intros Hv. unfold RangeCheck. pose proof Hv as [Hl Hh]. pose proof (holds_0 Src).
  destruct (StaticRangeCheck Dst Src) eqn:E; cbn zeta.
  - apply static_overlaps in E. destruct (is_signed Dst), (is_signed Src).
    + destruct E as [? ?]. rewrite !convert_id, !Op_le_exact by done. by apply range_result.
    + destruct E as (-> & ? & ?). rewrite !convert_id, !Op_le_exact by done. apply range_result; [done|lia].
    + destruct E as [E0 E]. rewrite convert_id, Op_le_exact by done. destruct (_ <=? _).
      * apply range_result; [lia|by rewrite E0].
      * rewrite convert_id, Op_le_exact by done. apply range_result; [done|by rewrite E0].
    + destruct E as [? ?]. rewrite !convert_id, !Op_le_exact by done. apply range_result; [done|lia].
  - apply static_contains in E. rewrite <- (range_result Dst v true true); [done|lia..].
Qed.

(** The check of a conversion fails exactly when the value does not fit;
    otherwise the value is kept.  The saturating conversion gives the nearest
    value of the destination. *)
Theorem casts_exact Dst Src v :
  holds Src v ->
  IsValueInRangeForNumericType Dst Src v = bool_decide (holds Dst v) /\
  checked_cast Dst Src v = (if bool_decide (holds Dst v) then Ok v else Fail AssertFailed) /\
  saturated_cast Dst Src v = Ok (Z.max (lowest Dst) (Z.min v (max Dst))).
Proof.
  intros Hv. unfold checked_cast, saturated_cast, IsValueInRangeForNumericType.
  rewrite RangeCheck_exact by done. unfold range_of, holds. pose proof (lowest_max Dst).
  destruct (Z.ltb_spec v (lowest Dst)); [|destruct (Z.ltb_spec (max Dst) v)].
  1, 2: rewrite bool_decide_eq_false_2 by lia; cbn; repeat split; f_equal; lia.
  rewrite bool_decide_eq_true_2 by lia. cbn [require]. rewrite bind_ok, !convert_id by (split; lia).
  repeat split. f_equal. lia.
Qed.

(** ** Minimum, maximum, clamping *)
Section minmax.
Context (int_size : Z).

Lemma holds_lowest T : holds T (lowest T).
Proof. destruct T; split; vm_compute; congruence. Qed.
Lemma holds_max T : holds T (max T).
Proof. destruct T; split; vm_compute; congruence. Qed.

Lemma Safe_cmp o T1 a T2 b : holds T1 a -> holds T2 b -> Safe int_size o T1 a T2 b = cmp o a b.
Proof.
  intros Ha%holds_promote Hb%holds_promote. unfold Safe.
  rewrite !convert_id by done. by apply Cmp_exact.
Qed.

Lemma min_t_spec T1 T2 :
  let M := min_t int_size T1 T2 in
  lowest M = Z.min (lowest T1) (lowest T2) /\ Z.min (max T1) (max T2) <= max M /\ (M = T1 \/ M = T2).
Proof.
  unfold min_t. rewrite !Safe_cmp by auto using holds_lowest, holds_max.
  destruct T1, T2; vm_compute; intuition congruence.
Qed.

Lemma max_t_spec T1 T2 :
  exists M, max_t int_size T1 T2 = Some M /\
    max M = Z.max (max T1) (max T2) /\ lowest M <= Z.max (lowest T1) (lowest T2) /\ (M = T1 \/ M = T2).
Proof.
  unfold max_t. rewrite !Safe_cmp by auto using holds_lowest, holds_max. cbn [cmp].
  assert (negb (max T1 =? max T2) || (lowest T1 =? lowest T2) = true) as -> by by destruct T1, T2.
  cbn. destruct (Z.leb_spec (max T2) (max T1)); eexists; (split; [done|]); (split; [lia|]);
    (split; [lia|]); tauto.
Qed.

(** A result type that was asked for has to hold what the computed one holds. *)
Lemma TypeOr_spec A B :
  match TypeOr int_size A B with
  | Some R => R = default B A /\ lowest R <= lowest B /\ max B <= max R
  | None => A <> None
  end.
Proof.
  unfold TypeOr. rewrite !Safe_cmp by auto using holds_lowest, holds_max. cbn [cmp].
  destruct (Z.leb_spec (lowest (default B A)) (lowest B)), (Z.leb_spec (max B) (max (default B A)));
    cbn; try (repeat split; lia); destruct A; cbn in *; try done; lia.
Qed.

(** The minimum and the maximum of integers of two types, in a type that
    holds it; without a type asked for there always is one. *)
Lemma SafeMin_exact R T1 a T2 b :
  holds T1 a -> holds T2 b ->
  match SafeMin int_size R T1 a T2 b with
  | Some (R2, v) => v = Z.min a b /\ holds R2 v /\ (R = None -> R2 = min_t int_size T1 T2)
  | None => R <> None
  end.
Proof.
  intros Ha Hb. unfold SafeMin. pose proof (TypeOr_spec R (min_t int_size T1 T2)) as HR.
  destruct (min_t_spec T1 T2) as (Hl & Hm & _).
  destruct (TypeOr _ _ _) as [R2|]; cbn; [|done]. destruct HR as (-> & ? & ?).
  rewrite Safe_cmp by done. cbn [cmp].
  assert (holds (default (min_t int_size T1 T2) R) (Z.min a b)) by (unfold holds in *; lia).
  destruct (Z.ltb_spec a b); rewrite convert_id.
  all: try (split; [|split]; [lia| |by intros ->]).
  all: by (replace a with (Z.min a b) by lia) || by (replace b with (Z.min a b) by lia).
Qed.

Lemma SafeMax_exact R T1 a T2 b :
  holds T1 a -> holds T2 b ->
  match SafeMax int_size R T1 a T2 b with
  | Some (R2, v) => v = Z.max a b /\ holds R2 v /\ (R = None -> Some R2 = max_t int_size T1 T2)
  | None => R <> None
  end.
Proof.
  intros Ha Hb. unfold SafeMax. destruct (max_t_spec T1 T2) as (M & -> & Hm & Hl & _). cbn.
  pose proof (TypeOr_spec R M) as HR.
  destruct (TypeOr _ _ _) as [R2|]; cbn; [|done]. destruct HR as (-> & ? & ?).
  rewrite Safe_cmp by done. cbn [cmp].
  assert (holds (default M R) (Z.max a b)) by (unfold holds in *; lia).
  destruct (Z.ltb_spec b a); rewrite convert_id.
  all: try (split; [|split]; [lia| |by intros ->]).
  all: by (replace a with (Z.max a b) by lia) || by (replace b with (Z.max a b) by lia).
Qed.

(** ** The type of a clamped value *)
Definition least (T L H : int_type) : Z := Z.max (lowest L) (Z.min (lowest H) (lowest T)).
Definition greatest (T L H : int_type) : Z := Z.min (max H) (Z.max (max L) (max T)).

Definition acceptable (T L H A : int_type) : bool :=
  ((sizeof A <=? sizeof L) || (sizeof A <=? sizeof H) || (sizeof A <=? sizeof T)) &&
  ((lowest A <=? least T L H) && (greatest T L H <=? max A)).

Lemma r_min_spec T L H : exists M, r_min int_size T L H = Some (M, least T L H) /\ holds M (least T L H).
Proof.
  unfold r_min. pose proof (SafeMin_exact None _ _ _ _ (holds_lowest H) (holds_lowest T)) as E.
  destruct (SafeMin _ _ _ _ _ _) as [[M v]|]; [|done]. destruct E as (-> & Hv & _). cbn.
  pose proof (SafeMax_exact None _ _ _ _ (holds_lowest L) Hv) as E.
  destruct (SafeMax _ _ _ _ _ _) as [[M' v]|]; [|done]. destruct E as (-> & Hv' & _). by exists M'.
Qed.

Lemma r_max_spec T L H : exists M, r_max int_size T L H = Some (M, greatest T L H) /\ holds M (greatest T L H).
Proof.
  unfold r_max. pose proof (SafeMax_exact None _ _ _ _ (holds_max L) (holds_max T)) as E.
  destruct (SafeMax _ _ _ _ _ _) as [[M v]|]; [|done]. destruct E as (-> & Hv & _). cbn.
  pose proof (SafeMin_exact None _ _ _ _ (holds_max H) Hv) as E.
  destruct (SafeMin _ _ _ _ _ _) as [[M' v]|]; [|done]. destruct E as (-> & Hv' & _). by exists M'.
Qed.

Lemma AcceptableType_exact T L H A : AcceptableType int_size T L H A = Some (acceptable T L H A).
Proof.
  unfold AcceptableType. destruct (r_min_spec T L H) as (M1 & -> & H1), (r_max_spec T L H) as (M2 & -> & H2).
  cbn. by rewrite !Safe_cmp by auto using holds_lowest, holds_max.
Qed.

(** For any three types there is an acceptable one: the assertion in
    [ClampType] never fails. *)
Lemma ClampType_exists T L H :
  exists C, ClampType int_size T L H = Some C /\ acceptable T L H C = true.
Proof.
  unfold ClampType, best_of. rewrite !AcceptableType_exact. cbn [mbind option_bind].
  rewrite !AcceptableType_exact. cbn [mbind option_bind].
  set (best := with_sign _ _). set (other := with_sign _ _). rewrite AcceptableType_exact.
  cbn [mbind option_bind].
  assert (acceptable T L H (if acceptable T L H best then best else other) = true) as E.
  { subst best other. by destruct T, L, H. }
  rewrite E. cbn. by eexists.
Qed.

(** Clamping compiles for every combination of integer types, into a type
    no larger than all three; the value in it is the clamped integer, and
    nothing but a lower bound above the upper one makes it fail. *)
Theorem clamp_exact T x L lo H hi :
  holds T x -> holds L lo -> holds H hi ->
  exists C, ClampType int_size T L H = Some C /\
    (sizeof C <= sizeof T \/ sizeof C <= sizeof L \/ sizeof C <= sizeof H) /\
    SafeClamp int_size None T x L lo H hi =
      Some (if lo <=? hi then Ok (C, Z.max lo (Z.min x hi)) else Fail AssertFailed) /\
    (lo <= hi -> holds C (Z.max lo (Z.min x hi))).
Proof.
  intros Hx Hlo Hhi. destruct (ClampType_exists T L H) as (C & HC & Hacc).
  apply andb_true_iff in Hacc as [Hsz [Hmin%Z.leb_le Hmax%Z.leb_le]%andb_true_iff].
  unfold least, greatest in *. rewrite !orb_true_iff, !Z.leb_le in Hsz.
  exists C. split; [done|]. split; [tauto|].
  assert (lo <= hi -> holds C (Z.max lo (Z.min x hi))) as Hres by (unfold holds in *; lia).
  split; [|done]. unfold SafeClamp. rewrite HC. cbn [mbind option_bind].
  unfold TypeOr. cbn [default from_option]. rewrite !Safe_cmp by auto using holds_lowest, holds_max.
  cbn [cmp]. rewrite !Z.leb_refl. cbn. f_equal. destruct (Z.leb_spec lo hi); cbn; [|done]. do 2 f_equal.
  specialize (Hres ltac:(done)).
  destruct (Z.leb_spec x lo); [|destruct (Z.leb_spec hi x)]; rewrite convert_id.
  all: try lia.
  all: match goal with |- holds _ ?v => by replace v with (Z.max lo (Z.min x hi)) by lia end.
Qed.
End minmax.

(** ** On concrete values *)

(** -1 and 4294967295u are different, and -1 is the smaller. *)
Example mixed_signs :
  Op EqOp int32_t (-1) uint32_t 4294967295 = true /\
  Safe 8 EqOp int32_t (-1) uint32_t 4294967295 = false /\
  Safe 8 LtOp int64_t (-1) uint64_t 0 = true.
Proof. repeat split. Qed.

(** The maximum of a signed byte and an unsigned one is an unsigned one, the
    minimum a signed one; a clamped uint32_t between signed bytes is an int8_t,
    as the bounds force it. *)
Example result_types :
  SafeMax 8 None int8_t (-5) uint8_t 200 = Some (uint8_t, 200) /\
  SafeMin 8 None int8_t (-5) uint8_t 200 = Some (int8_t, -5) /\
  SafeClamp 8 None uint32_t 70000 int8_t (-3) int8_t 100 = Some (Ok (int8_t, 100)) /\
  SafeMin 8 (Some uint8_t) int8_t (-5) uint8_t 200 = None.
Proof. repeat split. Qed.

Example saturated : saturated_cast int16_t int64_t 100000 = Ok 32767 /\ checked_cast int16_t int64_t 100000 = Fail AssertFailed.
Proof. split; reflexivity. Qed.

Lemma safe_compare_exact_witness :
  holds int32_t (-1) /\ holds uint32_t 1 /\ Safe 8 LtOp int32_t (-1) uint32_t 1 = true.
Proof.
  assert (holds int32_t (-1)) as H1 by (apply holds_bounds; lia).
  assert (holds uint32_t 1) as H2 by (apply holds_bounds; lia).
  split; [done|]. split; [done|]. rewrite (safe_compare_exact 8 LtOp int32_t (-1) uint32_t 1 H1 H2).
  reflexivity.
Defined.

Lemma casts_exact_witness : holds int64_t 300 /\ saturated_cast uint8_t int64_t 300 = Ok 255.
Proof.
  assert (holds int64_t 300) as H1 by (apply holds_bounds; lia). split; [done|].
  destruct (casts_exact uint8_t int64_t 300 H1) as (_ & _ & ->). reflexivity.
Defined.

Lemma clamp_exact_witness :
  holds uint32_t 70000 /\ holds int8_t (-3) /\ holds int8_t 100 /\
  exists C, SafeClamp 8 None uint32_t 70000 int8_t (-3) int8_t 100 = Some (Ok (C, 100)).
Proof.
  assert (holds uint32_t 70000) as H1 by (apply holds_bounds; lia).
  assert (holds int8_t (-3)) as H2 by (apply holds_bounds; lia).
  assert (holds int8_t 100) as H3 by (apply holds_bounds; lia).
  split; [done|]. split; [done|]. split; [done|].
  destruct (clamp_exact 8 uint32_t 70000 int8_t (-3) int8_t 100 H1 H2 H3) as (C & _ & _ & E & _).
  exists C. exact E.
Defined.
