(* ===== verification/FieldTrial.v ===== *)
(** * Field trials (system_wrappers/source/field_trial.cc)

    The process may be given a string of experiments, "name/group/name/group/",
    which the SSL adapter asks whether the legacy TLS versions are allowed.
    The file models the check of such a string, the look-up of a name, the
    merging of two strings, and the question of the adapter. *)
From S2P Require Import Prelude.
From S2P Require Import SUtil.
From S2P Require Import StringEncode.
From stdpp Require Import sorting.

Local Open Scope Z_scope.

Definition kPersistentStringSeparator : Z := chr "/".

(** The next name and group from [next_item], and where the following one
    starts; both loops below stop when there is none. *)
Definition next_pair (trials : bytes) (next_item : Z) : res (option (bytes * bytes * Z)) :=
  match find_from [kPersistentStringSeparator] trials next_item with
  | None => Ok None
  | Some name_end =>
      if next_item =? name_end then Ok None
      else
        match find_from [kPersistentStringSeparator] trials (name_end + 1) with
        | None => Ok None
        | Some group_name_end =>
            if name_end + 1 =? group_name_end then Ok None
            else
              name ← substr trials next_item (name_end - next_item);
              group_name ← substr trials (name_end + 1) (group_name_end - name_end - 1);
              Ok (Some (name, group_name, group_name_end + 1))
        end
  end.

Fixpoint valid_loop (fuel : nat) (trials : bytes) (next_item : Z)
    (field_trials : gmap bytes bytes) : res bool :=
  match fuel with
  | O => Fail OutOfFuel
  | S fuel =>
      if next_item <? zlen trials then
        p ← next_pair trials next_item;
        match p with
        | None => Ok false
        | Some (name, group_name, next_item) =>
            if bool_decide (is_Some (field_trials !! name) /\ field_trials !! name <> Some group_name)
            then Ok false
            else valid_loop fuel trials next_item (<[name := group_name]> field_trials)
        end
      else Ok true
  end.

Definition FieldTrialsStringIsValidInternal (trials : bytes) : res bool :=
  if bool_decide (trials = []) then Ok true else valid_loop (S (length trials)) trials 0 ∅.

Fixpoint insert_loop (fuel : nat) (idx : Z) (tokens : list bytes) (m : gmap bytes bytes) :
    res (gmap bytes bytes) :=
  match fuel with
  | O => Fail OutOfFuel
  | S fuel =>
      if idx <? u64 (zlen tokens - 1) then
        name ← from_opt OutOfBounds (tokens !! Z.to_nat idx);
        group ← from_opt OutOfBounds (tokens !! Z.to_nat (idx + 1));
        insert_loop fuel (idx + 2) tokens (<[name := group]> m)
      else Ok m
  end.

Definition InsertOrReplaceFieldTrialStringsInMap (fieldtrial_map : gmap bytes bytes) (trials_string : bytes) :
    res (gmap bytes bytes) :=
  valid ← FieldTrialsStringIsValidInternal trials_string;
  if (valid : bool) then
    tokens ← StringEncode.split trials_string kPersistentStringSeparator;
    insert_loop (S (length tokens)) 0 tokens fieldtrial_map
  else Ok fieldtrial_map.

(** std::map iterates in the order of its keys. *)
Fixpoint bytes_leb (s t : bytes) : bool :=
  match s, t with
  | [], _ => true
  | _ :: _, [] => false
  | x :: s, y :: t => (x <? y) || ((x =? y) && bytes_leb s t)
  end.

Definition key_le (p q : bytes * bytes) : Prop := bytes_leb p.1 q.1 = true.
#[export] Instance key_le_dec : RelDecision key_le.
Proof. intros p q. unfold key_le. apply _. Defined.

Definition in_order (m : gmap bytes bytes) : list (bytes * bytes) := merge_sort key_le (map_to_list m).

(** "name/group/", for every pair *)
Definition print_trials (l : list (bytes * bytes)) : bytes :=
  concat ((fun p => p.1 ++ kPersistentStringSeparator :: p.2 ++ [kPersistentStringSeparator]) <$> l).

Definition MergeFieldTrialsStrings (first second : bytes) : res bytes :=
  m ← InsertOrReplaceFieldTrialStringsInMap ∅ first;
  m ← InsertOrReplaceFieldTrialStringsInMap m second;
  Ok (print_trials (in_order m)).

Fixpoint find_loop (fuel : nat) (trials_string : bytes) (next_item : Z) (name : bytes) : res bytes :=
  match fuel with
  | O => Fail OutOfFuel
  | S fuel =>
      if next_item <? zlen trials_string then
        p ← next_pair trials_string next_item;
        match p with
        | None => Ok []
        | Some (field_name, field_value, next_item) =>
            if bool_decide (name = field_name) then Ok field_value
            else find_loop fuel trials_string next_item name
        end
      else Ok []
  end.

(** [trials_init_string], a null pointer at first *)
Definition Trials : Type := option bytes.

Definition FindFullName (trials_init_string : Trials) (name : bytes) : res bytes :=
  match trials_init_string with
  | None => Ok []
  | Some trials_string =>
      if bool_decide (trials_string = []) then Ok []
      else find_loop (S (length trials_string)) trials_string 0 name
  end.

Definition IsEnabled (t : Trials) (name : bytes) : res bool :=
  v ← FindFullName t name; Ok (bool_decide (find_from (lit "Enabled") v 0 = Some 0)).
Definition IsDisabled (t : Trials) (name : bytes) : res bool :=
  v ← FindFullName t name; Ok (bool_decide (find_from (lit "Disabled") v 0 = Some 0)).

Definition InitFieldTrialsFromString (trials_string : option bytes) : res Trials :=
  match trials_string with
  | None => Ok None
  | Some s =>
      valid ← FieldTrialsStringIsValidInternal s;
      _ ← require valid AssertFailed;
      Ok (Some s)
  end.

(** The adapter's question: the override of [SetAllowLegacyTLSProtocols], if
    any, or the trial. *)
Record LegacyTls := mkLegacy {
  g_use_legacy_tls_protocols_override : bool;
  g_allow_legacy_tls_protocols : bool
}.

Definition SetAllowLegacyTLSProtocols (g : LegacyTls) (allow : option bool) : LegacyTls :=
  match allow with
  | Some a => mkLegacy true a
  | None => mkLegacy false (g_allow_legacy_tls_protocols g)
  end.

Definition ShouldAllowLegacyTLSProtocols (g : LegacyTls) (t : Trials) : res bool :=
  if g_use_legacy_tls_protocols_override g then Ok (g_allow_legacy_tls_protocols g)
  else IsEnabled t (lit "WebRTC-LegacyTlsProtocols").

(** ** The strings as lists of pairs *)
#[local] Notation sep := kPersistentStringSeparator.

Definition good (x : bytes) : Prop := x <> [] /\ sep ∉ x.
Definition good_pair (p : bytes * bytes) : Prop := good p.1 /\ good p.2.

Lemma print_trials_cons n v l :
  print_trials ((n, v) :: l) =
    n ++ sep :: v ++ sep :: print_trials l.
Proof. unfold print_trials. cbn. by rewrite <- !app_assoc, <- app_comm_cons, <- app_assoc. Qed.

(** No pair starts here. *)
Definition no_pair (rest : bytes) : Prop :=
  forall n v r, good n -> good v ->
    rest <> n ++ sep :: v ++ sep :: r.

Lemma find_from_app c (pre s : bytes) :
  find_from [c] (pre ++ s) (zlen pre) = (fun i : nat => zlen pre + Z.of_nat i) <$> find_at [c] s.
Proof.
  unfold find_from. pose proof (zlen_nonneg s). rewrite zlen_app, (proj2 (Z.leb_le _ _)) by lia.
  unfold zlen. by rewrite Nat2Z.id, drop_app_length.
Qed.

Lemma find_sep (s : bytes) :
  sep ∉ s \/
  exists a t, s = a ++ sep :: t /\ sep ∉ a.
Proof.
  destruct (decide (sep ∈ s)) as [Hin|]; [right|by left].
  by apply list_elem_of_split_l in Hin.
Qed.

Lemma next_pair_good pre n v r :
  good n -> good v ->
  next_pair (pre ++ n ++ sep :: v ++ sep :: r) (zlen pre) =
    Ok (Some (n, v, zlen (pre ++ n ++ sep :: v ++ [sep]))).
Proof.
  intros [Hn Hns] [Hv Hvs]. unfold next_pair.
  assert (1 <= zlen n /\ 1 <= zlen v) as [Hn1 Hv1].
  { destruct n, v; try done. rewrite !zlen_cons. pose proof (zlen_nonneg n). pose proof (zlen_nonneg v). lia. }
  rewrite find_from_app, find_at_char_app by done. cbn [fmap option_fmap option_map].
  change (Z.of_nat (length n)) with (zlen n). rewrite (proj2 (Z.eqb_neq _ _)) by lia.
  assert (zlen pre + zlen n + 1 = zlen (pre ++ n ++ [sep])) as Hz by (rewrite !zlen_app, zlen_cons, zlen_nil; lia).
  rewrite Hz.
  assert (pre ++ n ++ sep :: v ++ sep :: r = (pre ++ n ++ [sep]) ++ v ++ sep :: r) as E
    by (by rewrite <- !app_assoc).
  rewrite E at 1. rewrite find_from_app, find_at_char_app by done. cbn [fmap option_fmap option_map].
  change (Z.of_nat (length v)) with (zlen v). rewrite (proj2 (Z.eqb_neq _ _)) by lia.
  rewrite (substr_mid pre n _ (zlen pre)) by lia. rewrite bind_ok. rewrite E.
  rewrite (substr_mid (pre ++ n ++ [sep]) v) by lia. rewrite bind_ok. do 4 f_equal.
  rewrite !zlen_app, !zlen_cons, !zlen_app, !zlen_cons, !zlen_nil. lia.
Qed.

Lemma next_pair_none pre rest : no_pair rest -> next_pair (pre ++ rest) (zlen pre) = Ok None.
Proof.
  intros Hno. unfold next_pair. rewrite find_from_app.
  destruct (find_sep rest) as [?|(n & t & -> & Hn)].
  { by rewrite find_at_char_None. }
  rewrite find_at_char_app by done. cbn [fmap option_fmap option_map].
  destruct (Z.eqb_spec (zlen pre) (zlen pre + Z.of_nat (length n))) as [|Hnz]; [done|].
  replace (zlen pre + Z.of_nat (length n) + 1) with (zlen (pre ++ n ++ [sep]))
    by (unfold zlen; rewrite !length_app; cbn; lia).
  assert (pre ++ n ++ sep :: t = (pre ++ n ++ [sep]) ++ t) as -> by (by rewrite <- !app_assoc).
  rewrite find_from_app. destruct (find_sep t) as [?|(v & r & -> & Hv)].
  { by rewrite find_at_char_None. }
  rewrite find_at_char_app by done. cbn [fmap option_fmap option_map].
  destruct (Z.eqb_spec (zlen (pre ++ n ++ [sep])) (zlen (pre ++ n ++ [sep]) + Z.of_nat (length v))) as [|Hvz]; [done|].
  destruct (Hno n v r); [split..|]; try done; intros ->; [apply Hnz|apply Hvz]; cbn [length]; lia.
Qed.

(** Every text is a list of pairs and a rest where none starts. *)
Lemma sep_unique c (a b t u : bytes) : a ++ c :: t = b ++ c :: u -> c ∉ a -> c ∉ b -> a = b /\ t = u.
Proof.
  revert b. induction a as [|x a IH]; intros [|y b] E Ha Hb.
  - by injection E as ->.
  - injection E as -> E. by destruct Hb; left.
  - injection E as -> E. by destruct Ha; left.
  - injection E as -> E. apply not_elem_of_cons in Ha as [_ Ha], Hb as [_ Hb].
    by destruct (IH b E Ha Hb) as [-> ->].
Qed.

Lemma decompose (s : bytes) :
  exists l rest, s = print_trials l ++ rest /\ Forall good_pair l /\ no_pair rest.
Proof.
  induction s as [s IH] using (induction_ltof1 _ (@length Z)). unfold ltof in IH.
  assert (no_pair s \/ exists n v r, good n /\ good v /\ s = n ++ sep :: v ++ sep :: r) as [Hno|(n & v & r & Hn & Hv & ->)].
  { destruct (find_sep s) as [Hs|(a & t & Hs & Ha)].
    { left. intros n v r _ _ ->. apply Hs, elem_of_app. right. left. }
    destruct (find_sep t) as [Ht|(b & r & -> & Hb)].
    { left. intros n v r [_ Hn] _ E. rewrite Hs in E. apply sep_unique in E as [-> ->]; [|done..].
      apply Ht, elem_of_app. right. left. }
    destruct (decide (a = [])) as [->|Ha']; [|destruct (decide (b = [])) as [->|Hb']].
    - left. intros n v r' [Hne Hn] _ E. rewrite Hs in E. by apply sep_unique in E as [<- _].
    - left. intros n v r' [_ Hn] [Hve Hv] E. rewrite Hs in E. apply sep_unique in E as [_ E]; [|done..].
      by apply sep_unique in E as [<- _].
    - right. by exists a, b, r. }
  - exists [], s. done.
  - destruct (IH r) as (l & rest & Hr & Hl & Hno).
    { rewrite !length_app. cbn. rewrite length_app. cbn. lia. }
    exists ((n, v) :: l), rest. rewrite print_trials_cons. split; [|split; [by constructor|done]].
    rewrite Hr. by rewrite <- !app_assoc, <- !app_comm_cons, <- !app_assoc.
Qed.

(** ** The loops *)

(** The loop of the check on what is left of the text; [known] are the
    assignments met before. *)
Fixpoint consistent_with (m : gmap bytes bytes) (l : list (bytes * bytes)) : bool :=
  match l with
  | [] => true
  | (n, v) :: l =>
      match m !! n with
      | Some w => bool_decide (w = v) && consistent_with (<[n := v]> m) l
      | None => consistent_with (<[n := v]> m) l
      end
  end.

(** How the text of a pair is bracketed when the loop is before it, and when
    it is past it. *)
Lemma pair_text n v l (pre rest : bytes) :
  pre ++ (n ++ sep :: v ++ sep :: print_trials l) ++ rest =
  pre ++ n ++ sep :: v ++ sep :: print_trials l ++ rest.
Proof. by rewrite <- app_assoc, <- app_comm_cons, <- app_assoc, <- app_comm_cons. Qed.

Lemma after_pair n v (pre r : bytes) :
  (pre ++ n ++ sep :: v ++ [sep]) ++ r = pre ++ n ++ sep :: v ++ sep :: r.
Proof. by rewrite <- !app_assoc, <- !app_comm_cons, <- !app_assoc. Qed.

Lemma before_pair n (pre r : bytes) : good n -> zlen pre < zlen (pre ++ n ++ r).
Proof.
  intros [Hn _]. rewrite !zlen_app. destruct n as [|x n]; [done|]. rewrite zlen_cons.
  pose proof (zlen_nonneg n). pose proof (zlen_nonneg r). lia.
Qed.

Lemma valid_loop_spec l rest pre m fuel :
  Forall good_pair l -> no_pair rest -> (length l < fuel)%nat ->
  valid_loop fuel (pre ++ print_trials l ++ rest) (zlen pre) m =
    Ok (consistent_with m l && bool_decide (rest = [])).
Proof.
  intros Hl Hno. revert pre m fuel. induction Hl as [|[n v] l [Hn Hv] Hl IH]; intros pre m [|fuel] Hf;
    try (cbn in Hf; lia).
  - change (print_trials []) with (@nil Z). cbn [valid_loop consistent_with app andb].
    destruct (decide (rest = [])) as [->|Hr].
    + rewrite app_nil_r, Z.ltb_irrefl. done.
    + rewrite (proj2 (Z.ltb_lt _ _)).
      * rewrite next_pair_none, bind_ok by done. by rewrite bool_decide_eq_false_2.
      * rewrite zlen_app. destruct rest; [done|]. rewrite zlen_cons. pose proof (zlen_nonneg rest). lia.
  - rewrite print_trials_cons. cbn [valid_loop].
    rewrite pair_text. rewrite (proj2 (Z.ltb_lt _ _)) by (by apply before_pair).
    rewrite next_pair_good, bind_ok by done. cbn beta iota. rewrite <- after_pair.
    cbn [consistent_with]. destruct (m !! n) as [w|].
    + destruct (decide (w = v)) as [->|Hw].
      * rewrite bool_decide_eq_false_2 by (intros [_ []]; done).
        rewrite (bool_decide_eq_true_2 (v = v)) by done. cbn [andb]. apply IH. cbn in Hf. lia.
      * rewrite bool_decide_eq_true_2 by (split; [by eexists|congruence]).
        by rewrite (bool_decide_eq_false_2 (w = v)).
    + rewrite bool_decide_eq_false_2 by (intros [[? ?] _]; done). apply IH. cbn in Hf. lia.
Qed.

Lemma find_loop_spec l rest pre name fuel :
  Forall good_pair l -> no_pair rest -> (length l < fuel)%nat ->
  find_loop fuel (pre ++ print_trials l ++ rest) (zlen pre) name =
    Ok (default [] (snd <$> List.find (fun p => bool_decide (name = p.1)) l)).
Proof.
  intros Hl Hno. revert pre fuel. induction Hl as [|[n v] l [Hn Hv] Hl IH]; intros pre [|fuel] Hf;
    try (cbn in Hf; lia).
  - change (print_trials []) with (@nil Z). cbn [find_loop app List.find fmap option_fmap option_map default from_option].
    rewrite next_pair_none by done. by case_match.
  - rewrite print_trials_cons. cbn [find_loop List.find fst].
    rewrite pair_text. rewrite (proj2 (Z.ltb_lt _ _)) by (by apply before_pair).
    rewrite next_pair_good, bind_ok by done. cbn beta iota. rewrite <- after_pair.
    destruct (decide (name = n)) as [->|Hne].
    + by rewrite !bool_decide_eq_true_2.
    + rewrite !bool_decide_eq_false_2 by done. apply IH. cbn in Hf. lia.
Qed.

(** ** What the check accepts *)
Definition consistent (l : list (bytes * bytes)) : Prop :=
  forall n v w, (n, v) ∈ l -> (n, w) ∈ l -> v = w.

Lemma consistent_with_spec m l :
  consistent_with m l = true <->
  consistent l /\ forall n v w, (n, v) ∈ l -> m !! n = Some w -> w = v.
Proof.
  revert m. induction l as [|[n v] l IH]; intros m; cbn [consistent_with].
  - split; [intros _; split; [intros ??? []%elem_of_nil|intros ??? []%elem_of_nil]|done].
  - assert (consistent_with (<[n:=v]> m) l = true /\ (forall w, m !! n = Some w -> w = v) <->
      consistent ((n, v) :: l) /\ forall n' v' w, (n', v') ∈ (n, v) :: l -> m !! n' = Some w -> w = v') as E.
    { rewrite IH. split.
      - intros [[Hc Hm] Hn]. split.
        + intros n' v1 v2 H1 H2. apply list.elem_of_cons in H1 as [H1|H1], H2 as [H2|H2].
          * congruence.
          * injection H1 as -> ->. apply (Hm n v2 v H2), lookup_insert_eq.
          * injection H2 as -> ->. symmetry. apply (Hm n v1 v H1), lookup_insert_eq.
          * by eapply Hc.
        + intros n' v' w [[= -> ->]|H1]%list.elem_of_cons Hl; [by apply Hn|].
          destruct (decide (n' = n)) as [->|Hne].
          * rewrite (Hn w Hl). apply (Hm n v' v H1). apply lookup_insert_eq.
          * apply (Hm n' v' w H1). by rewrite lookup_insert_ne.
      - intros [Hc Hm]. split; [split|].
        + intros n' v1 v2 H1 H2. eapply Hc; by right.
        + intros n' v' w H1. destruct (decide (n' = n)) as [->|Hne].
          * rewrite lookup_insert_eq. intros [= <-]. eapply Hc; [by left|by right].
          * rewrite lookup_insert_ne by done. apply Hm. by right.
        + intros w. apply Hm. by left. }
    rewrite <- E. destruct (m !! n) as [w|].
    + rewrite andb_true_iff, bool_decide_eq_true. split.
      * intros [-> H]. split; [done|]. by intros w' [= ->].
      * intros [H Hw]. split; [|done]. by apply Hw.
    + split; [intros H; split; done|by intros [? _]].
Qed.

Lemma print_length l : Forall good_pair l -> (4 * length l <= length (print_trials l))%nat.
Proof.
  induction 1 as [|[n v] l [[Hn _] [Hv _]] _ IH]; [done|]. rewrite print_trials_cons, length_app. cbn [length].
  rewrite length_app. destruct n, v; try done. cbn [length]. lia.
Qed.

Lemma no_pair_nil : no_pair [].
Proof. intros n v r [Hn _] _ E. by destruct n. Qed.

Lemma valid_on l rest :
  Forall good_pair l -> no_pair rest ->
  FieldTrialsStringIsValidInternal (print_trials l ++ rest) =
    Ok (consistent_with ∅ l && bool_decide (rest = [])).
Proof.
  intros Hl Hr. unfold FieldTrialsStringIsValidInternal. case_bool_decide as He.
  - apply app_nil in He as [He ->]. destruct l as [|[n v] l]; [done|].
    rewrite print_trials_cons in He. by destruct n.
  - apply (valid_loop_spec l rest []); [done..|]. rewrite length_app. pose proof (print_length l Hl). lia.
Qed.

Lemma find_on l rest name :
  Forall good_pair l -> no_pair rest ->
  FindFullName (Some (print_trials l ++ rest)) name =
    Ok (default [] (snd <$> List.find (fun p => bool_decide (name = p.1)) l)).
Proof.
  intros Hl Hr. unfold FindFullName. case_bool_decide as He.
  - apply app_nil in He as [He ->]. destruct l as [|[n v] l]; [done|].
    rewrite print_trials_cons in He. by destruct n.
  - apply (find_loop_spec l rest []); [done..|]. rewrite length_app. pose proof (print_length l Hl). lia.
Qed.

(** The check ends on every string, and accepts exactly the lists
    "name/group/..." of non-empty names and groups where no name has two
    groups. *)
Lemma valid_exact s :
  exists b, FieldTrialsStringIsValidInternal s = Ok b /\
    (b = true <-> exists l, s = print_trials l /\ Forall good_pair l /\ consistent l).
Proof.
  destruct (decompose s) as (l & rest & -> & Hl & Hr). eexists. split; [by apply valid_on|].
  rewrite andb_true_iff, bool_decide_eq_true, consistent_with_spec. split.
  - intros [[Hc _] ->]. exists l. by rewrite app_nil_r.
  - intros (l' & E & Hl' & Hc). pose proof (valid_on l' [] Hl' no_pair_nil) as E1.
    rewrite app_nil_r, <- E, valid_on in E1 by done. injection E1 as E1.
    rewrite (proj2 (consistent_with_spec ∅ l')) in E1.
    2: { split; [done|]. intros n v w _. by rewrite lookup_empty. }
    apply andb_true_iff in E1 as [E1 E2%bool_decide_eq_true]. by apply consistent_with_spec in E1.
Qed.

(** ** Merging *)
Definition assoc (l : list (bytes * bytes)) (name : bytes) : bytes :=
  default [] (snd <$> List.find (fun p => bool_decide (name = p.1)) l).

Definition insert_all (m : gmap bytes bytes) (l : list (bytes * bytes)) : gmap bytes bytes :=
  fold_left (fun m p => <[p.1 := p.2]> m) l m.

Definition flat (l : list (bytes * bytes)) : list bytes := concat ((fun p => [p.1; p.2]) <$> l).

Lemma pieces_cut d (cur a s : bytes) : d ∉ a -> pieces_from cur d (a ++ d :: s) = (cur ++ a) :: pieces d s.
Proof.
  revert cur. induction a as [|x a IH]; intros cur Ha; cbn.
  - by rewrite Z.eqb_refl, app_nil_r.
  - apply not_elem_of_cons in Ha as [Hx Ha]. rewrite (proj2 (Z.eqb_neq x d)) by done.
    by rewrite IH, <- app_assoc.
Qed.

Lemma pieces_print l : Forall good_pair l -> pieces sep (print_trials l) = flat l ++ [[]].
Proof.
  induction 1 as [|[n v] l [[_ Hn] [_ Hv]] _ IH]; [done|].
  rewrite print_trials_cons. unfold pieces at 1. rewrite pieces_cut by done.
  unfold pieces at 1. rewrite pieces_cut by done. by rewrite IH.
Qed.

Lemma insert_loop_spec l pre m fuel :
  zlen (pre ++ flat l ++ [[]]) < 18446744073709551616 -> (length l < fuel)%nat ->
  insert_loop fuel (zlen pre) (pre ++ flat l ++ [[]]) m = Ok (insert_all m l).
Proof.
  revert pre m fuel. induction l as [|[n v] l IH]; intros pre m [|fuel] Hz Hf; try (cbn in Hf; lia);
    cbn [insert_loop].
  - assert (zlen (pre ++ flat [] ++ [[]]) = zlen pre + 1) as Ez by (rewrite zlen_app; done).
    pose proof (zlen_nonneg pre). rewrite Ez in *. rewrite u64_small by lia.
    by rewrite (proj2 (Z.ltb_ge _ _)) by lia.
  - change (flat ((n, v) :: l)) with (n :: v :: flat l) in *.
    pose proof (zlen_nonneg pre). pose proof (zlen_nonneg (flat l)).
    assert (zlen (pre ++ (n :: v :: flat l) ++ [[]]) = zlen pre + zlen (flat l) + 3) as Ez
      by (rewrite !zlen_app, !zlen_cons, zlen_nil; lia).
    rewrite u64_small, Ez by (rewrite Ez in *; lia). rewrite (proj2 (Z.ltb_lt _ _)) by lia.
    replace (Z.to_nat (zlen pre)) with (length pre) by (unfold zlen; lia).
    change ((n :: v :: flat l) ++ [[]]) with (n :: v :: flat l ++ [[]]) in *.
    rewrite (list_lookup_middle pre (v :: flat l ++ [[]]) n (length pre)) by done. cbn [from_opt]. rewrite bind_ok.
    replace (Z.to_nat (zlen pre + 1)) with (length (pre ++ [n])) by (unfold zlen; rewrite length_app; cbn; lia).
    assert (pre ++ n :: v :: flat l ++ [[]] = (pre ++ [n; v]) ++ flat l ++ [[]]) as E'
      by (by rewrite <- !app_assoc).
    assert (pre ++ n :: v :: flat l ++ [[]] = (pre ++ [n]) ++ v :: flat l ++ [[]]) as E''
      by (by rewrite <- !app_assoc).
    rewrite E'' at 1. rewrite (list_lookup_middle (pre ++ [n]) (flat l ++ [[]]) v (length (pre ++ [n]))) by done. cbn [from_opt]. rewrite bind_ok. rewrite E'. replace (zlen pre + 2) with (zlen (pre ++ [n; v])) by (rewrite zlen_app, !zlen_cons, zlen_nil; lia).
    apply IH; [|cbn in Hf; lia]. by rewrite <- E'.
Qed.

Lemma insert_all_lookup m l name :
  consistent l ->
  insert_all m l !! name =
    match List.find (fun p => bool_decide (name = p.1)) l with Some p => Some p.2 | None => m !! name end.
Proof.
  revert m. induction l as [|[n v] l IH]; intros m Hc; [done|]. cbn [insert_all fold_left List.find fst snd].
  fold (insert_all (<[n:=v]> m) l).
  rewrite IH by (intros ??? ??; eapply Hc; by right).
  destruct (List.find _ l) as [[n' w]|] eqn:E.
  - apply find_some in E as [Hin Hn]. cbn in Hn. apply bool_decide_eq_true in Hn as <-.
    destruct (decide (name = n)) as [->|Hne].
    + rewrite bool_decide_eq_true_2 by done. cbn. f_equal. symmetry. eapply Hc; [by left|].
      right. by apply list_elem_of_In.
    + by rewrite bool_decide_eq_false_2.
  - destruct (decide (name = n)) as [->|Hne].
    + by rewrite bool_decide_eq_true_2, lookup_insert_eq.
    + by rewrite bool_decide_eq_false_2, lookup_insert_ne.
Qed.

Lemma assoc_in_order m name : assoc (in_order m) name = default [] (m !! name).
Proof.
  unfold assoc. destruct (List.find _ (in_order m)) as [[n v]|] eqn:E.
  - apply find_some in E as [Hin Hn]. cbn in Hn. apply bool_decide_eq_true in Hn as <-.
    apply list_elem_of_In in Hin. unfold in_order in Hin.
    rewrite merge_sort_Permutation, elem_of_map_to_list in Hin. by rewrite Hin.
  - destruct (m !! name) as [v|] eqn:Em; [|done].
    apply elem_of_map_to_list in Em. rewrite <- (merge_sort_Permutation key_le) in Em.
    apply list_elem_of_In, (find_none _ _ E) in Em. cbn in Em. by rewrite bool_decide_eq_true_2 in Em.
Qed.

Lemma insert_all_from m l n v :
  insert_all m l !! n = Some v -> (n, v) ∈ l \/ m !! n = Some v.
Proof.
  revert m. induction l as [|[n' v'] l IH]; intros m; [by right|]. cbn [insert_all fold_left fst snd].
  intros [Hin|Hin]%IH; [left; by right|].
  destruct (decide (n' = n)) as [->|Hne].
  - rewrite lookup_insert_eq in Hin. injection Hin as ->. left. by left.
  - rewrite lookup_insert_ne in Hin by done. by right.
Qed.

Lemma in_order_wf m :
  (forall n v, m !! n = Some v -> good_pair (n, v)) -> Forall good_pair (in_order m) /\ consistent (in_order m).
Proof.
  intros Hm. split.
  - apply list.Forall_forall. intros [n v] Hin. apply Hm. unfold in_order in Hin.
    by rewrite merge_sort_Permutation, elem_of_map_to_list in Hin.
  - intros n v w. unfold in_order. rewrite !merge_sort_Permutation, !elem_of_map_to_list. congruence.
Qed.

Lemma insert_trials m l :
  addressable (print_trials l) -> Forall good_pair l -> consistent l ->
  InsertOrReplaceFieldTrialStringsInMap m (print_trials l) = Ok (insert_all m l).
Proof.
  intros Ha Hl Hc. unfold InsertOrReplaceFieldTrialStringsInMap.
  pose proof (valid_on l [] Hl no_pair_nil) as E. rewrite app_nil_r in E.
  rewrite E, (proj2 (consistent_with_spec ∅ l)), bool_decide_eq_true_2 by
    (done || (split; [done|]; intros n v w _; by rewrite lookup_empty)).
  rewrite bind_ok. cbn beta iota. cbn [andb]. rewrite split_ok, bind_ok, pieces_print by done.
  assert (length (flat l) = (2 * length l)%nat) as El.
  { unfold flat. clear. induction l as [|p l IH]; [done|]. cbn in *. lia. }
  pose proof (print_length l Hl). unfold addressable, zlen in Ha.
  apply (insert_loop_spec l []); cbn [app].
  - unfold zlen. rewrite length_app. cbn. lia.
  - rewrite length_app, El. cbn. lia.
Qed.

(** Merging two valid strings gives a valid one in which the second takes
    precedence: every name is found with the group the second string gives
    it, or else with that of the first. *)
Theorem merge_overrides first second :
  addressable first -> addressable second ->
  FieldTrialsStringIsValidInternal first = Ok true -> FieldTrialsStringIsValidInternal second = Ok true ->
  exists m, MergeFieldTrialsStrings first second = Ok m /\ FieldTrialsStringIsValidInternal m = Ok true /\
    forall name, exists v1 v2,
      FindFullName (Some first) name = Ok v1 /\ FindFullName (Some second) name = Ok v2 /\
      FindFullName (Some m) name = Ok (if decide (v2 = []) then v1 else v2).
Proof.
  intros A1 A2 V1 V2.
  destruct (valid_exact first) as (b1 & E1 & H1), (valid_exact second) as (b2 & E2 & H2).
  rewrite V1 in E1. rewrite V2 in E2. injection E1 as <-. injection E2 as <-.
  destruct (proj1 H1 eq_refl) as (l1 & -> & G1 & C1), (proj1 H2 eq_refl) as (l2 & -> & G2 & C2).
  set (m := insert_all (insert_all ∅ l1) l2).
  assert (forall n v, m !! n = Some v -> good_pair (n, v)) as Hm.
  { intros n v [Hin|[Hin|Hin]%insert_all_from]%insert_all_from.
    - by eapply list.Forall_forall in Hin; [|exact G2].
    - by eapply list.Forall_forall in Hin; [|exact G1].
    - by rewrite lookup_empty in Hin. }
  destruct (in_order_wf m Hm) as [G3 C3]. exists (print_trials (in_order m)). split; [|split].
  - unfold MergeFieldTrialsStrings. rewrite insert_trials, bind_ok by done.
    by rewrite insert_trials, bind_ok by done.
  - destruct (valid_exact (print_trials (in_order m))) as (b & -> & Hb). f_equal. apply Hb. by eexists.
  - intros name. exists (assoc l1 name), (assoc l2 name).
    pose proof (find_on l1 [] name G1 no_pair_nil) as F1. pose proof (find_on l2 [] name G2 no_pair_nil) as F2.
    pose proof (find_on (in_order m) [] name G3 no_pair_nil) as F3. rewrite app_nil_r in F1, F2, F3.
    split; [done|]. split; [done|]. rewrite F3. f_equal. fold (assoc (in_order m) name).
    rewrite assoc_in_order. unfold m. rewrite insert_all_lookup by done.
    destruct (decide (assoc l2 name = [])) as [Ed|Ed]; revert Ed; unfold assoc at 1;
      destruct (List.find _ l2) as [[n v]|] eqn:E; cbn; intros Ed.
    + apply find_some in E as [Hin _]. apply list_elem_of_In in Hin.
      eapply list.Forall_forall in Hin; [|exact G2]. by destruct Hin as [_ [Hv _]].
    + rewrite insert_all_lookup by done. unfold assoc. by destruct (List.find _ l1).
    + unfold assoc. by rewrite E.
    + done.
Qed.

(** ** On concrete strings *)
Definition two_trials : bytes := lit "WebRTC-A/Enabled/WebRTC-B/Disabled/".

Example finds :
  FindFullName (Some two_trials) (lit "WebRTC-B") = Ok (lit "Disabled") /\
  FindFullName (Some two_trials) (lit "WebRTC-C") = Ok [] /\
  IsEnabled (Some (lit "WebRTC-A/Enabled100kbps/")) (lit "WebRTC-A") = Ok true /\
  IsDisabled (Some two_trials) (lit "WebRTC-B") = Ok true.
Proof. by vm_compute. Qed.

(** A missing separator at the end, an empty name, a second group for a name. *)
Example refused :
  FieldTrialsStringIsValidInternal (lit "WebRTC-A/Enabled") = Ok false /\
  FieldTrialsStringIsValidInternal (lit "/Enabled/") = Ok false /\
  FieldTrialsStringIsValidInternal (lit "A/x/B/y/A/z/") = Ok false /\
  FieldTrialsStringIsValidInternal (lit "A/x/B/y/A/x/") = Ok true.
Proof. by vm_compute. Qed.

(** The first override wins over the trials; a process without any, as this
    server is, does not allow the legacy versions. *)
Example legacy_versions :
  ShouldAllowLegacyTLSProtocols (mkLegacy false false) None = Ok false /\
  ShouldAllowLegacyTLSProtocols (mkLegacy false false) (Some (lit "WebRTC-LegacyTlsProtocols/Enabled/")) = Ok true /\
  ShouldAllowLegacyTLSProtocols (SetAllowLegacyTLSProtocols (mkLegacy false false) (Some false))
    (Some (lit "WebRTC-LegacyTlsProtocols/Enabled/")) = Ok false.
Proof. by vm_compute. Qed.

Lemma merge_overrides_witness :
  MergeFieldTrialsStrings two_trials (lit "WebRTC-B/Enabled/") = Ok (lit "WebRTC-A/Enabled/WebRTC-B/Enabled/") /\
  exists m, MergeFieldTrialsStrings two_trials (lit "WebRTC-B/Enabled/") = Ok m /\
    FieldTrialsStringIsValidInternal m = Ok true.
Proof.
  split; [by vm_compute|].
  destruct (merge_overrides two_trials (lit "WebRTC-B/Enabled/") eq_refl eq_refl eq_refl eq_refl)
    as (m & E & V & _).
  exists m. exact (conj E V).
Defined.
