(* ===== verification/Metrics.v ===== *)
(** * system_wrappers/{include/metrics.h, source/metrics.cc}, rtc_base/atomic_ops.h

    Histograms by name, which any thread may add samples to.  The macros look a
    histogram up in the map of all of them, and most keep the pointer they got
    in a variable of the place where they are used; the map has a lock, each
    histogram has one, and the variable is read and written atomically.

    First the operations as one thread sees them, then threads whose steps come
    in any order ([run]).  Histograms are never freed. *)
From stdpp Require Import sorting.
From S2P Require Import Prelude.

Local Open Scope Z_scope.

(** ** A histogram *)
Definition kMaxSampleMapSize : nat := 300.

Record SampleInfo := mkSampleInfo {
  name : bytes; min : Z; max : Z; bucket_count : Z;
  samples : gmap Z Z
}.

Record RtcHistogram := mkHistogram { min_ : Z; max_ : Z; info_ : SampleInfo }.

Definition with_samples (i : SampleInfo) (m : gmap Z Z) : SampleInfo :=
  mkSampleInfo (name i) (min i) (max i) (bucket_count i) m.
Definition set_samples (h : RtcHistogram) (m : gmap Z Z) : RtcHistogram :=
  mkHistogram (min_ h) (max_ h) (with_samples (info_ h) m).

Definition new_histogram (name : bytes) (min max bucket_count : Z) : res RtcHistogram :=
  _ ← require (0 <? bucket_count) AssertFailed;
  Ok (mkHistogram min max (mkSampleInfo name min max (u64 bucket_count) ∅)).

(** The value a sample is counted as; [min_ - 1] is the underflow bucket. *)
Definition bucket (h : RtcHistogram) (sample : Z) : Z := Z.max (Z.min sample (max_ h)) (i32 (min_ h - 1)).

(** Whether the histogram has no place for another value. *)
Definition full (h : RtcHistogram) (value : Z) : bool :=
  bool_decide (size (samples (info_ h)) = kMaxSampleMapSize) && bool_decide (samples (info_ h) !! value = None).

Definition Add (h : RtcHistogram) (sample : Z) : RtcHistogram :=
  let sample := bucket h sample in
  if full h sample then h
  else
    let m := samples (info_ h) in
    set_samples h (<[sample := i32 (default 0 (m !! sample) + 1)]> m).

Definition GetAndReset (h : RtcHistogram) : option SampleInfo * RtcHistogram :=
  if bool_decide (samples (info_ h) = ∅) then (None, h)
  else
    let i := info_ h in
    (Some (mkSampleInfo (name i) (min i) (max i) (bucket_count i) (samples i)), set_samples h ∅).

Definition Reset (h : RtcHistogram) : RtcHistogram := set_samples h ∅.

Definition NumEvents (h : RtcHistogram) (sample : Z) : Z := default 0 (samples (info_ h) !! sample).

(** The samples in the order of std::map. *)
Definition sample_le (a b : Z * Z) : Prop := a.1 <= b.1.
#[export] Instance sample_le_dec : RelDecision sample_le.
Proof. intros a b. unfold sample_le. apply _. Defined.
Definition samples_in_order (m : gmap Z Z) : list (Z * Z) := merge_sort sample_le (map_to_list m).

Definition NumSamples (h : RtcHistogram) : Z :=
  foldl (fun n s => i32 (n + s.2)) 0 (samples_in_order (samples (info_ h))).

Definition MinSample (h : RtcHistogram) : Z :=
  match samples_in_order (samples (info_ h)) with [] => -1 | s :: _ => s.1 end.

Definition Samples (h : RtcHistogram) : gmap Z Z := samples (info_ h).

(** ** The map of histograms

    Pointers to histograms are the keys of [heap]. *)
Record metrics := mkMetrics {
  g_rtc_histogram_map : option (gmap bytes nat);
  g_rtc_histogram_called : bool;
  heap : gmap nat RtcHistogram;
  next : nat
}.

Definition set_map (w : metrics) (m : gmap bytes nat) : metrics :=
  mkMetrics (Some m) (g_rtc_histogram_called w) (heap w) (next w).
Definition set_heap (w : metrics) (h : gmap nat RtcHistogram) : metrics :=
  mkMetrics (g_rtc_histogram_map w) (g_rtc_histogram_called w) h (next w).

Definition new_metrics : metrics := mkMetrics None false ∅ 0.

Definition deref (w : metrics) (p : nat) : res RtcHistogram := from_opt Dangling (heap w !! p).

(** The histogram of the name, made if there is none. *)
Definition find_or_make (w : metrics) (m : gmap bytes nat) (name : bytes) (make : res RtcHistogram) :
    res (nat * metrics) :=
  match m !! name with
  | Some p => Ok (p, w)
  | None =>
      h ← make;
      let p := next w in
      Ok (p, mkMetrics (Some (<[name := p]> m)) (g_rtc_histogram_called w) (<[p := h]> (heap w)) (S p))
  end.

Definition GetCountsHistogram (w : metrics) (m : gmap bytes nat) (name : bytes) (min max bucket_count : Z) :
    res (nat * metrics) :=
  find_or_make w m name (new_histogram name min max bucket_count).

Definition GetEnumerationHistogram (w : metrics) (m : gmap bytes nat) (name : bytes) (boundary : Z) :
    res (nat * metrics) :=
  find_or_make w m name (new_histogram name 1 boundary (i32 (boundary + 1))).

(** std::map::insert keeps what is there. *)
Definition insert_new (out : gmap bytes SampleInfo) (name : bytes) (info : SampleInfo) : gmap bytes SampleInfo :=
  match out !! name with Some _ => out | None => <[name := info]> out end.

Definition take_samples (w : metrics) (out : gmap bytes SampleInfo) (name : bytes) (p : nat) :
    res (gmap bytes SampleInfo * metrics) :=
  h ← deref w p;
  let '(info, h) := GetAndReset h in
  Ok (match info with Some info => insert_new out name info | None => out end, set_heap w (<[p := h]> (heap w))).

Fixpoint map_GetAndReset (w : metrics) (l : list (bytes * nat)) (out : gmap bytes SampleInfo) :
    res (gmap bytes SampleInfo * metrics) :=
  match l with
  | [] => Ok (out, w)
  | (name, p) :: l => '(out, w) ← take_samples w out name p; map_GetAndReset w l out
  end.

Fixpoint map_Reset (w : metrics) (l : list (bytes * nat)) : res metrics :=
  match l with
  | [] => Ok w
  | (_, p) :: l => h ← deref w p; map_Reset (set_heap w (<[p := Reset h]> (heap w))) l
  end.

Definition map_get {A : Type} (w : metrics) (m : gmap bytes nat) (name : bytes) (f : RtcHistogram -> A) (none : A) : res A :=
  match m !! name with None => Ok none | Some p => h ← deref w p; Ok (f h) end.

(** ** The functions of metrics.h *)

(** Compare-and-swap of a pointer that is null in both. *)
Definition CompareAndSwapPtr {A : Type} (ptr : option A) (new_value : A) : option A * option A :=
  match ptr with None => (Some new_value, None) | Some _ => (ptr, ptr) end.

Definition CreateMap (w : metrics) : metrics :=
  match g_rtc_histogram_map w with
  | Some _ => w
  | None =>
      let '(g, _) := CompareAndSwapPtr (g_rtc_histogram_map w) ∅ in
      mkMetrics g (g_rtc_histogram_called w) (heap w) (next w)
  end.

Definition GetMap (w : metrics) : option (gmap bytes nat) * metrics :=
  (g_rtc_histogram_map w, mkMetrics (g_rtc_histogram_map w) true (heap w) (next w)).

Definition Enable (w : metrics) : res metrics :=
  _ ← require (bool_decide (g_rtc_histogram_map w = None)) AssertFailed;
  _ ← require (negb (g_rtc_histogram_called w)) AssertFailed;
  Ok (CreateMap w).

(** What a macro asks for. *)
Inductive factory :=
  | GetCounts (min max bucket_count : Z)
  | GetCountsLinear (min max bucket_count : Z)
  | GetEnumeration (boundary : Z)
  | SparseGetEnumeration (boundary : Z).

Definition HistogramFactoryGetCountsLinear (w : metrics) (name : bytes) (min max bucket_count : Z) :
    res (option nat * metrics) :=
  let '(map, w) := GetMap w in
  match map with
  | None => Ok (None, w)
  | Some m => '(p, w) ← GetCountsHistogram w m name min max bucket_count; Ok (Some p, w)
  end.

Definition HistogramFactoryGetCounts := HistogramFactoryGetCountsLinear.

Definition HistogramFactoryGetEnumeration (w : metrics) (name : bytes) (boundary : Z) : res (option nat * metrics) :=
  let '(map, w) := GetMap w in
  match map with
  | None => Ok (None, w)
  | Some m => '(p, w) ← GetEnumerationHistogram w m name boundary; Ok (Some p, w)
  end.

Definition SparseHistogramFactoryGetEnumeration := HistogramFactoryGetEnumeration.

Definition invoke (w : metrics) (name : bytes) (f : factory) : res (option nat * metrics) :=
  match f with
  | GetCounts min max bucket_count => HistogramFactoryGetCounts w name min max bucket_count
  | GetCountsLinear min max bucket_count => HistogramFactoryGetCountsLinear w name min max bucket_count
  | GetEnumeration boundary => HistogramFactoryGetEnumeration w name boundary
  | SparseGetEnumeration boundary => SparseHistogramFactoryGetEnumeration w name boundary
  end.

Definition HistogramAdd (w : metrics) (histogram_pointer : nat) (sample : Z) : res metrics :=
  h ← deref w histogram_pointer; Ok (set_heap w (<[histogram_pointer := Add h sample]> (heap w))).

Definition metrics_GetAndReset (w : metrics) : res (gmap bytes SampleInfo * metrics) :=
  let '(map, w) := GetMap w in
  match map with None => Ok (∅, w) | Some m => map_GetAndReset w (map_to_list m) ∅ end.

Definition metrics_Reset (w : metrics) : res metrics :=
  let '(map, w) := GetMap w in
  match map with None => Ok w | Some m => map_Reset w (map_to_list m) end.

(** The queries: [f] of the histogram of that name, [none] if there is none. *)
Definition query {A : Type} (f : RtcHistogram -> A) (none : A) (w : metrics) (name : bytes) : res (A * metrics) :=
  let '(map, w) := GetMap w in
  match map with None => Ok (none, w) | Some m => a ← map_get w m name f none; Ok (a, w) end.

Definition metrics_NumEvents (w : metrics) (name : bytes) (sample : Z) := query (fun h => NumEvents h sample) 0 w name.
Definition metrics_NumSamples (w : metrics) (name : bytes) := query NumSamples 0 w name.
Definition metrics_MinSample (w : metrics) (name : bytes) := query MinSample (-1) w name.
Definition metrics_Samples (w : metrics) (name : bytes) := query Samples ∅ w name.

(** The macros that count, with the pointer kept in [atomic_histogram_pointer]
    or looked up each time. *)
Definition RTC_HISTOGRAM_COMMON_BLOCK (w : metrics) (atomic_histogram_pointer : option nat) (name : bytes)
    (f : factory) (sample : Z) : res (option nat * metrics) :=
  '(histogram_pointer, atomic_histogram_pointer, w) ←
    match atomic_histogram_pointer with
    | Some p => Ok (Some p, atomic_histogram_pointer, w)
    | None =>
        '(p, w) ← invoke w name f;
        match p with
        | None => Ok (None, None, w)
        | Some p =>
            let '(atomic_histogram_pointer, prev_pointer) := CompareAndSwapPtr atomic_histogram_pointer p in
            _ ← require (bool_decide (prev_pointer = None \/ prev_pointer = Some p)) AssertFailed;
            Ok (Some p, atomic_histogram_pointer, w)
        end
    end;
  match histogram_pointer with
  | None => Ok (atomic_histogram_pointer, w)
  | Some p => w ← HistogramAdd w p sample; Ok (atomic_histogram_pointer, w)
  end.

Definition RTC_HISTOGRAM_COMMON_BLOCK_SLOW (w : metrics) (name : bytes) (f : factory) (sample : Z) : res metrics :=
  '(p, w) ← invoke w name f;
  match p with None => Ok w | Some p => HistogramAdd w p sample end.

(** The macros that say what they count: counters, a percentage, a boolean. *)
Definition RTC_HISTOGRAM_COUNTS_100 : factory := GetCounts 1 100 50.
Definition RTC_HISTOGRAM_COUNTS_200 : factory := GetCounts 1 200 50.
Definition RTC_HISTOGRAM_COUNTS_500 : factory := GetCounts 1 500 50.
Definition RTC_HISTOGRAM_COUNTS_1000 : factory := GetCounts 1 1000 50.
Definition RTC_HISTOGRAM_COUNTS_10000 : factory := GetCounts 1 10000 50.
Definition RTC_HISTOGRAM_COUNTS_100000 : factory := GetCounts 1 100000 50.
Definition RTC_HISTOGRAM_PERCENTAGE : factory := GetEnumeration 101.
Definition RTC_HISTOGRAM_BOOLEAN : factory := GetEnumeration 2.

(** A macro with a name that varies: each index has its own place, and its own
    variable. *)
Definition RTC_HISTOGRAMS_COMMON {A : Type} (index : Z) (place0 place1 place2 : res A) : res A :=
  if index =? 0 then place0
  else if index =? 1 then place1
  else if index =? 2 then place2
  else Fail AssertFailed.

(** ** Threads

    [place] gives the name and the factory of each use of a macro that keeps
    its pointer: the name of a histogram should not vary. *)
Section Threads.
Context (place : nat -> bytes * factory).

Inductive request :=
  | Count (site : nat) (sample : Z)                        (* RTC_HISTOGRAM_COMMON_BLOCK *)
  | CountSlow (name : bytes) (f : factory) (sample : Z)    (* RTC_HISTOGRAM_COMMON_BLOCK_SLOW *)
  | Report.                                                (* GetAndReset *)

(** Where a thread is: between requests, after the load of the site's variable,
    before its compare-and-swap, before the factory of a slow macro, before
    HistogramAdd, in GetAndReset. *)
Inductive pc :=
  | Idle
  | Loaded (site : nat) (sample : Z)
  | Swapping (site : nat) (sample : Z) (histogram_pointer : option nat)
  | Asking (name : bytes) (f : factory) (sample : Z)
  | Adding (histogram_pointer : option nat) (sample : Z)
  | Reporting.

Definition thread : Type := pc * list request.

(** [report]: the thread in the map's GetAndReset, which holds the map's lock,
    the histograms it has still to look at and what it found.  [added] records
    the calls of HistogramAdd: the name, the sample, and whether it was counted;
    [reports] what the calls of GetAndReset gave. *)
Record state := mkState {
  memory : metrics;
  pointers : gmap nat nat;
  report : option (nat * list (bytes * nat) * gmap bytes SampleInfo);
  threads : list thread;
  added : list (bytes * Z * bool);
  reports : list (gmap bytes SampleInfo)
}.

Definition set_thread (s : state) (i : nat) (t : thread) (w : metrics) : state :=
  mkState w (pointers s) (report s) (<[i := t]> (threads s)) (added s) (reports s).

(** A factory needs the map's lock. *)
Definition locked (s : state) : bool := bool_decide (is_Some (report s)).

Definition begin (s : state) (i : nat) (r : request) (todo : list request) : res state :=
  match r with
  | Count site sample =>
      Ok (set_thread s i (match pointers s !! site with
                          | Some p => Adding (Some p) sample
                          | None => Loaded site sample
                          end, todo) (memory s))
  | CountSlow name f sample => Ok (set_thread s i (Asking name f sample, todo) (memory s))
  | Report =>
      let '(map, w) := GetMap (memory s) in
      match map with
      | None => Ok (mkState w (pointers s) (report s) (<[i := (Idle, todo)]> (threads s)) (added s) (reports s ++ [∅]))
      | Some m =>
          if locked s then Ok s
          else Ok (mkState w (pointers s) (Some (i, map_to_list m, ∅)) (<[i := (Reporting, todo)]> (threads s))
                     (added s) (reports s))
      end
  end.

Definition swap (s : state) (i : nat) (todo : list request) (site : nat) (sample : Z) (p : option nat) : res state :=
  match p with
  | None => Ok (set_thread s i (Adding None sample, todo) (memory s))
  | Some p =>
      let '(ptr, prev_pointer) := CompareAndSwapPtr (pointers s !! site) p in
      _ ← require (bool_decide (prev_pointer = None \/ prev_pointer = Some p)) AssertFailed;
      Ok (mkState (memory s) (match ptr with Some q => <[site := q]> (pointers s) | None => pointers s end)
            (report s) (<[i := (Adding (Some p) sample, todo)]> (threads s)) (added s) (reports s))
  end.

Definition add (s : state) (i : nat) (todo : list request) (p : nat) (sample : Z) : res state :=
  h ← deref (memory s) p;
  w ← HistogramAdd (memory s) p sample;
  Ok (mkState w (pointers s) (report s) (<[i := (Idle, todo)]> (threads s))
        (added s ++ [(name (info_ h), sample, negb (full h (bucket h sample)))]) (reports s)).

Definition go_on (s : state) (i : nat) (todo : list request) : res state :=
  match report s with
  | Some (j, (name, p) :: l, out) =>
      '(out, w) ← take_samples (memory s) out name p;
      Ok (mkState w (pointers s) (Some (j, l, out)) (threads s) (added s) (reports s))
  | Some (_, [], out) =>
      Ok (mkState (memory s) (pointers s) None (<[i := (Idle, todo)]> (threads s)) (added s) (reports s ++ [out]))
  | None => Fail LogicError
  end.

(** The next step of thread [i]; a thread that waits for the lock stays where it
    is. *)
Definition step (s : state) (i : nat) : res state :=
  match threads s !! i with
  | None => Ok s
  | Some (Idle, []) => Ok s
  | Some (Idle, r :: todo) => begin s i r todo
  | Some (Loaded site sample, todo) =>
      if locked s then Ok s
      else
        '(p, w) ← invoke (memory s) (place site).1 (place site).2;
        Ok (set_thread s i (Swapping site sample p, todo) w)
  | Some (Swapping site sample p, todo) => swap s i todo site sample p
  | Some (Asking name f sample, todo) =>
      if locked s then Ok s
      else '(p, w) ← invoke (memory s) name f; Ok (set_thread s i (Adding p sample, todo) w)
  | Some (Adding None _, todo) => Ok (set_thread s i (Idle, todo) (memory s))
  | Some (Adding (Some p) sample, todo) => add s i todo p sample
  | Some (Reporting, todo) => go_on s i todo
  end.

Fixpoint run (schedule : list nat) (s : state) : res state :=
  match schedule with [] => Ok s | i :: l => s ← step s i; run l s end.

Definition start (w : metrics) (requests : list (list request)) : state :=
  mkState w ∅ None ((fun l => (Idle, l)) <$> requests) [] [].
(** ** The memory *)
Definition held (w : metrics) (n : bytes) (p : nat) : Prop :=
  exists m, g_rtc_histogram_map w = Some m /\ m !! n = Some p.

(** Each name has a histogram of its own. *)
Definition wf (w : metrics) : Prop :=
  is_Some (g_rtc_histogram_map w) /\
  (forall n p, held w n p -> exists h, heap w !! p = Some h /\ name (info_ h) = n) /\
  (forall p h, heap w !! p = Some h -> held w (name (info_ h)) p) /\
  (forall p, is_Some (heap w !! p) -> (p < next w)%nat).

(** What never changes: where a name's histogram is, and its bounds. *)
Definition extends (w w' : metrics) : Prop :=
  (forall n p, held w n p -> held w' n p) /\
  (forall p h, heap w !! p = Some h ->
     exists h', heap w' !! p = Some h' /\ min_ h' = min_ h /\ max_ h' = max_ h /\ name (info_ h') = name (info_ h)).

#[export] Instance extends_preorder : PreOrder extends.
Proof.
  split; [intros w; split; [done|eauto]|]. intros a b c [A1 A2] [B1 B2]. split; [auto|].
  intros p h (h' & Hb & ? & ? & ?)%A2. destruct (B2 _ _ Hb) as (h'' & ? & ? & ? & ?). exists h''. split; [done|].
  repeat split; congruence.
Qed.

Definition hist (w : metrics) (n : bytes) : option RtcHistogram :=
  m ← g_rtc_histogram_map w; p ← m !! n; heap w !! p.
Definition samples_of (w : metrics) (n : bytes) : gmap Z Z :=
  match hist w n with Some h => samples (info_ h) | None => ∅ end.
Definition bucket_of (w : metrics) (n : bytes) (sample : Z) : Z :=
  match hist w n with Some h => bucket h sample | None => sample end.

Lemma held_hist w n p : held w n p -> hist w n = heap w !! p.
Proof. intros (m & Hm & Hp). unfold hist. by rewrite Hm; cbn; rewrite Hp. Qed.

Lemma held_unique w n p q : held w n p -> held w n q -> p = q.
Proof. intros (m & Hm & Hp) (m' & Hm' & Hq). congruence. Qed.

Lemma wf_held w n p : wf w -> held w n p -> exists h, heap w !! p = Some h /\ name (info_ h) = n /\ hist w n = Some h.
Proof. intros (_ & H2 & _) Hh. destruct (H2 _ _ Hh) as (h & Hp & Hn). exists h. by rewrite (held_hist _ _ _ Hh). Qed.

Lemma extends_bucket w w' n p sample :
  wf w -> extends w w' -> held w n p -> bucket_of w' n sample = bucket_of w n sample.
Proof.
  intros Hwf [E1 E2] Hh. destruct (wf_held w n p Hwf Hh) as (h & Hp & _ & Hn). unfold bucket_of. rewrite Hn.
  rewrite (held_hist w' n p (E1 _ _ Hh)). destruct (E2 _ _ Hp) as (h' & -> & Hmin & Hmax & _). unfold bucket. by rewrite Hmin, Hmax.
Qed.

(** Changing the samples of a histogram. *)
Lemma wf_set w p h h' :
  wf w -> heap w !! p = Some h -> name (info_ h') = name (info_ h) -> wf (set_heap w (<[p := h']> (heap w))).
Proof.
  intros (H1 & H2 & H3 & H4) Hp Hn. split; [done|]. split; [|split].
  - intros n q (h0 & Hq & Hn0)%H2. cbn. destruct (decide (q = p)) as [->|].
    + rewrite lookup_insert_eq. exists h'. split; [done|]. congruence.
    + rewrite lookup_insert_ne by done. by exists h0.
  - intros q h0. cbn. destruct (decide (q = p)) as [->|].
    + rewrite lookup_insert_eq. intros [= <-]. rewrite Hn. by apply H3.
    + rewrite lookup_insert_ne by done. apply H3.
  - intros q. cbn. destruct (decide (q = p)) as [->|]; [intros _; apply H4; by exists h|].
    rewrite lookup_insert_ne by done. apply H4.
Qed.

Lemma extends_set w p h h' :
  heap w !! p = Some h -> min_ h' = min_ h -> max_ h' = max_ h -> name (info_ h') = name (info_ h) ->
  extends w (set_heap w (<[p := h']> (heap w))).
Proof.
  intros Hp ???. split; [done|]. intros q h0 Hq. cbn. destruct (decide (q = p)) as [->|].
  - rewrite lookup_insert_eq. exists h'. split; [done|]. assert (h0 = h) as -> by congruence. done.
  - rewrite lookup_insert_ne by done. by exists h0.
Qed.

Lemma hist_set w p h h' n :
  wf w -> heap w !! p = Some h ->
  hist (set_heap w (<[p := h']> (heap w))) n = if decide (n = name (info_ h)) then Some h' else hist w n.
Proof.
  intros Hwf Hp. pose proof Hwf as (_ & H2 & H3 & _). destruct (decide _) as [->|Hne].
  - rewrite (held_hist (set_heap w (<[p:=h']> (heap w))) _ p (H3 _ _ Hp)). cbn. by rewrite lookup_insert_eq.
  - unfold hist. cbn. destruct (g_rtc_histogram_map w) as [m|] eqn:Em; [|done]. cbn.
    destruct (m !! n) as [q|] eqn:Eq; [|done]. cbn. rewrite lookup_insert_ne; [done|]. intros <-.
    destruct (H2 n p) as (h0 & Hp0 & <-); [by exists m|]. congruence.
Qed.

Lemma samples_set w p h h' n :
  wf w -> heap w !! p = Some h ->
  samples_of (set_heap w (<[p := h']> (heap w))) n =
    if decide (n = name (info_ h)) then samples (info_ h') else samples_of w n.
Proof. intros Hwf Hp. unfold samples_of. rewrite (hist_set w p h h' n Hwf Hp). by destruct (decide _). Qed.

(** *** Looking a histogram up *)
Definition factory_ok (f : factory) : Prop :=
  match f with
  | GetCounts _ _ c | GetCountsLinear _ _ c => 0 < c
  | GetEnumeration b | SparseGetEnumeration b => 0 <= b < 2147483647
  end.

Definition same_samples (w w' : metrics) : Prop := forall n, samples_of w' n = samples_of w n.

Lemma find_or_make_ok w m n make :
  wf w -> g_rtc_histogram_map w = Some m ->
  returns make (fun h => name (info_ h) = n /\ samples (info_ h) = ∅) ->
  returns (find_or_make w m n make) (fun x => wf x.2 /\ extends w x.2 /\ same_samples w x.2 /\ held x.2 n x.1).
Proof.
  intros Hwf Hm Hmake. unfold find_or_make. destruct (m !! n) as [p|] eqn:Ep.
  { apply returns_ok. split; [done|]. split; [done|]. split; [done|]. by exists m. }
  eapply returns_bind; [exact Hmake|]. intros h [Hn Hs]. apply returns_ok. cbn [fst snd].
  pose proof Hwf as (_ & H2 & H3 & H4).
  assert (heap w !! next w = None) as Hnew.
  { destruct (heap w !! next w) eqn:E; [|done]. specialize (H4 (next w)). rewrite E in H4. specialize (H4 ltac:(by eexists)). lia. }
  assert (forall q h0, heap w !! q = Some h0 -> q <> next w) as Hne by (intros q h0 Hq ->; congruence).
  split; [split; [by eexists|split; [|split]]|split; [split|split]].
  - intros n' q (m' & [= <-] & Hq). cbn. rewrite lookup_insert_Some in Hq. destruct Hq as [[<- <-]|[Hnn Hq]].
    + exists h. by rewrite lookup_insert_eq.
    + destruct (H2 n' q) as (h0 & Hq0 & Hn0); [by exists m|]. exists h0.
      rewrite lookup_insert_ne; [done|]. intros <-. by apply Hne in Hq0.
  - intros q h0. cbn. rewrite lookup_insert_Some. intros [[<- <-]|[Hqn Hq]].
    + eexists. split; [reflexivity|]. by rewrite Hn, lookup_insert_eq.
    + eexists. split; [reflexivity|]. destruct (H3 _ _ Hq) as (m' & Hm' & Hq'). assert (m' = m) as -> by congruence.
      rewrite lookup_insert_ne; [done|]. congruence.
  - intros q [h0 Hq]. cbn in *. rewrite lookup_insert_Some in Hq. destruct Hq as [[<- _]|[_ Hq]]; [lia|].
    specialize (H4 q ltac:(by eexists)). lia.
  - intros n' q (m' & Hm' & Hq). assert (m' = m) as -> by congruence. eexists. split; [reflexivity|].
    rewrite lookup_insert_ne; [done|]. intros <-. congruence.
  - intros q h0 Hq. exists h0. cbn. rewrite lookup_insert_ne; [done|]. intros <-. by apply Hne in Hq.
  - intros n'. unfold samples_of, hist. rewrite Hm. cbn. destruct (decide (n' = n)) as [->|].
    + rewrite lookup_insert_eq, Ep. cbn. by rewrite lookup_insert_eq.
    + rewrite lookup_insert_ne by done. destruct (m !! n') as [q|] eqn:Eq; [|done]. cbn.
      destruct (H2 n' q) as (h0 & Hq0 & _); [by exists m|]. rewrite lookup_insert_ne; [done|].
      intros <-. by apply Hne in Hq0.
  - eexists. split; [reflexivity|]. by rewrite lookup_insert_eq.
Qed.

Lemma new_histogram_ok n lo hi count :
  0 < count -> returns (new_histogram n lo hi count) (fun h => name (info_ h) = n /\ samples (info_ h) = ∅).
Proof. intros Hc. unfold new_histogram. by rewrite (proj2 (Z.ltb_lt _ _)); [apply returns_ok|]. Qed.

Lemma invoke_ok w n f :
  wf w -> factory_ok f ->
  returns (invoke w n f) (fun x => wf x.2 /\ extends w x.2 /\ same_samples w x.2 /\ exists p, x.1 = Some p /\ held x.2 n p).
Proof.
  intros Hwf Hf. pose proof Hwf as ([m Hm] & _). destruct w as [g c hp nx]. cbn in Hm. subst g.
  set (w := mkMetrics (Some m) c hp nx). set (w0 := mkMetrics (Some m) true hp nx).
  assert (forall make, returns make (fun h => name (info_ h) = n /\ samples (info_ h) = ∅) ->
    returns ('(p, w) ← find_or_make w0 m n make; Ok (Some p, w))
      (fun x => wf x.2 /\ extends w x.2 /\ same_samples w x.2 /\ exists p, x.1 = Some p /\ held x.2 n p)) as Hgo.
  { intros make Hmake. eapply returns_bind; [by apply (find_or_make_ok w0 m n make Hwf eq_refl)|].
    intros [p w'] (A & B & C & D). apply returns_ok. split; [exact A|]. split; [exact B|]. split; [exact C|]. by exists p. }
  destruct f as [lo hi k|lo hi k|b|b]; cbn [factory_ok] in Hf;
    apply Hgo; apply new_histogram_ok; rewrite ?i32_small; lia.
Qed.

(** ** The invariant *)
Definition outputs (s : state) : list (gmap bytes SampleInfo) :=
  reports s ++ match report s with Some (_, _, out) => [out] | None => [] end.

Definition events (r : gmap bytes SampleInfo) (n : bytes) (v : Z) : Z :=
  match r !! n with Some i => default 0 (samples i !! v) | None => 0 end.

(** How often a value was reported, how often it is stored, and how often it
    was counted. *)
Definition reported (l : list (gmap bytes SampleInfo)) (n : bytes) (v : Z) : Z := foldr (fun r t => events r n v + t) 0 l.
Definition stored (w : metrics) (n : bytes) (v : Z) : Z := default 0 (samples_of w n !! v).
Definition counts_as (w : metrics) (n : bytes) (v : Z) (e : bytes * Z * bool) : bool :=
  let '(n', sample, counted) := e in counted && bool_decide (n' = n) && (bucket_of w n sample =? v).
Definition recorded (w : metrics) (l : list (bytes * Z * bool)) (n : bytes) (v : Z) : Z :=
  zlen (List.filter (counts_as w n v) l).

(** The samples a thread has still to add. *)
Definition asked (r : request) : list (bytes * Z) :=
  match r with
  | Count site sample => [((place site).1, sample)]
  | CountSlow n _ sample => [(n, sample)]
  | Report => []
  end.
Definition pending_pc (w : metrics) (p : pc) : list (bytes * Z) :=
  match p with
  | Idle | Reporting | Adding None _ => []
  | Loaded site sample | Swapping site sample _ => [((place site).1, sample)]
  | Asking n _ sample => [(n, sample)]
  | Adding (Some q) sample => match heap w !! q with Some h => [(name (info_ h), sample)] | None => [] end
  end.
Definition pending (w : metrics) (t : thread) : list (bytes * Z) := pending_pc w t.1 ++ (t.2 ≫= asked).

Definition request_ok (r : request) : Prop :=
  match r with
  | Count site _ => factory_ok (place site).2
  | CountSlow _ f _ => factory_ok f
  | Report => True
  end.

(** A thread's place in its request. *)
Definition pc_ok (w : metrics) (p : pc) : Prop :=
  match p with
  | Idle | Reporting => True
  | Loaded site _ => factory_ok (place site).2
  | Swapping site _ p => exists q, p = Some q /\ held w (place site).1 q
  | Asking _ f _ => factory_ok f
  | Adding p _ => exists q n, p = Some q /\ held w n q
  end.

Definition thread_ok (s : state) (i : nat) (t : thread) : Prop :=
  pc_ok (memory s) t.1 /\ Forall request_ok t.2 /\
  (t.1 = Reporting <-> exists l out, report s = Some (i, l, out)).

Definition report_ok (s : state) : Prop :=
  match report s with
  | None => True
  | Some (i, l, out) =>
      is_Some (threads s !! i) /\ NoDup l.*1 /\ Forall (fun x => held (memory s) x.1 x.2 /\ out !! x.1 = None) l
  end.

Definition ledger (w : metrics) (added : list (bytes * Z * bool)) (outs : list (gmap bytes SampleInfo)) : Prop :=
  Forall (fun e => exists p, held w e.1.1 p) added /\
  (forall n v, 0 <= stored w n v) /\ (forall n v, 0 <= reported outs n v) /\
  (forall n v, recorded w added n v = stored w n v + reported outs n v).

(** The values of a histogram are in its range; one with at most 300 of them
    counts every sample. *)
Definition in_range (h : RtcHistogram) : Prop :=
  forall v, is_Some (samples (info_ h) !! v) -> i32 (min_ h - 1) <= v <= Z.max (max_ h) (i32 (min_ h - 1)).
Definition narrow (h : RtcHistogram) : Prop :=
  Z.max (max_ h) (i32 (min_ h - 1)) - i32 (min_ h - 1) < 300.

Definition inv (all : list (bytes * Z)) (s : state) : Prop :=
  wf (memory s) /\
  (forall site p, pointers s !! site = Some p -> held (memory s) (place site).1 p) /\
  (forall i t, threads s !! i = Some t -> thread_ok s i t) /\
  report_ok s /\
  ledger (memory s) (added s) (outputs s) /\
  (added s).*1 ++ (threads s ≫= pending (memory s)) ≡ₚ all /\
  (forall n h, hist (memory s) n = Some h -> in_range h) /\
  Forall (fun e => forall h, hist (memory s) e.1.1 = Some h -> narrow h -> e.2 = true) (added s).
(** *** What stays when the memory grows *)
Lemma hist_back w w' n p h' :
  wf w -> extends w w' -> held w n p -> hist w' n = Some h' ->
  exists h, hist w n = Some h /\ min_ h' = min_ h /\ max_ h' = max_ h.
Proof.
  intros Hwf [E1 E2] Hh Hh'. destruct (wf_held w n p Hwf Hh) as (h & Hp & _ & Hn). exists h. split; [done|].
  rewrite (held_hist w' n p (E1 _ _ Hh)) in Hh'. destruct (E2 _ _ Hp) as (h2 & Hp2 & ? & ? & _).
  assert (h2 = h') as -> by congruence. done.
Qed.

Lemma recorded_extends w w' l n v :
  wf w -> extends w w' -> Forall (fun e => exists p, held w e.1.1 p) l -> recorded w' l n v = recorded w l n v.
Proof.
  intros Hwf He Hl. unfold recorded. f_equal. induction Hl as [|[[n' x] b] l [p Hp] Hl IH]; [done|].
  assert (counts_as w' n v (n', x, b) = counts_as w n v (n', x, b)) as Hc.
  { cbn. destruct (decide (n' = n)) as [->|Hne]; [by rewrite (extends_bucket w w' n p x Hwf He Hp)|].
    by rewrite bool_decide_false, !andb_false_r by done. }
  cbn [List.filter]. by rewrite Hc, IH.
Qed.

Lemma pending_extends w w' t : wf w -> extends w w' -> pc_ok w t.1 -> pending w' t = pending w t.
Proof.
  intros Hwf [_ E2] Hp. unfold pending. f_equal. destruct t as [[|site x|site x p|n f x|[q|] x|] todo]; try done.
  cbn in *. destruct Hp as (q' & n & [= <-] & Hh). destruct (wf_held w n q Hwf Hh) as (h & Hq & _).
  destruct (E2 _ _ Hq) as (h' & -> & _ & _ & Hn). rewrite Hq. by rewrite Hn.
Qed.

Lemma pc_ok_extends w w' p : extends w w' -> pc_ok w p -> pc_ok w' p.
Proof.
  intros [E1 _]. destruct p as [|site x|site x p|n f x|p x|]; cbn; try done.
  - intros (q & -> & Hh). exists q. by split; [|apply E1].
  - intros (q & n & -> & Hh). exists q, n. by split; [|apply E1].
Qed.

Lemma ledger_extends w w' added outs :
  wf w -> extends w w' -> same_samples w w' -> ledger w added outs -> ledger w' added outs.
Proof.
  intros Hwf He Hs (L1 & L2 & L3 & L4). assert (forall n v, stored w' n v = stored w n v) as Hst
    by (intros n v; unfold stored; by rewrite Hs).
  split; [|split; [|split; [done|]]].
  - eapply list.Forall_impl; [exact L1|]. intros e [p Hp]. exists p. by apply He.
  - intros n v. rewrite Hst. apply L2.
  - intros n v. by rewrite Hst, (recorded_extends w w').
Qed.

Lemma in_range_extends w w' :
  wf w -> extends w w' -> same_samples w w' -> wf w' -> (forall n h, hist w n = Some h -> in_range h) ->
  forall n h, hist w' n = Some h -> in_range h.
Proof.
  intros Hwf He Hs Hwf' Hr n h' Hh'. specialize (Hs n). unfold samples_of in Hs. rewrite Hh' in Hs.
  destruct (hist w n) as [h|] eqn:Eh.
  - assert (exists p, held w n p) as [p Hp].
    { unfold hist in Eh. destruct (g_rtc_histogram_map w) as [m|] eqn:Em; [|done]. cbn in Eh.
      destruct (m !! n) as [p|] eqn:Ep; [|done]. by exists p, m. }
    destruct (hist_back w w' n p h' Hwf He Hp Hh') as (h0 & E0 & Hmin & Hmax). assert (h0 = h) as -> by congruence.
    intros v Hv. rewrite Hs in Hv. rewrite Hmin, Hmax. by apply (Hr n h Eh).
  - intros v [x Hx]. by rewrite Hs, lookup_empty in Hx.
Qed.

Lemma narrow_extends w w' (l : list (bytes * Z * bool)) :
  wf w -> extends w w' -> Forall (fun e => exists p, held w e.1.1 p) l ->
  Forall (fun e => forall h, hist w e.1.1 = Some h -> narrow h -> e.2 = true) l ->
  Forall (fun e => forall h, hist w' e.1.1 = Some h -> narrow h -> e.2 = true) l.
Proof.
  intros Hwf He Hh Hl. rewrite list.Forall_forall in Hh, Hl |- *. intros e Hin h' Hh' Hn.
  destruct (Hh _ Hin) as [p Hp]. destruct (hist_back w w' _ p h' Hwf He Hp Hh') as (h & Eh & Hmin & Hmax).
  eapply Hl; [exact Hin|exact Eh|]. unfold narrow in *. by rewrite <- Hmin, <- Hmax.
Qed.

Lemma pending_insert w ts i (t t' : thread) :
  ts !! i = Some t -> pending w t' ≡ₚ pending w t -> <[i := t']> ts ≫= pending w ≡ₚ ts ≫= pending w.
Proof.
  intros Hi Hp. rewrite <- (take_drop_middle ts i t Hi) at 2. rewrite insert_take_drop by (by eapply lookup_lt_Some).
  rewrite !bind_app. cbn. by rewrite Hp.
Qed.

Lemma bind_pending_extends s w' :
  wf (memory s) -> extends (memory s) w' -> (forall i t, threads s !! i = Some t -> thread_ok s i t) ->
  threads s ≫= pending w' = threads s ≫= pending (memory s).
Proof.
  intros Hwf He Hts. assert (Forall (fun t => pc_ok (memory s) t.1) (threads s)) as Hall.
  { apply list.Forall_lookup. intros i t Ht. by apply (Hts i t Ht). } clear Hts.
  induction Hall as [|t ts Ht Hall IH]; [done|]. rewrite !bind_cons. by rewrite IH, (pending_extends _ _ _ Hwf He Ht).
Qed.

(** A thread moves on, outside GetAndReset. *)
Lemma inv_move all s i t t' w' ptrs :
  inv all s -> threads s !! i = Some t -> wf w' -> extends (memory s) w' -> same_samples (memory s) w' ->
  (forall site p, ptrs !! site = Some p -> held w' (place site).1 p) ->
  pc_ok w' t'.1 -> Forall request_ok t'.2 -> t.1 <> Reporting -> t'.1 <> Reporting ->
  pending w' t' ≡ₚ pending (memory s) t ->
  inv all (mkState w' ptrs (report s) (<[i := t']> (threads s)) (added s) (reports s)).
Proof.
  intros (Hwf & Hptr & Hts & Hrep & Hled & Hperm & Hran & Hnar) Ht Hwf' He Hs Hptrs Hpc Hreq Hnr Hnr' Hpend.
  split; [done|]. split; [done|]. split; [|split; [|split; [|split; [|split]]]]; cbn.
  - intros j u. rewrite list_lookup_insert_Some. intros [(<- & <- & _)|[Hji Hu]].
    + split; [done|]. split; [done|]. split; [done|]. intros (l & out & Hr). destruct (Hts i t Ht) as (_ & _ & Hiff).
      destruct Hnr. apply Hiff. by exists l, out.
    + destruct (Hts j u Hu) as (A & B & C). split; [by apply (pc_ok_extends (memory s))|]. by split.
  - unfold report_ok in *. cbn. destruct (report s) as [[[j l] out]|]; [|done]. destruct Hrep as (A & B & C).
    split; [|split; [done|]].
    + destruct (decide (j = i)) as [->|]; [rewrite list_lookup_insert_eq; [by eexists|by eapply lookup_lt_Some]|].
      by rewrite list_lookup_insert_ne.
    + eapply list.Forall_impl; [exact C|]. intros x [Hx ?]. split; [by apply He|done].
  - by apply (ledger_extends (memory s)).
  - rewrite <- Hperm. f_equiv. rewrite (pending_insert w' (threads s) i t t' Ht).
    + by rewrite (bind_pending_extends s w').
    + rewrite Hpend. by rewrite (pending_extends _ _ _ Hwf He (proj1 (Hts _ _ Ht))).
  - by apply (in_range_extends (memory s) w').
  - eapply narrow_extends; [exact Hwf|done|apply Hled|done].
Qed.
(** *** The steps *)
Lemma same_samples_refl w : same_samples w w.
Proof. by intros n. Qed.

Lemma swap_inv all s i todo site sample p :
  inv all s -> threads s !! i = Some (Swapping site sample p, todo) ->
  returns (swap s i todo site sample p) (inv all).
Proof.
  intros Hi Ht. pose proof Hi as (Hwf & Hptr & Hts & _). destruct (Hts _ _ Ht) as (Hpc & Hreq & _).
  destruct Hpc as (q & -> & Hq). unfold swap.
  assert (exists ptr prev, CompareAndSwapPtr (pointers s !! site) q = (Some ptr, prev) /\ ptr = q /\
    (prev = None \/ prev = Some q)) as (ptr & prev & -> & -> & Hprev).
  { unfold CompareAndSwapPtr. destruct (pointers s !! site) as [q'|] eqn:E; [|by exists q, None; auto].
    assert (q' = q) as -> by (by eapply held_unique; [apply Hptr|]). exists q, (Some q). auto. }
  rewrite bool_decide_true by done. apply returns_ok.
  eapply inv_move; [done|exact Ht|done|reflexivity|apply same_samples_refl| | |done|done|done|].
  - intros site' q'. rewrite lookup_insert_Some. intros [[<- <-]|[_ H']]; [done|by apply Hptr].
  - by exists q, (place site).1.
  - cbn. destruct (wf_held _ _ _ Hwf Hq) as (h & -> & Hn & _). by rewrite Hn.
Qed.

Lemma invoke_inv all s i todo n f sample (pcs : option nat -> pc) :
  inv all s -> factory_ok f ->
  (exists pc0, threads s !! i = Some (pc0, todo) /\ pc0 <> Reporting /\ pending_pc (memory s) pc0 = [(n, sample)]) ->
  (forall w p, wf w -> held w n p -> pc_ok w (pcs (Some p)) /\ pcs (Some p) <> Reporting /\
     pending_pc w (pcs (Some p)) = [(n, sample)]) ->
  returns ('(p, w) ← invoke (memory s) n f; Ok (set_thread s i (pcs p, todo) w)) (inv all).
Proof.
  intros Hi Hf (pc0 & Ht & Hnr & Hpend) Hpcs. pose proof Hi as (Hwf & Hptr & Hts & _).
  eapply returns_bind; [by apply invoke_ok|]. intros [p' w'] (Hwf' & He & Hs & p & Hp' & Hp). cbn in *. subst p'.
  destruct (Hpcs w' p Hwf' Hp) as (Hpc & Hnr' & Hpend'). apply returns_ok.
  eapply inv_move; [done|exact Ht|done|done|done| |done| |done|done|].
  - intros site q Hq. by apply He, Hptr.
  - by destruct (Hts _ _ Ht) as (_ & ? & _).
  - unfold pending. cbn. by rewrite Hpend, Hpend'.
Qed.

(** The report and the thread that makes it change together. *)
Lemma inv_report all s i t t' w' rep outs :
  inv all s -> threads s !! i = Some t -> wf w' -> extends (memory s) w' ->
  pc_ok w' t'.1 -> Forall request_ok t'.2 -> pending w' t' ≡ₚ pending (memory s) t ->
  (forall j u, threads s !! j = Some u -> j <> i ->
     (u.1 = Reporting <-> exists l out, rep = Some (j, l, out))) ->
  (t'.1 = Reporting <-> exists l out, rep = Some (i, l, out)) ->
  report_ok (mkState w' (pointers s) rep (<[i := t']> (threads s)) (added s) outs) ->
  ledger w' (added s) (outputs (mkState w' (pointers s) rep (<[i := t']> (threads s)) (added s) outs)) ->
  (forall n h, hist w' n = Some h -> in_range h) ->
  inv all (mkState w' (pointers s) rep (<[i := t']> (threads s)) (added s) outs).
Proof.
  intros (Hwf & Hptr & Hts & Hrep & Hled & Hperm & Hran & Hnar) Ht Hwf' He Hpc Hreq Hpend Hoth Hself Hrep' Hled' Hran'.
  split; [done|]. split; [intros site p Hp; by apply He, Hptr|].
  split; [|split; [done|split; [done|split; [|split; [done|]]]]]; cbn.
  - intros j u. rewrite list_lookup_insert_Some. intros [(<- & <- & _)|[Hji Hu]]; [by split|].
    destruct (Hts j u Hu) as (A & B & _). split; [by apply (pc_ok_extends (memory s))|]. split; [done|]. by apply Hoth.
  - rewrite <- Hperm. f_equiv. rewrite (pending_insert w' (threads s) i t t' Ht).
    + by rewrite (bind_pending_extends s w').
    + rewrite Hpend. by rewrite (pending_extends _ _ _ Hwf He (proj1 (Hts _ _ Ht))).
  - eapply narrow_extends; [exact Hwf|done|apply Hled|done].
Qed.

Lemma reported_app l k n v : reported (l ++ k) n v = reported l n v + reported k n v.
Proof. unfold reported. induction l as [|r l IH]; cbn; [done|]. rewrite IH. lia. Qed.

Lemma begin_inv all s i r todo :
  inv all s -> threads s !! i = Some (Idle, r :: todo) -> returns (begin s i r todo) (inv all).
Proof.
  intros Hi Ht. pose proof Hi as (Hwf & Hptr & Hts & Hrep & Hled & Hperm & Hran & Hnar).
  destruct (Hts _ _ Ht) as (_ & Hreq & Hself). cbn [snd fst] in Hreq, Hself. pose proof (Forall_inv Hreq) as Hr; apply Forall_inv_tail in Hreq.
  destruct r as [site sample|n f sample|]; cbn [begin].
  - apply returns_ok. destruct (pointers s !! site) as [p|] eqn:Ep.
    + pose proof (Hptr _ _ Ep) as Hp. eapply inv_move; [done|exact Ht|done|reflexivity|apply same_samples_refl|exact Hptr| |done|done|done|].
      * by exists p, (place site).1.
      * unfold pending. cbn. destruct (wf_held _ _ _ Hwf Hp) as (h & -> & Hn & _). by rewrite Hn.
    + by eapply inv_move; [done|exact Ht|done|reflexivity|apply same_samples_refl|exact Hptr|..].
  - apply returns_ok. by eapply inv_move; [done|exact Ht|done|reflexivity|apply same_samples_refl|exact Hptr|..].
  - unfold GetMap. destruct (g_rtc_histogram_map (memory s)) as [m|] eqn:Em; [|destruct Hwf as ([g Hg] & _); congruence].
    unfold locked. case_bool_decide as Hl; [by apply returns_ok|]. apply returns_ok.
    assert (report s = None) as Hno by (destruct (report s) eqn:E; [destruct Hl; by eexists|done]).
    set (w' := mkMetrics (Some m) true (heap (memory s)) (next (memory s))).
    assert (forall n p, held (memory s) n p <-> held w' n p) as Hheld by (intros n p; unfold held; by rewrite Em).
    assert (forall n, hist w' n = hist (memory s) n) as Hhist by (intros n; unfold hist; by rewrite Em).
    assert (same_samples (memory s) w') as Hsame by (intros n; unfold samples_of; by rewrite Hhist).
    assert (extends (memory s) w') as He.
    { split; [intros n p; apply Hheld|]. intros p h Hp. by exists h. }
    assert (wf w') as Hwf'.
    { destruct Hwf as (_ & W2 & W3 & W4). split; [by eexists|]. split; [intros n p Hh; apply W2, Hheld, Hh|].
      split; [|done]. intros p h Hp. apply Hheld. by apply W3. }
    eapply inv_report; [done|exact Ht|done|done|done|done|done| | | | |].
    + intros j u Hu Hji. destruct (Hts _ _ Hu) as (_ & _ & C). rewrite C, Hno.
      split; [by intros (? & ? & ?)|]. intros (? & ? & [= ? _ _]). congruence.
    + split; [|done]. intros _. by eexists _, _.
    + split; [cbn; rewrite list_lookup_insert_eq; [by eexists|by eapply lookup_lt_Some]|]. split; [apply NoDup_fst_map_to_list|].
      apply list.Forall_forall. intros [n p] Hin%elem_of_map_to_list. split; [by exists m|done].
    + unfold outputs in *. cbn. rewrite Hno, app_nil_r in Hled. destruct (ledger_extends _ _ _ _ Hwf He Hsame Hled) as (L1 & L2 & L3 & L4).
      assert (forall n v, reported (reports s ++ [∅]) n v = reported (reports s) n v) as Hre.
      { intros n v. rewrite reported_app. cbn. unfold events. rewrite lookup_empty. lia. }
      split; [done|]. split; [done|]. split; intros n v; rewrite Hre; [apply L3|apply L4].
    + intros n h. rewrite Hhist. apply Hran.
Qed.
(** Taking the samples of a histogram out. *)
Lemma take_samples_ok w out n p :
  wf w -> held w n p -> out !! n = None ->
  returns (take_samples w out n p) (fun x => wf x.2 /\ extends w x.2 /\
    (forall n', samples_of x.2 n' = if decide (n' = n) then ∅ else samples_of w n') /\
    (forall n' v, events x.1 n' v = if decide (n' = n) then stored w n v else events out n' v) /\
    (forall n', n' <> n -> x.1 !! n' = out !! n')).
Proof.
  intros Hwf Hh Hout. destruct (wf_held w n p Hwf Hh) as (h & Hp & Hn & Hhist). unfold take_samples, deref. rewrite Hp.
  assert (forall v, stored w n v = default 0 (samples (info_ h) !! v)) as Hst
    by (intros v; unfold stored, samples_of; by rewrite Hhist).
  rewrite from_opt_Some, bind_ok. unfold GetAndReset. case_bool_decide as He; apply returns_ok; cbn [fst snd].
  - split; [by apply (wf_set w p h)|]. split; [by apply (extends_set w p h)|]. split; [|split; [|done]].
    + intros n'. rewrite (samples_set w p h h n' Hwf Hp), Hn. by destruct (decide (n' = n)).
    + intros n' v. destruct (decide (n' = n)) as [->|]; [|done]. rewrite Hst. unfold events. by rewrite Hout, He, lookup_empty.
  - set (h' := set_samples h ∅). split; [by apply (wf_set w p h)|]. split; [by apply (extends_set w p h)|]. split; [|split].
    + intros n'. rewrite (samples_set w p h h' n' Hwf Hp), Hn. by destruct (decide (n' = n)).
    + intros n' v. unfold insert_new, events. rewrite Hout. destruct (decide (n' = n)) as [->|].
      * by rewrite lookup_insert_eq, Hst.
      * by rewrite lookup_insert_ne.
    + intros n' Hne. unfold insert_new. by rewrite Hout, lookup_insert_ne.
Qed.

Lemma in_range_taken w w' n :
  wf w -> extends w w' -> (forall n', samples_of w' n' = if decide (n' = n) then ∅ else samples_of w n') ->
  (forall n h, hist w n = Some h -> in_range h) -> (forall n p, held w' n p -> held w n p) ->
  forall n h, hist w' n = Some h -> in_range h.
Proof.
  intros Hwf He Hs Hr Hback n' h' Hh'. specialize (Hs n'). unfold samples_of in Hs. rewrite Hh' in Hs.
  assert (exists p, held w' n' p) as [p Hp%Hback].
  { unfold hist in Hh'. destruct (g_rtc_histogram_map w') as [m|] eqn:Em; [|done]. cbn in Hh'.
    destruct (m !! n') as [p|] eqn:Ep; [|done]. by exists p, m. }
  destruct (hist_back w w' n' p h' Hwf He Hp Hh') as (h & Eh & Hmin & Hmax). intros v Hv. rewrite Hs in Hv.
  destruct (decide (n' = n)); [rewrite lookup_empty in Hv; by destruct Hv|]. rewrite Eh in Hv. rewrite Hmin, Hmax. by apply (Hr n' h Eh).
Qed.

Lemma take_samples_held w out n p x n' q : take_samples w out n p = Ok x -> held x.2 n' q -> held w n' q.
Proof.
  unfold take_samples. destruct (deref w p) as [h|]; [|done]. cbn. destruct (GetAndReset h) as [info h'].
  by intros [= <-].
Qed.

Lemma go_on_inv all s i todo :
  inv all s -> threads s !! i = Some (Reporting, todo) -> returns (go_on s i todo) (inv all).
Proof.
  intros Hi Ht. pose proof Hi as (Hwf & Hptr & Hts & Hrep & Hled & Hperm & Hran & Hnar).
  destruct (Hts _ _ Ht) as (_ & Hreq & Hself). cbn [snd fst] in Hreq, Hself.
  destruct (proj1 Hself eq_refl) as (l & out & Er). unfold go_on. rewrite Er. unfold report_ok in Hrep. rewrite Er in Hrep.
  destruct Hrep as (_ & Hnd & Hl).
  assert (forall j u, threads s !! j = Some u -> j <> i -> u.1 <> Reporting) as Hothers.
  { intros j u Hu Hji Hur. destruct (Hts _ _ Hu) as (_ & _ & C). apply C in Hur as (? & ? & Hur). congruence. }
  destruct l as [|[n p] l].
  - apply returns_ok. eapply inv_report; [done|exact Ht|done|reflexivity|done|done|done| | |done| |done].
    + intros j u Hu Hji. split; [intros Hur; by destruct (Hothers j u Hu Hji)|]. by intros (? & ? & ?).
    + split; [done|]. by intros (? & ? & ?).
    + unfold outputs in *. cbn. rewrite Er in Hled. by rewrite app_nil_r.
  - pose proof (Forall_inv Hl) as [Hp Hout]. apply Forall_inv_tail in Hl. cbn in Hp, Hout.
    cbn [fmap list_fmap fst] in Hnd. apply list.NoDup_cons in Hnd as [Hnin Hnd].
    destruct (take_samples_ok (memory s) out n p Hwf Hp Hout) as ([out' w'] & E & Hwf' & He & Hs & Hev & Hkeep).
    cbn [fst snd] in *. rewrite E. apply returns_ok. rewrite <- (list_insert_id (threads s) i _ Ht) at 1.
    eapply inv_report; [done|exact Ht|done|done|done|done| | | | | |].
    + unfold pending. by cbn.
    + intros j u Hu Hji. split; [intros Hur; by destruct (Hothers j u Hu Hji)|]. intros (? & ? & [= ? _ _]). congruence.
    + split; [|done]. intros _. by exists l, out'.
    + split; [cbn; rewrite list_lookup_insert_eq; [by eexists|by eapply lookup_lt_Some]|]. split; [done|].
      rewrite list.Forall_forall in Hl |- *. intros [n' q] Hin. destruct (Hl _ Hin) as [Hq Hq']. cbn in *. split; [by apply He|].
      rewrite Hkeep; [done|]. intros ->. apply Hnin. by apply (list_elem_of_fmap_2 fst _ (n, q)).
    + unfold outputs in *. cbn. rewrite Er in Hled. destruct Hled as (L1 & L2 & L3 & L4).
      assert (forall n' v, stored w' n' v + reported (reports s ++ [out']) n' v =
        stored (memory s) n' v + reported (reports s ++ [out]) n' v) as Hsum.
      { intros n' v. rewrite !reported_app. cbn. rewrite Hev. unfold stored. rewrite Hs.
        destruct (decide (n' = n)) as [->|]; [|done]. rewrite lookup_empty. unfold stored, events. rewrite Hout. cbn. lia. }
      assert (forall n' v, 0 <= stored w' n' v) as Hpos.
      { intros n' v. unfold stored. rewrite Hs. destruct (decide (n' = n)); [by rewrite lookup_empty|apply L2]. }
      split; [|split; [done|split]].
      * eapply list.Forall_impl; [exact L1|]. intros e [q Hq]. exists q. by apply He.
      * intros n' v. specialize (L3 n' v). rewrite reported_app in *. cbn in *. rewrite Hev.
        destruct (decide (n' = n)) as [->|]; [|done]. specialize (L2 n v). unfold events in L3. rewrite Hout in L3. lia.
      * intros n' v. rewrite Hsum, (recorded_extends (memory s) w') by done. apply L4.
    + eapply (in_range_taken (memory s) w' n); try done. intros n' q. by apply (take_samples_held _ _ _ _ _ _ _ E).
Qed.
(** *** Adding a sample *)
Lemma bucket_range h sample :
  i32 (min_ h - 1) <= bucket h sample <= Z.max (max_ h) (i32 (min_ h - 1)).
Proof. unfold bucket. lia. Qed.

(** A histogram with few values always has a place for one of them. *)
Lemma narrow_not_full h sample : in_range h -> narrow h -> full h (bucket h sample) = false.
Proof.
  intros Hr Hn. unfold full. destruct (bool_decide_reflect (samples (info_ h) !! bucket h sample = None)) as [Hb|]; [|by rewrite andb_false_r].
  rewrite andb_true_r. apply bool_decide_eq_false. intros Hsize. unfold narrow in Hn.
  set (lo := i32 (min_ h - 1)) in *. set (hi := Z.max (max_ h) lo) in *.
  assert (dom (samples (info_ h)) ⊆ list_to_set (C := gset Z) (seqZ lo (hi - lo + 1)) ∖ {[ bucket h sample ]}) as Hsub.
  { intros v Hv%elem_of_dom. apply elem_of_difference. split.
    - apply elem_of_list_to_set, elem_of_seqZ. specialize (Hr v Hv). fold lo in Hr. fold hi in Hr. lia.
    - intros ->%elem_of_singleton. rewrite Hb in Hv. by destruct Hv. }
  apply subseteq_size in Hsub. rewrite size_dom, Hsize in Hsub.
  rewrite size_difference in Hsub.
  - rewrite size_list_to_set, length_seqZ, size_singleton in Hsub by apply NoDup_seqZ. unfold kMaxSampleMapSize in Hsub. lia.
  - intros v ->%elem_of_singleton. apply elem_of_list_to_set, elem_of_seqZ. pose proof (bucket_range h sample). fold lo in H. fold hi in H. lia.
Qed.

Lemma recorded_bound w l n v : 0 <= recorded w l n v <= zlen l.
Proof.
  unfold recorded. split; [apply zlen_nonneg|]. unfold zlen. pose proof (List.filter_length_le (counts_as w n v) l). lia.
Qed.

Lemma recorded_snoc w l e n v : recorded w (l ++ [e]) n v = recorded w l n v + if counts_as w n v e then 1 else 0.
Proof. unfold recorded. rewrite List.filter_app, zlen_app. cbn. by destruct (counts_as w n v e). Qed.

Lemma Add_bounds h sample : min_ (Add h sample) = min_ h /\ max_ (Add h sample) = max_ h /\ name (info_ (Add h sample)) = name (info_ h).
Proof. unfold Add. by destruct (full h (bucket h sample)). Qed.

(** What adding a sample does to the counts. *)
Lemma Add_samples h sample v :
  0 <= NumEvents h (bucket h sample) < 2147483647 ->
  NumEvents (Add h sample) v =
    NumEvents h v + if negb (full h (bucket h sample)) && (bucket h sample =? v) then 1 else 0.
Proof.
  intros Hb. unfold Add, NumEvents in *. destruct (full h (bucket h sample)); cbn [negb andb]; [lia|]. cbn.
  destruct (decide (v = bucket h sample)) as [->|Hne].
  - rewrite lookup_insert_eq, Z.eqb_refl. cbn. rewrite i32_small; lia.
  - rewrite lookup_insert_ne, (proj2 (Z.eqb_neq _ _)) by congruence. lia.
Qed.

Lemma Add_in_range h sample : in_range h -> in_range (Add h sample).
Proof.
  intros Hr v Hv. destruct (Add_bounds h sample) as (-> & -> & _). unfold Add in Hv.
  destruct (full h (bucket h sample)); [by apply Hr|]. cbn in Hv.
  destruct (decide (v = bucket h sample)) as [->|]; [apply bucket_range|]. rewrite lookup_insert_ne in Hv by done. by apply Hr.
Qed.

Lemma add_inv all s i todo p sample :
  inv all s -> zlen all < 2147483648 -> threads s !! i = Some (Adding (Some p) sample, todo) ->
  returns (add s i todo p sample) (inv all).
Proof.
  intros Hi Hall Ht. pose proof Hi as (Hwf & Hptr & Hts & Hrep & Hled & Hperm & Hran & Hnar).
  destruct (Hts _ _ Ht) as (Hpc & Hreq & Hself). cbn [snd fst] in Hreq, Hself, Hpc.
  destruct Hpc as (q & n & [= <-] & Hp). destruct (wf_held _ n p Hwf Hp) as (h & Hh & Hn & Hhist).
  unfold add, HistogramAdd, deref. rewrite Hh, !from_opt_Some, !bind_ok.
  set (w' := set_heap (memory s) (<[p := Add h sample]> (heap (memory s)))).
  destruct (Add_bounds h sample) as (Hmin & Hmax & Hname).
  assert (wf w') as Hwf' by (by apply (wf_set _ p h)). assert (extends (memory s) w') as He by (by apply (extends_set _ p h)).
  destruct Hled as (L1 & L2 & L3 & L4). set (e := (name (info_ h), sample, negb (full h (bucket h sample)))).
  assert (hist w' n = Some (Add h sample)) as Hhist'.
  { rewrite (held_hist w' n p (proj1 He _ _ Hp)). cbn. by rewrite lookup_insert_eq. }
  assert (forall n', n' <> n -> samples_of w' n' = samples_of (memory s) n') as Hoth.
  { intros n' Hne. etrans; [exact (samples_set _ p h (Add h sample) n' Hwf Hh)|]. rewrite decide_False; [done|congruence]. }
  assert (forall v, stored (memory s) n v = NumEvents h v) as Hst by (intros v; unfold stored, samples_of, NumEvents; by rewrite Hhist).
  assert (forall v, stored w' n v = NumEvents (Add h sample) v) as Hst' by (intros v; unfold stored, samples_of, NumEvents; by rewrite Hhist').
  assert (zlen (added s) < zlen all) as Hlen.
  { pose proof (Permutation_length Hperm) as Hl. rewrite length_app, length_fmap in Hl.
    assert (1 <= length (threads s ≫= pending (memory s)))%nat as Hpos.
    { rewrite <- (take_drop_middle (threads s) i _ Ht), bind_app, bind_cons, !length_app. unfold pending at 2. cbn. rewrite Hh. cbn. lia. }
    unfold zlen. lia. }
  assert (0 <= NumEvents h (bucket h sample) < 2147483647) as Hcount.
  { rewrite <- Hst. specialize (L2 n (bucket h sample)). specialize (L3 n (bucket h sample)). specialize (L4 n (bucket h sample)).
    pose proof (recorded_bound (memory s) (added s) n (bucket h sample)). lia. }
  assert (forall n' v, counts_as w' n' v e = negb (full h (bucket h sample)) && bool_decide (n = n') && (bucket h sample =? v)) as Hce.
  { intros n' v. cbn. rewrite Hn. destruct (decide (n = n')) as [<-|]; [|by rewrite bool_decide_false, !andb_false_r by done].
    do 2 f_equal. rewrite (extends_bucket _ _ _ _ sample Hwf He Hp). unfold bucket_of. by rewrite Hhist. }
  apply returns_ok. split; [done|]. split; [intros site q Hq; by apply He, Hptr|].
  split; [|split; [|split; [|split; [|split]]]]; cbn [memory pointers report threads added reports].
  - intros j u. rewrite list_lookup_insert_Some. intros [(<- & <- & _)|[Hji Hu]].
    + split; [done|]. split; [done|]. split; [done|]. intros (l & out & Hr). by assert (Adding (Some p) sample = Reporting) as [=] by (apply Hself; by exists l, out).
    + destruct (Hts j u Hu) as (A & B & C). split; [by apply (pc_ok_extends (memory s))|]. by split.
  - unfold report_ok in *. cbn. destruct (report s) as [[[j l] out]|]; [|done]. destruct Hrep as (A & B & C).
    split; [|split; [done|]].
    + destruct (decide (j = i)) as [->|]; [rewrite list_lookup_insert_eq; [by eexists|by eapply lookup_lt_Some]|].
      by rewrite list_lookup_insert_ne.
    + eapply list.Forall_impl; [exact C|]. intros x [Hx ?]. split; [by apply He|done].
  - split; [|split; [|split; [done|]]].
    + apply Forall_app. split; [|repeat constructor; exists p; cbn; rewrite Hn; by apply He].
      eapply list.Forall_impl; [exact L1|]. intros x [q Hq]. exists q. by apply He.
    + intros n' v. destruct (decide (n' = n)) as [->|Hne]; [|unfold stored; rewrite Hoth by done; apply L2].
      rewrite Hst', (Add_samples h sample v Hcount), <- Hst. specialize (L2 n v). destruct (_ && _); lia.
    + intros n' v. rewrite recorded_snoc, Hce, (recorded_extends (memory s) w') by done.
      specialize (L4 n' v). unfold outputs in *. cbn [reports report] in *. rewrite L4. destruct (decide (n' = n)) as [->|Hne].
      * rewrite Hst', (Add_samples h sample v Hcount), <- Hst, bool_decide_true, andb_true_r by done. lia.
      * rewrite bool_decide_false, andb_false_r by done. cbn. unfold stored. rewrite Hoth by done. lia.
  - rewrite fmap_app. cbn. rewrite <- app_assoc, <- Hperm. f_equiv.
    rewrite <- (take_drop_middle (threads s) i _ Ht) at 2. rewrite insert_take_drop by (by eapply lookup_lt_Some).
    rewrite !bind_app, !bind_cons.
    assert (forall ts, (forall t, t ∈ ts -> t ∈ threads s) -> ts ≫= pending w' = ts ≫= pending (memory s)) as Hsame.
    { intros ts Hin. induction ts as [|t ts IH]; [done|]. rewrite !bind_cons. rewrite IH by (intros; apply Hin; by right).
      f_equal. apply pending_extends; [done|done|]. destruct (proj1 (list_elem_of_lookup _ t) (Hin t ltac:(by left))) as [j Hj]. by apply (Hts j t). }
    rewrite !Hsame.
    + unfold pending at 2 4. cbn. rewrite Hh. cbn. by rewrite Permutation_middle.
    + intros t. apply sublist_subseteq, sublist_drop.
    + intros t. apply sublist_subseteq, sublist_take.
  - intros n' h' Hh'. destruct (decide (n' = n)) as [->|Hne].
    + change (hist w' n = Some h') in Hh'. rewrite Hhist' in Hh'. injection Hh' as <-. apply Add_in_range. by apply (Hran n h).
    + apply (Hran n'). rewrite <- Hh'. symmetry. etrans; [exact (hist_set _ p h (Add h sample) n' Hwf Hh)|].
      rewrite decide_False; [done|congruence].
  - apply Forall_app. split; [eapply narrow_extends; [exact Hwf|done|done|done]|]. repeat constructor. unfold e. cbn [fst snd]. rewrite Hn, Hhist'.
    intros h' [= <-] Hnr. rewrite narrow_not_full; [done|by apply (Hran n h)|]. unfold narrow in *. by rewrite Hmin, Hmax in Hnr.
Qed.
Lemma metrics_step_inv all s i : inv all s -> zlen all < 2147483648 -> returns (step s i) (inv all).
Proof.
  intros Hi Hall. unfold step. destruct (threads s !! i) as [[p todo]|] eqn:Ht; [|by apply returns_ok].
  pose proof Hi as (Hwf & Hptr & Hts & _). destruct (Hts _ _ Ht) as (Hpc & _).
  destruct p as [|site sample|site sample q|n f sample|[q|] sample|].
  - destruct todo as [|r todo]; [by apply returns_ok|by apply begin_inv].
  - destruct (locked s); [by apply returns_ok|]. apply (invoke_inv all s i todo _ _ sample (Swapping site sample)); [done|done|..].
    + by exists (Loaded site sample).
    + intros w p Hw Hp. split; [by exists p|done].
  - by apply swap_inv.
  - destruct (locked s); [by apply returns_ok|]. apply (invoke_inv all s i todo _ _ sample (fun p => Adding p sample)); [done|done|..].
    + by exists (Asking n f sample).
    + intros w p Hw Hp. split; [by exists p, n|]. split; [done|]. cbn. destruct (wf_held _ _ _ Hw Hp) as (h & -> & Hn & _). by rewrite Hn.
  - by apply add_inv.
  - by destruct Hpc as (? & ? & ? & _).
  - by apply go_on_inv.
Qed.

Lemma metrics_run_inv all schedule s : inv all s -> zlen all < 2147483648 -> returns (run schedule s) (inv all).
Proof.
  intros Hi Hall. revert s Hi. induction schedule as [|i l IH]; intros s Hi; [by apply returns_ok|]. cbn [run].
  eapply returns_bind; [by apply metrics_step_inv|]. exact IH.
Qed.

(** All that threads are going to count. *)
Definition samples_asked (requests : list (list request)) : list (bytes * Z) := requests ≫= fun l => l ≫= asked.

Definition empty_metrics : metrics := mkMetrics (Some ∅) false ∅ 0.

Lemma Enable_empty : Enable new_metrics = Ok empty_metrics.
Proof. reflexivity. Qed.

Lemma start_inv requests :
  Forall (Forall request_ok) requests -> inv (samples_asked requests) (start empty_metrics requests).
Proof.
  intros Hr. split; [|split; [|split; [|split; [|split; [|split; [|split]]]]]].
  - split; [by eexists|]. split; [|split].
    + intros n p (m & [= <-] & Hp). cbn in Hp. by rewrite lookup_empty in Hp.
    + intros p h Hp. cbn in Hp. by rewrite lookup_empty in Hp.
    + intros p [h Hp]. cbn in Hp. by rewrite lookup_empty in Hp.
  - intros site p Hp. cbn in Hp. by rewrite lookup_empty in Hp.
  - intros i t Ht. cbn in Ht. rewrite list_lookup_fmap in Ht. apply fmap_Some in Ht as (l & Hl & ->).
    split; [done|]. split; [by eapply (Forall_lookup_1 (Forall request_ok))|]. split; [done|]. by intros (? & ? & ?).
  - done.
  - split; [constructor|]. assert (forall n, samples_of empty_metrics n = ∅) as He.
    { intros n. unfold samples_of, hist. cbn. by rewrite lookup_empty. }
    split; [|split; [done|]]; intros n v; unfold stored; cbn; by rewrite He, lookup_empty.
  - cbn. unfold samples_asked. clear Hr. induction requests as [|l ls IH]; [done|]. cbn [fmap list_fmap].
    rewrite !bind_cons. by rewrite IH.
  - intros n h Hh. unfold hist in Hh. cbn in Hh. by rewrite lookup_empty in Hh.
  - constructor.
Qed.

Definition finished (s : state) : Prop := Forall (fun t => t = (Idle, [])) (threads s).

Lemma finished_pending s w : finished s -> threads s ≫= pending w = [].
Proof. unfold finished. intros Hf. induction Hf as [|t ts -> Hts IH]; [done|]. rewrite bind_cons. by rewrite IH. Qed.

(** C29. Any number of threads count samples in histograms, through pointers
    kept by each place or looked up each time, while others take reports, in
    any order of their steps: no histogram is lost or found twice, and no
    sample either.  Each value of each histogram was counted as often as it is
    stored and was reported, and when all are done every sample asked for was
    added once; it was counted unless its histogram already had 300 other
    values, which one with a range of at most 300 never has. *)
Theorem samples_conserved requests schedule :
  Forall (Forall request_ok) requests -> zlen (samples_asked requests) < 2147483648 ->
  exists s, run schedule (start empty_metrics requests) = Ok s /\
    (forall n v, recorded (memory s) (added s) n v = stored (memory s) n v + reported (outputs s) n v) /\
    (finished s -> (added s).*1 ≡ₚ samples_asked requests) /\
    (forall n sample h, (n, sample, false) ∈ added s -> hist (memory s) n = Some h -> ~ narrow h).
Proof.
  intros Hr Hall. destruct (metrics_run_inv _ schedule _ (start_inv requests Hr) Hall) as (s & E & Hi). exists s. split; [exact E|].
  destruct Hi as (_ & _ & _ & _ & (_ & _ & _ & Hled) & Hperm & _ & Hnar). split; [exact Hled|]. split.
  - intros Hf. by rewrite (finished_pending s (memory s) Hf), app_nil_r in Hperm.
  - intros n sample h Hin Hh Hn. rewrite list.Forall_forall in Hnar. by specialize (Hnar _ Hin h Hh Hn).
Qed.
(** Without another thread between its steps, a thread does what the macro
    says. *)
Lemma block_alone s site sample ptr w :
  threads s = [(Idle, [Count site sample])] -> report s = None ->
  RTC_HISTOGRAM_COMMON_BLOCK (memory s) (pointers s !! site) (place site).1 (place site).2 sample = Ok (ptr, w) ->
  exists s', run [0; 0; 0; 0]%nat s = Ok s' /\ memory s' = w /\ pointers s' !! site = ptr /\ finished s'.
Proof.
  destruct s as [m ptrs r ts ad rs]. cbn [threads report memory pointers]. intros -> -> Hb.
  unfold RTC_HISTOGRAM_COMMON_BLOCK in Hb. cbn [run step threads lookup list_lookup begin pointers].
  destruct (ptrs !! site) as [p|] eqn:Ep.
  - cbn in Hb |- *. unfold HistogramAdd, add, deref in *. destruct (heap m !! p) as [h|] eqn:Eh; [|done]. cbn in Hb |- *.
    unfold HistogramAdd, deref. rewrite Eh. cbn. injection Hb as <- <-. eexists. split; [done|]. cbn. by repeat constructor.
  - cbn in Hb |- *. destruct (invoke m (place site).1 (place site).2) as [[[p|] w1]|] eqn:Ei; [|..]; cbn in Hb |- *.
    + rewrite Ep. cbn. unfold HistogramAdd, add, deref in *. rewrite ?bool_decide_true in Hb by auto. rewrite ?bool_decide_true by auto. cbn in Hb |- *.
      destruct (heap w1 !! p) as [h|] eqn:Eh; [|done]. cbn in Hb |- *. unfold HistogramAdd, deref. rewrite Eh. cbn.
      injection Hb as <- <-. eexists. split; [done|]. cbn. rewrite lookup_insert_eq. by repeat constructor.
    + injection Hb as <- <-. eexists. split; [done|]. cbn. by repeat constructor.
    + done.
Qed.
End Threads.

(** *** One histogram *)

Definition total (l : list (Z * Z)) : Z := foldr (fun s t => s.2 + t) 0 l.

#[export] Instance total_perm : Proper (Permutation ==> eq) total.
Proof. intros l k Hp. unfold total. induction Hp; cbn in *; lia. Qed.

Lemma total_cons s l : total (s :: l) = s.2 + total l.
Proof. done. Qed.

Lemma total_insert (m : gmap Z Z) k x :
  total (map_to_list (<[k := x]> m)) = total (map_to_list m) - default 0 (m !! k) + x.
Proof.
  destruct (m !! k) as [y|] eqn:E.
  - rewrite <- (insert_delete_id m k y E) at 2. rewrite <- insert_delete_eq.
    rewrite !map_to_list_insert, !total_cons by apply lookup_delete_eq. cbn. lia.
  - rewrite map_to_list_insert, total_cons by done. cbn. lia.
Qed.

Lemma sum_small l n : (forall s, s ∈ l -> 0 <= s.2) -> 0 <= n -> n + total l < 2147483648 ->
  foldl (fun n (s : Z * Z) => i32 (n + s.2)) n l = n + total l.
Proof.
  revert n. induction l as [|s l IH]; intros n Hl Hn Hb; cbn [foldl]; [cbn; lia|]. rewrite total_cons in *.
  assert (0 <= total l) as Ht.
  { clear IH Hb. induction l as [|r l IHl]; [done|]. rewrite total_cons. pose proof (Hl r ltac:(right; left)).
    specialize (IHl ltac:(intros x Hx; apply Hl; apply list.elem_of_cons in Hx as [->|Hx]; [by left|by right; right])). lia. }
  pose proof (Hl s ltac:(left)). rewrite i32_small by lia. rewrite IH; [lia| |lia|lia]. intros r Hin. apply Hl. by right.
Qed.

Lemma samples_in_order_perm m : samples_in_order m ≡ₚ map_to_list m.
Proof. apply merge_sort_Permutation. Qed.

Lemma NumSamples_total h :
  (forall v, 0 <= NumEvents h v) -> total (map_to_list (samples (info_ h))) < 2147483648 ->
  NumSamples h = total (map_to_list (samples (info_ h))).
Proof.
  intros Hpos Hb. unfold NumSamples. rewrite sum_small; [by rewrite samples_in_order_perm| |lia|by rewrite samples_in_order_perm].
  intros [v x]. rewrite samples_in_order_perm, elem_of_map_to_list. cbn. intros Hv. specialize (Hpos v). unfold NumEvents in Hpos.
  by rewrite Hv in Hpos.
Qed.

#[export] Instance sample_le_trans : Transitive sample_le.
Proof. intros a b c. unfold sample_le. lia. Qed.
#[export] Instance sample_le_total : Total sample_le.
Proof. intros a b. unfold sample_le. lia. Qed.

(** MinSample is the smallest value counted, or -1. *)
Lemma MinSample_least h v x :
  samples (info_ h) !! v = Some x -> is_Some (samples (info_ h) !! MinSample h) /\ MinSample h <= v.
Proof.
  intros Hv. unfold MinSample. pose proof (StronglySorted_merge_sort sample_le (map_to_list (samples (info_ h)))) as Hs.
  fold (samples_in_order (samples (info_ h))) in Hs. pose proof (samples_in_order_perm (samples (info_ h))) as Hp.
  assert ((v, x) ∈ samples_in_order (samples (info_ h))) as Hin by (by rewrite Hp, elem_of_map_to_list).
  destruct (samples_in_order (samples (info_ h))) as [|[v0 x0] l]; [by apply not_elem_of_nil in Hin|]. cbn. split.
  - exists x0. apply elem_of_map_to_list. rewrite <- Hp. by left.
  - apply list.elem_of_cons in Hin as [[= -> ->]|Hin]; [lia|]. inversion Hs as [|? ? _ Hall]; subst.
    rewrite list.Forall_forall in Hall. by specialize (Hall _ Hin).
Qed.

Definition count (h : RtcHistogram) (l : list Z) (v : Z) : Z := zlen (List.filter (fun x => bucket h x =? v) l).

(** A histogram with a range of at most 300 values counts like a table of
    the values to which it clamps its samples: NumEvents, NumSamples and
    MinSample are what they are for the list of all samples. *)
Theorem histogram_counts name min max bucket_count l :
  0 < bucket_count -> zlen l < 2147483648 -> narrow (mkHistogram min max (mkSampleInfo name min max 0 ∅)) ->
  returns (new_histogram name min max bucket_count) (fun h0 =>
    let h := foldl Add h0 l in
    (forall v, NumEvents h v = count h0 l v) /\ NumSamples h = zlen l /\
    (l <> [] -> (exists x, x ∈ l /\ MinSample h = bucket h0 x) /\ forall x, x ∈ l -> MinSample h <= bucket h0 x)).
Proof.
  intros Hc Hl Hn. unfold new_histogram. rewrite (proj2 (Z.ltb_lt _ _) Hc). apply returns_ok. set (h0 := mkHistogram _ _ _).
  cbv zeta. set (h := foldl Add h0 l).
  assert (in_range h /\ min_ h = min_ h0 /\ max_ h = max_ h0 /\ (forall v, NumEvents h v = count h0 l v) /\
    total (map_to_list (samples (info_ h))) = zlen l /\ forall v y, samples (info_ h) !! v = Some y -> 1 <= y)
    as (Hr & Hmin & Hmax & Hcount & Htotal & Hpos).
  { unfold h. clear h. induction l as [|x l IH] using rev_ind.
    - cbn. split; [intros v [x Hx]; cbn in Hx; by rewrite lookup_empty in Hx|]. split; [done|]. split; [done|]. split; [done|].
      split; [by rewrite map_to_list_empty|]. intros v y. cbn. by rewrite lookup_empty.
    - rewrite zlen_app in Hl |- *. cbn in Hl. destruct IH as (Hr & Hmin & Hmax & Hcount & Htotal & Hpos); [pose proof (zlen_nonneg [x]); lia|].
      rewrite foldl_app. cbn [foldl]. set (h := foldl Add h0 l) in *.
      assert (bucket h x = bucket h0 x) as Hb by (unfold bucket; by rewrite Hmin, Hmax).
      assert (narrow h) as Hnh by (unfold narrow; by rewrite Hmin, Hmax).
      assert (0 <= NumEvents h (bucket h x) < 2147483647) as Hbound.
      { rewrite Hcount. unfold count. split; [apply zlen_nonneg|].
        pose proof (List.filter_length_le (fun y => bucket h0 y =? bucket h x) l). unfold zlen in *. cbn in Hl. lia. }
      destruct (Add_bounds h x) as (-> & -> & _). split; [by apply Add_in_range|]. split; [done|]. split; [done|].
      pose proof (narrow_not_full h x Hr Hnh) as Hfull. split; [|split].
      + intros v. rewrite Add_samples, Hfull, Hcount by done. cbn [negb andb]. unfold count.
        rewrite List.filter_app, zlen_app, Hb. cbn. by destruct (bucket h0 x =? v).
      + unfold Add. rewrite Hfull. cbn [samples info_ set_samples with_samples]. rewrite total_insert, i32_small, Htotal; unfold NumEvents in Hbound; [|lia].
        change (zlen [x]) with 1. lia.
      + intros v y. unfold Add. rewrite Hfull. cbn [samples info_ set_samples with_samples]. rewrite lookup_insert_Some.
        intros [[_ <-]|[_ Hv]]; [|by apply (Hpos v)]. unfold NumEvents in Hbound. rewrite i32_small; lia. }
  split; [done|]. split.
  - rewrite NumSamples_total, Htotal; [done|intros v; rewrite Hcount; apply zlen_nonneg|lia].
  - intros Hne. assert (forall x, x ∈ l -> samples (info_ h) !! bucket h0 x <> None) as Hin.
    { intros x Hx Hnone. specialize (Hcount (bucket h0 x)). unfold NumEvents in Hcount. rewrite Hnone in Hcount. cbn in Hcount.
      unfold count in Hcount. destruct (List.filter _ l) as [|y k] eqn:E; [|rewrite zlen_cons in Hcount; pose proof (zlen_nonneg k); lia].
      assert (In x (List.filter (fun y => bucket h0 y =? bucket h0 x) l)) as Hf
        by (apply List.filter_In; split; [by apply list_elem_of_In|apply Z.eqb_refl]). by rewrite E in Hf. }
    destruct l as [|x0 l]; [done|]. set (l' := x0 :: l) in *.
    assert (forall x, x ∈ l' -> is_Some (samples (info_ h) !! MinSample h) /\ MinSample h <= bucket h0 x) as Hleast.
    { intros x Hx. specialize (Hin x Hx). destruct (samples (info_ h) !! bucket h0 x) as [y|] eqn:E; [|done]. by eapply MinSample_least. }
    split; [|intros x Hx; by apply Hleast]. destruct (Hleast x0 ltac:(left)) as [[y Hy] _].
    pose proof (Hpos _ _ Hy) as Hone. specialize (Hcount (MinSample h)). unfold NumEvents, count in Hcount. rewrite Hy in Hcount.
    cbn [default from_option] in Hcount.
    destruct (List.filter (fun x => bucket h0 x =? MinSample h) l') as [|x k] eqn:E.
    { change (y = 0) in Hcount. lia. }
    assert (In x (List.filter (fun x => bucket h0 x =? MinSample h) l')) as [Hx Hb]%List.filter_In by (rewrite E; by left).
    exists x. split; [by apply list_elem_of_In|]. by apply Z.eqb_eq in Hb.
Qed.

(** ** Two threads and a report *)
Definition x_place (site : nat) : bytes * factory := (lit "a", GetCounts 1 10 5).

Definition two_threads : list (list request) :=
  [[Count 0 5; Count 0 20]; [Count 0 5; CountSlow (lit "b") (GetEnumeration 3) 0]; [Report]].

(** Both look the histogram up; the report is taken between their samples. *)
Definition some_order : list nat := [0; 1; 0; 1; 0; 1; 0; 2; 2; 2; 1; 1; 1; 1; 0; 0]%nat.

Lemma samples_conserved_witness :
  exists s, run x_place some_order (start empty_metrics two_threads) = Ok s /\
    (forall n v, recorded (memory s) (added s) n v = stored (memory s) n v + reported (outputs s) n v) /\
    (finished s -> (added s).*1 ≡ₚ samples_asked x_place two_threads) /\
    (forall n sample h, (n, sample, false) ∈ added s -> hist (memory s) n = Some h -> ~ narrow h).
Proof.
  apply (samples_conserved x_place two_threads some_order).
  - by repeat constructor.
  - by vm_compute.
Defined.

(** One sample was reported and two are left, one of them above the range. *)
Example report_between :
  match run x_place some_order (start empty_metrics two_threads) with
  | Ok s =>
      (threads s,
       reported (outputs s) (lit "a") 5, stored (memory s) (lit "a") 5, stored (memory s) (lit "a") 10,
       stored (memory s) (lit "b") 0)
  | Fail _ => ([], 0, 0, 0, 0)
  end = ([(Idle, []); (Idle, []); (Idle, [])], 1, 1, 1, 1).
Proof. by vm_compute. Qed.

Lemma histogram_counts_witness :
  returns (new_histogram (lit "a") 1 10 5) (fun h0 =>
    let h := foldl Add h0 [5; 20; -3; 5] in
    (forall v, NumEvents h v = count h0 [5; 20; -3; 5] v) /\ NumSamples h = zlen [5; 20; -3; 5] /\
    ([5; 20; -3; 5] <> [] -> (exists x, x ∈ [5; 20; -3; 5] /\ MinSample h = bucket h0 x) /\
       forall x, x ∈ [5; 20; -3; 5] -> MinSample h <= bucket h0 x)).
Proof.
  apply (histogram_counts (lit "a") 1 10 5 [5; 20; -3; 5]); [done|done|].
  unfold narrow. by vm_compute.
Defined.

(** The histograms with at most 300 values. *)
Example narrow_macros :
  ((fun f => match ('(p, w) ← invoke empty_metrics (lit "a") f; p ← from_opt NullDeref p; deref w p) with
            | Ok h => Z.max (max_ h) (i32 (min_ h - 1)) - i32 (min_ h - 1) <? 300
            | Fail _ => false
            end) <$> [RTC_HISTOGRAM_COUNTS_100; RTC_HISTOGRAM_COUNTS_200; RTC_HISTOGRAM_COUNTS_500;
                     RTC_HISTOGRAM_PERCENTAGE; RTC_HISTOGRAM_BOOLEAN])
  = [true; true; false; true; true].
Proof. by vm_compute. Qed.

(** *** What the code does in corners *)

(** The bounds of a histogram are those of the first place that asked for it. *)
Example first_bounds_stay :
  match
    '(p, w) ← invoke empty_metrics (lit "a") (GetCounts 1 10 5);
    '(q, w) ← invoke w (lit "a") (GetCounts 1 1000 50);
    p ← from_opt NullDeref p; w ← HistogramAdd w p 500;
    '(n, _) ← metrics_NumEvents w (lit "a") 10; Ok (p, q, n)
  with Ok r => Some r | Fail _ => None end = Some (0%nat, Some 0%nat, 1).
Proof. by vm_compute. Qed.

(** A lower bound of INT_MIN has no underflow bucket: what the code computes
    for it (with wrap-around) is INT_MAX, and takes in every sample. *)
Example lowest_bound :
  bucket (mkHistogram (-2147483648) 10 (mkSampleInfo [] (-2147483648) 10 5 ∅)) 3 = 2147483647.
Proof. by vm_compute. Qed.

(** Enable after the first use fails its assertion, and so does a second one. *)
Example enabled_late :
  (w ← metrics_Reset new_metrics; Enable w) = Fail AssertFailed /\
  (w ← Enable new_metrics; Enable w) = Fail AssertFailed.
Proof. by vm_compute. Qed.
