(* ===== verification/Percentile.v ===== *)
(** * Percentiles and moving medians (rtc_base/numerics/percentile_filter.h,
    moving_median_filter.h)

    The filter keeps its observations in a [std::multiset] and an iterator at
    the percentile, which every insertion and removal moves by the difference
    of two indices.  The set is the list of its nodes here, each with a name
    of its own, and an iterator is the name of a node or the end: what the
    code knows about where its iterator stands is then something to prove.
    The index is computed in [float], whose arithmetic is written out.  The
    template's type is the integers. *)
From Stdlib Require SpecFloat.
From stdpp Require Import sorting.
From S2P Require Import Prelude.

Local Open Scope Z_scope.

(** ** [float]: binary32, round to nearest, ties to even

    [Finite neg m e] is the number [m * 2^e], negated when [neg]. *)
Inductive float :=
  | Finite (neg : bool) (m e : Z)
  | Infinite (neg : bool)
  | NaN.

(** The multiple of [2^s] nearest to [m], divided by [2^s]. *)
Definition round_shift (m s : Z) : Z :=
  let q := m / 2 ^ s in
  let r := m mod 2 ^ s in
  if 2 * r <? 2 ^ s then q
  else if 2 ^ s <? 2 * r then q + 1
  else if Z.even q then q else q + 1.

(** The float nearest to [m * 2^e]: 24 bits, no exponent below -149. *)
Definition round (neg : bool) (m e : Z) : float :=
  let s := Z.max 0 (Z.max (Z.log2 m - 23) (-149 - e)) in
  let q := round_shift m s in
  let '(q, e) := if q =? 2 ^ 24 then (2 ^ 23, e + s + 1) else (q, e + s) in
  if (0 <? q) && (128 <=? Z.log2 q + e) then Infinite neg else Finite neg q e.

Definition float_of_size (n : Z) : float := round false n 0.

Definition is_zero (x : float) : bool :=
  match x with Finite _ m _ => m =? 0 | _ => false end.
Definition sign (x : float) : bool :=
  match x with Finite b _ _ | Infinite b => b | NaN => false end.

Definition fmul (x y : float) : float :=
  let neg := xorb (sign x) (sign y) in
  match x, y with
  | Finite _ m1 e1, Finite _ m2 e2 => round neg (m1 * m2) (e1 + e2)
  | NaN, _ | _, NaN => NaN
  | _, _ => if is_zero x || is_zero y then NaN else Infinite neg
  end.

(** [x <= y]; every comparison with a NaN is false. *)
Definition fle (x y : float) : bool :=
  match x, y with
  | Finite b1 m1 e1, Finite b2 m2 e2 =>
      let e := Z.min e1 e2 in
      let v (b : bool) m e' := (if b then -1 else 1) * (m * 2 ^ (e' - e)) in
      v b1 m1 e1 <=? v b2 m2 e2
  | NaN, _ | _, NaN => false
  | Infinite b, Infinite b' => b || negb b'
  | Infinite b, _ => b
  | _, Infinite b => negb b
  end.

(** [static_cast<int64_t>]: towards zero; undefined out of the type's range. *)
Definition float_to_int64 (x : float) : option Z :=
  match x with
  | Finite b m e =>
      let n := (if b then -1 else 1) * Z.shiftl m e in
      if (- 2 ^ 63 <=? n) && (n <? 2 ^ 63) then Some n else None
  | _ => None
  end.

Definition zero : float := Finite false 0 0.
Definition one : float := Finite false (2 ^ 23) (-23).
Definition half : float := Finite false (2 ^ 23) (-24).

(** A float as rounding leaves it, in 0..1. *)
Definition unit_float (x : float) : Prop :=
  match x with
  | Finite false m e => 0 <= m < 2 ^ 24 /\ -149 <= e <= 104 /\ fle x one = true
  | _ => False
  end.

(** ** [std::multiset<T>] and its iterators *)
Abbreviation node := (nat * Z)%type.
Abbreviation iterator := (option nat).

Definition values (s : list node) : list Z := s.*2.

(** [begin() + k]; past the last node that is [end()]. *)
Definition iter_at (s : list node) (k : nat) : iterator := fst <$> s !! k.

(** Where an iterator stands; none for a node that is not in the set. *)
Fixpoint position (s : list node) (it : iterator) : option nat :=
  match it with
  | None => Some (length s)
  | Some i =>
      match s with
      | [] => None
      | x :: s' => if (x.1 =? i)%nat then Some 0%nat else S <$> position s' it
      end
  end.

Definition deref (s : list node) (it : iterator) : res Z :=
  k ← from_opt Dangling (position s it); x ← from_opt OutOfBounds (s !! k); Ok x.2.

(** [std::advance] *)
Definition advance (s : list node) (it : iterator) (n : Z) : res iterator :=
  k ← from_opt Dangling (position s it);
  let k' := Z.of_nat k + n in
  _ ← require ((0 <=? k') && (k' <=? zlen s)) OutOfBounds;
  Ok (iter_at s (Z.to_nat k')).

(** [insert(value)]: after the elements that are not greater. *)
Fixpoint insert_upper (x : node) (s : list node) : list node :=
  match s with
  | [] => [x]
  | y :: s' => if x.2 <? y.2 then x :: s else y :: insert_upper x s'
  end.

(** [lower_bound(value)]: the first element that is not less. *)
Fixpoint lower_bound (v : Z) (s : list node) : iterator :=
  match s with
  | [] => None
  | y :: s' => if y.2 <? v then lower_bound v s' else Some y.1
  end.

(** [erase(it)]: the set without the element, and the iterator behind it. *)
Definition erase (s : list node) (it : iterator) : res (list node * iterator) :=
  k ← from_opt Dangling (position s it);
  _ ← require (k <? length s)%nat OutOfBounds;
  Ok (delete k s, iter_at s (S k)).

(** ** [PercentileFilter<T>]; [next_] names the nodes *)
Record PercentileFilter := mkPercentileFilter {
  percentile_ : float;
  set_ : list node;
  percentile_it_ : iterator;
  percentile_index_ : Z;
  next_ : nat }.

(** The constructor *)
Definition newPercentileFilter (percentile : float) : res PercentileFilter :=
  _ ← require (fle zero percentile) AssertFailed;
  _ ← require (fle percentile one) AssertFailed;
  Ok (mkPercentileFilter percentile [] (iter_at [] 0) 0 0).

(** [static_cast<int64_t>(percentile_ * (set_.size() - 1))]; [OutOfRange] is
    the conversion that is undefined. *)
Definition target_index (percentile : float) (size : Z) : res Z :=
  from_opt OutOfRange (float_to_int64 (fmul percentile (float_of_size (u64 (size - 1))))).

Definition UpdatePercentileIterator (f : PercentileFilter) : res PercentileFilter :=
  if zlen (set_ f) =? 0 then Ok f
  else
    index ← target_index (percentile_ f) (zlen (set_ f));
    it ← advance (set_ f) (percentile_it_ f) (index - percentile_index_ f);
    Ok (mkPercentileFilter (percentile_ f) (set_ f) it index (next_ f)).

Definition Insert (f : PercentileFilter) (value : Z) : res PercentileFilter :=
  let s := insert_upper (next_ f, value) (set_ f) in
  '(it, index) ←
    (if zlen s =? 1 then Ok (iter_at s 0, 0)
     else
       v ← deref s (percentile_it_ f);
       Ok (percentile_it_ f, if value <? v then percentile_index_ f + 1 else percentile_index_ f));
  UpdatePercentileIterator (mkPercentileFilter (percentile_ f) s it index (S (next_ f))).

Definition Erase (f : PercentileFilter) (value : Z) : res (PercentileFilter * bool) :=
  let it := lower_bound value (set_ f) in
  found ← (if bool_decide (it = None) then Ok false else v ← deref (set_ f) it; Ok (v =? value));
  if negb found then Ok (f, false)
  else
    f' ←
      (if bool_decide (it = percentile_it_ f) then
         '(s, next) ← erase (set_ f) it;
         Ok (mkPercentileFilter (percentile_ f) s next (percentile_index_ f) (next_ f))
       else
         '(s, _) ← erase (set_ f) it;
         v ← deref s (percentile_it_ f);
         Ok (mkPercentileFilter (percentile_ f) s (percentile_it_ f)
               (if value <=? v then percentile_index_ f - 1 else percentile_index_ f) (next_ f)));
    f'' ← UpdatePercentileIterator f'; Ok (f'', true).

Definition GetPercentileValue (f : PercentileFilter) : res Z :=
  if zlen (set_ f) =? 0 then Ok 0 else deref (set_ f) (percentile_it_ f).

Definition Reset (f : PercentileFilter) : PercentileFilter :=
  mkPercentileFilter (percentile_ f) [] (iter_at [] 0) 0 (next_ f).

(** ** [MovingMedianFilter<T>] *)
Record MovingMedianFilter := mkMovingMedianFilter {
  percentile_filter_ : PercentileFilter;
  samples_ : list Z;
  samples_stored_ : Z;
  window_size_ : Z }.

Definition newMovingMedianFilter (window_size : Z) : res MovingMedianFilter :=
  f ← newPercentileFilter half;
  _ ← require (window_size >? 0) AssertFailed;
  Ok (mkMovingMedianFilter f [] 0 window_size).

Definition median_Insert (m : MovingMedianFilter) (value : Z) : res MovingMedianFilter :=
  f ← Insert (percentile_filter_ m) value;
  let samples := samples_ m ++ [value] in
  let stored := u64 (samples_stored_ m + 1) in
  if stored >? window_size_ m then
    front ← from_opt OutOfBounds (head samples);
    '(f, _) ← Erase f front;
    Ok (mkMovingMedianFilter f (tail samples) (u64 (stored - 1)) (window_size_ m))
  else Ok (mkMovingMedianFilter f samples stored (window_size_ m)).

Definition GetFilteredValue (m : MovingMedianFilter) : res Z :=
  GetPercentileValue (percentile_filter_ m).

Definition median_Reset (m : MovingMedianFilter) : MovingMedianFilter :=
  mkMovingMedianFilter (Reset (percentile_filter_ m)) [] 0 (window_size_ m).

Definition GetNumberOfSamplesStored (m : MovingMedianFilter) : Z := samples_stored_ m.

(** ** Rounding *)
Lemma round_shift_0 m : round_shift m 0 = m.
Proof.
  unfold round_shift. rewrite Z.pow_0_r, Z.mod_1_r, Z.div_1_r. done.
Qed.

(** Rounding stays below a multiple that bounds the number. *)
Lemma round_shift_le m s t : 0 <= s -> m <= t * 2 ^ s -> round_shift m s <= t.
Proof.
  intros Hs Hm. pose proof (Z.pow_pos_nonneg 2 s ltac:(lia) Hs) as Hp.
  pose proof (Z.div_mod m (2 ^ s) ltac:(lia)) as Hd. pose proof (Z.mod_pos_bound m (2 ^ s) Hp).
  assert (m / 2 ^ s <= t) as Hq by (apply Z.div_le_upper_bound; lia).
  unfold round_shift. cbv zeta. destruct (Z.eq_dec (m / 2 ^ s) t) as [E|].
  - assert (m mod 2 ^ s = 0) as -> by nia. rewrite (proj2 (Z.ltb_lt (2 * 0) (2 ^ s))) by lia. done.
  - repeat case_match; lia.
Qed.

Lemma round_shift_exact q s : 0 <= s -> round_shift (q * 2 ^ s) s = q.
Proof.
  intros Hs. pose proof (Z.pow_pos_nonneg 2 s ltac:(lia) Hs). unfold round_shift.
  rewrite Z.mod_mul, Z.div_mul by lia. cbv zeta. by rewrite (proj2 (Z.ltb_lt (2 * 0) (2 ^ s))) by lia.
Qed.

Lemma round_shift_nonneg m s : 0 <= s -> 0 <= m -> 0 <= round_shift m s.
Proof.
  intros Hs Hm. pose proof (Z.div_pos m (2 ^ s) Hm ltac:(apply Z.pow_pos_nonneg; lia)).
  unfold round_shift. cbv zeta. repeat case_match; lia.
Qed.

(** Of a number of more than 24 bits as many are dropped as are too many. *)
Definition dropped (m e : Z) : Z := Z.max 0 (Z.max (Z.log2 m - 23) (-149 - e)).

Lemma round_shift_bits m e : 0 <= m -> round_shift m (dropped m e) <= 2 ^ 24.
Proof.
  intros Hm. apply round_shift_le; [unfold dropped; lia|].
  destruct (Z.eq_dec m 0) as [->|]; [apply Z.mul_nonneg_nonneg; [lia|apply Z.pow_nonneg; lia]|].
  destruct (Z.log2_spec m) as [_ Hm']; [lia|]. rewrite <- Z.pow_add_r by (unfold dropped; lia).
  transitivity (2 ^ Z.succ (Z.log2 m)); [lia|]. apply Z.pow_le_mono_r; [|unfold dropped]; lia.
Qed.

(** The float as a pair, before the test for an overflow. *)
Definition carry (q e : Z) : Z * Z := if q =? 2 ^ 24 then (2 ^ 23, e + 1) else (q, e).

Lemma round_unfold neg m e :
  round neg m e =
  (let p := carry (round_shift m (dropped m e)) (e + dropped m e) in
   if (0 <? p.1) && (128 <=? Z.log2 p.1 + p.2) then Infinite neg else Finite neg p.1 p.2).
Proof.
  unfold round, carry. fold (dropped m e). cbv zeta. by case_match.
Qed.

(** [f <= n] for a natural number [n]. *)
Definition float_below (x : float) (n : Z) : Prop :=
  match x with
  | Finite false m e => 0 <= m < 2 ^ 24 /\ -149 <= e /\ m * 2 ^ Z.max 0 e <= n * 2 ^ Z.max 0 (- e)
  | _ => False
  end.

Lemma pow_split a b : 0 <= b <= a -> 2 ^ a = 2 ^ (a - b) * 2 ^ b.
Proof. intros. rewrite <- Z.pow_add_r by lia. f_equal. lia. Qed.

Lemma float_below_index x n :
  0 <= n < 2 ^ 63 -> float_below x n -> exists i, float_to_int64 x = Some i /\ 0 <= i <= n.
Proof.
  intros Hn Hx. destruct x as [[|] m e| |]; cbn [float_below] in Hx; try done.
  destruct Hx as (Hm & He & Hx). exists (Z.shiftl m e).
  assert (0 <= Z.shiftl m e <= n) as Hi.
  { split; [apply Z.shiftl_nonneg; lia|]. destruct (Z.le_gt_cases 0 e).
    - rewrite Z.shiftl_mul_pow2 by lia. by rewrite Z.max_r, Z.max_l, Z.mul_1_r in Hx by lia.
    - rewrite Z.shiftl_div_pow2 by lia. rewrite Z.max_l, Z.max_r, Z.mul_1_r in Hx by lia.
      apply Z.div_le_upper_bound; [apply Z.pow_pos_nonneg|]; lia. }
  split; [|done]. unfold float_to_int64. cbv zeta. rewrite Z.mul_1_l.
  by rewrite (proj2 (Z.leb_le _ _)), (proj2 (Z.ltb_lt _ _)) by lia.
Qed.

Lemma scale_le m e n k :
  0 <= k -> - k <= e -> m * 2 ^ (e + k) <= n * 2 ^ k <-> m * 2 ^ Z.max 0 e <= n * 2 ^ Z.max 0 (- e).
Proof.
  intros Hk He. rewrite (pow_split (e + k) (k - Z.max 0 (- e))), (pow_split k (k - Z.max 0 (- e))) by lia.
  replace (e + k - (k - Z.max 0 (- e))) with (Z.max 0 e) by lia.
  replace (k - (k - Z.max 0 (- e))) with (Z.max 0 (- e)) by lia.
  pose proof (Z.pow_pos_nonneg 2 (k - Z.max 0 (- e)) ltac:(lia) ltac:(lia)).
  rewrite !Z.mul_assoc. split; intros; [by apply Z.mul_le_mono_pos_r in H0 | by apply Z.mul_le_mono_pos_r].
Qed.

(** No float lies between a number and its rounding. *)
Lemma rounding_le M E m e k :
  0 <= k -> - k <= E -> - k <= e -> -149 <= e -> 0 <= M -> 0 <= m < 2 ^ 24 ->
  M * 2 ^ (E + k) <= m * 2 ^ (e + k) ->
  round_shift M (dropped M E) * 2 ^ (E + dropped M E + k) <= m * 2 ^ (e + k).
Proof.
  intros Hk HE He Hn HM Hm Hle. assert (0 <= dropped M E) as Hs by (unfold dropped; lia).
  set (s := dropped M E) in *.
  pose proof (Z.pow_pos_nonneg 2 (E + k) ltac:(lia) ltac:(lia)).
  pose proof (Z.pow_pos_nonneg 2 s ltac:(lia) ltac:(lia)).
  destruct (Z.le_gt_cases (E + s) e) as [Hes|Hes].
  - assert (M <= (m * 2 ^ (e - E - s)) * 2 ^ s) as HMs.
    { rewrite (pow_split (e + k) (E + k)) in Hle by lia.
      replace (e + k - (E + k)) with ((e - E - s) + s) in Hle by lia.
      rewrite (Z.pow_add_r 2 (e - E - s) s), !Z.mul_assoc in Hle by lia.
      by apply Z.mul_le_mono_pos_r in Hle. }
    apply round_shift_le in HMs; [|lia].
    rewrite (pow_split (e + k) (E + s + k)) by lia. replace (e + k - (E + s + k)) with (e - E - s) by lia.
    rewrite Z.mul_assoc. apply Z.mul_le_mono_nonneg_r; [apply Z.pow_nonneg; lia|done].
  - destruct (Z.eq_dec s 0) as [->|]; [by rewrite round_shift_0, Z.add_0_r|].
    exfalso. assert (s = Z.log2 M - 23 /\ 23 < Z.log2 M) as [Es Hl]
      by (unfold s, dropped in *; lia).
    destruct (Z.log2_spec M) as [HM' _]; [destruct (Z.eq_dec M 0) as [->|]; [cbn in Hl|]; lia|].
    assert (2 ^ Z.log2 M * 2 ^ (E + k) < 2 ^ 24 * 2 ^ (e + k)) as Hlt.
    { pose proof (Z.pow_pos_nonneg 2 (e + k) ltac:(lia) ltac:(lia)). nia. }
    rewrite <- !Z.pow_add_r in Hlt by lia. apply Z.pow_lt_mono_r_iff in Hlt; lia.
Qed.

Lemma carry_value q e k :
  0 <= e + k -> (carry q e).1 * 2 ^ ((carry q e).2 + k) = q * 2 ^ (e + k).
Proof.
  intros He. unfold carry. destruct (Z.eqb_spec q (2 ^ 24)) as [->|]; [|done]. cbn [fst snd].
  replace (e + 1 + k) with (1 + (e + k)) by lia. rewrite Z.pow_add_r by lia.
  rewrite Z.mul_assoc. done.
Qed.

(** [float] has every number up to [2^24]. *)
Lemma float_of_size_exact n :
  0 <= n <= 2 ^ 24 ->
  exists m e, float_of_size n = Finite false m e /\ 0 <= m < 2 ^ 24 /\ (e = 0 \/ m = 2 ^ 23 /\ e = 1) /\ m * 2 ^ e = n.
Proof.
  intros Hn. destruct (Z.eq_dec n (2 ^ 24)) as [->|]; [exists (2 ^ 23), 1; split_and!; lia || done|].
  exists n, 0. assert (dropped n 0 = 0) as Hd.
  { unfold dropped. assert (Z.log2 n < 24); [|lia].
    destruct (Z.eq_dec n 0) as [->|]; [done|]. apply Z.log2_lt_pow2; lia. }
  unfold float_of_size. rewrite round_unfold, Hd, round_shift_0. unfold carry.
  rewrite (proj2 (Z.eqb_neq n (2 ^ 24))) by lia. cbv zeta. cbn [fst snd].
  assert (Z.log2 n < 128) by (unfold dropped in Hd; lia).
  rewrite (proj2 (Z.leb_gt 128 _)), andb_false_r by lia. split; [f_equal|]; lia.
Qed.

Lemma unit_le m e k :
  fle (Finite false m e) one = true -> 23 <= k -> - k <= e -> m * 2 ^ (e + k) <= 2 ^ k.
Proof.
  intros H Hk He. unfold fle, one in H. cbv zeta in H. apply Z.leb_le in H. rewrite !Z.mul_1_l in H.
  set (d := Z.min e (-23)) in *. assert (0 <= d + k) by lia.
  rewrite (pow_split (e + k) (d + k)), (pow_split k (k - 23)) by lia.
  replace (e + k - (d + k)) with (e - d) by lia. replace (k - (k - 23)) with 23 by lia.
  rewrite (pow_split (k - 23) (d + k)) by lia. replace (k - 23 - (d + k)) with (-23 - d) by lia.
  rewrite !Z.mul_assoc. apply Z.mul_le_mono_nonneg_r; [apply Z.pow_nonneg; lia|done].
Qed.

(** A float in 0..1 times a number the type has stays below that number. *)
Lemma fmul_below p n :
  unit_float p -> 0 <= n <= 2 ^ 24 -> float_below (fmul p (float_of_size n)) n.
Proof.
  destruct p as [[|] mp ep| |]; cbn [unit_float]; try done. intros (Hmp & Hep & Hp) Hn.
  destruct (float_of_size_exact n Hn) as (m & e & -> & Hm & He & Hv).
  unfold fmul. cbn [sign xorb]. rewrite round_unfold. cbv zeta.
  set (M := mp * m). set (E := ep + e). assert (exists k, k = 400) as [k Hk] by eauto.
  assert (0 <= M) as HM by (unfold M; nia).
  assert (M * 2 ^ (E + k) <= m * 2 ^ (e + k)) as Hle.
  { pose proof (unit_le mp ep k Hp ltac:(lia) ltac:(lia)).
    unfold M, E. replace (ep + e + k) with ((ep + k) + e) by lia.
    replace (e + k) with (k + e) by lia. rewrite (Z.pow_add_r 2 (ep + k) e), (Z.pow_add_r 2 k e) by lia.
    replace (mp * m * (2 ^ (ep + k) * 2 ^ e)) with (mp * 2 ^ (ep + k) * (m * 2 ^ e)) by ring.
    replace (m * (2 ^ k * 2 ^ e)) with (2 ^ k * (m * 2 ^ e)) by ring.
    apply Z.mul_le_mono_nonneg_r; lia. }
  apply rounding_le in Hle; [|lia..]. rewrite <- carry_value in Hle by (unfold dropped; lia).
  pose proof (round_shift_bits M E HM) as Hb.
  pose proof (round_shift_nonneg M (dropped M E) ltac:(unfold dropped; lia) HM) as Hq.
  set (q := round_shift M (dropped M E)) in *. set (e' := E + dropped M E) in *.
  assert (0 <= (carry q e').1 < 2 ^ 24 /\ e' <= (carry q e').2 <= e' + 1 /\ -149 <= e' /\ e' <= 200) as (Hc & He1 & He2 & He3).
  { assert (M < 2 ^ 48) as HM2 by (unfold M; nia).
    assert (dropped M E <= 50 \/ dropped M E = -149 - E).
    { unfold dropped. assert (Z.log2 M < 48); [|lia].
      destruct (Z.eq_dec M 0) as [->|]; [done|]. apply Z.log2_lt_pow2; lia. }
    unfold carry. split_and!; try (case_match; bool_inv; cbn; lia); unfold e', dropped in *; lia. }
  replace (m * 2 ^ (e + k)) with (n * 2 ^ k) in Hle
    by (rewrite <- Hv; rewrite Z.pow_add_r by lia; lia).
  apply scale_le in Hle; [|lia..]. set (q' := (carry q e').1) in *. set (e2 := (carry q e').2) in *.
  destruct ((0 <? q') && (128 <=? Z.log2 q' + e2)) eqn:Eo.
  - exfalso. bool_inv. destruct (Z.log2_spec q') as [Hq' _]; [lia|].
    assert (Z.log2 q' < 24) by (apply Z.log2_lt_pow2; lia).
    rewrite Z.max_r, Z.max_l, Z.mul_1_r in Hle by lia.
    assert (2 ^ (Z.log2 q' + e2) <= 2 ^ 24) as H3.
    { pose proof (Z.log2_nonneg q'). rewrite Z.pow_add_r by lia. transitivity (q' * 2 ^ e2); [|lia].
      apply Z.mul_le_mono_nonneg_r; [apply Z.pow_nonneg|]; lia. }
    apply Z.pow_le_mono_r_iff in H3; lia.
  - cbn [float_below]. split_and!; lia || done.
Qed.

(** The place of the percentile among [size] observations. *)
Definition rank (percentile : float) (size : Z) : Z :=
  match target_index percentile size with Ok i => i | Fail _ => 0 end.

Lemma target_index_rank p n :
  unit_float p -> 1 <= n <= 2 ^ 24 + 1 ->
  target_index p n = Ok (rank p n) /\ 0 <= rank p n <= n - 1.
Proof.
  intros Hp Hn. unfold rank, target_index. rewrite u64_small by lia.
  destruct (float_below_index (fmul p (float_of_size (n - 1))) (n - 1)) as (i & -> & Hi); [lia| |done].
  apply fmul_below; [done|lia].
Qed.

(** The percentile 0.5 is the lower median. *)
Lemma rank_half n : 1 <= n <= 2 ^ 24 + 1 -> rank half n = (n - 1) / 2.
Proof.
  intros Hn. unfold rank, target_index. rewrite u64_small by lia.
  destruct (float_of_size_exact (n - 1)) as (m & e & -> & Hm & He & Hv); [lia|].
  destruct He as [->|[-> ->]]; [|by replace n with (2 ^ 24 + 1) by lia].
  rewrite Z.mul_1_r in Hv. subst m. set (m := n - 1) in *.
  unfold fmul, half. cbn [sign xorb]. rewrite round_unfold. cbv zeta.
  assert (0 <= Z.log2 m < 24) as Hl.
  { split; [apply Z.log2_nonneg|]. destruct (Z.eq_dec m 0) as [->|]; [done|]. apply Z.log2_lt_pow2; lia. }
  assert (dropped (2 ^ 23 * m) (-24 + 0) = Z.log2 m) as ->.
  { unfold dropped. destruct (Z.eq_dec m 0) as [->|]; [done|].
    rewrite Z.mul_comm, Z.log2_mul_pow2 by lia. lia. }
  replace (2 ^ 23 * m) with (m * 2 ^ (23 - Z.log2 m) * 2 ^ Z.log2 m)
    by (rewrite <- Z.mul_assoc, <- Z.pow_add_r by lia; replace (23 - Z.log2 m + Z.log2 m) with 23; lia).
  rewrite round_shift_exact by lia.
  set (q := m * 2 ^ (23 - Z.log2 m)).
  assert (0 <= q < 2 ^ 24) as Hq.
  { unfold q. pose proof (Z.pow_pos_nonneg 2 (23 - Z.log2 m) ltac:(lia) ltac:(lia)). split; [nia|].
    rewrite (pow_split 24 (23 - Z.log2 m)) by lia. apply Z.mul_lt_mono_pos_r; [done|].
    destruct (Z.eq_dec m 0) as [->|]; [done|]. destruct (Z.log2_spec m) as [_ H2]; [lia|].
    replace (24 - (23 - Z.log2 m)) with (Z.succ (Z.log2 m)) by lia. done. }
  unfold carry. rewrite (proj2 (Z.eqb_neq q (2 ^ 24))) by lia. cbn [fst snd].
  rewrite (proj2 (Z.leb_gt 128 _)), andb_false_r.
  2: { destruct (Z.eq_dec q 0) as [->|]; [cbn; lia|].
       assert (Z.log2 q < 24) by (apply Z.log2_lt_pow2; lia). lia. }
  unfold float_to_int64. cbv zeta. rewrite Z.mul_1_l, Z.shiftl_div_pow2 by lia.
  replace (- (-24 + 0 + Z.log2 m)) with (1 + (23 - Z.log2 m)) by lia.
  rewrite Z.pow_add_r by lia. unfold q.
  rewrite Z.div_mul_cancel_r by (try apply Z.pow_nonzero; lia). change (2 ^ 1) with 2.
  assert (0 <= m / 2 <= m) by (split; [apply Z.div_pos|apply Z.div_le_upper_bound]; lia).
  by rewrite (proj2 (Z.leb_le _ _)), (proj2 (Z.ltb_lt _ _)) by lia.
Qed.

(** ** The set and its iterators *)
Lemma iter_at_S x s k : iter_at (x :: s) (S k) = iter_at s k.
Proof. done. Qed.

Lemma iter_at_end s : iter_at s (length s) = None.
Proof. unfold iter_at. by rewrite (proj2 (lookup_ge_None s (length s))). Qed.

Lemma iter_at_Some s k x : s !! k = Some x -> iter_at s k = Some x.1.
Proof. unfold iter_at. by intros ->. Qed.

(** With names of their own, nodes are found where they stand. *)
Lemma position_at s k : NoDup s.*1 -> (k <= length s)%nat -> position s (iter_at s k) = Some k.
Proof.
  revert k. induction s as [|x s IH]; intros k Hn Hk; [by destruct k; [|cbn in Hk; lia]|].
  apply list.NoDup_cons in Hn as [Hx Hn]. destruct k as [|k].
  - cbn. by rewrite Nat.eqb_refl.
  - cbn [length] in Hk. specialize (IH k Hn ltac:(lia)). rewrite iter_at_S.
    destruct (iter_at s k) as [i|] eqn:Ei; cbn in *.
    + destruct (Nat.eqb_spec x.1 i) as [<-|]; [|by rewrite IH]. exfalso. apply Hx.
      unfold iter_at in Ei. destruct (s !! k) as [y|] eqn:E; [|done]. cbn in Ei.
      apply list_elem_of_fmap. exists y. split; [congruence|]. by apply list_elem_of_lookup_2 in E.
    + by destruct s; injection IH as <-.
Qed.

Lemma deref_at s k x : NoDup s.*1 -> s !! k = Some x -> deref s (iter_at s k) = Ok x.2.
Proof.
  intros Hn Hk. unfold deref. pose proof (lookup_lt_Some _ _ _ Hk).
  rewrite position_at by (done || lia). cbn. by rewrite Hk.
Qed.

Lemma advance_at s k n :
  NoDup s.*1 -> (k <= length s)%nat -> 0 <= Z.of_nat k + n <= zlen s ->
  advance s (iter_at s k) n = Ok (iter_at s (Z.to_nat (Z.of_nat k + n))).
Proof.
  intros Hn Hk Hb. unfold advance. rewrite position_at by done. cbn.
  by rewrite (proj2 (Z.leb_le 0 _)), (proj2 (Z.leb_le _ (zlen s))) by lia.
Qed.

Lemma erase_at s k :
  NoDup s.*1 -> (k < length s)%nat -> erase s (iter_at s k) = Ok (delete k s, iter_at (delete k s) k).
Proof.
  intros Hn Hk. unfold erase. rewrite position_at, from_opt_Some, bind_ok by (done || lia).
  rewrite (proj2 (Nat.ltb_lt _ _)) by done. cbn. unfold iter_at.
  by rewrite list_lookup_delete_ge by lia.
Qed.

Abbreviation sorted := (StronglySorted Z.le).

Lemma sorted_cons x s : sorted (values (x :: s)) <-> sorted (values s) /\ Forall (fun y => x.2 <= y.2) s.
Proof.
  unfold values. rewrite fmap_cons. split.
  - intros [? H]%StronglySorted_inv. by rewrite Forall_fmap in H.
  - intros [? ?]. constructor; [done|]. by rewrite Forall_fmap.
Qed.

(** An insertion goes between what is not greater and what is. *)
Lemma insert_upper_split x s :
  sorted (values s) ->
  exists j, (j <= length s)%nat /\ insert_upper x s = take j s ++ x :: drop j s /\
    forall k y, s !! k = Some y -> x.2 < y.2 <-> (j <= k)%nat.
Proof.
  induction s as [|y s IH]; intros Hs; [by exists 0%nat|].
  apply sorted_cons in Hs as [Hs Hy]. cbn [insert_upper]. destruct (Z.ltb_spec x.2 y.2).
  - exists 0%nat. split_and!; [lia|done|]. intros k z Hk. split; [lia|]. intros _.
    destruct k as [|k]; [by injection Hk as <-|].
    pose proof (Forall_lookup_1 _ _ _ _ Hy Hk) as Hz. cbn in Hz. lia.
  - destruct (IH Hs) as (j & Hj & -> & Hk). exists (S j). split_and!; [cbn; lia|done|].
    intros [|k] z Hz; [injection Hz as <-; lia|]. cbn in Hz. rewrite (Hk k z Hz). lia.
Qed.

Lemma lower_bound_at v s :
  sorted (values s) ->
  exists j, (j <= length s)%nat /\ lower_bound v s = iter_at s j /\
    forall k y, s !! k = Some y -> y.2 < v <-> (k < j)%nat.
Proof.
  induction s as [|y s IH]; intros Hs; [by exists 0%nat|].
  apply sorted_cons in Hs as [Hs Hy]. cbn [lower_bound]. destruct (Z.ltb_spec y.2 v).
  - destruct (IH Hs) as (j & Hj & -> & Hk). exists (S j). split_and!; [cbn; lia|done|].
    intros [|k] z Hz; [injection Hz as <-; lia|]. cbn in Hz. rewrite (Hk k z Hz). lia.
  - exists 0%nat. split_and!; [lia|done|]. intros k z Hk. split; [|lia].
    destruct k as [|k]; [injection Hk as <-; lia|].
    pose proof (Forall_lookup_1 _ _ _ _ Hy Hk) as Hz. cbn in Hz. lia.
Qed.

Lemma sorted_lookup s j i y x :
  sorted (values s) -> s !! j = Some y -> s !! i = Some x -> (j <= i)%nat -> y.2 <= x.2.
Proof.
  revert j i. induction s as [|z s IH]; intros j i Hs Hj Hi Hji; [done|].
  apply sorted_cons in Hs as [Hs Hz]. destruct j as [|j], i as [|i]; cbn in Hj, Hi; [|  |lia|].
  - by injection Hj as <-; injection Hi as <-.
  - injection Hj as <-. apply (Forall_lookup_1 _ _ _ _ Hz Hi).
  - eapply IH; [done..|lia].
Qed.

(** A value of the set is the value of its lower bound. *)
Lemma lower_bound_found v s :
  sorted (values s) -> v ∈ values s -> exists j y, lower_bound v s = iter_at s j /\ s !! j = Some y /\ y.2 = v /\
    forall k z, s !! k = Some z -> z.2 < v <-> (k < j)%nat.
Proof.
  intros Hs Hv. destruct (lower_bound_at v s Hs) as (j & _ & El & Hw). exists j.
  apply list_elem_of_fmap in Hv as (x & -> & [i Hi]%list_elem_of_lookup_1).
  assert (j <= i)%nat as Hji by (pose proof (Hw i x Hi); lia).
  destruct (s !! j) as [y|] eqn:Hy; [|apply lookup_ge_None in Hy; apply lookup_lt_Some in Hi; lia].
  exists y. split_and!; [done..| |done]. pose proof (Hw j y Hy).
  pose proof (sorted_lookup s j i y x Hs Hy Hi Hji). lia.
Qed.

Lemma insert_upper_perm x s : insert_upper x s ≡ₚ x :: s.
Proof.
  induction s as [|y s IH]; [done|]. cbn. case_match; [done|]. rewrite IH. apply Permutation_swap.
Qed.

Lemma insert_upper_sorted x s : sorted (values s) -> sorted (values (insert_upper x s)).
Proof.
  induction s as [|y s IH]; intros Hs; [by repeat constructor|].
  pose proof Hs as [Hs' Hy]%sorted_cons. cbn [insert_upper]. destruct (Z.ltb_spec x.2 y.2).
  - apply sorted_cons. split; [done|]. constructor; [lia|]. eapply Forall_impl; [|exact Hy]. cbn. lia.
  - apply sorted_cons. split; [auto|]. rewrite insert_upper_perm. by constructor.
Qed.

Lemma delete_sorted k s : sorted (values s) -> sorted (values (delete k s)).
Proof.
  revert k. induction s as [|y s IH]; intros k Hs; [done|].
  apply sorted_cons in Hs as [Hs Hy]. destruct k as [|k]; [done|]. cbn [delete list_delete].
  apply sorted_cons. split; [by apply IH|]. by apply Forall_delete.
Qed.

(** The place of an element after an insertion at [j] and a removal of [j]. *)
Lemma lookup_inserted (x : node) s j k :
  (j <= length s)%nat -> (k < length s)%nat ->
  s !! k = (take j s ++ x :: drop j s) !! (if (j <=? k)%nat then S k else k).
Proof.
  intros Hj Hk. destruct (Nat.leb_spec j k).
  - rewrite lookup_app_r by (rewrite length_take; lia).
    rewrite length_take, Nat.min_l, Nat.sub_succ_l by lia.
    transitivity (drop j s !! (k - j)%nat); [|done]. rewrite lookup_drop. f_equal. lia.
  - rewrite lookup_app_l by (rewrite length_take; lia). by rewrite lookup_take_lt.
Qed.

Lemma lookup_deleted (s : list node) j k :
  k <> j -> s !! k = delete j s !! (if (j <? k)%nat then k - 1 else k)%nat.
Proof.
  intros Hk. destruct (Nat.ltb_spec j k).
  - rewrite list_lookup_delete_ge by lia. f_equal. lia.
  - by rewrite list_lookup_delete_lt by lia.
Qed.

(** A set of observations: sorted, each node with a name of its own. *)
Record set_ok (nx : nat) (s : list node) (bag : list Z) : Prop := {
  s_nodup : NoDup s.*1;
  s_next : Forall (fun x => x.1 < nx)%nat s;
  s_sorted : sorted (values s);
  s_bag : values s ≡ₚ bag }.

Lemma zlen_perm {A} (l k : list A) : l ≡ₚ k -> zlen l = zlen k.
Proof. unfold zlen. by intros ->. Qed.

Lemma set_ok_size nx s bag : set_ok nx s bag -> zlen s = zlen bag.
Proof. intros H. rewrite <- (zlen_perm _ _ (s_bag _ _ _ H)). unfold zlen, values. by rewrite length_fmap. Qed.

Lemma set_ok_insert nx s bag v :
  set_ok nx s bag -> set_ok (S nx) (insert_upper (nx, v) s) (v :: bag).
Proof.
  intros [Hn Hx Hs Hb]. pose proof (insert_upper_perm (nx, v) s) as Hperm. split.
  - rewrite Hperm. apply list.NoDup_cons. split; [|done]. intros (y & Ey & Hy)%list_elem_of_fmap.
    apply list_elem_of_In in Hy. rewrite List.Forall_forall in Hx. specialize (Hx y Hy). cbn in Ey. lia.
  - rewrite Hperm. constructor; [cbn; lia|]. eapply Forall_impl; [|exact Hx]. cbn. lia.
  - by apply insert_upper_sorted.
  - unfold values. rewrite Hperm. by rewrite <- Hb.
Qed.

Lemma set_ok_delete nx s v bag k x :
  set_ok nx s (v :: bag) -> s !! k = Some x -> x.2 = v -> set_ok nx (delete k s) bag.
Proof.
  intros [Hn Hx Hs Hb] Hk <-. pose proof (delete_Permutation s k x Hk) as Hperm. split.
  - rewrite Hperm in Hn. by apply list.NoDup_cons in Hn as [_ Hn].
  - by apply Forall_delete.
  - by apply delete_sorted.
  - apply (Permutation_cons_inv (a := x.2)). rewrite <- Hb. unfold values. by rewrite Hperm at 2.
Qed.

(** ** What the filter computes: the percentile of a bag of observations *)

(** Where the iterator is kept. *)
Definition cursor (p : float) (size : Z) : Z := if size =? 0 then 0 else rank p size.

Definition percentile_of (p : float) (bag : list Z) : Z :=
  default 0 (merge_sort Z.le bag !! Z.to_nat (cursor p (zlen bag))).

(** How many observations the index, a [float] for a moment, is exact for. *)
Definition max_size : Z := 2 ^ 24 + 1.

Record holds (p : float) (f : PercentileFilter) (bag : list Z) : Prop := {
  h_percentile : percentile_ f = p;
  h_set : set_ok (next_ f) (set_ f) bag;
  h_index : percentile_index_ f = cursor p (zlen bag);
  h_it : percentile_it_ f = iter_at (set_ f) (Z.to_nat (percentile_index_ f)) }.

Lemma cursor_range p n : unit_float p -> 0 <= n <= max_size -> 0 <= cursor p n <= n /\ (0 < n -> cursor p n < n).
Proof.
  intros Hp Hn. unfold cursor. destruct (Z.eqb_spec n 0); [lia|].
  destruct (target_index_rank p n Hp) as [_ ?]; unfold max_size in *; lia.
Qed.

Section filter.
Context (p : float) (unit_p : unit_float p).

(** The update takes the iterator from where it stands to the percentile. *)
Lemma Update_holds s k i nx bag :
  set_ok nx s bag -> zlen s <= max_size -> (k <= length s)%nat -> (s = [] -> k = 0%nat) ->
  i = Z.of_nat k ->
  returns (UpdatePercentileIterator (mkPercentileFilter p s (iter_at s k) i nx))
    (fun f => holds p f bag).
Proof.
  intros Hs Hl Hk He ->. unfold UpdatePercentileIterator. cbn [set_ percentile_ percentile_it_ percentile_index_ next_].
  pose proof (set_ok_size _ _ _ Hs) as El. destruct (Z.eqb_spec (zlen s) 0) as [E|E].
  - apply returns_ok. destruct s; [|rewrite zlen_cons in E; pose proof (zlen_nonneg s); lia].
    rewrite He in * by done. split; try done. cbn [percentile_index_]. by rewrite <- El.
  - pose proof (zlen_nonneg s). destruct (target_index_rank p (zlen s)) as [-> Hr]; [done|unfold max_size in *; lia|].
    rewrite bind_ok, advance_at; [|apply (s_nodup _ _ _ Hs)|done|lia]. rewrite bind_ok. apply returns_ok.
    assert (cursor p (zlen bag) = rank p (zlen s)) as Ec
      by (unfold cursor; rewrite <- El; by rewrite (proj2 (Z.eqb_neq _ _))).
    split; try done. cbn [percentile_it_ set_ percentile_index_]. do 2 f_equal. lia.
Qed.

(** The element the iterator stands at. *)
Lemma holds_at f bag :
  holds p f bag -> 0 < zlen bag <= max_size ->
  (Z.to_nat (percentile_index_ f) < length (set_ f))%nat /\
  percentile_index_ f = Z.of_nat (Z.to_nat (percentile_index_ f)) /\
  exists x, set_ f !! Z.to_nat (percentile_index_ f) = Some x.
Proof.
  intros [_ Hs Hi _] Hl. pose proof (set_ok_size _ _ _ Hs) as El.
  destruct (cursor_range p (zlen bag) unit_p) as [Hc Hc']; [lia|].
  assert (Z.to_nat (percentile_index_ f) < length (set_ f))%nat as Hk by (unfold zlen in *; lia).
  split_and!; [done|lia|]. by apply lookup_lt_is_Some_2.
Qed.

Lemma Insert_holds f bag v :
  holds p f bag -> zlen bag < max_size -> returns (Insert f v) (fun f' => holds p f' (v :: bag)).
Proof.
  intros H Hl. pose proof (zlen_nonneg bag). pose proof H as [Hp Hs _ Hit].
  pose proof (set_ok_insert _ _ _ v Hs) as Hs'. pose proof (set_ok_size _ _ _ Hs') as El'.
  pose proof (set_ok_size _ _ _ Hs) as El. rewrite zlen_cons in El'.
  unfold Insert. rewrite Hp, El'. destruct (Z.eqb_spec (1 + zlen bag) 1) as [E|E].
  - rewrite bind_ok. apply (Update_holds _ 0); [done|lia..|done].
  - destruct (holds_at f bag H) as (Hk & Ei & y & Hy); [lia|]. set (k := Z.to_nat (percentile_index_ f)) in *.
    destruct (insert_upper_split (next_ f, v) (set_ f) (s_sorted _ _ _ Hs)) as (j & Hj & Es & Hw).
    pose proof (lookup_inserted (next_ f, v) (set_ f) j k Hj Hk) as Hin. rewrite <- Es in Hin.
    assert (percentile_it_ f = iter_at (insert_upper (next_ f, v) (set_ f)) (if (j <=? k)%nat then S k else k)) as ->
      by (rewrite Hit; unfold iter_at; by rewrite Hin).
    rewrite (deref_at _ _ y); [|apply (s_nodup _ _ _ Hs')|congruence].
    rewrite !bind_ok. specialize (Hw k y Hy). cbn [snd] in Hw.
    apply Update_holds; [done|lia| |by intros Hnil; rewrite Hnil, zlen_nil in El'; lia|].
    + unfold zlen in *. case_match; lia.
    + destruct (Z.ltb_spec v y.2), (Nat.leb_spec j k); lia.
Qed.

(** Without an element of the value nothing is erased. *)
Lemma Erase_absent f bag v : holds p f bag -> v ∉ bag -> Erase f v = Ok (f, false).
Proof.
  intros [_ Hs _ _] Hv. unfold Erase.
  destruct (lower_bound_at v (set_ f) (s_sorted _ _ _ Hs)) as (j & Hj & -> & Hw).
  destruct (set_ f !! j) as [y|] eqn:Hy.
  - rewrite (bool_decide_eq_false_2 (iter_at (set_ f) j = None)) by (by rewrite (iter_at_Some _ _ _ Hy)).
    rewrite (deref_at _ _ y) by (done || apply (s_nodup _ _ _ Hs)).
    rewrite !bind_ok, (proj2 (Z.eqb_neq y.2 v)); [done|]. intros <-. apply Hv.
    rewrite <- (s_bag _ _ _ Hs). apply list_elem_of_fmap. exists y. split; [done|].
    by apply list_elem_of_lookup_2 in Hy.
  - by rewrite (bool_decide_eq_true_2 (iter_at (set_ f) j = None)) by (unfold iter_at; by rewrite Hy).
Qed.

Lemma Erase_holds f bag v :
  holds p f (v :: bag) -> zlen (v :: bag) <= max_size ->
  returns (Erase f v) (fun r => holds p r.1 bag /\ r.2 = true).
Proof.
  intros H Hl. pose proof H as [Hp Hs _ Hit]. pose proof (zlen_nonneg bag).
  destruct (holds_at f _ H) as (Hk & Ei & x & Hx); [rewrite zlen_cons in *; lia|].
  set (k := Z.to_nat (percentile_index_ f)) in *.
  destruct (lower_bound_found v (set_ f) (s_sorted _ _ _ Hs)) as (j & y & Elb & Hy & Ey & Hw).
  { rewrite (s_bag _ _ _ Hs). left. }
  pose proof (lookup_lt_Some _ _ _ Hy) as Hj. pose proof (s_nodup _ _ _ Hs) as Hn.
  pose proof (set_ok_delete _ _ _ _ _ _ Hs Hy Ey) as Hd.
  assert (length (delete j (set_ f)) = length (set_ f) - 1)%nat as Hlen by (by rewrite length_delete).
  assert (zlen (delete j (set_ f)) <= max_size) as Hl'.
  { rewrite (set_ok_size _ _ _ Hd). rewrite zlen_cons in Hl. lia. }
  unfold Erase. rewrite Elb, (bool_decide_eq_false_2 (iter_at (set_ f) j = None))
    by (by rewrite (iter_at_Some _ _ _ Hy)).
  rewrite (deref_at _ _ y), bind_ok, Ey, Z.eqb_refl, bind_ok by done. cbn [negb].
  rewrite erase_at, Hit, Hp by done.
  eapply returns_bind with (P := fun f' => exists k', f' = mkPercentileFilter p (delete j (set_ f))
    (iter_at (delete j (set_ f)) k') (Z.of_nat k') (next_ f) /\ (k' < length (set_ f))%nat).
  - destruct (decide (k = j)) as [->|Hkj].
    + rewrite bool_decide_eq_true_2 by done. rewrite bind_ok. apply returns_ok. exists j. by rewrite <- Ei.
    + rewrite bool_decide_eq_false_2.
      2: { intros E. apply (f_equal (position (set_ f))) in E. rewrite !position_at in E by (done || lia). congruence. }
      pose proof (lookup_deleted (set_ f) j k Hkj) as Hdk. rewrite Hx in Hdk.
      assert (iter_at (set_ f) k = iter_at (delete j (set_ f)) (if (j <? k)%nat then k - 1 else k)%nat) as ->
        by (unfold iter_at; by rewrite Hx, <- Hdk).
      rewrite bind_ok, (deref_at _ _ x), bind_ok by (done || apply (s_nodup _ _ _ Hd)).
      apply returns_ok. eexists. split; [f_equal|case_match; lia].
      specialize (Hw k x Hx). destruct (Z.leb_spec v x.2), (Nat.ltb_spec j k); lia.
  - intros f' (k' & -> & Hk'). eapply returns_bind.
    + apply (Update_holds _ k'); [done..|lia| |done]. intros E. rewrite E in Hlen. cbn in Hlen. lia.
    + intros f'' Hf. by apply returns_ok.
Qed.

Lemma GetPercentileValue_holds f bag :
  holds p f bag -> zlen bag <= max_size -> GetPercentileValue f = Ok (percentile_of p bag).
Proof.
  intros H Hl. pose proof H as [Hp Hs Hi Hit]. pose proof (set_ok_size _ _ _ Hs) as El.
  unfold GetPercentileValue. rewrite El. pose proof (zlen_nonneg bag). destruct (Z.eqb_spec (zlen bag) 0) as [E|E].
  - destruct bag; [done|rewrite zlen_cons in E; pose proof (zlen_nonneg bag); lia].
  - destruct (holds_at f bag H) as (Hk & Ei & x & Hx); [lia|].
    rewrite Hit, (deref_at _ _ x) by (done || apply (s_nodup _ _ _ Hs)). f_equal.
    unfold percentile_of. rewrite <- Hi.
    assert (merge_sort Z.le bag = values (set_ f)) as ->.
    { apply (StronglySorted_unique Z.le); [apply StronglySorted_merge_sort; apply _|apply (s_sorted _ _ _ Hs)|].
      by rewrite merge_sort_Permutation, (s_bag _ _ _ Hs). }
    unfold values. by rewrite list_lookup_fmap, Hx.
Qed.
End filter.

Lemma holds_perm p f bag bag' : holds p f bag -> bag ≡ₚ bag' -> holds p f bag'.
Proof.
  intros [Hp [Hn Hx Hs Hb] Hi Hit] E. split; [done| |by rewrite <- (zlen_perm _ _ E)|done].
  split; [done..|by rewrite Hb].
Qed.

Lemma new_holds p :
  unit_float p -> returns (newPercentileFilter p) (fun f => holds p f []).
Proof.
  intros Hp. destruct p as [[|] m e| |]; cbn [unit_float] in Hp; try done. destruct Hp as (Hm & He & Hp).
  unfold newPercentileFilter. rewrite Hp.
  assert (fle zero (Finite false m e) = true) as ->.
  { unfold fle, zero. cbv zeta. apply Z.leb_le. pose proof (Z.pow_nonneg 2 (e - Z.min 0 e)). nia. }
  apply returns_ok. split; [done| |done..]. split; constructor.
Qed.

Lemma Reset_holds p f bag : holds p f bag -> holds p (Reset f) [].
Proof. intros [Hp _ _ _]. split; [done| |done..]. split; constructor. Qed.

(** *** Any sequence of calls *)
Inductive call := CInsert (v : Z) | CErase (v : Z) | CReset.

Definition exec (f : PercentileFilter) (c : call) : res (PercentileFilter * bool) :=
  match c with
  | CInsert v => f' ← Insert f v; Ok (f', true)
  | CErase v => Erase f v
  | CReset => Ok (Reset f, true)
  end.

Fixpoint execs (f : PercentileFilter) (cs : list call) : res (PercentileFilter * list bool) :=
  match cs with
  | [] => Ok (f, [])
  | c :: cs => '(f, b) ← exec f c; '(f, bs) ← execs f cs; Ok (f, b :: bs)
  end.

(** A bag without one of its [v]s; none when it has no [v]. *)
Fixpoint list_remove (v : Z) (bag : list Z) : option (list Z) :=
  match bag with
  | [] => None
  | x :: bag => if decide (x = v) then Some bag else cons x <$> list_remove v bag
  end.

Lemma list_remove_perm v bag bag' : list_remove v bag = Some bag' -> bag ≡ₚ v :: bag'.
Proof.
  revert bag'. induction bag as [|x bag IH]; intros bag'; cbn; [done|]. case_decide as E.
  - intros [= <-]. by rewrite E.
  - intros (k & Hk & ->)%fmap_Some. rewrite (IH k Hk). apply Permutation_swap.
Qed.

Lemma list_remove_none v bag : list_remove v bag = None -> v ∉ bag.
Proof.
  induction bag as [|x bag IH]; cbn; [intros _ []%elem_of_nil|]. case_decide as E; [done|].
  intros Hn%fmap_None [->|Hv]%elem_of_cons; [done|by apply IH].
Qed.

(** What the calls mean for the observations, and what they answer. *)
Definition spec (bag : list Z) (c : call) : list Z * bool :=
  match c with
  | CInsert v => (v :: bag, true)
  | CErase v => match list_remove v bag with Some bag' => (bag', true) | None => (bag, false) end
  | CReset => ([], true)
  end.

Fixpoint specs (bag : list Z) (cs : list call) : list Z * list bool :=
  match cs with
  | [] => (bag, [])
  | c :: cs => let r := specs (spec bag c).1 cs in (r.1, (spec bag c).2 :: r.2)
  end.

(** No more observations at a time than the index is exact for. *)
Fixpoint fits (bag : list Z) (cs : list call) : Prop :=
  zlen bag <= max_size /\ match cs with [] => True | c :: cs => fits (spec bag c).1 cs end.

Lemma fits_now bag cs : fits bag cs -> zlen bag <= max_size.
Proof. by destruct cs; intros [? _]. Qed.

Lemma exec_holds p f bag c :
  unit_float p -> holds p f bag -> zlen bag <= max_size -> zlen (spec bag c).1 <= max_size ->
  returns (exec f c) (fun r => holds p r.1 (spec bag c).1 /\ r.2 = (spec bag c).2).
Proof.
  intros Hp H Hl Hl'. destruct c as [v|v|]; cbn [exec spec] in *.
  - cbn [fst] in Hl'. rewrite zlen_cons in Hl'. eapply returns_bind; [by apply (Insert_holds p Hp _ _ v H); lia|].
    intros f' Hf. by apply returns_ok.
  - destruct (list_remove v bag) as [bag'|] eqn:E.
    + apply list_remove_perm in E. apply (holds_perm _ _ _ _ H) in E as H'.
      apply (Erase_holds p Hp); [done|]. by rewrite (zlen_perm _ _ E) in Hl.
    + exists (f, false). split; [|done]. apply (Erase_absent p f bag); [done|].
      by apply list_remove_none.
  - apply returns_ok. split; [|done]. by apply (Reset_holds p f bag).
Qed.


(** 0.8 of up to four observations, some equal. *)
Definition toy_percentile : float := Finite false 13421773 (-24).
Definition toy_calls : list call :=
  [CInsert 5; CInsert 1; CInsert 5; CInsert 9; CErase 5; CErase 7; CErase 5; CReset; CInsert 4; CInsert 2].


(** The arithmetic agrees with the standard library's IEEE 754. *)
Definition as_spec_float (x : float) : SpecFloat.spec_float :=
  match x with
  | Finite b m e => SpecFloat.binary_normalize 24 128 (if b then - m else m) e b
  | Infinite b => SpecFloat.S754_infinity b
  | NaN => SpecFloat.S754_nan
  end.

Example fmul_is_ieee :
  forallb (fun x => forallb (fun y =>
    SpecFloat.SFeqb (as_spec_float (fmul x y)) (SpecFloat.SFmul 24 128 (as_spec_float x) (as_spec_float y)))
    [zero; one; half; toy_percentile; float_of_size 3; float_of_size 16777219; float_of_size 18446744073709551615;
     Finite true 11744051 (-24); Finite false 1 (-149); Finite false 16777215 104; Infinite true])
    [half; toy_percentile; float_of_size 16777221; Finite false 16777215 (-24); Finite true 16777215 104] = true.
Proof. vm_compute. reflexivity. Qed.

(** The factor and the size are rounded: seven of ten at the percentile 0.7,
    though the float nearest to it is below 0.7. *)
Example rank_rounds_up : rank (Finite false 11744051 (-24)) 11 = 7 /\ 11744051 * 10 < 7 * 2 ^ 24.
Proof. split; [vm_compute; reflexivity|lia]. Qed.

(** ** Moving medians *)

(** The lower median. *)
Definition median (l : list Z) : Z := default 0 (merge_sort Z.le l !! ((length l - 1) / 2)%nat).

Lemma percentile_of_half l : zlen l <= max_size -> percentile_of half l = median l.
Proof.
  intros Hl. unfold percentile_of, median. destruct l as [|x l]; [done|]. do 2 f_equal.
  unfold cursor. rewrite zlen_cons in *. pose proof (zlen_nonneg l).
  rewrite (proj2 (Z.eqb_neq _ 0)), rank_half by (unfold max_size in Hl; lia). unfold zlen. cbn [length].
  replace (1 + Z.of_nat (length l) - 1) with (Z.of_nat (length l)) by lia.
  rewrite Nat.sub_succ, Nat.sub_0_r. apply Nat2Z.inj. rewrite Nat2Z.inj_div, Z2Nat.id; [done|]. apply Z.div_pos; lia.
Qed.

(** The last [w] samples. *)
Definition last_of {A} (w : Z) (l : list A) : list A := drop (length l - Z.to_nat w) l.

Lemma last_of_snoc {A} w (l : list A) x :
  0 < w -> last_of w (l ++ [x]) =
    if zlen (last_of w l) + 1 >? w then tail (last_of w l ++ [x]) else last_of w l ++ [x].
Proof.
  intros Hw. unfold last_of, zlen. rewrite length_app, length_drop. cbn [length].
  assert (forall k : list A, tail k = drop 1 k) as Ht by (by intros []).
  rewrite <- drop_app_le, Ht, drop_drop by lia. rewrite Z.gtb_ltb.
  destruct (Z.ltb_spec w (Z.of_nat (length l - (length l - Z.to_nat w)) + 1)); f_equal; lia.
Qed.

Lemma last_of_size {A} w (l : list A) : 0 < w -> zlen (last_of w l) <= w.
Proof. intros. unfold last_of, zlen. rewrite length_drop. lia. Qed.

Inductive median_call := MInsert (v : Z) | MReset.

Definition median_exec (m : MovingMedianFilter) (c : median_call) : res MovingMedianFilter :=
  match c with MInsert v => median_Insert m v | MReset => Ok (median_Reset m) end.

Fixpoint median_execs (m : MovingMedianFilter) (cs : list median_call) : res MovingMedianFilter :=
  match cs with [] => Ok m | c :: cs => m ← median_exec m c; median_execs m cs end.

(** The samples since the last reset. *)
Fixpoint collected (acc : list Z) (cs : list median_call) : list Z :=
  match cs with
  | [] => acc
  | MInsert v :: cs => collected (acc ++ [v]) cs
  | MReset :: cs => collected [] cs
  end.

Record holds_window (w : Z) (m : MovingMedianFilter) (all : list Z) : Prop := {
  w_filter : holds half (percentile_filter_ m) (last_of w all);
  w_samples : samples_ m = last_of w all;
  w_stored : samples_stored_ m = zlen (last_of w all);
  w_size : window_size_ m = w }.

Lemma half_unit : unit_float half.
Proof. repeat split; vm_compute; congruence. Qed.

Lemma median_Insert_holds w m all v :
  1 <= w <= 2 ^ 24 -> holds_window w m all ->
  returns (median_Insert m v) (fun m' => holds_window w m' (all ++ [v])).
Proof.
  intros Hw [Hf Hs Hn Hz]. pose proof (last_of_size w all ltac:(lia)) as Hl.
  pose proof (zlen_nonneg (last_of w all)). unfold median_Insert. rewrite Hs, Hn, Hz, u64_small by lia.
  eapply returns_bind; [apply (Insert_holds half half_unit _ _ v Hf); unfold max_size; lia|].
  intros f Hf'. pose proof (last_of_snoc w all v ltac:(lia)) as El.
  apply (holds_perm _ _ _ (last_of w all ++ [v])) in Hf'; [|by rewrite Permutation_app_comm].
  assert (zlen (last_of w all ++ [v]) = zlen (last_of w all) + 1) as Ez by (by rewrite zlen_app).
  destruct (zlen (last_of w all) + 1 >? w).
  - destruct (last_of w all ++ [v]) as [|front rest] eqn:E; [by destruct (last_of w all)|].
    cbn [head tail] in *. rewrite from_opt_Some, bind_ok.
    eapply returns_bind; [apply (Erase_holds half half_unit _ _ _ Hf'); unfold max_size; lia|].
    intros [f' b] [Hf'' _]. cbn [fst] in *. apply returns_ok. rewrite zlen_cons in Ez.
    split; cbn [percentile_filter_ samples_ samples_stored_ window_size_]; rewrite ?El; try done.
    rewrite u64_small by lia. lia.
  - apply returns_ok. split; cbn [percentile_filter_ samples_ samples_stored_ window_size_]; by rewrite ?El.
Qed.

Lemma median_execs_holds w cs m all :
  1 <= w <= 2 ^ 24 -> holds_window w m all ->
  returns (median_execs m cs) (fun m' => holds_window w m' (collected all cs)).
Proof.
  intros Hw. revert m all. induction cs as [|[v|] cs IH]; intros m all Hm; cbn [median_execs collected median_exec].
  - by apply returns_ok.
  - eapply returns_bind; [by apply median_Insert_holds|]. intros m' Hm'. by apply IH.
  - rewrite bind_ok. apply IH. destruct Hm as [Hf _ _ Hz]. split; [by apply (Reset_holds _ _ _ Hf)|done..].
Qed.

(** A moving median filter with a window of up to 2^24 samples gives,
    after any sequence of samples and resets, the lower median of the last
    samples since the last reset, as many as the window holds (0 of none),
    and counts them. *)
Theorem moving_median w cs :
  1 <= w <= 2 ^ 24 ->
  returns (newMovingMedianFilter w) (fun m0 =>
    returns (median_execs m0 cs) (fun m =>
      let window := last_of w (collected [] cs) in
      GetFilteredValue m = Ok (median window) /\ GetNumberOfSamplesStored m = zlen window)).
Proof.
  intros Hw. unfold newMovingMedianFilter. eapply returns_bind; [by apply new_holds, half_unit|].
  intros f Hf. apply returns_require; [rewrite Z.gtb_ltb; apply Z.ltb_lt; lia|]. apply returns_ok.
  assert (holds_window w (mkMovingMedianFilter f [] 0 w) []) as Hm by (by split).
  eapply returns_weaken; [by apply (median_execs_holds w cs _ _ Hw Hm)|]. intros m [Hf' _ Hn _].
  pose proof (last_of_size w (collected [] cs) ltac:(lia)). cbv zeta. split; [|done]. unfold GetFilteredValue.
  rewrite (GetPercentileValue_holds half half_unit _ _ Hf'), percentile_of_half; unfold max_size; done || lia.
Qed.

(** A window of four; equal samples leave one at a time. *)
Definition toy_samples : list median_call :=
  [MInsert 9; MReset; MInsert 3; MInsert 8; MInsert 3; MInsert 1; MInsert 7; MInsert 3].

Example moving_median_witness :
  1 <= 4 <= 2 ^ 24 /\
  returns (newMovingMedianFilter 4) (fun m0 =>
    returns (median_execs m0 toy_samples) (fun m =>
      GetFilteredValue m = Ok 3 /\ GetNumberOfSamplesStored m = 4)).
Proof. split; [lia|]. exact (moving_median 4 toy_samples ltac:(lia)). Defined.

(** A filter without a window, or with a percentile out of 0..1, is refused. *)
Example construction_refused :
  newMovingMedianFilter 0 = Fail AssertFailed /\ newPercentileFilter NaN = Fail AssertFailed /\
  newPercentileFilter (Finite true 1 (-149)) = Fail AssertFailed /\
  newPercentileFilter (Finite false 8388609 (-23)) = Fail AssertFailed.
Proof. repeat split; vm_compute; reflexivity. Qed.

(** With more observations the size is no longer a [float]: the maximum of
    2^24 + 4 observations is looked for past the last. *)
Lemma maximum_past_end f s nx bag k :
  set_ok nx s bag -> zlen bag = 2 ^ 24 + 4 -> (k <= length s)%nat ->
  f = mkPercentileFilter one s (iter_at s k) (Z.of_nat k) nx ->
  returns (UpdatePercentileIterator f) (fun f' => GetPercentileValue f' = Fail OutOfBounds).
Proof.
  intros Hs Hl Hk ->. pose proof (set_ok_size _ _ _ Hs) as El. rewrite Hl in El.
  pose proof (s_nodup _ _ _ Hs) as Hn. unfold UpdatePercentileIterator.
  cbn [set_ percentile_ percentile_it_ percentile_index_ next_]. rewrite El.
  assert (target_index one (2 ^ 24 + 4) = Ok (2 ^ 24 + 4)) as -> by (vm_compute; reflexivity).
  change (2 ^ 24 + 4 =? 0) with false. rewrite bind_ok, advance_at; [|done..|lia].
  rewrite bind_ok. apply returns_ok. unfold GetPercentileValue. cbn [set_ percentile_it_]. rewrite El.
  change (2 ^ 24 + 4 =? 0) with false. cbv iota. unfold deref.
  replace (Z.to_nat (Z.of_nat k + (2 ^ 24 + 4 - Z.of_nat k))) with (length s) by (unfold zlen in El; lia).
  rewrite position_at, from_opt_Some, bind_ok by done.
  by rewrite (proj2 (lookup_ge_None s (length s))).
Qed.
