(* ===== verification/Event.v ===== *)
(** * Events between threads (rtc_base/event.h, event.cc, the POSIX branch)

    An event is a flag under a mutex with a condition variable.  Threads run
    the statements of [Set], [Reset] and [Wait] one at a time in any order; a
    blocked thread is woken by a broadcast, by nothing at all, or by its
    deadline, and takes the mutex again before it goes on.  What the calls
    promise together is the sequential event [spec_step]. *)
From stdpp Require Import functions.
From S2P Require Import Prelude.

Local Open Scope Z_scope.

(** ** Deadlines *)
Record timespec := mkTimespec { tv_sec : Z; tv_nsec : Z }.

Definition kForever : Z := -1.

(** [clock_gettime(CLOCK_MONOTONIC)], [now] in nanoseconds. *)
Definition clock_gettime (now : Z) : timespec := mkTimespec (now / 1000000000) (now mod 1000000000).

Definition GetTimespec (now : Z) (milliseconds_from_now : Z) : timespec :=
  let ts := clock_gettime now in
  let sec := tv_sec ts + Z.quot milliseconds_from_now 1000 in
  let nsec := tv_nsec ts + Z.rem milliseconds_from_now 1000 * 1000000 in
  if 1000000000 <=? nsec then mkTimespec (sec + 1) (nsec - 1000000000) else mkTimespec sec nsec.

Definition nanoseconds (ts : timespec) : Z := tv_sec ts * 1000000000 + tv_nsec ts.

(** What [pthread_cond_timedwait] takes for a time. *)
Definition valid_timespec (ts : timespec) : bool := (0 <=? tv_nsec ts) && (tv_nsec ts <? 1000000000).

(** [warn_ts] and [give_up_ts] of [Wait]. *)
Definition warn_ts (now give_up_after_ms warn_after_ms : Z) : option timespec :=
  if (warn_after_ms =? kForever) ||
     (negb (give_up_after_ms =? kForever) && (warn_after_ms >? give_up_after_ms))
  then None else Some (GetTimespec now warn_after_ms).

Definition give_up_ts (now give_up_after_ms : Z) : option timespec :=
  if give_up_after_ms =? kForever then None else Some (GetTimespec now give_up_after_ms).

(** [Wait(int give_up_after_ms)]: the warning it asks for. *)
Definition default_warn (give_up_after_ms : Z) : Z :=
  if give_up_after_ms =? kForever then 3000 else kForever.

(** ** Threads *)

(** What [pthread_cond_wait] and [pthread_cond_timedwait] return. *)
Inductive cond_result := SUCCESS | ETIMEDOUT | EINVAL.

#[export] Instance cond_result_eq_dec : EqDecision cond_result.
Proof. solve_decision. Defined.

(** The two uses of the lambda [wait] in [Wait]. *)
Inductive phase := ForWarning | ForGiveUp.

#[export] Instance phase_eq_dec : EqDecision phase.
Proof. solve_decision. Defined.

(** The deadlines of a call; [w_from], for the theorems, is when the clock was
    read for the second. *)
Record waiting := mkWaiting {
  w_warn : option timespec;
  w_give_up : option timespec;
  w_give_up_after_ms : Z;
  w_from : Z }.

(** The statement a thread comes to next. *)
Inductive pc :=
  | Idle
  | Set_lock | Set_status | Set_broadcast | Set_unlock
  | Reset_lock | Reset_status | Reset_unlock
  | Wait_warn_ts (give_up_after_ms warn_after_ms : Z)
  | Wait_give_up_ts (give_up_after_ms : Z) (warn : option timespec)
  | Wait_lock (w : waiting)
  | Wait_loop (w : waiting) (p : phase) (error : cond_result)  (* the head of the while loop *)
  | Wait_cond (w : waiting) (p : phase)                        (* blocked, without the mutex *)
  | Wait_relock (w : waiting) (p : phase) (error : cond_result)
  | Wait_reset (w : waiting) (error : cond_result)
  | Wait_unlock (result : bool).

(** What is seen from outside, in the order of the statements that do it. *)
Inductive event := ESet (t : nat) | EReset (t : nat) | EWarn (t : nat) | EWait (t : nat) (result : bool).

Record Event := mkEvent {
  is_manual_reset_ : bool;
  event_status_ : bool;
  event_mutex_ : option nat;       (* the thread that has it *)
  pcs : nat -> pc;
  now : Z;
  log : list event;
  returned : list (nat * bool) }.  (* what calls of [Wait] returned *)

(** [Event(bool manual_reset, bool initially_signaled)] *)
Definition newEvent (manual_reset initially_signaled : bool) (now : Z) : Event :=
  mkEvent manual_reset initially_signaled None (fun _ => Idle) now [] [].

Definition goto (t : nat) (p : pc) (e : Event) : Event :=
  mkEvent (is_manual_reset_ e) (event_status_ e) (event_mutex_ e) (<[t := p]> (pcs e)) (now e) (log e) (returned e).
Definition set_mutex (o : option nat) (e : Event) : Event :=
  mkEvent (is_manual_reset_ e) (event_status_ e) o (pcs e) (now e) (log e) (returned e).
Definition set_status (b : bool) (e : Event) : Event :=
  mkEvent (is_manual_reset_ e) b (event_mutex_ e) (pcs e) (now e) (log e) (returned e).
Definition note (x : event) (e : Event) : Event :=
  mkEvent (is_manual_reset_ e) (event_status_ e) (event_mutex_ e) (pcs e) (now e) (log e ++ [x]) (returned e).
Definition set_now (n : Z) (e : Event) : Event :=
  mkEvent (is_manual_reset_ e) (event_status_ e) (event_mutex_ e) (pcs e) n (log e) (returned e).
Definition return_ (t : nat) (b : bool) (e : Event) : Event :=
  mkEvent (is_manual_reset_ e) (event_status_ e) (event_mutex_ e) (pcs e) (now e) (log e) (returned e ++ [(t, b)]).

(** [pthread_mutex_lock]: no step while another thread has it. *)
Definition lock (t : nat) (e : Event) : option Event :=
  match event_mutex_ e with None => Some (set_mutex (Some t) e) | Some _ => None end.
Definition unlock (e : Event) : Event := set_mutex None e.

(** [pthread_cond_broadcast] *)
Definition wake (p : pc) : pc :=
  match p with Wait_cond w ph => Wait_relock w ph SUCCESS | _ => p end.
Definition broadcast (e : Event) : Event :=
  mkEvent (is_manual_reset_ e) (event_status_ e) (event_mutex_ e) (fun t => wake (pcs e t)) (now e) (log e) (returned e).

(** The deadline of a wait in its phase. *)
Definition timeout_ts (w : waiting) (p : phase) : option timespec :=
  match p with ForWarning => w_warn w | ForGiveUp => w_give_up w end.

(** The body of the loop: the wait gives the mutex up, unless its deadline is
    no time at all. *)
Definition cond_wait (t : nat) (w : waiting) (p : phase) (e : Event) : Event :=
  match timeout_ts w p with
  | Some ts => if valid_timespec ts then goto t (Wait_cond w p) (unlock e) else goto t (Wait_loop w p EINVAL) e
  | None => goto t (Wait_cond w p) (unlock e)
  end.

(** Behind the loop. *)
Definition wait_returned (t : nat) (w : waiting) (p : phase) (error : cond_result) (e : Event) : Event :=
  match p with
  | ForWarning =>
      if bool_decide (error = ETIMEDOUT) then goto t (Wait_loop w ForGiveUp SUCCESS) (note (EWarn t) e)
      else goto t (Wait_reset w error) e
  | ForGiveUp => goto t (Wait_reset w error) e
  end.

(** One statement of thread [t]; [None] when it is blocked or has no call. *)
Definition run (t : nat) (e : Event) : option Event :=
  match pcs e t with
  | Idle => None
  | Set_lock => goto t Set_status <$> lock t e
  | Set_status => Some (goto t Set_broadcast (note (ESet t) (set_status true e)))
  | Set_broadcast => Some (goto t Set_unlock (broadcast e))
  | Set_unlock => Some (goto t Idle (unlock e))
  | Reset_lock => goto t Reset_status <$> lock t e
  | Reset_status => Some (goto t Reset_unlock (note (EReset t) (set_status false e)))
  | Reset_unlock => Some (goto t Idle (unlock e))
  | Wait_warn_ts give_up_after_ms warn_after_ms =>
      Some (goto t (Wait_give_up_ts give_up_after_ms (warn_ts (now e) give_up_after_ms warn_after_ms)) e)
  | Wait_give_up_ts give_up_after_ms warn =>
      Some (goto t (Wait_lock (mkWaiting warn (give_up_ts (now e) give_up_after_ms) give_up_after_ms (now e))) e)
  | Wait_lock w =>
      goto t (Wait_loop w (match w_warn w with None => ForGiveUp | Some _ => ForWarning end) SUCCESS) <$> lock t e
  | Wait_loop w p error =>
      if negb (event_status_ e) && bool_decide (error = SUCCESS) then Some (cond_wait t w p e)
      else Some (wait_returned t w p error e)
  | Wait_cond _ _ => None
  | Wait_relock w p error => goto t (Wait_loop w p error) <$> lock t e
  | Wait_reset w error =>
      let ok := bool_decide (error = SUCCESS) in
      let status := if ok && negb (is_manual_reset_ e) then false else event_status_ e in
      Some (goto t (Wait_unlock ok) (note (EWait t ok) (set_status status e)))
  | Wait_unlock result => Some (goto t Idle (return_ t result (unlock e)))
  end.

(** What can happen next. *)
Inductive action :=
  | CallSet (t : nat) | CallReset (t : nat) | CallWait (t : nat) (give_up_after_ms warn_after_ms : Z)
  | Run (t : nat)
  | Spurious (t : nat)    (* [pthread_cond_wait] returns for no reason *)
  | TimeOut (t : nat)     (* [pthread_cond_timedwait] at its deadline *)
  | Tick (nanoseconds : Z).

Definition call (t : nat) (p : pc) (e : Event) : option Event :=
  match pcs e t with Idle => Some (goto t p e) | _ => None end.

Definition step (e : Event) (a : action) : option Event :=
  match a with
  | CallSet t => call t Set_lock e
  | CallReset t => call t Reset_lock e
  | CallWait t give_up_after_ms warn_after_ms => call t (Wait_warn_ts give_up_after_ms warn_after_ms) e
  | Run t => run t e
  | Spurious t =>
      match pcs e t with Wait_cond w p => Some (goto t (Wait_relock w p SUCCESS) e) | _ => None end
  | TimeOut t =>
      match pcs e t with
      | Wait_cond w p =>
          match timeout_ts w p with
          | Some ts => if nanoseconds ts <=? now e then Some (goto t (Wait_relock w p ETIMEDOUT) e) else None
          | None => None
          end
      | _ => None
      end
  | Tick d => if 0 <=? d then Some (set_now (now e + d) e) else None
  end.

Fixpoint steps (e : Event) (l : list action) : option Event :=
  match l with [] => Some e | a :: l => e ← step e a; steps e l end.

(** ** The event as a sequence of calls sees it *)
Definition spec_step (manual : bool) (status : bool) (x : event) : option bool :=
  match x with
  | ESet _ => Some true
  | EReset _ => Some false
  | EWarn _ | EWait _ false => Some status
  | EWait _ true => if status then Some manual else None
  end.

Definition spec_run (manual : bool) (l : list event) (b : option bool) : option bool :=
  fold_left (fun s x => s ← s; spec_step manual s x) l b.

(** ** The invariant *)
Definition has_mutex (p : pc) : bool :=
  match p with
  | Set_status | Set_broadcast | Set_unlock | Reset_status | Reset_unlock
  | Wait_loop _ _ _ | Wait_reset _ _ | Wait_unlock _ => true
  | _ => false
  end.

Definition results (t : nat) (l : list event) : list bool :=
  omap (fun x => match x with EWait u b => if decide (u = t) then Some b else None | _ => None end) l.
Definition returns_of (t : nat) (l : list (nat * bool)) : list bool :=
  omap (fun x => if decide (x.1 = t) then Some x.2 else None) l.

(** A result on its way out. *)
Definition pending (p : pc) : list bool := match p with Wait_unlock b => [b] | _ => [] end.

Record event_ok (init : bool) (e : Event) : Prop := {
  ok_mutex : forall t, has_mutex (pcs e t) = true <-> event_mutex_ e = Some t;
  ok_log : spec_run (is_manual_reset_ e) (log e) (Some init) = Some (event_status_ e);
  ok_reset : forall t w, pcs e t = Wait_reset w SUCCESS -> event_status_ e = true;
  ok_asleep : forall t w p, pcs e t = Wait_cond w p -> event_status_ e = true ->
    exists u, pcs e u = Set_broadcast;
  ok_returned : forall t, results t (log e) = returns_of t (returned e) ++ pending (pcs e t) }.

Lemma spec_run_snoc m l x b : spec_run m (l ++ [x]) b = (s ← spec_run m l b; spec_step m s x).
Proof. unfold spec_run. by rewrite fold_left_app. Qed.

Lemma results_snoc t l x : results t (l ++ [x]) = results t l ++ results t [x].
Proof. apply omap_app. Qed.
Lemma returns_of_snoc t l x : returns_of t (l ++ [x]) = returns_of t l ++ returns_of t [x].
Proof. apply omap_app. Qed.

Lemma new_ok m b n : event_ok b (newEvent m b n).
Proof. split; done. Qed.

(** [at_pc u]: whether [u] is the thread that moved. *)
Ltac at_pc u t :=
  destruct (decide (u = t)) as [->|];
  rewrite ?fn_lookup_insert, ?fn_lookup_insert_ne in * by done.

(** A statement that only moves a thread from one place without the mutex to
    another keeps the invariant. *)
Lemma goto_ok b e t p :
  event_ok b e -> has_mutex p = has_mutex (pcs e t) -> pending p = pending (pcs e t) ->
  (forall w, p <> Wait_reset w SUCCESS) -> (forall w ph, p <> Wait_cond w ph) -> pcs e t <> Set_broadcast ->
  event_ok b (goto t p e).
Proof.
  intros [Hm Hl Hr Ha Hret] Hp Hpe H1 H2 H3. split; cbn [event_mutex_ pcs log is_manual_reset_ event_status_ returned goto].
  - intros u. rewrite <- Hm. at_pc u t; [by rewrite Hp|done].
  - done.
  - intros u w. at_pc u t; [intros ->; by destruct (H1 w)|apply Hr].
  - intros u w ph. at_pc u t; [intros ->; by destruct (H2 w ph)|]. intros Hu Hs.
    destruct (Ha u w ph Hu Hs) as [v Hv]. exists v. at_pc v t; congruence.
  - intros u. rewrite Hret. at_pc u t; [by rewrite Hpe|done].
Qed.

(** So does taking the mutex. *)
Lemma lock_ok b e e' t p :
  event_ok b e -> goto t p <$> lock t e = Some e' -> has_mutex (pcs e t) = false -> has_mutex p = true ->
  pending (pcs e t) = [] -> pending p = [] -> (forall w, p <> Wait_reset w SUCCESS) -> event_ok b e'.
Proof.
  intros [Hm Hl Hr Ha Hret] (e1 & Hlock & ->)%fmap_Some Ht Hp Hpt Hpp H1. unfold lock in Hlock.
  destruct (event_mutex_ e) eqn:Em; [done|]. injection Hlock as <-.
  assert (forall u, has_mutex (pcs e u) = false) as Hno by (intros u; apply not_true_is_false; by rewrite Hm).
  split; cbn [event_mutex_ pcs log is_manual_reset_ event_status_ returned goto set_mutex].
  - intros u. at_pc u t; [by rewrite Hp|]. rewrite Hno. split; congruence.
  - done.
  - intros u w. at_pc u t; [intros ->; by destruct (H1 w)|apply Hr].
  - intros u w ph. at_pc u t; [by intros ->|]. intros Hu Hs. destruct (Ha u w ph Hu Hs) as [v Hv].
    specialize (Hno v). by rewrite Hv in Hno.
  - intros u. rewrite Hret. at_pc u t; [by rewrite Hpt, Hpp|done].
Qed.

(** A statement of the thread that has the mutex. *)
Lemma holder_ok b e e' t p xs rs :
  event_ok b e -> has_mutex (pcs e t) = true -> pcs e t <> Set_broadcast ->
  is_manual_reset_ e' = is_manual_reset_ e -> pcs e' = <[t := p]> (pcs e) ->
  log e' = log e ++ xs -> returned e' = returned e ++ rs ->
  event_mutex_ e' = (if has_mutex p then Some t else None) ->
  spec_run (is_manual_reset_ e) xs (Some (event_status_ e)) = Some (event_status_ e') ->
  (forall w, p = Wait_reset w SUCCESS -> event_status_ e' = true) ->
  (forall w ph, p = Wait_cond w ph -> event_status_ e' = false) ->
  (event_status_ e' = true -> p = Set_broadcast \/ event_status_ e = true) ->
  pending (pcs e t) ++ results t xs = returns_of t rs ++ pending p ->
  (forall u, u <> t -> results u xs = [] /\ returns_of u rs = []) ->
  event_ok b e'.
Proof.
  intros [Hm Hl Hr Ha Hret] Ht Hnb Eman Epcs Elog Eret Em Hs1 H1 H2 H3 Hrt Hru.
  assert (forall u, u <> t -> has_mutex (pcs e u) = false) as Hno.
  { intros u Hu. apply not_true_is_false. rewrite Hm. rewrite (proj1 (Hm t) Ht). congruence. }
  split.
  - intros u. rewrite Epcs, Em. at_pc u t; [by destruct (has_mutex p)|].
    rewrite (Hno u) by done. destruct (has_mutex p); split; congruence.
  - rewrite Eman, Elog. unfold spec_run in *. by rewrite fold_left_app, Hl.
  - intros u w. rewrite Epcs. at_pc u t; [apply H1|]. intros E. pose proof (Hno u ltac:(done)) as Hf. by rewrite E in Hf.
  - intros u w ph. rewrite Epcs. at_pc u t; [intros E; by rewrite (H2 w ph E)|]. intros Hu [->|Hs]%H3.
    + exists t. by rewrite fn_lookup_insert.
    + destruct (Ha u w ph Hu Hs) as [v Hv]. destruct (decide (v = t)) as [->|Hvt]; [done|].
      specialize (Hno v Hvt). by rewrite Hv in Hno.
  - intros u. rewrite Epcs, Elog, Eret. unfold results, returns_of in *. rewrite !omap_app. fold (results u (log e)).
    unfold results. rewrite (Hret u). unfold returns_of. at_pc u t.
    + by rewrite <- !app_assoc, Hrt.
    + destruct (Hru u) as [-> ->]; [done|]. by rewrite !app_nil_r.
Qed.

Lemma broadcast_ok b e t :
  event_ok b e -> pcs e t = Set_broadcast -> event_ok b (goto t Set_unlock (broadcast e)).
Proof.
  intros [Hm Hl Hr Ha Hret] Ht. split; cbn [event_mutex_ pcs log is_manual_reset_ event_status_ returned goto broadcast].
  - intros u. at_pc u t; [rewrite <- Hm; by rewrite Ht|]. rewrite <- Hm. by destruct (pcs e u).
  - done.
  - intros u w. at_pc u t; [done|]. intros E. apply (Hr u w). by destruct (pcs e u).
  - intros u w ph. at_pc u t; [done|]. by destruct (pcs e u).
  - intros u. rewrite Hret. at_pc u t; [by rewrite Ht|]. by destruct (pcs e u).
Qed.

(** [holder p xs rs]: the statement goes on at [p], notes [xs], returns [rs]. *)
Ltac holder p xs rs :=
  match goal with Ep : pcs ?e ?t = _ |- _ =>
    eapply (holder_ok _ e _ t p xs rs); rewrite ?Ep;
    cbn [is_manual_reset_ pcs log returned event_mutex_ event_status_ goto note set_status unlock set_mutex return_];
    rewrite ?app_nil_r; try done; try (intros; (by left) || (by right));
    try (cbn [has_mutex]; eapply ok_mutex; [eassumption|by rewrite Ep])
  end.

(** The statement of another thread notes nothing of [u]. *)
Lemma results_other u t x : u <> t -> results u [EWait t x] = [].
Proof. intros Hu. cbn. by rewrite decide_False by congruence. Qed.
Lemma results_own t x : results t [EWait t x] = [x].
Proof. cbn. by rewrite decide_True. Qed.
Lemma returns_of_other u t x : u <> t -> returns_of u [(t, x)] = [].
Proof. intros Hu. cbn. by rewrite decide_False by congruence. Qed.
Lemma returns_of_own t x : returns_of t [(t, x)] = [x].
Proof. cbn. by rewrite decide_True. Qed.

Lemma run_statement_ok b e e' t : event_ok b e -> run t e = Some e' -> event_ok b e'.
Proof.
  intros He Hr. unfold run in Hr.
  destruct (pcs e t) as [| | | | | | | |g w|g w|w|w ph er|w ph|w ph er|w er|r] eqn:Ep; try discriminate Hr.
  all: try (eapply lock_ok; [eassumption|eassumption|rewrite ?Ep; done..]).
  all: try (injection Hr as <-).
  all: try (apply goto_ok; rewrite ?Ep; done).
  - holder Set_broadcast [ESet t] (@nil (nat * bool)).
  - by apply broadcast_ok.
  - holder Idle (@nil event) (@nil (nat * bool)).
  - holder Reset_unlock [EReset t] (@nil (nat * bool)).
  - holder Idle (@nil event) (@nil (nat * bool)).
  - destruct (negb (event_status_ e) && bool_decide (er = SUCCESS)) eqn:Eg; injection Hr as <-.
    + bool_inv. unfold cond_wait.
      assert (forall er', event_ok b (goto t (Wait_loop w ph er') e)) as Hl by (intros; apply goto_ok; rewrite ?Ep; done).
      assert (event_ok b (goto t (Wait_cond w ph) (unlock e))) as Hc by holder (Wait_cond w ph) (@nil event) (@nil (nat * bool)).
      by repeat case_match.
    + assert (event_ok b (goto t (Wait_reset w er) e)) as Hex.
      { holder (Wait_reset w er) (@nil event) (@nil (nat * bool)). intros w' [= _ ->].
        rewrite bool_decide_eq_true_2, andb_true_r in Eg by done. by bool_inv. }
      unfold wait_returned. destruct ph; [|done]. destruct (bool_decide (er = ETIMEDOUT)); [|done].
      holder (Wait_loop w ForGiveUp SUCCESS) [EWarn t] (@nil (nat * bool)).
  - pose proof (ok_reset _ _ He t w) as Hset.
    holder (Wait_unlock (bool_decide (er = SUCCESS))) [EWait t (bool_decide (er = SUCCESS))] (@nil (nat * bool)).
    + cbn. case_bool_decide; [|done]. subst. rewrite (Hset Ep). by destruct (is_manual_reset_ e).
    + intros Hs. right. by case_match.
    + by rewrite results_own.
    + intros u Hu. by rewrite results_other.
  - holder Idle (@nil event) [(t, r)].
    + by rewrite returns_of_own.
    + intros u Hu. by rewrite returns_of_other.
Qed.

Lemma step_ok b e a e' : event_ok b e -> step e a = Some e' -> event_ok b e'.
Proof.
  intros He Hs. destruct a as [t|t|t g w|t|t|t|d]; cbn [step] in Hs.
  1-3: unfold call in Hs; destruct (pcs e t) eqn:Ep; try discriminate Hs; injection Hs as <-;
    apply goto_ok; rewrite ?Ep; done.
  - by eapply run_statement_ok.
  - destruct (pcs e t) eqn:Ep; try discriminate Hs. injection Hs as <-. apply goto_ok; rewrite ?Ep; done.
  - destruct (pcs e t) eqn:Ep; try discriminate Hs. repeat case_match; try discriminate Hs. injection Hs as <-.
    apply goto_ok; rewrite ?Ep; done.
  - case_match; [|done]. injection Hs as <-. by destruct He.
Qed.

(** What every step keeps holds after any steps. *)
Lemma steps_keep (Q : action -> Prop) (P : Event -> Prop) e l e' :
  (forall e a e', Q a -> P e -> step e a = Some e' -> P e') ->
  Forall Q l -> P e -> steps e l = Some e' -> P e'.
Proof.
  intros Hk Hl. revert e. induction Hl as [|a l Ha Hl IH]; intros e He Hs; [by injection Hs as <-|].
  cbn [steps] in Hs. apply bind_Some in Hs as (e1 & H1 & Hs). eauto.
Qed.

Lemma steps_ok b e l e' : event_ok b e -> steps e l = Some e' -> event_ok b e'.
Proof.
  apply (steps_keep (fun _ => True)); [intros; by eapply step_ok|]. by apply Forall_true.
Qed.

(** ** Deadlines *)

(** A time-out to wait for: for ever, or so many milliseconds. *)
Definition timely (ms : Z) : Prop := ms = kForever \/ 0 <= ms.

Definition timely_call (a : action) : Prop :=
  match a with CallWait _ g w => timely g /\ timely w | _ => True end.

Lemma GetTimespec_spec now ms :
  0 <= ms ->
  valid_timespec (GetTimespec now ms) = true /\ nanoseconds (GetTimespec now ms) = now + ms * 1000000.
Proof.
  intros Hms. unfold GetTimespec, clock_gettime. cbn [tv_sec tv_nsec].
  rewrite Z.quot_div_nonneg, Z.rem_mod_nonneg by lia.
  pose proof (Z.mod_pos_bound now 1000000000). pose proof (Z.mod_pos_bound ms 1000).
  pose proof (Z.div_mod now 1000000000). pose proof (Z.div_mod ms 1000).
  unfold valid_timespec, nanoseconds. case_match; bool_inv; cbn [tv_sec tv_nsec];
    (split; [apply andb_true_intro; rewrite Z.leb_le, Z.ltb_lt|]); lia.
Qed.

(** The time a caller wanted to wait for is over. *)
Definition over (n : Z) (w : waiting) : Prop :=
  w_give_up_after_ms w <> kForever /\ w_from w + w_give_up_after_ms w * 1000000 <= n.

Definition deadlines_ok (w : waiting) : Prop :=
  (forall ts, w_warn w = Some ts -> valid_timespec ts = true) /\
  w_give_up w = give_up_ts (w_from w) (w_give_up_after_ms w) /\ timely (w_give_up_after_ms w).

Definition error_ok (n : Z) (w : waiting) (p : phase) (error : cond_result) : Prop :=
  deadlines_ok w /\ (error = SUCCESS \/ error = ETIMEDOUT /\ (p = ForGiveUp -> over n w)).

Definition late (n : Z) (p : pc) : Prop :=
  match p with
  | Wait_warn_ts g w => timely g /\ timely w
  | Wait_give_up_ts g warn => timely g /\ forall ts, warn = Some ts -> valid_timespec ts = true
  | Wait_lock w | Wait_cond w _ => deadlines_ok w
  | Wait_loop w p er | Wait_relock w p er => error_ok n w p er
  | Wait_reset w er => error_ok n w ForGiveUp er
  | _ => True
  end.

Lemma late_later n n' p : n <= n' -> late n p -> late n' p.
Proof.
  intros Hn. assert (forall w ph er, error_ok n w ph er -> error_ok n' w ph er) as He.
  { intros w ph er [Hd [?|[-> Ho]]]; (split; [done|]); [by left|right]. split; [done|].
    intros Hp. destruct (Ho Hp). split; [done|lia]. }
  destruct p; cbn; auto.
Qed.

Lemma late_wake n p : late n p -> late n (wake p).
Proof. destruct p; cbn; try done. intros Hd. split; [done|by left]. Qed.

Lemma late_warn n g w : timely w -> forall ts, warn_ts n g w = Some ts -> valid_timespec ts = true.
Proof.
  intros Hw ts. unfold warn_ts. case_match eqn:E; [done|]. intros [= <-]. apply GetTimespec_spec.
  apply orb_false_elim in E as [E _]. bool_inv. by destruct Hw.
Qed.

Lemma give_up_valid n g ts : timely g -> give_up_ts n g = Some ts ->
  g <> kForever /\ valid_timespec ts = true /\ nanoseconds ts = n + g * 1000000.
Proof.
  intros Hg. unfold give_up_ts. case_match; [done|]. bool_inv. intros [= <-].
  destruct Hg; [done|]. split; [done|]. by apply GetTimespec_spec.
Qed.

(** The loop's own deadline is a time, so that no wait fails for another reason. *)
Lemma timeout_valid w p ts : deadlines_ok w -> timeout_ts w p = Some ts -> valid_timespec ts = true.
Proof.
  intros (Hw & Hg & Ht) Hts. destruct p; cbn in Hts; [by apply Hw|].
  rewrite Hg in Hts. by destruct (give_up_valid _ _ _ Ht Hts) as (_ & ? & _).
Qed.

Definition all_late (e : Event) : Prop := forall t, late (now e) (pcs e t).

Lemma goto_late t p e : all_late e -> late (now e) p -> all_late (goto t p e).
Proof. intros H Hp u. cbn [pcs goto now]. at_pc u t; [done|apply H]. Qed.

Lemma lock_late t e p e' : goto t p <$> lock t e = Some e' -> all_late e -> late (now e) p -> all_late e'.
Proof.
  intros (e1 & Hl & ->)%fmap_Some He Hp. unfold lock in Hl. case_match; [done|]. injection Hl as <-.
  by apply goto_late.
Qed.

Lemma run_late t e e' : all_late e -> run t e = Some e' -> all_late e'.
Proof.
  intros He Hr. pose proof (He t) as Hl. unfold run in Hr.
  destruct (pcs e t) as [| | | | | | | |g w|g w|w|w ph er|w ph|w ph er|w er|r] eqn:Ep; cbn [late] in Hl; try discriminate Hr.
  all: try (eapply lock_late; [eassumption|done|done]).
  all: try (injection Hr as <-; by apply goto_late).
  - injection Hr as <-. apply (goto_late t Set_unlock (broadcast e)); [|done].
    intros u. cbn [pcs broadcast now]. apply late_wake, He.
  - injection Hr as <-. apply goto_late; [done|]. destruct Hl. split; [done|]. by apply late_warn.
  - injection Hr as <-. by apply goto_late; destruct Hl.
  - eapply lock_late; [eassumption|done|]. cbn. by split; [|left].
  - destruct (negb (event_status_ e) && bool_decide (er = SUCCESS)) eqn:Eg; injection Hr as <-.
    + unfold cond_wait. destruct (timeout_ts w ph) as [ts|] eqn:Ets.
      * rewrite (timeout_valid _ _ _ (proj1 Hl) Ets). by apply (goto_late t _ (unlock e)); destruct Hl.
      * by apply (goto_late t _ (unlock e)); destruct Hl.
    + assert (forall w', late (now e) (Wait_loop w' ForGiveUp SUCCESS) -> all_late (goto t (Wait_loop w' ForGiveUp SUCCESS) (note (EWarn t) e)))
        as Hg by (intros; by apply (goto_late t _ (note (EWarn t) e))).
      unfold wait_returned. destruct ph; [destruct (bool_decide_reflect (er = ETIMEDOUT))|]; [|apply goto_late; [done|]..].
      * apply Hg. by split; [apply Hl|left].
      * destruct Hl as [Hd [->|[-> _]]]; [|done]. by split; [|left].
      * done.
Qed.

Lemma step_late e a e' : timely_call a -> all_late e -> step e a = Some e' -> all_late e'.
Proof.
  intros Ht He Hs. destruct a as [t|t|t g w|t|t|t|d]; cbn [step] in Hs.
  1-3: unfold call in Hs; destruct (pcs e t) eqn:Ep; try discriminate Hs; injection Hs as <-; by apply goto_late.
  - by eapply run_late.
  - pose proof (He t) as Hl. destruct (pcs e t) eqn:Ep; try discriminate Hs. injection Hs as <-.
    apply goto_late; [done|]. by split; [|left].
  - pose proof (He t) as Hl. destruct (pcs e t) as [| | | | | | | | | | | |w p| | |] eqn:Ep; try discriminate Hs.
    destruct (timeout_ts w p) as [ts|] eqn:Ets; [|done]. case_match eqn:Eb; [|done]. injection Hs as <-. bool_inv.
    apply goto_late; [done|]. split; [done|]. right. split; [done|]. intros ->.
    destruct Hl as (_ & Hg & Hm). cbn in Ets. rewrite Hg in Ets.
    destruct (give_up_valid _ _ _ Hm Ets) as (? & _ & En). split; [done|]. by rewrite <- En.
  - case_match eqn:Ed; [|done]. injection Hs as <-. bool_inv. intros t. cbn [now pcs set_now].
    eapply late_later; [|apply He]. lia.
Qed.

Lemma steps_late e l e' : Forall timely_call l -> all_late e -> steps e l = Some e' -> all_late e'.
Proof. apply steps_keep. intros. by eapply step_late. Qed.

Lemma run_manual t e e' : run t e = Some e' -> is_manual_reset_ e' = is_manual_reset_ e.
Proof.
  unfold run, lock, cond_wait, wait_returned. intros Hr. destruct (pcs e t); try discriminate Hr;
    repeat case_match; simplify_eq/=; done.
Qed.

Lemma step_manual e a e' : step e a = Some e' -> is_manual_reset_ e' = is_manual_reset_ e.
Proof.
  destruct a; cbn [step]; unfold call; intros Hs; [..|by eapply run_manual| | |];
    repeat case_match; simplify_eq/=; done.
Qed.

Lemma steps_manual e l e' : steps e l = Some e' -> is_manual_reset_ e' = is_manual_reset_ e.
Proof.
  apply (steps_keep (fun _ => True) (fun x => is_manual_reset_ x = is_manual_reset_ e)); [|by apply Forall_true|done].
  intros e1 a e2 _ <- Hs. by eapply step_manual.
Qed.

(** C30. However the threads of an event interleave, wake for no reason and
    time out, the calls behave as if each took effect at once, in the order of
    the log, inside the mutex: every set and reset changes the flag, a wait
    that returns true found it set (and cleared it, unless the reset is
    manual), one that returns false left it alone; each call returns the
    result it logged, and only one thread is inside the mutex. *)
Theorem calls_linearize manual initially_signaled n l e :
  steps (newEvent manual initially_signaled n) l = Some e ->
  spec_run manual (log e) (Some initially_signaled) = Some (event_status_ e) /\
  (forall t, results t (log e) = returns_of t (returned e) ++ pending (pcs e t)) /\
  (forall t u, has_mutex (pcs e t) = true -> has_mutex (pcs e u) = true -> t = u).
Proof.
  intros Hs. destruct (steps_ok _ _ _ _ (new_ok manual initially_signaled n) Hs) as [Hm Hl _ _ Hr].
  rewrite (steps_manual _ _ _ Hs) in Hl. split_and!; [done..|].
  intros t u Ht Hu. apply Hm in Ht, Hu. congruence.
Qed.

(** *** Consequences for an event that resets itself *)
Definition waits_true (l : list event) : nat :=
  length (List.filter (fun x => match x with EWait _ b => b | _ => false end) l).
Definition sets (l : list event) : nat :=
  length (List.filter (fun x => match x with ESet _ => true | _ => false end) l).

(** A set lets one wait through at most. *)
Lemma one_wait_per_set b l s :
  spec_run false l (Some b) = Some s -> (waits_true l + Nat.b2n s <= sets l + Nat.b2n b)%nat.
Proof.
  revert s. induction l as [|x l IH] using rev_ind; intros s; [by intros [= ->]|].
  rewrite spec_run_snoc. intros (s0 & Hs0 & Hx)%bind_Some. specialize (IH s0 Hs0).
  unfold waits_true, sets in *. rewrite !List.filter_app, !length_app.
  destruct x as [t|t|t|t []]; cbn in *; simplify_eq/=; try (case_match; simplify_eq/=); cbn in *; lia.
Qed.

(** ** Waits end *)

(** A wait gives up only when its time is over, and never when it was to wait
    for ever. *)
Theorem gives_up_late manual initially_signaled n l e t w error e' :
  Forall timely_call l -> steps (newEvent manual initially_signaled n) l = Some e ->
  pcs e t = Wait_reset w error -> run t e = Some e' ->
  (log e' = log e ++ [EWait t true] /\ event_status_ e = true) \/
  (log e' = log e ++ [EWait t false] /\ event_status_ e' = event_status_ e /\
    w_give_up_after_ms w <> kForever /\ w_from w + w_give_up_after_ms w * 1000000 <= now e).
Proof.
  intros Hl Hs Hp Hr. pose proof (steps_ok _ _ _ _ (new_ok manual initially_signaled n) Hs) as He.
  assert (all_late (newEvent manual initially_signaled n)) as H0 by done.
  pose proof (steps_late _ _ _ Hl H0 Hs t) as Ht. rewrite Hp in Ht. destruct Ht as [_ Ht].
  unfold run in Hr. rewrite Hp in Hr. injection Hr as <-. cbn [log goto note event_status_ set_status].
  destruct Ht as [->|[-> Ho]].
  - left. split; [done|]. by apply (ok_reset _ _ He t w).
  - right. destruct (Ho eq_refl). by rewrite bool_decide_eq_false_2.
Qed.

Definition in_wait (p : pc) : bool :=
  match p with
  | Wait_warn_ts _ _ | Wait_give_up_ts _ _ | Wait_lock _ | Wait_cond _ _ | Wait_relock _ _ _ => true
  | _ => false
  end.

(** The wait has been told that its time is over. *)
Definition gave_up (p : phase) (error : cond_result) : bool :=
  match p, error with _, SUCCESS | ForWarning, ETIMEDOUT => false | _, _ => true end.
Definition timed_out (p : pc) : bool :=
  match p with Wait_relock _ p error => gave_up p error | _ => false end.

(** [t] alone returns [r] from its wait within [n] statements. *)
Definition finishes (n : nat) (e : Event) (t : nat) (r : bool) : Prop :=
  exists k e', (k <= n)%nat /\ steps e (replicate k (Run t)) = Some e' /\
    pcs e' t = Idle /\ returned e' = returned e ++ [(t, r)] /\
    event_status_ e' = (if r then is_manual_reset_ e else event_status_ e).

Lemma finishes_run n e e1 t r :
  run t e = Some e1 -> returned e1 = returned e -> event_status_ e1 = event_status_ e ->
  finishes n e1 t r -> finishes (S n) e t r.
Proof.
  intros Hr Hret Hst (k & e' & Hk & Hs & Hp & He & Hst'). exists (S k), e'. split_and!; [lia| |done|congruence|].
  - cbn [replicate steps step]. by rewrite Hr.
  - by rewrite Hst', (run_manual _ _ _ Hr), Hst.
Qed.

Ltac finish e1 Hp :=
  eapply (finishes_run _ _ e1); [unfold run; rewrite Hp; cbn [fmap option_fmap option_map]; reflexivity|done|done|].

Lemma pcs_goto t p e : pcs (goto t p e) t = p.
Proof. apply fn_lookup_insert. Qed.

Lemma reset_finishes e t w error :
  pcs e t = Wait_reset w error -> event_status_ e = true -> finishes 2 e t (bool_decide (error = SUCCESS)).
Proof.
  intros Hp Hs. set (ok := bool_decide (error = SUCCESS)).
  set (e1 := goto t (Wait_unlock ok) (note (EWait t ok)
    (set_status (if ok && negb (is_manual_reset_ e) then false else event_status_ e) e))).
  assert (run t e = Some e1) as H1 by (unfold run; by rewrite Hp).
  assert (run t e1 = Some (goto t Idle (return_ t ok (unlock e1)))) as H2
    by (unfold run; unfold e1 at 1; by rewrite pcs_goto).
  exists 2%nat, (goto t Idle (return_ t ok (unlock e1))). split; [done|].
  cbn [replicate steps step]. rewrite H1. cbn [mbind option_bind]. rewrite H2. split; [done|].
  split; [apply pcs_goto|]. split; [done|]. cbn. rewrite Hs. by destruct ok, (is_manual_reset_ e).
Qed.

Lemma loop_finishes e t w p error :
  pcs e t = Wait_loop w p error -> event_status_ e = true -> finishes 4 e t (negb (gave_up p error)).
Proof.
  intros Hp Hs.
  assert (forall n e0 p0 er, pcs e0 t = Wait_loop w p0 er -> event_status_ e0 = true ->
    (p0 = ForGiveUp \/ er <> ETIMEDOUT) -> finishes (3 + n) e0 t (bool_decide (er = SUCCESS))) as Hout.
  { intros n e0 p0 er Hp0 Hs0 Hor. apply (finishes_run _ e0 (goto t (Wait_reset w er) e0)); [|done..|].
    - unfold run. rewrite Hp0, Hs0. cbn [negb andb]. unfold wait_returned. destruct p0; [|done].
      destruct Hor; [done|]. by rewrite bool_decide_eq_false_2.
    - destruct (reset_finishes (goto t (Wait_reset w er) e0) t w er) as (k & e' & Hk & H); [apply pcs_goto|done|].
      exists k, e'. split; [lia|done]. }
  destruct (decide (p = ForWarning /\ error = ETIMEDOUT)) as [[-> ->]|Hne].
  - apply (finishes_run 3 e (goto t (Wait_loop w ForGiveUp SUCCESS) (note (EWarn t) e))); [|done..|].
    + unfold run. rewrite Hp, Hs. done.
    + apply (Hout 0%nat _ ForGiveUp SUCCESS); [apply pcs_goto|done|by left].
  - assert (negb (gave_up p error) = bool_decide (error = SUCCESS)) as ->
      by (destruct p, error; try done; by destruct Hne).
    apply (Hout 1%nat _ p error); [done..|]. destruct p; [right|by left]. intros ->. by destruct Hne.
Qed.

Lemma lock_finishes e t w p error :
  pcs e t = Wait_relock w p error \/
    pcs e t = Wait_lock w /\ error = SUCCESS /\ p = match w_warn w with None => ForGiveUp | Some _ => ForWarning end ->
  event_mutex_ e = None -> event_status_ e = true -> finishes 5 e t (negb (gave_up p error)).
Proof.
  intros Hp Hm Hs. apply (finishes_run 4 e (goto t (Wait_loop w p error) (set_mutex (Some t) e))); [|done..|].
  - unfold run, lock. rewrite Hm. by destruct Hp as [->|(-> & -> & ->)].
  - by apply (loop_finishes _ _ w); [apply pcs_goto|].
Qed.

(** C31. No thread sleeps through a set event: in every reachable state with
    the event set and nobody inside the mutex, a thread that is in [Wait] is
    not blocked, and left alone it returns within seven statements: true,
    unless its time was over before, and then it leaves the event set. *)
Theorem set_event_ends_wait manual initially_signaled n l e t :
  steps (newEvent manual initially_signaled n) l = Some e ->
  event_mutex_ e = None -> event_status_ e = true -> in_wait (pcs e t) = true ->
  finishes 7 e t (negb (timed_out (pcs e t))).
Proof.
  intros Hs Hm Hst Hw. pose proof (steps_ok _ _ _ _ (new_ok manual initially_signaled n) Hs) as He.
  assert (forall k j e0 r, (k <= j)%nat -> finishes k e0 t r -> finishes j e0 t r) as Hmono.
  { intros k j e0 r Hk (i & e' & Hi & H). exists i, e'. split; [lia|done]. }
  assert (forall e0 w, pcs e0 t = Wait_lock w -> event_mutex_ e0 = None -> event_status_ e0 = true -> finishes 5 e0 t true) as Hl.
  { intros e0 w Hp0 Hm0 Hs0. assert (forall p, negb (gave_up p SUCCESS) = true) as Hg by (by intros []).
    erewrite <- Hg. apply (lock_finishes e0 t w _ SUCCESS); [by right|done..]. }
  assert (forall e0 g warn, pcs e0 t = Wait_give_up_ts g warn -> event_mutex_ e0 = None -> event_status_ e0 = true ->
    finishes 6 e0 t true) as Hg.
  { intros e0 g warn Hp0 Hm0 Hs0. eapply (finishes_run 5); [unfold run; rewrite Hp0; reflexivity|done..|].
    eapply Hl; [apply pcs_goto|done..]. }
  destruct (pcs e t) as [| | | | | | | |g w|g w|w|w ph er|w ph|w ph er|w er|r] eqn:Ep; try discriminate Hw; cbn [timed_out negb].
  - eapply (finishes_run 6); [unfold run; rewrite Ep; reflexivity|done..|]. eapply Hg; [apply pcs_goto|done..].
  - by eapply (Hmono 6%nat), Hg; [lia|..].
  - by eapply (Hmono 5%nat), Hl; [lia|..].
  - exfalso. destruct (ok_asleep _ _ He t w ph Ep Hst) as [u Hu].
    pose proof (proj1 (ok_mutex _ _ He u)) as Hmu. rewrite Hu, Hm in Hmu. by specialize (Hmu eq_refl).
  - eapply (Hmono 5%nat); [lia|]. apply (lock_finishes e t w); [by left|done..].
Qed.

(** ** Runs *)

(** [k] statements of a thread. *)
Definition does (t k : nat) : list action := replicate k (Run t).

(** Thread 1 waits for ever and is asleep when thread 2 sets the event. *)
Definition toy_wake : list action :=
  [CallWait 1 kForever (default_warn kForever)] ++ does 1 4 ++ [CallSet 2] ++ does 2 4.
Definition toy_woken : option Event := steps (newEvent false false 0) toy_wake.

(** What of a state is to be seen of thread [t]. *)
Definition view (t : nat) (e : Event) : option nat * bool * pc * list event * list (nat * bool) :=
  (event_mutex_ e, event_status_ e, pcs e t, log e, returned e).

Lemma view_steps t e l v : view t <$> steps e l = Some v -> exists e', steps e l = Some e' /\ view t e' = v.
Proof. intros (e' & Hs & ->)%fmap_Some. by exists e'. Qed.

Definition toy_asleep : waiting := mkWaiting (Some (mkTimespec 3 0)) None kForever 0.

Example set_event_ends_wait_witness :
  exists e, (toy_woken = Some e /\ event_mutex_ e = None /\ event_status_ e = true /\ in_wait (pcs e 1) = true) /\
    finishes 7 e 1 true.
Proof.
  destruct (view_steps 1 (newEvent false false 0) toy_wake
    (None, true, Wait_relock toy_asleep ForWarning SUCCESS, [ESet 2], [])) as (e & Hs & Hv);
    [vm_compute; reflexivity|].
  injection Hv as Hm Hst Hp _ _. exists e.
  assert (in_wait (pcs e 1) = true) as Hw by (by rewrite Hp). split; [done|].
  pose proof (set_event_ends_wait false false 0 toy_wake e 1 Hs Hm Hst Hw) as Hf. by rewrite Hp in Hf.
Defined.

(** Two threads wait, one set: one returns, the other waits on. *)
Definition toy_two : list action :=
  [CallWait 1 kForever 3000; CallWait 3 kForever kForever] ++ does 1 4 ++ does 3 4 ++ [CallSet 2] ++ does 2 4 ++
  does 3 4 ++ does 1 2.

Example calls_linearize_witness :
  exists e, (steps (newEvent false false 0) toy_two = Some e /\
    log e = [ESet 2; EWait 3 true] /\ returned e = [(3%nat, true)] /\ pcs e 1 = Wait_cond toy_asleep ForWarning) /\
    spec_run false (log e) (Some false) = Some (event_status_ e) /\
    (forall t, results t (log e) = returns_of t (returned e) ++ pending (pcs e t)) /\
    (forall t u, has_mutex (pcs e t) = true -> has_mutex (pcs e u) = true -> t = u).
Proof.
  destruct (view_steps 1 (newEvent false false 0) toy_two
    (None, false, Wait_cond toy_asleep ForWarning, [ESet 2; EWait 3 true], [(3%nat, true)])) as (e & Hs & Hv);
    [vm_compute; reflexivity|].
  injection Hv as _ _ Hp Hl Hr. exists e. split; [done|]. exact (calls_linearize false false 0 toy_two e Hs).
Defined.

(** What a log has, once the steps are done. *)
Definition log_of (e : Event) (l : list action) : option (list event * bool) :=
  e ← steps e l; Some (log e, event_status_ e).

(** A wait that gives up while the event is being set leaves it set. *)
Example set_after_time_out :
  log_of (newEvent false false 0)
    ([CallWait 1 10 kForever] ++ does 1 4 ++ [Tick 10000000; TimeOut 1; CallSet 2] ++ does 2 4 ++ does 1 4) =
  Some ([ESet 2; EWait 1 false], true).
Proof. vm_compute. reflexivity. Qed.

(** The header promises no warning when both times are the same; one is logged. *)
Example warning_when_giving_up :
  log_of (newEvent false false 0)
    ([CallWait 1 10 10] ++ does 1 4 ++ [Tick 10000000; TimeOut 1] ++ does 1 3 ++ [TimeOut 1] ++ does 1 4) =
  Some ([EWarn 1; EWait 1 false], false).
Proof. vm_compute. reflexivity. Qed.

(** A negative time-out other than [kForever] is no time: the wait fails at
    once, and a wait for ever too when the time to warn is negative. *)
Example negative_time :
  log_of (newEvent false false 0) ([CallWait 1 (-5) kForever] ++ does 1 6) = Some ([EWait 1 false], false) /\
  log_of (newEvent false false 0) ([CallWait 1 kForever (-5)] ++ does 1 6) = Some ([EWait 1 false], false).
Proof. split; vm_compute; reflexivity. Qed.

(** An event that is reset by hand lets every wait through until then. *)
Example manual_reset :
  log_of (newEvent true false 0)
    ([CallWait 1 kForever kForever; CallWait 3 50 20] ++ does 1 4 ++ [CallSet 2] ++ does 2 4 ++
     does 3 6 ++ does 1 4 ++ [CallReset 2] ++ does 2 3) =
  Some ([ESet 2; EWait 3 true; EWait 1 true; EReset 2], false).
Proof. vm_compute. reflexivity. Qed.

(** A spurious wake-up goes back to sleep. *)
Example spurious_wake_up :
  log_of (newEvent false false 0)
    ([CallWait 1 20 kForever] ++ does 1 4 ++ [Spurious 1] ++ does 1 2 ++ [Tick 20000000; TimeOut 1] ++ does 1 4) =
  Some ([EWait 1 false], false).
Proof. vm_compute. reflexivity. Qed.

Definition toy_late : list action :=
  [CallWait 1 10 kForever] ++ does 1 4 ++ [Tick 10000000; TimeOut 1] ++ does 1 2.
Definition toy_waiting : waiting := mkWaiting None (Some (mkTimespec 0 10000003)) 10 3.

Example gives_up_late_witness :
  exists e e', (Forall timely_call toy_late /\ steps (newEvent false false 3) toy_late = Some e /\
    pcs e 1 = Wait_reset toy_waiting ETIMEDOUT /\ run 1 e = Some e') /\
    ((log e' = log e ++ [EWait 1 true] /\ event_status_ e = true) \/
     (log e' = log e ++ [EWait 1 false] /\ event_status_ e' = event_status_ e /\ 10 <> kForever /\ 3 + 10 * 1000000 <= now e)).
Proof.
  assert (Forall timely_call toy_late) as Hl by (repeat (constructor; [cbn; unfold timely; lia|]); constructor).
  destruct (view_steps 1 (newEvent false false 3) toy_late
    (Some 1%nat, false, Wait_reset toy_waiting ETIMEDOUT, [], [])) as (e & Hs & Hv); [vm_compute; reflexivity|].
  injection Hv as _ _ Hp _ _. destruct (run 1 e) as [e'|] eqn:Hr; [|unfold run in Hr; by rewrite Hp in Hr].
  exists e, e'. split; [done|]. exact (gives_up_late false false 3 toy_late e 1 _ _ e' Hl Hs Hp Hr).
Defined.
