(* ===== verification/Sigslot.v ===== *)
(** * Signals and slots (rtc_base/sigslot/sigslot.h)

    The observers the DTLS transport is wired with: a [signal] keeps the list
    of its connections, a [has_slots] object the set of the signals it is
    connected to, and each removes itself from the other when it goes.  Both
    live in a store ([world]), so that a pointer to an object that was deleted
    is visible as [Dangling].  A callback may use every operation while the
    signal that called it is still firing. *)
From S2P Require Import Prelude.

Local Open Scope Z_scope.

Section sigslot.
Context {M A : Type}.

(** ** Data *)

(** [_opaque_connection]: the object and the method to call. *)
Record connection := Connection { pdest : positive; pmethod : M }.

Definition getdest (c : connection) : positive := pdest c.

Definition duplicate (c : connection) (newtarget : positive) : connection :=
  Connection newtarget (pmethod c).

(** A [std::list] keeps its nodes at fixed addresses; an iterator is the
    address of a node, [None] is [end()]. *)
Definition node : Type := positive * connection.

(** [_signal_base] *)
Record signal := Signal {
  m_connected_slots : list node;
  m_current_iterator : option positive
}.

(** The objects that are alive.  [slots] holds the [m_senders] of every
    [has_slots], [calls] the method calls made so far. *)
Record world := World {
  signals : gmap positive signal;
  slots : gmap positive (gset positive);
  next_node : positive;
  calls : list (positive * M * A)
}.

(** The order in which a [std::set] of pointers is walked. *)
Context (senders_of : gset positive -> list positive).

Definition empty_world : world := World ∅ ∅ 1 [].
Definition with_signals (w : world) m := World m (slots w) (next_node w) (calls w).
Definition with_slots (w : world) m := World (signals w) m (next_node w) (calls w).
Definition set_signal (w : world) (s : positive) (x : signal) : world :=
  with_signals w (<[s := x]> (signals w)).
Definition set_slot (w : world) (p : positive) (x : gset positive) : world :=
  with_slots w (<[p := x]> (slots w)).
Definition log_call (w : world) (p : positive) (pm : M) (args : A) : world :=
  World (signals w) (slots w) (next_node w) (calls w ++ [(p, pm, args)]).

Definition get_signal (w : world) (s : positive) : res signal :=
  from_opt Dangling (signals w !! s).
Definition get_slot (w : world) (p : positive) : res (gset positive) :=
  from_opt Dangling (slots w !! p).

(** [begin()], and the node an iterator points to with its successor. *)
Definition begin_of (l : list node) : option positive := fst <$> head l.

Fixpoint deref (n : positive) (l : list node) : option (connection * option positive) :=
  match l with
  | [] => None
  | (n', c) :: r => if decide (n' = n) then Some (c, begin_of r) else deref n r
  end.

(** ** The side of the slot *)

Definition do_signal_connect (w : world) (p sender : positive) : res world :=
  m_senders ← get_slot w p; Ok (set_slot w p ({[sender]} ∪ m_senders)).

Definition do_signal_disconnect (w : world) (p sender : positive) : res world :=
  m_senders ← get_slot w p; Ok (set_slot w p (m_senders ∖ {[sender]})).

(** ** The side of the signal *)

(** The walk of [do_slot_disconnect]: [erase] returns the following node. *)
Fixpoint slot_disconnect_loop (pslot : positive) (cur : option positive) (l : list node) :
    list node * option positive :=
  match l with
  | [] => ([], cur)
  | (n, c) :: itNext =>
      if decide (pdest c = pslot) then
        slot_disconnect_loop pslot
          (if decide (cur = Some n) then begin_of itNext else cur) itNext
      else
        let '(l', cur') := slot_disconnect_loop pslot cur itNext in ((n, c) :: l', cur')
  end.

Definition do_slot_disconnect (w : world) (p pslot : positive) : res world :=
  self ← get_signal w p;
  let '(l, cur) := slot_disconnect_loop pslot (m_current_iterator self) (m_connected_slots self) in
  Ok (set_signal w p (Signal l cur)).

(** The walk of [do_slot_duplicate] runs up to [end()], over the connections
    it has appended as well. *)
Fixpoint slot_duplicate_loop (fuel : nat) (oldtarget newtarget : positive)
    (it : nat) (l : list node) (next : positive) : res (list node * positive) :=
  match fuel with
  | O => Fail OutOfFuel
  | S fuel =>
      match l !! it with
      | None => Ok (l, next)
      | Some (_, c) =>
          if decide (pdest c = oldtarget) then
            slot_duplicate_loop fuel oldtarget newtarget (S it)
              (l ++ [(next, duplicate c newtarget)]) (Pos.succ next)
          else slot_duplicate_loop fuel oldtarget newtarget (S it) l next
      end
  end.

Definition do_slot_duplicate (w : world) (p oldtarget newtarget : positive) : res world :=
  self ← get_signal w p;
  let l := m_connected_slots self in
  '(l', next) ← slot_duplicate_loop (S (length l + length l)) oldtarget newtarget 0 l (next_node w);
  Ok (World (<[p := Signal l' (m_current_iterator self)]> (signals w)) (slots w) next (calls w)).

(** [signal::disconnect_all]: the first connection is taken out until there
    are none. *)
Fixpoint disconnect_all_loop (s : positive) (l : list node) (w : world) : res world :=
  match l with
  | [] => Ok w
  | (_, c) :: l' =>
      self ← get_signal w s;
      let w := set_signal w s (Signal l' (m_current_iterator self)) in
      w ← do_signal_disconnect w (getdest c) s;
      disconnect_all_loop s l' w
  end.

Definition signal_disconnect_all (w : world) (s : positive) : res world :=
  self ← get_signal w s;
  w ← disconnect_all_loop s (m_connected_slots self) w;
  self ← get_signal w s;
  Ok (set_signal w s (Signal (m_connected_slots self) None)).

Fixpoint connected_loop (pclass : positive) (l : list node) : bool :=
  match l with
  | [] => false
  | (_, c) :: l => if decide (getdest c = pclass) then true else connected_loop pclass l
  end.

Definition connected (w : world) (s pclass : positive) : res bool :=
  self ← get_signal w s; Ok (connected_loop pclass (m_connected_slots self)).

Definition is_empty (w : world) (s : positive) : res bool :=
  self ← get_signal w s;
  Ok (match m_connected_slots self with [] => true | _ => false end).

Fixpoint disconnect_loop (pclass : positive) (cur : option positive) (l : list node) :
    option (list node * option positive) :=
  match l with
  | [] => None
  | (n, c) :: r =>
      if decide (pdest c = pclass) then
        Some (r, if decide (cur = Some n) then begin_of r else cur)
      else
        '(l', cur') ← disconnect_loop pclass cur r; Some ((n, c) :: l', cur')
  end.

Definition disconnect (w : world) (s pclass : positive) : res world :=
  self ← get_signal w s;
  match disconnect_loop pclass (m_current_iterator self) (m_connected_slots self) with
  | Some (l, cur) => do_signal_disconnect (set_signal w s (Signal l cur)) pclass s
  | None => Ok w
  end.

(** [_signal_base::_signal_base(const _signal_base&)] *)
Fixpoint copy_loop (s : positive) (l : list node) (w : world) : res world :=
  match l with
  | [] => Ok w
  | (_, connection) :: l =>
      w ← do_signal_connect w (getdest connection) s;
      self ← get_signal w s;
      copy_loop s l
        (World (<[s := Signal (m_connected_slots self ++ [(next_node w, connection)])
                              (m_current_iterator self)]> (signals w))
               (slots w) (Pos.succ (next_node w)) (calls w))
  end.

Definition copy_signal (w : world) (o s : positive) : res world :=
  other ← get_signal w o;
  copy_loop s (m_connected_slots other) (set_signal w s (Signal [] None)).

Definition connect (w : world) (s pclass : positive) (pmemfun : M) : res world :=
  self ← get_signal w s;
  do_signal_connect
    (World (<[s := Signal (m_connected_slots self ++ [(next_node w, Connection pclass pmemfun)])
                          (m_current_iterator self)]> (signals w))
           (slots w) (Pos.succ (next_node w)) (calls w))
    pclass s.

(** ** [has_slots] *)

Fixpoint slot_disconnect_each (p : positive) (senders : list positive) (w : world) : res world :=
  match senders with
  | [] => Ok w
  | s :: senders => w ← do_slot_disconnect w s p; slot_disconnect_each p senders w
  end.

(** The set is swapped out before its members are told; the outer loop runs
    until no signal has connected the object again. *)
Fixpoint do_disconnect_all_loop (fuel : nat) (p : positive) (w : world) : res world :=
  match fuel with
  | O => Fail OutOfFuel
  | S fuel =>
      m_senders ← get_slot w p;
      if decide (m_senders = ∅) then Ok w
      else
        w ← slot_disconnect_each p (senders_of m_senders) (set_slot w p ∅);
        do_disconnect_all_loop fuel p w
  end.

Definition do_disconnect_all (w : world) (p : positive) : res world := do_disconnect_all_loop 2 p w.

Fixpoint slot_duplicate_each (o p : positive) (senders : list positive) (w : world) : res world :=
  match senders with
  | [] => Ok w
  | s :: senders =>
      w ← do_slot_duplicate w s o p;
      w ← do_signal_connect w p s;
      slot_duplicate_each o p senders w
  end.

Definition copy_slot (w : world) (o p : positive) : res world :=
  m_senders ← get_slot w o;
  slot_duplicate_each o p (senders_of m_senders) (set_slot w p ∅).

Definition destroy_slot (w : world) (p : positive) : res world :=
  w ← do_disconnect_all w p; Ok (with_slots w (delete p (slots w))).

Definition destroy_signal (w : world) (s : positive) : res world :=
  w ← signal_disconnect_all w s; Ok (with_signals w (delete s (signals w))).

(** ** Emission

    What a program does with signals and slots is a list of operations, and
    what a method does when it is called is such a list as well.  The stack
    holds what is left to do: operations, and the emissions under way. *)
Inductive op :=
  | NewSignal (s : positive)
  | NewSlot (p : positive)
  | CopySignal (o s : positive)
  | CopySlot (o p : positive)
  | Connect (s p : positive) (pm : M)
  | Disconnect (s p : positive)
  | SignalDisconnectAll (s : positive)
  | SlotDisconnectAll (p : positive)
  | Emit (s : positive) (args : A)
  | DestroySignal (s : positive)
  | DestroySlot (p : positive).

Inductive task :=
  | Do (o : op)
  | Firing (s : positive) (args : A).

Context (body : positive -> M -> A -> list op).

Definition has_signal (w : world) (s : positive) : bool := bool_decide (is_Some (signals w !! s)).
Definition has_slot (w : world) (p : positive) : bool := bool_decide (is_Some (slots w !! p)).

(** A program operates on objects that exist and creates those that do not. *)
Definition possible (w : world) (o : op) : bool :=
  match o with
  | NewSignal s => negb (has_signal w s)
  | NewSlot p => negb (has_slot w p)
  | CopySignal o s => has_signal w o && negb (has_signal w s)
  | CopySlot o p => has_slot w o && negb (has_slot w p)
  | Connect s p _ | Disconnect s p => has_signal w s && has_slot w p
  | SignalDisconnectAll s | Emit s _ | DestroySignal s => has_signal w s
  | SlotDisconnectAll p | DestroySlot p => has_slot w p
  end.

(** The operations other than [Emit] run to their end at once. *)
Definition perform (w : world) (o : op) : res world :=
  match o with
  | NewSignal s => Ok (set_signal w s (Signal [] None))
  | NewSlot p => Ok (set_slot w p ∅)
  | CopySignal o s => copy_signal w o s
  | CopySlot o p => copy_slot w o p
  | Connect s p pm => connect w s p pm
  | Disconnect s p => disconnect w s p
  | SignalDisconnectAll s => signal_disconnect_all w s
  | SlotDisconnectAll p => do_disconnect_all w p
  | Emit _ _ => Ok w
  | DestroySignal s => destroy_signal w s
  | DestroySlot p => destroy_slot w p
  end.

(** [emit] sets the iterator to [begin()]; then each round takes the
    connection, moves the iterator on, and calls. *)
Definition begin_emit (w : world) (s : positive) : res world :=
  self ← get_signal w s;
  Ok (set_signal w s (Signal (m_connected_slots self) (begin_of (m_connected_slots self)))).

Definition emit_round (w : world) (s : positive) (args : A) : res (option (list op * world)) :=
  self ← get_signal w s;
  match m_current_iterator self with
  | None => Ok None
  | Some it =>
      '(conn, it') ← from_opt Dangling (deref it (m_connected_slots self));
      let w := set_signal w s (Signal (m_connected_slots self) it') in
      _ ← get_slot w (pdest conn);
      Ok (Some (body (pdest conn) (pmethod conn) args,
                log_call w (pdest conn) (pmethod conn) args))
  end.

Definition step (todo : list task) (w : world) : res (list task * world) :=
  match todo with
  | [] => Ok ([], w)
  | Do o :: r =>
      if possible w o then
        match o with
        | Emit s args => w ← begin_emit w s; Ok (Firing s args :: r, w)
        | o => w ← perform w o; Ok (r, w)
        end
      else Ok (r, w)
  | Firing s args :: r =>
      e ← emit_round w s args;
      match e with
      | None => Ok (r, w)
      | Some (ops, w) => Ok ((Do <$> ops) ++ Firing s args :: r, w)
      end
  end.

Fixpoint exec (fuel : nat) (todo : list task) (w : world) : res world :=
  match todo with
  | [] => Ok w
  | _ =>
      match fuel with
      | O => Fail OutOfFuel
      | S fuel => '(todo, w) ← step todo w; exec fuel todo w
      end
  end.

(** ** The invariant

    [from cur l] is what an emission has still to visit. *)
Fixpoint from_node (n : positive) (l : list node) : list node :=
  match l with
  | [] => []
  | (n', c) :: r => if decide (n' = n) then l else from_node n r
  end.

Definition from (cur : option positive) (l : list node) : list node :=
  match cur with None => [] | Some n => from_node n l end.

Definition wf_signal (next : positive) (x : signal) : Prop :=
  NoDup (fst <$> m_connected_slots x) /\
  Forall (fun n => (n < next)%positive) (fst <$> m_connected_slots x) /\
  m_current_iterator x = begin_of (from (m_current_iterator x) (m_connected_slots x)).

(** ** The specification: who is called by each signal, in order *)

Definition edges (l : list node) : list (positive * M) :=
  (fun n => (pdest (snd n), pmethod (snd n))) <$> l.

Definition abs (w : world) : gmap positive (list (positive * M)) :=
  (fun x => edges (m_connected_slots x)) <$> signals w.

(** The two sides agree: a signal's connections lead to objects that are
    alive, and an object lists exactly the signals connected to it. *)
Definition linked (g : gmap positive (list (positive * M)))
    (sl : gmap positive (gset positive)) : Prop :=
  (forall s l p, g !! s = Some l -> p ∈ l.*1 -> is_Some (sl !! p)) /\
  (forall p m s, sl !! p = Some m -> s ∈ m <-> exists l, g !! s = Some l /\ p ∈ l.*1).

Definition wf (w : world) : Prop :=
  linked (abs w) (slots w) /\
  forall s x, signals w !! s = Some x -> wf_signal (next_node w) x.

Fixpoint drop_first (p : positive) (l : list (positive * M)) : list (positive * M) :=
  match l with
  | [] => []
  | e :: l => if decide (e.1 = p) then l else e :: drop_first p l
  end.

Definition without (p : positive) (l : list (positive * M)) : list (positive * M) :=
  filter (fun e => e.1 <> p) l.

Definition spec_perform (o : op) (g : gmap positive (list (positive * M))) :=
  match o with
  | NewSignal s | SignalDisconnectAll s => <[s := []]> g
  | NewSlot _ | Emit _ _ => g
  | CopySignal o s => <[s := default [] (g !! o)]> g
  | CopySlot o p => (fun l => l ++ ((fun e => (p, e.2)) <$> filter (fun e => e.1 = o) l)) <$> g
  | Connect s p pm => alter (fun l => l ++ [(p, pm)]) s g
  | Disconnect s p => alter (drop_first p) s g
  | SlotDisconnectAll p | DestroySlot p => without p <$> g
  | DestroySignal s => delete s g
  end.

Definition spec_slots (o : op) (live : gset positive) : gset positive :=
  match o with
  | NewSlot p | CopySlot _ p => {[p]} ∪ live
  | DestroySlot p => live ∖ {[p]}
  | _ => live
  end.

(** ** Lists of nodes *)

Lemma from_begin l : from (begin_of l) l = l.
Proof. destruct l as [|[n c] l]; cbn; [done|]. by rewrite decide_True. Qed.

Lemma from_node_in n l : from_node n l <> [] -> n ∈ l.*1.
Proof.
  induction l as [|[n' c] l IH]; cbn; [done|]. intros Hl.
  destruct (decide (n' = n)) as [->|]; [left|right; auto].
Qed.

Lemma from_app cur l l' : from cur l <> [] -> from cur (l ++ l') = from cur l ++ l'.
Proof.
  destruct cur as [n|]; [|done]. cbn.
  induction l as [|[n' c] l IH]; cbn; [done|]. intros Hl. by destruct (decide (n' = n)); auto.
Qed.

Lemma begin_some n l : begin_of l = Some n -> exists c l', l = (n, c) :: l'.
Proof. destruct l as [|[n' c] l]; cbn; [done|]. intros [= ->]. eauto. Qed.

Lemma iterator_in cur n l :
  cur = begin_of (from cur l) -> cur = Some n -> n ∈ l.*1.
Proof.
  intros Hc ->. apply from_node_in. intros He. cbn in Hc. by rewrite He in Hc.
Qed.

(** An iterator of a list that has become longer is still valid. *)
Lemma iterator_app cur l l' :
  cur = begin_of (from cur l) -> cur = begin_of (from cur (l ++ l')).
Proof.
  destruct cur as [n|]; [|done]. intros Hc.
  assert (from (Some n) l <> []) as Hl by (intros He; rewrite He in Hc; discriminate Hc).
  rewrite from_app by done. destruct (from (Some n) l); done.
Qed.

Lemma deref_from n l c r : from_node n l = (n, c) :: r -> deref n l = Some (c, begin_of r).
Proof.
  induction l as [|[n' c'] l IH]; cbn; [done|].
  destruct (decide (n' = n)) as [->|]; [intros [= -> ->]; done|auto].
Qed.

(** Erasing the connections to an object: what the iterator has still to
    visit is what it had, without them. *)
Lemma slot_disconnect_loop_off p n l cur :
  cur = Some n -> n ∉ l.*1 -> (slot_disconnect_loop p cur l).2 = cur.
Proof.
  intros -> Hn. induction l as [|[n' c] l IH]; [done|].
  cbn in Hn |- *. rewrite not_elem_of_cons in Hn. destruct Hn as [Hn Hl].
  destruct (decide (pdest c = p)).
  - rewrite decide_False by congruence. auto.
  - specialize (IH Hl). by destruct (slot_disconnect_loop p (Some n) l).
Qed.

Lemma slot_disconnect_loop_in p l cur n :
  (slot_disconnect_loop p cur l).2 = Some n -> cur = Some n \/ n ∈ l.*1.
Proof.
  revert cur. induction l as [|[n' c] l IH]; intros cur; [by left|]. cbn [slot_disconnect_loop].
  destruct (decide (pdest c = p)).
  - intros [Hc|Hc]%IH; [|right; by right].
    destruct (decide (cur = Some n')); [|by left].
    apply begin_some in Hc as (c' & l' & ->). right. right. left.
  - intros Hc. destruct (IH cur) as [->|Hl]; [|by left|right; by right].
    by destruct (slot_disconnect_loop p cur l).
Qed.

Lemma slot_disconnect_loop_spec p l cur :
  NoDup l.*1 ->
  (slot_disconnect_loop p cur l).1 = filter (fun n : node => pdest n.2 <> p) l /\
  from (slot_disconnect_loop p cur l).2 (slot_disconnect_loop p cur l).1 =
    filter (fun n : node => pdest n.2 <> p) (from cur l) /\
  (cur = begin_of (from cur l) ->
   (slot_disconnect_loop p cur l).2 =
     begin_of (from (slot_disconnect_loop p cur l).2 (slot_disconnect_loop p cur l).1)).
Proof.
  revert cur. induction l as [|[n c] l IH]; intros cur Hnd; [by destruct cur|].
  rewrite fmap_cons, list.NoDup_cons in Hnd. destruct Hnd as [Hn Hnd].
  cbn [slot_disconnect_loop].
  destruct (decide (pdest c = p)) as [Hp|Hp].
  - rewrite filter_cons_False by (intros Hne; by apply Hne).
    destruct (decide (cur = Some n)) as [->|Hc].
    + destruct (IH (begin_of l) Hnd) as (E1 & E2 & E3). rewrite from_begin in E2, E3.
      split; [done|split]; [|auto].
      rewrite E2. cbn. rewrite decide_True by done.
      rewrite filter_cons_False by (intros Hne; by apply Hne). done.
    + destruct (IH cur Hnd) as (E1 & E2 & E3).
      assert (from cur ((n, c) :: l) = from cur l) as ->.
      { destruct cur as [n'|]; cbn; [|done]. by rewrite decide_False by congruence. }
      done.
  - rewrite filter_cons_True by done.
    destruct (IH cur Hnd) as (E1 & E2 & E3).
    pose proof (slot_disconnect_loop_in p l cur) as Hin.
    pose proof (slot_disconnect_loop_off p n l cur) as Hoff.
    destruct (slot_disconnect_loop p cur l) as [l' cur']. cbn in *. subst l'.
    split; [done|].
    destruct (decide (cur = Some n)) as [->|Hc].
    + rewrite Hoff by done. cbn. rewrite !decide_True by done.
      rewrite filter_cons_True by done. done.
    + assert (from cur ((n, c) :: l) = from cur l) as ->.
      { destruct cur as [n'|]; cbn; [|done]. by rewrite decide_False by congruence. }
      assert (forall x, from cur' ((n, c) :: x) = from cur' x) as Hf.
      { intros x. destruct cur' as [n'|]; cbn; [|done].
        rewrite decide_False; [done|]. intros ->. by destruct (Hin n' eq_refl). }
      rewrite Hf. done.
Qed.

Lemma from_skip n c l cur : cur <> Some n -> from cur ((n, c) :: l) = from cur l.
Proof. intros Hc. destruct cur as [n'|]; cbn; [|done]. by rewrite decide_False by congruence. Qed.

Lemma disconnect_loop_spec p l cur :
  NoDup l.*1 ->
  match disconnect_loop p cur l with
  | None => p ∉ (edges l).*1
  | Some (l', cur') =>
      edges l' = drop_first p (edges l) /\ p ∈ (edges l).*1 /\ l' `sublist_of` l /\
      (cur = begin_of (from cur l) -> cur' = begin_of (from cur' l')) /\
      (cur' = cur \/ (exists n, cur = Some n /\ n ∈ l.*1) /\ forall n, cur' = Some n -> n ∈ l.*1)
  end.
Proof.
  induction l as [|[n c] l IH]; cbn [disconnect_loop]; intros Hnd; [apply not_elem_of_nil|].
  rewrite fmap_cons, list.NoDup_cons in Hnd. destruct Hnd as [Hn Hnd].
  change (edges ((n, c) :: l)) with ((pdest c, pmethod c) :: edges l).
  cbn [drop_first fst snd]. rewrite fmap_cons. cbn [fst].
  destruct (decide (pdest c = p)) as [Hp|Hp].
  - split; [done|]. split; [subst; left|]. split; [by apply sublist_cons|].
    destruct (decide (cur = Some n)) as [->|Hc].
    + split; [by rewrite from_begin|]. right. split; [exists n; split; [done|left]|].
      intros n' (c' & l' & ->)%begin_some. right. left.
    + split; [by rewrite from_skip|by left].
  - specialize (IH Hnd). destruct (disconnect_loop p cur l) as [[l' cur']|]; cbn.
    + destruct IH as (E1 & E2 & E3 & E4 & E5).
      split; [by rewrite <- E1|]. split; [by right|]. split; [by apply sublist_skip|].
      split; [|destruct E5 as [|[(n' & -> & Hn') E5]]; [by left|right]].
      * destruct (decide (cur = Some n)) as [->|Hc].
        { destruct E5 as [->|[(n' & [= <-] & Hn') _]]; [|done].
          cbn. by rewrite !decide_True by done. }
        assert (cur' <> Some n) as Hc'.
        { destruct E5 as [->|[_ E5]]; [done|]. intros Hx. by apply E5 in Hx. }
        rewrite !from_skip by done. done.
      * split; [exists n'; split; [done|by right]|]. intros n2 Hn2. right. auto.
    + intros [E|E]%list.elem_of_cons; [by apply Hp|done].
Qed.

(** ** Signals that stay well formed *)

Lemma wf_signal_mono next next' x :
  (next <= next')%positive -> wf_signal next x -> wf_signal next' x.
Proof.
  intros Hle (Hnd & Hlt & Hc). split; [done|split; [|done]].
  eapply list.Forall_impl; [exact Hlt|]. cbn. lia.
Qed.

Lemma wf_signal_nil next : wf_signal next (Signal [] None).
Proof. split; [constructor|split; [constructor|done]]. Qed.

Lemma wf_signal_push next x c :
  wf_signal next x ->
  wf_signal (Pos.succ next)
    (Signal (m_connected_slots x ++ [(next, c)]) (m_current_iterator x)).
Proof.
  intros (Hnd & Hlt & Hc). rewrite list.Forall_forall in Hlt.
  split; [|split]; cbn [m_connected_slots m_current_iterator]; rewrite ?fmap_app.
  - apply list.NoDup_app. split; [done|]. split; [|apply NoDup_singleton].
    intros n Hn Hn'%list_elem_of_singleton. apply Hlt in Hn. cbn in Hn'. lia.
  - apply Forall_app. split; [|apply list.Forall_cons; split; [cbn; lia|constructor]].
    apply list.Forall_forall. intros n Hn. specialize (Hlt n Hn). cbn in *. lia.
  - by apply iterator_app.
Qed.

Lemma wf_signal_sub next x l cur :
  wf_signal next x -> l `sublist_of` m_connected_slots x -> cur = begin_of (from cur l) ->
  wf_signal next (Signal l cur).
Proof.
  intros (Hnd & Hlt & _) Hl Hc. apply (fmap_sublist fst) in Hl.
  split; [by eapply sublist_NoDup|split; [|done]].
  cbn. rewrite list.Forall_forall in *. intros n Hn. apply Hlt. by eapply elem_of_sublist.
Qed.

Lemma wf_signal_begin next l cur :
  wf_signal next (Signal l cur) -> wf_signal next (Signal l (begin_of l)).
Proof. intros (Hnd & Hlt & _). split; [done|split; [done|]]. cbn. by rewrite from_begin. Qed.

Lemma edges_app l l' : edges (l ++ l') = edges l ++ edges l'.
Proof. apply fmap_app. Qed.

Lemma edges_filter p l :
  edges (filter (fun n : node => pdest n.2 <> p) l) = without p (edges l).
Proof.
  induction l as [|[n c] l IH]; [done|]. unfold without in *. cbn [edges fmap list_fmap fst snd].
  destruct (decide (pdest c = p)) as [Hp|Hp].
  - rewrite !filter_cons_False by (intros Hne; by apply Hne). exact IH.
  - rewrite !filter_cons_True by done. cbn. by f_equal.
Qed.

Lemma slot_disconnect_wf next p x :
  wf_signal next x ->
  exists x', slot_disconnect_loop p (m_current_iterator x) (m_connected_slots x) =
               (m_connected_slots x', m_current_iterator x') /\
    edges (m_connected_slots x') = without p (edges (m_connected_slots x)) /\
    wf_signal next x'.
Proof.
  intros Hx. pose proof Hx as (Hnd & _ & Hc).
  destruct (slot_disconnect_loop_spec p _ (m_current_iterator x) Hnd) as (E1 & _ & E3).
  destruct (slot_disconnect_loop p _ _) as [l cur]. cbn in E1, E3. exists (Signal l cur). cbn.
  split; [done|]. split; [by rewrite E1, edges_filter|].
  eapply wf_signal_sub; [done| |by apply E3]. rewrite E1. apply sublist_filter.
Qed.

(** ** Every operation implements its specification *)

Definition implements (o : op) (w w' : world) : Prop :=
  wf w' /\ abs w' = spec_perform o (abs w) /\
  dom (slots w') = spec_slots o (dom (slots w)) /\ calls w' = calls w.

Lemma lookup_abs w s : abs w !! s = (fun x => edges (m_connected_slots x)) <$> signals w !! s.
Proof. apply lookup_fmap. Qed.

Lemma abs_insert s x (m : gmap positive signal) :
  ((fun x => edges (m_connected_slots x)) <$> <[s := x]> m) =
  <[s := edges (m_connected_slots x)]> ((fun x => edges (m_connected_slots x)) <$> m).
Proof. exact (fmap_insert (fun x => edges (m_connected_slots x)) m s x). Qed.

Lemma signal_of w s l : abs w !! s = Some l ->
  exists x, signals w !! s = Some x /\ edges (m_connected_slots x) = l.
Proof.
  rewrite lookup_abs. destruct (signals w !! s); [|done]. intros [= <-]. eauto.
Qed.

Lemma abs_of w s x : signals w !! s = Some x -> abs w !! s = Some (edges (m_connected_slots x)).
Proof. rewrite lookup_abs. by intros ->. Qed.

(** The sender sets of a linked state, where one signal changes. *)
Lemma linked_insert g sl sl' s l :
  linked g sl ->
  dom sl' = dom sl ->
  (forall p m m', sl !! p = Some m -> sl' !! p = Some m' ->
     forall s', s' ∈ m' <-> (s' = s /\ p ∈ l.*1) \/ (s' <> s /\ s' ∈ m)) ->
  (forall p, p ∈ l.*1 -> is_Some (sl !! p)) ->
  linked (<[s := l]> g) sl'.
Proof.
  intros [Hg Hs] Hdom Hsl Hl. split.
  - intros s' l' p Hlk Hp. rewrite <- elem_of_dom, Hdom, elem_of_dom.
    apply lookup_insert_Some in Hlk as [[-> ->]|[Hne Hlk]]; eauto.
  - intros p m' s' Hm'.
    assert (is_Some (sl !! p)) as [m Hm] by (apply elem_of_dom; rewrite <- Hdom; by eapply elem_of_dom_2).
    rewrite (Hsl p m m' Hm Hm' s'). specialize (Hs p m s' Hm). rewrite Hs.
    destruct (decide (s' = s)) as [->|Hne].
    + rewrite lookup_insert, decide_True by done.
      split; [intros [[_ Hin]|[Hne _]]; [eauto|done]|intros (l0 & [= <-] & ?); by left].
    + rewrite lookup_insert_ne by done. split; [intros [[Heq _]|[_ Hin]]; done|by right].
Qed.

Lemma connect_implements w s p pm x m :
  wf w -> signals w !! s = Some x -> slots w !! p = Some m ->
  returns (connect w s p pm) (implements (Connect s p pm) w).
Proof.
  intros [Hl Hx] Hs Hp. unfold connect, get_signal. rewrite Hs. cbn [from_opt]. rewrite bind_ok.
  unfold do_signal_connect, get_slot. cbn [slots]. rewrite Hp. cbn [from_opt]. rewrite bind_ok.
  apply returns_ok. split; [|split; [|split; [|done]]]; cbn.
  - split.
    + unfold abs. cbn. rewrite abs_insert. cbn [m_connected_slots].
      apply linked_insert with (sl := slots w); [done| | |].
      * cbn. rewrite dom_insert_L. apply elem_of_dom_2 in Hp. set_solver.
      * intros p' m1 m' Hm1 Hm' s'. destruct Hl as [_ Hl].
        rewrite edges_app, fmap_app, list.elem_of_app. cbn [edges fmap list_fmap fst snd].
        rewrite list_elem_of_singleton. cbn in Hm'.
        pose proof (Hl p' m1 s Hm1) as Hlp. rewrite (lookup_abs w s), Hs in Hlp. cbn in Hlp.
        apply lookup_insert_Some in Hm' as [[<- <-]|[Hne Hm']].
        -- rewrite Hp in Hm1. injection Hm1 as <-. rewrite elem_of_union, elem_of_singleton.
           destruct (decide (s' = s)); tauto.
        -- assert (m' = m1) as -> by congruence. destruct (decide (s' = s)) as [->|]; [|tauto].
           rewrite Hlp. split; [intros (l & [= <-] & ?); tauto|].
           intros [[_ [Hin|Heq]]|[Hne' _]]; [eauto|by destruct Hne|done].
      * intros p'. rewrite edges_app, fmap_app, list.elem_of_app. cbn [edges fmap list_fmap fst snd].
        rewrite list_elem_of_singleton. intros [Hp'|Heq]; [|subst p'; eauto].
        destruct Hl as [Hl _]. eapply Hl; [by apply abs_of|done].
    + intros s' x'. cbn. intros [[-> <-]|[Hne Hx']]%lookup_insert_Some.
      * apply wf_signal_push; eauto.
      * eapply wf_signal_mono; [|by eapply Hx]. lia.
  - unfold abs. cbn. rewrite abs_insert. cbn. rewrite edges_app. cbn.
    symmetry. apply map_eq. intros s'. destruct (decide (s' = s)) as [->|].
    + rewrite lookup_alter, decide_True, lookup_insert, decide_True by done.
      rewrite lookup_fmap, Hs. done.
    + rewrite lookup_alter_ne, lookup_insert_ne by done. done.
  - apply elem_of_dom_2 in Hp. set_solver.
Qed.

(** A loop over connections that changes the sender sets of their objects:
    [upd] is applied to the set of each object in [ps]. *)
Definition senders_updated (upd : gset positive -> gset positive) (ps : list positive)
    (sl sl' : gmap positive (gset positive)) : Prop :=
  dom sl' = dom sl /\
  forall p m, sl !! p = Some m ->
    exists m', sl' !! p = Some m' /\ (p ∈ ps -> m' ≡ upd m) /\ (p ∉ ps -> m' = m).

Lemma senders_updated_nil upd sl : senders_updated upd [] sl sl.
Proof.
  split; [done|]. intros p m Hp. exists m. split; [done|]. split; [|done].
  by intros Hp'%elem_of_nil.
Qed.

Lemma senders_updated_cons upd p ps sl m sl' :
  (forall x, upd (upd x) ≡ upd x) ->
  (forall x y, x ≡ y -> upd x ≡ upd y) ->
  sl !! p = Some m ->
  senders_updated upd ps (<[p := upd m]> sl) sl' ->
  senders_updated upd (p :: ps) sl sl'.
Proof.
  intros Hidem Hp Hm [Hdom Hu]. split.
  { rewrite Hdom, dom_insert_L. apply elem_of_dom_2 in Hm. set_solver. }
  intros p' m' Hm'. setoid_rewrite list.elem_of_cons. destruct (decide (p' = p)) as [->|Hne].
  - assert (m' = m) as -> by congruence.
    destruct (Hu p (upd m)) as (m2 & Hm2 & Hin & Hout); [by rewrite lookup_insert, decide_True|].
    exists m2. split; [done|]. split; [intros _|intros []; by left].
    destruct (decide (p ∈ ps)) as [Hps|Hps]; [by rewrite (Hin Hps)|by rewrite (Hout Hps)].
  - destruct (Hu p' m') as (m2 & Hm2 & Hin & Hout); [by rewrite lookup_insert_ne|].
    exists m2. split; [done|]. split; [intros [|]; [done|auto]|intros Hn; apply Hout; tauto].
Qed.

Lemma disconnect_all_loop_spec s l cur w :
  signals w !! s = Some (Signal l cur) ->
  (forall p, p ∈ (edges l).*1 -> is_Some (slots w !! p)) ->
  returns (disconnect_all_loop s l w) (fun w' =>
    signals w' = <[s := Signal [] cur]> (signals w) /\
    senders_updated (fun m => m ∖ {[s]}) (edges l).*1 (slots w) (slots w') /\
    next_node w' = next_node w /\ calls w' = calls w).
Proof.
  revert w. induction l as [|[n c] l IH]; intros w Hs Hl; cbn [disconnect_all_loop].
  { apply returns_ok. split; [by rewrite insert_id|]. split; [apply senders_updated_nil|done]. }
  unfold get_signal. rewrite Hs. cbn [from_opt]. rewrite bind_ok.
  destruct (Hl (pdest c)) as [m Hm]; [left|].
  unfold do_signal_disconnect, get_slot, getdest. cbn [slots set_signal with_signals].
  rewrite Hm. cbn [from_opt]. rewrite !bind_ok.
  match goal with |- returns (disconnect_all_loop _ _ ?w1) _ => eapply returns_weaken; [apply (IH w1)|] end.
  - cbn. by rewrite lookup_insert, decide_True.
  - intros p Hp. cbn. rewrite lookup_insert_is_Some'. right. apply Hl. by right.
  - cbn. intros w' (E1 & E2 & E3). split; [by rewrite E1, insert_insert, decide_True|].
    split; [|done]. eapply senders_updated_cons; [set_solver|set_solver|done|done].
Qed.

Lemma wf_set_signal w w' s x' :
  wf w -> signals w' = <[s := x']> (signals w) -> (next_node w <= next_node w')%positive ->
  wf_signal (next_node w') x' ->
  forall s0 x0, signals w' !! s0 = Some x0 -> wf_signal (next_node w') x0.
Proof.
  intros [_ Hx] -> Hn Hx' s0 x0 [[-> <-]|[Hne Hlk]]%lookup_insert_Some; [done|].
  eapply wf_signal_mono; [done|by eapply Hx].
Qed.

Lemma wf_dests w s x p :
  wf w -> signals w !! s = Some x -> p ∈ (edges (m_connected_slots x)).*1 ->
  is_Some (slots w !! p).
Proof. intros [[Hl _] _] Hs Hp. eapply Hl; [by apply abs_of|done]. Qed.

Lemma wf_sender w s x p m :
  wf w -> signals w !! s = Some x -> slots w !! p = Some m ->
  s ∈ m <-> p ∈ (edges (m_connected_slots x)).*1.
Proof.
  intros [[_ Hl] _] Hs Hp. rewrite (Hl p m s Hp), (abs_of w s x Hs).
  split; [by intros (l & [= <-] & ?)|eauto].
Qed.

Lemma disconnect_all_implements w s x :
  wf w -> signals w !! s = Some x ->
  returns (signal_disconnect_all w s) (fun w' =>
    implements (SignalDisconnectAll s) w w' /\ signals w' = <[s := Signal [] None]> (signals w)).
Proof.
  intros Hw Hs. unfold signal_disconnect_all, get_signal. rewrite Hs. cbn [from_opt]. rewrite bind_ok.
  eapply returns_bind; [apply (disconnect_all_loop_spec s _ (m_current_iterator x))|].
  { rewrite Hs. by destruct x. }
  { intros p. by apply (wf_dests w s x). }
  intros w1 (E1 & [Hdom Hu] & E3 & E4). rewrite E1. rewrite lookup_insert, decide_True by done.
  cbn [from_opt]. rewrite bind_ok. apply returns_ok.
  assert (signals (set_signal w1 s (Signal [] None)) = <[s := Signal [] None]> (signals w)) as Hsig.
  { cbn. by rewrite E1, insert_insert, decide_True. }
  cbn [m_connected_slots]. split; [|done]. split; [split|split; [|split; [|done]]].
  - unfold abs. rewrite Hsig, abs_insert. cbn. destruct Hw as [Hl Hx].
    eapply linked_insert; [done|done| |by intros p Hp%elem_of_nil].
    intros p m m' Hm Hm' s'. destruct (Hu p m Hm) as (m2 & Hm2 & Hin & Hout).
    assert (m2 = m') as -> by congruence.
    pose proof (wf_sender w s x p m (conj Hl Hx) Hs Hm) as Hsm.
    destruct (decide (p ∈ (edges (m_connected_slots x)).*1)) as [Hp|Hp].
    + rewrite (Hin Hp), elem_of_difference, elem_of_singleton, elem_of_nil. tauto.
    + rewrite (Hout Hp), elem_of_nil. destruct (decide (s' = s)) as [->|]; tauto.
  - eapply wf_set_signal; [done|done|cbn; lia|apply wf_signal_nil].
  - unfold abs. rewrite Hsig. apply abs_insert.
  - done.
Qed.

Lemma destroy_signal_implements w s x :
  wf w -> signals w !! s = Some x ->
  returns (destroy_signal w s) (implements (DestroySignal s) w).
Proof.
  intros Hw Hs. unfold destroy_signal.
  eapply returns_bind; [by eapply disconnect_all_implements|].
  intros w1 (([Hl Hx] & E2 & E3 & E4) & Hsig). apply returns_ok.
  assert (abs w1 !! s = Some []) as Hs1 by (rewrite E2; cbn; by rewrite lookup_insert, decide_True).
  assert (abs (with_signals w1 (delete s (signals w1))) = delete s (abs w1)) as Habs.
  { unfold abs. cbn. apply fmap_delete. }
  split; [split|split; [|done]].
  - rewrite Habs. destruct Hl as [Hl1 Hl2]. split; cbn.
    + intros s' l p [Hne Hlk]%lookup_delete_Some. eauto.
    + intros p m s' Hm. rewrite (Hl2 p m s' Hm). split.
      * intros (l & Hlk & Hp). exists l. split; [|done]. apply lookup_delete_Some.
        split; [|done]. intros <-. rewrite Hs1 in Hlk. injection Hlk as <-.
        by apply elem_of_nil in Hp.
      * intros (l & [_ Hlk]%lookup_delete_Some & Hp). eauto.
  - cbn. intros s' x' [_ Hlk]%lookup_delete_Some. eauto.
  - rewrite Habs, E2. cbn. apply delete_insert_eq.
Qed.

Lemma new_signal_implements w s :
  wf w -> signals w !! s = None ->
  implements (NewSignal s) w (set_signal w s (Signal [] None)).
Proof.
  intros Hw Hs. pose proof Hw as [Hl Hx]. split; [split|split; [apply abs_insert|done]].
  - unfold abs. cbn. rewrite abs_insert. cbn. eapply linked_insert; [done|done| |].
    + intros p m m' Hm Hm' s'. assert (m' = m) as -> by congruence. rewrite elem_of_nil.
      destruct (decide (s' = s)) as [->|]; [|tauto].
      destruct Hl as [_ Hl]. rewrite (Hl p m s Hm), lookup_abs, Hs. split; [by intros (? & ? & _)|tauto].
    + by intros p Hp%elem_of_nil.
  - eapply wf_set_signal; [done|done|cbn; lia|apply wf_signal_nil].
Qed.

Lemma new_slot_implements w p :
  wf w -> slots w !! p = None -> implements (NewSlot p) w (set_slot w p ∅).
Proof.
  intros [[Hl1 Hl2] Hx] Hp. split; [split; [split|done]|split; [done|split; [|done]]]; cbn.
  - intros s l p' Hs Hp'. rewrite lookup_insert_is_Some'. right. by eapply Hl1.
  - intros p' m s [[<- <-]|[Hne Hm]]%lookup_insert_Some; [|by apply Hl2].
    split; [by intros ?%elem_of_empty|]. intros (l & Hs & Hp').
    destruct (Hl1 s l p Hs Hp') as [m Hm]. congruence.
  - by rewrite dom_insert_L.
Qed.

Lemma drop_first_out p l : p ∉ l.*1 -> drop_first p l = l.
Proof.
  induction l as [|e l IH]; [done|]. cbn. intros [Hne Hl]%not_elem_of_cons.
  rewrite decide_False by congruence. by rewrite IH.
Qed.

Lemma drop_first_sub p l : drop_first p l `sublist_of` l.
Proof.
  induction l as [|e l IH]; [done|]. cbn.
  destruct (decide (e.1 = p)); [by apply sublist_cons|by apply sublist_skip].
Qed.

Lemma drop_first_other p q l : q <> p -> q ∈ (drop_first p l).*1 <-> q ∈ l.*1.
Proof.
  intros Hq. induction l as [|e l IH]; [done|]. cbn.
  destruct (decide (e.1 = p)) as [<-|].
  - rewrite list.elem_of_cons. split; [by right|intros [|]; done].
  - cbn. by rewrite !list.elem_of_cons, IH.
Qed.

(** A connection taken out by [disconnect] is the first one to that object;
    the object forgets the signal, so it may have been connected only once. *)
Definition connected_once (w : world) (s p : positive) : Prop :=
  forall l, abs w !! s = Some l -> p ∉ (drop_first p l).*1.

Lemma disconnect_implements w s p x m :
  wf w -> signals w !! s = Some x -> slots w !! p = Some m -> connected_once w s p ->
  returns (disconnect w s p) (implements (Disconnect s p) w).
Proof.
  intros Hw Hs Hp Honce. pose proof Hw as [Hl Hx].
  pose proof (Hx s x Hs) as (Hnd & Hlt & Hc).
  pose proof (abs_of w s x Hs) as Ha. specialize (Honce _ Ha).
  unfold disconnect, get_signal. rewrite Hs. cbn [from_opt]. rewrite bind_ok.
  pose proof (disconnect_loop_spec p _ (m_current_iterator x) Hnd) as Hd.
  destruct (disconnect_loop p _ _) as [[l cur]|].
  - destruct Hd as (E1 & E2 & E3 & E4 & _).
    unfold do_signal_disconnect, get_slot. cbn [slots set_signal with_signals].
    rewrite Hp. cbn [from_opt]. rewrite bind_ok. apply returns_ok.
    split; [split|split; [|split; [|done]]].
    + unfold abs. cbn. rewrite abs_insert. eapply linked_insert; [done| | |].
      * cbn. rewrite dom_insert_L. apply elem_of_dom_2 in Hp. set_solver.
      * cbn [m_connected_slots]. intros q m1 m' Hm1 Hm' s'. cbn in Hm'.
        pose proof (wf_sender w s x q m1 Hw Hs Hm1) as Hsm. rewrite E1.
        apply lookup_insert_Some in Hm' as [[<- <-]|[Hne Hm']].
        -- assert (m1 = m) as -> by congruence.
           rewrite elem_of_difference, elem_of_singleton. tauto.
        -- assert (m' = m1) as -> by congruence. rewrite drop_first_other by done.
           destruct (decide (s' = s)) as [->|]; tauto.
      * cbn [m_connected_slots]. rewrite E1. intros q Hq. apply (wf_dests w s x q Hw Hs).
        eapply elem_of_sublist; [done|]. apply fmap_sublist, drop_first_sub.
    + eapply wf_set_signal; [done|done|cbn; lia|]. cbn.
      eapply wf_signal_sub; [by eapply Hx|done|auto].
    + unfold abs. cbn. rewrite abs_insert. cbn [m_connected_slots]. rewrite E1. symmetry.
      apply map_eq. intros s'. destruct (decide (s' = s)) as [->|].
      * rewrite lookup_alter, decide_True, lookup_insert, decide_True by done.
        rewrite lookup_fmap, Hs. done.
      * rewrite lookup_alter_ne, lookup_insert_ne by done. done.
    + cbn. rewrite dom_insert_L. apply elem_of_dom_2 in Hp. set_solver.
  - apply returns_ok. split; [done|split; [|done]]. cbn. symmetry.
    apply map_eq. intros s'. destruct (decide (s' = s)) as [->|].
    + rewrite lookup_alter, decide_True, Ha by done. cbn. by rewrite drop_first_out.
    + by rewrite lookup_alter_ne.
Qed.

Definition nodes_ok (w : world) : Prop :=
  forall s x, signals w !! s = Some x -> wf_signal (next_node w) x.

Lemma nodes_push w s x c sl :
  nodes_ok w -> signals w !! s = Some x ->
  nodes_ok (World (<[s := Signal (m_connected_slots x ++ [(next_node w, c)])
                                 (m_current_iterator x)]> (signals w))
                  sl (Pos.succ (next_node w)) (calls w)).
Proof.
  intros Hx Hs s0 x0 Hlk. cbn in Hlk. apply lookup_insert_Some in Hlk as [[-> <-]|[Hne Hlk]].
  - by apply wf_signal_push, (Hx s0).
  - eapply wf_signal_mono; [|by eapply Hx]. cbn. lia.
Qed.

Lemma copy_loop_spec s l w x :
  nodes_ok w -> signals w !! s = Some x ->
  (forall p, p ∈ (edges l).*1 -> is_Some (slots w !! p)) ->
  returns (copy_loop s l w) (fun w' =>
    nodes_ok w' /\ abs w' = <[s := edges (m_connected_slots x) ++ edges l]> (abs w) /\
    senders_updated (fun m => {[s]} ∪ m) (edges l).*1 (slots w) (slots w') /\
    calls w' = calls w).
Proof.
  revert w x. induction l as [|[n c] l IH]; intros w x Hn Hs Hl; cbn [copy_loop].
  { apply returns_ok. split; [done|]. split; [|split; [apply senders_updated_nil|done]].
    rewrite app_nil_r. rewrite insert_id; [done|]. by apply abs_of. }
  destruct (Hl (pdest c)) as [m Hm]; [left|].
  unfold do_signal_connect, get_slot, getdest, get_signal. rewrite Hm. cbn [from_opt]. rewrite !bind_ok.
  cbn [signals set_slot with_slots]. rewrite Hs. cbn [from_opt]. rewrite bind_ok.
  cbn [next_node set_slot with_slots slots calls].
  eapply returns_weaken; [eapply IH|].
  - by apply nodes_push.
  - cbn. by rewrite lookup_insert, decide_True.
  - intros p Hp. cbn. rewrite lookup_insert_is_Some'. right. apply Hl. by right.
  - cbn [m_connected_slots slots calls]. intros w' (E1 & E2 & E3 & E4). split; [done|].
    split; [|split; [|done]].
    + rewrite E2. unfold abs at 1. cbn [signals]. rewrite abs_insert, insert_insert, decide_True by done.
      cbn [m_connected_slots]. rewrite edges_app, <- app_assoc. done.
    + eapply senders_updated_cons; [set_solver|set_solver|done|done].
Qed.

Lemma copy_signal_implements w o s x :
  wf w -> signals w !! o = Some x -> signals w !! s = None ->
  returns (copy_signal w o s) (implements (CopySignal o s) w).
Proof.
  intros Hw Ho Hs. destruct (new_signal_implements w s Hw Hs) as ([Hl1 Hx1] & E2 & E3 & E4).
  unfold copy_signal, get_signal. rewrite Ho. cbn [from_opt]. rewrite bind_ok.
  eapply returns_weaken; [eapply copy_loop_spec|].
  - exact Hx1.
  - cbn. by rewrite lookup_insert, decide_True.
  - intros p. by apply (wf_dests w o x).
  - cbn [m_connected_slots edges fmap list_fmap app].
    intros w' (Hx & Ha & [Hdom Hu] & Hc). rewrite E2 in Ha. cbn in Ha.
    rewrite insert_insert, decide_True in Ha by done. destruct Hw as [Hl0 Hx0].
    split; [split; [|done]|split; [|split; [by rewrite Hdom|by rewrite Hc]]].
    + rewrite Ha. eapply linked_insert; [done|done| |].
      * intros p m m' Hm Hm' s'. destruct (Hu p m Hm) as (m2 & Hm2 & Hin & Hout).
        assert (m2 = m') as -> by congruence.
        assert (s ∉ m) as Hsm.
        { destruct Hl0 as [_ Hl0]. rewrite (Hl0 p m s Hm), lookup_abs, Hs. by intros (? & ? & _). }
        destruct (decide (p ∈ (edges (m_connected_slots x)).*1)) as [Hp|Hp].
        -- rewrite (Hin Hp), elem_of_union, elem_of_singleton. destruct (decide (s' = s)); tauto.
        -- rewrite (Hout Hp). destruct (decide (s' = s)) as [->|]; tauto.
      * intros p. by apply (wf_dests w o x).
    + rewrite Ha. cbn. by rewrite (abs_of w o x Ho).
Qed.

(** ** The operations of the slot

    Whatever the order of the addresses, a set is walked over its members. *)
Context (senders_perm : forall X, senders_of X ≡ₚ elements X).

Lemma slot_disconnect_each_spec p l0 w :
  nodes_ok w -> (forall s, s ∈ l0 -> is_Some (signals w !! s)) ->
  returns (slot_disconnect_each p l0 w) (fun w' =>
    nodes_ok w' /\ slots w' = slots w /\ calls w' = calls w /\
    forall s, abs w' !! s = (if decide (s ∈ l0) then without p else id) <$> abs w !! s).
Proof.
  revert w. induction l0 as [|s0 l0 IH]; intros w Hn Hl; cbn [slot_disconnect_each].
  { apply returns_ok. repeat (split; [done|]). intros s.
    rewrite decide_False by apply not_elem_of_nil. by rewrite option_fmap_id. }
  destruct (Hl s0) as [x Hx]; [left|].
  unfold do_slot_disconnect, get_signal. rewrite Hx. cbn [from_opt]. rewrite bind_ok.
  destruct (slot_disconnect_wf (next_node w) p x (Hn s0 x Hx)) as (x' & -> & He & Hx').
  rewrite bind_ok.
  eapply returns_weaken; [apply IH|].
  - intros s1 x1 Hlk. cbn in Hlk. apply lookup_insert_Some in Hlk as [[-> <-]|[Hne Hlk]].
    + by destruct x'.
    + by eapply Hn.
  - intros s Hs. cbn. rewrite lookup_insert_is_Some'. right. apply Hl. by right.
  - intros w' (E1 & E2 & E3 & E4). repeat (split; [done|]). intros s. rewrite E4.
    unfold abs at 1. cbn. rewrite abs_insert. cbn [m_connected_slots]. rewrite He.
    destruct (decide (s = s0)) as [->|Hne].
    + rewrite lookup_insert_eq, (abs_of w s0 x Hx).
      rewrite (decide_True (P := s0 ∈ s0 :: l0)) by left. cbn. f_equal.
      destruct (decide (s0 ∈ l0)); [|done]. unfold without. apply list_filter_filter_l. done.
    + rewrite lookup_insert_ne by done. f_equal.
      destruct (decide (s ∈ l0)) as [Hs|Hs]; [rewrite decide_True by (by right)|rewrite decide_False]; [done|done|].
      intros [|]%list.elem_of_cons; done.
Qed.

Lemma without_out p l : p ∉ l.*1 -> without p l = l.
Proof.
  unfold without. induction l as [|e l IH]; [done|].
  rewrite fmap_cons. intros [Hne Hl]%not_elem_of_cons.
  rewrite filter_cons_True by congruence. by rewrite IH.
Qed.

Lemma without_in p q l : q ∈ (without p l).*1 <-> q ∈ l.*1 /\ q <> p.
Proof.
  unfold without. rewrite !list_elem_of_fmap. setoid_rewrite list_elem_of_filter.
  split; [intros (e & -> & Hp & He)|intros [(e & -> & He) Hp]]; eauto.
Qed.

Lemma get_slot_some w p m : slots w !! p = Some m -> get_slot w p = Ok m.
Proof. unfold get_slot. by intros ->. Qed.

(** All the signals lose their connections to [p], and only those in its
    sender set had any. *)
Lemma slot_disconnect_all_implements w p m :
  wf w -> slots w !! p = Some m ->
  returns (do_disconnect_all w p) (fun w' =>
    implements (SlotDisconnectAll p) w w' /\ slots w' !! p = Some ∅).
Proof.
  intros Hw Hp. pose proof Hw as [[Hl1 Hl2] Hx].
  unfold do_disconnect_all. cbn [do_disconnect_all_loop].
  rewrite (get_slot_some w p m Hp), bind_ok.
  assert (forall s, s ∉ m -> without p <$> abs w !! s = abs w !! s) as Hout.
  { intros s Hs. destruct (abs w !! s) as [l|] eqn:Hlk; cbn; [|done]. f_equal.
    apply without_out. intros Hin. apply Hs, (Hl2 p m s Hp). eauto. }
  destruct (decide (m = ∅)) as [->|Hm].
  - apply returns_ok. split; [|done]. split; [done|split; [|done]]. cbn. symmetry.
    apply map_eq. intros s. rewrite lookup_fmap. apply Hout. set_solver.
  - eapply returns_bind; [apply slot_disconnect_each_spec|].
    + exact Hx.
    + intros s. rewrite senders_perm, elem_of_elements, (Hl2 p m s Hp). cbn.
      intros (l & Hlk & _). apply signal_of in Hlk as (x & -> & _). eauto.
    + intros w1 (Hn & E2 & E3 & E4). unfold get_slot. rewrite E2. cbn.
      rewrite lookup_insert, !decide_True by done. cbn. apply returns_ok.
      assert (abs w1 = without p <$> abs w) as Habs.
      { apply map_eq. intros s. rewrite E4, lookup_fmap. cbn.
        change (abs (set_slot w p ∅)) with (abs w).
        destruct (decide (s ∈ senders_of m)) as [|Hs]; [done|].
        rewrite option_fmap_id, Hout; [done|]. by rewrite senders_perm, elem_of_elements in Hs. }
      split; [|by rewrite E2; cbn; rewrite lookup_insert, decide_True].
      split; [split; [split|done]|split; [done|split; [|done]]].
      * intros s l q. rewrite Habs, lookup_fmap, fmap_Some. intros (l0 & Hlk & ->).
        rewrite without_in. intros [Hq _]. rewrite E2. cbn. rewrite lookup_insert_is_Some'. right. eauto.
      * intros q mq s. rewrite E2, Habs, lookup_fmap. cbn.
        setoid_rewrite fmap_Some.
        intros [[<- <-]|[Hne Hq]]%lookup_insert_Some.
        -- rewrite elem_of_empty. split; [done|]. intros (l & (l0 & _ & ->) & Hq).
           by apply without_in in Hq as [_ Hq].
        -- rewrite (Hl2 q mq s Hq). split.
           ++ intros (l & Hlk & Hq'). exists (without p l). split; [eauto|]. by apply without_in.
           ++ intros (l & (l0 & Hlk & ->) & [Hq' _]%without_in). eauto.
      * rewrite E2. cbn. rewrite dom_insert_L. apply elem_of_dom_2 in Hp. set_solver.
Qed.

Lemma destroy_slot_implements w p m :
  wf w -> slots w !! p = Some m ->
  returns (destroy_slot w p) (implements (DestroySlot p) w).
Proof.
  intros Hw Hp. unfold destroy_slot.
  eapply returns_bind; [by eapply slot_disconnect_all_implements|].
  intros w1 (([[Hl1 Hl2] Hx] & E2 & E3 & E4) & Hs). apply returns_ok.
  split; [split; [split|done]|split; [done|split; [|done]]].
  - intros s l q Hlk Hq. cbn. destruct (decide (q = p)) as [->|Hne].
    + exfalso. change (abs w1 !! s = Some l) in Hlk. rewrite E2 in Hlk. cbn in Hlk.
      rewrite lookup_fmap, fmap_Some in Hlk. destruct Hlk as (l0 & _ & ->).
      by apply without_in in Hq as [_ Hq].
    + rewrite lookup_delete_ne by done. by eapply Hl1.
  - intros q mq s Hq. cbn in Hq. apply lookup_delete_Some in Hq as [Hne Hq]. by apply Hl2.
  - cbn in *. rewrite dom_delete_L, E3. done.
Qed.

(** [do_slot_duplicate] meets the connections it has appended, which lead to
    another object, and stops behind them. *)
Lemma duplicate_walk fuel o p l1 l2 next :
  (forall q, q ∈ (edges l2).*1 -> q <> o) -> (length l2 < fuel)%nat ->
  slot_duplicate_loop fuel o p (length l1) (l1 ++ l2) next = Ok (l1 ++ l2, next).
Proof.
  revert l1 fuel. induction l2 as [|[n c] l2 IH]; intros l1 [|fuel] Hl Hf; cbn in Hf; try lia;
    cbn [slot_duplicate_loop].
  - by rewrite lookup_ge_None_2 by (rewrite length_app; cbn; lia).
  - rewrite list_lookup_middle by done. rewrite decide_False by (apply Hl; left).
    specialize (IH (l1 ++ [(n, c)]) fuel). rewrite length_app, <- app_assoc in IH. cbn in IH.
    rewrite Nat.add_1_r in IH. apply IH; [|lia]. intros q Hq. apply Hl. by right.
Qed.

Definition copies (o p : positive) (l : list (positive * M)) : list (positive * M) :=
  (fun e => (p, e.2)) <$> filter (fun e => e.1 = o) l.

Lemma duplicate_loop_spec fuel o p l1 l2 l3 next cur :
  o <> p -> (forall q, q ∈ (edges l3).*1 -> q <> o) ->
  (length l2 + length l2 + length l3 < fuel)%nat ->
  wf_signal next (Signal (l1 ++ l2 ++ l3) cur) ->
  returns (slot_duplicate_loop fuel o p (length l1) (l1 ++ l2 ++ l3) next) (fun r =>
    edges (fst r) = edges (l1 ++ l2 ++ l3) ++ copies o p (edges l2) /\
    (next <= snd r)%positive /\ wf_signal (snd r) (Signal (fst r) cur)).
Proof.
  intros Hop. revert l1 l3 fuel next.
  induction l2 as [|[n c] l2 IH]; intros l1 l3 fuel next Hl Hf Hwf.
  { cbn in *. rewrite duplicate_walk by done. apply returns_ok. cbn. rewrite app_nil_r.
    split; [done|]. split; [lia|done]. }
  destruct fuel as [|fuel]; cbn in Hf; [lia|]. cbn [slot_duplicate_loop app].
  rewrite list_lookup_middle by done.
  pose proof (IH (l1 ++ [(n, c)])) as IH'. rewrite length_app in IH'. cbn [length] in IH'.
  rewrite Nat.add_1_r in IH'. change (edges ((n, c) :: l2)) with ((pdest c, pmethod c) :: edges l2).
  unfold copies in *.
  destruct (decide (pdest c = o)) as [Hc|Hc].
  - specialize (IH' (l3 ++ [(next, duplicate c p)]) fuel (Pos.succ next)).
    rewrite filter_cons_True by done. rewrite <- !app_assoc in *. cbn [app] in *.
    rewrite <- !app_assoc in *.
    eapply returns_weaken; [apply IH'|].
    + intros q. rewrite edges_app, fmap_app, list.elem_of_app. cbn.
      rewrite list_elem_of_singleton. intros [Hq|Hq]; [auto|congruence].
    + rewrite length_app. cbn. lia.
    + apply wf_signal_push with (c := duplicate c p) in Hwf. cbn in Hwf.
      rewrite <- app_assoc in Hwf. cbn in Hwf. by rewrite <- app_assoc in Hwf.
    + cbn. intros r (E1 & E2 & E3). split; [|split; [lia|done]].
      rewrite E1. rewrite !edges_app. cbn. rewrite !edges_app. cbn. rewrite <- !app_assoc. cbn.
      by rewrite <- !app_assoc.
  - rewrite filter_cons_False by done. specialize (IH' l3 fuel next).
    rewrite <- !app_assoc in IH'. apply IH'; [done|lia|done].
Qed.

Lemma slot_duplicate_each_spec o p l0 w m :
  o <> p -> nodes_ok w -> NoDup l0 -> (forall s, s ∈ l0 -> is_Some (signals w !! s)) ->
  slots w !! p = Some m ->
  returns (slot_duplicate_each o p l0 w) (fun w' =>
    nodes_ok w' /\ calls w' = calls w /\
    (exists m', slots w' = <[p := m']> (slots w) /\ forall s, s ∈ m' <-> s ∈ l0 \/ s ∈ m) /\
    forall s, abs w' !! s =
      (fun l => if decide (s ∈ l0) then l ++ copies o p l else l) <$> abs w !! s).
Proof.
  intros Hop. revert w m. induction l0 as [|s0 l0 IH]; intros w m Hn Hnd Hl Hp;
    cbn [slot_duplicate_each].
  { apply returns_ok. repeat (split; [done|]). split.
    - exists m. split; [by rewrite insert_id|]. intros s. rewrite elem_of_nil. tauto.
    - intros s. by destruct (abs w !! s). }
  apply list.NoDup_cons in Hnd as [Hs0 Hnd].
  destruct (Hl s0) as [x Hx]; [left|].
  unfold do_slot_duplicate, get_signal. rewrite Hx. cbn [from_opt]. rewrite bind_ok.
  pose proof (duplicate_loop_spec
    (S (length (m_connected_slots x) + length (m_connected_slots x))) o p []
    (m_connected_slots x) [] (next_node w) (m_current_iterator x) Hop) as Hd.
  cbn [app length] in Hd. rewrite app_nil_r in Hd.
  destruct Hd as ([l' next'] & -> & E1 & E2 & E3);
    [by intros q Hq%elem_of_nil|lia|specialize (Hn s0 x Hx); by destruct x|].
  cbn [fst snd] in *.
  rewrite bind_ok. cbn beta iota. rewrite bind_ok. unfold do_signal_connect.
  rewrite (get_slot_some _ p m) by done. rewrite !bind_ok.
  eapply returns_weaken; [eapply (IH _ ({[s0]} ∪ m))|].
  - intros s1 x1 Hlk. cbn in Hlk. apply lookup_insert_Some in Hlk as [[-> <-]|[Hne Hlk]]; [done|].
    eapply wf_signal_mono; [|by eapply Hn]. done.
  - done.
  - intros s Hs. cbn. rewrite lookup_insert_is_Some'. right. apply Hl. by right.
  - cbn. by rewrite lookup_insert_eq.
  - intros w' (F1 & F2 & (m' & F3 & F4) & F5). cbn in F2, F3.
    split; [done|split; [done|split]].
    + exists m'. split; [by rewrite F3, insert_insert_eq|]. intros s. rewrite F4.
      rewrite list.elem_of_cons, elem_of_union, elem_of_singleton. tauto.
    + intros s. rewrite F5. unfold abs at 1. cbn. rewrite abs_insert. cbn [m_connected_slots].
      destruct (decide (s = s0)) as [->|Hne].
      * rewrite lookup_insert_eq, (abs_of w s0 x Hx). cbn. f_equal.
        rewrite decide_False by done. rewrite decide_True by left. done.
      * rewrite lookup_insert_ne by done. destruct (abs w !! s) as [l|] eqn:Hlk.
        -- change (((fun x => edges (m_connected_slots x)) <$> signals w) !! s) with (abs w !! s).
           rewrite Hlk. cbn. f_equal.
           destruct (decide (s ∈ l0)); [rewrite decide_True by (by right); done|].
           rewrite decide_False; [done|]. by intros [|]%list.elem_of_cons.
        -- change (((fun x => edges (m_connected_slots x)) <$> signals w) !! s) with (abs w !! s).
           by rewrite Hlk.
Qed.

Lemma copies_nil o p l : o ∉ l.*1 -> copies o p l = [].
Proof.
  unfold copies. induction l as [|e l IH]; [done|].
  rewrite fmap_cons. intros [Hne Hl]%not_elem_of_cons.
  rewrite filter_cons_False by congruence. auto.
Qed.

Lemma copies_in o p q l : q ∈ (copies o p l).*1 <-> q = p /\ o ∈ l.*1.
Proof.
  unfold copies. split.
  - rewrite list_elem_of_fmap. intros (e & -> & He). rewrite list_elem_of_fmap in He.
    destruct He as (e' & -> & [<- He']%list_elem_of_filter). split; [done|].
    by apply list_elem_of_fmap_2.
  - intros [-> Ho]. rewrite list_elem_of_fmap in Ho. destruct Ho as (e & -> & He).
    rewrite list_elem_of_fmap. exists (p, e.2). split; [done|].
    apply list_elem_of_fmap. exists e. split; [done|]. by apply list_elem_of_filter.
Qed.

Lemma copy_slot_implements w o p m :
  wf w -> slots w !! o = Some m -> slots w !! p = None ->
  returns (copy_slot w o p) (implements (CopySlot o p) w).
Proof.
  intros Hw Ho Hp. pose proof Hw as [[Hl1 Hl2] Hx].
  assert (o <> p) as Hop by congruence.
  unfold copy_slot. rewrite (get_slot_some w o m Ho), bind_ok.
  eapply returns_weaken; [eapply (slot_duplicate_each_spec o p _ _ ∅ Hop)|].
  - exact Hx.
  - rewrite senders_perm. apply NoDup_elements.
  - intros s. rewrite senders_perm, elem_of_elements, (Hl2 o m s Ho). cbn.
    intros (l & Hlk & _). apply signal_of in Hlk as (x & -> & _). eauto.
  - cbn. by rewrite lookup_insert_eq.
  - intros w' (E1 & E2 & (m' & E3 & E4) & E5). cbn in E3. rewrite insert_insert_eq in E3.
    assert (abs w' = spec_perform (CopySlot o p) (abs w)) as Habs.
    { apply map_eq. intros s. rewrite E5. cbn [spec_perform]. rewrite lookup_fmap.
      change (abs (set_slot w p ∅)) with (abs w).
      destruct (abs w !! s) as [l|] eqn:Hlk; [|done]. cbn. f_equal.
      destruct (decide (s ∈ senders_of m)) as [|Hs]; [done|].
      change (l = l ++ copies o p l). rewrite copies_nil, app_nil_r; [done|].
      intros Hin. apply Hs. rewrite senders_perm, elem_of_elements, (Hl2 o m s Ho). eauto. }
    split; [split; [split|done]|split; [done|split; [|done]]].
    + intros s l q. rewrite Habs. cbn. rewrite lookup_fmap, fmap_Some.
      intros (l0 & Hlk & ->). rewrite fmap_app, list.elem_of_app, E3, lookup_insert_is_Some'.
      intros [Hq|Hq]; [right; eauto|]. apply (copies_in o p) in Hq as [-> _]. by left.
    + intros q mq s. rewrite E3, Habs. cbn. rewrite lookup_fmap. setoid_rewrite fmap_Some.
      intros Hq. apply lookup_insert_Some in Hq as [[<- <-]|[Hne Hq]].
      * rewrite E4, elem_of_empty, senders_perm, elem_of_elements, (Hl2 o m s Ho). split.
        -- intros [(l & Hlk & Hol)|[]]. eexists. split; [by exists l|].
           rewrite fmap_app, list.elem_of_app. right. by apply (copies_in o p).
        -- intros (l & (l0 & Hlk & ->) & Hq). left. exists l0. split; [done|].
           rewrite fmap_app, list.elem_of_app in Hq. destruct Hq as [Hq|Hq].
           ++ destruct (Hl1 s l0 p Hlk Hq) as [? ?]. congruence.
           ++ by apply (copies_in o p) in Hq as [_ Hq].
      * rewrite (Hl2 q mq s Hq). split.
        -- intros (l & Hlk & Hql). eexists. split; [by exists l|].
           rewrite fmap_app, list.elem_of_app. by left.
        -- intros (l & (l0 & Hlk & ->) & Hql). exists l0. split; [done|].
           rewrite fmap_app, list.elem_of_app in Hql. destruct Hql as [|Hql]; [done|].
           by apply (copies_in o p) in Hql as [-> _].
    + rewrite E3, dom_insert_L. done.
Qed.

(** ** Programs *)

Definition may_perform (w : world) (o : op) : Prop :=
  match o with Disconnect s p => connected_once w s p | _ => True end.

Lemma has_signal_true w s : has_signal w s = true -> exists x, signals w !! s = Some x.
Proof. unfold has_signal. rewrite bool_decide_eq_true. intros [x Hx]. eauto. Qed.

Lemma has_signal_false w s : negb (has_signal w s) = true -> signals w !! s = None.
Proof.
  unfold has_signal. rewrite negb_true_iff, bool_decide_eq_false. apply eq_None_not_Some.
Qed.

Lemma has_slot_true w p : has_slot w p = true -> exists m, slots w !! p = Some m.
Proof. unfold has_slot. rewrite bool_decide_eq_true. intros [x Hx]. eauto. Qed.

Lemma has_slot_false w p : negb (has_slot w p) = true -> slots w !! p = None.
Proof. unfold has_slot. rewrite negb_true_iff, bool_decide_eq_false. apply eq_None_not_Some. Qed.

(** Each operation that a program may make does what the specification says. *)
Lemma perform_implements w o :
  wf w -> possible w o = true -> may_perform w o ->
  returns (perform w o) (implements o w).
Proof.
  intros Hw Hp Hm. destruct o; cbn in Hp, Hm |- *; rewrite ?andb_true_iff in Hp;
    try match goal with H : _ /\ _ |- _ => destruct H as [Hp Hp'] end;
    repeat match goal with
    | H : has_signal _ _ = true |- _ => apply has_signal_true in H as (? & H)
    | H : negb (has_signal _ _) = true |- _ => apply has_signal_false in H
    | H : has_slot _ _ = true |- _ => apply has_slot_true in H as (? & H)
    | H : negb (has_slot _ _) = true |- _ => apply has_slot_false in H
    end.
  - apply returns_ok. by apply new_signal_implements.
  - apply returns_ok. by apply new_slot_implements.
  - by eapply copy_signal_implements.
  - by eapply copy_slot_implements.
  - by eapply connect_implements.
  - by eapply disconnect_implements.
  - eapply returns_weaken; [by eapply disconnect_all_implements|]. by intros w' [Hi _].
  - eapply returns_weaken; [by eapply slot_disconnect_all_implements|]. by intros w' [Hi _].
  - apply returns_ok. split; [done|split; [done|split; done]].
  - by eapply destroy_signal_implements.
  - by eapply destroy_slot_implements.
Qed.

(** What an emission has still to visit, and what it does to it. *)
Definition pending (x : signal) : list (positive * M) :=
  edges (from (m_current_iterator x) (m_connected_slots x)).

Lemma from_node_next n c l r :
  NoDup l.*1 -> from_node n l = (n, c) :: r -> from (begin_of r) l = r.
Proof.
  induction l as [|[n' c'] l IH]; cbn; [done|]. intros [Hn Hnd]%list.NoDup_cons.
  destruct (decide (n' = n)) as [->|Hne].
  - intros [= <- <-]. destruct l as [|[n2 c2] l]; [done|]. cbn in Hn |- *.
    rewrite decide_False by (intros ->; apply Hn; left). by rewrite decide_True.
  - intros Hl. specialize (IH Hnd Hl). destruct r as [|[n2 c2] r]; [done|]. cbn in IH |- *.
    rewrite decide_False; [done|]. intros ->. apply Hn. apply from_node_in. by rewrite IH.
Qed.

Lemma wf_view w w' :
  wf w -> abs w' = abs w -> slots w' = slots w -> nodes_ok w' -> wf w'.
Proof. intros [Hl _] Ha Hs Hn. split; [by rewrite Ha, Hs|done]. Qed.

Lemma abs_cursor w s x l cur :
  signals w !! s = Some x -> l = m_connected_slots x ->
  abs (set_signal w s (Signal l cur)) = abs w.
Proof.
  intros Hs ->. unfold abs. cbn. rewrite abs_insert. cbn [m_connected_slots].
  apply insert_id. by apply abs_of.
Qed.

Lemma nodes_set w s x : nodes_ok w -> wf_signal (next_node w) x -> nodes_ok (set_signal w s x).
Proof.
  intros Hn Hx s0 x0 Hlk. cbn in Hlk.
  apply lookup_insert_Some in Hlk as [[_ <-]|[_ Hlk]]; [done|by eapply Hn].
Qed.

Lemma begin_emit_spec w s x :
  wf w -> signals w !! s = Some x ->
  let x' := Signal (m_connected_slots x) (begin_of (m_connected_slots x)) in
  begin_emit w s = Ok (set_signal w s x') /\ wf (set_signal w s x') /\
  pending x' = edges (m_connected_slots x).
Proof.
  intros Hw Hs x'. unfold begin_emit, get_signal. rewrite Hs. split; [done|]. split.
  - eapply wf_view; [done|by eapply abs_cursor|done|].
    apply nodes_set; [exact (proj2 Hw)|]. apply (wf_signal_begin _ _ (m_current_iterator x)). destruct Hw as [_ Hx].
    specialize (Hx s x Hs). by destruct x.
  - unfold pending, x'. cbn [m_connected_slots m_current_iterator]. by rewrite from_begin.
Qed.

(** A round calls the next pending connection; its object is alive. *)
Lemma emit_round_spec w s x args :
  wf w -> signals w !! s = Some x ->
  match pending x with
  | [] => emit_round w s args = Ok None
  | (p, pm) :: r =>
      exists x', m_connected_slots x' = m_connected_slots x /\ pending x' = r /\
        emit_round w s args =
          Ok (Some (body p pm args, log_call (set_signal w s x') p pm args)) /\
        wf (log_call (set_signal w s x') p pm args)
  end.
Proof.
  intros Hw Hs. pose proof Hw as [_ Hx]. destruct (Hx s x Hs) as (Hnd & Hlt & Hc).
  unfold emit_round, get_signal. rewrite Hs. cbn [from_opt]. rewrite bind_ok.
  unfold pending. destruct (m_current_iterator x) as [it|] eqn:Eit; [|done].
  cbn [from]. destruct (from_node it (m_connected_slots x)) as [|[n c] r] eqn:Ef.
  { cbn [from] in Hc. rewrite Ef in Hc. discriminate Hc. }
  cbn [from] in Hc. rewrite Ef in Hc. injection Hc as <-. cbn [edges fmap list_fmap fst snd].
  rewrite (deref_from _ _ _ _ Ef). cbn [from_opt]. rewrite bind_ok. cbn beta iota.
  destruct (wf_dests w s x (pdest c) Hw Hs) as [m Hm].
  { assert (c ∈ (m_connected_slots x).*2) as Hin.
    { clear -Ef. induction (m_connected_slots x) as [|[n' c'] l IH]; cbn in *; [done|].
      destruct (decide (n' = it)) as [->|]; [injection Ef as <- <-; left|right; auto]. }
    clear -Hin. unfold edges. rewrite <- list_fmap_compose.
    rewrite list_elem_of_fmap in Hin. destruct Hin as (y & -> & Hy).
    apply list_elem_of_fmap. exists y. split; [done|done]. }
  rewrite (get_slot_some _ _ m) by done. rewrite bind_ok.
  exists (Signal (m_connected_slots x) (begin_of r)).
  split; [done|]. split; [|split; [done|]].
  - cbn [m_connected_slots m_current_iterator]. by rewrite (from_node_next _ _ _ _ Hnd Ef).
  - change (wf (set_signal w s (Signal (m_connected_slots x) (begin_of r)))).
    eapply wf_view; [done|by eapply abs_cursor|done|]. apply nodes_set; [exact (proj2 Hw)|].
    split; [done|split; [done|]]. cbn [m_connected_slots m_current_iterator].
    by rewrite (from_node_next _ _ _ _ Hnd Ef).
Qed.

(** The stacks of programs whose methods neither destroy a signal nor call
    [disconnect]: a signal is destroyed only when none is firing. *)
Fixpoint ordered (todo : list task) : Prop :=
  match todo with
  | [] => True
  | Do (DestroySignal _) :: r =>
      Forall (fun t => match t with Firing _ _ => False | Do _ => True end) r /\ ordered r
  | Do (Disconnect _ _) :: _ => False
  | _ :: r => ordered r
  end.

Definition gentle (o : op) : bool :=
  match o with DestroySignal _ | Disconnect _ _ => false | _ => true end.

Definition firing_alive (todo : list task) (w : world) : Prop :=
  forall s args, Firing s args ∈ todo -> is_Some (signals w !! s).

Lemma ordered_app ops r :
  Forall (fun o => gentle o = true) ops -> ordered r -> ordered ((Do <$> ops) ++ r).
Proof.
  intros Hops Hr. induction Hops as [|o ops Ho _ IH]; [done|]. by destruct o.
Qed.

Lemma alive_abs w s : is_Some (signals w !! s) <-> s ∈ dom (abs w).
Proof. unfold abs. by rewrite dom_fmap_L, elem_of_dom. Qed.

Lemma spec_keeps o g s :
  s ∈ dom g -> (forall s', o <> DestroySignal s') -> s ∈ dom (spec_perform o g).
Proof.
  intros Hs Ho. destruct o; cbn; rewrite ?dom_insert_L, ?dom_fmap_L, ?dom_alter_L; try set_solver.
Qed.

Lemma ordered_tail t r : ordered (t :: r) -> ordered r.
Proof. destruct t as [[]|]; cbn; tauto. Qed.

Lemma step_safe todo w :
  (forall p pm args, Forall (fun o => gentle o = true) (body p pm args)) ->
  wf w -> ordered todo -> firing_alive todo w ->
  returns (step todo w) (fun r => wf (snd r) /\ ordered (fst r) /\ firing_alive (fst r) (snd r)).
Proof.
  intros Hb Hw Ho Ha. destruct todo as [|[o|s args] r]; cbn [step].
  - by apply returns_ok.
  - pose proof (ordered_tail _ _ Ho) as Hr.
    destruct (possible w o) eqn:Hp.
    2: { apply returns_ok. split; [done|split; [done|]]. intros s args Hin. apply (Ha s args). by right. }
    assert (match o with Emit _ _ => False | _ => True end ->
      returns (w ← perform w o; Ok (r, w))
        (fun r => wf (snd r) /\ ordered (fst r) /\ firing_alive (fst r) (snd r))) as Hperf.
    { intros Hne. eapply returns_bind; [apply (perform_implements w o Hw Hp)|].
      { by destruct o. }
      intros w' (Hw' & Habs & _ & _). apply returns_ok. split; [done|split; [done|]].
      intros s args Hin. cbn in Hin |- *. apply alive_abs. rewrite Habs. apply spec_keeps.
      - apply alive_abs. apply (Ha s args). by right.
      - intros s' ->. cbn in Ho. destruct Ho as [Ho _]. rewrite list.Forall_forall in Ho.
        by apply (Ho _ Hin). }
    destruct o; try (by apply Hperf).
    cbn in Hp. apply has_signal_true in Hp as (x & Hs).
    destruct (begin_emit_spec w s x Hw Hs) as (-> & Hw' & _). rewrite bind_ok.
    apply returns_ok. split; [done|split; [done|]]. intros s' args' Hin. cbn in Hin |- *.
    rewrite lookup_insert_is_Some'. apply list.elem_of_cons in Hin as [[= -> ->]|Hin]; [by left|].
    right. apply (Ha s' args'). by right.
  - destruct (Ha s args) as [x Hs]; [left|].
    pose proof (emit_round_spec w s x args Hw Hs) as He.
    destruct (pending x) as [|[p pm] q].
    + rewrite He, bind_ok. apply returns_ok. split; [done|split; [done|]].
      intros s' args' Hin. apply (Ha s' args'). by right.
    + destruct He as (x' & _ & _ & -> & Hw'). rewrite bind_ok. apply returns_ok.
      split; [done|]. split; [by apply ordered_app|].
      intros s' args' Hin. cbn in Hin |- *. rewrite lookup_insert_is_Some'. right.
      apply list.elem_of_app in Hin as [(o & ? & _)%list_elem_of_fmap|Hin]; [done|]. by apply (Ha s' args').
Qed.

Lemma exec_step fuel todo w todo' w' :
  step todo w = Ok (todo', w') -> todo <> [] -> exec (S fuel) todo w = exec fuel todo' w'.
Proof. intros Hs Hne. destruct todo; [done|]. cbn [exec]. by rewrite Hs, bind_ok. Qed.

(** ** Emission among methods that leave

    The order of the calls, when a method may disconnect or destroy objects,
    its own among them, and make, connect, empty and destroy other signals. *)
Definition leaver (o : op) : option positive :=
  match o with SlotDisconnectAll p | DestroySlot p => Some p | _ => None end.

Definition leavers (ops : list op) : list positive := omap leaver ops.

(** An operation on something else than [s]. *)
Definition bystander (s : positive) (o : op) : bool :=
  match o with
  | NewSignal _ | NewSlot _ | CopySignal _ _ => true
  | Connect s' _ _ | SignalDisconnectAll s' | DestroySignal s' => bool_decide (s' <> s)
  | _ => false
  end.

Definition orderly (s : positive) (o : op) : Prop := is_Some (leaver o) \/ bystander s o = true.

Fixpoint spec_emit (gone : list positive) (l : list (positive * M)) (args : A) :
    list (positive * M * A) :=
  match l with
  | [] => []
  | (p, pm) :: l =>
      if decide (p ∈ gone) then spec_emit gone l args
      else (p, pm, args) :: spec_emit (leavers (body p pm args) ++ gone) l args
  end.

Lemma slot_disconnect_each_pending p l0 w w' s x :
  nodes_ok w -> slot_disconnect_each p l0 w = Ok w' -> signals w !! s = Some x ->
  exists x', signals w' !! s = Some x' /\
    pending x' = (if decide (s ∈ l0) then without p (pending x) else pending x).
Proof.
  revert w x. induction l0 as [|s0 l0 IH]; intros w x Hn He Hs; cbn in He.
  { injection He as <-. exists x. split; [done|]. rewrite decide_False; [done|]. apply not_elem_of_nil. }
  apply res_bind_ok in He as (w1 & H1 & He).
  unfold do_slot_disconnect, get_signal in H1. apply res_bind_ok in H1 as (x0 & Hx0 & H1).
  destruct (signals w !! s0) as [x1|] eqn:Hs0; [|discriminate Hx0]. injection Hx0 as ->.
  destruct (Hn s0 x0 Hs0) as (Hnd & _ & Hc).
  destruct (slot_disconnect_loop_spec p _ (m_current_iterator x0) Hnd) as (_ & E2 & _).
  destruct (slot_disconnect_wf (next_node w) p x0 (Hn s0 x0 Hs0)) as (x1 & Hx1 & _ & Hw1).
  rewrite Hx1 in H1, E2. injection H1 as <-. cbn [fst snd] in E2.
  assert (Signal (m_connected_slots x1) (m_current_iterator x1) = x1) as Heta by by destruct x1.
  rewrite Heta in He.
  assert (nodes_ok (set_signal w s0 x1)) as Hn1 by by apply nodes_set.
  destruct (decide (s = s0)) as [->|Hne].
  - destruct (IH _ x1 Hn1 He) as (x' & Hx' & Hp'); [cbn; by rewrite lookup_insert_eq|].
    exists x'. split; [done|]. rewrite Hp'. assert (x0 = x) as -> by congruence.
    assert (pending x1 = without p (pending x)) as ->.
    { unfold pending. by rewrite E2, edges_filter. }
    rewrite (decide_True (P := s0 ∈ s0 :: l0)) by left.
    destruct (decide (s0 ∈ l0)); [|done]. unfold without. by apply list_filter_filter_l.
  - destruct (IH _ x Hn1 He) as (x' & Hx' & Hp'); [cbn; by rewrite lookup_insert_ne|].
    exists x'. split; [done|]. rewrite Hp'.
    destruct (decide (s ∈ l0)); [rewrite decide_True by (by right); done|].
    rewrite decide_False; [done|]. by intros [|]%list.elem_of_cons.
Qed.

Lemma pending_in x p : p ∈ (pending x).*1 -> p ∈ (edges (m_connected_slots x)).*1.
Proof.
  unfold pending. destruct (m_current_iterator x) as [n|]; [|by intros ?%elem_of_nil].
  cbn. induction (m_connected_slots x) as [|[n' c] l IH]; cbn; [done|].
  destruct (decide (n' = n)); [done|]. intros Hp. right. auto.
Qed.

(** An object that leaves is taken out of what every emission has still to
    visit. *)
Lemma leave_pending w o p s x :
  leaver o = Some p -> wf w -> possible w o = true -> signals w !! s = Some x ->
  exists w' x', perform w o = Ok w' /\ wf w' /\ calls w' = calls w /\
    signals w' !! s = Some x' /\ pending x' = without p (pending x).
Proof.
  intros Hl Hw Hp Hs.
  assert (may_perform w o) as Hmp by by destruct o.
  destruct (perform_implements w o Hw Hp Hmp) as (w' & He & (Hw' & _ & _ & Hc)).
  exists w'.
  assert (has_slot w p = true) as (m & Hm)%has_slot_true by (by destruct o; cbn in Hl, Hp; simplify_eq).
  assert (exists w1, do_disconnect_all w p = Ok w1 /\ signals w' = signals w1) as (w1 & H1 & ->).
  { destruct o; try discriminate Hl; injection Hl as ->; cbn in He; [by exists w'|].
    unfold destroy_slot in He. apply res_bind_ok in He as (w1 & H1 & He).
    injection He as <-. by exists w1. }
  unfold do_disconnect_all in H1. cbn [do_disconnect_all_loop] in H1.
  rewrite (get_slot_some _ _ _ Hm), bind_ok in H1.
  pose proof (wf_sender w s x p m Hw Hs Hm) as Hsm.
  assert (s ∉ m -> without p (pending x) = pending x) as Hout.
  { intros Hns. apply without_out. intros Hpx. apply Hns, Hsm. by apply pending_in. }
  destruct (decide (m = ∅)) as [Hm0|Hm0].
  - injection H1 as <-. exists x. repeat (split; [done|]). symmetry. apply Hout. rewrite Hm0. set_solver.
  - apply res_bind_ok in H1 as (w2 & H2 & H3).
    destruct (slot_disconnect_each_pending p (senders_of m) (set_slot w p ∅) w2 s x
      (proj2 Hw) H2 Hs) as (x' & Hx' & Hp').
    exists x'. repeat (split; [done|]).
    apply res_bind_ok in H3 as (m2 & H4 & H3).
    assert (m2 = ∅) as ->.
    { destruct (slot_disconnect_each_spec p (senders_of m) (set_slot w p ∅)) as (w3 & H5 & _ & H6 & _).
      - exact (proj2 Hw).
      - intros s0. rewrite senders_perm, elem_of_elements.
        destruct Hw as [[_ Hl2] _]. rewrite (Hl2 p m s0 Hm).
        intros (l & Hlk & _). apply signal_of in Hlk as (y & Hy & _). cbn. by exists y.
      - assert (w3 = w2) as -> by congruence. unfold get_slot in H4. rewrite H6 in H4. cbn in H4.
        rewrite lookup_insert_eq in H4. by injection H4 as <-. }
    rewrite decide_True in H3 by done. injection H3 as <-. split; [done|].
    rewrite Hp'. destruct (decide (s ∈ senders_of m)) as [|Hns]; [done|].
    symmetry. apply Hout. by rewrite senders_perm, elem_of_elements in Hns.
Qed.

Lemma signal_connect_signals w p s' w' : do_signal_connect w p s' = Ok w' -> signals w' = signals w.
Proof. intros E. apply res_bind_ok in E as (m & _ & <-%ok_inj). done. Qed.

Lemma signal_disconnect_signals w p s' w' : do_signal_disconnect w p s' = Ok w' -> signals w' = signals w.
Proof. intros E. apply res_bind_ok in E as (m & _ & <-%ok_inj). done. Qed.

Lemma disconnect_all_loop_others s' s l : s' <> s -> forall w w',
  disconnect_all_loop s' l w = Ok w' -> signals w' !! s = signals w !! s.
Proof.
  intros Hne. induction l as [|[n c] l IH]; intros w w' E; cbn in E; [by apply ok_inj in E as <-|].
  apply res_bind_ok in E as (self & _ & E). apply res_bind_ok in E as (w1 & E1%signal_disconnect_signals & E).
  rewrite (IH _ _ E), E1. cbn. by rewrite lookup_insert_ne.
Qed.

Lemma signal_disconnect_all_others s' s w w' :
  s' <> s -> signal_disconnect_all w s' = Ok w' -> signals w' !! s = signals w !! s.
Proof.
  intros Hne E. apply res_bind_ok in E as (x & _ & E). apply res_bind_ok in E as (w1 & E1 & E).
  apply res_bind_ok in E as (y & _ & <-%ok_inj). cbn. rewrite lookup_insert_ne by done.
  by eapply disconnect_all_loop_others.
Qed.

Lemma copy_loop_others s' s l : s' <> s -> forall w w',
  copy_loop s' l w = Ok w' -> signals w' !! s = signals w !! s.
Proof.
  intros Hne. induction l as [|[n c] l IH]; intros w w' E; cbn in E; [by apply ok_inj in E as <-|].
  apply res_bind_ok in E as (w1 & E1%signal_connect_signals & E). apply res_bind_ok in E as (self & _ & E).
  rewrite (IH _ _ E). cbn. by rewrite lookup_insert_ne, E1.
Qed.

(** The other operations leave the firing signal as it is. *)
Lemma bystander_keeps w o s x :
  bystander s o = true -> wf w -> possible w o = true -> signals w !! s = Some x ->
  exists w', perform w o = Ok w' /\ wf w' /\ calls w' = calls w /\ signals w' !! s = Some x.
Proof.
  intros Hb Hw Hp Hs. destruct (perform_implements w o Hw Hp) as (w' & He & (Hw' & _ & _ & Hc)); [by destruct o|].
  exists w'. split; [done|]. split; [done|]. split; [done|]. rewrite <- Hs.
  assert (Hfresh : forall s', negb (has_signal w s') = true -> s' <> s).
  { intros s' Hn%has_signal_false ->. congruence. }
  destruct o as [s'|p|o s'|o p|s' p pm|s' p|s'|p|s' a|s'|p]; cbn in Hb, Hp, He; try done.
  - apply ok_inj in He as <-. cbn. rewrite lookup_insert_ne; [done|]. by apply Hfresh.
  - by apply ok_inj in He as <-.
  - apply andb_true_iff in Hp as [_ Hp]. apply res_bind_ok in He as (other & _ & He).
    rewrite (copy_loop_others s' s _ (Hfresh s' Hp) _ _ He). cbn. by rewrite lookup_insert_ne by by apply Hfresh.
  - apply bool_decide_eq_true in Hb. apply res_bind_ok in He as (self & _ & He%signal_connect_signals).
    rewrite He. cbn. by rewrite lookup_insert_ne.
  - apply bool_decide_eq_true in Hb. by eapply signal_disconnect_all_others.
  - apply bool_decide_eq_true in Hb. apply res_bind_ok in He as (w1 & E1 & <-%ok_inj). cbn.
    rewrite lookup_delete_ne by done. by eapply signal_disconnect_all_others.
Qed.

Lemma dead_not_pending w s x p :
  wf w -> signals w !! s = Some x -> has_slot w p = false -> without p (pending x) = pending x.
Proof.
  intros Hw Hs Hp. apply without_out. intros Hin%pending_in.
  destruct (wf_dests w s x p Hw Hs Hin) as [m Hm].
  unfold has_slot in Hp. rewrite Hm in Hp. by apply bool_decide_eq_false in Hp as [].
Qed.

Definition not_in (gone : list positive) (l : list (positive * M)) : list (positive * M) :=
  filter (fun e => e.1 ∉ gone) l.

Lemma without_not_in p gone l : not_in gone (without p l) = not_in (p :: gone) l.
Proof.
  unfold not_in, without. rewrite list_filter_filter. apply list_filter_iff.
  intros e. rewrite not_elem_of_cons. tauto.
Qed.

Lemma not_in_none l : not_in [] l = l.
Proof.
  unfold not_in. induction l as [|e l IH]; [done|].
  by rewrite filter_cons_True, IH by apply not_elem_of_nil.
Qed.

(** The operations of such a method run to their end. *)
Lemma leavers_run ops r w s x :
  Forall (orderly s) ops -> wf w -> signals w !! s = Some x ->
  exists n w' x', (forall fuel, exec (n + fuel) ((Do <$> ops) ++ r) w = exec fuel r w') /\
    wf w' /\ calls w' = calls w /\ signals w' !! s = Some x' /\
    pending x' = not_in (leavers ops) (pending x).
Proof.
  intros Hops. revert w x. induction Hops as [|o ops Ho _ IH]; intros w x Hw Hs.
  { exists O, w, x. repeat (split; [done|]). symmetry. apply not_in_none. }
  assert (exists w1 x1, step ((Do <$> o :: ops) ++ r) w = Ok ((Do <$> ops) ++ r, w1) /\
            wf w1 /\ calls w1 = calls w /\ signals w1 !! s = Some x1 /\
            pending x1 = match leaver o with Some p => without p (pending x) | None => pending x end)
    as (w1 & x1 & Hstep & Hw1 & Hc1 & Hs1 & Hp1).
  { cbn [fmap list_fmap app step]. destruct (possible w o) eqn:Hp.
    - destruct Ho as [[p Ho]|Ho].
      + destruct (leave_pending w o p s x Ho Hw Hp Hs) as (w1 & x1 & He & ?).
        exists w1, x1. rewrite Ho. split; [|done]. rewrite He. by destruct o.
      + destruct (bystander_keeps w o s x Ho Hw Hp Hs) as (w1 & He & ? & ? & ?).
        exists w1, x. split; [rewrite He; by destruct o|]. by destruct o.
    - exists w, x. repeat (split; [done|]). destruct (leaver o) as [p|] eqn:Hl; [|done].
      symmetry. eapply dead_not_pending; [done|done|]. by destruct o; cbn in Hl, Hp; simplify_eq. }
  destruct (IH w1 x1 Hw1 Hs1) as (n & w' & x' & He & Hw' & Hc' & Hs' & Hp').
  exists (S n), w', x'. split.
  { intros fuel. change (S n + fuel)%nat with (S (n + fuel)).
    rewrite (exec_step _ _ _ _ _ Hstep) by done. apply He. }
  split; [done|]. split; [by rewrite Hc'|]. split; [done|].
  rewrite Hp', Hp1. unfold leavers. cbn. destruct (leaver o); [by rewrite without_not_in|done].
Qed.

Lemma not_in_app a b l : not_in a (not_in b l) = not_in (a ++ b) l.
Proof.
  unfold not_in. rewrite list_filter_filter. apply list_filter_iff.
  intros e. rewrite list.elem_of_app. tauto.
Qed.

Lemma firing_runs s args l gone w x :
  (forall p pm a, Forall (orderly s) (body p pm a)) ->
  wf w -> signals w !! s = Some x -> pending x = not_in gone l ->
  exists fuel w', exec fuel [Firing s args] w = Ok w' /\ wf w' /\
    calls w' = calls w ++ spec_emit gone l args.
Proof.
  intros Hb. revert gone w x. induction l as [|[p pm] l IH]; intros gone w x Hw Hs Hp.
  { pose proof (emit_round_spec w s x args Hw Hs) as He. rewrite Hp in He. cbn in He.
    exists 1%nat, w. cbn. rewrite He, bind_ok. split; [done|]. split; [done|]. by rewrite app_nil_r. }
  cbn [spec_emit]. destruct (decide (p ∈ gone)) as [Hg|Hg].
  - apply (IH gone w x Hw Hs). rewrite Hp. unfold not_in.
    by rewrite filter_cons_False by (intros Hn; by apply Hn).
  - unfold not_in in Hp. rewrite filter_cons_True in Hp by done. fold (not_in gone l) in Hp.
    pose proof (emit_round_spec w s x args Hw Hs) as He. rewrite Hp in He.
    destruct He as (x1 & _ & Hp1 & He & Hw1).
    destruct (leavers_run (body p pm args) [Firing s args] _ s x1 (Hb p pm args) Hw1)
      as (n & w2 & x2 & Hn & Hw2 & Hc2 & Hs2 & Hp2); [cbn; by rewrite lookup_insert_eq|].
    rewrite Hp1, not_in_app in Hp2.
    destruct (IH _ w2 x2 Hw2 Hs2 Hp2) as (fuel & w' & Hex & Hw' & Hc').
    exists (S (n + fuel)), w'. split; [|split; [done|]].
    + erewrite exec_step; [|cbn [step]; rewrite He, bind_ok; reflexivity|done].
      by rewrite Hn.
    + rewrite Hc', Hc2. cbn. by rewrite <- app_assoc.
Qed.

Lemma runs_keep_links_in fuel todo w w' :
  (forall p pm args, Forall (fun o => gentle o = true) (body p pm args)) ->
  wf w -> ordered todo -> firing_alive todo w -> exec fuel todo w = Ok w' -> wf w'.
Proof.
  intros Hb. revert todo w. induction fuel as [|fuel IH]; intros [|t todo] w Hw Ho Ha He;
    try (by injection He as <-); [done|].
  destruct (step_safe (t :: todo) w Hb Hw Ho Ha) as ([todo' w1] & Hs & Hw' & Ho' & Ha').
  rewrite (exec_step _ _ _ _ _ Hs) in He by done. by eapply IH.
Qed.



Lemma wf_empty : wf empty_world.
Proof.
  split; [split|]; cbn.
  - intros s l p. unfold abs. cbn. by rewrite fmap_empty, lookup_empty.
  - intros p m s. by rewrite lookup_empty.
  - intros s x. by rewrite lookup_empty.
Qed.
End sigslot.

(** The node types and the operations, at methods [M] and arguments [A]. *)
Arguments connection : clear implicits.
Arguments signal : clear implicits.
Arguments world : clear implicits.
Arguments op : clear implicits.
Arguments task : clear implicits.

(** ** The wiring of the DTLS transport

    RtcDtls::RtcDtls wraps its downward stream in the SSL adapter, whose
    constructor connects the stream's [SignalEvent] to
    OpenSSLStreamAdapter::OnEvent; RtcDtls::setup_dtls connects the adapter's
    two signals.  Signal 1 is the stream's [SignalEvent], 2 the adapter's, 3
    [SignalSSLHandshakeError]; object 1 is the adapter, 2 the RtcDtls. *)
Module Wiring.
Inductive method := OnEvent | slot_dtls_event | slot_dtls_handshake_error.

(** OnEvent passes an event on to the adapter's own signal. *)
Definition body (p : positive) (pm : method) (events : Z) : list (op method Z) :=
  match pm with OnEvent => [Emit 2 events] | _ => [] end.

Definition constructed : list (task method Z) :=
  [Do (NewSlot 2); Do (NewSignal 1); Do (NewSignal 2); Do (NewSlot 1); Do (NewSignal 3);
   Do (Connect 1 1 OnEvent)].

Definition setup_dtls : list (task method Z) :=
  [Do (Connect 2 2 slot_dtls_event); Do (Connect 3 2 slot_dtls_handshake_error)].

(** The members and bases of RtcDtls go in the reverse of their order: the
    adapter with the stream it owns, then the slots. *)
Definition destroyed : list (task method Z) :=
  [Do (DestroySignal 1); Do (DestroySignal 3); Do (DestroySlot 1); Do (DestroySignal 2);
   Do (DestroySlot 2)].

(** A datagram: SE_READ is 2. *)
Definition on_packet_receive : list (task method Z) := [Do (Emit 1 2)].

Definition run (todo : list (task method Z)) : res (world method Z) :=
  exec elements body 40 todo empty_world.
End Wiring.

Example dtls_event_delivered :
  calls <$> Wiring.run (Wiring.constructed ++ Wiring.setup_dtls ++ Wiring.on_packet_receive) =
  Ok [(1%positive, Wiring.OnEvent, 2); (2%positive, Wiring.slot_dtls_event, 2)].
Proof. vm_compute. reflexivity. Qed.

Example dtls_destroyed_clean :
  (fun w => (signals w, slots w)) <$>
    Wiring.run (Wiring.constructed ++ Wiring.setup_dtls ++ Wiring.on_packet_receive ++ Wiring.destroyed) =
  Ok (∅, ∅).
Proof. vm_compute. reflexivity. Qed.

(** A second setup connects the same method again: an event is then
    delivered twice. *)
Example dtls_setup_twice :
  calls <$> Wiring.run (Wiring.constructed ++ Wiring.setup_dtls ++ Wiring.setup_dtls ++
                      Wiring.on_packet_receive) =
  Ok [(1%positive, Wiring.OnEvent, 2); (2%positive, Wiring.slot_dtls_event, 2);
      (2%positive, Wiring.slot_dtls_event, 2)].
Proof. vm_compute. reflexivity. Qed.


(** Three objects on one signal; the first destroys the second, and connects
    the third to a signal of its own. *)
Module Leaving.
Definition body (p : positive) (pm : nat) (a : unit) : list (op nat unit) :=
  if decide (p = 1%positive) then [DestroySlot 2; NewSignal 2; Connect 2 3 31%nat] else [].

Definition three : list (task nat unit) :=
  [Do (NewSignal 1); Do (NewSlot 1); Do (NewSlot 2); Do (NewSlot 3);
   Do (Connect 1 1 10%nat); Do (Connect 1 2 20%nat); Do (Connect 1 3 30%nat)].

Definition world3 : world nat unit :=
  match exec elements body 10 three empty_world with Ok w => w | Fail _ => empty_world end.
End Leaving.

Definition members3 : list (positive * connection nat) :=
  [(1%positive, Connection 1 10%nat); (2%positive, Connection 2 20%nat);
   (3%positive, Connection 3 30%nat)].

Lemma wf_world3 : wf Leaving.world3.
Proof.
  apply (runs_keep_links_in elements Leaving.body (fun X => Permutation_refl _) 10
    Leaving.three empty_world Leaving.world3).
  - intros p pm a. unfold Leaving.body. destruct (decide _); repeat constructor.
  - apply wf_empty.
  - vm_compute. done.
  - intros s args Hin. exfalso. vm_compute in Hin.
    repeat (apply list.elem_of_cons in Hin as [Hin|Hin]; [discriminate Hin|]).
    by apply elem_of_nil in Hin.
  - vm_compute. reflexivity.
Qed.


(** ** What the two theorems leave out *)

Definition idle (p : positive) (pm : nat) (a : unit) : list (op nat unit) := [].

(** [disconnect] takes out one connection but makes the object forget the
    signal: an object connected twice leaves the other connection behind. *)
Example disconnect_leaves_dangling :
  exec elements idle 20
    [Do (NewSignal 1); Do (NewSlot 1); Do (Connect 1 1 10%nat); Do (Connect 1 1 11%nat);
     Do (Disconnect 1 1); Do (DestroySlot 1); Do (Emit 1 tt)] empty_world = Fail Dangling.
Proof. vm_compute. reflexivity. Qed.

(** A method that destroys the signal that called it. *)
Example signal_destroyed_while_firing :
  exec elements (fun _ _ _ => [DestroySignal 1]) 20
    [Do (NewSignal 1); Do (NewSlot 1); Do (Connect 1 1 10%nat); Do (Emit 1 tt)]
    (@empty_world nat unit) = Fail Dangling.
Proof. vm_compute. reflexivity. Qed.

(** An emission started by a method ends the one that called it: the second
    object gets the inner event and never the outer one. *)
Definition reemit (p : positive) (pm : nat) (a : nat) : list (op nat nat) :=
  match p, a with 1%positive, 0%nat => [Emit 1 1%nat] | _, _ => [] end.

Example nested_emission_ends_outer :
  calls <$> exec elements reemit 20
    [Do (NewSignal 1); Do (NewSlot 1); Do (NewSlot 2); Do (Connect 1 1 10%nat);
     Do (Connect 1 2 20%nat); Do (Emit 1 0%nat)] empty_world =
  Ok [(1%positive, 10%nat, 0%nat); (1%positive, 10%nat, 1%nat); (2%positive, 20%nat, 1%nat)].
Proof. vm_compute. reflexivity. Qed.

(** An object connected while the signal fires is called by that emission,
    unless the last connection is being served. *)
Definition join (p : positive) (pm : nat) (a : unit) : list (op nat unit) :=
  match pm with 10%nat => [Connect 1 3 30%nat] | _ => [] end.

Example connected_while_firing :
  (calls <$> exec elements join 20
    [Do (NewSignal 1); Do (NewSlot 1); Do (NewSlot 2); Do (NewSlot 3); Do (Connect 1 1 10%nat);
     Do (Connect 1 2 20%nat); Do (Emit 1 tt)] empty_world =
   Ok [(1%positive, 10%nat, tt); (2%positive, 20%nat, tt); (3%positive, 30%nat, tt)]) /\
  (calls <$> exec elements join 20
    [Do (NewSignal 1); Do (NewSlot 1); Do (NewSlot 2); Do (NewSlot 3); Do (Connect 1 2 20%nat);
     Do (Connect 1 1 10%nat); Do (Emit 1 tt)] empty_world =
   Ok [(2%positive, 20%nat, tt); (1%positive, 10%nat, tt)]).
Proof. vm_compute. split; reflexivity. Qed.
