(* ===== verification/Thread.v ===== *)
(** * The message queue of a thread (rtc_base/thread.cc, thread.h, thread_message.h)

    rtc::Thread is a queue of messages with a priority queue of delayed ones;
    [Get] moves the delayed messages that are due behind the posted ones and
    hands out the first.  The SSL adapter of the DTLS transport posts its
    timer and its events to such a queue.  While [Get] waits in its socket
    server, other threads go on: what they do is part of the wait. *)
From Stdlib Require Import Sorted.
From S2P Require Import Prelude.
From S2P Require Import TimeUtils.

Local Open Scope Z_scope.

(** ** Messages *)

Definition kForever : Z := -1.
Definition MQID_ANY : Z := u32 (-1).
Definition MQID_DISPOSE : Z := u32 (-2).

(** A handler and a block of data are known by their addresses.  Where a
    message was posted from is for the log and left out. *)
Record Message := mkMessage {
  phandler : option positive;
  message_id : Z;
  pdata : option positive
}.

Definition no_message : Message := mkMessage None 0 None.

Definition Match (m : Message) (handler : option positive) (id : Z) : bool :=
  (bool_decide (handler = None) || bool_decide (handler = phandler m)) &&
  ((id =? MQID_ANY) || (id =? message_id m)).

Record DelayedMessage := mkDelayed {
  delay_ms_ : Z;
  run_time_ms_ : Z;
  message_number_ : Z;
  msg_ : Message
}.

(** [operator<]: the later message is the smaller one. *)
Definition dm_lt (m dmsg : DelayedMessage) : bool :=
  (run_time_ms_ dmsg <? run_time_ms_ m) ||
  ((run_time_ms_ dmsg =? run_time_ms_ m) && (message_number_ dmsg <? message_number_ m)).

(** ** std::priority_queue

    The container is a heap under [operator<], in the sense of the C++
    standard: no element is smaller than one of the two below it.  How
    push_heap, pop_heap and make_heap arrange it is the library's. *)
Definition is_heap (c : list DelayedMessage) : Prop :=
  forall i x y, (0 < i)%nat -> c !! i = Some x -> c !! Nat.div2 (i - 1) = Some y ->
    dm_lt y x = false.

Class HeapOps := {
  push_heap : list DelayedMessage -> DelayedMessage -> list DelayedMessage;
  pop_heap : list DelayedMessage -> list DelayedMessage;
  make_heap : list DelayedMessage -> list DelayedMessage;
  push_heap_perm c x : push_heap c x ≡ₚ x :: c;
  push_heap_heap c x : is_heap c -> is_heap (push_heap c x);
  pop_heap_perm x c : pop_heap (x :: c) ≡ₚ c;
  pop_heap_heap x c : is_heap (x :: c) -> is_heap (pop_heap (x :: c));
  make_heap_perm c : make_heap c ≡ₚ c;
  make_heap_heap c : is_heap (make_heap c)
}.

(** A call of the socket server's [Wait]: the time it is asked to wait, when it
    is called, and the delayed messages the thread goes to sleep on. *)
Record sleep := mkSleep { cms : Z; from_ms : Z; asleep_on : list DelayedMessage }.

Section thread.
Context `{HeapOps}.

(** ** The thread

    [now] is what the clock reads, in nanoseconds; [deleted] collects the
    data the queue has deleted, [wakeups] counts the wake-ups of the socket
    server and [waits] its waits. *)
Record thread := mkThread {
  fPeekKeep_ : bool;
  msgPeek_ : Message;
  messages_ : list Message;
  delayed_messages_ : list DelayedMessage;
  delayed_next_num_ : Z;
  stop_ : bool;
  now : Z;
  deleted : list positive;
  wakeups : Z;
  waits : list sleep
}.

Definition new_thread (t : Z) : thread :=
  mkThread false no_message [] [] 0 false t [] 0 [].

Definition with_peek (th : thread) b m := mkThread b m (messages_ th) (delayed_messages_ th)
  (delayed_next_num_ th) (stop_ th) (now th) (deleted th) (wakeups th) (waits th).
Definition with_messages (th : thread) ms := mkThread (fPeekKeep_ th) (msgPeek_ th) ms
  (delayed_messages_ th) (delayed_next_num_ th) (stop_ th) (now th) (deleted th) (wakeups th) (waits th).
Definition with_delayed (th : thread) ds n := mkThread (fPeekKeep_ th) (msgPeek_ th) (messages_ th)
  ds n (stop_ th) (now th) (deleted th) (wakeups th) (waits th).
Definition with_stop (th : thread) b := mkThread (fPeekKeep_ th) (msgPeek_ th) (messages_ th)
  (delayed_messages_ th) (delayed_next_num_ th) b (now th) (deleted th) (wakeups th) (waits th).
Definition with_now (th : thread) t := mkThread (fPeekKeep_ th) (msgPeek_ th) (messages_ th)
  (delayed_messages_ th) (delayed_next_num_ th) (stop_ th) t (deleted th) (wakeups th) (waits th).
Definition with_wait (th : thread) w := mkThread (fPeekKeep_ th) (msgPeek_ th) (messages_ th)
  (delayed_messages_ th) (delayed_next_num_ th) (stop_ th) (now th) (deleted th) (wakeups th)
  (waits th ++ [mkSleep w (TimeMillis (now th)) (delayed_messages_ th)]).

(** [delete pdata] of a null pointer does nothing. *)
Definition delete_data (th : thread) (d : option positive) : thread :=
  mkThread (fPeekKeep_ th) (msgPeek_ th) (messages_ th) (delayed_messages_ th)
    (delayed_next_num_ th) (stop_ th) (now th)
    (deleted th ++ match d with Some d => [d] | None => [] end) (wakeups th) (waits th).

Definition WakeUpSocketServer (th : thread) : thread :=
  mkThread (fPeekKeep_ th) (msgPeek_ th) (messages_ th) (delayed_messages_ th)
    (delayed_next_num_ th) (stop_ th) (now th) (deleted th) (wakeups th + 1) (waits th).

Definition TimeUntil (th : thread) (later : Z) : Z := TimeDiff later (TimeMillis (now th)).

Definition Quit (th : thread) : thread := WakeUpSocketServer (with_stop th true).
Definition IsQuitting (th : thread) : bool := stop_ th.
Definition Restart (th : thread) : thread := with_stop th false.

Definition size (th : thread) : Z :=
  zlen (messages_ th) + zlen (delayed_messages_ th) + (if fPeekKeep_ th then 1 else 0).
Definition empty (th : thread) : bool := size th =? 0.

(** ** Posting *)

Definition Post (th : thread) (handler : option positive) (id : Z) (data : option positive) : thread :=
  if IsQuitting th then delete_data th data
  else WakeUpSocketServer
    (with_messages th (messages_ th ++ [mkMessage handler id data])).

Definition DoDelayPost (th : thread) (delay_ms run_at_ms : Z) (handler : option positive)
    (id : Z) (data : option positive) : res thread :=
  if IsQuitting th then Ok (delete_data th data)
  else
    let msg := mkMessage handler id data in
    let delayed := mkDelayed delay_ms run_at_ms (delayed_next_num_ th) msg in
    let num := u32 (delayed_next_num_ th + 1) in
    let th := with_delayed th (push_heap (delayed_messages_ th) delayed) num in
    _ ← require (negb (num =? 0)) AssertFailed;
    Ok (WakeUpSocketServer th).

Definition PostDelayed (th : thread) (delay_ms : Z) (handler : option positive) (id : Z)
    (data : option positive) : res thread :=
  t ← TimeAfter (now th) delay_ms; DoDelayPost th delay_ms t handler id data.

Definition PostAt (th : thread) (run_at_ms : Z) (handler : option positive) (id : Z)
    (data : option positive) : res thread :=
  DoDelayPost th (TimeUntil th run_at_ms) run_at_ms handler id data.

(** [Dispose]: a message without a handler whose data is the doomed object. *)
Definition Dispose (th : thread) (doomed : option positive) : thread :=
  match doomed with
  | Some _ => Post th None MQID_DISPOSE doomed
  | None => th
  end.

(** [int delay] takes an [int64_t]. *)
Definition GetDelay (th : thread) : Z :=
  match messages_ th, delayed_messages_ th with
  | _ :: _, _ => 0
  | [], top :: _ =>
      let delay := i32 (TimeUntil th (run_time_ms_ top)) in
      if delay <? 0 then 0 else delay
  | [], [] => kForever
  end.

(** ** Clearing *)

(** A message that goes is put on the caller's list or its data deleted. *)
Definition drop_message (removed : option (list Message)) (m : Message) (th : thread) :
    thread * option (list Message) :=
  match removed with
  | Some l => (th, Some (l ++ [m]))
  | None => (delete_data th (pdata m), None)
  end.

Fixpoint drop_messages (removed : option (list Message)) (ms : list Message) (th : thread) :
    thread * option (list Message) :=
  match ms with
  | [] => (th, removed)
  | m :: ms => let '(th, removed) := drop_message removed m th in drop_messages removed ms th
  end.

(** The walks over [messages_] and over the container of the delayed
    messages, which is closed up and made a heap again. *)
Definition ClearInternal (th : thread) (handler : option positive) (id : Z)
    (removed : option (list Message)) : thread * option (list Message) :=
  let '(th, removed) :=
    if fPeekKeep_ th && Match (msgPeek_ th) handler id then
      let '(th, removed) := drop_message removed (msgPeek_ th) th in
      (with_peek th false (msgPeek_ th), removed)
    else (th, removed) in
  let matching := filter (fun m => Match m handler id = true) (messages_ th) in
  let '(th, removed) := drop_messages removed matching th in
  let th := with_messages th (filter (fun m => Match m handler id = false) (messages_ th)) in
  let c := delayed_messages_ th in
  let '(th, removed) :=
    drop_messages removed (msg_ <$> filter (fun d => Match (msg_ d) handler id = true) c) th in
  (with_delayed th (make_heap (filter (fun d => Match (msg_ d) handler id = false) c))
     (delayed_next_num_ th), removed).

Definition Clear (th : thread) (handler : option positive) (id : Z)
    (removed : option (list Message)) : thread * option (list Message) :=
  ClearInternal th handler id removed.

(** ** Getting *)

(** The first pass: every delayed message that is due moves behind the posted
    ones; the next one gives the time to wait. *)
Fixpoint trigger_delayed (fuel : nat) (msCurrent : Z) (ms : list Message)
    (ds : list DelayedMessage) : res (list Message * list DelayedMessage * Z) :=
  match fuel with
  | O => Fail OutOfFuel
  | S fuel =>
      match ds with
      | [] => Ok (ms, ds, kForever)
      | top :: _ =>
          if msCurrent <? run_time_ms_ top then
            Ok (ms, ds, TimeDiff (run_time_ms_ top) msCurrent)
          else trigger_delayed fuel msCurrent (ms ++ [msg_ top]) (pop_heap ds)
      end
  end.

(** The messages are taken until one is not a disposal; [dispose] collects
    what the disposals delete. *)
Fixpoint pull (th : thread) (ms : list Message) : res (option Message * thread) :=
  match ms with
  | [] => Ok (None, with_messages th [])
  | m :: ms =>
      if message_id m =? MQID_DISPOSE then
        _ ← require (bool_decide (phandler m = None)) AssertFailed;
        pull (delete_data th (pdata m)) ms
      else Ok (Some m, with_messages th ms)
  end.

(** ** What happens meanwhile

    The operations other threads, and the handlers of messages, apply to the
    queue; [Elapse] lets time pass. *)
Inductive thread_op :=
  | OpPost (handler : option positive) (id : Z) (data : option positive)
  | OpPostDelayed (delay_ms : Z) (handler : option positive) (id : Z) (data : option positive)
  | OpPostAt (run_at_ms : Z) (handler : option positive) (id : Z) (data : option positive)
  | OpClear (handler : option positive) (id : Z)
  | OpQuit
  | OpRestart
  | OpElapse (nanos : Z).

Definition perform (th : thread) (o : thread_op) : res thread :=
  match o with
  | OpPost h id d => Ok (Post th h id d)
  | OpPostDelayed ms h id d => PostDelayed th ms h id d
  | OpPostAt t h id d => PostAt th t h id d
  | OpClear h id => Ok (fst (Clear th h id None))
  | OpQuit => Ok (Quit th)
  | OpRestart => Ok (Restart th)
  | OpElapse n => Ok (with_now th (now th + n))
  end.

Fixpoint performs (th : thread) (ops : list thread_op) : res thread :=
  match ops with
  | [] => Ok th
  | o :: ops => th ← perform th o; performs th ops
  end.

(** One wait in the socket server: what happens during it, and whether it
    succeeds. *)
Record wait_event := mkWait { during : list thread_op; succeeds : bool }.

(** [static_cast<int>(cmsNext)] *)
Definition wait_time (cmsWait cmsElapsed cmsDelayNext : Z) : Z :=
  if cmsWait =? kForever then cmsDelayNext
  else
    let cmsNext := Z.max 0 (cmsWait - cmsElapsed) in
    if negb (cmsDelayNext =? kForever) && (cmsDelayNext <? cmsNext) then cmsDelayNext else cmsNext.

(** The outer loop takes one event of the environment for each wait; without
    one it waits for ever. *)
Fixpoint get_loop (env : list wait_event) (cmsWait msStart msCurrent cmsElapsed : Z) (th : thread) :
    res (option Message * thread * list wait_event) :=
  '(ms, ds, cmsDelayNext) ←
    trigger_delayed (S (length (delayed_messages_ th))) msCurrent (messages_ th) (delayed_messages_ th);
  '(m, th) ← pull (with_delayed th ds (delayed_next_num_ th)) ms;
  match m with
  | Some m => Ok (Some m, th, env)
  | None =>
      if IsQuitting th then Ok (None, th, env)
      else
        match env with
        | [] => Fail OutOfFuel
        | e :: env =>
            let th := with_wait th (i32 (wait_time cmsWait cmsElapsed cmsDelayNext)) in
            th ← performs th (during e);
            if negb (succeeds e) then Ok (None, th, env)
            else
              let msCurrent := TimeMillis (now th) in
              let cmsElapsed := TimeDiff msCurrent msStart in
              if negb (cmsWait =? kForever) && (cmsElapsed >=? cmsWait) then Ok (None, th, env)
              else get_loop env cmsWait msStart msCurrent cmsElapsed th
        end
  end.

Definition Get (env : list wait_event) (th : thread) (cmsWait : Z) :
    res (option Message * thread * list wait_event) :=
  if fPeekKeep_ th then Ok (Some (msgPeek_ th), with_peek th false (msgPeek_ th), env)
  else
    let msStart := TimeMillis (now th) in
    get_loop env cmsWait msStart msStart 0 th.

Definition Peek (env : list wait_event) (th : thread) (cmsWait : Z) :
    res (option Message * thread * list wait_event) :=
  if fPeekKeep_ th then Ok (Some (msgPeek_ th), th, env)
  else
    '(m, th, env) ← Get env th cmsWait;
    match m with
    | None => Ok (None, th, env)
    | Some m => Ok (Some m, with_peek th true m, env)
    end.

(** ** Dispatching

    [handler] is what OnMessage of an object does with a message, seen from
    the queue. *)
Context (OnMessage : positive -> Message -> list thread_op).

Definition Dispatch (th : thread) (m : Message) : res thread :=
  h ← from_opt NullDeref (phandler m); performs th (OnMessage h m).

(** [ProcessMessages] until the time is over or the thread quits; the result
    is what it returns.  [fuel] bounds the number of messages. *)
Fixpoint process_loop (fuel : nat) (env : list wait_event) (th : thread) (cmsLoop msEnd cmsNext : Z) :
    res (bool * thread * list wait_event) :=
  match fuel with
  | O => Fail OutOfFuel
  | S fuel =>
      '(m, th, env) ← Get env th cmsNext;
      match m with
      | None => Ok (negb (IsQuitting th), th, env)
      | Some m =>
          th ← Dispatch th m;
          if negb (cmsLoop =? kForever) then
            let cmsNext := i32 (TimeUntil th msEnd) in
            if cmsNext <? 0 then Ok (true, th, env)
            else process_loop fuel env th cmsLoop msEnd cmsNext
          else process_loop fuel env th cmsLoop msEnd cmsNext
      end
  end.

Definition ProcessMessages (fuel : nat) (env : list wait_event) (th : thread) (cmsLoop : Z) :
    res (bool * thread * list wait_event) :=
  msEnd ← (if cmsLoop =? kForever then Ok 0 else TimeAfter (now th) cmsLoop);
  process_loop fuel env th cmsLoop msEnd cmsLoop.

(** ~Thread: Stop and DoDestroy, as far as the queue is concerned. *)
Definition DoDestroy (th : thread) : thread := fst (ClearInternal th None MQID_ANY None).

(** ** The order of delayed messages *)

Lemma dm_lt_false a b :
  dm_lt a b = false <->
  run_time_ms_ a < run_time_ms_ b \/
  (run_time_ms_ a = run_time_ms_ b /\ message_number_ a <= message_number_ b).
Proof.
  unfold dm_lt. rewrite orb_false_iff, andb_false_iff, Z.ltb_ge, Z.eqb_neq, Z.ltb_ge. lia.
Qed.

Lemma dm_lt_trans a b c : dm_lt a b = false -> dm_lt b c = false -> dm_lt a c = false.
Proof. rewrite !dm_lt_false. lia. Qed.

Lemma dm_lt_irrefl a : dm_lt a a = false.
Proof. rewrite dm_lt_false. lia. Qed.

(** The front of a heap is not smaller than any element. *)
Lemma heap_top x c y : is_heap (x :: c) -> y ∈ x :: c -> dm_lt x y = false.
Proof.
  intros Hh [i Hi]%list_elem_of_lookup. revert y Hi.
  induction i as [i IH] using (well_founded_induction lt_wf). intros y Hi.
  destruct i as [|i]; [injection Hi as ->; apply dm_lt_irrefl|].
  assert (Nat.div2 i < S i)%nat as Hlt by (pose proof (Nat.le_div2_diag_l i); lia).
  destruct (lookup_lt_is_Some_2 (x :: c) (Nat.div2 i)) as [p Hp].
  { apply lookup_lt_Some in Hi. lia. }
  eapply dm_lt_trans; [by apply (IH _ Hlt)|].
  apply (Hh (S i) y p); [lia|done|]. by rewrite Nat.sub_succ, Nat.sub_0_r.
Qed.

(** [due] is what is to be delivered at [t], in its order, and [rest] what is
    not. *)
Definition due_order (t : Z) (ds due rest : list DelayedMessage) : Prop :=
  ds ≡ₚ due ++ rest /\
  StronglySorted (fun a b => dm_lt a b = false) due /\
  Forall (fun d => run_time_ms_ d <= t) due /\
  Forall (fun d => t < run_time_ms_ d) rest.

(** How long until the next of [rest]. *)
Definition delay_next (t : Z) (rest : list DelayedMessage) (next : Z) : Prop :=
  (rest = [] /\ next = kForever) \/
  (exists d, d ∈ rest /\ next = run_time_ms_ d - t /\
     Forall (fun d' => run_time_ms_ d <= run_time_ms_ d') rest).

Lemma trigger_delayed_spec fuel t ms ds :
  is_heap ds -> (length ds < fuel)%nat ->
  exists due rest next,
    trigger_delayed fuel t ms ds = Ok (ms ++ (msg_ <$> due), rest, next) /\
    due_order t ds due rest /\ is_heap rest /\ delay_next t rest next.
Proof.
  revert ms ds. induction fuel as [|fuel IH]; intros ms ds Hh Hf; [lia|]. cbn [trigger_delayed].
  destruct ds as [|top ds].
  { exists [], [], kForever. rewrite app_nil_r. split; [done|]. split; [|by split; [|left]].
    split; [done|]. split; [constructor|]. by split. }
  destruct (t <? run_time_ms_ top) eqn:Ht.
  - apply Z.ltb_lt in Ht. exists [], (top :: ds), (TimeDiff (run_time_ms_ top) t).
    rewrite app_nil_r. split; [done|].
    assert (Forall (fun d' => run_time_ms_ top <= run_time_ms_ d') (top :: ds)) as Hmin.
    { apply list.Forall_forall. intros d Hd. pose proof (heap_top _ _ _ Hh Hd) as Hle.
      rewrite dm_lt_false in Hle. lia. }
    split; [|split; [done|]].
    + split; [done|]. split; [constructor|]. split; [done|].
      eapply list.Forall_impl; [exact Hmin|]. cbn. lia.
    + right. exists top. split; [left|]. done.
  - apply Z.ltb_ge in Ht.
    destruct (IH (ms ++ [msg_ top]) (pop_heap (top :: ds))) as (due & rest & next & E & Hd & Hr & Hn).
    { by apply pop_heap_heap. }
    { rewrite pop_heap_perm. cbn in Hf. lia. }
    exists (top :: due), rest, next. split; [by rewrite E, <- app_assoc|].
    split; [|done]. destruct Hd as (Hp & Hs & Hdue & Hrest).
    split; [by rewrite <- app_comm_cons, <- Hp, pop_heap_perm|]. split; [|split; [by constructor|done]].
    constructor; [done|]. apply list.Forall_forall. intros d Hd. apply (heap_top _ _ _ Hh).
    right. rewrite <- (pop_heap_perm top), Hp. apply list.elem_of_app. by left.
Qed.

(** ** What [Get] hands out *)

(** A disposal carries no handler. *)
Definition disposable (m : Message) : Prop := message_id m = MQID_DISPOSE -> phandler m = None.

Fixpoint next_message (ms : list Message) : list Message * option (Message * list Message) :=
  match ms with
  | [] => ([], None)
  | m :: ms =>
      if message_id m =? MQID_DISPOSE then
        let '(dis, r) := next_message ms in (m :: dis, r)
      else ([], Some (m, ms))
  end.

Definition disposed (th : thread) (dis : list Message) : thread :=
  foldl (fun th m => delete_data th (pdata m)) th dis.

Lemma pull_spec th ms :
  Forall disposable ms ->
  pull th ms =
    match next_message ms with
    | (dis, Some (m, r)) => Ok (Some m, with_messages (disposed th dis) r)
    | (dis, None) => Ok (None, with_messages (disposed th dis) [])
    end.
Proof.
  intros Hms. revert th. induction Hms as [|m ms Hm _ IH]; intros th; [done|]. cbn [pull next_message].
  destruct (message_id m =? MQID_DISPOSE) eqn:E; [|done].
  rewrite bool_decide_eq_true_2 by (apply Hm; by apply Z.eqb_eq). cbn [require]. rewrite bind_ok.
  rewrite IH. by destruct (next_message ms) as [dis [[m' r]|]].
Qed.

Lemma next_message_app ms dis r :
  next_message ms = (dis, r) ->
  ms = dis ++ match r with Some (m, q) => m :: q | None => [] end.
Proof.
  revert dis r. induction ms as [|m ms IH]; cbn; intros dis r; [by intros [= <- <-]|].
  destruct (message_id m =? MQID_DISPOSE); [|by intros [= <- <-]].
  destruct (next_message ms) as [dis' r'] eqn:E. intros [= <- <-].
  rewrite (IH dis' r' eq_refl). done.
Qed.

Definition data_of (m : Message) : list positive :=
  match pdata m with Some d => [d] | None => [] end.

Definition data (ms : list Message) : list positive := concat (data_of <$> ms).

Definition with_deleted (th : thread) l := mkThread (fPeekKeep_ th) (msgPeek_ th) (messages_ th)
  (delayed_messages_ th) (delayed_next_num_ th) (stop_ th) (now th) l (wakeups th) (waits th).

Lemma disposed_eq th dis : disposed th dis = with_deleted th (deleted th ++ data dis).
Proof.
  revert th. induction dis as [|m dis IH]; intros th; [cbn; rewrite app_nil_r; by destruct th|].
  cbn [disposed foldl]. fold (disposed (delete_data th (pdata m)) dis). rewrite IH.
  unfold with_deleted. cbn. rewrite <- app_assoc. done.
Qed.

Definition wf (th : thread) : Prop :=
  is_heap (delayed_messages_ th) /\ Forall disposable (messages_ th) /\
  Forall (fun d => disposable (msg_ d)) (delayed_messages_ th).

Lemma Forall_perm {A} (P : A -> Prop) l l' : l ≡ₚ l' -> Forall P l -> Forall P l'.
Proof. intros Hp. by rewrite Hp. Qed.

(** One round of [Get]: the queue at time [t] with everything that is due. *)
Lemma get_round env cmsWait msStart t elapsed th :
  wf th ->
  exists due rest next,
    due_order t (delayed_messages_ th) due rest /\ is_heap rest /\ delay_next t rest next /\
    let '(dis, r) := next_message (messages_ th ++ (msg_ <$> due)) in
    let th' := disposed (with_delayed th rest (delayed_next_num_ th)) dis in
    get_loop env cmsWait msStart t elapsed th =
      match r with
      | Some (m, q) => Ok (Some m, with_messages th' q, env)
      | None =>
          let th' := with_messages th' [] in
          if IsQuitting th then Ok (None, th', env)
          else match env with
          | [] => Fail OutOfFuel
          | e :: env =>
              th ← performs (with_wait th' (i32 (wait_time cmsWait elapsed next))) (during e);
              if negb (succeeds e) then Ok (None, th, env)
              else
                let msCurrent := TimeMillis (now th) in
                let cmsElapsed := TimeDiff msCurrent msStart in
                if negb (cmsWait =? kForever) && (cmsElapsed >=? cmsWait) then Ok (None, th, env)
                else get_loop env cmsWait msStart msCurrent cmsElapsed th
          end
      end.
Proof.
  intros (Hh & Hm & Hd).
  destruct (trigger_delayed_spec (S (length (delayed_messages_ th))) t (messages_ th)
    (delayed_messages_ th) Hh) as (due & rest & next & E & Hdue & Hrest & Hnext); [lia|].
  exists due, rest, next. split; [done|]. split; [done|]. split; [done|].
  assert (Forall disposable (messages_ th ++ (msg_ <$> due))) as Hall.
  { apply Forall_app. split; [done|]. apply Forall_fmap.
    apply (Forall_perm _ _ _ (proj1 Hdue)) in Hd. by apply Forall_app in Hd as [Hd _]. }
  pose proof (pull_spec (with_delayed th rest (delayed_next_num_ th)) _ Hall) as Hp.
  destruct (next_message _) as [dis r]. cbn zeta.
  destruct env as [|e env]; cbn [get_loop]; rewrite E, bind_ok; cbn beta iota; rewrite Hp;
    destruct r as [[m q]|]; rewrite bind_ok; cbn beta iota; try done.
  all: rewrite disposed_eq; done.
Qed.

(** ** No data is lost, leaked or deleted twice

    [owned] are the blocks of data the queue is responsible for and those it
    has already deleted. *)
Definition queued (th : thread) : list Message :=
  (if fPeekKeep_ th then [msgPeek_ th] else []) ++ messages_ th ++ (msg_ <$> delayed_messages_ th).

Definition owned (th : thread) : list positive := data (queued th) ++ deleted th.

Definition posted (o : thread_op) : list positive :=
  match o with
  | OpPost h id d | OpPostDelayed _ h id d | OpPostAt _ h id d => data_of (mkMessage h id d)
  | _ => []
  end.

#[local] Arguments data : simpl never.

Lemma data_app l l' : data (l ++ l') = data l ++ data l'.
Proof. unfold data. by rewrite fmap_app, concat_app. Qed.

Lemma data_cons m l : data (m :: l) = data_of m ++ data l.
Proof. done. Qed.

#[local] Instance data_perm : Proper ((≡ₚ) ==> (≡ₚ)) data.
Proof.
  intros l l' Hp. induction Hp as [|m l l' _ IH|m m' l|l l' l'' _ IH1 _ IH2]; [done| | |].
  - by rewrite !data_cons, IH.
  - rewrite !data_cons. rewrite !(assoc_L (++)). by rewrite (Permutation_app_comm (data_of m')).
  - by rewrite IH1.
Qed.

Lemma delete_data_deleted th d m :
  pdata m = d -> deleted (delete_data th d) = deleted th ++ data_of m.
Proof. intros <-. reflexivity. Qed.

(** Splitting a queue by a test, as clearing does. *)
Lemma filter_split {B} (f : B -> bool) (l : list B) :
  filter (fun x => f x = true) l ++ filter (fun x => f x = false) l ≡ₚ l.
Proof.
  induction l as [|x l IH]; [done|]. destruct (f x) eqn:E.
  - rewrite filter_cons_True, filter_cons_False by congruence. cbn. by rewrite IH.
  - rewrite filter_cons_False, filter_cons_True by congruence.
    by rewrite <- Permutation_middle, IH.
Qed.

Lemma drop_messages_deleted ms th :
  drop_messages None ms th = (disposed th ms, None).
Proof. revert th. induction ms as [|m ms IH]; intros th; [done|]. cbn. by rewrite IH. Qed.

(** What clearing leaves and deletes. *)
Lemma clear_eq th h id :
  fst (ClearInternal th h id None) =
    mkThread (fPeekKeep_ th && negb (Match (msgPeek_ th) h id)) (msgPeek_ th)
      (filter (fun m => Match m h id = false) (messages_ th))
      (make_heap (filter (fun d => Match (msg_ d) h id = false) (delayed_messages_ th)))
      (delayed_next_num_ th) (stop_ th) (now th)
      (deleted th ++
        (if fPeekKeep_ th && Match (msgPeek_ th) h id then data_of (msgPeek_ th) else []) ++
        data (filter (fun m => Match m h id = true) (messages_ th)) ++
        data (msg_ <$> filter (fun d => Match (msg_ d) h id = true) (delayed_messages_ th)))
      (wakeups th) (waits th).
Proof.
  destruct th as [pk mp ms ds n st nw del wk ws]. unfold ClearInternal.
  destruct pk; cbn [andb fPeekKeep_ msgPeek_]; [destruct (Match mp h id)|];
    cbn [drop_message]; cbn beta iota zeta;
    repeat (rewrite drop_messages_deleted, disposed_eq;
            unfold with_delayed, with_deleted, with_messages, with_peek, delete_data;
            cbn [fPeekKeep_ msgPeek_ messages_ delayed_messages_ delayed_next_num_ stop_ now
                 deleted wakeups waits fst]; cbn beta iota zeta);
    rewrite <- ?app_assoc; reflexivity.
Qed.

(** Two lists of data are compared piece by piece. *)
Ltac data_solve :=
  unfold owned, queued; cbn; rewrite ?fmap_app, ?data_app, ?data_cons; cbn;
  rewrite ?app_nil_r; solve_Permutation.

Lemma clear_owned th h id : owned (fst (ClearInternal th h id None)) ≡ₚ owned th.
Proof.
  rewrite clear_eq. unfold owned, queued. cbn [fPeekKeep_ msgPeek_ messages_ delayed_messages_ deleted].
  rewrite make_heap_perm, !data_app.
  assert (data (messages_ th) ≡ₚ
    data (filter (fun m => Match m h id = true) (messages_ th)) ++
    data (filter (fun m => Match m h id = false) (messages_ th))) as ->
    by by rewrite <- data_app, filter_split.
  assert (data (msg_ <$> delayed_messages_ th) ≡ₚ
    data (msg_ <$> filter (fun d => Match (msg_ d) h id = true) (delayed_messages_ th)) ++
    data (msg_ <$> filter (fun d => Match (msg_ d) h id = false) (delayed_messages_ th))) as ->
    by by rewrite <- data_app, <- fmap_app, (filter_split (fun d => Match (msg_ d) h id)).
  destruct (fPeekKeep_ th); cbn [andb]; [destruct (Match (msgPeek_ th) h id)|]; cbn [negb];
    rewrite ?data_cons; cbn; solve_Permutation.
Qed.

Lemma perform_owned th o th' :
  perform th o = Ok th' -> owned th' ≡ₚ owned th ++ posted o.
Proof.
  assert (forall ms t h id d, DoDelayPost th ms t h id d = Ok th' ->
    owned th' ≡ₚ owned th ++ data_of (mkMessage h id d)) as Hdelay.
  { intros ms t h id d. unfold DoDelayPost. destruct (IsQuitting th).
    - intros [= <-]. unfold owned. cbn. by rewrite <- app_assoc.
    - intros Hp. apply res_bind_ok in Hp as (u & _ & [= <-]). unfold owned, queued. cbn.
      rewrite push_heap_perm. cbn. rewrite !data_app, !data_cons. cbn. solve_Permutation. }
  destruct o as [h id d|ms h id d|t h id d|h id| | |n]; cbn [perform posted]; intros Hp.
  - injection Hp as <-. unfold Post. destruct (IsQuitting th).
    + unfold owned. cbn. by rewrite <- app_assoc.
    + unfold owned, queued. cbn. rewrite !data_app, data_cons. cbn. rewrite app_nil_r. solve_Permutation.
  - apply res_bind_ok in Hp as (t & _ & Hp). by eapply Hdelay.
  - by eapply Hdelay.
  - injection Hp as <-. rewrite app_nil_r. apply clear_owned.
  - injection Hp as <-. by rewrite app_nil_r.
  - injection Hp as <-. by rewrite app_nil_r.
  - injection Hp as <-. by rewrite app_nil_r.
Qed.

Definition posted_all (ops : list thread_op) : list positive := concat (posted <$> ops).

Lemma performs_owned th ops th' :
  performs th ops = Ok th' -> owned th' ≡ₚ owned th ++ posted_all ops.
Proof.
  revert th. induction ops as [|o ops IH]; intros th Hp; cbn in Hp.
  - injection Hp as <-. by rewrite app_nil_r.
  - apply res_bind_ok in Hp as (th1 & H1 & H2).
    rewrite (IH th1 H2), (perform_owned _ _ _ H1). unfold posted_all. cbn. by rewrite <- app_assoc.
Qed.

Lemma trigger_delayed_data fuel t ms ds ms' ds' next :
  trigger_delayed fuel t ms ds = Ok (ms', ds', next) ->
  data (ms' ++ (msg_ <$> ds')) ≡ₚ data (ms ++ (msg_ <$> ds)).
Proof.
  revert ms ds. induction fuel as [|fuel IH]; intros ms ds; cbn [trigger_delayed]; [done|].
  destruct ds as [|top ds]; [by intros [= <- <- <-]|].
  destruct (t <? run_time_ms_ top); [by intros [= <- <- <-]|].
  intros Hi%IH. rewrite Hi, pop_heap_perm, <- app_assoc. done.
Qed.

Lemma pull_data th ms m th' :
  pull th ms = Ok (m, th') ->
  data (messages_ th') ++ deleted th' ++ match m with Some m => data_of m | None => [] end ≡ₚ
    data ms ++ deleted th /\
  fPeekKeep_ th' = fPeekKeep_ th /\ msgPeek_ th' = msgPeek_ th /\
  delayed_messages_ th' = delayed_messages_ th.
Proof.
  revert th. induction ms as [|m0 ms IH]; intros th; cbn [pull].
  - intros [= <- <-]. cbn. by rewrite app_nil_r.
  - destruct (message_id m0 =? MQID_DISPOSE).
    + intros Hp. apply res_bind_ok in Hp as (u & _ & Hp). destruct (IH _ Hp) as (E & ? & ? & ?).
      split; [|done]. rewrite E, data_cons, (delete_data_deleted th _ m0 eq_refl). solve_Permutation.
    + intros [= <- <-]. split; [|done]. rewrite data_cons. cbn. solve_Permutation.
Qed.

Definition handed (m : option Message) : list positive :=
  match m with Some m => data_of m | None => [] end.

Definition env_posted (used : list wait_event) : list positive :=
  posted_all (concat (during <$> used)).

Lemma posted_all_app l l' : posted_all (l ++ l') = posted_all l ++ posted_all l'.
Proof. unfold posted_all. by rewrite fmap_app, concat_app. Qed.

Lemma perform_peek th o th' :
  perform th o = Ok th' -> fPeekKeep_ th = false -> fPeekKeep_ th' = false.
Proof.
  assert (forall ms t h id d, DoDelayPost th ms t h id d = Ok th' -> fPeekKeep_ th' = fPeekKeep_ th)
    as Hdelay.
  { intros ms t h id d. unfold DoDelayPost. destruct (IsQuitting th); [by intros [= <-]|].
    intros Hp. by apply res_bind_ok in Hp as (u & _ & [= <-]). }
  intros Hp Hk. destruct o; cbn [perform] in Hp; try (by injection Hp as <-).
  - injection Hp as <-. unfold Post. by destruct (IsQuitting th).
  - apply res_bind_ok in Hp as (t & _ & Hp). by rewrite (Hdelay _ _ _ _ _ Hp).
  - by rewrite (Hdelay _ _ _ _ _ Hp).
  - injection Hp as <-. unfold Clear. rewrite clear_eq. cbn. by rewrite Hk.
Qed.

Lemma performs_peek th ops th' :
  performs th ops = Ok th' -> fPeekKeep_ th = false -> fPeekKeep_ th' = false.
Proof.
  revert th. induction ops as [|o ops IH]; intros th Hp Hk; cbn in Hp; [by injection Hp as <-|].
  apply res_bind_ok in Hp as (th1 & H1 & H2). eapply IH; [done|]. by eapply perform_peek.
Qed.

(** One round of the loop: what is pulled was queued. *)
Lemma round_owned fuel t th ms ds next m th' :
  trigger_delayed fuel t (messages_ th) (delayed_messages_ th) = Ok (ms, ds, next) ->
  pull (with_delayed th ds (delayed_next_num_ th)) ms = Ok (m, th') ->
  fPeekKeep_ th = false ->
  owned th' ++ handed m ≡ₚ owned th /\ fPeekKeep_ th' = false.
Proof.
  intros Ht Hp Hk. apply trigger_delayed_data in Ht.
  destruct (pull_data _ _ _ _ Hp) as (E & Hk' & _ & Hd). cbn in Hk', Hd, E.
  split; [|by rewrite Hk', Hk].
  unfold owned, queued. rewrite Hk', Hk, Hd. cbn [app].
  rewrite !data_app. rewrite !data_app in Ht.
  transitivity ((data (messages_ th') ++ deleted th' ++ handed m) ++ data (msg_ <$> ds));
    [solve_Permutation|].
  unfold handed. rewrite E, <- Ht. solve_Permutation.
Qed.

Lemma get_loop_owned env cmsWait msStart t elapsed th m th' env' :
  get_loop env cmsWait msStart t elapsed th = Ok (m, th', env') ->
  fPeekKeep_ th = false ->
  fPeekKeep_ th' = false /\
  exists used, env = used ++ env' /\
    owned th' ++ handed m ≡ₚ owned th ++ env_posted used.
Proof.
  revert t elapsed th. induction env as [|e env IH]; intros t elapsed th Hg Hpeek;
    cbn [get_loop] in Hg; apply res_bind_ok in Hg as ([[ms ds] next] & Ht & Hg);
    apply res_bind_ok in Hg as ([m1 th1] & Hp & Hg);
    destruct (round_owned _ _ _ _ _ _ _ _ Ht Hp Hpeek) as [E Hk1];
    (destruct m1 as [m1|]; [|destruct (IsQuitting th1)]).
  1, 2, 4, 5: injection Hg as <- <- <-; split; [done|]; exists []; split; [done|];
    change (env_posted []) with (@nil positive); rewrite (app_nil_r (owned th)); exact E.
  - discriminate Hg.
  - cbn in E. rewrite app_nil_r in E. apply res_bind_ok in Hg as (th2 & Hd & Hg).
    pose proof (performs_owned _ _ _ Hd) as E2.
    pose proof (performs_peek _ _ _ Hd Hk1) as Hk2.
    change (owned (with_wait th1 _)) with (owned th1) in E2. rewrite E in E2.
    destruct (negb (succeeds e));
      [|destruct (negb (cmsWait =? kForever) && (TimeDiff (TimeMillis (now th2)) msStart >=? cmsWait))].
    1, 2: injection Hg as <- <- <-; split; [done|]; exists [e]; split; [done|];
      rewrite app_nil_r, E2; unfold env_posted; cbn; by rewrite app_nil_r.
    destruct (IH _ _ _ Hg Hk2) as (Hk3 & used & -> & E3). split; [done|].
    exists (e :: used). split; [done|]. rewrite E3, E2.
    change (env_posted (e :: used)) with (posted_all (during e ++ concat (during <$> used))).
    by rewrite posted_all_app, <- app_assoc.
Qed.

(** C26. The queue loses, leaks and deletes twice no data: after [Get], the
    blocks that are queued, those that were deleted and the one that is handed
    out are exactly the blocks there were and those posted while it waited,
    whatever other threads post, clear or stop meanwhile. *)
Theorem get_conserves_data env th cmsWait m th' env' :
  Get env th cmsWait = Ok (m, th', env') ->
  exists used, env = used ++ env' /\
    owned th' ++ handed m ≡ₚ owned th ++ env_posted used.
Proof.
  unfold Get. destruct (fPeekKeep_ th) eqn:Ek.
  - intros [= <- <- <-]. exists []. split; [done|].
    change (env_posted []) with (@nil positive). rewrite app_nil_r.
    unfold owned, queued. cbn. rewrite Ek. cbn [app]. rewrite data_cons. solve_Permutation.
  - intros Hg. by apply get_loop_owned in Hg as [_ Hg].
Qed.

(** C25. [Get] delivers in order: the posted messages as they were posted,
    then the delayed ones that are due, by their time and, at the same time,
    by their number; disposals on the way are executed.  A thread that was
    told to quit hands out all of these before [Get] fails, without a wait. *)
Theorem get_in_order env th cmsWait :
  wf th -> fPeekKeep_ th = false ->
  exists due rest,
    due_order (TimeMillis (now th)) (delayed_messages_ th) due rest /\
    let '(dis, r) := next_message (messages_ th ++ (msg_ <$> due)) in
    match r with
    | Some (m, q) =>
        exists th', Get env th cmsWait = Ok (Some m, th', env) /\ messages_ th' = q /\
          delayed_messages_ th' = rest /\ deleted th' = deleted th ++ data dis /\ waits th' = waits th
    | None =>
        IsQuitting th = true ->
        exists th', Get env th cmsWait = Ok (None, th', env) /\ messages_ th' = [] /\
          delayed_messages_ th' = rest /\ deleted th' = deleted th ++ data dis /\ waits th' = waits th
    end.
Proof.
  intros Hw Hk. unfold Get. rewrite Hk.
  destruct (get_round env cmsWait (TimeMillis (now th)) (TimeMillis (now th)) 0 th Hw)
    as (due & rest & next & Hd & _ & _ & E).
  exists due, rest. split; [done|].
  destruct (next_message _) as [dis [[m q]|]]; cbn beta zeta in E.
  - rewrite E, disposed_eq. eexists. split; [reflexivity|]. cbn. done.
  - intros Hq. rewrite E, Hq, disposed_eq. eexists. split; [reflexivity|]. cbn. done.
Qed.

(** The invariant holds through every operation that posts disposals without
    a handler, as [Dispose] does. *)
Definition op_ok (o : thread_op) : Prop :=
  match o with
  | OpPost h id d | OpPostDelayed _ h id d | OpPostAt _ h id d => disposable (mkMessage h id d)
  | _ => True
  end.

Lemma perform_wf th o th' : wf th -> op_ok o -> perform th o = Ok th' -> wf th'.
Proof.
  intros (Hh & Hm & Hd) Ho.
  assert (forall ms t h id d, disposable (mkMessage h id d) ->
    DoDelayPost th ms t h id d = Ok th' -> wf th') as Hdelay.
  { intros ms t h id d Hdis. unfold DoDelayPost. destruct (IsQuitting th); [by intros [= <-]|].
    intros Hp. apply res_bind_ok in Hp as (u & _ & [= <-]). split; [by apply push_heap_heap|].
    split; [done|]. cbn. rewrite push_heap_perm. by constructor. }
  destruct o; cbn [perform op_ok] in *; intros Hp; try (by injection Hp as <-).
  - injection Hp as <-. unfold Post. destruct (IsQuitting th); [done|].
    split; [done|split; [|done]]. cbn. apply Forall_app. split; [done|]. by constructor.
  - apply res_bind_ok in Hp as (t & _ & Hp). by eapply Hdelay.
  - by eapply Hdelay.
  - injection Hp as <-. unfold Clear. rewrite clear_eq.
    split; [apply make_heap_heap|]. cbn. rewrite make_heap_perm.
    rewrite list.Forall_forall in Hm. rewrite list.Forall_forall in Hd. split; apply list.Forall_forall;
      intros x [_ Hx]%list_elem_of_filter; auto.
Qed.

Lemma performs_wf th ops th' : wf th -> Forall op_ok ops -> performs th ops = Ok th' -> wf th'.
Proof.
  intros Hw Hops. revert th Hw. induction Hops as [|o ops Ho _ IH]; intros th Hw Hp; cbn in Hp.
  - by injection Hp as <-.
  - apply res_bind_ok in Hp as (th1 & H1 & H2). eapply IH; [|done]. by eapply perform_wf.
Qed.

(** ** How long a thread waits *)

Lemma perform_waits th o th' : perform th o = Ok th' -> waits th' = waits th.
Proof.
  assert (forall ms t h id d, DoDelayPost th ms t h id d = Ok th' -> waits th' = waits th) as Hdelay.
  { intros ms t h id d. unfold DoDelayPost. destruct (IsQuitting th); [by intros [= <-]|].
    intros Hp. by apply res_bind_ok in Hp as (u & _ & [= <-]). }
  destruct o; cbn [perform]; intros Hp; try (by injection Hp as <-).
  - injection Hp as <-. unfold Post. by destruct (IsQuitting th).
  - apply res_bind_ok in Hp as (t & _ & Hp). by rewrite (Hdelay _ _ _ _ _ Hp).
  - by rewrite (Hdelay _ _ _ _ _ Hp).
  - injection Hp as <-. unfold Clear. by rewrite clear_eq.
Qed.

Lemma performs_waits th ops th' : performs th ops = Ok th' -> waits th' = waits th.
Proof.
  revert th. induction ops as [|o ops IH]; intros th Hp; cbn in Hp; [by injection Hp as <-|].
  apply res_bind_ok in Hp as (th1 & H1 & H2). rewrite (IH _ H2). by eapply perform_waits.
Qed.

Lemma pull_waits th ms m th' : pull th ms = Ok (m, th') -> waits th' = waits th.
Proof.
  revert th. induction ms as [|m0 ms IH]; intros th; cbn [pull]; [by intros [= <- <-]|].
  destruct (message_id m0 =? MQID_DISPOSE); [|by intros [= <- <-]].
  intros Hp. apply res_bind_ok in Hp as (u & _ & Hp). by rewrite (IH _ Hp).
Qed.

Lemma pull_keeps th ms m th' :
  pull th ms = Ok (m, th') -> delayed_messages_ th' = delayed_messages_ th /\ now th' = now th.
Proof.
  revert th. induction ms as [|m0 ms IH]; intros th; cbn [pull]; [by intros [= <- <-]|].
  destruct (message_id m0 =? MQID_DISPOSE); [|by intros [= <- <-]].
  intros Hp. apply res_bind_ok in Hp as (u & _ & Hp). by destruct (IH _ Hp) as [-> ->].
Qed.

Lemma perform_heap th o th' :
  is_heap (delayed_messages_ th) -> perform th o = Ok th' -> is_heap (delayed_messages_ th').
Proof.
  intros Hh.
  assert (forall ms t h id d, DoDelayPost th ms t h id d = Ok th' -> is_heap (delayed_messages_ th'))
    as Hdelay.
  { intros ms t h id d. unfold DoDelayPost. destruct (IsQuitting th); [by intros [= <-]|].
    intros Hp. apply res_bind_ok in Hp as (u & _ & [= <-]). by apply push_heap_heap. }
  destruct o; cbn [perform]; intros Hp; try (by injection Hp as <-).
  - injection Hp as <-. unfold Post. by destruct (IsQuitting th).
  - apply res_bind_ok in Hp as (t & _ & Hp). by eapply Hdelay.
  - by eapply Hdelay.
  - injection Hp as <-. unfold Clear. rewrite clear_eq. apply make_heap_heap.
Qed.

Lemma performs_heap th ops th' :
  is_heap (delayed_messages_ th) -> performs th ops = Ok th' -> is_heap (delayed_messages_ th').
Proof.
  revert th. induction ops as [|o ops IH]; intros th Hh Hp; cbn in Hp; [by injection Hp as <-|].
  apply res_bind_ok in Hp as (th1 & H1 & H2). eapply IH; [|done]. by eapply perform_heap.
Qed.

Definition is_int (x : Z) : Prop := -2147483648 <= x < 2147483648.

(** A wait of a [Get(cmsWait)] that began at [start].  Nothing that is due is
    slept on.  When no message is further away than an [int] holds and the
    clock did not go back, the wait ends no later than the first of them is
    due and than the time the caller still has; it is one of these times, or
    for ever when there are none. *)
Definition in_time (start cmsWait : Z) (w : sleep) : Prop :=
  Forall (fun d => from_ms w < run_time_ms_ d) (asleep_on w) /\
  (Forall (fun d => is_int (run_time_ms_ d - from_ms w)) (asleep_on w) -> start <= from_ms w ->
   let left := cmsWait - (from_ms w - start) in
   (cms w = kForever /\ cmsWait = kForever /\ asleep_on w = []) \/
   (0 <= cms w /\
    Forall (fun d => cms w <= run_time_ms_ d - from_ms w) (asleep_on w) /\
    (cmsWait = kForever \/ cms w <= left) /\
    ((0 <= cmsWait /\ cms w = left) \/
     Exists (fun d => cms w = run_time_ms_ d - from_ms w) (asleep_on w)))).

(** The time computed for a wait, with [rest] not yet due. *)
Lemma wait_in_time start cmsWait t rest next :
  0 <= cmsWait \/ cmsWait = kForever -> is_int cmsWait ->
  cmsWait = kForever \/ t - start <= cmsWait ->
  Forall (fun d => t < run_time_ms_ d) rest -> delay_next t rest next ->
  in_time start cmsWait (mkSleep (i32 (wait_time cmsWait (t - start) next)) t rest).
Proof.
  intros Hc Hci He Hrest Hn. split; [exact Hrest|]. cbn [cms from_ms asleep_on].
  intros Hint Hst. unfold wait_time, is_int, kForever in *.
  destruct Hn as [[-> ->]|(d & Hd & -> & Hmin)].
  - destruct (Z.eqb_spec cmsWait (-1)) as [->|Hc1]; [by left|].
    change (kForever =? -1) with true. cbn [negb andb]. right. rewrite i32_small by lia.
    split; [lia|]. split; [constructor|]. split; [right; lia|left; lia].
  - rewrite list.Forall_forall in Hrest, Hint, Hmin.
    pose proof (Hrest d Hd) as Hd1. pose proof (Hint d Hd) as Hd2. cbn in Hd1, Hd2. right.
    assert (Hmin' : forall x, x <= run_time_ms_ d - t ->
      Forall (fun d => x <= run_time_ms_ d - t) rest).
    { intros x Hx. apply list.Forall_forall. intros d' Hd'. pose proof (Hmin d' Hd'). cbn in *. lia. }
    destruct (Z.eqb_spec cmsWait (-1)) as [->|Hc1].
    + rewrite i32_small by lia. split; [lia|]. split; [apply Hmin'; lia|]. split; [by left|].
      right. apply list.Exists_exists. by exists d.
    + rewrite (proj2 (Z.eqb_neq (run_time_ms_ d - t) (-1))) by lia. cbn [negb andb].
      destruct (Z.ltb_spec (run_time_ms_ d - t) (Z.max 0 (cmsWait - (t - start))));
        rewrite i32_small by lia.
      * split; [lia|]. split; [apply Hmin'; lia|]. split; [right; lia|].
        right. apply list.Exists_exists. by exists d.
      * split; [lia|]. split; [apply Hmin'; lia|]. split; [right; lia|left; lia].
Qed.

Lemma get_loop_waits env cmsWait start t th m th' env' :
  0 <= cmsWait \/ cmsWait = kForever -> is_int cmsWait ->
  cmsWait = kForever \/ t - start <= cmsWait ->
  is_heap (delayed_messages_ th) -> t = TimeMillis (now th) ->
  get_loop env cmsWait start t (t - start) th = Ok (m, th', env') ->
  exists ws, waits th' = waits th ++ ws /\ Forall (in_time start cmsWait) ws.
Proof.
  intros Hc Hci. revert t th.
  induction env as [|e env IH]; intros t th He Hh Ht Hg;
    cbn [get_loop] in Hg;
    destruct (trigger_delayed_spec (S (length (delayed_messages_ th))) t (messages_ th)
      (delayed_messages_ th) Hh) as (due & rest & next & E & Hdue & Hrest & Hnext);
    [lia| |lia|]; rewrite E, bind_ok in Hg; cbn beta iota in Hg;
    apply res_bind_ok in Hg as ([m1 th1] & Hp & Hg);
    pose proof (pull_waits _ _ _ _ Hp) as Hw1; destruct (pull_keeps _ _ _ _ Hp) as [Hd1 Hn1];
    cbn in Hw1, Hd1, Hn1; (destruct m1 as [m1|]; [|destruct (IsQuitting th1)]).
  1, 2, 4, 5: injection Hg as <- <- <-; exists []; by rewrite app_nil_r.
  - discriminate Hg.
  - apply res_bind_ok in Hg as (th2 & Hd & Hg). pose proof (performs_waits _ _ _ Hd) as Hw2.
    cbn in Hw2. rewrite Hw1, Hd1, Hn1, <- Ht in Hw2.
    pose proof (wait_in_time start cmsWait t rest next Hc Hci He (proj2 (proj2 (proj2 Hdue))) Hnext)
      as Hin.
    assert (is_heap (delayed_messages_ th2)) as Hh2.
    { eapply performs_heap; [|exact Hd]. cbn. by rewrite Hd1. }
    destruct (negb (succeeds e)); [|destruct (negb (cmsWait =? kForever) && _) eqn:Eel].
    1, 2: injection Hg as <- <- <-; rewrite Hw2; eexists; split; [done|]; by constructor.
    assert (cmsWait = kForever \/ TimeMillis (now th2) - start <= cmsWait) as He2.
    { unfold TimeDiff in Eel. rewrite Z.geb_leb in Eel. apply andb_false_iff in Eel as [E1|E1];
        bool_inv; [by left|right; lia]. }
    destruct (IH _ _ He2 Hh2 eq_refl Hg) as (ws & Hws & Hall).
    exists (mkSleep (i32 (wait_time cmsWait (t - start) next)) t rest :: ws).
    split; [by rewrite Hws, Hw2, <- app_assoc|]. by constructor.
Qed.

(** C27. A thread does not sleep through a delayed message or past the time
    its caller gives it: every wait of [Get(cmsWait)], the first and every one
    after a wake-up, with whatever other threads post, clear or stop meanwhile,
    finds only messages that are not yet due, and lasts at most until the first
    of them is due and at most what is left of [cmsWait] at that moment; it is
    the shorter of the two, and without a limit only when there is neither.
    The clock is the one the loop last read.  It is assumed that [cmsWait] is
    not a negative number other than kForever; a wait is covered when no
    message it sleeps on is 2^31 ms or more away (see [far_message]) and the
    clock has not gone back since the call. *)
Theorem get_wakes_in_time env th cmsWait m th' env' :
  wf th -> fPeekKeep_ th = false -> 0 <= cmsWait \/ cmsWait = kForever -> is_int cmsWait ->
  Get env th cmsWait = Ok (m, th', env') ->
  exists ws, waits th' = waits th ++ ws /\
    Forall (in_time (TimeMillis (now th)) cmsWait) ws.
Proof.
  intros (Hh & _) Hk Hc Hci Hg. unfold Get in Hg. rewrite Hk in Hg.
  rewrite <- (Z.sub_diag (TimeMillis (now th))) in Hg.
  eapply get_loop_waits; [done..| |done|reflexivity|exact Hg].
  destruct Hc; [right; lia|by left].
Qed.
End thread.

(** ** A heap

    A list kept in order is a heap; the concrete runs use this one. *)
Fixpoint insert_dm (x : DelayedMessage) (l : list DelayedMessage) : list DelayedMessage :=
  match l with
  | [] => [x]
  | y :: l => if dm_lt x y then y :: insert_dm x l else x :: y :: l
  end.

Lemma insert_dm_perm x l : insert_dm x l ≡ₚ x :: l.
Proof.
  induction l as [|y l IH]; [done|]. cbn. destruct (dm_lt x y); [|done].
  by rewrite IH, Permutation_swap.
Qed.

Notation in_order := (StronglySorted (fun a b => dm_lt a b = false)).

Lemma insert_dm_order x l : in_order l -> in_order (insert_dm x l).
Proof.
  induction 1 as [|y l Hl IH Hy]; cbn; [by repeat constructor|].
  destruct (dm_lt x y) eqn:E.
  - constructor; [done|]. rewrite insert_dm_perm. constructor; [|done].
    rewrite dm_lt_false. unfold dm_lt in E. rewrite orb_true_iff, andb_true_iff, !Z.ltb_lt, Z.eqb_eq in E. lia.
  - constructor; [by constructor|]. constructor; [done|].
    eapply list.Forall_impl; [exact Hy|]. cbn. intros z Hz. by eapply dm_lt_trans.
Qed.

Definition sort_dm (l : list DelayedMessage) : list DelayedMessage := foldr insert_dm [] l.

Lemma sort_dm_perm l : sort_dm l ≡ₚ l.
Proof. induction l as [|x l IH]; [done|]. cbn. by rewrite insert_dm_perm, IH. Qed.

Lemma sort_dm_order l : in_order (sort_dm l).
Proof. induction l as [|x l IH]; [constructor|]. by apply insert_dm_order. Qed.

Lemma order_lookup l i j x y :
  in_order l -> (j < i)%nat -> l !! i = Some x -> l !! j = Some y -> dm_lt y x = false.
Proof.
  intros Hl. revert i j. induction Hl as [|z l Hl IH Hz]; intros i j Hlt Hi Hj; [done|].
  destruct i as [|i]; [lia|]. destruct j as [|j]; cbn in Hi, Hj.
  - injection Hj as ->. rewrite list.Forall_forall in Hz. by eapply Hz, list_elem_of_lookup_2.
  - eapply (IH i j); [lia|done|done].
Qed.

Lemma order_heap l : in_order l -> is_heap l.
Proof.
  intros Hl i x y Hi Hx Hy. eapply order_lookup; [done| |done|done].
  pose proof (Nat.le_div2_diag_l (i - 1)). lia.
Qed.

Definition sorted_heap : HeapOps.
Proof.
  refine {| push_heap c x := sort_dm (x :: c); pop_heap c := sort_dm (tail c); make_heap := sort_dm |};
    intros; try apply sort_dm_perm; apply order_heap, sort_dm_order.
Defined.

#[local] Existing Instance sorted_heap.

(** ** Runs

    Handler 1 is posted data 11; data 12 and 13 are posted with delays of 50
    and 20 ms, the object 14 is disposed of.  At 60 ms all are due. *)
Definition some_thread : thread :=
  match performs (new_thread 0)
    [OpPost (Some 1%positive) 0 (Some 11%positive);
     OpPostDelayed 50 (Some 1%positive) 0 (Some 12%positive);
     OpPostDelayed 20 (Some 1%positive) 0 (Some 13%positive);
     OpPost None MQID_DISPOSE (Some 14%positive)]
  with Ok th => th | Fail _ => new_thread 0 end.

Lemma some_thread_wf : wf some_thread.
Proof.
  split; [apply order_heap|split]; vm_compute; repeat constructor; intros Hf; discriminate Hf.
Qed.

Definition at_60ms (th : thread) : thread := with_now th 60000000.

Example gets_in_order :
  (('(m1, th, _) ← Get [] (at_60ms some_thread) kForever;
    '(m2, th, _) ← Get [] th kForever;
    '(m3, th, _) ← Get [] th kForever;
    Ok (pdata <$> omap id [m1; m2; m3], deleted th, size th)) : res _) =
  Ok ([Some 11%positive; Some 13%positive; Some 12%positive], [14%positive], 0).
Proof. vm_compute. reflexivity. Qed.

Lemma get_in_order_witness :
  exists due rest,
    due_order 60 (delayed_messages_ some_thread) due rest /\
    let '(dis, r) := next_message (messages_ some_thread ++ (msg_ <$> due)) in
    match r with
    | Some (m, q) =>
        exists th', Get [] (at_60ms some_thread) kForever = Ok (Some m, th', []) /\
          messages_ th' = q /\ delayed_messages_ th' = rest /\
          deleted th' = deleted some_thread ++ data dis /\ waits th' = waits some_thread
    | None =>
        false = true ->
        exists th', Get [] (at_60ms some_thread) kForever = Ok (None, th', []) /\
          messages_ th' = [] /\ delayed_messages_ th' = rest /\
          deleted th' = deleted some_thread ++ data dis /\ waits th' = waits some_thread
    end.
Proof. apply (get_in_order [] (at_60ms some_thread) kForever); [apply some_thread_wf|reflexivity]. Defined.

(** While the thread waits, another one posts data 15. *)
Definition another_posts : list wait_event :=
  [mkWait [OpElapse 5000000; OpPost (Some 1%positive) 0 (Some 15%positive)] true].

Definition idle_thread : thread :=
  match performs (new_thread 0) [OpPostDelayed 50 (Some 1%positive) 0 (Some 12%positive)]
  with Ok th => th | Fail _ => new_thread 0 end.

Definition after_wait : thread :=
  match Get another_posts idle_thread kForever with Ok (_, th, _) => th | Fail _ => new_thread 0 end.

Lemma get_conserves_data_witness :
  exists used, another_posts = used ++ [] /\
    owned after_wait ++ handed (Some (mkMessage (Some 1%positive) 0 (Some 15%positive))) ≡ₚ
      owned idle_thread ++ env_posted used.
Proof. apply (get_conserves_data another_posts idle_thread kForever). vm_compute. reflexivity. Defined.

(** Two wake-ups for nothing, 20 and 10 ms after each other, in a wait of 100
    ms, and a message in 50. *)
Definition woken_twice : list wait_event :=
  [mkWait [OpElapse 20000000] true; mkWait [OpElapse 10000000] true;
   mkWait [OpElapse 20000000] true].

Definition after_two : thread :=
  match Get woken_twice idle_thread 100 with Ok (_, th, _) => th | Fail _ => new_thread 0 end.

Lemma idle_thread_wf : wf idle_thread.
Proof.
  split; [apply order_heap|split]; vm_compute; repeat constructor; intros Hf; discriminate Hf.
Qed.

Lemma get_wakes_in_time_witness :
  exists ws, waits after_two = [] ++ ws /\ Forall (in_time 0 100) ws.
Proof.
  apply (get_wakes_in_time woken_twice idle_thread 100
    (Some (mkMessage (Some 1%positive) 0 (Some 12%positive))) after_two []).
  - apply idle_thread_wf.
  - reflexivity.
  - left. lia.
  - unfold is_int. lia.
  - vm_compute. reflexivity.
Defined.

(** The next delayed message is waited for, or what is left of the time. *)
Example waits_for_the_delayed : cms <$> waits after_two = [50; 30; 20].
Proof. reflexivity. Qed.

Example waits_for_the_rest :
  (('(_, th, _) ← Get [mkWait [OpElapse 15000000] true; mkWait [OpElapse 25000000] true]
      idle_thread 40; Ok (cms <$> waits th)) : res _) = Ok [40; 25].
Proof. vm_compute. reflexivity. Qed.

(** A message 2^31 ms ahead: [int] cannot hold the delay, so that GetDelay
    says it is due, and [Get] waits a negative time. *)
Definition far_thread : thread :=
  match performs (new_thread 0) [OpPostAt 2147483648 (Some 1%positive) 0 None]
  with Ok th => th | Fail _ => new_thread 0 end.

Example far_message :
  GetDelay far_thread = 0 /\
  (('(_, th, _) ← Get [mkWait [] false] far_thread kForever; Ok (cms <$> waits th)) : res _) =
    Ok [-2147483648].
Proof. vm_compute. done. Qed.

(** A message without a handler that is no disposal. *)
Example no_handler_crashes :
  ProcessMessages (fun _ _ => []) 5 [] (Post (new_thread 0) None 0 None) 0 = Fail NullDeref.
Proof. vm_compute. reflexivity. Qed.

(** After Quit a post deletes its data; what was posted before is still
    handed out, then [ProcessMessages] returns false. *)
Example quit_drains :
  let th := Quit (Post (new_thread 0) (Some 1%positive) 0 (Some 11%positive)) in
  (('(r, th, _) ← ProcessMessages (fun _ _ => []) 5 []
      (Post th (Some 1%positive) 0 (Some 12%positive)) kForever;
    Ok (r, deleted th, size th)) : res _) = Ok (false, [12%positive], 0).
Proof. vm_compute. reflexivity. Qed.

(** The thread of the server: RtcDtls only wraps it, nothing calls
    ProcessMessages, so that the handshake timers of the SSL adapter pile up
    and never run. *)
Example timers_pile_up :
  (size <$> performs (new_thread 0)
    [OpPostDelayed 1000 (Some 1%positive) 0 (Some 11%positive); OpElapse 5000000000;
     OpPostDelayed 1000 (Some 1%positive) 0 (Some 12%positive); OpElapse 5000000000]) = Ok 2.
Proof. vm_compute. reflexivity. Qed.
