(* ===== verification/ThreadManager.v ===== *)
(** * The registry of threads (rtc::ThreadManager in rtc_base/thread.cc)

    All message queues, the one of the running thread, and the graph of who
    has ever sent to whom, in which a debug build looks for cycles.  The DTLS
    transport wraps the server's thread here before it makes its adapter. *)
From S2P Require Import Prelude.
From S2P Require Import TimeUtils.
From S2P Require Import Thread.

Local Open Scope Z_scope.

Section manager.
Context `{HeapOps}.

(** A rtc::Thread without its queue, which is [queue]; [thread_] tells whether
    it has a system thread. *)
Record thread_object := mkThreadObject {
  queue : thread;
  thread_ : bool;
  owned_ : bool;
  blocking_calls_allowed_ : bool;
  fInitialized_ : bool;
  fDestroyed_ : bool;
  task_queue_registration_ : bool
}.

(** [threads] holds the objects that are alive, [current_] is the value of
    the thread-local key, [freed] the data that destroyed threads deleted. *)
Record manager := mkManager {
  message_queues_ : list positive;
  processing_ : Z;
  send_graph_ : gmap positive (gset positive);
  current_ : option positive;
  threads : gmap positive thread_object;
  freed : list positive
}.

Definition new_manager : manager := mkManager [] 0 ∅ None ∅ [].

Definition with_queues (m : manager) q := mkManager q (processing_ m) (send_graph_ m) (current_ m) (threads m) (freed m).
Definition with_processing (m : manager) n := mkManager (message_queues_ m) n (send_graph_ m) (current_ m) (threads m) (freed m).
Definition with_graph (m : manager) g := mkManager (message_queues_ m) (processing_ m) g (current_ m) (threads m) (freed m).
Definition with_current (m : manager) c := mkManager (message_queues_ m) (processing_ m) (send_graph_ m) c (threads m) (freed m).
Definition with_threads (m : manager) t := mkManager (message_queues_ m) (processing_ m) (send_graph_ m) (current_ m) t (freed m).

Definition get_thread (m : manager) (t : positive) : res thread_object :=
  from_opt Dangling (threads m !! t).
Definition set_thread (m : manager) (t : positive) (o : thread_object) : manager :=
  with_threads m (<[t := o]> (threads m)).

Definition with_queue (o : thread_object) q := mkThreadObject q (thread_ o) (owned_ o)
  (blocking_calls_allowed_ o) (fInitialized_ o) (fDestroyed_ o) (task_queue_registration_ o).
Definition with_registration (o : thread_object) b := mkThreadObject (queue o) (thread_ o) (owned_ o)
  (blocking_calls_allowed_ o) (fInitialized_ o) (fDestroyed_ o) b.
Definition with_running (o : thread_object) run own := mkThreadObject (queue o) run own
  (blocking_calls_allowed_ o) (fInitialized_ o) (fDestroyed_ o) (task_queue_registration_ o).

(** ** Registration *)

Definition AddInternal (m : manager) (t : positive) : res manager :=
  _ ← require (processing_ m =? 0) AssertFailed;
  Ok (with_queues m (message_queues_ m ++ [t])).

Fixpoint erase_first (t : positive) (l : list positive) : list positive :=
  match l with
  | [] => []
  | x :: l => if decide (x = t) then l else x :: erase_first t l
  end.

Definition RemoveFromSendGraph (g : gmap positive (gset positive)) (t : positive) :=
  (fun s => s ∖ {[t]}) <$> delete t g.

Definition RemoveInternal (m : manager) (t : positive) : res manager :=
  _ ← require (processing_ m =? 0) AssertFailed;
  Ok (with_graph (with_queues m (erase_first t (message_queues_ m)))
        (RemoveFromSendGraph (send_graph_ m) t)).

(** [ThreadManager::ClearInternal] *)
Fixpoint clear_queues (handler : option positive) (l : list positive) (m : manager) : res manager :=
  match l with
  | [] => Ok m
  | t :: l =>
      o ← get_thread m t;
      clear_queues handler l
        (set_thread m t (with_queue o (fst (Clear (queue o) handler MQID_ANY None))))
  end.

Definition ClearInternal (m : manager) (handler : option positive) : res manager :=
  let m := with_processing m (processing_ m + 1) in
  m ← clear_queues handler (message_queues_ m) m;
  Ok (with_processing m (processing_ m - 1)).

(** ** Who sends to whom

    [send_graph_] stores every target a thread has ever sent to: an edge stays
    when its send has returned, and goes only with one of its threads. *)

Context (set_order : gset positive -> list positive).

(** The loop over [all_targets], which grows behind its index; [operator[]]
    of the map inserts an empty set for a thread that has sent nothing. *)
Fixpoint collect_targets (fuel : nat) (i : nat) (all_targets : list positive)
    (g : gmap positive (gset positive)) : res (list positive * gmap positive (gset positive)) :=
  match fuel with
  | O => Fail OutOfFuel
  | S fuel =>
      match all_targets !! i with
      | None => Ok (all_targets, g)
      | Some x =>
          let targets := default ∅ (g !! x) in
          collect_targets fuel (S i) (all_targets ++ set_order targets) (<[x := targets]> g)
      end
  end.

Definition RegisterSendAndCheckForCycles (fuel : nat) (g : gmap positive (gset positive))
    (source target : positive) : res (gmap positive (gset positive)) :=
  '(all_targets, g) ← collect_targets fuel 0 [target] g;
  _ ← require (negb (bool_decide (source ∈ all_targets))) AssertFailed;
  Ok (<[source := {[target]} ∪ default ∅ (g !! source)]> g).

(** ** The current thread *)

Definition SetCurrentThread (m : manager) (t : option positive) : res manager :=
  m ← (match t with
       | Some t => o ← get_thread m t; Ok (set_thread m t (with_registration o true))
       | None =>
           match current_ m with
           | Some c => o ← get_thread m c; Ok (set_thread m c (with_registration o false))
           | None => Ok m
           end
       end : res manager);
  Ok (with_current m t).

Definition IsCurrent (m : manager) (t : positive) : bool := bool_decide (current_ m = Some t).

Definition IsOwned (o : thread_object) : res bool :=
  _ ← require (thread_ o) AssertFailed; Ok (owned_ o).

Definition IsProcessingMessagesForTesting (m : manager) (t : positive) : res bool :=
  o ← get_thread m t; Ok ((owned_ o || IsCurrent m t) && negb (IsQuitting (queue o))).

(** The constructor, with [do_init]: [t] is the address of the new object. *)
Definition construct (m : manager) (t : positive) (nanos : Z) : res manager :=
  let o := mkThreadObject (new_thread nanos) false true true true false false in
  AddInternal (set_thread m t o) t.

(** [WrapCurrentWithThreadManager] *)
Definition WrapCurrent (m : manager) (t : positive) : res manager :=
  o ← get_thread m t;
  _ ← require (negb (thread_ o)) AssertFailed;
  SetCurrentThread (set_thread m t (with_running o true false)) (Some t).

Definition WrapCurrentThread (m : manager) (t : positive) (nanos : Z) : res (positive * manager) :=
  match current_ m with
  | Some c => Ok (c, m)
  | None => m ← construct m t nanos; m ← WrapCurrent m t; Ok (t, m)
  end.

(** ~Thread: [Stop], where [Join] returns at once if there is no system
    thread, and [DoDestroy]. *)
Definition destroy (m : manager) (t : positive) : res manager :=
  o ← get_thread m t;
  _ ← require (negb (thread_ o)) AssertFailed;
  m ← RemoveInternal m t;
  let q := DoDestroy (Quit (queue o)) in
  Ok (mkManager (message_queues_ m) (processing_ m) (send_graph_ m) (current_ m)
        (delete t (threads m)) (freed m ++ deleted q)).

Definition UnwrapCurrent (m : manager) (t : positive) : res manager :=
  m ← SetCurrentThread m None;
  o ← get_thread m t; Ok (set_thread m t (with_running o false (owned_ o))).

Definition UnwrapCurrentThread (m : manager) : res manager :=
  match current_ m with
  | None => Ok m
  | Some t =>
      o ← get_thread m t;
      owned ← IsOwned o;
      if (owned : bool) then Ok m else (m ← UnwrapCurrent m t; destroy m t)
  end.

Definition SetAllowBlockingCalls (m : manager) (t : positive) (allow : bool) : res (bool * manager) :=
  _ ← require (IsCurrent m t) AssertFailed;
  o ← get_thread m t;
  Ok (blocking_calls_allowed_ o,
      set_thread m t (mkThreadObject (queue o) (thread_ o) (owned_ o) allow (fInitialized_ o)
        (fDestroyed_ o) (task_queue_registration_ o))).

(** ** The send graph has no cycle *)

Notation graph := (gmap positive (gset positive)).

Definition succ (g : graph) (x : positive) : gset positive := default ∅ (g !! x).
Definition edge (g : graph) (x y : positive) : Prop := y ∈ succ g x.
Definition reaches (g : graph) : positive -> positive -> Prop := rtc (edge g).

(** No infinite path; in particular no thread has sent to itself. *)
Definition acyclic (g : graph) : Prop := forall x, Acc (flip (edge g)) x.

Lemma acyclic_no_cycle g x : acyclic g -> ~ tc (edge g) x x.
Proof.
  intros Hg. induction (Hg x) as [x _ IH]. intros Hc.
  inversion Hc as [? ? He|? y ? He Hy]; subst; [by apply (IH x)|].
  apply (IH y He). eapply tc_r; [exact Hy|exact He].
Qed.

Context (set_order_perm : forall X, set_order X ≡ₚ elements X).

Lemma succ_insert_same g x y : succ (<[x := succ g x]> g) y = succ g y.
Proof.
  unfold succ. destruct (decide (y = x)) as [->|Hne].
  - by rewrite lookup_insert_eq.
  - by rewrite lookup_insert_ne.
Qed.

Definition same_graph (g g' : graph) : Prop := forall x, succ g' x = succ g x.

Lemma collect_step fuel done x rest g :
  collect_targets (S fuel) (length done) (done ++ x :: rest) g =
    collect_targets fuel (length (done ++ [x])) ((done ++ [x]) ++ rest ++ set_order (succ g x))
      (<[x := succ g x]> g).
Proof.
  cbn [collect_targets]. rewrite list_lookup_middle by done. cbn zeta.
  rewrite length_app. cbn [length]. rewrite Nat.add_1_r, <- !app_assoc. done.
Qed.

(** One generation: the targets of all of [q] are appended in order. *)
Lemma collect_generation g0 q : forall done extra g,
  same_graph g0 g ->
  exists g', same_graph g0 g' /\ forall fuel,
    collect_targets (length q + fuel) (length done) (done ++ q ++ extra) g =
    collect_targets fuel (length (done ++ q))
      ((done ++ q) ++ extra ++ (q ≫= fun x => set_order (succ g0 x))) g'.
Proof.
  induction q as [|x q IH]; intros done extra g Hg.
  - exists g. split; [done|]. intros fuel. cbn. by rewrite !app_nil_r.
  - assert (same_graph g0 (<[x := succ g x]> g)) as Hg1.
    { intros y. by rewrite succ_insert_same, Hg. }
    destruct (IH (done ++ [x]) (extra ++ set_order (succ g x)) _ Hg1) as (g' & Hg' & E).
    exists g'. split; [done|]. intros fuel.
    change (length (x :: q) + fuel)%nat with (S (length q + fuel)).
    rewrite <- app_comm_cons, collect_step, <- (app_assoc q).
    rewrite E, <- !app_assoc. cbn. rewrite Hg. done.
Qed.

(** Every path from [x] has less than [d] edges. *)
Fixpoint depth_le (g : graph) (d : nat) (x : positive) : Prop :=
  match d with O => False | S d => forall y, edge g x y -> depth_le g d y end.

Lemma depth_mono g d d' x : (d <= d')%nat -> depth_le g d x -> depth_le g d' x.
Proof.
  revert d' x. induction d as [|d IH]; intros [|d'] x Hle Hx; cbn in *; try lia; try done.
  intros y Hy. apply IH; [lia|auto].
Qed.

Lemma depth_bound g (l : list positive) :
  (forall y, y ∈ l -> exists d, depth_le g d y) -> exists d, forall y, y ∈ l -> depth_le g d y.
Proof.
  induction l as [|x l IH]; intros Hl; [by exists O; intros y Hy%elem_of_nil|].
  destruct IH as [d Hd]; [intros y Hy; apply Hl; by right|].
  destruct (Hl x) as [dx Hx]; [left|]. exists (d + dx)%nat.
  intros y [->|Hy]%list.elem_of_cons.
  - apply (depth_mono g dx); [lia|done].
  - apply (depth_mono g d); [lia|auto].
Qed.

Lemma acyclic_depth g x : acyclic g -> exists d, depth_le g d x.
Proof.
  intros Hg. induction (Hg x) as [x _ IH].
  destruct (depth_bound g (elements (succ g x))) as [d Hd].
  - intros y Hy%elem_of_elements. by apply IH.
  - exists (S d). intros y Hy. apply Hd. by apply elem_of_elements.
Qed.

(** The worklist ends, and holds what is reachable from it. *)
Lemma collect_spec g0 d : forall q done g,
  same_graph g0 g -> (forall x, x ∈ q -> depth_le g0 d x) ->
  exists fuel all g', same_graph g0 g' /\
    (forall k, collect_targets (fuel + k) (length done) (done ++ q) g = Ok (all, g')) /\
    forall y, y ∈ all <-> y ∈ done \/ exists x, x ∈ q /\ reaches g0 x y.
Proof.
  induction d as [|d IH]; intros q done g Hg Hq.
  - destruct q as [|x q]; [|by destruct (Hq x); left].
    exists 1%nat, done, g. split; [done|]. split.
    + intros k. cbn. rewrite app_nil_r, lookup_ge_None_2 by done. done.
    + intros y. split; [by left|]. intros [|(x & Hx%elem_of_nil & _)]; done.
  - set (next := (q ≫= fun x => set_order (succ g0 x))).
    assert (forall y, y ∈ next <-> exists x, x ∈ q /\ edge g0 x y) as Hnext.
    { intros y. unfold next. rewrite list_elem_of_bind.
      setoid_rewrite set_order_perm. setoid_rewrite elem_of_elements. unfold edge. naive_solver. }
    destruct (collect_generation g0 q done [] g Hg) as (g1 & Hg1 & E).
    destruct (IH next (done ++ q) g1 Hg1) as (fuel & all & g' & Hg' & Ef & Hall).
    { intros y (x & Hx & Hy)%Hnext. by apply (Hq x). }
    exists (length q + fuel)%nat, all, g'. split; [done|]. split.
    + intros k. rewrite <- Nat.add_assoc. rewrite app_nil_r in E. rewrite E. apply Ef.
    + intros y. rewrite Hall, list.elem_of_app. split.
      * intros [[Hy|Hy]|(z & (x & Hx & Hz)%Hnext & Hy)]; [by left|right; by exists y; split|].
        right. exists x. split; [done|]. by eapply rtc_l.
      * intros [Hy|(x & Hx & Hy)]; [by left; left|].
        inversion Hy as [|? z ? Hz Hzy]; subst; [left; by right|].
        right. exists z. split; [|done]. apply Hnext. by exists x.
Qed.

(** An edge whose target does not reach its source closes no cycle. *)
Lemma acyclic_insert g g' s t :
  acyclic g -> (forall x y, edge g' x y <-> edge g x y \/ (x = s /\ y = t)) ->
  ~ reaches g t s -> acyclic g'.
Proof.
  intros Hg Hedge Hts.
  assert (forall x, ~ reaches g x s -> Acc (flip (edge g')) x) as Hoff.
  { intros x. induction (Hg x) as [x _ IH]. intros Hx. constructor. intros y Hy.
    apply Hedge in Hy as [Hy|[-> _]]; [|by destruct Hx; apply rtc_refl].
    apply IH; [done|]. intros Hys. apply Hx. by eapply rtc_l. }
  intros x. induction (Hg x) as [x _ IH]. constructor. intros y Hy.
  apply Hedge in Hy as [Hy|[-> ->]]; [by apply IH|by apply Hoff].
Qed.

Lemma edge_insert g g' s t x y :
  same_graph g g' ->
  edge (<[s := {[t]} ∪ default ∅ (g' !! s)]> g') x y <-> edge g x y \/ (x = s /\ y = t).
Proof.
  intros Hg. unfold edge, succ at 1. destruct (decide (x = s)) as [->|Hne].
  - rewrite lookup_insert_eq. cbn. fold (succ g' s). rewrite Hg. set_solver.
  - rewrite lookup_insert_ne by done. fold (succ g' x). rewrite Hg. naive_solver.
Qed.


(** A thread that goes takes its edges along. *)
Lemma remove_acyclic g t : acyclic g -> acyclic (RemoveFromSendGraph g t).
Proof.
  intros Hg x. induction (Hg x) as [x _ IH]. constructor. intros y Hy. apply IH.
  unfold flip, edge, succ, RemoveFromSendGraph in Hy |- *. rewrite lookup_fmap in Hy.
  destruct (decide (t = x)) as [->|Hne].
  - rewrite lookup_delete_eq in Hy. cbn in Hy. set_solver.
  - rewrite lookup_delete_ne in Hy by done. destruct (g !! x); cbn in *; set_solver.
Qed.

End manager.

(** ** Clearing everywhere *)
Section registry.
Context `{HeapOps}.

(** Registered threads are alive, and nothing is being processed. *)
Definition registered (m : manager) : Prop :=
  NoDup (message_queues_ m) /\ processing_ m = 0 /\
  (forall t, t ∈ message_queues_ m -> is_Some (threads m !! t)).

Definition without_handler (h : positive) (q : thread) : Prop :=
  Forall (fun x => phandler x <> Some h) (queued q).

Lemma match_any x h : Match x (Some h) MQID_ANY = bool_decide (phandler x = Some h).
Proof.
  unfold Match. rewrite bool_decide_eq_false_2 by done. cbn [orb]. rewrite Z.eqb_refl, andb_true_r.
  apply bool_decide_ext. split; congruence.
Qed.

Lemma clear_without h q : without_handler h (fst (Clear q (Some h) MQID_ANY None)).
Proof.
  unfold without_handler, Clear. rewrite clear_eq. unfold queued. cbn. rewrite make_heap_perm.
  apply Forall_app. split.
  - destruct (fPeekKeep_ q); [|constructor]. rewrite match_any. cbn.
    destruct (bool_decide_reflect (phandler (msgPeek_ q) = Some h)); repeat constructor. done.
  - apply Forall_app. split; apply list.Forall_forall.
    + intros x [Hx _]%list_elem_of_filter. rewrite match_any, bool_decide_eq_false in Hx. done.
    + intros x (d & -> & [Hx _]%list_elem_of_filter)%list_elem_of_fmap.
      rewrite match_any, bool_decide_eq_false in Hx. done.
Qed.

Lemma clear_queues_spec h l m :
  NoDup l -> (forall t, t ∈ l -> is_Some (threads m !! t)) ->
  exists m', clear_queues (Some h) l m = Ok m' /\
    message_queues_ m' = message_queues_ m /\ processing_ m' = processing_ m /\
    send_graph_ m' = send_graph_ m /\ current_ m' = current_ m /\ freed m' = freed m /\
    dom (threads m') = dom (threads m) /\
    forall t, threads m' !! t =
      if decide (t ∈ l)
      then (fun o => with_queue o (fst (Clear (queue o) (Some h) MQID_ANY None))) <$> threads m !! t
      else threads m !! t.
Proof.
  revert m. induction l as [|x l IH]; intros m Hnd Hl; cbn [clear_queues].
  { exists m. repeat (split; [done|]). intros t. rewrite decide_False; [done|]. apply not_elem_of_nil. }
  apply list.NoDup_cons in Hnd as [Hx Hnd]. destruct (Hl x) as [o Ho]; [left|].
  unfold get_thread. rewrite Ho. cbn [from_opt]. rewrite bind_ok.
  set (m1 := set_thread m x _).
  destruct (IH m1 Hnd) as (m' & E & Hq & Hp & Hg & Hc & Hf & Hd & Ht).
  { intros t Hin. cbn. rewrite lookup_insert_is_Some'. right. apply Hl. by right. }
  exists m'. split; [done|]. repeat (split; [done|]). split.
  { rewrite Hd. cbn. rewrite dom_insert_L. apply elem_of_dom_2 in Ho. set_solver. }
  intros t. rewrite Ht. cbn. destruct (decide (t = x)) as [->|Hne].
  - rewrite lookup_insert_eq, Ho. rewrite decide_False by done. by rewrite decide_True by left.
  - rewrite lookup_insert_ne by done. destruct (decide (t ∈ l)) as [Hin|Hin].
    + by rewrite decide_True by (by right).
    + rewrite decide_False; [done|]. by intros [|]%list.elem_of_cons.
Qed.

(** ThreadManager::Clear takes a handler out of every registered queue:
    afterwards no message anywhere, posted, delayed or peeked at, is for it,
    so that the handler can be destroyed; the registry is as before. *)
Theorem clear_forgets_handler m h :
  registered m ->
  exists m', ClearInternal m (Some h) = Ok m' /\ registered m' /\
    message_queues_ m' = message_queues_ m /\ send_graph_ m' = send_graph_ m /\
    forall t o, t ∈ message_queues_ m' -> threads m' !! t = Some o -> without_handler h (queue o).
Proof.
  intros (Hnd & Hp & Hal). unfold ClearInternal.
  destruct (clear_queues_spec h (message_queues_ m) (with_processing m (processing_ m + 1)) Hnd Hal)
    as (m' & E & Hq & Hp' & Hg & _ & _ & Hd & Ht).
  cbn zeta. change (message_queues_ (with_processing m (processing_ m + 1))) with (message_queues_ m).
  rewrite E, bind_ok. eexists. split; [reflexivity|]. cbn in Hq, Hp', Hg, Ht, Hd |- *.
  split; [|split; [done|split; [done|]]].
  - split; [cbn; by rewrite Hq|]. split; [cbn; lia|]. cbn. rewrite Hq. intros t Hin.
    apply elem_of_dom. rewrite Hd. by apply elem_of_dom, Hal.
  - intros t o. rewrite Hq. intros Hin. cbn. rewrite Ht. rewrite decide_True by done.
    intros (o0 & _ & ->)%fmap_Some. apply clear_without.
Qed.

(** ** Wrapping the current thread *)

(** Wrapping is idempotent and undone by unwrapping: the first call makes
    and registers a queue for the current thread, every further one (each new
    DTLS transport makes one) finds the same queue and changes nothing, and
    unwrapping takes the queue and its thread out of the registry again. *)
Theorem wrap_unwrap m t nanos :
  registered m -> current_ m = None -> threads m !! t = None ->
  exists m1, WrapCurrentThread m t nanos = Ok (t, m1) /\
    registered m1 /\ current_ m1 = Some t /\ message_queues_ m1 = message_queues_ m ++ [t] /\
    (forall t' nanos', WrapCurrentThread m1 t' nanos' = Ok (t, m1)) /\
    exists m2, UnwrapCurrentThread m1 = Ok m2 /\ current_ m2 = None /\
      message_queues_ m2 = message_queues_ m /\ threads m2 = threads m.
Proof.
  intros (Hnd & Hp & Hal) Hc Ht.
  destruct m as [mq pr g cur ts fr]. cbn in *. subst.
  assert (t ∉ mq) as Hnew.
  { intros Hin. destruct (Hal t Hin) as [o Ho]. congruence. }
  set (o := mkThreadObject (new_thread nanos) true false true true false true).
  exists (mkManager (mq ++ [t]) 0 g (Some t) (<[t := o]> ts) fr).
  split; [|split; [|split; [done|split; [done|split; [done|]]]]].
  - unfold WrapCurrentThread, construct, AddInternal, WrapCurrent, SetCurrentThread, get_thread. cbn.
    rewrite lookup_insert_eq. cbn. rewrite lookup_insert_eq. cbn.
    unfold with_current, set_thread, with_threads, with_queues. cbn. by rewrite !insert_insert_eq.
  - split; [|split; [done|]]; cbn.
    + apply list.NoDup_app. split; [done|]. split; [|apply NoDup_singleton].
      by intros x Hx ->%list_elem_of_singleton.
    + intros x [Hx|Hx%list_elem_of_singleton]%list.elem_of_app; rewrite lookup_insert_is_Some'; eauto.
  - unfold UnwrapCurrentThread, UnwrapCurrent, SetCurrentThread, destroy, RemoveInternal, get_thread.
    unfold with_current, set_thread, with_threads, with_queues, with_graph. cbn.
    repeat (rewrite lookup_insert_eq; cbn). eexists. split; [reflexivity|]. cbn. split; [done|]. split.
    + clear -Hnew. induction mq as [|x mq IH]; cbn; [by rewrite decide_True|].
      apply not_elem_of_cons in Hnew as [Hne Hnew]. rewrite decide_False by congruence. f_equal. auto.
    + rewrite !insert_insert_eq, delete_insert_eq. by apply delete_id.
Qed.

End registry.

#[local] Existing Instance sorted_heap.

(** ** Runs *)

Lemma acyclic_empty : acyclic ∅.
Proof. intros x. constructor. intros y Hy. unfold flip, edge, succ in Hy. by rewrite lookup_empty in Hy. Qed.


(** Once thread 1 has sent to 2, 2 can never send to 1, although the send has
    returned and nobody waits. *)
Example returned_send_refused :
  (g ← RegisterSendAndCheckForCycles elements 10 ∅ 1 2;
   RegisterSendAndCheckForCycles elements 10 g 2 1) = Fail AssertFailed.
Proof. vm_compute. reflexivity. Qed.

(** Thread 1 sends to 2, 2 to 3; 3 may not send to 1. *)
Example send_cycle_refused :
  (g ← RegisterSendAndCheckForCycles elements 10 ∅ 1 2;
   g ← RegisterSendAndCheckForCycles elements 10 g 2 3;
   _ ← RegisterSendAndCheckForCycles elements 10 g 1 3;
   RegisterSendAndCheckForCycles elements 10 g 3 1) = Fail AssertFailed.
Proof. vm_compute. reflexivity. Qed.

Lemma new_manager_registered : registered new_manager.
Proof. split; [constructor|split; [done|]]. intros t Ht. by apply elem_of_nil in Ht. Qed.

Lemma wrap_unwrap_witness :
  exists m1, WrapCurrentThread new_manager 1 0 = Ok (1%positive, m1) /\
    registered m1 /\ current_ m1 = Some 1%positive /\ message_queues_ m1 = [] ++ [1%positive] /\
    (forall t' nanos', WrapCurrentThread m1 t' nanos' = Ok (1%positive, m1)) /\
    exists m2, UnwrapCurrentThread m1 = Ok m2 /\ current_ m2 = None /\
      message_queues_ m2 = [] /\ threads m2 = ∅.
Proof. apply (wrap_unwrap new_manager 1 0); [apply new_manager_registered|done|done]. Defined.

(** The server's thread with messages for the handlers 1 and 2. *)
Definition busy_manager : manager :=
  let q := match performs (new_thread 0)
      [OpPost (Some 1%positive) 0 (Some 11%positive); OpPost (Some 2%positive) 0 (Some 12%positive);
       OpPostDelayed 100 (Some 1%positive) 0 (Some 13%positive)]
    with Ok q => q | Fail _ => new_thread 0 end in
  mkManager [1%positive] 0 ∅ (Some 1%positive)
    {[ 1%positive := mkThreadObject q true false true true false true ]} [].

Lemma clear_forgets_handler_witness :
  exists m', ClearInternal busy_manager (Some 1%positive) = Ok m' /\ registered m' /\
    message_queues_ m' = [1%positive] /\ send_graph_ m' = ∅ /\
    forall t o, t ∈ message_queues_ m' -> threads m' !! t = Some o -> without_handler 1 (queue o).
Proof.
  apply (clear_forgets_handler busy_manager 1).
  split; [apply NoDup_singleton|split; [done|]]. intros t ->%list_elem_of_singleton. by eexists.
Defined.

Example clear_deletes :
  (m ← ClearInternal busy_manager (Some 1%positive);
   o ← get_thread m 1; Ok (deleted (queue o), size (queue o))) = Ok ([11%positive; 13%positive], 1).
Proof. vm_compute. reflexivity. Qed.

(** ThreadManager::Remove and ::Add assert that no clearing is under way: a
    message whose data destroys a thread may not be cleared through it. *)
Example remove_while_processing :
  RemoveInternal (with_processing busy_manager 1) 1 = Fail AssertFailed.
Proof. reflexivity. Qed.
