(* ===== verification/Units.v ===== *)
(** * Times and durations (rtc_base/units/unit_base.h, api/units)

    TimeDelta and Timestamp hold an int64_t of microseconds whose two extreme
    values stand for the infinities.  A value is that number; the assertions
    of the code are [AssertFailed].  The operations on double are left out. *)
From S2P Require Import Prelude.
From Stdlib Require Import ZArith Lia.
Local Open Scope Z_scope.

#[local] Ltac Zify.zify_post_hook ::= Z.to_euclidean_division_equations.

(** ** UnitBase *)

Definition PlusInfinityVal : Z := 9223372036854775807.
Definition MinusInfinityVal : Z := -9223372036854775808.

Definition IsZero (v : Z) : bool := v =? 0.
Definition IsPlusInfinity (v : Z) : bool := v =? PlusInfinityVal.
Definition IsMinusInfinity (v : Z) : bool := v =? MinusInfinityVal.
Definition IsInfinite (v : Z) : bool := (v =? PlusInfinityVal) || (v =? MinusInfinityVal).
Definition IsFinite (v : Z) : bool := negb (IsInfinite v).

Definition assert (b : bool) : res unit := require b AssertFailed.

(** [one_sided] tells whether a unit has no negative values. *)
Definition FromValue (one_sided : bool) (value : Z) : res Z :=
  _ ← (if one_sided then assert (0 <=? value) else Ok tt);
  _ ← assert (MinusInfinityVal <? value);
  _ ← assert (value <? PlusInfinityVal);
  Ok value.

Definition FromFraction (one_sided : bool) (denominator value : Z) : res Z :=
  _ ← (if one_sided then assert (0 <=? value) else Ok tt);
  _ ← assert (Z.quot MinusInfinityVal denominator <? value);
  _ ← assert (value <? Z.quot PlusInfinityVal denominator);
  Ok (i64 (value * denominator)).

Definition ToValue (v : Z) : res Z := _ ← assert (IsFinite v); Ok v.
Definition ToValueOr (v fallback : Z) : Z := if IsFinite v then v else fallback.

(** The additions and multiplications of int64_t wrap. *)
Definition DivRoundPositiveToNearest (n d : Z) : Z := Z.quot (i64 (n + Z.quot d 2)) d.
Definition DivRoundToNearest (n d : Z) : Z :=
  Z.quot (i64 (n + (if 0 <=? n then Z.quot d 2 else Z.quot (- d) 2))) d.

Definition ToFraction (one_sided : bool) (denominator v : Z) : res Z :=
  _ ← assert (IsFinite v);
  Ok (if one_sided then DivRoundPositiveToNearest v denominator
      else DivRoundToNearest v denominator).

Definition ToFractionOr (one_sided : bool) (denominator v fallback : Z) : Z :=
  if IsFinite v then
    if one_sided then DivRoundPositiveToNearest v denominator else DivRoundToNearest v denominator
  else fallback.

Definition ToMultiple (factor v : Z) : res Z :=
  v ← ToValue v;
  _ ← assert (Z.quot MinusInfinityVal factor <=? v);
  _ ← assert (v <=? Z.quot PlusInfinityVal factor);
  Ok (i64 (v * factor)).

(** ** TimeDelta, a RelativeUnit *)
Module TimeDelta.
Definition one_sided : bool := false.
Definition Zero : Z := 0.
Definition PlusInfinity : Z := PlusInfinityVal.
Definition MinusInfinity : Z := MinusInfinityVal.
Definition Seconds (v : Z) : res Z := FromFraction one_sided 1000000 v.
Definition Millis (v : Z) : res Z := FromFraction one_sided 1000 v.
Definition Micros (v : Z) : res Z := FromValue one_sided v.
Definition seconds (v : Z) : res Z := ToFraction one_sided 1000000 v.
Definition ms (v : Z) : res Z := ToFraction one_sided 1000 v.
Definition us (v : Z) : res Z := ToValue v.
Definition ns (v : Z) : res Z := ToMultiple 1000 v.
Definition seconds_or (v fallback : Z) : Z := ToFractionOr one_sided 1000000 v fallback.
Definition ms_or (v fallback : Z) : Z := ToFractionOr one_sided 1000 v fallback.
Definition us_or (v fallback : Z) : Z := ToValueOr v fallback.

Definition Clamped (v min_value max_value : Z) : Z := Z.max min_value (Z.min v max_value).

Definition add (a b : Z) : res Z :=
  if IsPlusInfinity a || IsPlusInfinity b then
    _ ← assert (negb (IsMinusInfinity a)); _ ← assert (negb (IsMinusInfinity b));
    Ok PlusInfinity
  else if IsMinusInfinity a || IsMinusInfinity b then
    _ ← assert (negb (IsPlusInfinity a)); _ ← assert (negb (IsPlusInfinity b));
    Ok MinusInfinity
  else x ← ToValue a; y ← ToValue b; FromValue one_sided (i64 (x + y)).

Definition sub (a b : Z) : res Z :=
  if IsPlusInfinity a || IsMinusInfinity b then
    _ ← assert (negb (IsMinusInfinity a)); _ ← assert (negb (IsPlusInfinity b));
    Ok PlusInfinity
  else if IsMinusInfinity a || IsPlusInfinity b then
    _ ← assert (negb (IsPlusInfinity a)); _ ← assert (negb (IsMinusInfinity b));
    Ok MinusInfinity
  else x ← ToValue a; y ← ToValue b; FromValue one_sided (i64 (x - y)).

Definition mul (a scalar : Z) : res Z := x ← ToValue a; FromValue one_sided (i64 (x * scalar)).

Definition opp (a : Z) : res Z :=
  if IsPlusInfinity a then Ok MinusInfinity
  else if IsMinusInfinity a then Ok PlusInfinity else mul a (-1).

Definition Abs (a : Z) : res Z := x ← us a; if x <? 0 then Micros (i64 (- x)) else Ok a.

Definition round_with (f : Z -> Z -> Z) (v resolution : Z) : res Z :=
  _ ← assert (IsFinite v); _ ← assert (IsFinite resolution); _ ← assert (0 <? resolution);
  mul (f v resolution) resolution.

Definition RoundTo : Z -> Z -> res Z := round_with (fun v r => Z.quot (i64 (v + Z.quot r 2)) r).
Definition RoundUpTo : Z -> Z -> res Z := round_with (fun v r => Z.quot (i64 (i64 (v + r) - 1)) r).
Definition RoundDownTo : Z -> Z -> res Z := round_with (fun v r => Z.quot v r).
End TimeDelta.

(** ** Timestamp *)
Module Timestamp.
Definition one_sided : bool := true.
Definition PlusInfinity : Z := PlusInfinityVal.
Definition MinusInfinity : Z := MinusInfinityVal.
Definition Seconds (v : Z) : res Z := FromFraction one_sided 1000000 v.
Definition Millis (v : Z) : res Z := FromFraction one_sided 1000 v.
Definition Micros (v : Z) : res Z := FromValue one_sided v.
Definition seconds (v : Z) : res Z := ToFraction one_sided 1000000 v.
Definition ms (v : Z) : res Z := ToFraction one_sided 1000 v.
Definition us (v : Z) : res Z := ToValue v.
Definition seconds_or (v fallback : Z) : Z := ToFractionOr one_sided 1000000 v fallback.
Definition ms_or (v fallback : Z) : Z := ToFractionOr one_sided 1000 v fallback.
Definition us_or (v fallback : Z) : Z := ToValueOr v fallback.

Definition add (t delta : Z) : res Z :=
  if IsPlusInfinity t || IsPlusInfinity delta then
    _ ← assert (negb (IsMinusInfinity t)); _ ← assert (negb (IsMinusInfinity delta));
    Ok PlusInfinity
  else if IsMinusInfinity t || IsMinusInfinity delta then
    _ ← assert (negb (IsPlusInfinity t)); _ ← assert (negb (IsPlusInfinity delta));
    Ok MinusInfinity
  else x ← us t; d ← TimeDelta.us delta; Micros (i64 (x + d)).

Definition sub (t delta : Z) : res Z :=
  if IsPlusInfinity t || IsMinusInfinity delta then
    _ ← assert (negb (IsMinusInfinity t)); _ ← assert (negb (IsPlusInfinity delta));
    Ok PlusInfinity
  else if IsMinusInfinity t || IsPlusInfinity delta then
    _ ← assert (negb (IsPlusInfinity t)); _ ← assert (negb (IsMinusInfinity delta));
    Ok MinusInfinity
  else x ← us t; d ← TimeDelta.us delta; Micros (i64 (x - d)).

Definition diff (t other : Z) : res Z :=
  if IsPlusInfinity t || IsMinusInfinity other then
    _ ← assert (negb (IsMinusInfinity t)); _ ← assert (negb (IsPlusInfinity other));
    Ok TimeDelta.PlusInfinity
  else if IsMinusInfinity t || IsPlusInfinity other then
    _ ← assert (negb (IsPlusInfinity t)); _ ← assert (negb (IsMinusInfinity other));
    Ok TimeDelta.MinusInfinity
  else x ← us t; y ← us other; TimeDelta.Micros (i64 (x - y)).
End Timestamp.

(** ** Finite values *)

Definition finite (v : Z) : Prop := MinusInfinityVal < v < PlusInfinityVal.

Lemma i64_small z : -9223372036854775808 <= z < 9223372036854775808 -> i64 z = z.
Proof. intros Hz. unfold i64. rewrite Z.mod_small; lia. Qed.

Lemma finite_spec v : finite v ->
  IsFinite v = true /\ IsPlusInfinity v = false /\ IsMinusInfinity v = false.
Proof.
  unfold finite, IsFinite, IsInfinite, IsPlusInfinity, IsMinusInfinity, PlusInfinityVal, MinusInfinityVal.
  intros Hv. destruct (Z.eqb_spec v 9223372036854775807); [lia|].
  destruct (Z.eqb_spec v (-9223372036854775808)); [lia|]. done.
Qed.

Lemma FromValue_ok s v : finite v -> (s = true -> 0 <= v) -> FromValue s v = Ok v.
Proof.
  intros [H1 H2] Hs. unfold FromValue, assert.
  rewrite (proj2 (Z.ltb_lt _ _) H1), (proj2 (Z.ltb_lt _ _) H2). destruct s; [|done].
  by rewrite (proj2 (Z.leb_le _ _) (Hs eq_refl)).
Qed.

Lemma ToValue_ok v : finite v -> ToValue v = Ok v.
Proof. intros (Hf & _)%finite_spec. unfold ToValue, assert. by rewrite Hf. Qed.

(** Arithmetic on finite values is that of the integers while the result is
    finite. *)
Lemma delta_add_ok a b : finite a -> finite b -> finite (a + b) -> TimeDelta.add a b = Ok (a + b).
Proof.
  intros Ha Hb Hab. unfold TimeDelta.add.
  destruct (finite_spec a Ha) as (_ & -> & ->), (finite_spec b Hb) as (_ & -> & ->). cbn [orb].
  rewrite !ToValue_ok, !bind_ok by done. unfold finite, PlusInfinityVal, MinusInfinityVal in *.
  rewrite i64_small by lia. by apply FromValue_ok.
Qed.

Lemma delta_sub_ok a b : finite a -> finite b -> finite (a - b) -> TimeDelta.sub a b = Ok (a - b).
Proof.
  intros Ha Hb Hab. unfold TimeDelta.sub.
  destruct (finite_spec a Ha) as (_ & -> & ->), (finite_spec b Hb) as (_ & -> & ->). cbn [orb].
  rewrite !ToValue_ok, !bind_ok by done. unfold finite, PlusInfinityVal, MinusInfinityVal in *.
  rewrite i64_small by lia. by apply FromValue_ok.
Qed.

Lemma stamp_add_ok t d : finite t -> finite d -> finite (t + d) -> 0 <= t + d ->
  Timestamp.add t d = Ok (t + d).
Proof.
  intros Ha Hb Hab H0. unfold Timestamp.add, Timestamp.us, TimeDelta.us.
  destruct (finite_spec t Ha) as (_ & -> & ->), (finite_spec d Hb) as (_ & -> & ->). cbn [orb].
  rewrite !ToValue_ok, !bind_ok by done. unfold finite, PlusInfinityVal, MinusInfinityVal in *.
  rewrite i64_small by lia. by apply FromValue_ok.
Qed.

Lemma stamp_diff_ok t u : finite t -> finite u -> finite (t - u) ->
  Timestamp.diff t u = Ok (t - u).
Proof.
  intros Ha Hb Hab. unfold Timestamp.diff, Timestamp.us.
  destruct (finite_spec t Ha) as (_ & -> & ->), (finite_spec u Hb) as (_ & -> & ->). cbn [orb].
  rewrite !ToValue_ok, !bind_ok by done. unfold finite, PlusInfinityVal, MinusInfinityVal in *.
  rewrite i64_small by lia. by apply FromValue_ok.
Qed.

(** A difference of times added back gives the time. *)
Lemma stamp_add_diff t u d :
  finite t -> finite u -> 0 <= t -> 0 <= u -> Timestamp.diff t u = Ok d -> Timestamp.add u d = Ok t.
Proof.
  intros Ht Hu H1 H2 Hd. assert (finite (t - u)) as Htu
    by (unfold finite, PlusInfinityVal, MinusInfinityVal in *; lia).
  rewrite stamp_diff_ok in Hd by done. injection Hd as <-.
  replace (Ok t) with (Ok (u + (t - u))) by (f_equal; lia).
  apply stamp_add_ok; [done|done|by replace (u + (t - u)) with t by lia|lia].
Qed.

(** [ToFraction] rounds to the nearest: the result times the denominator is at
    most half a denominator away. *)
Lemma fraction_nearest v d :
  (d = 1000 \/ d = 1000000) -> - 9223372036854000000 <= v <= 9223372036854000000 ->
  2 * Z.abs (v - d * DivRoundToNearest v d) <= d.
Proof.
  intros Hd Hv. unfold DivRoundToNearest.
  destruct (0 <=? v) eqn:E; [apply Z.leb_le in E|apply Z.leb_gt in E];
    (rewrite i64_small by (destruct Hd as [-> | ->]; lia)); destruct Hd as [-> | ->]; lia.
Qed.

(** Milliseconds and seconds are read back. *)
Lemma millis_roundtrip v :
  -9223372036854774 < v < 9223372036854774 ->
  (d ← TimeDelta.Millis v; TimeDelta.ms d) = Ok v.
Proof.
  intros Hv. unfold TimeDelta.Millis, FromFraction, TimeDelta.ms, ToFraction, TimeDelta.one_sided, assert.
  change (Z.quot MinusInfinityVal 1000) with (-9223372036854775).
  change (Z.quot PlusInfinityVal 1000) with 9223372036854775.
  rewrite (proj2 (Z.ltb_lt (-9223372036854775) v)), (proj2 (Z.ltb_lt v 9223372036854775)) by lia.
  cbn [require]. rewrite !bind_ok.
  rewrite i64_small by lia.
  destruct (finite_spec (v * 1000)) as (-> & _);
    [unfold finite, PlusInfinityVal, MinusInfinityVal; lia|].
  cbn [require]. rewrite bind_ok. f_equal. unfold DivRoundToNearest.
  destruct (0 <=? v * 1000) eqn:E; [apply Z.leb_le in E|apply Z.leb_gt in E];
    (rewrite i64_small by lia); lia.
Qed.

Example millis_read_back :
  (d ← TimeDelta.Millis 1500; s ← TimeDelta.seconds d; m ← TimeDelta.ms d; Ok (s, m)) = Ok (2, 1500).
Proof. reflexivity. Qed.

(** The infinities absorb; an infinity less itself is refused. *)
Example infinities :
  TimeDelta.add TimeDelta.PlusInfinity 5 = Ok TimeDelta.PlusInfinity /\
  TimeDelta.sub 5 TimeDelta.PlusInfinity = Ok TimeDelta.MinusInfinity /\
  TimeDelta.sub TimeDelta.PlusInfinity TimeDelta.PlusInfinity = Fail AssertFailed /\
  TimeDelta.opp TimeDelta.MinusInfinity = Ok TimeDelta.PlusInfinity /\
  TimeDelta.ms TimeDelta.PlusInfinity = Fail AssertFailed.
Proof. done. Qed.

(** C++ divides towards zero: a negative duration is rounded down to a larger
    one, and up to one that is not the next. *)
Example negative_rounding :
  TimeDelta.RoundDownTo (-4) 3 = Ok (-3) /\ TimeDelta.RoundUpTo (-4) 3 = Ok 0 /\
  TimeDelta.RoundTo (-4) 3 = Ok (-3) /\ TimeDelta.RoundTo (-5) 3 = Ok (-3).
Proof. done. Qed.

(** For durations that are not negative the three do what their names say. *)
Lemma round_spec v r :
  0 <= v -> 0 < r -> v + r < PlusInfinityVal ->
  (exists q, TimeDelta.RoundDownTo v r = Ok (q * r) /\ q * r <= v < (q + 1) * r) /\
  (exists q, TimeDelta.RoundUpTo v r = Ok (q * r) /\ (q - 1) * r < v <= q * r) /\
  (exists q, TimeDelta.RoundTo v r = Ok (q * r) /\ 2 * Z.abs (v - q * r) <= r).
Proof.
  intros Hv Hr Hm. unfold PlusInfinityVal in Hm.
  assert (finite v /\ finite r) as [Hfv Hfr] by (unfold finite, PlusInfinityVal, MinusInfinityVal; lia).
  assert (forall f, 0 <= f v r * r <= v + r - 1 -> 0 <= f v r -> f v r <= v + r - 1 ->
    TimeDelta.round_with f v r = Ok (f v r * r)) as Hround.
  { intros f Hf H0 H1. unfold TimeDelta.round_with, assert.
    destruct (finite_spec v Hfv) as (-> & _), (finite_spec r Hfr) as (-> & _).
    rewrite (proj2 (Z.ltb_lt _ _) Hr). cbn [require]. rewrite !bind_ok. unfold TimeDelta.mul.
    rewrite ToValue_ok by (unfold finite, PlusInfinityVal, MinusInfinityVal; lia).
    rewrite bind_ok, i64_small by lia.
    apply FromValue_ok; [unfold finite, PlusInfinityVal, MinusInfinityVal; lia|done]. }
  assert (forall x, 0 <= x -> 0 <= Z.quot x r /\ Z.quot x r * r <= x < (Z.quot x r + 1) * r /\ Z.quot x r <= x)
    as Hq.
  { intros x Hx. rewrite Z.quot_div_nonneg by lia. pose proof (Z.div_mod x r) as Hdm.
    pose proof (Z.mod_pos_bound x r Hr) as Hmb. pose proof (Z.div_pos x r Hx Hr) as Hp.
    specialize (Hdm ltac:(lia)). set (q := x / r) in *. set (m := x mod r) in *. clearbody q m.
    assert (q <= q * r) by nia. lia. }
  pose proof (Hq v Hv) as Q1. pose proof (Hq (v + r - 1) ltac:(lia)) as Q2.
  pose proof (Hq (v + Z.quot r 2) ltac:(lia)) as Q3.
  assert (0 <= Z.quot r 2 /\ 2 * Z.quot r 2 <= r < 2 * Z.quot r 2 + 2) as Hh by lia.
  split; [|split].
  - exists (Z.quot v r). split; [apply Hround; lia|lia].
  - exists (Z.quot (v + r - 1) r). split; [|lia]. unfold TimeDelta.RoundUpTo.
    assert (i64 (i64 (v + r) - 1) = v + r - 1) as E
      by (rewrite (i64_small (v + r)) by lia; apply i64_small; lia).
    rewrite Hround; rewrite ?E; first [lia|done].
  - exists (Z.quot (v + Z.quot r 2) r). split; [|lia]. unfold TimeDelta.RoundTo.
    rewrite Hround; rewrite i64_small by lia; first [lia|done].
Qed.

(** The sum of two finite durations can wrap to a finite one. *)
Example sum_wraps :
  TimeDelta.add 9223372036854775806 9223372036854775806 = Ok (-4).
Proof. vm_compute. reflexivity. Qed.
