(* ===== verification/StringBuilder.v ===== *)
(** * Building and reading text (rtc_base/strings/string_builder.h,
    string_builder.cc, rtc_base/string_to_number.h, string_to_number.cc,
    api/units/timestamp.cc, time_delta.cc)

    [SimpleStringBuilder] writes into an array of its caller's and keeps it
    terminated; what does not fit is an assertion in a debug build and cut off
    in a release build, so that [dcheck_is_on] is a parameter.  [StringToNumber]
    reads integers of any type with the C library's [strtoll] and [strtoull].
    The floating-point overloads are left out. *)
From S2P Require Import Prelude Numerics Units.

Local Open Scope Z_scope.

(** ** C strings *)

(** [strlen]: without a zero byte it reads past the block. *)
Fixpoint strlen (m : bytes) : res Z :=
  match m with
  | [] => Fail OutOfBounds
  | c :: m => if c =? 0 then Ok 0 else n ← strlen m; Ok (n + 1)
  end.

(** The [std::string] made of a [const char*]. *)
Definition read_c_str (m : bytes) : res bytes := n ← strlen m; mem_read m 0 n.

(** What a call of the [printf] family makes of its format: the text, or an
    error after leaving some bytes. *)
Inductive printed := Text (s : bytes) | PrintError (junk : bytes).

Definition INT_MAX : Z := 2147483647.

(** [vsnprintf(&m[off], n, ...)]: at most [n] bytes with the terminator, and
    the length of the whole text, -1 for an error or a length beyond [int]. *)
Definition vsnprintf (m : bytes) (off n : Z) (p : printed) : res (bytes * Z) :=
  match p with
  | Text s =>
      m ← (if n =? 0 then Ok m else mem_write m off (take (Z.to_nat (n - 1)) s ++ [0]));
      Ok (m, if zlen s <=? INT_MAX then zlen s else -1)
  | PrintError junk => m ← mem_write m off (take (Z.to_nat n) junk); Ok (m, -1)
  end.

(** ** [SimpleStringBuilder] *)
Record SimpleStringBuilder := mkSimple { buffer_ : bytes; size_ : Z }.

Section Simple.
Context (dcheck_is_on : bool).

Definition dcheck (b : bool) : res unit := if dcheck_is_on then require b AssertFailed else Ok tt.

Definition IsConsistent (sb : SimpleStringBuilder) : res bool :=
  if size_ sb <=? u64 (zlen (buffer_ sb) - 1) then c ← mem_get (buffer_ sb) (size_ sb); Ok (c =? 0)
  else Ok false.

Definition dcheck_consistent (sb : SimpleStringBuilder) : res unit :=
  if dcheck_is_on then b ← IsConsistent sb; require b AssertFailed else Ok tt.

(** [&buffer_[size_]] of the ArrayView. *)
Definition dcheck_index (sb : SimpleStringBuilder) : res unit := dcheck (size_ sb <? zlen (buffer_ sb)).

Definition newSimple (buffer : bytes) : res SimpleStringBuilder :=
  _ ← dcheck (0 <? zlen buffer);
  m ← mem_write buffer 0 [0];
  let sb := mkSimple m 0 in
  _ ← dcheck_consistent sb; Ok sb.

Definition Append (sb : SimpleStringBuilder) (str : bytes) (length : Z) : res SimpleStringBuilder :=
  _ ← dcheck (u64 (size_ sb + length) <? zlen (buffer_ sb));
  let chars_added := Z.min length (u64 (zlen (buffer_ sb) - size_ sb - 1)) in
  _ ← dcheck_index sb;
  src ← mem_read str 0 chars_added;
  m ← mem_write (buffer_ sb) (size_ sb) src;
  let size := size_ sb + chars_added in
  m ← mem_write m size [0];
  let sb := mkSimple m size in
  _ ← dcheck_consistent sb; Ok sb.

Definition AppendFormat (sb : SimpleStringBuilder) (p : printed) : res SimpleStringBuilder :=
  _ ← dcheck_index sb;
  '(m, len) ← vsnprintf (buffer_ sb) (size_ sb) (u64 (zlen (buffer_ sb) - size_ sb)) p;
  sb ←
    (if 0 <=? len then
       let chars_added := Z.min len (u64 (zlen (buffer_ sb) - 1 - size_ sb)) in
       _ ← dcheck (len =? chars_added); Ok (mkSimple m (size_ sb + chars_added))
     else
       _ ← dcheck false; m ← mem_write m (size_ sb) [0]; Ok (mkSimple m (size_ sb)));
  _ ← dcheck_consistent sb; Ok sb.

(** The overloads of [operator<<]; [%d], [%u], [%ld] ... print in decimal. *)
Inductive piece :=
  | CString (str : bytes)            (* const char*, with its terminator *)
  | Char (ch : Z)
  | StdString (str : bytes)
  | Integer (i : Z)
  | Format (p : printed).            (* AppendFormat *)

Definition put (sb : SimpleStringBuilder) (p : piece) : res SimpleStringBuilder :=
  match p with
  | CString str => n ← strlen str; Append sb str n
  | Char ch => Append sb [ch] 1
  | StdString str => Append sb str (zlen str)
  | Integer i => AppendFormat sb (Text (dec i))
  | Format p => AppendFormat sb p
  end.

Fixpoint puts (sb : SimpleStringBuilder) (ps : list piece) : res SimpleStringBuilder :=
  match ps with [] => Ok sb | p :: ps => sb ← put sb p; puts sb ps end.

Definition str (sb : SimpleStringBuilder) : res bytes := read_c_str (buffer_ sb).
Definition size (sb : SimpleStringBuilder) : Z := size_ sb.

(** [char buf[n]; SimpleStringBuilder sb(buf); sb << ...; return sb.str();]
    with [buf] uninitialised. *)
Definition build (buf : bytes) (ps : list piece) : res bytes :=
  sb ← newSimple buf; sb ← puts sb ps; str sb.
End Simple.

(** ** [StringBuilder]: a std::string that grows *)
Definition StringBuilder_put (s : bytes) (p : piece) : res bytes :=
  match p with
  | CString m => n ← strlen m; t ← mem_read m 0 n; Ok (s ++ t)
  | StdString t => Ok (s ++ t)
  | Integer i => Ok (s ++ dec i)
  | Char _ => Fail InvalidArgument   (* deleted: does not compile *)
  | Format (Text t) =>
      let predicted_length := if zlen t <=? INT_MAX then zlen t else -1 in
      if 0 <? predicted_length then
        (* the resized string and its terminator *)
        '(m, _) ← vsnprintf (s ++ repeat 0 (Z.to_nat predicted_length) ++ [0]) (zlen s) (predicted_length + 1) (Text t);
        mem_read m 0 (zlen s + predicted_length)
      else Ok s
  | Format (PrintError _) => Ok s
  end.

(** ** [ToString] of times *)
Definition unit_text (suffix : bytes) (v : Z) : list piece := [Integer v; CString (suffix ++ [0])].

(** Both files have the same body; [ms] and [seconds] are the type's own. *)
Definition time_pieces (ms seconds : Z -> res Z) (v : Z) : res (list piece) :=
  if IsPlusInfinity v then Ok [CString (lit "+inf ms" ++ [0])]
  else if IsMinusInfinity v then Ok [CString (lit "-inf ms" ++ [0])]
  else
    us ← ToValue v;
    if (us =? 0) || negb (Z.rem us 1000 =? 0) then Ok (unit_text (lit " us") us)
    else
      m ← ms v;
      if negb (Z.rem m 1000 =? 0) then Ok (unit_text (lit " ms") m)
      else s ← seconds v; Ok (unit_text (lit " s") s).

Definition Timestamp_ToString (dcheck_is_on : bool) (buf : bytes) (v : Z) : res bytes :=
  ps ← time_pieces Timestamp.ms Timestamp.seconds v; build dcheck_is_on buf ps.
Definition TimeDelta_ToString (dcheck_is_on : bool) (buf : bytes) (v : Z) : res bytes :=
  ps ← time_pieces TimeDelta.ms TimeDelta.seconds v; build dcheck_is_on buf ps.

(** ** [strtoll] and [strtoull] *)
Definition digit_value (c : Z) : option Z :=
  if is_digit c then Some (c - 48)
  else if (97 <=? c) && (c <=? 122) then Some (c - 87)
  else if (65 <=? c) && (c <=? 90) then Some (c - 55)
  else None.

(** The digits of a base at the head of a string: their value and the rest. *)
Fixpoint base_digits (base : Z) (s : bytes) (acc : Z) : Z * bytes :=
  match s with
  | c :: s' =>
      match digit_value c with
      | Some d => if d <? base then base_digits base s' (acc * base + d) else (acc, s)
      | None => (acc, s)
      end
  | [] => (acc, [])
  end.

Definition starts_digit (base : Z) (s : bytes) : bool :=
  match s with
  | c :: _ => match digit_value c with Some d => d <? base | None => false end
  | [] => false
  end.

(** [0x], when a digit follows, and the base that 0 stands for. *)
Definition base_prefix (base : Z) (s : bytes) : Z * bytes :=
  match s with
  | z :: x :: s' =>
      if (z =? 48) && ((x =? 120) || (x =? 88)) && ((base =? 0) || (base =? 16)) && starts_digit 16 s'
      then (16, s')
      else if base =? 0 then (if z =? 48 then 8 else 10, s) else (base, s)
  | z :: _ => if base =? 0 then (if z =? 48 then 8 else 10, s) else (base, s)
  | [] => (if base =? 0 then 10 else base, s)
  end.

(** The number as written: its sign, its magnitude, and what follows; the whole
    string follows when there is no number. *)
Definition scan_number (base : Z) (s : bytes) : bool * Z * bytes :=
  let t := skip_space s in
  let '(neg, t) :=
    match t with
    | c :: r => if c =? 45 then (true, r) else if c =? 43 then (false, r) else (false, t)
    | [] => (false, [])
    end in
  let '(base, t) := base_prefix base t in
  if starts_digit base t then let '(v, rest) := base_digits base t 0 in (neg, v, rest) else (false, 0, s).

(** The value, what [end] points to, and whether [errno] was set. *)
Definition strtoll (s : bytes) (base : Z) : Z * bytes * bool :=
  if (base <? 0) || (base =? 1) || (36 <? base) then (0, s, true)
  else
    let '(neg, v, rest) := scan_number base s in
    let n := if neg then - v else v in
    if n <? lowest int64_t then (lowest int64_t, rest, true)
    else if Numerics.max int64_t <? n then (Numerics.max int64_t, rest, true)
    else (n, rest, false).

Definition strtoull (s : bytes) (base : Z) : Z * bytes * bool :=
  if (base <? 0) || (base =? 1) || (36 <? base) then (0, s, true)
  else
    let '(neg, v, rest) := scan_number base s in
    if Numerics.max uint64_t <? v then (Numerics.max uint64_t, rest, true)
    else (if neg then u64 (- v) else v, rest, false).

(** ** [StringToNumber]; [s] is the text before the terminator *)
Definition first_is_number (s : bytes) : bool :=
  match s with c :: _ => is_digit c || (c =? 45) | [] => false end.

Definition ParseSigned (s : bytes) (base : Z) : option Z :=
  if first_is_number s then
    let '(value, rest, errno) := strtoll s base in
    if bool_decide (rest = []) && negb errno then Some value else None
  else None.

Definition ParseUnsigned (s : bytes) (base : Z) : option Z :=
  if first_is_number s then
    let is_negative := match s with c :: _ => c =? 45 | [] => false end in
    let '(value, rest, errno) := strtoull s base in
    if bool_decide (rest = []) && negb errno && ((value =? 0) || negb is_negative) then Some value else None
  else None.

Definition StringToNumber (T : int_type) (s : bytes) (base : Z) : option Z :=
  if is_signed T then
    value ← ParseSigned s base;
    if (lowest T <=? value) && (value <=? Numerics.max T) then Some (convert T value) else None
  else
    value ← ParseUnsigned s base;
    if value <=? Numerics.max T then Some (convert T value) else None.

(** ** The builder holds the text that fits *)

(** The array is the text, its terminator and whatever follows. *)
Definition holds (cap : Z) (c : bytes) (sb : SimpleStringBuilder) : Prop :=
  size_ sb = zlen c /\ zlen (buffer_ sb) = cap /\ exists rest, buffer_ sb = c ++ 0 :: rest.

Lemma holds_room cap c sb : holds cap c sb -> zlen c < cap.
Proof.
  intros (_ & Hc & rest & E). rewrite E, zlen_app, zlen_cons in Hc. pose proof (zlen_nonneg rest). lia.
Qed.

(** Writing behind the text. *)
Lemma write_behind (c t r : bytes) :
  zlen t <= zlen r -> mem_write (c ++ r) (zlen c) t = Ok (c ++ t ++ drop (length t) r).
Proof.
  intros Ht. rewrite <- (take_drop (length t) r) at 1. apply mem_write_mid; [done|].
  unfold zlen in *. rewrite length_take. lia.
Qed.

Section Simple_facts.
Context (dcheck_is_on : bool) (cap : Z) (cap_size : 1 <= cap < 2 ^ 63).

Lemma consistent_ok c sb {A} (f : unit -> res A) :
  holds cap c sb -> dcheck_consistent dcheck_is_on sb ≫= f = f tt.
Proof.
  intros H. pose proof (holds_room _ _ _ H). destruct H as (Hs & Hc & rest & E). pose proof (zlen_nonneg c).
  unfold dcheck_consistent. destruct dcheck_is_on; [|done]. unfold IsConsistent.
  rewrite u64_small by lia. rewrite Hs, (proj2 (Z.leb_le _ _)) by lia.
  assert (mem_get (buffer_ sb) (zlen c) = Ok 0) as ->; [|done].
  apply mem_get_inv. split; [done|]. rewrite E. unfold zlen. rewrite Nat2Z.id.
  rewrite lookup_app_r, Nat.sub_diag by lia. done.
Qed.

Lemma index_ok c sb {A} (f : unit -> res A) :
  holds cap c sb -> dcheck_index dcheck_is_on sb ≫= f = f tt.
Proof.
  intros H. pose proof (holds_room _ _ _ H). destruct H as (Hs & Hc & rest & E).
  unfold dcheck_index, dcheck. rewrite Hs, Hc, (proj2 (Z.ltb_lt _ _)) by lia. by destruct dcheck_is_on.
Qed.

Definition cut (s : bytes) : bytes := take (Z.to_nat (cap - 1)) s.

Lemma cut_short s : zlen s < cap -> cut s = s.
Proof. intros. unfold cut. apply take_ge. unfold zlen in *. lia. Qed.

(** The text after [chars_added] more bytes. *)
Lemma cut_app c s n :
  zlen c < cap -> n = Z.min (zlen s) (cap - zlen c - 1) -> cut (c ++ s) = c ++ take (Z.to_nat n) s.
Proof.
  intros Hc ->. unfold cut. rewrite take_app_ge by (unfold zlen in *; lia). f_equal.
  destruct (Z.le_gt_cases (zlen s) (cap - zlen c - 1)).
  - rewrite !take_ge; [done|..]; unfold zlen in *; lia.
  - f_equal. unfold zlen in *. lia.
Qed.

Lemma newSimple_holds buffer :
  zlen buffer = cap -> returns (newSimple dcheck_is_on buffer) (holds cap []).
Proof.
  intros Hb. unfold newSimple, dcheck. rewrite Hb, (proj2 (Z.ltb_lt 0 cap)) by lia.
  destruct buffer as [|x buffer]; [rewrite zlen_nil in Hb; lia|].
  assert (mem_write (x :: buffer) 0 [0] = Ok (0 :: buffer)) as ->.
  { apply (write_behind [] [0] (x :: buffer)). rewrite !zlen_cons, zlen_nil. pose proof (zlen_nonneg buffer). lia. }
  assert (holds cap [] (mkSimple (0 :: buffer) 0)) as Hh by (split; [done|split; [cbn [buffer_]; by rewrite zlen_cons in *|by exists buffer]]).
  exists (mkSimple (0 :: buffer) 0). split; [|done].
  destruct dcheck_is_on eqn:Ed; cbn [require]; rewrite !bind_ok, <- Ed; by rewrite (consistent_ok []).
Qed.

(** Copying [n] bytes behind the text and terminating them. *)
Lemma write_terminated c t sb :
  holds cap c sb -> zlen c + zlen t < cap ->
  exists m m', mem_write (buffer_ sb) (zlen c) t = Ok m /\ mem_write m (zlen c + zlen t) [0] = Ok m' /\
    holds cap (c ++ t) (mkSimple m' (zlen c + zlen t)).
Proof.
  intros (Hs & Hc & rest & E) Hl. assert (zlen (0 :: rest) = cap - zlen c) as Hr by (rewrite E, zlen_app in Hc; lia).
  eexists _, _. rewrite E. split; [apply write_behind; lia|]. set (r := drop (length t) (0 :: rest)).
  assert (1 <= zlen r) as Hr1 by (unfold r, zlen in *; rewrite length_drop; lia).
  rewrite app_assoc, <- zlen_app. split; [apply write_behind; by rewrite zlen_cons, zlen_nil|].
  split; [done|]. cbn [buffer_]. split; [|by eexists].
  rewrite <- Hc, E. unfold r, zlen in *. rewrite !length_app, !length_drop. cbn [length] in *. lia.
Qed.

(** What [Append] and [AppendFormat] do with a text. *)
Definition appended (c s : bytes) (r : res SimpleStringBuilder) : Prop :=
  if dcheck_is_on && (cap <=? zlen c + zlen s) then r = Fail AssertFailed
  else returns r (holds cap (cut (c ++ s))).

Lemma Append_spec c sb s r :
  holds cap c sb -> zlen s < 2 ^ 63 -> appended c s (Append dcheck_is_on sb (s ++ r) (zlen s)).
Proof.
  intros H Hs. pose proof (holds_room _ _ _ H) as Hroom. pose proof H as (Hsz & Hc & _).
  pose proof (zlen_nonneg c). pose proof (zlen_nonneg s). unfold appended, Append.
  rewrite Hsz, Hc, !u64_small by lia.
  destruct (dcheck_is_on && (cap <=? zlen c + zlen s)) eqn:Ed.
  - bool_inv. unfold dcheck. replace dcheck_is_on with true. by rewrite (proj2 (Z.ltb_ge _ _)) by lia.
  - assert (forall A (f : unit -> res A), (dcheck dcheck_is_on (zlen c + zlen s <? cap) ≫= f) = f tt) as ->.
    { intros. unfold dcheck. destruct dcheck_is_on; [|done]. cbn in Ed. bool_inv.
      by rewrite (proj2 (Z.ltb_lt _ _)) by lia. }
    rewrite (index_ok c) by done. set (n := Z.min (zlen s) (cap - zlen c - 1)).
    assert (zlen (take (Z.to_nat n) s) = n) as En by (apply zlen_take; lia).
    rewrite mem_read_ok by (rewrite ?zlen_app; pose proof (zlen_nonneg r); lia).
    change (Z.to_nat 0) with 0%nat. rewrite drop_0, take_app_le, bind_ok by (unfold n, zlen in *; lia).
    destruct (write_terminated c (take (Z.to_nat n) s) sb H) as (m & m' & E1 & E2 & Hh); [lia|].
    rewrite En in *. rewrite E1, bind_ok, E2, bind_ok.
    rewrite <- (cut_app c s n Hroom eq_refl) in Hh. rewrite (consistent_ok _ _ _ Hh). by apply returns_ok.
Qed.

Lemma AppendFormat_text c sb s :
  holds cap c sb -> zlen s <= INT_MAX -> appended c s (AppendFormat dcheck_is_on sb (Text s)).
Proof.
  intros H Hs. pose proof (holds_room _ _ _ H) as Hroom. pose proof H as (Hsz & Hc & _).
  pose proof (zlen_nonneg c). pose proof (zlen_nonneg s). unfold appended, AppendFormat.
  rewrite (index_ok c), Hsz, Hc, !u64_small by (done || lia). unfold vsnprintf.
  rewrite (proj2 (Z.eqb_neq _ 0)), (proj2 (Z.leb_le _ INT_MAX)) by lia.
  set (n := Z.min (zlen s) (cap - zlen c - 1)).
  assert (take (Z.to_nat (cap - zlen c - 1)) s = take (Z.to_nat n) s) as ->.
  { unfold n. destruct (Z.le_gt_cases (zlen s) (cap - zlen c - 1)).
    - rewrite Z.min_l by lia. rewrite !take_ge; [done|..]; unfold zlen in *; lia.
    - by rewrite Z.min_r by lia. }
  assert (zlen (take (Z.to_nat n) s) = n) as En by (apply zlen_take; lia).
  set (t := take (Z.to_nat n) s) in *. destruct H as (_ & _ & rest & E).
  assert (zlen (0 :: rest) = cap - zlen c) as Hr by (rewrite E, zlen_app in Hc; lia).
  rewrite E, write_behind by (rewrite zlen_app, zlen_cons, zlen_nil; lia). rewrite !bind_ok.
  rewrite (proj2 (Z.leb_le 0 (zlen s))) by lia. replace (Z.min (zlen s) (cap - 1 - zlen c)) with n by lia.
  destruct (dcheck_is_on && (cap <=? zlen c + zlen s)) eqn:Ed.
  - bool_inv. unfold dcheck. replace dcheck_is_on with true. by rewrite (proj2 (Z.eqb_neq _ _)) by lia.
  - assert (forall A (f : unit -> res A), (dcheck dcheck_is_on (zlen s =? n) ≫= f) = f tt) as ->.
    { intros. unfold dcheck. destruct dcheck_is_on; [|done]. cbn in Ed. bool_inv.
      by rewrite (proj2 (Z.eqb_eq _ _)) by lia. }
    rewrite bind_ok. match goal with |- returns (_ ≫= (fun _ => Ok ?sb')) _ => assert (holds cap (cut (c ++ s)) sb') as Hh end.
    { rewrite (cut_app c s n) by done. fold t. split; [by rewrite zlen_app, En|]. cbn [buffer_]. split.
      - rewrite <- Hc, E. unfold zlen in *. rewrite !length_app, length_drop. rewrite ?length_app. cbn [length] in *. lia.
      - eexists. rewrite <- !app_assoc. reflexivity. }
    rewrite (consistent_ok _ _ _ Hh). by apply returns_ok.
Qed.

(** A failed print leaves the text as it was. *)
Lemma AppendFormat_error c sb p :
  holds cap c sb -> match p with Text s => INT_MAX < zlen s | PrintError _ => True end ->
  if dcheck_is_on then AppendFormat dcheck_is_on sb p = Fail AssertFailed
  else returns (AppendFormat dcheck_is_on sb p) (holds cap c).
Proof.
  intros H Hp. pose proof (holds_room _ _ _ H) as Hroom. pose proof H as (Hsz & Hc & rest & E). pose proof (zlen_nonneg c).
  assert (zlen (0 :: rest) = cap - zlen c) as Hr by (rewrite E, zlen_app in Hc; lia).
  assert (exists r, vsnprintf (buffer_ sb) (zlen c) (cap - zlen c) p = Ok (c ++ r, -1) /\ zlen r = cap - zlen c) as (r & Ev & Er).
  { assert (forall t, zlen t <= cap - zlen c -> mem_write (buffer_ sb) (zlen c) t = Ok (c ++ (t ++ drop (length t) (0 :: rest)))
      /\ zlen (t ++ drop (length t) (0 :: rest)) = cap - zlen c) as Hw.
    { intros t Ht. rewrite E. split; [apply write_behind; lia|]. unfold zlen in *. rewrite length_app, length_drop. lia. }
    destruct p as [s|junk]; cbn [vsnprintf].
    - rewrite (proj2 (Z.eqb_neq _ 0)), (proj2 (Z.leb_gt _ INT_MAX)) by lia.
      destruct (Hw (take (Z.to_nat (cap - zlen c - 1)) s ++ [0])) as [-> Hz]; [|eexists; split; [done|exact Hz]].
      rewrite zlen_app, zlen_cons, zlen_nil. unfold zlen at 1. rewrite length_take. lia.
    - destruct (Hw (take (Z.to_nat (cap - zlen c)) junk)) as [-> Hz]; [|eexists; split; [done|exact Hz]].
      unfold zlen at 1. rewrite length_take. lia. }
  unfold AppendFormat. rewrite (index_ok c), Hsz, Hc, (u64_small (cap - zlen c)), Ev, bind_ok by (done || lia).
  change (0 <=? -1) with false. cbv iota. unfold dcheck. destruct dcheck_is_on eqn:Ed; [done|].
  rewrite bind_ok. destruct r as [|x r]; [rewrite zlen_nil in Er; lia|]. rewrite zlen_cons in Er.
  rewrite write_behind by (rewrite !zlen_cons, zlen_nil; pose proof (zlen_nonneg r); lia). rewrite !bind_ok.
  change ([0] ++ drop (length [0]) (x :: r)) with (0 :: r).
  assert (holds cap c (mkSimple (c ++ 0 :: r) (zlen c))) as Hh.
  { split; [done|]. cbn [buffer_]. split; [rewrite zlen_app, zlen_cons; lia|by eexists]. }
  rewrite <- Ed, (consistent_ok _ _ _ Hh). by apply returns_ok.
Qed.
End Simple_facts.

(** *** Sequences of pieces *)
Lemma read_c_str_spec c rest : read_c_str (c ++ 0 :: rest) = Ok (c_str c).
Proof.
  assert (strlen (c ++ 0 :: rest) = Ok (zlen (c_str c)) /\ exists r, c ++ 0 :: rest = c_str c ++ r) as [Hl [r E]].
  { induction c as [|x c [IH [r E]]]; cbn; [by split; [|eexists]|].
    destruct (Z.eqb_spec x 0); [by split; [|eexists]|]. rewrite IH, bind_ok, zlen_cons. split; [f_equal; lia|].
    exists r. by rewrite E. }
  unfold read_c_str. rewrite Hl, bind_ok, E. rewrite mem_read_app_l by (pose proof (zlen_nonneg (c_str c)); lia).
  by apply mem_read_all.
Qed.

(** The text of a piece, if it prints. *)
Definition piece_text (p : piece) : option bytes :=
  match p with
  | CString m => match read_c_str m with Ok t => Some t | Fail _ => None end
  | Char ch => Some [ch]
  | StdString t => Some t
  | Integer i => Some (dec i)
  | Format (Text t) => if zlen t <=? INT_MAX then Some t else None
  | Format (PrintError _) => None
  end.

(** C strings are terminated, and nothing is larger than an object may be. *)
Definition piece_ok (p : piece) : Prop :=
  match p with
  | CString m => exists t rest, m = t ++ 0 :: rest /\ zlen m < 2 ^ 63
  | StdString t => zlen t < 2 ^ 63
  | _ => True
  end.

Definition text_of (p : piece) : bytes := default [] (piece_text p).
Lemma text_of_eq p : text_of p = match piece_text p with Some t => t | None => [] end.
Proof. unfold text_of. by destruct (piece_text p). Qed.

Definition texts (ps : list piece) : bytes := concat (map text_of ps).
Definition all_print (ps : list piece) : bool := forallb (fun p => bool_decide (is_Some (piece_text p))) ps.

Lemma c_str_length c : zlen (c_str c) <= zlen c.
Proof.
  induction c as [|x c IH]; cbn [c_str]; [done|].
  unfold zlen in *. case_match; cbn [length]; lia.
Qed.

Lemma dec_length n : zlen (dec n) <= 21.
Proof.
  assert (forall f m acc, zlen (dec_digits f m acc) <= Z.of_nat f + zlen acc) as Hd.
  { induction f as [|f IH]; intros m acc; cbn [dec_digits]; [lia|].
    case_match; [rewrite zlen_cons; lia|]. etrans; [apply IH|]. rewrite zlen_cons. lia. }
  pose proof (Hd 20%nat n []) as H1. pose proof (Hd 20%nat (- n) []) as H2. rewrite (@zlen_nil Z) in *.
  unfold dec. case_match; rewrite ?zlen_cons; lia.
Qed.

Section Pieces.
Context (dcheck_is_on : bool) (cap : Z) (cap_size : 1 <= cap < 2 ^ 63).

(** A piece that prints is appended, another one leaves the text. *)
Lemma put_spec c sb p :
  holds cap c sb -> piece_ok p ->
  match piece_text p with
  | Some t => appended dcheck_is_on cap c t (put dcheck_is_on sb p)
  | None => if dcheck_is_on then put dcheck_is_on sb p = Fail AssertFailed
            else returns (put dcheck_is_on sb p) (holds cap c)
  end.
Proof.
  intros H Hp. destruct p as [m|ch|t|i|[t|j]]; cbn [piece_text put].
  - destruct Hp as (t & rest & -> & Hl). rewrite read_c_str_spec.
    pose proof (read_c_str_spec t rest) as Hc. unfold read_c_str in Hc. res_inv.
    match goal with Hn : strlen _ = Ok _ |- _ => rewrite Hn end. rewrite bind_ok.
    match goal with Hr : mem_read _ _ _ = Ok _ |- _ => pose proof (mem_read_length _ _ _ _ Hr); apply mem_read_inv in Hr as (_ & Hx & Hle & Et) end.
    change (Z.to_nat 0) with 0%nat in Et. rewrite drop_0 in Et.
    rewrite <- (take_drop (Z.to_nat x) (t ++ 0 :: rest)), <- Et. subst x. apply Append_spec; [done..|lia].
  - change (Append dcheck_is_on sb [ch] 1) with (Append dcheck_is_on sb ([ch] ++ []) (zlen [ch])).
    by apply Append_spec.
  - rewrite <- (app_nil_r t) at 2. by apply Append_spec.
  - apply AppendFormat_text; [done..|]. pose proof (dec_length i). unfold INT_MAX. lia.
  - destruct (Z.leb_spec (zlen t) INT_MAX); [by apply AppendFormat_text|]. by apply (AppendFormat_error dcheck_is_on cap cap_size c).
  - by apply (AppendFormat_error dcheck_is_on cap cap_size c).
Qed.

Definition fits (c : bytes) (ps : list piece) : bool := all_print ps && (zlen (c ++ texts ps) <? cap).

Lemma cut_cut a b : cut cap (cut cap a ++ b) = cut cap (a ++ b).
Proof.
  unfold cut. destruct (Nat.le_gt_cases (length a) (Z.to_nat (cap - 1))).
  - by rewrite (take_ge a) by done.
  - rewrite !take_app_le by (rewrite ?length_take; lia). rewrite take_take. f_equal. lia.
Qed.

Lemma puts_spec ps c sb :
  holds cap c sb -> Forall piece_ok ps ->
  if dcheck_is_on && negb (fits c ps) then puts dcheck_is_on sb ps = Fail AssertFailed
  else returns (puts dcheck_is_on sb ps) (holds cap (cut cap (c ++ texts ps))).
Proof.
  intros H Hok. revert c sb H. induction Hok as [|p ps Hp Hok IH]; intros c sb H.
  - pose proof (holds_room _ _ _ H). unfold fits. cbn [texts map concat all_print forallb andb].
    rewrite app_nil_r, (proj2 (Z.ltb_lt _ _)), cut_short by done. rewrite andb_false_r. by apply returns_ok.
  - cbn [puts]. pose proof (put_spec c sb p H Hp) as Hput. unfold fits, texts, all_print in *. cbn [map concat forallb].
    rewrite (text_of_eq p).
    destruct (piece_text p) as [t|].
    + rewrite bool_decide_eq_true_2 by done. unfold appended in Hput. rewrite app_assoc.
      destruct dcheck_is_on eqn:Ed; cbn [andb] in *.
      * destruct (Z.leb_spec cap (zlen c + zlen t)) as [Hle|Hgt].
        -- rewrite Hput. rewrite (proj2 (Z.ltb_ge _ cap)), andb_false_r; [done|].
           rewrite !zlen_app. pose proof (zlen_nonneg (concat (map text_of ps))). lia.
        -- destruct Hput as (sb' & -> & H'). rewrite bind_ok. rewrite <- zlen_app in Hgt.
           rewrite cut_short in H' by done. apply (IH _ _ H').
      * destruct Hput as (sb' & -> & H'). rewrite bind_ok. rewrite <- cut_cut. apply (IH _ _ H').
    + rewrite bool_decide_eq_false_2 by (by intros [? ?]). cbn [andb negb app].
      destruct dcheck_is_on eqn:Ed; cbn [andb] in *; [by rewrite Hput|].
      destruct Hput as (sb' & -> & H'). rewrite bind_ok. apply (IH _ _ H').
Qed.
End Pieces.

(** C34. A SimpleStringBuilder over an array of [cap] bytes never reads or
    writes outside it, whatever is streamed into it: a release build gives the
    text of all pieces cut after [cap - 1] bytes, a debug build gives all of
    it and stops at an assertion exactly when it does not fit or a print
    failed; [str()] ends at the first zero byte. *)
Theorem builder_text dcheck_is_on buf ps :
  1 <= zlen buf < 2 ^ 63 -> Forall piece_ok ps ->
  build dcheck_is_on buf ps =
    if dcheck_is_on && negb (fits (zlen buf) [] ps) then Fail AssertFailed
    else Ok (c_str (take (Z.to_nat (zlen buf - 1)) (texts ps))).
Proof.
  intros Hb Hok. unfold build.
  destruct (newSimple_holds dcheck_is_on (zlen buf) Hb buf eq_refl) as (sb & -> & H). rewrite bind_ok.
  pose proof (puts_spec dcheck_is_on (zlen buf) Hb ps [] sb H Hok) as Hp.
  destruct (dcheck_is_on && negb (fits (zlen buf) [] ps)); [by rewrite Hp|].
  destruct Hp as (sb' & -> & (_ & _ & rest & E)). rewrite bind_ok. unfold str. rewrite E. apply read_c_str_spec.
Qed.

(** ** Reading what was printed *)

(** A decimal number: a minus sign or none, then digits and nothing else. *)
Definition decimal (s : bytes) : option Z :=
  match s with
  | [] => None
  | c :: r =>
      if c =? 45 then if bool_decide (r = []) || negb (forallb is_digit r) then None else Some (- scan_digits r 0)
      else if forallb is_digit s then Some (scan_digits s 0) else None
  end.

Lemma digit_value_10 c :
  match digit_value c with Some d => d <? 10 | None => false end = is_digit c.
Proof.
  unfold digit_value. destruct (is_digit c) eqn:E.
  - unfold is_digit in E. bool_inv. apply Z.ltb_lt. lia.
  - destruct ((97 <=? c) && (c <=? 122)) eqn:E1; bool_inv; [apply Z.ltb_ge; lia|].
    destruct ((65 <=? c) && (c <=? 90)) eqn:E2; bool_inv; [apply Z.ltb_ge; lia|done].
Qed.

Fixpoint after_digits (s : bytes) : bytes :=
  match s with c :: s' => if is_digit c then after_digits s' else s | [] => [] end.

Lemma base_digits_10 s acc : base_digits 10 s acc = (scan_digits s acc, after_digits s).
Proof.
  revert acc. induction s as [|c s IH]; intros acc; [done|]. cbn [base_digits scan_digits after_digits].
  pose proof (digit_value_10 c) as Hd. destruct (digit_value c) as [d|] eqn:Ed.
  - rewrite Hd. destruct (is_digit c) eqn:Ec; [|done]. rewrite IH. do 2 f_equal.
    unfold digit_value in Ed. rewrite Ec in Ed. injection Ed as <-. lia.
  - by rewrite <- Hd.
Qed.

Lemma after_digits_nil s : after_digits s = [] <-> forallb is_digit s = true.
Proof. induction s as [|c s IH]; [done|]. cbn. by destruct (is_digit c). Qed.

Lemma scan_digits_nonneg s acc : 0 <= acc -> 0 <= scan_digits s acc.
Proof.
  revert acc. induction s as [|c s IH]; intros acc Ha; [done|]. cbn. destruct (is_digit c) eqn:E; [|done].
  apply IH. unfold is_digit in E. bool_inv. lia.
Qed.

Lemma starts_digit_10 s : starts_digit 10 s = match s with c :: _ => is_digit c | [] => false end.
Proof. destruct s as [|c s]; [done|]. apply digit_value_10. Qed.

Lemma base_prefix_10 s : base_prefix 10 s = (10, s).
Proof. destruct s as [|z [|x s]]; [done..|]. cbn. by rewrite andb_false_r. Qed.

(** The number at the head of a text that [StringToNumber] does not refuse at
    once. *)
Lemma scan_number_10 c s :
  is_digit c || (c =? 45) = true ->
  scan_number 10 (c :: s) =
    if c =? 45 then
      if starts_digit 10 s then (true, scan_digits s 0, after_digits s) else (false, 0, c :: s)
    else (false, scan_digits (c :: s) 0, after_digits (c :: s)).
Proof.
  intros Hc. unfold scan_number. cbn [skip_space].
  assert (isspace c = false /\ (c =? 43) = false) as [-> E43].
  { unfold is_digit in Hc. unfold isspace. destruct (Z.eqb_spec c 45) as [->|]; [done|].
    rewrite orb_false_r in Hc. bool_inv. split; [|apply Z.eqb_neq; lia].
    apply orb_false_intro; [apply andb_false_intro2, Z.leb_gt|apply Z.eqb_neq]; lia. }
  destruct (Z.eqb_spec c 45) as [->|Hn].
  - rewrite base_prefix_10. case_match; [|done]. by rewrite base_digits_10.
  - rewrite E43, base_prefix_10, starts_digit_10. rewrite orb_false_r in Hc. by rewrite Hc, base_digits_10.
Qed.

Lemma type_bounds T :
  Numerics.lowest int64_t <= Numerics.lowest T <= 0 /\
  (if is_signed T then Numerics.max T <= Numerics.max int64_t else Numerics.lowest T = 0) /\
  0 <= Numerics.max T <= Numerics.max uint64_t.
Proof. destruct T; cbn; lia. Qed.

Lemma in_type T v :
  (if bool_decide (Numerics.holds T v) then Some v else None) =
  (if (lowest T <=? v) && (v <=? Numerics.max T) then Some (convert T v) else None).
Proof.
  destruct (bool_decide_reflect (Numerics.holds T v)) as [H|H]; unfold Numerics.holds in H.
  - rewrite (proj2 (Z.leb_le _ _)), (proj2 (Z.leb_le _ _)) by lia. cbn [andb]. f_equal. symmetry. by apply convert_id.
  - destruct ((lowest T <=? v) && (v <=? Numerics.max T)) eqn:E; [|done]. bool_inv. lia.
Qed.

(** What is scanned is the decimal number when nothing is left behind it. *)
Lemma scan_decimal c s :
  is_digit c || (c =? 45) = true ->
  exists neg v rest, scan_number 10 (c :: s) = (neg, v, rest) /\ 0 <= v /\ (rest = [] -> neg = (c =? 45)) /\
    decimal (c :: s) = if bool_decide (rest = []) then Some (if neg then - v else v) else None.
Proof.
  intros Hc. rewrite scan_number_10 by done. unfold decimal. destruct (Z.eqb_spec c 45) as [->|Hn].
  - rewrite starts_digit_10. destruct s as [|d s]; [by exists false, 0, [45]|].
    destruct (is_digit d) eqn:Hd.
    + eexists true, _, _. split; [done|]. split; [by apply scan_digits_nonneg|]. split; [done|].
      rewrite (bool_decide_eq_false_2 (d :: s = [])) by done. cbn [orb].
      destruct (forallb is_digit (d :: s)) eqn:E.
      * by rewrite bool_decide_eq_true_2 by (by apply after_digits_nil).
      * rewrite bool_decide_eq_false_2; [done|]. intros Ha%after_digits_nil. congruence.
    + exists false, 0, (45 :: d :: s). cbn [forallb]. by rewrite Hd, orb_true_r.
  - eexists false, _, _. split; [done|]. split; [by apply scan_digits_nonneg|]. split; [done|].
    destruct (forallb is_digit (c :: s)) eqn:E.
    + by rewrite bool_decide_eq_true_2 by (by apply after_digits_nil).
    + rewrite bool_decide_eq_false_2; [done|]. intros Ha%after_digits_nil. congruence.
Qed.

(** [StringToNumber] in base 10 accepts exactly the decimal numbers, an
    optional minus sign and digits with nothing before, between or behind,
    whose value the type has, and returns that value; for an unsigned type
    minus zero is the only one with a sign. *)
Theorem StringToNumber_spec T s :
  StringToNumber T s 10 = v ← decimal s; if bool_decide (Numerics.holds T v) then Some v else None.
Proof.
  assert (forall m, (m ≫= fun v => if bool_decide (Numerics.holds T v) then Some v else None) =
    (m ≫= fun v => if (lowest T <=? v) && (v <=? Numerics.max T) then Some (convert T v) else None)) as ->
    by (intros []; [apply in_type|done]).
  destruct (type_bounds T) as (Hlo & Hsg & Hhi). unfold StringToNumber.
  destruct s as [|c s]; [by destruct (is_signed T)|].
  unfold ParseSigned, ParseUnsigned, first_is_number.
  destruct (is_digit c || (c =? 45)) eqn:Hc.
  2: { unfold decimal. apply orb_false_elim in Hc as [Hd ->]. cbn [forallb]. rewrite Hd. by destruct (is_signed T). }
  unfold strtoll, strtoull. change ((10 <? 0) || (10 =? 1) || (36 <? 10)) with false. cbv iota.
  destruct (scan_decimal c s Hc) as (neg & v & rest & -> & Hv & Hneg & ->). set (n := if neg then - v else v).
  destruct (bool_decide_reflect (rest = [])) as [->|Hr].
  2: { destruct (is_signed T); repeat case_match; simplify_eq/=; bool_inv; try done; by rewrite bool_decide_eq_false_2 in *. }
  cbn [mbind option_bind]. rewrite <- Hneg by done. destruct (is_signed T).
  - destruct (Z.ltb_spec n (lowest int64_t)); [|destruct (Z.ltb_spec (Numerics.max int64_t) n)]; cbn.
    + by rewrite (proj2 (Z.leb_gt (lowest T) n)) by lia.
    + by rewrite (proj2 (Z.leb_gt n (Numerics.max T))), andb_false_r by lia.
    + done.
  - rewrite Hsg. destruct (Z.ltb_spec (Numerics.max uint64_t) v) as [Hm|Hm]; cbn [negb andb bool_decide].
    + rewrite andb_false_r. cbn [andb]. destruct neg; subst n; cbv iota.
      * by rewrite (proj2 (Z.leb_gt 0 (- v))) by lia.
      * rewrite (proj2 (Z.leb_gt v (Numerics.max T))), andb_false_r by lia. reflexivity.
    + destruct neg; unfold n; cbn [negb orb andb]; [|rewrite orb_true_r, (proj2 (Z.leb_le 0 v)) by lia; reflexivity].
      rewrite orb_false_r.
      assert (v < 18446744073709551616) by (cbn in Hm; lia).
      destruct (Z.eq_dec v 0) as [->|]; [by rewrite (proj2 (Z.leb_le 0 _)) by lia|].
      rewrite (proj2 (Z.leb_gt 0 (- v))) by lia. cbn [andb]. unfold u64.
      rewrite Z.mod_opp_l_nz, Z.mod_small by (rewrite ?Z.mod_small; lia).
      by rewrite (proj2 (Z.eqb_neq (_ - v) 0)) by lia.
Qed.

Lemma forallb_digits l : Forall (fun c => is_digit c = true) l -> forallb is_digit l = true.
Proof. induction 1 as [|c l Hc _ IH]; [done|]. cbn. by rewrite Hc. Qed.

Lemma decimal_dec v : - 10 ^ 20 < v < 10 ^ 20 -> decimal (dec v) = Some v.
Proof.
  intros Hv.
  assert (forall n, 0 <= n < 10 ^ 20 -> forallb is_digit (dec_digits 20 n []) = true /\ scan_digits (dec_digits 20 n []) 0 = n) as Hd.
  { intros n Hn. rewrite dec_digits_value by done. split; [|done]. apply forallb_digits. by apply dec_digits_digits; [lia|]. }
  unfold dec. destruct (Z.ltb_spec v 0).
  - unfold decimal. destruct (Hd (- v)) as [-> ->]; [lia|]. rewrite bool_decide_eq_false_2 by (apply dec_digits_nonempty; lia).
    cbn. f_equal. lia.
  - destruct (Hd v) as [H1 H2]; [lia|]. destruct (dec_digits 20 v []) as [|c l] eqn:E; [by eapply dec_digits_nonempty in E; [|lia]|].
    unfold decimal. assert (is_digit c = true) as Hc by (cbn in H1; by destruct (is_digit c)).
    destruct (Z.eqb_spec c 45) as [->|]; [done|]. by rewrite H1, H2.
Qed.

(** Every integer of every type is read back from its decimal text. *)
Theorem number_round_trip T v : Numerics.holds T v -> StringToNumber T (dec v) 10 = Some v.
Proof.
  intros Hv. rewrite StringToNumber_spec, decimal_dec; [cbn; by rewrite bool_decide_eq_true_2|].
  destruct (type_bounds T) as (Hlo & _ & Hhi). unfold Numerics.holds in Hv. cbn in Hlo, Hhi. lia.
Qed.

(** ** Growing strings *)

(** A [StringBuilder] appends the text of every piece it takes; a failed or
    empty print changes nothing. *)
Lemma StringBuilder_appends s p :
  piece_ok p -> (forall ch, p <> Char ch) -> StringBuilder_put s p = Ok (s ++ text_of p).
Proof.
  intros Hp Hch. rewrite text_of_eq. destruct p as [m|ch|t|i|[t|j]]; cbn [StringBuilder_put piece_text]; [|by destruct (Hch ch)|done..| |by rewrite app_nil_r].
  - destruct Hp as (t & rest & -> & _). pose proof (read_c_str_spec t rest) as Hc. rewrite Hc. unfold read_c_str in Hc.
    destruct (strlen (t ++ 0 :: rest)) as [n|]; [|done]. rewrite bind_ok in *. by rewrite Hc.
  - destruct (Z.leb_spec (zlen t) INT_MAX); [|by rewrite app_nil_r]. destruct (Z.ltb_spec 0 (zlen t)).
    + cbn [vsnprintf]. rewrite (proj2 (Z.eqb_neq _ 0)), Z.add_simpl_r by lia.
      assert (Z.to_nat (zlen t) = length t) as -> by (unfold zlen; lia). rewrite firstn_all.
      rewrite write_behind by (unfold zlen; rewrite !length_app, repeat_length; cbn [length]; lia). rewrite !bind_ok.
      rewrite app_assoc, app_assoc, <- app_assoc. rewrite mem_read_app_l by (rewrite ?zlen_app; lia || pose proof (zlen_nonneg s); lia).
      apply mem_read_all. by rewrite zlen_app.
    + destruct t; [by rewrite app_nil_r|]. rewrite zlen_cons in *. pose proof (zlen_nonneg t). lia.
Qed.

(** ** Times *)
Lemma dec_nonzero n : Forall (fun c => c <> 0) (dec n).
Proof.
  assert (forall f m acc, Forall (fun c => c <> 0) acc -> Forall (fun c => c <> 0) (dec_digits f m acc)) as Hd.
  { induction f as [|f IH]; intros m acc Ha; [done|]. cbn [dec_digits].
    assert (Forall (fun c => c <> 0) (48 + m mod 10 :: acc)) as Ha'
      by (constructor; [pose proof (Z.mod_pos_bound m 10); lia|done]). case_match; auto. }
  unfold dec. case_match; [constructor; [done|]|]; by apply Hd.
Qed.

Lemma c_str_no_nul s : Forall (fun c => c <> 0) s -> c_str s = s.
Proof. induction 1 as [|c s Hc _ IH]; [done|]. cbn. rewrite IH. by destruct (Z.eqb_spec c 0). Qed.

(** A number and a short suffix fit an array of 64. *)
Lemma build_unit d buf n suffix :
  zlen buf = 64 -> Forall (fun c => c <> 0) suffix -> zlen suffix <= 42 ->
  build d buf (unit_text suffix n) = Ok (dec n ++ suffix).
Proof.
  intros Hb Hs Hl. pose proof (dec_length n). pose proof (zlen_nonneg (dec n)). pose proof (zlen_nonneg suffix).
  assert (read_c_str (suffix ++ [0]) = Ok suffix) as Hc by (rewrite read_c_str_spec; by rewrite c_str_no_nul).
  assert (texts (unit_text suffix n) = dec n ++ suffix) as Ht.
  { unfold texts, unit_text, text_of. cbn [map piece_text concat]. by rewrite Hc, app_nil_r. }
  rewrite builder_text; [|lia|].
  2: { repeat constructor. exists suffix, []. split; [done|]. rewrite zlen_app, zlen_cons, zlen_nil. lia. }
  unfold fits. rewrite Ht, app_nil_l, Hb. unfold unit_text, all_print. cbn [forallb piece_text]. rewrite Hc.
  rewrite !bool_decide_eq_true_2 by done. rewrite (proj2 (Z.ltb_lt _ _)) by (rewrite zlen_app; lia).
  rewrite andb_false_r, take_ge by (pose proof (zlen_app (dec n) suffix); unfold zlen in *; lia).
  rewrite c_str_no_nul; [done|]. apply Forall_app; split; [apply dec_nonzero|done].
Qed.

Lemma to_fraction_exact s d k :
  d = 1000 \/ d = 1000000 -> finite (d * k) -> (s = true -> 0 <= k) -> ToFraction s d (d * k) = Ok k.
Proof.
  intros Hd Hf Hs. unfold ToFraction, Units.assert. destruct (finite_spec _ Hf) as [-> _]. cbn [require].
  rewrite bind_ok. f_equal. unfold finite, MinusInfinityVal, PlusInfinityVal in Hf.
  unfold DivRoundPositiveToNearest, DivRoundToNearest.
  destruct Hd as [-> | ->].
  - change (Z.quot 1000 2) with 500. change (Z.quot (- (1000)) 2) with (-500).
    destruct s; [specialize (Hs eq_refl)|destruct (Z.leb_spec 0 (1000 * k))];
      rewrite i64_small by lia; Z.to_euclidean_division_equations; lia.
  - change (Z.quot 1000000 2) with 500000. change (Z.quot (- (1000000)) 2) with (-500000).
    destruct s; [specialize (Hs eq_refl)|destruct (Z.leb_spec 0 (1000000 * k))];
      rewrite i64_small by lia; Z.to_euclidean_division_equations; lia.
Qed.

(** The units of a printed time and how many microseconds they are. *)
Definition time_units : list (bytes * Z) := [(lit " us", 1); (lit " ms", 1000); (lit " s", 1000000)].

(** A text that says exactly [v] microseconds. *)
Definition says_time (v : Z) (text : bytes) : Prop :=
  exists n suffix scale, (suffix, scale) ∈ time_units /\ text = dec n ++ suffix /\ v = n * scale /\
    StringToNumber int64_t (dec n) 10 = Some n.

Lemma time_pieces_exact ms seconds d buf v :
  zlen buf = 64 -> finite v ->
  (forall k, v = 1000 * k -> ms v = Ok k) -> (forall k, v = 1000000 * k -> seconds v = Ok k) ->
  returns (ps ← time_pieces ms seconds v; build d buf ps) (says_time v).
Proof.
  intros Hb Hf Hms Hs. destruct (finite_spec v Hf) as (_ & Hp & Hm). unfold time_pieces.
  rewrite Hp, Hm, ToValue_ok, bind_ok by done. unfold finite, MinusInfinityVal, PlusInfinityVal in Hf.
  assert (forall n suffix scale, (suffix, scale) ∈ time_units -> v = n * scale -> 1 <= scale ->
    returns (build d buf (unit_text suffix n)) (says_time v)) as Hsay.
  { intros n suffix scale Hin Hv Hsc. exists (dec n ++ suffix). split.
    - apply build_unit; [done|..]; clear - Hin; repeat (apply list.elem_of_cons in Hin as [[= -> ->]|Hin]);
        try (by apply elem_of_nil in Hin); try done; repeat constructor; done.
    - exists n, suffix, scale. split_and!; [done..|]. apply number_round_trip. unfold Numerics.holds. cbn. nia. }
  destruct ((v =? 0) || negb (Z.rem v 1000 =? 0)) eqn:E1.
  { rewrite bind_ok. apply (Hsay v _ 1); [left|lia..]. }
  apply orb_false_elim in E1 as [_ E1]. bool_inv. destruct (Z.rem_divide v 1000) as [[k Hk] _]; [done..|].
  rewrite (Hms k) by lia. rewrite bind_ok. destruct (negb (Z.rem k 1000 =? 0)) eqn:E2.
  { rewrite bind_ok. apply (Hsay k _ 1000); [right; left|lia..]. }
  bool_inv. destruct (Z.rem_divide k 1000) as [[j Hj] _]; [done..|].
  rewrite (Hs j), !bind_ok by lia. apply (Hsay j _ 1000000); [right; right; left|lia..].
Qed.

(** [ToString] of a finite duration or time never overruns its array of 64
    characters nor fails, in a debug or release build, and the text says
    exactly the microseconds of the value: the number it starts with reads
    back, and times its unit it is the value. *)
Theorem times_print_exactly d buf v :
  zlen buf = 64 -> finite v ->
  returns (TimeDelta_ToString d buf v) (says_time v) /\
  (0 <= v -> returns (Timestamp_ToString d buf v) (says_time v)).
Proof.
  intros Hb Hf. split; [|intros Hv]; apply time_pieces_exact; try done; intros k ->;
    apply to_fraction_exact; auto; try done; intros _; lia.
Qed.

(** ** Runs *)

(** Seven bytes hold six characters. *)
Example cut_off :
  build false (repeat 7 7) [StdString (lit "port "); Integer 3478] = Ok (lit "port 3") /\
  build true (repeat 7 7) [StdString (lit "port "); Integer 3478] = Fail AssertFailed /\
  build true (repeat 7 10) [StdString (lit "port "); Integer 3478] = Ok (lit "port 3478") /\
  build false (repeat 7 9) [StdString (lit "port"); Format (PrintError (lit "junk")); Char 58] = Ok (lit "port:").
Proof. vm_compute. done. Qed.

Example builder_text_witness :
  (1 <= zlen (repeat 7 9) < 2 ^ 63 /\ Forall piece_ok [CString (lit "ab" ++ [0; 9]); Integer (-12345678)]) /\
  build false (repeat 7 9) [CString (lit "ab" ++ [0; 9]); Integer (-12345678)] = Ok (lit "ab-12345").
Proof.
  assert (1 <= zlen (repeat 7 9) < 2 ^ 63) as H1 by (vm_compute; split; congruence).
  assert (Forall piece_ok [CString (lit "ab" ++ [0; 9]); Integer (-12345678)]) as H2.
  { constructor; [|by constructor]. exists (lit "ab"), [9]. by split. }
  split; [done|]. exact (builder_text false (repeat 7 9) _ H1 H2).
Defined.

Example number_round_trip_witness :
  Numerics.holds int16_t (-32768) /\ StringToNumber int16_t (dec (-32768)) 10 = Some (-32768).
Proof.
  assert (Numerics.holds int16_t (-32768)) as H by (vm_compute; split; congruence).
  split; [done|]. exact (number_round_trip int16_t (-32768) H).
Defined.

Example times_print_exactly_witness :
  (zlen (repeat 7 64) = 64 /\ finite 2500000 /\ 0 <= 2500000) /\
  returns (TimeDelta_ToString true (repeat 7 64) 2500000) (says_time 2500000) /\
  returns (Timestamp_ToString true (repeat 7 64) 2500000) (says_time 2500000).
Proof.
  assert (zlen (repeat 7 64) = 64) as H1 by reflexivity.
  assert (finite 2500000) as H2 by (vm_compute; split; congruence). split; [done|].
  destruct (times_print_exactly true (repeat 7 64) 2500000 H1 H2) as [Hd Ht]. split; [done|]. apply Ht. lia.
Defined.

Example times :
  map (TimeDelta_ToString true (repeat 7 64)) [2500000; -3000000; 0; 1001; PlusInfinityVal] =
  map Ok [lit "2500 ms"; lit "-3 s"; lit "0 us"; lit "1001 us"; lit "+inf ms"].
Proof. vm_compute. reflexivity. Qed.

(** Bases other than ten, and what is refused. *)
Example numbers :
  map (fun s => StringToNumber int32_t (lit s) 0) ["0x7fffffff"; "0x80000000"; "-017"; "08"; "0x"; "- 1"; "+1"; " 1"; ""]%string =
    [Some 2147483647; None; Some (-15); None; None; None; None; None; None] /\
  map (fun s => StringToNumber uint64_t (lit s) 10) ["-0"; "-1"; "18446744073709551615"; "18446744073709551616"]%string =
    [Some 0; None; Some 18446744073709551615; None] /\
  StringToNumber uint8_t (lit "zz") 36 = None /\ StringToNumber uint16_t (lit "7z") 36 = Some 287.
Proof. vm_compute. done. Qed.
