(* ===== verification/Tasks.v ===== *)
(** * Tasks on a thread (rtc_base/task_utils, QueuedTaskHandler of thread.cc)

    A task is the data of a message whose handler is the thread's own
    QueuedTaskHandler: closures, closures that run only while a safety flag is
    alive, and repeating tasks, which post themselves again.  The SSL adapter
    posts its events as the second kind and its retransmission timer as the
    third. *)
From S2P Require Import Prelude.
From S2P Require Import TimeUtils.
From S2P Require Import Units.
From S2P Require Import Thread.

Local Open Scope Z_scope.

Section tasks.
Context `{HeapOps}.

(** ** Data

    A closure and a PendingTaskSafetyFlag are known by their addresses. *)
Inductive task :=
  | ClosureTask (closure_ : positive)
  | SafetyClosureTask (safety_flag_ closure_ : positive)
  | RepeatingTask (alive_flag_ closure_ : positive) (next_run_time_ : Z).

(** The queue, the tasks and flags that exist, and the runs of closures so
    far, each with its time in microseconds. *)
Record system := mkSystem {
  queue : thread;
  tasks : gmap positive task;
  alive_ : gmap positive bool;
  next_id : positive;
  runs : list (positive * Z)
}.

Definition with_queue (s : system) q := mkSystem q (tasks s) (alive_ s) (next_id s) (runs s).
Definition with_tasks (s : system) t := mkSystem (queue s) t (alive_ s) (next_id s) (runs s).
Definition with_alive (s : system) a := mkSystem (queue s) (tasks s) a (next_id s) (runs s).

(** The address of [queued_task_handler_]. *)
Definition queued_task_handler_ : positive := 1.

Definition CurrentTime (s : system) : res Z := Timestamp.Micros (TimeMicros (now (queue s))).

(** ** PendingTaskSafetyFlag *)

Definition CreateInternal (s : system) (alive : bool) : positive * system :=
  let f := next_id s in
  (f, mkSystem (queue s) (tasks s) (<[f := alive]> (alive_ s)) (Pos.succ f) (runs s)).

Definition CreateDetached (s : system) := CreateInternal s true.
Definition CreateDetachedInactive (s : system) := CreateInternal s false.
Definition SetNotAlive (s : system) (f : positive) : system := with_alive s (<[f := false]> (alive_ s)).
Definition SetAlive (s : system) (f : positive) : system := with_alive s (<[f := true]> (alive_ s)).
Definition alive (s : system) (f : positive) : res bool := from_opt Dangling (alive_ s !! f).

(** ** Posting

    [new ScopedMessageData(task)] is the data of the message.  A thread that
    quits deletes the data and with it the task. *)
Definition post_data (s : system) (t : positive) (post : thread -> res thread) : res system :=
  q ← post (queue s);
  Ok (mkSystem q (if IsQuitting (queue s) then delete t (tasks s) else tasks s)
        (alive_ s) (next_id s) (runs s)).

Definition new_task (s : system) (t : task) : positive * system :=
  let id := next_id s in
  (id, mkSystem (queue s) (<[id := t]> (tasks s)) (alive_ s) (Pos.succ id) (runs s)).

Definition PostTask (s : system) (t : task) : res system :=
  let '(id, s) := new_task s t in
  post_data s id (fun q => Ok (Post q (Some queued_task_handler_) 0 (Some id))).

(** [milliseconds] is a uint32_t which PostDelayed takes as an int. *)
Definition PostDelayedData (s : system) (id : positive) (milliseconds : Z) : res system :=
  post_data s id (fun q =>
    PostDelayed q (i32 (u32 milliseconds)) (Some queued_task_handler_) 0 (Some id)).

Definition PostDelayedTask (s : system) (t : task) (milliseconds : Z) : res system :=
  let '(id, s) := new_task s t in PostDelayedData s id milliseconds.

(** ** RepeatingTaskHandle *)

Definition Start (s : system) (closure : positive) : res (positive * system) :=
  let '(f, s) := CreateDetached s in
  t ← CurrentTime s;
  next ← Timestamp.add t TimeDelta.Zero;
  s ← PostTask s (RepeatingTask f closure next);
  Ok (f, s).

Definition DelayedStart (s : system) (first_delay : Z) (closure : positive) : res (positive * system) :=
  let '(f, s) := CreateDetached s in
  t ← CurrentTime s;
  next ← Timestamp.add t first_delay;
  ms ← TimeDelta.ms first_delay;
  s ← PostDelayedTask s (RepeatingTask f closure next) ms;
  Ok (f, s).

(** The handle holds the flag until it is stopped. *)
Definition Stop (s : system) (handle : option positive) : option positive * system :=
  match handle with Some f => (None, SetNotAlive s f) | None => (None, s) end.
Definition Running (handle : option positive) : bool := bool_decide (handle <> None).

(** ** Running

    What a closure does, given how often it ran before: it may post, stop and
    let time pass; a closure of a repeating task also answers the delay until
    it is to run again. *)
Inductive action :=
  | APost (t : task)
  | APostDelayed (t : task) (milliseconds : Z)
  | AStop (f : positive)
  | AElapse (nanos : Z)
  | AQuit.

Context (closure : positive -> nat -> list action * Z).

Definition act (s : system) (a : action) : res system :=
  match a with
  | APost t => PostTask s t
  | APostDelayed t ms => PostDelayedTask s t ms
  | AStop f => Ok (SetNotAlive s f)
  | AElapse n => Ok (with_queue s (with_now (queue s) (now (queue s) + n)))
  | AQuit => Ok (with_queue s (Quit (queue s)))
  end.

Fixpoint acts (s : system) (l : list action) : res system :=
  match l with [] => Ok s | a :: l => s ← act s a; acts s l end.

Definition times_run (s : system) (c : positive) : nat :=
  length (filter (fun r => r.1 = c) (runs s)).

Definition call (s : system) (c : positive) : res (Z * system) :=
  let '(l, delay) := closure c (times_run s c) in
  s ← acts (mkSystem (queue s) (tasks s) (alive_ s) (next_id s)
              (runs s ++ [(c, TimeMicros (now (queue s)))])) l;
  Ok (delay, s).

(** [Run] of the three kinds of task: true tells the queue to delete it. *)
Definition Run (s : system) (id : positive) (t : task) : res (bool * system) :=
  match t with
  | ClosureTask c => '(_, s) ← call s c; Ok (true, s)
  | SafetyClosureTask f c =>
      a ← alive s f;
      if (a : bool) then '(_, s) ← call s c; Ok (true, s) else Ok (true, s)
  | RepeatingTask f c next_run_time =>
      a ← alive s f;
      if negb a then Ok (true, s)
      else
        '(delay, s) ← call s c;
        _ ← require (0 <=? delay) AssertFailed;
        a ← alive s f;
        if IsPlusInfinity delay || negb a then Ok (true, s)
        else
          t ← CurrentTime s;
          lost_time ← Timestamp.diff t next_run_time;
          next_run_time ← Timestamp.add next_run_time delay;
          delay ← TimeDelta.sub delay lost_time;
          let delay := Z.max delay TimeDelta.Zero in
          ms ← TimeDelta.ms delay;
          s ← PostDelayedData (with_tasks s (<[id := RepeatingTask f c next_run_time]> (tasks s))) id ms;
          Ok (false, s)
  end.

(** QueuedTaskHandler::OnMessage *)
Definition OnMessage (s : system) (m : Message) : res system :=
  id ← from_opt NullDeref (pdata m);
  t ← from_opt Dangling (tasks s !! id);
  '(done, s) ← Run s id t;
  Ok (if (done : bool) then with_tasks s (delete id (tasks s)) else s).

(** A loop around [Get] that waits for nothing: every message that is ready
    is dispatched. *)
Fixpoint process_ready (fuel : nat) (s : system) : res system :=
  match fuel with
  | O => Fail OutOfFuel
  | S fuel =>
      '(m, q, _) ← Get [mkWait [] true] (queue s) 0;
      match m with
      | None => Ok (with_queue s q)
      | Some m =>
          _ ← require (bool_decide (phandler m = Some queued_task_handler_)) NullDeref;
          s ← OnMessage (with_queue s q) m;
          process_ready fuel s
      end
  end.

Lemma alive_ok s f b : alive_ s !! f = Some b -> alive s f = Ok b.
Proof. unfold alive. by intros ->. Qed.

(** ** Stopped tasks do not run *)

Definition task_flag (t : task) : option positive :=
  match t with
  | ClosureTask _ => None
  | SafetyClosureTask f _ | RepeatingTask f _ _ => Some f
  end.

(** A task whose flag was taken down does not call its closure, however
    long ago its message was posted: the message only deletes the task, and
    the queue, the flags and the record of runs stay as they were. *)
Theorem stopped_task_does_nothing s m id t f :
  pdata m = Some id -> tasks s !! id = Some t -> task_flag t = Some f -> alive_ s !! f = Some false ->
  OnMessage s m = Ok (with_tasks s (delete id (tasks s))).
Proof.
  intros Hd Ht Hf Ha. unfold OnMessage. rewrite Hd. cbn [from_opt]. rewrite bind_ok.
  rewrite Ht. cbn [from_opt]. rewrite bind_ok.
  destruct t as [c|f' c|f' c next]; cbn in Hf; [done|..]; injection Hf as ->;
    cbn [Run]; unfold alive; rewrite Ha; reflexivity.
Qed.

(** ** Repeating tasks do not drift *)

(** The post of a repeating task: when it is due, in the milliseconds of the
    queue. *)
Definition due_ms (q : thread) (delay_us : Z) : Z :=
  TimeMillis (now q) + DivRoundToNearest (Z.max delay_us 0) 1000.

Lemma post_delayed_data s id ms :
  0 <= ms < 2147483648 -> IsQuitting (queue s) = false ->
  0 <= delayed_next_num_ (queue s) -> delayed_next_num_ (queue s) + 1 < 4294967296 ->
  PostDelayedData s id ms =
    Ok (with_queue s (WakeUpSocketServer (with_delayed (queue s)
      (push_heap (delayed_messages_ (queue s))
        (mkDelayed ms (TimeMillis (now (queue s)) + ms) (delayed_next_num_ (queue s))
          (mkMessage (Some queued_task_handler_) 0 (Some id))))
      (delayed_next_num_ (queue s) + 1)))).
Proof.
  intros Hms Hq Hn0 Hn. unfold PostDelayedData, post_data, PostDelayed, DoDelayPost, TimeAfter.
  rewrite u32_small, i32_small by lia. rewrite (proj2 (Z.leb_le 0 ms)) by lia.
  cbn [require]. rewrite !bind_ok. rewrite Hq. rewrite u32_small by lia.
  rewrite (proj2 (Z.eqb_neq (delayed_next_num_ (queue s) + 1) 0)) by lia.
  cbn [negb require]. rewrite !bind_ok. done.
Qed.

(** A repeating task keeps its schedule: however late a run is, the next
    one is planned exactly [delay] after the planned time of this one, and is
    posted for that time, or at once if it has passed (to the nearest
    millisecond).  [s1] is the state its closure leaves. *)
Theorem repeating_task_keeps_schedule s id f c next m delay s1 t1 :
  pdata m = Some id -> tasks s !! id = Some (RepeatingTask f c next) -> alive_ s !! f = Some true ->
  call s c = Ok (delay, s1) ->
  alive_ s1 !! f = Some true -> IsQuitting (queue s1) = false ->
  CurrentTime s1 = Ok t1 ->
  0 <= delay < 2147483000000 -> 0 <= next < 9000000000000000000 -> t1 < 9000000000000000000 ->
  next + delay - t1 < 2147483000000 ->
  0 <= delayed_next_num_ (queue s1) -> delayed_next_num_ (queue s1) + 1 < 4294967296 ->
  exists s2, OnMessage s m = Ok s2 /\
    tasks s2 = <[id := RepeatingTask f c (next + delay)]> (tasks s1) /\
    exists d, delayed_messages_ (queue s2) = push_heap (delayed_messages_ (queue s1)) d /\
      msg_ d = mkMessage (Some queued_task_handler_) 0 (Some id) /\
      run_time_ms_ d = due_ms (queue s1) (next + delay - t1).
Proof.
  intros Hd Ht Ha Hcall Ha1 Hq Hnow Hdelay Hnext Ht1 Hgap Hn0 Hn.
  assert (0 <= t1) as Ht0.
  { unfold CurrentTime, Timestamp.Micros, FromValue, assert in Hnow. cbn in Hnow. res_inv.
    by apply Z.leb_le. }
  assert (finite t1 /\ finite next /\ finite delay) as (Hf1 & Hf2 & Hf3)
    by (unfold finite, PlusInfinityVal, MinusInfinityVal; lia).
  unfold OnMessage. rewrite Hd. cbn [from_opt]. rewrite bind_ok, Ht. cbn [from_opt]. rewrite bind_ok.
  cbn [Run]. rewrite (alive_ok _ _ _ Ha), bind_ok. cbn [negb].
  rewrite Hcall, bind_ok. cbn beta iota. rewrite (proj2 (Z.leb_le 0 delay)) by lia.
  cbn [require]. rewrite bind_ok, (alive_ok _ _ _ Ha1), bind_ok.
  destruct (finite_spec delay Hf3) as (_ & -> & _). cbn [orb negb].
  rewrite Hnow, bind_ok.
  rewrite stamp_diff_ok, bind_ok by (try done; unfold finite, PlusInfinityVal, MinusInfinityVal; lia).
  rewrite stamp_add_ok, bind_ok by (try done; unfold finite, PlusInfinityVal, MinusInfinityVal; lia).
  rewrite delta_sub_ok, bind_ok by (try done; unfold finite, PlusInfinityVal, MinusInfinityVal; lia).
  cbn zeta. unfold TimeDelta.Zero.
  replace (delay - (t1 - next)) with (next + delay - t1) by lia.
  set (w := Z.max (next + delay - t1) 0).
  assert (0 <= w < 2147483000000) as Hw by (unfold w; lia).
  assert (0 <= DivRoundToNearest w 1000 < 2147483648) as Hms.
  { unfold DivRoundToNearest. rewrite (proj2 (Z.leb_le 0 w)) by lia.
    change (Z.quot 1000 2) with 500. cbn iota. rewrite i64_small, Z.quot_div_nonneg by lia.
    split; [apply Z.div_pos; lia|apply Z.div_lt_upper_bound; lia]. }
  unfold TimeDelta.ms, ToFraction, TimeDelta.one_sided, assert.
  destruct (finite_spec w) as (-> & _); [unfold finite, PlusInfinityVal, MinusInfinityVal; lia|].
  cbn [require]. rewrite !bind_ok. rewrite post_delayed_data by done. rewrite bind_ok.
  eexists. split; [reflexivity|]. split; [done|]. eexists. split; [reflexivity|]. done.
Qed.
End tasks.

#[local] Existing Instance sorted_heap.

(** ** The timer and the events of the SSL adapter

    OpenSSLStreamAdapter::SetTimeout starts a repeating task whose closure 10
    stops the handle and answers that it is not to run again; PostEvent posts
    closure 20 under the adapter's safety flag, which its destructor takes
    down.  Closure 30 repeats every 20 ms, and once takes 50 ms itself. *)
Module Adapter.
Definition new_system : system := mkSystem (new_thread 0) ∅ ∅ 1 [].

Definition closure (c : positive) (n : nat) : list action * Z :=
  match c with
  | 10%positive => ([AStop 1], TimeDelta.PlusInfinity)
  | 30%positive => (if decide (n = 1%nat) then [AElapse 50000000] else [], 20000)
  | _ => ([], 0)
  end.

Definition SetTimeout (s : system) (delay_ms : Z) : res (positive * system) :=
  d ← TimeDelta.Millis delay_ms; DelayedStart s d 10.

Definition PostEvent (s : system) (task_safety : positive) : res system :=
  PostTask s (SafetyClosureTask task_safety 20).

Definition at_ms (t : Z) (s : system) : system := with_queue s (with_now (queue s) (t * 1000000)).
Definition process := process_ready closure 10.

(** What is left, and what ran when. *)
Definition outcome (s : system) := (size (queue s), map_to_list (tasks s), runs s).
End Adapter.

(** The timer runs once when it is due, and goes. *)
Example timer_runs_once :
  ('(_, s) ← Adapter.SetTimeout Adapter.new_system 1000;
   s ← Adapter.process (Adapter.at_ms 999 s);
   s ← Adapter.process (Adapter.at_ms 1000 s);
   s ← Adapter.process (Adapter.at_ms 5000 s);
   Ok (Adapter.outcome s)) = Ok (0, [], [(10%positive, 1000000)]).
Proof. vm_compute. reflexivity. Qed.

(** A timer that is stopped first does not. *)
Example stopped_timer :
  ('(h, s) ← Adapter.SetTimeout Adapter.new_system 1000;
   s ← Adapter.process (Adapter.at_ms 2000 (snd (Stop s (Some h))));
   Ok (Adapter.outcome s)) = Ok (0, [], []).
Proof. vm_compute. reflexivity. Qed.

(** An event of an adapter that was destroyed meanwhile is dropped. *)
Example event_after_destruction :
  (let '(f, s) := CreateDetached Adapter.new_system in
   s ← Adapter.PostEvent s f;
   s ← Adapter.process (SetNotAlive s f);
   Ok (Adapter.outcome s)) = Ok (0, [], []).
Proof. vm_compute. reflexivity. Qed.

(** The second run is late by what the closure takes; the third is at once and
    the fourth back in the schedule of 20 ms. *)
Example schedule_is_kept :
  ('(_, s) ← Start Adapter.new_system 30;
   s ← Adapter.process s;
   s ← Adapter.process (Adapter.at_ms 20 s);
   s ← Adapter.process (Adapter.at_ms 80 s);
   Ok (map snd (runs s), size (queue s))) = Ok ([0; 20000; 70000; 70000; 80000], 1).
Proof. vm_compute. reflexivity. Qed.

(** A delay of 2^31 milliseconds becomes a negative int. *)
Example month_delay_refused :
  PostDelayedTask Adapter.new_system (ClosureTask 20) 2147483648 = Fail AssertFailed.
Proof. vm_compute. reflexivity. Qed.

Definition stopped_system : system :=
  mkSystem (new_thread 0) {[ 2%positive := SafetyClosureTask 1 20 ]} {[ 1%positive := false ]} 3 [].

Lemma stopped_task_does_nothing_witness :
  OnMessage Adapter.closure stopped_system (mkMessage (Some 1%positive) 0 (Some 2%positive)) =
    Ok (with_tasks stopped_system (delete 2%positive (tasks stopped_system))).
Proof.
  apply (stopped_task_does_nothing Adapter.closure stopped_system
    (mkMessage (Some 1%positive) 0 (Some 2%positive)) 2 (SafetyClosureTask 1 20) 1); reflexivity.
Defined.

(** Closure 30 in its second run, planned for 20 ms and run at 20 ms. *)
Definition second_run : system :=
  mkSystem (with_now (new_thread 0) 20000000) {[ 2%positive := RepeatingTask 1 30 20000 ]}
    {[ 1%positive := true ]} 3 [(30%positive, 0)].

Definition after_call : system :=
  match call Adapter.closure second_run 30 with Ok (_, s) => s | Fail _ => second_run end.

Lemma repeating_task_keeps_schedule_witness :
  exists s2, OnMessage Adapter.closure second_run (mkMessage (Some 1%positive) 0 (Some 2%positive)) = Ok s2 /\
    tasks s2 = <[2%positive := RepeatingTask 1 30 (20000 + 20000)]> (tasks after_call) /\
    exists d, delayed_messages_ (queue s2) = push_heap (delayed_messages_ (queue after_call)) d /\
      msg_ d = mkMessage (Some queued_task_handler_) 0 (Some 2%positive) /\
      run_time_ms_ d = due_ms (queue after_call) (20000 + 20000 - 70000).
Proof.
  apply (repeating_task_keeps_schedule Adapter.closure second_run 2 1 30 20000
    (mkMessage (Some 1%positive) 0 (Some 2%positive)) 20000 after_call 70000);
    first [vm_compute; reflexivity|vm_compute; split; [discriminate|reflexivity]|vm_compute; discriminate].
Defined.
