(* ===== verification/OpenSslStream.v ===== *)
(** * rtc_base/openssl_stream_adapter.{h,cc}: the SSL stream adapter

    [OpenSSLStreamAdapter] runs DTLS or TLS over a [StreamInterface] with
    OpenSSL.  OpenSSL is not code of this repository: the class [OpenSSL] holds
    the calls the adapter makes on it.  A call may come back into the adapter
    while it runs, to read or write the stream through the BIO or to have the
    peer's certificate checked, so it is a program over these actions
    ([ssl_prog]), which [run] executes with the adapter's own callbacks.  The
    laws of the class say what is documented of certificate verification.

    [slot] is the client connected to [SignalEvent]: it runs in place. *)
From S2P Require Import Prelude.
From S2P Require Buffer.
From S2P Require MessageDigest.
From S2P Require SUtil.
From S2P Require SslFingerprint.
From S2P Require CryptoSuites.
From S2P Require BufferQueue.
From S2P Require Dtls.
Local Open Scope Z_scope.

(** ** The stream below *)

Class StreamInterface (S : Type) := {
  stream_Read : S -> Z -> res (Dtls.StreamResult * bytes * S);
  stream_Write : S -> bytes -> res (Dtls.StreamResult * Z * S);
  stream_GetState : S -> Dtls.StreamState;
  stream_Close : S -> S;
  stream_ok : S -> Prop;
  read_ok : forall s n, stream_ok s -> 0 <= n -> exists r bs s',
    stream_Read s n = Ok (r, bs, s') /\ stream_ok s' /\ zlen bs <= n;
  write_ok : forall s bs, stream_ok s -> exists r n s',
    stream_Write s bs = Ok (r, n, s') /\ stream_ok s' /\ n <= zlen bs;
  close_ok : forall s, stream_ok s -> stream_ok (stream_Close s);
}.

(** ** OpenSSL *)

Definition SSL_ERROR_NONE : Z := 0.
Definition SSL_ERROR_WANT_READ : Z := 2.
Definition SSL_ERROR_WANT_WRITE : Z := 3.
Definition SSL_ERROR_ZERO_RETURN : Z := 6.

Definition BIO_CTRL_RESET : Z := 1.
Definition BIO_CTRL_EOF : Z := 2.
Definition BIO_CTRL_PENDING : Z := 10.
Definition BIO_CTRL_FLUSH : Z := 11.
Definition BIO_CTRL_WPENDING : Z := 13.
Definition BIO_CTRL_DGRAM_QUERY_MTU : Z := 40.

Definition SSL_VERIFY_PEER : Z := 1.
Definition SSL_VERIFY_FAIL_IF_NO_PEER_CERT : Z := 2.

Definition TLS1_VERSION : Z := 769.
Definition TLS1_1_VERSION : Z := 770.
Definition TLS1_2_VERSION : Z := 771.
Definition DTLS1_VERSION : Z := 65279.
Definition DTLS1_2_VERSION : Z := 65277.

(** What a call of a BIO method leaves: its value, the retry flag, and the
    bytes a read stored. *)
Record bio_result := mkBio { bio_code : Z; bio_retry : bool; bio_data : bytes }.

(** The callbacks OpenSSL makes.  A null buffer is [None]. *)
Inductive ssl_action (C : Type) :=
  | verify_peer (cert : C)
  | bio_read (out : option Z)
  | bio_write (input : option bytes)
  | bio_ctrl (cmd : Z).
Arguments verify_peer {C} cert.
Arguments bio_read {C} out.
Arguments bio_write {C} input.
Arguments bio_ctrl {C} cmd.

Definition answer {C} (act : ssl_action C) : Type :=
  match act with
  | verify_peer _ => bool
  | bio_read _ | bio_write _ => bio_result
  | bio_ctrl _ => Z
  end.

(** A call: callbacks, then a result. *)
Inductive ssl_prog (C X : Type) :=
  | ssl_ret (x : X)
  | ssl_act (act : ssl_action C) (k : answer act -> ssl_prog C X).
Arguments ssl_ret {C X} x.
Arguments ssl_act {C X} act k.

(** [outcomes p v post]: on every way [p] can go, [post] holds of the answer
    the last certificate check got ([v] when there is none) and the result.
    Sizes given to the BIO are [int]s; only a library that does so ([eof]) asks
    it for the end of file. *)
Fixpoint outcomes (eof : bool) {C X} (p : ssl_prog C X) (v : option bool) (post : option bool -> X -> Prop)
    : Prop :=
  match p with
  | ssl_ret x => post v x
  | ssl_act act k =>
      match act return (answer act -> ssl_prog C X) -> Prop with
      | verify_peer _ => fun k => forall b : bool, outcomes eof (k b) (Some b) post
      | bio_read out => fun k => (if out is Some n then 0 <= n <= 2147483647 else True) /\
                                  forall r, outcomes eof (k r) v post
      | bio_write input => fun k => (if input is Some bs then zlen bs <= 2147483647 else True) /\
                                  forall r, outcomes eof (k r) v post
      | bio_ctrl cmd => fun k => (cmd = BIO_CTRL_EOF -> eof = true) /\ forall r, outcomes eof (k r) v post
      end k
  end.

Inductive SSLState := SSL_NONE | SSL_WAIT | SSL_CONNECTING | SSL_CONNECTED | SSL_ERROR | SSL_CLOSED.
Inductive SSLRole := SSL_CLIENT | SSL_SERVER.
Inductive SSLMode := SSL_MODE_TLS | SSL_MODE_DTLS.
Inductive SSLProtocolVersion :=
  | SSL_PROTOCOL_NOT_GIVEN | SSL_PROTOCOL_TLS_10 | SSL_PROTOCOL_TLS_11 | SSL_PROTOCOL_TLS_12.
(** The two DTLS versions share the values of two TLS ones. *)
Definition SSL_PROTOCOL_DTLS_10 : SSLProtocolVersion := SSL_PROTOCOL_TLS_11.
Definition SSL_PROTOCOL_DTLS_12 : SSLProtocolVersion := SSL_PROTOCOL_TLS_12.
Inductive SSLPeerCertificateDigestError := NONE | UNKNOWN_ALGORITHM | INVALID_LENGTH | VERIFICATION_FAILED.

#[export] Instance SSLState_eq_dec : EqDecision SSLState.
Proof. solve_decision. Defined.
#[export] Instance SSLMode_eq_dec : EqDecision SSLMode.
Proof. solve_decision. Defined.
#[export] Instance SSLRole_eq_dec : EqDecision SSLRole.
Proof. solve_decision. Defined.

(** The signature algorithms [GetSignatureDigestAlgorithm] knows; the others
    have a number. *)
Inductive signature_nid :=
  | NID_md5WithRSA | NID_md5WithRSAEncryption
  | NID_ecdsa_with_SHA1 | NID_dsaWithSHA1 | NID_dsaWithSHA1_2 | NID_sha1WithRSA
  | NID_sha1WithRSAEncryption
  | NID_ecdsa_with_SHA224 | NID_sha224WithRSAEncryption | NID_dsa_with_SHA224
  | NID_ecdsa_with_SHA256 | NID_sha256WithRSAEncryption | NID_dsa_with_SHA256
  | NID_ecdsa_with_SHA384 | NID_sha384WithRSAEncryption
  | NID_ecdsa_with_SHA512 | NID_sha512WithRSAEncryption
  | NID_unhandled (nid : Z).

(** [OpenSSLCertificate::GetSignatureDigestAlgorithm], given the certificate's
    [X509_get_signature_nid]. *)
Definition signature_digest_algorithm (nid : signature_nid) : option bytes :=
  match nid with
  | NID_md5WithRSA | NID_md5WithRSAEncryption => Some MessageDigest.DIGEST_MD5
  | NID_ecdsa_with_SHA1 | NID_dsaWithSHA1 | NID_dsaWithSHA1_2 | NID_sha1WithRSA
  | NID_sha1WithRSAEncryption => Some MessageDigest.DIGEST_SHA_1
  | NID_ecdsa_with_SHA224 | NID_sha224WithRSAEncryption | NID_dsa_with_SHA224 =>
      Some MessageDigest.DIGEST_SHA_224
  | NID_ecdsa_with_SHA256 | NID_sha256WithRSAEncryption | NID_dsa_with_SHA256 =>
      Some MessageDigest.DIGEST_SHA_256
  | NID_ecdsa_with_SHA384 | NID_sha384WithRSAEncryption => Some MessageDigest.DIGEST_SHA_384
  | NID_ecdsa_with_SHA512 | NID_sha512WithRSAEncryption => Some MessageDigest.DIGEST_SHA_512
  | NID_unhandled _ => None
  end.

(** The settings [SetupSSLContext] makes on an [SSL_CTX]. *)
Record SSL_CTX (I : Type) := mkCtx {
  ctx_dtls : bool;
  ctx_min_proto : Z;
  ctx_max_proto : Z;
  ctx_identity : option I;
  ctx_verify_mode : Z;
  ctx_cipher_list : bytes;
  ctx_srtp : option bytes;
}.
Arguments mkCtx {I}.
Arguments ctx_dtls {I}.
Arguments ctx_min_proto {I}.
Arguments ctx_max_proto {I}.
Arguments ctx_verify_mode {I}.
Arguments ctx_srtp {I}.

(** The calls that make a handshake step or move data give [SSL_get_error]'s
    answer (and before it the value returned, where the code uses it) and the
    connection after them.

    [accepted] is what the last check of a certificate of the peer answered,
    and false before any; [requires] says that the connection was made with
    both verification flags. *)
Class OpenSSL (C I SSL : Type) := {
  SSL_CTX_new : bool -> bool;
  SSL_CTX_use_certificate : I -> Z;
  SSL_CTX_use_PrivateKey : I -> Z;
  SSL_CTX_add1_chain_cert : I -> list Z;
  SSL_CTX_set_tlsext_use_srtp : bytes -> Z;
  BIO_new_ok : bool;
  SSL_new : SSL_CTX I -> option SSL;
  SSL_connect : SSL -> ssl_prog C (Z * SSL);
  SSL_accept : SSL -> ssl_prog C (Z * SSL);
  SSL_write : SSL -> bytes -> ssl_prog C (Z * Z * SSL);
  SSL_read : SSL -> Z -> ssl_prog C (Z * Z * bytes * SSL);
  SSL_shutdown : SSL -> ssl_prog C Z;
  SSL_pending : SSL -> Z;
  SSL_get_current_cipher : SSL -> option Z;
  SSL_version : SSL -> Z;
  SSL_export_keying_material : SSL -> bytes -> option bytes -> Z -> option bytes;
  SSL_get_selected_srtp_profile : SSL -> option Z;
  DTLSv1_get_timeout : SSL -> option (Z * Z);
  DTLSv1_handle_timeout : SSL -> ssl_prog C (Z * SSL);
  X509_digest : C -> MessageDigest.EVP_MD -> bytes;
  X509_get_signature_nid : C -> signature_nid;
  (* does this library ask the BIO for the end of file, when a read fails?
     OpenSSL 3 does; OpenSSL 1.1, which the readme names, does not *)
  asks_eof : bool;
  (* documented behaviour *)
  accepted : SSL -> bool;
  requires : SSL -> bool;
  (* SSL_VERIFY_PEER: a check that fails ends the handshake *)
  checked (s : SSL) (v : option bool) (s' : SSL) : Prop :=
    requires s' = requires s /\
    accepted s' = match v with Some b => b | None => accepted s end;
  fatal (v : option bool) (err : Z) : Prop :=
    v = Some false ->
    err <> SSL_ERROR_NONE /\ err <> SSL_ERROR_WANT_READ /\ err <> SSL_ERROR_WANT_WRITE;
  new_law : forall ctx s, SSL_new ctx = Some s -> accepted s = false /\
    requires s = bool_decide (ctx_verify_mode ctx = Z.lor SSL_VERIFY_PEER SSL_VERIFY_FAIL_IF_NO_PEER_CERT);
  (* SSL_VERIFY_FAIL_IF_NO_PEER_CERT: no handshake without a certificate *)
  handshake (s : SSL) (v : option bool) (r : Z * SSL) : Prop :=
    checked s v (snd r) /\ fatal v (fst r) /\
    (fst r = SSL_ERROR_NONE -> requires s = true -> accepted (snd r) = true);
  connect_law : forall s, outcomes asks_eof (SSL_connect s) None (handshake s);
  accept_law : forall s, outcomes asks_eof (SSL_accept s) None (handshake s);
  write_law : forall s bs, outcomes asks_eof (SSL_write s bs) None (fun v '(code, err, s') =>
    checked s v s' /\ fatal v err /\ (err = SSL_ERROR_NONE -> 0 < code <= zlen bs));
  read_law : forall s n, outcomes asks_eof (SSL_read s n) None (fun v '(code, err, bs, s') =>
    checked s v s' /\ fatal v err /\
    (err = SSL_ERROR_NONE -> 0 < code <= n /\ zlen bs = code) /\
    (* what is pending can be read at once *)
    (0 < SSL_pending s -> 0 < n -> err = SSL_ERROR_NONE /\ SSL_pending s' = SSL_pending s - code));
  shutdown_law : forall s, outcomes asks_eof (SSL_shutdown s) None (fun _ _ => True);
  pending_law : forall s, 0 <= SSL_pending s <= 2147483647;
  timeout_law : forall s sec usec, DTLSv1_get_timeout s = Some (sec, usec) ->
    0 <= sec <= 60 /\ 0 <= usec < 1000000;
  handle_timeout_law : forall s, outcomes asks_eof (DTLSv1_handle_timeout s) None (fun v '(_, s') =>
    checked s v s');
  export_law : forall s label context n r,
    SSL_export_keying_material s label context n = Some r -> zlen r = n;
  (* one of the profiles asked for, of which the adapter knows four *)
  profile_law : forall s id, SSL_get_selected_srtp_profile s = Some id ->
    id ∈ [CryptoSuites.kSrtpAes128CmSha1_80; CryptoSuites.kSrtpAes128CmSha1_32;
          CryptoSuites.kSrtpAeadAes128Gcm; CryptoSuites.kSrtpAeadAes256Gcm];
  digest_size : forall c md, zlen (X509_digest c md) = MessageDigest.EVP_MD_size md;
}.

(** ** The adapter *)

(** The peer's certificate and the digest it must have. *)
Record peer_data (C : Type) := mkPeer {
  peer_cert_chain_ : option (list C);
  peer_certificate_verified_ : bool;
  peer_certificate_digest_value_ : Buffer.Buffer;
  peer_certificate_digest_algorithm_ : bytes;
}.
Arguments mkPeer {C}.
Arguments peer_cert_chain_ {C}.
Arguments peer_certificate_verified_ {C}.
Arguments peer_certificate_digest_value_ {C}.
Arguments peer_certificate_digest_algorithm_ {C}.

(** What is chosen before [StartSSL]. *)
Record adapter_config := mkConfig {
  role_ : SSLRole;
  ssl_mode_ : SSLMode;
  ssl_max_version_ : SSLProtocolVersion;
  srtp_ciphers_ : bytes;
  support_legacy_tls_protocols_flag_ : bool;
  client_auth_enabled_ : bool;
}.

(** A signal, with the adapter's state and [peer_certificate_verified_] at the
    moment it is raised. *)
Record raised := mkRaised {
  r_events : Z;
  r_err : Z;
  r_state : SSLState;
  r_verified : bool;
}.

Definition SE_OPEN : Z := 1.
Definition SE_READ : Z := 2.
Definition SE_WRITE : Z := 4.
Definition SE_CLOSE : Z := 8.

Definition SSE_MSG_TRUNC : Z := 16711681.
Definition SSL_AD_BAD_CERTIFICATE : Z := 42.
Definition INT_MAX : Z := 2147483647.
Definition EVP_MAX_MD_SIZE : Z := 64.

(** [events & mask] as a condition. *)
Definition has (events mask : Z) : bool := negb (Z.land events mask =? 0).

Record adapter (S C I SSL : Type) := mkAdapter {
  stream_ : S;
  state_ : SSLState;
  ssl_error_code_ : option Z;   (* [None]: not initialised *)
  ssl_read_needs_write_ : bool;
  ssl_write_needs_read_ : bool;
  ssl_ : option SSL;
  ssl_ctx_ : option (SSL_CTX I);
  identity_ : option I;
  peer_ : peer_data C;
  config_ : adapter_config;
  timeout_task_ : option Z;      (* the delay of the timer that runs *)
  tasks : list (Z * Z);          (* events posted to the owner thread *)
  signals : list raised;         (* everything raised, oldest first *)
}.
Arguments mkAdapter {S C I SSL}.
Arguments stream_ {S C I SSL}.
Arguments state_ {S C I SSL}.
Arguments ssl_error_code_ {S C I SSL}.
Arguments ssl_read_needs_write_ {S C I SSL}.
Arguments ssl_write_needs_read_ {S C I SSL}.
Arguments ssl_ {S C I SSL}.
Arguments ssl_ctx_ {S C I SSL}.
Arguments identity_ {S C I SSL}.
Arguments peer_ {S C I SSL}.
Arguments config_ {S C I SSL}.
Arguments timeout_task_ {S C I SSL}.
Arguments tasks {S C I SSL}.
Arguments signals {S C I SSL}.

Section Setters.
Context {S C I SSL : Type}.
Implicit Types a : adapter S C I SSL.

Definition set_stream a x : adapter S C I SSL :=
  mkAdapter x (state_ a) (ssl_error_code_ a) (ssl_read_needs_write_ a) (ssl_write_needs_read_ a)
    (ssl_ a) (ssl_ctx_ a) (identity_ a) (peer_ a) (config_ a) (timeout_task_ a) (tasks a) (signals a).
Definition set_state a x : adapter S C I SSL :=
  mkAdapter (stream_ a) x (ssl_error_code_ a) (ssl_read_needs_write_ a) (ssl_write_needs_read_ a)
    (ssl_ a) (ssl_ctx_ a) (identity_ a) (peer_ a) (config_ a) (timeout_task_ a) (tasks a) (signals a).
Definition set_error_code a x : adapter S C I SSL :=
  mkAdapter (stream_ a) (state_ a) x (ssl_read_needs_write_ a) (ssl_write_needs_read_ a)
    (ssl_ a) (ssl_ctx_ a) (identity_ a) (peer_ a) (config_ a) (timeout_task_ a) (tasks a) (signals a).
Definition set_needs a read_needs_write write_needs_read : adapter S C I SSL :=
  mkAdapter (stream_ a) (state_ a) (ssl_error_code_ a) read_needs_write write_needs_read
    (ssl_ a) (ssl_ctx_ a) (identity_ a) (peer_ a) (config_ a) (timeout_task_ a) (tasks a) (signals a).
Definition set_ssl a x : adapter S C I SSL :=
  mkAdapter (stream_ a) (state_ a) (ssl_error_code_ a) (ssl_read_needs_write_ a)
    (ssl_write_needs_read_ a) x (ssl_ctx_ a) (identity_ a) (peer_ a) (config_ a)
    (timeout_task_ a) (tasks a) (signals a).
Definition set_ctx a x : adapter S C I SSL :=
  mkAdapter (stream_ a) (state_ a) (ssl_error_code_ a) (ssl_read_needs_write_ a)
    (ssl_write_needs_read_ a) (ssl_ a) x (identity_ a) (peer_ a) (config_ a)
    (timeout_task_ a) (tasks a) (signals a).
Definition set_identity a x : adapter S C I SSL :=
  mkAdapter (stream_ a) (state_ a) (ssl_error_code_ a) (ssl_read_needs_write_ a)
    (ssl_write_needs_read_ a) (ssl_ a) (ssl_ctx_ a) x (peer_ a) (config_ a)
    (timeout_task_ a) (tasks a) (signals a).
Definition set_peer a x : adapter S C I SSL :=
  mkAdapter (stream_ a) (state_ a) (ssl_error_code_ a) (ssl_read_needs_write_ a)
    (ssl_write_needs_read_ a) (ssl_ a) (ssl_ctx_ a) (identity_ a) x (config_ a)
    (timeout_task_ a) (tasks a) (signals a).
Definition set_config a x : adapter S C I SSL :=
  mkAdapter (stream_ a) (state_ a) (ssl_error_code_ a) (ssl_read_needs_write_ a)
    (ssl_write_needs_read_ a) (ssl_ a) (ssl_ctx_ a) (identity_ a) (peer_ a) x
    (timeout_task_ a) (tasks a) (signals a).
Definition set_timeout a x : adapter S C I SSL :=
  mkAdapter (stream_ a) (state_ a) (ssl_error_code_ a) (ssl_read_needs_write_ a)
    (ssl_write_needs_read_ a) (ssl_ a) (ssl_ctx_ a) (identity_ a) (peer_ a) (config_ a)
    x (tasks a) (signals a).
Definition set_tasks a x : adapter S C I SSL :=
  mkAdapter (stream_ a) (state_ a) (ssl_error_code_ a) (ssl_read_needs_write_ a)
    (ssl_write_needs_read_ a) (ssl_ a) (ssl_ctx_ a) (identity_ a) (peer_ a) (config_ a)
    (timeout_task_ a) x (signals a).
Definition set_signals a x : adapter S C I SSL :=
  mkAdapter (stream_ a) (state_ a) (ssl_error_code_ a) (ssl_read_needs_write_ a)
    (ssl_write_needs_read_ a) (ssl_ a) (ssl_ctx_ a) (identity_ a) (peer_ a) (config_ a)
    (timeout_task_ a) (tasks a) x.
End Setters.

Definition set_chain {C} (p : peer_data C) x : peer_data C :=
  mkPeer x (peer_certificate_verified_ p) (peer_certificate_digest_value_ p)
    (peer_certificate_digest_algorithm_ p).
Definition set_verified {C} (p : peer_data C) x : peer_data C :=
  mkPeer (peer_cert_chain_ p) x (peer_certificate_digest_value_ p)
    (peer_certificate_digest_algorithm_ p).

Definition kSrtpCipherMap : list (bytes * Z) := [
  (lit "SRTP_AES128_CM_SHA1_80", CryptoSuites.kSrtpAes128CmSha1_80);
  (lit "SRTP_AES128_CM_SHA1_32", CryptoSuites.kSrtpAes128CmSha1_32);
  (lit "SRTP_AEAD_AES_128_GCM", CryptoSuites.kSrtpAeadAes128Gcm);
  (lit "SRTP_AEAD_AES_256_GCM", CryptoSuites.kSrtpAeadAes256Gcm)].

(** The first entry of the table with this id. *)
Definition srtp_internal_name (cipher : Z) : option bytes :=
  fst <$> List.find (fun e : bytes * Z => cipher =? snd e) kSrtpCipherMap.

(** The loop of [SetDtlsSrtpCryptoSuites]. *)
Fixpoint srtp_cipher_string (ciphers : list Z) (internal_ciphers : bytes) : option bytes :=
  match ciphers with
  | [] => Some internal_ciphers
  | cipher :: rest =>
      match srtp_internal_name cipher with
      | None => None
      | Some name =>
          srtp_cipher_string rest
            ((if bool_decide (internal_ciphers = []) then internal_ciphers
              else internal_ciphers ++ lit ":") ++ name)
      end
  end.

Section Adapter.
Context {S C I SSL : Type} `{StreamInterface S} `{OpenSSL C I SSL}.
Abbreviation Adapter := (adapter S C I SSL).

(** [SignalEvent]'s client. *)
Context (slot : Adapter -> Z -> Z -> res Adapter).

Definition new_config (legacy : bool) : adapter_config :=
  mkConfig SSL_CLIENT SSL_MODE_TLS SSL_PROTOCOL_TLS_12 [] legacy true.

(** The constructor, given what [ShouldAllowLegacyTLSProtocols()] says. *)
Definition new_adapter (stream : S) (legacy : bool) : Adapter :=
  mkAdapter stream SSL_NONE None false false None None None
    (mkPeer None false Buffer.empty []) (new_config legacy) None [] [].

Definition GetClientAuthEnabled (a : Adapter) : bool := client_auth_enabled_ (config_ a).

Definition WaitingToVerifyPeerCertificate (a : Adapter) : bool :=
  GetClientAuthEnabled a && negb (peer_certificate_verified_ (peer_ a)).

Definition HasPeerCertificateDigest (p : peer_data C) : bool :=
  negb (bool_decide (peer_certificate_digest_algorithm_ p = []))
  && negb (Buffer.is_empty (peer_certificate_digest_value_ p)).

(** *** BIO methods *)

Definition stream_read (s : S) (out : option Z) : res (bio_result * S) :=
  match out with
  | None => Ok (mkBio (-1) false [], s)
  | Some outl =>
      '(result, bs, s) ← stream_Read s outl;
      match result with
      | Dtls.SR_SUCCESS =>
          _ ← require (zlen bs <=? INT_MAX) AssertFailed;
          Ok (mkBio (zlen bs) false bs, s)
      | Dtls.SR_BLOCK => Ok (mkBio (-1) true [], s)
      | _ => Ok (mkBio (-1) false [], s)
      end
  end.

Definition stream_write (s : S) (input : option bytes) : res (bio_result * S) :=
  match input with
  | None => Ok (mkBio (-1) false [], s)
  | Some bs =>
      '(result, written, s) ← stream_Write s bs;
      match result with
      | Dtls.SR_SUCCESS =>
          _ ← require (written <=? INT_MAX) AssertFailed;
          Ok (mkBio written false [], s)
      | Dtls.SR_BLOCK => Ok (mkBio (-1) true [], s)
      | _ => Ok (mkBio (-1) false [], s)
      end
  end.

(** The stream is looked for in the last argument of the call. *)
Definition stream_ctrl (cmd : Z) (ptr : option S) : res Z :=
  if cmd =? BIO_CTRL_RESET then Ok 0
  else if cmd =? BIO_CTRL_EOF then
    s ← from_opt NullDeref ptr;
    Ok (match stream_GetState s with Dtls.SS_CLOSED => 1 | _ => 0 end)
  else if (cmd =? BIO_CTRL_WPENDING) || (cmd =? BIO_CTRL_PENDING) then Ok 0
  else if cmd =? BIO_CTRL_FLUSH then Ok 1
  else if cmd =? BIO_CTRL_DGRAM_QUERY_MTU then Ok 1200
  else Ok 0.

(** *** Certificates *)

(** [OpenSSLCertificate::ComputeDigest] into a buffer of [size] bytes. *)
Definition ComputeDigest (cert : C) (algorithm : bytes) (size : Z) : option bytes :=
  match MessageDigest.GetDigestEVP algorithm with
  | None => None
  | Some md =>
      if size <? MessageDigest.EVP_MD_size md then None else Some (X509_digest cert md)
  end.

#[export] Instance OpenSSLCertificate : SslFingerprint.SSLCertificate C := {|
  SslFingerprint.cert_ComputeDigest := ComputeDigest;
  SslFingerprint.cert_GetSignatureDigestAlgorithm c :=
    signature_digest_algorithm (X509_get_signature_nid c);
|}.

Definition VerifyPeerCertificate (p : peer_data C) : res (bool * peer_data C) :=
  match HasPeerCertificateDigest p, peer_cert_chain_ p with
  | true, Some (cert :: _) =>
      match ComputeDigest cert (peer_certificate_digest_algorithm_ p) EVP_MAX_MD_SIZE with
      | None => Ok (false, p)
      | Some digest =>
          same ← Buffer.equals (Buffer.create_from digest 0) (peer_certificate_digest_value_ p);
          Ok (if (same : bool) then (true, set_verified p true) else (false, p))
      end
  | _, _ => Ok (false, p)
  end.

(** The certificate check of [SSL_CTX_set_cert_verify_callback]. *)
Definition SSLVerifyCallback (p : peer_data C) (cert : C) : res (bool * peer_data C) :=
  let p := set_chain p (Some [cert]) in
  if bool_decide (peer_certificate_digest_algorithm_ p = []) then Ok (true, p)
  else VerifyPeerCertificate p.

(** *** Running a call of OpenSSL *)

Definition callback (act : ssl_action C) (a : Adapter) : res (answer act * Adapter) :=
  match act return res (answer act * Adapter) with
  | verify_peer cert =>
      '(r, p) ← SSLVerifyCallback (peer_ a) cert; Ok (r, set_peer a p)
  | bio_read out => '(r, s) ← stream_read (stream_ a) out; Ok (r, set_stream a s)
  | bio_write input => '(r, s) ← stream_write (stream_ a) input; Ok (r, set_stream a s)
  | bio_ctrl cmd => r ← stream_ctrl cmd None; Ok (r, a)
  end.

Fixpoint run {X} (p : ssl_prog C X) (a : Adapter) : res (X * Adapter) :=
  match p with
  | ssl_ret x => Ok (x, a)
  | ssl_act act k => '(r, a) ← callback act a; run (k r) a
  end.

(** *** Closing *)

(** Without BoringSSL the alert is not sent. *)
Definition Cleanup (a : Adapter) (alert : Z) : res Adapter :=
  let a := if bool_decide (state_ a = SSL_ERROR) then a
           else set_error_code (set_state a SSL_CLOSED) (Some 0) in
  a ← match ssl_ a with
      | None => Ok a
      | Some ssl => '(_, a) ← run (SSL_shutdown ssl) a; Ok (set_ssl a None)
      end;
  Ok (set_timeout (set_peer (set_identity (set_ctx a None) None) (set_chain (peer_ a) None)) None).

Definition SignalEvent (a : Adapter) (events err : Z) : res Adapter :=
  slot (set_signals a (signals a ++ [mkRaised events err (state_ a)
                                       (peer_certificate_verified_ (peer_ a))])) events err.

Definition Error (a : Adapter) (err alert : Z) (signal : bool) : res Adapter :=
  let a := set_error_code (set_state a SSL_ERROR) (Some err) in
  a ← Cleanup a alert;
  if signal then SignalEvent a SE_CLOSE err else Ok a.

Definition Close (a : Adapter) : res Adapter :=
  a ← Cleanup a 0;
  _ ← require (bool_decide (state_ a = SSL_CLOSED) || bool_decide (state_ a = SSL_ERROR)) AssertFailed;
  Ok (set_stream a (stream_Close (stream_ a))).

(** [timeout_task_.Stop()]. *)
Definition stop_timer (a : Adapter) : Adapter := set_timeout a None.

Definition PostEvent (a : Adapter) (events err : Z) : Adapter :=
  set_tasks a (tasks a ++ [(events, err)]).

(** *** The handshake *)

Definition ConfigureIdentity (identity : I) : bool :=
  (SSL_CTX_use_certificate identity =? 1) && (SSL_CTX_use_PrivateKey identity =? 1)
  && forallb (fun r => r =? 1) (SSL_CTX_add1_chain_cert identity).

Definition cipher_list : bytes :=
  lit "DEFAULT:!NULL:!aNULL:!SHA256:!SHA384:!aECDH:!AESGCM+AES256:!aPSK:!3DES".

(** The lowest and highest protocol versions. *)
Definition protocol_versions (c : adapter_config) : Z * Z :=
  let dtls := bool_decide (ssl_mode_ c = SSL_MODE_DTLS) in
  if support_legacy_tls_protocols_flag_ c then
    (if dtls then DTLS1_VERSION else TLS1_VERSION,
     match ssl_max_version_ c with
     | SSL_PROTOCOL_TLS_10 => if dtls then DTLS1_VERSION else TLS1_VERSION
     | SSL_PROTOCOL_TLS_11 => if dtls then DTLS1_VERSION else TLS1_1_VERSION
     | _ => if dtls then DTLS1_2_VERSION else TLS1_2_VERSION
     end)
  else
    (if dtls then DTLS1_2_VERSION else TLS1_2_VERSION,
     if dtls then DTLS1_2_VERSION else TLS1_2_VERSION).

Definition SetupSSLContext (a : Adapter) : option (SSL_CTX I) :=
  let c := config_ a in
  let dtls := bool_decide (ssl_mode_ c = SSL_MODE_DTLS) in
  if negb (SSL_CTX_new dtls) then None
  else
    let '(min_proto, max_proto) := protocol_versions c in
    if (if identity_ a is Some i then negb (ConfigureIdentity i) else false) then None
    else
      let mode := if GetClientAuthEnabled a
                  then Z.lor SSL_VERIFY_PEER SSL_VERIFY_FAIL_IF_NO_PEER_CERT
                  else SSL_VERIFY_PEER in
      let ctx := mkCtx dtls min_proto max_proto (identity_ a) mode cipher_list in
      if bool_decide (srtp_ciphers_ c = []) then Some (ctx None)
      else if negb (SSL_CTX_set_tlsext_use_srtp (c_str (srtp_ciphers_ c)) =? 0) then None
      else Some (ctx (Some (c_str (srtp_ciphers_ c)))).

Definition SetTimeout (a : Adapter) (delay_ms : Z) : res Adapter :=
  _ ← require (0 <=? delay_ms) AssertFailed;
  _ ← require (bool_decide (timeout_task_ a = None)) AssertFailed;
  Ok (set_timeout a (Some delay_ms)).

(** The value returned; the handshake error is signalled to a slot that
    prints it. *)
Definition ContinueSSL (a : Adapter) : res (Z * Adapter) :=
  _ ← require (bool_decide (state_ a = SSL_CONNECTING)) AssertFailed;
  let a := stop_timer a in
  ssl ← from_opt NullDeref (ssl_ a);
  '((ssl_error, ssl), a) ←
    run (if bool_decide (role_ (config_ a) = SSL_CLIENT) then SSL_connect ssl else SSL_accept ssl) a;
  let a := set_ssl a (Some ssl) in
  if ssl_error =? SSL_ERROR_NONE then
    _ ← require (negb (bool_decide (peer_cert_chain_ (peer_ a) = None)) || negb (GetClientAuthEnabled a))
          AssertFailed;
    let a := set_state a SSL_CONNECTED in
    if negb (WaitingToVerifyPeerCertificate a) then
      a ← SignalEvent a (Z.lor SE_OPEN (Z.lor SE_READ SE_WRITE)) 0; Ok (0, a)
    else Ok (0, a)
  else if ssl_error =? SSL_ERROR_WANT_READ then
    match DTLSv1_get_timeout ssl with
    | None => Ok (0, a)
    | Some (tv_sec, tv_usec) => a ← SetTimeout a (i32 (tv_sec * 1000 + tv_usec / 1000)); Ok (0, a)
    end
  else if ssl_error =? SSL_ERROR_WANT_WRITE then Ok (0, a)
  else Ok (if negb (ssl_error =? 0) then ssl_error else -1, a).

Definition BeginSSL (a : Adapter) : res (Z * Adapter) :=
  _ ← require (bool_decide (state_ a = SSL_CONNECTING)) AssertFailed;
  _ ← require (if ssl_ctx_ a is None then true else false) AssertFailed;
  let ctx := SetupSSLContext a in
  let a := set_ctx a ctx in
  match ctx with
  | None => Ok (-1, a)
  | Some ctx =>
      if negb BIO_new_ok then Ok (-1, a)
      else match SSL_new ctx with
           | None => Ok (-1, a)
           | Some ssl => ContinueSSL (set_ssl a (Some ssl))
           end
  end.

Definition StartSSL (a : Adapter) : res (Z * Adapter) :=
  if negb (bool_decide (state_ a = SSL_NONE)) then Ok (-1, a)
  else match stream_GetState (stream_ a) with
       | Dtls.SS_OPEN =>
           '(err, a) ← BeginSSL (set_state a SSL_CONNECTING);
           if negb (err =? 0) then a ← Error a err 0 false; Ok (err, a) else Ok (0, a)
       | _ => Ok (0, set_state a SSL_WAIT)
       end.

(** The result, [*error], and the adapter. *)
Definition SetPeerCertificateDigest (a : Adapter) (digest_alg digest_val : bytes)
    : res (bool * SSLPeerCertificateDigestError * Adapter) :=
  _ ← require (negb (peer_certificate_verified_ (peer_ a))) AssertFailed;
  _ ← require (negb (HasPeerCertificateDigest (peer_ a))) AssertFailed;
  match MessageDigest.GetDigestSize digest_alg with
  | None => Ok (false, UNKNOWN_ALGORITHM, a)
  | Some expected_len =>
      if negb (expected_len =? zlen digest_val) then Ok (false, INVALID_LENGTH, a)
      else
        let p := peer_ a in
        let p := mkPeer (peer_cert_chain_ p) (peer_certificate_verified_ p)
                   (Buffer.SetData false (peer_certificate_digest_value_ p) digest_val) digest_alg in
        if peer_cert_chain_ p is None then Ok (true, NONE, set_peer a p)
        else
          '(ok, p) ← VerifyPeerCertificate p;
          let a := set_peer a p in
          if negb ok then
            a ← Error a (-1) SSL_AD_BAD_CERTIFICATE false;
            Ok (false, VERIFICATION_FAILED, a)
          else if bool_decide (state_ a = SSL_CONNECTED) then
            Ok (true, NONE, PostEvent a (Z.lor SE_OPEN (Z.lor SE_READ SE_WRITE)) 0)
          else Ok (true, NONE, a)
  end.

(** *** Data *)

(** The result, [*written] on success, [*error] when it is set. *)
Definition Write (a : Adapter) (data : bytes)
    : res (Dtls.StreamResult * Z * option Z * Adapter) :=
  let encrypted a :=
    if bool_decide (data = []) then Ok (Dtls.SR_SUCCESS, 0, None, a)
    else
      let a := set_needs a (ssl_read_needs_write_ a) false in
      _ ← require (zlen data <=? INT_MAX) AssertFailed;
      ssl ← from_opt NullDeref (ssl_ a);
      '((code, ssl_error, ssl), a) ← run (SSL_write ssl data) a;
      let a := set_ssl a (Some ssl) in
      if ssl_error =? SSL_ERROR_NONE then
        _ ← require (0 <? code) AssertFailed;
        _ ← require (code <=? zlen data) AssertFailed;
        Ok (Dtls.SR_SUCCESS, code, None, a)
      else if ssl_error =? SSL_ERROR_WANT_READ then
        Ok (Dtls.SR_BLOCK, 0, None, set_needs a (ssl_read_needs_write_ a) true)
      else if ssl_error =? SSL_ERROR_WANT_WRITE then Ok (Dtls.SR_BLOCK, 0, None, a)
      else
        a ← Error a (if negb (ssl_error =? 0) then ssl_error else -1) 0 false;
        Ok (Dtls.SR_ERROR, 0, ssl_error_code_ a, a) in
  match state_ a with
  | SSL_NONE =>
      '(r, written, s) ← stream_Write (stream_ a) data; Ok (r, written, None, set_stream a s)
  | SSL_WAIT | SSL_CONNECTING => Ok (Dtls.SR_BLOCK, 0, None, a)
  | SSL_CONNECTED =>
      if WaitingToVerifyPeerCertificate a then Ok (Dtls.SR_BLOCK, 0, None, a) else encrypted a
  | SSL_ERROR | SSL_CLOSED => Ok (Dtls.SR_ERROR, 0, ssl_error_code_ a, a)
  end.

(** [while (left)]; each round takes at least one byte. *)
Fixpoint flush_loop (fuel : nat) (a : Adapter) (left : Z) : res Adapter :=
  if left =? 0 then Ok a
  else match fuel with
       | O => Fail OutOfFuel
       | Datatypes.S fuel =>
           let toread := if 2048 <? left then 2048 else left in
           ssl ← from_opt NullDeref (ssl_ a);
           '((code, ssl_error, _, ssl), a) ← run (SSL_read ssl toread) a;
           let a := set_ssl a (Some ssl) in
           _ ← require (ssl_error =? SSL_ERROR_NONE) AssertFailed;
           if negb (ssl_error =? SSL_ERROR_NONE) then
             Error a (if negb (ssl_error =? 0) then ssl_error else -1) 0 false
           else flush_loop fuel a (u32 (left - code))
       end.

Definition FlushInput (a : Adapter) (left : Z) : res Adapter := flush_loop (Z.to_nat left) a left.

(** The result, the bytes stored, [*error] when it is set. *)
Definition Read (a : Adapter) (data_len : Z)
    : res (Dtls.StreamResult * bytes * option Z * Adapter) :=
  let decrypted a :=
    if data_len =? 0 then Ok (Dtls.SR_SUCCESS, [], None, a)
    else
      let a := set_needs a false (ssl_write_needs_read_ a) in
      _ ← require (data_len <=? INT_MAX) AssertFailed;
      ssl ← from_opt NullDeref (ssl_ a);
      '((code, ssl_error, data, ssl), a) ← run (SSL_read ssl data_len) a;
      let a := set_ssl a (Some ssl) in
      if ssl_error =? SSL_ERROR_NONE then
        _ ← require (0 <? code) AssertFailed;
        _ ← require (code <=? data_len) AssertFailed;
        if bool_decide (ssl_mode_ (config_ a) = SSL_MODE_DTLS) && negb (SSL_pending ssl =? 0) then
          a ← FlushInput a (SSL_pending ssl);
          Ok (Dtls.SR_ERROR, data, Some SSE_MSG_TRUNC, a)
        else Ok (Dtls.SR_SUCCESS, data, None, a)
      else if ssl_error =? SSL_ERROR_WANT_READ then Ok (Dtls.SR_BLOCK, data, None, a)
      else if ssl_error =? SSL_ERROR_WANT_WRITE then
        Ok (Dtls.SR_BLOCK, data, None, set_needs a true (ssl_write_needs_read_ a))
      else if ssl_error =? SSL_ERROR_ZERO_RETURN then
        a ← Close a; Ok (Dtls.SR_EOS, data, None, a)
      else
        a ← Error a (if negb (ssl_error =? 0) then ssl_error else -1) 0 false;
        Ok (Dtls.SR_ERROR, data, ssl_error_code_ a, a) in
  match state_ a with
  | SSL_NONE =>
      '(r, data, s) ← stream_Read (stream_ a) data_len; Ok (r, data, None, set_stream a s)
  | SSL_WAIT | SSL_CONNECTING => Ok (Dtls.SR_BLOCK, [], None, a)
  | SSL_CONNECTED =>
      if WaitingToVerifyPeerCertificate a then Ok (Dtls.SR_BLOCK, [], None, a) else decrypted a
  | SSL_CLOSED => Ok (Dtls.SR_EOS, [], None, a)
  | SSL_ERROR => Ok (Dtls.SR_ERROR, [], ssl_error_code_ a, a)
  end.

Definition GetState (a : Adapter) : Dtls.StreamState :=
  match state_ a with
  | SSL_WAIT | SSL_CONNECTING => Dtls.SS_OPENING
  | SSL_CONNECTED => if WaitingToVerifyPeerCertificate a then Dtls.SS_OPENING else Dtls.SS_OPEN
  | _ => Dtls.SS_CLOSED
  end.

(** *** Events of the stream below *)

(** The three parts of [OnEvent].  The first two give [None] where the code
    returns early. *)
Definition on_open (a : Adapter) (events : Z) : res (option Z * Adapter) :=
  if negb (has events SE_OPEN) then Ok (Some 0, a)
  else if negb (bool_decide (state_ a = SSL_WAIT)) then
    _ ← require (bool_decide (state_ a = SSL_NONE)) AssertFailed;
    Ok (Some SE_OPEN, a)
  else
    '(err, a) ← BeginSSL (set_state a SSL_CONNECTING);
    if negb (err =? 0) then a ← Error a err 0 true; Ok (None, a) else Ok (Some 0, a).

Definition on_data (a : Adapter) (events events_to_signal : Z) : res (option Z * Adapter) :=
  if negb (has events (Z.lor SE_READ SE_WRITE)) then Ok (Some events_to_signal, a)
  else match state_ a with
       | SSL_NONE => Ok (Some (Z.lor events_to_signal (Z.land events (Z.lor SE_READ SE_WRITE))), a)
       | SSL_CONNECTING =>
           '(err, a) ← ContinueSSL a;
           if negb (err =? 0) then a ← Error a err 0 true; Ok (None, a)
           else Ok (Some events_to_signal, a)
       | SSL_CONNECTED =>
           let write := (has events SE_READ && ssl_write_needs_read_ a) || has events SE_WRITE in
           let read := (has events SE_WRITE && ssl_read_needs_write_ a) || has events SE_READ in
           let e := if write then Z.lor events_to_signal SE_WRITE else events_to_signal in
           Ok (Some (if read then Z.lor e SE_READ else e), a)
       | _ => Ok (Some events_to_signal, a)
       end.

Definition on_close (a : Adapter) (events err events_to_signal : Z) : res Adapter :=
  '(e, signal_error, a) ←
    (if has events SE_CLOSE then
       a ← Cleanup a 0; Ok (Z.lor events_to_signal SE_CLOSE, err, a)
     else Ok (events_to_signal, 0, a));
  if negb (e =? 0) then SignalEvent a e signal_error else Ok a.

Definition OnEvent (a : Adapter) (events err : Z) : res Adapter :=
  '(e, a) ← on_open a events;
  match e with
  | None => Ok a
  | Some e =>
      '(e, a) ← on_data a events e;
      match e with
      | None => Ok a
      | Some e => on_close a events err e
      end
  end.

(** The timer's task, while the adapter is alive: what [ContinueSSL] returns
    is not looked at. *)
Definition on_timeout (a : Adapter) : res Adapter :=
  if timeout_task_ a is None then Ok a
  else
    let a := stop_timer a in
    ssl ← from_opt NullDeref (ssl_ a);
    '((res, ssl), a) ← run (DTLSv1_handle_timeout ssl) a;
    '(_, a) ← ContinueSSL (set_ssl a (Some ssl));
    Ok a.

(** The owner thread runs the first event posted. *)
Definition on_task (a : Adapter) : res Adapter :=
  match tasks a with
  | [] => Ok a
  | (events, err) :: rest => SignalEvent (set_tasks a rest) events err
  end.

(** *** Configuration and queries *)

Definition SetIdentity (a : Adapter) (identity : I) : res Adapter :=
  _ ← require (if identity_ a is None then true else false) AssertFailed;
  Ok (set_identity a (Some identity)).

Definition SetServerRole (a : Adapter) (role : SSLRole) : Adapter :=
  let c := config_ a in
  set_config a (mkConfig role (ssl_mode_ c) (ssl_max_version_ c) (srtp_ciphers_ c)
                  (support_legacy_tls_protocols_flag_ c) (client_auth_enabled_ c)).

Definition SetMode (a : Adapter) (mode : SSLMode) : res Adapter :=
  _ ← require (bool_decide (state_ a = SSL_NONE)) AssertFailed;
  let c := config_ a in
  Ok (set_config a (mkConfig (role_ c) mode (ssl_max_version_ c) (srtp_ciphers_ c)
                      (support_legacy_tls_protocols_flag_ c) (client_auth_enabled_ c))).

Definition SetMaxProtocolVersion (a : Adapter) (version : SSLProtocolVersion) : res Adapter :=
  _ ← require (if ssl_ctx_ a is None then true else false) AssertFailed;
  let c := config_ a in
  Ok (set_config a (mkConfig (role_ c) (ssl_mode_ c) version (srtp_ciphers_ c)
                      (support_legacy_tls_protocols_flag_ c) (client_auth_enabled_ c))).

Definition SetDtlsSrtpCryptoSuites (a : Adapter) (ciphers : list Z) : bool * Adapter :=
  if negb (bool_decide (state_ a = SSL_NONE)) then (false, a)
  else match srtp_cipher_string ciphers [] with
       | None | Some [] => (false, a)
       | Some s =>
           let c := config_ a in
           (true, set_config a (mkConfig (role_ c) (ssl_mode_ c) (ssl_max_version_ c) s
                                  (support_legacy_tls_protocols_flag_ c) (client_auth_enabled_ c)))
       end.

Definition GetDtlsSrtpCryptoSuite (a : Adapter) : res (option Z) :=
  _ ← require (bool_decide (state_ a = SSL_CONNECTED)) AssertFailed;
  ssl ← from_opt NullDeref (ssl_ a);
  match SSL_get_selected_srtp_profile ssl with
  | None => Ok None
  | Some id =>
      _ ← require (negb (bool_decide (CryptoSuites.SrtpCryptoSuiteToName id = []))) AssertFailed;
      Ok (Some id)
  end.

Definition IsTlsConnected (a : Adapter) : bool := bool_decide (state_ a = SSL_CONNECTED).

Definition GetPeerSSLCertChain (a : Adapter) : option (list C) := peer_cert_chain_ (peer_ a).

Definition GetSslCipherSuite (a : Adapter) : res (option Z) :=
  if negb (bool_decide (state_ a = SSL_CONNECTED)) then Ok None
  else ssl ← from_opt NullDeref (ssl_ a); Ok (u16 <$> SSL_get_current_cipher ssl).

Definition GetSslVersionBytes (a : Adapter) : res (option Z) :=
  if negb (bool_decide (state_ a = SSL_CONNECTED)) then Ok None
  else ssl ← from_opt NullDeref (ssl_ a); Ok (Some (SSL_version ssl)).

Definition GetSslVersion (a : Adapter) : res SSLProtocolVersion :=
  if negb (bool_decide (state_ a = SSL_CONNECTED)) then Ok SSL_PROTOCOL_NOT_GIVEN
  else
    ssl ← from_opt NullDeref (ssl_ a);
    let ssl_version := SSL_version ssl in
    Ok (if bool_decide (ssl_mode_ (config_ a) = SSL_MODE_DTLS) then
          if ssl_version =? DTLS1_VERSION then SSL_PROTOCOL_DTLS_10
          else if ssl_version =? DTLS1_2_VERSION then SSL_PROTOCOL_DTLS_12
          else SSL_PROTOCOL_NOT_GIVEN
        else if ssl_version =? TLS1_VERSION then SSL_PROTOCOL_TLS_10
        else if ssl_version =? TLS1_1_VERSION then SSL_PROTOCOL_TLS_11
        else if ssl_version =? TLS1_2_VERSION then SSL_PROTOCOL_TLS_12
        else SSL_PROTOCOL_NOT_GIVEN).

(** [ssl_] is passed whatever the state. *)
Definition ExportKeyingMaterial (a : Adapter) (label : bytes) (context : option bytes)
    (result_len : Z) : res (option bytes) :=
  ssl ← from_opt NullDeref (ssl_ a);
  Ok (SSL_export_keying_material ssl label context result_len).

(** *** The calls of a client, and of the stream and the thread below *)

Inductive adapter_call :=
  | call_SetIdentity (identity : I)
  | call_SetServerRole (role : SSLRole)
  | call_SetMode (mode : SSLMode)
  | call_SetMaxProtocolVersion (version : SSLProtocolVersion)
  | call_SetPeerCertificateDigest (digest_alg digest_val : bytes)
  | call_SetDtlsSrtpCryptoSuites (ciphers : list Z)
  | call_StartSSL
  | call_Write (data : bytes)
  | call_Read (data_len : Z)
  | call_Close
  | call_OnEvent (events err : Z)
  | call_timeout
  | call_task
  | call_GetDtlsSrtpCryptoSuite
  | call_ExportKeyingMaterial (label : bytes) (context : option bytes) (result_len : Z)
  | call_GetSslCipherSuite
  | call_GetSslVersion
  | call_GetSslVersionBytes
  | call_below (s : S).   (* packets arrive: the stream changes *)

Definition do_call (a : Adapter) (c : adapter_call) : res Adapter :=
  match c with
  | call_SetIdentity i => SetIdentity a i
  | call_SetServerRole r => Ok (SetServerRole a r)
  | call_SetMode m => SetMode a m
  | call_SetMaxProtocolVersion v => SetMaxProtocolVersion a v
  | call_SetPeerCertificateDigest alg v => snd <$> SetPeerCertificateDigest a alg v
  | call_SetDtlsSrtpCryptoSuites l => Ok (snd (SetDtlsSrtpCryptoSuites a l))
  | call_StartSSL => snd <$> StartSSL a
  | call_Write data => snd <$> Write a data
  | call_Read n => snd <$> Read a n
  | call_Close => Close a
  | call_OnEvent events err => OnEvent a events err
  | call_timeout => on_timeout a
  | call_task => on_task a
  | call_GetDtlsSrtpCryptoSuite => _ ← GetDtlsSrtpCryptoSuite a; Ok a
  | call_ExportKeyingMaterial label context n => _ ← ExportKeyingMaterial a label context n; Ok a
  | call_GetSslCipherSuite => _ ← GetSslCipherSuite a; Ok a
  | call_GetSslVersion => _ ← GetSslVersion a; Ok a
  | call_GetSslVersionBytes => _ ← GetSslVersionBytes a; Ok a
  | call_below s => Ok (set_stream a s)
  end.

Fixpoint do_calls (a : Adapter) (cs : list adapter_call) : res Adapter :=
  match cs with
  | [] => Ok a
  | c :: cs => a ← do_call a c; do_calls a cs
  end.

(** What a call asks for: the checks at its start, and a connection for
    [ExportKeyingMaterial], which does not check for one. *)
Definition allowed (a : Adapter) (c : adapter_call) : bool :=
  match c with
  | call_SetIdentity _ => if identity_ a is None then true else false
  | call_SetMode _ => bool_decide (state_ a = SSL_NONE)
  | call_SetMaxProtocolVersion _ => if ssl_ctx_ a is None then true else false
  | call_SetPeerCertificateDigest _ _ =>
      negb (peer_certificate_verified_ (peer_ a)) && negb (HasPeerCertificateDigest (peer_ a))
  | call_OnEvent events _ =>
      negb (has events SE_OPEN) || bool_decide (state_ a = SSL_NONE) || bool_decide (state_ a = SSL_WAIT)
  | call_GetDtlsSrtpCryptoSuite => bool_decide (state_ a = SSL_CONNECTED)
  | call_ExportKeyingMaterial _ _ _ => if ssl_ a is None then false else true
  | _ => true
  end.

(** The fault of a call that is not allowed. *)
Definition refusal (c : adapter_call) : fault :=
  match c with call_ExportKeyingMaterial _ _ _ => NullDeref | _ => AssertFailed end.

(** Sizes an [int] can hold, and a stream that is one. *)
Definition sized (c : adapter_call) : Prop :=
  match c with
  | call_below s => stream_ok s
  | call_Read n => 0 <= n <= INT_MAX
  | call_Write data => zlen data <= INT_MAX
  | _ => True
  end.

(** ** Invariants *)

(** Looking for the end of file reads the stream through a null pointer: the
    fault of a library that asks for it. *)
Definition eof_asked (e : fault) : Prop := asks_eof = true /\ e = NullDeref.

Abbreviation settles := (safely eof_asked).

(** The certificate has the digest asked for. *)
Definition matches (p : peer_data C) (c : C) : Prop :=
  exists md, MessageDigest.GetDigestEVP (peer_certificate_digest_algorithm_ p) = Some md /\
    Buffer.data (peer_certificate_digest_value_ p) = Ok (X509_digest c md).

(** No digest yet, or one of the algorithm's length. *)
Definition digest_ok (p : peer_data C) : Prop :=
  Buffer.consistent (peer_certificate_digest_value_ p) /\
  ((peer_certificate_digest_algorithm_ p = [] /\
    Buffer.size_ (peer_certificate_digest_value_ p) = 0) \/
   exists md v, MessageDigest.GetDigestEVP (peer_certificate_digest_algorithm_ p) = Some md /\
     Buffer.data (peer_certificate_digest_value_ p) = Ok v /\ zlen v = MessageDigest.EVP_MD_size md).

Definition peer_ok (p : peer_data C) : Prop :=
  digest_ok p /\
  (peer_certificate_verified_ p = true -> exists c, matches p c) /\
  (peer_cert_chain_ p = None \/ exists c, peer_cert_chain_ p = Some [c]).

(** An opening signal of a connection that authenticates its peer comes after
    the verification. *)
Definition signal_ok (auth : bool) (r : raised) : Prop :=
  has (r_events r) SE_OPEN = true -> has (r_events r) SE_CLOSE = false ->
  r_state r <> SSL_NONE -> auth = true -> r_verified r = true.

Definition base (a : Adapter) : Prop :=
  stream_ok (stream_ a) /\ peer_ok (peer_ a) /\
  (tasks a <> [] -> peer_certificate_verified_ (peer_ a) = true) /\
  Forall (signal_ok (GetClientAuthEnabled a)) (signals a).

(** OpenSSL accepts the certificate it last presented: it is the one
    recorded, and has been verified unless there is no digest yet. *)
Definition accept_ok (p : peer_data C) (ssl : SSL) : Prop :=
  accepted ssl = true -> exists c, peer_cert_chain_ p = Some [c] /\
    (peer_certificate_digest_algorithm_ p <> [] ->
     peer_certificate_verified_ p = true /\ matches p c).

Definition connection (a : Adapter) (ssl : SSL) : Prop :=
  ssl_ a = Some ssl /\ requires ssl = GetClientAuthEnabled a /\ accept_ok (peer_ a) ssl.

(** What each state owns. *)
Definition shape (a : Adapter) : Prop :=
  match state_ a with
  | SSL_CONNECTING => exists ssl, connection a ssl
  | SSL_CONNECTED => exists ssl, connection a ssl /\ timeout_task_ a = None /\
      (GetClientAuthEnabled a = true -> accepted ssl = true)
  | _ => ssl_ a = None /\ ssl_ctx_ a = None /\ peer_cert_chain_ (peer_ a) = None /\
      timeout_task_ a = None
  end.

Definition inv (a : Adapter) : Prop := base a /\ shape a.

Definition rank (s : SSLState) : nat :=
  match s with
  | SSL_NONE => 0 | SSL_WAIT => 1 | SSL_CONNECTING => 2 | SSL_CONNECTED => 3
  | SSL_ERROR | SSL_CLOSED => 4
  end.

Definition ended (s : SSLState) : Prop := s = SSL_ERROR \/ s = SSL_CLOSED.

Definition same_digest (p p' : peer_data C) : Prop :=
  peer_certificate_digest_value_ p' = peer_certificate_digest_value_ p /\
  peer_certificate_digest_algorithm_ p' = peer_certificate_digest_algorithm_ p.

Definition digest_kept (p p' : peer_data C) : Prop :=
  HasPeerCertificateDigest p = true -> same_digest p p'.

(** The states only advance, and the two final ones are kept; so is a digest
    once it is set. *)
Definition later (a a' : Adapter) : Prop :=
  (rank (state_ a) <= rank (state_ a'))%nat /\
  (ended (state_ a) -> state_ a' = state_ a) /\
  GetClientAuthEnabled a' = GetClientAuthEnabled a /\
  digest_kept (peer_ a) (peer_ a').

Lemma same_digest_has p p' : same_digest p p' -> HasPeerCertificateDigest p' = HasPeerCertificateDigest p.
Proof. intros [E1 E2]. unfold HasPeerCertificateDigest. by rewrite E1, E2. Qed.

#[export] Instance digest_kept_preorder : PreOrder digest_kept.
Proof.
  split; [by intros p _|]. intros p q r Hpq Hqr Hp. destruct (Hpq Hp) as [E1 E2].
  rewrite <- (same_digest_has p q (Hpq Hp)) in Hp. destruct (Hqr Hp) as [E3 E4].
  split; congruence.
Qed.

#[export] Instance later_preorder : PreOrder later.
Proof.
  split; [by intros a|].
  intros a b c (H1 & H2 & H3 & H4) (G1 & G2 & G3 & G4). split; [lia|]. split; [|split; [congruence|]].
  - intros E. rewrite G2; [auto|]. by rewrite H2.
  - by transitivity (peer_ b).
Qed.

(** The client keeps the invariant. *)
Context (slot_ok : forall a events err, inv a ->
  settles (slot a events err) (fun a' => inv a' /\ later a a')).

(** *** Verifying *)

Lemma data_size b v : Buffer.consistent b -> Buffer.data b = Ok v -> Buffer.size_ b = zlen v.
Proof.
  intros Hc Hd%Buffer.data_inv. rewrite <- (Buffer.zlen_contents b Hc), Hd. apply Buffer.zlen_cells.
Qed.

Lemma equals_data b b' v v' :
  Buffer.consistent b -> Buffer.consistent b' -> Buffer.data b = Ok v -> Buffer.data b' = Ok v' ->
  Buffer.equals b b' = Ok (bool_decide (v = v')).
Proof.
  intros Hc Hc' Hd Hd'. unfold Buffer.equals.
  rewrite (data_size b v), (data_size b' v') by done.
  destruct (Z.eqb_spec (zlen v) (zlen v')) as [E|E]; cbn [negb].
  - by rewrite Hd, Hd'.
  - rewrite bool_decide_false; [done|]. by intros ->.
Qed.

Lemma create_from_consistent bs : Buffer.consistent (Buffer.create_from bs 0).
Proof.
  pose proof (zlen_nonneg bs). unfold Buffer.create_from, Buffer.create, Buffer.consistent. cbn.
  rewrite zlen_app, Buffer.zlen_cells, drop_ge.
  - change (zlen (@nil (option Z))) with 0. lia.
  - rewrite length_replicate. unfold zlen. lia.
Qed.

Lemma EVP_MD_size_range md : 16 <= MessageDigest.EVP_MD_size md <= EVP_MAX_MD_SIZE.
Proof. by destruct md. Qed.

Lemma matches_alg p c : matches p c -> peer_certificate_digest_algorithm_ p <> [].
Proof. intros (md & E & _) Ha. by rewrite Ha in E. Qed.

(** What checking a certificate answers, and when. *)
Lemma verify_spec p c :
  digest_ok p -> peer_certificate_digest_algorithm_ p <> [] -> peer_cert_chain_ p = Some [c] ->
  exists b, VerifyPeerCertificate p = Ok (b, if b : bool then set_verified p true else p) /\
    (b = true <-> matches p c).
Proof.
  intros (Hb & [[E _]|(md & v & Hmd & Hv & Hl)]) Ha Hc; [done|].
  assert (Hd : Buffer.is_empty (peer_certificate_digest_value_ p) = false).
  { unfold Buffer.is_empty. rewrite (data_size _ v Hb Hv), Hl.
    pose proof (EVP_MD_size_range md). apply Z.eqb_neq. lia. }
  unfold VerifyPeerCertificate, HasPeerCertificateDigest.
  rewrite Hd, bool_decide_false, Hc by done. cbn [negb andb].
  unfold ComputeDigest. rewrite Hmd.
  rewrite (proj2 (Z.ltb_ge _ _)) by apply EVP_MD_size_range.
  rewrite (equals_data _ _ (X509_digest c md) v) by
    (done || apply create_from_consistent || apply Buffer.create_from_data).
  rewrite bind_ok. exists (bool_decide (X509_digest c md = v)). split.
  - by case_bool_decide.
  - rewrite bool_decide_eq_true. unfold matches. rewrite Hmd, Hv. split.
    + intros <-. by exists md.
    + intros (md' & [= <-] & E). by injection E.
Qed.

(** *** Running OpenSSL

    What a call may change: the stream and the peer's data, the latter by
    certificate checks, the last of which answered [v]. *)
Definition tracked (p0 : peer_data C) (v : option bool) (p : peer_data C) : Prop :=
  peer_certificate_digest_value_ p = peer_certificate_digest_value_ p0 /\
  peer_certificate_digest_algorithm_ p = peer_certificate_digest_algorithm_ p0 /\
  (peer_certificate_verified_ p0 = true -> peer_certificate_verified_ p = true) /\
  (peer_certificate_verified_ p = true ->
   peer_certificate_verified_ p0 = true \/ exists c, matches p0 c) /\
  match v with
  | None => p = p0
  | Some b => exists c, peer_cert_chain_ p = Some [c] /\
      (b = true -> peer_certificate_digest_algorithm_ p0 <> [] ->
       peer_certificate_verified_ p = true /\ matches p0 c)
  end.

Lemma tracked_refl p : tracked p None p.
Proof. split_and!; auto. Qed.

Lemma matches_same p p' c :
  peer_certificate_digest_value_ p' = peer_certificate_digest_value_ p ->
  peer_certificate_digest_algorithm_ p' = peer_certificate_digest_algorithm_ p ->
  matches p' c <-> matches p c.
Proof. intros E1 E2. unfold matches. by rewrite E1, E2. Qed.

Lemma digest_ok_same p p' :
  peer_certificate_digest_value_ p' = peer_certificate_digest_value_ p ->
  peer_certificate_digest_algorithm_ p' = peer_certificate_digest_algorithm_ p ->
  digest_ok p -> digest_ok p'.
Proof. intros E1 E2. unfold digest_ok. by rewrite E1, E2. Qed.

Lemma tracked_verify p0 v p c :
  digest_ok p0 -> tracked p0 v p ->
  returns (SSLVerifyCallback p c) (fun '(b, p') => tracked p0 (Some b) p').
Proof.
  intros Hd (E1 & E2 & Hv & Hv' & _). unfold SSLVerifyCallback.
  set (p1 := set_chain p (Some [c])).
  assert (Hd1 : digest_ok p1) by (by apply (digest_ok_same p0)).
  change (peer_certificate_digest_algorithm_ p1) with (peer_certificate_digest_algorithm_ p).
  rewrite E2. case_bool_decide as Ea.
  { apply returns_ok. split_and!; [done | done | done | done |]. exists c. split; [done|]. by intros. }
  destruct (verify_spec p1 c Hd1) as (b & -> & Hb); [by cbn; rewrite E2 | done |].
  apply returns_ok. rewrite (matches_same p0 p1 c E1 E2) in Hb. destruct b.
  - split_and!; [done | done | done | |].
    + intros _. right. exists c. by apply Hb.
    + exists c. split; [done|]. intros _ _. split; [done|]. by apply Hb.
  - split_and!; [done | done | done | done |]. exists c. split; [done|]. by intros.
Qed.

Lemma run_returns {X} (post : option bool -> X -> Prop) p0 (p : ssl_prog C X) : forall v a,
  digest_ok p0 -> tracked p0 v (peer_ a) -> stream_ok (stream_ a) -> outcomes asks_eof p v post ->
  settles (run p a) (fun '(x, a') => exists s q v',
    a' = set_peer (set_stream a s) q /\ stream_ok s /\ tracked p0 v' q /\ post v' x).
Proof.
  induction p as [x|act k IH]; intros v a Hd Ht Hs Hp.
  { apply safely_ok. exists (stream_ a), (peer_ a), v. by destruct a. }
  assert (Hnext : forall r s q v', stream_ok s -> tracked p0 v' q -> outcomes asks_eof (k r) v' post ->
    settles (run (k r) (set_peer (set_stream a s) q)) (fun '(x, a') => exists s q v',
      a' = set_peer (set_stream a s) q /\ stream_ok s /\ tracked p0 v' q /\ post v' x)).
  { intros r s q v' Hs' Hq Ho.
    apply (safely_weaken _ _ _ (IH r v' (set_peer (set_stream a s) q) Hd Hq Hs' Ho)).
    intros [x a'] (s2 & q2 & v2 & -> & H1 & H2 & H3). by exists s2, q2, v2. }
  assert (Hself : set_peer (set_stream a (stream_ a)) (peer_ a) = a) by (by destruct a).
  cbn [run outcomes] in *. destruct act as [cert|out|input|cmd]; cbn [callback].
  - destruct (tracked_verify p0 v (peer_ a) cert Hd Ht) as ([b q] & -> & Hq).
    rewrite !bind_ok. apply (Hnext b (stream_ a) q (Some b) Hs Hq (Hp b)).
  - destruct Hp as [Hn Hp]. destruct out as [n|]; cbn [stream_read].
    + destruct (read_ok (stream_ a) n Hs ltac:(lia)) as (r & bs & s' & -> & Hs' & Hl).
      rewrite bind_ok. destruct r.
      2: rewrite (proj2 (Z.leb_le (zlen bs) INT_MAX)) by (unfold INT_MAX; lia).
      all: cbn [require mbind res_bind]; apply (Hnext _ s' (peer_ a) v Hs' Ht (Hp _)).
    + rewrite !bind_ok. rewrite <- Hself. apply (Hnext _ _ _ v Hs Ht (Hp _)).
  - destruct Hp as [Hn Hp]. destruct input as [bs|]; cbn [stream_write].
    + destruct (write_ok (stream_ a) bs Hs) as (r & n & s' & -> & Hs' & Hl).
      rewrite bind_ok. destruct r.
      2: rewrite (proj2 (Z.leb_le n INT_MAX)) by (unfold INT_MAX; lia).
      all: cbn [require mbind res_bind]; apply (Hnext _ s' (peer_ a) v Hs' Ht (Hp _)).
    + rewrite !bind_ok. rewrite <- Hself. apply (Hnext _ _ _ v Hs Ht (Hp _)).
  - destruct Hp as [Hn Hp].
    destruct (decide (cmd = BIO_CTRL_EOF)) as [->|Hne]; [by split; [apply Hn|]|].
    assert (Hc : exists r, stream_ctrl cmd None = Ok r).
    { unfold stream_ctrl. rewrite (proj2 (Z.eqb_neq cmd BIO_CTRL_EOF) Hne).
      repeat case_match; eauto. }
    destruct Hc as [r ->]. rewrite !bind_ok. rewrite <- Hself. apply (Hnext _ _ _ v Hs Ht (Hp _)).
Qed.

Lemma tracked_peer_ok p0 v p : peer_ok p0 -> tracked p0 v p -> peer_ok p.
Proof.
  intros (Hd & Hv & Hc) (E1 & E2 & _ & Hv' & Ht). split_and!.
  - by apply (digest_ok_same p0).
  - intros [E|[c Hm]]%Hv'; [destruct (Hv E) as [c Hm]|]; exists c; by apply (matches_same p0).
  - destruct v as [b|]; [|by subst]. destruct Ht as (c & -> & _). eauto.
Qed.

Lemma tracked_accept p0 v p ssl ssl' :
  accept_ok p0 ssl -> tracked p0 v p -> checked ssl v ssl' -> accept_ok p ssl'.
Proof.
  intros Ha Ht [_ Hc] E. rewrite Hc in E. destruct Ht as (E1 & E2 & _ & _ & Ht).
  destruct v as [b|]; [|subst; by apply Ha].
  destruct Ht as (c & Hp & Hm). exists c. split; [done|]. rewrite E2. intros Hne.
  destruct (Hm E Hne). split; [done|]. by apply (matches_same p0).
Qed.

(** The state after a call of OpenSSL on the connection. *)
Definition after_call (a a' : Adapter) (ssl ssl' : SSL) (v : option bool) : Prop :=
  base (set_ssl a' (Some ssl')) /\ connection (set_ssl a' (Some ssl')) ssl' /\
  state_ a' = state_ a /\ config_ a' = config_ a /\ timeout_task_ a' = timeout_task_ a /\
  accepted ssl' = (match v with Some b => b | None => accepted ssl end) /\
  same_digest (peer_ a) (peer_ a').

Lemma run_connection {X} (post : option bool -> X -> Prop) (conn : X -> SSL) (p : ssl_prog C X) a ssl :
  base a -> connection a ssl -> outcomes asks_eof p None post ->
  (forall v x, post v x -> checked ssl v (conn x)) ->
  settles (run p a) (fun '(x, a') => exists v, post v x /\ after_call a a' ssl (conn x) v).
Proof.
  intros (Hs & Hp & Htasks & Hsig) (Hssl & Hreq & Hacc) Ho Hpost.
  apply (safely_weaken _ _ _ (run_returns post (peer_ a) p None a (proj1 Hp) (tracked_refl _) Hs Ho)).
  intros [x a'] (s & q & v & -> & Hs' & Ht & Hx). exists v. split; [done|].
  pose proof (Hpost v x Hx) as Hck. unfold after_call, base, connection. split_and!; try done.
  - exact (tracked_peer_ok _ _ _ Hp Ht).
  - intros Hne. destruct Ht as (_ & _ & Hv & _). apply Hv, Htasks, Hne.
  - cbn. destruct Hck as [-> _]. exact Hreq.
  - exact (tracked_accept _ _ _ _ _ Hacc Ht Hck).
  - apply Hck.
  - destruct Ht as (E1 & E2 & _). by split.
Qed.

(** *** Closing and signalling *)

Lemma later_ended a a' :
  ~ ended (state_ a) -> ended (state_ a') -> GetClientAuthEnabled a' = GetClientAuthEnabled a ->
  digest_kept (peer_ a) (peer_ a') -> later a a'.
Proof.
  intros Hn He Hc Hd. split; [|split; [by intros ?|by split]]. destruct He as [-> | ->]; destruct (state_ a); cbn; lia.
Qed.

Lemma Cleanup_returns a alert :
  base a -> settles (Cleanup a alert) (fun a' => inv a' /\ config_ a' = config_ a /\
    same_digest (peer_ a) (peer_ a') /\ state_ a' = if bool_decide (state_ a = SSL_ERROR) then SSL_ERROR else SSL_CLOSED).
Proof.
  intros Hb. unfold Cleanup.
  set (a1 := if bool_decide (state_ a = SSL_ERROR) then a
             else set_error_code (set_state a SSL_CLOSED) (Some 0)).
  assert (H1 : base a1 /\ config_ a1 = config_ a /\ peer_ a1 = peer_ a /\
    state_ a1 = if bool_decide (state_ a = SSL_ERROR) then SSL_ERROR else SSL_CLOSED).
  { unfold a1. by case_bool_decide. }
  clearbody a1. destruct H1 as (Hb1 & Hc1 & Hp1 & Hs1).
  eapply (safely_bind _ _ (fun a2 => base a2 /\ config_ a2 = config_ a /\ state_ a2 = state_ a1 /\
    ssl_ a2 = None /\ same_digest (peer_ a) (peer_ a2))).
  - destruct (ssl_ a1) as [ssl|] eqn:Essl; [|apply safely_ok; by rewrite Hp1].
    destruct Hb1 as (Hs & Hp & Ht & Hsig).
    eapply safely_bind.
    { apply (run_returns _ (peer_ a1) (SSL_shutdown ssl) None a1 (proj1 Hp) (tracked_refl _) Hs
               (shutdown_law ssl)). }
    intros [x a2] (s & q & v & -> & Hs' & Htr & _). apply safely_ok.
    split; [|by destruct Htr as (E1 & E2 & _); rewrite <- Hp1].
    unfold base. split_and!; [done | exact (tracked_peer_ok _ _ _ Hp Htr) | | done].
    intros Hne. destruct Htr as (_ & _ & Hv & _). apply Hv, Ht, Hne.
  - intros a2 ((Hs & (Hd & Hv & Hc) & Ht & Hsig) & Hc2 & Hs2 & Hssl & Hd2). apply safely_ok.
    split; [|split; [done|split; [exact Hd2 | cbn; by rewrite Hs2]]]. split.
    + unfold base, peer_ok. split_and!; try done. by left.
    + unfold shape. cbn [state_ set_timeout set_peer set_identity set_ctx]. rewrite Hs2, Hs1.
      by case_bool_decide.
Qed.

Lemma signal_later a events err :
  inv a ->
  (has events SE_OPEN = true -> has events SE_CLOSE = false -> state_ a <> SSL_NONE ->
   GetClientAuthEnabled a = true -> peer_certificate_verified_ (peer_ a) = true) ->
  settles (SignalEvent a events err) (fun a' => inv a' /\ later a a').
Proof.
  intros [(Hs & Hp & Ht & Hsig) Hsh] Ho. unfold SignalEvent.
  set (a1 := set_signals a _). assert (Hi : inv a1).
  { split; [|done]. unfold base. split_and!; try done.
    apply Forall_app. split; [exact Hsig|]. constructor; [|constructor]. exact Ho. }
  apply (safely_weaken _ _ _ (slot_ok a1 events err Hi)). intros a' [Hi' Hl]. split; [done|]. exact Hl.
Qed.

Lemma Error_returns a err alert signal :
  base a -> settles (Error a err alert signal) (fun a' => inv a' /\ state_ a' = SSL_ERROR /\
    GetClientAuthEnabled a' = GetClientAuthEnabled a /\ digest_kept (peer_ a) (peer_ a')).
Proof.
  intros Hb. unfold Error. eapply safely_bind.
  { apply (Cleanup_returns (set_error_code (set_state a SSL_ERROR) (Some err)) alert). exact Hb. }
  intros a1 (Hi & Hc & Hd & Hst). cbn in Hst.
  assert (Hg : GetClientAuthEnabled a1 = GetClientAuthEnabled a).
  { unfold GetClientAuthEnabled. by rewrite Hc. }
  assert (Hk : digest_kept (peer_ a) (peer_ a1)) by (intros _; exact Hd).
  destruct signal; [|by apply safely_ok].
  apply (safely_weaken _ _ _ (signal_later a1 SE_CLOSE err Hi ltac:(done))).
  intros a2 (Hi2 & _ & Hl & Hg2 & Hd2). rewrite Hg2, Hl by (by left).
  split; [done|]. split; [done|]. split; [done|]. by transitivity (peer_ a1).
Qed.

Lemma Error_later a err alert signal :
  base a -> ~ ended (state_ a) ->
  settles (Error a err alert signal) (fun a' => inv a' /\ later a a' /\ state_ a' = SSL_ERROR).
Proof.
  intros Hb Hn. apply (safely_weaken _ _ _ (Error_returns a err alert signal Hb)).
  intros a' (Hi & Hst & Hg & Hd). split; [done|]. split; [|done].
  apply later_ended; [done | by left | done | done].
Qed.

Lemma Cleanup_later a alert :
  base a -> settles (Cleanup a alert) (fun a' => inv a' /\
    later a a' /\ ended (state_ a')).
Proof.
  intros Hb. apply (safely_weaken _ _ _ (Cleanup_returns a alert Hb)).
  intros a' (Hi & Hc & Hd & Hst). assert (Hg : GetClientAuthEnabled a' = GetClientAuthEnabled a).
  { unfold GetClientAuthEnabled. by rewrite Hc. }
  assert (He : ended (state_ a')) by (rewrite Hst; case_bool_decide; [by left | by right]).
  split; [done|]. split; [|done]. unfold later. rewrite Hst, Hg.
  assert (Hk : digest_kept (peer_ a) (peer_ a')) by (intros _; exact Hd).
  case_bool_decide as Ee; [rewrite Ee; by split_and!|]. split; [destruct (state_ a); cbn; lia|].
  split; [|by split]. destruct (state_ a); unfold ended; intuition congruence.
Qed.

Lemma Close_returns a :
  base a -> settles (Close a) (fun a' => inv a' /\ later a a' /\ ended (state_ a')).
Proof.
  intros Hb. unfold Close. eapply safely_bind; [exact (Cleanup_later a 0 Hb)|].
  intros a1 ([(Hs & Hb1) Hsh] & Hl & He). apply safely_require.
  - destruct He as [-> | ->]; done.
  - apply safely_ok. split_and!; [|exact Hl | exact He]. split; [|exact Hsh].
    split; [|exact Hb1]. by apply close_ok.
Qed.

(** *** The handshake *)

Lemma SetupSSLContext_verify_mode a ctx :
  SetupSSLContext a = Some ctx ->
  ctx_verify_mode ctx = if GetClientAuthEnabled a
    then Z.lor SSL_VERIFY_PEER SSL_VERIFY_FAIL_IF_NO_PEER_CERT else SSL_VERIFY_PEER.
Proof.
  unfold SetupSSLContext. intros E. destruct (negb (SSL_CTX_new _)); [done|].
  destruct (protocol_versions _). repeat case_match; simplify_eq; done.
Qed.

Lemma delay_range ssl sec usec :
  DTLSv1_get_timeout ssl = Some (sec, usec) -> 0 <= i32 (sec * 1000 + usec / 1000).
Proof.
  intros [Hs Hu]%timeout_law. pose proof (Z.div_pos usec 1000 ltac:(lia) ltac:(lia)).
  pose proof (Z.div_lt_upper_bound usec 1000 1000 ltac:(lia) ltac:(lia)).
  rewrite i32_small; lia.
Qed.

(** The result of a handshake step: zero unless it failed, and then the state
    is as it was. *)
Definition handshake_post (a : Adapter) (r : Z * Adapter) : Prop :=
  inv (snd r) /\ later a (snd r) /\ (fst r <> 0 -> state_ (snd r) = SSL_CONNECTING).

Lemma ContinueSSL_returns a ssl :
  base a -> state_ a = SSL_CONNECTING -> connection a ssl ->
  settles (ContinueSSL a) (handshake_post a).
Proof.
  intros Hb Hst Hc. unfold ContinueSSL. apply safely_require; [by rewrite Hst|].
  destruct Hc as (Hssl & Hreq & Hacc). change (ssl_ (stop_timer a)) with (ssl_ a). rewrite Hssl, from_opt_Some, bind_ok.
  eapply safely_bind.
  { apply (run_connection (handshake ssl) snd _ (stop_timer a) ssl); [exact Hb | by split_and! | |].
    - case_bool_decide; [apply connect_law | apply accept_law].
    - by intros v x (? & _). }
  intros [[err ssl'] a1] (v & (Hck & Hfatal & Hnone) & (Hb1 & Hc1 & Hst1 & Hcf1 & Ht1 & Hacc1 & Hd1)).
  cbn [fst snd] in *. set (a2 := set_ssl a1 (Some ssl')) in *.
  change (state_ a1) with (state_ a2) in *. change (state_ (stop_timer a)) with (state_ a) in Hst1.
  assert (Ht2 : timeout_task_ a2 = None) by exact Ht1. clear Ht1. rename Ht2 into Ht1.
  assert (Hg : GetClientAuthEnabled a2 = GetClientAuthEnabled a).
  { unfold GetClientAuthEnabled. change (config_ a2) with (config_ a1). by rewrite Hcf1. }
  assert (Hi : inv a2) by (split; [done|]; unfold shape; rewrite Hst1, Hst; by exists ssl').
  assert (Hl : later a a2) by (unfold later; rewrite Hst1, Hg; split_and!; [done | done | done | intros _; exact Hd1]).
  assert (Hgood : forall e, handshake_post a (e, a2)) by 
    (intros e; split; [exact Hi|split; [exact Hl|intros _; by rewrite <- Hst]]).
  clearbody a2. destruct (Z.eqb_spec err SSL_ERROR_NONE) as [E|E].
  - assert (Ha : GetClientAuthEnabled a2 = true -> accepted ssl' = true).
    { intros Hauth. apply Hnone; [done|]. by rewrite Hreq, <- Hg. }
    apply safely_require.
    { destruct (GetClientAuthEnabled a2) eqn:Ea; cbn [negb]; [|apply orb_true_r].
      destruct (proj2 (proj2 Hc1) (Ha eq_refl)) as (c & -> & _). done. }
    set (a3 := set_state a2 SSL_CONNECTED).
    assert (Hi3 : inv a3) by (split; [exact Hb1|]; exists ssl'; done).
    assert (Hl3 : later a a3).
    { split; [rewrite Hst; cbn; lia|]. split; [rewrite Hst; by intros [?|?]|]. split; [done|apply Hl]. }
    destruct (negb (WaitingToVerifyPeerCertificate a3)) eqn:Ew.
    + eapply safely_bind.
      { apply (signal_later a3 _ 0 Hi3). intros _ _ _ Hauth.
        unfold WaitingToVerifyPeerCertificate in Ew. rewrite Hauth in Ew. cbn [andb] in Ew.
        by rewrite negb_involutive in Ew. }
      intros a4 [Hi4 Hl4]. apply safely_ok. split_and!; [done | by transitivity a3 | done].
    + apply safely_ok. by split_and!.
  - destruct (err =? SSL_ERROR_WANT_READ).
    + destruct (DTLSv1_get_timeout ssl') as [[sec usec]|] eqn:Et; [|by apply safely_ok].
      pose proof (delay_range _ _ _ Et) as Hd. unfold SetTimeout.
      rewrite (proj2 (Z.leb_le 0 _) Hd), Ht1. apply safely_ok.
      destruct Hi as [Hi Hsh]. unfold handshake_post. cbn [fst snd]. split_and!; [split; [exact Hi|] | exact Hl | by rewrite <- Hst, <- Hst1].
      unfold shape in *. cbn. by rewrite Hst1, Hst in *.
    + destruct (err =? SSL_ERROR_WANT_WRITE); apply safely_ok; apply Hgood.
Qed.

Lemma BeginSSL_returns a :
  base a -> state_ a = SSL_CONNECTING -> ssl_ctx_ a = None ->
  settles (BeginSSL a) (fun '(err, a') => base a' /\ GetClientAuthEnabled a' = GetClientAuthEnabled a /\
    digest_kept (peer_ a) (peer_ a') /\
    (err = 0 -> inv a' /\ later a a') /\ (err <> 0 -> state_ a' = SSL_CONNECTING)).
Proof.
  intros Hb Hst Hctx. unfold BeginSSL. apply safely_require; [by rewrite Hst|].
  apply safely_require; [by rewrite Hctx|].
  destruct (SetupSSLContext a) as [ctx|] eqn:Es; [|by apply safely_ok].
  destruct (negb BIO_new_ok); [by apply safely_ok|].
  destruct (SSL_new ctx) as [ssl|] eqn:En; [|by apply safely_ok].
  pose proof (new_law _ _ En) as [Hacc Hreq].
  apply SetupSSLContext_verify_mode in Es. rewrite Es in Hreq.
  eapply safely_weaken.
  { apply (ContinueSSL_returns _ ssl); [exact Hb | exact Hst |]. split_and!; [done | |].
    - rewrite Hreq. change (GetClientAuthEnabled (set_ssl _ _)) with (GetClientAuthEnabled a).
      by destruct (GetClientAuthEnabled a).
    - intros E. congruence. }
  intros [err a'] (Hi & Hl & He). cbn [fst snd] in *.
  destruct Hl as (L1 & L2 & L3 & L4).
  split; [apply Hi|]. split; [exact L3|]. split; [exact L4|]. split; [by intros _ | exact He].
Qed.

(** A step of the handshake that reports its failure to [Error]. *)
Lemma or_error_returns a (m : res (Z * Adapter)) signal :
  ~ ended (state_ a) ->
  settles m (fun '(err, a') => base a' /\ GetClientAuthEnabled a' = GetClientAuthEnabled a /\
    digest_kept (peer_ a) (peer_ a') /\
    (err = 0 -> inv a' /\ later a a') /\ (err <> 0 -> state_ a' = SSL_CONNECTING)) ->
  forall (B : Type) (ok : Z -> Adapter -> B) (ko : Z -> Adapter -> B),
  settles ('(err, a') ← m;
           if negb (err =? 0) then a' ← Error a' err 0 signal; Ok (ko err a') else Ok (ok err a'))
    (fun r => exists err a', inv a' /\ later a a' /\
       (r = ok err a' \/ (r = ko err a' /\ state_ a' = SSL_ERROR))).
Proof.
  intros Hn Hm B ok ko. eapply safely_bind; [exact Hm|].
  intros [err a1] (Hb & Hg & Hd & Hok & Hko). destruct (Z.eqb_spec err 0) as [E|E]; cbn [negb].
  - apply safely_ok. exists err, a1. destruct (Hok E). auto.
  - eapply safely_bind; [exact (Error_returns a1 err 0 signal Hb)|].
    intros a2 (Hi & Hst & Hg2 & Hd2). apply safely_ok. exists err, a2.
    split; [done|]. split; [|by right]. apply later_ended; [done | by left | congruence|].
    by transitivity (peer_ a1).
Qed.

(** *** Events *)

Lemma has_lor x y mask : has (Z.lor x y) mask = has x mask || has y mask.
Proof.
  unfold has. rewrite Z.land_lor_distr_l.
  destruct (Z.eqb_spec (Z.land x mask) 0) as [->|E]; [done|].
  destruct (Z.eqb_spec (Z.lor (Z.land x mask) (Z.land y mask)) 0) as [E'|]; [|done].
  apply Z.lor_eq_0_iff in E' as [? _]. done.
Qed.

Lemma has_data_open events : has (Z.land events (Z.lor SE_READ SE_WRITE)) SE_OPEN = false.
Proof. unfold has. by rewrite <- Z.land_assoc, Z.land_0_r. Qed.

(** After the first two parts of [OnEvent]: the opening is passed on only
    while no handshake was asked for. *)
Definition event_post (a : Adapter) (r : option Z * Adapter) : Prop :=
  inv (snd r) /\ later a (snd r) /\
  match fst r with
  | None => True
  | Some e => has e SE_OPEN = true -> state_ (snd r) = SSL_NONE
  end.

Lemma not_ended s : s <> SSL_ERROR -> s <> SSL_CLOSED -> ~ ended s.
Proof. by intros ? ? [?|?]. Qed.

Lemma inv_wait_idle a :
  inv a -> state_ a = SSL_NONE \/ state_ a = SSL_WAIT -> ssl_ctx_ a = None.
Proof. intros [_ Hsh] Hs. unfold shape in Hsh. destruct Hs as [E|E]; rewrite E in Hsh; tauto. Qed.

Lemma BeginSSL_connecting a :
  inv a -> state_ a = SSL_NONE \/ state_ a = SSL_WAIT ->
  settles (BeginSSL (set_state a SSL_CONNECTING)) (fun '(err, a') => base a' /\
    GetClientAuthEnabled a' = GetClientAuthEnabled a /\
    digest_kept (peer_ a) (peer_ a') /\
    (err = 0 -> inv a' /\ later a a') /\ (err <> 0 -> state_ a' = SSL_CONNECTING)).
Proof.
  intros Hi Hs. pose proof (inv_wait_idle a Hi Hs) as Hctx. destruct Hi as [Hb _].
  eapply safely_weaken.
  { by apply (BeginSSL_returns (set_state a SSL_CONNECTING)). }
  intros [err a'] (Hb' & Hg & Hd & Hok & Hko). split; [exact Hb'|]. split; [exact Hg|]. split; [exact Hd|].
  split; [|exact Hko]. intros E. destruct (Hok E) as [Hi' Hl]. split; [exact Hi'|].
  transitivity (set_state a SSL_CONNECTING); [|done].
  split; [|split; [|done]]; destruct Hs as [Es|Es]; rewrite Es; cbn; try lia; by intros [?|?].
Qed.

Lemma on_open_returns a events :
  inv a -> (has events SE_OPEN = true -> state_ a = SSL_NONE \/ state_ a = SSL_WAIT) ->
  settles (on_open a events) (event_post a).
Proof.
  intros Hi Hs. unfold on_open. destruct (has events SE_OPEN) eqn:Eo; cbn [negb].
  2: { apply safely_ok. split; [exact Hi|split; [reflexivity|done]]. }
  destruct (decide (state_ a = SSL_WAIT)) as [E|E].
  - rewrite bool_decide_true by done. cbn [negb].
    eapply safely_weaken.
    { apply (or_error_returns a _ true) with
        (ok := fun _ a => (Some 0, a)) (ko := fun _ a => (None, a)).
      - rewrite E. by apply not_ended.
      - apply BeginSSL_connecting; auto. }
    intros r (err & a' & Hi' & Hl' & [->|[-> _]]); (split; [exact Hi'|split; [exact Hl'|done]]).
  - rewrite bool_decide_false by done. cbn [negb].
    destruct (Hs eq_refl) as [En|?]; [|done]. apply safely_require; [by rewrite En|].
    apply safely_ok. split; [exact Hi|split; [reflexivity|by intros _]].
Qed.

Lemma inv_connecting a : inv a -> state_ a = SSL_CONNECTING -> exists ssl, connection a ssl.
Proof. intros [_ Hsh] E. unfold shape in Hsh. by rewrite E in Hsh. Qed.

Lemma inv_connected a : inv a -> state_ a = SSL_CONNECTED ->
  exists ssl, connection a ssl /\ timeout_task_ a = None /\
    (GetClientAuthEnabled a = true -> accepted ssl = true).
Proof. intros [_ Hsh] E. unfold shape in Hsh. by rewrite E in Hsh. Qed.

Lemma on_data_returns a events e :
  inv a -> (has e SE_OPEN = true -> state_ a = SSL_NONE) ->
  settles (on_data a events e) (event_post a).
Proof.
  intros Hi He. unfold on_data.
  assert (Hsame : forall e', (has e' SE_OPEN = true -> state_ a = SSL_NONE) ->
            event_post a (Some e', a)) by 
    (intros e' He'; split; [exact Hi | split; [reflexivity | exact He']]).
  destruct (negb _); [apply safely_ok; by apply Hsame|].
  destruct (state_ a) eqn:Es; try (apply safely_ok; by apply Hsame).
  - (* connecting *)
    destruct (inv_connecting a Hi Es) as [ssl Hc].
    eapply safely_weaken.
    { apply (or_error_returns a _ true) with
        (ok := fun _ a => (Some e, a)) (ko := fun _ a => (None, a)).
      - rewrite Es. by apply not_ended.
      - apply (safely_weaken _ _ _ (ContinueSSL_returns a ssl (proj1 Hi) Es Hc)).
        intros [err a'] (Hi' & Hl' & Hko). pose proof Hl' as (_ & _ & Hg' & Hd').
        split; [apply Hi'|]. split; [exact Hg'|]. split; [exact Hd'|]. split; [done | exact Hko]. }
    intros r (err & a' & Hi' & Hl' & [->|[-> _]]); (split; [exact Hi'|split; [exact Hl'|]]); [|done].
    intros E. by apply He in E.
  - (* connected *)
    apply safely_ok, Hsame. intros E. exfalso.
    assert (Hx : has e SE_OPEN = true); [|apply He in Hx; congruence].
    destruct ((_ && _) || _) in E; destruct ((_ && _) || _) in E;
      rewrite ?has_lor in E; change (has SE_READ SE_OPEN) with false in E;
      change (has SE_WRITE SE_OPEN) with false in E; by rewrite ?orb_false_r in E.
Qed.

Lemma on_close_returns a events err e :
  inv a -> (has e SE_OPEN = true -> state_ a = SSL_NONE) ->
  settles (on_close a events err e) (fun a' => inv a' /\ later a a').
Proof.
  intros Hi He. unfold on_close. destruct (has events SE_CLOSE).
  - eapply safely_bind.
    { eapply safely_bind; [exact (Cleanup_later a 0 (proj1 Hi))|]. intros a1 (Hi1 & Hl1 & _).
      apply (safely_ok _ (fun '(e', _, a') => inv a' /\ later a a' /\ has e' SE_CLOSE = true)).
      split; [exact Hi1|]. split; [exact Hl1|].
      rewrite has_lor. apply orb_true_r. }
    intros [[e' er] a1] (Hi1 & Hl1 & Hc). destruct (negb _); [|by apply safely_ok].
    apply (safely_weaken _ _ _ (signal_later a1 e' er Hi1 ltac:(congruence))).
    intros a2 [Hi2 Hl2]. split; [done | by transitivity a1].
  - rewrite bind_ok. destruct (negb _); [|by apply safely_ok].
    apply signal_later; [done|]. intros Ho _ Hn _. by apply He in Ho.
Qed.

Lemma OnEvent_returns a events err :
  inv a -> (has events SE_OPEN = true -> state_ a = SSL_NONE \/ state_ a = SSL_WAIT) ->
  settles (OnEvent a events err) (fun a' => inv a' /\ later a a').
Proof.
  intros Hi Hs. unfold OnEvent. eapply safely_bind; [by apply on_open_returns|].
  intros [[e|] a1] (Hi1 & Hl1 & He1); cbn [fst snd] in *; [|by apply safely_ok].
  eapply safely_bind; [exact (on_data_returns a1 events e Hi1 He1)|].
  intros [[e2|] a2] (Hi2 & Hl2 & He2); cbn [fst snd] in *.
  - apply (safely_weaken _ _ _ (on_close_returns a2 events err e2 Hi2 He2)).
    intros a3 [Hi3 Hl3]. split; [done|]. transitivity a1; [done|]. by transitivity a2.
  - apply safely_ok. split; [done | by transitivity a1].
Qed.

Lemma StartSSL_returns a :
  inv a -> settles (StartSSL a) (fun '(_, a') => inv a' /\ later a a').
Proof.
  intros Hi. unfold StartSSL. destruct (decide (state_ a = SSL_NONE)) as [E|E].
  2: { rewrite bool_decide_false by done. by apply safely_ok. }
  rewrite bool_decide_true by done. cbn [negb].
  assert (Hn : ~ ended (state_ a)) by (rewrite E; by apply not_ended).
  assert (Hwait : inv (set_state a SSL_WAIT) /\ later a (set_state a SSL_WAIT)).
  { destruct Hi as [Hb Hsh]. split; [split; [exact Hb|]|].
    - unfold shape in *. by rewrite E in Hsh.
    - split; [rewrite E; cbn; lia|]. split; [by intros ?|done]. }
  destruct (stream_GetState _); [by apply safely_ok | by apply safely_ok |].
  eapply safely_weaken.
  { apply (or_error_returns a _ false Hn) with
      (ok := fun _ a => (0, a)) (ko := fun e a => (e, a)). apply BeginSSL_connecting; auto. }
  intros r (err & a' & Hi' & Hl' & [->|[-> _]]); by split.
Qed.

(** *** The digest *)

Lemma set_digest_ok p alg v md :
  digest_ok p -> MessageDigest.GetDigestEVP alg = Some md -> MessageDigest.EVP_MD_size md = zlen v ->
  digest_ok (mkPeer (peer_cert_chain_ p) (peer_certificate_verified_ p)
               (Buffer.SetData false (peer_certificate_digest_value_ p) v) alg).
Proof.
  intros [Hc _] Hmd Hl. split; [by apply Buffer.SetData_consistent|]. right. exists md, v.
  split; [done|]. split; [by apply Buffer.SetData_data|done].
Qed.

Lemma known_alg_nonempty alg md : MessageDigest.GetDigestEVP alg = Some md -> alg <> [].
Proof. by intros E ->. Qed.

Lemma shape_peer a p :
  shape a -> (forall ssl, accept_ok (peer_ a) ssl -> accept_ok p ssl) ->
  (peer_cert_chain_ (peer_ a) = None -> peer_cert_chain_ p = None) -> shape (set_peer a p).
Proof.
  unfold shape. intros Hsh Ha Hc. cbn [state_ set_peer]. destruct (state_ a); try tauto.
  - destruct Hsh as (ssl & H1 & H2 & H3). exists ssl. split; [done|]. split; [done|]. by apply Ha.
  - destruct Hsh as (ssl & (H1 & H2 & H3) & H4). exists ssl. split; [|exact H4].
    split; [done|]. split; [done|]. by apply Ha.
Qed.

Lemma SetPeerCertificateDigest_returns a alg v :
  inv a -> peer_certificate_verified_ (peer_ a) = false -> HasPeerCertificateDigest (peer_ a) = false ->
  settles (SetPeerCertificateDigest a alg v) (fun '(_, _, a') => inv a' /\ later a a').
Proof.
  intros Hi Hv Hh. unfold SetPeerCertificateDigest. rewrite Hv, Hh.
  apply safely_require; [done|]. apply safely_require; [done|].
  unfold MessageDigest.GetDigestSize.
  destruct (MessageDigest.GetDigestEVP alg) as [md|] eqn:Hmd; cbn [fmap option_fmap option_map];
    [|by apply safely_ok].
  destruct (Z.eqb_spec (MessageDigest.EVP_MD_size md) (zlen v)) as [El|]; cbn [negb];
    [|by apply safely_ok].
  pose proof Hi as [(Hs & (Hd & _ & Hch) & Ht & Hsig) Hsh].
  set (p := mkPeer _ _ _ _).
  assert (Hdp : digest_ok p) by (by apply (set_digest_ok _ _ _ md)).
  assert (Hvp : peer_certificate_verified_ p = true -> exists c, matches p c)
    by (cbn; congruence).
  assert (Ht' : tasks a = []) by (destruct (tasks a); [done|]; rewrite Hv in Ht; by discriminate Ht).
  assert (Ec : peer_cert_chain_ p = peer_cert_chain_ (peer_ a)) by done.
  assert (Hbase : forall q, peer_ok q -> base (set_peer a q)).
  { intros q Hq. split; [done|]. split; [exact Hq|]. split; [|exact Hsig]. cbn. by rewrite Ht'. }
  assert (Hlater : forall q, later a (set_peer a q)).
  { intros q. split; [done|]. split; [done|]. split; [done|]. intros E. congruence. }
  destruct Hch as [Hch|[c Hch]]; rewrite Ec, Hch.
  { apply safely_ok. split; [split|apply Hlater].
    - apply Hbase. split; [done|]. split; [done|]. left. by rewrite Ec.
    - apply shape_peer; [done | | by rewrite Ec]. intros ssl Ha E.
      destruct (Ha E) as (? & ? & _). congruence. }
  destruct (verify_spec p c Hdp) as (b & -> & Hb);
    [exact (known_alg_nonempty _ _ Hmd) | by rewrite Ec |].
  rewrite bind_ok. destruct b; cbn [negb].
  - assert (Hm : matches p c) by (by apply Hb).
    assert (Hi2 : inv (set_peer a (set_verified p true))).
    { split.
      - apply Hbase. split; [exact Hdp|]. split; [by exists c|]. right. exists c. exact Hch.
      - apply shape_peer; [done | | by intros E; congruence]. intros ssl _ _. by exists c. }
    case_bool_decide; apply safely_ok; [|split; [exact Hi2 | apply Hlater]].
    destruct Hi2 as [(Hs2 & Hp2 & _ & Hsig2) Hsh2]. split; [|apply Hlater]. split; [|exact Hsh2].
    split; [done|]. split; [done|]. split; [done|]. exact Hsig2.
  - eapply safely_bind.
    { apply (Error_later (set_peer a p)).
      - apply Hbase. split; [exact Hdp|]. split; [exact Hvp|]. right. by exists c.
      - intros He. unfold shape in Hsh. cbn in He.
        destruct He as [E|E]; rewrite E in Hsh; destruct Hsh as (_ & _ & ? & _); congruence. }
    intros a' (Hi' & Hl' & _). apply safely_ok. split; [exact Hi'|].
    transitivity (set_peer a p); [apply Hlater | exact Hl'].
Qed.

Lemma VerifyPeerCertificate_same p b p' : VerifyPeerCertificate p = Ok (b, p') -> same_digest p p'.
Proof.
  unfold VerifyPeerCertificate. intros E. repeat case_match; try (by injection E as <- <-).
  apply res_bind_ok in E as (same & _ & E). destruct same; by injection E as <- <-.
Qed.

(** A digest that was accepted is the one in force. *)
Lemma SetPeerCertificateDigest_stores a alg v e a' :
  Buffer.consistent (peer_certificate_digest_value_ (peer_ a)) ->
  SetPeerCertificateDigest a alg v = Ok (true, e, a') ->
  HasPeerCertificateDigest (peer_ a') = true /\
  peer_certificate_digest_algorithm_ (peer_ a') = alg /\
  Buffer.data (peer_certificate_digest_value_ (peer_ a')) = Ok v.
Proof.
  intros Hc E. unfold SetPeerCertificateDigest in E.
  apply res_bind_ok in E as (u1 & _ & E). apply res_bind_ok in E as (u2 & _ & E).
  destruct (MessageDigest.GetDigestSize alg) as [len|] eqn:El; [|done].
  unfold MessageDigest.GetDigestSize in El. apply fmap_Some in El as (md & Hmd & ->).
  destruct (Z.eqb_spec (MessageDigest.EVP_MD_size md) (zlen v)) as [Hl|]; [|done].
  cbn [negb] in E. set (p := mkPeer _ _ _ alg) in E.
  assert (Hp : HasPeerCertificateDigest p = true /\ Buffer.data (peer_certificate_digest_value_ p) = Ok v).
  { assert (Hd : Buffer.data (peer_certificate_digest_value_ p) = Ok v) by (by apply Buffer.SetData_data).
    assert (Hpc : Buffer.consistent (peer_certificate_digest_value_ p)) by (by apply Buffer.SetData_consistent).
    split; [|done]. unfold HasPeerCertificateDigest. rewrite bool_decide_false by exact (known_alg_nonempty _ _ Hmd).
    unfold Buffer.is_empty. rewrite (data_size _ v Hpc Hd). pose proof (EVP_MD_size_range md).
    cbn [negb andb]. apply negb_true_iff, Z.eqb_neq. lia. }
  assert (Hq : same_digest p (peer_ a')).
  { destruct (peer_cert_chain_ p); [|by injection E as _ <-].
    apply res_bind_ok in E as ([ok q] & Eq & E). apply VerifyPeerCertificate_same in Eq.
    destruct ok; cbn [negb] in E.
    - destruct (bool_decide _); by injection E as _ <-.
    - apply res_bind_ok in E as (a2 & _ & E). done. }
  rewrite (same_digest_has p _ Hq). destruct Hq as [-> ->]. by destruct Hp.
Qed.

(** *** Data on an open connection *)

(** After a call of OpenSSL that moved data. *)
Definition moved (a a' : Adapter) (v : option bool) : Prop :=
  base a' /\ state_ a' = SSL_CONNECTED /\ config_ a' = config_ a /\ later a a' /\
  (v <> Some false -> inv a').

Lemma run_connected {X} (post : option bool -> X -> Prop) (conn : X -> SSL) (p : ssl_prog C X) a ssl :
  inv a -> state_ a = SSL_CONNECTED -> ssl_ a = Some ssl -> outcomes asks_eof p None post ->
  (forall v x, post v x -> checked ssl v (conn x)) ->
  settles (run p a) (fun '(x, a') => exists v, post v x /\
    moved a (set_ssl a' (Some (conn x))) v /\ ssl_ (set_ssl a' (Some (conn x))) = Some (conn x)).
Proof.
  intros Hi Es Hssl Ho Hck. destruct (inv_connected a Hi Es) as (ssl0 & Hc & Ht & Hacc).
  pose proof (proj1 Hc) as E. rewrite Hssl in E. injection E as <-.
  apply (safely_weaken _ _ _ (run_connection post conn p a ssl (proj1 Hi) Hc Ho Hck)).
  intros [x a'] (v & Hx & Hb & Hc' & Est & Ecf & Eti & Eac & Hd). exists v. split; [done|].
  split; [|done]. set (a2 := set_ssl a' (Some (conn x))) in *.
  assert (Hg : GetClientAuthEnabled a2 = GetClientAuthEnabled a).
  { unfold GetClientAuthEnabled. change (config_ a2) with (config_ a'). by rewrite Ecf. }
  assert (Es2 : state_ a2 = SSL_CONNECTED) by (rewrite <- Es; exact Est).
  split; [exact Hb|]. split; [exact Es2|]. split; [exact Ecf|]. split.
  - unfold later. rewrite Hg, Es, Es2. split; [cbn; lia|]. split; [done|].
    split; [done|]. intros _. exact Hd.
  - intros Hv. split; [exact Hb|]. unfold shape. rewrite Es2. exists (conn x).
    split; [exact Hc'|]. split; [change (timeout_task_ a2) with (timeout_task_ a'); by rewrite Eti|].
    rewrite Eac, Hg. intros Hauth. destruct v as [[]|]; [done | done | by apply Hacc].
Qed.

Lemma moved_needs a a' v r w : moved a a' v -> moved a (set_needs a' r w) v.
Proof. exact id. Qed.

Lemma moved_error a a' v err :
  moved a a' v -> settles (Error a' err 0 false) (fun a2 => inv a2 /\ later a a2).
Proof.
  intros (Hb & Es & _ & Hl & _). assert (Hn : ~ ended (state_ a')) by (rewrite Es; by apply not_ended).
  apply (safely_weaken _ _ _ (Error_later a' err 0 false Hb Hn)).
  intros a2 (Hi & Hl2 & _). split; [done | by transitivity a'].
Qed.

Lemma not_fatal v err :
  fatal v err -> err = SSL_ERROR_NONE \/ err = SSL_ERROR_WANT_READ \/ err = SSL_ERROR_WANT_WRITE ->
  v <> Some false.
Proof. intros Hf He ->. destruct (Hf eq_refl) as (? & ? & ?). tauto. Qed.

Lemma connected_ssl a : inv a -> state_ a = SSL_CONNECTED -> exists ssl, ssl_ a = Some ssl.
Proof. intros Hi Es. destruct (inv_connected a Hi Es) as (ssl & (? & _) & _). by exists ssl. Qed.

Lemma set_stream_inv a s : inv a -> stream_ok s -> inv (set_stream a s) /\ later a (set_stream a s).
Proof.
  intros [(Hs & Hb) Hsh] Hs'. split; [split; [split|]; done | done].
Qed.

Lemma set_needs_inv a r w : inv a -> inv (set_needs a r w).
Proof. exact id. Qed.

Lemma Write_returns a data :
  inv a -> zlen data <= INT_MAX -> settles (Write a data) (fun '(_, _, _, a') => inv a' /\ later a a').
Proof.
  intros Hi Hz. unfold Write. destruct (state_ a) eqn:Es; try (by apply safely_ok).
  { destruct (write_ok (stream_ a) data) as (r & n & s' & -> & Hs' & _); [apply Hi|].
    apply safely_ok. by apply set_stream_inv. }
  destruct (WaitingToVerifyPeerCertificate a); [by apply safely_ok|].
  case_bool_decide; [by apply safely_ok|].
  apply safely_require; [by apply Z.leb_le|].
  destruct (connected_ssl a Hi Es) as [ssl Hssl]. change (ssl_ (set_needs a _ _)) with (ssl_ a).
  rewrite Hssl, from_opt_Some, bind_ok. set (a1 := set_needs a _ _).
  eapply safely_bind.
  { apply (run_connected _ (fun '(_, _, s) => s) (SSL_write ssl data) a1 ssl (set_needs_inv a _ _ Hi) Es Hssl
             (write_law ssl data)). intros v [[code err] s'] (? & _). done. }
  intros [[[code err] ssl'] a2] (v & (_ & Hf & Hcode) & Hm & _).
  set (a3 := set_ssl a2 (Some ssl')) in *. clearbody a3.
  destruct (Z.eqb_spec err SSL_ERROR_NONE) as [E|E].
  { destruct (Hcode E). apply safely_require; [by apply Z.ltb_lt|].
    apply safely_require; [by apply Z.leb_le|]. apply safely_ok.
    destruct Hm as (_ & _ & _ & Hl & Hi3). split; [apply Hi3, (not_fatal v err Hf); auto | exact Hl]. }
  destruct (Z.eqb_spec err SSL_ERROR_WANT_READ) as [E2|E2].
  { apply safely_ok. destruct Hm as (_ & _ & _ & Hl & Hi3).
    split; [apply Hi3, (not_fatal v err Hf); auto | exact Hl]. }
  destruct (Z.eqb_spec err SSL_ERROR_WANT_WRITE) as [E3|E3].
  { apply safely_ok. destruct Hm as (_ & _ & _ & Hl & Hi3).
    split; [apply Hi3, (not_fatal v err Hf); auto | exact Hl]. }
  eapply safely_bind; [exact (moved_error a1 a3 v _ Hm)|]. intros a4 [Hi4 Hl4]. by apply safely_ok.
Qed.

(** Flushing what is pending terminates: [left] is what OpenSSL holds. *)
Lemma flush_returns n : forall a ssl left,
  inv a -> state_ a = SSL_CONNECTED -> ssl_ a = Some ssl -> SSL_pending ssl = left ->
  (Z.to_nat left <= n)%nat ->
  settles (flush_loop n a left) (fun a' => inv a' /\ later a a').
Proof.
  induction n as [|n IH]; intros a ssl left Hi Es Hssl Hp Hn; cbn [flush_loop];
    pose proof (pending_law ssl) as Hpl; rewrite Hp in Hpl.
  { assert (left = 0) as -> by lia. by apply safely_ok. }
  destruct (Z.eqb_spec left 0) as [E|E]; [by apply safely_ok|].
  rewrite Hssl, from_opt_Some, bind_ok. set (toread := if 2048 <? left then 2048 else left).
  assert (Htr : 0 < toread <= left) by (unfold toread; destruct (Z.ltb_spec 2048 left); lia).
  eapply safely_bind.
  { apply (run_connected _ (fun '(_, _, _, s) => s) (SSL_read ssl toread) a ssl Hi Es Hssl
             (read_law ssl toread)). intros v [[[code err] bs] s'] (? & _). done. }
  intros [[[[code err] bs] ssl'] a2] (v & (_ & Hf & Hcode & Hpend) & Hm & Hs2).
  destruct (Hpend ltac:(lia) ltac:(lia)) as [He Hp']. destruct (Hcode He) as [Hc _].
  apply safely_require; [by apply Z.eqb_eq|]. rewrite (proj2 (Z.eqb_eq _ _) He). cbn [negb].
  set (a3 := set_ssl a2 (Some ssl')) in *. clearbody a3.
  destruct Hm as (_ & Es3 & _ & Hl & Hi3).
  pose proof (pending_law ssl'). rewrite u32_small by lia.
  eapply safely_weaken.
  { apply (IH a3 ssl' (left - code)); try done; [|lia|lia].
    apply Hi3, (not_fatal v err Hf); auto. }
  intros a4 [Hi4 Hl4]. split; [done | by transitivity a3].
Qed.

Lemma Read_returns a n :
  inv a -> 0 <= n <= INT_MAX -> settles (Read a n) (fun '(_, _, _, a') => inv a' /\ later a a').
Proof.
  intros Hi Hz. unfold Read. destruct (state_ a) eqn:Es; try (by apply safely_ok).
  { destruct (read_ok (stream_ a) n) as (r & bs & s' & -> & Hs' & _); [apply Hi | lia |].
    apply safely_ok. by apply set_stream_inv. }
  destruct (WaitingToVerifyPeerCertificate a); [by apply safely_ok|].
  destruct (n =? 0); [by apply safely_ok|].
  apply safely_require; [apply Z.leb_le; lia|].
  destruct (connected_ssl a Hi Es) as [ssl Hssl]. change (ssl_ (set_needs a _ _)) with (ssl_ a).
  rewrite Hssl, from_opt_Some, bind_ok. set (a1 := set_needs a _ _).
  eapply safely_bind.
  { apply (run_connected _ (fun '(_, _, _, s) => s) (SSL_read ssl n) a1 ssl (set_needs_inv a _ _ Hi) Es Hssl
             (read_law ssl n)). intros v [[[code err] bs] s'] (? & _). done. }
  intros [[[[code err] bs] ssl'] a2] (v & (_ & Hf & Hcode & _) & Hm & Hs2).
  set (a3 := set_ssl a2 (Some ssl')) in *. clearbody a3.
  assert (Hok : err = SSL_ERROR_NONE \/ err = SSL_ERROR_WANT_READ \/ err = SSL_ERROR_WANT_WRITE ->
            inv a3 /\ later a a3).
  { intros He. destruct Hm as (_ & _ & _ & Hl & Hi3). split; [apply Hi3, (not_fatal v err Hf He) | exact Hl]. }
  destruct (Z.eqb_spec err SSL_ERROR_NONE) as [E|E].
  { destruct (Hcode E) as [Hc _]. apply safely_require; [apply Z.ltb_lt; lia|].
    apply safely_require; [apply Z.leb_le; lia|]. destruct (Hok ltac:(auto)) as [Hi3 Hl3].
    destruct (_ && _); [|by apply safely_ok].
    eapply safely_bind.
    { apply (flush_returns _ a3 ssl'); try done. apply Hm. }
    intros a4 [Hi4 Hl4]. apply safely_ok. split; [done | by transitivity a3]. }
  destruct (Z.eqb_spec err SSL_ERROR_WANT_READ); [apply safely_ok; auto|].
  destruct (Z.eqb_spec err SSL_ERROR_WANT_WRITE).
  { apply safely_ok. destruct (Hok ltac:(auto)). by split. }
  destruct (err =? SSL_ERROR_ZERO_RETURN).
  - eapply safely_bind; [exact (Close_returns a3 (proj1 Hm))|]. intros a4 (Hi4 & Hl4 & _).
    apply safely_ok. split; [done|]. transitivity a3; [apply Hm | done].
  - eapply safely_bind; [exact (moved_error a1 a3 v _ Hm)|]. intros a4 [Hi4 Hl4]. by apply safely_ok.
Qed.

(** *** Every call *)

Lemma on_timeout_returns a : inv a -> settles (on_timeout a) (fun a' => inv a' /\ later a a').
Proof.
  intros Hi. unfold on_timeout. destruct (timeout_task_ a) as [d|] eqn:Et; [|by apply safely_ok].
  assert (Es : state_ a = SSL_CONNECTING).
  { destruct Hi as [_ Hsh]. unfold shape in Hsh. destruct (state_ a); try done;
      try (destruct Hsh as (_ & _ & _ & ?); congruence). destruct Hsh as (? & _ & ? & _). congruence. }
  destruct (inv_connecting a Hi Es) as [ssl Hc].
  change (ssl_ (stop_timer a)) with (ssl_ a). rewrite (proj1 Hc), from_opt_Some, bind_ok.
  eapply safely_bind.
  { apply (run_connection _ snd (DTLSv1_handle_timeout ssl) (stop_timer a) ssl (proj1 Hi) Hc
             (handle_timeout_law ssl)). by intros v [r s]. }
  intros [[r ssl'] a1] (v & _ & Hb & Hc1 & Es1 & Ecf & _ & _ & Hd). cbn [snd] in *.
  eapply safely_bind.
  { apply (ContinueSSL_returns (set_ssl a1 (Some ssl')) ssl' Hb); [|exact Hc1]. by rewrite <- Es. }
  intros [e a2] (Hi2 & Hl2 & _). cbn [fst snd] in *. apply safely_ok. split; [done|].
  transitivity (set_ssl a1 (Some ssl')); [|done]. unfold later.
  change (state_ (set_ssl a1 (Some ssl'))) with (state_ a1). rewrite Es1. split; [done|].
  split; [done|]. unfold GetClientAuthEnabled. change (config_ (set_ssl a1 _)) with (config_ a1).
  split; [by rewrite Ecf|]. intros _. exact Hd.
Qed.

Lemma on_task_returns a : inv a -> settles (on_task a) (fun a' => inv a' /\ later a a').
Proof.
  intros Hi. unfold on_task. destruct (tasks a) as [|[events err] rest] eqn:Et; [by apply safely_ok|].
  destruct Hi as [(Hs & Hp & Ht & Hsig) Hsh].
  assert (Hv : peer_certificate_verified_ (peer_ a) = true) by (apply Ht; by rewrite Et).
  apply (safely_weaken _ _ _ (signal_later (set_tasks a rest) events err
           ltac:(split; [split; [done|split; [done|split; [done|exact Hsig]]]|exact Hsh])
           (fun _ _ _ _ => Hv))).
  intros a' [Hi' Hl']. by split.
Qed.

Lemma inv_none a : inv a -> state_ a = SSL_NONE -> shape a.
Proof. by intros [_ ?]. Qed.

Lemma set_config_inv a c :
  inv a -> client_auth_enabled_ c = GetClientAuthEnabled a ->
  inv (set_config a c) /\ later a (set_config a c).
Proof.
  intros [(Hs & Hp & Ht & Hsig) Hsh] E.
  assert (Eg : GetClientAuthEnabled (set_config a c) = GetClientAuthEnabled a) by exact E.
  split; [|split; [|split]; done]. split.
  - split; [done|]. split; [done|]. split; [done|]. by rewrite Eg.
  - unfold shape, connection in *. cbn [state_ set_config]. by rewrite !Eg.
Qed.

Lemma do_call_returns a c :
  inv a -> sized c -> allowed a c = true -> settles (do_call a c) (fun a' => inv a' /\ later a a').
Proof.
  intros Hi Hz Ha. destruct c; cbn [do_call allowed sized] in *.
  - unfold SetIdentity. rewrite Ha. by apply safely_ok.
  - apply safely_ok. by apply set_config_inv.
  - unfold SetMode. rewrite Ha. apply safely_ok. by apply set_config_inv.
  - unfold SetMaxProtocolVersion. rewrite Ha. apply safely_ok. by apply set_config_inv.
  - bool_inv. apply safely_fmap.
    apply (safely_weaken _ _ _ (SetPeerCertificateDigest_returns a digest_alg digest_val Hi
             ltac:(assumption) ltac:(assumption))). by intros [[? ?] ?].
  - apply safely_ok. unfold SetDtlsSrtpCryptoSuites. repeat case_match; try by split.
  - apply safely_fmap. apply (safely_weaken _ _ _ (StartSSL_returns a Hi)). by intros [? ?].
  - apply safely_fmap. apply (safely_weaken _ _ _ (Write_returns a data Hi Hz)). by intros [[[? ?] ?] ?].
  - apply safely_fmap. apply (safely_weaken _ _ _ (Read_returns a data_len Hi Hz)). by intros [[[? ?] ?] ?].
  - apply (safely_weaken _ _ _ (Close_returns a (proj1 Hi))). by intros a' (? & ? & _).
  - apply OnEvent_returns; [done|]. intros E. rewrite E in Ha. cbn [negb orb] in Ha.
    apply orb_prop in Ha as [E'|E']; bool_inv; auto.
  - by apply on_timeout_returns.
  - by apply on_task_returns.
  - bool_inv. unfold GetDtlsSrtpCryptoSuite. rewrite bool_decide_true by done. cbn [require mbind res_bind].
    destruct (connected_ssl a Hi Ha) as [ssl ->]. cbn [from_opt mbind res_bind].
    destruct (SSL_get_selected_srtp_profile ssl) as [id|] eqn:Ep; [|by split].
    apply profile_law in Ep. rewrite !list.elem_of_cons, elem_of_nil in Ep.
    destruct Ep as [->|[->|[->|[->|[]]]]]; by split.
  - unfold ExportKeyingMaterial. by destruct (ssl_ a).
  - unfold GetSslCipherSuite. case_bool_decide as Es; [|by split].
    destruct (connected_ssl a Hi Es) as [ssl ->]. by split.
  - unfold GetSslVersion. case_bool_decide as Es; [|by split].
    destruct (connected_ssl a Hi Es) as [ssl ->]. by split.
  - unfold GetSslVersionBytes. case_bool_decide as Es; [|by split].
    destruct (connected_ssl a Hi Es) as [ssl ->]. by split.
  - apply safely_ok. by apply set_stream_inv.
Qed.

(** A call that is not allowed stops there. *)
Lemma do_call_refused a c : allowed a c = false -> do_call a c = Fail (refusal c).
Proof.
  intros Ha. destruct c; cbn [do_call allowed] in *; try done.
  - unfold SetIdentity. by rewrite Ha.
  - unfold SetMode. by rewrite Ha.
  - unfold SetMaxProtocolVersion. by rewrite Ha.
  - unfold SetPeerCertificateDigest. destruct (negb (peer_certificate_verified_ _)); [|done].
    cbn [andb] in Ha. by rewrite Ha.
  - unfold OnEvent, on_open. destruct (has events SE_OPEN); [|done]. cbn [negb orb] in *.
    apply orb_false_elim in Ha as [-> ->]. done.
  - unfold GetDtlsSrtpCryptoSuite. by rewrite Ha.
  - unfold ExportKeyingMaterial. by destruct (ssl_ a).
Qed.

Lemma do_call_ok a c a' : inv a -> sized c -> do_call a c = Ok a' -> inv a' /\ later a a'.
Proof.
  intros Hi Hz E. destruct (allowed a c) eqn:Ea.
  - exact (safely_value _ _ _ (do_call_returns a c Hi Hz Ea) E).
  - by rewrite do_call_refused in E.
Qed.

Lemma do_calls_ok cs : forall a a',
  inv a -> Forall sized cs -> do_calls a cs = Ok a' -> inv a' /\ later a a'.
Proof.
  induction cs as [|c cs IH]; intros a a' Hi Hf E; cbn [do_calls] in E; [by injection E as <-|].
  apply list.Forall_cons in Hf as [Hz Hf]. apply res_bind_ok in E as (a1 & E1 & E).
  destruct (do_call_ok a c a1 Hi Hz E1) as [Hi1 Hl1]. destruct (IH a1 a' Hi1 Hf E) as [Hi' Hl'].
  split; [done | by transitivity a1].
Qed.

Lemma new_inv stream legacy : stream_ok stream -> inv (new_adapter stream legacy).
Proof.
  intros Hs. split; [|by split_and!]. split; [exact Hs|]. split; [|by split].
  split; [|split; [done|by left]]. split; [done|]. left. done.
Qed.

(** ** Properties *)

Lemma connected_verified a :
  inv a -> GetClientAuthEnabled a = true -> state_ a = SSL_CONNECTED ->
  peer_certificate_digest_algorithm_ (peer_ a) <> [] ->
  exists c, GetPeerSSLCertChain a = Some [c] /\ matches (peer_ a) c.
Proof.
  intros Hi Hg Es Ha. destruct (inv_connected a Hi Es) as (ssl & (_ & _ & Hacc) & _ & Hx).
  destruct (Hacc (Hx Hg)) as (c & Hc & Hm). exists c. split; [done|]. by apply Hm.
Qed.

Lemma open_verified a :
  inv a -> GetClientAuthEnabled a = true -> GetState a = Dtls.SS_OPEN ->
  exists c, GetPeerSSLCertChain a = Some [c] /\ matches (peer_ a) c.
Proof.
  intros Hi Hg Ho. unfold GetState, WaitingToVerifyPeerCertificate in Ho. rewrite Hg in Ho.
  destruct (state_ a) eqn:Es; try done.
  destruct (peer_certificate_verified_ (peer_ a)) eqn:Ev; [|done].
  apply connected_verified; try done. destruct Hi as [(_ & (_ & Hv & _) & _) _].
  destruct (Hv Ev) as [c Hc]. by apply (matches_alg _ c).
Qed.

(** C3. Whatever a client, the network and the timer do with a new adapter, the
    stream is open only to a peer whose certificate has the digest that was
    set; with a digest set the handshake itself completes only with such a
    peer; and the opening is signalled only after the verification. *)
Theorem open_means_verified (stream : S) (legacy : bool) (cs : list adapter_call) (a : Adapter) :
  stream_ok stream -> Forall sized cs -> do_calls (new_adapter stream legacy) cs = Ok a ->
  (GetState a = Dtls.SS_OPEN \/
   (IsTlsConnected a = true /\ peer_certificate_digest_algorithm_ (peer_ a) <> []) ->
   exists c, GetPeerSSLCertChain a = Some [c] /\ matches (peer_ a) c) /\
  Forall (signal_ok true) (signals a).
Proof.
  intros Hs Hf E. destruct (do_calls_ok cs _ _ (new_inv stream legacy Hs) Hf E) as [Hi (_ & _ & Hg & _)].
  change (GetClientAuthEnabled (new_adapter _ _)) with true in Hg. split.
  - intros [Ho|[Hc Ha]]; [by apply open_verified|].
    apply bool_decide_eq_true in Hc. by apply connected_verified.
  - destruct Hi as [(_ & _ & _ & Hsig) _]. by rewrite Hg in Hsig.
Qed.


(** *** What reaches the stream

    [sent s] is everything the stream below was ever given to send; a stream
    may also refuse.  [record] holds of what OpenSSL writes and [plain] of what it deciphers. *)
Section ClearText.
Context (sent : S -> list bytes)
  (sent_write : forall s bs r n s', stream_Write s bs = Ok (r, n, s') ->
     sent s' = sent s \/ sent s' = sent s ++ [bs])
  (sent_read : forall s n r bs s', stream_Read s n = Ok (r, bs, s') -> sent s' = sent s)
  (sent_close : forall s, sent (stream_Close s) = sent s).
Context (record plain : bytes -> Prop).

(** On every way [p] can go it writes only records, and [Q] holds of its result. *)
Fixpoint writes {X} (p : ssl_prog C X) (Q : X -> Prop) : Prop :=
  match p with
  | ssl_ret x => Q x
  | ssl_act act k =>
      (match act with bio_write (Some bs) => record bs | _ => True end) /\
      forall r, writes (k r) Q
  end.

Record sealing : Prop := {
  connect_seals : forall s, writes (SSL_connect s) (fun _ => True);
  accept_seals : forall s, writes (SSL_accept s) (fun _ => True);
  write_seals : forall s bs, writes (SSL_write s bs) (fun _ => True);
  read_seals : forall s n, writes (SSL_read s n) (fun '(_, _, data, _) => data = [] \/ plain data);
  shutdown_seals : forall s, writes (SSL_shutdown s) (fun _ => True);
  timeout_seals : forall s, writes (DTLSv1_handle_timeout s) (fun _ => True);
}.
Context (library : sealing).

(** Only records were sent since [a], and the adapter is still past the
    clear-text state. *)
Definition sealed (a a' : Adapter) : Prop :=
  state_ a' <> SSL_NONE /\
  exists l, sent (stream_ a') = sent (stream_ a) ++ l /\ Forall record l.

Context (slot_sealed : forall a events err a',
  state_ a <> SSL_NONE -> slot a events err = Ok a' -> sealed a a').

Abbreviation partly := (safely (fun _ => True)).

Lemma partly_require {X} b e (f : unit -> res X) (Q : X -> Prop) :
  partly (f tt) Q -> partly (require b e ≫= f) Q.
Proof. by destruct b. Qed.

Lemma sealed_same a a' : state_ a' <> SSL_NONE -> stream_ a' = stream_ a -> sealed a a'.
Proof. intros Hs E. split; [done|]. exists []. rewrite E, app_nil_r. by split. Qed.

Lemma sealed_trans a b c : sealed a b -> sealed b c -> sealed a c.
Proof.
  intros (_ & l & E & Hl) (Hs & l' & E' & Hl'). split; [done|]. exists (l ++ l').
  rewrite E', E, <- app_assoc. split; [done|]. by apply Forall_app.
Qed.

(** The state set by a step does not matter to what was sent before it. *)
Lemma sealed_from a b c : stream_ a = stream_ b -> sealed b c -> sealed a c.
Proof. intros E (Hs & Hl). split; [done|]. by rewrite E. Qed.

Lemma sealed_to a b c : sealed a b -> stream_ c = stream_ b -> state_ c <> SSL_NONE -> sealed a c.
Proof. intros (_ & Hl) E Hs. split; [done|]. by rewrite E. Qed.

Lemma run_sealed {X} (p : ssl_prog C X) (Q : X -> Prop) : forall a,
  writes p Q -> state_ a <> SSL_NONE ->
  partly (run p a) (fun '(x, a') => Q x /\ sealed a a' /\ state_ a' = state_ a).
Proof.
  induction p as [x|act k IH]; intros a Hw Hs; cbn [run writes] in *.
  { split; [done|]. split; [by apply sealed_same | done]. }
  destruct Hw as [Ha Hk].
  eapply (safely_bind _ _ (fun '(r, a') => sealed a a' /\ state_ a' = state_ a)).
  - destruct act as [cert|out|input|cmd]; cbn [callback].
    + destruct (SSLVerifyCallback _ _) as [[r p]|]; [|done]. split; [by apply sealed_same | done].
    + destruct (stream_read (stream_ a) out) as [[r s]|] eqn:E; [|done]. cbn.
      split; [|done]. apply sealed_to with (b := set_stream a s); [|done|done].
      split; [done|]. exists []. rewrite app_nil_r. split; [|constructor]. cbn.
      unfold stream_read in E. destruct out; [|by injection E as _ <-].
      apply res_bind_ok in E as ([[r' bs] s'] & E1%sent_read & E). rewrite <- E1.
      destruct r'; res_inv; done.
    + destruct (stream_write (stream_ a) input) as [[r s]|] eqn:E; [|done]. cbn.
      split; [|done]. split; [done|]. cbn. unfold stream_write in E.
      destruct input as [bs|]; [|injection E as _ <-; exists []; rewrite app_nil_r; by split].
      apply res_bind_ok in E as ([[r' n] s'] & E1%sent_write & E).
      assert (s = s') as -> by (destruct r'; res_inv; done).
      destruct E1 as [->|E1]; [exists []; rewrite app_nil_r; by split|].
      exists [bs]. split; [exact E1|]. by constructor.
    + destruct (stream_ctrl _ _); [|done]. split; [by apply sealed_same | done].
  - intros [r a1] [H1 E1]. apply (safely_weaken _ _ _ (IH r a1 (Hk r) (proj1 H1))).
    intros [x a2] (HQ & H2 & E2). split; [done|]. split; [by eapply sealed_trans | congruence].
Qed.

Lemma Cleanup_sealed a alert : partly (Cleanup a alert) (sealed a).
Proof.
  unfold Cleanup. set (a1 := if bool_decide _ then _ else _).
  assert (Hs : state_ a1 <> SSL_NONE /\ stream_ a1 = stream_ a).
  { subst a1. case_bool_decide as E; [by rewrite E | done]. }
  destruct Hs as [Hs E]. clearbody a1.
  eapply (safely_bind _ _ (sealed a)).
  - destruct (ssl_ a1) as [ssl|]; [|by apply sealed_same].
    eapply safely_bind; [by apply (run_sealed _ _ a1 (shutdown_seals library ssl))|].
    intros [x a2] (_ & H2 & _). apply safely_ok.
    apply (sealed_from _ a1); [done|]. by apply (sealed_to _ a2); [| |apply H2].
  - intros a2 H2. apply safely_ok. by apply (sealed_to _ a2); [| |apply H2].
Qed.

Lemma SignalEvent_sealed a events err :
  state_ a <> SSL_NONE -> partly (SignalEvent a events err) (sealed a).
Proof.
  intros Hs. unfold SignalEvent. set (a1 := set_signals _ _).
  destruct (slot a1 events err) as [a2|] eqn:E; [|done].
  apply slot_sealed in E; [|done]. by apply (sealed_from _ a1).
Qed.

Lemma Error_sealed a err alert signal : partly (Error a err alert signal) (sealed a).
Proof.
  unfold Error. set (a1 := set_error_code _ _).
  eapply (safely_bind _ _ (sealed a)).
  - apply (safely_weaken _ _ _ (Cleanup_sealed a1 alert)). intros a2 H2. by apply (sealed_from _ a1).
  - intros a2 H2. destruct signal; [|done].
    apply (safely_weaken _ _ _ (SignalEvent_sealed a2 SE_CLOSE err (proj1 H2))).
    intros a3 H3. by eapply sealed_trans.
Qed.

Lemma Close_sealed a : partly (Close a) (sealed a).
Proof.
  unfold Close. eapply safely_bind; [apply Cleanup_sealed|]. intros a1 H1.
  destruct (require _ _); [|by cbn]. cbn. destruct H1 as (Hs & l & E & Hl).
  split; [done|]. exists l. cbn. by rewrite sent_close.
Qed.

Lemma ContinueSSL_sealed a :
  state_ a <> SSL_NONE -> partly (ContinueSSL a) (fun '(_, a') => sealed a a').
Proof.
  intros Hs. unfold ContinueSSL. apply partly_require.
  set (a1 := stop_timer a). destruct (ssl_ a1) as [ssl|]; [|done]. cbn [from_opt mbind res_bind].
  eapply safely_bind.
  { apply (run_sealed _ (fun _ => True) a1); [|done].
    case_bool_decide; [apply (connect_seals library) | apply (accept_seals library)]. }
  intros [[err ssl'] a2] (_ & H2 & _). set (a3 := set_ssl a2 (Some ssl')).
  assert (H3 : sealed a a3) by (apply (sealed_from _ a1); [done | by apply (sealed_to _ a2); [| |apply H2]]).
  clearbody a3. clear H2. destruct (err =? SSL_ERROR_NONE).
  { apply partly_require.
    assert (H4 : sealed a (set_state a3 SSL_CONNECTED)) by (by apply (sealed_to _ a3)).
    destruct (negb _); [|done]. eapply safely_bind; [by apply SignalEvent_sealed|].
    intros a5 H5. apply safely_ok. by eapply sealed_trans. }
  destruct (err =? SSL_ERROR_WANT_READ).
  { destruct (DTLSv1_get_timeout ssl') as [[sec usec]|]; [|done]. unfold SetTimeout.
    unfold require. destruct (0 <=? _); [|by cbn]. cbn [mbind res_bind].
    case_bool_decide; [|by cbn].
    cbn. by apply (sealed_to _ a3); [| |apply H3]. }
  by destruct (err =? SSL_ERROR_WANT_WRITE).
Qed.

Lemma BeginSSL_sealed a :
  state_ a <> SSL_NONE -> partly (BeginSSL a) (fun '(_, a') => sealed a a').
Proof.
  intros Hs. unfold BeginSSL. apply partly_require.
  apply partly_require.
  assert (Hc : forall c o, sealed a (set_ssl (set_ctx a c) o)) by (intros; by apply sealed_same).
  destruct (SetupSSLContext a) as [ctx|]; [|by apply sealed_same].
  destruct (negb BIO_new_ok); [by apply sealed_same|].
  destruct (SSL_new ctx) as [ssl|]; [|by apply sealed_same].
  apply (safely_weaken _ _ _ (ContinueSSL_sealed (set_ssl (set_ctx a (Some ctx)) (Some ssl)) Hs)).
  intros [e a2] H2. eapply sealed_trans; [apply Hc|exact H2].
Qed.

Lemma SetPeerCertificateDigest_sealed a alg v :
  state_ a <> SSL_NONE -> partly (SetPeerCertificateDigest a alg v) (fun '(_, _, a') => sealed a a').
Proof.
  intros Hs. unfold SetPeerCertificateDigest. do 2 apply partly_require.
  destruct (MessageDigest.GetDigestSize alg); [|by apply sealed_same].
  destruct (negb _); [by apply sealed_same|]. set (p := mkPeer _ _ _ alg).
  destruct (peer_cert_chain_ p); [|by apply sealed_same].
  destruct (VerifyPeerCertificate p) as [[[] p']|]; [| |done]; cbn [mbind res_bind negb].
  - case_bool_decide; by apply sealed_same.
  - eapply safely_bind; [apply Error_sealed|]. intros a2 H2. apply safely_ok.
    by apply (sealed_from _ (set_peer a p')).
Qed.

(** A call on the connection, and what it leaves in the adapter. *)
Lemma call_sealed {X} (p : ssl_prog C X) (Q : X -> Prop) a a1 (conn : X -> SSL) :
  writes p Q -> state_ a <> SSL_NONE -> stream_ a1 = stream_ a -> state_ a1 = state_ a ->
  partly (run p a1) (fun '(x, a2) => Q x /\ sealed a (set_ssl a2 (Some (conn x)))).
Proof.
  intros Hw Hs E Es. apply (safely_weaken _ _ _ (run_sealed p Q a1 Hw ltac:(by rewrite Es))).
  intros [x a2] (HQ & H2 & _). split; [done|]. apply (sealed_from _ a1); [done|].
  by apply (sealed_to _ a2); [| |apply H2].
Qed.

Lemma Write_sealed a data :
  state_ a <> SSL_NONE -> partly (Write a data) (fun '(_, _, _, a') => sealed a a').
Proof.
  intros Hs. unfold Write. destruct (state_ a) eqn:Es; try done;
    try (by apply safely_ok, sealed_same; [rewrite Es|]).
  destruct (WaitingToVerifyPeerCertificate a); [by apply sealed_same; [rewrite Es|]|].
  case_bool_decide; [by apply sealed_same; [rewrite Es|]|]. rewrite <- Es in Hs.
  apply partly_require. set (a1 := set_needs a _ _).
  destruct (ssl_ a1) as [ssl|]; [|done]. cbn [from_opt mbind res_bind].
  eapply safely_bind.
  { by apply (call_sealed _ _ a a1 (fun '(_, _, s) => s) (write_seals library ssl data)). }
  intros [[[code err] ssl'] a2] (_ & H2). cbn beta iota zeta in H2 |- *.
  destruct (err =? SSL_ERROR_NONE).
  { do 2 apply partly_require. exact H2. }
  destruct (err =? SSL_ERROR_WANT_READ); [by apply (sealed_to _ _ _ H2); [|apply H2]|].
  destruct (err =? SSL_ERROR_WANT_WRITE); [exact H2|].
  eapply safely_bind; [apply Error_sealed|]. intros a3 H3. by eapply sealed_trans.
Qed.

Lemma flush_sealed n : forall a left,
  state_ a <> SSL_NONE -> partly (flush_loop n a left) (sealed a).
Proof.
  induction n as [|n IH]; intros a left Hs; cbn [flush_loop];
    (destruct (left =? 0); [by apply sealed_same|]); [done|].
  destruct (ssl_ a) as [ssl|]; [|done]. cbn [from_opt mbind res_bind].
  eapply safely_bind.
  { by apply (call_sealed _ _ a a (fun '(_, _, _, s) => s) (read_seals library ssl _)). }
  intros [[[[code err] bs] ssl'] a2] (_ & H2). apply partly_require.
  destruct (negb _).
  - apply (safely_weaken _ _ _ (Error_sealed _ _ _ _)). intros a3 H3. by eapply sealed_trans.
  - apply (safely_weaken _ _ _ (IH _ _ (proj1 H2))). intros a3 H3. by eapply sealed_trans.
Qed.

(** What [Read] delivers was deciphered. *)
Lemma Read_sealed a n :
  state_ a <> SSL_NONE ->
  partly (Read a n) (fun '(_, data, _, a') => sealed a a' /\ (data = [] \/ plain data)).
Proof.
  intros Hs. unfold Read. destruct (state_ a) eqn:Es; try done;
    try (by apply safely_ok; split; [apply sealed_same; [rewrite Es|] | left]).
  destruct (WaitingToVerifyPeerCertificate a);
    [by apply safely_ok; split; [apply sealed_same; [rewrite Es|] | left]|].
  destruct (n =? 0); [by apply safely_ok; split; [apply sealed_same; [rewrite Es|] | left]|].
  rewrite <- Es in Hs. apply partly_require. set (a1 := set_needs a _ _).
  destruct (ssl_ a1) as [ssl|]; [|done]. cbn [from_opt mbind res_bind].
  eapply safely_bind.
  { by apply (call_sealed _ _ a a1 (fun '(_, _, _, s) => s) (read_seals library ssl n)). }
  intros [[[[code err] data] ssl'] a2] (Hd & H2). cbn beta iota zeta in H2 |- *.
  destruct (err =? SSL_ERROR_NONE).
  { do 2 apply partly_require.
    destruct (_ && _); [|by split]. eapply safely_bind; [apply flush_sealed, H2|].
    intros a3 H3. split; [by eapply sealed_trans | done]. }
  destruct (err =? SSL_ERROR_WANT_READ); [by split|].
  destruct (err =? SSL_ERROR_WANT_WRITE); [split; [by apply (sealed_to _ _ _ H2); [|apply H2] | done]|].
  destruct (err =? SSL_ERROR_ZERO_RETURN); (eapply safely_bind; [apply Close_sealed || apply Error_sealed|]);
    intros a3 H3; (split; [by eapply sealed_trans | done]).
Qed.
Lemma on_open_sealed a events :
  state_ a <> SSL_NONE -> partly (on_open a events) (fun '(_, a') => sealed a a').
Proof.
  intros Hs. unfold on_open. destruct (negb _); [by apply sealed_same|].
  destruct (negb _); [by apply partly_require, sealed_same|].
  eapply safely_bind; [by apply BeginSSL_sealed|]. intros [err a1] H1.
  assert (H1' : sealed a a1) by (by apply (sealed_from _ (set_state a SSL_CONNECTING))).
  destruct (negb _); [|done]. eapply safely_bind; [apply Error_sealed|].
  intros a2 H2. by apply safely_ok, (sealed_trans _ a1).
Qed.

Lemma on_data_sealed a events e :
  state_ a <> SSL_NONE -> partly (on_data a events e) (fun '(_, a') => sealed a a').
Proof.
  intros Hs. unfold on_data. destruct (negb _); [by apply sealed_same|].
  destruct (state_ a) eqn:Es; try (by apply sealed_same; rewrite ?Es).
  rewrite <- Es in Hs. eapply safely_bind; [by apply ContinueSSL_sealed|]. intros [err a1] H1.
  destruct (negb _); [|done]. eapply safely_bind; [apply Error_sealed|].
  intros a2 H2. by apply safely_ok, (sealed_trans _ a1).
Qed.

Lemma on_close_sealed a events err e :
  state_ a <> SSL_NONE -> partly (on_close a events err e) (sealed a).
Proof.
  intros Hs. unfold on_close. eapply (safely_bind _ _ (fun '(_, _, a1) => sealed a a1)).
  - destruct (has _ _); [|by apply sealed_same].
    eapply safely_bind; [apply Cleanup_sealed|]. by intros a1 H1.
  - intros [[e' er] a1] H1. destruct (negb _); [|done].
    apply (safely_weaken _ _ _ (SignalEvent_sealed a1 e' er (proj1 H1))).
    intros a2 H2. by eapply sealed_trans.
Qed.

Lemma OnEvent_sealed a events err : state_ a <> SSL_NONE -> partly (OnEvent a events err) (sealed a).
Proof.
  intros Hs. unfold OnEvent. eapply safely_bind; [by apply on_open_sealed|].
  intros [[e|] a1] H1; [|done]. eapply safely_bind; [by apply on_data_sealed, H1|].
  intros [[e'|] a2] H2; [|by apply safely_ok, (sealed_trans _ a1)].
  apply (safely_weaken _ _ _ (on_close_sealed a2 events err e' (proj1 H2))).
  intros a3 H3. apply (sealed_trans _ a1); [done|]. by apply (sealed_trans _ a2).
Qed.

Lemma on_timeout_sealed a : state_ a <> SSL_NONE -> partly (on_timeout a) (sealed a).
Proof.
  intros Hs. unfold on_timeout. destruct (timeout_task_ a); [|by apply sealed_same].
  destruct (ssl_ _) as [ssl|]; [|done]. cbn [from_opt mbind res_bind].
  eapply safely_bind.
  { by apply (call_sealed _ _ a (stop_timer a) snd (timeout_seals library ssl)). }
  intros [[r ssl'] a1] [_ H1]. eapply safely_bind; [apply ContinueSSL_sealed, H1|].
  intros [e a2] H2. by apply safely_ok, (sealed_trans _ (set_ssl a1 (Some ssl'))).
Qed.

(** Everything a call does past the clear-text state. *)
Lemma do_call_sealed a c :
  state_ a <> SSL_NONE -> (if c is call_below _ then False else True) ->
  partly (do_call a c) (sealed a).
Proof.
  intros Hs Hc. destruct c; try done; cbn [do_call].
  - by apply partly_require, sealed_same.
  - by apply sealed_same.
  - by apply partly_require, sealed_same.
  - by apply partly_require, sealed_same.
  - apply safely_fmap, (safely_weaken _ _ _ (SetPeerCertificateDigest_sealed a digest_alg digest_val Hs)).
    by intros [[? ?] ?].
  - unfold SetDtlsSrtpCryptoSuites. repeat case_match; by apply sealed_same.
  - unfold StartSSL. rewrite bool_decide_false by done. by apply sealed_same.
  - apply safely_fmap, (safely_weaken _ _ _ (Write_sealed a data Hs)). by intros [[[? ?] ?] ?].
  - apply safely_fmap, (safely_weaken _ _ _ (Read_sealed a data_len Hs)). by intros [[[? ?] ?] ?] [? _].
  - apply Close_sealed.
  - by apply OnEvent_sealed.
  - by apply on_timeout_sealed.
  - unfold on_task. destruct (tasks a) as [|[events err] rest]; [by apply sealed_same|].
    apply (safely_weaken _ _ _ (SignalEvent_sealed (set_tasks a rest) events err Hs)).
    intros a' H'. by apply (sealed_from _ (set_tasks a rest)).
  - destruct (GetDtlsSrtpCryptoSuite a); [by apply sealed_same | done].
  - destruct (ExportKeyingMaterial _ _ _ _); [by apply sealed_same | done].
  - destruct (GetSslCipherSuite a); [by apply sealed_same | done].
  - destruct (GetSslVersion a); [by apply sealed_same | done].
  - destruct (GetSslVersionBytes a); [by apply sealed_same | done].
Qed.

(** C5. Once the adapter has left [SSL_NONE] no call sends or delivers clear
    text.  For any [record] that holds of all OpenSSL writes to the stream and
    any [plain] that holds of all it deciphers, whatever call is made, open
    connection or not: the adapter does not go back to [SSL_NONE]; what the
    call gave the stream below to send, closing and error paths included, is
    records; what [Read] delivers was deciphered, in that state and in the
    state after the call; and while the connection is not open, [Write] and
    [Read] move nothing and change nothing.  The client in SignalEvent is
    taken to reach the stream only through the adapter, and [call_below],
    with which the stream changes on its own, is not a call of the adapter. *)
Theorem no_clear_text (a a' : Adapter) (c : adapter_call) :
  state_ a <> SSL_NONE -> (if c is call_below _ then False else True) -> do_call a c = Ok a' ->
  (state_ a' <> SSL_NONE /\
   exists l, sent (stream_ a') = sent (stream_ a) ++ l /\ Forall record l) /\
  (forall b n r data e b', b = a \/ b = a' -> Read b n = Ok (r, data, e, b') ->
     data = [] \/ plain data) /\
  (GetState a' <> Dtls.SS_OPEN -> forall data n, exists r1 e1 r2 e2,
     Write a' data = Ok (r1, 0, e1, a') /\ r1 <> Dtls.SR_SUCCESS /\
     Read a' n = Ok (r2, [], e2, a') /\ r2 <> Dtls.SR_SUCCESS).
Proof.
  intros Hn Hc E. pose proof (safely_value _ _ _ (do_call_sealed a c Hn Hc) E) as [Hn' Hl].
  split; [done|]. split.
  { intros b n r data e b' Hb Hr. assert (Hnb : state_ b <> SSL_NONE) by (by destruct Hb as [->| ->]).
    exact (proj2 (safely_value _ _ _ (Read_sealed b n Hnb) Hr)). }
  intros Ho data n. unfold Write, Read, GetState in *.
  destruct (state_ a'); try done; try (by repeat eexists).
  destruct (WaitingToVerifyPeerCertificate a'); [by repeat eexists | done].
Qed.
End ClearText.

(** The fingerprint a peer computes of its own certificate, once set as the
    digest, is accepted and singles out the certificates with that digest. *)
Theorem fingerprint_decides (a : Adapter) (alg : bytes) (c c' : C) (f : SslFingerprint.SSLFingerprint) :
  inv a -> state_ a = SSL_NONE ->
  peer_certificate_verified_ (peer_ a) = false -> HasPeerCertificateDigest (peer_ a) = false ->
  SslFingerprint.Create (H := OpenSSLCertificate) alg c = Some f ->
  exists a' b p', SetPeerCertificateDigest a (SslFingerprint.algorithm f) (SslFingerprint.digest f)
      = Ok (true, NONE, a') /\
    SSLVerifyCallback (peer_ a') c' = Ok (b, p') /\
    (b = true <-> ComputeDigest c' alg EVP_MAX_MD_SIZE = Some (SslFingerprint.digest f)).
Proof.
  intros Hi Es Hv Hh Hf. unfold SslFingerprint.Create in Hf. cbn in Hf. unfold ComputeDigest in Hf.
  destruct (MessageDigest.GetDigestEVP alg) as [md|] eqn:Hmd; [|done].
  change 64 with EVP_MAX_MD_SIZE in Hf. pose proof (EVP_MD_size_range md) as Hr.
  rewrite (proj2 (Z.ltb_ge _ _) (proj2 Hr)) in Hf. cbn in Hf. injection Hf as <-.
  cbn [SslFingerprint.algorithm SslFingerprint.digest].
  pose proof Hi as [(_ & (Hd & _) & _) Hsh]. unfold shape in Hsh. rewrite Es in Hsh.
  destruct Hsh as (_ & _ & Hch & _). unfold SetPeerCertificateDigest. rewrite Hv, Hh.
  cbn [negb require mbind res_bind]. unfold MessageDigest.GetDigestSize. rewrite Hmd.
  cbn [fmap option_fmap option_map]. rewrite digest_size, Z.eqb_refl. cbn [negb peer_cert_chain_].
  rewrite Hch. set (p := mkPeer None false _ alg).
  assert (Hdp : digest_ok (set_chain p (Some [c']))).
  { pose proof (set_digest_ok (peer_ a) alg (X509_digest c md) md Hd Hmd (eq_sym (digest_size c md))) as Hx.
    rewrite Hch, Hv in Hx. exact Hx. }
  destruct (verify_spec _ c' Hdp (known_alg_nonempty _ _ Hmd) eq_refl) as (b & E & Hb).
  eexists _, b, _. split; [done|]. split.
  - unfold SSLVerifyCallback. cbn [peer_ set_peer peer_certificate_digest_algorithm_ p].
    rewrite bool_decide_false by exact (known_alg_nonempty _ _ Hmd). exact E.
  - rewrite Hb. unfold matches, ComputeDigest.
    cbn [peer_certificate_digest_algorithm_ peer_certificate_digest_value_ set_chain p]. rewrite Hmd, (proj2 (Z.ltb_ge _ _) (proj2 Hr)).
    destruct Hd as [Hc _]. rewrite Buffer.SetData_data by done. split.
    + intros (md' & [= <-] & [= ->]). done.
    + intros [= E']. exists md. split; [done|]. by rewrite E'.
Qed.

(** *** The SRTP profiles offered *)

Lemma srtp_name_nonempty cipher name : srtp_internal_name cipher = Some name -> name <> [].
Proof.
  unfold srtp_internal_name, kSrtpCipherMap. cbn [List.find snd].
  repeat (destruct (cipher =? _); [cbn; intros [= <-]; done|]). done.
Qed.

Lemma srtp_cipher_string_join ciphers names : forall acc,
  Forall2 (fun c n => srtp_internal_name c = Some n) ciphers names ->
  srtp_cipher_string ciphers acc =
  Some (if bool_decide (names = []) then acc
        else if bool_decide (acc = []) then SUtil.join (lit ":") names
        else acc ++ lit ":" ++ SUtil.join (lit ":") names).
Proof.
  intros acc Hf. revert acc. induction Hf as [|c n cs ns Hc Hf IH]; intros acc; [done|].
  cbn [srtp_cipher_string]. rewrite Hc, IH. pose proof (srtp_name_nonempty _ _ Hc) as Hn.
  rewrite (bool_decide_false (n :: ns = [])) by done.
  rewrite (bool_decide_false (_ ++ n = [])) by (intros E; by apply app_eq_nil in E as [_ ?]).
  clear IH. destruct ns as [|n2 ns].
  - rewrite (bool_decide_true ([] = [])) by done.
    destruct (decide (acc = [])) as [->|Ha]; [done|]. rewrite (bool_decide_false (acc = [])) by done.
    by rewrite <- app_assoc.
  - rewrite (bool_decide_false (n2 :: ns = [])) by done. rewrite (SUtil.join_cons (lit ":") n (n2 :: ns)) by done.
    destruct (decide (acc = [])) as [->|Ha]; [done|]. rewrite (bool_decide_false (acc = [])) by done.
    by rewrite <- !app_assoc.
Qed.

Lemma profiles_nonempty sep n ns : n <> [] -> SUtil.join sep (n :: ns) <> [].
Proof. destruct n; [done|]. by destruct ns. Qed.

(** Every list of suites that crypto options offer is accepted before the
    handshake, and OpenSSL is then asked for exactly these profiles, in this
    order, by their names. *)
Theorem offered_suites_configured (a : Adapter) (o : CryptoSuites.CryptoOptions) (l : list Z) :
  CryptoSuites.GetSupportedDtlsSrtpCryptoSuites o = Ok l -> state_ a = SSL_NONE ->
  exists names a', Forall2 (fun cs name => (name, cs) ∈ kSrtpCipherMap) l names /\
    SetDtlsSrtpCryptoSuites a l = (true, a') /\
    srtp_ciphers_ (config_ a') = SUtil.join (lit ":") names /\
    (forall ctx, SetupSSLContext a' = Some ctx ->
       ctx_srtp ctx = Some (c_str (srtp_ciphers_ (config_ a')))).
Proof.
  intros Hl Hs. apply CryptoSuites.offered_suites_known in Hl as [Hne Hk].
  assert (Hf : exists names, Forall2 (fun c n => srtp_internal_name c = Some n /\ (n, c) ∈ kSrtpCipherMap) l names).
  { clear Hne. induction Hk as [|cs l [_ [[k s] Hcs]] _ [names IH]]; [by exists []|].
    apply CryptoSuites.GetSrtpKeyAndSaltLengths_cases in Hcs.
    assert (Hx : exists n, srtp_internal_name cs = Some n /\ (n, cs) ∈ kSrtpCipherMap).
    { destruct Hcs as [[-> _]|[[-> _]|[[-> _]|[-> _]]]]; eexists; (split; [reflexivity|]);
        unfold kSrtpCipherMap; rewrite !list.elem_of_cons; auto 10. }
    destruct Hx as [n Hn]. exists (n :: names). by constructor. }
  destruct Hf as [names Hf].
  assert (Hf1 : Forall2 (fun c n => srtp_internal_name c = Some n) l names)
    by (eapply list.Forall2_impl; [exact Hf|]; by intros ? ? [? _]).
  destruct Hf1 as [|c n cs ns Hc Hf1]; [done|]. pose proof (srtp_name_nonempty _ _ Hc) as Hn.
  pose proof (profiles_nonempty (lit ":") n ns Hn) as Hj.
  exists (n :: ns). unfold SetDtlsSrtpCryptoSuites. rewrite Hs, bool_decide_true by done. cbn [negb].
  rewrite (srtp_cipher_string_join (c :: cs) (n :: ns) []) by (by constructor).
  rewrite bool_decide_false, bool_decide_true by done.
  destruct (SUtil.join (lit ":") (n :: ns)) as [|x s] eqn:Ej; [done|].
  eexists. split; [eapply list.Forall2_impl; [exact Hf|]; by intros ? ? [_ ?]|].
  split; [done|]. split; [done|]. intros ctx. unfold SetupSSLContext.
  cbn [config_ set_config srtp_ciphers_]. destruct (negb (SSL_CTX_new _)); [done|].
  destruct (protocol_versions _). repeat case_match; intros; simplify_eq; done.
Qed.
End Adapter.

(** ** The stream of the DTLS transport *)

Definition dtls_stream_ok (s : Dtls.DtlsStreamInterface) : Prop :=
  exists l, BufferQueue.view (Dtls._que s) l.

Lemma dtls_read_ok s n :
  dtls_stream_ok s -> 0 <= n -> exists r bs s',
    Dtls.Read s n = Ok (r, bs, s') /\ dtls_stream_ok s' /\ zlen bs <= n.
Proof.
  intros [l Hl] Hn. unfold Dtls.Read.
  destruct (Dtls.stream_state s);
    [eexists _, _, _; split; [done|]; split; [by exists l | exact Hn]..|].
  destruct l as [|p l].
  - destruct Hl as (Hq & Hrest). unfold BufferQueue.ReadFront.
    rewrite (Forall2_nil_inv_r _ _ Hq). rewrite bind_ok. eexists _, _, _. split; [done|].
    split; [|done]. exists []. by split.
  - destruct (BufferQueue.ReadFront_front _ p l n Hl Hn) as (q' & -> & Hv & _). rewrite bind_ok.
    eexists _, _, _. split; [done|]. split; [by exists l|]. unfold zlen. rewrite length_take. lia.
Qed.

Definition dtls_write s bs : res (Dtls.StreamResult * Z * Dtls.DtlsStreamInterface) :=
  Ok (Dtls.Write s bs).

Lemma dtls_write_ok s bs :
  dtls_stream_ok s -> exists r n s',
    dtls_write s bs = Ok (r, n, s') /\ dtls_stream_ok s' /\ n <= zlen bs.
Proof.
  intros [l Hl]. unfold dtls_write, Dtls.Write. eexists _, _, _. split; [done|].
  split; [|done]. exists l. by destruct (negb _).
Qed.

Lemma dtls_close_ok s : dtls_stream_ok s -> dtls_stream_ok (Dtls.Close s).
Proof.
  intros [l Hl]. exists []. exact (proj1 (@BufferQueue.fifo_clear_view _ BufferQueue.BufferQueue_fifo (Dtls._que s) l Hl)).
Qed.

#[export] Instance dtls_StreamInterface : StreamInterface Dtls.DtlsStreamInterface := {|
  stream_Read := Dtls.Read;
  stream_Write := dtls_write;
  stream_GetState := Dtls.GetState;
  stream_Close := Dtls.Close;
  stream_ok := dtls_stream_ok;
  read_ok := dtls_read_ok;
  write_ok := dtls_write_ok;
  close_ok := dtls_close_ok;
|}.

(** ** A client that reads

    [RtcDtls::slot_dtls_event] reads until the adapter has no more; this client
    stops after [n] reads.  [Read] raises no signal, so the client of the
    adapter it reads from does not matter. *)
Section ReadingClient.
Context {S C I SSL : Type} `{StreamInterface S} `{OpenSSL C I SSL}.
Abbreviation settles := (safely eof_asked).

Definition quiet (a : adapter S C I SSL) (events err : Z) : res (adapter S C I SSL) := Ok a.

Fixpoint drain_reads (n : nat) (a : adapter S C I SSL) : res (adapter S C I SSL) :=
  match n with
  | O => Ok a
  | Datatypes.S n =>
      '(r, _, _, a) ← Read quiet a Dtls.k_max_dtls_packet_len;
      match r with Dtls.SR_SUCCESS => drain_reads n a | _ => Ok a end
  end.

Definition reading_client (n : nat) (a : adapter S C I SSL) (events err : Z)
    : res (adapter S C I SSL) :=
  if has events SE_READ then drain_reads n a else Ok a.

Lemma quiet_ok a events err : inv a -> settles (quiet a events err) (fun a' => inv a' /\ later a a').
Proof. intros Hi. by apply safely_ok. Qed.

Lemma reading_client_ok n a events err :
  inv a -> settles (reading_client n a events err) (fun a' => inv a' /\ later a a').
Proof.
  unfold reading_client. destruct (has events SE_READ); [|intros Hi; by apply safely_ok].
  revert a. induction n as [|n IH]; intros a Hi; cbn [drain_reads]; [by apply safely_ok|].
  eapply safely_bind; [apply (Read_returns quiet quiet_ok a _ Hi); by unfold INT_MAX|].
  intros [[[r bs] e] a1] [Hi1 Hl1]. destruct r; try (by apply safely_ok).
  apply (safely_weaken _ _ _ (IH a1 Hi1)). intros a2 [Hi2 Hl2]. split; [done | by transitivity a1].
Qed.
End ReadingClient.

(** ** A library for concrete runs

    The peer's first packet is its certificate, a byte, which is also every
    byte of the certificate's digest.  Records start with a byte for their
    type; the cipher sets the top bit of every byte and deciphering clears it. *)
Record toy_conn := mkConn { toy_requires : bool; toy_accepted : bool }.

Definition toy_handshake (s : toy_conn) : ssl_prog Z (Z * toy_conn) :=
  ssl_act (bio_read (Some 2048)) (fun r =>
    if 0 <? bio_code r then
      ssl_act (verify_peer (default 0 (head (bio_data r)))) (fun ok : bool =>
        if ok then ssl_act (bio_write (Some [22; 2])) (fun _ =>
          ssl_ret (SSL_ERROR_NONE, mkConn (toy_requires s) true))
        else ssl_ret (1, mkConn (toy_requires s) false))
    else ssl_ret (SSL_ERROR_WANT_READ, s)).

Definition toy_seal (bs : bytes) : bytes := 23 :: ((fun b => Z.lor b 128) <$> take 2048 bs).
Definition toy_open (bs : bytes) : bytes :=
  match bs with
  | ty :: bs => if ty =? 23 then (fun b => Z.land b 127) <$> bs else []
  | [] => []
  end.

Definition toy_write (s : toy_conn) (bs : bytes) : ssl_prog Z (Z * Z * toy_conn) :=
  ssl_act (bio_write (Some (toy_seal bs))) (fun _ =>
    ssl_ret (if 0 <? zlen bs then (zlen bs, SSL_ERROR_NONE, s) else (-1, SSL_ERROR_WANT_WRITE, s))).

Definition toy_read (s : toy_conn) (n : Z) : ssl_prog Z (Z * Z * bytes * toy_conn) :=
  ssl_act (bio_read (Some 2048)) (fun r =>
    let bs := toy_open (bio_data r) in
    ssl_ret (if (0 <? zlen bs) && (zlen bs <=? n) then (zlen bs, SSL_ERROR_NONE, bs, s)
             else (-1, SSL_ERROR_WANT_READ, [], s))).

Definition toy_shutdown (s : toy_conn) : ssl_prog Z Z :=
  ssl_act (bio_write (Some [21; 0])) (fun _ => ssl_ret 1).

Definition toy_SSL_new (ctx : SSL_CTX unit) : option toy_conn :=
  Some (mkConn (bool_decide (ctx_verify_mode ctx = Z.lor SSL_VERIFY_PEER SSL_VERIFY_FAIL_IF_NO_PEER_CERT))
          false).

Definition toy_X509_digest (c : Z) (md : MessageDigest.EVP_MD) : bytes :=
  replicate (Z.to_nat (MessageDigest.EVP_MD_size md)) c.

Lemma toy_seal_small (bs : bytes) : zlen (toy_seal bs) <= 2147483647.
Proof. unfold toy_seal, zlen. cbn [length]. rewrite length_fmap, length_take. lia. Qed.

Lemma toy_digest_size c md : zlen (toy_X509_digest c md) = MessageDigest.EVP_MD_size md.
Proof. unfold toy_X509_digest, zlen. rewrite length_replicate. by destruct md. Qed.

#[export] Program Instance toy_OpenSSL : OpenSSL Z unit toy_conn := {|
  SSL_CTX_new _ := true;
  SSL_CTX_use_certificate _ := 1;
  SSL_CTX_use_PrivateKey _ := 1;
  SSL_CTX_add1_chain_cert _ := [];
  SSL_CTX_set_tlsext_use_srtp _ := 0;
  BIO_new_ok := true;
  SSL_new := toy_SSL_new;
  SSL_connect := toy_handshake;
  SSL_accept := toy_handshake;
  SSL_write := toy_write;
  SSL_read := toy_read;
  SSL_shutdown := toy_shutdown;
  SSL_pending _ := 0;
  SSL_get_current_cipher _ := Some 50380847;
  SSL_version _ := DTLS1_2_VERSION;
  SSL_export_keying_material _ _ _ n := if 0 <=? n then Some (replicate (Z.to_nat n) 0) else None;
  SSL_get_selected_srtp_profile _ := Some CryptoSuites.kSrtpAes128CmSha1_80;
  DTLSv1_get_timeout _ := Some (1, 0);
  DTLSv1_handle_timeout s := ssl_ret (0, s);
  X509_digest := toy_X509_digest;
  X509_get_signature_nid _ := NID_ecdsa_with_SHA256;
  asks_eof := false;
  accepted := toy_accepted;
  requires := toy_requires;
|}.
Next Obligation. by intros ctx s [= <-]. Qed.
Next Obligation.
  intros s. cbn. split; [lia|]. intros r. case_match; [|by repeat split].
  intros [].
  - split; [by vm_compute|]. intros _. by repeat split.
  - by repeat split.
Qed.
Next Obligation.
  intros s. cbn. split; [lia|]. intros r. case_match; [|by repeat split].
  intros [].
  - split; [by vm_compute|]. intros _. by repeat split.
  - by repeat split.
Qed.
Next Obligation.
  intros s bs. cbn. split; [apply toy_seal_small|]. intros r.
  destruct (Z.ltb_spec 0 (zlen bs)); by repeat split.
Qed.
Next Obligation.
  intros s n. cbn. split; [lia|]. intros r.
  destruct (_ && _) eqn:E; [|by repeat split]. bool_inv. repeat split; try done; lia.
Qed.
Next Obligation. intros s. cbn. split; [by vm_compute | done]. Qed.
Next Obligation. intros. lia. Qed.
Next Obligation. intros s sec usec [= <- <-]. lia. Qed.
Next Obligation. by intros s. Qed.
Next Obligation.
  intros s label context n r. cbn. destruct (Z.leb_spec 0 n); [|done]. intros [= <-].
  unfold zlen. rewrite length_replicate. lia.
Qed.
Next Obligation. intros s id [= <-]. by left. Qed.
Next Obligation. apply toy_digest_size. Qed.

Abbreviation toy_adapter := (adapter Dtls.DtlsStreamInterface Z unit toy_conn).

(** The stream after a packet. *)
Definition packet (p : bytes) : Dtls.DtlsStreamInterface :=
  snd (Dtls.on_packet_receive Dtls.new_stream p).

(** [RtcDtls::setup_dtls] and [StartSSL], expecting the digest of [c]. *)
Definition toy_start (c : Z) : list (@adapter_call Dtls.DtlsStreamInterface unit) :=
  [call_SetIdentity tt; call_SetMode SSL_MODE_DTLS; call_SetMaxProtocolVersion SSL_PROTOCOL_DTLS_12;
   call_SetServerRole SSL_SERVER;
   call_SetPeerCertificateDigest MessageDigest.DIGEST_SHA_256 (toy_X509_digest c MessageDigest.EVP_sha256);
   call_SetDtlsSrtpCryptoSuites [CryptoSuites.kSrtpAes128CmSha1_80]; call_StartSSL].

(** The peer presents the certificate [c] in a packet, and the adapter is told. *)
Definition toy_present (c : Z) : list (@adapter_call Dtls.DtlsStreamInterface unit) :=
  [call_below (packet [c]); call_OnEvent SE_READ 0].

Definition toy_run (cs : list (@adapter_call Dtls.DtlsStreamInterface unit)) : res toy_adapter :=
  do_calls (reading_client 4) (new_adapter Dtls.new_stream false) cs.

Definition toy_end (cs : list adapter_call) : res (SSLState * list (Z * Z)) :=
  (fun a : toy_adapter => (state_ a, (fun r => (r_events r, r_err r)) <$> signals a)) <$> toy_run cs.

Example toy_runs :
  toy_end (toy_start 7) = Ok (SSL_CONNECTING, []) /\
  toy_end (toy_start 7 ++ toy_present 7) = Ok (SSL_CONNECTED, [(7, 0)]) /\
  toy_end (toy_start 7 ++ toy_present 8) = Ok (SSL_ERROR, [(SE_CLOSE, 1)]) /\
  toy_end (toy_start 7 ++ toy_present 7 ++ [call_below (packet [23; 5]); call_Read 100; call_Write [6];
    call_ExportKeyingMaterial (lit "label") None 60; call_Close])
    = Ok (SSL_CLOSED, [(7, 0)]).
Proof. split_and!; vm_compute; reflexivity. Qed.

(** A handshake that fails while the retransmission timer runs it is not
    reported: no event is raised, and the state still says it is going on. *)
Example timer_hides_failure :
  toy_end (toy_start 7 ++ [call_below (packet [8]); call_timeout]) = Ok (SSL_CONNECTING, []).
Proof. vm_compute. reflexivity. Qed.

(** The opening posted when the digest comes late is delivered even if the
    adapter is closed first. *)
Example open_after_close :
  toy_end ([call_SetMode SSL_MODE_DTLS; call_SetServerRole SSL_SERVER; call_StartSSL] ++ toy_present 7
           ++ [call_SetPeerCertificateDigest MessageDigest.DIGEST_SHA_256
                 (toy_X509_digest 7 MessageDigest.EVP_sha256);
               call_Close; call_task])
  = Ok (SSL_CLOSED, [(7, 0)]).
Proof. vm_compute. reflexivity. Qed.

(** Keys asked for before the handshake began: OpenSSL gets a null pointer. *)
Example export_before_start (stream : Dtls.DtlsStreamInterface) (label : bytes) (n : Z) :
  ExportKeyingMaterial (new_adapter (SSL := toy_conn) (C := Z) (I := unit) stream false) label None n
  = Fail NullDeref.
Proof. reflexivity. Qed.

(** [BIO_eof] passes no pointer, and the method reads the stream through it. *)
Example bio_eof_faults :
  stream_ctrl (S := Dtls.DtlsStreamInterface) BIO_CTRL_EOF None = Fail NullDeref.
Proof. reflexivity. Qed.

Lemma new_stream_ok : stream_ok Dtls.new_stream.
Proof. exists []. by apply BufferQueue.view_create. Qed.

Lemma packet_ok p : stream_ok (packet p).
Proof.
  destruct (BufferQueue.WriteBack_room (BufferQueue.create 2048 2) [] p) as (q & E & Hv & _).
  - by apply BufferQueue.view_create.
  - by vm_compute.
  - exists ([] ++ [p]). unfold packet, Dtls.on_packet_receive, Dtls.new_stream.
    cbn [Dtls._is_stop Dtls._que]. by rewrite E.
Qed.

Lemma open_means_verified_witness :
  exists a : toy_adapter, do_calls (reading_client 4) (new_adapter Dtls.new_stream false) (toy_start 7 ++ toy_present 7) = Ok a /\
    GetState a = Dtls.SS_OPEN /\
    (GetState a = Dtls.SS_OPEN \/
     (IsTlsConnected a = true /\ peer_certificate_digest_algorithm_ (peer_ a) <> []) ->
     exists c, GetPeerSSLCertChain a = Some [c] /\ matches (peer_ a) c) /\
    Forall (signal_ok true) (signals a).
Proof.
  eexists. assert (E : do_calls (reading_client 4) (new_adapter Dtls.new_stream false) (toy_start 7 ++ toy_present 7) = Ok ltac:(
      let r := eval vm_compute in (do_calls (reading_client 4) (new_adapter Dtls.new_stream false) (toy_start 7 ++ toy_present 7)) in
      match r with Ok ?a => exact a end)) by (vm_compute; reflexivity).
  split; [exact E|]. split; [reflexivity|].
  apply (open_means_verified (reading_client 4) (reading_client_ok 4) Dtls.new_stream false
           (toy_start 7 ++ toy_present 7)); [exact new_stream_ok | | exact E].
  repeat constructor. apply packet_ok.
Defined.


(** The records of the concrete library. *)
Definition toy_record (bs : bytes) : Prop := exists ty rest, bs = ty :: rest /\ ty ∈ [21; 22; 23].
Definition toy_plain (bs : bytes) : Prop := Forall (fun b => 0 <= b < 128) bs.

Lemma toy_open_plain bs : toy_plain (toy_open bs).
Proof.
  unfold toy_plain, toy_open. destruct bs as [|ty bs]; [constructor|].
  destruct (ty =? 23); [|constructor]. apply Forall_fmap, Forall_true. intros b. cbn.
  change 127 with (Z.ones 7). rewrite Z.land_ones by lia. by apply Z.mod_pos_bound.
Qed.

Lemma toy_sealing : sealing (I := unit) toy_record toy_plain.
Proof.
  assert (Hh : forall s, writes toy_record (toy_handshake s) (fun _ => True)).
  { intros s. cbn. split; [done|]. intros r. destruct (0 <? bio_code r); cbn; [|done].
    split; [done|]. intros []; cbn; [|done]. split; [|done]. by exists 22, [2]; split; [|right; left]. }
  constructor; [exact Hh | exact Hh | | | | done].
  - intros s bs. cbn. split; [|done]. by exists 23, ((fun b => Z.lor b 128) <$> take 2048 bs);
      split; [|right; right; left].
  - intros s n. cbn. split; [done|]. intros r. destruct (_ && _); [|by left]. right. apply toy_open_plain.
  - intros s. cbn. split; [|done]. by exists 21, [0]; split; [|left].
Qed.

Lemma dtls_sent_write (s : Dtls.DtlsStreamInterface) bs r n s' :
  stream_Write s bs = Ok (r, n, s') -> Dtls.sent s' = Dtls.sent s \/ Dtls.sent s' = Dtls.sent s ++ [bs].
Proof.
  cbn. unfold dtls_write, Dtls.Write. intros [= _ _ <-]. destruct (negb _); [by right | by left].
Qed.

Lemma dtls_sent_read (s : Dtls.DtlsStreamInterface) n r bs s' :
  stream_Read s n = Ok (r, bs, s') -> Dtls.sent s' = Dtls.sent s.
Proof.
  cbn. unfold Dtls.Read. destruct (Dtls.stream_state s); [by intros [= _ _ <-] | by intros [= _ _ <-] |].
  intros E. apply res_bind_ok in E as ([[b|] q] & _ & E); by injection E as _ _ <-.
Qed.

Lemma reading_client_sealed n (a : toy_adapter) events err a' :
  state_ a <> SSL_NONE -> reading_client n a events err = Ok a' -> sealed Dtls.sent toy_record a a'.
Proof.
  unfold reading_client. destruct (has events SE_READ); [|intros Hs [= <-]; by apply sealed_same].
  revert a. induction n as [|n IH]; intros a Hs E; cbn [drain_reads] in E;
    [injection E as <-; by apply sealed_same|].
  apply res_bind_ok in E as ([[[r bs] e] a1] & E1 & E).
  assert (H1 : sealed Dtls.sent toy_record a a1).
  { refine (proj1 (safely_value _ _ _ (Read_sealed quiet Dtls.sent dtls_sent_write dtls_sent_read
      (fun _ => eq_refl) toy_record toy_plain toy_sealing _ a Dtls.k_max_dtls_packet_len Hs) E1)).
    intros b ? ? b' Hb [= <-]. by apply sealed_same. }
  destruct r; try (by injection E as <-). eapply sealed_trans; [exact H1|]. by apply IH; [apply H1|].
Qed.

(** The open adapter writes two bytes; its stream is given one record more. *)
Lemma no_clear_text_witness :
  exists a0 a' : toy_adapter,
    toy_run (toy_start 7 ++ toy_present 7) = Ok a0 /\
    do_call (reading_client 4) a0 (call_Write [1; 2]) = Ok a' /\
    GetState a0 = Dtls.SS_OPEN /\ Dtls.sent (stream_ a') = [[22; 2]; [23; 129; 130]] /\
    (state_ a' <> SSL_NONE /\
     exists l, Dtls.sent (stream_ a') = Dtls.sent (stream_ a0) ++ l /\ Forall toy_record l) /\
    (forall b n r data e b', b = a0 \/ b = a' -> Read (reading_client 4) b n = Ok (r, data, e, b') ->
       data = [] \/ toy_plain data) /\
    (GetState a' <> Dtls.SS_OPEN -> forall data n, exists r1 e1 r2 e2,
       Write (reading_client 4) a' data = Ok (r1, 0, e1, a') /\ r1 <> Dtls.SR_SUCCESS /\
       Read (reading_client 4) a' n = Ok (r2, [], e2, a') /\ r2 <> Dtls.SR_SUCCESS).
Proof.
  eexists _, _. assert (E : toy_run (toy_start 7 ++ toy_present 7) = Ok ltac:(
      let r := eval vm_compute in (toy_run (toy_start 7 ++ toy_present 7)) in
      match r with Ok ?a => exact a end)) by (vm_compute; reflexivity).
  split; [exact E|]. split; [vm_compute; reflexivity|]. split; [reflexivity|]. split; [reflexivity|].
  apply (no_clear_text (reading_client 4) Dtls.sent dtls_sent_write dtls_sent_read (fun _ => eq_refl)
           toy_record toy_plain toy_sealing (reading_client_sealed 4) _ _ (call_Write [1; 2]));
    [discriminate | done | vm_compute; reflexivity].
Defined.

Lemma fingerprint_decides_witness :
  exists a' b p',
    SetPeerCertificateDigest quiet (new_adapter (C := Z) (I := unit) (SSL := toy_conn) Dtls.new_stream false)
      MessageDigest.DIGEST_SHA_256 (toy_X509_digest 7 MessageDigest.EVP_sha256) = Ok (true, NONE, a') /\
    SSLVerifyCallback (peer_ a') 8 = Ok (b, p') /\
    (b = true <-> ComputeDigest 8 MessageDigest.DIGEST_SHA_256 EVP_MAX_MD_SIZE =
                  Some (toy_X509_digest 7 MessageDigest.EVP_sha256)).
Proof.
  apply (fingerprint_decides quiet (new_adapter Dtls.new_stream false) MessageDigest.DIGEST_SHA_256 7 8
           (SslFingerprint.mkFingerprint MessageDigest.DIGEST_SHA_256
              (toy_X509_digest 7 MessageDigest.EVP_sha256))).
  - apply new_inv, new_stream_ok.
  - reflexivity.
  - reflexivity.
  - reflexivity.
  - vm_compute. reflexivity.
Defined.

Lemma offered_suites_configured_witness :
  exists names (a' : toy_adapter), Forall2 (fun cs name => (name, cs) ∈ kSrtpCipherMap)
      [CryptoSuites.kSrtpAes128CmSha1_80] names /\
    SetDtlsSrtpCryptoSuites (new_adapter Dtls.new_stream false) [CryptoSuites.kSrtpAes128CmSha1_80]
      = (true, a') /\
    srtp_ciphers_ (config_ a') = SUtil.join (lit ":") names /\
    (forall ctx, SetupSSLContext a' = Some ctx ->
       ctx_srtp ctx = Some (c_str (srtp_ciphers_ (config_ a')))).
Proof.
  apply (offered_suites_configured (new_adapter Dtls.new_stream false) CryptoSuites.default_CryptoOptions);
    reflexivity.
Defined.
