(* ===== verification/SslAdapter.v ===== *)
(** * rtc_base/openssl_adapter.{h,cc}: TLS over a socket

    [OpenSSLAdapter] runs TLS over a [Socket] with OpenSSL: the counterpart,
    for the TCP sockets of a TURN client, of the stream adapter in
    [OpenSslStream].  OpenSSL is the class [TlsLib]; its calls are programs
    over the callbacks it makes, as there.  The socket is the class [Socket],
    the interface of rtc_base/socket.h.  [client] is what the slots connected
    to the adapter's signals do with it.

    Also here: the cache of sessions (openssl_session_cache.cc) and the host
    name check (openssl_utility.cc).  The branches for BoringSSL are not the
    build's. *)
From S2P Require Import Prelude.
From S2P Require OpenSslStream.
From S2P Require SUtil.
From S2P Require StringEncode.

Local Open Scope Z_scope.

Abbreviation ssl_prog := OpenSslStream.ssl_prog.
Abbreviation bio_result := OpenSslStream.bio_result.
Abbreviation mkBio := OpenSslStream.mkBio.
Abbreviation outcomes := OpenSslStream.outcomes.
Abbreviation SSLMode := OpenSslStream.SSLMode.
Abbreviation SSLRole := OpenSslStream.SSLRole.
Abbreviation SSL_ERROR_NONE := OpenSslStream.SSL_ERROR_NONE.
Abbreviation SSL_ERROR_WANT_READ := OpenSslStream.SSL_ERROR_WANT_READ.
Abbreviation SSL_ERROR_WANT_WRITE := OpenSslStream.SSL_ERROR_WANT_WRITE.
Abbreviation SSL_ERROR_ZERO_RETURN := OpenSslStream.SSL_ERROR_ZERO_RETURN.
Abbreviation INT_MAX := OpenSslStream.INT_MAX.

#[local] Existing Instances OpenSslStream.SSLMode_eq_dec OpenSslStream.SSLRole_eq_dec.

(** ** The socket below *)
Inductive ConnState := CS_CLOSED | CS_CONNECTING | CS_CONNECTED.
#[export] Instance ConnState_eq_dec : EqDecision ConnState.
Proof. solve_decision. Defined.

Definition SOCKET_ERROR : Z := -1.
Definition EWOULDBLOCK : Z := 11.
Definition ENOTCONN : Z := 107.

Class Socket (S Addr : Type) := {
  socket_Send : S -> bytes -> Z * S;
  socket_Recv : S -> Z -> Z * bytes * S;
  socket_SendTo : S -> bytes -> Addr -> Z * S;
  socket_IsBlocking : S -> bool;
  socket_GetState : S -> ConnState;
  socket_GetRemoteAddress : S -> Addr;
  socket_SetError : S -> Z -> S;
  socket_Close : S -> Z * S;
}.

(** ** OpenSSL *)
Definition X509_V_OK : Z := 0.
Definition SSL_VERIFY_PEER : Z := 1.
Definition SSL_MODE_ENABLE_PARTIAL_WRITE : Z := 1.
Definition SSL_MODE_ACCEPT_MOVING_WRITE_BUFFER : Z := 2.
Definition SSL_SESS_CACHE_CLIENT : Z := 1.
Definition SSL3_RT_MAX_PLAIN_LENGTH : Z := 16384.

(** The settings of an [SSL_CTX]. *)
Record SSL_CTX (I : Type) := mkCtx {
  ctx_mode : SSLMode;
  ctx_roots : bool;                  (* trusted roots were added *)
  ctx_verify_mode : Z;
  ctx_verify_depth : Z;
  ctx_cipher_list : bytes;
  ctx_read_ahead : bool;
  ctx_cache_mode : option Z;         (* with the callback for new sessions *)
  ctx_identity : option I
}.
Arguments mkCtx {I}.
Arguments ctx_mode {I}.

Definition with_identity {I} (c : SSL_CTX I) (i : I) : SSL_CTX I :=
  mkCtx (ctx_mode c) (ctx_roots _ c) (ctx_verify_mode _ c) (ctx_verify_depth _ c) (ctx_cipher_list _ c)
    (ctx_read_ahead _ c) (ctx_cache_mode _ c) (Some i).

(** The settings of a connection whose results the adapter does not look at. *)
Inductive ssl_setting :=
  | set_mode (mode : Z)
  | set_tlsext_host_name (name : bytes)
  | set_alpn_protos (protos : bytes)
  | set1_curves_list (curves : bytes).

(** [taken] is the plain text [SSL_write] has taken so far, [unfinished] the
    data of a write that could not be completed, which has to be repeated.
    A certificate is checked with the result of the chain's own checks. *)
Class TlsLib (C I SSL SESSION : Type) := {
  SSL_CTX_new : SSLMode -> bool;
  d2i_X509 : bytes -> option C;
  X509_STORE_add_cert : C -> Z;
  SSL_CTX_use_certificate : I -> Z;
  SSL_CTX_use_PrivateKey : I -> Z;
  SSL_CTX_add1_chain_cert : I -> list Z;
  BIO_new_ok : bool;
  SSL_new : SSL_CTX I -> option SSL;
  SSL_set : SSL -> ssl_setting -> SSL;
  SSL_set_session : SSL -> SESSION -> Z * SSL;
  SSL_connect : SSL -> ssl_prog (bool * C) (Z * Z * SSL);
  SSL_accept : SSL -> ssl_prog (bool * C) (Z * Z * SSL);
  SSL_write : SSL -> bytes -> ssl_prog (bool * C) (Z * Z * SSL);
  SSL_read : SSL -> Z -> ssl_prog (bool * C) (Z * Z * bytes * SSL);
  SSL_get_peer_certificate : SSL -> option C;
  X509_check_host : C -> bytes -> Z;
  SSL_get_verify_result : SSL -> Z;
  SSL_session_reused : SSL -> Z;
  DTLSv1_get_timeout : SSL -> option (Z * Z);
  DTLSv1_handle_timeout : SSL -> ssl_prog (bool * C) SSL;
  asks_eof : bool;    (* see [OpenSslStream.OpenSSL] *)
  (* documented behaviour *)
  taken : SSL -> bytes;
  unfinished : SSL -> option bytes;
  idle (s s' : SSL) : Prop := taken s' = taken s /\ unfinished s' = unfinished s;
  new_law : forall ctx s, SSL_new ctx = Some s -> taken s = [] /\ unfinished s = None;
  set_law : forall s x, idle s (SSL_set s x);
  session_law : forall s x, idle s (SSL_set_session s x).2;
  connect_law : forall s, outcomes asks_eof (SSL_connect s) None (fun _ r => idle s r.2);
  accept_law : forall s, outcomes asks_eof (SSL_accept s) None (fun _ r => idle s r.2);
  read_law : forall s n, outcomes asks_eof (SSL_read s n) None (fun _ '(code, err, bs, s') =>
    idle s s' /\ (err = SSL_ERROR_NONE -> 0 < code <= n /\ zlen bs = code));
  handle_timeout_law : forall s, outcomes asks_eof (DTLSv1_handle_timeout s) None (fun _ s' => idle s s');
  timeout_law : forall s sec usec, DTLSv1_get_timeout s = Some (sec, usec) ->
    0 <= sec <= 60 /\ 0 <= usec < 1000000;
  (* SSL_MODE_ENABLE_PARTIAL_WRITE: a record at least; a repeated write has
     the same data *)
  write_law : forall s bs, bs <> [] ->
    outcomes asks_eof (SSL_write s bs) None (fun _ '(code, err, s') =>
      unfinished s = None \/ unfinished s = Some bs ->
      (err = SSL_ERROR_NONE ->
         Z.min (zlen bs) SSL3_RT_MAX_PLAIN_LENGTH <= code <= zlen bs /\
         taken s' = taken s ++ take (Z.to_nat code) bs /\ unfinished s' = None) /\
      (err = SSL_ERROR_WANT_READ \/ err = SSL_ERROR_WANT_WRITE ->
         taken s' = taken s /\ unfinished s' = Some bs) /\
      (err = SSL_ERROR_ZERO_RETURN -> idle s s'));
}.

(** ** The cache of sessions

    [freed] are the sessions whose reference was given back. *)
Record session_cache (SESSION : Type) := mkCache {
  cache_mode : SSLMode;
  sessions_ : gmap bytes SESSION;
  freed : list SESSION
}.
Arguments mkCache {SESSION}.
Arguments cache_mode {SESSION}.
Arguments sessions_ {SESSION}.
Arguments freed {SESSION}.

Definition new_cache {SESSION} (ssl_mode : SSLMode) : session_cache SESSION := mkCache ssl_mode ∅ [].

Definition LookupSession {SESSION} (c : session_cache SESSION) (hostname : bytes) : option SESSION :=
  sessions_ c !! hostname.

Definition AddSession {SESSION} (c : session_cache SESSION) (hostname : bytes) (new_session : SESSION) :
    session_cache SESSION :=
  mkCache (cache_mode c) (<[hostname := new_session]> (sessions_ c))
    (freed c ++ option_list (LookupSession c hostname)).

(** The destructor frees what is left. *)
Definition destroy_cache {SESSION} (c : session_cache SESSION) : list SESSION :=
  freed c ++ (map_to_list (sessions_ c)).*2.

(** ** The adapter *)
Inductive SSLState := SSL_NONE | SSL_WAIT | SSL_CONNECTING | SSL_CONNECTED | SSL_ERROR.
#[export] Instance SSLState_eq_dec : EqDecision SSLState.
Proof. solve_decision. Defined.

Inductive signal := ConnectEvent | ReadEvent | WriteEvent | CloseEvent (err : Z).

(** What a client can observe: signals, data it may consider sent, a finished
    handshake, and data that went through in clear text. *)
Inductive event :=
  | Signalled (s : signal)
  | Accepted (data : bytes)
  | Opened
  | Clear_sent (data : bytes) (result : Z)
  | Clear_received (data : bytes).

(** What is set before the handshake. *)
Record config (C I SESSION : Type) := mkConfig {
  ssl_session_cache_ : option (session_cache SESSION);
  ssl_cert_verifier_ : option (C -> bool);
  role_ : SSLRole;
  ssl_host_name_ : bytes;
  ssl_mode_ : SSLMode;
  ignore_bad_cert_ : bool;
  alpn_protocols_ : list bytes;
  elliptic_curves_ : list bytes
}.
Arguments mkConfig {C I SESSION}.
Arguments ssl_session_cache_ {C I SESSION}.
Arguments ssl_cert_verifier_ {C I SESSION}.
Arguments role_ {C I SESSION}.
Arguments ssl_host_name_ {C I SESSION}.
Arguments ssl_mode_ {C I SESSION}.
Arguments ignore_bad_cert_ {C I SESSION}.
Arguments alpn_protocols_ {C I SESSION}.
Arguments elliptic_curves_ {C I SESSION}.

Record adapter (S C I SSL SESSION : Type) := mkAdapter {
  socket_ : S;
  config_ : config C I SESSION;
  identity_ : option I;
  state_ : SSLState;
  ssl_read_needs_write_ : bool;
  ssl_write_needs_read_ : bool;
  ssl_ : option SSL;
  ssl_ctx_ : option (SSL_CTX I);
  custom_cert_verifier_status_ : bool;
  pending_data_ : bytes;      (* the contents of the Buffer *)
  timers : list Z;            (* MSG_TIMEOUT messages of the current thread *)
  log : list event;
  consents : list C           (* what [ssl_cert_verifier_] consented to since Cleanup *)
}.
Arguments mkAdapter {S C I SSL SESSION}.
Arguments socket_ {S C I SSL SESSION}.
Arguments config_ {S C I SSL SESSION}.
Arguments identity_ {S C I SSL SESSION}.
Arguments state_ {S C I SSL SESSION}.
Arguments ssl_read_needs_write_ {S C I SSL SESSION}.
Arguments ssl_write_needs_read_ {S C I SSL SESSION}.
Arguments ssl_ {S C I SSL SESSION}.
Arguments ssl_ctx_ {S C I SSL SESSION}.
Arguments custom_cert_verifier_status_ {S C I SSL SESSION}.
Arguments pending_data_ {S C I SSL SESSION}.
Arguments timers {S C I SSL SESSION}.
Arguments log {S C I SSL SESSION}.
Arguments consents {S C I SSL SESSION}.

Section Setters.
Context {S C I SSL SESSION : Type}.
Implicit Types a : adapter S C I SSL SESSION.

Definition set_socket a x : adapter S C I SSL SESSION :=
  mkAdapter x (config_ a) (identity_ a) (state_ a) (ssl_read_needs_write_ a) (ssl_write_needs_read_ a)
    (ssl_ a) (ssl_ctx_ a) (custom_cert_verifier_status_ a) (pending_data_ a) (timers a) (log a) (consents a).
Definition set_config a x : adapter S C I SSL SESSION :=
  mkAdapter (socket_ a) x (identity_ a) (state_ a) (ssl_read_needs_write_ a) (ssl_write_needs_read_ a)
    (ssl_ a) (ssl_ctx_ a) (custom_cert_verifier_status_ a) (pending_data_ a) (timers a) (log a) (consents a).
Definition set_identity a x : adapter S C I SSL SESSION :=
  mkAdapter (socket_ a) (config_ a) x (state_ a) (ssl_read_needs_write_ a) (ssl_write_needs_read_ a)
    (ssl_ a) (ssl_ctx_ a) (custom_cert_verifier_status_ a) (pending_data_ a) (timers a) (log a) (consents a).
Definition set_state a x : adapter S C I SSL SESSION :=
  mkAdapter (socket_ a) (config_ a) (identity_ a) x (ssl_read_needs_write_ a) (ssl_write_needs_read_ a)
    (ssl_ a) (ssl_ctx_ a) (custom_cert_verifier_status_ a) (pending_data_ a) (timers a) (log a) (consents a).
Definition set_needs a read_needs_write write_needs_read : adapter S C I SSL SESSION :=
  mkAdapter (socket_ a) (config_ a) (identity_ a) (state_ a) read_needs_write write_needs_read
    (ssl_ a) (ssl_ctx_ a) (custom_cert_verifier_status_ a) (pending_data_ a) (timers a) (log a) (consents a).
Definition set_ssl a x : adapter S C I SSL SESSION :=
  mkAdapter (socket_ a) (config_ a) (identity_ a) (state_ a) (ssl_read_needs_write_ a) (ssl_write_needs_read_ a)
    x (ssl_ctx_ a) (custom_cert_verifier_status_ a) (pending_data_ a) (timers a) (log a) (consents a).
Definition set_ctx a x : adapter S C I SSL SESSION :=
  mkAdapter (socket_ a) (config_ a) (identity_ a) (state_ a) (ssl_read_needs_write_ a) (ssl_write_needs_read_ a)
    (ssl_ a) x (custom_cert_verifier_status_ a) (pending_data_ a) (timers a) (log a) (consents a).
Definition set_pending a x : adapter S C I SSL SESSION :=
  mkAdapter (socket_ a) (config_ a) (identity_ a) (state_ a) (ssl_read_needs_write_ a) (ssl_write_needs_read_ a)
    (ssl_ a) (ssl_ctx_ a) (custom_cert_verifier_status_ a) x (timers a) (log a) (consents a).
Definition set_timers a x : adapter S C I SSL SESSION :=
  mkAdapter (socket_ a) (config_ a) (identity_ a) (state_ a) (ssl_read_needs_write_ a) (ssl_write_needs_read_ a)
    (ssl_ a) (ssl_ctx_ a) (custom_cert_verifier_status_ a) (pending_data_ a) x (log a) (consents a).
Definition add_event a e : adapter S C I SSL SESSION :=
  mkAdapter (socket_ a) (config_ a) (identity_ a) (state_ a) (ssl_read_needs_write_ a) (ssl_write_needs_read_ a)
    (ssl_ a) (ssl_ctx_ a) (custom_cert_verifier_status_ a) (pending_data_ a) (timers a) (log a ++ [e]) (consents a).
(** The verifier consents to a certificate, or everything is forgotten. *)
Definition consent a cert : adapter S C I SSL SESSION :=
  mkAdapter (socket_ a) (config_ a) (identity_ a) (state_ a) (ssl_read_needs_write_ a) (ssl_write_needs_read_ a)
    (ssl_ a) (ssl_ctx_ a) true (pending_data_ a) (timers a) (log a) (consents a ++ [cert]).
Definition forget_consents a : adapter S C I SSL SESSION :=
  mkAdapter (socket_ a) (config_ a) (identity_ a) (state_ a) (ssl_read_needs_write_ a) (ssl_write_needs_read_ a)
    (ssl_ a) (ssl_ctx_ a) false (pending_data_ a) (timers a) (log a) [].
End Setters.

(** TransformAlpnProtocols: each protocol after its length. *)
Fixpoint alpn_loop (protos : list bytes) (transformed_alpn : bytes) : bytes :=
  match protos with
  | [] => transformed_alpn
  | proto :: protos =>
      if (zlen proto =? 0) || (255 <? zlen proto) then []
      else alpn_loop protos (transformed_alpn ++ [u8 (zlen proto)] ++ proto)
  end.
Definition TransformAlpnProtocols (protos : list bytes) : bytes := alpn_loop protos [].

Section Adapter.
Context {S Addr C I SSL SESSION : Type} `{EqDecision Addr} `{Socket S Addr} `{TlsLib C I SSL SESSION}.
Abbreviation Adapter := (adapter S C I SSL SESSION).
Abbreviation SslProg := (ssl_prog (bool * C)).

(** The table of ssl_roots.h. *)
Context (kSSLCertCertificateList : list bytes).

(** *** BIO methods *)
Definition socket_read (s : S) (out : option Z) : bio_result * S :=
  match out with
  | None => (mkBio (-1) false [], s)
  | Some outl =>
      let '(result, data, s) := socket_Recv s outl in
      if 0 <? result then (mkBio result false data, s) else (mkBio (-1) (socket_IsBlocking s) [], s)
  end.

Definition socket_write (s : S) (input : option bytes) : bio_result * S :=
  match input with
  | None => (mkBio (-1) false [], s)
  | Some bs =>
      let '(result, s) := socket_Send s bs in
      if 0 <? result then (mkBio result false [], s) else (mkBio (-1) (socket_IsBlocking s) [], s)
  end.

(** [BIO_CTRL_EOF] looks for the socket in the call's own argument, which
    BIO_eof leaves null. *)
Definition socket_ctrl (cmd : Z) : res Z :=
  if cmd =? OpenSslStream.BIO_CTRL_RESET then Ok 0
  else if cmd =? OpenSslStream.BIO_CTRL_EOF then Fail NullDeref
  else if (cmd =? OpenSslStream.BIO_CTRL_WPENDING) || (cmd =? OpenSslStream.BIO_CTRL_PENDING) then Ok 0
  else if cmd =? OpenSslStream.BIO_CTRL_FLUSH then Ok 1
  else Ok 0.

(** *** Certificates *)

(** [ssl_cert_verifier_] may only override errors. *)
Definition SSLVerifyInternal (a : Adapter) (previous_status : bool) (cert : C) : bool * Adapter :=
  match ssl_cert_verifier_ (config_ a) with
  | Some verify =>
      if previous_status then (previous_status, a)
      else if verify cert then (true, consent a cert) else (previous_status, a)
  | None => (previous_status, a)
  end.

Definition SSLVerifyCallback (a : Adapter) (status : bool) (cert : C) : bool * Adapter :=
  let '(status, a) := SSLVerifyInternal a status cert in
  if negb status && ignore_bad_cert_ (config_ a) then (true, a) else (status, a).

Definition VerifyPeerCertMatchesHost (ssl : SSL) (host : bytes) : bool :=
  if bool_decide (host = []) then false
  else
    match SSL_get_peer_certificate ssl with
    | None => false
    | Some certificate => X509_check_host certificate host =? 1
    end.

Definition SSLPostConnectionCheck (a : Adapter) (ssl : SSL) (host : bytes) : bool :=
  let is_valid_cert_name :=
    VerifyPeerCertMatchesHost ssl host &&
    ((SSL_get_verify_result ssl =? X509_V_OK) || custom_cert_verifier_status_ a) in
  if negb is_valid_cert_name && ignore_bad_cert_ (config_ a) then true else is_valid_cert_name.

(** The number of roots of the table that were added. *)
Definition LoadBuiltinSSLRootCertificates : bool :=
  let add n bs :=
    match d2i_X509 bs with
    | Some cert => if X509_STORE_add_cert cert =? 0 then n else n + 1
    | None => n
    end in
  0 <? fold_left add kSSLCertCertificateList 0.

Definition cipher_list : bytes :=
  lit "ALL:!SHA256:!SHA384:!aPSK:!ECDSA+SHA1:!ADH:!LOW:!EXP:!MD5:!3DES".

Definition CreateContext (mode : SSLMode) (enable_cache : bool) : option (SSL_CTX I) :=
  if negb (SSL_CTX_new mode) then None
  else if negb LoadBuiltinSSLRootCertificates then None
  else Some (mkCtx mode true SSL_VERIFY_PEER 4 cipher_list (bool_decide (mode = OpenSslStream.SSL_MODE_DTLS))
               (if enable_cache then Some SSL_SESS_CACHE_CLIENT else None) None).

(** *** Running OpenSSL *)
Fixpoint run {X} (p : SslProg X) (a : Adapter) : res (X * Adapter) :=
  match p with
  | OpenSslStream.ssl_ret x => Ok (x, a)
  | OpenSslStream.ssl_act act k =>
      match act return (OpenSslStream.answer act -> SslProg X) -> res (X * Adapter) with
      | OpenSslStream.verify_peer (status, cert) => fun k =>
          let '(b, a) := SSLVerifyCallback a status cert in run (k b) a
      | OpenSslStream.bio_read out => fun k =>
          let '(r, s) := socket_read (socket_ a) out in run (k r) (set_socket a s)
      | OpenSslStream.bio_write input => fun k =>
          let '(r, s) := socket_write (socket_ a) input in run (k r) (set_socket a s)
      | OpenSslStream.bio_ctrl cmd => fun k => r ← socket_ctrl cmd; run (k r) a
      end k
  end.

Definition SetError (a : Adapter) (error : Z) : Adapter := set_socket a (socket_SetError (socket_ a) error).

(** [Error(context, err, false)] *)
Definition Error (a : Adapter) (err : Z) : Adapter := SetError (set_state a SSL_ERROR) err.

Definition Cleanup (a : Adapter) : Adapter :=
  let a := set_needs (set_state a SSL_NONE) false false in
  set_timers (set_identity (set_ctx (set_ssl (set_pending (forget_consents a) []) None) None) None) [].

(** *** Sending and receiving *)

(** [from_pending]: whether the data is that of [pending_data_] itself. *)
Definition DoSslWrite (a : Adapter) (from_pending : bool) (bs : bytes) : res (Z * Z * Adapter) :=
  _ ← require (bool_decide (pending_data_ a = []) || from_pending) AssertFailed;
  let a := set_needs a (ssl_read_needs_write_ a) false in
  _ ← require (zlen bs <=? INT_MAX) AssertFailed;
  ssl ← from_opt NullDeref (ssl_ a);
  '((ret, error, ssl), a) ← run (SSL_write ssl bs) a;
  let a := set_ssl a (Some ssl) in
  if error =? SSL_ERROR_NONE then Ok (ret, error, a)
  else if error =? SSL_ERROR_WANT_READ then
    Ok (SOCKET_ERROR, error, SetError (set_needs a (ssl_read_needs_write_ a) true) EWOULDBLOCK)
  else if (error =? SSL_ERROR_WANT_WRITE) || (error =? SSL_ERROR_ZERO_RETURN) then
    Ok (SOCKET_ERROR, error, SetError a EWOULDBLOCK)
  else Ok (SOCKET_ERROR, error, Error a (if ret =? 0 then -1 else ret)).

(** The data that Send returns as sent. *)
Definition accept_data (a : Adapter) (ret : Z) (bs : bytes) : Z * Adapter :=
  (ret, if 0 <? ret then add_event a (Accepted (take (Z.to_nat ret) bs)) else a).

Definition send_new (a : Adapter) (bs : bytes) : res (Z * Adapter) :=
  if bool_decide (bs = []) then Ok (0, a)
  else
    '(ret, error, a) ← DoSslWrite a false bs;
    if (error =? SSL_ERROR_WANT_READ) || (error =? SSL_ERROR_WANT_WRITE) then
      _ ← require (bool_decide (pending_data_ a = [])) AssertFailed;
      Ok (accept_data (set_pending a bs) (zlen bs) bs)
    else Ok (accept_data a ret bs).

Definition Send (a : Adapter) (bs : bytes) : res (Z * Adapter) :=
  match state_ a with
  | SSL_NONE =>
      let '(r, s) := socket_Send (socket_ a) bs in
      Ok (r, add_event (set_socket a s) (Clear_sent bs r))
  | SSL_WAIT | SSL_CONNECTING => Ok (SOCKET_ERROR, SetError a ENOTCONN)
  | SSL_ERROR => Ok (SOCKET_ERROR, a)
  | SSL_CONNECTED =>
      if bool_decide (pending_data_ a = []) then send_new a bs
      else
        '(ret, _, a) ← DoSslWrite a true (pending_data_ a);
        if negb (ret =? i32 (zlen (pending_data_ a))) then Ok (SOCKET_ERROR, SetError a EWOULDBLOCK)
        else send_new (set_pending a []) bs
  end.

Definition SendTo (a : Adapter) (bs : bytes) (addr : Addr) : res (Z * Adapter) :=
  if bool_decide (socket_GetState (socket_ a) = CS_CONNECTED) &&
     bool_decide (addr = socket_GetRemoteAddress (socket_ a))
  then Send a bs
  else Ok (SOCKET_ERROR, SetError a ENOTCONN).

(** The value and the data received. *)
Definition Recv (a : Adapter) (cb : Z) : res (Z * bytes * Adapter) :=
  match state_ a with
  | SSL_NONE =>
      let '(r, data, s) := socket_Recv (socket_ a) cb in
      Ok (r, data, add_event (set_socket a s) (Clear_received data))
  | SSL_WAIT | SSL_CONNECTING => Ok (SOCKET_ERROR, [], SetError a ENOTCONN)
  | SSL_ERROR => Ok (SOCKET_ERROR, [], a)
  | SSL_CONNECTED =>
      if cb =? 0 then Ok (0, [], a)
      else
        let a := set_needs a false (ssl_write_needs_read_ a) in
        _ ← require (cb <=? INT_MAX) AssertFailed;
        ssl ← from_opt NullDeref (ssl_ a);
        '((code, error, data, ssl), a) ← run (SSL_read ssl cb) a;
        let a := set_ssl a (Some ssl) in
        if error =? SSL_ERROR_NONE then Ok (code, data, a)
        else if (error =? SSL_ERROR_WANT_READ) || (error =? SSL_ERROR_ZERO_RETURN) then
          Ok (SOCKET_ERROR, [], SetError a EWOULDBLOCK)
        else if error =? SSL_ERROR_WANT_WRITE then
          Ok (SOCKET_ERROR, [], SetError (set_needs a true (ssl_write_needs_read_ a)) EWOULDBLOCK)
        else Ok (SOCKET_ERROR, [], Error a (if code =? 0 then -1 else code))
  end.

Definition RecvFrom (a : Adapter) (cb : Z) : res (Z * bytes * option Addr * Adapter) :=
  if bool_decide (socket_GetState (socket_ a) = CS_CONNECTED) then
    '(r, data, a) ← Recv a cb; Ok (r, data, Some (socket_GetRemoteAddress (socket_ a)), a)
  else Ok (SOCKET_ERROR, [], None, SetError a ENOTCONN).

Definition Close (a : Adapter) : Z * Adapter :=
  let a := set_state (Cleanup a) SSL_NONE in
  let '(r, s) := socket_Close (socket_ a) in (r, set_socket a s).

Definition GetState (a : Adapter) : ConnState :=
  let state := socket_GetState (socket_ a) in
  if bool_decide (state = CS_CONNECTED) &&
     (bool_decide (state_ a = SSL_WAIT) || bool_decide (state_ a = SSL_CONNECTING))
  then CS_CONNECTING else state.

Definition IsResumedSession (a : Adapter) : bool :=
  match ssl_ a with Some ssl => SSL_session_reused ssl =? 1 | None => false end.

(** *** Signals

    What the client's slots do with the adapter when it signals; none of
    these calls signals in turn. *)
Inductive call := CSend (bs : bytes) | CRecv (cb : Z) | CClose.

Context (client : signal -> list event -> list call).

Definition do_call (a : Adapter) (c : call) : res Adapter :=
  match c with
  | CSend bs => '(_, a) ← Send a bs; Ok a
  | CRecv cb => '(_, _, a) ← Recv a cb; Ok a
  | CClose => Ok (Close a).2
  end.

Fixpoint do_calls (a : Adapter) (cs : list call) : res Adapter :=
  match cs with [] => Ok a | c :: cs => a ← do_call a c; do_calls a cs end.

Definition raise (a : Adapter) (s : signal) : res Adapter :=
  let a := add_event a (Signalled s) in do_calls a (client s (log a)).

(** [Error(context, err)] *)
Definition Error_signal (a : Adapter) (err : Z) : res Adapter := raise (Error a err) (CloseEvent err).

(** *** The handshake *)
Definition ContinueSSL (a : Adapter) : res (Z * Adapter) :=
  _ ← require (bool_decide (state_ a = SSL_CONNECTING)) AssertFailed;
  let a := set_timers a [] in
  ssl ← from_opt NullDeref (ssl_ a);
  '((code, error, ssl), a) ←
    run (if decide (role_ (config_ a) = OpenSslStream.SSL_CLIENT) then SSL_connect ssl else SSL_accept ssl) a;
  let a := set_ssl a (Some ssl) in
  if error =? SSL_ERROR_NONE then
    if negb (SSLPostConnectionCheck a ssl (ssl_host_name_ (config_ a))) then Ok (-1, Cleanup a)
    else
      a ← raise (add_event (set_state a SSL_CONNECTED) Opened) ConnectEvent;
      Ok (0, a)
  else if error =? SSL_ERROR_WANT_READ then
    match DTLSv1_get_timeout ssl with
    | None => Ok (0, a)
    | Some (tv_sec, tv_usec) =>
        let delay := i32 (tv_sec * 1000 + tv_usec ÷ 1000) in
        _ ← require (0 <=? delay) AssertFailed;
        Ok (0, set_timers a (timers a ++ [delay]))
    end
  else if error =? SSL_ERROR_WANT_WRITE then Ok (0, a)
  else Ok (if code =? 0 then -1 else code, a).

Definition ConfigureIdentity (identity : I) : bool :=
  (SSL_CTX_use_certificate identity =? 1) && (SSL_CTX_use_PrivateKey identity =? 1)
  && forallb (fun r => r =? 1) (SSL_CTX_add1_chain_cert identity).

(** The name of the host, and the session cached for it. *)
Definition apply_session (a : Adapter) (ssl : SSL) : option SSL :=
  let host := ssl_host_name_ (config_ a) in
  if bool_decide (host = []) then Some ssl
  else
    let ssl := SSL_set ssl (set_tlsext_host_name (c_str host)) in
    match cache ← ssl_session_cache_ (config_ a); LookupSession cache host with
    | None => Some ssl
    | Some cached =>
        let '(r, ssl) := SSL_set_session ssl cached in if r =? 0 then None else Some ssl
    end.

(** The connection with its settings, or nothing if the cached session is
    refused. *)
Definition setup_ssl (a : Adapter) (ssl : SSL) : option SSL :=
  let c := config_ a in
  let ssl := SSL_set ssl (set_mode (Z.lor SSL_MODE_ENABLE_PARTIAL_WRITE SSL_MODE_ACCEPT_MOVING_WRITE_BUFFER)) in
  ssl ← apply_session a ssl;
  let ssl :=
    if bool_decide (alpn_protocols_ c = []) then ssl
    else
      let tls_alpn_string := TransformAlpnProtocols (alpn_protocols_ c) in
      if bool_decide (tls_alpn_string = []) then ssl else SSL_set ssl (set_alpn_protos tls_alpn_string) in
  Some (if bool_decide (elliptic_curves_ c = []) then ssl
        else SSL_set ssl (set1_curves_list (c_str (StringEncode.join (elliptic_curves_ c) (chr ":"))))).

(** The body of BeginSSL; a result other than 0 makes EarlyExitCatcher clean
    up. *)
Definition begin_ssl (a : Adapter) : res (Z * Adapter) :=
  _ ← require (bool_decide (state_ a = SSL_CONNECTING)) AssertFailed;
  a ← match ssl_session_cache_ (config_ a) with
      | Some _ => Ok a
      | None =>
          _ ← require (match ssl_ctx_ a with None => true | Some _ => false end) AssertFailed;
          Ok (set_ctx a (CreateContext (ssl_mode_ (config_ a)) false))
      end;
  match ssl_ctx_ a with
  | None => Ok (-1, a)
  | Some ctx =>
      if match identity_ a with Some i => negb (ConfigureIdentity i) | None => false end then Ok (-1, a)
      else if negb BIO_new_ok then Ok (-1, a)
      else
        let ctx := match identity_ a with Some i => with_identity ctx i | None => ctx end in
        let a := set_ctx a (Some ctx) in
        match SSL_new ctx with
        | None => Ok (-1, a)
        | Some ssl =>
            match setup_ssl a ssl with
            | None => Ok (-1, set_ssl a (Some ssl))
            | Some ssl => ContinueSSL (set_ssl a (Some ssl))
            end
        end
  end.

Definition BeginSSL (a : Adapter) : res (Z * Adapter) :=
  '(err, a) ← begin_ssl a; Ok (err, if err =? 0 then a else Cleanup a).

Definition set_host (a : Adapter) (hostname : bytes) : Adapter :=
  let c := config_ a in
  set_config a (mkConfig (ssl_session_cache_ c) (ssl_cert_verifier_ c) (role_ c) hostname (ssl_mode_ c)
                  (ignore_bad_cert_ c) (alpn_protocols_ c) (elliptic_curves_ c)).

Definition StartSSL (a : Adapter) (hostname : bytes) : res (Z * Adapter) :=
  if negb (bool_decide (state_ a = SSL_NONE)) then Ok (-1, a)
  else
    let a := set_host a hostname in
    if negb (bool_decide (socket_GetState (socket_ a) = CS_CONNECTED)) then Ok (0, set_state a SSL_WAIT)
    else
      '(err, a) ← BeginSSL (set_state a SSL_CONNECTING);
      if err =? 0 then Ok (0, a) else Ok (err, Error a err).

(** *** Events of the socket and of the thread *)
Definition OnConnectEvent (a : Adapter) : res Adapter :=
  if negb (bool_decide (state_ a = SSL_WAIT)) then
    _ ← require (bool_decide (state_ a = SSL_NONE)) AssertFailed;
    raise a ConnectEvent
  else
    '(err, a) ← BeginSSL (set_state a SSL_CONNECTING);
    if err =? 0 then Ok a else raise a (CloseEvent err).

Definition continue_or_fail (a : Adapter) : res Adapter :=
  '(err, a) ← ContinueSSL a; if err =? 0 then Ok a else Error_signal a err.

Definition OnReadEvent (a : Adapter) : res Adapter :=
  match state_ a with
  | SSL_NONE => raise a ReadEvent
  | SSL_CONNECTING => continue_or_fail a
  | SSL_CONNECTED =>
      a ← (if ssl_write_needs_read_ a then raise a WriteEvent else Ok a);
      raise a ReadEvent
  | _ => Ok a
  end.

(** A further try at the data of a write that was blocked. *)
Definition write_pending (a : Adapter) : res Adapter :=
  if bool_decide (pending_data_ a = []) then Ok a
  else
    '(ret, _, a) ← DoSslWrite a true (pending_data_ a);
    Ok (if ret =? i32 (zlen (pending_data_ a)) then set_pending a [] else a).

Definition OnWriteEvent (a : Adapter) : res Adapter :=
  match state_ a with
  | SSL_NONE => raise a WriteEvent
  | SSL_CONNECTING => continue_or_fail a
  | SSL_CONNECTED =>
      a ← (if ssl_read_needs_write_ a then raise a ReadEvent else Ok a);
      a ← write_pending a;
      raise a WriteEvent
  | _ => Ok a
  end.

Definition OnCloseEvent (a : Adapter) (err : Z) : res Adapter := raise a (CloseEvent err).

(** The timer's message: its result is not looked at. *)
Definition OnMessage (a : Adapter) : res Adapter :=
  ssl ← from_opt NullDeref (ssl_ a);
  '(ssl, a) ← run (DTLSv1_handle_timeout ssl) a;
  '(_, a) ← ContinueSSL (set_ssl a (Some ssl));
  Ok a.

(** *** Settings *)
Definition new_adapter (socket : S) (ssl_session_cache : option (session_cache SESSION))
    (cache_ctx : option (SSL_CTX I)) (ssl_cert_verifier : option (C -> bool)) : Adapter :=
  mkAdapter socket
    (mkConfig ssl_session_cache ssl_cert_verifier OpenSslStream.SSL_CLIENT [] OpenSslStream.SSL_MODE_TLS false [] [])
    None SSL_NONE false false None (match ssl_session_cache with Some _ => cache_ctx | None => None end)
    false [] [] [] [].

Inductive setting :=
  | SetIgnoreBadCert (ignore : bool)
  | SetAlpnProtocols (protos : list bytes)
  | SetEllipticCurves (curves : list bytes)
  | SetMode (mode : SSLMode)
  | SetCertVerifier (ssl_cert_verifier : option (C -> bool))
  | SetRole (role : SSLRole).

Definition no_context (a : Adapter) : bool := match ssl_ctx_ a with None => true | Some _ => false end.

Definition change (a : Adapter) (x : setting) : res Adapter :=
  let c := config_ a in
  match x with
  | SetIgnoreBadCert b =>
      Ok (set_config a (mkConfig (ssl_session_cache_ c) (ssl_cert_verifier_ c) (role_ c) (ssl_host_name_ c)
            (ssl_mode_ c) b (alpn_protocols_ c) (elliptic_curves_ c)))
  | SetAlpnProtocols l =>
      Ok (set_config a (mkConfig (ssl_session_cache_ c) (ssl_cert_verifier_ c) (role_ c) (ssl_host_name_ c)
            (ssl_mode_ c) (ignore_bad_cert_ c) l (elliptic_curves_ c)))
  | SetEllipticCurves l =>
      Ok (set_config a (mkConfig (ssl_session_cache_ c) (ssl_cert_verifier_ c) (role_ c) (ssl_host_name_ c)
            (ssl_mode_ c) (ignore_bad_cert_ c) (alpn_protocols_ c) l))
  | SetMode m =>
      _ ← require (no_context a) AssertFailed;
      _ ← require (bool_decide (state_ a = SSL_NONE)) AssertFailed;
      Ok (set_config a (mkConfig (ssl_session_cache_ c) (ssl_cert_verifier_ c) (role_ c) (ssl_host_name_ c)
            m (ignore_bad_cert_ c) (alpn_protocols_ c) (elliptic_curves_ c)))
  | SetCertVerifier v =>
      _ ← require (no_context a) AssertFailed;
      Ok (set_config a (mkConfig (ssl_session_cache_ c) v (role_ c) (ssl_host_name_ c)
            (ssl_mode_ c) (ignore_bad_cert_ c) (alpn_protocols_ c) (elliptic_curves_ c)))
  | SetRole r =>
      Ok (set_config a (mkConfig (ssl_session_cache_ c) (ssl_cert_verifier_ c) r (ssl_host_name_ c)
            (ssl_mode_ c) (ignore_bad_cert_ c) (alpn_protocols_ c) (elliptic_curves_ c)))
  end.

Definition SetIdentity (a : Adapter) (identity : I) : res Adapter :=
  _ ← require (match identity_ a with None => true | Some _ => false end) AssertFailed;
  Ok (set_identity a (Some identity)).

(** OpenSSL has a session to resume later. *)
Definition set_cache (a : Adapter) (cache : session_cache SESSION) : Adapter :=
  let c := config_ a in
  set_config a (mkConfig (Some cache) (ssl_cert_verifier_ c) (role_ c) (ssl_host_name_ c) (ssl_mode_ c)
                  (ignore_bad_cert_ c) (alpn_protocols_ c) (elliptic_curves_ c)).

Definition NewSSLSessionCallback (a : Adapter) (session : SESSION) : res Adapter :=
  cache ← from_opt AssertFailed (ssl_session_cache_ (config_ a));
  Ok (set_cache a (AddSession cache (ssl_host_name_ (config_ a)) session)).

(** *** Runs: settings, calls of the client, events of the socket, the timer

    [OBelow]: what the network does to the socket.
    [OSession]: OpenSSL hands a session over; [OShared]: another adapter of the
    factory has changed the cache they share. *)
Inductive op :=
  | OBelow (s : S)
  | OSet (x : setting)
  | OIdentity (identity : I)
  | OSession (session : SESSION)
  | OShared (cache : session_cache SESSION)
  | OCall (c : call)
  | OStartSSL (hostname : bytes)
  | OConnect
  | ORead
  | OWrite
  | OClosed (err : Z)
  | OTimer.

Definition perform (a : Adapter) (o : op) : res Adapter :=
  match o with
  | OBelow s => Ok (set_socket a s)
  | OSet x => change a x
  | OIdentity identity => SetIdentity a identity
  | OSession session => NewSSLSessionCallback a session
  | OShared cache =>
      Ok (match ssl_session_cache_ (config_ a) with Some _ => set_cache a cache | None => a end)
  | OCall c => do_call a c
  | OStartSSL hostname => '(_, a) ← StartSSL a hostname; Ok a
  | OConnect => OnConnectEvent a
  | ORead => OnReadEvent a
  | OWrite => OnWriteEvent a
  | OClosed err => OnCloseEvent a err
  | OTimer => match timers a with [] => Ok a | _ :: rest => OnMessage (set_timers a rest) end
  end.

Fixpoint performs (a : Adapter) (os : list op) : res Adapter :=
  match os with [] => Ok a | o :: os => a ← perform a o; performs a os end.

(** ** The invariant

    [accepted] is the data taken over since the connection was opened. *)
Fixpoint accepted_from (acc : bytes) (l : list event) : bytes :=
  match l with
  | [] => acc
  | Opened :: l => accepted_from [] l
  | Accepted d :: l => accepted_from (acc ++ d) l
  | _ :: l => accepted_from acc l
  end.
Definition accepted (l : list event) : bytes := accepted_from [] l.
Arguments accepted : simpl never.

Lemma accepted_from_snoc acc l e :
  accepted_from acc (l ++ [e]) =
    match e with Opened => [] | Accepted d => accepted_from acc l ++ d | _ => accepted_from acc l end.
Proof. revert acc. induction l as [|e' l IH]; intros acc; [by destruct e|]. cbn. destruct e'; apply IH. Qed.

Lemma accepted_snoc l e :
  accepted (l ++ [e]) = match e with Opened => [] | Accepted d => accepted l ++ d | _ => accepted l end.
Proof. apply accepted_from_snoc. Qed.

(** Between OpenSSL and the client: what was accepted is what OpenSSL took,
    and the data of the write it has to repeat. *)
Definition stream_ok (pending : bytes) (l : list event) (ssl : SSL) : Prop :=
  accepted l = taken ssl ++ pending /\
  unfinished ssl = if bool_decide (pending = []) then None else Some pending.

Definition wf (a : Adapter) : Prop :=
  match state_ a with
  | SSL_NONE | SSL_WAIT =>
      pending_data_ a = [] /\ timers a = [] /\ (ssl_session_cache_ (config_ a) = None -> ssl_ctx_ a = None)
  | SSL_CONNECTING =>
      pending_data_ a = [] /\ (length (timers a) <= 1)%nat /\
      exists ssl, ssl_ a = Some ssl /\ taken ssl = [] /\ unfinished ssl = None
  | SSL_CONNECTED =>
      timers a = [] /\ zlen (pending_data_ a) <= SSL3_RT_MAX_PLAIN_LENGTH /\
      exists ssl, ssl_ a = Some ssl /\ stream_ok (pending_data_ a) (log a) ssl
  | SSL_ERROR =>
      timers a = [] /\ zlen (pending_data_ a) <= SSL3_RT_MAX_PLAIN_LENGTH /\
      (pending_data_ a = [] \/ is_Some (ssl_ a))
  end.

(** Calls the theorems allow: at most a record is sent at once. *)
Definition small_call (c : call) : Prop :=
  match c with CSend bs => zlen bs <= SSL3_RT_MAX_PLAIN_LENGTH | CRecv cb => 0 <= cb <= INT_MAX | CClose => True end.

(** Looking for the end of file asks a null pointer for the socket: the fault
    of a library that asks for it. *)
Definition eof_asked (e : fault) : Prop := asks_eof = true /\ e = NullDeref.

Abbreviation settles := (safely eof_asked).
#[local] Arguments safely : simpl never.

(** A run of OpenSSL changes the socket, and notes the verifier's consent. *)
Definition with_consents (a : Adapter) (b : bool) (l : list C) : Adapter :=
  mkAdapter (socket_ a) (config_ a) (identity_ a) (state_ a) (ssl_read_needs_write_ a)
    (ssl_write_needs_read_ a) (ssl_ a) (ssl_ctx_ a) b (pending_data_ a) (timers a) (log a) l.

Definition ran (a a' : Adapter) : Prop :=
  exists s c, a' = with_consents (set_socket a s) (fst c) (snd c).

Lemma ran_refl a : ran a a.
Proof. exists (socket_ a), (custom_cert_verifier_status_ a, consents a). by destruct a. Qed.

Lemma ran_trans a b c : ran a b -> ran b c -> ran a c.
Proof. intros (s & x & ->) (s' & x' & ->). by exists s', x'. Qed.

Lemma ran_set_socket a s : ran a (set_socket a s).
Proof. exists s, (custom_cert_verifier_status_ a, consents a). by destruct a. Qed.

Lemma verify_ran a status cert : ran a (SSLVerifyCallback a status cert).2.
Proof.
  assert (ran a (SSLVerifyInternal a status cert).2) as Hi.
  { unfold SSLVerifyInternal. repeat (case_match; cbn); try apply ran_refl.
    eexists (socket_ a), (true, _). by destruct a. }
  unfold SSLVerifyCallback. destruct (SSLVerifyInternal a status cert) as [b a']. cbn in Hi.
  by case_match.
Qed.

Lemma run_ok {X} (p : SslProg X) v post a :
  outcomes asks_eof p v post ->
  settles (run p a) (fun r => (exists v', post v' r.1) /\ ran a r.2).
Proof.
  revert v a. induction p as [x|act k IH]; intros v a Hp.
  - apply safely_ok. split; [by exists v|apply ran_refl].
  - assert (forall ans v' a', ran a a' -> outcomes asks_eof (k ans) v' post ->
      settles (run (k ans) a') (fun r => (exists v', post v' r.1) /\ ran a r.2)) as Hk.
    { intros ans v' a' Hr Ho. eapply safely_weaken; [by apply (IH ans v')|].
      intros [x a''] [? Hr']. split; [done|]. cbn in *. by eapply ran_trans. }
    destruct act as [[status cert]|out|input|cmd]; cbn [outcomes run] in *.
    + pose proof (verify_ran a status cert) as Hr.
      destruct (SSLVerifyCallback a status cert) as [b a']. by eapply Hk.
    + destruct (socket_read (socket_ a) out) as [r s]. eapply Hk; [apply ran_set_socket|apply Hp].
    + destruct (socket_write (socket_ a) input) as [r s]. eapply Hk; [apply ran_set_socket|apply Hp].
    + destruct Hp as [Hc Hp]. unfold socket_ctrl.
      destruct (Z.eqb_spec cmd OpenSslStream.BIO_CTRL_EOF) as [->|Hne].
      { by split; [apply Hc|]. }
      repeat case_match; rewrite bind_ok; (eapply Hk; [apply ran_refl|apply Hp]).
Qed.

(** *** Writing *)
Definition kept (a a' : Adapter) : Prop :=
  config_ a' = config_ a /\ pending_data_ a' = pending_data_ a /\ timers a' = timers a /\ log a' = log a.

Inductive written (a : Adapter) (ssl : SSL) (bs : bytes) : Z * Z * Adapter -> Prop :=
  | written_all a' ssl' :
      kept a a' -> state_ a' = state_ a -> ssl_ a' = Some ssl' ->
      taken ssl' = taken ssl ++ bs -> unfinished ssl' = None ->
      written a ssl bs (zlen bs, SSL_ERROR_NONE, a')
  | written_later err a' ssl' :
      kept a a' -> state_ a' = state_ a -> ssl_ a' = Some ssl' ->
      err = SSL_ERROR_WANT_READ \/ err = SSL_ERROR_WANT_WRITE ->
      taken ssl' = taken ssl -> unfinished ssl' = Some bs ->
      written a ssl bs (SOCKET_ERROR, err, a')
  | written_nothing a' ssl' :
      kept a a' -> state_ a' = state_ a -> ssl_ a' = Some ssl' -> idle ssl ssl' ->
      written a ssl bs (SOCKET_ERROR, SSL_ERROR_ZERO_RETURN, a')
  | write_failed err a' :
      kept a a' -> state_ a' = SSL_ERROR -> is_Some (ssl_ a') -> err <> SSL_ERROR_WANT_READ -> err <> SSL_ERROR_WANT_WRITE ->
      written a ssl bs (SOCKET_ERROR, err, a').

Lemma DoSslWrite_ok a from_pending bs ssl :
  ssl_ a = Some ssl -> bs <> [] -> zlen bs <= SSL3_RT_MAX_PLAIN_LENGTH ->
  pending_data_ a = [] \/ from_pending = true ->
  unfinished ssl = None \/ unfinished ssl = Some bs ->
  settles (DoSslWrite a from_pending bs) (written a ssl bs).
Proof.
  intros Hs Hne Hlen Hp Hu. unfold DoSslWrite.
  assert (bool_decide (pending_data_ a = []) || from_pending = true) as ->.
  { destruct Hp as [-> | ->]; [by rewrite bool_decide_eq_true_2|apply orb_true_r]. }
  cbn [require]. rewrite bind_ok. rewrite (proj2 (Z.leb_le _ _)) by (unfold INT_MAX, SSL3_RT_MAX_PLAIN_LENGTH in *; lia).
  cbn [require]. rewrite bind_ok. change (ssl_ (set_needs a _ _)) with (ssl_ a). rewrite Hs, from_opt_Some, bind_ok.
  eapply safely_bind; [by eapply run_ok, write_law|].
  intros [[[ret err] ssl'] a'] [[_ Hl] (s & c & Ha)]. cbn [fst snd] in *. subst a'.
  destruct (Hl Hu) as (Hn & Hw & Hz).
  destruct (Z.eqb_spec err SSL_ERROR_NONE) as [->|Hnn].
  { apply safely_ok. destruct (Hn eq_refl) as (Hr & Ht & Hu').
    assert (ret = zlen bs) as -> by (unfold SSL3_RT_MAX_PLAIN_LENGTH in *; lia).
    unfold zlen in Ht. rewrite Nat2Z.id, take_ge in Ht by lia. by econstructor. }
  destruct (Z.eqb_spec err SSL_ERROR_WANT_READ) as [->|Hnr].
  { apply safely_ok. destruct (Hw (or_introl eq_refl)). eapply written_later; [done..|by left|done|done]. }
  destruct (Z.eqb_spec err SSL_ERROR_WANT_WRITE) as [->|Hnw]; cbn [orb].
  { apply safely_ok. destruct (Hw (or_intror eq_refl)). eapply written_later; [done..|by right|done|done]. }
  destruct (Z.eqb_spec err SSL_ERROR_ZERO_RETURN) as [->|Hnz].
  { apply safely_ok. eapply written_nothing; [done..|]. by apply Hz. }
  apply safely_ok. by eapply write_failed.
Qed.

(** *** Calls *)
Lemma wf_SetError a e : wf a -> wf (SetError a e).
Proof. done. Qed.

Lemma wf_Cleanup a : wf (Cleanup a).
Proof. unfold wf. cbn. repeat (split; [reflexivity|]). intros _. reflexivity. Qed.

Lemma send_new_ok a bs ssl :
  zlen bs <= SSL3_RT_MAX_PLAIN_LENGTH ->
  state_ a = SSL_CONNECTED -> timers a = [] -> pending_data_ a = [] ->
  ssl_ a = Some ssl -> accepted (log a) = taken ssl -> unfinished ssl = None ->
  settles (send_new a bs) (fun r => wf r.2).
Proof.
  intros Hlen Hst Ht Hp Hs Ha Hu. unfold send_new. case_bool_decide as Hb.
  - apply safely_ok. cbn. unfold wf. rewrite Hst. split; [done|]. split; [by rewrite Hp|]. exists ssl. split; [done|].
    rewrite Hp. split; [by rewrite app_nil_r|done].
  - eapply safely_bind; [apply (DoSslWrite_ok a false bs ssl); auto|].
    intros r Hw. inversion Hw as [a' ssl' (Hc & Hp' & Ht' & Hl) Hst' Hs' Hta Hun
      |err a' ssl' (Hc & Hp' & Ht' & Hl) Hst' Hs' Herr Hta Hun|a' ssl' (Hc & Hp' & Ht' & Hl) Hst' Hs' [Hta Hun]
      |err a' (Hc & Hp' & Ht' & Hl) Hst' Hs' Hr Hww]; subst r.
    + cbn. apply safely_ok. unfold accept_data. cbn [snd].
      rewrite (proj2 (Z.ltb_lt _ _)) by (destruct bs; [done|]; rewrite zlen_cons; pose proof (zlen_nonneg bs); lia).
      unfold wf. cbn. rewrite Hst', Hst. split; [congruence|]. split; [by rewrite Hp', Hp|]. exists ssl'. split; [done|].
      rewrite Hp', Hp. split; [|done]. rewrite accepted_snoc, Hl, Ha, Hta, app_nil_r.
      unfold zlen. by rewrite Nat2Z.id, take_ge by lia.
    + assert ((err =? SSL_ERROR_WANT_READ) || (err =? SSL_ERROR_WANT_WRITE) = true) as ->
        by (by destruct Herr as [-> | ->]).
      rewrite Hp', Hp, bool_decide_eq_true_2 by done. cbn [require]. rewrite bind_ok. apply safely_ok.
      unfold accept_data. cbn [snd].
      rewrite (proj2 (Z.ltb_lt _ _)) by (destruct bs; [done|]; rewrite zlen_cons; pose proof (zlen_nonneg bs); lia).
      unfold wf. cbn. rewrite Hst', Hst. split; [congruence|]. split; [done|]. exists ssl'. split; [done|].
      split; [|by rewrite bool_decide_eq_false_2]. rewrite accepted_snoc, Hl, Ha, Hta.
      unfold zlen. by rewrite Nat2Z.id, take_ge by lia.
    + cbn. apply safely_ok. cbn. unfold wf. rewrite Hst', Hst. split; [congruence|]. split; [by rewrite Hp', Hp|]. exists ssl'.
      split; [done|]. rewrite Hp', Hp, Hl. split; [by rewrite app_nil_r, Hta|]. by rewrite Hun.
    + rewrite (proj2 (Z.eqb_neq err _)), (proj2 (Z.eqb_neq err _)) by done. cbn. apply safely_ok. cbn.
      unfold wf. rewrite Hst'. split; [congruence|]. split; [by rewrite Hp', Hp|by right].
Qed.

Lemma bad_count (bs : bytes) : zlen bs <= SSL3_RT_MAX_PLAIN_LENGTH -> (SOCKET_ERROR =? i32 (zlen bs)) = false.
Proof.
  intros. pose proof (zlen_nonneg bs). apply Z.eqb_neq. unfold SSL3_RT_MAX_PLAIN_LENGTH, SOCKET_ERROR in *.
  rewrite i32_small; lia.
Qed.

Lemma Send_ok a bs : wf a -> zlen bs <= SSL3_RT_MAX_PLAIN_LENGTH -> settles (Send a bs) (fun r => wf r.2).
Proof.
  intros Hw Hlen. unfold Send. pose proof Hw as Hwf. unfold wf in Hwf. destruct (state_ a) eqn:Hst.
  - destruct (socket_Send (socket_ a) bs) as [r s]. apply safely_ok. cbn. unfold wf. cbn. by rewrite Hst.
  - by apply safely_ok.
  - by apply safely_ok.
  - destruct Hwf as (Ht & Hpl & ssl & Hs & Ha & Hu). case_bool_decide as Hp.
    + rewrite Hp, app_nil_r in Ha. by eapply send_new_ok.
    + eapply safely_bind; [apply (DoSslWrite_ok a true (pending_data_ a) ssl); auto|].
      intros r Hw'. inversion Hw' as [a' ssl' (Hc & Hp' & Ht' & Hl) Hst' Hs' Hta Hun
        |err a' ssl' (Hc & Hp' & Ht' & Hl) Hst' Hs' Herr Hta Hun|a' ssl' (Hc & Hp' & Ht' & Hl) Hst' Hs' [Hta Hun]
        |err a' (Hc & Hp' & Ht' & Hl) Hst' Hs' Hr Hww]; subst r.
      * rewrite Hp', i32_small, Z.eqb_refl by
          (pose proof (zlen_nonneg (pending_data_ a)); unfold SSL3_RT_MAX_PLAIN_LENGTH in *; lia).
        cbn [negb]. eapply send_new_ok; cbn; [done|congruence|congruence|done|done| |done].
        by rewrite Hl, Ha, Hta.
      * rewrite Hp', bad_count by done. cbn. apply safely_ok. cbn. unfold wf. cbn. rewrite Hst', Hst.
        split; [congruence|]. split; [by rewrite Hp'|]. exists ssl'. split; [done|].
        split; [by rewrite Hl, Ha, Hta, Hp'|]. by rewrite Hp', bool_decide_eq_false_2.
      * rewrite Hp', bad_count by done. cbn. apply safely_ok. cbn. unfold wf. cbn. rewrite Hst', Hst.
        split; [congruence|]. split; [by rewrite Hp'|]. exists ssl'. split; [done|].
        split; [by rewrite Hl, Ha, Hta, Hp'|]. by rewrite Hun, Hp', bool_decide_eq_false_2.
      * rewrite Hp', bad_count by done. cbn. apply safely_ok. cbn. unfold wf. cbn. rewrite Hst'.
        split; [congruence|]. split; [by rewrite Hp'|by right].
  - by apply safely_ok.
Qed.

Lemma Recv_ok a cb : wf a -> 0 <= cb <= INT_MAX -> settles (Recv a cb) (fun r => wf r.2).
Proof.
  intros Hw Hcb. unfold Recv. pose proof Hw as Hwf. unfold wf in Hwf. destruct (state_ a) eqn:Hst.
  - destruct (socket_Recv (socket_ a) cb) as [[r data] s]. apply safely_ok. cbn. unfold wf. cbn. by rewrite Hst.
  - by apply safely_ok.
  - by apply safely_ok.
  - destruct Hwf as (Ht & Hpl & ssl & Hs & Ha & Hu). destruct (cb =? 0); [by apply safely_ok|].
    rewrite (proj2 (Z.leb_le _ _)) by lia. cbn [require]. rewrite bind_ok.
    change (ssl_ (set_needs a _ _)) with (ssl_ a). rewrite Hs, from_opt_Some, bind_ok.
    eapply safely_bind; [by eapply run_ok, read_law|].
    intros [[[[code err] data] ssl'] a'] [(_ & [Hta Hun] & _) (s & c & Ha')]. cbn [fst snd] in *. subst a'.
    assert (forall s' c' n1 n2, wf (set_socket (set_needs (set_ssl (with_consents (set_socket a s') (fst c') (snd c')) (Some ssl')) n1 n2) s)) as Hok.
    { intros. unfold wf. cbn. rewrite Hst. split; [done|]. split; [done|]. exists ssl'. split; [done|].
      split; [by rewrite Hta|by rewrite Hun]. }
    destruct (err =? SSL_ERROR_NONE); [apply safely_ok, (Hok s c)|].
    destruct (_ || _); [apply safely_ok, Hok|]. destruct (err =? _); [apply safely_ok, Hok|].
    apply safely_ok. split; [done|]. split; [done|right; by eexists].
  - by apply safely_ok.
Qed.

Lemma Close_ok a : wf (Close a).2.
Proof.
  unfold Close. destruct (socket_Close _) as [r s]. cbn [snd]. unfold wf. cbn.
  repeat (split; [reflexivity|]). intros _. reflexivity.
Qed.

Lemma socket_call_ok a c : wf a -> small_call c -> settles (do_call a c) wf.
Proof.
  intros Hw Hc. destruct c as [bs|cb|]; cbn [do_call small_call] in *.
  - eapply safely_bind; [by apply Send_ok|]. intros [r a'] Hw'. by apply safely_ok.
  - eapply safely_bind; [by apply Recv_ok|]. intros [[r d] a'] Hw'. by apply safely_ok.
  - apply safely_ok, Close_ok.
Qed.

Hypothesis small_client : forall s l, Forall small_call (client s l).

Lemma socket_calls_ok cs a : wf a -> Forall small_call cs -> settles (do_calls a cs) wf.
Proof.
  intros Hw Hf. revert a Hw. induction Hf as [|c cs Hc Hf IH]; intros a Hw; [by apply safely_ok|].
  cbn. eapply safely_bind; [by apply socket_call_ok|]. intros a' Hw'. by apply IH.
Qed.

Lemma wf_signalled a s : wf a -> wf (add_event a (Signalled s)).
Proof.
  unfold wf. cbn. destruct (state_ a); try done. intros (Ht & Hp & ssl & Hs & Ha & Hu).
  split; [done|]. split; [done|]. exists ssl. split; [done|]. split; [|done]. by rewrite accepted_snoc.
Qed.

Lemma raise_ok a s : wf a -> settles (raise a s) wf.
Proof. intros Hw. apply socket_calls_ok; [by apply wf_signalled|apply small_client]. Qed.

(** *** The handshake *)
Lemma timeout_small ssl sec usec :
  DTLSv1_get_timeout ssl = Some (sec, usec) -> (0 <=? i32 (sec * 1000 + usec ÷ 1000)) = true.
Proof.
  intros Ht. apply timeout_law in Ht as [? ?]. apply Z.leb_le.
  assert (0 <= usec ÷ 1000 <= 1000).
  { split; [apply Z.quot_pos; lia|]. apply Z.quot_le_upper_bound; lia. }
  rewrite i32_small; lia.
Qed.

Lemma ContinueSSL_ok a ssl :
  state_ a = SSL_CONNECTING -> pending_data_ a = [] ->
  ssl_ a = Some ssl -> taken ssl = [] -> unfinished ssl = None ->
  settles (ContinueSSL a) (fun r => wf r.2 /\ (r.1 <> 0 -> timers r.2 = [])).
Proof.
  intros Hst Hp Hs Hta Hun. unfold ContinueSSL. rewrite bool_decide_eq_true_2 by done.
  cbn [require]. rewrite bind_ok. change (ssl_ (set_timers a [])) with (ssl_ a).
  rewrite Hs, from_opt_Some, bind_ok.
  assert (outcomes asks_eof (if decide (role_ (config_ (set_timers a [])) = OpenSslStream.SSL_CLIENT) then SSL_connect ssl
                    else SSL_accept ssl) None (fun _ r => idle ssl r.2)) as Ho
    by (case_decide; [apply connect_law|apply accept_law]).
  eapply safely_bind; [by eapply run_ok|].
  intros [[[code err] ssl'] a'] [(_ & [Hta' Hun']) (s & c & Ha')]. cbn [fst snd] in *. subst a'.
  rewrite Hta in Hta'. rewrite Hun in Hun'.
  assert (forall ts, (length ts <= 1)%nat ->
    wf (set_timers (set_ssl (with_consents (set_socket (set_timers a []) s) (fst c) (snd c)) (Some ssl')) ts)) as Hok.
  { intros ts Hts. unfold wf. cbn. rewrite Hst. split; [done|]. split; [done|]. by exists ssl'. }
  destruct (err =? SSL_ERROR_NONE).
  { destruct (SSLPostConnectionCheck _ _ _); cbn [negb].
    - eapply safely_bind; [apply raise_ok|].
      + unfold wf. cbn. split; [done|]. rewrite Hp. split; [done|]. exists ssl'. split; [done|].
        split; [by rewrite accepted_snoc, Hta'|done].
      + intros a' Hw'. apply safely_ok. by split.
    - apply safely_ok. split; [apply wf_Cleanup|done]. }
  destruct (err =? SSL_ERROR_WANT_READ).
  { destruct (DTLSv1_get_timeout ssl') as [[sec usec]|] eqn:Et.
    - rewrite (timeout_small _ _ _ Et). cbn [require]. rewrite bind_ok. apply safely_ok.
      split; [|done]. cbn [snd]. cbn [timers set_ssl with_consents set_socket set_timers app]. apply Hok. cbn. lia.
    - apply safely_ok. split; [|done]. cbn [snd]. apply (Hok []). cbn. lia. }
  destruct (err =? SSL_ERROR_WANT_WRITE); apply safely_ok; (split; [|done]); apply (Hok []); cbn; lia.
Qed.

Lemma idle_trans (s1 s2 s3 : SSL) : idle s1 s2 -> idle s2 s3 -> idle s1 s3.
Proof. unfold idle. intros [-> ->] [-> ->]. done. Qed.

Lemma idle_refl (s : SSL) : idle s s.
Proof. by split. Qed.

Lemma apply_session_idle a ssl ssl' : apply_session a ssl = Some ssl' -> idle ssl ssl'.
Proof.
  unfold apply_session. intros Ha. case_bool_decide; simplify_eq; [apply idle_refl|].
  eapply idle_trans; [apply (set_law ssl (set_tlsext_host_name (c_str (ssl_host_name_ (config_ a)))))|].
  destruct (ssl_session_cache_ (config_ a) ≫= _) as [cached|]; simplify_eq; [|apply idle_refl].
  pose proof (session_law (SSL_set ssl (set_tlsext_host_name (c_str (ssl_host_name_ (config_ a))))) cached) as Hl.
  destruct (SSL_set_session _ cached) as [r s]. destruct (r =? 0); by simplify_eq.
Qed.

Lemma setup_ssl_idle a ssl ssl' : setup_ssl a ssl = Some ssl' -> idle ssl ssl'.
Proof.
  unfold setup_ssl. intros (s2 & H2%apply_session_idle & Hs')%bind_Some. injection Hs' as <-.
  eapply idle_trans; [apply set_law|]. eapply idle_trans; [exact H2|].
  match goal with |- idle _ (if _ then ?s3 else _) => apply (idle_trans _ s3) end.
  - case_bool_decide; [apply idle_refl|]. destruct (bool_decide (TransformAlpnProtocols _ = [])); [apply idle_refl|apply set_law].
  - destruct (bool_decide (elliptic_curves_ _ = [])); [apply idle_refl|apply set_law].
Qed.

Lemma wf_Error a e : wf a -> timers a = [] -> wf (Error a e).
Proof.
  assert (zlen ([] : bytes) <= SSL3_RT_MAX_PLAIN_LENGTH) by (unfold zlen, SSL3_RT_MAX_PLAIN_LENGTH; cbn; lia).
  unfold wf. cbn. intros Hw Ht. split; [done|]. destruct (state_ a); try by destruct Hw as (-> & _); auto.
  - destruct Hw as (_ & Hl & ssl & -> & _). split; [done|]. right. by eexists.
  - by destruct Hw.
Qed.

Lemma Error_signal_ok a e : wf a -> timers a = [] -> settles (Error_signal a e) wf.
Proof. intros Hw Ht. by apply raise_ok, wf_Error. Qed.

Lemma begin_ssl_ok a :
  state_ a = SSL_CONNECTING -> pending_data_ a = [] -> timers a = [] ->
  (ssl_session_cache_ (config_ a) = None -> ssl_ctx_ a = None) ->
  settles (begin_ssl a) (fun r => r.1 = 0 -> wf r.2).
Proof.
  intros Hst Hp Ht Hc. unfold begin_ssl. rewrite bool_decide_eq_true_2 by done. cbn [require]. rewrite bind_ok.
  apply safely_bind with (R := fun a' => state_ a' = SSL_CONNECTING /\ pending_data_ a' = [] /\ timers a' = []).
  { destruct (ssl_session_cache_ (config_ a)); [by apply safely_ok|]. rewrite (Hc eq_refl). cbn [require].
    rewrite bind_ok. by apply safely_ok. }
  intros a' (Hst' & Hp' & Ht'). destruct (ssl_ctx_ a') as [ctx|]; [|by apply safely_ok].
  destruct (match identity_ a' with Some i => _ | None => _ end); [by apply safely_ok|].
  destruct BIO_new_ok; [|by apply safely_ok]. cbn [negb].
  destruct (SSL_new _) as [ssl|] eqn:En; [|by apply safely_ok]. apply new_law in En as [Hta Hun].
  destruct (setup_ssl _ ssl) as [ssl'|] eqn:Es; [|by apply safely_ok]. apply setup_ssl_idle in Es as [Hta' Hun'].
  eapply safely_weaken; [apply (ContinueSSL_ok _ ssl'); try done; congruence|]. by intros r [? _] _.
Qed.

Lemma BeginSSL_ok a :
  wf a -> state_ a = SSL_NONE \/ state_ a = SSL_WAIT ->
  settles (BeginSSL (set_state a SSL_CONNECTING)) (fun r => wf r.2 /\ (r.1 <> 0 -> timers r.2 = [])).
Proof.
  intros Hw Hst. assert (pending_data_ a = [] /\ timers a = [] /\
    (ssl_session_cache_ (config_ a) = None -> ssl_ctx_ a = None)) as (Hp & Ht & Hc)
    by (unfold wf in Hw; by destruct Hst as [Hst|Hst]; rewrite Hst in Hw).
  unfold BeginSSL. eapply safely_bind; [by apply begin_ssl_ok|]. intros [err a'] Hr. cbn [fst snd] in *.
  apply safely_ok. cbn. destruct (Z.eqb_spec err 0); [by split; auto|]. split; [apply wf_Cleanup|done].
Qed.

Lemma StartSSL_ok a hostname : wf a -> settles (StartSSL a hostname) (fun r => wf r.2).
Proof.
  intros Hw. unfold StartSSL. case_bool_decide as Hst; cbn [negb]; [|by apply safely_ok].
  assert (wf (set_host a hostname)) as Hw' by (unfold wf in *; cbn; by rewrite Hst in *).
  destruct (negb _).
  - apply safely_ok. unfold wf in *. cbn in *. by rewrite Hst in Hw'.
  - eapply safely_bind; [by apply BeginSSL_ok; [|left]|]. intros [err a'] [Hw2 Ht]. cbn [fst snd] in *.
    destruct (Z.eqb_spec err 0); apply safely_ok; [done|]. apply wf_Error; auto.
Qed.

Lemma OnConnectEvent_ok a :
  wf a -> state_ a = SSL_NONE \/ state_ a = SSL_WAIT -> settles (OnConnectEvent a) wf.
Proof.
  intros Hw Hst. unfold OnConnectEvent. case_bool_decide as Hwait; cbn [negb].
  - eapply safely_bind; [by apply BeginSSL_ok|]. intros [err a'] [Hw' Ht]. cbn [fst snd] in *.
    destruct (err =? 0); [by apply safely_ok|]. by apply raise_ok.
  - destruct Hst as [Hst|]; [|done]. rewrite bool_decide_eq_true_2 by done. cbn [require]. rewrite bind_ok.
    by apply raise_ok.
Qed.

Lemma connecting_ok a : wf a -> state_ a = SSL_CONNECTING ->
  pending_data_ a = [] /\ exists ssl, ssl_ a = Some ssl /\ taken ssl = [] /\ unfinished ssl = None.
Proof. intros Hw Hst. unfold wf in Hw. rewrite Hst in Hw. by destruct Hw as (? & _ & ?). Qed.

Lemma continue_or_fail_ok a : wf a -> state_ a = SSL_CONNECTING -> settles (continue_or_fail a) wf.
Proof.
  intros Hw Hst. destruct (connecting_ok a Hw Hst) as (Hp & ssl & Hs & Hta & Hun). unfold continue_or_fail.
  eapply safely_bind; [by eapply ContinueSSL_ok|]. intros [err a'] [Hw' Ht]. cbn [fst snd] in *.
  destruct (Z.eqb_spec err 0); [by apply safely_ok|]. apply Error_signal_ok; auto.
Qed.

Lemma OnReadEvent_ok a : wf a -> settles (OnReadEvent a) wf.
Proof.
  intros Hw. unfold OnReadEvent. destruct (state_ a) eqn:Hst; try (by apply safely_ok).
  - by apply raise_ok.
  - by apply continue_or_fail_ok.
  - eapply safely_bind with (R := wf); [|intros; by apply raise_ok].
    destruct (ssl_write_needs_read_ a); [by apply raise_ok|by apply safely_ok].
Qed.

(** In the error state nothing is known of the connection but that it is
    there. *)
Lemma DoSslWrite_error a :
  state_ a = SSL_ERROR -> wf a -> pending_data_ a <> [] ->
  settles (DoSslWrite a true (pending_data_ a)) (fun r =>
    state_ r.2 = SSL_ERROR /\ timers r.2 = [] /\ pending_data_ r.2 = pending_data_ a /\ is_Some (ssl_ r.2)).
Proof.
  intros Hst Hw Hp. unfold wf in Hw. rewrite Hst in Hw. destruct Hw as (Ht & Hl & [|[ssl Hs]]); [done|].
  unfold DoSslWrite. rewrite orb_true_r. cbn [require]. rewrite bind_ok.
  rewrite (proj2 (Z.leb_le _ _)) by (unfold INT_MAX, SSL3_RT_MAX_PLAIN_LENGTH in *; lia).
  cbn [require]. rewrite bind_ok. change (ssl_ (set_needs a _ _)) with (ssl_ a). rewrite Hs, from_opt_Some, bind_ok.
  eapply safely_bind; [by eapply run_ok, write_law|].
  intros [[[ret err] ssl'] a'] [_ (s & c & Ha)]. cbn [fst snd] in *. subst a'.
  repeat match goal with |- context [if ?b then _ else _] => destruct b end; apply safely_ok; cbn; eauto.
Qed.

Lemma write_pending_ok a : wf a -> settles (write_pending a) wf.
Proof.
  intros Hw. unfold write_pending. case_bool_decide as Hp; [by apply safely_ok|].
  pose proof Hw as Hwf. unfold wf in Hwf. destruct (state_ a) eqn:Hst; try by destruct Hwf.
  - destruct Hwf as (Ht & Hl & ssl & Hs & Ha & Hu). rewrite bool_decide_eq_false_2 in Hu by done.
    eapply safely_bind; [apply (DoSslWrite_ok a true (pending_data_ a) ssl); auto|].
    intros r Hw'. inversion Hw' as [a' ssl' (Hc & Hp' & Ht' & Hlog) Hst' Hs' Hta Hun
      |err a' ssl' (Hc & Hp' & Ht' & Hlog) Hst' Hs' Herr Hta Hun|a' ssl' (Hc & Hp' & Ht' & Hlog) Hst' Hs' [Hta Hun]
      |err a' (Hc & Hp' & Ht' & Hlog) Hst' Hs' Hr Hww]; subst r; rewrite Hp'; try rewrite bad_count by done;
      apply safely_ok.
    + rewrite i32_small, Z.eqb_refl by
        (pose proof (zlen_nonneg (pending_data_ a)); unfold SSL3_RT_MAX_PLAIN_LENGTH in *; lia).
      unfold wf. cbn. rewrite Hst', Hst. split; [congruence|]. split; [done|]. exists ssl'. split; [done|].
      split; [by rewrite Hlog, Ha, Hta, app_nil_r|done].
    + unfold wf. rewrite Hst', Hst, Hp'. split; [congruence|]. split; [done|]. exists ssl'. split; [done|].
      split; [by rewrite Hlog, Ha, Hta|by rewrite bool_decide_eq_false_2].
    + unfold wf. rewrite Hst', Hst, Hp'. split; [congruence|]. split; [done|]. exists ssl'. split; [done|].
      split; [by rewrite Hlog, Ha, Hta|by rewrite Hun, bool_decide_eq_false_2].
    + unfold wf. rewrite Hst', Hp'. split; [congruence|]. split; [done|]. by right.
  - destruct Hwf as (Ht & Hl & _). eapply safely_bind; [by apply DoSslWrite_error|].
    intros [[ret err] a'] (Hst' & Ht' & Hp' & Hs'). cbn [fst snd] in *. apply safely_ok.
    unfold wf. destruct (_ =? _); cbn; rewrite Hst'; (split; [done|]).
    + split; [done|]. by left.
    + rewrite Hp'. split; [done|]. by right.
Qed.

Lemma OnWriteEvent_ok a : wf a -> settles (OnWriteEvent a) wf.
Proof.
  intros Hw. unfold OnWriteEvent. destruct (state_ a) eqn:Hst; try (by apply safely_ok).
  - by apply raise_ok.
  - by apply continue_or_fail_ok.
  - eapply safely_bind with (R := wf); [destruct (ssl_read_needs_write_ a); [by apply raise_ok|by apply safely_ok]|].
    intros a' Hw'. eapply safely_bind; [by apply write_pending_ok|]. intros a'' Hw''. by apply raise_ok.
Qed.

Lemma OnMessage_ok a t rest : wf a -> timers a = t :: rest -> settles (OnMessage (set_timers a rest)) wf.
Proof.
  intros Hw Ht. assert (state_ a = SSL_CONNECTING) as Hst.
  { unfold wf in Hw. rewrite Ht in Hw. by destruct (state_ a); try (by destruct Hw as (? & ? & ?)); try by destruct Hw. }
  destruct (connecting_ok a Hw Hst) as (Hp & ssl & Hs & Hta & Hun). unfold OnMessage.
  change (ssl_ (set_timers a rest)) with (ssl_ a). rewrite Hs, from_opt_Some, bind_ok.
  eapply safely_bind; [by eapply run_ok, handle_timeout_law|].
  intros [ssl' a'] [[_ [Hta' Hun']] (s & c & Ha)]. cbn [fst snd] in *. subst a'.
  eapply safely_bind; [apply (ContinueSSL_ok _ ssl'); cbn; try done; congruence|].
  intros [err a'] [Hw' _]. by apply safely_ok.
Qed.

(** *** Runs *)

(** What a caller promises: the mode and the verifier are set before there is
    a context, and one identity; calls are small; a connect event comes only
    while the adapter waits for one or is not used for TLS.  OpenSSL has
    sessions only where a cache was asked for. *)
Definition allowed_op (a : Adapter) (o : op) : Prop :=
  match o with
  | OSet (SetMode _) => ssl_ctx_ a = None /\ state_ a = SSL_NONE
  | OSet (SetCertVerifier _) => ssl_ctx_ a = None
  | OIdentity _ => identity_ a = None
  | OSession _ => ssl_session_cache_ (config_ a) <> None
  | OCall c => small_call c
  | OConnect => state_ a = SSL_NONE \/ state_ a = SSL_WAIT
  | _ => True
  end.

Fixpoint allowed (a : Adapter) (os : list op) : Prop :=
  match os with
  | [] => True
  | o :: os => allowed_op a o /\ forall a', perform a o = Ok a' -> allowed a' os
  end.

(** The invariant looks at the settings only for the cache. *)
Lemma wf_config a c :
  wf a -> (ssl_session_cache_ c = None -> ssl_session_cache_ (config_ a) = None) -> wf (set_config a c).
Proof. unfold wf. cbn. destruct (state_ a); try done; intros (? & ? & ?); auto. Qed.

Lemma setting_ok a x : wf a -> allowed_op a (OSet x) -> settles (change a x) wf.
Proof.
  intros Hw Ho. destruct x; cbn [change allowed_op] in *; try by (apply safely_ok, wf_config).
  - destruct Ho as [Hc Hst]. unfold no_context. rewrite Hc, bool_decide_eq_true_2 by done. cbn [require].
    rewrite !bind_ok. by apply safely_ok, wf_config.
  - unfold no_context. rewrite Ho. cbn [require]. rewrite bind_ok. by apply safely_ok, wf_config.
Qed.

Lemma perform_ok a o : wf a -> allowed_op a o -> settles (perform a o) wf.
Proof.
  intros Hw Ho. destruct o; cbn [perform allowed_op] in *.
  - by apply safely_ok.
  - by apply setting_ok.
  - unfold SetIdentity. rewrite Ho. cbn [require]. rewrite bind_ok. by apply safely_ok.
  - unfold NewSSLSessionCallback. destruct (ssl_session_cache_ (config_ a)); [|done]. rewrite from_opt_Some, bind_ok.
    apply safely_ok. by eapply wf_config.
  - apply safely_ok. destruct (ssl_session_cache_ (config_ a)); [by eapply wf_config|done].
  - by apply socket_call_ok.
  - eapply safely_bind; [by apply StartSSL_ok|]. intros [r a'] Hw'. by apply safely_ok.
  - by apply OnConnectEvent_ok.
  - by apply OnReadEvent_ok.
  - by apply OnWriteEvent_ok.
  - by apply raise_ok.
  - destruct (timers a) as [|t rest] eqn:Ht; [by apply safely_ok|]. by eapply OnMessage_ok.
Qed.

Lemma performs_ok os a : wf a -> allowed a os -> settles (performs a os) wf.
Proof.
  revert a. induction os as [|o os IH]; intros a Hw Ha; [by apply safely_ok|]. destruct Ha as [Ho Ha].
  pose proof (perform_ok a o Hw Ho) as Hp. cbn. destruct (perform a o) as [a'|e]; [|done]. apply IH; auto.
Qed.


(** *** What is checked

    [agreed]: the verifier set consents to the certificate.  Its consents are
    those given on the connection there is now. *)
Definition agreed (c : config C I SESSION) (cert : C) : Prop :=
  exists verify, ssl_cert_verifier_ c = Some verify /\ verify cert = true.

Definition consents_ok (a : Adapter) : Prop :=
  (custom_cert_verifier_status_ a = true -> consents a <> []) /\
  Forall (agreed (config_ a)) (consents a) /\
  (ssl_ctx_ a = None \/ state_ a = SSL_NONE \/ state_ a = SSL_WAIT -> ssl_ a = None /\ consents a = []).

Abbreviation always := (safely (fun _ => True)).

Lemma always_bind {X Y} (m : res X) (f : X -> res Y) (Q : Y -> Prop) :
  (forall x, m = Ok x -> always (f x) Q) -> always (m ≫= f) Q.
Proof. destruct m; [intros Hf; by apply Hf|done]. Qed.

(** What a run of OpenSSL may change: the consents it notes are given. *)
Definition noted (a a' : Adapter) : Prop :=
  exists s b new, a' = with_consents (set_socket a s) b (consents a ++ new) /\
    (b = true -> custom_cert_verifier_status_ a = true \/ new <> []) /\ Forall (agreed (config_ a)) new.

Lemma noted_socket a s : noted a (set_socket a s).
Proof. exists s, (custom_cert_verifier_status_ a), []. rewrite app_nil_r. split; [by destruct a|]. auto. Qed.

Lemma noted_refl a : noted a a.
Proof. assert (a = set_socket a (socket_ a)) as E by (by destruct a). rewrite E at 2. apply noted_socket. Qed.

Lemma noted_trans a a' a'' : noted a a' -> noted a' a'' -> noted a a''.
Proof.
  intros (s & b & new & -> & Hb & Hn) (s' & b' & new' & -> & Hb' & Hn'). exists s', b', (new ++ new').
  split; [by rewrite app_assoc|]. split; [|by apply Forall_app].
  intros E. destruct (Hb' E) as [Eb|Hne]; [destruct (Hb Eb) as [|Hne]; [by left|]|]; right; intros [? ?]%app_eq_nil; auto.
Qed.

Lemma verify_noted a status cert : noted a (SSLVerifyCallback a status cert).2.
Proof.
  assert (noted a (SSLVerifyInternal a status cert).2) as Hi.
  { unfold SSLVerifyInternal. destruct (ssl_cert_verifier_ (config_ a)) as [verify|] eqn:Ev; [|apply noted_refl].
    destruct status; [apply noted_refl|]. destruct (verify cert) eqn:E; [|apply noted_refl].
    exists (socket_ a), true, [cert]. split; [by destruct a|]. split; [by right|].
    apply Forall_singleton. by exists verify. }
  unfold SSLVerifyCallback. destruct (SSLVerifyInternal a status cert) as [b a']. cbn in Hi. by case_match.
Qed.

Lemma run_noted {X} (p : SslProg X) a : always (run p a) (fun r => noted a r.2).
Proof.
  revert a. induction p as [x|act k IH]; intros a; [apply safely_ok, noted_refl|].
  assert (forall ans a', noted a a' -> always (run (k ans) a') (fun r => noted a r.2)) as Hk.
  { intros ans a' Hn. eapply safely_weaken; [apply IH|]. intros r Hr. by eapply noted_trans. }
  destruct act as [[status cert]|out|input|cmd]; cbn [run].
  - pose proof (verify_noted a status cert) as Hv. destruct (SSLVerifyCallback a status cert). by apply Hk.
  - destruct (socket_read (socket_ a) out). apply Hk, noted_socket.
  - destruct (socket_write (socket_ a) input). apply Hk, noted_socket.
  - apply always_bind; intros r _. apply Hk, noted_refl.
Qed.

(** A run of the connection there is. *)
Lemma noted_ok a a' ssl ssl' :
  consents_ok a -> ssl_ a = Some ssl -> noted a a' -> consents_ok (set_ssl a' (Some ssl')).
Proof.
  intros (Hc & Ha & Hn) Hs (s & b & new & -> & Hb & Hnew). unfold consents_ok. cbn. split; [|split].
  - intros E [E1 E2]%app_eq_nil. destruct (Hb E) as [E'|Hne]; [by apply Hc in E'|done].
  - by apply Forall_app.
  - intros E. destruct (Hn E). congruence.
Qed.

Lemma consents_Cleanup a : consents_ok (Cleanup a).
Proof. split; [done|]. split; [by constructor|done]. Qed.

(** Nothing is opened. *)
Definition is_opened (e : event) : bool := match e with Opened => true | _ => false end.

Definition opens (l : list event) : nat := length (base.filter (fun e => is_opened e = true) l).

#[local] Arguments opens : simpl never.

Lemma opens_snoc l e : opens (l ++ [e]) = (opens l + if is_opened e then 1 else 0)%nat.
Proof. unfold opens. rewrite list.filter_app, length_app. by destruct e. Qed.

Definition calm (a a' : Adapter) : Prop :=
  opens (log a') = opens (log a) /\ (state_ a' = SSL_CONNECTED -> state_ a = SSL_CONNECTED).

Definition calmly (a a' : Adapter) : Prop := consents_ok a' /\ calm a a'.

Lemma calm_trans a a' a'' : calm a a' -> calm a' a'' -> calm a a''.
Proof. intros [E H1] [E' H2]. split; [congruence|auto]. Qed.

Lemma calmly_refl a : consents_ok a -> calmly a a.
Proof. done. Qed.

Lemma calmly_bind (m : res Adapter) (f : Adapter -> res Adapter) a :
  always m (calmly a) -> (forall a', consents_ok a' -> always (f a') (calmly a')) -> always (m ≫= f) (calmly a).
Proof.
  intros Hm Hf. eapply safely_bind; [exact Hm|]. intros a' [Hj Hc]. eapply safely_weaken; [by apply Hf|].
  intros a'' [Hj' Hc']. split; [done|]. by eapply calm_trans.
Qed.

Lemma DoSslWrite_calm a from_pending bs :
  consents_ok a -> always (DoSslWrite a from_pending bs) (fun r => calmly a r.2).
Proof.
  intros Hj. unfold DoSslWrite. apply always_bind; intros [] _. apply always_bind; intros [] _.
  apply always_bind; intros ssl Hs%from_opt_ok. eapply safely_bind; [apply run_noted|].
  intros [[[ret err] ssl'] a'] Hn. cbn [fst snd] in *.
  assert (calmly a (set_ssl a' (Some ssl'))) as Hc.
  { split; [|destruct Hn as (s & b & new & -> & _); by split].
    apply (noted_ok (set_needs a (ssl_read_needs_write_ a) false) _ ssl); [exact Hj|exact Hs|exact Hn]. }
  destruct (err =? SSL_ERROR_NONE); [by apply safely_ok|].
  destruct (err =? SSL_ERROR_WANT_READ); [by apply safely_ok|].
  destruct (_ || _); [by apply safely_ok|]. apply safely_ok.
  destruct Hc as [(H1 & H2 & H3) [Ho _]]. split; [|by split].
  split; [exact H1|]. split; [exact H2|]. intros [E|[|]]; [|done..]. apply H3. by left.
Qed.

Lemma send_new_calm a bs : consents_ok a -> always (send_new a bs) (fun r => calmly a r.2).
Proof.
  intros Hj. unfold send_new. case_bool_decide; [by apply safely_ok|].
  eapply safely_bind; [by apply DoSslWrite_calm|]. intros [[ret err] a'] [Hj' [Ho Hst]]. cbn [snd] in *.
  assert (forall b, consents_ok b -> opens (log b) = opens (log a) -> state_ b = state_ a' ->
    forall r, calmly a (accept_data b r bs).2) as Hacc.
  { intros b Hjb Hob Hsb r. split; [unfold accept_data; by destruct (0 <? r)|].
    unfold accept_data. cbn [snd]. split; [|destruct (0 <? r); cbn; by rewrite Hsb].
    destruct (0 <? r); [|done]. cbn. rewrite opens_snoc. cbn. lia. }
  destruct (_ || _).
  - apply always_bind; intros [] _. by apply safely_ok, Hacc.
  - by apply safely_ok, Hacc.
Qed.

Lemma Send_calm a bs : consents_ok a -> always (Send a bs) (fun r => calmly a r.2).
Proof.
  intros Hj. unfold Send. destruct (state_ a) eqn:Hst; try by apply safely_ok.
  - destruct (socket_Send _ _) as [r s]. apply safely_ok. split; [done|]. split; [cbn; rewrite opens_snoc; cbn; lia|].
    cbn. congruence.
  - case_bool_decide; [by apply send_new_calm|]. eapply safely_bind; [by apply DoSslWrite_calm|].
    intros [[ret err] a'] [Hj' Hc]. cbn [snd] in *. destruct (negb _); [by apply safely_ok|].
    eapply safely_weaken; [by apply send_new_calm|]. intros [r a''] [Hj'' Hc'']. cbn [snd] in *.
    split; [done|]. eapply calm_trans; [exact Hc|exact Hc''].
Qed.

Lemma Recv_calm a cb : consents_ok a -> always (Recv a cb) (fun r => calmly a r.2).
Proof.
  intros Hj. unfold Recv. destruct (state_ a) eqn:Hst; try by apply safely_ok.
  - destruct (socket_Recv _ _) as [[r data] s]. apply safely_ok. split; [done|].
    split; [cbn; rewrite opens_snoc; cbn; lia|]. cbn. congruence.
  - destruct (cb =? 0); [by apply safely_ok|]. apply always_bind; intros [] _.
    apply always_bind; intros ssl Hs%from_opt_ok. eapply safely_bind; [apply run_noted|].
    intros [[[[code err] data] ssl'] a'] Hn. cbn [fst snd] in *.
    assert (calmly a (set_ssl a' (Some ssl'))) as Hc.
    { split; [|destruct Hn as (s & b & new & -> & _); by split].
      apply (noted_ok (set_needs a false (ssl_write_needs_read_ a)) _ ssl); [exact Hj|exact Hs|exact Hn]. }
    destruct (err =? SSL_ERROR_NONE); [by apply safely_ok|]. destruct (_ || _); [by apply safely_ok|].
    destruct (err =? _); [by apply safely_ok|]. apply safely_ok.
    destruct Hc as [(H1 & H2 & H3) [Ho _]]. split; [|by split].
    split; [exact H1|]. split; [exact H2|]. intros [E|[|]]; [|done..]. apply H3. by left.
Qed.

Lemma Close_calm a : calmly a (Close a).2.
Proof. unfold Close. destruct (socket_Close _). split; [|by split].
  cbn. split; [done|]. split; [by constructor|done].
Qed.

Lemma do_call_calm a c : consents_ok a -> always (do_call a c) (calmly a).
Proof.
  intros Hj. destruct c as [bs|cb|]; cbn [do_call].
  - eapply safely_bind; [by apply Send_calm|]. intros [r a'] Hc. by apply safely_ok.
  - eapply safely_bind; [by apply Recv_calm|]. intros [[r d] a'] Hc. by apply safely_ok.
  - apply safely_ok, Close_calm.
Qed.

Lemma do_calls_calm cs a : consents_ok a -> always (do_calls a cs) (calmly a).
Proof.
  revert a. induction cs as [|c cs IH]; intros a Hj; [by apply safely_ok|]. cbn.
  apply calmly_bind; [by apply do_call_calm|auto].
Qed.

Lemma raise_calm a s : consents_ok a -> always (raise a s) (calmly a).
Proof.
  intros Hj. unfold raise. eapply safely_weaken; [by apply do_calls_calm|]. intros a' [Hj' [Ho Hst]].
  split; [done|]. split; [|exact Hst]. rewrite Ho. cbn. rewrite opens_snoc. cbn. lia.
Qed.

(** What the handshake has checked when it opens the connection, and where it
    is then. *)
Definition checked (a : Adapter) : Prop :=
  exists ssl cert, ssl_ a = Some ssl /\ ssl_host_name_ (config_ a) <> [] /\
    SSL_get_peer_certificate ssl = Some cert /\
    X509_check_host cert (ssl_host_name_ (config_ a)) = 1 /\
    (SSL_get_verify_result ssl = X509_V_OK \/
     exists verify cert', ssl_cert_verifier_ (config_ a) = Some verify /\ cert' ∈ consents a /\ verify cert' = true).

Definition opening (c : config C I SESSION) (a a' : Adapter) : Prop :=
  exists a1, log a1 = log a ++ [Opened] /\ config_ a1 = c /\ state_ a1 = SSL_CONNECTED /\
    (ignore_bad_cert_ c = true \/ checked a1) /\ raise a1 ConnectEvent = Ok a'.

Definition handshake (a : Adapter) (r : Z * Adapter) : Prop :=
  consents_ok r.2 /\
  ((r.1 = 0 /\ opening (config_ a) a r.2) \/ (log r.2 = log a /\ state_ r.2 <> SSL_CONNECTED)).

Lemma PostConnectionCheck_checked a ssl :
  consents_ok a -> ssl_ a = Some ssl -> SSLPostConnectionCheck a ssl (ssl_host_name_ (config_ a)) = true ->
  ignore_bad_cert_ (config_ a) = true \/ checked a.
Proof.
  intros (Hc & Hag & _) Hs. unfold SSLPostConnectionCheck.
  destruct (ignore_bad_cert_ (config_ a)); [by left|]. rewrite andb_false_r.
  intros [Hm Hv]%andb_true_iff. right. unfold VerifyPeerCertMatchesHost in Hm. case_bool_decide as Hh; [done|].
  destruct (SSL_get_peer_certificate ssl) as [cert|] eqn:Ec; [|done].
  exists ssl, cert. repeat (split; [by try apply Z.eqb_eq|]).
  apply orb_true_iff in Hv as [Hv|Hv]; [left; by apply Z.eqb_eq|right].
  destruct (consents a) as [|cert' l] eqn:El; [by apply Hc in Hv|].
  apply list.Forall_cons in Hag as [(verify & Ev & Hag) _]. exists verify, cert'. split; [done|].
  split; [by apply list.elem_of_cons; left|done].
Qed.

Lemma consents_opened a : consents_ok a -> is_Some (ssl_ a) -> consents_ok (add_event (set_state a SSL_CONNECTED) Opened).
Proof.
  intros (H1 & H2 & H3) [ssl Hs]. split; [exact H1|]. split; [exact H2|]. cbn. intros [E|[|]]; [|done..].
  destruct H3; [by left|]. congruence.
Qed.

Lemma ContinueSSL_checked a : consents_ok a -> always (ContinueSSL a) (handshake a).
Proof.
  intros Hj. unfold ContinueSSL. apply always_bind; intros [] Hst%require_ok%bool_decide_eq_true.
  apply always_bind; intros ssl Hs%from_opt_ok. eapply safely_bind; [apply run_noted|].
  intros [[[code err] ssl'] a'] Hn. cbn [fst snd] in *.
  assert (consents_ok (set_ssl a' (Some ssl'))) as Hj'
    by (apply (noted_ok (set_timers a []) _ ssl); [exact Hj|exact Hs|exact Hn]).
  assert (log a' = log a /\ config_ a' = config_ a /\ state_ a' = SSL_CONNECTING) as (Hl & Hcf & Hst')
    by (destruct Hn as (s & b & new & -> & _); done).
  clear Hn. change (config_ (set_ssl a' (Some ssl'))) with (config_ a').
  destruct (err =? SSL_ERROR_NONE).
  - destruct (SSLPostConnectionCheck _ ssl' _) eqn:Ec; cbn [negb].
    + pose proof (PostConnectionCheck_checked (set_ssl a' (Some ssl')) ssl' Hj' eq_refl Ec) as Hck.
      apply always_bind; intros a'' Hr. apply safely_ok. split.
      * assert (consents_ok (add_event (set_state (set_ssl a' (Some ssl')) SSL_CONNECTED) Opened)) as Hjo
          by (apply consents_opened; [done|by eexists]).
        pose proof (raise_calm _ ConnectEvent Hjo) as Hrc. rewrite Hr in Hrc. by destruct Hrc.
      * left. split; [done|]. eexists. split; [|split; [|split; [|split; [|exact Hr]]]]; cbn; try congruence.
        rewrite <- Hcf. destruct Hck as [|(s1 & c1 & Hck)]; [by left|right]. by exists s1, c1.
    + apply safely_ok. split; [apply consents_Cleanup|right]. by split.
  - assert (forall ts, consents_ok (set_timers (set_ssl a' (Some ssl')) ts) /\
      log (set_timers (set_ssl a' (Some ssl')) ts) = log a /\
      state_ (set_timers (set_ssl a' (Some ssl')) ts) <> SSL_CONNECTED) as Hq
      by (intros ts; split; [done|split; [done|cbn; by rewrite Hst']]).
    assert (handshake a (0, set_ssl a' (Some ssl'))) as Hz
      by (split; [done|right; split; [done|cbn; by rewrite Hst']]).
    destruct (err =? SSL_ERROR_WANT_READ).
    { destruct (DTLSv1_get_timeout ssl') as [[sec usec]|]; [|by apply safely_ok].
      apply always_bind; intros [] _. apply safely_ok.
      destruct (Hq (timers (set_ssl a' (Some ssl')) ++ [i32 (sec * 1000 + usec ÷ 1000)])) as (? & ? & ?).
      split; [done|]. right. by split. }
    destruct (err =? SSL_ERROR_WANT_WRITE); apply safely_ok; [done|]. destruct Hz as [? [[? ?]|?]]; split; auto.
    right. by split; [|cbn; rewrite Hst'].
Qed.

Lemma BeginSSL_checked a :
  consents_ok a -> state_ a = SSL_NONE \/ state_ a = SSL_WAIT ->
  always (BeginSSL (set_state a SSL_CONNECTING)) (handshake a).
Proof.
  intros (H1 & H2 & H3) Hst. destruct (H3 (or_intror Hst)) as [Hs Hcs]. unfold BeginSSL.
  assert (forall r, (r.1 =? 0) = false -> log r.2 = log a -> handshake a (r.1, Cleanup r.2)) as Hfail
    by (intros r _ Hl; split; [apply consents_Cleanup|right; by split]).
  apply safely_bind with (R := fun r => ((r.1 =? 0) = false /\ log r.2 = log a) \/ handshake a r).
  2:{ intros [err a'] Hr. apply safely_ok. destruct Hr as [[E Hl]|Hr]; [|destruct (err =? 0) eqn:E; [done|]].
      - cbn in E. rewrite E. by apply (Hfail (err, a')).
      - destruct Hr as [_ [[Hz _]|[Hl _]]]; [by apply Z.eqb_neq in E|]. by apply (Hfail (err, a')). }
  unfold begin_ssl. apply always_bind; intros [] _.
  apply safely_bind with (R := fun a' => exists x, a' = set_ctx (set_state a SSL_CONNECTING) x).
  { destruct (ssl_session_cache_ _); [apply safely_ok; exists (ssl_ctx_ a); by destruct a|].
    apply always_bind; intros [] _. apply safely_ok. by eexists. }
  intros a' [x ->]. cbn [ssl_ctx_ set_ctx]. destruct x as [ctx|]; [|apply safely_ok; by left].
  destruct (match identity_ _ with Some i => _ | None => _ end); [apply safely_ok; by left|].
  destruct BIO_new_ok; [|apply safely_ok; by left]. cbn [negb].
  destruct (SSL_new _) as [ssl|]; [|apply safely_ok; by left].
  destruct (setup_ssl _ ssl) as [ssl'|]; [|apply safely_ok; by left].
  eapply safely_weaken; [apply ContinueSSL_checked|].
  - split; [exact H1|]. split; [exact H2|]. cbn. by intros [|[|]].
  - intros r Hr. by right.
Qed.

(** What a run's operation does: it opens nothing, or it is the handshake's
    end. *)
Definition opened_config (a : Adapter) (o : op) : config C I SESSION :=
  match o with OStartSSL hostname => config_ (set_host a hostname) | _ => config_ a end.

Definition careful (a : Adapter) (o : op) (a' : Adapter) : Prop :=
  consents_ok a' /\ (calm a a' \/ opening (opened_config a o) a a').

Lemma handshake_calm a r : handshake a r -> r.1 <> 0 -> calmly a r.2.
Proof. intros [Hj [[? _]|[Hl Hst]]] Hr; [done|]. split; [done|]. split; [by rewrite Hl|done]. Qed.

Lemma handshake_careful a r : handshake a r -> consents_ok r.2 /\ (calm a r.2 \/ opening (config_ a) a r.2).
Proof. intros [Hj [[_ ?]|[Hl Hst]]]; (split; [done|]); [by right|left]. split; [by rewrite Hl|done]. Qed.

Lemma raise_after a a' s : calmly a a' -> always (raise a' s) (calmly a).
Proof.
  intros [Hj Hc]. eapply safely_weaken; [by apply raise_calm|]. intros a'' [? ?]. split; [done|].
  by eapply calm_trans.
Qed.

Lemma continue_or_fail_checked a :
  consents_ok a -> always (continue_or_fail a) (fun a' => consents_ok a' /\ (calm a a' \/ opening (config_ a) a a')).
Proof.
  intros Hj. eapply safely_bind; [by apply ContinueSSL_checked|]. intros [err a'] Hh.
  destruct (Z.eqb_spec err 0); [by apply safely_ok, (handshake_careful a (err, a'))|].
  apply handshake_calm in Hh as [(H1 & H2 & H3) [Ho Hst]]; [|done]. cbn [snd] in *.
  eapply safely_weaken; [apply (raise_after a)|].
  - split; [|by split]. split; [exact H1|]. split; [exact H2|]. intros [E|[|]]; [|done..]. apply H3. by left.
  - intros a'' [? ?]. auto.
Qed.

Lemma write_pending_calm a : consents_ok a -> always (write_pending a) (calmly a).
Proof.
  intros Hj. unfold write_pending. case_bool_decide; [by apply safely_ok|].
  eapply safely_bind; [by apply DoSslWrite_calm|]. intros [[ret err] a'] Hc. apply safely_ok. by destruct (_ =? _).
Qed.

Lemma OnMessage_careful a : consents_ok a ->
  always (OnMessage a) (fun a' => consents_ok a' /\ (calm a a' \/ opening (config_ a) a a')).
Proof.
  intros Hj. unfold OnMessage. apply always_bind; intros ssl Hs%from_opt_ok.
  eapply safely_bind; [apply run_noted|]. intros [ssl' a'] Hn. cbn [fst snd] in *.
  eapply safely_bind; [apply ContinueSSL_checked, (noted_ok a a' ssl); done|].
  intros [err a''] Hh%handshake_careful. apply safely_ok. cbn [snd] in *.
  destruct Hn as (s & b & new & -> & _). exact Hh.
Qed.

Lemma change_careful a x : consents_ok a -> always (change a x) (calmly a).
Proof.
  intros (H1 & H2 & H3). assert (forall c, ssl_cert_verifier_ c = ssl_cert_verifier_ (config_ a) ->
    calmly a (set_config a c)) as Hc.
  { intros c E. split; [|done]. split; [exact H1|]. split; [|exact H3].
    eapply Forall_impl; [|exact H2]. intros cert (v & Ev & Hv). exists v. cbn. by rewrite E. }
  destruct x; cbn [change]; try by apply safely_ok, Hc.
  - apply always_bind; intros [] _. apply always_bind; intros [] _. by apply safely_ok, Hc.
  - apply always_bind; intros [] Hn%require_ok. apply safely_ok. split; [|done].
    destruct H3 as [Hs Hcs]; [left; unfold no_context in Hn; by destruct (ssl_ctx_ a)|].
    split; [exact H1|]. cbn. rewrite Hcs. split; [by constructor|done].
Qed.

Lemma StartSSL_careful a hostname :
  consents_ok a -> always (StartSSL a hostname) (fun r => careful a (OStartSSL hostname) r.2).
Proof.
  intros Hj. unfold StartSSL. case_bool_decide as Hst; cbn [negb]; [|apply safely_ok; by split; [|left]].
  assert (consents_ok (set_host a hostname)) as Hjh by exact Hj.
  destruct (negb _).
  - apply safely_ok. split; [|left; by split]. destruct Hj as (H1 & H2 & H3).
    split; [exact H1|]. split; [exact H2|]. cbn. intros _. apply H3. auto.
  - eapply safely_bind; [apply (BeginSSL_checked (set_host a hostname)); [done|by left]|].
    intros [err a'] Hh. destruct (Z.eqb_spec err 0).
    + apply safely_ok. by apply (handshake_careful (set_host a hostname) (err, a')).
    + apply handshake_calm in Hh as [(H1 & H2 & H3) [Ho Hs]]; [|done]. apply safely_ok. cbn [fst snd] in *.
      split; [|left; by split]. split; [exact H1|]. split; [exact H2|]. intros [E|[|]]; [|done..]. apply H3. by left.
Qed.

Lemma OnConnectEvent_careful a : consents_ok a -> always (OnConnectEvent a) (careful a OConnect).
Proof.
  intros Hj. unfold OnConnectEvent. case_bool_decide as Hst; cbn [negb].
  - eapply safely_bind; [by apply BeginSSL_checked; [|right]|]. intros [err a'] Hh.
    destruct (Z.eqb_spec err 0); [by apply safely_ok, (handshake_careful a (err, a'))|].
    eapply safely_weaken; [apply (raise_after a), handshake_calm with (r := (err, a')); done|].
    intros a'' [? ?]. split; auto.
  - apply always_bind; intros [] _. eapply safely_weaken; [by apply raise_calm|]. intros a'' [? ?]. split; auto.
Qed.

Lemma perform_careful a o : consents_ok a -> always (perform a o) (careful a o).
Proof.
  intros Hj. assert (forall m, always m (calmly a) -> always m (careful a o)) as Hcalm
    by (intros m Hm; eapply safely_weaken; [exact Hm|]; intros a' [? ?]; by split; [|left]).
  destruct o; cbn [perform].
  - apply safely_ok. by split; [|left].
  - by apply Hcalm, change_careful.
  - apply always_bind; intros [] _. apply safely_ok. by split; [|left].
  - apply always_bind; intros cache _. apply safely_ok. by split; [|left].
  - apply safely_ok. destruct (ssl_session_cache_ (config_ a)); by split; [|left].
  - by apply Hcalm, do_call_calm.
  - eapply safely_bind; [by apply StartSSL_careful|]. intros [r a'] Hc. by apply safely_ok.
  - by apply OnConnectEvent_careful.
  - unfold OnReadEvent. destruct (state_ a); try (apply safely_ok; by split; [|left]).
    + by apply Hcalm, raise_calm.
    + by apply continue_or_fail_checked.
    + apply Hcalm, calmly_bind; [|intros; by apply raise_calm].
      destruct (ssl_write_needs_read_ a); [by apply raise_calm|by apply safely_ok].
  - unfold OnWriteEvent. destruct (state_ a); try (apply safely_ok; by split; [|left]).
    + by apply Hcalm, raise_calm.
    + by apply continue_or_fail_checked.
    + apply Hcalm, calmly_bind; [|intros a' Hj'; apply calmly_bind; [by apply write_pending_calm|intros; by apply raise_calm]].
      destruct (ssl_read_needs_write_ a); [by apply raise_calm|by apply safely_ok].
  - by apply Hcalm, raise_calm.
  - destruct (timers a) as [|t rest]; [apply safely_ok; by split; [|left]|].
    by apply (OnMessage_careful (set_timers a rest)).
Qed.

Lemma performs_careful os a : consents_ok a -> always (performs a os) consents_ok.
Proof.
  revert a. induction os as [|o os IH]; intros a Hj; [by apply safely_ok|]. cbn.
  eapply safely_bind; [by apply perform_careful|]. intros a' [Hj' _]. by apply IH.
Qed.

(** C7. A connection is opened only after its checks.  Take an adapter after
    any history of calls, settings, events and timers, and one operation
    more.  Either it opens no connection: nothing opened is logged and the
    adapter is connected after it only if it was before.  Or the operation is
    the end of a handshake, which makes the adapter [a1], opened and
    connected, and signals ConnectEvent on it; then, unless the adapter is set
    to ignore bad certificates at that time, a host name was set, the peer's
    certificate on the very connection [a1] holds is made out for it as
    OpenSSL finds, and either OpenSSL verified its chain, or the custom
    verifier that is set consented to a certificate shown on this connection
    (in the call that opens it or in an earlier one). *)
Theorem opened_means_checked sock cache cache_ctx verifier os o a a' :
  performs (new_adapter sock cache cache_ctx verifier) os = Ok a -> perform a o = Ok a' ->
  (opens (log a') = opens (log a) /\ (state_ a' = SSL_CONNECTED -> state_ a = SSL_CONNECTED)) \/
  exists a1, log a1 = log a ++ [Opened] /\ state_ a1 = SSL_CONNECTED /\ config_ a1 = opened_config a o /\
    raise a1 ConnectEvent = Ok a' /\
    (ignore_bad_cert_ (config_ a1) = true \/
     exists ssl cert, ssl_ a1 = Some ssl /\ ssl_host_name_ (config_ a1) <> [] /\
       SSL_get_peer_certificate ssl = Some cert /\
       X509_check_host cert (ssl_host_name_ (config_ a1)) = 1 /\
       (SSL_get_verify_result ssl = X509_V_OK \/
        exists verify cert', ssl_cert_verifier_ (config_ a1) = Some verify /\ cert' ∈ consents a1 /\
          verify cert' = true)).
Proof.
  intros Ha Ho. assert (consents_ok (new_adapter sock cache cache_ctx verifier)) as Hj
    by (split; [done|split; [by constructor|done]]).
  pose proof (safely_value _ _ _ (performs_careful os _ Hj) Ha) as Hj'.
  destruct (safely_value _ _ _ (perform_careful a o Hj') Ho) as [_ [Hc|Hop]]; [by left|right].
  destruct Hop as (a1 & Hl & Hcf & Hst & Hck & Hr). exists a1. split; [done|]. split; [done|]. split; [done|].
  split; [done|]. unfold checked in Hck. rewrite Hcf in Hck |- *. exact Hck.
Qed.

(** An adapter of a factory gives its context up when it is closed, and makes
    no other: it cannot start again. *)
Lemma cached_starts_once a hostname :
  ssl_session_cache_ (config_ a) <> None -> socket_GetState (socket_ (Close a).2) = CS_CONNECTED ->
  exists a', StartSSL (Close a).2 hostname = Ok (-1, a') /\ state_ a' = SSL_ERROR.
Proof.
  assert (forall b, state_ b = SSL_CONNECTING -> ssl_session_cache_ (config_ b) <> None -> ssl_ctx_ b = None ->
    BeginSSL b = Ok (-1, Cleanup b)) as Hb.
  { intros b Hst Hc Hx. unfold BeginSSL, begin_ssl. rewrite bool_decide_eq_true_2 by done. cbn [require].
    destruct (ssl_session_cache_ (config_ b)); [|done]. rewrite !bind_ok, Hx. reflexivity. }
  intros Hc Hs. assert (state_ (Close a).2 = SSL_NONE /\ ssl_ctx_ (Close a).2 = None /\
    config_ (Close a).2 = config_ a) as (Hst & Hx & Hcfg).
  { unfold Close. by destruct (socket_Close (socket_ _)). }
  unfold StartSSL. rewrite bool_decide_eq_true_2 by done. cbn [negb].
  change (socket_ (set_host _ _)) with (socket_ (Close a).2). rewrite Hs.
  cbn [negb bool_decide decide_rel]. rewrite Hb; [|done|unfold set_host; cbn; by rewrite Hcfg|done].
  rewrite bind_ok. by eexists.
Qed.

(** *** The factory *)
Record factory := mkFactory {
  factory_mode : SSLMode;
  factory_role : SSLRole;
  factory_ignore_bad_cert : bool;
  factory_identity : option I;
  factory_cache : option (session_cache SESSION * SSL_CTX I);
  factory_cert_verifier : option (C -> bool)
}.

Definition new_factory : factory :=
  mkFactory OpenSslStream.SSL_MODE_TLS OpenSslStream.SSL_CLIENT false None None None.

Inductive factory_setting :=
  | FMode (mode : SSLMode)
  | FCertVerifier (verifier : option (C -> bool))
  | FIdentity (identity : I)
  | FRole (role : SSLRole)
  | FIgnoreBadCert (ignore : bool).

Definition factory_set (f : factory) (x : factory_setting) : res factory :=
  let 'mkFactory mode role ignore identity cache verifier := f in
  _ ← require (match cache with None => true | Some _ => false end) AssertFailed;
  Ok (match x with
      | FMode m => mkFactory m role ignore identity cache verifier
      | FCertVerifier v => mkFactory mode role ignore identity cache v
      | FIdentity i => mkFactory mode role ignore (Some i) cache verifier
      | FRole r => mkFactory mode r ignore identity cache verifier
      | FIgnoreBadCert b => mkFactory mode role b identity cache verifier
      end).

Definition CreateAdapter (f : factory) (socket : S) : res (option Adapter * factory) :=
  let 'mkFactory mode role ignore identity cache verifier := f in
  let cache :=
    match cache with
    | Some c => Some c
    | None => ctx ← CreateContext mode true; Some (new_cache mode, ctx)
    end in
  match cache with
  | None => Ok (None, f)
  | Some (c, ctx) =>
      let f := mkFactory mode role ignore identity (Some (c, ctx)) verifier in
      let a := new_adapter socket (Some c) (Some ctx) verifier in
      a ← change a (SetRole role);
      a ← change a (SetIgnoreBadCert ignore);
      a ← match identity with Some i => SetIdentity a i | None => Ok a end;
      Ok (Some a, f)
  end.

(** The adapters a factory makes are as it was set, and share its context,
    which has roots, checks the peer and keeps sessions. *)
Definition factory_ctx_ok (f : factory) : Prop :=
  match factory_cache f with
  | None => True
  | Some (c, ctx) =>
      cache_mode c = factory_mode f /\ ctx_mode ctx = factory_mode f /\ ctx_roots _ ctx = true /\
      ctx_verify_mode _ ctx = SSL_VERIFY_PEER /\ ctx_cache_mode _ ctx = Some SSL_SESS_CACHE_CLIENT
  end.

Lemma CreateAdapter_ok f socket :
  factory_ctx_ok f ->
  exists oa f', CreateAdapter f socket = Ok (oa, f') /\ factory_ctx_ok f' /\
    match oa with
    | None => f' = f /\ factory_cache f = None
    | Some a =>
        wf a /\ state_ a = SSL_NONE /\ identity_ a = factory_identity f /\
        role_ (config_ a) = factory_role f /\ ignore_bad_cert_ (config_ a) = factory_ignore_bad_cert f /\
        (exists c ctx, factory_cache f' = Some (c, ctx) /\ ssl_session_cache_ (config_ a) = Some c /\
           ssl_ctx_ a = Some ctx) /\
        forall x, factory_set f' x = Fail AssertFailed
    end.
Proof.
  destruct f as [mode role ignore identity cache verifier]. unfold factory_ctx_ok, CreateAdapter. cbn.
  intros Hf. destruct (match cache with Some c => _ | None => _ end) as [[c ctx]|] eqn:E.
  - assert (cache_mode c = mode /\ ctx_mode ctx = mode /\ ctx_roots I ctx = true /\
      ctx_verify_mode I ctx = SSL_VERIFY_PEER /\ ctx_cache_mode I ctx = Some SSL_SESS_CACHE_CLIENT) as Hok.
    { destruct cache as [[c' ctx']|]; [by simplify_eq|]. unfold CreateContext in E.
      destruct (SSL_CTX_new mode); [|done]. destruct LoadBuiltinSSLRootCertificates; [|done]. by simplify_eq/=. }
    destruct identity; cbn; eexists _, _; (split; [done|]); (split; [exact Hok|]); repeat (split; [done|]).
    all: split; [by eexists _, _|done].
  - destruct cache; [done|]. cbn. by eexists _, _.
Qed.
End Adapter.

(** ** Application protocols *)

(** Each protocol is preceded by its length, 1 to 255 (RFC 7301). *)
Fixpoint parse_alpn (fuel : nat) (bs : bytes) : option (list bytes) :=
  match fuel, bs with
  | _, [] => Some []
  | O, _ => None
  | S fuel, n :: bs =>
      if (1 <=? n) && (n <=? zlen bs) then
        protos ← parse_alpn fuel (drop (Z.to_nat n) bs); Some (take (Z.to_nat n) bs :: protos)
      else None
  end.

Definition valid_proto (proto : bytes) : bool := (1 <=? zlen proto) && (zlen proto <=? 255).

Lemma alpn_loop_spec protos acc :
  alpn_loop protos acc =
    if forallb valid_proto protos then acc ++ concat ((fun p => u8 (zlen p) :: p) <$> protos) else [].
Proof.
  revert acc. induction protos as [|p protos IH]; intros acc; cbn; [by rewrite app_nil_r|].
  pose proof (zlen_nonneg p). unfold valid_proto at 1.
  destruct (Z.eqb_spec (zlen p) 0) as [->|]; [done|]. rewrite (proj2 (Z.leb_le 1 _)) by lia. cbn [andb orb].
  destruct (Z.ltb_spec 255 (zlen p)).
  - by rewrite (proj2 (Z.leb_gt _ _)) by lia.
  - rewrite (proj2 (Z.leb_le _ _)), IH by lia. by rewrite <- !app_assoc.
Qed.

Lemma parse_alpn_concat protos fuel :
  forallb valid_proto protos = true -> (length protos <= fuel)%nat ->
  parse_alpn fuel (concat ((fun p => u8 (zlen p) :: p) <$> protos)) = Some protos.
Proof.
  revert fuel. induction protos as [|p protos IH]; intros fuel Hv Hf; [by destruct fuel|].
  destruct fuel as [|fuel]; [cbn in Hf; lia|]. cbn in Hv, Hf. apply andb_true_iff in Hv as [Hp Hv].
  apply andb_true_iff in Hp as [H1 H2]. apply Z.leb_le in H1, H2. cbn -[u8]. rewrite u8_small by lia.
  rewrite zlen_app. pose proof (zlen_nonneg (concat ((fun q => u8 (zlen q) :: q) <$> protos))).
  rewrite (proj2 (Z.leb_le 1 _)), (proj2 (Z.leb_le _ _)) by lia. cbn [andb].
  assert (Z.to_nat (zlen p) = length p) as -> by (unfold zlen; lia).
  rewrite drop_app_length, take_app_length, IH; [done|done|lia].
Qed.

(** The protocols an adapter offers reach the peer as they were set: a
    reader of the TLS extension gets the list back if each is 1 to 255 bytes
    long, and otherwise none is offered. *)
Theorem alpn_roundtrip protos :
  let sent := TransformAlpnProtocols protos in
  if forallb valid_proto protos then parse_alpn (length sent) sent = Some protos else sent = [].
Proof.
  cbn zeta. unfold TransformAlpnProtocols. rewrite alpn_loop_spec. destruct (forallb valid_proto protos) eqn:Hv; [|done].
  cbn [app]. apply parse_alpn_concat; [done|]. clear Hv. induction protos as [|p protos IH]; [done|].
  cbn -[u8]. rewrite length_app. lia.
Qed.

(** ** The cache *)
Lemma AddSession_keeps {SESSION} (c : session_cache SESSION) h s :
  destroy_cache (AddSession c h s) ≡ₚ s :: destroy_cache c.
Proof.
  unfold destroy_cache, AddSession, LookupSession. cbn. destruct (sessions_ c !! h) as [old|] eqn:E; cbn.
  - rewrite <- (map_to_list_delete _ _ _ E), <- insert_delete_eq, map_to_list_insert by apply lookup_delete_eq.
    cbn. rewrite <- app_assoc. cbn. rewrite <- !Permutation_middle. apply perm_swap.
  - rewrite app_nil_r, map_to_list_insert by done. cbn. by rewrite Permutation_middle.
Qed.

(** The session cache frees every session it was given once, when another
    comes for the same host or at its end, and hands out the last one given
    for a host. *)
Theorem cache_frees_each_once {SESSION} mode (l : list (bytes * SESSION)) :
  let c := fold_left (fun c '(h, s) => AddSession c h s) l (new_cache mode) in
  destroy_cache c ≡ₚ l.*2 /\
  forall h, LookupSession c h = snd <$> list.last (base.filter (fun p : bytes * SESSION => p.1 = h) l).
Proof.
  cbn zeta. induction l as [|[h s] l [IHp IHl]] using rev_ind; [split; [done|intros h; apply lookup_empty]|].
  rewrite fold_left_app. cbn [fold_left]. split.
  - rewrite AddSession_keeps, IHp, fmap_app. cbn. apply Permutation_cons_append.
  - intros h'. rewrite list.filter_app. unfold LookupSession, AddSession. cbn [sessions_].
    destruct (decide (h = h')) as [->|Hn].
    + rewrite lookup_insert_eq, list.filter_cons_True, list.filter_nil, list.last_snoc by done. done.
    + rewrite lookup_insert_ne, list.filter_cons_False, list.filter_nil, app_nil_r by done. apply IHl.
Qed.

(** ** A socket and an OpenSSL to run

    The socket takes data unless it is blocked. *)
Record toy_socket := mkSocket {
  toy_state : ConnState;
  toy_inbox : list bytes;
  toy_blocked : bool;
  toy_sent : list bytes
}.

#[export] Instance toy_Socket : Socket toy_socket Z := {|
  socket_Send s bs :=
    if toy_blocked s then (-1, s)
    else (zlen bs, mkSocket (toy_state s) (toy_inbox s) false (toy_sent s ++ [bs]));
  socket_Recv s n :=
    match toy_inbox s with
    | [] => (-1, [], s)
    | bs :: rest => (zlen bs, bs, mkSocket (toy_state s) rest (toy_blocked s) (toy_sent s))
    end;
  socket_SendTo s bs _ := (zlen bs, s);
  socket_IsBlocking _ := true;
  socket_GetState := toy_state;
  socket_GetRemoteAddress _ := 1;
  socket_SetError s _ := s;
  socket_Close s := (0, mkSocket CS_CLOSED [] false (toy_sent s))
|}.

(** The peer sends its certificate, a number that is also the host's name; the
    chain is that of a private authority.  Records go through as they are. *)
Record toy_ssl := mkSsl { toy_taken : bytes; toy_unfinished : option bytes; toy_peer : option Z }.

Definition toy_write (s : toy_ssl) (bs : bytes) : ssl_prog (bool * Z) (Z * Z * toy_ssl) :=
  let record := take (Z.to_nat SSL3_RT_MAX_PLAIN_LENGTH) bs in
  OpenSslStream.ssl_act (OpenSslStream.bio_write (Some record)) (fun r => OpenSslStream.ssl_ret (
    if 0 <? OpenSslStream.bio_code r
    then (zlen record, SSL_ERROR_NONE, mkSsl (toy_taken s ++ record) None (toy_peer s))
    else (-1, SSL_ERROR_WANT_WRITE, mkSsl (toy_taken s) (Some bs) (toy_peer s)))).

Definition toy_read (s : toy_ssl) (n : Z) : ssl_prog (bool * Z) (Z * Z * bytes * toy_ssl) :=
  OpenSslStream.ssl_act (OpenSslStream.bio_read (Some 100)) (fun r => OpenSslStream.ssl_ret (
    let data := take (Z.to_nat n) (OpenSslStream.bio_data r) in
    if 0 <? zlen data then (zlen data, SSL_ERROR_NONE, data, s) else (-1, SSL_ERROR_WANT_READ, [], s))).

Definition toy_connect (s : toy_ssl) : ssl_prog (bool * Z) (Z * Z * toy_ssl) :=
  OpenSslStream.ssl_act (OpenSslStream.bio_read (Some 100)) (fun r =>
    match OpenSslStream.bio_data r with
    | [] => OpenSslStream.ssl_ret (-1, SSL_ERROR_WANT_READ, s)
    | cert :: _ =>
        OpenSslStream.ssl_act (OpenSslStream.verify_peer (false, cert)) (fun ok => OpenSslStream.ssl_ret (
          let s := mkSsl (toy_taken s) (toy_unfinished s) (Some cert) in
          if ok then (1, SSL_ERROR_NONE, s) else (-1, 1, s)))
    end).

Lemma toy_write_law s bs :
  outcomes false (toy_write s bs) None (fun _ '(code, err, s') =>
    toy_unfinished s = None \/ toy_unfinished s = Some bs ->
    (err = SSL_ERROR_NONE ->
       Z.min (zlen bs) SSL3_RT_MAX_PLAIN_LENGTH <= code <= zlen bs /\
       toy_taken s' = toy_taken s ++ take (Z.to_nat code) bs /\ toy_unfinished s' = None) /\
    (err = SSL_ERROR_WANT_READ \/ err = SSL_ERROR_WANT_WRITE ->
       toy_taken s' = toy_taken s /\ toy_unfinished s' = Some bs) /\
    (err = SSL_ERROR_ZERO_RETURN -> toy_taken s' = toy_taken s /\ toy_unfinished s' = toy_unfinished s)).
Proof.
  assert (zlen (take (Z.to_nat SSL3_RT_MAX_PLAIN_LENGTH) bs) = Z.min (zlen bs) SSL3_RT_MAX_PLAIN_LENGTH) as Hl.
  { unfold zlen, SSL3_RT_MAX_PLAIN_LENGTH. rewrite length_take. lia. }
  cbn -[take Z.to_nat]. split; [rewrite Hl; unfold SSL3_RT_MAX_PLAIN_LENGTH; lia|]. intros r.
  destruct (0 <? _); intros _; (split; [|split]); try done; try (by intros [|]).
  intros _. rewrite Hl. split; [unfold SSL3_RT_MAX_PLAIN_LENGTH; lia|]. split; [|done]. cbn [toy_taken].
  f_equal. unfold zlen, SSL3_RT_MAX_PLAIN_LENGTH. destruct (Z.min_spec (Z.of_nat (length bs)) 16384) as [[? ->]|[? ->]]; [|done].
  rewrite Nat2Z.id, !take_ge by lia. done.
Qed.

#[export] Program Instance toy_TlsLib : TlsLib Z Z toy_ssl Z := {|
  SSL_CTX_new _ := true;
  d2i_X509 bs := head bs;
  X509_STORE_add_cert _ := 1;
  SSL_CTX_use_certificate _ := 1;
  SSL_CTX_use_PrivateKey _ := 1;
  SSL_CTX_add1_chain_cert _ := [];
  BIO_new_ok := true;
  SSL_new _ := Some (mkSsl [] None None);
  SSL_set s _ := s;
  SSL_set_session s _ := (1, s);
  SSL_connect := toy_connect;
  SSL_accept := toy_connect;
  SSL_write := toy_write;
  SSL_read := toy_read;
  SSL_get_peer_certificate := toy_peer;
  X509_check_host cert host := if bool_decide (host = [cert]) then 1 else 0;
  SSL_get_verify_result _ := 19;
  SSL_session_reused _ := 0;
  DTLSv1_get_timeout _ := Some (1, 500000);
  DTLSv1_handle_timeout s := OpenSslStream.ssl_ret s;
  taken := toy_taken;
  unfinished := toy_unfinished;
  asks_eof := false;
|}.
Next Obligation. by intros _ s [= <-]. Qed.
Next Obligation. done. Qed.
Next Obligation. done. Qed.
Next Obligation. intros s. cbn. split; [lia|]. intros r. destruct (OpenSslStream.bio_data r); [done|]. by intros []. Qed.
Next Obligation. intros s. cbn. split; [lia|]. intros r. destruct (OpenSslStream.bio_data r); [done|]. by intros []. Qed.
Next Obligation.
  intros s n. cbn -[take Z.to_nat]. split; [lia|]. intros r.
  destruct (Z.ltb_spec 0 (zlen (take (Z.to_nat n) (OpenSslStream.bio_data r)))) as [Hl|]; [|done].
  split; [done|]. intros _. split; [|done]. split; [done|]. revert Hl. unfold zlen. rewrite length_take. lia.
Qed.
Next Obligation. done. Qed.
Next Obligation. by intros _ sec usec [= <- <-]. Qed.
Next Obligation. intros s bs _. apply toy_write_law. Qed.

Abbreviation toy_adapter := (adapter toy_socket Z Z toy_ssl Z).

Definition toy_connected (inbox : list bytes) (blocked : bool) : toy_socket := mkSocket CS_CONNECTED inbox blocked [].

Definition toy_client (s : signal) (l : list event) : list call :=
  match s with ReadEvent => [CRecv 100] | CloseEvent _ => [CSend [9]] | _ => [] end.

Lemma toy_client_small s l : Forall small_call (toy_client s l).
Proof. destruct s; cbn; repeat constructor; by vm_compute. Qed.

(** A verifier that trusts the certificate of the host [A]. *)
Definition toy_adapter_for (s : toy_socket) : toy_adapter := new_adapter s None None (Some (fun c => 65 <=? c)).

Definition toy_end (roots : list bytes) (s : toy_socket) (os : list (@op toy_socket Z Z Z)) :
    res (SSLState * list event * option bytes) :=
  (fun a : toy_adapter => (state_ a, log a, toy_taken <$> ssl_ a)) <$>
    performs roots toy_client (toy_adapter_for s) os.

Definition toy_open : list (@op toy_socket Z Z Z) :=
  [OStartSSL [65]; OBelow (toy_connected [[65]] false); ORead].

(** Data the socket has no room for is sent later, after what came before. *)
Definition toy_session : list (@op toy_socket Z Z Z) :=
  toy_open ++ [OCall (CSend [1; 2]); OBelow (toy_connected [] true); OCall (CSend [3]);
               OBelow (toy_connected [] false); OWrite].

Example socket_runs :
  toy_end [[1]] (toy_connected [] false) toy_session =
    Ok (SSL_CONNECTED,
        [Opened; Signalled ConnectEvent; Accepted [1; 2]; Accepted [3]; Signalled WriteEvent],
        Some [1; 2; 3]) /\
  (* a certificate the verifier does not trust *)
  toy_end [[1]] (toy_connected [] false) [OStartSSL [65]; OBelow (toy_connected [[64]] false); ORead] =
    Ok (SSL_ERROR, [Signalled (CloseEvent (-1))], Some []).
Proof. split; vm_compute; reflexivity. Qed.

(** A handshake that cannot begin when the socket connects leaves the adapter
    as one without TLS: what the slot of the close event sends goes out in
    clear. *)
Example clear_text_after_failure :
  toy_end [] (mkSocket CS_CONNECTING [] false []) [OStartSSL [65]; OBelow (toy_connected [] false); OConnect] =
    Ok (SSL_NONE, [Signalled (CloseEvent (-1)); Clear_sent [9] 1], None).
Proof. vm_compute. reflexivity. Qed.

(** A peer that is not the host, found out while the timer runs the
    handshake, is not reported, and the adapter goes on without TLS. *)
Example timer_drops_to_clear :
  toy_end [[1]] (toy_connected [] false)
    [OStartSSL [65]; OBelow (toy_connected [[66]] false); OTimer; OCall (CSend [9])] =
    Ok (SSL_NONE, [Clear_sent [9] 1], None).
Proof. vm_compute. reflexivity. Qed.

(** A write larger than a record, taken when the socket was blocked, is sent
    from its start each time: its first record goes out again and again. *)
Example large_write_repeats :
  (fun '(_, _, t) => zlen (default [] t)) <$>
    toy_end [[1]] (toy_connected [] false)
      (toy_open ++ [OBelow (toy_connected [] true); OCall (CSend (replicate 16385 7));
                    OBelow (toy_connected [] false); OWrite; OWrite; OWrite]) = Ok (3 * 16384).
Proof. vm_compute. reflexivity. Qed.

Example socket_eof_faults : socket_ctrl OpenSslStream.BIO_CTRL_EOF = Fail NullDeref.
Proof. reflexivity. Qed.

Example alpn_example :
  TransformAlpnProtocols [lit "h2"; lit "turn"] = 2 :: lit "h2" ++ 4 :: lit "turn" /\
  TransformAlpnProtocols [lit "h2"; []] = [].
Proof. by vm_compute. Qed.


Lemma opened_means_checked_witness :
  exists a a' : toy_adapter,
    performs [[1]] toy_client (toy_adapter_for (toy_connected [] false)) (take 2 toy_open) = Ok a /\
    perform [[1]] toy_client a ORead = Ok a' /\ opens (log a) = 0%nat /\ opens (log a') = 1%nat /\
    ((opens (log a') = opens (log a) /\ (state_ a' = SSL_CONNECTED -> state_ a = SSL_CONNECTED)) \/
     exists a1, log a1 = log a ++ [Opened] /\ state_ a1 = SSL_CONNECTED /\ config_ a1 = opened_config a ORead /\
       raise toy_client a1 ConnectEvent = Ok a' /\
       (ignore_bad_cert_ (config_ a1) = true \/
        exists ssl cert, ssl_ a1 = Some ssl /\ ssl_host_name_ (config_ a1) <> [] /\
          SSL_get_peer_certificate ssl = Some cert /\
          X509_check_host cert (ssl_host_name_ (config_ a1)) = 1 /\
          (SSL_get_verify_result ssl = X509_V_OK \/
           exists verify cert', ssl_cert_verifier_ (config_ a1) = Some verify /\ cert' ∈ consents a1 /\
             verify cert' = true))).
Proof.
  eexists _, _. split; [vm_compute; reflexivity|]. split; [vm_compute; reflexivity|].
  split; [reflexivity|]. split; [reflexivity|].
  apply (opened_means_checked [[1]] toy_client (toy_connected [] false) None None (Some (fun c => 65 <=? c))
           (take 2 toy_open)); vm_compute; reflexivity.
Defined.
