(* ===== verification/SslCiphers.v ===== *)
(** * rtc_base/openssl_stream_adapter.cc: cipher suite tables

    The names of the TLS cipher suites and the two lists of acceptable ones,
    for OpenSSL (not BoringSSL).  The suites' numbers are OpenSSL's: the two
    bytes of the IANA id below [0x0300]. *)
From S2P Require Import Prelude.
From S2P Require Import SslIdentity.
Local Open Scope Z_scope.

(** OpenSSL's [TLS1_CK_*] for an IANA id. *)
Definition CK (id : Z) : Z := 50331648 + id.

Definition kSslCipherMap : list (Z * bytes) := [
  (CK 5, lit "TLS_RSA_RC4_128_SHA");
  (CK 10, lit "TLS_RSA_WITH_3DES_EDE_CBC_SHA");
  (CK 47, lit "TLS_RSA_WITH_AES_128_CBC_SHA");
  (CK 51, lit "TLS_DHE_RSA_WITH_AES_128_CBC_SHA");
  (CK 53, lit "TLS_RSA_WITH_AES_256_CBC_SHA");
  (CK 57, lit "TLS_DHE_RSA_WITH_AES_256_CBC_SHA");
  (CK 49159, lit "TLS_ECDHE_ECDSA_WITH_RC4_128_SHA");
  (CK 49160, lit "TLS_ECDHE_ECDSA_WITH_3DES_EDE_CBC_SHA");
  (CK 49161, lit "TLS_ECDHE_ECDSA_WITH_AES_128_CBC_SHA");
  (CK 49162, lit "TLS_ECDHE_ECDSA_WITH_AES_256_CBC_SHA");
  (CK 49169, lit "TLS_ECDHE_RSA_WITH_RC4_128_SHA");
  (CK 49170, lit "TLS_ECDHE_RSA_WITH_3DES_EDE_CBC_SHA");
  (CK 49171, lit "TLS_ECDHE_RSA_WITH_AES_128_CBC_SHA");
  (CK 49172, lit "TLS_ECDHE_RSA_WITH_AES_256_CBC_SHA");
  (CK 60, lit "TLS_RSA_WITH_AES_128_CBC_SHA256");
  (CK 61, lit "TLS_RSA_WITH_AES_256_CBC_SHA256");
  (CK 103, lit "TLS_DHE_RSA_WITH_AES_128_CBC_SHA256");
  (CK 107, lit "TLS_DHE_RSA_WITH_AES_256_CBC_SHA256");
  (CK 156, lit "TLS_RSA_WITH_AES_128_GCM_SHA256");
  (CK 157, lit "TLS_RSA_WITH_AES_256_GCM_SHA384");
  (CK 158, lit "TLS_DHE_RSA_WITH_AES_128_GCM_SHA256");
  (CK 159, lit "TLS_DHE_RSA_WITH_AES_256_GCM_SHA384");
  (CK 160, lit "TLS_DH_RSA_WITH_AES_128_GCM_SHA256");
  (CK 161, lit "TLS_DH_RSA_WITH_AES_256_GCM_SHA384");
  (CK 49187, lit "TLS_ECDHE_ECDSA_WITH_AES_128_CBC_SHA256");
  (CK 49188, lit "TLS_ECDHE_ECDSA_WITH_AES_256_CBC_SHA384");
  (CK 49191, lit "TLS_ECDHE_RSA_WITH_AES_128_CBC_SHA256");
  (CK 49192, lit "TLS_ECDHE_RSA_WITH_AES_256_CBC_SHA384");
  (CK 49195, lit "TLS_ECDHE_ECDSA_WITH_AES_128_GCM_SHA256");
  (CK 49196, lit "TLS_ECDHE_ECDSA_WITH_AES_256_GCM_SHA384");
  (CK 49199, lit "TLS_ECDHE_RSA_WITH_AES_128_GCM_SHA256");
  (CK 49200, lit "TLS_ECDHE_RSA_WITH_AES_256_GCM_SHA384")].

(** [static_cast<int>(entry->openssl_id)] is the id itself: it fits. *)
Definition SslCipherSuiteToName (cipher_suite : Z) : bytes :=
  default [] (snd <$> List.find (fun e : Z * bytes => cipher_suite =? fst e) kSslCipherMap).

(** The macro [CDEF]. *)
Definition CDEF (ck : Z) (name : bytes) : Z * bytes := (u16 (Z.land ck 65535), name).

(** OpenSSL defines no [TLS1_CK_*] of the names in the two [#ifdef]s. *)
Definition OK_RSA_ciphers : list (Z * bytes) := [
  CDEF (CK 49171) (lit "TLS_ECDHE_RSA_WITH_AES_128_CBC_SHA");
  CDEF (CK 49172) (lit "TLS_ECDHE_RSA_WITH_AES_256_CBC_SHA");
  CDEF (CK 49199) (lit "TLS_ECDHE_RSA_WITH_AES_128_GCM_SHA256")].

Definition OK_ECDSA_ciphers : list (Z * bytes) := [
  CDEF (CK 49161) (lit "TLS_ECDHE_ECDSA_WITH_AES_128_CBC_SHA");
  CDEF (CK 49162) (lit "TLS_ECDHE_ECDSA_WITH_AES_256_CBC_SHA");
  CDEF (CK 49195) (lit "TLS_ECDHE_ECDSA_WITH_AES_128_GCM_SHA256")].


Definition ok_ciphers (key_type : KeyType) : list (Z * bytes) :=
  match key_type with KT_RSA => OK_RSA_ciphers | KT_ECDSA => OK_ECDSA_ciphers | KT_LAST => [] end.

(** The two overloads of [IsAcceptableCipher]. *)
Definition IsAcceptableCipher (cipher : Z) (key_type : KeyType) : bool :=
  existsb (fun e => cipher =? fst e) (ok_ciphers key_type).

Definition IsAcceptableCipher_name (cipher : bytes) (key_type : KeyType) : bool :=
  existsb (fun e => bool_decide (cipher = snd e)) (ok_ciphers key_type).

(** What [GetSslCipherSuite] stores for the current cipher's OpenSSL id. *)
Definition cipher_suite_id (openssl_id : Z) : Z := u16 openssl_id.

(** The checks below run over the whole table. *)
Definition row_ok (e : Z * bytes) : bool :=
  let '(ck, name) := e in
  bool_decide (SslCipherSuiteToName ck = name)
  && bool_decide (SslCipherSuiteToName (cipher_suite_id ck) = [])
  && Bool.eqb (IsAcceptableCipher (cipher_suite_id ck) KT_RSA) (IsAcceptableCipher_name name KT_RSA)
  && Bool.eqb (IsAcceptableCipher (cipher_suite_id ck) KT_ECDSA) (IsAcceptableCipher_name name KT_ECDSA).

Lemma rows_ok : forallb row_ok kSslCipherMap = true.
Proof. vm_compute. reflexivity. Qed.

(** Every suite of the table is found by OpenSSL's number, and is acceptable
    by its IANA id exactly when it is by its name; but the id that
    [GetSslCipherSuite] answers is never found in the table. *)
Theorem cipher_table (ck : Z) (name : bytes) :
  (ck, name) ∈ kSslCipherMap ->
  SslCipherSuiteToName ck = name /\
  SslCipherSuiteToName (cipher_suite_id ck) = [] /\
  (forall key_type, IsAcceptableCipher (cipher_suite_id ck) key_type =
                    IsAcceptableCipher_name name key_type).
Proof.
  intros Hin. pose proof rows_ok as Hr. rewrite forallb_forall in Hr.
  specialize (Hr (ck, name) (proj1 (list_elem_of_In _ _) Hin)). unfold row_ok in Hr.
  rewrite !andb_true_iff, !bool_decide_eq_true, !Bool.eqb_true_iff in Hr.
  destruct Hr as [[[E1 E2] E3] E4]. split; [done|]. split; [done|]. by intros [].
Qed.

Lemma cipher_table_witness :
  SslCipherSuiteToName (CK 49199) = lit "TLS_ECDHE_RSA_WITH_AES_128_GCM_SHA256" /\
  SslCipherSuiteToName (cipher_suite_id (CK 49199)) = [] /\
  (forall key_type, IsAcceptableCipher (cipher_suite_id (CK 49199)) key_type =
     IsAcceptableCipher_name (lit "TLS_ECDHE_RSA_WITH_AES_128_GCM_SHA256") key_type).
Proof.
  apply (cipher_table (CK 49199) (lit "TLS_ECDHE_RSA_WITH_AES_128_GCM_SHA256")).
  apply (list_elem_of_lookup_2 _ 30). reflexivity.
Defined.
