(* ===== verification/DtlsKeys.v ===== *)
(** * udp/rtc_dtls.cpp over rtc_base/openssl_stream_adapter.cc

    [RtcDtls] with the real adapter: [OpenSslStream] gives an instance of the
    interface [Dtls.SslAdapter], so the transport's theorems hold of it, and the
    keys it extracts are shown to come from a handshake with the peer whose
    fingerprint was set.

    The interface passes the stream beside the adapter; here it is put into the
    adapter for the call.  [SignalEvent] is the last thing [OnEvent] does for
    the events [DtlsStreamInterface] raises, so the client's reads follow it.
    The client is given [max_reads] reads for each signal.  The interface has
    no faults: where the adapter has one the answer is that of a refusal.
    [OpenSslStream.adapter_calls_safe] says when that is: the calls [RtcDtls]
    makes are allowed, so only with a library that asks its BIO for the end of
    file ([asks_eof]). *)
From S2P Require Import Prelude.
From S2P Require Buffer.
From S2P Require MessageDigest.
From S2P Require CryptoSuites.
From S2P Require BufferQueue.
From S2P Require Dtls.
From S2P Require Import OpenSslStream.
Local Open Scope Z_scope.

Section Keys.
Context {C I SSL : Type} `{OpenSSL C I SSL} (identity : I) (max_reads : nat).
Abbreviation Adapter := (adapter Dtls.DtlsStreamInterface C I SSL).

(** The value, or [x] where the call does not return one. *)
Definition settled {X} (m : res X) (x : X) : X := match m with Ok y => y | Fail _ => x end.

(** [RtcDtls::setup_dtls] up to the connection of the slots. *)
Definition configure_adapter (a : Adapter) : res Adapter :=
  a ← SetIdentity a identity;
  a ← SetMode a SSL_MODE_DTLS;
  a ← SetMaxProtocolVersion a SSL_PROTOCOL_DTLS_12;
  Ok (SetServerRole a SSL_SERVER).

(** The reads of [slot_dtls_event], with their results. *)
Fixpoint drain_log (n : nat) (a : Adapter) : list Dtls.StreamResult * Adapter :=
  match n with
  | O => ([], a)
  | S n =>
      match Read quiet a Dtls.k_max_dtls_packet_len with
      | Ok (r, _, _, a) =>
          match r with
          | Dtls.SR_SUCCESS => let '(rs, a) := drain_log n a in (r :: rs, a)
          | _ => ([r], a)
          end
      | Fail _ => ([], a)
      end
  end.

(** The signals raised, each followed by the client's reads. *)
Fixpoint deliver (rs : list raised) (a : Adapter) : list Dtls.dtls_signal * Adapter :=
  match rs with
  | [] => ([], a)
  | r :: rs =>
      let '(reads, a) := if has (r_events r) SE_READ then drain_log max_reads a else ([], a) in
      let '(es, a) := deliver rs a in
      (Dtls.mkSignal (r_events r) (r_err r) reads :: es, a)
  end.

Definition adapter_start (a : Adapter) (s : Dtls.DtlsStreamInterface)
    : Z * Adapter * Dtls.DtlsStreamInterface :=
  let '(r, a) := settled (StartSSL quiet (set_stream a s)) (-1, set_stream a s) in
  (r, a, stream_ a).

Definition adapter_readable (a : Adapter) (s : Dtls.DtlsStreamInterface)
    : Adapter * Dtls.DtlsStreamInterface * list Dtls.dtls_signal :=
  let a0 := set_stream a s in
  let a1 := settled (OnEvent quiet a0 SE_READ 0) a0 in
  let '(es, a2) := deliver (drop (length (signals a0)) (signals a1)) a1 in
  (a2, stream_ a2, es).

Definition adapter_digest (a : Adapter) (alg v : bytes) : bool * Adapter :=
  let '(ok, _, a) := settled (SetPeerCertificateDigest quiet a alg v) (false, NONE, a) in (ok, a).

Definition adapter_suite (a : Adapter) : option Z := settled (GetDtlsSrtpCryptoSuite a) None.

Definition adapter_export (a : Adapter) (label : bytes) (n : Z) : option bytes :=
  settled (ExportKeyingMaterial a label None n) None.

Lemma adapter_export_length a label n r : adapter_export a label n = Some r -> zlen r = n.
Proof.
  unfold adapter_export, ExportKeyingMaterial. destruct (ssl_ a) as [ssl|]; [|done].
  cbn. apply export_law.
Qed.

#[local] Instance OpenSSL_SslAdapter : Dtls.SslAdapter Adapter := {|
  Dtls.configure a := settled (configure_adapter a) a;
  Dtls.StartSSL := adapter_start;
  Dtls.on_readable := adapter_readable;
  Dtls.SetPeerCertificateDigest := adapter_digest;
  Dtls.SetDtlsSrtpCryptoSuites := SetDtlsSrtpCryptoSuites;
  Dtls.GetDtlsSrtpCryptoSuite := adapter_suite;
  Dtls.ExportKeyingMaterial := adapter_export;
  Dtls.export_length := adapter_export_length;
|}.

(** ** The adapter under the transport

    Sound, authenticating its client, and expecting the digest [v]. *)
Definition expects (alg v : bytes) (a : Adapter) : Prop :=
  inv a /\ GetClientAuthEnabled a = true /\ HasPeerCertificateDigest (peer_ a) = true /\
  peer_certificate_digest_algorithm_ (peer_ a) = alg /\
  Buffer.data (peer_certificate_digest_value_ (peer_ a)) = Ok v.

Lemma expects_later alg v a a' : expects alg v a -> inv a' -> later a a' -> expects alg v a'.
Proof.
  intros (Hi & Hg & Hh & Ha & Hv) Hi' (_ & _ & Hg' & Hk). destruct (Hk Hh) as [E1 E2].
  split; [done|]. split; [by rewrite Hg'|].
  split; [by rewrite (same_digest_has _ _ (Hk Hh))|]. by rewrite E1, E2.
Qed.

Lemma expects_stream alg v a s : expects alg v a -> dtls_stream_ok s -> expects alg v (set_stream a s).
Proof.
  intros He Hs. pose proof (set_stream_inv a s (proj1 He) Hs) as [Hi Hl].
  exact (expects_later alg v a _ He Hi Hl).
Qed.

Lemma stream_of_inv (a : Adapter) : inv a -> dtls_stream_ok (stream_ a).
Proof. by intros [[? _] _]. Qed.

Lemma start_expects alg v a s :
  expects alg v a -> dtls_stream_ok s ->
  let '(_, a', s') := adapter_start a s in expects alg v a' /\ dtls_stream_ok s'.
Proof.
  intros He Hs. apply (expects_stream _ _ _ s) in He as He'; [|done]. unfold adapter_start.
  pose proof (StartSSL_returns quiet quiet_ok (set_stream a s) (proj1 He')) as Hx.
  destruct (StartSSL quiet (set_stream a s)) as [[r a']|]; cbn [settled]; [|by split].
  destruct Hx as [Hi Hl]. split; [exact (expects_later _ _ _ _ He' Hi Hl) | by apply stream_of_inv].
Qed.

Lemma drain_expects alg v n : forall a, expects alg v a -> expects alg v (snd (drain_log n a)).
Proof.
  induction n as [|n IH]; intros a He; cbn [drain_log]; [done|].
  assert (Hlen : 0 <= Dtls.k_max_dtls_packet_len <= INT_MAX) by done.
  pose proof (Read_returns quiet quiet_ok a Dtls.k_max_dtls_packet_len (proj1 He) Hlen) as Hx.
  destruct (Read quiet a Dtls.k_max_dtls_packet_len) as [[[[r bs] e] a']|]; [|done].
  destruct Hx as [Hi Hl].
  pose proof (expects_later _ _ _ _ He Hi Hl) as He'. destruct r; try done.
  specialize (IH a' He'). by destruct (drain_log n a').
Qed.

Lemma deliver_expects alg v rs : forall a, expects alg v a -> expects alg v (snd (deliver rs a)).
Proof.
  induction rs as [|r rs IH]; intros a He; cbn [deliver]; [done|].
  assert (Hx : expects alg v (snd (if has (r_events r) SE_READ then drain_log max_reads a else ([], a)))).
  { destruct (has _ _); [by apply drain_expects | done]. }
  destruct (if has _ _ then _ else _) as [reads a1]. specialize (IH a1 Hx). by destruct (deliver rs a1).
Qed.

Lemma readable_expects alg v a s :
  expects alg v a -> dtls_stream_ok s ->
  let '(a', s', _) := adapter_readable a s in expects alg v a' /\ dtls_stream_ok s'.
Proof.
  intros He Hs. apply (expects_stream _ _ _ s) in He as He'; [|done]. unfold adapter_readable.
  pose proof (OnEvent_returns quiet quiet_ok (set_stream a s) SE_READ 0 (proj1 He') ltac:(done)) as Hx.
  set (a1 := settled (OnEvent _ _ _ _) _).
  assert (He1 : expects alg v a1).
  { subst a1. destruct (OnEvent quiet (set_stream a s) SE_READ 0) as [a1|]; [|done].
    destruct Hx as [Hi Hl]. exact (expects_later _ _ _ _ He' Hi Hl). }
  clearbody a1.
  pose proof (deliver_expects alg v (drop (length (signals (set_stream a s))) (signals a1)) a1 He1) as Hd.
  destruct (deliver _ a1) as [es a2]. split; [exact Hd | by apply stream_of_inv, Hd].
Qed.

Lemma packet_stream_ok s data :
  dtls_stream_ok s -> dtls_stream_ok (snd (Dtls.on_packet_receive s data)).
Proof.
  intros [l Hl]. unfold Dtls.on_packet_receive. destruct (Dtls._is_stop s); [by exists l|].
  destruct (decide (zlen l < BufferQueue.capacity_ (Dtls._que s))) as [Hlt|Hge].
  - destruct (BufferQueue.WriteBack_room _ l data Hl Hlt) as (q & -> & Hv & _). by exists (l ++ [data]).
  - pose proof (@BufferQueue.fifo_bounded _ BufferQueue.BufferQueue_fifo _ l Hl) as Hb.
    rewrite (@BufferQueue.fifo_write_full _ BufferQueue.BufferQueue_fifo _ l data Hl
               ltac:(change (zlen l <= BufferQueue.capacity_ (Dtls._que s)) in Hb;
                     change (zlen l = BufferQueue.capacity_ (Dtls._que s)); lia) :
             BufferQueue.WriteBack (Dtls._que s) data = (None, Dtls._que s)).
    by exists l.
Qed.

(** ** The transport *)

Definition transport_expects (alg v : bytes) (d : Dtls.RtcDtls Adapter) : Prop :=
  exists a, Dtls._dtls_adapter d = Some a /\ expects alg v a /\ dtls_stream_ok (Dtls._downward d).

Lemma start_dtls_expects alg v d d' :
  transport_expects alg v d -> Dtls.start_dtls d = Ok d' -> transport_expects alg v d'.
Proof.
  intros (a & Ha & He & Hs) E. unfold Dtls.start_dtls in E. case_bool_decide; [|by injection E as <-; exists a].
  rewrite Ha, from_opt_Some, bind_ok in E. cbn [Dtls.StartSSL OpenSSL_SslAdapter] in E.
  pose proof (start_expects alg v a (Dtls._downward d) He Hs) as Hx.
  destruct (adapter_start a (Dtls._downward d)) as [[r a'] s']. destruct Hx as [He' Hs'].
  injection E as <-. by exists a'.
Qed.

Lemma do_handle_expects alg v d data b d' :
  transport_expects alg v d -> Dtls.do_handle_dtls_packet d data = Ok (b, d') ->
  transport_expects alg v d'.
Proof.
  intros (a & Ha & He & Hs) E. unfold Dtls.do_handle_dtls_packet in E.
  apply res_bind_ok in E as (ok & _ & E). destruct (negb ok); [injection E as _ <-; by exists a|].
  pose proof (packet_stream_ok (Dtls._downward d) data Hs) as Hp.
  destruct (Dtls.on_packet_receive (Dtls._downward d) data) as [[flag|] s];
    [|injection E as _ <-; by exists a].
  rewrite Ha, from_opt_Some, bind_ok in E. cbn [Dtls.on_readable OpenSSL_SslAdapter] in E.
  pose proof (readable_expects alg v a s He Hp) as Hx.
  destruct (adapter_readable a s) as [[a' s'] es]. destruct Hx as [He' Hs'].
  injection E as _ <-. by exists a'.
Qed.

Lemma handle_dtls_expects alg v d data d' :
  transport_expects alg v d -> Dtls.handle_dtls d data = Ok d' -> transport_expects alg v d'.
Proof.
  intros Hd E. unfold Dtls.handle_dtls in E. apply res_bind_ok in E as (d1 & E1 & E).
  pose proof (start_dtls_expects alg v d d1 Hd E1) as Hd1.
  destruct (Dtls._state d1); try (by injection E as <-).
  - apply res_bind_ok in E as (hello & _ & E). destruct (negb hello); [by injection E as <-|].
    apply res_bind_ok in E as ([b d2] & E2 & E).
    pose proof (do_handle_expects alg v d1 data b d2 Hd1 E2) as Hd2.
    destruct b; injection E as <-; [|done]. destruct Hd2 as (a & ? & ? & ?). by exists a.
  - apply res_bind_ok in E as ([b d2] & E2 & E). injection E as <-.
    by apply (do_handle_expects alg v d1 data b d2).
Qed.

(** What happens to a transport once it is set up. *)
Definition after_setup (c : Dtls.dtls_call) : Prop :=
  match c with Dtls.call_handle_dtls _ | Dtls.call_destory => True | _ => False end.

Lemma do_calls_expects alg v cs : forall d d',
  Forall after_setup cs -> transport_expects alg v d -> Dtls.do_calls d cs = Ok d' ->
  transport_expects alg v d'.
Proof.
  induction cs as [|c cs IH]; intros d d' Hf Hd E; cbn [Dtls.do_calls] in E; [by injection E as <-|].
  apply list.Forall_cons in Hf as [Hc Hf]. apply res_bind_ok in E as (d1 & E1 & E).
  apply (IH d1 d' Hf); [|done]. destruct c; try done; cbn [Dtls.do_call] in E1.
  - by apply (handle_dtls_expects alg v d data d1).
  - injection E1 as <-. destruct Hd as (a & ? & ? & ?). by exists a.
Qed.

(** A transport that was set up expects the fingerprint it was given. *)
Lemma setup_expects legacy d0 alg v d1 d2 :
  Dtls.new_RtcDtls (new_adapter Dtls.new_stream legacy : Adapter) = Ok d0 ->
  Dtls.set_remote_dtls d0 alg v = Ok d1 -> Dtls.setup_dtls d1 = Ok (true, d2) ->
  transport_expects alg v d2.
Proof.
  intros E0 E1 E2. unfold Dtls.new_RtcDtls in E0. apply res_bind_ok in E0 as (l & _ & E0).
  injection E0 as <-. unfold Dtls.set_remote_dtls in E1. apply res_bind_ok in E1 as (same & _ & E1).
  cbn [Dtls._remote_fingerprint_value Dtls._state Dtls._dtls_adapter Dtls._downward Dtls._srtp_ciphers] in E1.
  destruct (same && _); injection E1 as <-; unfold Dtls.setup_dtls in E2;
    cbn [Dtls._remote_fingerprint_value Dtls._state Dtls._dtls_adapter Dtls._downward Dtls._srtp_ciphers
         Dtls._remote_alg] in E2; [done|].
  destruct (_ <? 1); [done|]. rewrite Buffer.create_from_data, bind_ok in E2.
  cbn [Dtls.configure Dtls.SetPeerCertificateDigest Dtls.SetDtlsSrtpCryptoSuites OpenSSL_SslAdapter] in E2.
  set (a1 := settled (configure_adapter _) _) in E2.
  assert (Hi1 : inv a1).
  { pose proof (new_inv Dtls.new_stream legacy new_stream_ok) as Hi.
    apply (set_config_inv (set_identity _ (Some identity)) (config_ a1) Hi eq_refl). }
  unfold adapter_digest in E2.
  assert (Hset : forall e a2, SetPeerCertificateDigest quiet a1 alg v = Ok (true, e, a2) ->
            expects alg v a2).
  { intros e a2 Hy.
    pose proof (SetPeerCertificateDigest_returns quiet quiet_ok a1 alg v Hi1 eq_refl eq_refl) as Hz.
    rewrite Hy in Hz. destruct Hz as [Hi3 Hl3].
    destruct (SetPeerCertificateDigest_stores quiet a1 alg v e a2 ltac:(apply Hi1) Hy) as (H1 & H2 & H3).
    split; [done|]. split; [by rewrite (proj1 (proj2 (proj2 Hl3)))|]. done. }
  destruct (SetPeerCertificateDigest quiet a1 alg v) as [[[ok e] a2]|f] eqn:Ed; [|done].
  cbn [settled] in E2. destruct ok; [|done]. cbn [negb] in E2.
  pose proof (Hset e a2 eq_refl) as He2. clear Hset Ed.
  destruct (negb (bool_decide (l = []))); [|done].
  assert (He3 : forall b a3, SetDtlsSrtpCryptoSuites a2 l = (b, a3) -> expects alg v a3).
  { intros b a3 E3. unfold SetDtlsSrtpCryptoSuites in E3.
    repeat case_match; injection E3 as <- <-; exact He2. }
  destruct (SetDtlsSrtpCryptoSuites a2 l) as [b a3]. injection E2 as _ <-. exists a3.
  split; [done|]. split; [by apply (He3 b)|]. apply new_stream_ok.
Qed.

(** C2. The keys of a transport come from a handshake with the peer it was set up
    for: whatever packets arrive, keys are extracted only if the certificate
    the peer presented in the handshake has the digest, under the algorithm,
    of the fingerprint that was set. *)
Theorem keys_authenticated (legacy : bool) (alg v : bytes) (d0 d1 d2 d : Dtls.RtcDtls Adapter)
    (cs : list Dtls.dtls_call) (suite : Z) (send_key recv_key : bytes) :
  Dtls.new_RtcDtls (new_adapter Dtls.new_stream legacy) = Ok d0 ->
  Dtls.set_remote_dtls d0 alg v = Ok d1 ->
  Dtls.setup_dtls d1 = Ok (true, d2) ->
  Forall after_setup cs -> Dtls.do_calls d2 cs = Ok d ->
  Dtls.extract_srtp_keys d = Ok (Some (suite, send_key, recv_key)) ->
  exists a c md, Dtls._dtls_adapter d = Some a /\ GetPeerSSLCertChain a = Some [c] /\
    MessageDigest.GetDigestEVP alg = Some md /\ X509_digest c md = v.
Proof.
  intros E0 E1 E2 Hf Ec Ek. pose proof (setup_expects legacy d0 alg v d1 d2 E0 E1 E2) as Hd2.
  destruct (do_calls_expects alg v cs d2 d Hf Hd2 Ec) as (a & Ha & (Hi & Hg & Hh & Halg & Hv) & _).
  unfold Dtls.extract_srtp_keys in Ek. rewrite Ha in Ek. apply res_bind_ok in Ek as (cs' & Es & _).
  cbn [Dtls.GetDtlsSrtpCryptoSuite OpenSSL_SslAdapter] in Es. unfold adapter_suite, GetDtlsSrtpCryptoSuite in Es.
  destruct (bool_decide (state_ a = SSL_CONNECTED)) eqn:Ea; [|done]. apply bool_decide_eq_true in Ea.
  assert (Hne : peer_certificate_digest_algorithm_ (peer_ a) <> []).
  { unfold HasPeerCertificateDigest in Hh. apply andb_prop in Hh as [Hh _]. by bool_inv. }
  destruct (connected_verified a Hi Hg Ea Hne) as (c & Hc & md & Hmd & Hdat).
  exists a, c, md. split; [done|]. split; [done|]. rewrite <- Halg. split; [done|].
  rewrite Hv in Hdat. by injection Hdat as ->.
Qed.
End Keys.

(** ** Runs

    The certificate of the concrete library is the first byte of the peer's
    first packet: 22, for a ClientHello. *)
Section Runs.
#[local] Instance toy_keys : Dtls.SslAdapter toy_adapter := OpenSSL_SslAdapter tt 4.

Definition setup_run (cert : Z) (cs : list Dtls.dtls_call) : res (Dtls.RtcDtls toy_adapter) :=
  d ← Dtls.new_RtcDtls (new_adapter Dtls.new_stream false);
  d ← Dtls.set_remote_dtls d MessageDigest.DIGEST_SHA_256 (toy_X509_digest cert MessageDigest.EVP_sha256);
  '(_, d) ← Dtls.setup_dtls d;
  Dtls.do_calls d cs.

Definition hello_call : Dtls.dtls_call := Dtls.call_handle_dtls (Dtls.hello_packet 0).

Definition run_state (cert : Z) (cs : list Dtls.dtls_call) : res Dtls.DtlsTransportState :=
  Dtls._state <$> setup_run cert cs.

Definition run_keys (cert : Z) (cs : list Dtls.dtls_call) : res (option Z) :=
  d ← setup_run cert cs;
  k ← Dtls.extract_srtp_keys d;
  Ok (match k with Some (suite, _, _) => Some suite | None => None end).

(** With the expected certificate there are keys; with another the state of the
    transport is the same, but no keys can be extracted. *)
Example right_and_wrong_peer :
  run_state 22 [hello_call] = Ok Dtls.k_connected /\
  run_keys 22 [hello_call] = Ok (Some CryptoSuites.kSrtpAes128CmSha1_80) /\
  run_state 23 [hello_call] = Ok Dtls.k_connected /\
  run_keys 23 [hello_call] = Fail Uninitialized.
Proof. split_and!; vm_compute; reflexivity. Qed.

Lemma keys_authenticated_witness :
  exists (d0 d1 d2 d : Dtls.RtcDtls toy_adapter) send_key recv_key,
    Dtls.new_RtcDtls (new_adapter Dtls.new_stream false) = Ok d0 /\
    Dtls.set_remote_dtls d0 MessageDigest.DIGEST_SHA_256
      (toy_X509_digest 22 MessageDigest.EVP_sha256) = Ok d1 /\
    Dtls.setup_dtls d1 = Ok (true, d2) /\ Dtls.do_calls d2 [hello_call] = Ok d /\
    Dtls.extract_srtp_keys d = Ok (Some (CryptoSuites.kSrtpAes128CmSha1_80, send_key, recv_key)) /\
    exists a c md, Dtls._dtls_adapter d = Some a /\ GetPeerSSLCertChain a = Some [c] /\
      MessageDigest.GetDigestEVP MessageDigest.DIGEST_SHA_256 = Some md /\
      X509_digest c md = toy_X509_digest 22 MessageDigest.EVP_sha256.
Proof.
  eexists _, _, _, _, _, _.
  match goal with |- ?A = Ok _ /\ _ => let r := eval vm_compute in A in
    match r with Ok ?x => assert (E0 : A = Ok x) by (vm_compute; reflexivity) end end.
  split; [exact E0|].
  match goal with |- ?A = Ok _ /\ _ => let r := eval vm_compute in A in
    match r with Ok ?x => assert (E1 : A = Ok x) by (vm_compute; reflexivity) end end.
  split; [exact E1|].
  match goal with |- ?A = Ok _ /\ _ => let r := eval vm_compute in A in
    match r with Ok (_, ?x) => assert (E2 : A = Ok (true, x)) by (vm_compute; reflexivity) end end.
  split; [exact E2|].
  match goal with |- ?A = Ok _ /\ _ => let r := eval vm_compute in A in
    match r with Ok ?x => assert (E3 : A = Ok x) by (vm_compute; reflexivity) end end.
  split; [exact E3|].
  match goal with |- ?A = Ok _ /\ _ => let r := eval vm_compute in A in
    match r with Ok (Some (_, ?k, ?l)) =>
      assert (E4 : A = Ok (Some (CryptoSuites.kSrtpAes128CmSha1_80, k, l))) by (vm_compute; reflexivity) end end.
  split; [exact E4|].
  apply (keys_authenticated tt 4 false MessageDigest.DIGEST_SHA_256 _ _ _ _ _ [hello_call]
           _ _ _ E0 E1 E2 ltac:(by repeat constructor) E3 E4).
Defined.
End Runs.
