(* ===== verification/IpAddress.v ===== *)
(** * rtc_base/ip_address.{h,cc}: [rtc::IPAddress]

    An address is its family and the sixteen bytes of the union [u_], of which
    an IPv4 address occupies the first four.  [inet_ntop] and [inet_pton] are
    the operating system's. *)
From S2P Require Import Prelude ByteOrder.
From S2P Require SUtil.
Local Open Scope Z_scope.

Inductive Family := AF_UNSPEC | AF_INET | AF_INET6.

#[export] Instance Family_eq_dec : EqDecision Family.
Proof. solve_decision. Defined.

Class NetOps := {
  inet_ntop : Family -> bytes -> option bytes;
  inet_pton : Family -> bytes -> option bytes;
  (* POSIX: an IPv4 address is printed in dotted decimal, and what is printed
     is read back *)
  inet_ntop_v4 : forall a b c d, wf_bytes [a; b; c; d] ->
    inet_ntop AF_INET [a; b; c; d] =
      Some (dec a ++ [46] ++ dec b ++ [46] ++ dec c ++ [46] ++ dec d);
  inet_pton_ntop : forall f x s, wf_bytes x -> inet_ntop f x = Some s -> inet_pton f s = Some x;
  inet_pton_v6_colon : forall s, is_Some (inet_pton AF_INET s) -> 58 ∉ s;
}.

Record IPAddress := mkIP { family_ : Family; u_ : bytes }.

#[export] Instance IPAddress_eq_dec : EqDecision IPAddress.
Proof. solve_decision. Defined.

(** The constructors. *)
Definition zeros (n : nat) : bytes := replicate n 0.
Definition unspec : IPAddress := mkIP AF_UNSPEC (zeros 16).
Definition of_in_addr (ip4 : bytes) : IPAddress := mkIP AF_INET (ip4 ++ zeros 12).
Definition of_in6_addr (ip6 : bytes) : IPAddress := mkIP AF_INET6 ip6.
Definition of_host_order (ip_in_host_byte_order : Z) : IPAddress :=
  of_in_addr (le_store 4 (HostToNetwork32 ip_in_host_byte_order)).

Definition kV4MappedPrefix : bytes := zeros 10 ++ [255; 255; 0; 0; 0; 0].
Definition k6To4Prefix : bytes := [32; 2] ++ zeros 14.
Definition kTeredoPrefix : bytes := [32; 1; 0; 0] ++ zeros 12.
Definition kV4CompatibilityPrefix : bytes := zeros 16.
Definition k6BonePrefix : bytes := [63; 254] ++ zeros 14.
Definition kPrivateNetworkPrefix : bytes := [253] ++ zeros 15.
Definition in6addr_any : bytes := zeros 16.
Definition in6addr_loopback : bytes := zeros 15 ++ [1].
Definition INADDR_ANY : Z := 0.
Definition INADDR_LOOPBACK : Z := 2130706433. (* 0x7f000001 *)

Definition ipv4_address (ip : IPAddress) : bytes := take 4 (u_ ip).
Definition ipv6_address (ip : IPAddress) : bytes := u_ ip.
Definition s_addr (ip : IPAddress) : Z := le_load (ipv4_address ip).
Definition byte_at (ip : IPAddress) (i : nat) : Z := default 0 (u_ ip !! i).

Definition v4AddressAsHostOrderInteger (ip : IPAddress) : Z :=
  match family_ ip with AF_INET => NetworkToHost32 (s_addr ip) | _ => 0 end.

Definition overhead (ip : IPAddress) : Z :=
  match family_ ip with AF_INET => 20 | AF_INET6 => 40 | AF_UNSPEC => 0 end.

Definition IPIsUnspec (ip : IPAddress) : bool := bool_decide (family_ ip = AF_UNSPEC).
Definition IsNil (ip : IPAddress) : bool := IPIsUnspec ip.

Definition Size (ip : IPAddress) : Z :=
  match family_ ip with AF_INET => 4 | AF_INET6 => 16 | AF_UNSPEC => 0 end.

Definition equals (a b : IPAddress) : bool :=
  if negb (bool_decide (family_ a = family_ b)) then false
  else match family_ a with
       | AF_INET => bool_decide (ipv4_address a = ipv4_address b)
       | AF_INET6 => bool_decide (ipv6_address a = ipv6_address b)
       | AF_UNSPEC => true
       end.

(** [memcmp(a, b, n) < 0]. *)
Fixpoint memcmp_lt (a b : bytes) : bool :=
  match a, b with
  | x :: a, y :: b => if x =? y then memcmp_lt a b else x <? y
  | _, _ => false
  end.

Definition lt (a b : IPAddress) : bool :=
  if negb (bool_decide (family_ a = family_ b)) then
    match family_ a, family_ b with
    | AF_UNSPEC, _ => true
    | AF_INET, AF_INET6 => true
    | _, _ => false
    end
  else match family_ a with
       | AF_INET => NetworkToHost32 (s_addr a) <? NetworkToHost32 (s_addr b)
       | AF_INET6 => memcmp_lt (ipv6_address a) (ipv6_address b)
       | AF_UNSPEC => false
       end.

Definition gt (a b : IPAddress) : bool := negb (equals a b) && negb (lt a b).

(** ** Categories *)

Definition IPIsHelper (ip : IPAddress) (tomatch : bytes) (length : Z) : bool :=
  let n := Z.to_nat (Z.shiftr length 3) in
  bool_decide (take n (ipv6_address ip) = take n tomatch).

Definition IPIs6Bone (ip : IPAddress) : bool := IPIsHelper ip k6BonePrefix 16.
Definition IPIs6To4 (ip : IPAddress) : bool := IPIsHelper ip k6To4Prefix 16.
Definition IPIsTeredo (ip : IPAddress) : bool := IPIsHelper ip kTeredoPrefix 32.
Definition IPIsV4Compatibility (ip : IPAddress) : bool := IPIsHelper ip kV4CompatibilityPrefix 96.
Definition IPIsV4Mapped (ip : IPAddress) : bool := IPIsHelper ip kV4MappedPrefix 96.

Definition IPIsMacBased (ip : IPAddress) : bool :=
  negb (Z.land (byte_at ip 8) 2 =? 0) && (byte_at ip 11 =? 255) && (byte_at ip 12 =? 254).

Definition IPIsSiteLocal (ip : IPAddress) : bool :=
  (byte_at ip 0 =? 254) && (Z.land (byte_at ip 1) 192 =? 192).

Definition IPIsULA (ip : IPAddress) : bool := Z.land (byte_at ip 0) 254 =? 252.

Definition IPIsPrivateNetworkV4 (ip : IPAddress) : bool :=
  let h := v4AddressAsHostOrderInteger ip in
  (Z.shiftr h 24 =? 10) || (Z.shiftr h 20 =? Z.lor (Z.shiftl 172 4) 1)
  || (Z.shiftr h 16 =? Z.lor (Z.shiftl 192 8) 168).

Definition IPIsPrivateNetworkV6 (ip : IPAddress) : bool := IPIsHelper ip kPrivateNetworkPrefix 8.

Definition IPIsPrivateNetwork (ip : IPAddress) : bool :=
  match family_ ip with
  | AF_INET => IPIsPrivateNetworkV4 ip
  | AF_INET6 => IPIsPrivateNetworkV6 ip
  | AF_UNSPEC => false
  end.

Definition IPIsSharedNetworkV4 (ip : IPAddress) : bool :=
  Z.shiftr (v4AddressAsHostOrderInteger ip) 22 =? Z.lor (Z.shiftl 100 2) 1.

Definition IPIsSharedNetwork (ip : IPAddress) : bool :=
  match family_ ip with AF_INET => IPIsSharedNetworkV4 ip | _ => false end.

Definition IPIsLinkLocalV4 (ip : IPAddress) : bool :=
  Z.shiftr (v4AddressAsHostOrderInteger ip) 16 =? Z.lor (Z.shiftl 169 8) 254.

Definition IPIsLinkLocalV6 (ip : IPAddress) : bool :=
  (byte_at ip 0 =? 254) && (Z.land (byte_at ip 1) 192 =? 128).

Definition IPIsLinkLocal (ip : IPAddress) : bool :=
  match family_ ip with
  | AF_INET => IPIsLinkLocalV4 ip
  | AF_INET6 => IPIsLinkLocalV6 ip
  | AF_UNSPEC => false
  end.

Definition IPIsLoopbackV4 (ip : IPAddress) : bool :=
  Z.shiftr (v4AddressAsHostOrderInteger ip) 24 =? 127.

Definition IPIsLoopbackV6 (ip : IPAddress) : bool := equals ip (of_in6_addr in6addr_loopback).

Definition IPIsLoopback (ip : IPAddress) : bool :=
  match family_ ip with
  | AF_INET => IPIsLoopbackV4 ip
  | AF_INET6 => IPIsLoopbackV6 ip
  | AF_UNSPEC => false
  end.

Definition IPIsPrivate (ip : IPAddress) : bool :=
  IPIsLinkLocal ip || IPIsLoopback ip || IPIsPrivateNetwork ip || IPIsSharedNetwork ip.

Definition IPIsAny (ip : IPAddress) : bool :=
  match family_ ip with
  | AF_INET => equals ip (of_host_order INADDR_ANY)
  | AF_INET6 => equals ip (of_in6_addr in6addr_any) || equals ip (of_in6_addr kV4MappedPrefix)
  | AF_UNSPEC => false
  end.

Definition IPAddressPrecedence (ip : IPAddress) : Z :=
  match family_ ip with
  | AF_INET => 30
  | AF_INET6 =>
      if IPIsLoopback ip then 60
      else if IPIsULA ip then 50
      else if IPIsV4Mapped ip then 30
      else if IPIs6To4 ip then 20
      else if IPIsTeredo ip then 10
      else if IPIsV4Compatibility ip || IPIsSiteLocal ip || IPIs6Bone ip then 1
      else 40
  | AF_UNSPEC => 0
  end.

Definition GetLoopbackIP (family : Family) : IPAddress :=
  match family with
  | AF_INET => of_host_order INADDR_LOOPBACK
  | AF_INET6 => of_in6_addr in6addr_loopback
  | AF_UNSPEC => unspec
  end.

Definition GetAnyIP (family : Family) : IPAddress :=
  match family with
  | AF_INET => of_host_order INADDR_ANY
  | AF_INET6 => of_in6_addr in6addr_any
  | AF_UNSPEC => unspec
  end.

(** ** Conversions *)

Definition ExtractMappedAddress (in6 : bytes) : bytes := take 4 (drop 12 in6).

Definition Normalized (ip : IPAddress) : IPAddress :=
  match family_ ip with
  | AF_INET6 => if negb (IPIsV4Mapped ip) then ip else of_in_addr (ExtractMappedAddress (u_ ip))
  | _ => ip
  end.

Definition AsIPv6Address (ip : IPAddress) : IPAddress :=
  match family_ ip with
  | AF_INET => of_in6_addr (take 12 kV4MappedPrefix ++ ipv4_address ip)
  | _ => ip
  end.

(** The four 32-bit words of the union, as the machine loads them. *)
Definition word (ip6 : bytes) (i : nat) : Z := le_load (take 4 (drop (4 * i) ip6)).

Definition HashIP (ip : IPAddress) : Z :=
  match family_ ip with
  | AF_INET => s_addr ip
  | AF_INET6 =>
      Z.lxor (Z.lxor (Z.lxor (word (u_ ip) 0) (word (u_ ip) 1)) (word (u_ ip) 2)) (word (u_ ip) 3)
  | AF_UNSPEC => 0
  end.

Definition TruncateIP (ip : IPAddress) (length : Z) : IPAddress :=
  if length <? 0 then unspec
  else
    match family_ ip with
    | AF_INET =>
        if 31 <? length then ip
        else if length =? 0 then of_host_order INADDR_ANY
        else
          let mask := u32 (Z.shiftl 4294967295 (32 - length)) in
          let host_order_ip := NetworkToHost32 (s_addr ip) in
          of_in_addr (le_store 4 (HostToNetwork32 (Z.land host_order_ip mask)))
    | AF_INET6 =>
        if 127 <? length then ip
        else if length =? 0 then of_in6_addr in6addr_any
        else
          let position := length / 32 in
          let inner_length := 32 - (length - position * 32) in
          let inner_mask := u32 (Z.shiftl 4294967295 inner_length) in
          let new_word i :=
            if Z.of_nat i =? position
            then HostToNetwork32 (Z.land (NetworkToHost32 (word (u_ ip) i)) inner_mask)
            else if position <? Z.of_nat i then 0 else word (u_ ip) i in
          of_in6_addr (concat (map (fun i => le_store 4 (new_word i)) [0; 1; 2; 3]%nat))
    | AF_UNSPEC => unspec
    end.

(** The bit-twiddling tail of [CountIPMaskBits]: trailing zeros of a word. *)
Definition trailing_zeros (w : Z) : Z :=
  let w := Z.land w (u32 (Z.lxor w 4294967295 + 1)) in
  let zeroes := 32 in
  let zeroes := if negb (w =? 0) then zeroes - 1 else zeroes in
  let zeroes := if negb (Z.land w 65535 =? 0) then zeroes - 16 else zeroes in
  let zeroes := if negb (Z.land w 16711935 =? 0) then zeroes - 8 else zeroes in
  let zeroes := if negb (Z.land w 252645135 =? 0) then zeroes - 4 else zeroes in
  let zeroes := if negb (Z.land w 858993459 =? 0) then zeroes - 2 else zeroes in
  if negb (Z.land w 1431655765 =? 0) then zeroes - 1 else zeroes.

(** The first [n] words that are all ones. *)
Fixpoint leading_ones (ip6 : bytes) (i n : nat) : nat :=
  match n with
  | O => i
  | S n => if negb (word ip6 i =? 4294967295) then i else leading_ones ip6 (S i) n
  end.

Definition CountIPMaskBits (mask : IPAddress) : Z :=
  let finish bits word_to_count :=
    if word_to_count =? 0 then bits else bits + (32 - trailing_zeros word_to_count) in
  match family_ mask with
  | AF_INET => finish 0 (NetworkToHost32 (s_addr mask))
  | AF_INET6 =>
      let i := leading_ones (u_ mask) 0 4 in
      finish (Z.of_nat i * 32) (if (i <? 4)%nat then NetworkToHost32 (word (u_ mask) i) else 0)
  | AF_UNSPEC => 0
  end.

(** ["%x"] of a number below 2^32. *)
Fixpoint hex_digits (fuel : nat) (n : Z) (acc : bytes) : bytes :=
  match fuel with
  | O => acc
  | S f =>
      let d := n mod 16 in
      let acc := (if d <? 10 then 48 + d else 87 + d) :: acc in
      if n / 16 =? 0 then acc else hex_digits f (n / 16) acc
  end.

Definition ToHex (i : Z) : bytes := hex_digits 8 (u32 i) [].

Fixpoint rfind (c : Z) (s : bytes) : option nat :=
  match s with
  | [] => None
  | x :: s => match rfind c s with
              | Some i => Some (S i)
              | None => if x =? c then Some O else None
              end
  end.

Section Text.
Context `{NetOps}.

Definition ToString (ip : IPAddress) : bytes :=
  match family_ ip with
  | AF_UNSPEC => []
  | AF_INET => default [] (inet_ntop AF_INET (ipv4_address ip))
  | AF_INET6 => default [] (inet_ntop AF_INET6 (ipv6_address ip))
  end.

Definition ToSensitiveString (ip : IPAddress) : bytes :=
  match family_ ip with
  | AF_INET =>
      let address := ToString ip in
      match rfind 46 address with
      | None => []
      | Some find_pos => take find_pos address ++ lit ".x"
      end
  | AF_INET6 =>
      let part i j := ToHex (Z.shiftl (byte_at ip i) 8 + byte_at ip j) in
      part 0%nat 1%nat ++ [58] ++ part 2%nat 3%nat ++ [58] ++ part 4%nat 5%nat ++ lit ":x:x:x:x:x"
  | AF_UNSPEC => []
  end.

(** The result and [*out]. *)
Definition IPFromString (str : bytes) : bool * IPAddress :=
  match inet_pton AF_INET str with
  | Some addr => (true, of_in_addr addr)
  | None =>
      match inet_pton AF_INET6 str with
      | Some addr6 => (true, of_in6_addr addr6)
      | None => (false, unspec)
      end
  end.

(** [InterfaceAddress]: an address and its flags. *)
Record InterfaceAddress := mkInterface { base : IPAddress; ipv6_flags_ : Z }.

Definition InterfaceAddress_equals (a b : InterfaceAddress) : bool :=
  (ipv6_flags_ a =? ipv6_flags_ b) && equals (base a) (base b).

Definition InterfaceAddress_ToString (a : InterfaceAddress) : bytes :=
  match family_ (base a) with
  | AF_INET6 => ToString (base a) ++ lit "|flags:0x" ++ ToHex (ipv6_flags_ a)
  | _ => ToString (base a)
  end.

Definition InterfaceFromString (str : bytes) (flags : Z) : option InterfaceAddress :=
  let '(ok, ip) := IPFromString str in if ok then Some (mkInterface ip flags) else None.
End Text.

(** ** Well-formed addresses *)

Definition wf (ip : IPAddress) : Prop :=
  wf_bytes (u_ ip) /\ length (u_ ip) = 16%nat /\
  match family_ ip with
  | AF_UNSPEC => u_ ip = zeros 16
  | AF_INET => drop 4 (u_ ip) = zeros 12
  | AF_INET6 => True
  end.

Lemma zeros_wf n : wf_bytes (zeros n).
Proof. apply Forall_replicate. unfold is_byte. lia. Qed.

Lemma of_in_addr_wf b : wf_bytes b -> length b = 4%nat -> wf (of_in_addr b).
Proof.
  intros Hb Hl. unfold wf, of_in_addr. cbn [family_ u_].
  split; [apply Forall_app; split; [done|apply zeros_wf]|].
  split; [rewrite length_app, Hl; done|]. by rewrite drop_app_length'.
Qed.

Lemma ipv4_of_in_addr b : length b = 4%nat -> ipv4_address (of_in_addr b) = b.
Proof. intros Hl. unfold ipv4_address, of_in_addr. cbn [u_]. by apply take_app_length'. Qed.

Lemma ipv4_wf ip : wf ip -> wf_bytes (ipv4_address ip) /\ length (ipv4_address ip) = 4%nat.
Proof.
  intros (Hw & Hl & _). unfold ipv4_address. split; [by apply Forall_take|].
  rewrite length_take, Hl. done.
Qed.

(** The integer an address stands for, most significant byte first. *)
Definition ip_value (ip : IPAddress) : Z :=
  match family_ ip with
  | AF_UNSPEC => 0
  | AF_INET => be_load (ipv4_address ip)
  | AF_INET6 => be_load (ipv6_address ip)
  end.

Definition ip_bits (ip : IPAddress) : Z :=
  match family_ ip with AF_UNSPEC => 0 | AF_INET => 32 | AF_INET6 => 128 end.

Lemma host_order_word b : wf_bytes b -> length b = 4%nat -> NetworkToHost32 (le_load b) = be_load b.
Proof. intros Hb Hl. unfold NetworkToHost32. rewrite <- Hl. by apply bswap_le_load. Qed.

Lemma store_network z : 0 <= z < 2 ^ 32 -> le_store 4 (HostToNetwork32 z) = be_store 4 z.
Proof. intros Hz. unfold HostToNetwork32. apply le_store_bswap. Qed.

(** ** The order *)

Lemma be_load_cons x b : be_load (x :: b) = x * 256 ^ zlen b + be_load b.
Proof.
  unfold be_load. cbn [rev]. generalize (rev b) as r, (length_rev b). intros r Hr.
  unfold zlen. rewrite <- Hr. clear Hr. induction r as [|y r IH]; cbn [app le_load length].
  - change (256 ^ Z.of_nat 0) with 1. lia.
  - rewrite IH, Nat2Z.inj_succ, Z.pow_succ_r by lia. lia.
Qed.

Lemma memcmp_lt_spec a : forall b, wf_bytes a -> wf_bytes b -> length a = length b ->
  memcmp_lt a b = (be_load a <? be_load b).
Proof.
  induction a as [|x a IH]; intros [|y b] Ha Hb Hl; try done.
  apply Forall_cons_1 in Ha as [Hx Ha]. apply Forall_cons_1 in Hb as [Hy Hb].
  assert (Hl' : length a = length b) by (by injection Hl).
  cbn [memcmp_lt]. rewrite !be_load_cons, IH by done.
  pose proof (be_load_bound a Ha) as Ba. pose proof (be_load_bound b Hb) as Bb.
  assert (E : zlen b = zlen a) by (unfold zlen; lia). rewrite E in *.
  destruct (Z.eqb_spec x y) as [->|Hne].
  - destruct (Z.ltb_spec (be_load a) (be_load b)), (Z.ltb_spec (y * 256 ^ zlen a + be_load a)
      (y * 256 ^ zlen a + be_load b)); lia.
  - destruct (Z.ltb_spec x y), (Z.ltb_spec (x * 256 ^ zlen a + be_load a)
      (y * 256 ^ zlen a + be_load b)); nia.
Qed.

Lemma be_load_inj a b : wf_bytes a -> wf_bytes b -> length a = length b -> be_load a = be_load b -> a = b.
Proof.
  intros Ha Hb Hl E. rewrite <- (be_store_load a Ha), <- (be_store_load b Hb), Hl. by rewrite E.
Qed.

(** The position of an address in the order: family first, then value. *)
Definition rank (ip : IPAddress) : Z :=
  match family_ ip with AF_UNSPEC => 0 | AF_INET => 1 | AF_INET6 => 2 end.

Lemma lt_spec a b :
  wf a -> wf b -> lt a b = true <-> rank a < rank b \/ (rank a = rank b /\ ip_value a < ip_value b).
Proof.
  intros Ha Hb. pose proof (ipv4_wf a Ha) as [Wa La]. pose proof (ipv4_wf b Hb) as [Wb Lb].
  destruct Ha as (Ua & Na & _), Hb as (Ub & Nb & _).
  unfold lt, rank, ip_value, s_addr. case_bool_decide as E; cbn [negb].
  - rewrite <- E. destruct (family_ a).
    + split; [done|lia].
    + rewrite !host_order_word, Z.ltb_lt by done. lia.
    + rewrite memcmp_lt_spec, Z.ltb_lt by (unfold ipv6_address; congruence). unfold ipv6_address. lia.
  - destruct (family_ a), (family_ b); try done; split; (done || lia).
Qed.

Lemma equals_spec a b : wf a -> wf b -> equals a b = true <-> a = b.
Proof.
  intros (Ua & Na & Za) (Ub & Nb & Zb). unfold equals. destruct a as [fa xa], b as [fb xb].
  cbn [family_ u_] in *. case_bool_decide as E; cbn [negb]; [subst fb|split; [done|congruence]].
  destruct fa; cbn in *.
  - subst. done.
  - rewrite bool_decide_eq_true. unfold ipv4_address. cbn. split; [|congruence]. intros Ht.
    f_equal. rewrite <- (take_drop 4 xa), <- (take_drop 4 xb), Za, Zb. by rewrite Ht.
  - rewrite bool_decide_eq_true. unfold ipv6_address. cbn. split; congruence.
Qed.

Lemma rank_value_inj a b : wf a -> wf b -> rank a = rank b -> ip_value a = ip_value b -> a = b.
Proof.
  intros Ha Hb Hr Hv. apply (equals_spec a b Ha Hb).
  pose proof (ipv4_wf a Ha) as [Wa La]. pose proof (ipv4_wf b Hb) as [Wb Lb].
  destruct Ha as (Ua & Na & _), Hb as (Ub & Nb & _).
  assert (Ef : family_ a = family_ b) by (unfold rank in Hr; destruct (family_ a), (family_ b); done).
  unfold equals, ip_value in *. rewrite bool_decide_eq_true_2 by done. cbn [negb].
  rewrite <- Ef in Hv. destruct (family_ a); [done| |].
  - apply bool_decide_eq_true_2, be_load_inj; congruence.
  - apply bool_decide_eq_true_2, be_load_inj; unfold ipv6_address in *; congruence.
Qed.

(** [operator<] is a strict total order on addresses, in which exactly the
    [operator==] addresses are equivalent, and [operator>] is its converse. *)
Theorem address_order (a b c : IPAddress) :
  wf a -> wf b -> wf c ->
  lt a a = false /\
  (lt a b = true -> lt b c = true -> lt a c = true) /\
  (lt a b = false -> lt b a = false -> equals a b = true) /\
  gt a b = lt b a.
Proof.
  intros Ha Hb Hc. pose proof (lt_spec a b Ha Hb) as Hab. pose proof (lt_spec b a Hb Ha) as Hba.
  pose proof (lt_spec b c Hb Hc) as Hbc. pose proof (lt_spec a c Ha Hc) as Hac.
  pose proof (lt_spec a a Ha Ha) as Haa. pose proof (equals_spec a b Ha Hb) as He.
  pose proof (rank_value_inj a b Ha Hb) as Hi.
  split; [|split; [|split]].
  - apply not_true_is_false. intros E. apply Haa in E. lia.
  - intros E1 E2. apply Hab in E1. apply Hbc in E2. apply Hac. lia.
  - intros E1 E2. apply He, Hi.
    + apply not_true_iff_false in E1, E2. rewrite Hab in E1. rewrite Hba in E2. lia.
    + apply not_true_iff_false in E1, E2. rewrite Hab in E1. rewrite Hba in E2. lia.
  - unfold gt. apply Bool.eq_iff_eq_true.
    rewrite andb_true_iff, !negb_true_iff, <- !not_true_iff_false, He, Hab, Hba. split.
    + intros [Hne Hn]. destruct (Z.lt_trichotomy (rank a) (rank b)) as [?|[Er|?]]; [lia| |lia].
      destruct (Z.lt_trichotomy (ip_value a) (ip_value b)) as [?|[Ev|?]]; [lia| |lia].
      by destruct (Hne (Hi Er Ev)).
    + intros Hlt. split; [intros ->|]; lia.
Qed.

Lemma address_order_witness :
  let a := of_in_addr [10; 0; 0; 1] in let b := of_in_addr [10; 0; 1; 0] in
  let c := of_in6_addr in6addr_loopback in
  lt a c = true /\ lt a a = false /\ gt b a = lt a b.
Proof.
  cbv zeta. assert (Ha : wf (of_in_addr [10; 0; 0; 1])).
  { apply of_in_addr_wf; [|done]. repeat constructor; unfold is_byte; lia. }
  assert (Hb : wf (of_in_addr [10; 0; 1; 0])).
  { apply of_in_addr_wf; [|done]. repeat constructor; unfold is_byte; lia. }
  assert (Hc : wf (of_in6_addr in6addr_loopback)).
  { split; [|done]. repeat constructor; unfold is_byte; lia. }
  destruct (address_order _ _ _ Ha Hb Hc) as (H1 & H2 & _ & _).
  destruct (address_order _ _ _ Hb Ha Hc) as (_ & _ & _ & H3).
  split; [by apply H2|]. split; [exact H1|exact H3].
Defined.

(** ** Truncation *)

Lemma land_high_mask w k :
  0 <= w < 2 ^ 32 -> 0 <= k <= 32 -> Z.land w (u32 (Z.shiftl 4294967295 k)) = w / 2 ^ k * 2 ^ k.
Proof.
  intros Hw Hk. apply Z.bits_inj'. intros n Hn. rewrite Z.land_spec.
  rewrite <- Z.shiftl_mul_pow2, <- Z.shiftr_div_pow2 by lia. rewrite Z.shiftl_spec by lia.
  unfold u32. change 4294967296 with (2 ^ 32).
  destruct (Z.lt_ge_cases n 32) as [H32|H32].
  - rewrite Z.mod_pow2_bits_low by lia. rewrite Z.shiftl_spec by lia.
    change 4294967295 with (Z.ones 32). destruct (Z.lt_ge_cases n k).
    + rewrite (Z.testbit_neg_r _ (n - k)) by lia. rewrite (Z.testbit_neg_r (Z.shiftr w k)) by lia.
      by rewrite andb_false_r.
    + rewrite Z.ones_spec_low by lia. rewrite andb_true_r, Z.shiftr_spec by lia. f_equal. lia.
  - rewrite (testbit_small w 32 n) by lia. cbn [andb]. destruct (Z.lt_ge_cases n k).
    + by rewrite Z.testbit_neg_r by lia.
    + rewrite Z.shiftr_spec by lia. symmetry. apply (testbit_small w 32); lia.
Qed.

(** Clearing the low bits of the middle word of a number. *)
Lemma truncate_word H w L k m :
  0 <= w < 2 ^ 32 -> 0 <= k <= 32 -> 0 <= m -> 0 <= L < 2 ^ m ->
  ((H * 2 ^ 32 + w) * 2 ^ m + L) / 2 ^ (m + k) * 2 ^ (m + k) = (H * 2 ^ 32 + w / 2 ^ k * 2 ^ k) * 2 ^ m.
Proof.
  intros Hw Hk Hm HL. rewrite Z.pow_add_r by lia. rewrite <- Z.div_div by lia.
  rewrite Z.div_add_l by lia. rewrite (Z.div_small L) by lia. rewrite Z.add_0_r.
  replace (H * 2 ^ 32 + w) with (H * 2 ^ (32 - k) * 2 ^ k + w).
  2: { rewrite <- Z.mul_assoc, <- Z.pow_add_r by lia. do 4 f_equal. lia. }
  rewrite Z.div_add_l by lia. replace (2 ^ 32) with (2 ^ (32 - k) * 2 ^ k) at 1.
  2: { rewrite <- Z.pow_add_r by lia. f_equal. lia. }
  ring.
Qed.

Lemma truncate_tail H w L k m M v :
  2 ^ m = M -> 0 <= w < 4294967296 -> 0 < k <= 32 -> 0 <= m -> 0 <= L < M ->
  v = (H * 4294967296 + w) * M + L ->
  v / 2 ^ (m + k) * 2 ^ (m + k) = (H * 4294967296 + w / 2 ^ k * 2 ^ k) * M.
Proof. intros <- Hw Hk Hm HL ->. apply (truncate_word H w L k m); lia. Qed.

Lemma be_load_app a b : be_load (a ++ b) = be_load a * 256 ^ zlen b + be_load b.
Proof.
  induction a as [|x a IH]; cbn [app].
  - unfold be_load at 2. cbn. lia.
  - rewrite !be_load_cons, IH, zlen_app, Z.pow_add_r by (apply zlen_nonneg). lia.
Qed.

Lemma be_load_4words a b c d :
  length a = 4%nat -> length b = 4%nat -> length c = 4%nat -> length d = 4%nat ->
  be_load (a ++ b ++ c ++ d) =
    ((be_load a * 2 ^ 32 + be_load b) * 2 ^ 32 + be_load c) * 2 ^ 32 + be_load d.
Proof.
  intros Ha Hb Hc Hd. rewrite !be_load_app. unfold zlen. rewrite !length_app, Hb, Hc, Hd.
  change (256 ^ Z.of_nat (4 + (4 + 4))) with (2 ^ 32 * 2 ^ 32 * 2 ^ 32).
  change (256 ^ Z.of_nat (4 + 4)) with (2 ^ 32 * 2 ^ 32). change (256 ^ Z.of_nat 4) with (2 ^ 32). ring.
Qed.

Lemma be_load_zeros n : be_load (zeros n) = 0.
Proof.
  induction n as [|n IH]; [done|]. unfold zeros in *. cbn [replicate]. rewrite be_load_cons, IH. lia.
Qed.

Lemma be_store_be_load_u32 z : 0 <= z < 2 ^ 32 -> be_load (be_store 4 z) = z.
Proof. intros Hz. rewrite be_load_store, Z.mod_small; [done|exact Hz]. Qed.

(** Sixteen bytes as four words of four. *)
Lemma split_words (x : bytes) :
  wf_bytes x -> length x = 16%nat ->
  exists a b c d, x = a ++ b ++ c ++ d /\ length a = 4%nat /\ length b = 4%nat /\
    length c = 4%nat /\ length d = 4%nat /\ wf_bytes a /\ wf_bytes b /\ wf_bytes c /\ wf_bytes d.
Proof.
  intros Hw Hl.
  exists (take 4 x), (take 4 (drop 4 x)), (take 4 (drop 8 x)), (drop 12 x).
  replace (drop 8 x) with (drop 4 (drop 4 x)) by by rewrite drop_drop.
  replace (drop 12 x) with (drop 4 (drop 4 (drop 4 x))) by by rewrite !drop_drop.
  split; [by rewrite !take_drop|].
  rewrite !length_take, !length_drop, Hl. do 4 (split; [done|]).
  split_and!; repeat first [apply Forall_take | apply Forall_drop | done].
Qed.

Lemma word_at (p w s : bytes) i :
  length p = (4 * i)%nat -> length w = 4%nat -> word (p ++ w ++ s) i = le_load w.
Proof.
  intros Hp Hw. unfold word. rewrite drop_app_length' by lia. by rewrite take_app_length' by lia.
Qed.

Lemma le_store_4_word w : wf_bytes w -> length w = 4%nat -> le_store 4 (le_load w) = w.
Proof. intros Hw Hl. rewrite <- Hl. by apply le_store_load. Qed.

Lemma be_load_word_bound w : wf_bytes w -> length w = 4%nat -> 0 <= be_load w < 2 ^ 32.
Proof.
  intros Hw Hl. pose proof (be_load_bound w Hw). unfold zlen in *. by rewrite Hl in *.
Qed.

(** The masked word, stored and read back. *)
Lemma masked_word w k :
  0 <= w < 2 ^ 32 -> 0 <= k <= 32 ->
  be_load (le_store 4 (HostToNetwork32 (Z.land w (u32 (Z.shiftl 4294967295 k))))) = w / 2 ^ k * 2 ^ k.
Proof.
  intros Hw Hk. rewrite land_high_mask by done.
  pose proof (Z.pow_pos_nonneg 2 k). pose proof (Z.mul_div_le w (2 ^ k)).
  assert (0 <= w / 2 ^ k) by (apply Z.div_pos; lia).
  rewrite store_network, be_store_be_load_u32; nia.
Qed.

Lemma truncate_v4 x l :
  wf_bytes x -> length x = 4%nat -> 0 < l <= 31 ->
  ip_value (TruncateIP (of_in_addr x) l) = be_load x / 2 ^ (32 - l) * 2 ^ (32 - l).
Proof.
  intros Hw Hl Hr. unfold TruncateIP. rewrite (proj2 (Z.ltb_ge l 0)) by lia.
  cbn [family_ of_in_addr]. rewrite (proj2 (Z.ltb_ge 31 l)), (proj2 (Z.eqb_neq l 0)) by lia.
  unfold ip_value. cbn [family_ of_in_addr]. unfold s_addr. rewrite ipv4_of_in_addr by apply length_le_store.
  rewrite ipv4_of_in_addr by done. rewrite host_order_word by done.
  apply masked_word; [by apply be_load_word_bound|lia].
Qed.

(** The three kinds of words of a truncated IPv6 address. *)
Definition kept_word (pos inner : Z) (i : Z) (w : bytes) : bytes :=
  le_store 4 (if i =? pos then HostToNetwork32 (Z.land (NetworkToHost32 (le_load w))
                                  (u32 (Z.shiftl 4294967295 inner)))
              else if pos <? i then 0 else le_load w).

Lemma kept_word_value pos inner i w :
  wf_bytes w -> length w = 4%nat -> 0 <= inner <= 32 ->
  be_load (kept_word pos inner i w) =
    if i =? pos then be_load w / 2 ^ inner * 2 ^ inner else if pos <? i then 0 else be_load w.
Proof.
  intros Hw Hl Hi. unfold kept_word. destruct (i =? pos).
  - rewrite host_order_word by done. apply masked_word; [by apply be_load_word_bound|done].
  - destruct (pos <? i); [done|]. by rewrite le_store_4_word.
Qed.

Lemma truncate_v6 a b c d l :
  wf_bytes a -> wf_bytes b -> wf_bytes c -> wf_bytes d ->
  length a = 4%nat -> length b = 4%nat -> length c = 4%nat -> length d = 4%nat -> 0 < l <= 127 ->
  ip_value (TruncateIP (of_in6_addr (a ++ b ++ c ++ d)) l) =
    be_load (a ++ b ++ c ++ d) / 2 ^ (128 - l) * 2 ^ (128 - l).
Proof.
  intros Wa Wb Wc Wd Ha Hb Hc Hd Hr. unfold TruncateIP. rewrite (proj2 (Z.ltb_ge l 0)) by lia.
  cbn [family_ of_in6_addr]. rewrite (proj2 (Z.ltb_ge 127 l)), (proj2 (Z.eqb_neq l 0)) by lia.
  unfold ip_value, of_in6_addr, ipv6_address. cbn [family_ u_ map concat]. rewrite app_nil_r.
  pose proof (Z.div_mod l 32 ltac:(lia)). pose proof (Z.mod_pos_bound l 32 ltac:(lia)).
  set (pos := l / 32) in *. set (inner := 32 - (l - pos * 32)).
  assert (Hpos : 0 <= pos <= 3) by lia. assert (Hinner : 0 < inner <= 32) by lia.
  assert (E0 : word (a ++ b ++ c ++ d) 0 = le_load a) by (by apply (word_at [])).
  assert (E1 : word (a ++ b ++ c ++ d) 1 = le_load b) by (by apply (word_at a)).
  assert (E2 : word (a ++ b ++ c ++ d) 2 = le_load c)
    by (rewrite (app_assoc a); apply word_at; [rewrite length_app; lia|done]).
  assert (E3 : word (a ++ b ++ c ++ d) 3 = le_load d).
  { rewrite (app_assoc a), (app_assoc (a ++ b)), <- (app_nil_r d) at 1.
    apply word_at; [rewrite !length_app; lia|done]. }
  rewrite E0, E1, E2, E3. fold (kept_word pos inner (Z.of_nat 0) a) (kept_word pos inner (Z.of_nat 1) b)
    (kept_word pos inner (Z.of_nat 2) c) (kept_word pos inner (Z.of_nat 3) d).
  rewrite !be_load_4words by (done || apply length_le_store).
  rewrite !kept_word_value by (done || lia).
  pose proof (be_load_word_bound a Wa Ha). pose proof (be_load_word_bound b Wb Hb).
  pose proof (be_load_word_bound c Wc Hc). pose proof (be_load_word_bound d Wd Hd).
  replace (128 - l) with (32 * (3 - pos) + inner) by (unfold inner; lia).
  assert (Hcase : pos = 0 \/ pos = 1 \/ pos = 2 \/ pos = 3) by lia. clearbody pos inner.
  set (A := be_load a) in *. set (B := be_load b) in *. set (C := be_load c) in *.
  set (D := be_load d) in *. clearbody A B C D.
  change (2 ^ 32) with 4294967296 in *.
  destruct Hcase as [->|[->|[->| ->]]];
    repeat match goal with
           | |- context [if ?b then _ else _] =>
               let v := eval vm_compute in b in change b with v; cbv iota
           end.
  - change (32 * (3 - 0) + inner) with (96 + inner).
    rewrite (truncate_tail 0 A ((B * 4294967296 + C) * 4294967296 + D) inner 96 79228162514264337593543950336 _ eq_refl); lia.
  - change (32 * (3 - 1) + inner) with (64 + inner).
    rewrite (truncate_tail A B (C * 4294967296 + D) inner 64 18446744073709551616 _ eq_refl); lia.
  - change (32 * (3 - 2) + inner) with (32 + inner).
    rewrite (truncate_tail (A * 4294967296 + B) C D inner 32 4294967296 _ eq_refl); lia.
  - change (32 * (3 - 3) + inner) with (0 + inner).
    rewrite (truncate_tail ((A * 4294967296 + B) * 4294967296 + C) D 0 inner 0 1
      (((A * 4294967296 + B) * 4294967296 + C) * 4294967296 + D) eq_refl); lia.
Qed.

(** [TruncateIP] keeps the first [length] bits of an address and clears the
    others, for every length from none to all. *)
Theorem TruncateIP_prefix (ip : IPAddress) (length : Z) :
  wf ip -> family_ ip <> AF_UNSPEC -> 0 <= length <= ip_bits ip ->
  family_ (TruncateIP ip length) = family_ ip /\
  ip_value (TruncateIP ip length) =
    ip_value ip / 2 ^ (ip_bits ip - length) * 2 ^ (ip_bits ip - length).
Proof.
  intros (Hw & Hl & Hf) Hne Hr. destruct ip as [f x]. cbn [family_ u_] in *.
  unfold ip_bits in *. cbn [family_] in *. destruct f; [done| |]; clear Hne; cbv iota in Hr |- *.
  - assert (Ex : mkIP AF_INET x = of_in_addr (take 4 x)).
    { unfold of_in_addr. by rewrite <- Hf, take_drop. }
    rewrite Ex. assert (W4 : wf_bytes (take 4 x)) by (by apply Forall_take).
    assert (L4 : List.length (take 4 x) = 4%nat) by (by rewrite length_take, Hl).
    assert (Ev : ip_value (of_in_addr (take 4 x)) = be_load (take 4 x))
      by (unfold ip_value; cbn [family_ of_in_addr]; by rewrite ipv4_of_in_addr).
    pose proof (be_load_word_bound _ W4 L4) as B. rewrite Ev.
    destruct (decide (length = 32)) as [->|]; [|destruct (decide (length = 0)) as [->|]].
    + split; [done|]. change (32 - 32) with 0. rewrite Z.div_1_r, Z.mul_1_r. exact Ev.
    + split; [done|]. change (32 - 0) with 32. by rewrite Z.div_small.
    + split; [|apply truncate_v4; (done || lia)]. unfold TruncateIP.
      rewrite (proj2 (Z.ltb_ge length 0)) by lia. cbn [family_ of_in_addr of_in6_addr].
      by destruct (_ <? length), (length =? 0).
  - change (mkIP AF_INET6 x) with (of_in6_addr x).
    destruct (split_words x Hw Hl) as (a & b & c & d & -> & La & Lb & Lc & Ld & Wa & Wb & Wc & Wd).
    assert (B : 0 <= be_load (a ++ b ++ c ++ d) < 2 ^ 128).
    { pose proof (be_load_bound _ Hw) as B. unfold zlen in B. by rewrite Hl in B. }
    destruct (decide (length = 128)) as [->|]; [|destruct (decide (length = 0)) as [->|]].
    + split; [done|]. change (128 - 128) with 0. by rewrite Z.div_1_r, Z.mul_1_r.
    + split; [done|]. change (128 - 0) with 128. unfold ip_value at 2. cbn [family_ of_in6_addr].
      unfold ipv6_address. cbn [u_ of_in6_addr]. by rewrite Z.div_small.
    + split; [|apply truncate_v6; (done || lia)]. unfold TruncateIP.
      rewrite (proj2 (Z.ltb_ge length 0)) by lia. cbn [family_ of_in_addr of_in6_addr].
      by destruct (_ <? length), (length =? 0).
Qed.

Lemma TruncateIP_prefix_witness :
  let ip := of_in_addr [192; 168; 77; 9] in
  family_ (TruncateIP ip 18) = AF_INET /\
  ip_value (TruncateIP ip 18) = ip_value ip / 2 ^ (32 - 18) * 2 ^ (32 - 18) /\
  TruncateIP ip 18 = of_in_addr [192; 168; 64; 0].
Proof.
  cbv zeta. assert (Hw : wf (of_in_addr [192; 168; 77; 9])).
  { apply of_in_addr_wf; [|done]. repeat constructor; unfold is_byte; lia. }
  destruct (TruncateIP_prefix (of_in_addr [192; 168; 77; 9]) 18 Hw) as [E1 E2].
  - discriminate.
  - cbn. lia.
  - split; [exact E1|]. split; [exact E2|]. vm_compute. reflexivity.
Defined.

(** ** Prefix lengths *)

Definition all_ones (f : Family) : IPAddress :=
  match f with
  | AF_UNSPEC => unspec
  | AF_INET => of_in_addr (replicate 4 255)
  | AF_INET6 => of_in6_addr (replicate 16 255)
  end.

Definition counts (f : Family) (n : Z) : bool :=
  CountIPMaskBits (TruncateIP (all_ones f) n) =? n.

Lemma counts_all :
  forallb (counts AF_INET) (seqZ 0 33) = true /\ forallb (counts AF_INET6) (seqZ 0 129) = true.
Proof. split; vm_compute; reflexivity. Qed.

(** [CountIPMaskBits] inverts the construction of a netmask from its prefix
    length, for IPv4 and for IPv6. *)
Theorem CountIPMaskBits_prefix (f : Family) (n : Z) :
  0 <= n <= ip_bits (all_ones f) -> CountIPMaskBits (TruncateIP (all_ones f) n) = n.
Proof.
  intros Hn. destruct counts_all as [H4 H6]. rewrite forallb_forall in H4, H6.
  destruct f; cbn in Hn.
  - assert (n = 0) as -> by lia. done.
  - apply Z.eqb_eq, (H4 n), list_elem_of_In, elem_of_seqZ. lia.
  - apply Z.eqb_eq, (H6 n), list_elem_of_In, elem_of_seqZ. lia.
Qed.

Lemma CountIPMaskBits_prefix_witness : CountIPMaskBits (TruncateIP (all_ones AF_INET6) 57) = 57.
Proof. apply (CountIPMaskBits_prefix AF_INET6 57). vm_compute. split; discriminate. Defined.

(** On a mask with a hole it counts up to the last set bit, not the leading
    set bits its comment promises. *)
Example CountIPMaskBits_hole : CountIPMaskBits (of_in_addr [255; 0; 255; 0]) = 24.
Proof. reflexivity. Qed.

(** ** Mapped addresses and text *)

(** Mapping an IPv4 address into IPv6 and normalising gives it back, and so
    does printing and parsing it. *)
Theorem v4_roundtrips `{NetOps} (ip : IPAddress) :
  wf ip -> family_ ip = AF_INET ->
  Normalized (AsIPv6Address ip) = ip /\ IPIsV4Mapped (AsIPv6Address ip) = true /\
  IPFromString (ToString ip) = (true, ip).
Proof.
  intros Hwf Hf. pose proof (ipv4_wf ip Hwf) as [W4 L4]. destruct Hwf as (Hw & Hl & Hz).
  destruct ip as [f x]. cbn [family_ u_] in *. subst f.
  assert (Ex : of_in_addr (ipv4_address (mkIP AF_INET x)) = mkIP AF_INET x).
  { unfold of_in_addr, ipv4_address. cbn [u_]. by rewrite <- Hz, take_drop. }
  set (b := ipv4_address _) in *.
  assert (Em : AsIPv6Address (mkIP AF_INET x) = of_in6_addr (take 12 kV4MappedPrefix ++ b)) by done.
  assert (Hm : IPIsV4Mapped (of_in6_addr (take 12 kV4MappedPrefix ++ b)) = true).
  { unfold IPIsV4Mapped, IPIsHelper. change (Z.to_nat (Z.shiftr 96 3)) with 12%nat.
    cbn [ipv6_address u_ of_in6_addr]. apply bool_decide_eq_true_2.
    unfold ipv6_address. cbn [u_ of_in6_addr]. by rewrite take_app_length'. }
  split; [|split; [by rewrite Em|]].
  - rewrite Em. unfold Normalized. cbn [family_ of_in6_addr]. rewrite Hm. cbn [negb u_ of_in6_addr].
    unfold ExtractMappedAddress. rewrite drop_app_length' by done. by rewrite take_ge by lia.
  - unfold ToString. cbn [family_]. fold b.
    destruct b as [|b0 [|b1 [|b2 [|b3 [|]]]]]; try done.
    rewrite (inet_ntop_v4 b0 b1 b2 b3) by done. cbn [default]. unfold IPFromString.
    by rewrite (inet_pton_ntop AF_INET _ _ W4 (inet_ntop_v4 b0 b1 b2 b3 W4)), Ex.
Qed.

(** ** A concrete resolver

    Dotted decimal for IPv4; an IPv6 address is printed as a colon and its
    sixteen bytes. *)
Definition dotted (x : bytes) : bytes := SUtil.join [46] (map dec x).

Definition toy_pton_v4 (s : bytes) : option bytes :=
  match SUtil.split s [46] with
  | Ok ps =>
      let x := map atoll ps in
      if bool_decide (length x = 4%nat) && forallb (fun b => (0 <=? b) && (b <? 256)) x
         && bool_decide (dotted x = s)
      then Some x else None
  | Fail _ => None
  end.

Definition toy_ntop (f : Family) (x : bytes) : option bytes :=
  match f with
  | AF_UNSPEC => None
  | AF_INET => if bool_decide (length x = 4%nat) then Some (dotted x) else None
  | AF_INET6 => Some (58 :: x)
  end.

Definition toy_pton (f : Family) (s : bytes) : option bytes :=
  match f with
  | AF_UNSPEC => None
  | AF_INET => toy_pton_v4 s
  | AF_INET6 => match s with c :: x => if c =? 58 then Some x else None | [] => None end
  end.

Lemma is_byte_test b : is_byte b <-> (0 <=? b) && (b <? 256) = true.
Proof. unfold is_byte. rewrite andb_true_iff, Z.leb_le, Z.ltb_lt. done. Qed.

Lemma dotted_split x :
  wf_bytes x -> length x = 4%nat -> SUtil.split (dotted x) [46] = Ok (map dec x).
Proof.
  intros Hw Hl. unfold dotted.
  assert (Hd : forall b, b ∈ x -> 46 ∉ dec b).
  { intros b Hb. apply digit_not_in_dec; [|done].
    rewrite list.Forall_forall in Hw. by apply (Hw b Hb). }
  rewrite SUtil.split_join.
  - rewrite SUtil.nonempty_all; [done|]. apply list.Forall_forall. intros p Hp.
    apply list_elem_of_fmap in Hp as (b & -> & _). apply dec_nonempty.
  - apply SUtil.clean_char.
  - by destruct x.
  - apply list.Forall_forall. intros p Hp. apply list_elem_of_fmap in Hp as (b & -> & Hb).
    apply SUtil.free_char, Hd, Hb.
  - assert (Hlen : forall b, is_byte b -> (length (dec b) <= 3)%nat).
    { intros b Hb. pose proof (byte_forall (fun b => (length (dec b) <=? 3)%nat)
        ltac:(vm_compute; reflexivity) b Hb) as E. by apply Nat.leb_le in E. }
    destruct x as [|a [|b [|c [|d [|]]]]]; try done.
    rewrite !list.Forall_cons in Hw. destruct Hw as (Ha & Hb & Hc & Hd' & _).
    apply Hlen in Ha, Hb, Hc, Hd'. unfold SUtil.addressable, zlen. cbn [map SUtil.join].
    rewrite !length_app. cbn [length]. lia.
Qed.

Lemma atoll_dec_bytes x : wf_bytes x -> map atoll (map dec x) = x.
Proof.
  intros Hw. induction Hw as [|b x Hb Hw IH]; [done|]. cbn. rewrite IH. f_equal.
  rewrite <- (app_nil_r (dec b)). unfold is_byte in Hb. by apply atoll_dec; [lia|].
Qed.

Lemma toy_pton_dotted x : wf_bytes x -> length x = 4%nat -> toy_pton_v4 (dotted x) = Some x.
Proof.
  intros Hw Hl. unfold toy_pton_v4. rewrite dotted_split, atoll_dec_bytes by done.
  rewrite !bool_decide_eq_true_2 by done.
  assert (E : forallb (fun b => (0 <=? b) && (b <? 256)) x = true).
  { apply forallb_forall. intros b Hb. apply is_byte_test.
    rewrite Forall_forall in Hw. by apply Hw. }
  by rewrite E.
Qed.

Lemma dotted_no_colon x : wf_bytes x -> 58 ∉ dotted x.
Proof.
  intros Hw. unfold dotted. induction Hw as [|b x Hb Hw IH]; [apply not_elem_of_nil|].
  unfold is_byte in Hb. cbn [map].
  assert (H58 : 58 ∉ dec b) by (apply digit_not_in_dec; [lia|done]).
  destruct x as [|c x]; [done|]. cbn [map]. rewrite SUtil.join_cons by done.
  rewrite !not_elem_of_app. split; [done|]. split; [|done].
  rewrite not_elem_of_cons. split; [done|apply not_elem_of_nil].
Qed.

#[program] Definition toy_net : NetOps := {| inet_ntop := toy_ntop; inet_pton := toy_pton |}.
Next Obligation. done. Qed.
Next Obligation.
  intros f x s Hw. destruct f; cbn [toy_ntop toy_pton]; [done| |by intros [= <-]].
  case_bool_decide; [|done]. intros [= <-]. by apply toy_pton_dotted.
Qed.
Next Obligation.
  intros s [x Hx]. unfold toy_pton, toy_pton_v4 in Hx. destruct (SUtil.split s [46]) as [ps|]; [|done].
  destruct (_ && _) eqn:E; [|done]. apply andb_true_iff in E as [E E3].
  apply andb_true_iff in E as [_ E2]. apply bool_decide_eq_true in E3. rewrite <- E3.
  apply dotted_no_colon, Forall_forall. intros b Hb. rewrite forallb_forall in E2.
  by apply is_byte_test, E2.
Qed.

Section Witness.
#[local] Existing Instance toy_net.

Lemma v4_roundtrips_witness :
  let ip := of_in_addr [192; 0; 2; 33] in
  Normalized (AsIPv6Address ip) = ip /\ IPIsV4Mapped (AsIPv6Address ip) = true /\
  IPFromString (lit "192.0.2.33") = (true, ip).
Proof.
  assert (Hw : wf (of_in_addr [192; 0; 2; 33])).
  { apply of_in_addr_wf; [|done]. repeat constructor; unfold is_byte; lia. }
  exact (v4_roundtrips (of_in_addr [192; 0; 2; 33]) Hw eq_refl).
Defined.
End Witness.
