(* ===== verification/SocketAddress.v ===== *)
(** * rtc_base/socket_address.{h,cc}: host, address and port

    [SetPort] asserts that the port fits sixteen bits, so the constructors can
    fault.  A [sockaddr_storage] is the family with the fields of
    [sockaddr_in] or [sockaddr_in6] that the code reads and writes; ports in
    it are in network order. *)
From S2P Require Import StringBuilder.
From S2P Require Import Prelude ByteOrder IpAddress.
Local Open Scope Z_scope.

Record SocketAddress := mkAddr {
  hostname_ : bytes; ip_ : IPAddress; port_ : Z; scope_id_ : Z; literal_ : bool;
}.

Definition Clear : SocketAddress := mkAddr [] unspec 0 0 false.

Definition IsNil (a : SocketAddress) : bool :=
  bool_decide (hostname_ a = []) && IPIsUnspec (ip_ a) && (0 =? port_ a).

Definition IsComplete (a : SocketAddress) : bool := negb (IPIsAny (ip_ a)) && negb (0 =? port_ a).

Definition SetIP (a : SocketAddress) (ip : IPAddress) : SocketAddress := mkAddr [] ip (port_ a) 0 false.

Definition SetIP_host_order (a : SocketAddress) (ip : Z) : SocketAddress := SetIP a (of_host_order ip).

Definition SetResolvedIP (a : SocketAddress) (ip : IPAddress) : SocketAddress :=
  mkAddr (hostname_ a) ip (port_ a) 0 (literal_ a).

Definition SetResolvedIP_host_order (a : SocketAddress) (ip : Z) : SocketAddress :=
  SetResolvedIP a (of_host_order ip).

(** [rtc::dchecked_cast<uint16_t>]. *)
Definition SetPort (a : SocketAddress) (port : Z) : res SocketAddress :=
  _ ← require ((0 <=? port) && (port <? 65536)) AssertFailed;
  Ok (mkAddr (hostname_ a) (ip_ a) port (scope_id_ a) (literal_ a)).

Definition SetScopeID (a : SocketAddress) (id : Z) : SocketAddress :=
  mkAddr (hostname_ a) (ip_ a) (port_ a) id (literal_ a).

(** [SocketAddress(const IPAddress&, int)] and [SocketAddress(uint32_t, int)]. *)
Definition of_ip (ip : IPAddress) (port : Z) : res SocketAddress := SetPort (SetIP Clear ip) port.
Definition of_ip_integer (ip port : Z) : res SocketAddress := SetPort (SetIP_host_order Clear ip) port.

Definition ip (a : SocketAddress) : Z := v4AddressAsHostOrderInteger (ip_ a).
Definition ipaddr (a : SocketAddress) : IPAddress := ip_ a.
Definition port (a : SocketAddress) : Z := port_ a.
Definition PortAsString (a : SocketAddress) : bytes := dec (port_ a).

Definition IsAnyIP (a : SocketAddress) : bool := IPIsAny (ip_ a).

(** [strcmp(hostname_.c_str(), "localhost") == 0]. *)
Definition IsLoopbackIP (a : SocketAddress) : bool :=
  IPIsLoopback (ip_ a) || (IPIsAny (ip_ a) && bool_decide (c_str (hostname_ a) = lit "localhost")).

Definition IsPrivateIP (a : SocketAddress) : bool := IPIsPrivate (ip_ a).

Definition IsUnresolvedIP (a : SocketAddress) : bool :=
  IPIsUnspec (ip_ a) && negb (literal_ a) && negb (bool_decide (hostname_ a = [])).

(** [std::string::operator<]. *)
Fixpoint string_lt (a b : bytes) : bool :=
  match a, b with
  | _, [] => false
  | [], _ :: _ => true
  | x :: a, y :: b => if x =? y then string_lt a b else x <? y
  end.

Definition EqualIPs (a b : SocketAddress) : bool :=
  IpAddress.equals (ip_ a) (ip_ b) &&
  ((negb (IPIsAny (ip_ a)) && negb (IPIsUnspec (ip_ a))) || bool_decide (hostname_ a = hostname_ b)).

Definition EqualPorts (a b : SocketAddress) : bool := port_ a =? port_ b.

Definition equals (a b : SocketAddress) : bool := EqualIPs a b && EqualPorts a b.

Definition lt (a b : SocketAddress) : bool :=
  if negb (IpAddress.equals (ip_ a) (ip_ b)) then IpAddress.lt (ip_ a) (ip_ b)
  else if (IPIsAny (ip_ a) || IPIsUnspec (ip_ a)) && negb (bool_decide (hostname_ a = hostname_ b))
  then string_lt (hostname_ a) (hostname_ b)
  else port_ a <? port_ b.

(** [port_ | (port_ << 16)] is an [int]; converted to [size_t] it may be
    negative. *)
Definition Hash (a : SocketAddress) : Z :=
  Z.lxor (Z.lxor 0 (HashIP (ip_ a))) (u64 (i32 (Z.lor (port_ a) (Z.shiftl (port_ a) 16)))).

(** ** Socket structures *)

Record sockaddr_in := mkSin { sin_family : Family; sin_port : Z; sin_addr : bytes }.

Definition ToSockAddr (a : SocketAddress) : sockaddr_in :=
  match family_ (ip_ a) with
  | AF_INET =>
      mkSin AF_INET (HostToNetwork16 (port_ a))
        (if IPIsAny (ip_ a) then le_store 4 INADDR_ANY else ipv4_address (ip_ a))
  | _ => mkSin AF_UNSPEC 0 (zeros 4)
  end.

Definition FromSockAddr (a : SocketAddress) (saddr : sockaddr_in) : res (bool * SocketAddress) :=
  match sin_family saddr with
  | AF_INET =>
      let a := SetIP_host_order a (NetworkToHost32 (le_load (sin_addr saddr))) in
      a ← SetPort a (NetworkToHost16 (sin_port saddr));
      Ok (true, mkAddr (hostname_ a) (ip_ a) (port_ a) (scope_id_ a) false)
  | _ => Ok (false, a)
  end.

Inductive sockaddr_storage :=
  | storage_in6 (sin6_addr : bytes) (sin6_port sin6_scope_id : Z)
  | storage_in (sin_addr : bytes) (sin_port : Z)
  | storage_other.

Definition ToSockAddrStorageHelper (ip : IPAddress) (port scope_id : Z) : Z * sockaddr_storage :=
  match family_ ip with
  | AF_INET6 => (28, storage_in6 (ipv6_address ip) (HostToNetwork16 port) (u32 scope_id))
  | AF_INET => (16, storage_in (ipv4_address ip) (HostToNetwork16 port))
  | AF_UNSPEC => (0, storage_other)
  end.

Definition ToDualStackSockAddrStorage (a : SocketAddress) : Z * sockaddr_storage :=
  ToSockAddrStorageHelper (AsIPv6Address (ip_ a)) (port_ a) (scope_id_ a).

Definition ToSockAddrStorage (a : SocketAddress) : Z * sockaddr_storage :=
  ToSockAddrStorageHelper (ip_ a) (port_ a) (scope_id_ a).

Definition SocketAddressFromSockAddrStorage (addr : sockaddr_storage) : res (option SocketAddress) :=
  match addr with
  | storage_in sin_addr sin_port =>
      a ← of_ip (of_in_addr sin_addr) (NetworkToHost16 sin_port); Ok (Some a)
  | storage_in6 sin6_addr sin6_port scope =>
      a ← of_ip (of_in6_addr sin6_addr) (NetworkToHost16 sin6_port);
      Ok (Some (SetScopeID a (i32 scope)))
  | storage_other => Ok None
  end.

Definition EmptySocketAddressWithFamily (family : Family) : res SocketAddress :=
  match family with
  | AF_INET => of_ip (of_host_order INADDR_ANY) 0
  | AF_INET6 => of_ip (of_in6_addr in6addr_any) 0
  | AF_UNSPEC => Ok Clear
  end.

(** ** Text *)

(** [char buf[1024]; SimpleStringBuilder sb(buf); sb << host << ":" << port();]
    What the array held before does not matter ([StringBuilder.builder_text]). *)
Definition build_string (host : bytes) (port : Z) : res bytes :=
  StringBuilder.build true (repeat 0 1024)
    [StringBuilder.StdString host; StringBuilder.CString [58; 0]; StringBuilder.Integer port].

(** [strtoul(s, nullptr, 10)]. *)
Definition strtoul (s : bytes) : Z :=
  match scan_int s with
  | None => 0
  | Some v => if 18446744073709551616 <=? Z.abs v then 18446744073709551615 else u64 v
  end.

Section Text.
Context `{NetOps}.

Definition SetIP_hostname (a : SocketAddress) (hostname : bytes) : SocketAddress :=
  let '(literal, ip) := IPFromString hostname in
  mkAddr hostname (if literal then ip else unspec) (port_ a) 0 literal.

(** [SocketAddress(const std::string&, int)]. *)
Definition of_hostname (hostname : bytes) (port : Z) : res SocketAddress :=
  SetPort (SetIP_hostname Clear hostname) port.

Definition host_text (text : IPAddress -> bytes) (a : SocketAddress) : bytes :=
  if negb (literal_ a) && negb (bool_decide (hostname_ a = [])) then hostname_ a
  else match family_ (ip_ a) with
       | AF_INET6 => [91] ++ text (ip_ a) ++ [93]
       | _ => text (ip_ a)
       end.

Definition HostAsURIString : SocketAddress -> bytes := host_text IpAddress.ToString.
Definition HostAsSensitiveURIString : SocketAddress -> bytes := host_text IpAddress.ToSensitiveString.

Definition ToString (a : SocketAddress) : res bytes :=
  build_string (HostAsURIString a) (port_ a).

Definition ToSensitiveString (a : SocketAddress) : res bytes :=
  build_string (HostAsSensitiveURIString a) (port_ a).

Definition ToResolvedSensitiveString (a : SocketAddress) : res bytes :=
  if IsUnresolvedIP a then Ok []
  else build_string (IpAddress.ToSensitiveString (ip_ a)) (port_ a).

(** [str.at(0)] throws on an empty string. *)
Definition FromString (a : SocketAddress) (str : bytes) : res (bool * SocketAddress) :=
  c0 ← from_opt OutOfRange (head str);
  if c0 =? 91 then
    match rfind 93 str with
    | None => Ok (true, a)
    | Some closebracket =>
        match find_from [58] str (Z.of_nat closebracket) with
        | Some colon =>
            if Z.of_nat closebracket <? colon then
              p ← substr_from str (colon + 1);
              a ← SetPort a (i32 (strtoul p));
              h ← substr str 1 (Z.of_nat closebracket - 1);
              Ok (true, SetIP_hostname a h)
            else Ok (false, a)
        | None => Ok (false, a)
        end
    end
  else
    match find_from [58] str 0 with
    | None => Ok (false, a)
    | Some pos =>
        p ← substr_from str (pos + 1);
        a ← SetPort a (i32 (strtoul p));
        h ← substr str 0 pos;
        Ok (true, SetIP_hostname a h)
    end.
End Text.

(** ** Order *)

Definition wf (a : SocketAddress) : Prop :=
  IpAddress.wf (ip_ a) /\ 0 <= port_ a < 65536 /\ -2147483648 <= scope_id_ a < 2147483648.

Lemma string_lt_irrefl s : string_lt s s = false.
Proof. induction s as [|x s IH]; [done|]. cbn. by rewrite Z.eqb_refl. Qed.

Lemma string_lt_trans a : forall b c, string_lt a b = true -> string_lt b c = true -> string_lt a c = true.
Proof.
  induction a as [|x a IH]; intros [|y b] [|z c]; cbn; try done.
  destruct (Z.eqb_spec x y), (Z.eqb_spec y z), (Z.eqb_spec x z); rewrite ?Z.ltb_lt; intros; subst;
    try lia; eauto.
Qed.

Lemma string_lt_total a : forall b, string_lt a b = false -> string_lt b a = false -> a = b.
Proof.
  induction a as [|x a IH]; intros [|y b]; cbn; try done.
  rewrite (Z.eqb_sym y x). destruct (Z.eqb_spec x y) as [->|]; [|rewrite !Z.ltb_ge; lia].
  intros H1 H2. f_equal. by apply IH.
Qed.

(** The part of the host name the comparisons look at. *)
Definition host_key (a : SocketAddress) : bytes :=
  if IPIsAny (ip_ a) || IPIsUnspec (ip_ a) then hostname_ a else [].

Lemma equals_key a b :
  wf a -> wf b -> equals a b = true <-> ip_ a = ip_ b /\ host_key a = host_key b /\ port_ a = port_ b.
Proof.
  intros (Ha & _) (Hb & _). unfold equals, EqualIPs, EqualPorts, host_key.
  rewrite !andb_true_iff, orb_true_iff, andb_true_iff, !negb_true_iff, bool_decide_eq_true, Z.eqb_eq.
  rewrite (IpAddress.equals_spec _ _ Ha Hb). split.
  - intros [[E H] Hp]. rewrite <- E. split; [done|]. split; [|done].
    destruct H as [[-> ->]| ->]; [done|]. by case_match.
  - intros (E & H & Hp). rewrite <- E in H. split; [|done]. split; [done|].
    destruct (IPIsAny (ip_ a)), (IPIsUnspec (ip_ a)); cbn [orb] in H; auto.
Qed.

Lemma lt_key a b :
  wf a -> wf b -> lt a b = true <->
    IpAddress.lt (ip_ a) (ip_ b) = true \/
    (ip_ a = ip_ b /\ (string_lt (host_key a) (host_key b) = true \/
                       (host_key a = host_key b /\ port_ a < port_ b))).
Proof.
  intros (Ha & _) (Hb & _). unfold lt, host_key.
  pose proof (IpAddress.equals_spec _ _ Ha Hb) as He.
  destruct (IpAddress.equals (ip_ a) (ip_ b)) eqn:E; cbn [negb].
  - assert (Ei : ip_ a = ip_ b) by (by apply He). rewrite <- Ei.
    assert (Hirr : IpAddress.lt (ip_ a) (ip_ a) = true -> False).
    { intros Hl. apply IpAddress.lt_spec in Hl; [lia|done|done]. }
    destruct (IPIsAny (ip_ a) || IPIsUnspec (ip_ a)); cbn [andb].
    + case_bool_decide as Eh; cbn [negb].
      * rewrite Eh, string_lt_irrefl, Z.ltb_lt. intuition (try done).
      * intuition (try done).
    + rewrite Z.ltb_lt. cbn. intuition (try done).
  - assert (Hne : ip_ a <> ip_ b) by (intros Ei; apply He in Ei; done). intuition.
Qed.

(** [operator<] is a strict weak order whose equivalence is [operator==]. *)
Theorem socket_order (a b c : SocketAddress) :
  wf a -> wf b -> wf c ->
  lt a a = false /\
  (lt a b = true -> lt b c = true -> lt a c = true) /\
  (equals a b = true <-> lt a b = false /\ lt b a = false).
Proof.
  intros Ha Hb Hc. pose proof (lt_key a b Ha Hb) as Hab. pose proof (lt_key b a Hb Ha) as Hba.
  pose proof (lt_key b c Hb Hc) as Hbc. pose proof (lt_key a c Ha Hc) as Hac.
  pose proof (lt_key a a Ha Ha) as Haa. pose proof (equals_key a b Ha Hb) as He.
  pose proof (IpAddress.lt_spec (ip_ a) (ip_ b) (proj1 Ha) (proj1 Hb)) as Sab.
  pose proof (IpAddress.lt_spec (ip_ b) (ip_ a) (proj1 Hb) (proj1 Ha)) as Sba.
  pose proof (IpAddress.lt_spec (ip_ b) (ip_ c) (proj1 Hb) (proj1 Hc)) as Sbc.
  pose proof (IpAddress.lt_spec (ip_ a) (ip_ c) (proj1 Ha) (proj1 Hc)) as Sac.
  pose proof (IpAddress.lt_spec (ip_ a) (ip_ a) (proj1 Ha) (proj1 Ha)) as Saa.
  split; [|split].
  - apply not_true_is_false. rewrite Haa, string_lt_irrefl, Saa. intuition (lia || done).
  - rewrite Hab, Hbc, Hac, Sab, Sbc, Sac.
    intros [H1|(E1 & H1)] [H2|(E2 & H2)]; rewrite <- ?E2, ?E1 in *; [left; lia | by left | by left |].
    right. split; [done|]. destruct H1 as [H1|[F1 P1]], H2 as [H2|[F2 P2]].
    + left. by eapply string_lt_trans.
    + left. by rewrite <- F2.
    + left. by rewrite F1.
    + right. split; [congruence|lia].
  - rewrite He, <- !not_true_iff_false, Hab, Hba, Sab, Sba. split.
    + intros (-> & -> & ->). rewrite string_lt_irrefl. intuition (lia || done).
    + intros [N1 N2].
      assert (Ei : ip_ a = ip_ b).
      { apply IpAddress.rank_value_inj; [apply Ha|apply Hb|lia|].
        destruct (Z.lt_trichotomy (ip_value (ip_ a)) (ip_value (ip_ b))) as [?|[?|?]]; [|done|];
          exfalso; [apply N1 | apply N2]; left; lia. }
      assert (Eh : host_key a = host_key b).
      { apply string_lt_total; apply not_true_is_false; intros Hs;
          [apply N1 | apply N2]; right; auto. }
      split; [done|]. split; [done|].
      destruct (Z.lt_trichotomy (port_ a) (port_ b)) as [?|[?|?]]; [|done|];
        exfalso; [apply N1 | apply N2]; right; auto.
Qed.

(** ** Round trips *)

Lemma network_port p : 0 <= p < 65536 -> NetworkToHost16 (HostToNetwork16 p) = p.
Proof.
  intros Hp. unfold NetworkToHost16, HostToNetwork16. rewrite bswap_bswap. by apply Z.mod_small.
Qed.

Lemma of_ip_ok ip port : 0 <= port < 65536 -> of_ip ip port = Ok (mkAddr [] ip port 0 false).
Proof.
  intros Hp. unfold of_ip, SetPort. rewrite (proj2 (Z.leb_le 0 port)), (proj2 (Z.ltb_lt port 65536)) by lia.
  done.
Qed.

Lemma i32_u32 z : -2147483648 <= z < 2147483648 -> i32 (u32 z) = z.
Proof.
  intros Hz. unfold i32, u32. change 4294967296 with (2 * 2147483648).
  rewrite Zplus_mod_idemp_l. rewrite Z.mod_small by lia. lia.
Qed.

(** Writing an address to a socket structure and reading it back keeps its IP
    address, port and, for IPv6, scope; through the dual-stack form an IPv4
    address comes back as its IPv4-mapped form. *)
Theorem sockaddr_roundtrip (a : SocketAddress) :
  wf a -> family_ (ip_ a) <> AF_UNSPEC ->
  let scope := match family_ (ip_ a) with AF_INET6 => scope_id_ a | _ => 0 end in
  SocketAddressFromSockAddrStorage (snd (ToSockAddrStorage a)) =
    Ok (Some (mkAddr [] (ip_ a) (port_ a) scope false)) /\
  SocketAddressFromSockAddrStorage (snd (ToDualStackSockAddrStorage a)) =
    Ok (Some (mkAddr [] (AsIPv6Address (ip_ a)) (port_ a) (scope_id_ a) false)).
Proof.
  intros (Hip & Hp & Hs) Hne. cbv zeta.
  unfold ToSockAddrStorage, ToDualStackSockAddrStorage, ToSockAddrStorageHelper, AsIPv6Address.
  destruct (ip_ a) as [f x] eqn:E. cbn [family_] in *. destruct Hip as (Hw & Hl & Hz).
  cbn [family_ u_] in *. destruct f; [done| |]; cbn [snd family_ of_in6_addr];
    unfold SocketAddressFromSockAddrStorage; rewrite network_port, !of_ip_ok by done;
    cbn [mbind res_bind]; rewrite ?i32_u32 by done; (split; [|done]).
  - do 3 f_equal. unfold of_in_addr, ipv4_address. cbn [u_]. by rewrite <- Hz, take_drop.
  - done.
Qed.

Lemma sockaddr_roundtrip_witness :
  let a := mkAddr (lit "host") (of_in_addr [10; 1; 2; 3]) 5000 7 false in
  SocketAddressFromSockAddrStorage (snd (ToSockAddrStorage a)) =
    Ok (Some (mkAddr [] (of_in_addr [10; 1; 2; 3]) 5000 0 false)) /\
  SocketAddressFromSockAddrStorage (snd (ToDualStackSockAddrStorage a)) =
    Ok (Some (mkAddr [] (AsIPv6Address (of_in_addr [10; 1; 2; 3])) 5000 7 false)).
Proof.
  apply (sockaddr_roundtrip (mkAddr (lit "host") (of_in_addr [10; 1; 2; 3]) 5000 7 false)).
  - split; [|split; cbn; lia]. apply of_in_addr_wf; [|done]. repeat constructor; unfold is_byte; lia.
  - discriminate.
Defined.

Lemma socket_order_witness :
  let a := mkAddr [] (of_in_addr [10; 0; 0; 1]) 80 0 false in
  let b := mkAddr (lit "x") (of_in_addr [10; 0; 0; 1]) 81 0 true in
  lt a a = false /\ (lt a b = true -> lt b b = true -> lt a b = true) /\
  (equals a b = true <-> lt a b = false /\ lt b a = false).
Proof.
  assert (Hw : forall h p l, 0 <= p < 65536 -> wf (mkAddr h (of_in_addr [10; 0; 0; 1]) p 0 l)).
  { intros h p l Hp. split; [|split; cbn; lia]. apply of_in_addr_wf; [|done].
    repeat constructor; unfold is_byte; lia. }
  apply (socket_order (mkAddr [] (of_in_addr [10; 0; 0; 1]) 80 0 false)
    (mkAddr (lit "x") (of_in_addr [10; 0; 0; 1]) 81 0 true)
    (mkAddr (lit "x") (of_in_addr [10; 0; 0; 1]) 81 0 true)); apply Hw; lia.
Defined.

(** A bracketed host without its closing bracket is accepted, and leaves the
    address as it was. *)
Example unclosed_bracket : @FromString toy_net Clear (lit "[::1") = Ok (true, Clear).
Proof. reflexivity. Qed.

(** ** The text of an address *)
Section TextFacts.
Context `{NetOps}.

(** What [ToString] gives of a host and a port: the array is large enough for
    hosts of up to a thousand characters, and an assertion fails for longer ones. *)
Lemma build_string_spec host port :
  Forall (fun c => c <> 0) host -> zlen host < 2 ^ 63 ->
  build_string host port =
    if zlen (host ++ [58] ++ dec port) <? 1024 then Ok (host ++ [58] ++ dec port) else Fail AssertFailed.
Proof.
  intros Hn Hl. set (text := host ++ [58] ++ dec port). unfold build_string.
  set (ps := [StringBuilder.StdString host; StringBuilder.CString [58; 0]; StringBuilder.Integer port]).
  assert (StringBuilder.texts ps = text) as Ht
    by (unfold StringBuilder.texts, ps, text; cbn [map concat]; by rewrite app_nil_r).
  rewrite StringBuilder.builder_text; [|vm_compute; split; congruence|].
  2: { constructor; [done|]. constructor; [by exists [58], []|by constructor]. }
  unfold StringBuilder.fits. rewrite Ht. change (zlen (repeat 0 1024)) with 1024.
  change (StringBuilder.all_print ps) with true. cbn [andb app].
  destruct (Z.ltb_spec (zlen text) 1024); [|done]. cbn [negb]. rewrite take_ge by (unfold zlen in *; lia).
  f_equal. apply StringBuilder.c_str_no_nul. unfold text. apply Forall_app; split; [done|].
  constructor; [done|]. apply StringBuilder.dec_nonzero.
Qed.

Lemma strtoul_dec p : 0 <= p < 65536 -> strtoul (dec p) = p.
Proof.
  intros Hp. unfold strtoul. rewrite <- (app_nil_r (dec p)), scan_int_dec by (done || lia).
  rewrite (proj2 (Z.leb_gt _ (Z.abs p))) by lia. apply u64_small. lia.
Qed.

(** An address with a name, printed and parsed, is the same address. *)
Theorem hostname_text_roundtrip h p ip :
  0 <= p < 65536 -> h <> [] -> head h <> Some 91 -> 58 ∉ h -> Forall (fun c => c <> 0) h -> zlen h <= 1000 ->
  IPFromString h = (false, ip) ->
  exists a text, of_hostname h p = Ok a /\ ToString a = Ok text /\ FromString Clear text = Ok (true, a).
Proof.
  intros Hp Hne Hb Hc Hn Hl Hip. pose proof (StringBuilder.dec_length p).
  set (a := mkAddr h unspec p 0 false). exists a, (h ++ [58] ++ dec p).
  assert (forall b, SetPort b p = Ok (mkAddr (hostname_ b) (ip_ b) p (scope_id_ b) (literal_ b))) as Hsp
    by (intros b; unfold SetPort; by rewrite (proj2 (Z.leb_le 0 p)), (proj2 (Z.ltb_lt p 65536)) by lia).
  split; [unfold of_hostname, SetIP_hostname; rewrite Hip; apply Hsp|]. split.
  - unfold ToString, HostAsURIString, host_text. cbn [literal_ hostname_ port_ a].
    rewrite bool_decide_eq_false_2 by done. cbn [negb andb]. rewrite build_string_spec by (done || lia).
    by rewrite (proj2 (Z.ltb_lt _ 1024)) by (rewrite !zlen_app, zlen_cons, zlen_nil; lia).
  - unfold FromString. destruct h as [|c h]; [done|]. cbn [app head]. rewrite from_opt_Some, bind_ok.
    rewrite (proj2 (Z.eqb_neq c 91)) by (cbn in Hb; congruence).
    change (c :: h ++ 58 :: dec p) with ((c :: h) ++ 58 :: dec p). set (host := c :: h) in *.
    assert (find_from [58] (host ++ 58 :: dec p) 0 = Some (zlen host)) as ->.
    { unfold find_from. rewrite (proj2 (Z.leb_le 0 _)) by apply zlen_nonneg. change (Z.to_nat 0) with 0%nat.
      rewrite drop_0, find_at_char_app by done. done. }
    rewrite (cons_middle 58 host), app_assoc, substr_from_app by (by rewrite zlen_app). rewrite bind_ok.
    rewrite strtoul_dec, i32_small, Hsp, bind_ok by lia. rewrite <- app_assoc.
    assert (substr (host ++ [58] ++ dec p) 0 (zlen host) = Ok host) as -> by (by apply (substr_mid [] host)).
    rewrite bind_ok. unfold SetIP_hostname. by rewrite Hip.
Qed.
End TextFacts.

Example hostname_text_roundtrip_witness :
  exists a text, @of_hostname toy_net (lit "stun.example") 3478 = Ok a /\
    @ToString toy_net a = Ok text /\ @FromString toy_net Clear text = Ok (true, a).
Proof.
  apply (@hostname_text_roundtrip toy_net (lit "stun.example") 3478 (@IPFromString toy_net (lit "stun.example")).2);
    [lia|done|done| | |vm_compute; congruence|vm_compute; reflexivity].
  - intros H. vm_compute in H. repeat (apply list.elem_of_cons in H as [H|H]; [discriminate H|]). by apply elem_of_nil in H.
  - repeat constructor; discriminate.
Defined.
