(* ===== verification/SocketServer.v ===== *)
(** * rtc_base/physical_socket_server.{h,cc}, socket.h, async_resolver.{h,cc}

    The sockets of the operating system and the server that waits for them:
    [PhysicalSocket] and [SocketDispatcher], [PhysicalSocketServer] with its
    registry of dispatchers and [WaitSelect], the pipe that wakes it
    ([Signaler]), and [AsyncResolver].

    The build defines WEBRTC_POSIX and WEBRTC_LINUX, so the server waits with
    select; its branches for epoll and Windows are not the build's.

    The operating system is the class [Kernel], one function for all system
    calls.  [client] is what the slots connected to a socket's signals do; they
    may create, use, close and delete sockets.  The locks are left out: all of
    this runs on the thread that waits, but for [WakeUp]. *)
From S2P Require Import Prelude.
From S2P Require ByteOrder.
From S2P Require IpAddress.
From S2P Require SocketAddress.

Local Open Scope Z_scope.

Abbreviation Family := IpAddress.Family.
Abbreviation IPAddress := IpAddress.IPAddress.
Abbreviation Address := SocketAddress.SocketAddress.
Abbreviation sockaddr_storage := SocketAddress.sockaddr_storage.

#[local] Existing Instance IpAddress.Family_eq_dec.

(** ** Constants *)
Definition INVALID_SOCKET : Z := -1.
Definition SOCKET_ERROR : Z := -1.
Definition kForever : Z := -1.
Definition FD_SETSIZE : Z := 1024.
Definition SOCK_STREAM : Z := 1.
Definition SOCK_DGRAM : Z := 2.
Definition MSG_PEEK : Z := 2.
Definition MSG_NOSIGNAL : Z := 16384.

Definition EINTR : Z := 4.
Definition EBADF : Z := 9.
Definition EAGAIN : Z := 11.
Definition EWOULDBLOCK : Z := 11.
Definition EPIPE : Z := 32.
Definition ENOTSOCK : Z := 88.
Definition ECONNABORTED : Z := 103.
Definition ECONNRESET : Z := 104.
Definition EALREADY : Z := 114.
Definition EINPROGRESS : Z := 115.

Definition IsBlockingError (e : Z) : bool := (e =? EWOULDBLOCK) || (e =? EAGAIN) || (e =? EINPROGRESS).

Definition SOL_SOCKET : Z := 1.
Definition SO_TYPE : Z := 3.
Definition SO_ERROR : Z := 4.
Definition SO_SNDBUF : Z := 7.
Definition SO_RCVBUF : Z := 8.
Definition IPPROTO_IP : Z := 0.
Definition IP_TOS : Z := 1.
Definition IP_MTU_DISCOVER : Z := 10.
Definition IP_PMTUDISC_DONT : Z := 0.
Definition IP_PMTUDISC_DO : Z := 2.
Definition IPPROTO_TCP : Z := 6.
Definition TCP_NODELAY : Z := 1.
Definition IPPROTO_IPV6 : Z := 41.
Definition IPV6_TCLASS : Z := 67.

(** DispatcherEvent *)
Definition DE_READ : Z := 1.
Definition DE_WRITE : Z := 2.
Definition DE_CONNECT : Z := 4.
Definition DE_CLOSE : Z := 8.
Definition DE_ACCEPT : Z := 16.

Definition has (events e : Z) : bool := negb (Z.land events e =? 0).

(** ** The operating system *)
Inductive syscall :=
  | sys_socket (family : Family) (type : Z)
  | sys_nonblock (fd : Z)                            (* the two fcntl calls *)
  | sys_getsockname (fd : Z)
  | sys_getpeername (fd : Z)
  | sys_bind (fd : Z) (addr : sockaddr_storage) (len : Z)
  | sys_connect (fd : Z) (addr : sockaddr_storage) (len : Z)
  | sys_getsockopt (fd level opt : Z)
  | sys_setsockopt (fd level opt value : Z)
  | sys_timestamp (fd : Z)                           (* ioctl SIOCGSTAMP *)
  | sys_send (fd : Z) (buf : bytes) (flags : Z)
  | sys_sendto (fd : Z) (buf : bytes) (flags : Z) (addr : sockaddr_storage) (len : Z)
  | sys_recv (fd len flags : Z)
  | sys_recvfrom (fd len : Z)
  | sys_listen (fd backlog : Z)
  | sys_accept (fd : Z)
  | sys_close (fd : Z)
  | sys_select (nfds : Z) (reads writes : list Z) (timeout : option Z)   (* microseconds *)
  | sys_pipe
  | sys_write (fd : Z) (buf : bytes)
  | sys_read (fd len : Z)
  | sys_time.                                        (* TimeMicros *)

(** What a call gives back: its value, the error if it sets one, and what it
    stores through its arguments. *)
Record reply := mkReply {
  ret : Z;
  err : option Z;
  r_data : bytes;
  r_addr : sockaddr_storage;
  r_value : Z;
  r_reads : list Z;
  r_writes : list Z
}.

Definition about_pipe (c : syscall) : bool :=
  match c with sys_pipe | sys_write _ _ | sys_read _ _ => true | _ => false end.

(** Peeking at a descriptor until the call is not interrupted. *)
Fixpoint peek_ends {K} (sys : K -> syscall -> reply * K) (n : nat) (k : K) (fd : Z) : bool :=
  match n with
  | O => false
  | S n =>
      let '(r, k) := sys k (sys_recv fd 1 MSG_PEEK) in
      if (ret r <? 0) && bool_decide (err r = Some EINTR) then peek_ends sys n k fd else true
  end.

(** [pipe] is the server's pipe, [buffered] the number of bytes in it, [opened]
    the open descriptors.  A new descriptor is one not in use, below the limit
    on open files, [FD_SETSIZE].  [patience] bounds the interruptions in a row
    of a call that does not block. *)
Class Kernel (K : Type) := {
  sys : K -> syscall -> reply * K;
  patience : nat;
  pipe : K -> Z * Z;
  buffered : K -> nat;
  opened : K -> gset Z;
  failure_law : forall k c, ret (sys k c).1 < 0 -> is_Some (err (sys k c).1);
  fd_law : forall k c, match c with sys_socket _ _ | sys_accept _ => true | _ => false end = true ->
    let r := ret (sys k c).1 in r = INVALID_SOCKET \/ (0 <= r < FD_SETSIZE /\ r ∉ opened k);
  opened_law : forall k c, about_pipe c = false ->
    opened (sys k c).2 =
      match c with
      | sys_socket _ _ | sys_accept _ =>
          if 0 <=? ret (sys k c).1 then {[ ret (sys k c).1 ]} ∪ opened k else opened k
      | sys_close fd => opened k ∖ {[ fd ]}
      | _ => opened k
      end;
  pipe_law : forall k c, about_pipe c = false ->
    pipe (sys k c).2 = pipe k /\ buffered (sys k c).2 = buffered k;
  new_pipe_law : forall k, let '(r, k') := sys k sys_pipe in 0 <= ret r ->
    0 <= (pipe k').1 < FD_SETSIZE /\ r_reads r = [(pipe k').1; (pipe k').2] /\
    buffered k' = 0%nat /\ opened k' = {[ (pipe k').1; (pipe k').2 ]} ∪ opened k;
  write_law : forall k, buffered k = 0%nat -> let '(r, k') := sys k (sys_write (pipe k).2 [0]) in
    ret r = 1 /\ pipe k' = pipe k /\ buffered k' = 1%nat /\ opened k' = opened k;
  read_law : forall k, buffered k = 1%nat -> let '(r, k') := sys k (sys_read (pipe k).1 4) in
    ret r = 1 /\ pipe k' = pipe k /\ buffered k' = 0%nat /\ opened k' = opened k;
  type_law : forall k fd, let '(r, k') := sys k (sys_accept fd) in
    0 <= ret r -> ret (sys k' (sys_getsockopt (ret r) SOL_SOCKET SO_TYPE)).1 = 0;
  send_law : forall k fd buf flags, ret (sys k (sys_send fd buf flags)).1 <= zlen buf;
  sendto_law : forall k fd buf flags addr len, ret (sys k (sys_sendto fd buf flags addr len)).1 <= zlen buf;
  peek_law : forall k fd, peek_ends sys patience k fd = true;
  select_law : forall k n reads writes t, let r := (sys k (sys_select n reads writes t)).1 in
    r_reads r ⊆ reads /\ r_writes r ⊆ writes /\
    ((0 < buffered k)%nat -> (pipe k).1 ∈ reads -> ret r <> 0 /\ (0 < ret r -> (pipe k).1 ∈ r_reads r));
}.

(** ** Objects *)
Inductive ConnState := CS_CLOSED | CS_CONNECTING | CS_CONNECTED.
#[export] Instance ConnState_eq_dec : EqDecision ConnState.
Proof. solve_decision. Defined.

Record socket := mkSocket {
  s_ : Z;
  udp_ : bool;
  family_ : Family;
  error_ : Z;
  state_ : ConnState;
  resolver_ : option nat;
  enabled_events_ : Z
}.

Definition with_s o x := mkSocket x (udp_ o) (family_ o) (error_ o) (state_ o) (resolver_ o) (enabled_events_ o).
Definition with_kind o udp family :=
  mkSocket (s_ o) udp family (error_ o) (state_ o) (resolver_ o) (enabled_events_ o).
Definition with_error o x := mkSocket (s_ o) (udp_ o) (family_ o) x (state_ o) (resolver_ o) (enabled_events_ o).
Definition with_state o x := mkSocket (s_ o) (udp_ o) (family_ o) (error_ o) x (resolver_ o) (enabled_events_ o).
Definition with_resolver o x := mkSocket (s_ o) (udp_ o) (family_ o) (error_ o) (state_ o) x (enabled_events_ o).
Definition with_events o x := mkSocket (s_ o) (udp_ o) (family_ o) (error_ o) (state_ o) (resolver_ o) x.

(** Signaler *)
Record signaler := mkSignaler { afd0 : Z; afd1 : Z; fSignaled_ : bool }.

Inductive dispatcher := Sock (o : socket) | Wake (g : signaler).

(** AsyncResolver; [owner] is the socket whose slot is connected. *)
Record resolver := mkResolver {
  owner : nat;
  addr_ : Address;
  addresses_ : list IPAddress;
  resolve_error_ : Z;
  recursion_check_ : bool;
  destroy_called_ : bool
}.

Inductive signal := ConnectEvent | ReadEvent | WriteEvent | CloseEvent (error : Z).
#[export] Instance signal_eq_dec : EqDecision signal.
Proof. solve_decision. Defined.

(** [Delivered key o ff errcode]: OnEvent was called for the dispatcher [o],
    registered under [key]. *)
Inductive event :=
  | Signalled (o : nat) (s : signal)
  | Delivered (key : Z) (o : nat) (ff errcode : Z).

Record world (K : Type) := mkWorld {
  kernel : K;
  errno : Z;
  objects : gmap nat dispatcher;
  resolvers : gmap nat resolver;
  next_id : nat;                         (* addresses never used before *)
  next_dispatcher_key_ : Z;
  dispatcher_by_key_ : gmap Z nat;
  key_by_dispatcher_ : gmap nat Z;
  current_dispatcher_keys_ : list Z;
  signal_wakeup_ : nat;
  fWait_ : bool;
  waiting_ : bool;
  log : list event
}.
Arguments mkWorld {K}.
Arguments kernel {K}.
Arguments errno {K}.
Arguments objects {K}.
Arguments resolvers {K}.
Arguments next_id {K}.
Arguments next_dispatcher_key_ {K}.
Arguments dispatcher_by_key_ {K}.
Arguments key_by_dispatcher_ {K}.
Arguments current_dispatcher_keys_ {K}.
Arguments signal_wakeup_ {K}.
Arguments fWait_ {K}.
Arguments waiting_ {K}.
Arguments log {K}.

Section Setters.
Context {K : Type}.
Implicit Types w : world K.
Definition set_kernel w k e : world K :=
  mkWorld k e (objects w) (resolvers w) (next_id w) (next_dispatcher_key_ w) (dispatcher_by_key_ w)
    (key_by_dispatcher_ w) (current_dispatcher_keys_ w) (signal_wakeup_ w) (fWait_ w) (waiting_ w) (log w).
Definition set_objects w objs next : world K :=
  mkWorld (kernel w) (errno w) objs (resolvers w) next (next_dispatcher_key_ w) (dispatcher_by_key_ w)
    (key_by_dispatcher_ w) (current_dispatcher_keys_ w) (signal_wakeup_ w) (fWait_ w) (waiting_ w) (log w).
Definition set_resolvers w rs next : world K :=
  mkWorld (kernel w) (errno w) (objects w) rs next (next_dispatcher_key_ w) (dispatcher_by_key_ w)
    (key_by_dispatcher_ w) (current_dispatcher_keys_ w) (signal_wakeup_ w) (fWait_ w) (waiting_ w) (log w).
Definition set_registry w next by_key by_dispatcher : world K :=
  mkWorld (kernel w) (errno w) (objects w) (resolvers w) (next_id w) next by_key by_dispatcher
    (current_dispatcher_keys_ w) (signal_wakeup_ w) (fWait_ w) (waiting_ w) (log w).
Definition set_keys w keys : world K :=
  mkWorld (kernel w) (errno w) (objects w) (resolvers w) (next_id w) (next_dispatcher_key_ w)
    (dispatcher_by_key_ w) (key_by_dispatcher_ w) keys (signal_wakeup_ w) (fWait_ w) (waiting_ w) (log w).
Definition set_wakeup w o : world K :=
  mkWorld (kernel w) (errno w) (objects w) (resolvers w) (next_id w) (next_dispatcher_key_ w)
    (dispatcher_by_key_ w) (key_by_dispatcher_ w) (current_dispatcher_keys_ w) o (fWait_ w) (waiting_ w) (log w).
Definition set_fWait w b : world K :=
  mkWorld (kernel w) (errno w) (objects w) (resolvers w) (next_id w) (next_dispatcher_key_ w)
    (dispatcher_by_key_ w) (key_by_dispatcher_ w) (current_dispatcher_keys_ w) (signal_wakeup_ w) b (waiting_ w) (log w).
Definition set_waiting w b : world K :=
  mkWorld (kernel w) (errno w) (objects w) (resolvers w) (next_id w) (next_dispatcher_key_ w)
    (dispatcher_by_key_ w) (key_by_dispatcher_ w) (current_dispatcher_keys_ w) (signal_wakeup_ w) (fWait_ w) b (log w).
Definition add_event w e : world K :=
  mkWorld (kernel w) (errno w) (objects w) (resolvers w) (next_id w) (next_dispatcher_key_ w)
    (dispatcher_by_key_ w) (key_by_dispatcher_ w) (current_dispatcher_keys_ w) (signal_wakeup_ w) (fWait_ w) (waiting_ w)
    (log w ++ [e]).
End Setters.

(** ** A socket and the operating system

    The operations of PhysicalSocket that touch only their socket. *)
Record local (K : Type) := mkLocal { l_kernel : K; l_errno : Z; l_sock : socket }.
Arguments mkLocal {K}.
Arguments l_kernel {K}.
Arguments l_errno {K}.
Arguments l_sock {K}.

Definition L (K A : Type) : Type := local K -> res (A * local K).
#[export] Instance L_ret {K} : MRet (L K) := fun A a l => Ok (a, l).
#[export] Instance L_bind {K} : MBind (L K) := fun A B f m l => '(a, l) ← m l; f a l.

Inductive Option_ :=
  | OPT_DONTFRAGMENT | OPT_RCVBUF | OPT_SNDBUF | OPT_NODELAY | OPT_IPV6_V6ONLY | OPT_DSCP
  | OPT_RTP_SENDTIME_EXTN_ID.

Inductive NetworkBindingResult := SUCCESS | FAILURE | NOT_IMPLEMENTED | ADDRESS_NOT_FOUND | NETWORK_CHANGED.

Section Local.
Context {K : Type} `{Kernel K}.

Definition l_get : L K socket := fun l => Ok (l_sock l, l).
Definition l_set (f : socket -> socket) : L K unit := fun l =>
  Ok (tt, mkLocal (l_kernel l) (l_errno l) (f (l_sock l))).
Definition l_lift {A} (m : res A) : L K A := fun l => a ← m; Ok (a, l).
Definition l_last_error : L K Z := fun l => Ok (l_errno l, l).
Definition l_sys (c : syscall) : L K reply := fun l =>
  let '(r, k) := sys (l_kernel l) c in Ok (r, mkLocal k (default (l_errno l) (err r)) (l_sock l)).

Definition GetState : L K ConnState := o ← l_get; mret (state_ o).
Definition SetError (e : Z) : L K unit := l_set (fun o => with_error o e).
Definition GetError : L K Z := o ← l_get; mret (error_ o).
Definition UpdateLastError : L K unit := e ← l_last_error; SetError e.
Definition SetEnabledEvents (events : Z) : L K unit := l_set (fun o => with_events o events).
Definition EnableEvents (events : Z) : L K unit := l_set (fun o => with_events o (Z.lor (enabled_events_ o) events)).
Definition DisableEvents (events : Z) : L K unit :=
  l_set (fun o => with_events o (Z.land (enabled_events_ o) (Z.lxor 255 events))).

Definition SetState (s : ConnState) : L K unit := l_set (fun o => with_state o s).

Definition GetSocketRecvTimestamp (fd : Z) : L K Z :=
  r ← l_sys (sys_timestamp fd); mret (if negb (ret r =? 0) then -1 else r_value r).

(** The address in a [sockaddr_storage], or [address] if it is of another
    family. *)
Definition read_addr (storage : sockaddr_storage) (address : Address) : L K Address :=
  o ← l_lift (SocketAddress.SocketAddressFromSockAddrStorage storage); mret (default address o).

Definition GetLocalAddress : L K Address :=
  o ← l_get;
  r ← l_sys (sys_getsockname (s_ o));
  if 0 <=? ret r then read_addr (r_addr r) SocketAddress.Clear else mret SocketAddress.Clear.

Definition GetRemoteAddress : L K Address :=
  o ← l_get;
  r ← l_sys (sys_getpeername (s_ o));
  if 0 <=? ret r then read_addr (r_addr r) SocketAddress.Clear else mret SocketAddress.Clear.

Definition Bind (network_binder : option (Z -> IPAddress -> NetworkBindingResult)) (bind_addr : Address) : L K Z :=
  o ← l_get;
  let bind addr :=
    let '(len, storage) := SocketAddress.ToSockAddrStorage addr in
    r ← l_sys (sys_bind (s_ o) storage len);
    _ ← UpdateLastError;
    mret (ret r) in
  match network_binder with
  | Some BindSocketToNetwork =>
      if SocketAddress.IsAnyIP bind_addr then bind bind_addr
      else
        match BindSocketToNetwork (s_ o) (SocketAddress.ipaddr bind_addr) with
        | SUCCESS =>
            bind (SocketAddress.SetIP bind_addr
                    (IpAddress.GetAnyIP (IpAddress.family_ (SocketAddress.ipaddr bind_addr))))
        | NOT_IMPLEMENTED => bind bind_addr
        | _ => if SocketAddress.IsLoopbackIP bind_addr then bind bind_addr else mret (-1)
        end
  | None => bind bind_addr
  end.

(** The level and the name of an option, or nothing if it is not one of the
    system's. *)
Definition TranslateOption (opt : Option_) : L K (option (Z * Z)) :=
  o ← l_get;
  mret (match opt with
        | OPT_DONTFRAGMENT => Some (IPPROTO_IP, IP_MTU_DISCOVER)
        | OPT_RCVBUF => Some (SOL_SOCKET, SO_RCVBUF)
        | OPT_SNDBUF => Some (SOL_SOCKET, SO_SNDBUF)
        | OPT_NODELAY => Some (IPPROTO_TCP, TCP_NODELAY)
        | OPT_DSCP =>
            if decide (family_ o = IpAddress.AF_INET6) then Some (IPPROTO_IPV6, IPV6_TCLASS)
            else Some (IPPROTO_IP, IP_TOS)
        | OPT_IPV6_V6ONLY | OPT_RTP_SENDTIME_EXTN_ID => None
        end).

(** The result and the value. *)
Definition GetOption (opt : Option_) (value : Z) : L K (Z * Z) :=
  t ← TranslateOption opt;
  match t with
  | None => mret (-1, value)
  | Some (slevel, sopt) =>
      o ← l_get;
      r ← l_sys (sys_getsockopt (s_ o) slevel sopt);
      if ret r =? -1 then mret (-1, value)
      else
        mret (ret r, match opt with
                     | OPT_DONTFRAGMENT => if negb (r_value r =? IP_PMTUDISC_DONT) then 1 else 0
                     | OPT_DSCP => Z.shiftr (r_value r) 2
                     | _ => r_value r
                     end)
  end.

Definition SetOption (opt : Option_) (value : Z) : L K Z :=
  t ← TranslateOption opt;
  match t with
  | None => mret (-1)
  | Some (slevel, sopt) =>
      let value :=
        match opt with
        | OPT_DONTFRAGMENT => if negb (value =? 0) then IP_PMTUDISC_DO else IP_PMTUDISC_DONT
        | OPT_DSCP => i32 (Z.shiftl value 2)
        | _ => value
        end in
      o ← l_get;
      _ ← (if sopt =? IPV6_TCLASS then _ ← l_sys (sys_setsockopt (s_ o) IPPROTO_IP IP_TOS value); mret tt
           else mret tt);
      r ← l_sys (sys_setsockopt (s_ o) slevel sopt value);
      _ ← (if negb (ret r =? 0) then UpdateLastError else mret tt);
      mret (ret r)
  end.

(** What follows the system call of Send and SendTo. *)
Definition sent_some (sent cb : Z) : L K Z :=
  _ ← UpdateLastError;
  _ ← l_lift (require (sent <=? i32 cb) AssertFailed);
  e ← GetError;
  _ ← (if ((0 <? sent) && (sent <? i32 cb)) || ((sent <? 0) && IsBlockingError e)
       then EnableEvents DE_WRITE else mret tt);
  mret sent.

Definition Send (pv : bytes) : L K Z :=
  o ← l_get;
  r ← l_sys (sys_send (s_ o) pv MSG_NOSIGNAL);
  sent_some (ret r) (zlen pv).

Definition SendTo (buffer : bytes) (addr : Address) : L K Z :=
  let '(len, saddr) := SocketAddress.ToSockAddrStorage addr in
  o ← l_get;
  r ← l_sys (sys_sendto (s_ o) buffer MSG_NOSIGNAL saddr len);
  sent_some (ret r) (zlen buffer).

(** The end of Recv and RecvFrom. *)
Definition received_some (received : Z) : L K Z :=
  e ← GetError;
  let success := (0 <=? received) || IsBlockingError e in
  o ← l_get;
  _ ← (if udp_ o || success then EnableEvents DE_READ else mret tt);
  mret received.

(** The value, the data and the time stamp, if one is asked for. *)
Definition Recv (length : Z) (timestamp : bool) : L K (Z * bytes * option Z) :=
  o ← l_get;
  r ← l_sys (sys_recv (s_ o) (i32 length) 0);
  if (ret r =? 0) && negb (length =? 0) then
    _ ← EnableEvents DE_READ;
    _ ← SetError EWOULDBLOCK;
    mret (SOCKET_ERROR, [], None)
  else
    t ← (if timestamp then t ← GetSocketRecvTimestamp (s_ o); mret (Some t) else mret None);
    _ ← UpdateLastError;
    n ← received_some (ret r);
    mret (n, r_data r, t).

Definition RecvFrom (length : Z) (timestamp : bool) : L K (Z * bytes * Address * option Z) :=
  o ← l_get;
  r ← l_sys (sys_recvfrom (s_ o) (i32 length));
  t ← (if timestamp then t ← GetSocketRecvTimestamp (s_ o); mret (Some t) else mret None);
  _ ← UpdateLastError;
  a ← (if 0 <=? ret r then read_addr (r_addr r) SocketAddress.Clear else mret SocketAddress.Clear);
  n ← received_some (ret r);
  mret (n, r_data r, a, t).

Definition Listen (backlog : Z) : L K Z :=
  o ← l_get;
  r ← l_sys (sys_listen (s_ o) backlog);
  _ ← UpdateLastError;
  _ ← (if ret r =? 0 then _ ← SetState CS_CONNECTING; EnableEvents DE_ACCEPT else mret tt);
  mret (ret r).

(** The loop repeats an interrupted call. *)
Fixpoint peek (n : nat) (fd : Z) : L K reply :=
  match n with
  | O => l_lift (Fail OutOfFuel)
  | S n =>
      r ← l_sys (sys_recv fd 1 MSG_PEEK);
      e ← l_last_error;
      if (ret r <? 0) && (e =? EINTR) then peek n fd else mret r
  end.

Definition IsDescriptorClosed : L K bool :=
  o ← l_get;
  if udp_ o then mret (s_ o =? INVALID_SOCKET)
  else
    r ← peek patience (s_ o);
    if 0 <? ret r then mret false
    else if ret r =? 0 then mret true
    else
      e ← l_last_error;
      mret ((e =? EBADF) || (e =? ECONNRESET) || (e =? ECONNABORTED) || (e =? EPIPE)).
End Local.

(** ** The server *)
Definition M (K A : Type) : Type := world K -> res (A * world K).
#[export] Instance M_ret {K} : MRet (M K) := fun A a w => Ok (a, w).
#[export] Instance M_bind {K} : MBind (M K) := fun A B f m w => '(a, w) ← m w; f a w.

(** What a client asks for in a slot or outside.  It names sockets it holds. *)
Inductive action :=
  | ACreate (family : Family) (type : Z)
  | ABind (o : nat) (addr : Address)
  | AConnect (o : nat) (addr : Address)
  | AListen (o : nat) (backlog : Z)
  | AAccept (o : nat)
  | ASend (o : nat) (buf : bytes)
  | ASendTo (o : nat) (buf : bytes) (addr : Address)
  | ARecv (o : nat) (length : Z) (timestamp : bool)
  | ARecvFrom (o : nat) (length : Z) (timestamp : bool)
  | ASetOption (o : nat) (opt : Option_) (value : Z)
  | AClose (o : nat)
  | ADelete (o : nat)
  | AWakeUp.

(** ** Resolving a name

    [ret_] and [result] are what getaddrinfo gives for the name. *)
Record addrinfo := mkAddrinfo { ai_family : Family; ai_addr : option sockaddr_storage }.

Definition IPFromAddrInfo (info : addrinfo) : option IPAddress :=
  match ai_addr info with
  | Some (SocketAddress.storage_in addr _) => Some (IpAddress.of_in_addr addr)
  | Some (SocketAddress.storage_in6 addr _ _) => Some (IpAddress.of_in6_addr addr)
  | _ => None
  end.

Definition ResolveHostname (family : Family) (ret_ : Z) (result : list addrinfo) : Z * list IPAddress :=
  if negb (ret_ =? 0) then (ret_, [])
  else
    (0, omap (fun cursor =>
           if decide (family = IpAddress.AF_UNSPEC) then IPFromAddrInfo cursor
           else if decide (ai_family cursor = family) then IPFromAddrInfo cursor else None) result).

Section Server.
Context {K : Type} `{Kernel K}.

(** The order in which the map of dispatchers is gone through. *)
Context (order : gmap Z nat -> list (Z * nat)).
Context (network_binder : option (Z -> IPAddress -> NetworkBindingResult)).
(** Whether another thread wakes the server up before the next select returns. *)
Context (awaken : list event -> bool).
(** What the slots do when a socket signals, given all that happened. *)
Context (client : nat -> signal -> list event -> list action).

Definition get : M K (world K) := fun w => Ok (w, w).
Definition modify (f : world K -> world K) : M K unit := fun w => Ok (tt, f w).
Definition fail {A} (e : fault) : M K A := fun _ => Fail e.
Definition check (b : bool) (e : fault) : M K unit := if b then mret tt else fail e.

Definition call (c : syscall) : M K reply := fun w =>
  let '(r, k) := sys (kernel w) c in Ok (r, set_kernel w k (default (errno w) (err r))).

Definition set_object (o : nat) (x : dispatcher) : M K unit :=
  modify (fun w => set_objects w (<[o := x]> (objects w)) (next_id w)).

(** An access through a pointer to a socket. *)
Definition get_sock (o : nat) : M K socket :=
  w ← get;
  match objects w !! o with Some (Sock x) => mret x | _ => fail Dangling end.

(** An operation of PhysicalSocket. *)
Definition run_local {A} (o : nat) (x : socket) (m : L K A) (w : world K) : res (A * world K) :=
  match m (mkLocal (kernel w) (errno w) x) with
  | Ok (a, l) =>
      let w := set_kernel w (l_kernel l) (l_errno l) in
      Ok (a, set_objects w (<[o := Sock (l_sock l)]> (objects w)) (next_id w))
  | Fail e => Fail e
  end.

Definition on_sock {A} (o : nat) (m : L K A) : M K A := x ← get_sock o; run_local o x m.

Definition new_object (x : dispatcher) : M K nat := fun w =>
  Ok (next_id w, set_objects w (<[next_id w := x]> (objects w)) (S (next_id w))).

(** *** The registry

    The next key is a uint64_t that counts the dispatchers ever added: 2^64 of
    them are not reached. *)
Definition Add (pdispatcher : nat) : M K unit :=
  w ← get;
  match key_by_dispatcher_ w !! pdispatcher with
  | Some _ => mret tt
  | None =>
      let key := next_dispatcher_key_ w in
      modify (fun w => set_registry w (key + 1) (<[key := pdispatcher]> (dispatcher_by_key_ w))
                         (<[pdispatcher := key]> (key_by_dispatcher_ w)))
  end.

Definition Remove (pdispatcher : nat) : M K unit :=
  w ← get;
  match key_by_dispatcher_ w !! pdispatcher with
  | None => mret tt
  | Some key =>
      modify (fun w => set_registry w (next_dispatcher_key_ w) (delete key (dispatcher_by_key_ w))
                         (delete pdispatcher (key_by_dispatcher_ w)))
  end.

(** *** AsyncResolver *)
Definition get_resolver (r : nat) : M K resolver :=
  w ← get;
  match resolvers w !! r with Some x => mret x | None => fail Dangling end.
Definition set_resolver (r : nat) (x : resolver) : M K unit :=
  modify (fun w => set_resolvers w (<[r := x]> (resolvers w)) (next_id w)).

Definition new_resolver (o : nat) : M K nat := fun w =>
  Ok (next_id w,
      set_resolvers w (<[next_id w := mkResolver o SocketAddress.Clear [] (-1) false false]> (resolvers w))
        (S (next_id w))).

(** The resolution itself runs on a thread of its own. *)
Definition Start (r : nat) (addr : Address) : M K unit :=
  x ← get_resolver r;
  _ ← check (negb (destroy_called_ x)) AssertFailed;
  set_resolver r (mkResolver (owner x) addr (addresses_ x) (resolve_error_ x) (recursion_check_ x) (destroy_called_ x)).

Definition MaybeSelfDestruct (r : nat) : M K unit :=
  x ← get_resolver r;
  if negb (recursion_check_ x) then modify (fun w => set_resolvers w (delete r (resolvers w)) (next_id w))
  else set_resolver r (mkResolver (owner x) (addr_ x) (addresses_ x) (resolve_error_ x) false (destroy_called_ x)).

Definition Destroy (r : nat) : M K unit :=
  x ← get_resolver r;
  _ ← check (negb (destroy_called_ x)) AssertFailed;
  _ ← set_resolver r (mkResolver (owner x) (addr_ x) (addresses_ x) (resolve_error_ x) (recursion_check_ x) true);
  MaybeSelfDestruct r.

Definition resolver_GetError (r : nat) : M K Z :=
  x ← get_resolver r;
  _ ← check (negb (destroy_called_ x)) AssertFailed;
  mret (resolve_error_ x).

(** Whether there is a resolved address of the family, and what is left in
    [addr]: the address given to Start, with the one found if there is. *)
Definition GetResolvedAddress (r : nat) (family : Family) (addr : Address) : M K (bool * Address) :=
  x ← get_resolver r;
  _ ← check (negb (destroy_called_ x)) AssertFailed;
  mret (if negb (resolve_error_ x =? 0) || bool_decide (addresses_ x = []) then (false, addr)
        else
          match list_find (fun ip => family = IpAddress.family_ ip) (addresses_ x) with
          | Some (_, ip) => (true, SocketAddress.SetResolvedIP (addr_ x) ip)
          | None => (false, addr_ x)
          end).

Definition address (r : nat) : M K Address :=
  a ← GetResolvedAddress r IpAddress.AF_INET SocketAddress.Clear; mret a.2.

(** *** SocketDispatcher *)
Definition physical_Close (o : nat) : M K Z :=
  x ← get_sock o;
  if s_ x =? INVALID_SOCKET then mret 0
  else
    r ← call (sys_close (s_ x));
    _ ← on_sock o UpdateLastError;
    _ ← on_sock o (l_set (fun x => with_s x INVALID_SOCKET));
    _ ← on_sock o (SetState CS_CLOSED);
    _ ← on_sock o (SetEnabledEvents 0);
    x ← get_sock o;
    _ ← match resolver_ x with
        | None => mret tt
        | Some res => _ ← Destroy res; on_sock o (l_set (fun x => with_resolver x None))
        end;
    mret (ret r).

Definition Close (o : nat) : M K Z :=
  x ← get_sock o;
  if s_ x =? INVALID_SOCKET then mret 0 else _ ← Remove o; physical_Close o.

Definition Initialize (o : nat) : M K bool :=
  x ← get_sock o;
  _ ← check (negb (s_ x =? INVALID_SOCKET)) AssertFailed;
  _ ← call (sys_nonblock (s_ x));
  _ ← Add o;
  mret true.

Definition physical_Create (o : nat) (family : Family) (type : Z) : M K bool :=
  _ ← Close o;
  r ← call (sys_socket family type);
  _ ← on_sock o (l_set (fun x => with_s x (ret r)));
  _ ← on_sock o (l_set (fun x => with_kind x (type =? SOCK_DGRAM) family));
  _ ← on_sock o UpdateLastError;
  _ ← (if type =? SOCK_DGRAM then on_sock o (SetEnabledEvents (Z.lor DE_READ DE_WRITE)) else mret tt);
  mret (negb (ret r =? INVALID_SOCKET)).

Definition Create (o : nat) (family : Family) (type : Z) : M K bool :=
  ok ← physical_Create o family type; if negb ok then mret false else Initialize o.

Definition closed_socket : socket := mkSocket INVALID_SOCKET false IpAddress.AF_UNSPEC 0 CS_CLOSED None 0.

(** ~SocketDispatcher and ~PhysicalSocket. *)
Definition delete_socket (o : nat) : M K unit :=
  _ ← Close o;
  modify (fun w => set_objects w (delete o (objects w)) (next_id w)).

Definition CreateSocket (family : Family) (type : Z) : M K (option nat) :=
  o ← new_object (Sock closed_socket);
  ok ← Create o family type;
  if (ok : bool) then mret (Some o) else _ ← delete_socket o; mret None.

(** The constructor for a descriptor. *)
Definition new_dispatcher (s : Z) : M K nat :=
  let state := if s =? INVALID_SOCKET then CS_CLOSED else CS_CONNECTED in
  o ← new_object (Sock (mkSocket s false IpAddress.AF_UNSPEC 0 state None 0));
  _ ← (if s =? INVALID_SOCKET then mret tt
       else
         _ ← on_sock o (SetEnabledEvents (Z.lor DE_READ DE_WRITE));
         r ← call (sys_getsockopt s SOL_SOCKET SO_TYPE);
         _ ← check (ret r =? 0) AssertFailed;
         on_sock o (l_set (fun x => with_kind x (r_value r =? SOCK_DGRAM) (family_ x))));
  mret o.

Definition WrapSocket (s : Z) : M K (option nat) :=
  o ← new_dispatcher s;
  ok ← Initialize o;
  if (ok : bool) then mret (Some o) else _ ← delete_socket o; mret None.

Definition Accept (o : nat) : M K (option nat) :=
  _ ← on_sock o (EnableEvents DE_ACCEPT);
  x ← get_sock o;
  r ← call (sys_accept (s_ x));
  _ ← on_sock o UpdateLastError;
  if ret r =? INVALID_SOCKET then mret None else WrapSocket (ret r).

(** The second half of DoConnect, once there is a descriptor. *)
Definition connect_sock (connect_addr : Address) : L K Z :=
  let '(len, storage) := SocketAddress.ToSockAddrStorage connect_addr in
  o ← l_get;
  r ← l_sys (sys_connect (s_ o) storage len);
  _ ← UpdateLastError;
  e ← GetError;
  let events := Z.lor DE_READ DE_WRITE in
  if ret r =? 0 then _ ← SetState CS_CONNECTED; _ ← EnableEvents events; mret 0
  else if IsBlockingError e then
    _ ← SetState CS_CONNECTING; _ ← EnableEvents (Z.lor events DE_CONNECT); mret 0
  else mret SOCKET_ERROR.

Definition DoConnect (o : nat) (connect_addr : Address) : M K Z :=
  x ← get_sock o;
  ok ← (if s_ x =? INVALID_SOCKET
        then Create o (IpAddress.family_ (SocketAddress.ipaddr connect_addr)) SOCK_STREAM else mret true);
  if negb ok then mret SOCKET_ERROR else on_sock o (connect_sock connect_addr).

Definition Connect (o : nat) (addr : Address) : M K Z :=
  x ← get_sock o;
  if negb (bool_decide (state_ x = CS_CLOSED)) then _ ← on_sock o (SetError EALREADY); mret SOCKET_ERROR
  else if SocketAddress.IsUnresolvedIP addr then
    r ← new_resolver o;
    _ ← on_sock o (l_set (fun x => with_resolver x (Some r)));
    _ ← Start r addr;
    _ ← on_sock o (SetState CS_CONNECTING);
    mret 0
  else DoConnect o addr.

(** *** Signaler *)
Definition get_signaler (o : nat) : M K signaler :=
  w ← get;
  match objects w !! o with Some (Wake g) => mret g | _ => fail Dangling end.

Definition Signal (o : nat) : M K unit :=
  g ← get_signaler o;
  if fSignaled_ g then mret tt
  else
    r ← call (sys_write (afd1 g) [0]);
    _ ← check (ret r =? 1) AssertFailed;
    set_object o (Wake (mkSignaler (afd0 g) (afd1 g) true)).

Definition Signaler_OnEvent (o : nat) : M K unit :=
  g ← get_signaler o;
  _ ← (if fSignaled_ g then
         r ← call (sys_read (afd0 g) 4);
         _ ← check (ret r =? 1) AssertFailed;
         set_object o (Wake (mkSignaler (afd0 g) (afd1 g) false))
       else mret tt);
  modify (fun w => set_fWait w false).

Definition WakeUp : M K unit := w ← get; Signal (signal_wakeup_ w).

(** *** Signals *)
Definition holds (o : nat) : M K bool :=
  w ← get; mret (match objects w !! o with Some (Sock _) => true | _ => false end).
Definition if_held {A} (o : nat) (m : M K A) : M K unit :=
  b ← holds o; if (b : bool) then _ ← m; mret tt else mret tt.

Definition do_action (a : action) : M K unit :=
  match a with
  | ACreate family type => _ ← CreateSocket family type; mret tt
  | ABind o addr => if_held o (on_sock o (Bind network_binder addr))
  | AConnect o addr => if_held o (Connect o addr)
  | AListen o backlog => if_held o (on_sock o (Listen backlog))
  | AAccept o => if_held o (Accept o)
  | ASend o buf => if_held o (on_sock o (Send buf))
  | ASendTo o buf addr => if_held o (on_sock o (SendTo buf addr))
  | ARecv o length timestamp => if_held o (on_sock o (Recv length timestamp))
  | ARecvFrom o length timestamp => if_held o (on_sock o (RecvFrom length timestamp))
  | ASetOption o opt value => if_held o (on_sock o (SetOption opt value))
  | AClose o => if_held o (Close o)
  | ADelete o => if_held o (delete_socket o)
  | AWakeUp => WakeUp
  end.

Fixpoint do_actions (l : list action) : M K unit :=
  match l with [] => mret tt | a :: l => _ ← do_action a; do_actions l end.

(** The emission goes back to the signal, which is part of the socket, after
    the slots. *)
Definition raise (o : nat) (s : signal) : M K unit :=
  _ ← modify (fun w => add_event w (Signalled o s));
  w ← get;
  _ ← do_actions (client o s (log w));
  _ ← get_sock o;
  mret tt.

Definition OnResolveResult (o r : nat) : M K unit :=
  x ← get_sock o;
  if negb (bool_decide (resolver_ x = Some r)) then mret tt
  else
    error ← resolver_GetError r;
    error ← (if error =? 0 then a ← address r; DoConnect o a else _ ← Close o; mret error);
    if negb (error =? 0) then _ ← on_sock o (SetError error); raise o (CloseEvent error)
    else mret tt.

Definition ResolveDone (r : nat) (addresses : list IPAddress) (error : Z) : M K unit :=
  w ← get;
  match resolvers w !! r with
  | None => mret tt
  | Some x =>
      _ ← set_resolver r (mkResolver (owner x) (addr_ x) addresses error true (destroy_called_ x));
      b ← holds (owner x);
      _ ← (if (b : bool) then OnResolveResult (owner x) r else mret tt);
      MaybeSelfDestruct r
  end.

(** What the thread of the resolution finds, and the task it posts, which runs
    if the resolver is still alive. *)
Definition resolved (r : nat) (ret_ : Z) (result : list addrinfo) : M K unit :=
  w ← get;
  match resolvers w !! r with
  | None => mret tt
  | Some x =>
      let '(error, addresses) := ResolveHostname (IpAddress.family_ (SocketAddress.ip_ (addr_ x))) ret_ result in
      ResolveDone r addresses error
  end.

Definition OnEvent (o : nat) (ff error : Z) : M K unit :=
  _ ← (if has ff DE_CONNECT then on_sock o (SetState CS_CONNECTED) else mret tt);
  _ ← (if has ff DE_CLOSE then on_sock o (SetState CS_CLOSED) else mret tt);
  _ ← (if has ff DE_CONNECT then _ ← on_sock o (DisableEvents DE_CONNECT); raise o ConnectEvent else mret tt);
  _ ← (if has ff DE_ACCEPT then _ ← on_sock o (DisableEvents DE_ACCEPT); raise o ReadEvent else mret tt);
  _ ← (if has ff DE_READ then _ ← on_sock o (DisableEvents DE_READ); raise o ReadEvent else mret tt);
  _ ← (if has ff DE_WRITE then _ ← on_sock o (DisableEvents DE_WRITE); raise o WriteEvent else mret tt);
  if has ff DE_CLOSE then _ ← on_sock o (SetEnabledEvents 0); raise o (CloseEvent error) else mret tt.

(** *** Waiting *)
Definition GetDescriptor (o : nat) : M K Z :=
  w ← get;
  match objects w !! o with
  | Some (Sock x) => mret (s_ x)
  | Some (Wake g) => mret (afd0 g)
  | None => fail Dangling
  end.

Definition GetRequestedEvents (o : nat) : M K Z :=
  w ← get;
  match objects w !! o with
  | Some (Sock x) => mret (enabled_events_ x)
  | Some (Wake _) => mret DE_READ
  | None => fail Dangling
  end.

Definition descriptor_closed (o : nat) : M K bool :=
  w ← get;
  match objects w !! o with
  | Some (Sock _) => on_sock o IsDescriptorClosed
  | Some (Wake _) => mret false
  | None => fail Dangling
  end.

Definition deliver (key : Z) (o : nat) (ff errcode : Z) : M K unit :=
  _ ← modify (fun w => add_event w (Delivered key o ff errcode));
  w ← get;
  match objects w !! o with
  | Some (Sock _) => OnEvent o ff errcode
  | Some (Wake _) => Signaler_OnEvent o
  | None => fail Dangling
  end.

(** The error a descriptor has, where [check_error] asks for it. *)
Definition error_code (o : nat) (error_event check_error : bool) : M K Z :=
  if check_error then
    fd ← GetDescriptor o;
    r ← call (sys_getsockopt fd SOL_SOCKET SO_ERROR);
    w ← get;
    mret (if ret r <? 0 then (if error_event || negb (errno w =? ENOTSOCK) then EBADF else r_value r)
          else r_value r)
  else mret 0.

Definition ProcessEvents (key : Z) (o : nat) (readable writable error_event check_error : bool) : M K unit :=
  _ ← check (negb (error_event && negb check_error)) AssertFailed;
  errcode ← error_code o error_event check_error;
  requested_events ← GetRequestedEvents o;
  ff ← (if readable then
          closed ← (if negb (errcode =? 0) then mret true else descriptor_closed o);
          mret (if (closed : bool) then DE_CLOSE
                else if has requested_events DE_ACCEPT then DE_ACCEPT else DE_READ)
        else mret 0);
  let ff :=
    if writable then
      if has requested_events DE_CONNECT then (if errcode =? 0 then Z.lor ff DE_CONNECT else ff)
      else Z.lor ff DE_WRITE
    else ff in
  let ff := if negb (errcode =? 0) then Z.lor ff DE_CLOSE else ff in
  if negb (ff =? 0) then deliver key o ff errcode else mret tt.

(** The sets given to select: the keys, the highest descriptor, the
    descriptors to read and to write. *)
Fixpoint collect (process_io : bool) (l : list (Z * nat)) (keys : list Z) (fdmax : Z) (reads writes : list Z) :
    M K (list Z * Z * list Z * list Z) :=
  match l with
  | [] => mret (keys, fdmax, reads, writes)
  | (key, pdispatcher) :: l =>
      w ← get;
      if negb process_io && negb (bool_decide (pdispatcher = signal_wakeup_ w))
      then collect process_io l keys fdmax reads writes
      else
        fd ← GetDescriptor pdispatcher;
        _ ← check (fd <? FD_SETSIZE) AssertFailed;
        ff ← GetRequestedEvents pdispatcher;
        let r := has ff (Z.lor DE_READ DE_ACCEPT) in
        let t := has ff (Z.lor DE_WRITE DE_CONNECT) in
        _ ← check (negb (r || t) || (0 <=? fd)) OutOfBounds;
        collect process_io l (keys ++ [key]) (if fdmax <? fd then fd else fdmax)
          (if r then reads ++ [fd] else reads) (if t then writes ++ [fd] else writes)
  end.

Definition FD_ISSET (fd : Z) (set : list Z) : M K bool :=
  _ ← check ((0 <=? fd) && (fd <? FD_SETSIZE)) OutOfBounds;
  mret (bool_decide (fd ∈ set)).
Definition FD_CLR (fd : Z) (set : list Z) : list Z := base.filter (fun x => x <> fd) set.

Fixpoint process (keys : list Z) (reads writes : list Z) : M K unit :=
  match keys with
  | [] => mret tt
  | key :: keys =>
      w ← get;
      match dispatcher_by_key_ w !! key with
      | None => process keys reads writes
      | Some pdispatcher =>
          fd ← GetDescriptor pdispatcher;
          readable ← FD_ISSET fd reads;
          writable ← FD_ISSET fd writes;
          _ ← ProcessEvents key pdispatcher readable writable false (readable || writable);
          process keys (if (readable : bool) then FD_CLR fd reads else reads)
            (if (writable : bool) then FD_CLR fd writes else writes)
      end
  end.

(** What comes after select. *)
Definition after_select (keys : list Z) (r : reply) : M K (option bool) :=
  if ret r <? 0 then w ← get; mret (if negb (errno w =? EINTR) then Some false else None)
  else if ret r =? 0 then mret (Some true)
  else _ ← process keys (r_reads r) (r_writes r); mret None.

(** One round of the loop of WaitSelect: its result, if it returns. *)
Definition select_round (process_io : bool) (timeout : option Z) : M K (option bool) :=
  w ← get;
  '(keys, fdmax, reads, writes) ← collect process_io (order (dispatcher_by_key_ w)) [] (-1) [] [];
  _ ← modify (fun w => set_keys w keys);
  _ ← (if awaken (log w) then WakeUp else mret tt);
  r ← call (sys_select (fdmax + 1) reads writes timeout);
  after_select keys r.

(** The time left to wait. *)
Definition time_left (stop_us : option Z) : M K (option Z) :=
  match stop_us with
  | None => mret None
  | Some stop_us =>
      r ← call sys_time;
      let left := stop_us - r_value r in
      mret (Some (if 0 <? left then left else 0))
  end.

(** At most [rounds] rounds; no result if it still waits. *)
Fixpoint select_loop (rounds : nat) (process_io : bool) (timeout stop_us : option Z) : M K (option bool) :=
  w ← get;
  if fWait_ w then
    match rounds with
    | O => mret None
    | S rounds =>
        r ← select_round process_io timeout;
        match r with
        | Some b => mret (Some b)
        | None => timeout ← time_left stop_us; select_loop rounds process_io timeout stop_us
        end
    end
  else mret (Some true).

Definition WaitSelect (rounds : nat) (cmsWait : Z) (process_io : bool) : M K (option bool) :=
  stop_us ← (if cmsWait =? kForever then mret None
             else r ← call sys_time; mret (Some (r_value r + i32 (cmsWait * 1000))));
  _ ← modify (fun w => set_fWait w true);
  select_loop rounds process_io (if cmsWait =? kForever then None else Some (cmsWait * 1000)) stop_us.

Definition Wait (rounds : nat) (cmsWait : Z) (process_io : bool) : M K (option bool) :=
  w ← get;
  _ ← check (negb (waiting_ w)) AssertFailed;
  _ ← modify (fun w => set_waiting w true);
  r ← WaitSelect rounds cmsWait process_io;
  _ ← modify (fun w => set_waiting w (if r is Some _ then false else true));
  mret r.

(** *** The life of the server *)

(** The constructor: the server's own dispatcher is the pipe's, whose
    descriptors are -1 if there is none. *)
Definition new_server (k : K) : world K := mkWorld k 0 ∅ ∅ 0 0 ∅ ∅ [] 0 false false [].

Definition start_server : M K unit :=
  r ← call sys_pipe;
  let '(a, b) := if ret r <? 0 then (-1, -1) else (nth 0 (r_reads r) (-1), nth 1 (r_reads r) (-1)) in
  o ← new_object (Wake (mkSignaler a b false));
  _ ← Add o;
  modify (fun w => set_wakeup w o).

Definition destroy_server : M K unit :=
  w ← get;
  g ← get_signaler (signal_wakeup_ w);
  _ ← Remove (signal_wakeup_ w);
  _ ← call (sys_close (afd0 g));
  _ ← call (sys_close (afd1 g));
  _ ← modify (fun w => set_objects w (delete (signal_wakeup_ w) (objects w)) (next_id w));
  w ← get;
  _ ← check (bool_decide (dispatcher_by_key_ w = ∅)) AssertFailed;
  check (bool_decide (key_by_dispatcher_ w = ∅)) AssertFailed.

(** What the thread does: its client's calls, results of resolutions, waits. *)
Inductive step := Do (a : action) | Resolved (r : nat) (ret_ : Z) (result : list addrinfo)
  | DoWait (rounds : nat) (cmsWait : Z) (process_io : bool).

Definition perform (x : step) : M K unit :=
  match x with
  | Do a => do_action a
  | Resolved r ret_ result => resolved r ret_ result
  | DoWait rounds cmsWait process_io =>
      w ← get;
      if waiting_ w then mret tt else _ ← Wait rounds cmsWait process_io; mret tt
  end.

Fixpoint performs (l : list step) : M K unit :=
  match l with [] => mret tt | x :: l => _ ← perform x; performs l end.

(** ** What every operation keeps

    *** Operations of a socket *)

(** They leave the descriptor and the resolver alone, and the pipe and the open
    descriptors. *)
Definition same_kernel (k k' : K) : Prop := pipe k' = pipe k /\ buffered k' = buffered k /\ opened k' = opened k.

Definition quiet (c : syscall) : bool :=
  match c with
  | sys_pipe | sys_write _ _ | sys_read _ _ | sys_socket _ _ | sys_accept _ | sys_close _ => false
  | _ => true
  end.

Lemma quiet_same k c : quiet c = true -> same_kernel k (sys k c).2.
Proof.
  intros Hq. assert (about_pipe c = false) as Hp by (by destruct c). split; [by apply pipe_law|].
  split; [by apply pipe_law|]. rewrite opened_law by done. by destruct c.
Qed.

Definition same_local (l l' : local K) : Prop :=
  same_kernel (l_kernel l) (l_kernel l') /\ s_ (l_sock l') = s_ (l_sock l) /\
  resolver_ (l_sock l') = resolver_ (l_sock l).

#[export] Instance same_local_preorder : PreOrder same_local.
Proof.
  split; [by intros l; repeat split|]. intros a b c ((? & ? & ?) & ? & ?) ((? & ? & ?) & ? & ?).
  repeat split; congruence.
Qed.

(** [l_ok m]: [m] does not fault and keeps that; [l_post] also gives what it
    returns. *)
Definition l_post {A} (m : L K A) (Q : A -> Prop) : Prop :=
  forall l, returns (m l) (fun r => same_local l r.2 /\ Q r.1).
Definition l_ok {A} (m : L K A) : Prop := l_post m (fun _ => True).

Lemma l_post_ret {A} (a : A) (Q : A -> Prop) : Q a -> l_post (mret a) Q.
Proof. intros Ha l. by apply returns_ok. Qed.

Lemma l_post_bind {A B} (m : L K A) (f : A -> L K B) (P : A -> Prop) (Q : B -> Prop) :
  l_post m P -> (forall a, P a -> l_post (f a) Q) -> l_post (m ≫= f) Q.
Proof.
  intros Hm Hf l. unfold mbind, L_bind. eapply returns_bind; [apply Hm|]. intros [a l'] [Hs Ha]. cbn in *.
  eapply returns_weaken; [by apply Hf|]. intros [b l''] [Hs' Hb]. split; [by etrans|done].
Qed.

Lemma l_ok_bind {A B} (m : L K A) (f : A -> L K B) : l_ok m -> (forall a, l_ok (f a)) -> l_ok (m ≫= f).
Proof. intros Hm Hf. eapply l_post_bind; [exact Hm|]. intros a _. apply Hf. Qed.

Lemma l_ok_get : l_ok l_get.
Proof. intros l. by apply returns_ok. Qed.

Lemma l_ok_last_error : l_ok l_last_error.
Proof. intros l. by apply returns_ok. Qed.

Lemma l_ok_set f : (forall x, s_ (f x) = s_ x /\ resolver_ (f x) = resolver_ x) -> l_ok (l_set f).
Proof. intros Hf l. apply returns_ok. split; [|done]. by destruct (Hf (l_sock l)). Qed.

Lemma l_post_sys c (Q : reply -> Prop) : quiet c = true -> (forall k, Q (sys k c).1) -> l_post (l_sys c) Q.
Proof.
  intros Hq HQ l. unfold l_sys. pose proof (quiet_same (l_kernel l) c Hq) as Hs. pose proof (HQ (l_kernel l)) as Hr.
  destruct (sys (l_kernel l) c) as [r k]. by apply returns_ok.
Qed.

Lemma l_ok_sys c : quiet c = true -> l_ok (l_sys c).
Proof. intros Hq. by apply l_post_sys. Qed.

Lemma l_ok_ret {A} (a : A) : l_ok (mret a).
Proof. by apply l_post_ret. Qed.

Ltac l_auto :=
  repeat first
    [ progress intros
    | apply l_ok_ret
    | apply l_ok_get
    | apply l_ok_last_error
    | apply l_ok_sys; reflexivity
    | apply l_ok_set; intros; by split
    | apply l_ok_bind
    | match goal with |- l_ok (if ?b then _ else _) => destruct b end
    | match goal with |- l_ok (match ?o with _ => _ end) => destruct o end
    | assumption ].

Lemma SetError_ok e : l_ok (SetError e).
Proof. unfold SetError. l_auto. Qed.
Lemma GetError_ok : l_ok GetError.
Proof. unfold GetError. l_auto. Qed.
Lemma UpdateLastError_ok : l_ok UpdateLastError.
Proof. unfold UpdateLastError, SetError. l_auto. Qed.
Lemma SetEnabledEvents_ok e : l_ok (SetEnabledEvents e).
Proof. unfold SetEnabledEvents. l_auto. Qed.
Lemma EnableEvents_ok e : l_ok (EnableEvents e).
Proof. unfold EnableEvents. l_auto. Qed.
Lemma DisableEvents_ok e : l_ok (DisableEvents e).
Proof. unfold DisableEvents. l_auto. Qed.
Lemma SetState_ok s : l_ok (SetState s).
Proof. unfold SetState. l_auto. Qed.
Lemma with_kind_ok udp f : l_ok (l_set (fun x => with_kind x udp (f x))).
Proof. l_auto. Qed.

Lemma read_addr_ok s a : l_ok (read_addr s a).
Proof.
  apply l_ok_bind; [|l_auto]. intros l. unfold l_lift.
  assert (exists o, SocketAddress.SocketAddressFromSockAddrStorage s = Ok o) as [o ->].
  { unfold SocketAddress.SocketAddressFromSockAddrStorage, ByteOrder.NetworkToHost16.
    destruct s; rewrite ?SocketAddress.of_ip_ok by (apply (ByteOrder.bswap_bound 2)); cbn; by eexists. }
  by apply returns_ok.
Qed.

Lemma GetSocketRecvTimestamp_ok fd : l_ok (GetSocketRecvTimestamp fd).
Proof. unfold GetSocketRecvTimestamp. l_auto. Qed.

Lemma Bind_ok binder addr : l_ok (Bind binder addr).
Proof.
  unfold Bind. apply l_ok_bind; [l_auto|]. intros o.
  assert (forall a, l_ok (let '(len, storage) := SocketAddress.ToSockAddrStorage a in
    r ← l_sys (sys_bind (s_ o) storage len); _ ← UpdateLastError; mret (ret r))) as Hb.
  { intros a. destruct (SocketAddress.ToSockAddrStorage a). apply l_ok_bind; [l_auto|]. intros r.
    apply l_ok_bind; [apply UpdateLastError_ok|l_auto]. }
  cbv zeta. l_auto; apply Hb.
Qed.

Lemma SetOption_ok opt value : l_ok (SetOption opt value).
Proof.
  unfold SetOption, TranslateOption. apply l_ok_bind; [l_auto|]. intros [[slevel sopt]|]; [|l_auto].
  cbv zeta. apply l_ok_bind; [l_auto|]. intros o. apply l_ok_bind; [l_auto|]. intros _.
  apply l_ok_bind; [l_auto|]. intros r. apply l_ok_bind; [|l_auto].
  destruct (negb _); [apply UpdateLastError_ok|l_auto].
Qed.

Lemma sent_some_ok sent cb : sent <= i32 cb -> l_ok (sent_some sent cb).
Proof.
  intros Hs. unfold sent_some. apply l_ok_bind; [apply UpdateLastError_ok|]. intros _.
  rewrite (proj2 (Z.leb_le _ _)) by done. apply l_ok_bind; [intros l; by apply returns_ok|]. intros _.
  apply l_ok_bind; [apply GetError_ok|]. intros e. apply l_ok_bind; [|l_auto].
  destruct (_ || _); [apply EnableEvents_ok|l_auto].
Qed.

Definition small (buf : bytes) : Prop := zlen buf < 2147483648.

Lemma Sock_Send_ok buf : small buf -> l_ok (Send buf).
Proof.
  intros Hb. unfold Send. apply l_ok_bind; [l_auto|]. intros o.
  eapply l_post_bind; [apply (l_post_sys _ (fun r => ret r <= zlen buf)); [done|]; intros; apply send_law|].
  intros r Hr. apply sent_some_ok. pose proof (zlen_nonneg buf). unfold small in *. rewrite i32_small; lia.
Qed.

Lemma SendTo_ok buf addr : small buf -> l_ok (SendTo buf addr).
Proof.
  intros Hb. unfold SendTo. destruct (SocketAddress.ToSockAddrStorage addr) as [len saddr].
  apply l_ok_bind; [l_auto|]. intros o.
  eapply l_post_bind; [apply (l_post_sys _ (fun r => ret r <= zlen buf)); [done|]; intros; apply sendto_law|].
  intros r Hr. apply sent_some_ok. pose proof (zlen_nonneg buf). unfold small in *. rewrite i32_small; lia.
Qed.

Lemma received_some_ok n : l_ok (received_some n).
Proof.
  unfold received_some. apply l_ok_bind; [apply GetError_ok|]. intros e. cbv zeta. apply l_ok_bind; [l_auto|].
  intros o. apply l_ok_bind; [|l_auto]. destruct (_ || _); [apply EnableEvents_ok|l_auto].
Qed.

Lemma timestamp_ok (fd : Z) (b : bool) :
  l_ok (if b then t ← GetSocketRecvTimestamp fd; mret (Some t) else mret None).
Proof. destruct b; [|l_auto]. apply l_ok_bind; [apply GetSocketRecvTimestamp_ok|l_auto]. Qed.

Lemma Sock_Recv_ok n timestamp : l_ok (Recv n timestamp).
Proof.
  unfold Recv. apply l_ok_bind; [l_auto|]. intros o. apply l_ok_bind; [l_auto|]. intros r.
  destruct (_ && _).
  - apply l_ok_bind; [apply EnableEvents_ok|]. intros _. apply l_ok_bind; [apply SetError_ok|l_auto].
  - apply l_ok_bind; [apply timestamp_ok|]. intros t. apply l_ok_bind; [apply UpdateLastError_ok|]. intros _.
    apply l_ok_bind; [apply received_some_ok|l_auto].
Qed.

Lemma RecvFrom_ok n timestamp : l_ok (RecvFrom n timestamp).
Proof.
  unfold RecvFrom. apply l_ok_bind; [l_auto|]. intros o. apply l_ok_bind; [l_auto|]. intros r.
  apply l_ok_bind; [apply timestamp_ok|]. intros t. apply l_ok_bind; [apply UpdateLastError_ok|]. intros _.
  apply l_ok_bind; [destruct (0 <=? ret r); [apply read_addr_ok|l_auto]|]. intros a.
  apply l_ok_bind; [apply received_some_ok|l_auto].
Qed.

Lemma Listen_ok n : l_ok (Listen n).
Proof.
  unfold Listen. apply l_ok_bind; [l_auto|]. intros o. apply l_ok_bind; [l_auto|]. intros r.
  apply l_ok_bind; [apply UpdateLastError_ok|]. intros _. apply l_ok_bind; [|l_auto].
  destruct (ret r =? 0); [|l_auto]. apply l_ok_bind; [apply SetState_ok|]. intros _. apply EnableEvents_ok.
Qed.

Lemma connect_sock_ok addr : l_ok (connect_sock addr).
Proof.
  unfold connect_sock. destruct (SocketAddress.ToSockAddrStorage addr) as [len storage].
  apply l_ok_bind; [l_auto|]. intros o. apply l_ok_bind; [l_auto|]. intros r.
  apply l_ok_bind; [apply UpdateLastError_ok|]. intros _. apply l_ok_bind; [apply GetError_ok|]. intros e.
  cbv zeta. destruct (ret r =? 0).
  - apply l_ok_bind; [apply SetState_ok|]. intros _. apply l_ok_bind; [apply EnableEvents_ok|l_auto].
  - destruct (IsBlockingError e); [|l_auto]. apply l_ok_bind; [apply SetState_ok|]. intros _.
    apply l_ok_bind; [apply EnableEvents_ok|l_auto].
Qed.

(** The loop that peeks ends within the bound on interruptions. *)
Lemma peek_ok n fd l : peek_ends sys n (l_kernel l) fd = true -> returns (peek n fd l) (fun r => same_local l r.2).
Proof.
  revert l. induction n as [|n IH]; intros l Hp; [done|]. cbn [peek peek_ends] in *.
  unfold mbind, L_bind at 1. unfold l_sys at 1.
  pose proof (quiet_same (l_kernel l) (sys_recv fd 1 MSG_PEEK) eq_refl) as Hs.
  pose proof (failure_law (l_kernel l) (sys_recv fd 1 MSG_PEEK)) as Hf.
  destruct (sys (l_kernel l) (sys_recv fd 1 MSG_PEEK)) as [r k]. cbn in *.
  destruct (Z.ltb_spec (ret r) 0) as [Hr|Hr]; cbn [andb] in *; [|by apply returns_ok].
  destruct (Hf Hr) as [e He]. rewrite He in *. cbn.
  case_bool_decide as Hd.
  - injection Hd as ->. cbn. eapply returns_weaken; [apply IH; exact Hp|]. intros r' Hr'.
    etrans; [|exact Hr']. by split.
  - rewrite (proj2 (Z.eqb_neq _ _)) by congruence. apply returns_ok. by split.
Qed.

Lemma IsDescriptorClosed_ok : l_ok IsDescriptorClosed.
Proof.
  unfold IsDescriptorClosed. apply l_ok_bind; [l_auto|]. intros o. destruct (udp_ o); [l_auto|].
  apply l_ok_bind.
  { intros l. eapply returns_weaken; [apply peek_ok, peek_law|]. auto. }
  intros r. l_auto.
Qed.

(** *** The invariant *)
Definition sock_at (w : world K) (o : nat) (x : socket) : Prop := objects w !! o = Some (Sock x).
Definition is_sock (w : world K) (o : nat) : Prop := exists x, sock_at w o x.
Definition fd_of (w : world K) (o : nat) : Z :=
  match objects w !! o with Some (Sock x) => s_ x | Some (Wake g) => afd0 g | None => INVALID_SOCKET end.

(** The registry's two maps are inverse to each other; its keys are old ones. *)
Definition registry_ok (w : world K) : Prop :=
  (forall k o, dispatcher_by_key_ w !! k = Some o <-> key_by_dispatcher_ w !! o = Some k) /\
  (forall k o, dispatcher_by_key_ w !! k = Some o -> 0 <= k < next_dispatcher_key_ w).

(** A socket's descriptor is one of the process's, its own, and registered;
    [except] is a socket in the middle of being opened or closed. *)
Definition socket_ok (except : option nat) (w : world K) (o : nat) (x : socket) : Prop :=
  (except <> Some o -> s_ x <> INVALID_SOCKET ->
     0 <= s_ x < FD_SETSIZE /\ s_ x ∈ opened (kernel w) /\ s_ x <> (pipe (kernel w)).1 /\
     (forall o' x', except <> Some o' -> sock_at w o' x' -> s_ x' = s_ x -> o' = o) /\
     is_Some (key_by_dispatcher_ w !! o)) /\
  (s_ x = INVALID_SOCKET \/ except = Some o -> key_by_dispatcher_ w !! o = None) /\
  (forall r, resolver_ x = Some r ->
     exists y, resolvers w !! r = Some y /\ owner y = o /\ destroy_called_ y = false).

Definition signaler_ok (w : world K) (g : signaler) : Prop :=
  (afd0 g, afd1 g) = pipe (kernel w) /\ 0 <= afd0 g < FD_SETSIZE /\ afd0 g ∈ opened (kernel w) /\
  buffered (kernel w) = if fSignaled_ g then 1%nat else 0%nat.

Definition inv (except : option nat) (w : world K) : Prop :=
  registry_ok w /\
  (forall k o, dispatcher_by_key_ w !! k = Some o -> is_Some (objects w !! o)) /\
  (forall o x, sock_at w o x -> socket_ok except w o x) /\
  (exists g, objects w !! signal_wakeup_ w = Some (Wake g) /\ signaler_ok w g) /\
  key_by_dispatcher_ w !! signal_wakeup_ w = Some 0 /\
  (forall o g, objects w !! o = Some (Wake g) -> o = signal_wakeup_ w) /\
  (forall o, is_Some (objects w !! o) -> (o < next_id w)%nat) /\
  (forall r, is_Some (resolvers w !! r) -> (r < next_id w)%nat).

(** *** What operations do to the rest of the world

    A resolver whose result is being signalled stays until that is over. *)
Definition pinned (w : world K) (r : nat) : Prop :=
  exists y, resolvers w !! r = Some y /\ (recursion_check_ y = true \/ destroy_called_ y = true).

Definition deliveries (l : list event) : list (Z * nat) :=
  omap (fun e => match e with Delivered key o _ _ => Some (key, o) | _ => None end) l.

(** Sockets that [P] protects are not deleted; keys are never used again, and
    what an old key still names is what it named, with its descriptor. *)
Definition evolves (P : nat -> Prop) (w w' : world K) : Prop :=
  (forall o, P o -> is_sock w o -> is_sock w' o) /\
  next_dispatcher_key_ w <= next_dispatcher_key_ w' /\
  (forall k o, k < next_dispatcher_key_ w -> dispatcher_by_key_ w' !! k = Some o ->
     dispatcher_by_key_ w !! k = Some o /\ fd_of w' o = fd_of w o) /\
  (forall r, pinned w r -> pinned w' r) /\
  signal_wakeup_ w' = signal_wakeup_ w /\ fWait_ w' = fWait_ w /\ waiting_ w' = waiting_ w /\
  (next_id w <= next_id w')%nat /\
  deliveries (log w') = deliveries (log w).

#[export] Instance evolves_preorder P : PreOrder (evolves P).
Proof.
  split.
  - intros w. repeat split; auto; lia.
  - intros a b c (A1 & A2 & A3 & A4 & A5 & A6 & A7 & A8 & A9) (B1 & B2 & B3 & B4 & B5 & B6 & B7 & B8 & B9).
    split; [auto|]. split; [lia|]. split.
    + intros k o Hk Hc. destruct (B3 k o) as [Hb Hf]; [lia|done|]. destruct (A3 k o Hk Hb) as [Ha Hf'].
      split; [done|congruence].
    + split; [auto|]. repeat split; try congruence. lia.
Qed.

Lemma evolves_weaken (P Q : nat -> Prop) w w' :
  (forall o, Q o -> is_sock w o -> P o) -> evolves P w w' -> evolves Q w w'.
Proof. intros HPQ (A1 & A). split; [|done]. intros o Ho Hs. apply A1; auto. Qed.

(** The triple of the operations: from a state with the invariant [m] does not
    fault, and ends in one, in accordance with [evolves]. *)
Definition keeps {A} (P : nat -> Prop) (w : world K) (X' : option nat) (m : M K A) (Q : A -> world K -> Prop) : Prop :=
  returns (m w) (fun r => inv X' r.2 /\ evolves P w r.2 /\ Q r.1 r.2).

Lemma keeps_ret {A} P w X (a : A) (Q : A -> world K -> Prop) : inv X w -> Q a w -> keeps P w X (mret a) Q.
Proof. intros Hi Hq. apply returns_ok. split; [done|]. by split. Qed.

Lemma keeps_bind {A B} P w X1 X2 (m : M K A) (f : A -> M K B) Q R :
  keeps P w X1 m Q ->
  (forall a w', inv X1 w' -> evolves P w w' -> Q a w' -> keeps P w' X2 (f a) R) ->
  keeps P w X2 (m ≫= f) R.
Proof.
  intros Hm Hf. unfold keeps, mbind, M_bind. eapply returns_bind; [exact Hm|]. intros [a w'] (Hi & He & Hq). cbn in *.
  eapply returns_weaken; [by apply Hf|]. intros [b w''] (Hi' & He' & Hr). split; [done|]. split; [by etrans|done].
Qed.

Lemma keeps_weaken {A} (P P' : nat -> Prop) w X (m : M K A) (Q Q' : A -> world K -> Prop) :
  keeps P w X m Q -> (forall o, P' o -> is_sock w o -> P o) -> (forall a w', inv X w' -> Q a w' -> Q' a w') ->
  keeps P' w X m Q'.
Proof.
  intros Hm HP HQ. eapply returns_weaken; [exact Hm|]. intros [a w'] (Hi & He & Hq). cbn in *. split; [done|].
  split; [|auto]. by eapply evolves_weaken.
Qed.

Lemma keeps_get {A} P w X (f : world K -> M K A) Q : keeps P w X (f w) Q -> keeps P w X (w' ← get; f w') Q.
Proof. done. Qed.

Lemma keeps_check {A} P w X b e (f : unit -> M K A) Q :
  b = true -> keeps P w X (f tt) Q -> keeps P w X (u ← check b e; f u) Q.
Proof. by intros ->. Qed.

Lemma keeps_get_sock {A} P w X o x (f : socket -> M K A) Q :
  sock_at w o x -> keeps P w X (f x) Q -> keeps P w X (y ← get_sock o; f y) Q.
Proof. unfold sock_at. intros Hx Hf. unfold keeps, get_sock, mbind, M_bind, get. cbn. by rewrite Hx. Qed.

Definition put (w : world K) (o : nat) (x : socket) : world K :=
  set_objects w (<[o := Sock x]> (objects w)) (next_id w).

Lemma sock_at_put w o x o' y : sock_at (put w o x) o' y <-> (o' = o /\ y = x) \/ (o' <> o /\ sock_at w o' y).
Proof.
  unfold sock_at, put. cbn. destruct (decide (o' = o)) as [->|Hn].
  - rewrite lookup_insert_eq. naive_solver.
  - rewrite lookup_insert_ne by done. naive_solver.
Qed.

(** A socket changed outside its descriptor, with a system call that leaves
    descriptors and pipe alone. *)
Definition linked (w : world K) (o : nat) (x : socket) : Prop :=
  forall r, resolver_ x = Some r -> exists y, resolvers w !! r = Some y /\ owner y = o /\ destroy_called_ y = false.

Lemma inv_put_linked X w o x x' k e :
  inv X w -> sock_at w o x -> s_ x' = s_ x -> linked w o x' -> same_kernel (kernel w) k ->
  inv X (put (set_kernel w k e) o x').
Proof.
  intros (Hreg & Hobj & Hsock & (g & Hg & Hgo) & Hgr & Hgu & Hid & Hrid) Hx Hs Hr (Hp & Hb & Ho).
  split; [exact Hreg|]. split; [|split; [|split; [|split; [exact Hgr|split]]]].
  - intros k' o' H'. cbn. destruct (decide (o' = o)) as [->|]; [rewrite lookup_insert_eq; by eexists|].
    rewrite lookup_insert_ne by done. by eapply Hobj.
  - assert (forall o' y, sock_at (put (set_kernel w k e) o x') o' y ->
      exists z, sock_at w o' z /\ s_ y = s_ z /\ (linked w o' z -> linked w o' y)) as Hback.
    { intros o' y Hy. apply sock_at_put in Hy as [[-> ->]|[Hn Hy]]; eauto. }
    intros o' y (z & Hz & Hys & Hyr)%Hback. destruct (Hsock _ _ Hz) as (H1 & H2 & H3).
    unfold socket_ok. rewrite Hys. cbn. rewrite Hp, Ho. split; [|split; [done|by apply Hyr]].
    intros Hne Hv. destruct (H1 Hne Hv) as (? & ? & ? & Hu & ?). split_and!; try done; try lia.
    intros o2 y2 Hne2 (z2 & Hz2 & Hs2 & _)%Hback He. rewrite Hs2 in He. by eapply Hu.
  - exists g. split.
    + cbn. rewrite lookup_insert_ne; [done|]. intros ->. unfold sock_at in Hx. congruence.
    + destruct Hgo as (? & ? & ? & ?). unfold signaler_ok. cbn. by rewrite Hp, Ho, Hb.
  - intros o' g' Hg'. cbn in Hg'. destruct (decide (o' = o)) as [->|]; [by rewrite lookup_insert_eq in Hg'|].
    rewrite lookup_insert_ne in Hg' by done. by eapply Hgu.
  - split; [|exact Hrid]. intros o' Ho'. cbn in *. destruct (decide (o' = o)) as [->|]; [apply Hid; by exists (Sock x)|].
    rewrite lookup_insert_ne in Ho' by done. by apply Hid.
Qed.

Lemma inv_linked X w o x : inv X w -> sock_at w o x -> linked w o x.
Proof. intros (_ & _ & Hsock & _) Hx. by apply Hsock in Hx as (_ & _ & ?). Qed.

Lemma inv_put X w o x x' k e :
  inv X w -> sock_at w o x -> s_ x' = s_ x -> resolver_ x' = resolver_ x -> same_kernel (kernel w) k ->
  inv X (put (set_kernel w k e) o x').
Proof.
  intros Hi Hx Hs Hr Hk. eapply inv_put_linked; [done|exact Hx|done| |done]. unfold linked. rewrite Hr. by eapply inv_linked.
Qed.

Lemma is_sock_put w o x o' : is_sock w o' -> is_sock (put w o x) o'.
Proof.
  intros [y Hy]. destruct (decide (o' = o)) as [->|]; [exists x|exists y]; apply sock_at_put; auto.
Qed.

Lemma evolves_put P w o x x' k e :
  sock_at w o x -> s_ x' = s_ x -> evolves P w (put (set_kernel w k e) o x').
Proof.
  intros Hx Hs. split; [intros o' _ Ho'; by apply (is_sock_put (set_kernel w k e))|]. split; [cbn; lia|].
  split; [|by repeat split]. intros k' o' _ H'. split; [exact H'|]. unfold fd_of. cbn.
  destruct (decide (o' = o)) as [->|]; [|by rewrite lookup_insert_ne].
  rewrite lookup_insert_eq. unfold sock_at in Hx. by rewrite Hx.
Qed.

(** What is left of the world by an operation of a socket. *)
Definition only_sock (o : nat) (x : socket) (w w' : world K) : Prop :=
  exists k e x', w' = put (set_kernel w k e) o x' /\ same_kernel (kernel w) k /\ s_ x' = s_ x /\ resolver_ x' = resolver_ x.

Lemma on_sock_keeps {A} P w X o x (m : L K A) :
  l_ok m -> inv X w -> sock_at w o x -> keeps P w X (on_sock o m) (fun _ w' => only_sock o x w w').
Proof.
  intros Hm Hi Hx. unfold on_sock. eapply keeps_get_sock; [exact Hx|]. unfold keeps, run_local.
  destruct (Hm (mkLocal (kernel w) (errno w) x)) as ([a l] & -> & (Hk & Hs & Hr) & _). cbn in *.
  apply returns_ok. cbn. split; [by eapply inv_put|]. split; [by eapply evolves_put|].
  by exists (l_kernel l), (l_errno l), (l_sock l).
Qed.

Lemma only_sock_at o x w w' : only_sock o x w w' -> exists x', sock_at w' o x' /\ s_ x' = s_ x /\ resolver_ x' = resolver_ x.
Proof. intros (k & e & x' & -> & _ & Hs & Hr). exists x'. split; [|done]. apply sock_at_put. by left. Qed.

Lemma only_sock_keys o x w w' : only_sock o x w w' -> key_by_dispatcher_ w' = key_by_dispatcher_ w.
Proof. by intros (k & e & x' & -> & _). Qed.

(** Operations that write a member. *)
Lemma on_sock_set_keeps P w X o x f :
  inv X w -> sock_at w o x -> s_ (f x) = s_ x -> resolver_ (f x) = resolver_ x ->
  keeps P w X (on_sock o (l_set f)) (fun _ w' => w' = put w o (f x)).
Proof.
  intros Hi Hx Hs Hr. unfold on_sock. eapply keeps_get_sock; [exact Hx|]. unfold keeps, run_local. cbn.
  apply returns_ok. cbn [fst snd]. split; [by eapply (inv_put X w o x)|]. split; [by eapply evolves_put|].
  by destruct w.
Qed.

Lemma UpdateLastError_keeps P w X o x :
  inv X w -> sock_at w o x ->
  keeps P w X (on_sock o UpdateLastError) (fun _ w' => w' = put w o (with_error x (errno w))).
Proof.
  intros Hi Hx. unfold on_sock. eapply keeps_get_sock; [exact Hx|]. unfold keeps, run_local. cbn.
  apply returns_ok. cbn [fst snd]. split; [by eapply (inv_put X w o x)|]. split; [by eapply evolves_put|].
  by destruct w.
Qed.

(** The same for an operation after which only the socket's presence matters. *)
Lemma on_sock_keeps' {A} (P : nat -> Prop) w X o (m : L K A) :
  l_ok m -> inv X w -> is_sock w o -> keeps P w X (on_sock o m) (fun _ w' => is_sock w' o).
Proof.
  intros Hm Hi [x Hx]. eapply (keeps_weaken P); [by eapply on_sock_keeps|auto|].
  cbn. intros a w' _ Hos. destruct (only_sock_at _ _ _ _ Hos) as (x' & ? & _). by exists x'.
Qed.

(** *** System calls *)
Lemma inv_kernel X w k e : inv X w -> same_kernel (kernel w) k -> inv X (set_kernel w k e).
Proof.
  intros (Hreg & Hobj & Hsock & (g & Hg & Hgo) & Hgr & Hgu & Hid & Hrid) (Hp & Hb & Ho).
  split_and!; try done.
  - intros o x Hx. destruct (Hsock o x Hx) as (H1 & H2 & H3). split; [|by split]. cbn. by rewrite Hp, Ho.
  - exists g. split; [done|]. destruct Hgo as (? & ? & ? & ?). unfold signaler_ok. cbn. by rewrite Hp, Ho, Hb.
Qed.

Lemma evolves_kernel P w k e : evolves P w (set_kernel w k e).
Proof. by repeat split. Qed.

Lemma call_keeps (P : nat -> Prop) w X c :
  quiet c = true -> inv X w ->
  keeps P w X (call c) (fun r w' => exists k e, w' = set_kernel w k e /\ (r, k) = sys (kernel w) c).
Proof.
  intros Hq Hi. unfold keeps, call. pose proof (quiet_same (kernel w) c Hq) as Hs.
  destruct (sys (kernel w) c) as [r k] eqn:E. cbn in Hs. apply returns_ok. cbn. split; [by apply inv_kernel|].
  split; [apply evolves_kernel|]. by eexists _, _.
Qed.

(** *** Opening and closing *)

(** A descriptor no other socket has. *)
Definition own_fd (w : world K) (o : nat) (fd : Z) : Prop :=
  fd <> (pipe (kernel w)).1 /\ forall o' x', o' <> o -> sock_at w o' x' -> s_ x' <> fd.

Lemma own_fd_only o x w w' fd : only_sock o x w w' -> own_fd w o fd -> own_fd w' o fd.
Proof.
  intros (k & e & x' & -> & (Hp & _) & _) [Hne Hu]. split; [cbn; by rewrite Hp|].
  intros o' y Hn [[-> _]|[_ Hy]]%sock_at_put; [done|]. by eapply Hu.
Qed.

Lemma Remove_keeps P w o x :
  inv None w -> sock_at w o x -> s_ x <> INVALID_SOCKET ->
  keeps P w (Some o) (Remove o) (fun _ w' => sock_at w' o x /\ own_fd w' o (s_ x)).
Proof.
  intros (Hreg & Hobj & Hsock & (g & Hg & Hgo) & Hgr & Hgu & Hid & Hrid) Hx Hs.
  destruct (Hsock _ _ Hx) as (H1 & H2 & H3). destruct (H1 ltac:(done) Hs) as (Hr & Ho & Hp & Hu & [k Hk]).
  assert (signal_wakeup_ w <> o) as Hwo by (intros <-; unfold sock_at in Hx; congruence).
  destruct Hreg as [Hinv Hkeys].
  unfold Remove. apply keeps_get. rewrite Hk. apply returns_ok. cbn. split; [|split].
  - split; [split|split; [|split; [|split; [|split; [|split]]]]].
    + intros k' o'. cbn. rewrite !lookup_delete_Some, Hinv. split; intros [Hn Hk']; (split; [|done]); intros <-.
      * congruence.
      * apply Hn. apply Hinv in Hk', Hk. congruence.
    + intros k' o'. cbn. rewrite lookup_delete_Some. intros [_ Hk']. by eapply Hkeys.
    + intros k' o'. cbn. rewrite lookup_delete_Some. intros [_ Hk']. by eapply Hobj.
    + intros o' y Hy. destruct (Hsock _ _ Hy) as (Y1 & Y2 & Y3). split; [|split; [|exact Y3]].
      * intros Hne Hv. destruct (Y1 ltac:(done) Hv) as (? & ? & ? & Hu' & Hreg). split_and!; try done; try lia.
        -- intros o2 y2 _ Hy2 He. by eapply Hu'.
        -- cbn. rewrite lookup_delete_ne by congruence. done.
      * cbn. intros [Hv|[= <-]]; [|by rewrite lookup_delete_eq].
        rewrite lookup_delete_None. right. apply Y2. by left.
    + exists g. by split.
    + cbn. rewrite lookup_delete_ne by done. done.
    + done.
    + done.
  - split; [done|]. cbn. split; [lia|]. split; [|by repeat split].
    intros k' o' _. rewrite lookup_delete_Some. by intros [_ Hk'].
  - split; [done|]. split; [done|]. intros o' y Hn Hy He. apply Hn. by eapply Hu.
Qed.

Lemma call_close_keeps P w o x :
  inv (Some o) w -> sock_at w o x -> own_fd w o (s_ x) ->
  keeps P w (Some o) (call (sys_close (s_ x))) (fun _ w' => sock_at w' o x).
Proof.
  intros (Hreg & Hobj & Hsock & (g & Hg & Hgo) & Hgr & Hgu & Hid & Hrid) Hx [Hne Hu].
  unfold keeps, call. pose proof (opened_law (kernel w) (sys_close (s_ x)) eq_refl) as Ho.
  pose proof (pipe_law (kernel w) (sys_close (s_ x)) eq_refl) as [Hp Hb].
  destruct (sys (kernel w) (sys_close (s_ x))) as [r k]. cbn in Ho, Hp, Hb. apply returns_ok. cbn [fst snd].
  split; [|split; [apply evolves_kernel|done]]. split_and!; try done.
  - intros o' y Hy. destruct (Hsock _ _ Hy) as (Y1 & Y2 & Y3). split; [|by split]. cbn. rewrite Hp, Ho.
    intros Hn Hv. destruct (Y1 Hn Hv) as (? & ? & ? & ? & ?). split_and!; try done; try lia.
    apply elem_of_difference. split; [done|]. apply not_elem_of_singleton. apply (Hu o' y); [congruence|done].
  - exists g. split; [done|]. destruct Hgo as (Ha & Hr & Hop & Hbu). unfold signaler_ok. cbn. rewrite Hp, Hb, Ho.
    split_and!; try done; try lia. apply elem_of_difference. split; [done|]. apply not_elem_of_singleton.
    rewrite <- Ha in Hne. cbn in Hne. congruence.
Qed.

(** The descriptor of a socket in the middle of a change is written. *)
Lemma set_s_keeps P w o x v :
  inv (Some o) w -> sock_at w o x ->
  keeps P w (Some o) (on_sock o (l_set (fun x => with_s x v)))
    (fun _ w' => w' = put (set_kernel w (kernel w) (errno w)) o (with_s x v)).
Proof.
  intros Hi Hx. pose proof Hi as (Hreg & Hobj & Hsock & (g & Hg & Hgo) & Hgr & Hgu & Hid & Hrid).
  unfold on_sock. eapply keeps_get_sock; [exact Hx|]. unfold keeps, run_local. cbn. apply returns_ok. cbn [fst snd].
  destruct (Hsock _ _ Hx) as (_ & H2 & H3). pose proof (H2 (or_intror eq_refl)) as Hkey.
  split; [|split; [|done]].
  - split; [exact Hreg|]. split; [|split; [|split; [|split; [exact Hgr|split]]]].
    + intros k' o' H'. cbn. destruct (decide (o' = o)) as [->|]; [rewrite lookup_insert_eq; by eexists|].
      rewrite lookup_insert_ne by done. by eapply Hobj.
    + intros o' y [[-> ->]|[Hn Hy]]%(sock_at_put (set_kernel w (kernel w) (errno w))).
      * split; [done|]. by split.
      * destruct (Hsock _ _ Hy) as (Y1 & Y2 & Y3). split; [|by split]. intros Hne Hv.
        destruct (Y1 Hne Hv) as (? & ? & ? & Hu & ?). split_and!; try done; try lia.
        intros o2 y2 Hne2 [[-> ->]|[Hn2 Hy2]]%(sock_at_put (set_kernel w (kernel w) (errno w))) He; [done|by eapply Hu].
    + exists g. split; [|done]. cbn. rewrite lookup_insert_ne; [done|]. intros ->. unfold sock_at in Hx. congruence.
    + intros o' g' Hg'. cbn in Hg'. destruct (decide (o' = o)) as [->|]; [by rewrite lookup_insert_eq in Hg'|].
      rewrite lookup_insert_ne in Hg' by done. by eapply Hgu.
    + split; [|exact Hrid]. intros o' Ho'. cbn in *. destruct (decide (o' = o)) as [->|]; [apply Hid; by exists (Sock x)|].
      rewrite lookup_insert_ne in Ho' by done. by apply Hid.
  - split; [intros o' _ Ho'; by apply (is_sock_put (set_kernel w (kernel w) (errno w)))|]. split; [cbn; lia|].
    split; [|by repeat split]. intros k' o' _ Hk'. split; [exact Hk'|]. unfold fd_of. cbn.
    assert (o' <> o). { intros ->. destruct Hreg as [Hinv _]. apply Hinv in Hk'. cbn in Hk'. congruence. }
    by rewrite lookup_insert_ne.
Qed.

Lemma inv_closed w o x : inv (Some o) w -> sock_at w o x -> s_ x = INVALID_SOCKET -> inv None w.
Proof.
  intros (Hreg & Hobj & Hsock & Hrest) Hx Hs. split; [done|]. split; [done|]. split; [|done].
  intros o' y Hy. destruct (Hsock _ _ Hy) as (Y1 & Y2 & Y3). split; [|split; [|exact Y3]].
  - intros _ Hv. assert (o' <> o) by (intros ->; unfold sock_at in *; congruence).
    destruct (Y1 ltac:(congruence) Hv) as (? & ? & ? & Hu & ?). split_and!; try done; try lia.
    intros o2 y2 _ Hy2 He. destruct (decide (o2 = o)) as [->|]; [|apply (Hu o2 y2); [congruence|done|done]].
    unfold sock_at in *. simplify_eq. congruence.
  - intros [Hv|]; [|done]. apply Y2. by left.
Qed.

(** *** Resolvers *)
Definition destroyed (r : nat) (y : resolver) (m : gmap nat resolver) : gmap nat resolver :=
  if recursion_check_ y
  then <[r := mkResolver (owner y) (addr_ y) (addresses_ y) (resolve_error_ y) false true]> m
  else delete r m.

Lemma Destroy_eq w r y :
  resolvers w !! r = Some y -> destroy_called_ y = false ->
  Destroy r w = Ok (tt, set_resolvers w (destroyed r y (resolvers w)) (next_id w)).
Proof.
  intros Hy Hd. unfold Destroy, get_resolver, MaybeSelfDestruct, mbind, M_bind, get, modify, set_resolver, check.
  cbn. rewrite Hy. cbn. rewrite Hd. cbn. unfold get_resolver, mbind, M_bind, get. cbn. rewrite lookup_insert_eq. cbn.
  unfold destroyed, modify, set_resolvers. destruct (recursion_check_ y); cbn; do 3 f_equal.
  - apply insert_insert_eq.
  - apply delete_insert_eq.
Qed.

(** The resolver of a socket that is closed. *)
Definition drop_resolver (o : nat) (x : socket) : M K unit :=
  match resolver_ x with
  | None => mret tt
  | Some res => _ ← Destroy res; on_sock o (l_set (fun x => with_resolver x None))
  end.

Lemma drop_resolver_keeps P w o x :
  inv None w -> sock_at w o x ->
  keeps P w None (drop_resolver o x) (fun _ w' => exists x', sock_at w' o x' /\ s_ x' = s_ x /\ resolver_ x' = None).
Proof.
  intros Hi Hx. unfold drop_resolver. destruct (resolver_ x) as [r|] eqn:Er.
  2:{ apply keeps_ret; [done|]. by exists x. }
  pose proof Hi as (Hreg & Hobj & Hsock & (g & Hg & Hgo) & Hgr & Hgu & Hid & Hrid).
  destruct (Hsock _ _ Hx) as (_ & _ & H3). destruct (H3 r Er) as (y & Hy & Hyo & Hyd).
  unfold keeps, mbind, M_bind. rewrite (Destroy_eq w r y Hy Hyd). cbn.
  unfold on_sock, get_sock, mbind, M_bind, get, run_local. cbn. unfold sock_at in Hx. rewrite Hx. cbn.
  apply returns_ok. cbn.
  set (w' := set_objects _ _ _).
  assert (forall o' z, sock_at w' o' z -> (o' = o /\ z = with_resolver x None) \/ (o' <> o /\ sock_at w o' z)) as Hback.
  { intros o' z Hz. unfold w', sock_at in Hz. cbn in Hz. destruct (decide (o' = o)) as [->|].
    - rewrite lookup_insert_eq in Hz. simplify_eq. by left.
    - rewrite lookup_insert_ne in Hz by done. by right. }
  split; [|split].
  - split; [exact Hreg|]. split; [|split; [|split; [|split; [exact Hgr|split; [|split]]]]].
    + intros k' o' H'. unfold w'. cbn. destruct (decide (o' = o)) as [->|]; [rewrite lookup_insert_eq; by eexists|].
      rewrite lookup_insert_ne by done. by eapply Hobj.
    + assert (forall o2 z2, sock_at w' o2 z2 -> exists x2, sock_at w o2 x2 /\ s_ z2 = s_ x2) as Hs.
      { intros o2 z2 [[-> ->]|[_ Hz]]%Hback; [by exists x|by exists z2]. }
      intros o' z Hz. destruct (Hback _ _ Hz) as [[-> ->]|[Hn Hz']].
      * destruct (Hsock _ _ Hx) as (Y1 & Y2 & _). split; [|by split]. cbn [with_resolver s_]. intros Hne Hv.
        destruct (Y1 Hne Hv) as (? & ? & ? & Hu & ?). split_and!; try done; try lia.
        intros o2 z2 Hne2 (x2 & Hx2 & Hs2)%Hs He. eapply Hu; [done|exact Hx2|]. congruence.
      * destruct (Hsock _ _ Hz') as (Y1 & Y2 & Y3). split; [|split; [done|]].
        -- intros Hne Hv. destruct (Y1 Hne Hv) as (? & ? & ? & Hu & ?). split_and!; try done; try lia.
           intros o2 z2 Hne2 (x2 & Hx2 & Hs2)%Hs He. eapply Hu; [done|exact Hx2|]. congruence.
        -- intros r' Hr'. destruct (Y3 r' Hr') as (y' & Hy' & Ho' & Hd'). exists y'. split; [|done].
           assert (r' <> r) by (intros ->; congruence). unfold w', destroyed. cbn.
           destruct (recursion_check_ y); [by rewrite lookup_insert_ne|by rewrite lookup_delete_ne].
    + exists g. split; [|done]. unfold w'. cbn. rewrite lookup_insert_ne; [done|]. intros He. rewrite <- He in Hg. congruence.
    + intros o' g' Hg'. unfold w' in Hg'. cbn in Hg'.
      destruct (decide (o' = o)) as [->|]; [by rewrite lookup_insert_eq in Hg'|].
      rewrite lookup_insert_ne in Hg' by done. by eapply Hgu.
    + intros o' Ho'. unfold w' in *. cbn in *.
      destruct (decide (o' = o)) as [->|]; [apply Hid; rewrite Hx; by eexists|].
      rewrite lookup_insert_ne in Ho' by done. by apply Hid.
    + intros r' Hr'. apply Hrid. unfold w', destroyed in Hr'. cbn in Hr'.
      destruct (decide (r' = r)) as [->|]; [by rewrite Hy; eexists|].
      destruct (recursion_check_ y); [by rewrite lookup_insert_ne in Hr'|by rewrite lookup_delete_ne in Hr'].
  - split; [|split; [unfold w'; cbn; lia|split; [|split; [|by repeat split]]]].
    + intros o' _ [z Hz]. destruct (decide (o' = o)) as [->|].
      * exists (with_resolver x None). unfold w', sock_at. cbn. by rewrite lookup_insert_eq.
      * exists z. unfold w', sock_at. cbn. by rewrite lookup_insert_ne.
    + intros k' o' _ Hk'. split; [exact Hk'|]. unfold fd_of, w'. cbn.
      destruct (decide (o' = o)) as [->|]; [|by rewrite lookup_insert_ne]. by rewrite lookup_insert_eq, Hx.
    + intros r' (z & Hz & Hpin). unfold pinned, w', destroyed. cbn. destruct (decide (r' = r)) as [->|Hn].
      * assert (z = y) as -> by congruence. destruct Hpin as [Hpin|Hpin]; [|congruence]. rewrite Hpin.
        rewrite lookup_insert_eq. eexists. split; [done|]. by right.
      * exists z. split; [|done]. destruct (recursion_check_ y); [by rewrite lookup_insert_ne|by rewrite lookup_delete_ne].
  - exists (with_resolver x None). split; [|done]. unfold w', sock_at. cbn. by rewrite lookup_insert_eq.
Qed.

Lemma physical_Close_keeps P w o x :
  inv (Some o) w -> sock_at w o x -> own_fd w o (s_ x) -> s_ x <> INVALID_SOCKET ->
  keeps P w None (physical_Close o) (fun _ w' => exists x', sock_at w' o x' /\ s_ x' = INVALID_SOCKET).
Proof.
  intros Hi1 Hx1 Hown Hv. unfold physical_Close. eapply keeps_get_sock; [exact Hx1|].
  rewrite (proj2 (Z.eqb_neq _ _) Hv).
  eapply keeps_bind; [by apply (call_close_keeps _ _ o x)|]. intros r w2 Hi2 _ Hx2.
  eapply keeps_bind; [by eapply (on_sock_keeps _ _ _ o x); [apply UpdateLastError_ok|..]|].
  intros ? w3 Hi3 _ Ho3. destruct (only_sock_at _ _ _ _ Ho3) as (x3 & Hx3 & _ & _).
  eapply keeps_bind; [by apply (set_s_keeps _ _ o x3)|]. intros _ w4 Hi4 _ ->.
  assert (sock_at (put (set_kernel w3 (kernel w3) (errno w3)) o (with_s x3 INVALID_SOCKET)) o (with_s x3 INVALID_SOCKET))
    as Hx4 by (apply sock_at_put; by left).
  set (w4 := put _ _ _) in *.
  assert (inv None w4) as Hi4' by (by eapply inv_closed).
  eapply keeps_bind; [by eapply (on_sock_keeps _ _ _ o _); [apply SetState_ok|..]|].
  intros ? w5 Hi5 _ Ho5. destruct (only_sock_at _ _ _ _ Ho5) as (x5 & Hx5 & Hs5 & _).
  eapply keeps_bind; [by eapply (on_sock_keeps _ _ _ o x5); [apply SetEnabledEvents_ok|..]|].
  intros ? w6 Hi6 _ Ho6. destruct (only_sock_at _ _ _ _ Ho6) as (x6 & Hx6 & Hs6 & _).
  eapply keeps_get_sock; [exact Hx6|].
  eapply keeps_bind; [by apply (drop_resolver_keeps _ _ o x6)|]. intros _ w7 Hi7 _ (x7 & Hx7 & Hs7 & _).
  apply keeps_ret; [done|]. exists x7. split; [done|]. rewrite Hs7, Hs6, Hs5. done.
Qed.

Lemma Close_keeps P w o x :
  inv None w -> sock_at w o x ->
  keeps P w None (Close o) (fun _ w' => exists x', sock_at w' o x' /\ s_ x' = INVALID_SOCKET).
Proof.
  intros Hi Hx. unfold Close. eapply keeps_get_sock; [exact Hx|].
  destruct (Z.eqb_spec (s_ x) INVALID_SOCKET) as [Hv|Hv]; [apply keeps_ret; [done|by exists x]|].
  eapply keeps_bind; [by apply (Remove_keeps _ _ o x)|]. intros ? w1 Hi1 _ [Hx1 Hown]. by apply (physical_Close_keeps _ _ o x).
Qed.

Lemma Add_keeps P w o x :
  inv (Some o) w -> sock_at w o x -> 0 <= s_ x < FD_SETSIZE -> s_ x ∈ opened (kernel w) -> own_fd w o (s_ x) ->
  keeps P w None (Add o) (fun _ w' => sock_at w' o x).
Proof.
  intros (Hreg & Hobj & Hsock & (g & Hg & Hgo) & Hgr & Hgu & Hid & Hrid) Hx Hr Hop [Hp Hu].
  destruct (Hsock _ _ Hx) as (_ & H2 & H3). pose proof (H2 (or_intror eq_refl)) as Hkey.
  destruct Hreg as [Hinv Hkeys]. unfold Add. apply keeps_get. rewrite Hkey. apply returns_ok. cbn.
  set (n := next_dispatcher_key_ w).
  assert (forall o', dispatcher_by_key_ w !! n = Some o' -> False) as Hfresh
    by (intros o' Ho'%Hkeys; unfold n in *; lia).
  assert (0 <= n) as Hn0.
  { apply Hinv, Hkeys in Hgr. unfold n. lia. }
  split; [|split].
  - split; [split|split; [|split; [|split; [|split; [|split]]]]].
    + intros k' o'. cbn. destruct (decide (k' = n)) as [->|Hk'].
      * rewrite lookup_insert_eq. destruct (decide (o' = o)) as [->|Ho']; [by rewrite lookup_insert_eq|].
        rewrite lookup_insert_ne by done. split; [congruence|]. intros Hb%Hinv. by destruct (Hfresh _ Hb).
      * rewrite lookup_insert_ne by done. destruct (decide (o' = o)) as [->|Ho'].
        -- rewrite lookup_insert_eq. split; [intros Hb%Hinv|]; congruence.
        -- rewrite lookup_insert_ne by done. apply Hinv.
    + intros k' o'. cbn. destruct (decide (k' = n)) as [->|Hk'].
      * intros _. lia.
      * rewrite lookup_insert_ne by done. intros Hb%Hkeys. fold n in Hb. lia.
    + intros k' o'. cbn. destruct (decide (k' = n)) as [->|Hk'].
      * rewrite lookup_insert_eq. intros [= <-]. by exists (Sock x).
      * rewrite lookup_insert_ne by done. by apply Hobj.
    + intros o' y Hy. destruct (Hsock _ _ Hy) as (Y1 & Y2 & Y3). split; [|split; [|exact Y3]].
      * intros _ Hv. cbn. destruct (decide (o' = o)) as [->|Ho'].
        -- assert (y = x) as -> by (unfold sock_at in Hx, Hy; cbn in Hy; congruence).
           split_and!; try done; try lia; [|rewrite lookup_insert_eq; by eexists].
           intros o2 y2 _ Hy2 He. destruct (decide (o2 = o)) as [|Hn2]; [done|]. by destruct (Hu o2 y2 Hn2 Hy2).
        -- destruct (Y1 ltac:(congruence) Hv) as (? & ? & ? & Hu' & ?). split_and!; try done; try lia.
           ++ intros o2 y2 _ Hy2 He. destruct (decide (o2 = o)) as [->|Hn2]; [|apply (Hu' o2 y2); [congruence|done|done]].
              assert (y2 = x) as -> by (unfold sock_at in Hx, Hy2; cbn in Hy2; congruence).
              by destruct (Hu o' y Ho' Hy).
           ++ by rewrite lookup_insert_ne.
      * cbn. intros [Hv|]; [|done]. assert (o' <> o).
        { intros ->. assert (y = x) as -> by (unfold sock_at in Hx, Hy; cbn in Hy; congruence).
          unfold INVALID_SOCKET in Hv. lia. }
        rewrite lookup_insert_ne by done. apply Y2. by left.
    + exists g. by split.
    + cbn. rewrite lookup_insert_ne; [done|]. intros ->. congruence.
    + done.
    + done.
  - split; [done|]. cbn. split; [lia|]. split; [|by repeat split].
    intros k' o' Hk'. rewrite lookup_insert_ne by (unfold n; lia). done.
  - done.
Qed.

Lemma new_sock_keeps P w x :
  inv None w -> resolver_ x = None ->
  keeps P w (Some (next_id w)) (new_object (Sock x))
    (fun o w' => o = next_id w /\ w' = set_objects w (<[next_id w := Sock x]> (objects w)) (S (next_id w))).
Proof.
  intros (Hreg & Hobj & Hsock & (g & Hg & Hgo) & Hgr & Hgu & Hid & Hrid) Hx. apply returns_ok. cbn [fst snd].
  set (n := next_id w) in *. assert (objects w !! n = None) as Hn.
  { destruct (objects w !! n) eqn:E; [|done]. specialize (Hid n ltac:(rewrite E; by eexists)). unfold n in Hid. lia. }
  set (w' := set_objects w (<[n:=Sock x]> (objects w)) (S n)).
  assert (forall o' y, sock_at w' o' y -> (o' = n /\ y = x) \/ (o' <> n /\ sock_at w o' y)) as Hback.
  { intros o' y Hy. unfold w', sock_at in Hy. cbn in Hy. destruct (decide (o' = n)) as [->|].
    - rewrite lookup_insert_eq in Hy. simplify_eq. by left.
    - rewrite lookup_insert_ne in Hy by done. by right. }
  split; [|split].
  - split; [exact Hreg|]. split; [|split; [|split; [|split; [exact Hgr|split; [|split]]]]].
    + intros k' o' H'. unfold w'. cbn. destruct (decide (o' = n)) as [->|]; [rewrite lookup_insert_eq; by eexists|].
      rewrite lookup_insert_ne by done. by eapply Hobj.
    + intros o' y [[-> ->]|[Hne Hy]]%Hback.
      * split; [done|]. split; [|intros r; by rewrite Hx]. intros _. cbn.
        destruct (key_by_dispatcher_ w !! n) as [k|] eqn:Ek; [|done]. apply (proj1 Hreg), Hobj in Ek.
        rewrite Hn in Ek. by destruct Ek.
      * destruct (Hsock _ _ Hy) as (Y1 & Y2 & Y3). split; [|split; [|exact Y3]].
        -- intros _ Hv. destruct (Y1 ltac:(done) Hv) as (? & ? & ? & Hu & ?). split_and!; try done; try lia.
           intros o2 y2 Hne2 [[-> ->]|[_ Hy2]]%Hback He; [done|by eapply Hu].
        -- intros [Hv|[= <-]]; [|done]. apply Y2. by left.
    + exists g. split; [|done]. unfold w'. cbn. rewrite lookup_insert_ne; [done|]. intros He. rewrite <- He in Hg. congruence.
    + intros o' g' Hg'. unfold w' in Hg'. cbn in Hg'.
      destruct (decide (o' = n)) as [->|]; [by rewrite lookup_insert_eq in Hg'|].
      rewrite lookup_insert_ne in Hg' by done. by eapply Hgu.
    + intros o' Ho'. unfold w' in *. cbn in *. destruct (decide (o' = n)) as [->|]; [lia|].
      rewrite lookup_insert_ne in Ho' by done. apply Hid in Ho'. unfold n. lia.
    + intros r Hr. apply Hrid in Hr. unfold w'. cbn. unfold n. lia.
  - split; [|split; [unfold w'; cbn; lia|split; [|split; [done|repeat split; unfold w'; cbn; unfold n; lia]]]].
    + intros o' _ [y Hy]. exists y. unfold w', sock_at. cbn. rewrite lookup_insert_ne; [done|].
      intros He. unfold sock_at in Hy. rewrite <- He in Hy. congruence.
    + intros k' o' _ Hk'. split; [exact Hk'|]. unfold fd_of, w'. cbn. rewrite lookup_insert_ne; [done|].
      intros <-. apply Hobj in Hk'. rewrite Hn in Hk'. by destruct Hk'.
  - done.
Qed.

(** The last step of opening a socket. *)
Definition ready (w : world K) (o : nat) (fd : Z) : Prop :=
  (exists x, sock_at w o x /\ s_ x = fd) /\ 0 <= fd < FD_SETSIZE /\ fd ∈ opened (kernel w) /\ own_fd w o fd.

Lemma ready_only o x w w' fd : only_sock o x w w' -> s_ x = fd -> ready w o fd -> ready w' o fd.
Proof.
  intros Ho Hs (_ & Hr & Hop & Hown). split; [|split; [done|split]].
  - destruct (only_sock_at _ _ _ _ Ho) as (x' & Hx' & Hs' & _). exists x'. split; [done|congruence].
  - destruct Ho as (k & e & x' & -> & (_ & _ & Hk) & _). cbn. by rewrite Hk.
  - by eapply own_fd_only.
Qed.

Lemma Initialize_keeps P w o fd :
  inv (Some o) w -> ready w o fd ->
  keeps P w None (Initialize o) (fun ok w' => ok = true /\ is_sock w' o).
Proof.
  intros Hi ((x & Hx & <-) & Hr & Hop & Hown). unfold Initialize. eapply keeps_get_sock; [exact Hx|].
  apply keeps_check. { apply negb_true_iff, Z.eqb_neq. unfold INVALID_SOCKET. lia. }
  eapply keeps_bind; [by apply call_keeps|]. intros r w1 Hi1 _ (k & e & -> & Hk).
  pose proof (quiet_same (kernel w) (sys_nonblock (s_ x)) eq_refl) as (Hp & _ & Ho). rewrite <- Hk in Hp, Ho. cbn in Hp, Ho.
  eapply keeps_bind.
  { apply (Add_keeps _ _ o x); [done|exact Hx|done|cbn; by rewrite Ho|]. destruct Hown as [H1 H2].
    split; [cbn; by rewrite Hp|exact H2]. }
  intros ? w2 Hi2 _ Hx2. apply keeps_ret; [done|]. split; [done|]. by exists x.
Qed.

Lemma put_same w o x : put (set_kernel w (kernel w) (errno w)) o x = put w o x.
Proof. by destruct w. Qed.

Lemma inv_other o w x : inv None w -> sock_at w o x -> s_ x = INVALID_SOCKET -> inv (Some o) w.
Proof.
  intros (Hreg & Hobj & Hsock & Hrest) Hx Hs. split; [done|]. split; [done|]. split; [|done].
  intros o' y Hy. destruct (Hsock _ _ Hy) as (Y1 & Y2 & Y3). split; [|split; [|exact Y3]].
  - intros Hne Hv. destruct (Y1 ltac:(done) Hv) as (? & ? & ? & Hu & ?). split_and!; try done; try lia.
    intros o2 y2 _ Hy2 He. by eapply Hu.
  - intros [Hv|[= <-]]; [apply Y2; by left|]. apply Y2. left. unfold sock_at in Hx, Hy. congruence.
Qed.

(** The kernel gives out a descriptor. *)
Lemma call_fd_keeps P w X c :
  match c with sys_socket _ _ | sys_accept _ => true | _ => false end = true -> inv X w ->
  keeps P w X (call c) (fun r w' =>
    (exists k e, w' = set_kernel w k e /\ (r, k) = sys (kernel w) c) /\
    (ret r = INVALID_SOCKET \/ 0 <= ret r < FD_SETSIZE /\ ret r ∈ opened (kernel w') /\
       forall o, X = Some o \/ X = None -> own_fd w' o (ret r))).
Proof.
  intros Hc (Hreg & Hobj & Hsock & (g & Hg & Hgo) & Hgr & Hgu & Hid & Hrid).
  assert (about_pipe c = false) as Hpc by (by destruct c).
  pose proof (fd_law (kernel w) c Hc) as Hfd. pose proof (opened_law (kernel w) c Hpc) as Ho.
  pose proof (pipe_law (kernel w) c Hpc) as [Hp Hb]. unfold keeps, call.
  destruct (sys (kernel w) c) as [r k] eqn:E. cbn in Hfd, Ho, Hp, Hb. apply returns_ok. cbn [fst snd].
  assert (opened k = if 0 <=? ret r then {[ret r]} ∪ opened (kernel w) else opened (kernel w)) as Ho'
    by (rewrite Ho; by destruct c).
  assert (opened (kernel w) ⊆ opened k) as Hsub by (rewrite Ho'; destruct (0 <=? ret r); set_solver).
  destruct Hgo as (Ha & Hr & Hop & Hbu).
  split; [|split; [apply evolves_kernel|split]].
  - split_and!; try done.
    + intros o x Hx. destruct (Hsock _ _ Hx) as (Y1 & Y2 & Y3). split; [|by split]. cbn. rewrite Hp.
      intros Hn Hv. destruct (Y1 Hn Hv) as (? & ? & ? & ? & ?). split_and!; try done; try lia. by apply Hsub.
    + exists g. split; [done|]. unfold signaler_ok. cbn. rewrite Hp, Hb. split_and!; try done; try lia. by apply Hsub.
  - by eexists _, _.
  - destruct Hfd as [Hinvalid|[Hrange Hnew]]; [by left|]. right. split; [done|]. split.
    + cbn. rewrite Ho', (proj2 (Z.leb_le _ _)) by lia. set_solver.
    + intros o HX. split.
      * cbn. rewrite Hp. intros He. apply Hnew. rewrite He, <- Ha. exact Hop.
      * intros o' x' Hn Hx' He. destruct (Hsock _ _ Hx') as (Y1 & _ & _).
        destruct Y1 as (_ & Hin & _); [destruct HX; congruence|unfold INVALID_SOCKET; lia|]. apply Hnew. by rewrite <- He.
Qed.

Lemma physical_Create_keeps P w o family type :
  inv None w -> is_sock w o ->
  keeps P w (Some o) (physical_Create o family type) (fun ok w' =>
    exists x, sock_at w' o x /\ if (ok : bool) then ready w' o (s_ x) else s_ x = INVALID_SOCKET).
Proof.
  intros Hi [x Hx]. unfold physical_Create. eapply keeps_bind; [by apply (Close_keeps _ _ o x)|].
  intros ? w1 Hi1 _ (x1 & Hx1 & Hs1).
  assert (inv (Some o) w1) as Hi1' by (by eapply inv_other).
  eapply keeps_bind; [by apply call_fd_keeps|]. intros r w2 Hi2 _ [(k & e & -> & _) Hr].
  eapply keeps_bind; [by apply (set_s_keeps _ _ o x1)|]. intros ? w3 Hi3 _ Hw3. rewrite put_same in Hw3. subst w3.
  set (w3 := put _ _ _) in *. assert (sock_at w3 o (with_s x1 (ret r))) as Hx3 by (apply sock_at_put; by left).
  assert (ret r = INVALID_SOCKET \/ ready w3 o (ret r)) as Hready.
  { destruct Hr as [Hr|(Hr & Hop & Hown)]; [by left|]. right. specialize (Hown o (or_introl eq_refl)).
    split; [by eexists|]. split; [done|]. split; [done|]. destruct Hown as [H1 H2]. split; [done|].
    intros o' x' Hn [[-> _]|[_ Hy]]%sock_at_put; [done|]. by eapply H2. }
  eapply keeps_bind.
  { eapply (on_sock_keeps _ _ _ o); [|done|exact Hx3]. apply (with_kind_ok _ (fun _ => family)). }
  intros ? w4 Hi4 _ Ho4. destruct (only_sock_at _ _ _ _ Ho4) as (x4 & Hx4 & Hs4 & _). cbn in Hs4.
  eapply keeps_bind; [by eapply (on_sock_keeps _ _ _ o x4); [apply UpdateLastError_ok|..]|].
  intros ? w5 Hi5 _ Ho5. destruct (only_sock_at _ _ _ _ Ho5) as (x5 & Hx5 & Hs5 & _).
  eapply keeps_bind with (Q := fun (_ : unit) w' => w' = w5 \/ only_sock o x5 w5 w').
  { destruct (type =? SOCK_DGRAM); [|apply keeps_ret; [done|by left]].
    eapply keeps_weaken; [by eapply (on_sock_keeps P _ _ o x5); [apply SetEnabledEvents_ok|..]|auto|].
    intros ? w' _ Hq. right. exact Hq. }
  intros ? w6 Hi6 _ Ho6.
  assert (exists x6, sock_at w6 o x6 /\ s_ x6 = ret r) as (x6 & Hx6 & Hs6).
  { destruct Ho6 as [->|Ho6]; [exists x5; split; [done|congruence]|].
    destruct (only_sock_at _ _ _ _ Ho6) as (x6 & Hx6 & Hs6 & _). exists x6. split; [done|congruence]. }
  apply keeps_ret; [done|]. exists x6. split; [done|].
  destruct (Z.eqb_spec (ret r) INVALID_SOCKET) as [Hv|Hv]; cbn [negb]; [congruence|].
  destruct Hready as [|Hready]; [done|]. rewrite Hs6.
  assert (ready w5 o (ret r)) as Hready5.
  { eapply ready_only; [exact Ho5|congruence|]. eapply ready_only; [exact Ho4|done|done]. }
  destruct Ho6 as [->|Ho6]; [done|]. eapply ready_only; [exact Ho6|congruence|done].
Qed.

Lemma Create_keeps P w o family type :
  inv None w -> is_sock w o ->
  keeps P w None (Create o family type) (fun ok w' =>
    exists x, sock_at w' o x /\ (ok = false -> s_ x = INVALID_SOCKET)).
Proof.
  intros Hi Ho. unfold Create. eapply keeps_bind; [by apply physical_Create_keeps|].
  intros [] w1 Hi1 _ (x1 & Hx1 & H1); cbn [negb].
  - eapply (keeps_weaken P); [by apply (Initialize_keeps P _ o (s_ x1))|auto|]. cbn. intros ok w' _ [-> [x' Hx']]. by exists x'.
  - apply keeps_ret; [by eapply inv_closed|by exists x1].
Qed.

Lemma delete_socket_keeps P w o :
  inv None w -> is_sock w o -> ~ P o -> keeps P w None (delete_socket o) (fun _ _ => True).
Proof.
  intros Hi [x Hx] Hp. unfold delete_socket. eapply keeps_bind; [by apply (Close_keeps _ _ o x)|].
  intros ? w1 (Hreg & Hobj & Hsock & (g & Hg & Hgo) & Hgr & Hgu & Hid & Hrid) _ (x1 & Hx1 & Hs1).
  destruct (Hsock _ _ Hx1) as (_ & Hkey & _). specialize (Hkey (or_introl Hs1)).
  apply returns_ok. cbn [fst snd]. set (w2 := set_objects _ _ _).
  assert (forall o' y, sock_at w2 o' y -> o' <> o /\ sock_at w1 o' y) as Hback.
  { intros o' y. unfold w2, sock_at. cbn. rewrite lookup_delete_Some. intros [? ?]. done. }
  assert (forall k' o', dispatcher_by_key_ w1 !! k' = Some o' -> o <> o') as Hreg'.
  { intros k' o' Hk' <-. apply (proj1 Hreg) in Hk'. congruence. }
  split; [|split; [|done]].
  - split; [exact Hreg|]. split; [|split; [|split; [|split; [exact Hgr|split; [|split; [|exact Hrid]]]]]].
    + intros k' o' Hk'. unfold w2. cbn. rewrite lookup_delete_ne by (by eapply Hreg'). by eapply Hobj.
    + intros o' y [Hn Hy]%Hback. destruct (Hsock _ _ Hy) as (Y1 & Y2 & Y3). split; [|by split].
      intros Hne Hv. destruct (Y1 Hne Hv) as (? & ? & ? & Hu & ?). split_and!; try done; try lia.
      intros o2 y2 Hne2 [_ Hy2]%Hback He. by eapply Hu.
    + exists g. split; [|done]. unfold w2. cbn. rewrite lookup_delete_ne; [done|]. intros He. unfold sock_at in Hx1.
      rewrite He in Hx1. congruence.
    + intros o' g'. unfold w2. cbn. rewrite lookup_delete_Some. intros [_ Hg']. by eapply Hgu.
    + intros o'. unfold w2. cbn. intros [y Hy]. rewrite lookup_delete_Some in Hy. destruct Hy as [_ Hy]. apply Hid. by exists y.
  - split; [|split; [unfold w2; cbn; lia|split; [|by repeat split]]].
    + intros o' Ho' [y Hy]. exists y. unfold w2, sock_at. cbn. rewrite lookup_delete_ne; [done|]. intros ->. done.
    + intros k' o' _ Hk'. split; [exact Hk'|]. unfold fd_of, w2. cbn. rewrite lookup_delete_ne; [done|]. by eapply Hreg'.
Qed.

(** A new socket can be deleted under any protection. *)
Lemma fresh_not_sock w X : inv X w -> ~ is_sock w (next_id w).
Proof.
  intros (_ & _ & _ & _ & _ & _ & Hid & _) [x Hx]. specialize (Hid (next_id w)). unfold sock_at in Hx.
  rewrite Hx in Hid. specialize (Hid ltac:(by eexists)). lia.
Qed.

Lemma open_or_delete P w o (m : M K bool) :
  keeps (fun p => P p /\ p <> o) w None m (fun _ w' => is_sock w' o) ->
  keeps (fun p => P p /\ p <> o) w None
    (ok ← m; if (ok : bool) then mret (Some o) else _ ← delete_socket o; mret None) (fun _ _ => True).
Proof.
  intros Hm. eapply keeps_bind; [exact Hm|]. intros [] w' Hi' _ Ho'; [by apply keeps_ret|].
  eapply keeps_bind; [apply delete_socket_keeps; [done|done|by intros [_ ?]]|]. intros. by apply keeps_ret.
Qed.

Lemma CreateSocket_keeps P w family type :
  inv None w -> keeps P w None (CreateSocket family type) (fun _ _ => True).
Proof.
  intros Hi. set (n := next_id w).
  apply keeps_weaken with (P := fun p => P p /\ p <> n) (Q := fun _ _ => True); [|intros o Hp Ho|done].
  2:{ split; [done|]. intros ->. by eapply fresh_not_sock. }
  unfold CreateSocket. eapply keeps_bind; [by apply new_sock_keeps|]. intros o w1 Hi1 _ [-> ->]. fold n in Hi1 |- *.
  set (w1 := set_objects _ _ _) in *.
  assert (sock_at w1 n closed_socket) as Hx1 by (unfold sock_at, w1; cbn; apply lookup_insert_eq).
  assert (inv None w1) as Hi1' by (by eapply inv_closed).
  apply (open_or_delete P w1 n (Create n family type)).
  eapply (keeps_weaken (fun p => P p /\ p <> n)); [apply Create_keeps; [done|by exists closed_socket]|auto|].
  cbn. intros ok w' Hi' (x & Hx & _). by exists x.
Qed.

Lemma new_dispatcher_keeps P w s :
  inv None w -> 0 <= s < FD_SETSIZE -> s ∈ opened (kernel w) -> (forall o, own_fd w o s) ->
  ret (sys (kernel w) (sys_getsockopt s SOL_SOCKET SO_TYPE)).1 = 0 ->
  keeps P w (Some (next_id w)) (new_dispatcher s) (fun o w' => o = next_id w /\ ready w' o s).
Proof.
  intros Hi Hr Hop Hown Htype. set (n := next_id w).
  assert ((s =? INVALID_SOCKET) = false) as Hs by (apply Z.eqb_neq; unfold INVALID_SOCKET; lia).
  unfold new_dispatcher. rewrite Hs. eapply keeps_bind; [by apply new_sock_keeps|]. intros o w1 Hi1 _ [-> ->].
  fold n in Hi1 |- *. set (x1 := mkSocket _ _ _ _ _ _ _) in *. set (w1 := set_objects _ _ _) in *.
  assert (sock_at w1 n x1) as Hx1 by (unfold sock_at, w1; cbn; apply lookup_insert_eq).
  assert (ready w1 n s) as Hready.
  { split; [by exists x1|]. split; [done|]. split; [done|]. destruct (Hown n) as [Hp Hu]. split; [done|].
    intros o' x' Hn Hy. unfold sock_at, w1 in Hy. cbn in Hy. rewrite lookup_insert_ne in Hy by done. by eapply Hu. }
  eapply keeps_bind with (Q := fun (_ : unit) w' => ready w' n s); [|intros; by apply keeps_ret].
  eapply keeps_bind; [by apply (on_sock_set_keeps _ _ _ n x1)|]. intros ? w2 Hi2 _ ->.
  set (x2 := with_events x1 _) in *. set (w2 := put w1 n x2) in *.
  assert (sock_at w2 n x2) as Hx2 by (apply sock_at_put; by left).
  eapply keeps_bind; [by apply call_keeps|]. intros r w3 Hi3 _ (k & e & -> & Hk).
  pose proof (quiet_same (kernel w2) (sys_getsockopt s SOL_SOCKET SO_TYPE) eq_refl) as Hq. rewrite <- Hk in Hq. cbn in Hq.
  replace (ret r) with 0 by (change (kernel w2) with (kernel w) in Hk; by rewrite <- Hk in Htype).
  apply keeps_check; [done|].
  eapply (keeps_weaken P); [apply (on_sock_keeps _ _ _ n x2); [by apply (with_kind_ok _ family_)|done|exact Hx2]|naive_solver|].
  cbn. intros ? w4 Hi4 Ho4. eapply ready_only; [exact Ho4|done|]. destruct Hready as (_ & ? & ? & Hp & Hu).
  split; [by exists x2|]. split; [done|]. destruct Hq as (Hq1 & _ & Hq2). split; [cbn; by rewrite Hq2|].
  split; [cbn; by rewrite Hq1|]. intros o' x' Hn [[-> _]|[_ Hy]]%(sock_at_put w1); [done|by eapply Hu].
Qed.

Lemma WrapSocket_keeps P w s :
  inv None w -> 0 <= s < FD_SETSIZE -> s ∈ opened (kernel w) -> (forall o, own_fd w o s) ->
  ret (sys (kernel w) (sys_getsockopt s SOL_SOCKET SO_TYPE)).1 = 0 ->
  keeps P w None (WrapSocket s) (fun _ _ => True).
Proof.
  intros Hi Hr Hop Hown Htype. set (n := next_id w).
  apply keeps_weaken with (P := fun p => P p /\ p <> n) (Q := fun _ _ => True); [|intros o Hp Ho|done].
  2:{ split; [done|]. intros ->. by eapply fresh_not_sock. }
  unfold WrapSocket. eapply keeps_bind; [by apply new_dispatcher_keeps|]. intros o w3 Hi3 _ [-> Hready3].
  fold n in Hi3, Hready3 |- *. apply (open_or_delete P w3 n (Initialize n)).
  eapply (keeps_weaken P); [by apply (Initialize_keeps _ _ n s)|naive_solver|]. cbn. by intros ok w' _ [_ ?].
Qed.

Lemma Accept_keeps P w o :
  inv None w -> is_sock w o -> keeps P w None (Accept o) (fun _ _ => True).
Proof.
  intros Hi [x Hx]. unfold Accept.
  eapply keeps_bind; [by eapply (on_sock_set_keeps _ _ _ o x)|]. intros ? w1 Hi1 _ ->.
  set (x1 := with_events x _) in *. set (w1 := put w o x1) in *.
  assert (sock_at w1 o x1) as Hx1 by (apply sock_at_put; by left).
  eapply keeps_get_sock; [exact Hx1|].
  eapply keeps_bind; [by apply call_fd_keeps|]. intros r w2 Hi2 _ [(k & e & -> & Hk) Hr].
  eapply keeps_bind; [by apply (UpdateLastError_keeps _ _ _ o x1)|]. intros ? w3 Hi3 _ ->.
  destruct (Z.eqb_spec (ret r) INVALID_SOCKET) as [Hv|Hv]; [by apply keeps_ret|].
  destruct Hr as [|(Hr & Hop & Hown)]; [done|]. apply WrapSocket_keeps; [done|done|done| |].
  - intros o'. destruct (Hown o' (or_intror eq_refl)) as [Hp Hu]. split; [done|].
    intros o2 x2 Hn [[-> ->]|[_ Hy]]%(sock_at_put (set_kernel w1 k e)); [by apply (Hu o x1)|by eapply Hu].
  - cbn. pose proof (type_law (kernel w1) (s_ x1)) as Ht. rewrite <- Hk in Ht. apply Ht. lia.
Qed.

Lemma DoConnect_keeps P w o addr :
  inv None w -> is_sock w o -> keeps P w None (DoConnect o addr) (fun _ w' => is_sock w' o).
Proof.
  intros Hi [x Hx]. unfold DoConnect. eapply keeps_get_sock; [exact Hx|].
  eapply keeps_bind with (Q := fun _ w' => is_sock w' o).
  { destruct (s_ x =? INVALID_SOCKET); [|apply keeps_ret; [done|by exists x]].
    eapply (keeps_weaken P); [apply Create_keeps; [done|by exists x]|auto|].
    cbn. intros ? w' _ (x' & ? & _). by exists x'. }
  intros [] w1 Hi1 _ Ho1; cbn [negb]; [|by apply keeps_ret]. apply on_sock_keeps'; [apply connect_sock_ok|done|done].
Qed.

(** A socket begins to resolve an address. *)
Lemma new_resolver_keeps P w o :
  inv None w -> is_sock w o ->
  keeps P w None (new_resolver o) (fun r w' => is_sock w' o /\
    exists y, resolvers w' !! r = Some y /\ owner y = o /\ destroy_called_ y = false).
Proof.
  intros (Hreg & Hobj & Hsock & (g & Hg & Hgo) & Hgr & Hgu & Hid & Hrid) Ho. apply returns_ok. cbn [fst snd].
  assert (resolvers w !! next_id w = None) as Hn.
  { destruct (resolvers w !! next_id w) eqn:E; [|done].
    specialize (Hrid (next_id w) ltac:(rewrite E; by eexists)). lia. }
  split; [|split; [|split; [exact Ho|]]].
  - split; [exact Hreg|]. split; [exact Hobj|]. split; [|split; [by exists g|split; [done|split; [exact Hgu|split]]]].
    + intros o' y Hy. destruct (Hsock _ _ Hy) as (Y1 & Y2 & Y3). split; [done|]. split; [done|].
      intros r Hr. destruct (Y3 r Hr) as (z & Hz & Hzo). exists z. split; [|done]. cbn.
      rewrite lookup_insert_ne; [done|]. intros <-. congruence.
    + intros o' Ho'%Hid. cbn. lia.
    + intros r Hr. cbn in *. destruct (decide (r = next_id w)) as [->|]; [lia|].
      rewrite lookup_insert_ne in Hr by done. apply Hrid in Hr. lia.
  - split; [done|]. cbn. split; [lia|]. split; [done|]. split; [|repeat split; cbn; lia].
    intros r (z & Hz & Hp). exists z. split; [|done]. cbn. rewrite lookup_insert_ne; [done|]. intros <-. congruence.
  - cbn. eexists. rewrite lookup_insert_eq. by split.
Qed.

Lemma set_resolver_keeps P w r y y' :
  inv None w -> resolvers w !! r = Some y -> owner y' = owner y -> destroy_called_ y' = destroy_called_ y ->
  recursion_check_ y' = true \/ recursion_check_ y' = recursion_check_ y ->
  keeps P w None (set_resolver r y') (fun _ w' => w' = set_resolvers w (<[r := y']> (resolvers w)) (next_id w)).
Proof.
  intros (Hreg & Hobj & Hsock & Hg & Hgr & Hgu & Hid & Hrid) Hy Ho Hd Hrec. apply returns_ok. cbn [fst snd].
  split; [|split; [|done]].
  - split; [exact Hreg|]. split; [exact Hobj|]. split; [|split; [exact Hg|split; [done|split; [exact Hgu|split; [exact Hid|]]]]].
    + intros o' x Hx. destruct (Hsock _ _ Hx) as (Y1 & Y2 & Y3). split; [done|]. split; [done|].
      intros r' Hr'. destruct (Y3 r' Hr') as (z & Hz & Hzo & Hzd). cbn. destruct (decide (r' = r)) as [->|].
      * exists y'. rewrite lookup_insert_eq. split; [done|]. assert (z = y) as -> by congruence. split; congruence.
      * exists z. by rewrite lookup_insert_ne.
    + intros r' Hr'. cbn in *. destruct (decide (r' = r)) as [->|]; [apply Hrid; by rewrite Hy; eexists|].
      rewrite lookup_insert_ne in Hr' by done. by apply Hrid.
  - split; [done|]. cbn. split; [lia|]. split; [done|]. split; [|repeat split; cbn; lia].
    intros r' (z & Hz & Hp). unfold pinned. cbn. destruct (decide (r' = r)) as [->|]; [|exists z; by rewrite lookup_insert_ne].
    exists y'. rewrite lookup_insert_eq. split; [done|]. assert (z = y) as -> by congruence.
    rewrite Hd. destruct Hrec as [->| ->]; tauto.
Qed.

Lemma link_keeps P w o x r :
  inv None w -> sock_at w o x -> linked w o (with_resolver x (Some r)) ->
  keeps P w None (on_sock o (l_set (fun x => with_resolver x (Some r))))
    (fun _ w' => w' = put w o (with_resolver x (Some r))).
Proof.
  intros Hi Hx Hl. unfold on_sock. eapply keeps_get_sock; [exact Hx|]. unfold keeps, run_local. cbn.
  apply returns_ok. cbn [fst snd]. split; [by eapply (inv_put_linked None w o x)|]. split; [by eapply evolves_put|].
  by destruct w.
Qed.

Lemma keeps_get_resolver {A} P w X r y (f : resolver -> M K A) Q :
  resolvers w !! r = Some y -> keeps P w X (f y) Q -> keeps P w X (z ← get_resolver r; f z) Q.
Proof. intros Hy Hf. unfold keeps, get_resolver, mbind, M_bind, get. cbn. by rewrite Hy. Qed.

Lemma Connect_keeps P w o addr :
  inv None w -> is_sock w o -> keeps P w None (Connect o addr) (fun _ w' => is_sock w' o).
Proof.
  intros Hi Ho. pose proof Ho as [x Hx]. unfold Connect. eapply keeps_get_sock; [exact Hx|].
  destruct (negb _).
  { eapply keeps_bind; [apply on_sock_keeps'; [apply SetError_ok|done|done]|]. intros. by apply keeps_ret. }
  destruct (SocketAddress.IsUnresolvedIP addr); [|by apply DoConnect_keeps].
  eapply keeps_bind; [by apply new_resolver_keeps|]. intros r w1 Hi1 _ [[x1 Hx1] (y & Hy & Hyo & Hyd)].
  eapply keeps_bind.
  { apply (link_keeps _ _ o x1); [done|done|]. intros r' [= <-]. by exists y. }
  intros ? w2 Hi2 _ ->.
  eapply keeps_bind with (Q := fun _ w' => is_sock w' o).
  { unfold Start. eapply keeps_get_resolver; [exact Hy|]. apply keeps_check; [by rewrite Hyd|].
    eapply (keeps_weaken P); [eapply (set_resolver_keeps _ _ r y); [done|exact Hy|done|done|by right]|auto|].
    cbn. intros ? w3 _ ->. exists (with_resolver x1 (Some r)). apply sock_at_put. by left. }
  intros ? w3 Hi3 _ Ho3.
  eapply keeps_bind; [by apply on_sock_keeps'; [apply SetState_ok|..]|]. intros. by apply keeps_ret.
Qed.

(** *** The pipe *)
Definition signalled (w : world K) : Prop :=
  exists g, objects w !! signal_wakeup_ w = Some (Wake g) /\ fSignaled_ g = true.

Lemma keeps_get_signaler {A} P w X o g (f : signaler -> M K A) Q :
  objects w !! o = Some (Wake g) -> keeps P w X (f g) Q -> keeps P w X (z ← get_signaler o; f z) Q.
Proof. intros Hy Hf. unfold keeps, get_signaler, mbind, M_bind, get. cbn. by rewrite Hy. Qed.

(** The signaler with its flag, and the pipe as it should be then. *)
Lemma inv_signaler w g b k e :
  inv None w -> objects w !! signal_wakeup_ w = Some (Wake g) ->
  pipe k = pipe (kernel w) -> opened k = opened (kernel w) -> buffered k = (if (b : bool) then 1%nat else 0%nat) ->
  inv None (set_objects (set_kernel w k e)
    (<[signal_wakeup_ w := Wake (mkSignaler (afd0 g) (afd1 g) b)]> (objects w)) (next_id w)).
Proof.
  intros (Hreg & Hobj & Hsock & (g' & Hg' & Hgo) & Hgr & Hgu & Hid & Hrid) Hg Hp Ho Hb.
  assert (g' = g) as -> by congruence. set (w' := set_objects _ _ _).
  assert (forall o x, sock_at w' o x -> sock_at w o x) as Hback.
  { intros o x. unfold w', sock_at. cbn. intros Hx. destruct (decide (o = signal_wakeup_ w)) as [->|].
    - by rewrite lookup_insert_eq in Hx.
    - by rewrite lookup_insert_ne in Hx. }
  split; [exact Hreg|]. split; [|split; [|split; [|split; [exact Hgr|split; [|split; [|exact Hrid]]]]]].
  - intros k' o' Hk'. unfold w'. cbn. destruct (decide (o' = signal_wakeup_ w)) as [->|]; [rewrite lookup_insert_eq; by eexists|].
    rewrite lookup_insert_ne by done. exact (Hobj _ _ Hk').
  - intros o x Hx%Hback. destruct (Hsock _ _ Hx) as (Y1 & Y2 & Y3). split; [|by split]. unfold w'. cbn. rewrite Hp, Ho.
    intros Hn Hv. destruct (Y1 Hn Hv) as (? & ? & ? & Hu & ?). split_and!; try done; try lia.
    intros o2 x2 Hn2 Hx2%Hback He. by eapply Hu.
  - exists (mkSignaler (afd0 g) (afd1 g) b). unfold w'. cbn. rewrite lookup_insert_eq. split; [done|].
    destruct Hgo as (? & ? & ? & _). unfold signaler_ok. cbn. by rewrite Hp, Ho, Hb.
  - intros o' g'. unfold w'. cbn. destruct (decide (o' = signal_wakeup_ w)) as [->|]; [done|].
    rewrite lookup_insert_ne by done. apply Hgu.
  - intros o' Ho'. unfold w' in *. cbn in *. destruct (decide (o' = signal_wakeup_ w)) as [->|]; [apply Hid; by rewrite Hg; eexists|].
    rewrite lookup_insert_ne in Ho' by done. by apply Hid.
Qed.

Lemma evolves_signaler P w g b k e :
  objects w !! signal_wakeup_ w = Some (Wake g) ->
  evolves P w (set_objects (set_kernel w k e)
    (<[signal_wakeup_ w := Wake (mkSignaler (afd0 g) (afd1 g) b)]> (objects w)) (next_id w)).
Proof.
  intros Hg. split; [|split; [cbn; lia|split; [|by repeat split]]].
  - intros o' _ [x Hx]. exists x. unfold sock_at in *. cbn. rewrite lookup_insert_ne; [done|]. intros <-. congruence.
  - intros k' o' _ Hk'. split; [exact Hk'|]. unfold fd_of. cbn.
    destruct (decide (o' = signal_wakeup_ w)) as [->|]; [by rewrite lookup_insert_eq, Hg|by rewrite lookup_insert_ne].
Qed.

Lemma WakeUp_keeps P w : inv None w -> keeps P w None WakeUp (fun _ w' => signalled w').
Proof.
  intros Hi. pose proof Hi as (_ & _ & _ & (g & Hg & Hpipe & Hr & Hop & Hbu) & _).
  unfold WakeUp. apply keeps_get. unfold Signal. eapply keeps_get_signaler; [exact Hg|].
  destruct (fSignaled_ g) eqn:Hs; [apply keeps_ret; [done|by exists g]|].
  unfold keeps, mbind, M_bind, call, check. cbn. pose proof (write_law (kernel w)) as Hw.
  replace (pipe (kernel w)).2 with (afd1 g) in Hw by (by rewrite <- Hpipe).
  destruct (sys (kernel w) (sys_write (afd1 g) [0])) as [r k] eqn:E. destruct (Hw Hbu) as (Hret & Hp & Hb & Ho).
  rewrite bind_ok, Hret. cbn.
  apply returns_ok. cbn [fst snd]. split; [by apply (inv_signaler w g true)|]. split; [by apply (evolves_signaler P w g true)|].
  eexists. cbn. rewrite lookup_insert_eq. by split.
Qed.

(** *** Actions of clients *)
Definition small_action (a : action) : Prop :=
  match a with ASend _ buf | ASendTo _ buf _ => small buf | _ => True end.

Lemma if_held_keeps {A} (P : nat -> Prop) w o (m : M K A) Q :
  inv None w -> (is_sock w o -> keeps P w None m Q) -> keeps P w None (if_held o m) (fun _ _ => True).
Proof.
  intros Hi Hm. unfold if_held, holds. unfold keeps at 1, mbind, M_bind, get. cbn.
  destruct (objects w !! o) as [[x|]|] eqn:E; try by (apply returns_ok; split; [|split; [reflexivity|]]).
  assert (is_sock w o) as Ho by (by exists x). specialize (Hm Ho). eapply returns_bind; [exact Hm|].
  intros [a w'] (Hi' & He & _). by apply returns_ok.
Qed.

Lemma do_action_keeps (P : nat -> Prop) w a :
  inv None w -> small_action a -> (forall o, a = ADelete o -> ~ P o) ->
  keeps P w None (do_action a) (fun _ _ => True).
Proof.
  intros Hi Hsmall Hdel. destruct a as [family type|o addr|o addr|o backlog|o|o buf|o buf addr|o len ts|o len ts|o opt v|o|o|];
    cbn [do_action small_action] in *.
  all: try (eapply if_held_keeps; [done|]; intros Ho).
  - eapply keeps_bind; [by apply CreateSocket_keeps|]. intros. by apply keeps_ret.
  - apply on_sock_keeps'; [apply Bind_ok|done|done].
  - by apply Connect_keeps.
  - apply on_sock_keeps'; [apply Listen_ok|done|done].
  - by apply Accept_keeps.
  - apply on_sock_keeps'; [by apply Sock_Send_ok|done|done].
  - apply on_sock_keeps'; [by apply SendTo_ok|done|done].
  - apply on_sock_keeps'; [apply Sock_Recv_ok|done|done].
  - apply on_sock_keeps'; [apply RecvFrom_ok|done|done].
  - apply on_sock_keeps'; [apply SetOption_ok|done|done].
  - destruct Ho as [x Hx]. by apply (Close_keeps _ _ _ x).
  - apply delete_socket_keeps; [done|done|by apply Hdel].
  - eapply (keeps_weaken P); [by apply WakeUp_keeps|auto|done].
Qed.

(** The slots send no more than fits an int, and do not delete the socket that
    signals. *)
Hypothesis client_ok : forall o s l, Forall (fun a => small_action a /\ a <> ADelete o) (client o s l).

Lemma do_actions_keeps (P : nat -> Prop) l w :
  inv None w -> Forall (fun a => small_action a /\ forall o, a = ADelete o -> ~ P o) l ->
  keeps P w None (do_actions l) (fun _ _ => True).
Proof.
  intros Hi Hl. revert w Hi. induction Hl as [|a l [Ha Hd] Hl IH]; intros w Hi; [by apply keeps_ret|].
  cbn. eapply keeps_bind; [by apply do_action_keeps|]. intros ? w' Hi' _ _. by apply IH.
Qed.

Lemma add_event_keeps P w X s o : inv X w -> inv X (add_event w (Signalled o s)) /\ evolves P w (add_event w (Signalled o s)).
Proof.
  intros Hi. split; [exact Hi|]. repeat split; try done. cbn. unfold deliveries. rewrite omap_app. cbn. by rewrite app_nil_r.
Qed.

Lemma raise_keeps w o s : inv None w -> is_sock w o -> keeps (eq o) w None (raise o s) (fun _ w' => is_sock w' o).
Proof.
  intros Hi Ho. unfold raise. eapply keeps_bind with (Q := fun (_ : unit) w' => is_sock w' o).
  { apply returns_ok. cbn [fst snd]. destruct (add_event_keeps (eq o) w None s o Hi) as [Hi' He]. split; [done|]. by split. }
  intros ? w1 Hi1 _ Ho1. apply keeps_get.
  eapply keeps_bind with (Q := fun (_ : unit) w' => is_sock w' o).
  { eapply returns_weaken; [apply (do_actions_keeps (eq o)); [done|]|].
    - eapply list.Forall_impl; [apply client_ok|]. intros act [Ha Hd]. split; [done|]. intros o' -> <-. done.
    - intros [u w2] (Hi2 & He2 & _). split; [done|]. split; [done|]. destruct He2 as [Hp _]. by apply Hp. }
  intros ? w2 Hi2 _ Ho2. pose proof Ho2 as [x Hx]. eapply keeps_get_sock; [exact Hx|]. by apply keeps_ret.
Qed.

(** *** Events *)
Lemma event_keeps w o (b : bool) (m : L K unit) s :
  l_ok m -> inv None w -> is_sock w o ->
  keeps (eq o) w None (if b then _ ← on_sock o m; raise o s else mret tt) (fun _ w' => is_sock w' o).
Proof.
  intros Hm Hi Ho. destruct b; [|by apply keeps_ret].
  eapply keeps_bind; [by apply on_sock_keeps'|]. intros ? w' Hi' _ Ho'. by apply raise_keeps.
Qed.

Lemma OnEvent_keeps w o ff error :
  inv None w -> is_sock w o -> keeps (eq o) w None (OnEvent o ff error) (fun _ w' => is_sock w' o).
Proof.
  intros Hi Ho. unfold OnEvent.
  assert (forall w b s, inv None w -> is_sock w o ->
    keeps (eq o) w None (if (b : bool) then on_sock o (SetState s) else mret tt) (fun _ w' => is_sock w' o)) as Hset.
  { intros v b s Hv Hov. destruct b; [|by apply keeps_ret]. by apply on_sock_keeps'; [apply SetState_ok|..]. }
  eapply keeps_bind; [by apply Hset|]. intros ? w1 Hi1 _ Ho1.
  eapply keeps_bind; [by apply Hset|]. intros ? w2 Hi2 _ Ho2.
  eapply keeps_bind; [by apply event_keeps; [apply DisableEvents_ok|..]|]. intros ? w3 Hi3 _ Ho3.
  eapply keeps_bind; [by apply event_keeps; [apply DisableEvents_ok|..]|]. intros ? w4 Hi4 _ Ho4.
  eapply keeps_bind; [by apply event_keeps; [apply DisableEvents_ok|..]|]. intros ? w5 Hi5 _ Ho5.
  eapply keeps_bind; [by apply event_keeps; [apply DisableEvents_ok|..]|]. intros ? w6 Hi6 _ Ho6.
  by apply event_keeps; [apply SetEnabledEvents_ok|..].
Qed.

(** *** Results of resolutions *)
Lemma OnResolveResult_keeps w o r :
  inv None w -> is_sock w o -> keeps (eq o) w None (OnResolveResult o r) (fun _ w' => is_sock w' o).
Proof.
  intros Hi Ho. pose proof Ho as [x Hx]. unfold OnResolveResult. eapply keeps_get_sock; [exact Hx|].
  case_bool_decide as Hr; cbn [negb]; [|by apply keeps_ret].
  destruct (inv_linked _ _ _ _ Hi Hx r Hr) as (y & Hy & Hyo & Hyd).
  eapply keeps_bind with (Q := fun _ w' => w' = w).
  { unfold resolver_GetError. eapply keeps_get_resolver; [exact Hy|]. apply keeps_check; [by rewrite Hyd|].
    by apply keeps_ret. }
  intros error w1 Hi1 _ ->.
  eapply keeps_bind with (Q := fun _ w' => is_sock w' o).
  { destruct (error =? 0).
    - eapply keeps_bind with (Q := fun _ w' => w' = w).
      { unfold address, GetResolvedAddress. eapply keeps_bind with (Q := fun _ w' => w' = w).
        - eapply keeps_get_resolver; [exact Hy|]. apply keeps_check; [by rewrite Hyd|]. by apply keeps_ret.
        - intros a' ? ? _ ->. by apply keeps_ret. }
      intros a' ? ? _ ->. by apply DoConnect_keeps.
    - eapply keeps_bind; [by apply (Close_keeps _ _ o x)|]. intros ? w2 Hi2 _ (x2 & Hx2 & _).
      apply keeps_ret; [done|]. by exists x2. }
  intros e w2 Hi2 _ Ho2. destruct (negb _); [|by apply keeps_ret].
  eapply keeps_bind; [by apply on_sock_keeps'; [apply SetError_ok|..]|]. intros ? w3 Hi3 _ Ho3. by apply raise_keeps.
Qed.

Lemma M_returns_bind {A B} (m : M K A) (f : A -> M K B) w (P : A * world K -> Prop) (Q : B * world K -> Prop) :
  returns (m w) P -> (forall a w', P (a, w') -> returns (f a w') Q) -> returns ((m ≫= f) w) Q.
Proof. intros Hm Hf. unfold mbind, M_bind. eapply returns_bind; [exact Hm|]. intros [a w'] Ha. by apply Hf. Qed.

Lemma M_bind_ok {A B} (m : M K A) (f : A -> M K B) w a w' : m w = Ok (a, w') -> (m ≫= f) w = f a w'.
Proof. intros Hm. unfold mbind, M_bind. by rewrite Hm. Qed.

Lemma M_returns_get {A} (f : world K -> M K A) w (Q : A * world K -> Prop) :
  returns (f w w) Q -> returns ((x ← get; f x) w) Q.
Proof. done. Qed.

(** The resolver deletes itself if it was destroyed meanwhile. *)
Lemma MaybeSelfDestruct_returns w r :
  inv None w -> pinned w r -> returns (MaybeSelfDestruct r w) (fun x => inv None x.2).
Proof.
  intros Hi (y & Hy & Hp). unfold MaybeSelfDestruct, get_resolver, mbind, M_bind, get. cbn. rewrite Hy. cbn.
  destruct Hi as (Hreg & Hobj & Hsock & Hg & Hgr & Hgu & Hid & Hrid).
  destruct (recursion_check_ y) eqn:Er; cbn; apply returns_ok; cbn [snd].
  - split; [exact Hreg|]. split; [exact Hobj|]. split; [|split; [exact Hg|split; [exact Hgr|split; [exact Hgu|split; [exact Hid|]]]]].
    + intros o x Hx. destruct (Hsock _ _ Hx) as (Y1 & Y2 & Y3). split; [done|]. split; [done|].
      intros r' Hr'. destruct (Y3 r' Hr') as (z & Hz & Hzo & Hzd). cbn. destruct (decide (r' = r)) as [->|].
      * eexists. rewrite lookup_insert_eq. split; [done|]. assert (z = y) as -> by congruence. by split.
      * exists z. by rewrite lookup_insert_ne.
    + intros r' Hr'. cbn in *. destruct (decide (r' = r)) as [->|]; [apply Hrid; by rewrite Hy; eexists|].
      rewrite lookup_insert_ne in Hr' by done. by apply Hrid.
  - destruct Hp as [|Hp]; [congruence|].
    split; [exact Hreg|]. split; [exact Hobj|]. split; [|split; [exact Hg|split; [exact Hgr|split; [exact Hgu|split; [exact Hid|]]]]].
    + intros o x Hx. destruct (Hsock _ _ Hx) as (Y1 & Y2 & Y3). split; [done|]. split; [done|].
      intros r' Hr'. destruct (Y3 r' Hr') as (z & Hz & Hzo & Hzd). exists z. cbn.
      rewrite lookup_delete_ne; [done|]. intros <-. congruence.
    + intros r' [z Hz]. cbn in Hz. rewrite lookup_delete_Some in Hz. destruct Hz as [_ Hz]. apply Hrid. by exists z.
Qed.

Lemma ResolveDone_returns w r addresses error :
  inv None w -> returns (ResolveDone r addresses error w) (fun x => inv None x.2).
Proof.
  intros Hi. unfold ResolveDone. apply M_returns_get.
  destruct (resolvers w !! r) as [y|] eqn:Ey; [|by apply returns_ok].
  set (y' := mkResolver (owner y) (addr_ y) addresses error true (destroy_called_ y)).
  destruct (set_resolver_keeps (fun _ => False) w r y y' Hi Ey eq_refl eq_refl (or_introl eq_refl))
    as ([u w1] & E1 & Hi1 & _ & Hw1). cbn in Hi1, Hw1.
  assert (pinned w1 r) as Hp1 by (rewrite Hw1; exists y'; cbn; rewrite lookup_insert_eq; split; [done|by left]).
  apply M_returns_bind with (P := fun x => x.2 = w1); [by exists (u, w1)|]. intros ? v Hv. cbn in Hv. subst v.
  apply M_returns_bind with (P := fun x => x.2 = w1 /\ (x.1 = true -> is_sock w1 (owner y))).
  { unfold holds. apply M_returns_get. apply returns_ok. cbn. split; [done|].
    destruct (objects w1 !! owner y) as [[x|]|] eqn:E; [intros _; by exists x|done..]. }
  intros b v [Hv Hb]. cbn in Hv, Hb. subst v.
  apply M_returns_bind with (P := fun x => inv None x.2 /\ pinned x.2 r).
  - destruct b; [|by apply returns_ok]. eapply returns_weaken; [apply OnResolveResult_keeps; [done|by apply Hb]|].
    intros [u' w2] (Hi2 & He2 & _). split; [done|]. destruct He2 as (_ & _ & _ & Hpin & _). by apply Hpin.
  - intros u' w2 [Hi2 Hp2]. by apply MaybeSelfDestruct_returns.
Qed.

(** *** Delivering events *)

(** What rounds of the loop keep, which deliver events and may end it. *)
Definition core (w w' : world K) : Prop :=
  next_dispatcher_key_ w <= next_dispatcher_key_ w' /\
  (forall k o, k < next_dispatcher_key_ w -> dispatcher_by_key_ w' !! k = Some o ->
     dispatcher_by_key_ w !! k = Some o /\ fd_of w' o = fd_of w o) /\
  signal_wakeup_ w' = signal_wakeup_ w /\ waiting_ w' = waiting_ w.

#[export] Instance core_preorder : PreOrder core.
Proof.
  split; [by intros w; repeat split; auto; lia|].
  intros a b c (A1 & A2 & A3 & A4) (B1 & B2 & B3 & B4). split; [lia|]. split; [|by split; congruence].
  intros k o Hk Hc. destruct (B2 k o) as [Hb Hf]; [lia|done|]. destruct (A2 k o Hk Hb) as [Ha Hf'].
  split; [done|congruence].
Qed.

Lemma evolves_core P w w' : evolves P w w' -> core w w'.
Proof. by intros (_ & ? & ? & _ & ? & _ & ? & _). Qed.

Lemma Signaler_OnEvent_returns w :
  inv None w -> returns (Signaler_OnEvent (signal_wakeup_ w) w) (fun x =>
    inv None x.2 /\ core w x.2 /\ fWait_ x.2 = false /\ log x.2 = log w).
Proof.
  intros Hi. pose proof Hi as (_ & _ & _ & (g & Hg & Hpipe & Hr & Hop & Hbu) & _).
  unfold Signaler_OnEvent, get_signaler, mbind, M_bind, get, call, check, modify. cbn. rewrite Hg. cbn.
  destruct (fSignaled_ g) eqn:Hs.
  - pose proof (read_law (kernel w) Hbu) as Hw. replace (pipe (kernel w)).1 with (afd0 g) in Hw by (by rewrite <- Hpipe).
    destruct (sys (kernel w) (sys_read (afd0 g) 4)) as [r k] eqn:E. destruct Hw as (Hret & Hp & Hb & Ho).
    rewrite bind_ok, Hret. cbn. apply returns_ok. cbn [snd].
    pose proof (inv_signaler w g false k (default (errno w) (err r)) Hi Hg Hp Ho Hb) as Hi'.
    pose proof (evolves_core _ _ _ (evolves_signaler (fun _ => False) w g false k (default (errno w) (err r)) Hg)) as He.
    by split.
  - cbn. apply returns_ok. by split.
Qed.

(** What ProcessEvents does for a dispatcher that select found ready or not. *)
Lemma deliver_returns w key o ff errcode :
  inv None w -> dispatcher_by_key_ w !! key = Some o ->
  returns (deliver key o ff errcode w) (fun x =>
    inv None x.2 /\ core w x.2 /\ deliveries (log x.2) = deliveries (log w) ++ [(key, o)] /\
    fWait_ x.2 = if decide (o = signal_wakeup_ w) then false else fWait_ w).
Proof.
  intros Hi Hk. pose proof Hi as (_ & Hobj & _ & _ & _ & Hgu & _).
  set (w1 := add_event w (Delivered key o ff errcode)). assert (inv None w1) as Hi1 by exact Hi.
  assert (core w w1) as Hc1 by (by repeat split).
  assert (deliveries (log w1) = deliveries (log w) ++ [(key, o)]) as Hd by (unfold w1, deliveries; cbn; by rewrite omap_app).
  unfold deliver. apply M_returns_bind with (P := fun x => x.2 = w1); [by apply returns_ok|].
  intros ? v Hv. cbn in Hv. subst v. apply M_returns_get. change (objects w1) with (objects w).
  destruct (objects w !! o) as [[x|g]|] eqn:Eo.
  - assert (is_sock w1 o) as Ho1 by (by exists x).
    eapply returns_weaken; [apply (OnEvent_keeps w1 o ff errcode); done|]. intros [u w2] (Hi2 & He2 & _). cbn [snd].
    split; [done|]. split; [by etrans; [|eapply evolves_core]|].
    destruct He2 as (_ & _ & _ & _ & _ & Hf & _ & _ & Hdel). split; [by etrans; [exact Hdel|]|].
    rewrite decide_False; [exact Hf|]. intros ->. destruct Hi as (_ & _ & _ & (g & Hg & _) & _). congruence.
  - pose proof (Hgu o g Eo) as Hw. subst o.
    eapply returns_weaken; [apply (Signaler_OnEvent_returns w1); done|]. intros [u w2] (Hi2 & Hc2 & Hf & Hl). cbn [snd] in *.
    split; [done|]. split; [by etrans|]. split; [by rewrite Hl|]. by rewrite decide_True.
  - destruct (Hobj _ _ Hk) as [d Hd']. congruence.
Qed.

(** The events made of what select found. *)
Definition ff_of (readable closed writable : bool) (errcode requested : Z) : Z :=
  let ff := if readable then
              (if (closed : bool) then DE_CLOSE else if has requested DE_ACCEPT then DE_ACCEPT else DE_READ)
            else 0 in
  let ff := if writable then
              if has requested DE_CONNECT then (if errcode =? 0 then Z.lor ff DE_CONNECT else ff)
              else Z.lor ff DE_WRITE
            else ff in
  if negb (errcode =? 0) then Z.lor ff DE_CLOSE else ff.

Lemma ff_of_found readable closed writable errcode requested :
  readable || writable = true -> (ff_of readable closed writable errcode requested =? 0) = false.
Proof.
  intros Hf. unfold ff_of. destruct readable, closed, writable; try done; destruct (errcode =? 0);
    destruct (has requested DE_CONNECT), (has requested DE_ACCEPT); reflexivity.
Qed.

Lemma registered_kind w key o :
  inv None w -> dispatcher_by_key_ w !! key = Some o ->
  (exists x, objects w !! o = Some (Sock x)) \/ (o = signal_wakeup_ w /\ exists g, objects w !! o = Some (Wake g)).
Proof.
  intros (_ & Hobj & _ & _ & _ & Hgu & _) Hk. destruct (Hobj _ _ Hk) as [[x|g] Ho]; [by left; exists x|].
  right. split; [by eapply Hgu|by exists g].
Qed.

(** Nothing but sockets and the system's state changes. *)
Definition settled (w w' : world K) : Prop :=
  inv None w' /\ core w w' /\ log w' = log w /\ fWait_ w' = fWait_ w /\
  dispatcher_by_key_ w' = dispatcher_by_key_ w /\ signal_wakeup_ w' = signal_wakeup_ w.

Lemma settled_refl w : inv None w -> settled w w.
Proof. intros Hi. split; [done|]. split; [reflexivity|]. by repeat split. Qed.

Lemma settled_trans a b c : settled a b -> settled b c -> settled a c.
Proof.
  intros (A1 & A2 & A3 & A4 & A5 & A6) (B1 & B2 & B3 & B4 & B5 & B6). split; [done|]. split; [by etrans|].
  repeat split; congruence.
Qed.

Lemma settled_only w o x w' : inv None w' -> evolves (fun _ => False) w w' -> only_sock o x w w' -> settled w w'.
Proof. intros Hi He (k & e & x' & -> & _). split; [done|]. split; [by eapply evolves_core|]. by repeat split. Qed.

Lemma error_code_returns w key o check_error :
  inv None w -> dispatcher_by_key_ w !! key = Some o ->
  returns (error_code o false check_error w) (fun x => settled w x.2).
Proof.
  intros Hi Hk. unfold error_code. destruct check_error; [|by apply returns_ok, settled_refl].
  apply M_returns_bind with (P := fun x => x.2 = w).
  { unfold GetDescriptor. apply M_returns_get.
    destruct (registered_kind w key o Hi Hk) as [[x ->]|[_ [g ->]]]; by apply returns_ok. }
  intros fd v Hv. cbn in Hv. subst v.
  destruct (call_keeps (fun _ => False) w None (sys_getsockopt fd SOL_SOCKET SO_ERROR) eq_refl Hi)
    as ([r w1] & E & Hi1 & He & (k & e & Hw1 & _)). cbn in Hi1, He, Hw1.
  apply M_returns_bind with (P := fun x => x.2 = w1); [by exists (r, w1)|]. intros ? v Hv. cbn in Hv. subst v.
  apply M_returns_get. apply returns_ok. cbn [snd]. subst w1. split; [done|]. split; [by eapply evolves_core|]. by repeat split.
Qed.

Lemma descriptor_closed_returns w key o :
  inv None w -> dispatcher_by_key_ w !! key = Some o -> returns (descriptor_closed o w) (fun x => settled w x.2).
Proof.
  intros Hi Hk. unfold descriptor_closed. apply M_returns_get.
  destruct (registered_kind w key o Hi Hk) as [[x Hx]|[_ [g Hg]]].
  - rewrite Hx. eapply returns_weaken; [by apply (on_sock_keeps (fun _ => False) _ None _ x); [apply IsDescriptorClosed_ok|..]|].
    intros [b w'] (Hi' & He & Ho). cbn in *. by eapply settled_only.
  - rewrite Hg. by apply returns_ok, settled_refl.
Qed.

Lemma ProcessEvents_returns w key o readable writable :
  inv None w -> dispatcher_by_key_ w !! key = Some o ->
  returns (ProcessEvents key o readable writable false (readable || writable) w) (fun x =>
    inv None x.2 /\ core w x.2 /\
    deliveries (log x.2) = deliveries (log w) ++ (if readable || writable then [(key, o)] else []) /\
    fWait_ x.2 = if (readable || writable) && bool_decide (o = signal_wakeup_ w) then false else fWait_ w).
Proof.
  intros Hi Hk. unfold ProcessEvents. cbn [andb negb].
  apply M_returns_bind with (P := fun x => x.2 = w); [by apply returns_ok|]. intros ? v Hv. cbn in Hv. subst v.
  apply M_returns_bind with (P := fun x => settled w x.2 /\ (readable || writable = false -> x.1 = 0)).
  { destruct (readable || writable) eqn:Ef.
    - eapply returns_weaken; [by apply (error_code_returns w key)|]. intros x Hx. split; [exact Hx|done].
    - apply returns_ok. split; [by apply settled_refl|done]. }
  intros errcode w1 [Hs1 He0]. cbn [fst snd] in *. pose proof Hs1 as (Hi1 & _ & _ & _ & Hk1 & _). rewrite <- Hk1 in Hk.
  apply M_returns_bind with (P := fun x => x.2 = w1).
  { unfold GetRequestedEvents. apply M_returns_get.
    destruct (registered_kind w1 key o Hi1 Hk) as [[x ->]|[_ [g ->]]]; by apply returns_ok. }
  intros requested v Hv. cbn in Hv. subst v.
  apply M_returns_bind with (P := fun x => settled w1 x.2 /\ exists closed : bool, x.1 =
    if readable then (if closed then DE_CLOSE else if has requested DE_ACCEPT then DE_ACCEPT else DE_READ) else 0).
  { destruct readable; [|apply returns_ok; split; [by apply settled_refl|by exists true]].
    apply M_returns_bind with (P := fun x => settled w1 x.2).
    - destruct (negb (errcode =? 0)); [by apply returns_ok, settled_refl|by apply (descriptor_closed_returns w1 key)].
    - intros closed w2 Hs2. apply returns_ok. split; [done|by exists closed]. }
  intros ff w2 [Hs2 [closed Hff]]. cbn in Hff. subst ff. cbn [snd] in Hs2.
  pose proof Hs2 as (Hi2 & _ & _ & _ & Hk2 & _). rewrite <- Hk2 in Hk.
  pose proof (settled_trans _ _ _ Hs1 Hs2) as (_ & Hc & Hl & Hf & _ & Hsw).
  change (returns ((if negb (ff_of readable closed writable errcode requested =? 0)
    then deliver key o (ff_of readable closed writable errcode requested) errcode else mret tt) w2) (fun x =>
    inv None x.2 /\ core w x.2 /\
    deliveries (log x.2) = deliveries (log w) ++ (if readable || writable then [(key, o)] else []) /\
    fWait_ x.2 = if (readable || writable) && bool_decide (o = signal_wakeup_ w) then false else fWait_ w)).
  destruct (readable || writable) eqn:Ef.
  - rewrite ff_of_found by done. cbn [negb].
    eapply returns_weaken; [by apply deliver_returns|]. intros [u w3] (Hi3 & Hc3 & Hd3 & Hf3). cbn [snd andb] in *.
    split; [done|]. split; [by etrans|]. split; [by rewrite Hd3, Hl|]. rewrite Hf3, Hf, Hsw.
    destruct (decide (o = signal_wakeup_ w)); [by rewrite bool_decide_true|by rewrite bool_decide_false].
  - apply orb_false_iff in Ef as [-> ->]. unfold ff_of. rewrite (He0 eq_refl). cbn. apply returns_ok. cbn [snd].
    split; [done|]. split; [done|]. split; [by rewrite app_nil_r, Hl|done].
Qed.

(** *** One select *)
Lemma fd_registered w key o :
  inv None w -> dispatcher_by_key_ w !! key = Some o -> 0 <= fd_of w o < FD_SETSIZE.
Proof.
  intros Hi Hk. pose proof Hi as (Hreg & _ & Hsock & (g' & Hg' & _ & Hr & _) & _). unfold fd_of.
  destruct (registered_kind w key o Hi Hk) as [[x Hx]|[-> [g Hg]]].
  - rewrite Hx. destruct (Hsock _ _ Hx) as (Y1 & Y2 & _). apply (proj1 Hreg) in Hk.
    destruct (decide (s_ x = INVALID_SOCKET)) as [Hv|Hv]; [rewrite Y2 in Hk by (by left); done|]. by apply Y1.
  - rewrite Hg. assert (g' = g) as -> by congruence. done.
Qed.

Lemma fd_inj w k1 k2 o1 o2 :
  inv None w -> dispatcher_by_key_ w !! k1 = Some o1 -> dispatcher_by_key_ w !! k2 = Some o2 ->
  fd_of w o1 = fd_of w o2 -> o1 = o2.
Proof.
  intros Hi H1 H2 He. pose proof Hi as (Hreg & _ & Hsock & (g' & Hg' & Hpipe & _) & _).
  assert (forall k o x, dispatcher_by_key_ w !! k = Some o -> objects w !! o = Some (Sock x) -> s_ x <> INVALID_SOCKET) as Hopen.
  { intros k o x Hk Hx Hv. destruct (Hsock _ _ Hx) as (_ & Y2 & _). apply (proj1 Hreg) in Hk.
    rewrite Y2 in Hk by (by left). done. }
  assert (forall k o x, dispatcher_by_key_ w !! k = Some o -> objects w !! o = Some (Sock x) -> s_ x <> afd0 g') as Hne.
  { intros k o x Hk Hx. destruct (Hsock _ _ Hx) as (Y1 & _ & _).
    destruct (Y1 ltac:(done) (Hopen _ _ _ Hk Hx)) as (_ & _ & Hp & _). by rewrite <- Hpipe in Hp. }
  unfold fd_of in He.
  destruct (registered_kind w k1 o1 Hi H1) as [[x1 Hx1]|[-> [g1 Hg1]]], (registered_kind w k2 o2 Hi H2) as [[x2 Hx2]|[-> [g2 Hg2]]];
    try done.
  - rewrite Hx1, Hx2 in He. destruct (Hsock _ _ Hx2) as (Y1 & _ & _).
    destruct (Y1 ltac:(done) (Hopen _ _ _ H2 Hx2)) as (_ & _ & _ & Hu & _). by apply (Hu o1 x1).
  - rewrite Hx1, Hg2 in He. assert (g2 = g') as -> by congruence. by destruct (Hne _ _ _ H1 Hx1).
  - rewrite Hx2, Hg1 in He. assert (g1 = g') as -> by congruence. by destruct (Hne _ _ _ H2 Hx2).
Qed.

Definition found (fd : Z) (reads writes : list Z) : Prop := fd ∈ reads \/ fd ∈ writes.

(** The dispatchers to which a list of events goes: in the order of the keys,
    each once, those that are still registered and whose descriptor was found
    ready; none that was not registered in [w]. *)
Definition delivered_right (w w' : world K) (keys reads writes : list Z) (new : list (Z * nat)) : Prop :=
  new.*1 `sublist_of` keys /\
  (forall k o, (k, o) ∈ new -> dispatcher_by_key_ w !! k = Some o /\ found (fd_of w o) reads writes) /\
  (forall k o, k ∈ keys -> dispatcher_by_key_ w' !! k = Some o -> found (fd_of w o) reads writes -> (k, o) ∈ new).

(** A descriptor is cleared from the sets before the next dispatcher's turn. *)
Lemma found_cleared x fd reads writes :
  found x (if bool_decide (fd ∈ reads) then FD_CLR fd reads else reads)
    (if bool_decide (fd ∈ writes) then FD_CLR fd writes else writes) <-> found x reads writes /\ x <> fd.
Proof.
  unfold found, FD_CLR. repeat case_bool_decide; rewrite ?list_elem_of_filter; naive_solver.
Qed.

Lemma GetDescriptor_found w o d : objects w !! o = Some d -> GetDescriptor o w = Ok (fd_of w o, w).
Proof. intros Ho. unfold GetDescriptor, fd_of, mbind, M_bind, get. cbn. rewrite Ho. by destruct d. Qed.

Lemma FD_ISSET_found w fd l : 0 <= fd < FD_SETSIZE -> FD_ISSET fd l w = Ok (bool_decide (fd ∈ l), w).
Proof.
  intros [H1 H2]. unfold FD_ISSET. by rewrite (proj2 (Z.leb_le _ _) H1), (proj2 (Z.ltb_lt _ _) H2).
Qed.

Lemma delivered_right_skip w w' key keys reads writes new :
  dispatcher_by_key_ w !! key = None -> key < next_dispatcher_key_ w -> core w w' ->
  delivered_right w w' keys reads writes new -> delivered_right w w' (key :: keys) reads writes new.
Proof.
  intros Eo Hlt (_ & Hc & _) (D1 & D2 & D3). split; [by apply sublist_cons|]. split; [done|].
  intros k o [->|Hin]%list.elem_of_cons Hk'; [|by apply D3]. apply Hc in Hk' as [Hk' _]; [congruence|done].
Qed.

Lemma delivered_right_cons w w1 w' key o keys reads writes new :
  inv None w -> dispatcher_by_key_ w !! key = Some o -> key ∉ keys ->
  Forall (fun k => k < next_dispatcher_key_ w) (key :: keys) -> core w w1 -> core w1 w' ->
  let r := bool_decide (fd_of w o ∈ reads) in let t := bool_decide (fd_of w o ∈ writes) in
  delivered_right w1 w' keys (if r then FD_CLR (fd_of w o) reads else reads)
    (if t then FD_CLR (fd_of w o) writes else writes) new ->
  delivered_right w w' (key :: keys) reads writes ((if r || t then [(key, o)] else []) ++ new).
Proof.
  intros Hi Eo Hkey Hlt Hc1 Hc2 r t (D1 & D2 & D3). pose proof (transitivity Hc1 Hc2) as Hc.
  destruct Hc1 as (Hn1 & Hc1 & _), Hc2 as (_ & Hc2 & _), Hc as (_ & Hc & _).
  inversion Hlt as [|? ? Hk Hlt']; subst. rewrite list.Forall_forall in Hlt'.
  assert (r || t = true <-> found (fd_of w o) reads writes) as Hrt.
  { unfold r, t, found. by rewrite orb_true_iff, !bool_decide_eq_true. }
  split; [|split].
  - destruct (r || t); [by apply sublist_skip|by apply sublist_cons].
  - intros k o' [Hh|Ht]%list.elem_of_app.
    + destruct (r || t) eqn:Ert; [|by apply not_elem_of_nil in Hh].
      apply list_elem_of_singleton in Hh as [= -> ->]. split; [done|by apply Hrt].
    + destruct (D2 _ _ Ht) as [Hw1 [Hf _]%found_cleared].
      assert (k ∈ keys) as Hin by (eapply sublist_subseteq; [exact D1|]; by apply (list_elem_of_fmap_2 fst _ (k, o'))).
      destruct (Hc1 k o' (Hlt' k Hin) Hw1) as [Hw Hfd]. split; [done|by rewrite <- Hfd].
  - intros k o' [->|Hin]%list.elem_of_cons Hk' Hf; apply list.elem_of_app.
    + destruct (Hc key o' Hk Hk') as [Hw _]. assert (o' = o) as -> by congruence. left.
      apply Hrt in Hf. rewrite Hf. by left.
    + right. destruct (Hc2 k o') as [Hw1 _]; [specialize (Hlt' k Hin); cbn in Hlt'; lia|done|].
      destruct (Hc1 k o' (Hlt' k Hin) Hw1) as [Hw Hfd]. apply D3; [done|done|]. rewrite Hfd. apply found_cleared.
      split; [done|]. intros He. apply (fd_inj w k key) in He; [|done..]. subst o'.
      destruct Hi as ((Hreg & _) & _). apply Hreg in Eo, Hw. congruence.
Qed.

Lemma flag_cons (a o : nat) (l : list nat) (f : bool) :
  (if bool_decide (a ∈ l) then false else if bool_decide (o = a) then false else f) =
  if bool_decide (a ∈ o :: l) then false else f.
Proof. repeat case_bool_decide; set_solver. Qed.

Lemma process_returns keys reads writes w :
  inv None w -> NoDup keys -> Forall (fun k => k < next_dispatcher_key_ w) keys ->
  returns (process keys reads writes w) (fun x => inv None x.2 /\ core w x.2 /\
    exists new, deliveries (log x.2) = deliveries (log w) ++ new /\ delivered_right w x.2 keys reads writes new /\
      fWait_ x.2 = if bool_decide (signal_wakeup_ w ∈ new.*2) then false else fWait_ w).
Proof.
  intros Hi Hnd. revert reads writes w Hi. induction Hnd as [|key keys Hkey Hnd IH]; intros reads writes w Hi Hlt.
  { apply returns_ok. split; [done|]. split; [reflexivity|]. exists []. split; [by rewrite app_nil_r|].
    split; [|done]. split; [done|]. split; [by intros ? ? ?%not_elem_of_nil|by intros ? ? ?%not_elem_of_nil]. }
  pose proof (Forall_inv Hlt) as Hk. pose proof (Forall_inv_tail Hlt) as Hlt'. cbn [process]. apply M_returns_get.
  destruct (dispatcher_by_key_ w !! key) as [o|] eqn:Eo.
  - pose proof Hi as (_ & Hobj & _). destruct (Hobj _ _ Eo) as [d Hd].
    pose proof (fd_registered w key o Hi Eo) as Hfd.
    rewrite (M_bind_ok _ _ w _ w (GetDescriptor_found w o d Hd)), !(M_bind_ok _ _ w _ w (FD_ISSET_found w _ _ Hfd)).
    set (r := bool_decide (fd_of w o ∈ reads)). set (t := bool_decide (fd_of w o ∈ writes)).
    eapply M_returns_bind; [by apply (ProcessEvents_returns w key o r t)|].
    cbn [fst snd]. intros ? w1 (Hi1 & Hc1 & Hd1 & Hf1).
    eapply returns_weaken; [apply IH; [done|]|].
    { eapply list.Forall_impl; [exact Hlt'|]. intros k Hk'. destruct Hc1 as [Hn _]. cbn in Hk'. lia. }
    intros [u w2] (Hi2 & Hc2 & new & Hd2 & D & Hf2). cbn [snd] in *. split; [done|]. split; [by etrans|].
    exists ((if r || t then [(key, o)] else []) ++ new). split; [by rewrite Hd2, Hd1, app_assoc|].
    split; [by eapply delivered_right_cons|]. rewrite Hf2, Hf1. destruct Hc1 as (_ & _ & -> & _).
    destruct (r || t); cbn [andb app fmap list_fmap snd]; [|done].
    apply flag_cons.
  - eapply returns_weaken; [by apply IH|]. intros x (Hi' & Hc & new & Hd & D & Hf). split; [done|].
    split; [done|]. exists new. split; [done|]. split; [by apply delivered_right_skip|done].
Qed.
(** What select is asked: the dispatchers, and their descriptors. *)
Definition selected (w : world K) (process_io : bool) : list (Z * nat) :=
  base.filter (fun x => process_io = true \/ x.2 = signal_wakeup_ w) (order (dispatcher_by_key_ w)).

Definition requested (w : world K) (o : nat) : Z :=
  match objects w !! o with Some (Sock x) => enabled_events_ x | Some (Wake _) => DE_READ | None => 0 end.

Definition asked (w : world K) (events : Z) (l : list (Z * nat)) : list Z :=
  fd_of w <$> base.filter (fun o => has (requested w o) events = true) l.*2.

Definition highest (w : world K) (fdmax : Z) (l : list (Z * nat)) : Z :=
  fold_left (fun m x => if m <? fd_of w x.2 then fd_of w x.2 else m) l fdmax.

Hypothesis order_ok : forall m, order m ≡ₚ map_to_list m.

Lemma in_order m k o : (k, o) ∈ order m <-> m !! k = Some o.
Proof. by rewrite order_ok, elem_of_map_to_list. Qed.

Lemma GetRequestedEvents_found w o d : objects w !! o = Some d -> GetRequestedEvents o w = Ok (requested w o, w).
Proof. intros Ho. unfold GetRequestedEvents, requested, mbind, M_bind, get. cbn. rewrite Ho. by destruct d. Qed.

Definition READS : Z := Z.lor DE_READ DE_ACCEPT.
Definition WRITES : Z := Z.lor DE_WRITE DE_CONNECT.

Lemma asked_cons w events k o l :
  asked w events ((k, o) :: l) = (if has (requested w o) events then [fd_of w o] else []) ++ asked w events l.
Proof.
  unfold asked. cbn [fmap list_fmap snd]. destruct (has (requested w o) events) eqn:E.
  - by rewrite filter_cons_True.
  - by rewrite filter_cons_False by congruence.
Qed.

Lemma ask_step w process_io key o l keys fdmax reads writes :
  inv None w -> dispatcher_by_key_ w !! key = Some o -> process_io = true \/ o = signal_wakeup_ w ->
  collect process_io ((key, o) :: l) keys fdmax reads writes w =
  collect process_io l (keys ++ [key]) (if fdmax <? fd_of w o then fd_of w o else fdmax)
    (reads ++ if has (requested w o) READS then [fd_of w o] else [])
    (writes ++ if has (requested w o) WRITES then [fd_of w o] else []) w.
Proof.
  intros Hi Hk Hsel. pose proof Hi as (_ & Hobj & _). destruct (Hobj _ _ Hk) as [d Hd].
  pose proof (fd_registered w key o Hi Hk) as [H1 H2]. cbn [collect]. rewrite (M_bind_ok get _ w w w eq_refl).
  replace (negb process_io && negb (bool_decide (o = signal_wakeup_ w))) with false.
  2:{ destruct Hsel as [->| ->]; [done|]. by rewrite bool_decide_true, andb_false_r. }
  rewrite (M_bind_ok _ _ w _ w (GetDescriptor_found w o d Hd)), (proj2 (Z.ltb_lt _ _) H2), (M_bind_ok _ _ w tt w eq_refl).
  rewrite (M_bind_ok _ _ w _ w (GetRequestedEvents_found w o d Hd)), (proj2 (Z.leb_le _ _) H1), orb_true_r.
  cbv zeta. rewrite (M_bind_ok _ _ w tt w eq_refl). fold READS WRITES.
  by destruct (has _ READS), (has _ WRITES); rewrite ?app_nil_r.
Qed.

Lemma collect_returns w process_io l keys fdmax reads writes :
  inv None w -> (forall k o, (k, o) ∈ l -> dispatcher_by_key_ w !! k = Some o) ->
  let s := base.filter (fun x => process_io = true \/ x.2 = signal_wakeup_ w) l in
  collect process_io l keys fdmax reads writes w =
    Ok (keys ++ s.*1, highest w fdmax s, reads ++ asked w READS s, writes ++ asked w WRITES s, w).
Proof.
  intros Hi. revert keys fdmax reads writes. induction l as [|[key o] l IH]; intros keys fdmax reads writes Hl.
  { cbn. by rewrite !app_nil_r. }
  assert (forall k o, (k, o) ∈ l -> dispatcher_by_key_ w !! k = Some o) as Hl' by (intros k o' Hin; apply Hl; by right).
  cbv zeta. destruct (decide (process_io = true \/ o = signal_wakeup_ w)) as [Hs|Hs].
  - rewrite filter_cons_True by done. rewrite (ask_step w process_io key o) by (try done; apply Hl; by left).
    rewrite (IH _ _ _ _ Hl'), !asked_cons. cbn [fmap list_fmap fst highest fold_left snd]. by rewrite <- !app_assoc.
  - rewrite filter_cons_False by done. cbn [collect]. rewrite (M_bind_ok get _ w w w eq_refl).
    replace (negb process_io && negb (bool_decide (o = signal_wakeup_ w))) with true; [by apply IH|].
    destruct process_io; [naive_solver|]. rewrite bool_decide_false; [done|naive_solver].
Qed.

Lemma selected_keys w process_io :
  inv None w -> NoDup (selected w process_io).*1 /\ Forall (fun k => k < next_dispatcher_key_ w) (selected w process_io).*1.
Proof.
  intros ((_ & Hreg) & _). split.
  - eapply sublist_NoDup; [|apply fmap_sublist, sublist_filter]. rewrite order_ok. apply NoDup_fst_map_to_list.
  - apply list.Forall_forall. intros k ([k' o] & -> & Hin)%list_elem_of_fmap. apply list_elem_of_filter in Hin as [_ Hin].
    apply in_order in Hin. by eapply Hreg.
Qed.
(** The state when select is called: the keys are those selected, and another
    thread may have woken the server up. *)
Definition before_select (w : world K) (process_io : bool) : M K unit :=
  _ ← modify (fun w => set_keys w (selected w process_io).*1); if awaken (log w) then WakeUp else mret tt.

Definition select_call (w : world K) (process_io : bool) (timeout : option Z) : syscall :=
  let s := selected w process_io in
  sys_select (highest w (-1) s + 1) (asked w READS s) (asked w WRITES s) timeout.

Lemma select_round_parts w process_io timeout :
  inv None w ->
  select_round process_io timeout w =
  (_ ← before_select w process_io; r ← call (select_call w process_io timeout);
   after_select (selected w process_io).*1 r) w.
Proof.
  intros Hi. unfold select_round. rewrite (M_bind_ok get _ w w w eq_refl).
  rewrite (M_bind_ok _ _ w _ w (collect_returns w process_io (order (dispatcher_by_key_ w)) [] (-1) [] [] Hi (fun k o => proj1 (in_order _ k o)))).
  cbn [app]. unfold before_select. rewrite (M_bind_ok _ _ w tt (set_keys w (selected w process_io).*1) eq_refl).
  unfold mbind, M_bind, modify. rewrite !bind_ok. cbn [log set_keys]. by destruct (awaken (log w)).
Qed.

Lemma before_select_keeps w process_io :
  inv None w ->
  keeps (fun _ => False) w None (before_select w process_io) (fun _ w' => awaken (log w) = true \/ signalled w -> signalled w').
Proof.
  intros Hi. unfold before_select. set (w1 := set_keys w (selected w process_io).*1).
  eapply keeps_bind with (Q := fun _ w' => w' = w1); [by apply returns_ok|].
  intros ? w' Hi' _ ->. destruct (awaken (log w)).
  - eapply (keeps_weaken (fun _ => False)); [by apply WakeUp_keeps|auto|]. by intros [] w' _ Hs _.
  - apply keeps_ret; [done|]. by intros [?|Hs].
Qed.

Lemma after_select_returns w1 w keys r :
  inv None w -> inv None w1 -> core w w1 -> NoDup keys -> Forall (fun k => k < next_dispatcher_key_ w) keys ->
  deliveries (log w1) = deliveries (log w) ->
  returns (after_select keys r w1) (fun x => inv None x.2 /\ core w x.2 /\
    (x.1 = None -> ret r < 0 /\ errno w1 = EINTR /\ x.2 = w1 \/ 0 < ret r) /\
    exists new, deliveries (log x.2) = deliveries (log w) ++ new /\
      if 0 <? ret r then delivered_right w x.2 keys (r_reads r) (r_writes r) new /\
        fWait_ x.2 = if bool_decide (signal_wakeup_ w ∈ new.*2) then false else fWait_ w1
      else new = []).
Proof.
  intros Hi Hi1 Hc Hnd Hlt Hd. unfold after_select. destruct (Z.ltb_spec (ret r) 0).
  { apply returns_ok. cbn [fst snd]. split; [done|]. split; [done|]. split.
    - intros Hn. left. split; [done|]. split; [|done]. destruct (Z.eqb_spec (errno w1) EINTR); [done|by cbn in Hn].
    - exists []. rewrite (proj2 (Z.ltb_ge 0 _)) by lia. by rewrite app_nil_r. }
  destruct (Z.eqb_spec (ret r) 0).
  { apply returns_ok. cbn [fst snd]. split; [done|]. split; [done|]. split; [done|].
    exists []. rewrite (proj2 (Z.ltb_ge 0 _)) by lia. by rewrite app_nil_r. }
  rewrite (proj2 (Z.ltb_lt 0 _)) by lia. pose proof Hc as (Hn & Hold & Hw & _).
  eapply M_returns_bind; [apply (process_returns keys (r_reads r) (r_writes r) w1 Hi1 Hnd)|].
  { eapply list.Forall_impl; [exact Hlt|]. intros k Hk. cbn in Hk. lia. }
  intros u w2 (Hi2 & Hc2 & new & Hd2 & (D1 & D2 & D3) & Hf). cbn [snd] in *. apply returns_ok. cbn [fst snd].
  split; [done|]. split; [by etrans|]. split; [intros _; right; lia|]. exists new. split; [by rewrite Hd2, Hd|].
  split; [|by rewrite Hf, Hw]. rewrite list.Forall_forall in Hlt. split; [done|]. split.
  - intros k o Hin. destruct (D2 _ _ Hin) as [Hk Hfound].
    assert (k ∈ keys) as Hkk by (eapply sublist_subseteq; [exact D1|]; by apply (list_elem_of_fmap_2 fst _ (k, o))).
    destruct (Hold k o (Hlt k Hkk) Hk) as [Hk0 Hfd]. split; [done|]. by rewrite <- Hfd.
  - intros k o Hkk Hk Hfound. apply D3; [done|done|]. destruct Hc2 as (_ & Hc2 & _). specialize (Hlt k Hkk). cbn in Hlt.
    destruct (Hc2 k o) as [Hk1 _]; [lia|done|]. by destruct (Hold k o Hlt Hk1) as [_ ->].
Qed.

Lemma call_select_keeps P w w1 process_io timeout :
  inv None w1 ->
  keeps P w1 None (call (select_call w process_io timeout)) (fun r w' =>
    r = (sys (kernel w1) (select_call w process_io timeout)).1 /\ objects w' = objects w1 /\
    (ret r < 0 -> err r = Some (errno w'))).
Proof.
  intros Hi. destruct (call_keeps P w1 None (select_call w process_io timeout) eq_refl Hi) as ([r w'] & E & Hi' & He & (k & e & Hw & Hk)).
  exists (r, w'). split; [exact E|]. split; [done|]. split; [done|]. cbn in Hw |- *. rewrite Hw. split; [by rewrite <- Hk|]. split; [done|].
  intros Hr. pose proof (failure_law (kernel w1) (select_call w process_io timeout)) as Hf. rewrite <- Hk in Hf.
  destruct (Hf Hr) as [v Hv]. cbn in Hv. unfold call in E. rewrite <- Hk in E. cbn in E. rewrite Hv in E |- *. cbn. subst w'.
  injection E as He'. by rewrite <- He'.
Qed.

(** One round: what select finds is delivered to the dispatchers it was asked
    about. *)
Lemma select_round_returns w process_io timeout :
  inv None w ->
  exists w1, before_select w process_io w = Ok (tt, w1) /\ (awaken (log w) = true \/ signalled w -> signalled w1) /\
  let r := (sys (kernel w1) (select_call w process_io timeout)).1 in
  returns (select_round process_io timeout w) (fun x => inv None x.2 /\ core w x.2 /\
    (x.1 = None -> (ret r < 0 /\ err r = Some EINTR /\ fWait_ x.2 = fWait_ w /\ (signalled w1 -> signalled x.2)) \/
       0 < ret r) /\
    exists new, deliveries (log x.2) = deliveries (log w) ++ new /\
      if 0 <? ret r then delivered_right w x.2 (selected w process_io).*1 (r_reads r) (r_writes r) new /\
        fWait_ x.2 = if bool_decide (signal_wakeup_ w ∈ new.*2) then false else fWait_ w
      else new = []).
Proof.
  intros Hi. rewrite select_round_parts by done. destruct (selected_keys w process_io Hi) as [Hnd Hlt].
  destruct (before_select_keeps w process_io Hi) as ([[] w1] & E1 & Hi1 & He1 & Hs1). cbn [fst snd] in *.
  exists w1. split; [exact E1|]. split; [exact Hs1|]. cbv zeta. rewrite (M_bind_ok _ _ _ _ _ E1).
  destruct (call_select_keeps (fun _ => False) w w1 process_io timeout Hi1) as ([r w2] & E2 & Hi2 & He2 & Hr & Hobj & Herr).
  cbn [fst snd] in *. rewrite (M_bind_ok _ _ _ _ _ E2). rewrite <- Hr. pose proof (transitivity He1 He2) as He.
  eapply returns_weaken.
  { apply (after_select_returns w2 w _ r Hi Hi2 (evolves_core _ _ _ He) Hnd Hlt). apply He. }
  intros [b w3] (Hi3 & Hc3 & Hnone & new & Hd & Hnew). cbn [fst snd] in *. split; [done|]. split; [done|]. split.
  - intros Hb. destruct (Hnone Hb) as [(Hneg & Hint & ->)|]; [left|by right]. split; [done|].
    split; [rewrite (Herr Hneg); congruence|]. destruct He as (_ & _ & _ & _ & _ & Ef & _). split; [exact Ef|].
    destruct He2 as (_ & _ & _ & _ & Ew & _). intros (g & Hg & Hs). exists g. by rewrite Hobj, Ew.
  - exists new. split; [done|]. destruct (0 <? ret r); [|done]. destruct Hnew as [? ->]. split; [done|].
    destruct He as (_ & _ & _ & _ & _ & -> & _). done.
Qed.
(** *** Waiting *)
Lemma quiet_call_returns w c : quiet c = true -> inv None w ->
  returns (call c w) (fun x => inv None x.2 /\ evolves (fun _ => False) w x.2 /\ objects x.2 = objects w /\ log x.2 = log w).
Proof.
  intros Hq Hi. destruct (call_keeps (fun _ => False) w None c Hq Hi) as ([r w'] & E & Hi' & He & (k & e & Hw & _)).
  exists (r, w'). split; [exact E|]. split; [done|]. split; [done|]. cbn in *. by subst w'.
Qed.

Lemma time_left_returns w stop_us : inv None w -> returns (time_left stop_us w) (fun x => inv None x.2 /\ fWait_ x.2 = fWait_ w).
Proof.
  intros Hi. unfold time_left. destruct stop_us as [stop|]; [|by apply returns_ok].
  eapply M_returns_bind; [by apply (quiet_call_returns w sys_time)|]. intros r w' (Hi' & He & _). apply returns_ok.
  split; [done|]. apply He.
Qed.

Lemma select_loop_returns rounds process_io timeout stop_us w :
  inv None w -> returns (select_loop rounds process_io timeout stop_us w) (fun x => inv None x.2).
Proof.
  revert timeout w. induction rounds as [|n IH]; intros timeout w Hi; cbn [select_loop]; apply M_returns_get;
    (destruct (fWait_ w); [|by apply returns_ok]); [by apply returns_ok|].
  destruct (select_round_returns w process_io timeout Hi) as (w1 & _ & _ & Hround).
  eapply M_returns_bind; [exact Hround|]. intros [b|] w2 (Hi2 & _); [by apply returns_ok|].
  eapply M_returns_bind; [by apply time_left_returns|]. intros t w3 [Hi3 _]. by apply IH.
Qed.

Definition begin_wait (cmsWait : Z) : M K (option Z) :=
  stop_us ← (if cmsWait =? kForever then mret None
             else r ← call sys_time; mret (Some (r_value r + i32 (cmsWait * 1000))));
  _ ← modify (fun w => set_fWait w true); mret stop_us.

Lemma WaitSelect_parts rounds cmsWait process_io w :
  WaitSelect rounds cmsWait process_io w =
  (stop_us ← begin_wait cmsWait;
   select_loop rounds process_io (if cmsWait =? kForever then None else Some (cmsWait * 1000)) stop_us) w.
Proof.
  unfold WaitSelect, begin_wait, mbind, M_bind. destruct (_ =? _).
  - done.
  - by destruct (call sys_time w) as [[r w1]|].
Qed.

Lemma begin_wait_returns cmsWait w :
  inv None w -> returns (begin_wait cmsWait w) (fun x => inv None x.2 /\ fWait_ x.2 = true /\
    log x.2 = log w /\ (signalled w -> signalled x.2)).
Proof.
  intros Hi. unfold begin_wait.
  apply M_returns_bind with (P := fun x => inv None x.2 /\ log x.2 = log w /\ (signalled w -> signalled x.2)).
  - destruct (_ =? _); [by apply returns_ok|]. eapply M_returns_bind; [by apply (quiet_call_returns w sys_time)|].
    intros r w' (Hi' & (_ & _ & _ & _ & Hw & _) & Ho & Hl). cbn [snd] in *. apply returns_ok. cbn [snd]. split; [done|].
    split; [done|]. intros (g & Hg & Hs). exists g. by rewrite Ho, Hw.
  - intros t w1 (Hi1 & Hl & Hs). apply returns_ok. by split.
Qed.

Lemma Wait_returns rounds cmsWait process_io w :
  inv None w -> waiting_ w = false -> returns (Wait rounds cmsWait process_io w) (fun x => inv None x.2).
Proof.
  intros Hi Hw. unfold Wait. apply M_returns_get. rewrite Hw. cbn [negb check].
  rewrite (M_bind_ok _ _ w tt w eq_refl), (M_bind_ok _ _ w tt (set_waiting w true) eq_refl).
  apply M_returns_bind with (P := fun x => inv None x.2).
  - rewrite WaitSelect_parts. eapply M_returns_bind; [by apply begin_wait_returns|]. intros t w1 (Hi1 & _).
    by apply select_loop_returns.
  - intros b w1 Hi1. by apply returns_ok.
Qed.

(** *** The server's steps *)
Definition small_step (x : step) : Prop := match x with Do a => small_action a | _ => True end.

Lemma perform_returns w x : inv None w -> small_step x -> returns (perform x w) (fun r => inv None r.2).
Proof.
  intros Hi Hx. destruct x as [a|r ret_ result|rounds ms io]; cbn [perform].
  - eapply returns_weaken; [apply (do_action_keeps (fun _ => False)); [done|done|auto]|]. by intros r [? _].
  - unfold resolved. apply M_returns_get. destruct (resolvers w !! r) as [y|]; [|by apply returns_ok].
    destruct (ResolveHostname _ ret_ result) as [error addresses]. by apply ResolveDone_returns.
  - apply M_returns_get. destruct (waiting_ w) eqn:Ew; [by apply returns_ok|].
    eapply M_returns_bind; [by apply Wait_returns|]. intros. by apply returns_ok.
Qed.

Lemma performs_returns l w : inv None w -> Forall small_step l -> returns (performs l w) (fun r => inv None r.2).
Proof.
  intros Hi Hl. revert w Hi. induction Hl as [|x l Hx Hl IH]; intros w Hi; [by apply returns_ok|]. cbn [performs].
  eapply M_returns_bind; [by apply perform_returns|]. intros ? w' Hi'. by apply IH.
Qed.

Lemma start_server_returns k :
  0 <= ret (sys k sys_pipe).1 -> returns (start_server (new_server k)) (fun r => inv None r.2).
Proof.
  intros Hp. pose proof (new_pipe_law k) as Hlaw. unfold start_server, mbind, M_bind, call. cbn [kernel new_server].
  destruct (sys k sys_pipe) as [r k'] eqn:E. cbn [fst] in Hp. destruct (Hlaw Hp) as (Ha & Hr & Hb & Ho).
  rewrite bind_ok, (proj2 (Z.ltb_ge _ _)), Hr by done. cbn. apply returns_ok. cbn [snd].
  split; [|split; [|split; [|split; [|split; [|split; [|split]]]]]].
  - split; [|intros k1 o1; cbn; rewrite lookup_insert_Some, lookup_empty; naive_solver lia].
    intros k1 o1. cbn. rewrite !lookup_insert_Some, !lookup_empty. naive_solver.
  - intros k1 o1. cbn. rewrite lookup_insert_Some, lookup_empty. intros [[<- <-]|[_ ?]]; [|done]. by eexists.
  - intros o x Hx. unfold sock_at in Hx. cbn in Hx. rewrite lookup_insert_Some, lookup_empty in Hx. naive_solver.
  - exists (mkSignaler (pipe k').1 (pipe k').2 false). split; [reflexivity|]. unfold signaler_ok. cbn. split; [by destruct (pipe k')|]. split; [done|]. cbn. split; [rewrite Ho; set_solver|done].
  - done.
  - intros o g. cbn. rewrite lookup_insert_Some, lookup_empty. naive_solver.
  - intros o [x Hx]. cbn in *. rewrite lookup_insert_Some, lookup_empty in Hx. destruct Hx as [[<- _]|[_ ?]]; [lia|done].
  - intros o [x Hx]. cbn in *. by rewrite lookup_empty in Hx.
Qed.
(** *** Waking up *)
Lemma wakeup_registered w : inv None w -> dispatcher_by_key_ w !! 0 = Some (signal_wakeup_ w).
Proof. intros (Hreg & _ & _ & _ & Hk & _). by apply Hreg. Qed.

Lemma wakeup_selected w process_io : inv None w -> (0, signal_wakeup_ w) ∈ selected w process_io.
Proof.
  intros Hi. apply list_elem_of_filter. split; [by right|]. by apply in_order, wakeup_registered.
Qed.

Lemma wakeup_asked w process_io :
  inv None w -> fd_of w (signal_wakeup_ w) ∈ asked w READS (selected w process_io).
Proof.
  intros Hi. apply list_elem_of_fmap. exists (signal_wakeup_ w). split; [done|]. apply list_elem_of_filter. split.
  - destruct Hi as (_ & _ & _ & (g & Hg & _) & _). unfold requested. by rewrite Hg.
  - apply (list_elem_of_fmap_2 snd _ (0, signal_wakeup_ w)). by apply wakeup_selected.
Qed.

Lemma wakeup_pipe w : inv None w -> fd_of w (signal_wakeup_ w) = (pipe (kernel w)).1.
Proof. intros (_ & _ & _ & (g & Hg & <- & _) & _). unfold fd_of. by rewrite Hg. Qed.

Lemma wakeup_buffered w : inv None w -> signalled w -> (0 < buffered (kernel w))%nat.
Proof.
  intros (_ & _ & _ & (g & Hg & _ & _ & _ & ->) & _) (g' & Hg' & Hs). assert (g' = g) as -> by congruence.
  rewrite Hs. lia.
Qed.

(** Select is interrupted by a signal handler. *)
Definition interrupted (process_io : bool) (timeout : option Z) (w : world K) : bool :=
  match before_select w process_io w with
  | Ok (_, w1) =>
      let r := (sys (kernel w1) (select_call w process_io timeout)).1 in
      (ret r <? 0) && bool_decide (err r = Some EINTR)
  | Fail _ => false
  end.

(** It is in each of the first rounds. *)
Fixpoint keeps_interrupting (rounds : nat) (process_io : bool) (timeout stop_us : option Z) (w : world K) : bool :=
  match rounds with
  | O => true
  | S rounds =>
      interrupted process_io timeout w &&
      match (_ ← select_round process_io timeout; time_left stop_us) w with
      | Ok (timeout, w) => keeps_interrupting rounds process_io timeout stop_us w
      | Fail _ => false
      end
  end.

Definition wait_interrupted (rounds : nat) (cmsWait : Z) (process_io : bool) (w : world K) : bool :=
  match begin_wait cmsWait (set_waiting w true) with
  | Ok (stop_us, w) =>
      keeps_interrupting rounds process_io (if cmsWait =? kForever then None else Some (cmsWait * 1000)) stop_us w
  | Fail _ => false
  end.

(** A round with the server signalled ends the wait, or was interrupted, and
    then the server still is. *)
Lemma woken_round w process_io timeout :
  inv None w -> awaken (log w) = true \/ signalled w ->
  returns (select_round process_io timeout w) (fun x => inv None x.2 /\ (x.1 = None ->
    fWait_ x.2 = false \/ interrupted process_io timeout w = true /\ fWait_ x.2 = fWait_ w /\ signalled x.2)).
Proof.
  intros Hi Hwake. destruct (select_round_returns w process_io timeout Hi) as (w1 & E1 & Hs1 & Hround).
  destruct (before_select_keeps w process_io Hi) as ([u v1] & E1' & Hi1 & He1 & _). cbn [fst snd] in *.
  assert (v1 = w1) as -> by congruence. specialize (Hs1 Hwake). cbv zeta in Hround.
  destruct (select_law (kernel w1) (highest w (-1) (selected w process_io) + 1) (asked w READS (selected w process_io))
    (asked w WRITES (selected w process_io)) timeout) as (_ & _ & Hpipe).
  change (sys_select _ _ _ timeout) with (select_call w process_io timeout) in Hpipe.
  assert (fd_of w (signal_wakeup_ w) = (pipe (kernel w1)).1) as Hfd.
  { rewrite <- wakeup_pipe by done. pose proof He1 as (_ & _ & Hold & _ & -> & _). symmetry. apply (Hold 0).
    - pose proof Hi as ((_ & Hreg) & _). by apply (Hreg 0 (signal_wakeup_ w)), wakeup_registered.
    - pose proof (wakeup_registered w1 Hi1) as Hr. by destruct He1 as (_ & _ & _ & _ & <- & _). }
  destruct Hpipe as [Hne Hin]; [by apply wakeup_buffered|rewrite <- Hfd; by apply wakeup_asked|].
  eapply returns_weaken; [exact Hround|]. intros [b w2] (Hi2 & Hc2 & Hnone & new & _ & Hnew). cbn [fst snd] in *.
  split; [done|]. intros ->. destruct (Hnone eq_refl) as [(Hneg & Hint & Hf & Hs)|Hpos].
  { right. unfold interrupted. rewrite E1, (proj2 (Z.ltb_lt _ _) Hneg), bool_decide_true by done. auto. }
  left. rewrite (proj2 (Z.ltb_lt _ _) Hpos) in Hnew. destruct Hnew as [(_ & _ & Hall) ->].
  rewrite bool_decide_true; [done|]. apply (list_elem_of_fmap_2 snd _ (0, signal_wakeup_ w)), Hall.
  - apply (list_elem_of_fmap_2 fst _ (0, signal_wakeup_ w)). by apply wakeup_selected.
  - pose proof (wakeup_registered w2 Hi2) as Hr. by destruct Hc2 as (_ & _ & <- & _).
  - left. rewrite Hfd. by apply Hin.
Qed.

Lemma time_left_signalled stop_us w :
  inv None w -> signalled w -> returns (time_left stop_us w) (fun x => signalled x.2).
Proof.
  intros Hi (g & Hg & Hs). unfold time_left. destruct stop_us as [stop|]; [|by apply returns_ok; exists g].
  eapply M_returns_bind; [by apply (quiet_call_returns w sys_time)|].
  intros r w' (_ & (_ & _ & _ & _ & Ew & _) & Ho & _). cbn [snd] in *. apply returns_ok. cbn [snd].
  exists g. by rewrite Ho, Ew.
Qed.

Lemma woken_loop process_io stop_us rounds : forall timeout w,
  inv None w -> fWait_ w = true -> awaken (log w) = true \/ signalled w ->
  keeps_interrupting rounds process_io timeout stop_us w = false ->
  returns (select_loop rounds process_io timeout stop_us w) (fun x => is_Some x.1).
Proof.
  induction rounds as [|n IH]; intros timeout w Hi Hf Hwake Hk; [done|].
  cbn [select_loop]. apply M_returns_get. rewrite Hf. cbn [keeps_interrupting] in Hk.
  destruct (woken_round w process_io timeout Hi Hwake) as ([b w2] & E2 & Hi2 & Hnone). cbn [fst snd] in *.
  rewrite (M_bind_ok _ _ _ _ _ E2). destruct b as [b|]; [apply returns_ok; by eexists|].
  destruct (time_left_returns w2 stop_us Hi2) as ([t w3] & E3 & Hi3 & Hf3). cbn [fst snd] in *.
  rewrite (M_bind_ok _ _ _ _ _ E3). rewrite (M_bind_ok _ _ _ _ _ E2), E3 in Hk.
  destruct (Hnone eq_refl) as [Hf2|(Hint & Hf2 & Hs2)].
  - rewrite Hf2 in Hf3. destruct n; cbn [select_loop]; apply M_returns_get; rewrite Hf3; apply returns_ok; by eexists.
  - rewrite Hint in Hk. cbn [andb] in Hk. apply IH; [done|congruence|right|done].
    destruct (time_left_signalled stop_us w2 Hi2 Hs2) as (x & E & Hs). rewrite E3 in E. injection E as <-. exact Hs.
Qed.

Lemma woken_wait rounds cmsWait process_io w :
  inv None w -> waiting_ w = false -> awaken (log w) = true \/ signalled w ->
  wait_interrupted rounds cmsWait process_io w = false ->
  returns (Wait rounds cmsWait process_io w) (fun x => is_Some x.1 /\ waiting_ x.2 = false).
Proof.
  intros Hi Hw Hwake Hk. unfold Wait. apply M_returns_get. rewrite Hw. cbn [negb check].
  rewrite (M_bind_ok _ _ w tt w eq_refl), (M_bind_ok _ _ w tt (set_waiting w true) eq_refl).
  apply M_returns_bind with (P := fun x => is_Some x.1).
  - rewrite WaitSelect_parts. unfold wait_interrupted in Hk.
    destruct (begin_wait_returns cmsWait (set_waiting w true) Hi) as ([t w1] & E1 & Hi1 & Hf1 & Hl1 & Hs1).
    cbn [fst snd] in *. rewrite E1 in Hk. rewrite (M_bind_ok _ _ _ _ _ E1). apply woken_loop; try done.
    destruct Hwake as [Ha|Hs]; [left; by rewrite Hl1|right; by apply Hs1].
  - intros b w1 [v Hv]. cbn in Hv. subst b. apply returns_ok. cbn. split; [by eexists|done].
Qed.

(** *** The end of the server *)
Lemma only_wakeup_registered w k o :
  inv None w -> (forall p, ~ is_sock w p) -> dispatcher_by_key_ w !! k = Some o -> k = 0 /\ o = signal_wakeup_ w.
Proof.
  intros Hi Hno Hk. destruct (registered_kind w k o Hi Hk) as [Hs|[-> _]]; [by destruct (Hno o)|]. split; [|done].
  destruct Hi as (Hreg & _ & _ & _ & Hw & _). apply (proj1 Hreg) in Hk. congruence.
Qed.

Lemma destroy_server_returns w :
  inv None w -> (forall o, ~ is_sock w o) ->
  returns (destroy_server w) (fun x => objects x.2 = ∅ /\ dispatcher_by_key_ x.2 = ∅ /\ key_by_dispatcher_ x.2 = ∅).
Proof.
  intros Hi Hno. pose proof Hi as (Hreg & _ & _ & (g & Hg & _) & Hk & Hgu & _).
  assert (delete 0 (dispatcher_by_key_ w) = ∅) as E1.
  { apply map_empty. intros k. rewrite lookup_delete_None. destruct (dispatcher_by_key_ w !! k) as [o|] eqn:E; [left|by right].
    by destruct (only_wakeup_registered w k o Hi Hno E) as [-> _]. }
  assert (delete (signal_wakeup_ w) (key_by_dispatcher_ w) = ∅) as E2.
  { apply map_empty. intros o. rewrite lookup_delete_None. destruct (key_by_dispatcher_ w !! o) as [k|] eqn:E; [left|by right].
    apply (proj1 Hreg) in E. by destruct (only_wakeup_registered w k o Hi Hno E) as [_ ->]. }
  assert (delete (signal_wakeup_ w) (objects w) = ∅) as E3.
  { apply map_empty. intros o. rewrite lookup_delete_None. destruct (objects w !! o) as [[x|g']|] eqn:E; [|left|by right].
    - destruct (Hno o). by exists x.
    - by rewrite (Hgu o g'). }
  unfold destroy_server. apply M_returns_get. unfold get_signaler, Remove, call, check, modify, mbind, M_bind, get. cbn.
  rewrite Hg. cbn. rewrite Hk. cbn.
  destruct (sys (kernel w) (sys_close (afd0 g))) as [r k]. cbn. destruct (sys k (sys_close (afd1 g))) as [r' k']. cbn.
  rewrite !bool_decide_true by done. cbn. apply returns_ok. by split.
Qed.
(** *** What is promised

    A server with a pipe, after steps of the thread. *)
Definition run (k : K) (steps : list step) : res (unit * world K) :=
  (_ ← start_server; performs steps) (new_server k).

Definition reached (w : world K) : Prop :=
  exists k steps, 0 <= ret (sys k sys_pipe).1 /\ Forall small_step steps /\ run k steps = Ok (tt, w).

Lemma server_runs_returns k steps :
  0 <= ret (sys k sys_pipe).1 -> Forall small_step steps -> returns (run k steps) (fun r => inv None r.2).
Proof.
  intros Hp Hs. unfold run. eapply M_returns_bind; [by apply start_server_returns|]. intros ? w Hw. by apply performs_returns.
Qed.

Lemma reached_inv w : reached w -> inv None w.
Proof. intros (k & steps & Hp & Hs & Hrun). destruct (server_runs_returns k steps Hp Hs) as ([u w'] & E & Hi).
  rewrite Hrun in E. injection E as <- <-. exact Hi.
Qed.

(** The registry is exact: the sockets it names are the open ones, each by a
    key of its own and with a descriptor of its own, which is open. *)
Definition registry_exact (w : world K) : Prop :=
  (forall key o, dispatcher_by_key_ w !! key = Some o <-> key_by_dispatcher_ w !! o = Some key) /\
  (forall o x, objects w !! o = Some (Sock x) ->
     (s_ x <> INVALID_SOCKET <-> is_Some (key_by_dispatcher_ w !! o)) /\
     (s_ x <> INVALID_SOCKET -> s_ x ∈ opened (kernel w) /\ s_ x <> (pipe (kernel w)).1 /\
        forall o' x', objects w !! o' = Some (Sock x') -> s_ x' = s_ x -> o' = o)).

Lemma inv_exact w : inv None w -> registry_exact w.
Proof.
  intros ((Hreg & _) & _ & Hsock & _). split; [exact Hreg|]. intros o x Hx. destruct (Hsock _ _ Hx) as (Y1 & Y2 & _).
  split; [split|].
  - intros Hv. by apply Y1.
  - intros [key Hk] Hv. rewrite Y2 in Hk by (by left). done.
  - intros Hv. destruct (Y1 ltac:(done) Hv) as (_ & ? & ? & Hu & _). split; [done|]. split; [done|].
    intros o' x' Hx' He. by eapply Hu.
Qed.


(** C21. A round of the wait asks the system about the dispatchers registered
    then, and delivers what it found in the order of their keys, at most once
    to each: to no dispatcher but one that was registered under its key when
    select was called and whose descriptor was found ready, even if slots have
    closed sockets and new ones got their descriptors meanwhile, and to all of
    those that are still registered afterwards. *)
Theorem events_to_registered w process_io timeout :
  reached w ->
  exists w1, before_select w process_io w = Ok (tt, w1) /\
  let r := (sys (kernel w1) (select_call w process_io timeout)).1 in
  exists result w2 new, select_round process_io timeout w = Ok (result, w2) /\
    deliveries (log w2) = deliveries (log w) ++ new /\
    if 0 <? ret r then delivered_right w w2 (selected w process_io).*1 (r_reads r) (r_writes r) new else new = [].
Proof.
  intros Hr%reached_inv. destruct (select_round_returns w process_io timeout Hr) as (w1 & E1 & _ & Hround).
  exists w1. split; [exact E1|]. destruct Hround as ([b w2] & E2 & _ & _ & _ & new & Hd & Hnew). exists b, w2, new.
  split; [exact E2|]. split; [exact Hd|]. cbn [snd] in *. by destruct (0 <? _); [destruct Hnew|].
Qed.

(** C22. A wake-up is not lost: if the server has been signalled, before the wait
    or by another thread while it waits, then the wait returns after the first
    select that no signal handler interrupts, however long it may wait, and
    whether it processes I/O or not.  The slots called meanwhile do not delete
    the socket that calls them. *)
Theorem wakeup_not_lost w rounds cmsWait process_io :
  reached w -> waiting_ w = false -> awaken (log w) = true \/ signalled w ->
  wait_interrupted rounds cmsWait process_io w = false ->
  exists b w', Wait rounds cmsWait process_io w = Ok (Some b, w') /\ waiting_ w' = false.
Proof.
  intros Hr%reached_inv Hw Hwake Hk.
  destruct (woken_wait rounds cmsWait process_io w Hr Hw Hwake Hk) as ([o w'] & E & [b Hb] & Hw').
  cbn in Hb, Hw'. subst o. by exists b, w'.
Qed.

(** The server can end when its sockets are deleted: nothing is registered
    then. *)
Theorem server_ends w :
  reached w -> (forall o, ~ is_sock w o) -> exists w', destroy_server w = Ok (tt, w') /\ objects w' = ∅.
Proof.
  intros Hr%reached_inv Hno. destruct (destroy_server_returns w Hr Hno) as ([[] w'] & E & Ho & _). by exists w'.
Qed.
End Server.

(** ** A small system

    Descriptors are the lowest that are free, the pipe's are 3 and 4; sockets
    can always be written to, have nothing to read, and connect in a while.  The
    pipe gives a byte at a time, and the first selects are interrupted. *)
Record toy := mkToy { t_open : gset Z; t_pipe : Z * Z; t_buffered : nat; t_interrupts : nat }.

Definition fresh_fd (k : toy) : option Z := snd <$> list_find (fun fd => fd ∉ t_open k) (seqZ 0 1024).

Definition fails (e : Z) : reply := mkReply (-1) (Some e) [] SocketAddress.storage_other 0 [] [].
Definition gives (n : Z) : reply := mkReply n None [] SocketAddress.storage_other 0 [] [].

Definition toy_sys (k : toy) (c : syscall) : reply * toy :=
  match c with
  | sys_socket _ _ | sys_accept _ =>
      match fresh_fd k with
      | Some fd => (gives fd, mkToy ({[fd]} ∪ t_open k) (t_pipe k) (t_buffered k) (t_interrupts k))
      | None => (fails 24, k)
      end
  | sys_close fd => (gives 0, mkToy (t_open k ∖ {[fd]}) (t_pipe k) (t_buffered k) (t_interrupts k))
  | sys_pipe =>
      (mkReply 0 None [] SocketAddress.storage_other 0 [3; 4] [], mkToy ({[3; 4]} ∪ t_open k) (3, 4) 0 (t_interrupts k))
  | sys_write fd buf =>
      if fd =? (t_pipe k).2 then (gives (zlen buf), mkToy (t_open k) (t_pipe k) (t_buffered k + length buf) (t_interrupts k))
      else (gives (zlen buf), k)
  | sys_read fd _ =>
      if (fd =? (t_pipe k).1) && bool_decide (0 < t_buffered k)%nat
      then (gives 1, mkToy (t_open k) (t_pipe k) (t_buffered k - 1) (t_interrupts k))
      else (fails EAGAIN, k)
  | sys_select _ reads writes _ =>
      match t_interrupts k with
      | S n => (fails EINTR, mkToy (t_open k) (t_pipe k) (t_buffered k) n)
      | O =>
          let r := if bool_decide (0 < t_buffered k)%nat then base.filter (fun fd => fd = (t_pipe k).1) reads else [] in
          (mkReply (zlen r + zlen writes) None [] SocketAddress.storage_other 0 r writes, k)
      end
  | sys_send _ buf _ | sys_sendto _ buf _ _ _ => (gives (zlen buf), k)
  | sys_recv _ _ _ | sys_recvfrom _ _ => (fails EAGAIN, k)
  | sys_timestamp _ => (fails 2, k)
  | sys_connect _ _ _ => (fails EINPROGRESS, k)
  | sys_getsockopt _ _ opt =>
      (mkReply 0 None [] SocketAddress.storage_other (if opt =? SO_TYPE then SOCK_STREAM else 0) [] [], k)
  | sys_nonblock _ | sys_getsockname _ | sys_getpeername _ | sys_bind _ _ _ | sys_setsockopt _ _ _ _
  | sys_listen _ _ | sys_time => (gives 0, k)
  end.

Lemma fresh_fd_ok k fd : fresh_fd k = Some fd -> 0 <= fd < FD_SETSIZE /\ fd ∉ t_open k.
Proof.
  unfold fresh_fd. intros ([i fd'] & (Hl & Hn & _)%list_find_Some & ->)%fmap_Some. cbn [snd].
  split; [|done]. apply list_elem_of_lookup_2, elem_of_seqZ in Hl. unfold FD_SETSIZE. lia.
Qed.

Ltac toy_calls :=
  repeat match goal with
    | |- context [match fresh_fd ?k with _ => _ end] =>
        let E := fresh in destruct (fresh_fd k) eqn:E; [apply fresh_fd_ok in E as [? ?]|]
    | |- context [match t_interrupts ?k with _ => _ end] => destruct (t_interrupts k) eqn:?
    | |- context [if ?b then _ else _] => destruct b eqn:?
    end.

Lemma toy_failure k c : ret (toy_sys k c).1 < 0 -> is_Some (err (toy_sys k c).1).
Proof.
  destruct c; cbn; toy_calls; cbn; intros Hr; first [solve [eexists; reflexivity] | unfold zlen in Hr; lia].
Qed.

#[local] Instance toy_kernel : Kernel toy.
Proof.
  refine {| sys := toy_sys; patience := 1; pipe := t_pipe; buffered := t_buffered; opened := t_open |}.
  all: try done.
  - apply toy_failure.
  - intros k c Hc. destruct c; try done; cbn; toy_calls; cbn; auto.
  - intros k c Hc. destruct c; try done; cbn; toy_calls; cbn; try done.
    all: exfalso; match goal with H : (0 <=? _) = false |- _ => apply Z.leb_gt in H; cbn in H end; lia.
  - intros k c Hc. destruct c; try done; cbn; toy_calls; cbn; try done.
  - intros k Hb. cbn. rewrite Z.eqb_refl. cbn. by rewrite Hb.
  - intros k Hb. cbn. rewrite Z.eqb_refl, bool_decide_true by lia. cbn. by rewrite Hb.
  - intros k fd. cbn. toy_calls; cbn; done.
  - intros k n reads writes t. cbn. destruct (t_interrupts k); [|by split_and!; [set_solver|set_solver|]].
    cbn. split; [|split; [done|]].
    + case_bool_decide; [|set_solver]. by intros x [_ Hx]%list_elem_of_filter.
    + intros Hb Hin. rewrite bool_decide_true by done.
      assert ((t_pipe k).1 ∈ base.filter (fun fd => fd = (t_pipe k).1) reads) as Hf by (by apply list_elem_of_filter).
      split; [|done]. destruct (base.filter _ reads); [by apply not_elem_of_nil in Hf|]. rewrite zlen_cons.
      pose proof (zlen_nonneg l). pose proof (zlen_nonneg writes). lia.
Defined.

Definition toy_start : toy := mkToy {[0; 1; 2]} (-1, -1) 0 0.
Definition by_key (m : gmap Z nat) : list (Z * nat) := rev (map_to_list m).
Definition no_client (o : nat) (s : signal) (l : list event) : list action := [].
Definition asleep (l : list event) : bool := false.
Definition awake (l : list event) : bool := true.

(** The slot of the first socket deletes the second when it can write, and opens
    another. *)
Definition replaces (o : nat) (s : signal) (l : list event) : list action :=
  if bool_decide (o = 1%nat /\ s = WriteEvent) then [ADelete 2; ACreate IpAddress.AF_INET SOCK_STREAM] else [].

Definition udp : action := ACreate IpAddress.AF_INET SOCK_DGRAM.
Definition two : list step := [Do udp; Do udp].

Definition world_of {A} (r : res (A * world toy)) : world toy :=
  match r with Ok (_, w) => w | Fail _ => new_server toy_start end.


Lemma by_key_ok m : by_key m ≡ₚ map_to_list m.
Proof. symmetry. apply Permutation_rev. Qed.

Lemma no_client_ok o s l : Forall (fun a => small_action a /\ a <> ADelete o) (no_client o s l).
Proof. constructor. Qed.

Lemma replaces_ok o s l : Forall (fun a => small_action a /\ a <> ADelete o) (replaces o s l).
Proof. unfold replaces. case_bool_decide as Ho; [|by constructor]. destruct Ho as [-> _]. by repeat constructor. Qed.

Definition run_after {A} (l : list step) (f : world toy -> A) : A :=
  f (world_of (run by_key None asleep no_client toy_start l)).


(** Two sockets, which both can write. *)
Definition two_sockets : world toy := world_of (run by_key None asleep replaces toy_start two).

Lemma two_reached : reached by_key None asleep replaces two_sockets.
Proof. exists toy_start, two. split; [vm_compute; discriminate|]. split; [by repeat constructor|]. by vm_compute. Qed.

Lemma events_to_registered_witness :
  exists w1, before_select by_key asleep two_sockets true two_sockets = Ok (tt, w1) /\
  let r := (sys (kernel w1) (select_call by_key two_sockets true None)).1 in
  exists result w2 new, select_round by_key None asleep replaces true None two_sockets = Ok (result, w2) /\
    deliveries (log w2) = deliveries (log two_sockets) ++ new /\
    if 0 <? ret r
    then delivered_right two_sockets w2 (selected by_key two_sockets true).*1 (r_reads r) (r_writes r) new
    else new = [].
Proof. apply (events_to_registered by_key None asleep replaces replaces_ok by_key_ok two_sockets true None two_reached). Defined.

(** The slot of the first deletes the second and opens another, which gets its
    descriptor: the event found for that descriptor goes to neither. *)
Example descriptor_reused :
  (let w := two_sockets in (fd_of w 2, requested w 2)) = (6, Z.lor DE_READ DE_WRITE) /\
  let w := world_of (select_round by_key None asleep replaces true None two_sockets) in
  fd_of w 3 = 6 /\ deliveries (log w) = [(1, 1%nat)].
Proof. by vm_compute. Qed.

Definition started : world toy := world_of (run by_key None awake no_client toy_start []).

(** The first two selects are interrupted. *)
Definition toy_signals : toy := mkToy {[0; 1; 2]} (-1, -1) 0 2.
Definition disturbed : world toy := world_of (run by_key None awake no_client toy_signals []).

Example two_interruptions :
  wait_interrupted by_key None awake no_client 2 kForever false disturbed = true /\
  (fst <$> Wait by_key None awake no_client 2 kForever false disturbed) = Ok None.
Proof. by vm_compute. Qed.

Lemma wakeup_not_lost_witness :
  exists b w', Wait by_key None awake no_client 3 kForever false disturbed = Ok (Some b, w') /\ waiting_ w' = false.
Proof.
  apply (wakeup_not_lost by_key None awake no_client no_client_ok by_key_ok disturbed 3 kForever false).
  - exists toy_signals, []. split; [vm_compute; discriminate|]. split; [constructor|]. by vm_compute.
  - by vm_compute.
  - by left.
  - by vm_compute.
Defined.

(** A slot that deletes the socket whose signal calls it. *)
Definition deletes_sender (o : nat) (s : signal) (l : list event) : list action := [ADelete o].

Example deleted_by_its_slot :
  run by_key None asleep deletes_sender toy_start (two ++ [DoWait 3 100 true]) = Fail Dangling.
Proof. by vm_compute. Qed.

Lemma server_ends_witness : exists w', destroy_server started = Ok (tt, w') /\ objects w' = ∅.
Proof.
  apply (server_ends by_key None awake no_client no_client_ok by_key_ok started).
  - exists toy_start, []. split; [vm_compute; discriminate|]. split; [constructor|]. by vm_compute.
  - intros o [x Hx]. revert Hx. unfold sock_at. destruct (decide (o = 0%nat)) as [->|Hn]; [by vm_compute|].
    replace (objects started) with (<[0%nat := Wake (mkSignaler 3 4 false)]> (∅ : gmap nat dispatcher)) by by vm_compute.
    by rewrite lookup_insert_ne, lookup_empty.
Defined.

(** *** What the code does in corners *)

(** The error and the events of a socket. *)
Definition condition (o : nat) (w : world toy) : option (Z * ConnState * Z) :=
  match objects w !! o with Some (Sock x) => Some (error_ x, state_ x, enabled_events_ x) | _ => None end.

Definition tcp : action := ACreate IpAddress.AF_INET SOCK_STREAM.
Definition host : Address := SocketAddress.mkAddr [97; 46; 98] IpAddress.unspec 80 0 false.

(** Nothing to read.  The error is that of the system's, and the socket waits
    for more to come; but if a time stamp is asked for, the error is that of the
    ioctl, and the socket is no longer told when there is something to read. *)
Example nothing_to_read :
  run_after [Do tcp; Do (ARecv 1 10 false)] (condition 1) = Some (EWOULDBLOCK, CS_CLOSED, DE_READ) /\
  run_after [Do tcp; Do (ARecv 1 10 true)] (condition 1) = Some (2, CS_CLOSED, 0).
Proof. by vm_compute. Qed.

(** A socket that had a descriptor stops resolving when it is closed; one
    without goes on, stays as it was, and can not connect again. *)
Example closed_while_resolving :
  run_after [Do tcp; Do (AConnect 1 host); Do (AClose 1)] (fun w => (condition 1 w, size (resolvers w)))
    = (Some (0, CS_CLOSED, 0), 0%nat) /\
  run_after [Do tcp; Do (AClose 1); Do (AConnect 1 host); Do (AClose 1)] (fun w => (condition 1 w, size (resolvers w)))
    = (Some (0, CS_CONNECTING, 0), 1%nat) /\
  run_after [Do tcp; Do (AClose 1); Do (AConnect 1 host); Resolved 2 (-2) []; Do (AConnect 1 host)]
    (fun w => (condition 1 w, log w)) = (Some (EALREADY, CS_CONNECTING, 0), [Signalled 1 (CloseEvent (-2))]).
Proof. by vm_compute. Qed.

(** The resolver of such a socket outlives it. *)
Example resolver_leaks :
  run_after [Do tcp; Do (AClose 1); Do (AConnect 1 host); Do (ADelete 1); Resolved 2 0 []]
    (fun w => (objects w !! 1%nat, size (resolvers w))) = (None, 1%nat).
Proof. by vm_compute. Qed.

(** A wait of more than 2147483 milliseconds: the time it should end is in the
    past, and what is left after the first select is nothing. *)
Example long_wait :
  (let w := started in
   match begin_wait 2147484 w with
   | Ok (stop, w) => (stop, match time_left stop w with Ok (t, _) => t | Fail _ => None end)
   | Fail _ => (None, None)
   end) = (Some (-2147483296), Some 0).
Proof. by vm_compute. Qed.
(** A name with only an IPv6 address: the address of its resolver is the one
    that was not resolved, and connect is called with the length 0. *)
Definition resolved_address (result : list addrinfo) : option Address :=
  run_after [Do tcp; Do (AConnect 1 host)] (fun w =>
    let '(error, addresses) := ResolveHostname IpAddress.AF_UNSPEC 0 result in
    match (_ ← set_resolver 2 (mkResolver 1 host addresses error false false); address 2) w with
    | Ok (a, _) => Some a
    | Fail _ => None
    end).

Definition info6 : addrinfo :=
  mkAddrinfo IpAddress.AF_INET6 (Some (SocketAddress.storage_in6 (replicate 15 0 ++ [1]) 0 0)).
Definition info4 : addrinfo :=
  mkAddrinfo IpAddress.AF_INET (Some (SocketAddress.storage_in [127; 0; 0; 1] 0)).

Example only_ipv6 :
  resolved_address [info6] = Some host /\ (SocketAddress.ToSockAddrStorage host).1 = 0 /\
  resolved_address [info6; info4] = Some (SocketAddress.SetResolvedIP host (IpAddress.of_in_addr [127; 0; 0; 1])) /\
  resolved_address [] = Some SocketAddress.Clear.
Proof. by vm_compute. Qed.
