(* ===== verification/Helpers.v ===== *)
(** * rtc_base/helpers.{h,cc}: random strings and identifiers

    The generator is the class [RandomGenerator]: OpenSSL's [RAND_bytes] in
    the program, [TestRandomGenerator] in test mode.  [Generate] fills a buffer
    and may fail; when it does, the buffer stays uninitialised. *)
From S2P Require Import Prelude ByteOrder.
Local Open Scope Z_scope.

Class RandomGenerator (R : Type) := {
  Generate : R -> Z -> option bytes * R;
  Generate_length : forall r n bs r', 0 <= n -> Generate r n = (Some bs, r') ->
    zlen bs = n /\ wf_bytes bs;
}.

(** ** TestRandomGenerator *)

Definition GetRandom (seed_ : Z) : Z * Z :=
  let seed_ := i32 (seed_ * 214013 + 2531011) in
  (Z.land (Z.shiftr seed_ 16) 32767, seed_).

Fixpoint test_generate (seed_ : Z) (n : nat) : bytes * Z :=
  match n with
  | O => ([], seed_)
  | S n =>
      let '(v, seed_) := GetRandom seed_ in
      let '(bs, seed_) := test_generate seed_ n in
      (u8 v :: bs, seed_)
  end.

Lemma test_generate_length n : forall s bs s',
  test_generate s n = (bs, s') -> length bs = n /\ wf_bytes bs.
Proof.
  induction n as [|n IH]; intros s bs s'; cbn [test_generate]; [by intros [= <- <-]|].
  destruct (GetRandom s) as [v s1]. destruct (test_generate s1 n) as [bs1 s2] eqn:E.
  intros [= <- <-]. destruct (IH _ _ _ E) as [<- Hw]. split; [done|]. constructor; [apply u8_range|done].
Qed.

Definition test_Generate (r n : Z) : option bytes * Z :=
  let '(bs, s) := test_generate r (Z.to_nat n) in (Some bs, s).

Lemma test_Generate_length r n bs r' :
  0 <= n -> test_Generate r n = (Some bs, r') -> zlen bs = n /\ wf_bytes bs.
Proof.
  intros Hn. unfold test_Generate. destruct (test_generate r (Z.to_nat n)) as [b s] eqn:E.
  intros [= <- <-]. apply test_generate_length in E as [E Hw]. split; [|done]. unfold zlen. lia.
Qed.

#[export] Instance TestRandomGenerator : RandomGenerator Z := {|
  Generate := test_Generate;
  Generate_length := test_Generate_length;
|}.

(** ** Strings *)

Definition kBase64 : bytes := lit "ABCDEFGHIJKLMNOPQRSTUVWXYZabcdefghijklmnopqrstuvwxyz0123456789+/".
Definition kHex : bytes := lit "0123456789abcdef".
Definition kUuidDigit17 : bytes := lit "89ab".

(** [table[i]]. *)
Definition pick (table : bytes) (i : Z) : Z := default 0 (table !! Z.to_nat i).

Section Helpers.
Context {R : Type} `{RandomGenerator R}.

(** The result and [*str]. *)
Definition CreateRandomString_table (r : R) (len : Z) (table : bytes) : res (bool * bytes * R) :=
  let table_size := zlen table in
  _ ← require (negb (table_size =? 0)) DivByZero;
  if negb (Z.rem 256 table_size =? 0) then Ok (false, [], r)
  else
    match Generate r len with
    | (None, r) => Ok (false, [], r)
    | (Some bytes, r) => Ok (true, map (fun b => pick table (Z.rem b table_size)) bytes, r)
    end.

(** [CreateRandomString(len)]: the flag is dropped. *)
Definition CreateRandomString (r : R) (len : Z) : res (bytes * R) :=
  '(_, str, r) ← CreateRandomString_table r len kBase64; Ok (str, r).

(** [&data->at(0)] throws when [length] is 0. *)
Definition CreateRandomData (r : R) (length : Z) : res (bool * bytes * R) :=
  _ ← require (negb (length =? 0)) OutOfRange;
  match Generate r length with
  | (None, r) => Ok (false, replicate (Z.to_nat length) 0, r)
  | (Some bytes, r) => Ok (true, bytes, r)
  end.

Definition CreateRandomUuid (r : R) : res (bytes * R) :=
  let '(filled, r) := Generate r 31 in
  bytes ← from_opt Uninitialized filled;
  let hex i n := map (fun b => pick kHex (Z.rem b 16)) (take n (drop i bytes)) in
  b15 ← mem_get bytes 15;
  Ok (hex 0%nat 8%nat ++ [45] ++ hex 8%nat 4%nat ++ [45] ++ lit "4" ++ hex 12%nat 3%nat ++ [45]
      ++ [pick kUuidDigit17 (Z.rem b15 4)] ++ hex 16%nat 3%nat ++ [45] ++ hex 19%nat 12%nat, r).

Definition CreateRandomId (r : R) : res (Z * R) :=
  let '(filled, r) := Generate r 4 in
  bytes ← from_opt Uninitialized filled;
  Ok (le_load bytes, r).

Definition CreateRandomId64 (r : R) : res (Z * R) :=
  '(hi, r) ← CreateRandomId r; '(lo, r) ← CreateRandomId r;
  Ok (Z.lor (u64 (Z.shiftl hi 32)) lo, r).

Fixpoint CreateRandomNonZeroId (fuel : nat) (r : R) : res (Z * R) :=
  match fuel with
  | O => Fail OutOfFuel
  | S f => '(id, r) ← CreateRandomId r; if id =? 0 then CreateRandomNonZeroId f r else Ok (id, r)
  end.

(** ** Properties *)

Lemma pick_in table i : 0 <= i < zlen table -> pick table i ∈ table.
Proof.
  intros Hi. unfold pick. destruct (table !! Z.to_nat i) as [c|] eqn:E.
  - by apply list_elem_of_lookup_2 in E.
  - apply lookup_ge_None in E. unfold zlen in Hi. lia.
Qed.

Lemma picks_in table bs :
  0 < zlen table -> wf_bytes bs ->
  Forall (fun c => c ∈ table) (map (fun b => pick table (Z.rem b (zlen table))) bs).
Proof.
  intros Ht Hw. induction Hw as [|b bs Hb Hw IH]; [constructor|]. cbn. constructor; [|done].
  apply pick_in. unfold is_byte in Hb. rewrite Z.rem_mod_nonneg by lia. apply Z.mod_pos_bound. lia.
Qed.

(** A random string made of base-64 characters: of the length asked for, or
    empty when the generator failed. *)
Theorem CreateRandomString_spec (r : R) (len : Z) :
  0 <= len ->
  exists str r', CreateRandomString r len = Ok (str, r') /\ Forall (fun c => c ∈ kBase64) str /\
    (zlen str = len \/ (str = [] /\ fst (Generate r len) = None)).
Proof.
  intros Hl. unfold CreateRandomString, CreateRandomString_table.
  change (zlen kBase64) with 64. cbn [Z.eqb negb require mbind res_bind]. change (Z.rem 256 64) with 0.
  cbn [Z.eqb negb]. destruct (Generate r len) as [[bs|] r'] eqn:E; cbn [mbind res_bind].
  - destruct (Generate_length _ _ _ _ Hl E) as [Hz Hw]. eexists _, _. split; [done|].
    split; [by apply (picks_in kBase64)|]. left. unfold zlen in *. by rewrite length_map.
  - eexists _, _. split; [done|]. split; [constructor|]. by right.
Qed.

(** The shape of a version 4 UUID. *)
Definition uuid4 (s : bytes) : Prop :=
  exists a b c d e v, s = a ++ [45] ++ b ++ [45; 52] ++ c ++ [45; v] ++ d ++ [45] ++ e /\
    length a = 8%nat /\ length b = 4%nat /\ length c = 3%nat /\ length d = 3%nat /\ length e = 12%nat /\
    v ∈ kUuidDigit17 /\ Forall (fun x => x ∈ kHex) (a ++ b ++ c ++ d ++ e).

(** When the generator delivers, [CreateRandomUuid] returns the 36 characters of
    a version 4 UUID. *)
Theorem CreateRandomUuid_format (r r' : R) (s : bytes) :
  CreateRandomUuid r = Ok (s, r') -> uuid4 s.
Proof.
  unfold CreateRandomUuid. destruct (Generate r 31) as [[bs|] r1] eqn:E; [|done].
  cbn [from_opt mbind res_bind]. destruct (Generate_length r 31 _ _ ltac:(lia) E) as [Hz Hw].
  destruct (mem_get_ok bs 15 ltac:(lia)) as [b15 E15]. rewrite E15. cbn [mbind res_bind].
  intros [= <- <-].
  assert (Hlen : forall i n, (i + n <= 31)%nat ->
            length (map (fun b => pick kHex (Z.rem b 16)) (take n (drop i bs))) = n).
  { intros i n Hi. rewrite length_map, length_take, length_drop. unfold zlen in Hz. lia. }
  eexists _, _, _, _, _, _. split; [reflexivity|].
  do 5 (split; [apply Hlen; lia|]). split.
  - apply pick_in. pose proof (mem_get_wf _ _ _ Hw E15) as B. unfold is_byte in B.
    change (zlen kUuidDigit17) with 4. rewrite Z.rem_mod_nonneg by lia. apply Z.mod_pos_bound. lia.
  - assert (Hin : forall i n, Forall (fun x => x ∈ kHex)
              (map (fun b => pick kHex (Z.rem b 16)) (take n (drop i bs)))).
    { intros i n. apply (picks_in kHex); [done|]. by apply Forall_take, Forall_drop. }
    rewrite !Forall_app. split_and!; apply Hin.
Qed.
End Helpers.

Lemma CreateRandomString_spec_witness :
  exists str r', CreateRandomString 7 4 = Ok (str, r') /\ Forall (fun c => c ∈ kBase64) str /\
    (zlen str = 4 \/ (str = [] /\ fst (Generate 7 4) = None)).
Proof. apply (CreateRandomString_spec 7 4). lia. Defined.

Lemma CreateRandomUuid_format_witness :
  exists s r', CreateRandomUuid 7 = Ok (s, r') /\ uuid4 s.
Proof.
  eexists _, _. split; [reflexivity|].
  eapply (CreateRandomUuid_format 7). reflexivity.
Defined.
