(* ===== verification/Sdp.v ===== *)
(** * sdp/session_description.cpp, sdp/ice_candidate.cpp: SDP text

    Building the answer, printing a description and parsing one.  The order in
    which the [unordered_map] of a format's parameters is printed is the
    parameter [order]. *)
From S2P Require Import Prelude SdpTypes.
From S2P Require Crc SUtil SslFingerprint Helpers IpAddress SocketAddress Uvnet.
Local Open Scope Z_scope.

(** ** IceCandidate *)

Definition RTP : Z := 1.
Definition RTCP : Z := 2.
Definition ICE_TYPE_PREFERENCE_HOST : Z := 126.
Definition LOCAL_PORT_TYPE : bytes := lit "host".

Record IceCandidate := mkCandidate {
  component : Z; protocol : bytes; address : SocketAddress.SocketAddress; cand_port : Z;
  priority : Z; cand_username : bytes; cand_password : bytes; cand_type : bytes; foundation : bytes;
}.

Definition get_priority (address : SocketAddress.SocketAddress) (component : Z)
    (type_preference network_adapter_preference relay_preference : Z) : Z :=
  let addr_ref := IpAddress.IPAddressPrecedence (SocketAddress.ipaddr address) in
  let local_pref := Z.lor (Z.shiftl network_adapter_preference 8) addr_ref + relay_preference in
  u32 (Z.lor (Z.lor (u32 (Z.shiftl type_preference 24)) (u32 (Z.shiftl local_pref 8)))
         (u32 (256 - component))).

Definition crlf : bytes := [13; 10].

Definition k_media_proto_dtls_savpf : bytes := lit "UDP/TLS/RTP/SAVPF".
Definition k_media_proto_savpf : bytes := lit "RTP/SAVPF".

(** ** MediaContent: [AudioContentDesc] and [VideoContentDesc] *)

Record MediaContent := mkContent {
  type : MediaType;
  connection_info : bytes;
  fix_attr1 : bytes;
  rtpmaps : list CodecInfo;
  fmtps : list FormatParameter;
  use_dtls : bool;
  rtcp_mux : bool;
  direct : RtcDirection;
  ice : IceParameter;
  connection_role : bytes;
  cands : list IceCandidate;
  dtls : option DtlsParameter;
  content_ssrcs : list SsrcParameter;
  ssrc_groups : list SsrcGroup;
}.

(** [direct] has no initialiser; it is only read after it has been set. *)
Definition new_content (t : MediaType) : MediaContent :=
  mkContent t (lit "IN IP4 0.0.0.0") (lit "rtcp:9 IN IP4 0.0.0.0") [] [] true true Inactive
    (mkIce [] [] []) [] [] None [] [].

Definition mid (c : MediaContent) : bytes :=
  match type c with MEDIA_TYPE_AUDIO => lit "0" | MEDIA_TYPE_VIDEO => lit "1" end.

Definition content_name (c : MediaContent) : bytes :=
  match type c with MEDIA_TYPE_AUDIO => lit "audio" | MEDIA_TYPE_VIDEO => lit "video" end.

Section Sdp.
Context {IpAddr : Type} `{Uvnet.IpAddressOps IpAddr} `{IpAddress.NetOps}.
Context (order : gmap bytes bytes -> list (bytes * bytes)).

Definition compute_foundation (type protocol relay_protocol : bytes)
    (base : SocketAddress.SocketAddress) : bytes :=
  dec (Crc.ComputeCrc32 (type ++ SocketAddress.HostAsURIString base ++ protocol ++ relay_protocol)).

Definition new_candidate (ipstr : bytes) (port_ : Z) : res IceCandidate :=
  a ← SocketAddress.of_hostname ipstr port_;
  Ok (mkCandidate 0 (lit "udp") a port_ 0 [] [] [] []).

(** ** SessionDescription *)

Inductive SessionDescription := mkDescription {
  session : SessionSdp;
  media_contents : list MediaContent;
  video_sup : MediaCodecSupport;
  audio_sup : MediaCodecSupport;
  _fingerprint : option SslFingerprint.SSLFingerprint;
  _addr : option IpAddr;
  _peer_offer_sdp : option SessionDescription;
}.

Definition empty_support (name : bytes) : MediaCodecSupport := mkSupport name 0 false ∅.

Definition new_SessionDescription : SessionDescription :=
  mkDescription new_SessionSdp [] (empty_support (lit "video")) (empty_support (lit "audio")) None None None.

(** *** Printing *)

Definition add_media_direction (dir : RtcDirection) : bytes :=
  match dir with
  | RecvOnly => lit "a=recvonly" ++ crlf
  | SendRecv => lit "a=sendrecv" ++ crlf
  | SendOnly => lit "a=sendonly" ++ crlf
  | Inactive => lit "a=inactive" ++ crlf
  end.

Definition print_fmtp (f : FormatParameter) : bytes :=
  lit "a=fmtp:" ++ dec (codec_id f) ++ lit " "
  ++ SUtil.join (lit ";") (map (fun kv => fst kv ++ lit "=" ++ snd kv) (order (params f))) ++ crlf.

Definition print_fb (payload_type : Z) (fb : FeedbackParameter) : bytes :=
  lit "a=rtcp-fb:" ++ dec payload_type ++ lit " " ++ id fb
  ++ (if bool_decide (param fb = []) then crlf else lit " " ++ param fb ++ crlf).

Definition print_candidate (c : IceCandidate) : bytes :=
  lit "a=candidate:" ++ foundation c ++ lit " " ++ dec (component c) ++ lit " " ++ protocol c
  ++ lit " " ++ dec (priority c) ++ lit " " ++ SocketAddress.HostAsURIString (address c)
  ++ lit " " ++ dec (cand_port c) ++ lit " typ " ++ cand_type c ++ crlf.

Definition print_ssrc_group (g : SsrcGroup) : bytes :=
  lit "a=ssrc-group:" ++ semantic g ++ concat (map (fun s => lit " " ++ dec s) (ssrcs g)) ++ crlf.

Definition print_ssrc (s : SsrcParameter) : bytes :=
  lit "a=ssrc:" ++ dec (ssrc s) ++ lit " " ++ attri s
  ++ (if 0 <? zlen (value s) then lit ":" ++ value s else []) ++ crlf.

Definition print_fingerprint (fp : option SslFingerprint.SSLFingerprint) (c : MediaContent) : res bytes :=
  match fp with
  | Some fp =>
      if use_dtls c then
        text ← SslFingerprint.GetRfc4572Fingerprint fp;
        Ok (lit "a=fingerprint:" ++ SslFingerprint.algorithm fp ++ lit " " ++ text ++ crlf
            ++ lit "a=setup:" ++ connection_role c ++ crlf)
      else Ok []
  | None => Ok []
  end.

Definition add_media_content (fp : option SslFingerprint.SSLFingerprint) (c : MediaContent) : res bytes :=
  fingerprint ← print_fingerprint fp c;
  Ok (lit "m=" ++ content_name c ++ lit " 9 "
      ++ (if use_dtls c then k_media_proto_dtls_savpf else k_media_proto_savpf)
      ++ concat (map (fun r => lit " " ++ dec (payload_type r)) (rtpmaps c)) ++ crlf
      ++ lit "c=" ++ connection_info c ++ crlf
      ++ lit "a=" ++ fix_attr1 c ++ crlf
      ++ concat (map (fun r => lit "a=rtpmap:" ++ dec (payload_type r) ++ lit " " ++ desc r ++ crlf)
                   (rtpmaps c))
      ++ concat (map print_fmtp (fmtps c))
      ++ concat (map (fun r => concat (map (print_fb (payload_type r)) (fbs r))) (rtpmaps c))
      ++ (if rtcp_mux c then lit "a=rtcp-mux" ++ crlf else [])
      ++ lit "a=" ++ mode (ice c) ++ crlf
      ++ lit "a=ice-ufrag:" ++ ufrag (ice c) ++ crlf
      ++ lit "a=ice-pwd:" ++ passwd (ice c) ++ crlf
      ++ fingerprint
      ++ lit "a=mid:" ++ mid c ++ crlf
      ++ add_media_direction (direct c)
      ++ concat (map print_candidate (cands c))
      ++ concat (map print_ssrc_group (ssrc_groups c))
      ++ concat (map print_ssrc (content_ssrcs c))).

Definition print_session (s : SessionSdp) : bytes :=
  lit "v=" ++ version s ++ crlf
  ++ lit "o=" ++ username s ++ lit " " ++ session_id s ++ lit " " ++ session_version s
  ++ lit " " ++ nett_type s ++ lit " " ++ addr_type s ++ lit " " ++ uni_addr s ++ crlf
  ++ lit "s=" ++ session_name s ++ crlf
  ++ lit "t=" ++ ts s ++ crlf
  ++ attr s ++ crlf
  ++ lit "a=group:BUNDLE 0 1" ++ crlf.

Fixpoint add_media_contents (fp : option SslFingerprint.SSLFingerprint) (cs : list MediaContent)
    : res bytes :=
  match cs with
  | [] => Ok []
  | c :: cs => x ← add_media_content fp c; y ← add_media_contents fp cs; Ok (x ++ y)
  end.

Definition to_string (d : SessionDescription) : res bytes :=
  media ← add_media_contents (_fingerprint d) (media_contents d);
  Ok (print_session (session d) ++ media).

(** *** Building *)

Definition set_session (d : SessionDescription) (s : SessionSdp) : SessionDescription :=
  mkDescription s (media_contents d) (video_sup d) (audio_sup d) (_fingerprint d) (_addr d)
    (_peer_offer_sdp d).

Definition build (d sdp : SessionDescription) : SessionDescription :=
  let s := session d in
  set_session d (mkSessionSdp (version (session sdp)) (lit "-") (session_id (session sdp))
                   (session_version s) (nett_type s) (addr_type s) (lit "0.0.0.0") (session_name s)
                   (ts s) (attr s)).

Definition set_peer_sdp (d sdp : SessionDescription) : SessionDescription :=
  mkDescription (session d) (media_contents d) (video_sup d) (audio_sup d) (_fingerprint d) (_addr d)
    (Some sdp).

Definition get_media_content (d : SessionDescription) (mt : MediaType) : option MediaContent :=
  snd <$> list_find (fun c => type c = mt) (media_contents d).

Definition answer_direction (o : RTCOfferAnswerOptions) : RtcDirection :=
  let recv := recv_audio o || recv_video o in
  let send := send_audio o || send_video o in
  if recv && send then SendRecv
  else if send && negb recv then SendOnly
  else if negb send && recv then RecvOnly
  else Inactive.

Definition audio_rtpmaps : list CodecInfo :=
  [mkCodec 111 (lit "opus/48000/2") [mkFeedback (lit "transport-cc") []]].

Definition audio_fmtps : list FormatParameter :=
  [mkFormat 111 {[ lit "minptime" := lit "10"; lit "useinbandfec" := lit "1" ]}].

Definition video_rtpmaps : list CodecInfo :=
  [mkCodec 108 (lit "H264/90000")
     [mkFeedback (lit "goog-remb") []; mkFeedback (lit "nack") []; mkFeedback (lit "nack") (lit "pli")];
   mkCodec 109 (lit "rtx/90000") []].

Definition video_fmtps : list FormatParameter :=
  [mkFormat 108 {[ lit "level-asymmetry-allowed" := lit "1"; lit "packetization-mode" := lit "1";
                   lit "profile-level-id" := lit "42e01f" ]};
   mkFormat 109 {[ lit "apt" := lit "108" ]}].

Section Answer.
Context {R : Type} `{Helpers.RandomGenerator R}.
Context {C : Type} `{SslFingerprint.SSLCertificate C}.

Definition answer_candidate (addr : IpAddr) (ufrag passwd : bytes) : res IceCandidate :=
  cand ← new_candidate (Uvnet.getIp addr) (Uvnet.getPort addr);
  let a := address cand in
  Ok (mkCandidate RTP (lit "udp") a (cand_port cand) (get_priority a RTP ICE_TYPE_PREFERENCE_HOST 0 0)
        ufrag passwd LOCAL_PORT_TYPE (compute_foundation LOCAL_PORT_TYPE (lit "udp") [] a)).

Definition answer_content (o : RTCOfferAnswerOptions) (t : MediaType) (peer : option MediaContent)
    (ipa : IceParameter) (cand : IceCandidate) : MediaContent :=
  let d := new_content t in
  mkContent t (connection_info d) (fix_attr1 d)
    (match t with MEDIA_TYPE_AUDIO => audio_rtpmaps | MEDIA_TYPE_VIDEO => video_rtpmaps end)
    (match t with MEDIA_TYPE_AUDIO => audio_fmtps | MEDIA_TYPE_VIDEO => video_fmtps end)
    (use_dtls d) (rtcp_mux d) (answer_direction o) ipa (lit "passive") [cand] (dtls d)
    (match t, peer with
     | MEDIA_TYPE_AUDIO, Some p => if send_audio o then content_ssrcs p else []
     | MEDIA_TYPE_VIDEO, Some p => if send_video o then content_ssrcs p else []
     | _, None => []
     end)
    (match t, peer with
     | MEDIA_TYPE_VIDEO, Some p => if send_video o then ssrc_groups p else []
     | _, _ => []
     end).

Definition create_answer (d : SessionDescription) (r : R) (cert : C) (options : RTCOfferAnswerOptions)
    (addr : IpAddr) : res (SessionDescription * R) :=
  match SslFingerprint.CreateFromCertificate cert with
  | None =>
      Ok (mkDescription (session d) (media_contents d) (video_sup d) (audio_sup d) None (Some addr)
            (_peer_offer_sdp d), r)
  | Some fp =>
      '(ufrag, r) ← Helpers.CreateRandomString r 4;
      '(passwd, r) ← Helpers.CreateRandomString r 24;
      let ipa := mkIce (lit "ice-lite") ufrag passwd in
      cand ← answer_candidate addr ufrag passwd;
      let peer t := match _peer_offer_sdp d with Some p => get_media_content p t | None => None end in
      let audio := answer_content options MEDIA_TYPE_AUDIO (peer MEDIA_TYPE_AUDIO) ipa cand in
      let video := answer_content options MEDIA_TYPE_VIDEO (peer MEDIA_TYPE_VIDEO) ipa cand in
      Ok (mkDescription (session d) (media_contents d ++ [audio; video]) (video_sup d) (audio_sup d)
            (Some fp) (Some addr) (_peer_offer_sdp d), r)
  end.
End Answer.

(** *** Parsing *)

Definition index {A} (l : list A) (i : nat) : res A := from_opt OutOfBounds (l !! i).

Definition parse_version (d : SessionDescription) (sdp : bytes) : res (bool * SessionDescription) :=
  vecs ← SUtil.split sdp (lit "=");
  match vecs with
  | [_; v] =>
      let s := session d in
      Ok (true, set_session d (mkSessionSdp v (username s) (session_id s) (session_version s)
            (nett_type s) (addr_type s) (uni_addr s) (session_name s) (ts s) (attr s)))
  | _ => Ok (false, d)
  end.

Definition parse_origin (d : SessionDescription) (sdp : bytes) : res (bool * SessionDescription) :=
  vecs ← SUtil.split sdp (lit "=");
  match vecs with
  | [_; v] =>
      vecs2 ← SUtil.split v (lit " ");
      match vecs2 with
      | [u; i; _; _; _; _] =>
          let s := session d in
          Ok (true, set_session d (mkSessionSdp (version s) u i (session_version s)
                (nett_type s) (addr_type s) (uni_addr s) (session_name s) (ts s) (attr s)))
      | _ => Ok (false, d)
      end
  | _ => Ok (false, d)
  end.

Definition add_content (d : SessionDescription) (c : MediaContent) (v a : MediaCodecSupport)
    : SessionDescription :=
  mkDescription (session d) (media_contents d ++ [c]) v a (_fingerprint d) (_addr d) (_peer_offer_sdp d).

(** The pointer returned points to the last element of [media_contents]. *)
Definition parse_media (d : SessionDescription) (sdp : bytes) : res (bool * SessionDescription) :=
  vecs ← SUtil.split sdp (lit "=");
  match vecs with
  | [_; v] =>
      vecs2 ← SUtil.split v (lit " ");
      match vecs2 with
      | name :: port :: proto :: (_ :: _) as ids =>
          let codec_ids :=
            foldl (fun m i => <[atoi i := mkCodec (atoi i) [] []]> m) ∅ (drop 3 vecs2) in
          let sup dtls := mkSupport [] (atoi port) dtls codec_ids in
          let dtls := if bool_decide (proto = k_media_proto_dtls_savpf) then Some true
                      else if bool_decide (proto = k_media_proto_savpf) then Some false else None in
          match dtls with
          | None => Ok (false, d)
          | Some dtls =>
              if bool_decide (name = lit "video")
              then Ok (true, add_content d (new_content MEDIA_TYPE_VIDEO) (sup dtls) (audio_sup d))
              else if bool_decide (name = lit "audio")
              then Ok (true, add_content d (new_content MEDIA_TYPE_AUDIO) (video_sup d) (sup dtls))
              else Ok (false, d)
          end
      | _ => Ok (false, d)
      end
  | _ => Ok (false, d)
  end.

Definition set_desc (sup : MediaCodecSupport) (id : Z) (info : CodecInfo) (v : bytes) : MediaCodecSupport :=
  mkSupport (name sup) (port sup) (dtls_ sup)
    (<[id := mkCodec (payload_type info) v (fbs info)]> (codec_ids sup)).

Definition set_sups (d : SessionDescription) (v a : MediaCodecSupport) : SessionDescription :=
  mkDescription (session d) (media_contents d) v a (_fingerprint d) (_addr d) (_peer_offer_sdp d).

Definition parse_rtpmap (d : SessionDescription) (sdp : bytes) : res (bool * SessionDescription) :=
  vecs ← SUtil.split sdp (lit "=");
  match vecs with
  | [_; v] =>
      vecs2 ← SUtil.split v (lit " ");
      match vecs2 with
      | [head; codec] =>
          match find_from (lit ":") head 0 with
          | None => Ok (false, d)
          | Some pos =>
              sid ← substr_from head (pos + 1);
              let id := atoi sid in
              match codec_ids (video_sup d) !! id with
              | Some info => Ok (true, set_sups d (set_desc (video_sup d) id info codec) (audio_sup d))
              | None =>
                  match codec_ids (audio_sup d) !! id with
                  | Some info => Ok (true, set_sups d (video_sup d) (set_desc (audio_sup d) id info codec))
                  | None => Ok (true, d)
                  end
              end
          end
      | _ => Ok (false, d)
      end
  | _ => Ok (false, d)
  end.

(** The rest of a line after its first colon; [find] returning [npos] makes
    [pos + 1] zero. *)
Definition after_colon (sdp : bytes) : res bytes :=
  substr_from sdp (match find_from (lit ":") sdp 0 with Some pos => pos + 1 | None => 0 end).

Definition parse_dtls (c : MediaContent) (sdp : bytes) : res (bool * MediaContent) :=
  match find_from (lit ":") sdp 0 with
  | None => Ok (false, c)
  | Some pos =>
      param ← substr_from sdp (pos + 1);
      vecs ← SUtil.split param (lit " ");
      match vecs with
      | [alg; fp] =>
          Ok (true, mkContent (type c) (connection_info c) (fix_attr1 c) (rtpmaps c) (fmtps c)
                (use_dtls c) (rtcp_mux c) (direct c) (ice c) (connection_role c) (cands c)
                (Some (mkDtls alg fp None)) (content_ssrcs c) (ssrc_groups c))
      | _ => Ok (false, c)
      end
  end.

Definition set_identity_fp (c : MediaContent) : res MediaContent :=
  match dtls c with
  | None => Fail NullDeref
  | Some p =>
      fp ← SslFingerprint.CreateUniqueFromRfc4572 (alg p) (finger_print p);
      Ok (mkContent (type c) (connection_info c) (fix_attr1 c) (rtpmaps c) (fmtps c)
            (use_dtls c) (rtcp_mux c) (direct c) (ice c) (connection_role c) (cands c)
            (Some (mkDtls (alg p) (finger_print p) fp)) (content_ssrcs c) (ssrc_groups c))
  end.

(** [vecs.size() != 2] is tested twice, [vecs2.size()] never. *)
Definition parse_ssrcs (c : MediaContent) (sdp : bytes) : res (bool * MediaContent) :=
  s ← after_colon sdp;
  vecs ← SUtil.split s (lit ":");
  match vecs with
  | [v0; v1] =>
      vecs2 ← SUtil.split v0 (lit " ");
      attri ← index vecs2 1;
      n ← index vecs2 0;
      Ok (true, mkContent (type c) (connection_info c) (fix_attr1 c) (rtpmaps c) (fmtps c)
            (use_dtls c) (rtcp_mux c) (direct c) (ice c) (connection_role c) (cands c) (dtls c)
            (content_ssrcs c ++ [mkSsrc (u32 (atoll n)) attri v1]) (ssrc_groups c))
  | _ => Ok (false, c)
  end.

Definition parse_ssrc_groups (c : MediaContent) (sdp : bytes) : res (bool * MediaContent) :=
  s ← after_colon sdp;
  vecs ← SUtil.split s (lit " ");
  match vecs with
  | semantic :: (_ :: _) as ids =>
      Ok (true, mkContent (type c) (connection_info c) (fix_attr1 c) (rtpmaps c) (fmtps c)
            (use_dtls c) (rtcp_mux c) (direct c) (ice c) (connection_role c) (cands c) (dtls c)
            (content_ssrcs c)
            (ssrc_groups c ++ [mkSsrcGroup semantic (map (fun i => u32 (atoll i)) (drop 1 vecs))]))
  | _ => Ok (false, c)
  end.

(** A call on [ptr], the last content when it is not null. *)
Definition on_last (d : SessionDescription) (f : MediaContent -> res (bool * MediaContent))
    : res (bool * SessionDescription) :=
  c ← from_opt NullDeref (list.last (media_contents d));
  '(flag, c) ← f c;
  Ok (flag, mkDescription (session d) (removelast (media_contents d) ++ [c]) (video_sup d)
              (audio_sup d) (_fingerprint d) (_addr d) (_peer_offer_sdp d)).

(** One round of the loop: [flag], whether [ptr] is set, and the description. *)
Definition parse_line (flag ptr : bool) (d : SessionDescription) (line : bytes)
    : res (bool * bool * SessionDescription) :=
  if contains (lit "v=") line then '(f, d) ← parse_version d line; Ok (f, ptr, d)
  else if contains (lit "o=") line then '(f, d) ← parse_origin d line; Ok (f, ptr, d)
  else if contains (lit "m=") line then
    '(ok, d) ← parse_media d line; Ok (if (ok : bool) then flag else false, ok, d)
  else if contains (lit "a=rtpmap") line then '(f, d) ← parse_rtpmap d line; Ok (f, ptr, d)
  else if contains (lit "a=fingerprint:") line && ptr then
    '(f, d) ← on_last d (fun c =>
       '(f, c) ← parse_dtls c line;
       if (f : bool) then c ← set_identity_fp c; Ok (f, c) else Ok (f, c));
    Ok (f, ptr, d)
  else if contains (lit "a=ssrc:") line && ptr then
    '(f, d) ← on_last d (fun c => parse_ssrcs c line); Ok (f, ptr, d)
  else if contains (lit "a=ssrc-group:") line && ptr then
    '(f, d) ← on_last d (fun c => parse_ssrc_groups c line); Ok (f, ptr, d)
  else Ok (flag, ptr, d).

Fixpoint parse_lines (flag ptr : bool) (d : SessionDescription) (lines : list bytes)
    : res (bool * SessionDescription) :=
  match lines with
  | [] => Ok (flag, d)
  | line :: lines =>
      '(flag, ptr, d) ← parse_line flag ptr d line;
      if negb flag then Ok (false, d) else parse_lines flag ptr d lines
  end.

Definition parse_sdp (d : SessionDescription) (lines : list bytes) : res (bool * SessionDescription) :=
  parse_lines false false d lines.
End Sdp.
