(* ===== verification/SdpRoundtrip.v ===== *)
(** * sdp/session_description.cpp: a printed description parses back

    The text [Sdp.to_string] prints, cut at the line ends the way the signaling
    server cuts an offer, is accepted by [Sdp.parse_sdp], which recovers the
    identification of the session and, per media content, its kind, its DTLS
    fingerprint, its SSRCs and their groups.  A line is a pair of its type
    character and what follows the first "=". *)
From S2P Require Import Prelude SdpTypes Sdp.
From S2P Require SUtil SslFingerprint MessageDigest StringEncode Helpers IpAddress SocketAddress Uvnet.
Local Open Scope Z_scope.

(** Decides a closed proposition by computing its decision. *)
Ltac by_decision := refine (bool_decide_unpack _ _); vm_compute; exact I.

(** ** Lines *)

Definition line (l : Z * bytes) : bytes := fst l :: 61 :: snd l.
Definition text (ls : list (Z * bytes)) : bytes := concat (map (fun l => line l ++ crlf) ls).

(** No type character of interest occurs before an "=" later in the line. *)
Definition quiet (r : bytes) : Prop :=
  Forall (fun c => find_at [c; 61] (61 :: r) = None) [118; 111; 109; 97].

(** What is true of each line a description prints: one line, and [quiet]. *)
Definition plain (l : Z * bytes) : Prop := fst l <> 13 /\ fst l <> 61 /\ (13 ∉ snd l) /\ quiet (snd l).

#[export] Instance quiet_dec r : Decision (quiet r).
Proof. unfold quiet. apply _. Defined.
#[export] Instance plain_dec l : Decision (plain l).
Proof. unfold plain. apply _. Defined.

Lemma text_app ls ks : text (ls ++ ks) = text ls ++ text ks.
Proof. unfold text. by rewrite map_app, concat_app. Qed.

Lemma text_cons l ls : text (l :: ls) = line l ++ crlf ++ text ls.
Proof. unfold text. cbn. by rewrite <- app_assoc. Qed.

Lemma text_map {A} (f : A -> bytes) (g : A -> Z * bytes) xs :
  (forall x, f x = line (g x) ++ crlf) -> concat (map f xs) = text (map g xs).
Proof.
  intros Hf. unfold text. rewrite map_map. f_equal. apply map_ext. done.
Qed.

Lemma text_concat {A} (f : A -> bytes) (g : A -> list (Z * bytes)) xs :
  (forall x, f x = text (g x)) -> concat (map f xs) = text (concat (map g xs)).
Proof.
  intros Hf. induction xs as [|x xs IH]; [done|]. cbn [map concat].
  by rewrite text_app, Hf, IH.
Qed.

Lemma text_join ls : text ls = SUtil.join crlf (map line ls ++ [[]]).
Proof.
  induction ls as [|l ls IH]; [done|]. rewrite text_cons, IH. cbn [map app].
  by rewrite SUtil.join_cons by by destruct (map line ls).
Qed.

Lemma free_crlf s : 13 ∉ s -> SUtil.free crlf s.
Proof.
  intros Hs. unfold SUtil.free. destruct (find_at crlf s) as [i|] eqn:E; [|done].
  destruct (find_at_Some _ _ _ E) as (a & t & -> & _ & _).
  exfalso. apply Hs. unfold crlf. set_solver.
Qed.

Lemma plain_cr l : plain l -> 13 ∉ line l.
Proof.
  intros (H13 & _ & Hr & _). unfold line. rewrite !not_elem_of_cons. split_and!; [done..|done].
Qed.

(** The printed text splits into its lines. *)
Lemma text_lines ls :
  Forall plain ls -> SUtil.addressable (text ls) -> SUtil.split (text ls) crlf = Ok (map line ls).
Proof.
  intros Hp. rewrite text_join. intros Ha. rewrite SUtil.split_join; [| | |  |done].
  - f_equal. unfold SUtil.nonempty. rewrite list.filter_app.
    rewrite filter_cons_False, filter_nil, app_nil_r by (intros Hn; by apply Hn).
    apply SUtil.nonempty_all. apply list.Forall_forall. intros p Hin.
    apply list_elem_of_fmap in Hin as ([x r] & -> & _). done.
  - apply SUtil.clean_pair. done.
  - by destruct (map line ls).
  - apply Forall_app. split.
    + apply Forall_fmap. eapply Forall_impl; [|exact Hp].
      intros l Hl. apply free_crlf, plain_cr, Hl.
    + repeat constructor.
Qed.

(** ** Fields *)

Lemma shorter s t : SUtil.addressable s -> zlen t <= zlen s -> SUtil.addressable t.
Proof. unfold SUtil.addressable. lia. Qed.

Lemma line_tail x r : SUtil.addressable (line (x, r)) -> SUtil.addressable r.
Proof. intros Ha. eapply shorter; [exact Ha|]. unfold line. rewrite !zlen_cons. cbn. lia. Qed.

(** Fields without the separator, none of them empty, come back. *)
Lemma split_fields c ps :
  ps <> [] -> Forall (fun p => p <> [] /\ c ∉ p) ps -> SUtil.addressable (SUtil.join [c] ps) ->
  SUtil.split (SUtil.join [c] ps) [c] = Ok ps.
Proof.
  intros Hne Hp Ha. rewrite SUtil.split_join; [|apply SUtil.clean_char|done| |done].
  - f_equal. apply SUtil.nonempty_all. eapply Forall_impl; [|exact Hp]. by intros p [? _].
  - eapply Forall_impl; [|exact Hp]. intros p [_ Hc]. by apply SUtil.free_char.
Qed.

Lemma split_line x r :
  x <> 61 -> r <> [] -> 61 ∉ r -> SUtil.addressable (line (x, r)) ->
  SUtil.split (line (x, r)) (lit "=") = Ok [[x]; r].
Proof.
  intros Hx Hr Hn Ha. apply (split_fields 61 [[x]; r]); [done| |done].
  repeat constructor; try done. by rewrite list_elem_of_singleton.
Qed.

Lemma digits_free c n : is_digit c = false -> c <> 45 -> c ∉ dec n.
Proof.
  intros Hc H45. destruct (Z.ltb_spec n 0); [|by apply digit_not_in_dec].
  unfold dec. rewrite (proj2 (Z.ltb_lt n 0)) by done. rewrite not_elem_of_cons. split; [done|].
  rewrite <- dec_nonneg by lia. apply digit_not_in_dec; [lia | done].
Qed.

Lemma join_snoc_fields c p ps :
  p ++ concat (map (fun q => [c] ++ q) ps) = SUtil.join [c] (p :: ps).
Proof.
  revert p. induction ps as [|q ps IH]; intros p; [by rewrite app_nil_r|].
  rewrite SUtil.join_cons, <- IH by done. cbn. done.
Qed.

(** ** Dispatch on a quiet line *)

Lemma find_from_0 sub s : find_from sub s 0 = Z.of_nat <$> find_at sub s.
Proof.
  rewrite SUtil.find_from_drop, drop_0 by (pose proof (zlen_nonneg s); lia).
  destruct (find_at sub s); cbn; f_equal.
Qed.

(** A longer pattern occurs only where its first two characters do. *)
Lemma find_at_longer c s r : find_at [c; 61] r = None -> find_at (c :: 61 :: s) r = None.
Proof.
  intros Hn. destruct (find_at (c :: 61 :: s) r) as [i|] eqn:E; [|done].
  destruct (find_at_Some _ _ _ E) as (a & t & -> & <- & _).
  pose proof (find_at_None _ _ Hn (length a) ltac:(rewrite length_app; lia)) as Hp.
  rewrite drop_app_length in Hp. cbn in Hp. by rewrite Z.eqb_refl in Hp.
Qed.

Lemma contains_head c s x r :
  find_at [c; 61] (61 :: r) = None ->
  contains (c :: 61 :: s) (x :: 61 :: r) = is_prefix (c :: 61 :: s) (x :: 61 :: r).
Proof.
  intros Hn. unfold contains. rewrite find_from_0.
  change (find_at (c :: 61 :: s) (x :: 61 :: r)) with
    (if is_prefix (c :: 61 :: s) (x :: 61 :: r) then Some 0%nat
     else S <$> find_at (c :: 61 :: s) (61 :: r)).
  rewrite (find_at_longer _ _ _ Hn). destruct (is_prefix _ _); [|done].
  apply bool_decide_eq_true. eauto.
Qed.

Section Roundtrip.
Context {IpAddr : Type} `{Uvnet.IpAddressOps IpAddr} `{IpAddress.NetOps}.
Context (order : gmap bytes bytes -> list (bytes * bytes)).

Abbreviation description := (@SessionDescription IpAddr).

(** The case a quiet line falls into is decided by its start. *)
Definition dispatch (flag ptr : bool) (d : description) (x : Z) (r : bytes)
    : res (bool * bool * description) :=
  let l := line (x, r) in
  if 118 =? x then '(f, d) ← parse_version d l; Ok (f, ptr, d)
  else if 111 =? x then '(f, d) ← parse_origin d l; Ok (f, ptr, d)
  else if 109 =? x then
    '(ok, d) ← parse_media d l; Ok (if (ok : bool) then flag else false, ok, d)
  else if (97 =? x) && is_prefix (lit "rtpmap") r then '(f, d) ← parse_rtpmap d l; Ok (f, ptr, d)
  else if (97 =? x) && is_prefix (lit "fingerprint:") r && ptr then
    '(f, d) ← on_last d (fun c =>
       '(f, c) ← parse_dtls c l;
       if (f : bool) then c ← set_identity_fp c; Ok (f, c) else Ok (f, c));
    Ok (f, ptr, d)
  else if (97 =? x) && is_prefix (lit "ssrc:") r && ptr then
    '(f, d) ← on_last d (fun c => parse_ssrcs c l); Ok (f, ptr, d)
  else if (97 =? x) && is_prefix (lit "ssrc-group:") r && ptr then
    '(f, d) ← on_last d (fun c => parse_ssrc_groups c l); Ok (f, ptr, d)
  else Ok (flag, ptr, d).

Lemma parse_line_quiet flag ptr (d : description) x r :
  quiet r -> parse_line flag ptr d (line (x, r)) = dispatch flag ptr d x r.
Proof.
  intros Hq. unfold quiet in Hq. repeat (apply Forall_cons_1 in Hq as [? Hq]).
  unfold parse_line, dispatch. cbv zeta.
  assert (Hc : forall c s, find_at [c; 61] (61 :: r) = None ->
    contains (c :: 61 :: s) (line (x, r)) = (c =? x) && is_prefix s r).
  { intros c s Hn. unfold line. cbn [fst snd]. rewrite contains_head by done. done. }
  change (lit "v=") with (118 :: 61 :: []). change (lit "o=") with (111 :: 61 :: []).
  change (lit "m=") with (109 :: 61 :: []).
  change (lit "a=rtpmap") with (97 :: 61 :: lit "rtpmap").
  change (lit "a=fingerprint:") with (97 :: 61 :: lit "fingerprint:").
  change (lit "a=ssrc:") with (97 :: 61 :: lit "ssrc:").
  change (lit "a=ssrc-group:") with (97 :: 61 :: lit "ssrc-group:").
  rewrite !Hc by done. cbn [is_prefix]. rewrite !andb_true_r. done.
Qed.
(** ** Sequences of lines *)

Definition state (s : SessionSdp) (cs : list MediaContent) (v a : MediaCodecSupport) : description :=
  mkDescription s cs v a None None None.

(** Reading the lines [ls] takes the contents from [cs] to [cs'], whatever
    the codec tables are. *)
Definition reads (s : SessionSdp) (ptr : bool) (cs : list MediaContent) (ls : list (Z * bytes))
    (ptr' : bool) (cs' : list MediaContent) : Prop :=
  forall v a, exists v' a', forall rest,
    parse_lines true ptr (state s cs v a) (map line ls ++ rest) =
    parse_lines true ptr' (state s cs' v' a') rest.

Lemma reads_nil s ptr cs : reads s ptr cs [] ptr cs.
Proof. intros v a. by exists v, a. Qed.

Lemma reads_app s p1 cs1 ls p2 cs2 ks p3 cs3 :
  reads s p1 cs1 ls p2 cs2 -> reads s p2 cs2 ks p3 cs3 -> reads s p1 cs1 (ls ++ ks) p3 cs3.
Proof.
  intros H1 H2 v a. destruct (H1 v a) as (v1 & a1 & E1). destruct (H2 v1 a1) as (v2 & a2 & E2).
  exists v2, a2. intros rest. by rewrite map_app, <- app_assoc, E1, E2.
Qed.

(** One accepted line. *)
Lemma reads_line s ptr cs x r ptr' cs' :
  quiet r ->
  (forall v a, exists v' a',
    dispatch true ptr (state s cs v a) x r = Ok (true, ptr', state s cs' v' a')) ->
  reads s ptr cs [(x, r)] ptr' cs'.
Proof.
  intros Hq Hd v a. destruct (Hd v a) as (v' & a' & E). exists v', a'. intros rest.
  cbn [map app parse_lines]. rewrite parse_line_quiet by done. by rewrite E.
Qed.

(** A line the parser does not look at. *)
Definition ignored (l : Z * bytes) : bool :=
  forallb (fun k => negb (is_prefix k (line l)))
    [lit "v="; lit "o="; lit "m="; lit "a=rtpmap"; lit "a=fingerprint:"; lit "a=ssrc:";
     lit "a=ssrc-group:"].

Lemma dispatch_ignored flag ptr (d : description) x r :
  ignored (x, r) = true -> dispatch flag ptr d x r = Ok (flag, ptr, d).
Proof.
  unfold ignored, line, dispatch. cbn [forallb fst snd].
  change (lit "v=") with (118 :: 61 :: []). change (lit "o=") with (111 :: 61 :: []).
  change (lit "m=") with (109 :: 61 :: []).
  change (lit "a=rtpmap") with (97 :: 61 :: lit "rtpmap").
  change (lit "a=fingerprint:") with (97 :: 61 :: lit "fingerprint:").
  change (lit "a=ssrc:") with (97 :: 61 :: lit "ssrc:").
  change (lit "a=ssrc-group:") with (97 :: 61 :: lit "ssrc-group:").
  assert (Hp : forall c t, is_prefix (c :: 61 :: t) (x :: 61 :: r) = (c =? x) && is_prefix t r) by done.
  rewrite !Hp. change (is_prefix [] r) with true. rewrite !andb_true_r, !andb_true_iff, !negb_true_iff.
  intros (-> & -> & -> & -> & -> & -> & ->). done.
Qed.

Lemma parse_ignored ptr (d : description) ls rest :
  Forall (fun l => quiet (snd l) /\ ignored l = true) ls ->
  parse_lines true ptr d (map line ls ++ rest) = parse_lines true ptr d rest.
Proof.
  induction 1 as [|[x r] ls [Hq Hi] _ IH]; [done|]. cbn [map app parse_lines].
  rewrite parse_line_quiet by done. by rewrite dispatch_ignored.
Qed.

Lemma reads_ignored s ptr cs ls :
  Forall (fun l => quiet (snd l) /\ ignored l = true) ls -> reads s ptr cs ls ptr cs.
Proof. intros Hl v a. exists v, a. intros rest. by apply parse_ignored. Qed.

(** ** The lines of a media content *)

(** What the parser has gathered about the content it reads. *)
Definition reading (t : MediaType) (p : option DtlsParameter) (ss : list SsrcParameter)
    (gs : list SsrcGroup) : MediaContent :=
  let d := new_content t in
  mkContent t (connection_info d) (fix_attr1 d) [] [] (use_dtls d) (rtcp_mux d) (direct d) (ice d)
    [] [] p ss gs.

Definition media_fields (c : MediaContent) : list bytes :=
  [content_name c; lit "9"; if use_dtls c then k_media_proto_dtls_savpf else k_media_proto_savpf]
  ++ map (fun r => dec (payload_type r)) (rtpmaps c).
Definition media_rest (c : MediaContent) : bytes := SUtil.join (lit " ") (media_fields c).
Definition rtpmap_rest (r : CodecInfo) : bytes :=
  SUtil.join (lit " ") [lit "rtpmap:" ++ dec (payload_type r); desc r].
Definition ssrc_rest (x : SsrcParameter) : bytes :=
  lit "ssrc:" ++ SUtil.join (lit ":") [SUtil.join (lit " ") [dec (ssrc x); attri x]; value x].
Definition group_rest (g : SsrcGroup) : bytes :=
  lit "ssrc-group:" ++ SUtil.join (lit " ") (semantic g :: map dec (ssrcs g)).

(** The fields whose text the parser cuts at blanks, colons and "=". *)
Definition rtpmap_ok (r : CodecInfo) : Prop := desc r <> [] /\ (32 ∉ desc r) /\ (61 ∉ desc r).
Definition ssrc_ok (x : SsrcParameter) : Prop :=
  0 <= ssrc x < 4294967296 /\ attri x <> [] /\ (32 ∉ attri x) /\ (58 ∉ attri x) /\
  value x <> [] /\ (58 ∉ value x).
Definition group_ok (g : SsrcGroup) : Prop :=
  semantic g <> [] /\ (32 ∉ semantic g) /\ ssrcs g <> [] /\
  Forall (fun n => 0 <= n < 4294967296) (ssrcs g).

#[export] Instance rtpmap_ok_dec r : Decision (rtpmap_ok r).
Proof. unfold rtpmap_ok. apply _. Defined.
#[export] Instance ssrc_ok_dec x : Decision (ssrc_ok x).
Proof. unfold ssrc_ok. apply _. Defined.
#[export] Instance group_ok_dec g : Decision (group_ok g).
Proof. unfold group_ok. apply _. Defined.

Lemma dec_field c n : is_digit c = false -> c <> 45 -> dec n <> [] /\ c ∉ dec n.
Proof. intros. split; [apply dec_nonempty | by apply digits_free]. Qed.

Lemma media_fields_ok c : Forall (fun p => p <> [] /\ 32 ∉ p) (media_fields c).
Proof.
  unfold media_fields, content_name. apply Forall_app. split.
  - repeat constructor; try (by destruct (type c)); try (by destruct (use_dtls c)); try done.
    + destruct (type c); by_decision.
    + by_decision.
    + destruct (use_dtls c); by_decision.
  - apply Forall_fmap, Forall_true. intros r. by apply dec_field.
Qed.

Lemma join_free c sep ps : c ∉ sep -> Forall (fun p => c ∉ p) ps -> c ∉ SUtil.join sep ps.
Proof.
  intros Hs. induction 1 as [|p ps Hp Hps IH]; [apply not_elem_of_nil|].
  destruct ps as [|q ps]; [done|]. rewrite SUtil.join_cons by done.
  rewrite !not_elem_of_app. done.
Qed.

Lemma join_nonempty sep p ps : p <> [] -> SUtil.join sep (p :: ps) <> [].
Proof. intros Hp. destruct ps; [done|]. rewrite SUtil.join_cons by done. by destruct p. Qed.

Lemma media_rest_eq_free c : 61 ∉ media_rest c.
Proof.
  apply join_free; [by_decision|].
  unfold media_fields, content_name. apply Forall_app. split.
  - repeat constructor.
    + destruct (type c); by_decision.
    + by_decision.
    + destruct (use_dtls c); by_decision.
  - apply Forall_fmap, Forall_true. intros r. by apply digits_free.
Qed.

(** ** One line of each kind *)

Lemma reads_media s ptr cs c :
  rtpmaps c <> [] -> quiet (media_rest c) -> SUtil.addressable (line (109, media_rest c)) ->
  reads s ptr cs [(109, media_rest c)] true (cs ++ [reading (type c) None [] []]).
Proof.
  intros Hr Hq Ha. apply reads_line; [done|]. intros v a.
  unfold dispatch. change (118 =? 109) with false. change (111 =? 109) with false.
  change (109 =? 109) with true. cbv iota zeta. unfold parse_media.
  rewrite split_line; [|done| |apply media_rest_eq_free|done].
  2:{ unfold media_rest, media_fields, content_name. by destruct (type c). }
  cbn [mbind res_bind]. unfold media_rest at 1.
  rewrite (split_fields 32) by
    (apply media_fields_ok || (by unfold media_fields) ||
     exact (line_tail _ _ Ha)).
  cbn [mbind res_bind]. unfold media_fields. destruct (rtpmaps c) as [|r rs]; [done|].
  cbn [map app]. unfold content_name.
  destruct (use_dtls c), (type c); cbn -[foldl]; eexists _, _; done.
Qed.

Lemma find_colon_head a b : 58 ∉ a -> find_from (lit ":") (a ++ 58 :: b) 0 = Some (zlen a).
Proof. intros Ha. rewrite find_from_0. change (lit ":") with [58]. by rewrite find_at_char_app. Qed.

Lemma reads_rtpmap s ptr cs r :
  rtpmap_ok r -> quiet (rtpmap_rest r) -> SUtil.addressable (line (97, rtpmap_rest r)) ->
  reads s ptr cs [(97, rtpmap_rest r)] ptr cs.
Proof.
  intros (Hd & H32 & H61) Hq Ha. apply reads_line; [done|]. intros v a. unfold dispatch.
  change (118 =? 97) with false. change (111 =? 97) with false. change (109 =? 97) with false.
  change ((97 =? 97) && is_prefix (lit "rtpmap") (rtpmap_rest r)) with true. cbv iota zeta.
  unfold parse_rtpmap. rewrite split_line; [|done|done| |done].
  2:{ apply join_free; [by_decision|]. repeat constructor; [|done].
      rewrite not_elem_of_app. split; [by_decision | by apply digits_free]. }
  cbn [mbind res_bind]. unfold rtpmap_rest at 1. rewrite (split_fields 32).
  2: done. 3: exact (line_tail _ _ Ha).
  2:{ repeat constructor; try done.
      rewrite not_elem_of_app. split; [by_decision | by apply digits_free]. }
  cbn [mbind res_bind].
  change (lit "rtpmap:" ++ dec (payload_type r)) with (lit "rtpmap" ++ 58 :: dec (payload_type r)).
  rewrite find_colon_head by by_decision.
  change (lit "rtpmap" ++ 58 :: dec (payload_type r)) with (lit "rtpmap:" ++ dec (payload_type r)).
  rewrite substr_from_app by done. cbn [mbind res_bind].
  repeat case_match; eexists _, _; done.
Qed.

Lemma on_last_state s cs c v a f :
  on_last (state s (cs ++ [c]) v a) f =
  ('(flag, c) ← f c; Ok (flag, state s (cs ++ [c]) v a)).
Proof.
  unfold on_last, state. cbn [media_contents session video_sup audio_sup _fingerprint _addr
    _peer_offer_sdp]. rewrite list.last_snoc, removelast_last. cbn. by destruct (f c) as [[]|].
Qed.

Lemma after_colon_head a b : 58 ∉ a -> after_colon (a ++ 58 :: b) = Ok b.
Proof.
  intros Ha. unfold after_colon. rewrite find_colon_head by done.
  change (a ++ 58 :: b) with (a ++ [58] ++ b). rewrite app_assoc. apply substr_from_app.
  by rewrite zlen_app.
Qed.

Lemma reads_ssrc s t p ss gs x cs :
  ssrc_ok x -> quiet (ssrc_rest x) -> SUtil.addressable (line (97, ssrc_rest x)) ->
  reads s true (cs ++ [reading t p ss gs]) [(97, ssrc_rest x)] true
    (cs ++ [reading t p (ss ++ [x]) gs]).
Proof.
  intros (Hs & Ha0 & H32 & H58 & Hv & Hv58) Hq Ha. apply reads_line; [done|]. intros v a.
  eexists v, a. unfold dispatch.
  change (118 =? 97) with false. change (111 =? 97) with false. change (109 =? 97) with false.
  change ((97 =? 97) && is_prefix (lit "rtpmap") (ssrc_rest x)) with false.
  change ((97 =? 97) && is_prefix (lit "fingerprint:") (ssrc_rest x)) with false.
  change ((97 =? 97) && is_prefix (lit "ssrc:") (ssrc_rest x)) with true. cbv iota zeta.
  cbn [andb]. rewrite on_last_state. unfold parse_ssrcs.
  change (line (97, ssrc_rest x)) with
    (lit "a=ssrc" ++ 58 :: SUtil.join (lit ":") [SUtil.join (lit " ") [dec (ssrc x); attri x]; value x]).
  rewrite after_colon_head by by_decision. cbn [mbind res_bind].
  assert (Hsub : forall t, zlen t <= zlen (SUtil.join (lit ":")
      [SUtil.join (lit " ") [dec (ssrc x); attri x]; value x]) -> SUtil.addressable t).
  { intros u Hu. eapply shorter; [exact (line_tail _ _ Ha)|]. unfold ssrc_rest. rewrite zlen_app. pose proof (zlen_nonneg (lit "ssrc:")). lia. }
  rewrite (split_fields 58).
  2: done. 3: apply Hsub, Z.le_refl.
  2:{ repeat constructor; [apply join_nonempty, dec_nonempty| |done|done].
      apply join_free; [by_decision|]. repeat constructor; [by apply digits_free | done]. }
  cbn [mbind res_bind]. rewrite (split_fields 32).
  2: done. 3:{ apply Hsub. change (lit " ") with [32]. cbn [SUtil.join]. rewrite !zlen_app.
               pose proof (zlen_nonneg (value x)). pose proof (zlen_nonneg (lit ":")). lia. }
  2:{ constructor; [by apply dec_field|]. constructor; [done|]. constructor. }
  cbn [mbind res_bind].
  unfold index. cbn [lookup list_lookup from_opt mbind res_bind].
  rewrite <- (app_nil_r (dec (ssrc x))), atoll_dec by (done || lia).
  rewrite u32_small by done. by destruct x.
Qed.

Lemma reads_group s t p ss gs g cs :
  group_ok g -> quiet (group_rest g) -> SUtil.addressable (line (97, group_rest g)) ->
  reads s true (cs ++ [reading t p ss gs]) [(97, group_rest g)] true
    (cs ++ [reading t p ss (gs ++ [g])]).
Proof.
  intros (Hs & H32 & Hne & Hn) Hq Ha. apply reads_line; [done|]. intros v a.
  eexists v, a. unfold dispatch.
  change (118 =? 97) with false. change (111 =? 97) with false. change (109 =? 97) with false.
  change ((97 =? 97) && is_prefix (lit "rtpmap") (group_rest g)) with false.
  change ((97 =? 97) && is_prefix (lit "fingerprint:") (group_rest g)) with false.
  change ((97 =? 97) && is_prefix (lit "ssrc:") (group_rest g)) with false.
  change ((97 =? 97) && is_prefix (lit "ssrc-group:") (group_rest g)) with true. cbv iota zeta.
  cbn [andb]. rewrite on_last_state. unfold parse_ssrc_groups.
  change (line (97, group_rest g)) with
    (lit "a=ssrc-group" ++ 58 :: SUtil.join (lit " ") (semantic g :: map dec (ssrcs g))).
  rewrite after_colon_head by by_decision. cbn [mbind res_bind].
  rewrite (split_fields 32).
  2: done. 3:{ eapply shorter; [exact (line_tail _ _ Ha)|]. unfold group_rest.
    rewrite zlen_app. change (lit " ") with [32]. pose proof (zlen_nonneg (lit "ssrc-group:")). lia. }
  2:{ constructor; [done|]. apply Forall_fmap, Forall_true. intros n. by apply dec_field. }
  cbn [mbind res_bind].
  assert (Hm : map (fun i => u32 (atoll i)) (map dec (ssrcs g)) = ssrcs g).
  { rewrite map_map. induction Hn as [|n ns Hn0 Hns IH]; [done|]. cbn [map].
    rewrite <- (app_nil_r (dec n)), atoll_dec, u32_small by (done || lia). f_equal.
    destruct ns; [done | by apply IH]. }
  destruct g as [sem [|n ns]]; [done|]. cbn [semantic ssrcs map] in *.
  cbn [drop map]. by rewrite Hm.
Qed.

Definition fingerprint_rest (alg text : bytes) : bytes :=
  lit "fingerprint:" ++ SUtil.join (lit " ") [alg; text].

(** A fingerprint the printer can print and the parser accepts. *)
Definition fingerprint_ok (f : SslFingerprint.SSLFingerprint) : Prop :=
  MessageDigest.IsFips180DigestAlgorithm (SslFingerprint.algorithm f) = true /\
  wf_bytes (SslFingerprint.digest f) /\ 0 < zlen (SslFingerprint.digest f) <= 64.

Lemma fips_name alg :
  MessageDigest.IsFips180DigestAlgorithm alg = true -> alg <> [] /\ (32 ∉ alg).
Proof.
  unfold MessageDigest.IsFips180DigestAlgorithm. intros Ha.
  repeat (apply orb_true_iff in Ha as [Ha|Ha]); apply bool_decide_eq_true in Ha as ->;
    (split; [done | by_decision]).
Qed.

Lemma rfc4572_no_space t : Forall (fun c => SslFingerprint.rfc4572_char c = true) t -> 32 ∉ t.
Proof. intros Ht Hin. rewrite list.Forall_forall in Ht. by specialize (Ht _ Hin). Qed.

Lemma reads_fingerprint s t f fp cs :
  fingerprint_ok f -> SslFingerprint.GetRfc4572Fingerprint f = Ok fp ->
  quiet (fingerprint_rest (SslFingerprint.algorithm f) fp) ->
  SUtil.addressable (line (97, fingerprint_rest (SslFingerprint.algorithm f) fp)) ->
  reads s true (cs ++ [reading t None [] []])
    [(97, fingerprint_rest (SslFingerprint.algorithm f) fp)] true
    (cs ++ [reading t (Some (mkDtls (SslFingerprint.algorithm f) fp (Some f))) [] []]).
Proof.
  intros (Hf & Hw & Hl) Hfp Hq Ha. set (alg := SslFingerprint.algorithm f) in *.
  destruct (SslFingerprint.rfc4572_text f Hf Hw Hl) as (fp' & Hfp' & Hc & Hne & Hch).
  assert (fp' = fp) as -> by congruence. destruct (fips_name _ Hf) as [Hn H32].
  apply reads_line; [done|]. intros v a. eexists v, a. unfold dispatch.
  change (118 =? 97) with false. change (111 =? 97) with false. change (109 =? 97) with false.
  change ((97 =? 97) && is_prefix (lit "rtpmap") (fingerprint_rest alg fp)) with false.
  change ((97 =? 97) && is_prefix (lit "fingerprint:") (fingerprint_rest alg fp)) with true.
  cbn [andb]. cbv iota zeta. rewrite on_last_state. unfold parse_dtls.
  change (line (97, fingerprint_rest alg fp)) with
    (lit "a=fingerprint" ++ 58 :: SUtil.join (lit " ") [alg; fp]).
  rewrite find_colon_head by by_decision.
  change (lit "a=fingerprint" ++ 58 :: SUtil.join (lit " ") [alg; fp]) with
    (lit "a=fingerprint:" ++ SUtil.join (lit " ") [alg; fp]).
  rewrite substr_from_app by done. cbn [mbind res_bind]. rewrite (split_fields 32).
  2: done. 3:{ eapply shorter; [exact (line_tail _ _ Ha)|]. unfold fingerprint_rest.
    rewrite zlen_app. change (lit " ") with [32]. pose proof (zlen_nonneg (lit "fingerprint:")). lia. }
  2:{ pose proof (rfc4572_no_space _ Hch). by repeat constructor. }
  cbn [mbind res_bind]. unfold set_identity_fp. cbn [dtls alg SdpTypes.alg finger_print].
  fold alg in Hc. rewrite Hc. done.
Qed.

(** ** The lines of a description *)

Definition fingerprint_lines (fp : option SslFingerprint.SSLFingerprint) (c : MediaContent)
    : res (list (Z * bytes)) :=
  match fp with
  | Some f =>
      if use_dtls c then
        t ← SslFingerprint.GetRfc4572Fingerprint f;
        Ok [(97, fingerprint_rest (SslFingerprint.algorithm f) t);
            (97, lit "setup:" ++ connection_role c)]
      else Ok []
  | None => Ok []
  end.

Definition fmtp_line (f : FormatParameter) : Z * bytes :=
  (97, lit "fmtp:" ++ dec (codec_id f) ++ lit " "
       ++ SUtil.join (lit ";") (map (fun kv => fst kv ++ lit "=" ++ snd kv) (order (params f)))).

Definition fb_line (payload_type : Z) (fb : FeedbackParameter) : Z * bytes :=
  (97, lit "rtcp-fb:" ++ dec payload_type ++ lit " " ++ id fb
       ++ (if bool_decide (param fb = []) then [] else lit " " ++ param fb)).

Definition candidate_line (c : IceCandidate) : Z * bytes :=
  (97, lit "candidate:" ++ foundation c ++ lit " " ++ dec (component c) ++ lit " " ++ protocol c
  ++ lit " " ++ dec (priority c) ++ lit " " ++ SocketAddress.HostAsURIString (address c)
  ++ lit " " ++ dec (cand_port c) ++ lit " typ " ++ cand_type c).

Definition direction_line (d : RtcDirection) : Z * bytes :=
  (97, match d with
       | RecvOnly => lit "recvonly" | SendRecv => lit "sendrecv"
       | SendOnly => lit "sendonly" | Inactive => lit "inactive"
       end).

(** The lines before the fingerprint, between it and the groups. *)
Definition head_lines (c : MediaContent) : list (Z * bytes) :=
  map fmtp_line (fmtps c)
  ++ concat (map (fun r => map (fb_line (payload_type r)) (fbs r)) (rtpmaps c))
  ++ (if rtcp_mux c then [(97, lit "rtcp-mux")] else [])
  ++ [(97, mode (ice c)); (97, lit "ice-ufrag:" ++ ufrag (ice c)); (97, lit "ice-pwd:" ++ passwd (ice c))].

Definition tail_lines (c : MediaContent) : list (Z * bytes) :=
  [(97, lit "mid:" ++ mid c); direction_line (direct c)] ++ map candidate_line (cands c).

Definition content_lines (fp : option SslFingerprint.SSLFingerprint) (c : MediaContent)
    : res (list (Z * bytes)) :=
  f ← fingerprint_lines fp c;
  Ok ([(109, media_rest c); (99, connection_info c); (97, fix_attr1 c)]
      ++ map (fun r => (97, rtpmap_rest r)) (rtpmaps c) ++ head_lines c ++ f ++ tail_lines c
      ++ map (fun g => (97, group_rest g)) (ssrc_groups c)
      ++ map (fun x => (97, ssrc_rest x)) (content_ssrcs c)).

(** ** The printed text is the text of the lines *)

(** Equalities of concatenations up to associativity. *)
Ltac reassoc := cbn [fst snd]; repeat (progress cbn [app] || rewrite <- app_assoc); reflexivity.

Lemma print_fmtp_line f : print_fmtp order f = line (fmtp_line f) ++ crlf.
Proof.
  unfold print_fmtp, fmtp_line, line. change (lit "a=fmtp:") with (97 :: 61 :: lit "fmtp:"). reassoc.
Qed.

Lemma print_fb_line pt fb : print_fb pt fb = line (fb_line pt fb) ++ crlf.
Proof.
  unfold print_fb, fb_line, line. change (lit "a=rtcp-fb:") with (97 :: 61 :: lit "rtcp-fb:").
  case_match; reassoc.
Qed.

Lemma print_candidate_line c : print_candidate c = line (candidate_line c) ++ crlf.
Proof.
  unfold print_candidate, candidate_line, line.
  change (lit "a=candidate:") with (97 :: 61 :: lit "candidate:"). reassoc.
Qed.

Lemma add_media_direction_line d : add_media_direction d = line (direction_line d) ++ crlf.
Proof. by destruct d. Qed.

Lemma print_group_line g : print_ssrc_group g = line (97, group_rest g) ++ crlf.
Proof.
  unfold print_ssrc_group, group_rest, line.
  change (lit "a=ssrc-group:") with (97 :: 61 :: lit "ssrc-group:"). change (lit " ") with [32].
  rewrite <- join_snoc_fields, map_map. reassoc.
Qed.

Lemma print_ssrc_line x : ssrc_ok x -> print_ssrc x = line (97, ssrc_rest x) ++ crlf.
Proof.
  intros (_ & _ & _ & _ & Hv & _). unfold print_ssrc, ssrc_rest, line.
  assert (Hz : 0 < zlen (value x)).
  { destruct (value x); [done|]. rewrite zlen_cons. pose proof (zlen_nonneg l). lia. }
  rewrite (proj2 (Z.ltb_lt 0 _)) by exact Hz.
  change (lit "a=ssrc:") with (97 :: 61 :: lit "ssrc:"). cbn [SUtil.join]. reassoc.
Qed.

Lemma print_rtpmap_line r :
  lit "a=rtpmap:" ++ dec (payload_type r) ++ lit " " ++ desc r ++ crlf = line (97, rtpmap_rest r) ++ crlf.
Proof.
  unfold rtpmap_rest, line. change (lit "a=rtpmap:") with (97 :: 61 :: lit "rtpmap:").
  cbn [SUtil.join]. reassoc.
Qed.

Lemma print_media_line c rest :
  lit "m=" ++ content_name c ++ lit " 9 "
    ++ (if use_dtls c then k_media_proto_dtls_savpf else k_media_proto_savpf)
    ++ concat (map (fun r => lit " " ++ dec (payload_type r)) (rtpmaps c)) ++ crlf ++ rest
  = line (109, media_rest c) ++ crlf ++ rest.
Proof.
  unfold media_rest, media_fields, line. cbn [fst snd app]. change (lit " ") with [32].
  rewrite <- join_snoc_fields, map_cons, map_cons, map_map.
  change (lit "m=") with [109; 61]. change (lit " 9 ") with ([32] ++ lit "9" ++ [32]).
  cbn [concat]. reassoc.
Qed.

Lemma print_fingerprint_lines fp c :
  print_fingerprint fp c = text <$> fingerprint_lines fp c.
Proof.
  unfold print_fingerprint, fingerprint_lines. destruct fp as [f|]; [|done].
  destruct (use_dtls c); [|done]. destruct (SslFingerprint.GetRfc4572Fingerprint f) as [t|]; [|done].
  cbn [mbind res_bind fmap res_fmap]. f_equal.
  rewrite !text_cons. unfold fingerprint_rest, line. change (text []) with (@nil Z).
  change (lit "a=fingerprint:") with (97 :: 61 :: lit "fingerprint:").
  change (lit "a=setup:") with (97 :: 61 :: lit "setup:"). cbn [SUtil.join]. rewrite app_nil_r. reassoc.
Qed.

Lemma concat_text_map {A} (f : A -> bytes) (g : A -> Z * bytes) xs :
  Forall (fun x => f x = line (g x) ++ crlf) xs -> concat (map f xs) = text (map g xs).
Proof. induction 1 as [|x xs Hx _ IH]; [done|]. cbn [map concat]. by rewrite text_cons, Hx, IH, <- app_assoc. Qed.

Lemma add_media_content_lines fp c :
  Forall ssrc_ok (content_ssrcs c) -> add_media_content order fp c = text <$> content_lines fp c.
Proof.
  intros Hs. unfold add_media_content, content_lines. rewrite print_fingerprint_lines.
  destruct (fingerprint_lines fp c) as [f|]; [|done]. cbn [mbind res_bind fmap res_fmap]. f_equal.
  rewrite !text_app. unfold head_lines, tail_lines. rewrite !text_app.
  rewrite (text_concat (fun r => concat (map (print_fb (payload_type r)) (fbs r)))
             (fun r => map (fb_line (payload_type r)) (fbs r)))
    by (intros r; apply text_map, print_fb_line).
  rewrite (text_map print_candidate candidate_line) by apply print_candidate_line.
  rewrite (text_map print_ssrc_group (fun g => (97, group_rest g))) by apply print_group_line.
  rewrite (text_map (print_fmtp order) fmtp_line) by apply print_fmtp_line.
  rewrite (text_map (fun r => lit "a=rtpmap:" ++ dec (payload_type r) ++ lit " " ++ desc r ++ crlf)
             (fun r => (97, rtpmap_rest r))) by apply print_rtpmap_line.
  rewrite (concat_text_map print_ssrc (fun x => (97, ssrc_rest x)))
    by (eapply Forall_impl; [|exact Hs]; apply print_ssrc_line).
  rewrite add_media_direction_line.
  rewrite !text_cons, print_media_line. change (text []) with (@nil Z).
  set (m := line (109, media_rest c)). unfold line.
  change (lit "c=") with [99; 61]. change (lit "a=") with [97; 61].
  change (lit "a=ice-ufrag:") with (97 :: 61 :: lit "ice-ufrag:").
  change (lit "a=ice-pwd:") with (97 :: 61 :: lit "ice-pwd:").
  change (lit "a=mid:") with (97 :: 61 :: lit "mid:").
  destruct (rtcp_mux c); reassoc.
Qed.

(** ** One media content *)


(** A content that survives: one codec at least, and fields without the
    characters the parser cuts at. *)
Record content_ok (c : MediaContent) : Prop := {
  ok_codec : rtpmaps c <> [];
  ok_rtpmaps : Forall rtpmap_ok (rtpmaps c);
  ok_attr : ignored (97, fix_attr1 c) = true;
  ok_mode : ignored (97, mode (ice c)) = true;
  ok_ssrcs : Forall ssrc_ok (content_ssrcs c);
  ok_groups : Forall group_ok (ssrc_groups c);
}.

(** What the reader knows of the content [c] of the writer. *)
Definition content_read (fp : option SslFingerprint.SSLFingerprint) (c c' : MediaContent) : Prop :=
  type c' = type c /\ content_ssrcs c' = content_ssrcs c /\ ssrc_groups c' = ssrc_groups c /\
  match fp, use_dtls c with
  | Some f, true => exists t, SslFingerprint.GetRfc4572Fingerprint f = Ok t /\
      dtls c' = Some (mkDtls (SslFingerprint.algorithm f) t (Some f))
  | _, _ => dtls c' = None
  end.

(** A line that can be read. *)
Definition readable (l : Z * bytes) : Prop := quiet (snd l) /\ SUtil.addressable (line l).

Lemma reads_map {A} s (g : A -> Z * bytes) (P : A -> Prop) (mk : list A -> MediaContent) cs xs :
  (forall ys x, P x -> readable (g x) ->
    reads s true (cs ++ [mk ys]) [g x] true (cs ++ [mk (ys ++ [x])])) ->
  Forall P xs -> Forall readable (map g xs) ->
  reads s true (cs ++ [mk []]) (map g xs) true (cs ++ [mk xs]).
Proof.
  intros Hstep HP HR.
  assert (Hg : forall ys, reads s true (cs ++ [mk ys]) (map g xs) true (cs ++ [mk (ys ++ xs)]));
    [|exact (Hg [])].
  induction xs as [|x xs IH]; intros ys; [rewrite app_nil_r; apply reads_nil|].
  apply Forall_cons_1 in HP as [Hx HP]. apply Forall_cons_1 in HR as [Hr HR].
  apply (reads_app _ _ _ [g x] true (cs ++ [mk (ys ++ [x])])); [by apply Hstep|].
  change (x :: xs) with ([x] ++ xs). rewrite app_assoc. by apply IH.
Qed.

Lemma reads_rtpmaps s ptr cs rs :
  Forall rtpmap_ok rs -> Forall readable (map (fun r => (97, rtpmap_rest r)) rs) ->
  reads s ptr cs (map (fun r => (97, rtpmap_rest r)) rs) ptr cs.
Proof.
  induction rs as [|r rs IH]; intros HP HR; [apply reads_nil|].
  apply Forall_cons_1 in HP as [Hx HP]. apply Forall_cons_1 in HR as [[Hq Ha] HR].
  apply (reads_app _ _ _ [(97, rtpmap_rest r)] ptr cs); [by apply reads_rtpmap | by apply IH].
Qed.

Lemma reads_plain s ptr cs ls :
  Forall readable ls -> Forall (fun l => ignored l = true) ls -> reads s ptr cs ls ptr cs.
Proof.
  intros HR HI. apply reads_ignored, list.Forall_and. split; [|done].
  eapply Forall_impl; [|exact HR]. by intros l [? _].
Qed.

Lemma head_lines_ignored c :
  ignored (97, mode (ice c)) = true -> Forall (fun l => ignored l = true) (head_lines c).
Proof.
  intros Hm. unfold head_lines. rewrite !Forall_app. split_and!.
  - apply Forall_fmap, Forall_true. done.
  - apply Forall_concat, Forall_fmap, Forall_true. intros r. apply Forall_fmap, Forall_true. done.
  - case_match; by repeat constructor.
  - by repeat constructor.
Qed.

Lemma tail_lines_ignored c : Forall (fun l => ignored l = true) (tail_lines c).
Proof.
  unfold tail_lines. apply Forall_app. split.
  - repeat constructor. by destruct (direct c).
  - apply Forall_fmap, Forall_true. done.
Qed.

(** The lines of a fingerprint leave it in the content. *)
Lemma reads_fingerprint_lines s fp t cs fl c :
  match fp with Some f => fingerprint_ok f | None => True end ->
  fingerprint_lines fp c = Ok fl -> Forall readable fl ->
  exists p, reads s true (cs ++ [reading t None [] []]) fl true (cs ++ [reading t p [] []]) /\
    forall ss gs, content_read fp c (reading t p ss gs) <->
      t = type c /\ ss = content_ssrcs c /\ gs = ssrc_groups c.
Proof.
  unfold fingerprint_lines. intros Hf Hl HR. unfold content_read. cbn [type reading dtls].
  destruct fp as [f|]; [destruct (use_dtls c)|].
  - res_inv. rename x into ft. apply Forall_cons_1 in HR as [[Hq Ha] HR].
    exists (Some (mkDtls (SslFingerprint.algorithm f) ft (Some f))). split.
    + eapply (reads_app _ _ _ [_] true); [by apply (reads_fingerprint s t f ft)|].
      apply reads_plain; [done|]. by repeat constructor.
    + intros ss gs. cbn. split; [tauto|]. intros (-> & -> & ->). split_and!; eauto.
  - res_inv. exists None. split; [apply reads_nil|]. cbn. tauto.
  - res_inv. exists None. split; [apply reads_nil|]. cbn. tauto.
Qed.

Lemma reads_content s ptr cs fp c ls :
  match fp with Some f => fingerprint_ok f | None => True end ->
  content_ok c -> content_lines fp c = Ok ls -> Forall readable ls ->
  exists c', content_read fp c c' /\ reads s ptr cs ls true (cs ++ [c']).
Proof.
  intros Hf [Hr Hrs Hat Hm Hss Hgs] Hl HR. unfold content_lines in Hl.
  apply res_bind_ok in Hl as (fl & Hfl & Hl). apply ok_inj in Hl. subst ls.
  rewrite !Forall_app in HR. destruct HR as (HR0 & HRr & HRh & HRf & HRt & HRg & HRs).
  apply Forall_cons_1 in HR0 as [[Hq Ha] HR0].
  destruct (reads_fingerprint_lines s fp (type c) cs fl c Hf) as (p & Hp & Hread); [done..|].
  exists (reading (type c) p (content_ssrcs c) (ssrc_groups c)). split; [by apply Hread|].
  pose proof (reads_media s ptr cs c Hr Hq Ha) as H1.
  eapply (reads_app _ _ _ (_ :: _)).
  { eapply (reads_app _ _ _ [_]); [exact H1|]. apply reads_plain; [done|]. by repeat constructor. }
  eapply reads_app; [by apply reads_rtpmaps|].
  eapply reads_app; [by apply reads_plain, head_lines_ignored|].
  eapply reads_app; [exact Hp|].
  eapply reads_app; [by apply reads_plain, tail_lines_ignored|].
  eapply reads_app.
  - apply (reads_map s _ group_ok (fun gs => reading (type c) p [] gs)); [|done..].
    intros ys x Hx [? ?]. by apply reads_group.
  - apply (reads_map s _ ssrc_ok (fun ss => reading (type c) p ss (ssrc_groups c))); [|done..].
    intros ys x Hx [? ?]. by apply reads_ssrc.
Qed.

(** ** The whole description *)

Definition origin_fields (s : SessionSdp) : list bytes :=
  [username s; session_id s; session_version s; nett_type s; addr_type s; uni_addr s].

Definition session_lines (s : SessionSdp) : list (Z * bytes) :=
  [(118, version s); (111, SUtil.join (lit " ") (origin_fields s)); (115, session_name s);
   (116, ts s); (97, lit "msid-semantic: WMS"); (97, lit "group:BUNDLE 0 1")].

Fixpoint contents_lines (fp : option SslFingerprint.SSLFingerprint) (cs : list MediaContent)
    : res (list (Z * bytes)) :=
  match cs with
  | [] => Ok []
  | c :: cs => x ← content_lines fp c; y ← contents_lines fp cs; Ok (x ++ y)
  end.

Definition description_lines (d : description) : res (list (Z * bytes)) :=
  media ← contents_lines (_fingerprint d) (media_contents d); Ok (session_lines (session d) ++ media).

(** The descriptions the round trip holds for: the attribute line is the one
    the constructor sets, the fields the parser cuts are not empty and hold no
    separator, and no line holds a carriage return or looks, after its start,
    like the start of another line. *)
Record printable (d : description) : Prop := {
  p_attr : attr (session d) = lit "a=msid-semantic: WMS";
  p_version : version (session d) <> [] /\ (61 ∉ version (session d));
  p_origin : Forall (fun f => f <> [] /\ (32 ∉ f) /\ (61 ∉ f)) (origin_fields (session d));
  p_fingerprint : match _fingerprint d with Some f => fingerprint_ok f | None => True end;
  p_contents : Forall content_ok (media_contents d);
  p_lines : forall ls, description_lines d = Ok ls -> Forall plain ls;
}.

Lemma print_session_lines s :
  attr s = lit "a=msid-semantic: WMS" -> print_session s = text (session_lines s).
Proof.
  intros Ha. unfold print_session, session_lines. rewrite !text_cons, Ha.
  change (text []) with (@nil Z). unfold line, origin_fields. cbn [SUtil.join].
  change (lit "v=") with [118; 61]. change (lit "o=") with [111; 61].
  change (lit "s=") with [115; 61]. change (lit "t=") with [116; 61].
  change (lit "a=msid-semantic: WMS") with (97 :: 61 :: lit "msid-semantic: WMS").
  change (lit "a=group:BUNDLE 0 1") with (97 :: 61 :: lit "group:BUNDLE 0 1").
  reassoc.
Qed.

Lemma add_media_contents_lines fp cs :
  Forall content_ok cs -> add_media_contents order fp cs = text <$> contents_lines fp cs.
Proof.
  induction 1 as [|c cs Hc _ IH]; [done|]. cbn [add_media_contents contents_lines].
  rewrite add_media_content_lines, IH by apply Hc.
  destruct (content_lines fp c); [|done]. destruct (contents_lines fp cs); [|done].
  cbn. by rewrite text_app.
Qed.

Lemma to_string_lines d :
  printable d -> to_string order d = text <$> description_lines d.
Proof.
  intros Hp. unfold to_string, description_lines.
  rewrite add_media_contents_lines, print_session_lines by apply Hp.
  destruct (contents_lines _ _); [|done]. cbn [mbind res_bind fmap res_fmap]. by rewrite text_app.
Qed.

Lemma text_line_le l ls : l ∈ ls -> zlen (line l) <= zlen (text ls).
Proof.
  intros Hl. apply list_elem_of_split in Hl as (l1 & l2 & ->).
  rewrite text_app, text_cons, !zlen_app. pose proof (zlen_nonneg (text l1)).
  pose proof (zlen_nonneg crlf). pose proof (zlen_nonneg (text l2)). lia.
Qed.

Lemma plain_readable ls : Forall plain ls -> SUtil.addressable (text ls) -> Forall readable ls.
Proof.
  intros Hp Ha. apply list.Forall_forall. intros l Hl. rewrite list.Forall_forall in Hp.
  destruct (Hp _ Hl) as (_ & _ & _ & Hq). split; [done|].
  eapply shorter; [exact Ha|]. by apply text_line_le.
Qed.

Lemma reads_contents s fp cs : forall ptr done ls,
  match fp with Some f => fingerprint_ok f | None => True end ->
  Forall content_ok cs -> contents_lines fp cs = Ok ls -> Forall readable ls ->
  exists ptr' cs', Forall2 (content_read fp) cs cs' /\ reads s ptr done ls ptr' (done ++ cs').
Proof.
  induction cs as [|c cs IH]; intros ptr done ls Hf Hok Hl HR; cbn [contents_lines] in Hl.
  - apply ok_inj in Hl. subst ls. exists ptr, []. rewrite app_nil_r. split; [constructor | apply reads_nil].
  - apply res_bind_ok in Hl as (x & Hx & Hl). apply res_bind_ok in Hl as (y & Hy & Hl).
    apply ok_inj in Hl. subst ls. apply Forall_cons_1 in Hok as [Hc Hok].
    apply Forall_app in HR as [HRx HRy].
    destruct (reads_content s ptr done fp c x Hf Hc Hx HRx) as (c' & Hr & H1).
    destruct (IH true (done ++ [c']) y Hf Hok Hy HRy) as (ptr' & cs' & Hcs & H2).
    exists ptr', (c' :: cs'). split; [by constructor|].
    eapply reads_app; [exact H1|]. by rewrite <- app_assoc in H2.
Qed.

(** The session read from the first two lines. *)
Definition read_session (s : SessionSdp) : SessionSdp :=
  let n := new_SessionSdp in
  mkSessionSdp (version s) (username s) (session_id s) (session_version n) (nett_type n)
    (addr_type n) (uni_addr n) (session_name n) (ts n) (attr n).

Lemma parse_session_lines s rest :
  version s <> [] /\ (61 ∉ version s) ->
  Forall (fun f => f <> [] /\ (32 ∉ f) /\ (61 ∉ f)) (origin_fields s) ->
  Forall readable (session_lines s) ->
  let e := empty_support in
  parse_lines false false new_SessionDescription (map line (session_lines s) ++ rest) =
  parse_lines true false (state (read_session s) [] (e (lit "video")) (e (lit "audio"))) rest.
Proof.
  intros [Hv Hv61] Ho HR. cbv zeta. unfold session_lines in *. cbn [map app].
  apply Forall_cons_1 in HR as [[Hqv Hav] HR]. apply Forall_cons_1 in HR as [[Hqo Hao] HR].
  cbn [parse_lines]. rewrite parse_line_quiet by done. unfold dispatch at 1.
  change (118 =? 118) with true. cbv iota zeta. unfold parse_version.
  rewrite split_line by done. cbn [mbind res_bind negb].
  rewrite parse_line_quiet by done. unfold dispatch at 1.
  change (118 =? 111) with false. change (111 =? 111) with true. cbv iota zeta. unfold parse_origin.
  rewrite split_line; [|done|apply join_nonempty|apply join_free; [by_decision|]|done].
  2:{ by apply Forall_cons_1 in Ho as [[? _] _]. }
  2:{ eapply Forall_impl; [|exact Ho]. by intros f (_ & _ & ?). }
  cbn [mbind res_bind]. rewrite (split_fields 32); [|done| |exact (line_tail _ _ Hao)].
  2:{ eapply Forall_impl; [|exact Ho]. intros f (? & ? & _). done. }
  assert (HI : Forall (fun l => ignored l = true) (drop 2 (session_lines s))) by by repeat constructor.
  unfold origin_fields. cbn [mbind res_bind negb].
  apply (parse_ignored false _ [(115, session_name s); (116, ts s); (97, lit "msid-semantic: WMS");
    (97, lit "group:BUNDLE 0 1")]).
  apply list.Forall_and. split; [|exact HI].
  eapply Forall_impl; [|exact HR]. by intros l [? _].
Qed.

End Roundtrip.

(** ** A concrete answer *)

Section Witnesses.
#[local] Existing Instance IpAddress.toy_net.
#[local] Existing Instance Uvnet.addr4_ops.

Definition any_order (m : gmap bytes bytes) : list (bytes * bytes) := map_to_list m.

Definition sample_fingerprint : SslFingerprint.SSLFingerprint :=
  SslFingerprint.mkFingerprint (lit "sha-256") [171; 0; 255].

Definition content_named (cname : bytes) : MediaContent :=
  answer_content default_options MEDIA_TYPE_VIDEO
    (Some (mkContent MEDIA_TYPE_VIDEO [] [] [] [] true true SendRecv (mkIce [] [] []) [] [] None
       [mkSsrc 4294967295 (lit "cname") cname; mkSsrc 7 (lit "msid") (lit "x")]
       [mkSsrcGroup (lit "FID") [4294967295; 7]]))
    (mkIce (lit "ice-lite") (lit "Ab+/") (lit "secret"))
    (mkCandidate RTP (lit "udp") SocketAddress.Clear 3478 5 [] [] LOCAL_PORT_TYPE (lit "12")).

Definition sample_content : MediaContent := content_named (lit "a b").

Definition describing (c : MediaContent) : @SessionDescription Uvnet.addr4 :=
  mkDescription
    (mkSessionSdp (lit "0") (lit "-") (lit "42") (lit "2") (lit "IN") (lit "IP4") (lit "0.0.0.0")
       (lit "-") (lit "0 0") (lit "a=msid-semantic: WMS"))
    [c] (empty_support (lit "video")) (empty_support (lit "audio"))
    (Some sample_fingerprint) None None.

Definition sample_description : @SessionDescription Uvnet.addr4 := describing sample_content.

Definition sample_text : bytes :=
  match to_string any_order sample_description with Ok t => t | Fail _ => [] end.

Lemma sample_printable : printable any_order sample_description.
Proof.
  constructor.
  - reflexivity.
  - split; [discriminate | by_decision].
  - by_decision.
  - split; [reflexivity|]. split; [by_decision | by_decision].
  - repeat constructor; try done; try by_decision.
  - intros ls Hls. vm_compute in Hls. apply ok_inj in Hls. subst ls. by_decision.
Qed.


(** A name that looks like an origin line: the text is printed, and its own
    parser refuses it. *)
Example not_printable :
  (txt ← to_string any_order (describing (content_named (lit "o=1")));
   lines ← SUtil.split txt crlf;
   r ← parse_sdp (new_SessionDescription : @SessionDescription Uvnet.addr4) lines; Ok (fst r))
  = Ok false.
Proof. vm_compute. reflexivity. Qed.
End Witnesses.
