(* ===== verification/IceConnection.v ===== *)
(** * udp/ice_connection.{h,cpp}: [IceConnection]

    Answers the binding requests of one remote address.  What the code sends on
    the socket is returned as datagrams. *)
From S2P Require Import Prelude.
From S2P Require ByteBuffer MessageDigest SdpTypes Stun Uvnet.
Local Open Scope Z_scope.

Section IceConnection.
Context {IpAddress : Type} `{Uvnet.IpAddressOps IpAddress} `{MessageDigest.Evp}.

Record IceConnection := mkIceConnection {
  _remote_addr : IpAddress;
  _local_addr : IpAddress;
  _id : bytes;
  _ice_pwd : bytes;
}.

Definition new_IceConnection (remote_addr local_addr : IpAddress) : IceConnection :=
  mkIceConnection remote_addr local_addr (Uvnet.toString remote_addr) [].

Definition set_ice_pwd (c : IceConnection) (pwd : bytes) : IceConnection :=
  mkIceConnection (_remote_addr c) (_local_addr c) (_id c) pwd.

Definition id (c : IceConnection) : bytes := _id c.

(** [retsp]: its class and its method stay uninitialised; the serializer does
    not look at them. *)
Definition binding_response (c : IceConnection) (trans_id : bytes) : Stun.StunPacket IpAddress :=
  let retsp :=
    Stun.mkPacket (Stun.mkHeader Stun.STUN_BINDING_RESPONSE 0 0 Stun.k_stun_magic_cookie trans_id)
      0 0 [] in
  let pptr := Stun.mkAttribute Stun.STUN_XOR_MAPPED_ADDRESS 8
                (Stun.StunAttributeXorAddress (_remote_addr c) 1) in
  Stun.add_attribute retsp pptr.

(** [sp] is the pointer [StunPacket::parse] returned. *)
Definition send_binding_response (c : IceConnection) (sp : option (Stun.StunPacket IpAddress))
    : res (IpAddress * bytes) :=
  sp ← from_opt NullDeref sp;
  let retsp := binding_response c (Stun.trans_id (Stun.hdr sp)) in
  writer ← Stun.serialize_bind_response retsp ByteBuffer.Writer.create_default (_ice_pwd c);
  data ← ByteBuffer.Writer.Data writer;
  Ok (_remote_addr c, data).

Definition on_udp_data (c : IceConnection) (data : bytes) : res (option (IpAddress * bytes)) :=
  stun ← Stun.is_stun data;
  if negb stun then Ok None
  else
    sp ← Stun.parse data;
    Some <$> send_binding_response c sp.

(** ** What is sent *)

Lemma send_binding_response_ok c p :
  zlen (Stun.trans_id (Stun.hdr p)) = 12 ->
  send_binding_response c (Some p) =
    Ok (_remote_addr c, Stun.response (_ice_pwd c) (Stun.trans_id (Stun.hdr p)) 1 (_remote_addr c)).
Proof.
  intros Ht. unfold send_binding_response. set (tid := Stun.trans_id (Stun.hdr p)) in *.
  destruct (Stun.serialize_response (_ice_pwd c) tid 1 (_remote_addr c) Ht) as (wr & Es & Ed).
  assert (Eb : binding_response c tid = Stun.response_packet tid 1 (_remote_addr c)) by reflexivity.
  rewrite from_opt_Some, bind_ok. cbv zeta. fold tid. by rewrite Eb, Es, bind_ok, Ed, bind_ok.
Qed.

(** A parsed packet has a transaction id of twelve bytes. *)
Lemma parse_trans_id data p :
  Stun.parse data = Ok (Some p) -> zlen (Stun.trans_id (Stun.hdr (IpAddress := IpAddress) p)) = 12.
Proof.
  unfold Stun.parse. intros Hp. apply res_bind_ok in Hp as (b & _ & Hp).
  destruct (negb b); [done|]. apply res_bind_ok in Hp as (h & Hh & Hp).
  destruct (_ || _); [done|]. apply res_bind_ok in Hp as (f & _ & Hp). destruct (negb f); [done|].
  apply res_bind_ok in Hp as (d0 & _ & Hp). apply res_bind_ok in Hp as (d1 & _ & Hp).
  apply res_bind_ok in Hp as (t & _ & Hp). apply res_bind_ok in Hp as (at_ & _ & Hp).
  injection Hp as <-. cbn. unfold Stun.header_of in Hh.
  apply res_bind_ok in Hh as (? & _ & Hh). apply res_bind_ok in Hh as (? & _ & Hh).
  apply res_bind_ok in Hh as (? & _ & Hh). apply res_bind_ok in Hh as (i & Hi & Hh).
  injection Hh as <-. cbn. by eapply mem_read_length.
Qed.

(** Every request that parses is answered, without authentication. *)
Lemma on_udp_data_answers c data (p : Stun.StunPacket IpAddress) :
  Stun.is_stun data = Ok true -> Stun.parse data = Ok (Some p) ->
  on_udp_data c data =
    Ok (Some (_remote_addr c,
        Stun.response (_ice_pwd c) (Stun.trans_id (Stun.hdr p)) 1 (_remote_addr c))).
Proof.
  intros Hs Hp. unfold on_udp_data. rewrite Hs. cbn [mbind res_bind negb]. rewrite Hp.
  cbn [mbind res_bind]. by rewrite send_binding_response_ok by by eapply parse_trans_id.
Qed.

Lemma on_udp_data_crash c data :
  Stun.is_stun data = Ok true -> Stun.parse (IpAddress := IpAddress) data = Ok None ->
  on_udp_data c data = Fail NullDeref.
Proof. intros Hs Hp. unfold on_udp_data. rewrite Hs. cbn [mbind res_bind negb]. by rewrite Hp. Qed.
End IceConnection.
Arguments IceConnection IpAddress : clear implicits.
