(* ===== verification/RoomMember.v ===== *)
(** * signaling/room_member.{h,cpp}, udp/udp_receiver.{h,cpp}: [RoomMember]

    Where the datagrams of one member arrive: each is STUN, SRTP or DTLS, and
    goes to the objects kept for its source address.  The transports and the
    stream manager are shared by all members, so they are the state [sfu] that
    every handler takes and returns.  The socket's buffer belongs to uvnet: it
    gives the handler the datagram, and [reset_view] is what [read_ptr] points
    to after [reset]. *)
From S2P Require Import Prelude SdpTypes.
From S2P Require RtpRtcp PortMgr SslFingerprint MessageDigest Uvnet Stun Dtls Srtp RtcStreamMgr Sdp.
From S2P Require IceConnection.
Local Open Scope Z_scope.

Section RoomMember.
Context {IpAddr : Type} `{Uvnet.IpAddressOps IpAddr} `{MessageDigest.Evp}.
Context {ctx : Type} `{Srtp.SrtpLib ctx} {A : Type} `{Dtls.SslAdapter A}.

(** The adapter [SSLStreamAdapter::Create] makes, the order of an
    [unordered_map], and the buffer of uvnet. *)
Context (new_adapter : A) (order : gmap bytes nat -> list (bytes * nat)) (reset_view : bytes -> bytes).

(** ** UdpReceiver *)

(** [_udp] is set by [start] when there is a server to bind on; binding a
    port of the manager is taken to succeed. *)
Record UdpReceiver := mkReceiver { recv_addr : IpAddr; recv_server : bool; _udp : option nat }.

Definition new_UdpReceiver (addr : IpAddr) (server : bool) : UdpReceiver := mkReceiver addr server None.

Definition receiver_start (us : Uvnet.udps) (r : UdpReceiver) : Uvnet.udps * UdpReceiver :=
  if negb (recv_server r) then (us, r)
  else
    let '(udp, us) := Uvnet.addBind us in
    (us, mkReceiver (recv_addr r) (recv_server r) (Some udp)).

(** [close] with [deleter], after which the socket counts as deleted: libuv
    runs the deleter at the end of the loop's iteration. *)
Definition receiver_stop (us : Uvnet.udps) (r : UdpReceiver) : res Uvnet.udps :=
  udp ← from_opt NullDeref (_udp r);
  _ ← require (bool_decide (udp ∈ Uvnet.alive us)) Dangling;
  Ok (Uvnet.delete_udp us udp).

(** ** RoomMember *)

Record MemberUdpPorts := mkPorts {
  ice_connection : option (IceConnection.IceConnection IpAddr);
  dtls_connection : option (Dtls.RtcDtls A);
  srtp : option nat;
}.

Definition new_ports : MemberUdpPorts := mkPorts None None None.

Record RoomMember := mkMember {
  uid : bytes;
  offer_sdp : option (@Sdp.SessionDescription IpAddr);
  answer_sdp : option (@Sdp.SessionDescription IpAddr);
  udp_receiver : option UdpReceiver;
  udp_handles : gmap bytes MemberUdpPorts;
  _addr : IpAddr;
}.

(** What the members share: the port manager, the stream manager, and the
    transports with the datagrams sent. *)
Record sfu := mkSfu {
  ports : PortMgr.UdpPortManager;
  streams : RtcStreamMgr.RtcStreamMgr;
  srtp_world : Srtp.world ctx IpAddr;
}.

Definition set_world (s : sfu) (w : Srtp.world ctx IpAddr) : sfu := mkSfu (ports s) (streams s) w.

Definition set_udps (s : sfu) (us : Uvnet.udps) : sfu :=
  let w := srtp_world s in
  set_world s (Srtp.mkWorld (Srtp._srtp_init w) (Srtp.transports w) (Srtp.net w) us).

Definition sent (s : sfu) (d : IpAddr * bytes) : sfu :=
  set_world s (Srtp.sent (srtp_world s) (fst d) (snd d)).

Definition send2 (s : sfu) (udp : nat) (d : IpAddr * bytes) : res sfu :=
  w ← Srtp.send2 (srtp_world s) udp (fst d) (snd d); Ok (set_world s w).

Definition set_handles (m : RoomMember) (hs : gmap bytes MemberUdpPorts) : RoomMember :=
  mkMember (uid m) (offer_sdp m) (answer_sdp m) (udp_receiver m) hs (_addr m).

(** [up] is shared with the map, so every change to it is one to the map. *)
Definition put (m : RoomMember) (key : bytes) (up : MemberUdpPorts) : RoomMember :=
  set_handles m (<[key := up]> (udp_handles m)).

(** A receiver the member had is freed, but not stopped: its socket stays
    bound, with a callback on the freed object. *)
Definition start_recv (s : sfu) (m : RoomMember) (udp_server : bool) (addr : IpAddr) : sfu * RoomMember :=
  let '(us, r) := receiver_start (Srtp.udps (srtp_world s)) (new_UdpReceiver addr udp_server) in
  (set_udps s us,
   mkMember (uid m) (offer_sdp m) (answer_sdp m) (Some r) (udp_handles m) addr).

Definition stop_recv (s : sfu) (m : RoomMember) : res (sfu * RoomMember) :=
  match udp_receiver m with
  | None => Ok (s, m)
  | Some r =>
      us ← receiver_stop (Srtp.udps (srtp_world s)) r;
      let s := set_udps s us in
      ps ← PortMgr.recycle_port (ports s) (Uvnet.getPort (_addr m));
      Ok (mkSfu ps (streams s) (srtp_world s),
          mkMember (uid m) (offer_sdp m) (answer_sdp m) None (udp_handles m) (_addr m))
  end.

Definition destory_ports (up : MemberUdpPorts) : MemberUdpPorts :=
  mkPorts (ice_connection up) (Dtls.destory <$> dtls_connection up) (srtp up).

Definition destory (s : sfu) (m : RoomMember) : res (sfu * RoomMember) :=
  w ← RtcStreamMgr.remove_subscriber (streams s) (srtp_world s) (uid m);
  Ok (set_world s w, set_handles m (destory_ports <$> udp_handles m)).

(** *** A STUN packet from an address without an ICE connection *)

Definition new_connection (s : sfu) (m : RoomMember) (udp : nat) (addr : IpAddr) (up : MemberUdpPorts)
    (data : bytes) : res (sfu * RoomMember) :=
  sp ← Stun.parse data;
  answer ← from_opt NullDeref (answer_sdp m);
  flag ← match Sdp.media_contents answer with
         | [] => Ok true
         | c :: _ =>
             sp ← from_opt NullDeref sp;
             '(flag, _) ← Stun.validate sp (Sdp.ice c) (reset_view data); Ok flag
         end;
  if (flag : bool) then
    c ← from_opt OutOfBounds (head (Sdp.media_contents answer));
    let ptr := IceConnection.set_ice_pwd (IceConnection.new_IceConnection addr (_addr m))
                 (passwd (Sdp.ice c)) in
    d ← IceConnection.send_binding_response ptr sp;
    s ← send2 s udp d;
    Ok (s, put m (Uvnet.toString addr) (mkPorts (Some ptr) (dtls_connection up) (srtp up)))
  else Ok (s, m).

(** *** A packet of media *)

(** [up->srtp], made with its keys when it is missing; the flag says whether
    the handler goes on. *)
Definition media_transport (s : sfu) (udp : nat) (addr : IpAddr) (up : MemberUdpPorts) (d : Dtls.RtcDtls A)
    : res (sfu * MemberUdpPorts * option nat) :=
  match srtp up with
  | Some t => Ok (s, up, Some t)
  | None =>
      let w := srtp_world s in
      let t := fresh (dom (Srtp.transports w)) in
      let w := Srtp.set_transport w t (Srtp.new_transport udp addr) in
      let up := mkPorts (ice_connection up) (dtls_connection up) (Some t) in
      keys ← Dtls.extract_srtp_keys d;
      match keys with
      | Some (cs, send_key, recv_key) =>
          '(_, w) ← Srtp.set_srtp_param w t cs send_key cs recv_key;
          Ok (set_world s w, up, Some t)
      | None => Ok (set_world s w, up, None)
      end
  end.

Definition handle_media (s : sfu) (m : RoomMember) (udp : nat) (addr : IpAddr) (up : MemberUdpPorts)
    (rtcp : bool) (data : bytes) : res (sfu * RoomMember) :=
  match dtls_connection up with
  | None => Ok (s, m)
  | Some d =>
      '(s, up, t) ← media_transport s udp addr up d;
      let m := put m (Uvnet.toString addr) up in
      match t with
      | None => Ok (s, m)
      | Some t =>
          '(mgr, w) ← RtcStreamMgr.add_stream (streams s) (srtp_world s) (uid m)
                        (Uvnet.toString addr) t;
          w ← (if rtcp then Srtp.handle_rtcp_data order w t data
               else Srtp.handle_rtp_data order w t data);
          Ok (mkSfu (ports s) mgr w, m)
      end
  end.

(** *** A DTLS packet *)

(** [up->dtls_connection], made for the peer's fingerprint when missing. *)
Definition dtls_for (m : RoomMember) (up : MemberUdpPorts) : res MemberUdpPorts :=
  match dtls_connection up with
  | Some _ => Ok up
  | None =>
      offer ← from_opt NullDeref (offer_sdp m);
      c ← from_opt OutOfBounds (head (Sdp.media_contents offer));
      p ← from_opt NullDeref (Sdp.dtls c);
      match identity_fp p with
      | None => Ok up
      | Some fp =>
          d ← Dtls.new_RtcDtls new_adapter;
          d ← Dtls.set_remote_dtls d (SslFingerprint.algorithm fp) (SslFingerprint.digest fp);
          '(flag, d) ← Dtls.setup_dtls d;
          Ok (if (flag : bool) then mkPorts (ice_connection up) (Some d) (srtp up) else up)
      end
  end.

Definition handle_dtls (m : RoomMember) (addr : IpAddr) (up : MemberUdpPorts) (data : bytes)
    : res RoomMember :=
  up ← dtls_for m up;
  match dtls_connection up with
  | None => Ok (put m (Uvnet.toString addr) up)
  | Some d =>
      d ← Dtls.handle_dtls d data;
      Ok (put m (Uvnet.toString addr) (mkPorts (ice_connection up) (Some d) (srtp up)))
  end.

(** *** Every datagram *)

(** [udp] is the socket it arrived on. *)
Definition on_udp_receive (s : sfu) (m : RoomMember) (udp : nat) (addr : IpAddr) (data : bytes)
    : res (sfu * RoomMember) :=
  let key := Uvnet.toString addr in
  let up := default new_ports (udp_handles m !! key) in
  let m := put m key up in
  stun ← Stun.is_stun data;
  if stun : bool then
    match ice_connection up with
    | Some c =>
        out ← IceConnection.on_udp_data c data;
        s ← match out with Some d => send2 s udp d | None => Ok s end;
        Ok (s, m)
    | None => new_connection s m udp addr up data
    end
  else
    rtcp ← RtpRtcp.is_rtcp data;
    rtp ← (if (rtcp : bool) then Ok true else RtpRtcp.is_rtp data);
    if rtp : bool then handle_media s m udp addr up rtcp data
    else
      dtls ← Dtls.is_dtls data;
      if dtls : bool then m ← handle_dtls m addr up data; Ok (s, m) else Ok (s, m).

(** ** Classification *)

Lemma stun_class data :
  exists b, Stun.is_stun data = Ok b /\ (b = true -> exists b0 r, data = b0 :: r /\ b0 < 3).
Proof.
  unfold Stun.is_stun, Stun.STUN_HEADER_SIZE. destruct (Z.leb_spec 20 (zlen data)) as [Hl|]; [|by eexists].
  destruct data as [|b0 r]; [done|]. change (mem_get (b0 :: r) 0) with (Ok b0).
  rewrite bind_ok, mem_read_ok by lia. rewrite bind_ok.
  destruct (Z.ltb_spec b0 3); [|by eexists]. cbn [andb]. case_bool_decide; [|by eexists].
  unfold Stun.header_of, ByteOrder.load. rewrite !mem_read_ok by lia.
  cbn [mbind res_bind fmap res_fmap]. eexists. split; [done|]. eauto.
Qed.

Lemma rtp_first b0 : (127 <? b0) && (b0 <? 192) = true -> 128 <= b0 < 192.
Proof. rewrite andb_true_iff, !Z.ltb_lt. lia. Qed.

Lemma rtcp_class data :
  exists b, RtpRtcp.is_rtcp data = Ok b /\ (b = true -> exists b0 r, data = b0 :: r /\ 128 <= b0 < 192).
Proof.
  destruct data as [|b0 [|b1 [|b2 [|b3 r]]]]; try (by eexists; split).
  unfold RtpRtcp.is_rtcp, RtpRtcp.sizeof_rtcp_common_header.
  rewrite (proj2 (Z.leb_le 4 _)) by (rewrite !zlen_cons; pose proof (zlen_nonneg r); lia).
  change (mem_get (b0 :: _) 0) with (Ok b0). cbn [negb mbind res_bind].
  destruct (_ && _) eqn:E; cbn [negb]; [|by eexists]. apply rtp_first in E.
  rewrite RtpRtcp.rtcp_header_ok. cbn [mbind res_bind]. eexists. split; [done|]. eauto.
Qed.

Lemma rtp_class data :
  exists b, RtpRtcp.is_rtp data = Ok b /\ (b = true -> exists b0 r, data = b0 :: r /\ 128 <= b0 < 192).
Proof.
  unfold RtpRtcp.is_rtp, RtpRtcp.sizeof_rtp_common_header.
  destruct (Z.leb_spec 12 (zlen data)) as [Hl|]; cbn [negb]; [|by eexists].
  destruct data as [|b0 [|b1 r]]; [done|done|].
  change (mem_get (b0 :: _) 0) with (Ok b0). cbn [negb mbind res_bind].
  destruct (_ && _) eqn:E; cbn [negb]; [|by eexists]. apply rtp_first in E.
  unfold RtpRtcp.rtp_header. rewrite !mem_read_ok by lia.
  change (mem_get (b0 :: _) 0) with (Ok b0). change (mem_get (b0 :: b1 :: _) 1) with (Ok b1).
  cbn [negb mbind res_bind]. eexists. split; [done|]. eauto.
Qed.

Lemma dtls_class data :
  exists b, Dtls.is_dtls data = Ok b /\ (b = true -> exists b0 r, data = b0 :: r /\ 20 <= b0 < 64).
Proof.
  unfold Dtls.is_dtls. destruct (Z.leb_spec 13 (zlen data)); [|by eexists].
  destruct data as [|b0 r]; [done|]. change (mem_get (b0 :: r) 0) with (Ok b0). cbn [mbind res_bind].
  eexists. split; [done|]. rewrite andb_true_iff, !Z.ltb_lt. intros ?. exists b0, r. split; [done|lia].
Qed.

(** The entry [on_udp_receive] works on. *)
Definition entry (m : RoomMember) (addr : IpAddr) : MemberUdpPorts :=
  default new_ports (udp_handles m !! Uvnet.toString addr).

(** ** The state the members share *)

(** Every transport has its sessions. *)
Definition with_sessions (st : Srtp.SrtpTransport ctx IpAddr) : Prop :=
  is_Some (Srtp._send_session st) /\ is_Some (Srtp._recv_session st).

Record sfu_ok (s : sfu) : Prop := {
  ok_world : Srtp.world_ok (srtp_world s);
  ok_sessions : map_Forall (fun _ st => with_sessions st) (Srtp.transports (srtp_world s));
  ok_streams : map_Forall (fun _ t => RtcStreamMgr.live (srtp_world s) t)
                 (RtcStreamMgr._streams (streams s));
  ok_init : Srtp.transports (srtp_world s) <> ∅ -> Srtp._srtp_init (srtp_world s) = true;
}.

Definition ports_ok (s : sfu) (up : MemberUdpPorts) : Prop :=
  match srtp up with Some t => RtcStreamMgr.live (srtp_world s) t | None => True end /\
  match dtls_connection up with Some d => is_Some (Dtls._dtls_adapter d) | None => True end.

(** A member that has published or pulled: it has an answer with a content,
    and an offer whose first content has a fingerprint attribute. *)
Record member_ok (s : sfu) (m : RoomMember) : Prop := {
  ok_answer : exists a c cs, answer_sdp m = Some a /\ Sdp.media_contents a = c :: cs;
  ok_offer : exists o c cs p, offer_sdp m = Some o /\ Sdp.media_contents o = c :: cs /\
               Sdp.dtls c = Some p;
  ok_handles : map_Forall (fun _ up => ports_ok s up) (udp_handles m);
}.

(** Transports are never taken out of the store. *)
Definition grows (s s' : sfu) : Prop :=
  forall t, RtcStreamMgr.live (srtp_world s) t -> RtcStreamMgr.live (srtp_world s') t.

Lemma grows_refl s : grows s s.
Proof. by intros t. Qed.
Lemma grows_trans s1 s2 s3 : grows s1 s2 -> grows s2 s3 -> grows s1 s3.
Proof. unfold grows. auto. Qed.

Lemma ports_ok_grows s s' up : grows s s' -> ports_ok s up -> ports_ok s' up.
Proof. intros Hg [Ht Hd]. split; [|done]. destruct (srtp up); [by apply Hg|done]. Qed.

Lemma member_ok_grows s s' m : grows s s' -> member_ok s m -> member_ok s' m.
Proof.
  intros Hg [Ha Ho Hh]. split; [done..|]. intros k up E. eapply ports_ok_grows; [done|]. by eapply Hh.
Qed.

Lemma member_ok_put s m key up : member_ok s m -> ports_ok s up -> member_ok s (put m key up).
Proof.
  intros [Ha Ho Hh] Hu. split; [done..|]. cbn. by apply map_Forall_insert_2.
Qed.

Lemma ports_ok_new s : ports_ok s new_ports.
Proof. by split. Qed.

Lemma member_ok_entry s m key : member_ok s m -> ports_ok s (default new_ports (udp_handles m !! key)).
Proof.
  intros Hm. destruct (udp_handles m !! key) as [up|] eqn:E; cbn; [|apply ports_ok_new].
  by apply (ok_handles s m Hm key).
Qed.

Lemma sfu_ok_send s d : sfu_ok s -> sfu_ok (sent s d) /\ grows s (sent s d).
Proof. intros [Hw Hs Hl Hi]. split; [by split|]. by intros t. Qed.

(** The socket [udp] has not been deleted. *)
Definition udp_open (s : sfu) (udp : nat) : Prop := udp ∈ Uvnet.alive (Srtp.udps (srtp_world s)).

Lemma send2_open s udp d : udp_open s udp -> send2 s udp d = Ok (sent s d).
Proof. intros Ho. unfold send2, Srtp.send2. by rewrite bool_decide_eq_true_2 by exact Ho. Qed.

Lemma send2_sent s udp d s' : send2 s udp d = Ok s' -> s' = sent s d.
Proof.
  unfold send2, Srtp.send2. intros E. apply res_bind_ok in E as (w & E & <-%ok_inj).
  apply res_bind_ok in E as (? & _ & <-%ok_inj). done.
Qed.

(** ** Media *)

Lemma insert_live (w : Srtp.world ctx IpAddr) t st u :
  RtcStreamMgr.live w u -> RtcStreamMgr.live (Srtp.set_transport w t st) u.
Proof.
  intros Hu. unfold RtcStreamMgr.live. cbn. destruct (decide (u = t)) as [->|].
  - rewrite lookup_insert_eq. by eexists.
  - by rewrite lookup_insert_ne.
Qed.

(** Putting a transport whose parts are well formed into the store. *)
Lemma sfu_ok_set s t st b :
  sfu_ok s -> with_sessions st -> Srtp.opt_ok (Srtp._send_session st) -> Srtp.opt_ok (Srtp._recv_session st) ->
  map_Forall (fun _ q => RtcStreamMgr.live (Srtp.set_transport (srtp_world s) t st) q) (Srtp._subs_map st) ->
  b = true ->
  let w := Srtp.mkWorld b (<[t := st]> (Srtp.transports (srtp_world s))) (Srtp.net (srtp_world s))
    (Srtp.udps (srtp_world s)) in
  sfu_ok (set_world s w) /\ grows s (set_world s w) /\ RtcStreamMgr.live w t.
Proof.
  intros [Hw Hs Hl Hi] Hst Hsend Hrecv Hsubs ->. cbv zeta.
  assert (Hg : forall u, RtcStreamMgr.live (srtp_world s) u ->
    is_Some ((<[t := st]> (Srtp.transports (srtp_world s))) !! u)) by apply insert_live.
  split; [|split; [exact Hg|unfold RtcStreamMgr.live; cbn; rewrite lookup_insert_eq; by eexists]].
  split; cbn.
  - intros q sq Hq. cbn in Hq. apply lookup_insert_Some in Hq as [[<- <-]|[_ Hq]]; [by split_and!|].
    destruct (Hw q sq Hq) as (A1 & A2 & A3). split; [done|]. split; [done|].
    intros k u Hu. apply Hg. by eapply A3.
  - by apply map_Forall_insert_2.
  - intros u q Hu. apply Hg. by apply (Hl u).
  - done.
Qed.

(** libsrtp can be started. *)
Definition libsrtp_starts : Prop :=
  Srtp.srtp_init (ctx := ctx) = 0 /\ Srtp.srtp_install_event_handler (ctx := ctx) = 0.

Lemma set_srtp_param_new (w : Srtp.world ctx IpAddr) t udp addr cs k k' :
  libsrtp_starts ->
  let w := Srtp.set_transport w t (Srtp.new_transport udp addr) in
  exists st, Srtp.set_srtp_param w t cs k cs k' =
      Ok (true, Srtp.mkWorld true (<[t := st]> (Srtp.transports w)) (Srtp.net w) (Srtp.udps w)) /\
    with_sessions st /\ Srtp.opt_ok (Srtp._send_session st) /\ Srtp.opt_ok (Srtp._recv_session st) /\
    Srtp._subs_map st = ∅ /\ Srtp._udp st = udp /\ Srtp._addr st = addr.
Proof.
  intros [Ei Eh]. cbv zeta. unfold Srtp.set_srtp_param, Srtp.get_transport.
  assert (El : Srtp.transports (Srtp.set_transport w t (Srtp.new_transport udp addr)) !! t =
    Some (Srtp.new_transport udp addr)) by apply lookup_insert_eq.
  rewrite El. cbn [from_opt mbind res_bind Srtp._send_session Srtp._recv_session Srtp.new_transport default].
  destruct (Srtp.set_send Srtp.new_session cs k) as [b1 s1] eqn:E1.
  destruct (Srtp.set_recv Srtp.new_session cs k') as [b2 s2] eqn:E2.
  exists (Srtp.mkTransport ∅ (Some s1) (Some s2) udp addr). rewrite Ei, Eh. cbn [Z.eqb negb].
  split; [|split_and!; try (by eexists); try done;
    [by eapply (Srtp.set_key_ok Srtp.new_session) in E1|by eapply (Srtp.set_key_ok Srtp.new_session) in E2]].
  destruct (Srtp._srtp_init (Srtp.set_transport w t _)) eqn:Ew; cbn [negb]; [|done].
  unfold Srtp.set_transport at 1. by rewrite Ew.
Qed.

(** Any change of a transport that keeps its sessions and adds live
    subscribers only. *)
Lemma sfu_ok_on s t f :
  sfu_ok s -> RtcStreamMgr.live (srtp_world s) t ->
  (forall st, Srtp._send_session (f st) = Srtp._send_session st /\
              Srtp._recv_session (f st) = Srtp._recv_session st) ->
  (forall st, map_Forall (fun _ q => RtcStreamMgr.live (srtp_world s) q) (Srtp._subs_map st) ->
              map_Forall (fun _ q => RtcStreamMgr.live (srtp_world s) q) (Srtp._subs_map (f st))) ->
  exists w, RtcStreamMgr.on_transport (srtp_world s) t f = Ok w /\
    sfu_ok (set_world s w) /\ grows s (set_world s w).
Proof.
  intros Hs Ht Hses Hsub. destruct (RtcStreamMgr.on_transport_ok (srtp_world s) t f Ht) as (st & Est & ->).
  eexists. split; [done|]. destruct (Hses st) as [E1 E2].
  destruct (ok_world s Hs t st Est) as (P1 & P2 & P3). pose proof (ok_sessions s Hs t st Est) as [P4 P5].
  destruct (sfu_ok_set s t (f st) (Srtp._srtp_init (srtp_world s)) Hs) as (Hok & Hg & _).
  - by split; rewrite ?E1, ?E2.
  - by rewrite E1.
  - by rewrite E2.
  - intros k q Hq. apply insert_live. by eapply (Hsub st).
  - apply (ok_init s Hs). intros E. by rewrite E, lookup_empty in Est.
  - done.
Qed.

Lemma add_live (P : nat -> Prop) (m : gmap bytes nat) k q :
  P q -> map_Forall (fun _ x => P x) m -> map_Forall (fun _ x => P x) (<[k := q]> m).
Proof. intros. by apply map_Forall_insert_2. Qed.

Lemma sfu_ok_streams s u t :
  sfu_ok s -> RtcStreamMgr.live (srtp_world s) t ->
  let mgr := RtcStreamMgr.mkMgr (RtcStreamMgr._subs_map (streams s))
               (<[u := t]> (RtcStreamMgr._streams (streams s))) in
  sfu_ok (mkSfu (ports s) mgr (srtp_world s)).
Proof. intros [Hw Hs Hl Hi] Ht. split; [done..| |done]. by apply add_live. Qed.

Lemma add_stream_ok s u addr t :
  sfu_ok s -> RtcStreamMgr.live (srtp_world s) t ->
  exists mgr w, RtcStreamMgr.add_stream (streams s) (srtp_world s) u addr t = Ok (mgr, w) /\
    sfu_ok (mkSfu (ports s) mgr w) /\ grows s (mkSfu (ports s) mgr w).
Proof.
  intros Hs Ht. unfold RtcStreamMgr.add_stream. pose proof (sfu_ok_streams s u t Hs Ht) as Hs1.
  set (mgr := RtcStreamMgr.mkMgr _ _) in *. cbv zeta in Hs1.
  assert (Hsame : exists mgr' w, Ok (mgr, srtp_world s) = Ok (mgr', w) /\
    sfu_ok (mkSfu (ports s) mgr' w) /\ grows s (mkSfu (ports s) mgr' w)).
  { exists mgr, (srtp_world s). split; [done|]. split; [done|by intros q]. }
  destruct (RtcStreamMgr._subs_map mgr !! u) as [[target x]|]; [|exact Hsame].
  destruct (RtcStreamMgr._streams mgr !! target) as [sit|] eqn:Et; [|exact Hsame]. clear Hsame.
  pose proof (ok_streams _ Hs1 _ _ Et) as Hsit.
  destruct (sfu_ok_on _ sit (fun x => Srtp.add_subscriber x u t) Hs1 Hsit) as (w1 & E1 & Hs2 & Hg2);
    [done|intros st ?; by apply add_live|].
  cbn [srtp_world] in E1. rewrite E1, bind_ok.
  destruct (sfu_ok_on _ t (fun x => Srtp.add_subscriber x target sit) Hs2) as (w2 & E2 & Hs3 & Hg3);
    [by apply Hg2|done|intros st ?; apply add_live; [by apply Hg2|done]|].
  cbn [srtp_world set_world] in E2. rewrite E2, bind_ok.
  exists mgr, w2. split; [done|]. split; [exact Hs3|]. exact (grows_trans s _ _ Hg2 Hg3).
Qed.

Context (order_perm : forall m, order m ≡ₚ map_to_list m).

(** *** The sockets media goes out on *)

(** The transport [S] sends on a socket that has not been deleted. *)
Definition transport_open (w : Srtp.world ctx IpAddr) (S : nat) : Prop :=
  exists st, Srtp.transports w !! S = Some st /\ Srtp.socket_open w st.

(** The transports a packet may be forwarded to that arrives for a member
    named [u] at the entry [up]: those its transport is linked to, and the
    stream of the member that [u] pulls, to which [add_stream] links it. *)
Definition forwards_to (s : sfu) (u : bytes) (up : MemberUdpPorts) (S : nat) : Prop :=
  (exists T k, srtp up = Some T /\ RtcStreamMgr.link (srtp_world s) T k S) \/
  exists target x, RtcStreamMgr._subs_map (streams s) !! u = Some (target, x) /\
    if decide (target = u) then srtp up = Some S
    else RtcStreamMgr._streams (streams s) !! target = Some S.

Definition links_open (s : sfu) (u : bytes) (up : MemberUdpPorts) : Prop :=
  forall S, forwards_to s u up S -> transport_open (srtp_world s) S.

(** No socket is made or deleted and no transport changes its own. *)
Record same_sockets (w w' : Srtp.world ctx IpAddr) : Prop := {
  same_udps : Srtp.udps w' = Srtp.udps w;
  same_udp : forall S st, Srtp.transports w !! S = Some st ->
    exists st', Srtp.transports w' !! S = Some st' /\ Srtp._udp st' = Srtp._udp st;
}.

Lemma same_sockets_refl w : same_sockets w w.
Proof. split; [done|]. eauto. Qed.

Lemma sent_sockets s d : same_sockets (srtp_world s) (srtp_world (sent s d)).
Proof. split; [done|]. eauto. Qed.

Lemma same_sockets_trans w1 w2 w3 : same_sockets w1 w2 -> same_sockets w2 w3 -> same_sockets w1 w3.
Proof.
  intros [E1 H1'] [E2 H2']. split; [congruence|]. intros S st HS.
  destruct (H1' S st HS) as (st1 & HS1 & Eu1). destruct (H2' S st1 HS1) as (st2 & HS2 & Eu2).
  exists st2. split; [done|congruence].
Qed.

Lemma same_sockets_open w w' S : same_sockets w w' -> transport_open w S -> transport_open w' S.
Proof.
  intros [E Hs] (st & HS & Ho). destruct (Hs S st HS) as (st' & HS' & Eu). exists st'.
  split; [done|]. unfold Srtp.socket_open in *. by rewrite E, Eu.
Qed.

Lemma same_sockets_insert (w : Srtp.world ctx IpAddr) t st b n :
  (forall x, Srtp.transports w !! t = Some x -> Srtp._udp st = Srtp._udp x) ->
  same_sockets w (Srtp.mkWorld b (<[t := st]> (Srtp.transports w)) n (Srtp.udps w)).
Proof.
  intros Hu. split; [done|]. intros S x HS. cbn. destruct (decide (S = t)) as [->|].
  - rewrite lookup_insert_eq. exists st. split; [done|by apply Hu].
  - rewrite lookup_insert_ne by done. by exists x.
Qed.

Lemma on_transport_sockets (w w' : Srtp.world ctx IpAddr) t f :
  (forall st, Srtp._udp (f st) = Srtp._udp st) ->
  RtcStreamMgr.on_transport w t f = Ok w' -> same_sockets w w'.
Proof.
  intros Hf E. apply res_bind_ok in E as (st & Est & E). apply ok_inj in E as <-.
  unfold Srtp.get_transport in Est. destruct (Srtp.transports w !! t) as [x|] eqn:Et; [|done].
  apply ok_inj in Est as ->. apply same_sockets_insert. intros y Hy. rewrite Et in Hy.
  injection Hy as <-. apply Hf.
Qed.

Lemma add_stream_sockets mgr mgr' (w w' : Srtp.world ctx IpAddr) u addr t :
  RtcStreamMgr.add_stream mgr w u addr t = Ok (mgr', w') -> same_sockets w w'.
Proof.
  unfold RtcStreamMgr.add_stream. intros E.
  repeat case_match; try (injection E as _ <-; apply same_sockets_refl).
  apply res_bind_ok in E as (w1 & E1%on_transport_sockets & E); [|done].
  apply res_bind_ok in E as (w2 & E2%on_transport_sockets & E); [|done]. injection E as _ <-.
  by eapply same_sockets_trans.
Qed.

Lemma ready_in s t st :
  sfu_ok s -> Srtp.transports (srtp_world s) !! t = Some st ->
  (forall k S, RtcStreamMgr.link (srtp_world s) t k S -> transport_open (srtp_world s) S) ->
  Srtp.subscribers_ready (srtp_world s) st.
Proof.
  intros Hs Et Hopen k q Hq.
  destruct (Hopen k q) as (sq & Esq & Ho); [by exists st|].
  exists sq. split; [done|]. split; [|done]. by apply (ok_sessions s Hs q).
Qed.

Lemma sfu_ok_same s w :
  sfu_ok s -> Srtp.world_ok w -> Srtp.same_world (srtp_world s) w ->
  sfu_ok (set_world s w) /\ grows s (set_world s w).
Proof.
  intros Hs Hw Hsame. assert (Hg : grows s (set_world s w)) by (intros t; by apply Srtp.same_world_live).
  split; [|done]. destruct Hsame as [[Ei _] Hsh]. split; cbn.
  - done.
  - intros t st Et. specialize (Hsh t). rewrite Et in Hsh.
    destruct (Srtp.transports (srtp_world s) !! t) as [a|] eqn:Ea; [|done].
    destruct (ok_sessions s Hs t a Ea) as [P1 P2]. destruct Hsh as (_ & _ & E1 & E2 & _).
    split; [by apply E1|by apply E2].
  - intros u t Hu. apply Hg. by apply (ok_streams s Hs u).
  - intros Hne. rewrite Ei. apply (ok_init s Hs). intros E. apply Hne. apply map_eq. intros t.
    specialize (Hsh t). rewrite E, lookup_empty in Hsh. rewrite lookup_empty.
    by destruct (Srtp.transports w !! t).
Qed.

(** The keys can be exported when a transport has to be made for them. *)
Definition keys_ready (up : MemberUdpPorts) : Prop :=
  match dtls_connection up, srtp up with
  | Some d, None => exists k, Dtls.extract_srtp_keys d = Ok (Some k)
  | _, _ => True
  end.

Lemma set_handles_same m : m = set_handles m (udp_handles m).
Proof. by destruct m. Qed.

(** What handling a datagram keeps: only the entries of the member change, and
    no port. *)
Definition keeps (s : sfu) (m : RoomMember) (r : res (sfu * RoomMember)) : Prop :=
  exists s' m', r = Ok (s', m') /\ sfu_ok s' /\ member_ok s' m' /\ grows s s' /\
    m' = set_handles m (udp_handles m') /\ ports s' = ports s /\
    same_sockets (srtp_world s) (srtp_world s').

Lemma keeps_put s m key up r : keeps s (put m key up) r -> keeps s m r.
Proof. by intros Hk. Qed.

(** After it, the transport forwards to what it forwarded to before, and to
    nothing when it is new. *)
Lemma media_transport_ok s udp addr up d :
  libsrtp_starts -> sfu_ok s -> ports_ok s up -> dtls_connection up = Some d -> keys_ready up ->
  exists s' up' t, media_transport s udp addr up d = Ok (s', up', Some t) /\ sfu_ok s' /\ grows s s' /\
    ports_ok s' up' /\ RtcStreamMgr.live (srtp_world s') t /\ srtp up' = Some t /\ ice_connection up' = ice_connection up /\
    Srtp.net (srtp_world s') = Srtp.net (srtp_world s) /\ ports s' = ports s /\
    streams s' = streams s /\ same_sockets (srtp_world s) (srtp_world s') /\
    (srtp up = Some t \/ srtp up = None /\ (udp_open s udp -> transport_open (srtp_world s') t)) /\
    (forall k S, RtcStreamMgr.link (srtp_world s') t k S ->
       srtp up = Some t /\ RtcStreamMgr.link (srtp_world s) t k S).
Proof.
  intros Hl Hs [Ht Hd] Ed Hk. unfold media_transport, keys_ready in *. rewrite Ed in *.
  destruct (srtp up) as [t|] eqn:Et.
  { exists s, up, t. split; [done|]. split; [done|]. split; [apply grows_refl|].
    split; [|split_and!; try done; [apply same_sockets_refl|by left]]. unfold ports_ok. by rewrite Et, Ed. }
  destruct Hk as [[[cs k] k'] ->]. rewrite bind_ok. set (t := fresh _).
  destruct (set_srtp_param_new (srtp_world s) t udp addr cs k k' Hl)
    as (st & E & Hst & Hsend & Hrecv & Hsubs & Hudp & _).
  cbv zeta in E |- *. rewrite E, bind_ok.
  destruct (sfu_ok_set s t st true Hs Hst Hsend Hrecv) as (Hok & Hg & Hlive); [|done|].
  { rewrite Hsubs. apply map_Forall_empty. }
  cbn [Srtp.set_transport Srtp.transports Srtp.net Srtp.udps]. rewrite insert_insert_eq.
  eexists _, _, t. split; [done|]. split; [exact Hok|]. split; [exact Hg|].
  split; [by split|]. do 6 (split; [done|]). split; [|split].
  - apply (same_sockets_insert (srtp_world s)). intros x Hx. exfalso.
    apply (is_fresh (dom (Srtp.transports (srtp_world s)))). apply elem_of_dom. by exists x.
  - right. split; [done|]. intros Ho. exists st. split; [apply lookup_insert_eq|].
    unfold Srtp.socket_open. by rewrite Hudp.
  - intros q S (x & Hx & Hq). cbn in Hx. rewrite lookup_insert_eq in Hx. injection Hx as <-.
    by rewrite Hsubs, lookup_empty in Hq.
Qed.

(** The datagrams a handler sends go to the peers of the transports that [t]
    forwards to. *)
Definition sent_to_links (s s' : sfu) (t : option nat) : Prop :=
  exists pkts, Srtp.net (srtp_world s') = Srtp.net (srtp_world s) ++ pkts /\
    Forall (fun p => exists T k S st, t = Some T /\ RtcStreamMgr.link (srtp_world s') T k S /\
              Srtp.transports (srtp_world s') !! S = Some st /\ fst p = Srtp._addr st) pkts.

Lemma sent_nothing s t : sent_to_links s s t.
Proof. exists []. by rewrite app_nil_r. Qed.

(** Forwarding, as seen by the receiving transport. *)
Lemma forwarded_sent protect (w : Srtp.world ctx IpAddr) t st plain r :
  Srtp.transports w !! t = Some st -> Srtp.forwarded order protect w st plain r ->
  exists w' pkts, r = Ok w' /\ Srtp.world_ok w' /\ Srtp.same_world w w' /\
    Srtp.net w' = Srtp.net w ++ pkts /\
    Forall (fun p => exists k S sq, RtcStreamMgr.link w' t k S /\
              Srtp.transports w' !! S = Some sq /\ fst p = Srtp._addr sq) pkts.
Proof.
  intros Et (w' & pkts & -> & Hw' & Hsame & Hnet & Hd). exists w', pkts. do 4 (split; [done|]).
  destruct plain as [plain|]; [|by subst pkts]. destruct Hd as (Hsub & _ & _).
  apply list.Forall_forall. intros p Hp. apply (list_elem_of_fmap_2 fst) in Hp.
  eapply sublist_subseteq in Hp; [|exact Hsub]. apply list_elem_of_omap in Hp as ([k S] & Hin & Ha).
  rewrite order_perm in Hin. apply elem_of_map_to_list in Hin. cbn [snd] in Ha.
  destruct (Srtp.transports w !! S) as [sq|] eqn:ES; [|done]. injection Ha as Ha.
  destruct Hsame as [_ Hsh]. pose proof (Hsh S) as HS. pose proof (Hsh t) as HT.
  rewrite ES in HS. rewrite Et in HT.
  destruct (Srtp.transports w' !! S) as [sq'|] eqn:ES'; [|done].
  destruct (Srtp.transports w' !! t) as [st'|] eqn:Et'; [|done].
  destruct HS as (_ & [_ E1] & _), HT as (E2 & _). exists k, S, sq'. split; [|split; [done|congruence]].
  exists st'. by rewrite <- E2.
Qed.

Lemma on_transport_net (w w' : Srtp.world ctx IpAddr) t f :
  RtcStreamMgr.on_transport w t f = Ok w' -> Srtp.net w' = Srtp.net w.
Proof.
  intros E. apply res_bind_ok in E as (st & _ & E). apply ok_inj in E. by subst w'.
Qed.

Lemma add_stream_net mgr mgr' (w w' : Srtp.world ctx IpAddr) u addr t :
  RtcStreamMgr.add_stream mgr w u addr t = Ok (mgr', w') -> Srtp.net w' = Srtp.net w.
Proof.
  unfold RtcStreamMgr.add_stream. intros E.
  repeat case_match; try (injection E as _ <-; done).
  apply res_bind_ok in E as (w1 & E1%on_transport_net & E).
  apply res_bind_ok in E as (w2 & E2%on_transport_net & E). injection E as _ <-. congruence.
Qed.

Lemma same_world_sockets (w w' : Srtp.world ctx IpAddr) : Srtp.same_world w w' -> same_sockets w w'.
Proof.
  intros [[_ Eu] Hsh]. split; [done|]. intros S st HS. specialize (Hsh S). rewrite HS in Hsh.
  destruct (Srtp.transports w' !! S) as [st'|]; [|done]. destruct Hsh as (_ & [E _] & _).
  by exists st'.
Qed.

(** The transport can be forwarded from, once [add_stream] has linked it. *)
Lemma forward_ready s s1 mgr w u udp (up : MemberUdpPorts) t (addr : bytes) :
  udp_open s udp -> links_open s u up -> same_sockets (srtp_world s) (srtp_world s1) ->
  streams s1 = streams s ->
  (srtp up = Some t \/ srtp up = None /\ (udp_open s udp -> transport_open (srtp_world s1) t)) ->
  (forall k S, RtcStreamMgr.link (srtp_world s1) t k S ->
     srtp up = Some t /\ RtcStreamMgr.link (srtp_world s) t k S) ->
  RtcStreamMgr.add_stream (streams s1) (srtp_world s1) u addr t = Ok (mgr, w) ->
  forall k S, RtcStreamMgr.link w t k S -> transport_open w S.
Proof.
  intros Ho Hlinks Hsame1 Es Hup Hold E k S Hl. pose proof (add_stream_sockets _ _ _ _ _ _ _ E) as Hsame2.
  apply (same_sockets_open (srtp_world s1)); [done|].
  destruct (RtcStreamMgr.add_stream_new_links _ _ _ _ _ _ _ _ _ E Hl) as [Hl'|(target & x & Eu & Et)].
  - apply Hold in Hl' as [Hs Hl']. apply (same_sockets_open (srtp_world s)); [done|].
    apply Hlinks. left. by exists t, k.
  - rewrite Es in Eu, Et. destruct (decide (target = u)) as [->|Hne].
    + rewrite lookup_insert_eq in Et. injection Et as <-.
      destruct Hup as [Hup|[_ Hup]]; [|by apply Hup]. apply (same_sockets_open (srtp_world s)); [done|].
      apply Hlinks. right. exists u, x. by rewrite decide_True.
    + rewrite lookup_insert_ne in Et by done. apply (same_sockets_open (srtp_world s)); [done|].
      apply Hlinks. right. exists target, x. by rewrite decide_False.
Qed.

Lemma handle_media_ok s m udp addr up rtcp data :
  libsrtp_starts -> sfu_ok s -> member_ok s m -> ports_ok s up -> keys_ready up ->
  udp_open s udp -> links_open s (uid m) up ->
  exists s' m' up', handle_media s m udp addr up rtcp data = Ok (s', m') /\
    sfu_ok s' /\ member_ok s' m' /\ grows s s' /\
    (m' = m /\ s' = s \/ m' = put m (Uvnet.toString addr) up' /\ sent_to_links s s' (srtp up')) /\
    ice_connection up' = ice_connection up /\ ports s' = ports s /\
    same_sockets (srtp_world s) (srtp_world s').
Proof.
  intros Hl Hs Hm Hu Hk Ho Hlinks. unfold handle_media.
  destruct (dtls_connection up) as [d|] eqn:Ed;
    [|exists s, m, up; split_and!; try done; [apply grows_refl|by left|apply same_sockets_refl]].
  destruct (media_transport_ok s udp addr up d Hl Hs Hu Ed Hk)
    as (s1 & up1 & t & -> & Hs1 & Hg1 & Hu1 & Ht1 & E1 & Hi & Hnet & Hports & Estr & Hsock1 & Hnew & Hold).
  rewrite bind_ok. cbv zeta.
  pose proof (member_ok_put s1 m (Uvnet.toString addr) up1 (member_ok_grows s s1 m Hg1 Hm) Hu1) as Hm1.
  change (uid (put m _ up1)) with (uid m).
  destruct (add_stream_ok s1 (uid m) (Uvnet.toString addr) t Hs1 Ht1) as (mgr & w & E & Hs2 & Hg2).
  pose proof (add_stream_net _ _ _ _ _ _ _ E) as Hn2.
  pose proof (add_stream_sockets _ _ _ _ _ _ _ E) as Hsock2.
  pose proof (forward_ready s s1 mgr w (uid m) udp up t _ Ho Hlinks Hsock1 Estr Hnew Hold E) as Hopen.
  rewrite E, bind_ok. set (s2 := mkSfu (ports s1) mgr w) in *.
  destruct (Hg2 t Ht1) as [st Est]. destruct (ok_sessions s2 Hs2 t st Est) as [_ [recv Er]].
  assert (Ei : Srtp._srtp_init (srtp_world s2) = true).
  { apply (ok_init s2 Hs2). intros E0. by rewrite E0, lookup_empty in Est. }
  pose proof (ready_in s2 t st Hs2 Est Hopen) as Hready.
  assert (Hfw : exists protect plain, Srtp.forwarded order protect w st plain
            (if rtcp then Srtp.handle_rtcp_data order w t data
             else Srtp.handle_rtp_data order w t data)).
  { destruct rtcp; eexists _, _;
      [eapply (Srtp.handle_rtcp_forwarded order order_perm w t st recv)|
       eapply (Srtp.handle_rtp_forwarded order order_perm w t st recv)]; try done;
      apply (ok_world s2 Hs2). }
  destruct Hfw as (protect & plain & Hfw).
  destruct (forwarded_sent protect w t st plain _ Est Hfw) as (w' & pkts & -> & Hw' & Hsame & Hn3 & Hp).
  rewrite bind_ok. destruct (sfu_ok_same s2 w' Hs2 Hw' Hsame) as [Hs3 Hg3].
  exists (set_world s2 w'), (put m (Uvnet.toString addr) up1), up1. split; [done|]. split; [done|].
  pose proof (grows_trans _ _ _ Hg2 Hg3) as Hg. split; [by eapply member_ok_grows|].
  split; [by eapply grows_trans|]. rewrite E1. split; [|split_and!; try done].
  - right. split; [done|]. exists pkts. split; [cbn; congruence|].
    eapply Forall_impl; [|exact Hp]. intros p (k & S & sq & ? & ? & ?). by exists t, k, S, sq.
  - apply (same_sockets_trans _ (srtp_world s1)); [done|]. apply (same_sockets_trans _ w); [done|].
    by apply same_world_sockets.
Qed.

Lemma dtls_for_ok s m up :
  member_ok s m -> ports_ok s up -> exists up', dtls_for m up = Ok up' /\ ports_ok s up'.
Proof.
  intros Hm Hu. unfold dtls_for. destruct (dtls_connection up) as [d|] eqn:Ed; [by exists up|].
  destruct (ok_offer s m Hm) as (o & c & cs & p & -> & Ec & Ep).
  rewrite from_opt_Some, bind_ok, Ec. cbn [head]. rewrite from_opt_Some, bind_ok, Ep.
  rewrite from_opt_Some, bind_ok. destruct (identity_fp p) as [fp|]; [|by exists up].
  destruct (Dtls.set_up_total new_adapter (SslFingerprint.algorithm fp) (SslFingerprint.digest fp))
    as (d0 & d1 & flag & d2 & -> & E1 & E2 & Hd2).
  rewrite bind_ok, E1, bind_ok, E2, bind_ok. eexists. split; [done|].
  destruct flag; [|done]. split; [apply Hu|exact Hd2].
Qed.

Lemma handle_dtls_ok s m addr up data :
  wf_bytes data -> member_ok s m -> ports_ok s up ->
  exists m', handle_dtls m addr up data = Ok m' /\ member_ok s m' /\
    m' = set_handles m (udp_handles m').
Proof.
  intros Hw Hm Hu. unfold handle_dtls. destruct (dtls_for_ok s m up Hm Hu) as (up' & -> & Hu').
  rewrite bind_ok. destruct (dtls_connection up') as [d|] eqn:Ed.
  - destruct Hu' as [Ht Hd]. rewrite Ed in Hd.
    destruct (Dtls.handle_dtls_total d data Hw Hd) as (d' & -> & Hd'). rewrite bind_ok.
    eexists. split; [done|]. split; [|done]. apply member_ok_put; [done|]. by split.
  - eexists. split; [done|]. split; [|done]. by apply member_ok_put.
Qed.

(** ** Every datagram *)

(** The STUN packets the code is written for: those [parse] accepts, whose
    HMAC attributes are long enough to be compared. *)
Definition well_formed_stun (m : RoomMember) (data : bytes) : Prop :=
  exists p, Stun.parse (IpAddress := IpAddr) data = Ok (Some p) /\
    forall a c cs, answer_sdp m = Some a -> Sdp.media_contents a = c :: cs ->
      exists b d, Stun.validate p (Sdp.ice c) (reset_view data) = Ok (b, d).

(** A datagram the handler is safe on: STUN is well formed, media arrives
    after the handshake, and what is neither STUN nor DTLS finds the sockets
    of the transports it may be forwarded to open. *)
Record benign (s : sfu) (m : RoomMember) (addr : IpAddr) (data : bytes) : Prop := {
  benign_bytes : wf_bytes data;
  benign_stun : Stun.is_stun data = Ok true -> well_formed_stun m data;
  benign_keys : keys_ready (entry m addr);
  benign_links : Stun.is_stun data = Ok false -> Dtls.is_dtls data = Ok false ->
    links_open s (uid m) (entry m addr);
}.

Lemma new_connection_ok s m udp addr up data :
  sfu_ok s -> member_ok s m -> ports_ok s up -> well_formed_stun m data -> udp_open s udp ->
  keeps s m (new_connection s m udp addr up data).
Proof.
  intros Hs Hm Hu (p & Hp & Hv) Ho. unfold new_connection. rewrite Hp, bind_ok.
  destruct (ok_answer s m Hm) as (a & c & cs & Ea & Ec).
  destruct (Hv a c cs Ea Ec) as (b & d & Evd).
  rewrite Ea, (from_opt_Some _ a), bind_ok, Ec. cbn [head].
  rewrite (from_opt_Some _ p), bind_ok, Evd, bind_ok, bind_ok.
  destruct b.
  - rewrite from_opt_Some, bind_ok. cbv zeta.
    rewrite IceConnection.send_binding_response_ok by (by eapply IceConnection.parse_trans_id).
    rewrite bind_ok, send2_open, bind_ok by done.
    edestruct (sfu_ok_send s) as [Hs' Hg]; [done|].
    eexists _, _. split; [done|]. split; [exact Hs'|]. split; [|split; [exact Hg|split_and!; [done..|apply sent_sockets]]].
    apply member_ok_put; [by eapply member_ok_grows|]. eapply (ports_ok_grows s); [done|]. exact Hu.
  - exists s, m. split_and!; try done; [apply grows_refl|apply set_handles_same|apply same_sockets_refl].
Qed.

Lemma media_not_dtls data rc rtp :
  RtpRtcp.is_rtcp data = Ok rc -> (if rc then Ok true else RtpRtcp.is_rtp data) = Ok rtp ->
  rtp = true -> Dtls.is_dtls data = Ok false.
Proof.
  intros Hrc Hrtp ->. destruct (dtls_class data) as (dt & Hdt & Cdt). rewrite Hdt. f_equal.
  destruct dt; [|done]. destruct (Cdt eq_refl) as (b0 & r & -> & ?).
  destruct (rtcp_class (b0 :: r)) as (rc' & E & Crc). rewrite Hrc in E. apply ok_inj in E as <-.
  destruct rc; [destruct (Crc eq_refl) as (? & ? & ? & ?); simplify_eq; lia|].
  destruct (rtp_class (b0 :: r)) as (rt & E & Crt). rewrite Hrtp in E. apply ok_inj in E as <-.
  destruct (Crt eq_refl) as (? & ? & ? & ?). simplify_eq. lia.
Qed.

Lemma on_udp_receive_keeps (s : sfu) (m : RoomMember) (udp : nat) (addr : IpAddr) (data : bytes) :
  libsrtp_starts -> sfu_ok s -> member_ok s m -> udp_open s udp -> benign s m addr data ->
  keeps s m (on_udp_receive s m udp addr data).
Proof.
  intros Hl Hs Hm Ho [Hw Hstun Hk Hlinks]. unfold on_udp_receive. cbv zeta.
  pose proof (member_ok_entry s m (Uvnet.toString addr) Hm) as Hu. unfold entry in Hk, Hlinks.
  set (up := default new_ports (udp_handles m !! Uvnet.toString addr)) in *.
  pose proof (member_ok_put s m (Uvnet.toString addr) up Hm Hu) as Hm'.
  destruct (stun_class data) as (st & Est & _). rewrite Est, bind_ok. destruct st.
  { destruct (ice_connection up) as [c|].
    - destruct (Hstun Est) as (p & Hp & _).
      rewrite (IceConnection.on_udp_data_answers c data p Est Hp), bind_ok, send2_open, bind_ok by done.
      eexists _, _. split; [done|]. pose proof (sfu_ok_send s) as Hsend.
      edestruct Hsend as [Hs' Hg]; [done|]. split; [exact Hs'|]. split; [|split_and!; [done..|apply sent_sockets]].
      by eapply member_ok_grows.
    - apply (keeps_put s m (Uvnet.toString addr) up).
      apply new_connection_ok; try done. by apply Hstun. }
  destruct (rtcp_class data) as (rc & Hrc & _). rewrite Hrc, bind_ok.
  assert (Hrtp : exists b, (if (rc : bool) then Ok true else RtpRtcp.is_rtp data) = Ok b).
  { destruct rc; [by eexists|]. destruct (rtp_class data) as (b & -> & _). by eexists. }
  destruct Hrtp as [rtp Hrtp]. rewrite Hrtp, bind_ok. destruct rtp.
  { destruct (handle_media_ok s _ udp addr up rc data Hl Hs Hm' Hu Hk Ho)
      as (s' & m' & up' & -> & ? & ? & ? & Hm1 & _ & ? & ?).
    { apply Hlinks; [done|]. by eapply media_not_dtls. }
    exists s', m'. split_and!; try done. by destruct Hm1 as [[-> _]|[-> _]]. }
  destruct (dtls_class data) as (dt & -> & _). rewrite bind_ok.
  destruct dt; [|exists s, (put m (Uvnet.toString addr) up); split_and!; try done;
    [apply grows_refl|apply same_sockets_refl]].
  destruct (handle_dtls_ok s _ addr up data Hw Hm' Hu) as (m' & -> & Hok & ?).
  rewrite bind_ok. exists s, m'. split_and!; try done; [apply grows_refl|apply same_sockets_refl].
Qed.


(** What makes the code crash: a packet that looks like STUN and does not
    parse, and a handshake with a member whose offer has no fingerprint. *)
Theorem malformed_stun_crashes (s : sfu) (m : RoomMember) (udp : nat) (addr : IpAddr) (data : bytes) :
  Stun.is_stun data = Ok true -> Stun.parse (IpAddress := IpAddr) data = Ok None ->
  member_ok s m -> on_udp_receive s m udp addr data = Fail NullDeref.
Proof.
  intros Hs Hp Hm. unfold on_udp_receive. cbv zeta. rewrite Hs, bind_ok.
  destruct (ice_connection _) as [c|].
  - by rewrite (IceConnection.on_udp_data_crash c data Hs Hp).
  - unfold new_connection. rewrite Hp, bind_ok. cbn [answer_sdp put set_handles].
    destruct (ok_answer s m Hm) as (a & c & cs & -> & Ec). by rewrite (from_opt_Some _ a), bind_ok, Ec.
Qed.

(** No datagram is two of STUN, media and DTLS, and asking what it is never
    reads outside it; so the handler does the same whatever it asks first,
    here DTLS first and STUN last. *)
Theorem demux_disjoint (s : sfu) (m : RoomMember) (udp : nat) (addr : IpAddr) (data : bytes) :
  exists stun rtcp rtp dtls,
    Stun.is_stun data = Ok stun /\ RtpRtcp.is_rtcp data = Ok rtcp /\ RtpRtcp.is_rtp data = Ok rtp /\
    Dtls.is_dtls data = Ok dtls /\
    stun && (rtcp || rtp) = false /\ stun && dtls = false /\ (rtcp || rtp) && dtls = false /\
    on_udp_receive s m udp addr data =
      let up := entry m addr in
      let m := put m (Uvnet.toString addr) up in
      if dtls then m ← handle_dtls m addr up data; Ok (s, m)
      else if rtcp || rtp then handle_media s m udp addr up rtcp data
      else if stun then
        match ice_connection up with
        | Some c => out ← IceConnection.on_udp_data c data;
                    s ← match out with Some d => send2 s udp d | None => Ok s end; Ok (s, m)
        | None => new_connection s m udp addr up data
        end
      else Ok (s, m).
Proof.
  destruct (stun_class data) as (st & Hst & Cst). destruct (rtcp_class data) as (rc & Hrc & Crc).
  destruct (rtp_class data) as (rt & Hrt & Crt). destruct (dtls_class data) as (dt & Hdt & Cdt).
  exists st, rc, rt, dt. do 4 (split; [done|]).
  assert (E1 : st && (rc || rt) = false).
  { apply not_true_is_false. rewrite andb_true_iff, orb_true_iff. intros [(? & ? & -> & ?)%Cst Er].
    destruct Er as [(? & ? & ? & ?)%Crc|(? & ? & ? & ?)%Crt]; simplify_eq; lia. }
  assert (E2 : st && dt = false).
  { apply not_true_is_false. rewrite andb_true_iff.
    intros [(? & ? & -> & ?)%Cst (? & ? & ? & ?)%Cdt]. simplify_eq. lia. }
  assert (E3 : (rc || rt) && dt = false).
  { apply not_true_is_false. rewrite andb_true_iff, orb_true_iff. intros [Er (? & ? & -> & ?)%Cdt].
    destruct Er as [(? & ? & ? & ?)%Crc|(? & ? & ? & ?)%Crt]; simplify_eq; lia. }
  do 3 (split; [done|]). unfold on_udp_receive, entry. rewrite Hst, Hrc, Hrt, Hdt.
  by destruct st, rc, rt, dt.
Qed.

(** *** Which connections are admitted *)

Lemma entry_put m addr up : entry (put m (Uvnet.toString addr) up) addr = up.
Proof. unfold entry, put. cbn. by rewrite lookup_insert_eq. Qed.

Lemma dtls_for_ice m up up' : dtls_for m up = Ok up' -> ice_connection up' = ice_connection up.
Proof.
  unfold dtls_for. destruct (dtls_connection up); [by intros [= <-]|]. intros Hd.
  apply res_bind_ok in Hd as (o & _ & Hd). apply res_bind_ok in Hd as (c & _ & Hd).
  apply res_bind_ok in Hd as (p & _ & Hd). destruct (identity_fp p); [|by injection Hd as <-].
  apply res_bind_ok in Hd as (d0 & _ & Hd). apply res_bind_ok in Hd as (d1 & _ & Hd).
  apply res_bind_ok in Hd as ([flag d2] & _ & Hd). injection Hd as <-. by destruct flag.
Qed.

Lemma handle_dtls_ice m addr up data m' :
  handle_dtls m addr up data = Ok m' -> ice_connection (entry m' addr) = ice_connection up.
Proof.
  intros Hd. apply res_bind_ok in Hd as (up' & E%dtls_for_ice & Hd).
  destruct (dtls_connection up') as [d|].
  - apply res_bind_ok in Hd as (d' & _ & Hd). apply ok_inj in Hd as <-. by rewrite entry_put.
  - apply ok_inj in Hd as <-. by rewrite entry_put.
Qed.

Lemma media_transport_ice s udp addr up d s' up' t :
  media_transport s udp addr up d = Ok (s', up', t) -> ice_connection up' = ice_connection up.
Proof.
  unfold media_transport. destruct (srtp up); [by intros [= _ <- _]|]. intros Hd.
  apply res_bind_ok in Hd as ([[[cs k] k']|] & _ & Hd); [|by injection Hd as _ <- _].
  apply res_bind_ok in Hd as ([b w] & _ & Hd). by injection Hd as _ <- _.
Qed.

Lemma handle_media_ice s m udp addr up rtcp data s' m' :
  entry m addr = up -> handle_media s m udp addr up rtcp data = Ok (s', m') ->
  ice_connection (entry m' addr) = ice_connection up.
Proof.
  intros Eu. unfold handle_media. destruct (dtls_connection up) as [d|];
    [|by intros [= _ <-]; rewrite Eu].
  intros Hd. apply res_bind_ok in Hd as ([[s1 up1] t] & Et%media_transport_ice & Hd).
  destruct t as [t|]; [|injection Hd as _ <-; by rewrite entry_put].
  apply res_bind_ok in Hd as ([mgr w] & _ & Hd). apply res_bind_ok in Hd as (w' & _ & Hd).
  injection Hd as _ <-. by rewrite entry_put.
Qed.

(** C15. The only way an address becomes connected is a STUN packet that
    parses and passes [validate]: every USERNAME it carries names the ufrag of
    the answer and every MESSAGE-INTEGRITY is the HMAC under the answer's
    password, and exactly one response is sent, to that address, with its
    transaction id, its own address in XOR-MAPPED-ADDRESS, and the HMAC under
    the same password. *)
Theorem admission_authenticated (s s' : sfu) (m m' : RoomMember) (udp : nat) (addr : IpAddr) (data : bytes)
    (a : @Sdp.SessionDescription IpAddr) (c : Sdp.MediaContent) (cs : list Sdp.MediaContent)
    (conn : IceConnection.IceConnection IpAddr) :
  wf_bytes data -> reset_view data = data ->
  answer_sdp m = Some a -> Sdp.media_contents a = c :: cs ->
  ice_connection (entry m addr) = None ->
  on_udp_receive s m udp addr data = Ok (s', m') ->
  ice_connection (entry m' addr) = Some conn ->
  exists p : Stun.StunPacket IpAddr, Stun.parse data = Ok (Some p) /\
    Forall (Stun.attribute_ok (Sdp.ice c) data) (Stun._attris p) /\
    s' = sent s (addr, Stun.response (passwd (Sdp.ice c)) (Stun.trans_id (Stun.hdr p)) 1 addr) /\
    conn = IceConnection.mkIceConnection addr (_addr m) (Uvnet.toString addr) (passwd (Sdp.ice c)).
Proof.
  intros Hw Hr Ea Ec Hno Hrun Hconn. unfold on_udp_receive in Hrun. cbv zeta in Hrun.
  fold (entry m addr) in Hrun. set (up := entry m addr) in *.
  apply res_bind_ok in Hrun as (st & Est & Hrun). destruct st.
  - rewrite Hno in Hrun. apply res_bind_ok in Hrun as (sp & Hp & Hrun). cbn [answer_sdp put set_handles] in Hrun.
    rewrite Ea, (from_opt_Some _ a), bind_ok, Ec in Hrun. apply res_bind_ok in Hrun as (b & Hb & Hrun).
    apply res_bind_ok in Hb as (p & Hsp & Hb). destruct sp as [p'|]; [|done]. apply ok_inj in Hsp as ->.
    apply res_bind_ok in Hb as ([b' d] & Hv & Hb). apply ok_inj in Hb as ->. destruct b.
    + cbn [head] in Hrun. rewrite from_opt_Some, bind_ok in Hrun. cbv zeta in Hrun.
      rewrite IceConnection.send_binding_response_ok, bind_ok in Hrun by (by eapply IceConnection.parse_trans_id).
      apply res_bind_ok in Hrun as (s1 & ->%send2_sent & Hrun).
      injection Hrun as <- <-. rewrite Hr in Hv. apply Stun.validate_loop_sound in Hv as [_ Hattr]; [|done].
      exists p. split; [done|]. split; [done|]. split; [done|]. rewrite entry_put in Hconn.
      by injection Hconn as <-.
    + injection Hrun as _ <-. rewrite entry_put in Hconn. congruence.
  - exfalso. apply res_bind_ok in Hrun as (rc & _ & Hrun). apply res_bind_ok in Hrun as (rtp & _ & Hrun).
    destruct rtp; [apply handle_media_ice in Hrun; [congruence|apply entry_put]|].
    apply res_bind_ok in Hrun as (dt & _ & Hrun). destruct dt.
    + apply res_bind_ok in Hrun as (m1 & Hd%handle_dtls_ice & Hrun). injection Hrun as _ <-. congruence.
    + injection Hrun as _ <-. rewrite entry_put in Hconn. congruence.
Qed.

(** C16. A media packet is never sent to anyone but the peers of the transports
    linked to the one it arrived on. *)
Theorem media_only_to_links (s : sfu) (m : RoomMember) (udp : nat) (addr : IpAddr) (data : bytes) :
  libsrtp_starts -> sfu_ok s -> member_ok s m -> udp_open s udp -> benign s m addr data ->
  Stun.is_stun data = Ok false ->
  exists s' m', on_udp_receive s m udp addr data = Ok (s', m') /\
    sent_to_links s s' (srtp (entry m' addr)).
Proof.
  intros Hl Hs Hm Ho [Hw _ Hk Hlinks] Hst. unfold on_udp_receive. cbv zeta. fold (entry m addr).
  pose proof (member_ok_entry s m (Uvnet.toString addr) Hm) as Hu. fold (entry m addr) in Hu.
  set (up := entry m addr) in *.
  pose proof (member_ok_put s m (Uvnet.toString addr) up Hm Hu) as Hm'.
  rewrite Hst, bind_ok. destruct (rtcp_class data) as (rc & Hrc & _). rewrite Hrc, bind_ok.
  assert (Hrtp : exists b, (if (rc : bool) then Ok true else RtpRtcp.is_rtp data) = Ok b).
  { destruct rc; [by eexists|]. destruct (rtp_class data) as (b & -> & _). by eexists. }
  destruct Hrtp as [rtp Hrtp]. rewrite Hrtp, bind_ok. destruct rtp.
  { destruct (handle_media_ok s _ udp addr up rc data Hl Hs Hm' Hu Hk Ho)
      as (s' & m' & up' & -> & _ & _ & _ & Hd & _).
    { apply Hlinks; [done|]. by eapply media_not_dtls. }
    exists s', m'. split; [done|]. destruct Hd as [[-> ->]|[-> Hd]]; [apply sent_nothing|].
    by rewrite entry_put. }
  destruct (dtls_class data) as (dt & -> & _). rewrite bind_ok. destruct dt.
  - destruct (handle_dtls_ok s _ addr up data Hw Hm' Hu) as (m' & -> & _). rewrite bind_ok.
    eexists _, _. split; [done|]. apply sent_nothing.
  - eexists _, _. split; [done|]. apply sent_nothing.
Qed.

(** *** A member that leaves *)

(** [destory] unlinks the member from the one it subscribed to, in both
    directions and nothing else, and stops every DTLS connection it has. *)
Theorem destory_unlinks (s : sfu) (m : RoomMember) (target x : bytes) (st sit : nat) :
  sfu_ok s -> RtcStreamMgr._subs_map (streams s) !! uid m = Some (target, x) ->
  RtcStreamMgr._streams (streams s) !! uid m = Some st ->
  RtcStreamMgr._streams (streams s) !! target = Some sit ->
  exists s' m', destory s m = Ok (s', m') /\ streams s' = streams s /\
    (forall T k S, RtcStreamMgr.link (srtp_world s') T k S <->
       ~ (T = st /\ k = target) /\ ~ (T = sit /\ k = uid m) /\
       RtcStreamMgr.link (srtp_world s) T k S) /\
    map_Forall (fun _ up => forall d, dtls_connection up = Some d ->
      Dtls._is_stop (Dtls._downward d) = true) (udp_handles m').
Proof.
  intros Hs Eu Est Esit. unfold destory.
  destruct (RtcStreamMgr.remove_links (streams s) (srtp_world s) (uid m) target x st sit Eu Est Esit)
    as (w & -> & Hlink); [by apply (ok_streams s Hs (uid m))|by apply (ok_streams s Hs target)|].
  rewrite bind_ok. eexists _, _. split; [done|]. split; [done|]. split; [exact Hlink|].
  intros k up Hup d Hd. cbn in Hup. apply lookup_fmap_Some in Hup as (up0 & <- & _).
  unfold destory_ports in Hd. cbn in Hd. destruct (dtls_connection up0) as [d0|]; [|done].
  cbn in Hd. by injection Hd as <-.
Qed.

Lemma set_world_same s : set_world s (srtp_world s) = s.
Proof. by destruct s. Qed.

(** A member nobody made a subscriber - a publisher - stays linked. *)
Lemma destory_publisher s m :
  RtcStreamMgr._subs_map (streams s) !! uid m = None ->
  exists m', destory s m = Ok (s, m').
Proof.
  intros E. unfold destory, RtcStreamMgr.remove_subscriber. by rewrite E, bind_ok, set_world_same; eexists.
Qed.

(** Every transport stays where it is when a member leaves. *)
Lemma destory_ok s m :
  sfu_ok s -> exists s' m', destory s m = Ok (s', m') /\ sfu_ok s' /\ grows s s' /\
    (member_ok s m -> member_ok s' m').
Proof.
  intros Hs. unfold destory, RtcStreamMgr.remove_subscriber.
  assert (Hm : forall s', grows s s' -> member_ok s m ->
            member_ok s' (set_handles m (destory_ports <$> udp_handles m))).
  { intros s' Hg [Ha Ho Hh]. split; [done..|]. intros k up Hup. cbn in Hup.
    apply lookup_fmap_Some in Hup as (up0 & <- & Hup0). eapply ports_ok_grows; [done|].
    destruct (Hh k up0 Hup0) as [? Hd]. split; [done|]. unfold destory_ports. cbn.
    destruct (dtls_connection up0); [exact Hd|done]. }
  assert (Hrem : forall s1 o k, sfu_ok s1 ->
    (forall t, o = Some t -> RtcStreamMgr.live (srtp_world s1) t) -> exists w,
      match o with None => Ok (srtp_world s1)
      | Some sit => RtcStreamMgr.on_transport (srtp_world s1) sit (fun x => Srtp.remove_subscriber x k)
      end = Ok w /\ sfu_ok (set_world s1 w) /\ grows s1 (set_world s1 w)).
  { intros s1 [t|] k Hs1 Hl; [|exists (srtp_world s1); rewrite set_world_same; split; [done|split; [done|apply grows_refl]]].
    apply sfu_ok_on; [done|by apply Hl|done|]. intros st Hst q u Hu. cbn in Hu.
    apply lookup_delete_Some in Hu as [_ Hu]. by eapply Hst. }
  destruct (RtcStreamMgr._subs_map (streams s) !! uid m) as [[target x]|].
  - destruct (Hrem s (RtcStreamMgr._streams (streams s) !! uid m) target Hs) as (w1 & E1 & Hs1 & Hg1);
      [intros t; apply (ok_streams s Hs)|].
    rewrite E1, bind_ok.
    destruct (Hrem (set_world s w1) (RtcStreamMgr._streams (streams s) !! target) (uid m) Hs1)
      as (w2 & E2 & Hs2 & Hg2); [intros t; apply (ok_streams _ Hs1)|].
    cbn [srtp_world set_world] in E2. rewrite E2, bind_ok. eexists _, _. split; [done|].
    pose proof (grows_trans _ _ _ Hg1 Hg2). split; [exact Hs2|]. split; [done|]. by apply Hm.
  - rewrite bind_ok, set_world_same. eexists _, _. split; [done|].
    split; [done|]. split; [apply grows_refl|]. apply Hm, grows_refl.
Qed.
End RoomMember.

(** ** Concrete runs *)

Section Witnesses.
#[local] Existing Instance Srtp.toy_srtp.
#[local] Existing Instance Dtls.toy_adapter.
#[local] Existing Instance MessageDigest.toy_evp.
#[local] Existing Instance Uvnet.addr4_ops.

Abbreviation any := (map_to_list (K := bytes) (A := nat)).
Definition same_view (b : bytes) : bytes := b.

Definition toy_content (d : option DtlsParameter) : Sdp.MediaContent :=
  Sdp.mkContent MEDIA_TYPE_AUDIO [] [] [] [] true true SendOnly (mkIce [] (lit "fr") (lit "pw")) []
    [] d [] [].

Definition toy_description (d : option DtlsParameter) : @Sdp.SessionDescription Uvnet.addr4 :=
  Sdp.mkDescription new_SessionSdp [toy_content d] (Sdp.empty_support []) (Sdp.empty_support []) None
    None None.

Definition toy_peer : Uvnet.addr4 := Uvnet.mkAddr4 (192, 0, 2, 33) 4000.
Definition toy_peer2 : Uvnet.addr4 := Uvnet.mkAddr4 (192, 0, 2, 34) 4000.
Definition toy_local : Uvnet.addr4 := Uvnet.mkAddr4 (10, 0, 0, 1) 5000.

Definition toy_member (hs : gmap bytes (MemberUdpPorts (IpAddr := Uvnet.addr4) (A := Dtls.toy_ssl)))
    : RoomMember :=
  mkMember (lit "pub") (Some (toy_description (Some (mkDtls [] [] None))))
    (Some (toy_description None)) None hs toy_local.

Definition toy_session (k : Z) : Srtp.SrtpSession Srtp.toy_ctx :=
  Srtp.mkSession (Some (Srtp.mkToyCtx k 10 10)) 10 10.

(** A publisher's transport 0, linked with a player's, 1. *)
Definition toy_sfu : sfu (ctx := Srtp.toy_ctx) (IpAddr := Uvnet.addr4) :=
  mkSfu (PortMgr.mkPortManager None None 0 0 0) RtcStreamMgr.paired_mgr
    (Srtp.mkWorld true
       {[ 0%nat := Srtp.mkTransport {[ lit "player" := 1%nat ]} (Some (toy_session 1))
                     (Some (toy_session 11)) 0 toy_peer;
          1%nat := Srtp.mkTransport {[ lit "pub" := 0%nat ]} (Some (toy_session 2))
                     (Some (toy_session 12)) 1 toy_peer2 ]} []
       (Uvnet.mkUdps {[ 0%nat; 1%nat ]} 2)).

Definition toy_ports : MemberUdpPorts (IpAddr := Uvnet.addr4) (A := Dtls.toy_ssl) :=
  mkPorts None (Some (Dtls.connected_dtls Dtls.k_connected)) (Some 0%nat).

Definition toy_media_member : RoomMember := toy_member {[ Uvnet.toString toy_peer := toy_ports ]}.

(** An RTP packet with the tag of the publisher's key. *)
Definition toy_rtp : bytes := [128; 111] ++ replicate 10 5 ++ [9] ++ replicate 10 11.

Lemma toy_session_ok k : Srtp.session_ok (toy_session k).
Proof. unfold Srtp.session_ok. cbn. lia. Qed.

Lemma toy_sfu_ok : sfu_ok toy_sfu.
Proof.
  split.
  - apply map_Forall_insert_2; [|apply map_Forall_singleton];
      (split; [apply toy_session_ok|]; split; [apply toy_session_ok|]; apply map_Forall_singleton;
       by eexists).
  - apply map_Forall_insert_2; [|apply map_Forall_singleton]; by split; eexists.
  - apply map_Forall_insert_2; [|apply map_Forall_singleton]; by eexists.
  - done.
Qed.

Lemma toy_member_ok (s : sfu (ctx := Srtp.toy_ctx) (IpAddr := Uvnet.addr4)) hs :
  map_Forall (fun _ up => ports_ok s up) hs -> member_ok s (toy_member hs).
Proof.
  intros Hh. split; [by eexists _, _, _|by eexists _, _, _, _|done].
Qed.

Lemma toy_media_member_ok : member_ok toy_sfu toy_media_member.
Proof. apply toy_member_ok. apply map_Forall_singleton. by split; eexists. Qed.

Lemma toy_starts : libsrtp_starts (ctx := Srtp.toy_ctx).
Proof. done. Qed.

Lemma any_perm : forall m, any m ≡ₚ map_to_list m.
Proof. done. Qed.

Lemma toy_udp_open : udp_open toy_sfu 0.
Proof. unfold udp_open. apply (bool_decide_unpack _). vm_compute. exact I. Qed.

Lemma toy_rtp_benign : benign same_view toy_sfu toy_media_member toy_peer toy_rtp.
Proof.
  assert (E : Stun.is_stun toy_rtp = Ok false) by (vm_compute; reflexivity).
  split; [apply (bool_decide_unpack _); vm_compute; exact I|by rewrite E|..].
  - unfold keys_ready, entry, toy_media_member. cbn [udp_handles toy_member].
    by rewrite lookup_singleton_eq.
  - intros _ _ S HS. assert (S = 1%nat) as ->.
    { unfold entry, toy_media_member in HS. cbn [udp_handles toy_member] in HS.
      rewrite lookup_singleton_eq in HS. cbn in HS.
      destruct HS as [(T & k & [= <-] & st & Hst & Hk)|(target & x & Hsub & _)]; [|done].
      assert (E0 : option_map Srtp._subs_map (Srtp.transports (srtp_world toy_sfu) !! 0%nat) =
        Some {[ lit "player" := 1%nat ]}) by reflexivity.
      rewrite Hst in E0. cbn in E0. injection E0 as E0. rewrite E0 in Hk.
      by apply lookup_singleton_Some in Hk as [_ <-]. }
    eexists. split; [reflexivity|]. unfold Srtp.socket_open. apply (bool_decide_unpack _).
    vm_compute. exact I.
Qed.

(** The publisher's packet reaches the player, re-encrypted under its key. *)
Example toy_media_run :
  (fun r => Srtp.net (srtp_world (fst r))) <$>
    on_udp_receive Dtls.fresh_adapter any same_view toy_sfu toy_media_member 0 toy_peer toy_rtp =
  Ok [(toy_peer2, [128; 111] ++ replicate 10 5 ++ [9] ++ replicate 10 2)].
Proof. vm_compute. reflexivity. Qed.

(** After the player's socket was deleted the same packet goes out through
    freed memory. *)
Example dead_link_dangling :
  on_udp_receive Dtls.fresh_adapter any same_view
    (set_udps toy_sfu (Uvnet.delete_udp (Srtp.udps (srtp_world toy_sfu)) 1)) toy_media_member 0 toy_peer toy_rtp =
  Fail Dangling.
Proof. vm_compute. reflexivity. Qed.


Lemma media_only_to_links_witness :
  exists s' m',
    on_udp_receive Dtls.fresh_adapter any same_view toy_sfu toy_media_member 0 toy_peer toy_rtp = Ok (s', m') /\
    sent_to_links toy_sfu s' (srtp (entry m' toy_peer)).
Proof.
  apply (media_only_to_links Dtls.fresh_adapter any same_view any_perm).
  - exact toy_starts.
  - exact toy_sfu_ok.
  - exact toy_media_member_ok.
  - exact toy_udp_open.
  - exact toy_rtp_benign.
  - vm_compute. reflexivity.
Defined.

Definition toy_player : RoomMember :=
  mkMember (lit "player") None None None {[ Uvnet.toString toy_peer := toy_ports ]} toy_local.

Lemma destory_unlinks_witness :
  exists s' m', destory toy_sfu toy_player = Ok (s', m') /\
    streams s' = streams toy_sfu /\
    (forall T k S, RtcStreamMgr.link (srtp_world s') T k S <->
       ~ (T = 1%nat /\ k = lit "pub") /\ ~ (T = 0%nat /\ k = lit "player") /\
       RtcStreamMgr.link (srtp_world toy_sfu) T k S) /\
    map_Forall (fun _ up => forall d, dtls_connection up = Some d ->
      Dtls._is_stop (Dtls._downward d) = true) (udp_handles m').
Proof.
  apply (destory_unlinks toy_sfu toy_player (lit "pub") [] 1%nat 0%nat).
  - exact toy_sfu_ok.
  - reflexivity.
  - reflexivity.
  - reflexivity.
Defined.

Lemma admission_authenticated_witness :
  exists s' m' conn,
    on_udp_receive Dtls.fresh_adapter any same_view toy_sfu (toy_member ∅) 0 toy_peer Stun.sample_request =
      Ok (s', m') /\
    ice_connection (entry m' toy_peer) = Some conn /\
    exists p : Stun.StunPacket Uvnet.addr4, Stun.parse Stun.sample_request = Ok (Some p) /\
      Forall (Stun.attribute_ok (mkIce [] (lit "fr") (lit "pw")) Stun.sample_request) (Stun._attris p) /\
      s' = sent toy_sfu (toy_peer,
             Stun.response (lit "pw") (Stun.trans_id (Stun.hdr p)) 1 toy_peer) /\
      conn = IceConnection.mkIceConnection toy_peer toy_local (Uvnet.toString toy_peer) (lit "pw").
Proof.
  eexists _, _, _. split; [vm_compute; reflexivity|]. split; [vm_compute; reflexivity|].
  eapply (admission_authenticated Dtls.fresh_adapter any same_view toy_sfu _ (toy_member ∅) _ 0 toy_peer
    Stun.sample_request (toy_description None) (toy_content None) []).
  - vm_compute. repeat (constructor; [split; [discriminate | reflexivity]|]). constructor.
  - reflexivity.
  - reflexivity.
  - reflexivity.
  - reflexivity.
  - vm_compute. reflexivity.
  - vm_compute. reflexivity.
Defined.

(** A packet with the STUN cookie and a bad length stops the server. *)
Definition short_stun : bytes := [0; 1; 0; 8; 33; 18; 164; 66] ++ replicate 12 7.

Lemma malformed_stun_crashes_witness :
  on_udp_receive Dtls.fresh_adapter any same_view toy_sfu toy_media_member 0 toy_peer short_stun =
    Fail NullDeref.
Proof.
  apply malformed_stun_crashes.
  - vm_compute. reflexivity.
  - vm_compute. reflexivity.
  - exact toy_media_member_ok.
Defined.
End Witnesses.
