(* ===== verification/Json.v ===== *)
(** * utils/sutil.{h,cpp}: JSON messages

    jsoncpp is not modelled: a value is an abstract type with the operations
    the server uses. *)
From S2P Require Import Prelude.
Local Open Scope Z_scope.

Class JsonOps (J : Type) := {
  isNull : J -> bool;
  isObject : J -> bool;
  isString : J -> bool;
  asString : J -> bytes;
  isInt : J -> bool;
  asInt : J -> Z;
  (* [operator[](key) const] *)
  get : J -> bytes -> res J;
  (* [Json::nullValue], [Json::arrayValue], a string *)
  nullValue : J;
  arrayValue : J;
  of_string : bytes -> J;
  (* [v[key] = x] and [v.append(x)] on a null value or one of the right type *)
  set : J -> bytes -> J -> J;
  append : J -> J -> J;
  (* [Json::Reader(Features::strictMode()).parse] and [Json::writeString] *)
  reader_parse : bytes -> option J;
  writeString : J -> bytes;
  (* looking a key up is an assertion that the value is an object or null *)
  get_object : forall j k, isNull j || isObject j = true -> exists v, get j k = Ok v;
  get_other : forall j k, isNull j || isObject j = false -> get j k = Fail LogicError;
  asInt_range : forall j, isInt j = true -> -2147483648 <= asInt j < 2147483648;
}.

Section Json.
Context {J : Type} `{JsonOps J}.

(** The macro [GET_JSON_STRING]. *)
Definition get_json_string (json : J) (item last : bytes) : res bytes :=
  if negb (isNull json) then
    v ← get json item;
    if isString v then Ok (asString v) else Ok last
  else Ok last.

(** The macro [GET_JSON_INT]: its default is not used. *)
Definition get_json_int (json : J) (item : bytes) (last : Z) : res Z :=
  if negb (isNull json) then
    v ← get json item;
    if isInt v then Ok (asInt v) else Ok 0
  else Ok 0.

Definition checkJsonConfig (json : J) (key : bytes) : res bool :=
  v ← get json key; Ok (negb (isNull v)).

Lemma get_json_string_object j k d :
  isNull j || isObject j = true -> exists s, get_json_string j k d = Ok s.
Proof.
  intros Hj. unfold get_json_string. destruct (isNull j) eqn:E; cbn [negb]; [by eexists|].
  destruct (get_object j k) as [v ->]; [by rewrite E|]. rewrite bind_ok. case_match; by eexists.
Qed.

Lemma get_json_string_other j k d :
  isNull j || isObject j = false -> get_json_string j k d = Fail LogicError.
Proof.
  intros Hj. unfold get_json_string. rewrite (get_other j k Hj).
  apply orb_false_iff in Hj as [-> _]. done.
Qed.
End Json.

(** ** JSON values for concrete runs

    The reader looks its input up in a table. *)
Inductive toy_json :=
  | JNull
  | JString (s : bytes)
  | JInt (z : Z)
  | JArray (l : list toy_json)
  | JObject (l : list (bytes * toy_json)).

Definition toy_get (j : toy_json) (k : bytes) : res toy_json :=
  match j with
  | JNull => Ok JNull
  | JObject l => Ok (default JNull ((fun x => snd (snd x)) <$> list_find (fun kv => fst kv = k) l))
  | _ => Fail LogicError
  end.

Definition toy_set (j : toy_json) (k : bytes) (v : toy_json) : toy_json :=
  match j with
  | JObject l => JObject (filter (fun kv => fst kv <> k) l ++ [(k, v)])
  | _ => JObject [(k, v)]
  end.

Fixpoint toy_write (j : toy_json) : bytes :=
  match j with
  | JNull => lit "null"
  | JString s => [34] ++ s ++ [34]
  | JInt z => dec z
  | JArray l => [91] ++ concat (map (fun v => toy_write v ++ [44]) l) ++ [93]
  | JObject l => [123] ++ concat (map (fun kv => fst kv ++ [58] ++ toy_write (snd kv) ++ [44]) l) ++ [125]
  end.

Definition toy_isNull (j : toy_json) : bool := match j with JNull => true | _ => false end.
Definition toy_isObject (j : toy_json) : bool := match j with JObject _ => true | _ => false end.
Definition toy_isString (j : toy_json) : bool := match j with JString _ => true | _ => false end.
Definition toy_asString (j : toy_json) : bytes := match j with JString s => s | _ => [] end.
Definition toy_isInt (j : toy_json) : bool :=
  match j with JInt z => (-2147483648 <=? z) && (z <? 2147483648) | _ => false end.
Definition toy_asInt (j : toy_json) : Z := match j with JInt z => z | _ => 0 end.
Definition toy_append (j v : toy_json) : toy_json :=
  match j with JArray l => JArray (l ++ [v]) | _ => j end.

Lemma toy_get_object j k : toy_isNull j || toy_isObject j = true -> exists v, toy_get j k = Ok v.
Proof. destruct j; intros E; try discriminate E; eexists; reflexivity. Qed.
Lemma toy_get_other j k : toy_isNull j || toy_isObject j = false -> toy_get j k = Fail LogicError.
Proof. destruct j; intros E; try discriminate E; reflexivity. Qed.
Lemma toy_asInt_range j : toy_isInt j = true -> -2147483648 <= toy_asInt j < 2147483648.
Proof. destruct j; intros E; try discriminate E. cbn in *. bool_inv. lia. Qed.

Definition toy_json_ops (table : list (bytes * toy_json)) : JsonOps toy_json := {|
  isNull := toy_isNull; isObject := toy_isObject; isString := toy_isString; asString := toy_asString;
  isInt := toy_isInt; asInt := toy_asInt; get := toy_get; nullValue := JNull; arrayValue := JArray [];
  of_string := JString; set := toy_set; append := toy_append;
  reader_parse s := (fun x => snd (snd x)) <$> list_find (fun kv => fst kv = s) table; writeString := toy_write;
  get_object := toy_get_object; get_other := toy_get_other; asInt_range := toy_asInt_range;
|}.
