(* ===== verification/Signaling.v ===== *)
(** * signaling/signaling_handle.{h,cpp}, signaling/wss_server.{h,cpp}, juan_sfu.cpp

    The rooms and the three requests of a browser: [join], [publish] and
    [pullstream].  The singletons of the program are the fields of one state,
    [server].  The web socket, the event loop and jsoncpp are libraries: a
    connection is its id and whether it is a web socket, and what the server
    writes is collected in [out]. *)
From S2P Require Import Prelude SdpTypes Json.
From S2P Require SUtil PortMgr SslFingerprint MessageDigest Uvnet Stun Dtls Srtp RtcStreamMgr Helpers.
From S2P Require IpAddress Sdp RoomMember.
Local Open Scope Z_scope.

Record Connection := mkConn { conn_id : Z; is_ws : bool }.

#[export] Instance Connection_eq_dec : EqDecision Connection.
Proof. solve_decision. Defined.

(** The constructors of [uvcore::IpAddress] and [setIp]. *)
Class IpAddressMake (IpAddr : Type) `{Uvnet.IpAddressOps IpAddr} := {
  no_addr : IpAddr;
  of_port : Z -> IpAddr;
  setIp : IpAddr -> bytes -> IpAddr;
  getPort_of_port : forall p, 0 <= p < 65536 -> Uvnet.getPort (of_port p) = p;
  getPort_setIp : forall a s, Uvnet.getPort (setIp a s) = Uvnet.getPort a;
}.

Section Signaling.
Context {IpAddr : Type} `{IpAddressMake IpAddr} `{MessageDigest.Evp} `{IpAddress.NetOps}.
Context {ctx : Type} `{Srtp.SrtpLib ctx} {A : Type} `{Dtls.SslAdapter A}.
Context {J : Type} `{JsonOps J} {R : Type} `{Helpers.RandomGenerator R}.
Context {C : Type} `{SslFingerprint.SSLCertificate C}.

(** The adapter of a new DTLS connection, the order of the [unordered_map]s,
    what [read_ptr] shows after [reset]; the certificate of [Global] and
    whether its UDP server exists. *)
Context (new_adapter : A) (order : forall T, gmap bytes T -> list (bytes * T)).
Context (reset_view : bytes -> bytes) (cert : C) (udp_server : bool).

Abbreviation sfu := (RoomMember.sfu (ctx := ctx) (IpAddr := IpAddr)).
Abbreviation RoomMember := (RoomMember.RoomMember (IpAddr := IpAddr) (A := A)).
Abbreviation description := (@Sdp.SessionDescription IpAddr).

(** ** Rooms *)

Record Room := mkRoom {
  roomid : Z;
  members : gmap bytes RoomMember;
  connections : gmap bytes Connection;
}.

Record server := mkServer {
  core : sfu;                  (* UdpPortManager, RtcStreamMgr, the transports *)
  ipstr : bytes;               (* UdpPortManager::ipstr *)
  _all_rooms : gmap Z Room;
  _connections : gmap Z Z;
  _conn_map : gmap Z Connection;
  rng : R;
  out : list (Z * bytes);      (* text frames, with the connection's id *)
}.

Definition set_core (g : server) (s : sfu) : server :=
  mkServer s (ipstr g) (_all_rooms g) (_connections g) (_conn_map g) (rng g) (out g).
Definition set_rooms (g : server) (rs : gmap Z Room) : server :=
  mkServer (core g) (ipstr g) rs (_connections g) (_conn_map g) (rng g) (out g).
Definition set_connections (g : server) (cs : gmap Z Z) : server :=
  mkServer (core g) (ipstr g) (_all_rooms g) cs (_conn_map g) (rng g) (out g).
Definition set_conn_map (g : server) (cs : gmap Z Connection) : server :=
  mkServer (core g) (ipstr g) (_all_rooms g) (_connections g) cs (rng g) (out g).
Definition set_rng (g : server) (r : R) : server :=
  mkServer (core g) (ipstr g) (_all_rooms g) (_connections g) (_conn_map g) r (out g).

(** [dynamic_pointer_cast<WsConnection>] and [write] of a text frame. *)
Definition write (g : server) (ptr : Connection) (msg : bytes) : server :=
  if is_ws ptr
  then mkServer (core g) (ipstr g) (_all_rooms g) (_connections g) (_conn_map g) (rng g)
         (out g ++ [(conn_id ptr, msg)])
  else g.

Definition put_room (g : server) (r : Room) : server :=
  set_rooms g (<[roomid r := r]> (_all_rooms g)).

(** [members] holds shared pointers: a change of a member is one of the map. *)
Definition put_member (r : Room) (u : bytes) (m : RoomMember) : Room :=
  mkRoom (roomid r) (<[u := m]> (members r)) (connections r).

Definition find_room (g : server) (id : Z) : option Room := _all_rooms g !! id.

Definition create_room (g : server) (id : Z) : server * Room :=
  let ptr := mkRoom id ∅ ∅ in (set_rooms g (<[id := ptr]> (_all_rooms g)), ptr).

(** ** join *)

Definition new_member (uid : bytes) : RoomMember :=
  RoomMember.mkMember uid (Some Sdp.new_SessionDescription) None None ∅ no_addr.

Definition resp_join (sroomid uid : bytes) (ms : list RoomMember) : J :=
  let ret := set nullValue (lit "cmd") (of_string (lit "resp-join")) in
  let ret := set ret (lit "roomId") (of_string sroomid) in
  let ret := set ret (lit "uid") (of_string uid) in
  set ret (lit "members")
    (foldl (fun l m => append l (set nullValue (lit "uid") (of_string (RoomMember.uid m)))) arrayValue ms).

Definition handle_join (g : server) (msg : J) (ptr : Connection) : res server :=
  sroomid ← get_json_string msg (lit "roomId") [];
  uid ← get_json_string msg (lit "uid") [];
  if (zlen sroomid <? 1) || (zlen uid <? 1) then Ok g
  else
    id ← stoll (c_str sroomid);
    let '(g, room) := match find_room g id with
                      | Some room => (g, room)
                      | None => create_room g id
                      end in
    if bool_decide (is_Some (members room !! uid)) then Ok g
    else
      let ret := resp_join sroomid uid (snd <$> order _ (members room)) in
      let room := mkRoom (roomid room) (<[uid := new_member uid]> (members room))
                    (<[uid := ptr]> (connections room)) in
      let g := write (put_room g room) ptr (writeString ret) in
      Ok (set_connections g (<[conn_id ptr := id]> (_connections g))).

(** ** publish and pullstream *)

(** The description between [sdp":"] and the end of the JSON text it arrives
    in; the count given to [substr] is a [size_t]. *)
Definition sdp_start : bytes := lit "sdp" ++ [34; 58; 34].

Definition extract_sdp (sdp : bytes) : res (option bytes) :=
  match find_from sdp_start sdp 0 with
  | None => Ok None
  | Some pos =>
      Some <$> substr sdp (pos + zlen sdp_start) (u64 (zlen sdp - pos - 2 - zlen sdp_start - 4))
  end.

(** [SUtil::split] at the two characters backslash-r and the two of
    backslash-n, as JSON text has them. *)
Definition split_lines (sdpstr : bytes) : res (list bytes) := SUtil.split sdpstr (lit "\r\n").

Definition publish_options : RTCOfferAnswerOptions := mkOptions false false true true true.
Definition pull_options : RTCOfferAnswerOptions := mkOptions true true false false true.

(** A port, the address with it, the answer to [offer] and its text. *)
Definition make_answer (g : server) (options : RTCOfferAnswerOptions) (peer : option description)
    (offer : description) : res (server * IpAddr * description * bytes) :=
  '(port, ps) ← PortMgr.allocate_port (RoomMember.ports (core g));
  let g := set_core g (RoomMember.mkSfu ps (RoomMember.streams (core g)) (RoomMember.srtp_world (core g))) in
  let addr := setIp (of_port port) (ipstr g) in
  let answer := match peer with
                | Some p => Sdp.set_peer_sdp Sdp.new_SessionDescription p
                | None => Sdp.new_SessionDescription
                end in
  '(answer, r) ← Sdp.create_answer answer (rng g) cert options addr;
  let answer := Sdp.build answer offer in
  text ← Sdp.to_string (order bytes) answer;
  Ok (set_rng g r, addr, answer, text).

Definition resp_sdp (cmd sroomid uid text : bytes) : J :=
  let ret := set nullValue (lit "cmd") (of_string cmd) in
  let ret := set ret (lit "roomId") (of_string sroomid) in
  let ret := set ret (lit "uid") (of_string uid) in
  let ret := set ret (lit "sdp") nullValue in
  let sdp := set nullValue (lit "type") (of_string (lit "answer")) in
  set ret (lit "sdp") (set sdp (lit "sdp") (of_string text)).

Definition set_offer (m : RoomMember) (d : description) : RoomMember :=
  RoomMember.mkMember (RoomMember.uid m) (Some d) (RoomMember.answer_sdp m) (RoomMember.udp_receiver m)
    (RoomMember.udp_handles m) (RoomMember._addr m).

Definition set_answer (m : RoomMember) (d : description) : RoomMember :=
  RoomMember.mkMember (RoomMember.uid m) (RoomMember.offer_sdp m) (Some d) (RoomMember.udp_receiver m)
    (RoomMember.udp_handles m) (RoomMember._addr m).

(** From [allocate_port] to the end, which [publish] and [pullstream] share. *)
Definition answer_member (g : server) (room : Room) (key : bytes) (member : RoomMember)
    (options : RTCOfferAnswerOptions) (peer : option description) (cmd sroomid uid : bytes)
    (ptr : Connection) : res server :=
  offer ← from_opt NullDeref (RoomMember.offer_sdp member);
  '(g, addr, answer, text) ← make_answer g options peer offer;
  let g := write g ptr (writeString (resp_sdp cmd sroomid uid text)) in
  let '(s, member) := RoomMember.start_recv (core g) (set_answer member answer) udp_server
                        (setIp addr (lit "0.0.0.0")) in
  Ok (put_room (set_core g s) (put_member room key member)).

Definition handle_publish (g : server) (msg : J) (ptr : Connection) : res server :=
  sroomid ← get_json_string msg (lit "roomId") [];
  uid ← get_json_string msg (lit "uid") [];
  if (zlen sroomid <? 1) || (zlen uid <? 1) then Ok g
  else
    id ← stoll (c_str sroomid);
    match find_room g id with
    | None => Ok g
    | Some room =>
        match members room !! uid with
        | None => Ok g
        | Some member =>
            sdp ← get_json_string msg (lit "sdp") [];
            sdpstr ← extract_sdp sdp;
            match sdpstr with
            | None => Ok g
            | Some sdpstr =>
                vecs ← split_lines sdpstr;
                if zlen vecs <? 6 then Ok g
                else
                  offer ← from_opt NullDeref (RoomMember.offer_sdp member);
                  '(flag, offer) ← Sdp.parse_sdp offer vecs;
                  let member := set_offer member offer in
                  if negb flag then Ok (put_room g (put_member room uid member))
                  else answer_member g room uid member publish_options None
                         (lit "resp-publish") sroomid uid ptr
            end
        end
    end.

(** [RtcStreamMgr::add_subscriber]. *)
Definition subscribe (g : server) (uid remote_uid : bytes) : server :=
  let s := core g in
  set_core g (RoomMember.mkSfu (RoomMember.ports s)
                (RtcStreamMgr.add_subscriber (RoomMember.streams s) uid remote_uid)
                (RoomMember.srtp_world s)).

(** [peer->offer_sdp] after [member->offer_sdp] was parsed into: the two are
    one object when a member pulls itself. *)
Definition peer_offer (room : Room) (remote_uid : bytes) : option description :=
  members room !! remote_uid ≫= RoomMember.offer_sdp.

Definition handle_pull (g : server) (msg : J) (ptr : Connection) : res server :=
  sroomid ← get_json_string msg (lit "roomId") [];
  uid ← get_json_string msg (lit "uid") [];
  remote_uid ← get_json_string msg (lit "remote_uid") [];
  if (zlen sroomid <? 1) || (zlen uid <? 1) || (zlen remote_uid <? 1) then Ok g
  else
    id ← stoll (c_str sroomid);
    match find_room g id with
    | None => Ok g
    | Some room =>
        match members room !! uid, members room !! remote_uid with
        | Some member, Some _ =>
            sdp ← get_json_string msg (lit "sdp") [];
            sdpstr ← extract_sdp sdp;
            match sdpstr with
            | None => Ok g
            | Some sdpstr =>
                vecs ← split_lines sdpstr;
                if zlen vecs <? 6 then Ok g
                else
                  let g := subscribe g uid remote_uid in
                  offer ← from_opt NullDeref (RoomMember.offer_sdp member);
                  '(_, offer) ← Sdp.parse_sdp offer vecs;
                  let member := set_offer member offer in
                  let room := put_member room uid member in
                  answer_member g room uid member pull_options (peer_offer room remote_uid)
                    (lit "resp-pullstream") sroomid uid ptr
            end
        | _, _ => Ok g
        end
    end.

Definition handle (g : server) (msg : J) (ptr : Connection) : res server :=
  cmd ← get_json_string msg (lit "cmd") [];
  if bool_decide (cmd = lit "join") then handle_join g msg ptr
  else if bool_decide (cmd = lit "publish") then handle_publish g msg ptr
  else if bool_decide (cmd = lit "pullstream") then handle_pull g msg ptr
  else Ok g.

(** ** A connection goes away *)

(** The entry of [room->connections] the loop stops at. *)
Definition find_connection (room : Room) (id : Z) : option bytes :=
  (fun x => fst (snd x)) <$>
    list_find (fun kv => conn_id (snd kv) = id) (order _ (connections room)).

Definition remove_member (g : server) (room : Room) (u : bytes) : res server :=
  '(g, room) ← match members room !! u with
               | None => Ok (g, room)
               | Some m =>
                   '(s, m) ← RoomMember.stop_recv (core g) m;
                   '(s, _) ← RoomMember.destory s m;
                   Ok (set_core g s, mkRoom (roomid room) (delete u (members room)) (connections room))
               end;
  Ok (put_room g (mkRoom (roomid room) (members room) (delete u (connections room)))).

Definition remove (g : server) (ptr : Connection) : res server :=
  match _connections g !! conn_id ptr with
  | None => Ok g
  | Some rid =>
      g ← match _all_rooms g !! rid with
          | None => Ok g
          | Some room =>
              match find_connection room (conn_id ptr) with
              | None => Ok g
              | Some u => remove_member g room u
              end
          end;
      Ok (set_connections g (delete (conn_id ptr) (_connections g)))
  end.

(** ** WssServer *)

Definition on_newconnection (g : server) (conn : Connection) : server :=
  set_conn_map g (<[conn_id conn := conn]> (_conn_map g)).

(** [error] is the connection's error code; closing is up to the library. *)
Definition on_message (g : server) (ptr : Connection) (error : Z) (recv_msg : bytes) : res server :=
  if negb (error =? 0) then Ok g
  else
    match SUtil.parseJson reader_parse (c_str recv_msg) with
    | Some json => handle g json ptr
    | None => Ok g
    end.

Definition on_connection_close (g : server) (ptr : Connection) : res server :=
  g ← remove g ptr; Ok (set_conn_map g (delete (conn_id ptr) (_conn_map g))).

(** ** JuanSfu::init *)

(** The state the constructors leave, then the configuration file. *)
Definition fresh_server (r : R) : server :=
  mkServer (RoomMember.mkSfu PortMgr.create RtcStreamMgr.empty_mgr (Srtp.mkWorld false ∅ [] Uvnet.no_udps))
    [] ∅ ∅ ∅ r [].

(** The server and the port it listens on. *)
Definition init (r : R) (config : bytes) : res (server * Z) :=
  let g := fresh_server r in
  json ← from_opt AssertFailed (SUtil.readJson reader_parse config);
  port_start ← get_json_int json (lit "udp_port_start") 0;
  port_end ← get_json_int json (lit "udp_port_end") 0;
  step ← get_json_int json (lit "udp_port_step") 0;
  port ← get_json_int json (lit "server_port") 0;
  ipstr ← get_json_string json (lit "server_ip") [];
  _ ← require (port_start <? port_end) AssertFailed;
  _ ← require (0 <? step) AssertFailed;
  _ ← require (0 <? port) AssertFailed;
  _ ← require (5 <? zlen ipstr) AssertFailed;
  ps ← PortMgr.init (RoomMember.ports (core g)) port_start port_end step;
  let s := core g in
  Ok (mkServer (RoomMember.mkSfu ps (RoomMember.streams s) (RoomMember.srtp_world s)) ipstr
        (_all_rooms g) (_connections g) (_conn_map g) (rng g) (out g), port).

(** ** The event loop *)

(** What the libraries call: the web socket's callbacks, and a socket's with
    a datagram. *)
Inductive event :=
  | ev_newconnection (conn : Connection)
  | ev_message (ptr : Connection) (error : Z) (recv_msg : bytes)
  | ev_close (ptr : Connection)
  | ev_datagram (udp : nat) (addr : IpAddr) (data : bytes).

(** The callback of a socket is a call on the receiver that bound it, which
    exists as long as it is some member's [udp_receiver]. *)
Definition receiver_udp (m : RoomMember) : option nat :=
  RoomMember.udp_receiver m ≫= RoomMember._udp.

Definition all_members (g : server) : list (Z * bytes * RoomMember) :=
  map_to_list (_all_rooms g) ≫= fun ir =>
    (fun um => (fst ir, fst um, snd um)) <$> map_to_list (members (snd ir)).

Definition bound_member (g : server) (udp : nat) : option (Z * bytes * RoomMember) :=
  snd <$> list_find (fun x => receiver_udp (snd x) = Some udp) (all_members g).

Definition udps (g : server) : Uvnet.udps := Srtp.udps (RoomMember.srtp_world (core g)).

(** A socket that was deleted receives nothing; one whose receiver was
    replaced by another is still bound and calls the freed one. *)
Definition on_datagram (g : server) (udp : nat) (addr : IpAddr) (data : bytes) : res server :=
  if bool_decide (udp ∈ Uvnet.alive (udps g)) then
    '(id, uid, m) ← from_opt Dangling (bound_member g udp);
    room ← from_opt Dangling (find_room g id);
    '(s, m) ← RoomMember.on_udp_receive new_adapter (order nat) reset_view (core g) m udp addr data;
    Ok (put_room (set_core g s) (put_member room uid m))
  else Ok g.

Definition step (g : server) (e : event) : res server :=
  match e with
  | ev_newconnection conn => Ok (on_newconnection g conn)
  | ev_message ptr error recv_msg => on_message g ptr error recv_msg
  | ev_close ptr => on_connection_close g ptr
  | ev_datagram udp addr data => on_datagram g udp addr data
  end.

Fixpoint run (g : server) (es : list event) : res server :=
  match es with
  | [] => Ok g
  | e :: es => g ← step g e; run g es
  end.

(** ** The state of the server *)

Definition room_at (g : server) (id : Z) : Room := default (mkRoom id ∅ ∅) (_all_rooms g !! id).

Definition member_at (g : server) (id : Z) (u : bytes) : option RoomMember :=
  members (room_at g id) !! u.

(** The port a member's receiver is bound to. *)
Definition port_of (m : RoomMember) : option Z :=
  match RoomMember.udp_receiver m with
  | Some _ => Some (Uvnet.getPort (RoomMember._addr m))
  | None => None
  end.

Definition held (g : server) (id : Z) (u : bytes) : option Z := member_at g id u ≫= port_of.

(** [f] says which port each member holds: no two the same, and all of them
    handed out by the manager. *)
Definition ports_held (all : list Z) (pm : PortMgr.UdpPortManager) (f : Z -> bytes -> option Z) : Prop :=
  exists out, PortMgr.inv all pm out /\ (forall id u p, f id u = Some p -> p ∈ out) /\
    (forall id u id' u' p, f id u = Some p -> f id' u' = Some p -> id = id' /\ u = u').

Definition upd {T} (f : Z -> bytes -> option T) (id : Z) (u : bytes) (o : option T) (id' : Z) (u' : bytes) :=
  if decide (id' = id /\ u' = u) then o else f id' u'.

(** The socket of a member's receiver; those of two members differ, and all
    of them are there. *)
Definition socket (g : server) (id : Z) (u : bytes) : option nat := member_at g id u ≫= receiver_udp.

Definition sockets_held (us : Uvnet.udps) (f : Z -> bytes -> option nat) : Prop :=
  (forall id u x, f id u = Some x -> x ∈ Uvnet.alive us) /\
  (forall id u id' u' x, f id u = Some x -> f id' u' = Some x -> id = id' /\ u = u') /\
  (forall x, x ∈ Uvnet.alive us -> (x < Uvnet.next_udp us)%nat).

Record member_inv (s : sfu) (m : RoomMember) : Prop := {
  inv_offer : is_Some (RoomMember.offer_sdp m);
  inv_answer : is_Some (RoomMember.udp_receiver m) ->
    exists a c cs, RoomMember.answer_sdp m = Some a /\ Sdp.media_contents a = c :: cs;
  inv_bound : forall r, RoomMember.udp_receiver m = Some r -> is_Some (RoomMember._udp r);
  inv_handles : map_Forall (fun _ up => RoomMember.ports_ok s up) (RoomMember.udp_handles m);
}.

Record server_ok (all : list Z) (g : server) : Prop := {
  ok_core : RoomMember.sfu_ok (core g);
  ok_rooms : forall id room, _all_rooms g !! id = Some room ->
    roomid room = id /\ dom (connections room) = dom (members room);
  ok_members : forall id u m, member_at g id u = Some m ->
    RoomMember.uid m = u /\ member_inv (core g) m;
  ok_ports : ports_held all (RoomMember.ports (core g)) (held g);
  ok_sockets : sockets_held (udps g) (socket g);
}.

Lemma upd_same {T} f id u (o : option T) : upd f id u o id u = o.
Proof. unfold upd. by rewrite decide_True. Qed.

Lemma sockets_held_ext us f f' :
  (forall id u, f id u = f' id u) -> sockets_held us f -> sockets_held us f'.
Proof.
  intros E (Hin & Hinj & Hnext). split; [|split; [|done]].
  - intros id u x. rewrite <- E. apply Hin.
  - intros id u id' u' x. rewrite <- !E. apply Hinj.
Qed.

(** A new socket is no other member's. *)
Lemma sockets_bind us f id u :
  sockets_held us f ->
  sockets_held (snd (Uvnet.addBind us)) (upd f id u (Some (fst (Uvnet.addBind us)))).
Proof.
  intros (Hin & Hinj & Hnext). cbn.
  assert (Hnew : forall i v, f i v <> Some (Uvnet.next_udp us)).
  { intros i v E. apply Hin, Hnext in E. lia. }
  unfold upd. split; [|split]; cbn.
  - intros i v x. case_decide; [intros [= <-]; set_solver|]. intros ?%Hin. set_solver.
  - intros i v i' v' x. repeat case_decide; intros E1 E2; [by intuition congruence|..].
    + exfalso. apply (Hnew i' v'). congruence.
    + exfalso. apply (Hnew i v). congruence.
    + by apply (Hinj i v i' v' x).
  - intros x [->%elem_of_singleton|?%Hnext]%elem_of_union; lia.
Qed.

(** The socket of a member is deleted, and no other's. *)
Lemma sockets_close us f id u x :
  sockets_held us f -> f id u = Some x ->
  x ∈ Uvnet.alive us /\ sockets_held (Uvnet.delete_udp us x) (upd f id u None).
Proof.
  intros (Hin & Hinj & Hnext) Hf. split; [by apply (Hin id u)|]. unfold upd. split; [|split]; cbn.
  - intros i v y. case_decide; [done|]. intros Hy. pose proof (Hin i v y Hy).
    assert (y <> x) by (intros ->; by apply (Hinj i v id u x Hy) in Hf). set_solver.
  - intros i v i' v' y. repeat case_decide; try done. apply Hinj.
  - intros y [? _]%elem_of_difference. by apply Hnext.
Qed.

Lemma ports_held_ext all pm f f' :
  (forall id u, f id u = f' id u) -> ports_held all pm f -> ports_held all pm f'.
Proof.
  intros E (out & Hi & Hin & Hinj). exists out. split; [done|]. split.
  - intros id u p. rewrite <- E. apply Hin.
  - intros id u id' u' p. rewrite <- !E. apply Hinj.
Qed.

Lemma inv_nodup all pm out : NoDup all -> PortMgr.inv all pm out -> NoDup out /\ forall p, p ∈ out -> p ∈ all.
Proof.
  intros Hnd (arr & rec & _ & _ & _ & _ & _ & _ & _ & E). rewrite <- E in Hnd.
  apply list.NoDup_app in Hnd as (_ & _ & Hnd). apply list.NoDup_app in Hnd as (_ & _ & Hnd).
  split; [done|]. intros p Hp. rewrite <- E, !elem_of_app. auto.
Qed.

Lemma inv_perm all pm out out' : out ≡ₚ out' -> PortMgr.inv all pm out -> PortMgr.inv all pm out'.
Proof.
  intros Hp (arr & rec & ? & ? & ? & ? & ? & ? & ? & E). exists arr, rec. do 7 (split; [done|]).
  by rewrite <- Hp.
Qed.

(** A new port goes to one member, whatever it held before. *)
Lemma ports_allocate all pm f id u p pm' :
  NoDup all -> ports_held all pm f -> PortMgr.allocate_port pm = Ok (p, pm') -> p <> 0 ->
  ports_held all pm' (upd f id u (Some p)) /\ p ∈ all.
Proof.
  intros Hnd (out & Hi & Hin & Hinj) Ha Hp.
  destruct (PortMgr.allocate_inv all pm out Hi) as (p' & pm'' & E & Hc). rewrite Ha in E.
  injection E as <- <-. destruct Hc as [(_ & ? & _)|[_ Hi']]; [done|].
  destruct (inv_nodup all pm' (p :: out) Hnd Hi') as [[Hnew _]%list.NoDup_cons Hall].
  split; [|apply Hall; set_solver]. exists (p :: out). split; [done|]. unfold upd. split.
  - intros i v q. case_decide; [intros [= <-]; set_solver|]. intros Hq%Hin. set_solver.
  - intros i v i' v' q. repeat case_decide; intros E1 E2; [by intuition congruence|..].
    + injection E1 as <-. by apply Hin in E2.
    + injection E2 as <-. by apply Hin in E1.
    + by apply (Hinj i v i' v' q).
Qed.

(** The port of a member goes back. *)
Lemma ports_recycle all pm f id u p :
  NoDup all -> ports_held all pm f -> f id u = Some p ->
  exists pm', PortMgr.recycle_port pm p = Ok pm' /\ ports_held all pm' (upd f id u None).
Proof.
  intros Hnd (out & Hi & Hin & Hinj) Hf. pose proof (Hin id u p Hf) as Hp.
  apply elem_of_Permutation in Hp as [out' Hout].
  destruct (PortMgr.recycle_inv all pm out p out' Hi Hout) as (pm' & E & Hi').
  exists pm'. split; [done|]. exists out'. split; [done|]. unfold upd. split.
  - intros i v q. case_decide; [done|]. intros Hq. pose proof (Hin i v q Hq) as Hq'. rewrite Hout in Hq'.
    apply elem_of_cons in Hq' as [->|?]; [|done]. by apply (Hinj i v id u p Hq) in Hf.
  - intros i v i' v' q. repeat case_decide; try done. apply Hinj.
Qed.

Lemma member_inv_grows s s' m : RoomMember.grows s s' -> member_inv s m -> member_inv s' m.
Proof.
  intros Hg [Ho Ha Hb Hh]. split; [done..|]. intros k up Hk. eapply RoomMember.ports_ok_grows; [done|].
  by apply (Hh k).
Qed.

Lemma sfu_ok_ext (s s' : sfu) :
  Srtp.transports (RoomMember.srtp_world s') = Srtp.transports (RoomMember.srtp_world s) ->
  Srtp._srtp_init (RoomMember.srtp_world s') = Srtp._srtp_init (RoomMember.srtp_world s) ->
  RtcStreamMgr._streams (RoomMember.streams s') = RtcStreamMgr._streams (RoomMember.streams s) ->
  RoomMember.sfu_ok s -> RoomMember.sfu_ok s' /\ RoomMember.grows s s'.
Proof.
  intros E1 E3 E2 [Hw Hs Hl Hi]. unfold RoomMember.grows, RtcStreamMgr.live. rewrite E1. split; [|done].
  split; unfold Srtp.world_ok, Srtp.transport_ok, RtcStreamMgr.live in *; rewrite ?E1, ?E2, ?E3; done.
Qed.

(** Everything the handlers do to the rooms: one member of one room is put
    in, replaced or taken out. *)
Lemma change_ok all (g g' : server) id u (o : option RoomMember) cs :
  server_ok all g ->
  let ms := partial_alter (fun _ => o) u (members (room_at g id)) in
  _all_rooms g' = <[id := mkRoom id ms cs]> (_all_rooms g) -> dom cs = dom ms ->
  RoomMember.sfu_ok (core g') -> RoomMember.grows (core g) (core g') ->
  (forall m, o = Some m -> RoomMember.uid m = u /\ member_inv (core g') m) ->
  ports_held all (RoomMember.ports (core g')) (upd (held g) id u (o ≫= port_of)) ->
  sockets_held (udps g') (upd (socket g) id u (o ≫= receiver_udp)) ->
  server_ok all g'.
Proof.
  intros [Hc Hr Hm Hp Hs] ms Er Hdom Hc' Hg Ho Hp' Hs'.
  assert (Hat : forall i v, member_at g' i v =
            if decide (i = id /\ v = u) then o else member_at g i v).
  { intros i v. unfold member_at, room_at. rewrite Er. destruct (decide (i = id)) as [->|Hi].
    - rewrite lookup_insert_eq. cbn. unfold ms. destruct (decide (v = u)) as [->|Hv].
      + rewrite lookup_partial_alter_eq, decide_True by done. done.
      + rewrite lookup_partial_alter_ne, decide_False by (done || tauto). done.
    - rewrite lookup_insert_ne, decide_False by (done || tauto). done. }
  split; [done|..].
  - intros i room Hi. rewrite Er in Hi. apply lookup_insert_Some in Hi as [[<- <-]|[_ Hi]]; [done|].
    by apply Hr.
  - intros i v m. rewrite Hat. case_decide as E; [destruct E as [-> ->]; apply Ho|].
    intros Hv. destruct (Hm i v m Hv) as [? ?]. split; [done|]. by eapply member_inv_grows.
  - eapply ports_held_ext; [|exact Hp']. intros i v. unfold held. rewrite Hat. unfold upd, held.
    by case_decide.
  - eapply sockets_held_ext; [|exact Hs']. intros i v. unfold socket. rewrite Hat. unfold upd, socket.
    by case_decide.
Qed.

(** Nothing changes for a member that keeps its receiver. *)
Lemma upd_kept {T} (f : Z -> bytes -> option T) id u o :
  f id u = o -> forall i v, f i v = upd f id u o i v.
Proof. intros E i v. unfold upd. case_decide as Ed; [|done]. by destruct Ed as [-> ->]. Qed.

Lemma ports_kept all g id u o :
  server_ok all g -> held g id u = o -> ports_held all (RoomMember.ports (core g)) (upd (held g) id u o).
Proof. intros Hg E. eapply ports_held_ext; [by apply upd_kept|apply (ok_ports _ _ Hg)]. Qed.

Lemma sockets_kept all g id u o :
  server_ok all g -> socket g id u = o -> sockets_held (udps g) (upd (socket g) id u o).
Proof. intros Hg E. eapply sockets_held_ext; [by apply upd_kept|apply (ok_sockets _ _ Hg)]. Qed.

(** ** The requests keep the state well formed *)

(** The ports of the configuration; the certificate and the UDP server exist. *)
Context (all : list Z) (all_nodup : NoDup all) (all_ports : Forall (fun p => 0 < p < 65536) all).
Context (cert_ok : is_Some (SslFingerprint.CreateFromCertificate cert)) (server_bound : udp_server = true).

(** There is a port to hand out. *)
Definition has_port (g : server) : Prop :=
  forall p ps, PortMgr.allocate_port (RoomMember.ports (core g)) = Ok (p, ps) -> p <> 0.

Lemma room_at_find g id room : find_room g id = Some room -> room_at g id = room.
Proof. unfold find_room, room_at. by intros ->. Qed.

Lemma create_answer_contents (d d' : description) r o addr r' :
  Sdp.create_answer d r cert o addr = Ok (d', r') -> exists c cs, Sdp.media_contents d' = c :: cs.
Proof.
  unfold Sdp.create_answer. destruct cert_ok as [fp ->]. intros E.
  apply res_bind_ok in E as ([ufrag r1] & _ & E). apply res_bind_ok in E as ([pw r2] & _ & E).
  apply res_bind_ok in E as (cand & _ & E). injection E as <- _.
  cbn [Sdp.media_contents]. destruct (Sdp.media_contents d) as [|c cs]; eexists _, _; reflexivity.
Qed.

Lemma make_answer_inv g o peer offer g' addr ans text :
  make_answer g o peer offer = Ok (g', addr, ans, text) ->
  exists p ps r, PortMgr.allocate_port (RoomMember.ports (core g)) = Ok (p, ps) /\
    g' = set_rng (set_core g (RoomMember.mkSfu ps (RoomMember.streams (core g))
                    (RoomMember.srtp_world (core g)))) r /\
    addr = setIp (of_port p) (ipstr g) /\ exists c cs, Sdp.media_contents ans = c :: cs.
Proof.
  intros E. apply res_bind_ok in E as ([p ps] & Ea & E). cbv zeta in E.
  apply res_bind_ok in E as ([d r] & Ed & E). apply res_bind_ok in E as (t & _ & E).
  injection E as <- <- <- _. exists p, ps, r. do 3 (split; [done|]).
  destruct (create_answer_contents _ _ _ _ _ _ Ed) as (c & cs & Ec). exists c, cs. exact Ec.
Qed.

(** Answering a member of the room [id] leaves it with a receiver on a port of
    its own. *)
Lemma answer_member_ok g id u room m o peer cmd sroomid uid ptr g' :
  server_ok all g -> has_port g -> roomid room = id -> is_Some (members (room_at g id) !! u) ->
  (forall m', <[u := m']> (members room) = <[u := m']> (members (room_at g id))) ->
  connections room = connections (room_at g id) -> is_Some (_all_rooms g !! id) ->
  RoomMember.uid m = u -> member_inv (core g) m ->
  answer_member g room u m o peer cmd sroomid uid ptr = Ok g' -> server_ok all g'.
Proof.
  intros Hg Hport Eid Hu Hms Hcs [room0 Hroom] Euid [Hoff Hans Hbound Hh] E.
  apply res_bind_ok in E as (offer & _ & E). apply res_bind_ok in E as ([[[g1 addr] ans] text] & E1 & E).
  apply make_answer_inv in E1 as (p & ps & r & Ea & -> & -> & c & cs & Ec).
  cbv zeta in E. pose proof (Hport p ps Ea) as Hp.
  destruct (ports_allocate all _ (held g) id u p ps all_nodup (ok_ports _ _ Hg) Ea Hp) as [Hheld Hin].
  pose proof (sockets_bind _ _ id u (ok_sockets _ _ Hg)) as Hsock.
  assert (Ecore : forall h x, core (write h ptr x) = core h /\ _all_rooms (write h ptr x) = _all_rooms h)
    by (intros h x; unfold write; by destruct (is_ws ptr)).
  rewrite (proj1 (Ecore _ _)) in E. unfold RoomMember.start_recv, RoomMember.receiver_start in E.
  cbn [RoomMember.recv_server RoomMember.new_UdpReceiver] in E. rewrite server_bound in E.
  cbn [negb Uvnet.addBind] in E. apply ok_inj in E as <-. set (a := setIp _ _).
  set (s1 := RoomMember.mkSfu ps (RoomMember.streams (core g)) (RoomMember.srtp_world (core g))).
  set (s2 := RoomMember.set_udps s1 (snd (Uvnet.addBind (udps g)))).
  assert (Hrange : 0 < p < 65536) by (by apply (proj1 (list.Forall_forall _ _) all_ports)).
  destruct (sfu_ok_ext (core g) s2 eq_refl eq_refl eq_refl (ok_core _ _ Hg)) as [Hs2 Hg2].
  set (m1 := RoomMember.mkMember _ _ _ _ _ _).
  eapply (change_ok all g _ id u (Some m1) (connections room) Hg).
  - unfold put_room, set_rooms, put_member. cbn [_all_rooms roomid set_core]. fold m1.
    rewrite (proj2 (Ecore _ _)), Eid, (Hms m1). reflexivity.
  - rewrite Hcs. destruct (ok_rooms _ _ Hg id room0 Hroom) as [_ Hdom].
    unfold room_at in *. rewrite Hroom in *. cbn in *. rewrite Hdom.
    change (partial_alter _ u (members room0)) with (<[u := m1]> (members room0)).
    rewrite dom_insert_lookup_L; [done|exact Hu].
  - exact Hs2.
  - exact Hg2.
  - intros ? [= <-]. split; [exact Euid|]. split; cbn.
    + done.
    + intros _. by exists ans, c, cs.
    + intros ? [= <-]. by eexists.
    + intros k up Hk. eapply RoomMember.ports_ok_grows; [exact Hg2|]. by apply (Hh k).
  - cbn. subst a. rewrite !getPort_setIp, getPort_of_port by lia. exact Hheld.
  - exact Hsock.
Qed.

Lemma subscribe_ok g u v : server_ok all g -> server_ok all (subscribe g u v).
Proof.
  intros [Hc Hr Hm Hp Hs].
  destruct (sfu_ok_ext (core g) (core (subscribe g u v)) eq_refl eq_refl eq_refl Hc) as [Hc' Hg].
  split; [done|done| |done|done]. intros i x m Hx. destruct (Hm i x m Hx) as [? ?].
  split; [done|]. by eapply member_inv_grows.
Qed.

Lemma offer_inv s m d : member_inv s m -> member_inv s (set_offer m d).
Proof. intros [Ho Ha Hb Hh]. split; [by eexists|done..]. Qed.

Lemma write_parts g ptr x : core (write g ptr x) = core g /\ _all_rooms (write g ptr x) = _all_rooms g.
Proof. unfold write. by destruct (is_ws ptr). Qed.

(** Putting in a member that holds no port. *)
Lemma add_member_ok g g' id u m cs :
  server_ok all g -> core g' = core g -> member_at g id u = None ->
  _all_rooms g' = <[id := mkRoom id (<[u := m]> (members (room_at g id))) cs]> (_all_rooms g) ->
  dom cs = {[u]} ∪ dom (connections (room_at g id)) ->
  RoomMember.uid m = u -> member_inv (core g) m -> RoomMember.udp_receiver m = None ->
  server_ok all g'.
Proof.
  intros Hg Ec Hnone Er Hdom Eu Hm Hrecv.
  eapply (change_ok all g g' id u (Some m) cs Hg); rewrite ?Ec.
  - exact Er.
  - rewrite Hdom. change (partial_alter _ u ?x) with (<[u := m]> x). rewrite dom_insert_L. f_equal.
    unfold room_at. destruct (_all_rooms g !! id) as [r|] eqn:E; [|done]. by apply (ok_rooms _ _ Hg id).
  - apply (ok_core _ _ Hg).
  - apply RoomMember.grows_refl.
  - by intros ? [= <-].
  - apply (ports_kept all); [done|]. unfold held. rewrite Hnone. cbn. unfold port_of. by rewrite Hrecv.
  - unfold udps. rewrite Ec. apply (sockets_kept all); [done|]. unfold socket. rewrite Hnone. cbn.
    unfold receiver_udp. by rewrite Hrecv.
Qed.

Lemma new_member_inv s u : member_inv s (new_member u).
Proof. split; cbn; [by eexists|by intros [? ?]|done|apply map_Forall_empty]. Qed.

(** A new member, in a room that is made when it is missing. *)
Lemma handle_join_ok g msg ptr g' :
  server_ok all g -> handle_join g msg ptr = Ok g' -> server_ok all g'.
Proof.
  intros Hg E. apply res_bind_ok in E as (sroomid & _ & E). apply res_bind_ok in E as (u & _ & E).
  destruct (_ || _); [by apply ok_inj in E as <-|]. apply res_bind_ok in E as (id & _ & E).
  unfold find_room in E. destruct (_all_rooms g !! id) as [r|] eqn:Er.
  - case_bool_decide as Hu; [by apply ok_inj in E as <-|]. apply ok_inj in E as <-.
    destruct (ok_rooms _ _ Hg id r Er) as [Eid _].
    assert (Eat : room_at g id = r) by (unfold room_at; by rewrite Er).
    eapply (add_member_ok g _ id u (new_member u) _ Hg); cbn; rewrite ?(proj1 (write_parts _ _ _)),
      ?(proj2 (write_parts _ _ _)); try done.
    + unfold member_at. rewrite Eat. by apply eq_None_not_Some.
    + cbn. by rewrite Eat, Eid.
    + rewrite Eat. by rewrite dom_insert_L.
    + apply new_member_inv.
  - cbn in E. rewrite lookup_empty, bool_decide_eq_false_2 in E by (by intros [? ?]).
    apply ok_inj in E as <-.
    assert (Eat : room_at g id = mkRoom id ∅ ∅) by (unfold room_at; by rewrite Er).
    eapply (add_member_ok g _ id u (new_member u) _ Hg); cbn; rewrite ?(proj1 (write_parts _ _ _)),
      ?(proj2 (write_parts _ _ _)); try done.
    + unfold member_at. rewrite Eat. apply lookup_empty.
    + cbn. by rewrite Eat, insert_insert_eq.
    + rewrite Eat. by rewrite dom_insert_L.
    + apply new_member_inv.
Qed.

(** What publish and pull have established before the answer is made. *)
Lemma known_room g id room u m :
  server_ok all g -> find_room g id = Some room -> members room !! u = Some m ->
  room_at g id = room /\ roomid room = id /\ RoomMember.uid m = u /\ member_inv (core g) m.
Proof.
  intros Hg Er Hu. pose proof (room_at_find g id room Er) as Eat. split; [done|].
  split; [by apply (ok_rooms _ _ Hg id)|]. apply (ok_members _ _ Hg id). unfold member_at. by rewrite Eat.
Qed.

Lemma set_offer_ok g id room u m d :
  server_ok all g -> find_room g id = Some room -> members room !! u = Some m ->
  server_ok all (put_room g (put_member room u (set_offer m d))).
Proof.
  intros Hg Er Hu. destruct (known_room g id room u m Hg Er Hu) as (Eat & Eid & Eu & Hm).
  eapply (change_ok all g _ id u (Some (set_offer m d)) (connections room) Hg).
  - unfold put_room, set_rooms, put_member. cbn [_all_rooms roomid]. rewrite Eid, Eat. reflexivity.
  - rewrite Eat. change (partial_alter _ u ?x) with (<[u := set_offer m d]> x).
    rewrite dom_insert_lookup_L by (by rewrite Hu). by apply (ok_rooms _ _ Hg id).
  - apply (ok_core _ _ Hg).
  - apply RoomMember.grows_refl.
  - intros ? [= <-]. split; [done|]. by apply offer_inv.
  - refine (ports_kept all g id u _ Hg _). unfold held, member_at. by rewrite Eat, Hu.
  - refine (sockets_kept all g id u _ Hg _). unfold socket, member_at. by rewrite Eat, Hu.
Qed.

Lemma handle_publish_ok g msg ptr g' :
  server_ok all g -> has_port g -> handle_publish g msg ptr = Ok g' -> server_ok all g'.
Proof.
  intros Hg Hp E. apply res_bind_ok in E as (sroomid & _ & E). apply res_bind_ok in E as (u & _ & E).
  destruct (_ || _); [by apply ok_inj in E as <-|]. apply res_bind_ok in E as (id & _ & E).
  destruct (find_room g id) as [room|] eqn:Er; [|by apply ok_inj in E as <-].
  destruct (members room !! u) as [m|] eqn:Hu; [|by apply ok_inj in E as <-].
  apply res_bind_ok in E as (sdp & _ & E). apply res_bind_ok in E as ([str|] & _ & E);
    [|by apply ok_inj in E as <-].
  apply res_bind_ok in E as (vecs & _ & E). destruct (_ <? _); [by apply ok_inj in E as <-|].
  apply res_bind_ok in E as (offer & _ & E). apply res_bind_ok in E as ([flag d] & _ & E).
  cbv zeta in E. destruct flag; cbn [negb] in E.
  2: { apply ok_inj in E as <-. by apply (set_offer_ok g id). }
  destruct (known_room g id room u m Hg Er Hu) as (Eat & Eid & Eu & Hm).
  eapply (answer_member_ok g id u room (set_offer m d)); try done; try (by exists room).
  - by rewrite Eat, Hu.
  - by rewrite Eat.
  - by rewrite Eat.
  - by apply offer_inv.
Qed.

Lemma handle_pull_ok g msg ptr g' :
  server_ok all g -> has_port g -> handle_pull g msg ptr = Ok g' -> server_ok all g'.
Proof.
  intros Hg Hp E. apply res_bind_ok in E as (sroomid & _ & E). apply res_bind_ok in E as (u & _ & E).
  apply res_bind_ok in E as (remote & _ & E).
  destruct (_ || _); [by apply ok_inj in E as <-|]. apply res_bind_ok in E as (id & _ & E).
  destruct (find_room g id) as [room|] eqn:Er; [|by apply ok_inj in E as <-].
  destruct (members room !! u) as [m|] eqn:Hu; [|by apply ok_inj in E as <-].
  destruct (members room !! remote) as [pm|] eqn:Hr; [|by apply ok_inj in E as <-].
  apply res_bind_ok in E as (sdp & _ & E). apply res_bind_ok in E as ([str|] & _ & E);
    [|by apply ok_inj in E as <-].
  apply res_bind_ok in E as (vecs & _ & E). destruct (_ <? _); [by apply ok_inj in E as <-|].
  cbv zeta in E. apply res_bind_ok in E as (offer & _ & E). apply res_bind_ok in E as ([flag d] & _ & E).
  cbv zeta in E. pose proof (subscribe_ok g u remote Hg) as Hg1.
  destruct (known_room (subscribe g u remote) id room u m Hg1 Er Hu) as (Eat & Eid & Eu & Hm).
  eapply (answer_member_ok (subscribe g u remote) id u (put_member room u (set_offer m d)) (set_offer m d)); try done; try (by exists room).
  - by rewrite Eat, Hu.
  - intros m'. rewrite Eat. unfold put_member. cbn [members]. apply insert_insert_eq.
  - by rewrite Eat.
  - by apply offer_inv.
Qed.

Lemma handle_ok g msg ptr g' :
  server_ok all g -> has_port g -> handle g msg ptr = Ok g' -> server_ok all g'.
Proof.
  intros Hg Hp E. apply res_bind_ok in E as (cmd & _ & E).
  repeat case_bool_decide; [by eapply handle_join_ok|by eapply handle_publish_ok|
    by eapply handle_pull_ok|by apply ok_inj in E as <-].
Qed.

(** ** A connection that closes *)

(** What closing the receiver of [m] makes of the state the members share. *)
Definition stopped (s : sfu) (m : RoomMember) (ps : PortMgr.UdpPortManager) : sfu :=
  let us := Srtp.udps (RoomMember.srtp_world s) in
  let s := RoomMember.mkSfu ps (RoomMember.streams s) (RoomMember.srtp_world s) in
  match receiver_udp m with
  | Some x => RoomMember.set_udps s (Uvnet.delete_udp us x)
  | None => s
  end.

(** The port of [m] goes back to the manager, if it has one. *)
Definition gives_back (pm : PortMgr.UdpPortManager) (m : RoomMember) (ps : PortMgr.UdpPortManager) : Prop :=
  match port_of m with Some p => PortMgr.recycle_port pm p = Ok ps | None => ps = pm end.

Lemma stop_recv_ok (s : sfu) (m : RoomMember) f fs id u :
  ports_held all (RoomMember.ports s) f -> f id u = port_of m ->
  sockets_held (Srtp.udps (RoomMember.srtp_world s)) fs -> fs id u = receiver_udp m -> member_inv s m ->
  exists ps m', RoomMember.stop_recv s m = Ok (stopped s m ps, m') /\ gives_back (RoomMember.ports s) m ps /\
    ports_held all ps (upd f id u None) /\
    sockets_held (Srtp.udps (RoomMember.srtp_world (stopped s m ps))) (upd fs id u None) /\
    RoomMember.uid m' = RoomMember.uid m.
Proof.
  intros Hf Hm Hfs Hms Hi. unfold RoomMember.stop_recv, port_of, stopped, gives_back, receiver_udp in *.
  destruct (RoomMember.udp_receiver m) as [r|] eqn:Er.
  - unfold RoomMember.receiver_stop. destruct (inv_bound s m Hi r Er) as [x Hx]. rewrite Hx.
    rewrite from_opt_Some, bind_ok. cbn [mbind option_bind] in Hms. rewrite Hx in Hms.
    destruct (sockets_close _ _ id u x Hfs Hms) as [Hal Hs']. rewrite bool_decide_eq_true_2 by done.
    cbn [require]. rewrite !bind_ok.
    destruct (ports_recycle all _ f id u _ all_nodup Hf Hm) as (ps & E & Hps).
    unfold port_of in *. rewrite Er in *. cbn [RoomMember.set_udps RoomMember.set_world RoomMember.ports].
    rewrite E, bind_ok. cbn [mbind option_bind]. rewrite Hx. by eexists _, _.
  - exists (RoomMember.ports s), m. unfold port_of. rewrite Er.
    split; [by destruct s|]. split; [done|]. split; [|split; [|done]].
    + by eapply ports_held_ext; [apply upd_kept|].
    + by eapply sockets_held_ext; [apply upd_kept|].
Qed.

Lemma destory_ports_kept (s s' : sfu) (m m' : RoomMember) :
  RoomMember.destory s m = Ok (s', m') -> RoomMember.ports s' = RoomMember.ports s /\
    Srtp.udps (RoomMember.srtp_world s') = Srtp.udps (RoomMember.srtp_world s).
Proof.
  intros E. apply res_bind_ok in E as (w & E1 & E). injection E as <- _. split; [done|]. cbn.
  unfold RtcStreamMgr.remove_subscriber in E1.
  repeat case_match; try (apply res_bind_ok in E1 as (w1 & E0 & E1));
    repeat match goal with
    | E : Ok _ = Ok _ |- _ => apply ok_inj in E; subst
    | E : RtcStreamMgr.on_transport _ _ _ = Ok _ |- _ =>
        apply RoomMember.on_transport_sockets in E as [E _]; [|done]
    end; congruence.
Qed.

(** Taking a member out never faults: its port goes back, its links go, and
    the other members stay as they are. *)
Lemma remove_member_ok g id room u :
  server_ok all g -> _all_rooms g !! id = Some room ->
  exists g', remove_member g room u = Ok g' /\ server_ok all g' /\
    (forall i v, member_at g' i v = if decide (i = id /\ v = u) then None else member_at g i v) /\
    _connections g' = _connections g /\
    (forall m, member_at g id u = Some m ->
       gives_back (RoomMember.ports (core g)) m (RoomMember.ports (core g')) /\
       udps g' = match receiver_udp m with Some x => Uvnet.delete_udp (udps g) x | None => udps g end).
Proof.
  intros Hg Er. destruct (ok_rooms _ _ Hg id room Er) as [Eid Hdom].
  assert (Eat : room_at g id = room) by (unfold room_at; by rewrite Er).
  assert (Hex : exists s ms, (match members room !! u with
      | None => Ok (g, room)
      | Some m =>
          '(s, m) ← RoomMember.stop_recv (core g) m;
          '(s, _) ← RoomMember.destory s m;
          Ok (set_core g s, mkRoom (roomid room) (delete u (members room)) (connections room))
      end) = Ok (set_core g s, mkRoom id ms (connections room)) /\ ms = delete u (members room) /\
      RoomMember.sfu_ok s /\ RoomMember.grows (core g) s /\
      ports_held all (RoomMember.ports s) (upd (held g) id u None) /\
      sockets_held (Srtp.udps (RoomMember.srtp_world s)) (upd (socket g) id u None) /\
      forall m, members room !! u = Some m -> gives_back (RoomMember.ports (core g)) m (RoomMember.ports s) /\
        Srtp.udps (RoomMember.srtp_world s) =
        match receiver_udp m with Some x => Uvnet.delete_udp (udps g) x | None => udps g end).
  { destruct (members room !! u) as [m|] eqn:Hu.
    - destruct (known_room g id room u m Hg Er Hu) as (_ & _ & Eu & Hm).
      destruct (stop_recv_ok (core g) m (held g) (socket g) id u (ok_ports _ _ Hg))
        as (ps & m1 & -> & Hback & Hps & Hss & _);
        [unfold held, member_at; by rewrite Eat, Hu|apply (ok_sockets _ _ Hg)|
         unfold socket, member_at; by rewrite Eat, Hu|done|].
      rewrite bind_ok. destruct (sfu_ok_ext (core g) (stopped (core g) m ps)) as [Hs1 Hg1];
        [by unfold stopped; destruct (receiver_udp m)..|apply (ok_core _ _ Hg)|].
      destruct (RoomMember.destory_ok _ m1 Hs1) as (s2 & m2 & Ed & Hs2 & Hg2 & _).
      destruct (destory_ports_kept _ _ _ _ Ed) as [Ep Eus]. rewrite Ed, bind_ok.
      assert (Eps : RoomMember.ports (stopped (core g) m ps) = ps)
        by (unfold stopped; by destruct (receiver_udp m)).
      exists s2, (delete u (members room)). rewrite Eid, Ep, Eus, Eps. split; [done|]. split; [done|].
      split; [done|]. split; [exact (RoomMember.grows_trans _ _ _ Hg1 Hg2)|]. split; [exact Hps|].
      split; [exact Hss|]. intros ? [= <-]. split; [done|].
      unfold stopped. by destruct (receiver_udp m).
    - exists (core g), (members room). split; [rewrite <- Eid; by destruct g, room|].
      split; [by rewrite delete_id|]. split; [apply (ok_core _ _ Hg)|].
      split; [apply RoomMember.grows_refl|].
      split; [apply (ports_kept all)|split; [apply (sockets_kept all)|]]; try done;
        unfold held, socket, member_at; by rewrite Eat, Hu. }
  destruct Hex as (s & ms & E & -> & Hs & Hgr & Hp & Hso & Hback). unfold remove_member. rewrite E, bind_ok.
  eexists. split; [done|]. cbn [roomid members connections]. split.
  - eapply (change_ok all g _ id u None (delete u (connections room)) Hg); try done.
    + cbn. by rewrite Eat.
    + rewrite Eat. change (partial_alter _ u ?x) with (delete u x). by rewrite !dom_delete_L, Hdom.
  - split; [|split; [done|]].
    + intros i v. unfold member_at, room_at. cbn. destruct (decide (i = id)) as [->|Hi].
      * rewrite lookup_insert_eq, Er. cbn. destruct (decide (v = u)) as [->|Hv].
        -- by rewrite lookup_delete_eq, decide_True.
        -- by rewrite lookup_delete_ne, decide_False by (done || tauto).
      * by rewrite lookup_insert_ne, decide_False by (done || tauto).
    + intros m Hm. unfold member_at in Hm. rewrite Eat in Hm. by apply Hback.
Qed.

Lemma set_connections_ok g cs : server_ok all g -> server_ok all (set_connections g cs).
Proof. by intros [Hc Hr Hm Hp Hs]. Qed.

Lemma set_conn_map_ok g cs : server_ok all g -> server_ok all (set_conn_map g cs).
Proof. by intros [Hc Hr Hm Hp Hs]. Qed.

Lemma remove_ok g ptr : server_ok all g -> exists g', remove g ptr = Ok g' /\ server_ok all g'.
Proof.
  intros Hg. unfold remove. destruct (_connections g !! conn_id ptr) as [id|]; [|by exists g].
  destruct (_all_rooms g !! id) as [room|] eqn:Er.
  - destruct (find_connection room (conn_id ptr)) as [u|].
    + destruct (remove_member_ok g id room u Hg Er) as (g' & -> & Hg' & _). rewrite bind_ok.
      eexists. split; [done|]. by apply set_connections_ok.
    + rewrite bind_ok. eexists. split; [done|]. by apply set_connections_ok.
  - rewrite bind_ok. eexists. split; [done|]. by apply set_connections_ok.
Qed.

(** ** Datagrams *)

Context (order_perm : forall m, order nat m ≡ₚ map_to_list m).

(** The member's offer has a content with a fingerprint attribute: without
    one a DTLS packet makes the server fault. *)
Definition answerable (m : RoomMember) : Prop :=
  exists o c cs p, RoomMember.offer_sdp m = Some o /\ Sdp.media_contents o = c :: cs /\ Sdp.dtls c = Some p.

Lemma all_members_spec g id u m : server_ok all g ->
  (id, u, m) ∈ all_members g <-> member_at g id u = Some m.
Proof.
  intros Hg. unfold all_members. rewrite list_elem_of_bind. split.
  - intros ([i room] & Hin & Hroom). apply list_elem_of_fmap in Hin as ([v m'] & [= -> -> ->] & Hin).
    apply elem_of_map_to_list in Hroom, Hin. cbn in *. unfold member_at, room_at. by rewrite Hroom.
  - unfold member_at, room_at. intros Hm. destruct (_all_rooms g !! id) as [room|] eqn:Er; cbn in Hm.
    + exists (id, room). split; [|by apply elem_of_map_to_list].
      apply list_elem_of_fmap. exists (u, m). split; [done|]. by apply elem_of_map_to_list.
    + by rewrite lookup_empty in Hm.
Qed.

(** The socket of a member's receiver finds that member. *)
Lemma bound_member_spec g udp id u m : server_ok all g ->
  bound_member g udp = Some (id, u, m) <-> member_at g id u = Some m /\ receiver_udp m = Some udp.
Proof.
  intros Hg. assert (Hsound : forall id u m, bound_member g udp = Some (id, u, m) ->
    member_at g id u = Some m /\ receiver_udp m = Some udp).
  { clear id u m. intros id u m E. apply fmap_Some in E as ([i [[id' u'] m']] & Hx & [= -> -> ->]).
    apply list_find_Some in Hx as (Hl & Hu & _). split; [|exact Hu].
    apply all_members_spec; [done|]. by eapply list_elem_of_lookup_2. }
  split; [apply Hsound|]. intros [Hm Hu]. destruct (bound_member g udp) as [[[i v] m']|] eqn:E.
  - destruct (Hsound i v m' eq_refl) as [Hm' Hu'].
    destruct (ok_sockets _ _ Hg) as (_ & Hinj & _).
    destruct (Hinj i v id u udp) as [-> ->]; [unfold socket; by rewrite ?Hm, ?Hm'..|]. congruence.
  - exfalso. apply fmap_None, list_find_None in E.
    apply (all_members_spec g id u m Hg) in Hm. by apply (proj1 (list.Forall_forall _ _) E _ Hm).
Qed.

(** What a datagram is assumed to be: it does not come to the port of a
    receiver that was replaced, and is one that the member can handle. *)
Definition benign_for (g : server) (udp : nat) (addr : IpAddr) (data : bytes) : Prop :=
  udp ∈ Uvnet.alive (udps g) -> exists id u m, socket g id u = Some udp /\ member_at g id u = Some m /\
    answerable m /\ RoomMember.benign reset_view (core g) m addr data.

Lemma on_datagram_ok g udp addr data :
  RoomMember.libsrtp_starts (ctx := ctx) -> server_ok all g -> benign_for g udp addr data ->
  exists g', on_datagram g udp addr data = Ok g' /\ server_ok all g'.
Proof.
  intros Hl Hg Hb. unfold on_datagram. case_bool_decide as Hal; [|by exists g].
  destruct (Hb Hal) as (id & u & m & Hsock & Em & Hans & Hben).
  assert (Hudp : receiver_udp m = Some udp) by (unfold socket in Hsock; by rewrite Em in Hsock).
  rewrite (proj2 (bound_member_spec g udp id u m Hg)) by done. rewrite from_opt_Some, bind_ok.
  unfold member_at, room_at in Em. destruct (_all_rooms g !! id) as [room|] eqn:Er; cbn in Em;
    [|by rewrite lookup_empty in Em].
  unfold find_room. rewrite Er, from_opt_Some, bind_ok. rename Em into Hu.
  destruct (known_room g id room u m Hg Er Hu) as (Eat & Eid & Eu & Hm).
  assert (Em : member_at g id u = Some m) by (unfold member_at; by rewrite Eat).
  assert (Hmok : RoomMember.member_ok (core g) m).
  { split; [apply (inv_answer _ _ Hm)|exact Hans|apply (inv_handles _ _ Hm)].
    unfold receiver_udp in Hudp. destruct (RoomMember.udp_receiver m); [by eexists|done]. }
  destruct (RoomMember.on_udp_receive_keeps new_adapter (order nat) reset_view order_perm (core g) m udp addr data
    Hl (ok_core _ _ Hg) Hmok Hal Hben) as (s' & m' & -> & Hs' & Hm' & Hgr & Esame & Eports & [Eus _]).
  rewrite bind_ok. eexists. split; [done|].
  assert (Hport : port_of m' = port_of m) by (rewrite Esame; done).
  assert (Hrecv : receiver_udp m' = receiver_udp m) by (rewrite Esame; done).
  eapply (change_ok all g _ id u (Some m') (connections room) Hg).
  - unfold put_room, set_rooms, put_member. cbn [_all_rooms set_core roomid]. rewrite Eid, Eat. reflexivity.
  - rewrite Eat. change (partial_alter _ u ?x) with (<[u := m']> x).
    rewrite dom_insert_lookup_L by (by rewrite Hu). by apply (ok_rooms _ _ Hg id).
  - exact Hs'.
  - exact Hgr.
  - intros ? [= <-]. rewrite Esame at 1. split; [exact Eu|]. destruct Hm as [Ho Ha Hbd _].
    split; [by rewrite Esame| |by rewrite Esame|apply (RoomMember.ok_handles _ _ Hm')].
    rewrite Esame. exact Ha.
  - change (RoomMember.ports (core _)) with (RoomMember.ports s'). rewrite Eports. cbn. rewrite Hport.
    apply (ports_kept all); [done|]. unfold held. by rewrite Em.
  - change (udps _) with (Srtp.udps (RoomMember.srtp_world s')). rewrite Eus. cbn. rewrite Hrecv.
    apply (sockets_kept all); [done|]. unfold socket. by rewrite Em.
Qed.

(** ** Start-up *)

Lemma init_core r config g port :
  init r config = Ok (g, port) ->
  exists ps, core g = RoomMember.mkSfu ps RtcStreamMgr.empty_mgr (Srtp.mkWorld false ∅ [] Uvnet.no_udps) /\
    _all_rooms g = ∅.
Proof.
  intros E. unfold init in E. cbv zeta in E.
  apply res_bind_ok in E as (json & _ & E). apply res_bind_ok in E as (a & _ & E).
  apply res_bind_ok in E as (b & _ & E). apply res_bind_ok in E as (st & _ & E).
  apply res_bind_ok in E as (p & _ & E). apply res_bind_ok in E as (ip & _ & E).
  do 4 (apply res_bind_ok in E as (? & _ & E)). apply res_bind_ok in E as (ps & _ & E).
  injection E as <- _. by exists ps.
Qed.

Lemma init_ok r config g port :
  init r config = Ok (g, port) -> PortMgr.inv all (RoomMember.ports (core g)) [] -> server_ok all g.
Proof.
  intros E Hi. destruct (init_core r config g port E) as (ps & Ec & Er).
  assert (Hnone : forall id u, member_at g id u = None).
  { intros id u. unfold member_at, room_at. rewrite Er, lookup_empty. cbn. apply lookup_empty. }
  split.
  - rewrite Ec. split; cbn; [apply map_Forall_empty|apply map_Forall_empty|apply map_Forall_empty|done].
  - intros id room. by rewrite Er, lookup_empty.
  - intros id u m. by rewrite Hnone.
  - exists []. split; [done|]. unfold held. split; intros id u; rewrite Hnone; done.
  - unfold udps, socket. rewrite Ec. split; [|split]; cbn.
    + intros id u. by rewrite Hnone.
    + intros id u. by rewrite Hnone.
    + by intros x ?%elem_of_empty.
Qed.

(** ** Every reachable state *)

(** An event of the loop; a message comes while there are ports to hand out,
    a datagram is benign. *)
Inductive sys_step (g g' : server) : Prop :=
  | sys_newconnection conn : step g (ev_newconnection conn) = Ok g' -> sys_step g g'
  | sys_message ptr error msg :
      has_port g -> step g (ev_message ptr error msg) = Ok g' -> sys_step g g'
  | sys_close ptr : step g (ev_close ptr) = Ok g' -> sys_step g g'
  | sys_datagram udp addr data :
      benign_for g udp addr data -> step g (ev_datagram udp addr data) = Ok g' -> sys_step g g'.

Lemma close_ok g ptr : server_ok all g -> exists g', step g (ev_close ptr) = Ok g' /\ server_ok all g'.
Proof.
  intros Hg. cbn [step]. unfold on_connection_close. destruct (remove_ok g ptr Hg) as (g' & -> & Hg').
  rewrite bind_ok. eexists. split; [done|]. by apply set_conn_map_ok.
Qed.

Lemma sys_step_ok g g' :
  RoomMember.libsrtp_starts (ctx := ctx) -> server_ok all g -> sys_step g g' -> server_ok all g'.
Proof.
  intros Hl Hg [conn E|ptr error msg Hp E|ptr E|udp addr data Hb E].
  - apply ok_inj in E as <-. by apply set_conn_map_ok.
  - cbn [step] in E. unfold on_message in E. destruct (negb _); [by apply ok_inj in E as <-|].
    destruct (SUtil.parseJson reader_parse (c_str msg)); [by eapply handle_ok|by apply ok_inj in E as <-].
  - destruct (close_ok g ptr Hg) as (g1 & E1 & Hg1). rewrite E in E1. by apply ok_inj in E1 as ->.
  - destruct (on_datagram_ok g udp addr data Hl Hg Hb) as (g1 & E1 & Hg1). cbn [step] in E.
    rewrite E in E1. by apply ok_inj in E1 as ->.
Qed.

Lemma reachable_ok g0 g :
  RoomMember.libsrtp_starts (ctx := ctx) -> server_ok all g0 -> rtc sys_step g0 g -> server_ok all g.
Proof. intros Hl Hok0 Hr. induction Hr as [|g1 g2 g3 Hs _ IH]; [done|]. apply IH. by eapply sys_step_ok. Qed.


(** C18. A disconnect takes out one member that joined over the connection:
    the socket of its receiver is deleted and no other, its port, which was
    out, is back with the manager, it is forgotten by its room, and no other
    member of any room changes. *)
Theorem close_takes_member_out (g : server) (ptr : Connection) (id : Z) (u : bytes) (m : RoomMember) :
  server_ok all g -> _connections g !! conn_id ptr = Some id -> member_at g id u = Some m ->
  find_connection (room_at g id) (conn_id ptr) = Some u ->
  exists g', step g (ev_close ptr) = Ok g' /\ server_ok all g' /\
    _connections g' = delete (conn_id ptr) (_connections g) /\
    (forall i v, member_at g' i v = if decide (i = id /\ v = u) then None else member_at g i v) /\
    udps g' = match receiver_udp m with Some x => Uvnet.delete_udp (udps g) x | None => udps g end /\
    match port_of m with
    | Some p => exists out, PortMgr.inv all (RoomMember.ports (core g)) (p :: out) /\
                  PortMgr.inv all (RoomMember.ports (core g')) out
    | None => RoomMember.ports (core g') = RoomMember.ports (core g)
    end.
Proof.
  intros Hg Ec Em Hf. cbn [step]. unfold on_connection_close, remove. rewrite Ec.
  pose proof Em as Em'. unfold room_at in Hf. unfold member_at, room_at in Em.
  destruct (_all_rooms g !! id) as [room|] eqn:Er; cbn in Em, Hf; [|by rewrite lookup_empty in Em].
  rewrite Hf.
  destruct (remove_member_ok g id room u Hg Er) as (g' & -> & Hg' & Hat & Econn & Hback). rewrite !bind_ok.
  destruct (Hback m Em') as [Hport Hus].
  eexists. split; [done|]. split; [by apply set_conn_map_ok, set_connections_ok|].
  split; [cbn; by rewrite Econn|]. split; [exact Hat|]. split; [exact Hus|].
  unfold gives_back in Hport. cbn. destruct (port_of m) as [p|] eqn:Ep; [|exact Hport].
  destruct (ok_ports _ _ Hg) as (out & Hi & Hin & _).
  assert (Hp : p ∈ out) by (apply (Hin id u); unfold held; by rewrite Em').
  apply elem_of_Permutation in Hp as [out' Hout]. exists out'.
  destruct (PortMgr.recycle_inv all _ out p out' Hi Hout) as (pm' & E & Hi').
  rewrite Hport in E. apply ok_inj in E as <-. split; [|exact Hi'].
  by eapply inv_perm.
Qed.

(** *** Requests *)

(** C17. A join with a numeric room id adds exactly one member, named by [uid]
    and bound to the connection, to its room, which is made when it is
    missing; a second join with a name that is taken changes nothing. *)
Theorem join_adds_member (g : server) (msg : J) (ptr : Connection) (sroomid uid : bytes) (id : Z) :
  get_json_string msg (lit "cmd") [] = Ok (lit "join") ->
  get_json_string msg (lit "roomId") [] = Ok sroomid -> get_json_string msg (lit "uid") [] = Ok uid ->
  uid <> [] -> stoll (c_str sroomid) = Ok id ->
  (forall room, find_room g id = Some room -> roomid room = id) ->
  exists g', handle g msg ptr = Ok g' /\ core g' = core g /\
    (is_Some (member_at g id uid) -> g' = g) /\
    (member_at g id uid = None ->
       (forall i v, member_at g' i v =
          if decide (i = id /\ v = uid) then Some (new_member uid) else member_at g i v) /\
       _connections g' = <[conn_id ptr := id]> (_connections g) /\
       out g' = out g ++ (if is_ws ptr
         then [(conn_id ptr, writeString (resp_join sroomid uid (snd <$> order _ (members (room_at g id)))))]
         else [])).
Proof using Type.
  clear order_perm server_bound cert_ok all_ports all_nodup all reset_view.
  intros Ecmd Er Eu Hu Eid Hrooms. unfold handle. rewrite Ecmd, bind_ok, bool_decide_eq_true_2 by done.
  unfold handle_join. rewrite Er, bind_ok, Eu, bind_ok.
  assert (Hr : sroomid <> []) by (intros ->; done).
  rewrite !nonempty_zlen by done. cbn [orb].
  rewrite Eid, bind_ok.
  assert (Hfr : exists g0, (match find_room g id with Some room => (g, room) | None => create_room g id end)
            = (g0, room_at g id) /\ core g0 = core g /\ out g0 = out g /\
            _connections g0 = _connections g /\ roomid (room_at g id) = id /\
            (is_Some (member_at g id uid) -> g0 = g) /\
            forall r, roomid r = id -> _all_rooms (put_room g0 r) = <[id := r]> (_all_rooms g)).
  { unfold member_at, room_at. unfold find_room in *.
    destruct (_all_rooms g !! id) as [r0|] eqn:Er0.
    - exists g. do 4 (split; [done|]). split; [by apply Hrooms|]. split; [done|]. by intros r <-.
    - eexists. split; [reflexivity|]. do 4 (split; [done|]). split.
      + cbn. rewrite lookup_empty. by intros [? ?].
      + intros r Hr'. cbn. rewrite Hr'. by rewrite insert_insert_eq. }
  destruct Hfr as (g0 & -> & Ec & Eout & Econn & Erid & Hsame & Hput). rewrite Erid.
  fold (member_at g id uid). case_bool_decide as Hm.
  { rewrite (Hsame Hm). exists g. split; [done|]. split; [done|]. split; [done|].
    intros E. rewrite E in Hm. by destruct Hm. }
  eexists. split; [reflexivity|]. cbn. split; [by rewrite (proj1 (write_parts _ _ _))|].
  split; [done|]. intros _. split; [|split].
  - intros i v. unfold member_at, room_at. cbn. rewrite (proj2 (write_parts _ _ _)), Hput by done.
    destruct (decide (i = id)) as [->|Hi].
    + rewrite lookup_insert_eq. cbn. destruct (decide (v = uid)) as [->|Hv].
      * by rewrite lookup_insert_eq, decide_True.
      * by rewrite lookup_insert_ne, decide_False by (done || tauto).
    + by rewrite lookup_insert_ne, decide_False by (done || tauto).
  - unfold write. destruct (is_ws ptr); cbn; by rewrite Econn.
  - unfold write. destruct (is_ws ptr); cbn; rewrite Eout; [done|by rewrite app_nil_r].
Qed.

(** C19. One request stops the server: a room id that is not a number in the
    range of [int64_t] throws out of the handler, in a join or a publish with a
    name and in a pull that also names whom to pull, and so does a message that
    is JSON but not an object. *)
Theorem bad_request_throws (g : server) (msg : J) (ptr : Connection) (cmd sroomid uid : bytes) (e : fault) :
  cmd ∈ [lit "join"; lit "publish"; lit "pullstream"] ->
  get_json_string msg (lit "cmd") [] = Ok cmd ->
  get_json_string msg (lit "roomId") [] = Ok sroomid -> get_json_string msg (lit "uid") [] = Ok uid ->
  (cmd = lit "pullstream" -> exists remote, get_json_string msg (lit "remote_uid") [] = Ok remote /\ remote <> []) ->
  sroomid <> [] -> uid <> [] -> stoll (c_str sroomid) = Fail e ->
  handle g msg ptr = Fail e /\
  forall msg', isNull msg' || isObject msg' = false -> handle g msg' ptr = Fail LogicError.
Proof using Type.
  clear order_perm server_bound cert_ok all_ports all_nodup all reset_view.
  intros Hcmd Ec Er Eu Ev Hr Hu Es.
  split.
  - unfold handle. rewrite Ec, bind_ok. case_bool_decide as Hc1; [|case_bool_decide as Hc2; [|case_bool_decide as Hc]].
    + unfold handle_join. rewrite Er, bind_ok, Eu, bind_ok, !nonempty_zlen by done. cbn [orb]. by rewrite Es.
    + unfold handle_publish. rewrite Er, bind_ok, Eu, bind_ok, !nonempty_zlen by done. cbn [orb]. by rewrite Es.
    + destruct (Ev Hc) as (remote & Ev' & Hv). unfold handle_pull.
      rewrite Er, bind_ok, Eu, bind_ok, Ev', bind_ok, !nonempty_zlen by done. cbn [orb]. by rewrite Es.
    + exfalso. set_solver.
  - intros msg' Hmsg. unfold handle. by rewrite get_json_string_other by done.
Qed.
End Signaling.

(** ** Concrete runs *)

(** An endpoint has only its port here. *)
#[program] Definition toy_make : @IpAddressMake Uvnet.addr4 Uvnet.addr4_ops := {|
  no_addr := Uvnet.mkAddr4 (0, 0, 0, 0) 0;
  of_port p := Uvnet.mkAddr4 (127, 0, 0, 1) p;
  setIp a _ := a;
|}.
Next Obligation. intros p Hp. by apply u16_small. Qed.
Next Obligation. done. Qed.

Definition toy_certificate : SslFingerprint.SSLCertificate unit := {|
  SslFingerprint.cert_ComputeDigest _ _ _ := Some (replicate 32 7);
  SslFingerprint.cert_GetSignatureDigestAlgorithm _ := Some (lit "sha-256");
|}.

Definition quote : bytes := [34].

(** The text of a browser's offer, as the sdp member of a message has it. *)
Definition toy_offer : bytes :=
  lit "{" ++ quote ++ lit "type" ++ quote ++ lit ":" ++ quote ++ lit "offer" ++ quote ++ lit ","
  ++ quote ++ lit "sdp" ++ quote ++ lit ":" ++ quote
  ++ lit "v=0\r\no=- 535640925877566162 2 IN IP4 127.0.0.1\r\ns=-\r\nt=0 0\r\n"
  ++ lit "a=group:BUNDLE 0\r\n"
  ++ lit "m=audio 9 UDP/TLS/RTP/SAVPF 111 63\r\nc=IN IP4 0.0.0.0\r\na=ice-ufrag:tfxT\r\n"
  ++ lit "a=ice-pwd:ey7jCJhNtCgePK9VtrE6oVQD\r\n"
  ++ lit "a=fingerprint:sha-256 4D:2F:8C:D0:05:A8:C0:62:6C:46:21:6D:55:C9:FF:63:8E:4C:52:73:6F:2C:F0:DE:A2:AB:30:54:EC:FB:17:6F\r\n"
  ++ lit "a=setup:actpass\r\na=mid:0\r\na=sendonly\r\na=rtpmap:111 opus/48000/2\r\n"
  ++ lit "a=ssrc:1018269816 cname:7+olxTWrQCJnCn77\r\n" ++ quote ++ lit "}".

Definition toy_msg (cmd room : bytes) (rest : list (bytes * toy_json)) : toy_json :=
  JObject ([(lit "cmd", JString cmd); (lit "roomId", JString room)] ++ rest).

Definition toy_table : list (bytes * toy_json) :=
  [(lit "config", JObject [(lit "udp_port_start", JInt 10000); (lit "udp_port_end", JInt 10003);
      (lit "udp_port_step", JInt 1); (lit "server_port", JInt 5000);
      (lit "server_ip", JString (lit "127.0.0.1"))]);
   (lit "join pub", toy_msg (lit "join") (lit "42") [(lit "uid", JString (lit "pub"))]);
   (lit "join player", toy_msg (lit "join") (lit "42") [(lit "uid", JString (lit "player"))]);
   (lit "publish", toy_msg (lit "publish") (lit "42")
      [(lit "uid", JString (lit "pub")); (lit "sdp", JString toy_offer)]);
   (lit "pull", toy_msg (lit "pullstream") (lit "42")
      [(lit "uid", JString (lit "player")); (lit "remote_uid", JString (lit "pub"));
       (lit "sdp", JString toy_offer)])].

Section Witnesses.
#[local] Existing Instance Srtp.toy_srtp.
#[local] Existing Instance Dtls.toy_adapter.
#[local] Existing Instance MessageDigest.toy_evp.
#[local] Existing Instance Uvnet.addr4_ops.
#[local] Existing Instance toy_make.
#[local] Existing Instance toy_certificate.
#[local] Existing Instance IpAddress.toy_net.
#[local] Existing Instance Helpers.TestRandomGenerator.
#[local] Instance toy_ops : JsonOps toy_json := toy_json_ops toy_table.

Definition any (T : Type) : gmap bytes T -> list (bytes * T) := map_to_list.

Abbreviation toy_step := (step (IpAddr := Uvnet.addr4) Dtls.fresh_adapter any RoomMember.same_view tt true).
Abbreviation toy_run := (run (IpAddr := Uvnet.addr4) Dtls.fresh_adapter any RoomMember.same_view tt true).

Definition toy_server := server (IpAddr := Uvnet.addr4) (ctx := Srtp.toy_ctx) (A := Dtls.toy_ssl) (R := Z).

Definition toy_init : res (toy_server * Z) := init 1 (lit "config").

Definition browser1 : Connection := mkConn 1 true.
Definition browser2 : Connection := mkConn 2 true.
Definition peer1 : Uvnet.addr4 := Uvnet.mkAddr4 (192, 0, 2, 33) 4000.

Definition toy_events : list (event (IpAddr := Uvnet.addr4)) :=
  [ev_newconnection browser1; ev_newconnection browser2;
   ev_message browser1 0 (lit "join pub"); ev_message browser1 0 (lit "publish");
   ev_message browser2 0 (lit "join player"); ev_message browser2 0 (lit "pull")].

Definition toy_after (es : list event) : res toy_server := '(g, _) ← toy_init; toy_run g es.

(** Both requests are answered, on ports of their own. *)
Example toy_requests :
  (fun g : toy_server => (fst <$> out g, held g 42 (lit "pub"), held g 42 (lit "player"))) <$>
    toy_after toy_events = Ok ([1; 1; 2; 2], Some 10000, Some 10001).
Proof. vm_compute. reflexivity. Qed.

Definition peer2 : Uvnet.addr4 := Uvnet.mkAddr4 (192, 0, 2, 34) 4000.

Definition toy_rtp : bytes := [128; 111] ++ replicate 10 5 ++ [9] ++ replicate 10 0.
Definition toy_rtcp : bytes := [128; 201; 0; 1] ++ replicate 4 5 ++ replicate 10 0.

(** Handshakes, then media: the publisher's first packet finds no subscriber,
    the one after the player's receiver report does. *)
Definition toy_media_events : list (event (IpAddr := Uvnet.addr4)) :=
  [ev_datagram 0 peer1 (Dtls.hello_packet 0);
   ev_datagram 1 peer2 (Dtls.hello_packet 0);
   ev_datagram 0 peer1 toy_rtp;
   ev_datagram 1 peer2 toy_rtcp;
   ev_datagram 0 peer1 toy_rtp].

(** The last packet reaches the player under the player's key, and the
    player's report the publisher. *)
Example toy_media :
  (fun g : toy_server => Srtp.net (RoomMember.srtp_world (core g))) <$>
    toy_after (toy_events ++ toy_media_events) =
  Ok [(peer1, [128; 201; 0; 1] ++ replicate 4 5 ++ replicate 10 16);
      (peer2, [128; 111] ++ replicate 10 5 ++ [9] ++ replicate 10 16)].
Proof. vm_compute. reflexivity. Qed.

Definition toy_ports : list Z := PortMgr.port_range 10000 1 3.

Lemma toy_ports_nodup : NoDup toy_ports.
Proof. apply (bool_decide_unpack _). vm_compute. exact I. Qed.

Lemma toy_ports_range : Forall (fun p => 0 < p < 65536) toy_ports.
Proof. vm_compute. repeat (constructor; [split; reflexivity|]). constructor. Qed.

Lemma toy_cert_ok : is_Some (SslFingerprint.CreateFromCertificate tt).
Proof. vm_compute. by eexists. Qed.

Lemma toy_libsrtp_starts : RoomMember.libsrtp_starts (ctx := Srtp.toy_ctx).
Proof. done. Qed.

(** The state after some events. *)
Definition toy_state (es : list event) : toy_server :=
  match toy_after es with Ok g => g | Fail _ => fresh_server 1 end.

Definition join_pub : event (IpAddr := Uvnet.addr4) := ev_message browser1 0 (lit "join pub").
Definition publish : event (IpAddr := Uvnet.addr4) := ev_message browser1 0 (lit "publish").

Lemma toy_init_inv : PortMgr.inv toy_ports (RoomMember.ports (core (toy_state []))) [].
Proof. apply (PortMgr.init_inv 10000 10003 1); [lia|lia|]. vm_compute. reflexivity. Qed.

Lemma toy_message es ptr msg :
  has_port (toy_state es) ->
  toy_step (toy_state es) (ev_message ptr 0 msg) = Ok (toy_state (es ++ [ev_message ptr 0 msg])) ->
  sys_step Dtls.fresh_adapter any RoomMember.same_view tt true (toy_state es)
    (toy_state (es ++ [ev_message ptr 0 msg])).
Proof. intros Hp E. by eapply sys_message. Qed.

Lemma toy_reaches :
  rtc (sys_step Dtls.fresh_adapter any RoomMember.same_view tt true) (toy_state [])
    (toy_state [join_pub; publish]).
Proof.
  eapply rtc_l; [apply (toy_message [] browser1 (lit "join pub"))|].
  - intros p ps E. vm_compute in E. injection E as <- _. discriminate.
  - vm_compute. reflexivity.
  - eapply rtc_l; [apply (toy_message [join_pub] browser1 (lit "publish"))|apply rtc_refl].
    + intros p ps E. vm_compute in E. injection E as <- _. discriminate.
    + vm_compute. reflexivity.
Qed.


Lemma toy_state_ok : server_ok toy_ports (toy_state [join_pub; publish]).
Proof.
  eapply (reachable_ok Dtls.fresh_adapter any RoomMember.same_view tt true toy_ports toy_ports_nodup
    toy_ports_range toy_cert_ok eq_refl (fun m => Permutation_refl _)); [exact toy_libsrtp_starts| |exact toy_reaches].
  apply (init_ok toy_ports 1 (lit "config") _ 5000); [vm_compute; reflexivity|exact toy_init_inv].
Qed.

Lemma close_takes_member_out_witness :
  let g := toy_state [join_pub; publish] in
  exists g', toy_step g (ev_close browser1) = Ok g' /\ server_ok toy_ports g' /\
    _connections g' = delete (conn_id browser1) (_connections g) /\
    (forall i v, member_at g' i v =
      if decide (i = 42 /\ v = lit "pub") then None else member_at g i v) /\
    udps g' = Uvnet.delete_udp (udps g) 0 /\
    exists out, PortMgr.inv toy_ports (RoomMember.ports (core g)) (10000 :: out) /\
                PortMgr.inv toy_ports (RoomMember.ports (core g')) out.
Proof.
  assert (E : exists m, member_at (toy_state [join_pub; publish]) 42 (lit "pub") = Some m /\
    receiver_udp m = Some 0%nat /\ port_of m = Some 10000)
    by (eexists; split; [vm_compute; reflexivity|split; reflexivity]).
  destruct E as (m & Em & Eu & Ep).
  pose proof (close_takes_member_out Dtls.fresh_adapter any RoomMember.same_view tt true toy_ports toy_ports_nodup
    (toy_state [join_pub; publish]) browser1 42 (lit "pub") m) as Hc.
  rewrite Eu, Ep in Hc. apply Hc.
  - exact toy_state_ok.
  - vm_compute. reflexivity.
  - exact Em.
  - vm_compute. reflexivity.
Defined.

Lemma join_adds_member_witness :
  let g := toy_state [join_pub; publish] in
  let msg := toy_msg (lit "join") (lit "42") [(lit "uid", JString (lit "player"))] in
  exists g', handle any tt true g msg browser2 = Ok g' /\ core g' = core g /\
    (is_Some (member_at g 42 (lit "player")) -> g' = g) /\
    (member_at g 42 (lit "player") = None ->
       (forall i v, member_at g' i v =
          if decide (i = 42 /\ v = lit "player") then Some (new_member (lit "player")) else member_at g i v) /\
       _connections g' = <[conn_id browser2 := 42]> (_connections g) /\
       out g' = out g ++ (if is_ws browser2
         then [(conn_id browser2,
                writeString (resp_join (lit "42") (lit "player") (snd <$> any _ (members (room_at g 42)))))]
         else [])).
Proof.
  apply (join_adds_member any tt true (toy_state [join_pub; publish])).
  - vm_compute. reflexivity.
  - vm_compute. reflexivity.
  - vm_compute. reflexivity.
  - discriminate.
  - vm_compute. reflexivity.
  - vm_compute. by intros ? [= <-].
Defined.

Definition bad_join : toy_json := toy_msg (lit "join") (lit "lobby") [(lit "uid", JString (lit "a"))].
Definition bad_pull : toy_json := toy_msg (lit "pullstream") (lit "lobby")
  [(lit "uid", JString (lit "a")); (lit "remote_uid", JString (lit "b"))].

Lemma bad_request_throws_witness :
  let g := toy_state [join_pub; publish] in
  handle any tt true g bad_join browser2 = Fail InvalidArgument /\
  handle any tt true g bad_pull browser2 = Fail InvalidArgument /\
  forall msg', isNull msg' || isObject msg' = false -> handle any tt true g msg' browser2 = Fail LogicError.
Proof.
  split; [|apply (bad_request_throws any tt true _ bad_pull browser2 (lit "pullstream") (lit "lobby") (lit "a"))].
  - apply (bad_request_throws any tt true _ bad_join browser2 (lit "join") (lit "lobby") (lit "a")).
    + set_solver.
    + vm_compute. reflexivity.
    + vm_compute. reflexivity.
    + vm_compute. reflexivity.
    + discriminate.
    + discriminate.
    + discriminate.
    + vm_compute. reflexivity.
  - set_solver.
  - vm_compute. reflexivity.
  - vm_compute. reflexivity.
  - vm_compute. reflexivity.
  - intros _. exists (lit "b"). split; [vm_compute; reflexivity|discriminate].
  - discriminate.
  - discriminate.
  - vm_compute. reflexivity.
Defined.

(** Findings, on concrete runs.  A connection that joined twice leaves its
    other member behind when it closes. *)
Example second_member_stays :
  (fun g : toy_server => (bool_decide (is_Some (member_at g 42 (lit "pub"))) ||
                          bool_decide (is_Some (member_at g 42 (lit "player"))), _connections g)) <$>
    toy_after [join_pub; ev_message browser1 0 (lit "join player"); ev_close browser1] = Ok (true, ∅).
Proof. vm_compute. reflexivity. Qed.

(** A second publish takes a second port, and only that one is given back:
    of the three ports two are left after the member has gone. *)
Example republish_leaks_port :
  (fun g : toy_server => PortMgr._recycle (RoomMember.ports (core g)) +
     PortMgr._max (RoomMember.ports (core g)) - PortMgr._curr (RoomMember.ports (core g))) <$>
    toy_after [join_pub; publish; publish; ev_close browser1] = Ok 2.
Proof. vm_compute. reflexivity. Qed.

(** A second publish frees the receiver of the first without stopping it: the
    next datagram for the port the browser was told first calls the freed
    object. *)
Example replaced_receiver_dangling :
  is_ok (toy_after [join_pub; publish; publish]) = true /\
  is_ok (toy_after [join_pub; publish; publish; ev_datagram 1 peer1 (Dtls.hello_packet 0)]) = true /\
  toy_after [join_pub; publish; publish; ev_datagram 0 peer1 (Dtls.hello_packet 0)] = Fail Dangling.
Proof. by vm_compute. Qed.

(** A publisher leaves: its player's transport stays linked to the one of the
    publisher, whose socket is deleted, so the player's next receiver report
    is sent through freed memory. *)
Example publisher_left_dangling :
  is_ok (toy_after (toy_events ++ toy_media_events ++ [ev_close browser1])) = true /\
  toy_after (toy_events ++ toy_media_events ++ [ev_close browser1; ev_datagram 1 peer2 toy_rtcp]) =
    Fail Dangling.
Proof. by vm_compute. Qed.

(** Any connection may publish for any member. *)
Example foreign_publish :
  (fun g : toy_server => held g 42 (lit "pub")) <$>
    toy_after [join_pub; ev_message browser2 0 (lit "publish")] = Ok (Some 10000).
Proof. vm_compute. reflexivity. Qed.
End Witnesses.
